(* ===== verification/_CoqProject ===== *)
-Q . S2P
Prelude.v
Errors.v
Text.v
Host.v
Private.v
Contracts.v
Stores.v
Toy.v
Queue.v
Process.v
ExecSupport.v
Reporting.v
Quarantine.v
LocalExec.v
Scheduler.v
Recovery.v
Telemetry.v
Reader.v
LogToy.v
Records.v
Csv.v
Delivery.v
Checkpoint.v
Select.v
FileInput.v
Family.v
Fmt.v
Throttle.v
BTree.v
Work.v
UpgradeRequest.v
Upgrade.v
WorkLoop.v
Search.v
Policies.v
Requests.v
Commands.v
Identity.v
Terminal.v
Discovery.v
Facts.v
Planner.v
Wire.v
Exporters.v
Metrics.v
Sources.v
Inputs.v
Config.v
ConfigLoad.v
Health.v
Frames.v
Tick.v
