(* ===== verification/Prelude.v ===== *)
(** * wist-agentd, verified

    wist-agentd is the agent that runs on a managed host.  It takes action plans into a local
    queue, runs them one at a time through a child process and reports each result; it follows
    the host's log files and sends their lines as telemetry records; it enrols with a gateway,
    keeps its certificate fresh, and takes from the gateway what it may do: granted work,
    upgrades of itself, policies and one-shot commands.  This library models the parts of the
    Rust code under src/src/ that decide what is kept, sent, run, replaced or killed, and
    proves what they promise, in particular when calls fail or the agent dies between two of
    them.

    ** The model

    A handler of the code is a definition of the same name in the monad [M S A] of this file: it
    reads and changes a state [S] and returns a value or an error, and the state reached before
    an error is kept, as in the program.  [io::Error] and the newtypes around it are [IoError].
    The [?] operator is the monad's bind; [match call { Ok .., Err .. }] is [try].  [respects R
    m] says how a handler may change its state, whatever it returns; [solve_respects] proves it
    from the calls it makes. Host.v is the host: a file system as a map from paths to bytes and a
    set of directories, a clock, and a process table. Which file-system calls fail, and how, is a
    function of the operation and its path ([fs_fault]), so a theorem without [fault_free] holds
    for every set of calls that fail throughout a run; a call that fails once and then succeeds
    is not covered, unless a theorem speaks of single calls. A crash between two calls is a
    prefix of [run_steps]. Code that is not in the repository is a type class: the kernel's
    process table ([Os]), the contract crates ([Contracts], [LogContracts], [FilterContracts]),
    serialisation ([Json]), a child process ([ChildProcess]), the telemetry sink ([RecordSink]),
    file identities and symbolic links ([FileMeta]), glob patterns ([GlobSet]); for the gateway's
    part of the program the contract types ([WorkContracts], [PolicyApi], [CommandVocabulary]),
    what the gateway answers ([WorkGateway], [PolicyGateway], [CommandHost], [EnrollHost],
    [DaemonHost]), archives and the service manager ([Artifacts], [UpgradeHost]), a directory
    tree ([Tree]), certificates ([Certificates]), the shared crate's private store
    ([SharedPrivate]) and the Unicode tables of the standard library ([UnicodeTables]); for what
    is known of the host and sent of it the probes and documents of discovery
    ([DiscoveryContracts], [FactContracts]), the kernel's counters and floating-point numbers
    ([Kernel], [Float64], [MetricTable]), other programs ([Programs], [JsonValues],
    [ExporterCodec]), the parser of the configuration and the shared crates around it
    ([ConfigContracts], [ConfigCodec], [ConfigNames], [SharedBytes]), /proc as it answers
    ([ProcFs]), the frames of the wire and the other end of a connection ([WireContracts],
    [Peer], [FrameSink], [ReportContracts]). The answers of a gateway are functions of all that
    was sent before, so a theorem holds for every gateway. The laws a theorem uses are a class of
    their own (the classes named Laws), each instantiated by a concrete function for the
    witnesses (Toy.v, LogToy.v, and the Concrete modules). Machine integers are Z with their
    bounds or wrap-around written out; strings are byte strings, with UTF-8 validity in Text.v.

    ** The execution controller

    - Stores.v: state_store/execution_queue.rs, running.rs, reporting.rs and history.rs, one
      module per document, over the blocking and the asynchronous store ([Backend] in Host.v).
      [atomic_store_crash_safe] (Host.v): a reader finds the old or the new document, never
      part of one, after any crash or failure.
    - Queue.v: the queue document refines one FIFO queue per priority ([queue_refines_fifo]).
    - Process.v: exec/process_control.rs with its support file.  A pid is only killed while its
      identity token matches ([expired_kill_only_own_process]); waiting ends
      ([wait_for_exit_terminates]).
    - ExecSupport.v: exec/execution_support.rs, the search for a duplicate execution in all four
      stores ([find_duplicate_decides]).
    - Reporting.v: reporting/reporting_pipeline.rs with its support file; the reporting state and
      the envelope are both there after a success, whatever was missing
      ([ensure_local_report_complete]).
    - Quarantine.v: exec/quarantine.rs; an execution is in the queue or recorded in the history
      after every failure ([quarantine_never_loses]).
    - LocalExec.v: exec/local_exec.rs, its support file and the results of exec/recovery.rs.  A
      success is only reported for a child that exited cleanly ([success_needs_clean_exit]);
      cancellation escalates; captured output is bounded.
    - Scheduler.v: runtime/scheduler.rs with scheduler_queue_head.rs and
      scheduler_reporting_support.rs, which compose all of the above.  Draining loses no
      execution ([drain_conserves_executions]) and ends ([drain_loop_terminates]: the fuel is
      one round per queued item and one more, since each reload has removed the head).
    - Recovery.v: runtime/daemon_recovery.rs.

    ** The log pipeline

    - Telemetry.v: the data of the pipeline and its two stores (state_store/log_checkpoint*.rs,
      log_seq_state.rs, telemetry/container_ref.rs).
    - Reader.v: telemetry/logs/files/file_reader.rs.  A read tiles the file from its offset into
      complete lines, within its limits ([read_from_offset_tiles]); the loop's fuel is one
      round per byte and one more, and it always stops by its own conditions
      ([read_loop_tiles]).  A read that returns nothing has nothing complete to return
      ([read_makes_progress]).
    - Records.v: telemetry/logs/gate.rs, parser.rs, multiline.rs and files/multiline_support.rs.
      Every record is sent with the next number, withheld and counted, or dropped as noise
      ([uplink_accounts_for_every_record]).  The delimiter of wist_shared is a parameter.
    - Csv.v: the csvlog folder cuts the stream where a byte-by-byte RFC 4180 automaton does,
      over any number of batches, while each record is within its limits
      ([fold_csv_matches_reference]); beyond them only whole records are sent
      ([csv_only_whole_records]).
    - Delivery.v: telemetry/buffer.rs, spool.rs and files/delivery_support.rs.  A batch that
      is delivered is sent or spooled in full, and sent at least once when the sink fails
      ([deliver_conserves]); a replay sends the backlog or keeps it
      ([replay_delivers_backlog], [spool_roundtrip]).
    - Checkpoint.v: files/file_watcher.rs and files/checkpoint_support.rs.  Reading goes on
      where it was exactly if identity, length, the first bytes and the bytes before the offset
      are the recorded ones, and starts over otherwise ([resume_follows_file]).
    - Select.v: files/glob_match.rs.  A scan selects exactly the covered paths that pass
      exclusions and container filters ([selection_exact], [filters_decide]).
    - FileInput.v: [FileInputProcessor] of files/file.rs with files/state_support.rs, the
      composition of the above.  The checkpoint moves only after every record is sent or
      spooled and the sequence number is stored ([checkpoint_moves_last]); a failed replay
      reads nothing and pauses at the spool's limit ([failed_replay_reads_nothing]).
    - Family.v: [FileFamilyProcessor], many files under one input: the same order of commits
      ([family_checkpoint_moves_last]), each real file at most once
      ([family_working_set]), and one line budget for the whole pass ([family_pass_bounded]).

    ** What the gateway decides

    Errors.v is the monad of handlers whose error is a type of their own.  Fmt.v (trimming,
    [Debug] text, integers in text), Throttle.v (a minimum interval between two requests) and
    BTree.v (ordered maps) are shared by what follows.

    - Work.v: control/work.rs and state_store/work.rs, the work the gateway grants. A one-shot
      work that is being done is not dispatched again, over snapshots and over restarts from a
      view that tells of it ([dispatched_once]), its result stays until it is acknowledged and
      every acknowledgement converges ([acks_converge]), and the local view survives its round
      trip ([restore_view_roundtrip]).
    - UpgradeRequest.v and Upgrade.v: upgrade.rs with bin/wist-upgrader.rs.  The command line of
      the upgrader parses back to the request ([launch_roundtrip]); the replacement installs all
      binaries or none ([install_all_or_nothing]), a success means that the new version ran
      ([success_is_complete]) and a rollback that each binary is the old one, or what a backup of
      the same version held that was there before ([rolled_back_is_restored]).
    - WorkLoop.v: the turns of runtime/daemon.rs that fetch the grant, dispatch an upgrade and
      report it.  Two upgrades never overlap ([upgrades_never_overlap]), each outcome is reported
      once ([upgrade_reported_once]), and a restart remembers the launch
      ([launch_survives_restart]).
    - Search.v: discovery/log_source/search.rs.  The walk stays below the allowed roots
      ([search_stays_below_roots]), within its budget ([search_work_bounded]), and agrees with a
      plain description of what it looks for ([search_exact]).
    - Policies.v: control/uplink.rs, discovery_snapshot.rs and source_search_policy.rs, with their
      throttled refreshes in runtime/daemon.rs.  The state in force is the last answer's
      ([uplink_follows_gateway]).
    - Requests.v: the parameters of commands, from investigate.rs, control/preflight.rs and
      reporting/fact_summary.rs; whatever is sent ends in range ([investigation_in_range]).
    - Commands.v: state_store/commands.rs and the commands of a turn in runtime/daemon.rs. A
      command is carried out once while it is remembered ([commands_executed_once]), answered if
      it came with a regular report ([commands_answered]), and remembered over restarts
      ([history_survives_restart]).
    - Private.v and Identity.v: the files only the agent may read;
      state_store/client_identity.rs, agent_runtime.rs and control/enrollment.rs. The client is
      safe ([client_is_safe]), the agent enrols once as long as its identity can be looked up
      ([enrolled_once]), the one-time token does not stay ([scrub_exact]), and a renewal does
      what its last reply says ([renewal_exact]).
    - Terminal.v: state_store/auth_terminal.rs and the turns of runtime/daemon.rs after a final
      rejection.  Nothing is sent but the question whether the gateway takes the agent back
      ([terminal_is_silent]); ledger and memory agree ([ledger_tells_terminal]); a gateway that
      says yes ends it in time ([terminal_recovers]).

    ** What the agent knows of its host

    - Discovery.v: discovery/policy.rs, cache.rs and runtime.rs. A probe is asked at most once
      per interval ([probe_throttled]), a snapshot is made of the last successful output of every
      probe unless a scheduled refresh loses one that fails ([refresh_exact]), and the cache
      gives a snapshot back ([cache_roundtrip]).
    - Facts.v: reporting/fact_summary.rs and the address filter of discovery/network.rs.  A summary
      holds exactly what the snapshot tells, sorted, without ephemeral ports ([summary_exact]).
    - Planner.v: exec/planner_bridge.rs, the candidates and the target view of the metrics.  What a
      restart finds is the last snapshot and the view planned from it, on a host whose calls
      succeed ([snapshots_survive_restarts]).
    - Sources.v: discovery/log_source.rs, its rules and control/log_sources.rs, which tell where the
      logs of databases are.  What the rules propose is a clean path ([proposals_are_sound]), and
      what is reported is a directory that is there as the process sees it, within limits that
      hold per service, the search being made once ([sources_are_found]).
    - Metrics.v: telemetry/metrics for Linux.  A line that is sent is a number under a metric of the
      table, of a target that did not fail ([lines_are_registered]).

    ** The way out

    - Wire.v: telemetry/warp_parse.rs, the frames, the file sink and the TCP sink with its stalls and
      its background task.  A connection in use has carried whole frames only
      ([links_end_in_whole_frames]).
    - Exporters.v: telemetry/exporters.rs and process_exporters.  A position moves only past what
      was delivered ([cursor_follows_delivery]); a run keeps its period
      ([exporters_keep_their_period]); the commands are closed ([argv_is_closed]).
    - Inputs.v: the log inputs of a tick (runtime/daemon_telemetry.rs and its support file): which
      output is in effect, and how long an input may catch up.  It ends, and after its first pass
      an input goes on within the budget only ([inputs_finish_in_time]); each problem is told once
      ([problems_told_once]).  The fuel is the reading of the clock at which the budget is used up.
    - Health.v: what is told over many ticks (runtime/daemon_runtime_state.rs, steady_log.rs,
      self_observability.rs): every resumption follows a pause, and what was said last of an input
      is how it is ([work_states_alternate]).
    - Frames.v: the frames of metrics, facts, discovery and investigations (runtime/daemon.rs,
      daemon_metrics.rs, state_store/fact_report.rs).  No number is used twice while the file of
      the counter can be read ([numbers_never_reused]); a fact report that is not forced waits for
      five minutes after the last one of either kind ([fact_reports_paced]).
    - Tick.v: the telemetry part of run_once_with_failure_cache, which composes all of these over one
      state, with the report of the log sources after the facts.  With the output switched off no
      source is touched ([closed_gate_keeps_sources]); with it on, nothing that goes wrong fails the
      tick ([telemetry_never_fails]).

    ** The configuration

    - Config.v: config/agent_config.rs, validate.rs and the pure part of config_runtime_support.rs:
      the sections and their defaults, what is accepted ([validate_exact]: the checks against a
      list of defects), the variables ([expand_exact]) and the paths.
    - ConfigLoad.v: config/config_runtime.rs: the template, the one update of old files
      ([migration_happens_once]), loading and creating, blocking and asynchronous
      ([loading_only_migrates], [existing_config_is_kept]).  What was loaded passed the checks
      and has clean paths ([loaded_config_is_ready]).

    ** What the modelling showed

    In the controller and the pipeline: a result document that does not parse stops the drain of
    the queue ([corrupt_result_stops_drain]); a spool line that is not UTF-8 blocks every replay
    ([undecodable_line_blocks_replay]); an over-long line without its newline is committed at
    the end of the file ([overlong_tail_committed]); output past the limit is not read to its
    end ([stream_capture_bounded]); a renamed file is read once by the single-file processor
    ([rotated_file_read_once]).

    In what the gateway decides: a backup of an earlier upgrade can be what a rollback puts back
    ([stale_backup_restored]); an upgrader that dies keeps every later upgrade out
    ([lost_upgrader_blocks_upgrades]), and a launch that was not acknowledged is repeated
    ([unacknowledged_launch_repeated]); an answer 204 does not revoke a snapshot setting
    ([revocation_by_204_is_ignored]); a root of the file system written as [/.] passes as a search
    root ([root_in_disguise_is_kept]); a refresh sent twice is answered as throttled while it runs
    ([duplicate_refresh_is_throttled]); a mismatch is recorded as a revocation
    ([mismatch_is_taken_for_revoked]); an enrolment without a certificate counts as finished
    ([accepted_without_certificate]); a certificate is overwritten in place
    ([failed_renewal_loses_the_certificate]); a key that cannot be looked at is replaced
    ([unreadable_key_is_replaced]), and an identity that cannot be looked at is enrolled anew
    ([unseen_identity_enrols_again]).

    In what is known and sent: a process with many workers uses up the inspections of the others
    ([workers_starve_the_others]); a damaged counter starts over
    ([damaged_counter_starts_over]), and the log inputs and the exporters deliver before they store
    it ([log_numbers_come_back], [numbers_are_reused_after_a_crash]); the slice of an input starts
    again with each pass ([slice_restarts_with_each_pass]); an input that is withdrawn while it is
    paused is reported as resumed ([withdrawn_input_is_reported_resumed]); a scheduled refresh drops
    the resources of a probe that fails and the next one brings them back
    ([failed_probe_vanishes_and_returns]).

    In the configuration: blank paths are made absolute before they are checked
    ([blank_paths_are_accepted]); an old file with an indented mark is updated at every load
    ([indented_mark_is_updated_again]); the blocking start writes over a file it cannot look at
    ([unseen_config_is_written_over]).

    ** What is not modelled

    The mode bits of the private store (the host has no permissions; setting them may fail);
    downloads, archives and HTTP, which are operations of the classes above; the probes of
    discovery that read a platform (processes, endpoints, containers, macOS); the agent's own
    readings in the metrics; the clock's suffix in execution ids; Windows and macOS variants; the
    text of log lines. Doctor and investigation commands, the export of caches, the service files
    and the command line are left aside: they probe the platform or talk to an operator, and
    nothing the agent keeps depends on them. *)
From stdpp Require Export sorting.
From stdpp Require Export base numbers list gmap strings fin_maps.
From Stdlib Require Export Ascii.
From Stdlib Require Import Lia.


(** * Errors and the state/error monad

    [io::Error] is its [ErrorKind] and its display text.  [RuntimeError] (src/src/error.rs)
    is a newtype carrying the [io::Error] it was lifted from, so [?] on either type is the
    same propagation; both are [IoError] here. *)

Inductive ErrorKind :=
  | NotFound | PermissionDenied | AlreadyExists | InvalidInput | InvalidData
  | UnexpectedEof | WouldBlock | TimedOut | WriteZero | Unsupported | Other.

#[export] Instance ErrorKind_eq_dec : EqDecision ErrorKind.
Proof. solve_decision. Defined.

Record IoError := MkIoError { io_kind : ErrorKind; io_msg : string }.

#[export] Instance IoError_eq_dec : EqDecision IoError.
Proof. solve_decision. Defined.

Definition io_other (msg : string) : IoError := MkIoError Other msg.

Inductive result (A : Type) :=
  | Ok (a : A)
  | Err (e : IoError).
Arguments Ok {A} a.
Arguments Err {A} e.

Definition is_ok {A} (r : result A) : bool :=
  match r with Ok _ => true | Err _ => false end.

Definition result_ok {A} (r : result A) : option A :=
  match r with Ok a => Some a | Err _ => None end.

(** A computation of the agent: it reads and changes a state [S] and returns a value or an
    error.  The state reached before an error is kept, as in the program. *)
Definition M (S A : Type) : Type := S → result A * S.

#[export] Instance M_ret S : MRet (M S) := λ A a s, (Ok a, s).
#[export] Instance M_bind S : MBind (M S) := λ A B f m s,
  match m s with
  | (Ok a, s') => f a s'
  | (Err e, s') => (Err e, s')
  end.
#[export] Instance M_fmap S : FMap (M S) := λ A B f m s,
  match m s with
  | (Ok a, s') => (Ok (f a), s')
  | (Err e, s') => (Err e, s')
  end.

(** A computation given by its state transformer. *)
Definition act {S A} (f : S → result A * S) : M S A := f.
Definition throw {S A} (e : IoError) : M S A := λ s, (Err e, s).
(** [match m { Ok(..) => .., Err(..) => .. }]: the error becomes a value. *)
Definition try {S A} (m : M S A) : M S (result A) := λ s,
  let '(r, s') := m s in (Ok r, s').
Definition of_result {S A} (r : result A) : M S A := λ s, (r, s).
Definition gets {S A} (f : S → A) : M S A := λ s, (Ok (f s), s).
Definition modify {S} (f : S → S) : M S unit := λ s, (Ok tt, f s).
Definition when {S} (b : bool) (m : M S unit) : M S unit := if b then m else mret tt.

(** Runs a computation over a component of a larger state. *)
Definition zoom {S T A} (get : T → S) (put : S → T → T) (m : M S A) : M T A := λ t,
  let '(r, s') := m (get t) in (r, put s' t).

Lemma bind_ok_inv {S A B} (m : M S A) (f : A → M S B) s b s2 :
  (m ≫= f) s = (Ok b, s2) → ∃ a s1, m s = (Ok a, s1) ∧ f a s1 = (Ok b, s2).
Proof. unfold mbind, M_bind. destruct (m s) as [[a|e] s1]; naive_solver. Qed.

(** A run of a sequence fails in its first part or goes on with the second. *)
Lemma bind_inv {S A B} (m : M S A) (f : A → M S B) s r s2 :
  (m ≫= f) s = (r, s2) →
  (∃ e, m s = (Err e, s2) ∧ r = Err e) ∨ (∃ a s1, m s = (Ok a, s1) ∧ f a s1 = (r, s2)).
Proof. unfold mbind, M_bind. destruct (m s) as [[a|e] s1]; naive_solver. Qed.

Lemma bind_ok {S A B} (m : M S A) (f : A → M S B) s a s1 :
  m s = (Ok a, s1) → (m ≫= f) s = f a s1.
Proof. unfold mbind, M_bind. by intros ->. Qed.

Lemma gets_then {S A B} (f : S → A) (k : A → M S B) s : (gets f ≫= k) s = k (f s) s.
Proof. done. Qed.
Lemma modify_then {S B} (f : S → S) (k : unit → M S B) s : (modify f ≫= k) s = k tt (f s).
Proof. done. Qed.

Lemma bind_err {S A B} (m : M S A) (f : A → M S B) s e s1 :
  m s = (Err e, s1) → (m ≫= f) s = (Err e, s1).
Proof. unfold mbind, M_bind. by intros ->. Qed.

Lemma try_run {S A} (m : M S A) s r s1 : m s = (r, s1) → try m s = (Ok r, s1).
Proof. unfold try. by intros ->. Qed.

(** Steps that report no failure. *)
Definition infallible {S A} (m : M S A) : Prop := ∀ s, ∃ a s', m s = (Ok a, s').
Lemma infallible_ret {S A} (a : A) : infallible (mret a : M S A).
Proof. intros s. by eexists _, _. Qed.
Lemma infallible_try {S A} (m : M S A) : infallible (try m).
Proof. intros s. unfold try. destruct (m s) as [r s']. by eexists _, _. Qed.
Lemma infallible_gets {S A} (f : S → A) : infallible (gets f).
Proof. intros s. by eexists _, _. Qed.
Lemma infallible_bind {S A B} (m : M S A) (f : A → M S B) : infallible m → (∀ a, infallible (f a)) → infallible (m ≫= f).
Proof. intros Hm Hf s. destruct (Hm s) as (a & s1 & E). destruct (Hf a s1) as (b & s2 & E'). exists b, s2. by erewrite bind_ok by exact E. Qed.
Lemma infallible_modify {S} (f : S → S) : infallible (modify f).
Proof. intros s. by eexists _, _. Qed.
Lemma infallible_zoom {S T A} (get : T → S) (put : S → T → T) (m : M S A) : infallible m → infallible (zoom get put m).
Proof. intros Hm t. unfold zoom. destruct (Hm (get t)) as (a & s & ->). by eexists _, _. Qed.

Lemma bind_assoc {S A B C} (m : M S A) (f : A → M S B) (g : B → M S C) s :
  ((m ≫= f) ≫= g) s = (m ≫= (λ a, f a ≫= g)) s.
Proof. unfold mbind, M_bind. by destruct (m s) as [[]?]. Qed.

Lemma bind_ext {S A B} (m : M S A) (f g : A → M S B) s :
  (∀ a s', f a s' = g a s') → (m ≫= f) s = (m ≫= g) s.
Proof. intros H. unfold mbind, M_bind. by destruct (m s) as [[]?]. Qed.

Lemma ret_run {S A} (a : A) (s : S) : (mret a : M S A) s = (Ok a, s).
Proof. done. Qed.

(** Two computations with the same runs. *)
Definition meq {S A} (m1 m2 : M S A) : Prop := ∀ s, m1 s = m2 s.
#[export] Instance meq_equivalence {S A} : Equivalence (@meq S A).
Proof. split; repeat intro; unfold meq in *; naive_solver congruence. Qed.
#[export] Instance bind_proper {S A B} :
  Proper (pointwise_relation _ (@meq S B) ==> @meq S A ==> @meq S B) mbind.
Proof.
  intros f g Hfg m1 m2 Hm s. unfold mbind, M_bind. rewrite (Hm s).
  destruct (m2 s) as [[a|e] s']; [apply Hfg|done].
Qed.

(** Inverts a successful run of a sequence of binds. *)
Ltac inv_bind :=
  repeat match goal with
  | H : (_ ≫= _) _ = (Ok _, _) |- _ =>
      let a := fresh "a" in let s := fresh "s" in let H1 := fresh "Hrun" in
      apply bind_ok_inv in H as (a & s & H1 & H)
  | H : mret _ _ = _ |- _ => rewrite ret_run in H
  | H : (Ok _, _) = (Ok _, _) |- _ => injection H as H; subst
  | H : (Err _, _) = (Ok _, _) |- _ => discriminate H
  end.

(** * Strings: Rust's [str]/[String] as byte strings *)

Fixpoint ends_with (suf s : string) : bool :=
  String.eqb s suf || match s with String _ s' => ends_with suf s' | EmptyString => false end.

Definition starts_with (pre s : string) : bool := String.prefix pre s.

Fixpoint contains (needle s : string) : bool :=
  String.prefix needle s || match s with String _ s' => contains needle s' | EmptyString => false end.

(** [str::rsplit_once] for a one-byte separator. *)
Fixpoint rsplit_once (c : ascii) (s : string) : option (string * string) :=
  match s with
  | EmptyString => None
  | String a s' =>
      match rsplit_once c s' with
      | Some (x, y) => Some (String a x, y)
      | None => if Ascii.eqb a c then Some (EmptyString, s') else None
      end
  end.

(** [str::strip_prefix]. *)
Fixpoint strip_prefix (pre s : string) : option string :=
  match pre, s with
  | EmptyString, _ => Some s
  | String a pre', String b s' => if Ascii.eqb a b then strip_prefix pre' s' else None
  | _, _ => None
  end.

Definition slash : ascii := "/"%char.
Definition dot : ascii := "."%char.
Definition newline : ascii := "010"%char.
Definition nl : string := String newline EmptyString.

Definition has_char (c : ascii) (s : string) : bool :=
  match rsplit_once c s with Some _ => true | None => false end.

Lemma app_cons a s t : String a s +:+ t = String a (s +:+ t).
Proof. done. Qed.

Lemma app_nil_l s : "" +:+ s = s.
Proof. done. Qed.

Lemma app_nil_r s : s +:+ "" = s.
Proof. induction s as [|a s IH]; [done|]. by rewrite app_cons, IH. Qed.

Lemma app_assoc s t u : s +:+ (t +:+ u) = (s +:+ t) +:+ u.
Proof. induction s as [|a s IH]; [done|]. by rewrite !app_cons, IH. Qed.

Lemma app_inj_l s a b : s +:+ a = s +:+ b → a = b.
Proof. induction s as [|c s IH]; [done|]. rewrite !app_cons. naive_solver. Qed.

Lemma length_app_string s t : String.length (s +:+ t) = String.length s + String.length t.
Proof. induction s as [|c s IH]; [done|]. rewrite app_cons. cbn. by rewrite IH. Qed.

Lemma app_inj_r s a b : a +:+ s = b +:+ s → a = b.
Proof.
  revert b; induction a as [|c a IH]; intros [|d b] H; try done.
  - apply (f_equal String.length) in H. rewrite !length_app_string in H. cbn in H. lia.
  - apply (f_equal String.length) in H. rewrite !length_app_string in H. cbn in H. lia.
  - rewrite !app_cons in H. injection H as -> H. by rewrite (IH b H).
Qed.

Lemma ends_with_spec suf s : ends_with suf s = true ↔ ∃ p, s = p +:+ suf.
Proof.
  split.
  - induction s as [|a s IH]; cbn [ends_with]; intros H; apply orb_true_iff in H as [H|H].
    + apply String.eqb_eq in H as <-. by exists "".
    + done.
    + apply String.eqb_eq in H as <-. by exists "".
    + destruct (IH H) as [p ->]. by exists (String a p).
  - intros [p ->]. induction p as [|a p IH].
    + rewrite app_nil_l. destruct suf; cbn; [done|].
      by rewrite Ascii.eqb_refl, String.eqb_refl.
    + rewrite app_cons. cbn. rewrite IH. apply orb_true_r.
Qed.

Lemma ends_with_app p suf : ends_with suf (p +:+ suf) = true.
Proof. apply ends_with_spec. by exists p. Qed.

(** Two suffixes of the same string whose last bytes differ cannot both end it. *)
Fixpoint last_char (s : string) : option ascii :=
  match s with
  | EmptyString => None
  | String a EmptyString => Some a
  | String _ s' => last_char s'
  end.

Lemma last_char_app s t : t ≠ "" → last_char (s +:+ t) = last_char t.
Proof.
  intros Ht. induction s as [|a s IH]; [done|]. rewrite app_cons. cbn.
  destruct (s +:+ t) eqn:E; [|by rewrite <-E in IH |- *].
  destruct s; [|done]. by rewrite app_nil_l in E.
Qed.

Lemma rsplit_once_spec c s x y : rsplit_once c s = Some (x, y) → s = x +:+ String c y.
Proof.
  revert x y. induction s as [|a s IH]; intros x y H; [done|]. cbn in H.
  destruct (rsplit_once c s) as [[x' y']|] eqn:E.
  - injection H as <- <-. by rewrite app_cons, (IH x' y' eq_refl).
  - destruct (Ascii.eqb_spec a c) as [->|]; [|done]. by injection H as <- <-.
Qed.

Lemma rsplit_once_none_app c x y : rsplit_once c y = None →
  rsplit_once c (x +:+ String c y) = Some (x, y).
Proof.
  intros Hy. induction x as [|a x IH].
  - rewrite app_nil_l. cbn. by rewrite Hy, Ascii.eqb_refl.
  - rewrite app_cons. cbn. by rewrite IH.
Qed.

Lemma has_char_false c s : has_char c s = false ↔ rsplit_once c s = None.
Proof. unfold has_char. destruct (rsplit_once c s); split; done. Qed.

(** * Paths, as [std::path] sees a normalised UTF-8 path *)

Definition path_join (dir name : string) : string := dir +:+ String slash name.

Definition path_parent (p : string) : option string := fst <$> rsplit_once slash p.

Definition path_file_name (p : string) : string :=
  match rsplit_once slash p with Some (_, n) => n | None => p end.

(** [Path::file_stem] and [Path::extension] of a file name: a leading dot alone does not
    start an extension. *)
Definition name_split (n : string) : string * option string :=
  match rsplit_once dot n with
  | Some (EmptyString, _) | None => (n, None)
  | Some (stem, ext) => (stem, Some ext)
  end.

Definition path_file_stem (p : string) : string := fst (name_split (path_file_name p)).
Definition path_extension (p : string) : option string := snd (name_split (path_file_name p)).

Definition path_with_extension (p ext : string) : string :=
  let stem := path_file_stem p in
  let name := stem +:+ String dot ext in
  match path_parent p with Some d => path_join d name | None => name end.

Lemma path_join_inj d a b : path_join d a = path_join d b → a = b.
Proof. unfold path_join. intros H%app_inj_l. by injection H. Qed.

Lemma path_with_extension_ends p ext :
  ∃ q, path_with_extension p ext = q +:+ String dot ext.
Proof.
  unfold path_with_extension, path_join. destruct (path_parent p) as [d|]; [|by eexists].
  exists (d +:+ String slash (path_file_stem p)).
  by rewrite <-app_assoc, app_cons.
Qed.

Lemma path_file_name_join d n : has_char slash n = false → path_file_name (path_join d n) = n.
Proof.
  intros H%has_char_false. unfold path_file_name, path_join.
  by rewrite (rsplit_once_none_app _ _ _ H).
Qed.

Lemma path_parent_join d n : has_char slash n = false → path_parent (path_join d n) = Some d.
Proof.
  intros H%has_char_false. unfold path_parent, path_join.
  by rewrite (rsplit_once_none_app _ _ _ H).
Qed.

(** * Lists *)

Section Lists.
Context {A : Type}.
Implicit Types (p : A → bool) (l : list A) (x : A).

(** [Iterator::position]. *)
Fixpoint position p l : option nat :=
  match l with
  | [] => None
  | x :: l => if p x then Some 0 else S <$> position p l
  end.

(** [Iterator::find]. *)
Fixpoint find_first p l : option A :=
  match l with
  | [] => None
  | x :: l => if p x then Some x else find_first p l
  end.

(** [Vec::insert]; the caller's index is at most the length. *)
Definition insert_at (n : nat) x l : list A := take n l ++ x :: drop n l.

Definition is_some {B} (o : option B) : bool := match o with Some _ => true | None => false end.

Lemma Forall_weaken (P Q : A → Prop) l : Forall P l → (∀ x, P x → Q x) → Forall Q l.
Proof. induction 1; constructor; auto. Qed.

Lemma filter_keeps_all (P : A → Prop) `{!∀ x, Decision (P x)} l :
  (∀ x, x ∈ l → P x) → filter P l = l.
Proof.
  induction l as [|x l IH]; intros Hl; [done|]. rewrite filter_cons_True by set_solver.
  f_equal. set_solver.
Qed.

Lemma filter_keeps_none (P : A → Prop) `{!∀ x, Decision (P x)} l :
  (∀ x, x ∈ l → ¬ P x) → filter P l = [].
Proof.
  induction l as [|x l IH]; intros Hl; [done|]. rewrite filter_cons_False by set_solver.
  set_solver.
Qed.

Lemma insert_at_perm n x l : insert_at n x l ≡ₚ x :: l.
Proof. unfold insert_at. by rewrite <-Permutation_middle, take_drop. Qed.

Lemma position_Some p l i :
  position p l = Some i → ∃ x, l !! i = Some x ∧ p x = true ∧
    Forall (λ y, p y = false) (take i l).
Proof.
  revert i. induction l as [|y l IH]; intros i H; [done|]. cbn in H.
  destruct (p y) eqn:E; [by injection H as <-; exists y|].
  destruct (position p l) as [j|]; [|done]. injection H as <-.
  destruct (IH j eq_refl) as (x & ? & ? & ?). exists x. cbn. auto.
Qed.

Lemma position_None p l : position p l = None → Forall (λ y, p y = false) l.
Proof.
  induction l as [|y l IH]; intros H; [done|]. cbn in H. destruct (p y) eqn:E; [done|].
  destruct (position p l); [done|]. auto.
Qed.

Lemma find_first_Some p l x : find_first p l = Some x → x ∈ l ∧ p x = true.
Proof.
  induction l as [|y l IH]; [done|]. cbn. destruct (p y) eqn:E.
  - intros [= ->]. split; [by left|done].
  - intros [??]%IH. split; [by right|done].
Qed.

Lemma find_first_None p l : find_first p l = None ↔ ∀ x, x ∈ l → p x = false.
Proof.
  induction l as [|y l IH]; cbn; [by split; [set_solver|]|].
  destruct (p y) eqn:E; split.
  - done.
  - intros H. specialize (H y). rewrite H in E by left. done.
  - intros H x [->|Hx]%elem_of_cons; [done|]. by apply IH.
  - intros H. apply IH. intros x Hx. apply H. by right.
Qed.
End Lists.

(** * Machine integers *)

Definition u32_max : Z := 2 ^ 32 - 1.
Definition u64_max : Z := 2 ^ 64 - 1.

(** [i64::saturating_sub]. *)
Definition i64_saturating_sub (a b : Z) : Z := Z.max (- 2 ^ 63) (Z.min (2 ^ 63 - 1) (a - b)).
(** Addition on an [i64], as a release build does it: it wraps around. *)
Definition i64_add (a b : Z) : Z := ((a + b + 2 ^ 63) mod 2 ^ 64 - 2 ^ 63)%Z.
(** [u32::saturating_add]. *)
Definition u32_saturating_add (a b : Z) : Z := Z.min (a + b) u32_max.

Create HintDb wist.
Create Rewrite HintDb wist.
#[export] Hint Resolve ends_with_app insert_at_perm : wist.
#[export] Hint Rewrite @ret_run : wist.

(** * Relational frame rules

    [respects R m]: whatever [m] returns, the state it leaves is [R]-related to the state it
    started in.  With a preorder [R] the rules below are compositional, so a frame condition
    of a handler is proved by [solve_respects] from those of the calls it makes. *)

Definition respects {S A} (R : relation S) (m : M S A) : Prop := ∀ s, R s (m s).2.

Section Respects.
Context {S : Type} (R : relation S) `{!PreOrder R}.

Lemma respects_ret {A} (a : A) : respects R (mret a).
Proof. intros s. reflexivity. Qed.
Lemma respects_throw {A} e : respects R (@throw S A e).
Proof. intros s. reflexivity. Qed.
Lemma respects_of_result {A} (r : result A) : respects R (of_result r).
Proof. intros s. reflexivity. Qed.
Lemma respects_gets {A} (f : S → A) : respects R (gets f).
Proof. intros s. reflexivity. Qed.
Lemma respects_modify f : (∀ s, R s (f s)) → respects R (modify f).
Proof. intros H s. apply H. Qed.
Lemma respects_act {A} (f : S → result A * S) : (∀ s, R s (f s).2) → respects R (act f).
Proof. intros H s. apply H. Qed.
Lemma respects_bind {A B} (m : M S A) (f : A → M S B) :
  respects R m → (∀ a, respects R (f a)) → respects R (m ≫= f).
Proof.
  intros Hm Hf s. specialize (Hm s). unfold mbind, M_bind.
  destruct (m s) as [[a|e] s']; [|done]. cbn in Hm. by etrans; [|apply Hf].
Qed.
Lemma respects_try {A} (m : M S A) : respects R m → respects R (try m).
Proof. intros Hm s. specialize (Hm s). unfold try. by destruct (m s). Qed.
Lemma respects_when b (m : M S unit) : respects R m → respects R (when b m).
Proof. intros Hm. destruct b; [done|apply respects_ret]. Qed.
End Respects.

Lemma respects_mono {S A} (R R' : relation S) (m : M S A) :
  (∀ s s', R s s' → R' s s') → respects R m → respects R' m.
Proof. intros HR Hm s. apply HR, Hm. Qed.

Lemma respects_run {S A} (R : relation S) (m : M S A) s r s' :
  respects R m → m s = (r, s') → R s s'.
Proof. intros Hm E. specialize (Hm s). by rewrite E in Hm. Qed.

Create HintDb respects.
#[export] Hint Resolve respects_ret respects_throw respects_of_result respects_gets : respects.

(** Applies the structural rules, then the frame lemmas of the calls from the hint base. *)
Ltac solve_respects :=
  repeat (intros; first
    [ assumption
    | solve [eauto 3 with respects typeclass_instances]
    | apply respects_bind; [apply _| |]
    | apply respects_try
    | apply respects_when; [apply _|]
    | case_match ]).
