(* ===== verification/Errors.v ===== *)
(** Computations that fail with an error of their own type, such as the upgrade's and the
    enrolment's: the state reached before the error is kept, as in the program. *)
From S2P Require Import Prelude.

Definition EM (E S A : Type) : Type := S → (E + A) * S.

#[export] Instance EM_ret E S : MRet (EM E S) := λ A a s, (inr a, s).
#[export] Instance EM_bind E S : MBind (EM E S) := λ A B f m s,
  match m s with (inl e, s) => (inl e, s) | (inr a, s) => f a s end.

Definition raise {E S A} (e : E) : EM E S A := λ s, (inl e, s).
Definition of_sum {E S A} (r : E + A) : EM E S A := λ s, (r, s).
Definition attempt {E S A} (m : EM E S A) : EM E S (E + A) := λ s,
  let '(r, s) := m s in (inr r, s).
(** [.map_err(..)?] on a call of the host. *)
Definition io {E S A} (f : string → E) (m : M S A) : EM E S A := λ s,
  match m s with (Ok a, s) => (inr a, s) | (Err e, s) => (inl (f (io_msg e)), s) end.
(** A call whose result is dropped. *)
Definition ignore {E S A} (m : M S A) : EM E S unit := λ s, (inr tt, (m s).2).
Definition look {E S A} (f : S → A) : EM E S A := λ s, (inr (f s), s).

(** * Runs *)

Lemma em_bind_inv {E S A B} (m : EM E S A) (f : A → EM E S B) s r s2 :
  (m ≫= f) s = (r, s2) →
  (∃ e, m s = (inl e, s2) ∧ r = inl e) ∨ (∃ a s1, m s = (inr a, s1) ∧ f a s1 = (r, s2)).
Proof. unfold mbind, EM_bind. destruct (m s) as [[e|a] s1]; naive_solver. Qed.

Lemma em_bind_ok {E S A B} (m : EM E S A) (f : A → EM E S B) s b s2 :
  (m ≫= f) s = (inr b, s2) → ∃ a s1, m s = (inr a, s1) ∧ f a s1 = (inr b, s2).
Proof. intros [(e & _ & [=])|(a & s1 & Hm & Hf)]%em_bind_inv. eauto. Qed.

(** How a computation may change its state, whatever it returns. *)
Definition urespects {E S A} (R : relation S) (m : EM E S A) : Prop := ∀ s, R s (m s).2.

Section Urespects.
Context {E S : Type} (R : relation S) `{!PreOrder R}.
Lemma urespects_ret {A} (a : A) : urespects R (mret (M := EM E S) a).
Proof. intros s. cbn. reflexivity. Qed.
Lemma urespects_raise {A} (e : E) : urespects R (raise (S := S) (A := A) e).
Proof. intros s. cbn. reflexivity. Qed.
Lemma urespects_of_sum {A} (r : E + A) : urespects R (of_sum r).
Proof. intros s. cbn. reflexivity. Qed.
Lemma urespects_look {A} (f : S → A) : urespects R (look (E := E) f).
Proof. intros s. cbn. reflexivity. Qed.
Lemma urespects_attempt {A} (m : EM E S A) : urespects R m → urespects R (attempt m).
Proof. intros Hm s. specialize (Hm s). unfold attempt. by destruct (m s). Qed.
Lemma urespects_io {A} (f : string → E) (m : M S A) : respects R m → urespects R (io f m).
Proof. intros Hm s. specialize (Hm s). unfold io. by destruct (m s) as [[] ?]. Qed.
Lemma urespects_bind {A B} (m : EM E S A) (f : A → EM E S B) :
  urespects R m → (∀ a, urespects R (f a)) → urespects R (m ≫= f).
Proof.
  intros Hm Hf s. specialize (Hm s). unfold mbind, EM_bind. destruct (m s) as [[e|a] s1]; [done|].
  cbn in Hm. etrans; [exact Hm|apply Hf].
Qed.
End Urespects.

Lemma urespects_run {E S A} (R : relation S) (m : EM E S A) s r s' : urespects R m → m s = (r, s') → R s s'.
Proof. intros Hm Hr. specialize (Hm s). by rewrite Hr in Hm. Qed.

