(* ===== verification/Text.v ===== *)
(** Text as the log pipeline handles it: UTF-8 validity and lossy decoding of the Rust standard
    library, blank lines, line splitting, and quoted fields.  Nothing here mentions a component;
    Reader.v, Records.v and Delivery.v share it. *)
From S2P Require Import Prelude.

Definition code (a : ascii) : Z := Z.of_N (N_of_ascii a).

Fixpoint str_take (n : nat) (s : string) : string :=
  match n, s with S n, String a s => String a (str_take n s) | _, _ => "" end.
Fixpoint str_drop (n : nat) (s : string) : string :=
  match n, s with S n, String _ s => str_drop n s | _, _ => s end.

Definition str_len (s : string) : Z := Z.of_nat (String.length s).

(** * UTF-8, as [str::from_utf8] and [String::from_utf8_lossy] decode it *)

Definition in_range (lo hi z : Z) : bool := Z.leb lo z && Z.leb z hi.

(** The range of the second byte and the number of further continuation bytes after a lead
    byte; [None] for a byte that starts no multi-byte sequence. *)
Definition utf8_lead (z : Z) : option (Z * Z * nat) :=
  if in_range 0xC2 0xDF z then Some (0x80%Z, 0xBF%Z, 0)
  else if Z.eqb z 0xE0 then Some (0xA0%Z, 0xBF%Z, 1)
  else if Z.eqb z 0xED then Some (0x80%Z, 0x9F%Z, 1)
  else if in_range 0xE1 0xEF z then Some (0x80%Z, 0xBF%Z, 1)
  else if Z.eqb z 0xF0 then Some (0x90%Z, 0xBF%Z, 2)
  else if in_range 0xF1 0xF3 z then Some (0x80%Z, 0xBF%Z, 2)
  else if Z.eqb z 0xF4 then Some (0x80%Z, 0x8F%Z, 2)
  else None.

Fixpoint utf8_conts (n k : nat) (s : string) : nat * bool :=
  match n with
  | 0 => (k, true)
  | S n =>
      match s with
      | String c s => if in_range 0x80 0xBF (code c) then utf8_conts n (S k) s else (k, false)
      | EmptyString => (k, false)
      end
  end.

(** The first sequence of a byte string: its length, and whether it is well formed.  An ill
    formed one is the maximal prefix that some character could start with. *)
Definition utf8_head (a : ascii) (s : string) : nat * bool :=
  if Z.ltb (code a) 0x80 then (1, true)
  else
    match utf8_lead (code a) with
    | None => (1, false)
    | Some (lo, hi, n) =>
        match s with
        | String b s => if in_range lo hi (code b) then utf8_conts n 2 s else (1, false)
        | EmptyString => (1, false)
        end
    end.

Definition replacement_char : string :=
  String (ascii_of_N 0xEF) (String (ascii_of_N 0xBF) (String (ascii_of_N 0xBD) "")).

Fixpoint utf8_walk (bad : string → string) (fuel : nat) (s : string) : string :=
  match fuel, s with
  | S fuel, String a s' =>
      let '(k, ok) := utf8_head a s' in
      (if ok then str_take k s else bad (str_take k s)) +:+ utf8_walk bad fuel (str_drop k s)
  | _, _ => ""
  end.

Definition from_utf8_lossy (s : string) : string :=
  utf8_walk (λ _, replacement_char) (String.length s) s.

Fixpoint utf8_valid_fuel (fuel : nat) (s : string) : bool :=
  match fuel, s with
  | S fuel, String a s' =>
      let '(k, ok) := utf8_head a s' in ok && utf8_valid_fuel fuel (str_drop k s)
  | _, EmptyString => true
  | _, _ => false
  end.
Definition utf8_valid (s : string) : bool := utf8_valid_fuel (String.length s) s.

Lemma str_take_drop n s : str_take n s +:+ str_drop n s = s.
Proof. revert s. induction n as [|n IH]; intros [|a s]; try done. cbn. rewrite app_cons. by rewrite IH. Qed.

Lemma str_drop_length n s : String.length (str_drop n s) = String.length s - n.
Proof. revert s. induction n as [|n IH]; intros [|a s]; try done. cbn. by rewrite IH. Qed.

Lemma str_take_length n s : String.length (str_take n s) = min n (String.length s).
Proof. revert s. induction n as [|n IH]; intros [|a s]; try done. cbn. by rewrite IH. Qed.

Lemma str_take_app_length s t : str_take (String.length s) (s +:+ t) = s.
Proof. induction s as [|a s IH]; [by destruct t|]. rewrite app_cons. cbn. by rewrite IH. Qed.

Lemma str_drop_app_length s t : str_drop (String.length s) (s +:+ t) = t.
Proof. induction s as [|a s IH]; [by destruct t|]. rewrite app_cons. cbn. by rewrite IH. Qed.

Lemma str_take_all n s : String.length s ≤ n → str_take n s = s.
Proof. revert s. induction n as [|n IH]; intros [|a s] Hn; cbn in *; try done; try lia. by rewrite IH by lia. Qed.

Lemma str_take_0 s : str_take 0 s = "".
Proof. by destruct s. Qed.

Lemma str_take_app n s t :
  str_take n (s +:+ t) = str_take n s +:+ str_take (n - String.length s) t.
Proof.
  revert n; induction s as [|a s IH]; intros n.
  - rewrite !app_nil_l. cbn [String.length]. rewrite Nat.sub_0_r. by destruct n.
  - rewrite app_cons. destruct n as [|n]; cbn; [done|]. by rewrite IH.
Qed.

Lemma str_drop_drop n m s : str_drop n (str_drop m s) = str_drop (m + n) s.
Proof. revert s. induction m as [|m IH]; intros [|a s]; try done; cbn; [by destruct n|apply IH]. Qed.

Lemma str_take_add n m s : str_take (n + m) s = str_take n s +:+ str_take m (str_drop n s).
Proof.
  revert s. induction n as [|n IH]; intros s; [done|]. destruct s as [|a s]; [by destruct m|]. cbn. by rewrite IH.
Qed.

Lemma str_len_app s t : str_len (s +:+ t) = (str_len s + str_len t)%Z.
Proof. unfold str_len. rewrite length_app_string. lia. Qed.

Lemma str_len_nonneg s : (0 ≤ str_len s)%Z.
Proof. unfold str_len. lia. Qed.

Lemma utf8_conts_pos n k s : k ≤ (utf8_conts n k s).1.
Proof.
  revert k s. induction n as [|n IH]; intros k [|c s]; cbn; try lia.
  case_match; cbn; [|lia]. specialize (IH (S k) s). lia.
Qed.

Lemma utf8_head_pos a s : 1 ≤ (utf8_head a s).1.
Proof.
  unfold utf8_head. repeat case_match; cbn; try lia.
  match goal with |- context [utf8_conts ?n 2 ?s] => pose proof (utf8_conts_pos n 2 s) end. lia.
Qed.

(** Valid text decodes to itself. *)
Lemma utf8_walk_valid bad fuel s : utf8_valid_fuel fuel s = true → utf8_walk bad fuel s = s.
Proof.
  revert s. induction fuel as [|fuel IH]; intros [|a s]; cbn [utf8_valid_fuel utf8_walk]; try done.
  destruct (utf8_head a s) as [k ok] eqn:E. intros [-> Hv]%andb_true_iff.
  rewrite IH by done. apply str_take_drop.
Qed.

Lemma from_utf8_lossy_valid s : utf8_valid s = true → from_utf8_lossy s = s.
Proof. apply utf8_walk_valid. Qed.

(** * Blank lines: [line.trim().is_empty()] over Unicode white space *)

Fixpoint is_blank (s : string) : bool :=
  match s with
  | EmptyString => true
  | String a s1 =>
      let x := code a in
      if in_range 9 13 x || Z.eqb x 32 then is_blank s1
      else
        match s1 with
        | EmptyString => false
        | String b s2 =>
            let y := code b in
            if Z.eqb x 0xC2 && (Z.eqb y 0x85 || Z.eqb y 0xA0) then is_blank s2
            else
              match s2 with
              | EmptyString => false
              | String c s3 =>
                  let z := code c in
                  if (Z.eqb x 0xE1 && Z.eqb y 0x9A && Z.eqb z 0x80)
                     || (Z.eqb x 0xE2 && Z.eqb y 0x80
                         && (in_range 0x80 0x8A z || in_range 0xA8 0xA9 z || Z.eqb z 0xAF))
                     || (Z.eqb x 0xE2 && Z.eqb y 0x81 && Z.eqb z 0x9F)
                     || (Z.eqb x 0xE3 && Z.eqb y 0x80 && Z.eqb z 0x80)
                  then is_blank s3 else false
              end
        end
  end.

(** [str::trim_end_matches(['\r', '\n'])]. *)
Fixpoint trim_line_end (s : string) : string :=
  match s with
  | EmptyString => ""
  | String a s =>
      match trim_line_end s with
      | EmptyString => if Z.eqb (code a) 13 || Z.eqb (code a) 10 then "" else String a ""
      | t => String a t
      end
  end.

(** [BufRead::read_line]: the bytes up to and including the next newline, and the rest. *)
Fixpoint split_line (s : string) : string * string :=
  match s with
  | EmptyString => ("", "")
  | String a s =>
      if Ascii.eqb a newline then (String a "", s)
      else let '(l, r) := split_line s in (String a l, r)
  end.

Lemma split_line_app s l r : split_line s = (l, r) → s = l +:+ r.
Proof.
  revert l r. induction s as [|a s IH]; intros l r; cbn [split_line]; [by intros [= <- <-]|].
  destruct (Ascii.eqb a newline); [by intros [= <- <-]|].
  destruct (split_line s) as [l' r'] eqn:E. intros [= <- <-]. rewrite app_cons. by rewrite (IH _ _ eq_refl).
Qed.

Lemma split_line_nonempty s l r : split_line s = (l, r) → s ≠ "" → l ≠ "".
Proof.
  destruct s as [|a s]; [done|]. cbn [split_line]. destruct (Ascii.eqb a newline).
  - by intros [= <- <-].
  - destruct (split_line s). by intros [= <- <-].
Qed.

Lemma has_char_cons c a s : has_char c (String a s) = Ascii.eqb a c || has_char c s.
Proof.
  unfold has_char. cbn. destruct (rsplit_once c s) as [[]|]; [by rewrite orb_true_r|].
  by destruct (Ascii.eqb a c).
Qed.

(** A line of text without newlines is read back whole. *)
Lemma has_char_app c s t : has_char c (s +:+ t) = has_char c s || has_char c t.
Proof.
  induction s as [|a s IH]; [done|]. rewrite app_cons, !has_char_cons, IH.
  by destruct (Ascii.eqb a c).
Qed.

Lemma split_line_line s t : has_char newline s = false → split_line (s +:+ nl +:+ t) = (s +:+ nl, t).
Proof.
  induction s as [|a s IH]; intros Hs; [done|]. rewrite has_char_cons in Hs.
  apply orb_false_iff in Hs as [Ha Hs]. rewrite !app_cons. cbn [split_line].
  by rewrite Ha, IH.
Qed.

Lemma trim_line_end_snoc_nl s : trim_line_end (s +:+ nl) = trim_line_end s.
Proof. induction s as [|a s IH]; [done|]. rewrite app_cons. cbn. by rewrite IH. Qed.

Lemma trim_line_end_id s a : last_char s = Some a → code a ≠ 13%Z → code a ≠ 10%Z →
  trim_line_end s = s.
Proof.
  intros Hl H13 H10. revert Hl. induction s as [|b s IH]; [done|]. intros Hl. cbn.
  destruct s as [|c s].
  - cbn in *. injection Hl as ->. destruct (Z.eqb_spec (code a) 13), (Z.eqb_spec (code a) 10); done.
  - rewrite IH by done. done.
Qed.

(** * Splitting on a separator: [str::split] and [join] *)

Fixpoint split_on (c : ascii) (s : string) : list string :=
  match s with
  | EmptyString => [""]
  | String a s =>
      if Ascii.eqb a c then "" :: split_on c s
      else match split_on c s with
           | x :: l => String a x :: l
           | [] => [String a ""]
           end
  end.

Fixpoint join (sep : string) (l : list string) : string :=
  match l with
  | [] => ""
  | [x] => x
  | x :: l => x +:+ sep +:+ join sep l
  end.

(** [str::trim_start] over Unicode white space. *)
Fixpoint trim_start_fuel (fuel : nat) (s : string) : string :=
  match fuel, s with
  | S fuel, String _ _ =>
      let '(k, _) := match s with String a s' => utf8_head a s' | EmptyString => (0, true) end in
      if is_blank (str_take k s) then trim_start_fuel fuel (str_drop k s) else s
  | _, _ => s
  end.
Definition trim_start (s : string) : string := trim_start_fuel (String.length s) s.

Definition is_ascii_digit (a : ascii) : bool := in_range 48 57 (code a).
