(* ===== verification/Host.v ===== *)
(** The host the agent runs on: its files and directories, its clock, its process table, and
    the atomic JSON store of src/src/fs_async.rs built on them.

    Every file-system call may fail: [fs_fault] says which call on which path fails and how
    (a fault is a failure other than absence).  A theorem that does not assume
    [fault_free] holds for every placement of failures. *)
From S2P Require Import Prelude.

(** * External interfaces *)

(** The kernel's process table, reached through [libc::kill] and [/proc].  It is code outside
    the repository: the state type and its operations are parameters. *)
Class Os := {
  OsState : Type;
  (** [libc::kill(pid, sig)] with the pid cast to [i32]: [None] is success, [Some errno] a failure. *)
  os_kill : Z → Z → OsState → option Z * OsState;
  (** What [/proc/<pid>/stat] reads as. *)
  os_proc_stat : Z → OsState → result string;
  (** The passage of some milliseconds. *)
  os_elapse : Z → OsState → OsState;
}.

Record World `{Os} := MkWorld {
  files : gmap string string;
  dirs : gset string;
  clock : Z;            (* milliseconds *)
  os : OsState;
}.

Section WorldUpdates.
Context `{Os}.
Definition set_files (f : gmap string string) (w : World) : World :=
  MkWorld _ f (dirs w) (clock w) (os w).
Definition set_dirs (d : gset string) (w : World) : World :=
  MkWorld _ (files w) d (clock w) (os w).
Definition set_clock (t : Z) (w : World) : World :=
  MkWorld _ (files w) (dirs w) t (os w).
Definition set_os (o : OsState) (w : World) : World :=
  MkWorld _ (files w) (dirs w) (clock w) o.
End WorldUpdates.

Inductive FsOp :=
  | OpMetadata | OpRead | OpCreate | OpWrite | OpSync | OpRename | OpRemove | OpMkdir
  | OpReadDir | OpChmod.

Class Host `{Os} := {
  fs_fault : FsOp → string → option IoError;
  fs_fault_kind : ∀ op p e, fs_fault op p = Some e → io_kind e ≠ NotFound;
  (** The order in which a directory is listed is not specified. *)
  readdir_order : list string → list string;
  readdir_order_perm : ∀ l, readdir_order l ≡ₚ l;
  (** The [time] crate and [wist_shared::time]: RFC 3339 text of an instant. *)
  rfc3339 : Z → string;
  parse_rfc3339 : string → option Z;
  parse_rfc3339_format : ∀ t, parse_rfc3339 (rfc3339 t) = Some t;
}.

Definition fault_free `{Host} : Prop := ∀ op p, fs_fault op p = None.

(** [serde_json] on one type.  Serialising the agent's own structs to memory cannot fail;
    parsing accepts the newline the store appends. *)
Class Json (A : Type) := {
  to_json : A → string;
  from_json : string → result A;
  from_to_json : ∀ a, from_json (to_json a +:+ nl) = Ok a;
}.

(** * File-system calls *)

Section FileSystem.
Context `{Host}.

Definition enoent : IoError := MkIoError NotFound "No such file or directory (os error 2)".

Definition guard_fault (op : FsOp) (p : string) : M World unit := λ w,
  match fs_fault op p with Some e => (Err e, w) | None => (Ok tt, w) end.

Definition fs_exists (p : string) (w : World) : bool :=
  bool_decide (p ∈ dom (files w) ∨ p ∈ dirs w).

(** [tokio::fs::metadata], of which the stores only use success or failure. *)
Definition fs_metadata (p : string) : M World unit :=
  guard_fault OpMetadata p;;
  act (λ w, if fs_exists p w then (Ok tt, w) else (Err enoent, w)).

(** [Path::exists]: an unreadable path counts as absent. *)
Definition path_exists (p : string) : M World bool := λ w,
  (Ok (match fs_fault OpMetadata p with Some _ => false | None => fs_exists p w end), w).

Definition fs_read (p : string) : M World string :=
  guard_fault OpRead p;;
  act (λ w, match files w !! p with Some s => (Ok s, w) | None => (Err enoent, w) end).

Definition fs_create (p : string) : M World unit :=
  guard_fault OpCreate p;;
  modify (λ w, set_files (<[p:=""]> (files w)) w).

(** [write_all] on a file open for appending. *)
Definition fs_append (p bytes : string) : M World unit :=
  guard_fault OpWrite p;;
  modify (λ w, set_files (<[p := default "" (files w !! p) +:+ bytes]> (files w)) w).

Definition fs_sync (p : string) : M World unit := guard_fault OpSync p.

Definition fs_rename (a b : string) : M World unit :=
  guard_fault OpRename a;;
  act (λ w, match files w !! a with
            | Some s => (Ok tt, set_files (<[b:=s]> (delete a (files w))) w)
            | None => (Err enoent, w)
            end).

Definition fs_remove (p : string) : M World unit :=
  guard_fault OpRemove p;;
  act (λ w, match files w !! p with
            | Some _ => (Ok tt, set_files (delete p (files w)) w)
            | None => (Err enoent, w)
            end).

(** The directories [create_dir_all] makes: the path and every directory above it. *)
Fixpoint dir_prefixes (p : string) : list string :=
  match p with
  | EmptyString => [""]
  | String a p' =>
      (if Ascii.eqb a slash then [""] else []) ++ (String a <$> dir_prefixes p')
  end.

Definition fs_create_dir_all (p : string) : M World unit :=
  guard_fault OpMkdir p;;
  modify (λ w, set_dirs (list_to_set (dir_prefixes p) ∪ dirs w) w).

Definition fs_remove_dir_all (p : string) : M World unit :=
  guard_fault OpRemove p;;
  modify (λ w,
    set_files (filter (λ kv, starts_with (path_join p "") kv.1 = false) (files w))
      (set_dirs (filter (λ d, d ≠ p ∧ starts_with (path_join p "") d = false) (dirs w)) w)).

(** The files of a directory; its sub-directories are never JSON files and no listing of the
    agent's state looks at them. *)
Definition dir_entries (p : string) (w : World) : list string :=
  List.filter (λ q, bool_decide (path_parent q = Some p)) (elements (dom (files w))).

Definition fs_read_dir (p : string) : M World (list string) :=
  guard_fault OpReadDir p;;
  act (λ w, if bool_decide (p ∈ dirs w) then (Ok (readdir_order (dir_entries p w)), w)
            else (Err enoent, w)).

(** ** Time *)
Definition now_rfc3339 : M World string := gets (λ w, rfc3339 (clock w)).
Definition after_millis_rfc3339 (ms : Z) : M World string := gets (λ w, rfc3339 (clock w + ms)).

(** [thread::sleep]. *)
Definition sleep_ms (ms : Z) : M World unit :=
  modify (λ w, set_os (os_elapse ms (os w)) (set_clock (clock w + ms) w)).

(** * src/src/fs_async.rs *)

Definition ensure_parent_async (path : string) : M World unit :=
  match path_parent path with
  | Some parent => fs_create_dir_all parent
  | None => mret tt
  end.

Definition sync_parent_dir_async (path : string) : M World unit :=
  match path_parent path with
  | Some parent => fs_sync parent
  | None => mret tt
  end.

Definition write_bytes_atomic_async (path bytes : string) : M World unit :=
  ensure_parent_async path;;
  let tmp_path := path_with_extension path "tmp" in
  fs_create tmp_path;;
  fs_append tmp_path bytes;;
  fs_append tmp_path nl;;
  fs_sync tmp_path;;
  fs_rename tmp_path path;;
  sync_parent_dir_async path.

Definition write_json_atomic_async `{Json A} (path : string) (value : A) : M World unit :=
  write_bytes_atomic_async path (to_json value).

Definition read_json_async `{Json A} (path : string) : M World A :=
  text ← fs_read path;
  of_result (from_json text).
End FileSystem.

(** [wist_shared::fs]: the blocking store the synchronous entry points use.  It is code of
    another crate. *)
Class SharedFs `{Host} := {
  shared_read_json : ∀ {A} `{Json A}, string → M World A;
  shared_write_json_atomic : ∀ {A} `{Json A}, string → A → M World unit;
}.

(** What the agent relies on: it is the same store as the asynchronous one. *)
Class SharedFsLaws `{SharedFs} : Prop := {
  shared_read_json_law : ∀ A (J : Json A) p, meq (shared_read_json p) (@read_json_async _ _ A J p);
  shared_write_json_law : ∀ A (J : Json A) p (a : A),
    meq (shared_write_json_atomic p a) (write_json_atomic_async p a);
}.

(** * Frame conditions *)

(** Only the paths in [F] may change. *)
Definition only_files `{Os} (F : string → Prop) : relation World := λ w w',
  (∀ q, ¬ F q → files w' !! q = files w !! q) ∧ dirs w ⊆ dirs w' ∧ clock w' = clock w ∧
  os w' = os w.

(** The paths a store to [p] may touch: itself and its temporary file. *)
Definition store_paths (p q : string) : Prop := q = p ∨ q = path_with_extension p "tmp".

(** The world after [p] was atomically replaced by [s]. *)
Definition wrote `{Os} (p s : string) (w : World) : World :=
  set_files (<[p := s]> (delete (path_with_extension p "tmp") (files w)))
    (set_dirs (match path_parent p with
               | Some d => list_to_set (dir_prefixes d) ∪ dirs w
               | None => dirs w end) w).

Definition storable (p : string) : Prop := path_with_extension p "tmp" ≠ p.

Lemma json_not_tmp a p : a +:+ ".json" ≠ path_with_extension p "tmp".
Proof.
  destruct (path_with_extension_ends p "tmp") as [q ->]. intros Heq.
  apply (f_equal last_char) in Heq. by rewrite !last_char_app in Heq.
Qed.

Lemma json_storable a : storable (a +:+ ".json").
Proof. unfold storable. intros Heq. symmetry in Heq. by apply json_not_tmp in Heq. Qed.

Lemma join_ends_json d n : path_join d (n +:+ ".json") = (path_join d n) +:+ ".json".
Proof. unfold path_join. by rewrite <-app_assoc, app_cons. Qed.

#[export] Instance only_files_preorder `{Os} F : PreOrder (only_files F).
Proof.
  split; [repeat split; done|].
  intros w1 w2 w3 (H1 & D1 & C1 & O1) (H2 & D2 & C2 & O2). split_and!.
  - intros q Hq. by rewrite H2, H1.
  - by etrans.
  - congruence.
  - congruence.
Qed.

Lemma only_files_mono `{Os} (F F' : string → Prop) w w' :
  (∀ q, F q → F' q) → only_files F w w' → only_files F' w w'.
Proof. intros HF [Hf Hr]. split; [|done]. intros q Hq. apply Hf. by intros ?%HF. Qed.

Section FrameLemmas.
Context `{Host}.
Implicit Types (F : string → Prop) (p q : string).

Lemma guard_fault_respects (R : relation World) `{!PreOrder R} op p :
  respects R (guard_fault op p).
Proof. intros w. unfold guard_fault. case_match; reflexivity. Qed.

Lemma guard_fault_ok op p w r w' :
  guard_fault op p w = (r, w') → w' = w ∧ (∀ u, r = Ok u → fs_fault op p = None).
Proof. unfold guard_fault. case_match; naive_solver. Qed.

Lemma fs_metadata_respects (R : relation World) `{!PreOrder R} p : respects R (fs_metadata p).
Proof.
  apply respects_bind; [done|by apply guard_fault_respects|intros _].
  apply respects_act. intros w. by case_match.
Qed.
Lemma path_exists_respects (R : relation World) `{!PreOrder R} p : respects R (path_exists p).
Proof. intros w. reflexivity. Qed.
Lemma fs_read_respects (R : relation World) `{!PreOrder R} p : respects R (fs_read p).
Proof.
  apply respects_bind; [done|by apply guard_fault_respects|intros _].
  apply respects_act. intros w. by case_match.
Qed.
Lemma fs_read_dir_respects (R : relation World) `{!PreOrder R} p : respects R (fs_read_dir p).
Proof.
  apply respects_bind; [done|by apply guard_fault_respects|intros _].
  apply respects_act. intros w. by case_match.
Qed.
Lemma read_json_respects (R : relation World) `{!PreOrder R} `{Json A} p :
  respects R (read_json_async (A := A) p).
Proof. apply respects_bind; [done|by apply fs_read_respects|intros]. by apply respects_of_result. Qed.

Lemma modify_files_respects F (f : World → gmap string string) :
  (∀ w q, ¬ F q → f w !! q = files w !! q) →
  respects (only_files F) (modify (λ w, set_files (f w) w)).
Proof. intros Hf. apply respects_modify. intros w. repeat split; [intros; by apply Hf|done..]. Qed.

Lemma fs_remove_respects F p : F p → respects (only_files F) (fs_remove p).
Proof.
  intros Hp. apply respects_bind; [apply _|by apply guard_fault_respects, _|intros _].
  apply respects_act. intros w. case_match; [|reflexivity]. repeat split; [|done..].
  intros q Hq. cbn. rewrite lookup_delete_ne; [done|]. by intros ->.
Qed.

Lemma fs_create_dir_all_respects F p : respects (only_files F) (fs_create_dir_all p).
Proof.
  apply respects_bind; [apply _|by apply guard_fault_respects, _|intros _].
  apply respects_modify. intros w. repeat split; [|done..]. cbn. set_solver.
Qed.

Lemma write_bytes_atomic_respects F p bytes :
  (∀ q, store_paths p q → F q) → respects (only_files F) (write_bytes_atomic_async p bytes).
Proof.
  intros HF. assert (F p) by (apply HF; by left).
  assert (F (path_with_extension p "tmp")) by (apply HF; by right).
  unfold write_bytes_atomic_async, ensure_parent_async, sync_parent_dir_async, fs_sync.
  repeat (apply respects_bind; [apply _| |intros _]).
  - case_match; [apply fs_create_dir_all_respects|by apply respects_ret, _].
  - by apply guard_fault_respects, _.
  - apply modify_files_respects. intros w q Hq. rewrite lookup_insert_ne; [done|naive_solver].
  - by apply guard_fault_respects, _.
  - apply modify_files_respects. intros w q Hq. rewrite lookup_insert_ne; [done|naive_solver].
  - by apply guard_fault_respects, _.
  - apply modify_files_respects. intros w q Hq. rewrite lookup_insert_ne; [done|naive_solver].
  - by apply guard_fault_respects, _.
  - by apply guard_fault_respects, _.
  - apply respects_act. intros w. case_match; [|reflexivity]. repeat split; [|done..].
    intros q Hq. cbn. rewrite lookup_insert_ne, lookup_delete_ne; naive_solver.
  - case_match; [by apply guard_fault_respects, _|by apply respects_ret, _].
Qed.

Lemma write_json_respects F `{Json A} p (a : A) :
  (∀ q, store_paths p q → F q) → respects (only_files F) (write_json_atomic_async p a).
Proof. apply write_bytes_atomic_respects. Qed.
End FrameLemmas.

#[export] Hint Resolve fs_metadata_respects path_exists_respects fs_read_respects
  fs_read_dir_respects read_json_respects guard_fault_respects : respects.
#[export] Hint Resolve fs_remove_respects fs_create_dir_all_respects write_json_respects
  : respects.

(** * What a successful call means, and what the calls do without faults *)

Section RunLemmas.
Context `{Host}.
Implicit Types (p q : string).

Lemma fs_metadata_ok p w u w' : fs_metadata p w = (Ok u, w') → w' = w ∧ fs_exists p w = true.
Proof.
  unfold fs_metadata. intros Hr. inv_bind. apply guard_fault_ok in Hrun as [-> _].
  unfold act in Hr. destruct (fs_exists p w); by simplify_eq.
Qed.

Lemma fs_metadata_err p w e w' : fs_metadata p w = (Err e, w') →
  w' = w ∧ (io_kind e = NotFound ↔ fs_exists p w = false ∧ fs_fault OpMetadata p = None).
Proof.
  unfold fs_metadata, mbind, M_bind, guard_fault, act.
  destruct (fs_fault OpMetadata p) as [e'|] eqn:E.
  - intros [= <- <-]. split; [done|]. split; [|by intros [_ ?]].
    intros Hk. by apply fs_fault_kind in E.
  - destruct (fs_exists p w); intros [= <- <-]; done.
Qed.

Lemma fs_read_ok p w s w' : fs_read p w = (Ok s, w') → w' = w ∧ files w !! p = Some s.
Proof.
  unfold fs_read. intros Hr. inv_bind. apply guard_fault_ok in Hrun as [-> _].
  unfold act in Hr. destruct (files w !! p); by simplify_eq.
Qed.

Lemma read_json_ok `{Json A} p w (a : A) w' : read_json_async p w = (Ok a, w') →
  w' = w ∧ ∃ s, files w !! p = Some s ∧ from_json s = Ok a.
Proof.
  unfold read_json_async. intros Hr. inv_bind. apply fs_read_ok in Hrun as [-> Hs].
  unfold of_result in Hr. simplify_eq. eauto.
Qed.

Lemma fs_remove_ok p w u w' : fs_remove p w = (Ok u, w') →
  w' = set_files (delete p (files w)) w ∧ is_Some (files w !! p).
Proof.
  unfold fs_remove. intros Hr. inv_bind. apply guard_fault_ok in Hrun as [-> _].
  unfold act in Hr. destruct (files w !! p); by simplify_eq.
Qed.

Lemma fs_remove_err p w e w' : fs_remove p w = (Err e, w') →
  w' = w ∧ (io_kind e = NotFound → files w !! p = None).
Proof.
  unfold fs_remove, mbind, M_bind, guard_fault, act.
  destruct (fs_fault OpRemove p) as [e'|] eqn:E.
  - intros [= <- <-]. split; [done|]. intros Hk. by apply fs_fault_kind in E.
  - destruct (files w !! p); intros; simplify_eq. done.
Qed.

Lemma fs_read_dir_ok p w l w' : fs_read_dir p w = (Ok l, w') →
  w' = w ∧ l ≡ₚ dir_entries p w.
Proof.
  unfold fs_read_dir. intros Hr. inv_bind. apply guard_fault_ok in Hrun as [-> _].
  unfold act in Hr. case_bool_decide; simplify_eq. split; [done|]. apply readdir_order_perm.
Qed.

Lemma elem_of_dir_entries p q w :
  q ∈ dir_entries p w ↔ path_parent q = Some p ∧ is_Some (files w !! q).
Proof.
  unfold dir_entries. rewrite list_elem_of_In, filter_In, <-list_elem_of_In,
    elem_of_elements, elem_of_dom, bool_decide_eq_true. tauto.
Qed.

Lemma guard_fault_ff op p w : fault_free → guard_fault op p w = (Ok tt, w).
Proof. intros Hff. unfold guard_fault. by rewrite Hff. Qed.
End RunLemmas.

(** * The atomic store *)

(** Case analysis on the result of a call whose outcome [Hg] describes. *)
Ltac run_guarded Hg :=
  match type of Hg with
  | match ?r with _ => _ end => destruct r as [[?|?] ?]
  end; cbn in Hg; subst.

Section AtomicStore.
Context `{Host}.
Implicit Types (p q : string).

(** The calls of [write_bytes_atomic_async] in order: a crash falls between two of them. *)
Definition atomic_write_steps (path bytes : string) : list (M World unit) :=
  let tmp_path := path_with_extension path "tmp" in
  [ensure_parent_async path; fs_create tmp_path; fs_append tmp_path bytes;
   fs_append tmp_path nl; fs_sync tmp_path; fs_rename tmp_path path;
   sync_parent_dir_async path].

Fixpoint run_steps (ms : list (M World unit)) : M World unit :=
  match ms with [] => mret tt | m :: ms => m;; run_steps ms end.

Lemma bind_ret_unit (m : M World unit) w : (m;; mret tt) w = m w.
Proof. unfold mbind, M_bind. by destruct (m w) as [[[]|]]. Qed.

Lemma atomic_write_steps_run path bytes :
  meq (write_bytes_atomic_async path bytes) (run_steps (atomic_write_steps path bytes)).
Proof.
  intros w. unfold write_bytes_atomic_async, atomic_write_steps, run_steps.
  repeat (apply bind_ext; intros _ ?). symmetry. apply bind_ret_unit.
Qed.

(** [chain Good I ms]: from [I], every prefix of [ms] ends in [Good], failures included. *)
Fixpoint chain (Good I : World → Prop) (ms : list (M World unit)) : Prop :=
  (∀ w, I w → Good w) ∧
  match ms with
  | [] => True
  | m :: ms => ∃ J : World → Prop,
      (∀ w, I w → match m w with (Ok _, w') => J w' | (Err _, w') => Good w' end) ∧
      chain Good J ms
  end.

Lemma chain_run Good I ms k w r w' :
  chain Good I ms → I w → run_steps (take k ms) w = (r, w') → Good w'.
Proof.
  revert I k w. induction ms as [|m ms IH]; intros I [|k] w [HG HC] HI Hr;
    try (injection Hr as <- <-; by apply HG).
  destruct HC as (J & Hm & HC). specialize (Hm w HI). cbn in Hr.
  unfold mbind, M_bind in Hr. destruct (m w) as [[u|e] w1]; [by eapply IH|].
  by injection Hr as <- <-.
Qed.

Lemma guarded_modify op p f w :
  match (guard_fault op p;; modify f) w with
  | (Ok _, w') => w' = f w
  | (Err _, w') => w' = w
  end.
Proof. unfold mbind, M_bind, guard_fault. by destruct (fs_fault op p). Qed.

Lemma guarded_id op p w :
  match guard_fault op p w with (Ok _, w') => w' = w | (Err _, w') => w' = w end.
Proof. unfold guard_fault. by destruct (fs_fault op p). Qed.

(** The state of the store to [path] while the temporary file holds [t]. *)
Definition writing (path : string) (old : option string) (t : string) (w : World) : Prop :=
  files w !! path = old ∧ files w !! path_with_extension path "tmp" = Some t.

Lemma atomic_write_chain path bytes old :
  storable path →
  chain (λ w, files w !! path = old ∨ files w !! path = Some (bytes +:+ nl))
    (λ w, files w !! path = old) (atomic_write_steps path bytes).
Proof.
  intros Hst. unfold storable in Hst. cbn -[path_with_extension].
  set (tmp := path_with_extension path "tmp") in *.
  split; [by left|]. exists (λ w, files w !! path = old). split.
  { intros w Hw. unfold ensure_parent_async. destruct (path_parent path) as [s|]; [|done].
    pose proof (guarded_modify OpMkdir s (λ w, set_dirs (list_to_set (dir_prefixes s) ∪ dirs w) w) w)
      as Hg. unfold fs_create_dir_all. run_guarded Hg; cbn; auto. }
  split; [by left|]. exists (writing path old ""). split.
  { intros w Hw. pose proof (guarded_modify OpCreate tmp
      (λ w, set_files (<[tmp:=""]> (files w)) w) w) as Hg.
    unfold fs_create. run_guarded Hg; [|auto].
    split; cbn; [by rewrite lookup_insert_ne|apply lookup_insert_eq]. }
  split; [by left; firstorder|]. exists (writing path old bytes). split.
  { intros w [Hw Ht]. pose proof (guarded_modify OpWrite tmp
      (λ w, set_files (<[tmp:=default "" (files w !! tmp) +:+ bytes]> (files w)) w) w) as Hg.
    unfold fs_append. run_guarded Hg; [|auto]. fold tmp in Ht.
    split; cbn; rewrite Ht; cbn; [by rewrite lookup_insert_ne|apply lookup_insert_eq]. }
  split; [by left; firstorder|]. exists (writing path old (bytes +:+ nl)). split.
  { intros w [Hw Ht]. pose proof (guarded_modify OpWrite tmp
      (λ w, set_files (<[tmp:=default "" (files w !! tmp) +:+ nl]> (files w)) w) w) as Hg.
    unfold fs_append. run_guarded Hg; [|auto]. fold tmp in Ht.
    split; cbn; rewrite Ht; cbn; [by rewrite lookup_insert_ne|apply lookup_insert_eq]. }
  split; [by left; firstorder|]. exists (writing path old (bytes +:+ nl)). split.
  { intros w Hw. pose proof (guarded_id OpSync tmp w) as Hg. unfold fs_sync.
    run_guarded Hg; [done|]. left; apply Hw. }
  split; [by left; firstorder|]. exists (λ w, files w !! path = Some (bytes +:+ nl)). split.
  { intros w [Hw Ht]. unfold fs_rename, mbind, M_bind, guard_fault, act. fold tmp in Ht.
    destruct (fs_fault OpRename tmp); [auto|]. rewrite Ht. cbn. apply lookup_insert_eq. }
  split; [by right|]. exists (λ w, files w !! path = Some (bytes +:+ nl)). split.
  { intros w Hw. unfold sync_parent_dir_async, fs_sync.
    destruct (path_parent path) as [s|]; [|done].
    pose proof (guarded_id OpSync s w) as Hg. run_guarded Hg; auto. }
  split; [by right|done].
Qed.

(** Whatever fails, a store leaves the old document or the new one. *)
Lemma write_json_either `{Json A} p (a : A) w r w' : storable p →
  write_json_atomic_async p a w = (r, w') →
  files w' !! p = files w !! p ∨ files w' !! p = Some (to_json a +:+ nl).
Proof.
  intros Hst Hr. unfold write_json_atomic_async in Hr. rewrite atomic_write_steps_run in Hr.
  by apply (chain_run _ _ _ 7 w r w' (atomic_write_chain p (to_json a) (files w !! p) Hst)).
Qed.

Lemma guarded_modify_ok op p f w u w' :
  (guard_fault op p;; modify f) w = (Ok u, w') → w' = f w.
Proof. intros Hr. pose proof (guarded_modify op p f w) as Hg. by rewrite Hr in Hg. Qed.

Lemma guarded_ok op p w u w' : guard_fault op p w = (Ok u, w') → w' = w.
Proof. intros Hr. pose proof (guarded_id op p w) as Hg. by rewrite Hr in Hg. Qed.

Lemma ensure_parent_ok p w u w' : ensure_parent_async p w = (Ok u, w') →
  w' = set_dirs (dirs (wrote p "" w)) w.
Proof.
  unfold ensure_parent_async, wrote. cbn. destruct (path_parent p).
  - intros Hr. by apply guarded_modify_ok in Hr.
  - intros [= _ <-]. by destruct w.
Qed.

(** A successful store replaces exactly its file. *)
Lemma write_bytes_atomic_ok p bytes w u w' :
  write_bytes_atomic_async p bytes w = (Ok u, w') → w' = wrote p (bytes +:+ nl) w.
Proof.
  unfold write_bytes_atomic_async. set (tmp := path_with_extension p "tmp"). intros Hr.
  apply bind_ok_inv in Hr as ([] & w1 & H1 & Hr). apply ensure_parent_ok in H1.
  apply bind_ok_inv in Hr as ([] & w2 & H2 & Hr). apply guarded_modify_ok in H2.
  apply bind_ok_inv in Hr as ([] & w3 & H3 & Hr). apply guarded_modify_ok in H3.
  apply bind_ok_inv in Hr as ([] & w4 & H4 & Hr). apply guarded_modify_ok in H4.
  apply bind_ok_inv in Hr as ([] & w5 & H5 & Hr). apply guarded_ok in H5.
  apply bind_ok_inv in Hr as ([] & w6 & H6 & Hr).
  assert (w' = w6) as ->.
  { unfold sync_parent_dir_async in Hr. destruct (path_parent p).
    - by apply guarded_ok in Hr.
    - by injection Hr. }
  clear Hr. apply bind_ok_inv in H6 as ([] & w7 & H7 & H6). apply guarded_ok in H7.
  subst w7 w5 w4 w3 w2. unfold act in H6. cbn in H6.
  repeat progress (rewrite ?insert_insert_eq, ?lookup_insert_eq in H6; cbn [default] in H6).
  injection H6 as H6.
  rewrite delete_insert_eq in H6. subst w6 w1. unfold wrote, set_files, set_dirs, id.
  fold tmp. by rewrite app_nil_l.
Qed.

Lemma write_json_ok `{Json A} p (a : A) w u w' :
  write_json_atomic_async p a w = (Ok u, w') → w' = wrote p (to_json a +:+ nl) w.
Proof. apply write_bytes_atomic_ok. Qed.

Lemma wrote_files p s w :
  files (wrote p s w) = <[p := s]> (delete (path_with_extension p "tmp") (files w)).
Proof. done. Qed.

Lemma wrote_lookup p s w : files (wrote p s w) !! p = Some s.
Proof. apply lookup_insert_eq. Qed.

Lemma wrote_lookup_ne p s w q : ¬ store_paths p q → files (wrote p s w) !! q = files w !! q.
Proof.
  intros Hq. rewrite wrote_files, lookup_insert_ne, lookup_delete_ne; [done| |];
    intros Heq; apply Hq; unfold store_paths; auto.
Qed.

Lemma wrote_parent p s w d : path_parent p = Some d → d ∈ dirs (wrote p s w).
Proof.
  intros Hd. unfold wrote. cbn. rewrite Hd. apply elem_of_union_l, elem_of_list_to_set.
  clear. induction d as [|a d IH]; cbn; [by left|]. apply elem_of_app. right.
  apply list_elem_of_fmap. eauto.
Qed.

(** Without faults the store always succeeds. *)
Lemma write_bytes_atomic_ff p bytes w : fault_free →
  write_bytes_atomic_async p bytes w = (Ok tt, wrote p (bytes +:+ nl) w).
Proof.
  intros Hff. destruct (write_bytes_atomic_async p bytes w) as [[[]|e] w'] eqn:E.
  { by apply write_bytes_atomic_ok in E as ->. }
  exfalso. revert E. unfold write_bytes_atomic_async, ensure_parent_async,
    sync_parent_dir_async, fs_create_dir_all, fs_create, fs_append, fs_rename, fs_sync,
    guard_fault, act, modify, mbind, M_bind. rewrite !Hff.
  destruct (path_parent p); cbn; rewrite ?Hff; cbn;
    rewrite ?insert_insert_eq, ?lookup_insert_eq; rewrite ?Hff; done.
Qed.

Lemma write_json_ff `{Json A} p (a : A) w : fault_free →
  write_json_atomic_async p a w = (Ok tt, wrote p (to_json a +:+ nl) w).
Proof. apply write_bytes_atomic_ff. Qed.

Lemma read_json_ff `{Json A} p w s : fault_free → files w !! p = Some s →
  read_json_async p w = (from_json (A := A) s, w).
Proof.
  intros Hff Hs. unfold read_json_async, fs_read, guard_fault, act, mbind, M_bind.
  by rewrite Hff, Hs.
Qed.

Lemma fs_metadata_ff p w : fault_free →
  fs_metadata p w = (if fs_exists p w then Ok tt else Err enoent, w).
Proof.
  intros Hff. unfold fs_metadata, guard_fault, act, mbind, M_bind. rewrite Hff.
  by destruct (fs_exists p w).
Qed.

Lemma fs_remove_ff p w : fault_free →
  fs_remove p w = match files w !! p with
                  | Some _ => (Ok tt, set_files (delete p (files w)) w)
                  | None => (Err enoent, w) end.
Proof. intros Hff. unfold fs_remove, guard_fault, act, mbind, M_bind. by rewrite Hff. Qed.

(** A value read back after a successful store is the value stored. *)
Lemma read_after_wrote `{Json A} p (a : A) w :
  fs_fault OpRead p = None →
  read_json_async p (wrote p (to_json a +:+ nl) w) = (Ok a, wrote p (to_json a +:+ nl) w).
Proof.
  intros Hf. unfold read_json_async, fs_read, guard_fault, act, mbind, M_bind.
  rewrite Hf, wrote_lookup. unfold of_result. by rewrite from_to_json.
Qed.
End AtomicStore.

(** * The two ways the agent reaches its store

    Most components exist twice, as blocking functions over [std::fs] and [wist_shared::fs] and
    as [_async] functions over [tokio::fs] and fs_async.rs, with the same bodies.  [Backend] is
    the interface those bodies use; a component's functions are written once against it and
    instantiated at [blocking] and [nonblocking].  The two differ when a probe fails:
    [Path::exists] reads as absent, [metadata] propagates the error. *)
Class Backend `{Host} := {
  (** [path.exists()], or [metadata] with [NotFound] told apart. *)
  be_probe : string → M World bool;
  be_read_json : ∀ {A} `{Json A}, string → M World A;
  be_write_json : ∀ {A} `{Json A}, string → A → M World unit;
  (** Removal of a file that may be absent. *)
  be_remove : string → M World unit;
}.

Section Backends.
Context `{Host}.

Definition remove_if_exists (p : string) : M World unit :=
  exists_ ← path_exists p;
  if exists_ : bool then fs_remove p else mret tt.

Definition probe_metadata (p : string) : M World bool :=
  r ← try (fs_metadata p);
  match r with
  | Ok _ => mret true
  | Err err => if decide (io_kind err = NotFound) then mret false else throw err
  end.

Definition remove_ignore_missing (p : string) : M World unit :=
  r ← try (fs_remove p);
  match r with
  | Ok _ => mret tt
  | Err err => if decide (io_kind err = NotFound) then mret tt else throw err
  end.

Definition blocking `{!SharedFs} : Backend := {|
  be_probe := path_exists;
  be_read_json A J p := shared_read_json p;
  be_write_json A J p a := shared_write_json_atomic p a;
  be_remove := remove_if_exists;
|}.

Definition nonblocking : Backend := {|
  be_probe := probe_metadata;
  be_read_json A J p := read_json_async p;
  be_write_json A J p a := write_json_atomic_async p a;
  be_remove := remove_ignore_missing;
|}.
End Backends.

(** What the bodies written against [Backend] are proved from. *)
Class BackendLaws `{Backend} : Prop := {
  be_read_law : ∀ A (J : Json A) p, meq (be_read_json p) (@read_json_async _ _ A J p);
  be_write_law : ∀ A (J : Json A) p (a : A), meq (be_write_json p a) (write_json_atomic_async p a);
  be_probe_ro : ∀ p, respects eq (be_probe p);
  be_probe_true : ∀ p w w', be_probe p w = (Ok true, w') → fs_exists p w = true;
  be_probe_false : ∀ p w w', be_probe p w = (Ok false, w') →
    fs_exists p w = false ∨ is_Some (fs_fault OpMetadata p);
  be_probe_ff : ∀ p w, fault_free → be_probe p w = (Ok (fs_exists p w), w);
  be_remove_frame : ∀ (F : string → Prop) p, F p → respects (only_files F) (be_remove p);
  be_remove_ok : ∀ p w u w', be_remove p w = (Ok u, w') →
    w' = set_files (delete p (files w)) w ∨ (w' = w ∧ is_Some (fs_fault OpMetadata p));
  be_remove_err : ∀ p w e w', be_remove p w = (Err e, w') → w' = w;
  be_remove_ff : ∀ p w, fault_free → p ∉ dirs w →
    be_remove p w = (Ok tt, set_files (delete p (files w)) w);
}.

Section BackendInstances.
Context `{Host}.

Lemma set_files_same w : set_files (files w) w = w.
Proof. by destruct w. Qed.

Lemma remove_absent p w : files w !! p = None → set_files (delete p (files w)) w = w.
Proof. intros Hp. by rewrite delete_id, set_files_same. Qed.

Lemma fs_exists_false p w : fs_exists p w = false → files w !! p = None.
Proof.
  unfold fs_exists. rewrite bool_decide_eq_false. intros Hn.
  apply not_elem_of_dom. naive_solver.
Qed.

Lemma fs_exists_file p w : p ∉ dirs w → fs_exists p w = is_some (files w !! p).
Proof.
  intros Hp. unfold fs_exists. destruct (files w !! p) eqn:E; cbn.
  - apply bool_decide_eq_true. left. by apply elem_of_dom_2 in E.
  - apply bool_decide_eq_false. intros [Hd|]; [|done]. apply elem_of_dom in Hd as [? ?].
    congruence.
Qed.

Lemma fs_exists_lookup p w s : files w !! p = Some s → fs_exists p w = true.
Proof. intros Hs. apply bool_decide_eq_true. left. by apply elem_of_dom_2 in Hs. Qed.

#[export] Instance blocking_laws `{!SharedFs} `{!SharedFsLaws} : @BackendLaws _ _ blocking.
Proof.
  split; cbn.
  - apply shared_read_json_law.
  - apply shared_write_json_law.
  - intros p. apply path_exists_respects, _.
  - unfold path_exists. intros p w w' [= Hb]. by destruct (fs_fault OpMetadata p).
  - unfold path_exists. intros p w w' [= Hb]. destruct (fs_fault OpMetadata p); eauto.
  - intros p w Hff. unfold path_exists. by rewrite Hff.
  - intros F p HF. apply respects_bind; [apply _|by apply path_exists_respects, _|].
    intros []; [by apply fs_remove_respects|by apply respects_ret, _].
  - intros p w u w' Hr. unfold remove_if_exists, path_exists, mbind, M_bind in Hr.
    destruct (fs_fault OpMetadata p) eqn:Hf; [injection Hr as _ <-; eauto|].
    left. destruct (fs_exists p w) eqn:Hex.
    + by apply fs_remove_ok in Hr as [-> _].
    + injection Hr as _ <-. by rewrite remove_absent by by apply fs_exists_false.
  - intros p w e w' Hr. unfold remove_if_exists, path_exists, mbind, M_bind in Hr.
    destruct (match fs_fault OpMetadata p with Some _ => false | None => fs_exists p w end);
      [by apply fs_remove_err in Hr as [-> _]|done].
  - intros p w Hff Hp. unfold remove_if_exists, path_exists, mbind, M_bind.
    rewrite (Hff OpMetadata p). rewrite fs_exists_file by done.
    destruct (files w !! p) eqn:E; cbn [is_some].
    + rewrite fs_remove_ff by done. by rewrite E.
    + by rewrite remove_absent.
Qed.

#[export] Instance nonblocking_laws : @BackendLaws _ _ nonblocking.
Proof.
  split; cbn; try done.
  - intros p. apply respects_bind; [apply _|by apply respects_try, fs_metadata_respects, _|].
    intros [[]|e]; [by apply respects_ret, _|]. case_decide; [by apply respects_ret, _|].
    by apply respects_throw, _.
  - intros p w w' Hr. unfold probe_metadata, try, mbind, M_bind in Hr.
    destruct (fs_metadata p w) as [[[]|e] w1] eqn:E; [by apply fs_metadata_ok in E as [_ ?]|].
    by case_decide.
  - intros p w w' Hr. unfold probe_metadata, try, mbind, M_bind in Hr.
    destruct (fs_metadata p w) as [[[]|e] w1] eqn:E; [done|].
    apply fs_metadata_err in E as [_ Hk]. case_decide; [|done]. naive_solver.
  - intros p w Hff. unfold probe_metadata, try, mbind, M_bind. rewrite fs_metadata_ff by done.
    by destruct (fs_exists p w).
  - intros F p HF. apply respects_bind; [apply _|by apply respects_try, fs_remove_respects|].
    intros [[]|e]; [by apply respects_ret, _|]. case_decide; [by apply respects_ret, _|].
    by apply respects_throw, _.
  - intros p w u w' Hr. unfold remove_ignore_missing, try, mbind, M_bind in Hr. left.
    destruct (fs_remove p w) as [[[]|e] w1] eqn:E.
    + injection Hr as _ <-. by apply fs_remove_ok in E as [-> _].
    + apply fs_remove_err in E as [-> Hk]. case_decide; [|done]. injection Hr as _ <-.
      by rewrite remove_absent by auto.
  - intros p w e w' Hr. unfold remove_ignore_missing, try, mbind, M_bind in Hr.
    destruct (fs_remove p w) as [[[]|e'] w1] eqn:E; [done|].
    apply fs_remove_err in E as [-> Hk]. case_decide; [done|]. by injection Hr.
  - intros p w Hff _. unfold remove_ignore_missing, try, mbind, M_bind. rewrite fs_remove_ff by done.
    destruct (files w !! p) eqn:E; cbn; [done|]. by rewrite remove_absent.
Qed.
End BackendInstances.

Section BackendLemmas.
Context `{Host} {BE : Backend} `{!BackendLaws}.

Lemma be_write_ok `{Json A} p (a : A) w u w' :
  be_write_json p a w = (Ok u, w') → w' = wrote p (to_json a +:+ nl) w.
Proof. rewrite be_write_law. apply write_json_ok. Qed.

Lemma be_write_ff `{Json A} p (a : A) w : fault_free →
  be_write_json p a w = (Ok tt, wrote p (to_json a +:+ nl) w).
Proof. intros ?. rewrite be_write_law. by apply write_json_ff. Qed.

Lemma be_write_either `{Json A} p (a : A) w r w' : storable p → be_write_json p a w = (r, w') →
  files w' !! p = files w !! p ∨ files w' !! p = Some (to_json a +:+ nl).
Proof. rewrite be_write_law. apply write_json_either. Qed.

Lemma be_read_ok `{Json A} p w (a : A) w' : be_read_json p w = (Ok a, w') →
  w' = w ∧ ∃ s, files w !! p = Some s ∧ from_json s = Ok a.
Proof. rewrite be_read_law. apply read_json_ok. Qed.

Lemma be_read_ff `{Json A} p w s : fault_free → files w !! p = Some s →
  be_read_json p w = (from_json (A := A) s, w).
Proof. intros ??. rewrite be_read_law. by apply read_json_ff. Qed.

Lemma be_read_respects (R : relation World) `{!PreOrder R} `{Json A} p :
  respects R (be_read_json (A := A) p).
Proof. intros w. rewrite be_read_law. by apply read_json_respects. Qed.

Lemma be_probe_respects (R : relation World) `{!PreOrder R} p : respects R (be_probe p).
Proof. eapply respects_mono; [|apply be_probe_ro]. by intros w w' ->. Qed.

Lemma be_write_respects F `{Json A} p (a : A) :
  (∀ q, store_paths p q → F q) → respects (only_files F) (be_write_json p a).
Proof. intros HF w. rewrite be_write_law. by apply write_json_respects. Qed.

Lemma be_probe_run p w r w' : be_probe p w = (r, w') → w' = w.
Proof. intros Hr. pose proof (be_probe_ro p w) as Hp. rewrite Hr in Hp. by cbn in Hp. Qed.

Lemma be_read_run `{Json A} p w (r : result A) w' : be_read_json p w = (r, w') → w' = w.
Proof.
  intros Hr. pose proof (be_read_respects eq (A := A) p w) as Hp. rewrite Hr in Hp. by cbn in Hp.
Qed.
End BackendLemmas.

#[export] Hint Resolve be_read_respects be_probe_respects be_write_respects be_remove_frame
  : respects.

(** * Documents *)

(** The file [p] holds a document that reads as [a]. *)
Definition doc `{Os} {A} `{Json A} (p : string) (a : A) (w : World) : Prop :=
  ∃ text, files w !! p = Some text ∧ from_json text = Ok a.

Section Documents.
Context `{Os} {A} `{Json A}.
Implicit Types (p q : string) (a b : A) (w : World).

Lemma doc_wrote p a w : doc p a (wrote p (to_json a +:+ nl) w).
Proof. exists (to_json a +:+ nl). by rewrite wrote_lookup, from_to_json. Qed.

Lemma doc_wrote_ne p q a s w : ¬ store_paths p q → doc q a (wrote p s w) ↔ doc q a w.
Proof. intros Hq. unfold doc. by rewrite wrote_lookup_ne. Qed.

Lemma doc_functional p a b w : doc p a w → doc p b w → a = b.
Proof. intros (? & H1' & H2') (? & H3' & H4'). congruence. Qed.

Lemma doc_same p a w w' : files w' !! p = files w !! p → doc p a w ↔ doc p a w'.
Proof. intros Hs. unfold doc. by rewrite Hs. Qed.

Lemma doc_keep p a w w' : files w' !! p = files w !! p → doc p a w → doc p a w'.
Proof. intros Hs. by rewrite (doc_same p a w w' Hs). Qed.
End Documents.

(** * A concrete host

    Every parameter of the model instantiated by a function, for the witnesses: a process table
    of pids and their [/proc] lines, no file-system faults, and documents written as the bits
    of a countable encoding. *)
Module Concrete.
#[export] Instance toy_os : Os := {|
  OsState := gmap Z string;
  os_kill pid sig t :=
    match t !! pid with
    | None => (Some 3%Z, t)
    | Some _ => (None, if Z.eqb sig 9 then delete pid t else t)
    end;
  os_proc_stat pid t :=
    match t !! pid with Some s => Ok s | None => Err (MkIoError NotFound "no process") end;
  os_elapse _ t := t;
|}.

Fixpoint bits (p : positive) : string :=
  match p with
  | xH => ""
  | xO p => String "0" (bits p)
  | xI p => String "1" (bits p)
  end.

Fixpoint parse_bits (s : string) : option positive :=
  match s with
  | EmptyString => Some xH
  | String c s' =>
      if Ascii.eqb c newline then Some xH
      else if Ascii.eqb c "0" then xO <$> parse_bits s'
      else if Ascii.eqb c "1" then xI <$> parse_bits s'
      else None
  end.

Lemma parse_bits_spec p : parse_bits (bits p) = Some p ∧ parse_bits (bits p +:+ nl) = Some p.
Proof. induction p as [p [IH1 IH2]|p [IH1 IH2]|]; cbn -[nl]; rewrite ?app_cons; cbn -[nl]; rewrite ?IH1, ?IH2; done. Qed.

Section Codec.
Context `{Countable A}.
Definition toy_to_json (a : A) : string := String "b" (bits (encode a)).
Definition toy_from_json (s : string) : result A :=
  match s with
  | String c s' =>
      if Ascii.eqb c "b" then
        match parse_bits s' ≫= decode with Some a => Ok a | None => Err (io_other "invalid") end
      else Err (io_other "expected value")
  | EmptyString => Err (io_other "EOF")
  end.
Lemma toy_json_law (a : A) : toy_from_json (toy_to_json a +:+ nl) = Ok a.
Proof.
  unfold toy_to_json, toy_from_json. rewrite app_cons. cbn -[nl].
  rewrite (proj2 (parse_bits_spec _)). cbn. by rewrite decode_encode.
Qed.
Definition toy_json : Json A.
Proof.
  refine {| to_json := toy_to_json; from_json := toy_from_json |}.
  exact toy_json_law.
Defined.
End Codec.

#[export] Instance toy_host : Host.
Proof.
  refine {|
    fs_fault _ _ := None;
    readdir_order l := l;
    rfc3339 t := bits (encode t);
    parse_rfc3339 s := parse_bits s ≫= decode;
  |}.
  - abstract done.
  - abstract done.
  - abstract (intros t; rewrite (proj1 (parse_bits_spec _)); cbn; apply decode_encode).
Defined.

(** A host on which some calls fail. *)
Definition faulty (fails : FsOp → string → bool) : Host.
Proof.
  refine {|
    fs_fault op p := if fails op p then Some (io_other "no space left") else None;
    readdir_order l := l;
    rfc3339 t := bits (encode t);
    parse_rfc3339 s := parse_bits s ≫= decode;
  |}.
  - abstract (intros op p e; destruct (fails op p); by intros [= <-]).
  - abstract done.
  - abstract (intros t; rewrite (proj1 (parse_bits_spec _)); cbn; apply decode_encode).
Defined.

Definition empty_world : World := MkWorld _ ∅ ∅ 0 ∅.

Lemma toy_fault_free : fault_free.
Proof. done. Qed.
End Concrete.

(** * Claims *)

Section Claims.
Context `{Host}.

(** C21. Crash atomicity of the JSON store (write to a temporary file, sync, rename): if the
    agent stops, or any call fails, after any number [k] of the store's calls, the file
    holds its previous content or the complete new document, never a mixture; and a store
    that reports success has replaced exactly that file, its parent directory exists, and
    the value reads back. *)
Theorem atomic_store_crash_safe `{Json A} (path : string) (value : A) (k : nat) (w : World) :
  storable path →
  (∀ r w', run_steps (take k (atomic_write_steps path (to_json value))) w = (r, w') →
     files w' !! path = files w !! path ∨ files w' !! path = Some (to_json value +:+ nl)) ∧
  (∀ u w', write_json_atomic_async path value w = (Ok u, w') →
     (∀ q, ¬ store_paths path q → files w' !! q = files w !! q) ∧
     (∀ d, path_parent path = Some d → d ∈ dirs w') ∧
     (fs_fault OpRead path = None → read_json_async path w' = (Ok value, w'))) ∧
  (∀ e w', write_json_atomic_async path value w = (Err e, w') →
     files w' !! path = files w !! path ∨ files w' !! path = Some (to_json value +:+ nl)).
Proof.
  intros Hst. pose proof (atomic_write_chain path (to_json value) (files w !! path) Hst) as HC.
  split_and!.
  - intros r w'. by apply (chain_run _ _ _ _ _ _ _ HC).
  - intros u w' Hr. apply write_json_ok in Hr as ->. split_and!.
    + intros q. apply wrote_lookup_ne.
    + intros d. apply wrote_parent.
    + apply read_after_wrote.
  - intros e w' Hr. by eapply write_json_either.
Qed.
End Claims.

Lemma atomic_store_crash_safe_witness :
  let p := "s/running/e.json" in
  let w := Concrete.empty_world in
  let w' := (run_steps (take 4 (@atomic_write_steps _ Concrete.toy_host p "b1")) w).2 in
  storable p ∧ (files w' !! p = None ∨ files w' !! p = Some ("b1" +:+ nl)).
Proof.
  intros p w w'.
  assert (Hs : storable p) by (vm_compute; discriminate).
  split; [exact Hs|].
  destruct (@atomic_store_crash_safe _ Concrete.toy_host _
    (@Concrete.toy_json positive _ _) p 3%positive 4 w Hs) as [H _].
  exact (H (run_steps (take 4 (atomic_write_steps p "b1")) w).1 w' (surjective_pairing _)).
Defined.
