(* ===== verification/Private.v ===== *)
(** Files only the agent may read: the private variant of the atomic store (fs_async.rs) and the
    plain write of state_store/client_identity.rs.  The host model has no permission bits, so
    setting them is a call that may fail and changes nothing else. *)
From S2P Require Import Prelude Host.

Section PrivateStore.
Context `{Host}.

Definition fs_set_permissions (p : string) : M World unit := guard_fault OpChmod p.

(** fs_async.rs *)
Definition write_bytes_private_atomic_async (path bytes : string) : M World unit :=
  ensure_parent_async path;;
  match path_parent path with Some parent => fs_set_permissions parent | None => mret tt end;;
  let tmp_path := path_with_extension path "tmp" in
  fs_create tmp_path;;
  fs_append tmp_path bytes;;
  fs_append tmp_path nl;;
  fs_sync tmp_path;;
  fs_rename tmp_path path;;
  fs_set_permissions path;;
  sync_parent_dir_async path.

Definition write_json_private_atomic_async `{Json A} (path : string) (value : A) : M World unit :=
  write_bytes_private_atomic_async path (to_json value).

(** [client_identity::write_private]: the file itself is truncated and written. *)
Definition write_private (path bytes : string) : M World unit :=
  match path_parent path with
  | Some parent => fs_create_dir_all parent;; fs_set_permissions parent
  | None => mret tt
  end;;
  fs_create path;;
  fs_append path bytes;;
  fs_set_permissions path.
End PrivateStore.

(** [wist_shared::fs]: the blocking private store, code of another crate. *)
Class SharedPrivate `{SharedFs} := {
  shared_write_bytes_private : string → string → M World unit;
  shared_write_json_private : ∀ {A} `{Json A}, string → A → M World unit;
}.

(** What the agent relies on: it is the same store as the asynchronous one. *)
Class SharedPrivateLaws `{SharedPrivate} : Prop := {
  shared_write_bytes_private_law : ∀ p bytes,
    meq (shared_write_bytes_private p bytes) (write_bytes_private_atomic_async p bytes);
  shared_write_json_private_law : ∀ A (J : Json A) p (a : A),
    meq (shared_write_json_private p a) (write_json_private_atomic_async p a);
}.

(** * What the stores do *)

Section PrivateLemmas.
Context `{Host}.
Implicit Types (p q : string) (w : World).

Lemma fs_set_permissions_respects (R : relation World) `{!PreOrder R} p : respects R (fs_set_permissions p).
Proof. by apply guard_fault_respects. Qed.

(** Setting a permission is all that tells the two stores apart. *)
Definition private_write_steps (path bytes : string) : list (M World unit) :=
  let tmp_path := path_with_extension path "tmp" in
  [ensure_parent_async path;
   match path_parent path with Some parent => fs_set_permissions parent | None => mret tt end;
   fs_create tmp_path; fs_append tmp_path bytes; fs_append tmp_path nl; fs_sync tmp_path;
   fs_rename tmp_path path; fs_set_permissions path; sync_parent_dir_async path].

Lemma private_write_steps_run path bytes :
  meq (write_bytes_private_atomic_async path bytes) (run_steps (private_write_steps path bytes)).
Proof.
  intros w. unfold write_bytes_private_atomic_async, private_write_steps, run_steps.
  repeat (apply bind_ext; intros _ ?). symmetry. apply bind_ret_unit.
Qed.

(** A step that changes nothing keeps a chain. *)
Lemma chain_idle (Good I : World → Prop) m ms :
  (∀ w, (m w).2 = w) → chain Good I ms → chain Good I (m :: ms).
Proof.
  intros Hm HC. assert (HG : ∀ w, I w → Good w) by (destruct ms; apply HC).
  split; [done|]. exists I. split; [|done]. intros w HI. specialize (Hm w).
  destruct (m w) as [[u|e] w1]; cbn in Hm; subst; auto.
Qed.

Lemma chmod_idle p w : (fs_set_permissions p w).2 = w.
Proof. unfold fs_set_permissions, guard_fault. by destruct (fs_fault OpChmod p). Qed.

Lemma chmod_parent_idle path w :
  (match path_parent path with Some parent => fs_set_permissions parent | None => mret tt end w).2 = w.
Proof. destruct (path_parent path); [apply chmod_idle|done]. Qed.

Lemma private_write_chain path bytes old :
  storable path →
  chain (λ w, files w !! path = old ∨ files w !! path = Some (bytes +:+ nl))
    (λ w, files w !! path = old) (private_write_steps path bytes).
Proof.
  intros Hst. destruct (atomic_write_chain path bytes old Hst) as
    [C0 (J1 & E1 & C1 & J2 & E2 & C2 & J3 & E3 & C3 & J4 & E4 & C4 & J5 & E5 & C5 & J6 & E6 & C6)].
  split; [done|]. exists J1. split; [done|]. apply chain_idle; [apply chmod_parent_idle|].
  do 4 (split; [done|]; eexists; split; [eassumption|]).
  split; [done|]. exists J6. split; [done|]. apply chain_idle; [apply chmod_idle|]. exact C6.
Qed.

(** Whatever fails, the private store leaves the old document or the new one. *)
Lemma write_private_atomic_either p bytes w r w' : storable p →
  write_bytes_private_atomic_async p bytes w = (r, w') →
  files w' !! p = files w !! p ∨ files w' !! p = Some (bytes +:+ nl).
Proof.
  intros Hst Hr. rewrite private_write_steps_run in Hr.
  by apply (chain_run _ _ _ 9 w r w' (private_write_chain p bytes (files w !! p) Hst)).
Qed.

Lemma private_write_respects F p bytes :
  (∀ q, store_paths p q → F q) → respects (only_files F) (write_bytes_private_atomic_async p bytes).
Proof.
  intros HF. assert (F p) by (apply HF; by left).
  assert (F (path_with_extension p "tmp")) by (apply HF; by right).
  unfold write_bytes_private_atomic_async, ensure_parent_async, sync_parent_dir_async, fs_sync.
  repeat (apply respects_bind; [apply _| |intros _]).
  all: try (by apply guard_fault_respects, _).
  all: try (apply modify_files_respects; intros w q Hq; rewrite lookup_insert_ne; [done|naive_solver]).
  - case_match; [apply fs_create_dir_all_respects|by apply respects_ret, _].
  - case_match; [by apply guard_fault_respects, _|by apply respects_ret, _].
  - apply respects_act. intros w. case_match; [|reflexivity]. repeat split; [|done..].
    intros q Hq. cbn. rewrite lookup_insert_ne, lookup_delete_ne; naive_solver.
  - case_match; [by apply guard_fault_respects, _|by apply respects_ret, _].
Qed.

(** A store that reports success wrote its file, whatever failed before. *)
Lemma private_write_ok p bytes w u w' : storable p →
  write_bytes_private_atomic_async p bytes w = (Ok u, w') → files w' !! p = Some (bytes +:+ nl).
Proof.
  intros Hst Hr. unfold storable in Hst. unfold write_bytes_private_atomic_async in Hr.
  set (tmp := path_with_extension p "tmp") in *.
  apply bind_ok_inv in Hr as ([] & w1 & _ & Hr). apply bind_ok_inv in Hr as ([] & w2 & _ & Hr).
  apply bind_ok_inv in Hr as ([] & w3 & H3 & Hr). apply guarded_modify_ok in H3.
  apply bind_ok_inv in Hr as ([] & w4 & H4 & Hr). apply guarded_modify_ok in H4.
  apply bind_ok_inv in Hr as ([] & w5 & H5 & Hr). apply guarded_modify_ok in H5.
  apply bind_ok_inv in Hr as ([] & w6 & H6 & Hr). apply guarded_ok in H6.
  apply bind_ok_inv in Hr as ([] & w7 & H7 & Hr).
  apply bind_ok_inv in Hr as ([] & w8 & H8 & Hr).
  assert (files w' = files w7) as ->.
  { pose proof (chmod_idle p w7) as Hc. rewrite H8 in Hc. cbn in Hc. subst w8.
    unfold sync_parent_dir_async, fs_sync in Hr. destruct (path_parent p); [by apply guarded_ok in Hr as ->|].
    by injection Hr as _ <-. }
  unfold fs_rename, mbind, M_bind, guard_fault, act in H7. destruct (fs_fault OpRename tmp); [done|].
  assert (Ht : files w6 !! tmp = Some (bytes +:+ nl)).
  { subst w6 w5 w4 w3. cbn. fold tmp. by rewrite !lookup_insert_eq. }
  rewrite Ht in H7. injection H7 as <-. cbn. apply lookup_insert_eq.
Qed.

(** Without failures the two atomic stores do the same. *)
Lemma private_write_ff p bytes w : fault_free →
  write_bytes_private_atomic_async p bytes w = (Ok tt, wrote p (bytes +:+ nl) w).
Proof.
  intros Hff. rewrite <- (write_bytes_atomic_ff p bytes w Hff).
  assert (Hc : ∀ q, meq (fs_set_permissions q) (mret tt)).
  { intros q v. unfold fs_set_permissions, guard_fault. by rewrite Hff. }
  unfold write_bytes_private_atomic_async, write_bytes_atomic_async.
  apply bind_ext. intros _ w1. destruct (path_parent p) as [d|] eqn:Ep.
  - unfold mbind at 1, M_bind at 1. rewrite Hc. cbn. do 5 (apply bind_ext; intros _ ?).
    unfold mbind at 1, M_bind at 1. by rewrite Hc.
  - unfold mbind at 1, M_bind at 1. cbn. do 5 (apply bind_ext; intros _ ?).
    unfold mbind at 1, M_bind at 1. by rewrite Hc.
Qed.

Lemma private_json_ff `{Json A} p (a : A) w : fault_free →
  write_json_private_atomic_async p a w = (Ok tt, wrote p (to_json a +:+ nl) w).
Proof. apply private_write_ff. Qed.

(** A plain write changes its file only; when it succeeds the file holds what was written, when it
    fails the file may be empty. *)
Lemma write_private_run p bytes w r w' : write_private p bytes w = (r, w') →
  only_files (λ q, q = p) w w' ∧
  (files w' !! p = files w !! p ∨ files w' !! p = Some "" ∨ files w' !! p = Some bytes) ∧
  (∀ u, r = Ok u → files w' !! p = Some bytes).
Proof.
  intros Hr. assert (Hs : ∃ w1, only_files (λ q, q = p) w w1 ∧ files w1 = files w ∧
    ((∃ e, r = Err e ∧ w' = w1) ∨
     (fs_create p;; fs_append p bytes;; fs_set_permissions p) w1 = (r, w'))).
  { unfold write_private in Hr. apply bind_inv in Hr as [(e & He & ->)|([] & w1 & H1 & Hr)].
    - exists w'. split_and!; [..|by left; eauto].
      + destruct (path_parent p) as [d|]; [|done].
        pose proof (fs_create_dir_all_respects (λ q, q = p) d) as Hd.
        apply bind_inv in He as [(e' & He & _)|([] & w1 & H1 & He)].
        * specialize (Hd w). by rewrite He in Hd.
        * specialize (Hd w). rewrite H1 in Hd. pose proof (chmod_idle d w1) as Hc. rewrite He in Hc. by cbn in Hc; subst.
      + destruct (path_parent p) as [d|]; [|by injection He as _ <-].
        apply bind_inv in He as [(e' & He & _)|([] & w1 & H1 & He)].
        * pose proof (guarded_modify OpMkdir d (λ w, set_dirs (list_to_set (dir_prefixes d) ∪ dirs w) w) w) as Hg.
          unfold fs_create_dir_all in He. rewrite He in Hg. by subst.
        * pose proof (chmod_idle d w1) as Hc. rewrite He in Hc. cbn in Hc. subst.
          apply guarded_modify_ok in H1. by subst.
    - exists w1. assert (Hw : only_files (λ q, q = p) w w1 ∧ files w1 = files w); [|split_and!; [apply Hw..|by right]].
      destruct (path_parent p) as [d|]; [|by injection H1 as <-].
      apply bind_ok_inv in H1 as ([] & w2 & H2 & H1).
      pose proof (fs_create_dir_all_respects (λ q, q = p) d w) as Hd. rewrite H2 in Hd.
      pose proof (chmod_idle d w2) as Hc. rewrite H1 in Hc. cbn in Hc. subst.
      split; [exact Hd|]. apply guarded_modify_ok in H2. by subst. }
  destruct Hs as (w1 & Ho & Hf & [(e & -> & ->)|Hs]).
  { split_and!; [done|by left; rewrite Hf|done]. }
  rewrite <- Hf. clear Hr.
  assert (Hins : ∀ v s, only_files (λ q, q = p) v (set_files (<[p:=s]> (files v)) v)).
  { intros v s. repeat split; [|done..]. intros q Hq. cbn. by rewrite lookup_insert_ne by (intros ->; done). }
  assert (Hcase : (∃ e, r = Err e ∧ w' = w1) ∨ (∃ e, r = Err e ∧ w' = set_files (<[p:=""]> (files w1)) w1) ∨
    w' = set_files (<[p:=bytes]> (<[p:=""]> (files w1))) w1).
  { unfold fs_create, fs_append, fs_set_permissions, guard_fault, modify, mbind, M_bind in Hs.
    destruct (fs_fault OpCreate p); [injection Hs as <- <-; by left; eauto|]. cbn in Hs.
    destruct (fs_fault OpWrite p); [injection Hs as <- <-; by right; left; eauto|]. cbn in Hs.
    rewrite lookup_insert_eq in Hs. cbn in Hs. rewrite app_nil_l in Hs.
    right; right. by destruct (fs_fault OpChmod p); injection Hs as <- <-. }
  destruct Hcase as [(e & -> & ->)|[(e & -> & ->)| ->]].
  - split_and!; [done|by left|done].
  - split_and!; [by etrans|right; left; apply lookup_insert_eq|done].
  - split_and!; [by etrans; [|rewrite insert_insert_eq; apply Hins]|right; right; apply lookup_insert_eq|].
    intros u _. apply lookup_insert_eq.
Qed.

Lemma write_private_ff p bytes w : fault_free → ∃ w', write_private p bytes w = (Ok tt, w').
Proof.
  intros Hff. unfold write_private, fs_create, fs_append, fs_set_permissions, fs_create_dir_all, guard_fault,
    modify, mbind, M_bind.
  destruct (path_parent p); rewrite ?Hff; cbn; rewrite ?Hff; cbn; rewrite ?Hff; cbn; rewrite ?Hff; cbn; rewrite ?Hff; eauto.
Qed.
End PrivateLemmas.

#[export] Hint Resolve fs_set_permissions_respects private_write_respects : respects.
