(* ===== verification/Contracts.v ===== *)
(** The crates the execution controller exchanges data with (wist-contracts, wist-api,
    wist-shared, wist-validate): their code is not in the repository, so their types and
    functions are the fields of a class, with only the names src/ uses.  [ContractsLaws] lists
    what the agent relies on. *)
From S2P Require Import Prelude Host.

(** [RiskLevel]: src/src/runtime/scheduler.rs matches it exhaustively. *)
Inductive RiskLevel := R0 | R1 | R2 | R3.

Class Contracts := {
  (** wist_contracts::action_plan *)
  ActionPlan : Type;
  plan_action_id : ActionPlan → string;
  plan_request_id : ActionPlan → string;
  plan_agent_id : ActionPlan → string;
  plan_node_id : ActionPlan → string;
  plan_max_total_duration_ms : ActionPlan → Z;
  plan_risk_level : ActionPlan → RiskLevel;
  plan_program_entry : ActionPlan → string;
  StepOp : Type;
  (** [program.steps]: each step's [id] and [op]. *)
  plan_program_steps : ActionPlan → list (string * option StepOp);
  ActionPlan_json :: Json ActionPlan;

  (** wist_contracts::action_result *)
  FinalStatus : Type;
  FinalStatus_eq_dec :: EqDecision FinalStatus;
  Succeeded : FinalStatus;
  Failed : FinalStatus;
  TimedOut : FinalStatus;
  as_state_name : FinalStatus → string;
  StepStatus : Type;
  StepFailed : StepStatus;
  StepTimedOut : StepStatus;
  StepCancelled : StepStatus;
  ActionResult : Type;
  final_status : ActionResult → FinalStatus;
  ActionResult_json :: Json ActionResult;

  (** wist_api::action_result *)
  ReportActionResult : Type;
  ReportActionResult_json :: Json ReportActionResult;

  (** wist_shared::integrity *)
  digest_plan : ActionPlan → result string;
  digest_result : ActionResult → result string;
  sign_dev_placeholder : string → string → string;
  dev_placeholder_issuer : string → string;
  (** wist_validate::gateway: [Some code] is a rejection. *)
  validate_report_action_result : ReportActionResult → option string;

  SCHEMA_VERSION_V1 : string;
  (** wist_shared::paths *)
  ACTIONS_DIR : string;
  WORKDIR_PLAN_FILE : string;
  WORKDIR_RUNTIME_FILE : string;
  WORKDIR_STATE_FILE : string;
  WORKDIR_RESULT_FILE : string;
  EXECUTION_QUEUE_FILE : string;
  REPORT_ENVELOPE_SUFFIX : string;

  (** [Display] of the runtime layer's structured error (orion-error). *)
  display_runtime_error : IoError → string;
}.

(** [StepRecord], [ResultAttestation], [RuntimeContext] and [ProgressState] are written as
    complete struct literals in src/, so their fields are known. *)
Record StepRecord `{Contracts} := {
  sr_step_id : string;
  sr_attempt : Z;
  sr_op : option StepOp;
  sr_status : StepStatus;
  sr_started_at : string;
  sr_finished_at : option string;
  sr_duration_ms : option Z;
  sr_error_code : option string;
}.

Record ResultAttestation := {
  at_result_digest : string;
  at_signature : string;
  at_issued_by : string;
  at_attested_at : string;
}.

Record RuntimeContext := {
  rc_execution_id : string;
  rc_spawned_at : string;
  rc_deadline_at : option string;
  rc_agent_id : string;
  rc_node_id : string;
  rc_workdir : string;
}.

Record ProgressState := {
  ps_execution_id : string;
  ps_action_id : string;
  ps_state : string;
  ps_updated_at : string;
  ps_step_id : option string;
  ps_attempt : option Z;
  ps_reason_code : option string;
  ps_detail : option string;
}.

(** The constructors of the contract types that src/ calls with a fixed set of fields, the
    others being the constructor's own defaults. *)
Class ContractConstructors `{Contracts} := {
  (** [ActionResult { request_id, exit_reason, step_records, started_at, finished_at,
      ..ActionResult::new(action_id, execution_id, final_status) }]. *)
  mk_action_result : string → string → FinalStatus → option string → option string →
    list StepRecord → option string → option string → ActionResult;
  (** [ReportActionResult::new(report_id, action_id, report_attempt, final_status, execution_id,
      plan_digest, agent_id, instance_id, attestation, reported_at, result)]. *)
  ReportActionResult_new : string → string → Z → FinalStatus → string → string → string →
    string → ResultAttestation → string → ActionResult → ReportActionResult;
  RuntimeContext_json :: Json RuntimeContext;
  ProgressState_json :: Json ProgressState;
}.

(** What the agent relies on. *)
Class ContractsLaws `{ContractConstructors} : Prop := {
  final_status_mk : ∀ a x fs r e s st fi, final_status (mk_action_result a x fs r e s st fi) = fs;
  timed_out_not_succeeded : TimedOut ≠ Succeeded;
  failed_not_succeeded : Failed ≠ Succeeded;
  (** docs/design/agentd-state-and-boundaries.md names the queue file and the envelopes,
      whose suffix is a longer name ending in [.json]. *)
  queue_file_is : EXECUTION_QUEUE_FILE = "execution_queue.json";
  (** docs/design/agentd-failure-handling.md: results are [result.json], next to the progress
      state, another JSON file. *)
  result_file_is : WORKDIR_RESULT_FILE = "result.json";
  state_file_is : ∃ m, WORKDIR_STATE_FILE = m +:+ ".json" ∧ m ≠ "result";
  envelope_suffix_json : ∃ m, m ≠ "" ∧ REPORT_ENVELOPE_SUFFIX = m +:+ ".json";
  envelope_suffix_flat : has_char slash REPORT_ENVELOPE_SUFFIX = false;
}.
