(* ===== verification/Stores.v ===== *)
(** The state stores of the execution controller: one module per file of
    src/src/state_store/ that holds execution state.  Each store is a JSON document under the
    state directory, replaced atomically.  The blocking and the [_async] functions of a store
    are the instances of one definition at the two backends of Host.v. *)
From S2P Require Import Prelude Host Contracts.

(** * src/src/state_store/execution_queue.rs *)
Module execution_queue.

Record ExecutionQueueItem := mk_item {
  execution_id : string;
  action_id : string;
  plan_digest : string;
  request_id : string;
  priority : Z;
  queued_at : string;
  deadline_at : option string;
  cancelable : bool;
  risk_level : option string;
}.

Record ExecutionQueueState := mk_queue {
  schema_version : string;
  updated_at : string;
  items : list ExecutionQueueItem;
}.

#[global] Instance ExecutionQueueItem_eq_dec : EqDecision ExecutionQueueItem.
Proof. solve_decision. Defined.
#[global] Instance ExecutionQueueItem_countable : Countable ExecutionQueueItem.
Proof.
  refine (inj_countable'
    (λ i, (execution_id i, action_id i, plan_digest i, request_id i, priority i,
           (queued_at i, deadline_at i, cancelable i, risk_level i)))
    (λ '(a, b, c, d, e, (f, g, h, k)), mk_item a b c d e f g h k) _).
  abstract (by intros []).
Defined.
#[global] Instance ExecutionQueueState_eq_dec : EqDecision ExecutionQueueState.
Proof. solve_decision. Defined.
#[global] Instance ExecutionQueueState_countable : Countable ExecutionQueueState.
Proof.
  refine (inj_countable' (λ q, (schema_version q, updated_at q, items q))
    (λ '(a, b, c), mk_queue a b c) _).
  abstract (by intros []).
Defined.

(** [ExecutionQueueItem::builder] .. [build]: the builder holds the fields of the item. *)
Definition builder (execution_id action_id plan_digest request_id queued_at : string)
    : ExecutionQueueItem :=
  {| execution_id := execution_id; action_id := action_id; plan_digest := plan_digest;
     request_id := request_id; priority := 100; queued_at := queued_at; deadline_at := None;
     cancelable := true; risk_level := None |}.

Definition with_priority (p : Z) (b : ExecutionQueueItem) : ExecutionQueueItem :=
  mk_item (execution_id b) (action_id b) (plan_digest b) (request_id b) p (queued_at b)
    (deadline_at b) (cancelable b) (risk_level b).
Definition with_deadline_at (d : option string) (b : ExecutionQueueItem) : ExecutionQueueItem :=
  mk_item (execution_id b) (action_id b) (plan_digest b) (request_id b) (priority b)
    (queued_at b) d (cancelable b) (risk_level b).
Definition with_cancelable (c : bool) (b : ExecutionQueueItem) : ExecutionQueueItem :=
  mk_item (execution_id b) (action_id b) (plan_digest b) (request_id b) (priority b)
    (queued_at b) (deadline_at b) c (risk_level b).
Definition with_risk_level (r : option string) (b : ExecutionQueueItem) : ExecutionQueueItem :=
  mk_item (execution_id b) (action_id b) (plan_digest b) (request_id b) (priority b)
    (queued_at b) (deadline_at b) (cancelable b) r.

Section Store.
Context `{Host} `{Contracts}.

Definition new (now : string) : ExecutionQueueState := mk_queue SCHEMA_VERSION_V1 now [].

(** Lower numeric priority runs first, equal priority keeps arrival order. *)
Definition enqueue (now : string) (item : ExecutionQueueItem) (q : ExecutionQueueState)
    : ExecutionQueueState :=
  let insert_at :=
    default (length (items q)) (position (λ entry, Z.ltb (priority item) (priority entry)) (items q)) in
  mk_queue (schema_version q) now (Prelude.insert_at insert_at item (items q)).

Definition remove (now : string) (execution_id_ : string) (q : ExecutionQueueState)
    : ExecutionQueueState :=
  mk_queue (schema_version q) now
    (filter (λ item, execution_id item ≠ execution_id_) (items q)).

Definition path_for (state_dir : string) : string := path_join state_dir EXECUTION_QUEUE_FILE.

Section Io.
Context `{Json ExecutionQueueState}.

Definition load_or_default `{!Backend} (path : string) : M World ExecutionQueueState :=
  exists_ ← be_probe path;
  if exists_ : bool then be_read_json path
  else now ← now_rfc3339; mret (new now).

Definition store `{!Backend} (path : string) (state : ExecutionQueueState) : M World unit :=
  be_write_json path state.

Definition load_or_default_async := @load_or_default nonblocking.
Definition store_async := @store nonblocking.
End Io.
End Store.
End execution_queue.

(** * src/src/state_store/running.rs *)
Module running.

Record RunningExecutionState := mk_running {
  schema_version : string;
  execution_id : string;
  action_id : string;
  plan_digest : string;
  request_id : string;
  state : string;
  workdir : string;
  pid : option Z;
  process_identity : option string;
  started_at : string;
  deadline_at : option string;
  current_step_id : option string;
  attempt : option Z;
  cancel_requested_at : option string;
  kill_requested_at : option string;
  updated_at : string;
}.

#[global] Instance RunningExecutionState_eq_dec : EqDecision RunningExecutionState.
Proof. solve_decision. Defined.
#[global] Instance RunningExecutionState_countable : Countable RunningExecutionState.
Proof.
  refine (inj_countable'
    (λ s, (schema_version s, execution_id s, action_id s, plan_digest s, request_id s,
           (state s, workdir s, pid s, process_identity s, started_at s),
           (deadline_at s, current_step_id s, attempt s, cancel_requested_at s),
           (kill_requested_at s, updated_at s)))
    (λ '(a, b, c, d, e, (f, g, h, i, j), (k, l, m, n), (o, p)),
       mk_running a b c d e f g h i j k l m n o p) _).
  abstract (by intros []).
Defined.

(** [RunningExecutionState::builder] and the setters of its builder, [build] stamping the
    schema version. *)
Record RunningExecutionStateBuilder := mk_builder { built : RunningExecutionState }.

Section Store.
Context `{Host} `{Contracts}.

Definition builder (execution_id action_id state workdir : string)
    : RunningExecutionStateBuilder :=
  mk_builder (mk_running "" execution_id action_id "" "" state workdir None None "" None None
    None None None "").

Definition b_submission (plan_digest request_id : string) (b : RunningExecutionStateBuilder) :=
  let s := built b in
  mk_builder (mk_running (schema_version s) (execution_id s) (action_id s) plan_digest
    request_id (state s) (workdir s) (pid s) (process_identity s) (started_at s) (deadline_at s)
    (current_step_id s) (attempt s) (cancel_requested_at s) (kill_requested_at s) (updated_at s)).

Definition b_process (pid : option Z) (identity : option string)
    (b : RunningExecutionStateBuilder) :=
  let s := built b in
  mk_builder (mk_running (schema_version s) (execution_id s) (action_id s) (plan_digest s)
    (request_id s) (state s) (workdir s) pid identity (started_at s) (deadline_at s)
    (current_step_id s) (attempt s) (cancel_requested_at s) (kill_requested_at s) (updated_at s)).

Definition b_progress (started_at : string) (deadline_at : option string)
    (current_step_id : option string) (attempt : option Z) (b : RunningExecutionStateBuilder) :=
  let s := built b in
  mk_builder (mk_running (schema_version s) (execution_id s) (action_id s) (plan_digest s)
    (request_id s) (state s) (workdir s) (pid s) (process_identity s) started_at deadline_at
    current_step_id attempt (cancel_requested_at s) (kill_requested_at s) (updated_at s)).

Definition b_signals (cancel_requested_at kill_requested_at : option string)
    (updated_at : string) (b : RunningExecutionStateBuilder) :=
  let s := built b in
  mk_builder (mk_running (schema_version s) (execution_id s) (action_id s) (plan_digest s)
    (request_id s) (state s) (workdir s) (pid s) (process_identity s) (started_at s)
    (deadline_at s) (current_step_id s) (attempt s) cancel_requested_at kill_requested_at
    updated_at).

Definition build (b : RunningExecutionStateBuilder) : RunningExecutionState :=
  let s := built b in
  mk_running SCHEMA_VERSION_V1 (execution_id s) (action_id s) (plan_digest s)
    (request_id s) (state s) (workdir s) (pid s) (process_identity s) (started_at s)
    (deadline_at s) (current_step_id s) (attempt s) (cancel_requested_at s)
    (kill_requested_at s) (updated_at s).

(** The two assignments a signal request makes to a stored state. *)
Definition set_signals (st : string) (cancel_requested_at kill_requested_at : option string)
    (updated_at : string) (s : RunningExecutionState) : RunningExecutionState :=
  mk_running (schema_version s) (execution_id s) (action_id s) (plan_digest s)
    (request_id s) st (workdir s) (pid s) (process_identity s) (started_at s)
    (deadline_at s) (current_step_id s) (attempt s) cancel_requested_at kill_requested_at
    updated_at.

Definition running_dir (state_dir : string) : string := path_join state_dir "running".

Definition path_for (state_dir execution_id : string) : string :=
  path_join (running_dir state_dir) (execution_id +:+ ".json").

Section Io.
Context `{Json RunningExecutionState}.

Definition load `{!Backend} (path : string) : M World RunningExecutionState := be_read_json path.
Definition store `{!Backend} (path : string) (s : RunningExecutionState) : M World unit :=
  be_write_json path s.
Definition load_async := @load nonblocking.
Definition store_async := @store nonblocking.
End Io.

Definition remove `{!Backend} (path : string) : M World unit := be_remove path.
Definition remove_async := @remove nonblocking.
End Store.
End running.

(** * src/src/state_store/reporting.rs *)
Module reporting.

Record ReportingState := mk_reporting {
  schema_version : string;
  execution_id : string;
  action_id : string;
  plan_digest : string;
  request_id : string;
  final_state : string;
  result_path : string;
  report_envelope_path : option string;
  result_digest : option string;
  result_signature : option string;
  report_attempt : Z;
  last_report_at : option string;
  last_report_error : option string;
}.

#[global] Instance ReportingState_eq_dec : EqDecision ReportingState.
Proof. solve_decision. Defined.
#[global] Instance ReportingState_countable : Countable ReportingState.
Proof.
  refine (inj_countable'
    (λ s, (schema_version s, execution_id s, action_id s, plan_digest s, request_id s,
           (final_state s, result_path s, report_envelope_path s, result_digest s),
           (result_signature s, report_attempt s, last_report_at s, last_report_error s)))
    (λ '(a, b, c, d, e, (f, g, h, i), (j, k, l, m)), mk_reporting a b c d e f g h i j k l m) _).
  abstract (by intros []).
Defined.

Section Store.
Context `{Host} `{Contracts}.

(** [ReportingState::new]: the constructor stamps the schema version. *)
Definition new := mk_reporting SCHEMA_VERSION_V1.

Definition reporting_dir (state_dir : string) : string := path_join state_dir "reporting".

Definition path_for (state_dir execution_id : string) : string :=
  path_join (reporting_dir state_dir) (execution_id +:+ ".json").

Context `{Json ReportingState}.
Definition load `{!Backend} (path : string) : M World ReportingState := be_read_json path.
Definition store `{!Backend} (path : string) (s : ReportingState) : M World unit :=
  be_write_json path s.
Definition load_async := @load nonblocking.
Definition store_async := @store nonblocking.
End Store.
End reporting.

(** * src/src/state_store/history.rs *)
Module history.

Record ExecutionHistoryRecord := mk_history {
  schema_version : string;
  execution_id : string;
  action_id : option string;
  plan_digest : option string;
  request_id : option string;
  state : string;
  detail : string;
  recorded_at : string;
}.

#[global] Instance ExecutionHistoryRecord_eq_dec : EqDecision ExecutionHistoryRecord.
Proof. solve_decision. Defined.
#[global] Instance ExecutionHistoryRecord_countable : Countable ExecutionHistoryRecord.
Proof.
  refine (inj_countable'
    (λ s, (schema_version s, execution_id s, action_id s, plan_digest s, request_id s,
           (state s, detail s, recorded_at s)))
    (λ '(a, b, c, d, e, (f, g, h)), mk_history a b c d e f g h) _).
  abstract (by intros []).
Defined.

Section Store.
Context `{Host} `{Contracts}.

Definition quarantined (execution_id : string)
    (action_id plan_digest request_id : option string) (detail : string)
    : M World ExecutionHistoryRecord :=
  now ← now_rfc3339;
  mret (mk_history SCHEMA_VERSION_V1 execution_id action_id plan_digest request_id
          "quarantined" detail now).

Definition history_dir (state_dir : string) : string := path_join state_dir "history".

Definition path_for (state_dir execution_id : string) : string :=
  path_join (history_dir state_dir) (execution_id +:+ ".json").

Context `{Json ExecutionHistoryRecord}.
Definition load `{!Backend} (path : string) : M World ExecutionHistoryRecord := be_read_json path.
Definition store `{!Backend} (path : string) (r : ExecutionHistoryRecord) : M World unit :=
  be_write_json path r.
Definition load_async := @load nonblocking.
Definition store_async := @store nonblocking.
End Store.
End history.

(** The JSON encodings of the stores' documents. *)
Class StoreCodecs := {
  queue_json :: Json execution_queue.ExecutionQueueState;
  running_json :: Json running.RunningExecutionState;
  reporting_json :: Json reporting.ReportingState;
  history_json :: Json history.ExecutionHistoryRecord;
}.

(** * Paths of the stores *)

Section Paths.
Context `{ContractsLaws}.
Implicit Types (sd : string).

Lemma queue_file_name : has_char slash EXECUTION_QUEUE_FILE = false.
Proof. by rewrite queue_file_is. Qed.

Lemma queue_storable sd : storable (execution_queue.path_for sd).
Proof.
  unfold execution_queue.path_for, path_join. rewrite queue_file_is.
  change (String slash "execution_queue.json") with ("/execution_queue" +:+ ".json").
  rewrite app_assoc. apply json_storable.
Qed.

Lemma running_path_inj sd a b : running.path_for sd a = running.path_for sd b → a = b.
Proof. unfold running.path_for. by intros ?%path_join_inj%app_inj_r. Qed.
Lemma reporting_path_inj sd a b : reporting.path_for sd a = reporting.path_for sd b → a = b.
Proof. unfold reporting.path_for. by intros ?%path_join_inj%app_inj_r. Qed.
Lemma history_path_inj sd a b : history.path_for sd a = history.path_for sd b → a = b.
Proof. unfold history.path_for. by intros ?%path_join_inj%app_inj_r. Qed.

Lemma join_join sd d n : path_join (path_join sd d) n = path_join sd (path_join d n).
Proof. unfold path_join. by rewrite <-app_assoc, app_cons. Qed.

Lemma running_ne_reporting sd a b : running.path_for sd a ≠ reporting.path_for sd b.
Proof.
  unfold running.path_for, reporting.path_for, running.running_dir, reporting.reporting_dir.
  rewrite !join_join. intros Heq%path_join_inj. discriminate.
Qed.
Lemma running_ne_history sd a b : running.path_for sd a ≠ history.path_for sd b.
Proof.
  unfold running.path_for, history.path_for, running.running_dir, history.history_dir.
  rewrite !join_join. intros Heq%path_join_inj. discriminate.
Qed.
Lemma reporting_ne_history sd a b : reporting.path_for sd a ≠ history.path_for sd b.
Proof.
  unfold reporting.path_for, history.path_for, reporting.reporting_dir, history.history_dir.
  rewrite !join_join. intros Heq%path_join_inj. discriminate.
Qed.

Lemma has_char_join c a b : has_char c (a +:+ String c b) = true.
Proof.
  unfold has_char. induction a as [|x a IH].
  - cbn. rewrite app_nil_l. cbn. destruct (rsplit_once c b) as [[]|]; [done|].
    by rewrite Ascii.eqb_refl.
  - rewrite app_cons. cbn. by destruct (rsplit_once c (a +:+ String c b)) as [[]|].
Qed.

(** The queue file is not inside any of the state directory's sub-directories. *)
Lemma queue_ne_sub sd d n : execution_queue.path_for sd ≠ path_join (path_join sd d) n.
Proof.
  unfold execution_queue.path_for. rewrite join_join. intros Heq%path_join_inj.
  pose proof queue_file_name as Hq. rewrite Heq in Hq. unfold path_join in Hq.
  by rewrite has_char_join in Hq.
Qed.

(** [q] lies in the sub-directory [d] of the state directory. *)
Definition under sd d (q : string) : Prop := ∃ t, q = path_join (path_join sd d) t.

Lemma rsplit_once_keeps c x y :
  ∃ t b, rsplit_once c (x +:+ String c y) = Some (x +:+ t, b) ∧
    (t = "" ∨ ∃ t', t = String c t').
Proof.
  induction x as [|a x (t & b & Hr & Ht)].
  - rewrite app_nil_l. cbn. destruct (rsplit_once c y) as [[u v]|].
    + exists (String c u), v. rewrite app_nil_l. eauto.
    + rewrite Ascii.eqb_refl. exists "", y. auto.
  - rewrite app_cons. cbn. rewrite Hr. exists t, b. by rewrite app_cons.
Qed.

Lemma with_extension_under d n e : ∃ t, path_with_extension (path_join d n) e = path_join d t.
Proof.
  unfold path_with_extension, path_parent.
  destruct (rsplit_once_keeps slash d n) as (t & b & Hr & Ht). unfold path_join at 1.
  rewrite Hr. cbn [fmap option_fmap option_map fst].
  set (name := _ +:+ String dot e). destruct Ht as [->|[t' ->]].
  - exists name. by rewrite app_nil_r.
  - exists (t' +:+ String slash name). unfold path_join. by rewrite <-app_assoc, app_cons.
Qed.

Lemma store_paths_under sd d n q : store_paths (path_join (path_join sd d) n) q → under sd d q.
Proof.
  intros [->| ->]; [by eexists|].
  destruct (with_extension_under (path_join sd d) n "tmp") as [t ->]. by exists t.
Qed.

Lemma under_disjoint sd d d' q : under sd d q → under sd d' q →
  (∀ s t, path_join d s ≠ path_join d' t) → False.
Proof. intros [t ->] [t' Ht] Hne. rewrite !join_join in Ht. apply path_join_inj in Ht. by apply Hne in Ht. Qed.

Lemma has_char_app_false c a b : has_char c (a +:+ String c b) = false → False.
Proof. by rewrite has_char_join. Qed.

Lemma rsplit_once_left c d s x y : rsplit_once c s = None → rsplit_once d s = Some (x, y) →
  rsplit_once c x = None.
Proof.
  intros Hs%has_char_false Hd%rsplit_once_spec. apply has_char_false. subst s.
  destruct (has_char c x) eqn:E; [|done]. unfold has_char in E.
  destruct (rsplit_once c x) as [[u v]|] eqn:Eu; [|done]. apply rsplit_once_spec in Eu as ->.
  rewrite <-app_assoc, app_cons in Hs. by apply has_char_app_false in Hs.
Qed.

(** The files of the queue store are not in any sub-directory. *)
Lemma queue_store_not_under sd d q :
  store_paths (execution_queue.path_for sd) q → ¬ under sd d q.
Proof.
  pose proof queue_file_name as Hq. intros [->| ->] [t Ht]; [by apply queue_ne_sub in Ht|].
  unfold path_with_extension, execution_queue.path_for in Ht.
  rewrite path_parent_join in Ht by done. rewrite join_join in Ht. apply path_join_inj in Ht.
  unfold path_file_stem in Ht. rewrite path_file_name_join in Ht by done.
  assert (Hstem : has_char slash (fst (name_split EXECUTION_QUEUE_FILE)) = false).
  { unfold name_split. destruct (rsplit_once dot _) as [[x y]|] eqn:E; [|done].
    destruct x; [done|]. cbn [fst]. apply has_char_false.
    by eapply rsplit_once_left; [apply has_char_false|]. }
  unfold path_join in Ht.
  set (stem := fst _) in *. clearbody stem.
  assert (Hall : has_char slash (stem +:+ String dot "tmp") = true) by (rewrite Ht; apply has_char_join).
  clear Ht Hq. revert Hall Hstem. unfold has_char. induction stem as [|a s IH]; [done|].
  rewrite app_cons. cbn. destruct (rsplit_once slash (s +:+ String dot "tmp")) as [[]|].
  - destruct (rsplit_once slash s) as [[]|]; [done|]. intros _.
    destruct (Ascii.eqb a slash); [done|]. by apply IH.
  - destruct (Ascii.eqb a slash); [|done]. by destruct (rsplit_once slash s) as [[]|].
Qed.

Lemma dir_prefix d p : d ∈ dir_prefixes p → ∃ t, p = d +:+ t.
Proof.
  revert d. induction p as [|a p IH]; intros d; cbn; [intros ->%list_elem_of_singleton; by exists ""|].
  rewrite elem_of_app. intros [Hd|(d' & -> & Hd')%list_elem_of_fmap].
  - destruct (Ascii.eqb a slash); [|set_solver]. apply list_elem_of_singleton in Hd as ->. by eexists.
  - destruct (IH d' Hd') as [t ->]. by exists t.
Qed.

(** The directories a store makes are above its file. *)
Lemma wrote_dirs `{Os} p s w q : q ∉ dirs w → (∀ t, path_parent p ≠ Some (q +:+ t)) →
  q ∉ dirs (wrote p s w).
Proof.
  intros Hq Hne. unfold wrote. cbn. destruct (path_parent p) as [d|] eqn:E; [|done].
  rewrite elem_of_union, elem_of_list_to_set. intros [[t ->]%dir_prefix|]; [|done].
  by destruct (Hne t).
Qed.

Lemma app_self_ne sd a t : sd ≠ (sd +:+ String a t).
Proof.
  intros Heq. apply (f_equal String.length) in Heq. rewrite length_app_string in Heq. cbn in Heq. lia.
Qed.
End Paths.


