(* ===== verification/Toy.v ===== *)
(** A concrete instance of every parameter of the execution controller's model, used by the
    witnesses: contract types are tuples, documents are written with the countable encoding of
    [Host.Concrete], and there are no file-system faults. *)
From S2P Require Import Prelude Host Contracts Stores.
Export Host.Concrete.

(** action id, request id, agent id, node id, total duration (ms), entry, steps. *)
Definition toy_plan : Type :=
  string * string * (string * string) * Z * (string * list (string * option string)).
(** action id, execution id, final status, exit reason. *)
Definition toy_result : Type := string * string * nat * option string.
(** report id, action id, attempt, execution id, plan digest. *)
Definition toy_report : Type := string * string * Z * string * string.

#[export] Instance RuntimeContext_eq_dec : EqDecision RuntimeContext.
Proof. solve_decision. Defined.
#[export] Instance RuntimeContext_countable : Countable RuntimeContext.
Proof.
  refine (inj_countable'
    (λ r, (rc_execution_id r, rc_spawned_at r, rc_deadline_at r, rc_agent_id r, rc_node_id r,
           rc_workdir r))
    (λ '(a, b, c, d, e, f), Build_RuntimeContext a b c d e f) _).
  abstract (by intros []).
Defined.
#[export] Instance ProgressState_eq_dec : EqDecision ProgressState.
Proof. solve_decision. Defined.
#[export] Instance ProgressState_countable : Countable ProgressState.
Proof.
  refine (inj_countable'
    (λ r, (ps_execution_id r, ps_action_id r, ps_state r, ps_updated_at r, ps_step_id r,
           (ps_attempt r, ps_reason_code r, ps_detail r)))
    (λ '(a, b, c, d, e, (f, g, h)), Build_ProgressState a b c d e f g h) _).
  abstract (by intros []).
Defined.

#[export] Instance toy_contracts : Contracts := {|
  ActionPlan := toy_plan;
  plan_action_id p := p.1.1.1.1;
  plan_request_id p := p.1.1.1.2;
  plan_agent_id p := p.1.1.2.1;
  plan_node_id p := p.1.1.2.2;
  plan_max_total_duration_ms p := p.1.2;
  plan_risk_level _ := R1;
  plan_program_entry p := p.2.1;
  StepOp := string;
  plan_program_steps p := p.2.2;
  ActionPlan_json := toy_json;
  FinalStatus := nat;
  Succeeded := 0;
  Failed := 1;
  TimedOut := 2;
  as_state_name s := match s with 0 => "succeeded" | 1 => "failed" | _ => "timed_out" end;
  StepStatus := nat;
  StepFailed := 0;
  StepTimedOut := 1;
  StepCancelled := 2;
  ActionResult := toy_result;
  final_status r := r.1.2;
  ActionResult_json := toy_json;
  ReportActionResult := toy_report;
  ReportActionResult_json := toy_json;
  digest_plan p := Ok ("digest-" +:+ p.1.1.1.1);
  digest_result r := Ok ("digest-" +:+ r.1.1.2);
  sign_dev_placeholder agent d := agent +:+ ":" +:+ d;
  dev_placeholder_issuer agent := "dev:" +:+ agent;
  validate_report_action_result _ := None;
  SCHEMA_VERSION_V1 := "v1";
  ACTIONS_DIR := "actions";
  WORKDIR_PLAN_FILE := "plan.json";
  WORKDIR_RUNTIME_FILE := "runtime.json";
  WORKDIR_STATE_FILE := "state.json";
  WORKDIR_RESULT_FILE := "result.json";
  EXECUTION_QUEUE_FILE := "execution_queue.json";
  REPORT_ENVELOPE_SUFFIX := ".report.json";
  display_runtime_error e := io_msg e;
|}.

#[export] Instance toy_constructors : ContractConstructors := {|
  mk_action_result a x fs r e steps st fi := (a, x, fs, e) : ActionResult;
  ReportActionResult_new rid aid n fs x pd ag ins att at_ r := (rid, aid, n, x, pd) : ReportActionResult;
  RuntimeContext_json := toy_json;
  ProgressState_json := toy_json;
|}.

#[export] Instance toy_laws : ContractsLaws.
Proof. split; try done; [by exists "state"|by exists ".report"]. Qed.

#[export] Instance toy_codecs : StoreCodecs := {|
  queue_json := toy_json;
  running_json := toy_json;
  reporting_json := toy_json;
  history_json := toy_json;
|}.

#[export] Instance toy_shared : SharedFs := {|
  shared_read_json A J p := @read_json_async _ _ A J p;
  shared_write_json_atomic A J p a := write_json_atomic_async p a;
|}.

#[export] Instance toy_shared_laws : SharedFsLaws.
Proof. by split. Qed.

(** A queue item and a plan of the witnesses. *)
Definition toy_item (id : string) (p : Z) : execution_queue.ExecutionQueueItem :=
  execution_queue.with_priority p
    (execution_queue.builder id ("act-" +:+ id) ("digest-act-" +:+ id) ("req-" +:+ id) "t0").
Definition toy_plan_of (id : string) : ActionPlan :=
  (("act-" +:+ id, "req-" +:+ id, ("agent", "node"), 1000%Z), ("s1", [("s1", Some "noop")])).
