(* ===== verification/Queue.v ===== *)
(** Correctness of the local execution queue (src/src/state_store/execution_queue.rs): the
    list kept in the queue file refines one FIFO queue per priority, served in priority
    order. *)
From S2P Require Import Prelude Host Contracts Stores Toy.
Import execution_queue.

Definition prio_le (a b : ExecutionQueueItem) : Prop := (priority a ≤ priority b)%Z.
Definition prio_sorted (l : list ExecutionQueueItem) : Prop := StronglySorted prio_le l.
Definition of_prio (p : Z) (l : list ExecutionQueueItem) : list ExecutionQueueItem :=
  filter (λ i, priority i = p) l.

(** A queue operation together with the time text it stamps. *)
Inductive QueueOp :=
  | OpEnqueue (now : string) (item : ExecutionQueueItem)
  | OpRemove' (now : string) (execution_id : string).

Definition run_op `{Contracts} (q : ExecutionQueueState) (op : QueueOp) : ExecutionQueueState :=
  match op with
  | OpEnqueue now item => enqueue now item q
  | OpRemove' now id => remove now id q
  end.

(** The specification: what one priority class does with an operation. *)
Definition fifo_op (p : Z) (l : list ExecutionQueueItem) (op : QueueOp) :=
  match op with
  | OpEnqueue _ item => if decide (priority item = p) then l ++ [item] else l
  | OpRemove' _ id => filter (λ i, execution_id i ≠ id) l
  end.

Section InsertSorted.
Implicit Types (l : list ExecutionQueueItem) (item : ExecutionQueueItem).

Definition place item l : list ExecutionQueueItem :=
  insert_at (default (length l) (position (λ e, Z.ltb (priority item) (priority e)) l)) item l.

(** The insertion as a structural recursion. *)
Lemma place_cons item e l :
  place item (e :: l) = if Z.ltb (priority item) (priority e) then item :: e :: l else e :: place item l.
Proof.
  unfold place, insert_at. cbn [position]. destruct (Z.ltb _ _); [done|].
  by destruct (position _ l).
Qed.

Lemma place_perm item l : place item l ≡ₚ item :: l.
Proof. apply insert_at_perm. Qed.

Lemma place_sorted item l : prio_sorted l → prio_sorted (place item l).
Proof.
  induction 1 as [|e l Hl IH He]; [repeat constructor|].
  rewrite place_cons. destruct (Z.ltb_spec (priority item) (priority e)) as [Hlt|Hge].
  - constructor; [by constructor|]. constructor; [unfold prio_le; lia|].
    eapply Forall_weaken; [exact He|]. unfold prio_le. intros; lia.
  - constructor; [done|]. rewrite place_perm. by constructor.
Qed.

Lemma of_prio_app p l k : of_prio p (l ++ k) = of_prio p l ++ of_prio p k.
Proof. apply filter_app. Qed.

Lemma of_prio_above p l : Forall (λ e, (p < priority e)%Z) l → of_prio p l = [].
Proof.
  intros Hl. apply filter_keeps_none. intros x Hx. rewrite Forall_forall in Hl.
  specialize (Hl x Hx). lia.
Qed.

(** Within a priority class the new item comes last; other classes are untouched. *)
Lemma place_of_prio p item l : prio_sorted l →
  of_prio p (place item l) = if decide (priority item = p) then of_prio p l ++ [item] else of_prio p l.
Proof.
  induction 1 as [|e l Hl IH He].
  { unfold place, of_prio, insert_at. cbn [position default app take drop length].
    rewrite filter_cons, filter_nil. by case_decide. }
  rewrite place_cons. destruct (Z.ltb_spec (priority item) (priority e)) as [Hlt|Hge].
  - unfold of_prio at 1. rewrite filter_cons. fold (of_prio p (e :: l)).
    case_decide; [|done]. rewrite of_prio_above; [done|]. constructor; [lia|].
    eapply Forall_weaken; [exact He|]. unfold prio_le. intros; lia.
  - unfold of_prio in *. rewrite !filter_cons, IH. repeat case_decide; done.
Qed.

Lemma filter_sorted (P : ExecutionQueueItem → Prop) `{!∀ x, Decision (P x)} l :
  prio_sorted l → prio_sorted (filter P l).
Proof.
  induction 1 as [|e l Hl IH He]; [constructor|]. rewrite filter_cons. case_decide; [|done].
  constructor; [done|]. apply Forall_forall. intros x [_ Hx]%list_elem_of_filter.
  by eapply Forall_forall in He.
Qed.
End InsertSorted.

Section QueueProperties.
Context `{Contracts}.

Lemma run_op_sorted q op : prio_sorted (items q) → prio_sorted (items (run_op q op)).
Proof. intros Hs. destruct op; [by apply place_sorted|by apply filter_sorted, Hs]. Qed.

Lemma run_op_fifo p q op : prio_sorted (items q) →
  of_prio p (items (run_op q op)) = fifo_op p (of_prio p (items q)) op.
Proof.
  intros Hs. destruct op as [now item|now id]; cbn.
  - by apply place_of_prio.
  - unfold of_prio. rewrite !list_filter_filter. apply list_filter_iff. tauto.
Qed.

(** C33. Refinement of the queue by per-priority FIFO queues: after any sequence of enqueues
    and removals on a fresh queue, the stored list is sorted by priority (lower number
    first), so its head has the smallest priority present, and the entries of each priority
    are exactly those of a FIFO queue that saw the same operations. *)
Theorem queue_refines_fifo (now : string) (ops : list QueueOp) :
  let q := foldl run_op (new now) ops in
  prio_sorted (items q) ∧
  (∀ p, of_prio p (items q) = foldl (fifo_op p) [] ops) ∧
  (∀ h t, items q = h :: t → ∀ i, i ∈ items q → (priority h ≤ priority i)%Z).
Proof.
  cbn zeta.
  assert (Hgen : ∀ q, prio_sorted (items q) →
    prio_sorted (items (foldl run_op q ops)) ∧
    ∀ p, of_prio p (items (foldl run_op q ops)) = foldl (fifo_op p) (of_prio p (items q)) ops).
  { induction ops as [|op ops IH]; intros q Hq; [done|]. cbn.
    destruct (IH (run_op q op) (run_op_sorted q op Hq)) as [Hs Hf].
    split; [done|]. intros p. by rewrite Hf, run_op_fifo. }
  destruct (Hgen (new now)) as [Hs Hf]; [constructor|].
  split_and!; [done|done|]. intros h t Hht i Hi. rewrite Hht in Hs, Hi.
  inversion Hs as [|? ? _ Hall]; subst. apply elem_of_cons in Hi as [->|Hi]; [done|].
  by eapply Forall_forall in Hall.
Qed.

(** Removal undoes submission: taking out an execution id that was not queued before
    restores the list of queued items, whatever the priorities; and removal never disturbs
    an item of another execution. *)
Theorem enqueue_remove_roundtrip (now1 now2 : string) (item : ExecutionQueueItem)
    (q : ExecutionQueueState) :
  (∀ i, i ∈ items q → execution_id i ≠ execution_id item) →
  items (remove now2 (execution_id item) (enqueue now1 item q)) = items q ∧
  (∀ i id, execution_id i ≠ id → (i ∈ items (remove now2 id q) ↔ i ∈ items q)).
Proof.
  intros Hfresh. split.
  - cbn. unfold insert_at. set (n := default _ _).
    rewrite filter_app, filter_cons. rewrite decide_False by (intros Hn; by apply Hn).
    rewrite <-filter_app, take_drop. by apply filter_keeps_all.
  - intros i id Hi. cbn. rewrite list_elem_of_filter. tauto.
Qed.
End QueueProperties.

Lemma enqueue_remove_roundtrip_witness :
  let q := enqueue "t1" (toy_item "a" 100) (new "t0") in
  items (remove "t3" "b" (enqueue "t2" (toy_item "b" 50) q)) = items q.
Proof.
  intros q. apply (enqueue_remove_roundtrip "t2" "t3" (toy_item "b" 50) q).
  intros i Hi. apply elem_of_cons in Hi as [->|Hi]; [discriminate|by apply not_elem_of_nil in Hi].
Defined.
