(* ===== verification/Process.v ===== *)
(** Process lifecycle control: src/src/exec/process_control.rs and its support file
    src/src/exec/process_control_support.rs (the Unix/Linux variants).  A running execution is
    identified by its pid together with an identity token (the kernel start time), so that a
    reused pid is never mistaken for the execution. *)
From S2P Require Import Prelude Host Contracts Stores Toy.
Import running.

(** What the agent relies on of [kill(2)]: signal 0 only probes. *)
Class OsLaws `{Os} : Prop := {
  os_probe : ∀ pid s, (os_kill pid 0 s).2 = s;
}.

Inductive SignalRequestKind := Cancel | Kill.
Inductive RunningStateStatus := Inactive | Active | Expired.
Inductive ProcessIdentityState := MissingProcess | Matches | Mismatch | Unavailable.

#[export] Instance RunningStateStatus_eq_dec : EqDecision RunningStateStatus.
Proof. solve_decision. Defined.
#[export] Instance ProcessIdentityState_eq_dec : EqDecision ProcessIdentityState.
Proof. solve_decision. Defined.

(** [str::rsplit_once] for a string separator. *)
Fixpoint rsplit_once_str (sep s : string) : option (string * string) :=
  match s with
  | EmptyString => None
  | String a s' =>
      match rsplit_once_str sep s' with
      | Some (x, y) => Some (String a x, y)
      | None => (λ rest, (EmptyString, rest)) <$> strip_prefix sep s
      end
  end.

(** [str::split_whitespace] on ASCII text; [cur] is the word being read, reversed. *)
Fixpoint split_words (cur : string) (s : string) : list string :=
  match s with
  | EmptyString => if String.eqb cur "" then [] else [cur]
  | String a s' =>
      if Ascii.is_space a
      then (if String.eqb cur "" then [] else [cur]) ++ split_words "" s'
      else split_words (cur +:+ String a "") s'
  end.
Definition split_whitespace (s : string) : list string := split_words "" s.

(** * src/src/exec/process_control_support.rs *)
Section Support.
Context `{Host}.

Definition ESRCH : Z := 3.
Definition EPERM : Z := 1.
Definition SIGKILL : Z := 9.
Definition SIGTERM : Z := 15.

(** [io::Error::from_raw_os_error]. *)
Definition os_error (errno : Z) : IoError :=
  MkIoError (if Z.eqb errno EPERM then PermissionDenied
             else if Z.eqb errno 2 then NotFound
             else if Z.eqb errno 22 then InvalidInput else Other) "os error".

(** [pid as i32]. *)
Definition pid_as_i32 (pid : Z) : Z := if Z.ltb pid (2 ^ 31) then pid else pid - 2 ^ 32.

Definition raw_kill (pid sig : Z) : M World (option Z) :=
  act (λ w, let '(errno, o) := os_kill (pid_as_i32 pid) sig (os w) in (Ok errno, set_os o w)).

Definition classify_existence_error (errno : Z) : result bool :=
  if Z.eqb errno ESRCH then Ok false
  else if Z.eqb errno EPERM then Ok true
  else Err (os_error errno).

Definition process_exists (pid : Z) : M World bool :=
  if Z.eqb pid 0 then mret false
  else
    rc ← raw_kill pid 0;
    match rc with
    | None => mret true
    | Some errno => of_result (classify_existence_error errno)
    end.

(** [send_signal], with the errno of the failure. *)
Definition send_signal (pid sig : Z) : M World (option Z) :=
  if Z.eqb pid 0 then mret None else raw_kill pid sig.

Definition send_terminate (pid : Z) : M World unit :=
  rc ← send_signal pid SIGTERM;
  match rc with None => mret tt | Some errno => throw (os_error errno) end.

Definition read_proc_stat (pid : Z) : M World (option string) :=
  act (λ w,
    match os_proc_stat pid (os w) with
    | Ok stat => (Ok (Some stat), w)
    | Err err =>
        match io_kind err with
        | NotFound | PermissionDenied => (Ok None, w)
        | _ => (Err err, w)
        end
    end).

Definition process_identity_token (pid : Z) : M World (option string) :=
  stat ← read_proc_stat pid;
  mret (match stat with
        | None => None
        | Some stat =>
            match rsplit_once_str ") " stat with
            | None => None
            | Some (_, tail) =>
                match split_whitespace tail !! 19 with
                | None => None
                | Some start_time => Some ("linux_proc_start:" +:+ start_time)
                end
            end
        end).

Definition process_identity (pid : Z) : M World (option string) :=
  if Z.eqb pid 0 then mret None else process_identity_token pid.

Definition parse_linux_proc_state (stat : string) : option ascii :=
  match rsplit_once_str ") " stat with
  | Some (_, String c _) => Some c
  | _ => None
  end.

Definition process_is_zombie (pid : Z) : M World bool :=
  stat ← read_proc_stat pid;
  mret (match stat with
        | None => false
        | Some stat => bool_decide (parse_linux_proc_state stat = Some "Z"%char)
        end).

Definition process_is_running (pid : Z) : M World bool :=
  ex ← process_exists pid;
  if ex : bool then z ← process_is_zombie pid; mret (negb z) else mret false.

(** The polling loop of [wait_for_exit]; [None] when the fuel ran out. *)
Fixpoint wait_for_exit_loop (fuel : nat) (pid deadline : Z) : M World (option bool) :=
  match fuel with
  | 0 => mret None
  | S fuel =>
      running ← process_is_running pid;
      if running : bool then
        now ← gets clock;
        if Z.leb deadline now then mret (Some true)
        else sleep_ms 10;; wait_for_exit_loop fuel pid deadline
      else mret (Some false)
  end.

(** One poll every 10 ms: the fuel covers the timeout and the poll that notices it. *)
Definition wait_for_exit_fuel (timeout : Z) : nat := Z.to_nat (timeout / 10) + 2.

Definition wait_for_exit (pid timeout : Z) : M World bool :=
  now ← gets clock;
  r ← wait_for_exit_loop (wait_for_exit_fuel timeout) pid (now + timeout);
  match r with Some b => mret b | None => throw (io_other "out of fuel") end.

(** [true]: the process may still be running. *)
Definition force_kill (pid : Z) : M World bool :=
  if Z.eqb pid 0 then mret false
  else
    rc ← send_signal pid SIGKILL;
    match rc with
    | None => wait_for_exit pid 250
    | Some errno =>
        if Z.eqb errno EPERM then mret true
        else if Z.eqb errno ESRCH then mret false
        else throw (os_error errno)
    end.

Definition classify_process_identity (expected actual : option string) : ProcessIdentityState :=
  match expected with
  | None => Matches
  | Some expected =>
      match actual with
      | Some actual => if decide (actual = expected) then Matches else Mismatch
      | None => Unavailable
      end
  end.

Definition process_identity_state (pid : Z) (expected : option string)
    : M World ProcessIdentityState :=
  ex ← process_exists pid;
  if ex : bool then
    actual ← (match expected with Some _ => process_identity pid | None => mret None end);
    mret (classify_process_identity expected actual)
  else mret MissingProcess.

Definition derive_running_state_status (identity_state : ProcessIdentityState)
    (deadline_elapsed : bool) : RunningStateStatus :=
  match identity_state with
  | MissingProcess | Mismatch => Inactive
  | Unavailable => Active
  | Matches => if deadline_elapsed then Expired else Active
  end.
End Support.

(** * src/src/exec/process_control.rs *)
Section Control.
Context `{Host} `{Contracts} `{Json RunningExecutionState}.

Definition deadline_has_elapsed (deadline_at : option string) : M World bool :=
  match deadline_at with
  | None => mret false
  | Some deadline_at =>
      match parse_rfc3339 deadline_at with
      | None => mret false
      | Some deadline => now ← gets clock; mret (Z.leb deadline now)
      end
  end.

Definition inspect_running_state (state : RunningExecutionState) : M World RunningStateStatus :=
  match pid state with
  | None => mret Inactive
  | Some pid =>
      identity ← process_identity_state pid (running.process_identity state);
      elapsed ← deadline_has_elapsed (deadline_at state);
      mret (derive_running_state_status identity elapsed)
  end.

Definition apply_signal_request (kind : SignalRequestKind) (requested_at : string)
    (s : RunningExecutionState) : RunningExecutionState :=
  match kind with
  | Cancel =>
      set_signals "cancelling"
        (match cancel_requested_at s with None => Some requested_at | some => some end)
        (kill_requested_at s) requested_at s
  | Kill =>
      set_signals "kill_requested" (cancel_requested_at s) (Some requested_at) requested_at s
  end.

Definition record_signal_request_async (running_path : string) (kind : SignalRequestKind)
    : M World unit :=
  r ← try (fs_metadata running_path);
  match r with
  | Err err => if decide (io_kind err = NotFound) then mret tt else throw err
  | Ok _ =>
      state ← load_async running_path;
      requested_at ← now_rfc3339;
      store_async running_path (apply_signal_request kind requested_at state)
  end.

(** The state is a [&mut]: the new kill request time is returned with the answer. *)
Definition force_stop_expired_process_async (state : RunningExecutionState)
    (running_path : string) : M World (bool * RunningExecutionState) :=
  match pid state with
  | None => mret (false, state)
  | Some pid =>
      identity ← process_identity_state pid (running.process_identity state);
      match identity with
      | MissingProcess | Mismatch => mret (false, state)
      | Unavailable => mret (true, state)
      | Matches =>
          record_signal_request_async running_path Kill;;
          reloaded ← load_async running_path;
          let state' := set_signals (running.state state) (cancel_requested_at state)
                          (kill_requested_at reloaded) (updated_at state) state in
          alive ← force_kill pid;
          mret (alive, state')
      end
  end.

Definition handle_expired_running_state_async (state : RunningExecutionState)
    (running_path : string) : M World (bool * RunningExecutionState) :=
  force_stop_expired_process_async state running_path.
End Control.

(** * Probing leaves the host as it is *)
Section Probes.
Context `{Host} `{!OsLaws}.

Lemma set_os_same w : set_os (os w) w = w.
Proof. by destruct w. Qed.

Lemma raw_kill_probe pid : respects eq (raw_kill pid 0).
Proof.
  apply respects_act. intros w. pose proof (os_probe (pid_as_i32 pid) (os w)) as Hp.
  destruct (os_kill _ _ _) as [e o]. cbn in *. subst o. by rewrite set_os_same.
Qed.

Lemma process_exists_ro pid : respects eq (process_exists pid).
Proof.
  unfold process_exists. case_match; [by apply respects_ret, _|].
  apply respects_bind; [apply _|apply raw_kill_probe|intros rc].
  case_match; [by apply respects_of_result, _|by apply respects_ret, _].
Qed.

Lemma read_proc_stat_ro pid : respects eq (read_proc_stat pid).
Proof. apply respects_act. intros w. repeat case_match; done. Qed.

Lemma process_identity_ro pid : respects eq (process_identity pid).
Proof.
  unfold process_identity, process_identity_token. case_match; [by apply respects_ret, _|].
  apply respects_bind; [apply _|apply read_proc_stat_ro|intros]. by apply respects_ret, _.
Qed.

Lemma process_identity_state_ro pid e : respects eq (process_identity_state pid e).
Proof.
  apply respects_bind; [apply _|apply process_exists_ro|intros []; [|by apply respects_ret, _]].
  apply respects_bind; [apply _| |intros; by apply respects_ret, _].
  destruct e; [apply process_identity_ro|by apply respects_ret, _].
Qed.

Lemma process_is_running_ro pid : respects eq (process_is_running pid).
Proof.
  apply respects_bind; [apply _|apply process_exists_ro|intros []; [|by apply respects_ret, _]].
  apply respects_bind; [apply _| |intros; by apply respects_ret, _].
  apply respects_bind; [apply _|apply read_proc_stat_ro|intros]. by apply respects_ret, _.
Qed.

Lemma deadline_has_elapsed_ro d : respects eq (deadline_has_elapsed d).
Proof.
  unfold deadline_has_elapsed. repeat case_match; try by apply respects_ret, _.
  apply respects_bind; [apply _|by apply respects_gets, _|intros]. by apply respects_ret, _.
Qed.

Lemma inspect_running_state_ro s : respects eq (inspect_running_state s).
Proof.
  unfold inspect_running_state. case_match; [|by apply respects_ret, _].
  apply respects_bind; [apply _|apply process_identity_state_ro|intros].
  apply respects_bind; [apply _|apply deadline_has_elapsed_ro|intros]. by apply respects_ret, _.
Qed.

(** A computation that leaves the state alone is determined by its result. *)
Lemma ro_run {A} (m : M World A) w r w' : respects eq m → m w = (r, w') → w' = w ∧ (m w).1 = r.
Proof. intros Hm Hr. specialize (Hm w). rewrite Hr in Hm |- *. by cbn in *. Qed.

Lemma ro_eq {A} (m : M World A) w : respects eq m → m w = ((m w).1, w).
Proof. intros Hm. specialize (Hm w). destruct (m w). by cbn in *; subst. Qed.

(** [Matches] means: the process exists and its token, if one was recorded, is the same. *)
Lemma process_identity_state_matches pid expected w :
  (process_identity_state pid expected w).1 = Ok Matches →
  (process_exists pid w).1 = Ok true ∧
  ∀ tok, expected = Some tok → (process_identity pid w).1 = Ok (Some tok).
Proof.
  unfold process_identity_state. unfold mbind at 1, M_bind at 1.
  rewrite (ro_eq _ w (process_exists_ro pid)).
  destruct (process_exists pid w).1 as [[]|]; [|done..]. intros Hm. split; [done|].
  intros tok ->. unfold mbind, M_bind in Hm. rewrite (ro_eq _ w (process_identity_ro pid)) in Hm.
  destruct (process_identity pid w).1 as [[actual|]|]; [|done..].
  cbn in Hm. case_decide; [|done]. by subst.
Qed.
End Probes.

(** * Waiting for a killed process *)
Section Waiting.
Context `{Host} `{!OsLaws}.

Lemma wait_loop_bound fuel pid deadline w :
  (deadline - clock w ≤ 10 * Z.of_nat (fuel - 1))%Z → 0 < fuel →
  let '(r, w') := wait_for_exit_loop fuel pid deadline w in
  r ≠ Ok None ∧ files w' = files w ∧ dirs w' = dirs w ∧
  (clock w ≤ clock w' ≤ Z.max (clock w) (deadline + 10))%Z ∧
  (r = Ok (Some true) → deadline ≤ clock w')%Z.
Proof.
  revert w. induction fuel as [|fuel IH]; intros w Hd Hf; [lia|].
  cbn [wait_for_exit_loop]. unfold mbind at 1, M_bind at 1.
  rewrite (ro_eq _ w (process_is_running_ro pid)).
  destruct (process_is_running pid w).1 as [[]|e]; [|cbn; split_and!; (done || lia)..].
  unfold sleep_ms, modify, gets, mbind, M_bind.
  destruct (Z.leb_spec deadline (clock w)); [cbn; split_and!; (done || lia)|].
  set (w1 := set_os _ _). assert (clock w1 = clock w + 10)%Z as Hc by done.
  specialize (IH w1). destruct (wait_for_exit_loop fuel pid deadline w1) as [r w'].
  destruct IH as (Hr & Hfi & Hdi & Hb & Ht); [lia|lia|].
  split_and!; [done|by rewrite Hfi|by rewrite Hdi|lia|lia|done].
Qed.

(** Waiting for a killed process terminates: whatever the process table answers, the poll
    loop of [wait_for_exit] never exhausts its fuel of one poll per 10 ms, touches no file,
    and takes at most the timeout plus one poll interval; it reports a survivor only after
    the whole timeout has passed. *)
Theorem wait_for_exit_terminates (pid timeout : Z) (w : World) :
  (0 ≤ timeout)%Z →
  let '(r, w') :=
    wait_for_exit_loop (wait_for_exit_fuel timeout) pid (clock w + timeout) w in
  r ≠ Ok None ∧ files w' = files w ∧
  (clock w ≤ clock w' ≤ clock w + timeout + 10)%Z ∧
  (r = Ok (Some true) → clock w + timeout ≤ clock w')%Z.
Proof.
  intros Ht. pose proof (wait_loop_bound (wait_for_exit_fuel timeout) pid (clock w + timeout) w) as Hl.
  unfold wait_for_exit_fuel in *.
  pose proof (Z.div_pos timeout 10 Ht ltac:(lia)) as Hq.
  pose proof (Z.mul_succ_div_gt timeout 10 ltac:(lia)) as Hgt.
  destruct (wait_for_exit_loop _ _ _ w) as [r w']. destruct Hl as (? & ? & ? & ? & ?); [lia|lia|].
  split_and!; [done|done|lia|lia|done].
Qed.
End Waiting.

#[export] Instance toy_os_laws : OsLaws.
Proof. split. intros pid s. cbn -[lookup]. by destruct (lookup (M := gmap Z string) pid s). Qed.

Lemma wait_for_exit_terminates_witness :
  let w := MkWorld toy_os ∅ ∅ 0 ({[7%Z := "7 (sleep) S 1"]} : gmap Z string) in
  let r := wait_for_exit_loop (wait_for_exit_fuel 250) 7 250 w in
  (r.1 = Ok (Some true)) ∧ (250 ≤ clock r.2 ≤ 260)%Z.
Proof.
  intros w r. split; [by vm_compute|].
  pose proof (wait_for_exit_terminates 7 250 w ltac:(lia)) as Ht.
  change (clock w + 250)%Z with 250%Z in Ht. fold r in Ht.
  destruct r as [res w'] eqn:E. destruct Ht as (_ & _ & Hb & Ht). cbn.
  assert (res = Ok (Some true)) as Hres.
  { change res with (res, w').1. rewrite <-E. by vm_compute. }
  specialize (Ht Hres). cbn in *. lia.
Defined.

(** * Stopping an expired execution *)

(** Only files in [F] may change; the clock and the process table may. *)
Definition files_within `{Os} (F : string → Prop) : relation World := λ w w',
  ∀ q, ¬ F q → files w' !! q = files w !! q.

#[export] Instance files_within_preorder `{Os} F : PreOrder (files_within F).
Proof. split; [done|]. intros w1 w2 w3 H1 H2 q Hq. by rewrite H2, H1. Qed.

Lemma only_files_within `{Os} F w w' : only_files F w w' → files_within F w w'.
Proof. by intros [Hf _]. Qed.

Section Stopping.
Context `{Host} `{!OsLaws} `{Json RunningExecutionState}.
Implicit Types (state s : RunningExecutionState).

Lemma respects_eq_any (R : relation World) `{!PreOrder R} {A} (m : M World A) :
  respects eq m → respects R m.
Proof. intros Hm. eapply respects_mono; [|exact Hm]. by intros w w' ->. Qed.

Lemma wait_for_exit_within F pid timeout : respects (files_within F) (wait_for_exit pid timeout).
Proof.
  unfold wait_for_exit. apply respects_bind; [apply _|by apply respects_gets, _|intros now].
  apply respects_bind; [apply _| |intros; case_match; [by apply respects_ret, _|by apply respects_throw, _]].
  generalize (wait_for_exit_fuel timeout) as fuel. induction fuel as [|fuel IH]; cbn.
  - by apply respects_ret, _.
  - apply respects_bind; [apply _|apply respects_eq_any, process_is_running_ro; apply _|].
    intros []; [|by apply respects_ret, _].
    apply respects_bind; [apply _|by apply respects_gets, _|intros t].
    case_match; [by apply respects_ret, _|].
    apply respects_bind; [apply _|by apply respects_modify|intros _; done].
Qed.

Lemma force_kill_within F pid : respects (files_within F) (force_kill pid).
Proof.
  unfold force_kill, send_signal. destruct (Z.eqb pid 0); [by apply respects_ret, _|].
  apply respects_bind; [apply _| |].
  - apply respects_act. intros w. by destruct (os_kill _ _ _).
  - intros [errno|]; [|apply wait_for_exit_within].
    repeat case_match; (by apply respects_ret, _) || (by apply respects_throw, _).
Qed.

Lemma record_signal_request_within (F : string → Prop) path kind :
  (∀ q, store_paths path q → F q) →
  respects (only_files F) (record_signal_request_async path kind).
Proof.
  intros HF. apply respects_bind; [apply _|apply respects_try, fs_metadata_respects, _|].
  intros [[]|e]; [|case_decide; [by apply respects_ret, _|by apply respects_throw, _]].
  apply respects_bind; [apply _|by apply read_json_respects, _|intros s].
  apply respects_bind; [apply _|by apply respects_gets, _|intros now].
  by apply write_json_respects.
Qed.

(** Only the execution's own running document is written. *)
Lemma handle_expired_within state path :
  respects (files_within (store_paths path)) (handle_expired_running_state_async state path).
Proof.
  unfold handle_expired_running_state_async, force_stop_expired_process_async.
  destruct (pid state) as [p|]; [|by apply respects_ret, _].
  apply respects_bind; [apply _|apply respects_eq_any, process_identity_state_ro; apply _|].
  intros []; try by apply respects_ret, _.
  apply respects_bind; [apply _| |intros _].
  { eapply respects_mono; [apply only_files_within|]. by apply record_signal_request_within. }
  apply respects_bind; [apply _|apply read_json_respects, _|intros s].
  apply respects_bind; [apply _|apply force_kill_within|intros]. by apply respects_ret, _.
Qed.

(** C24. Stopping an expired execution is safe: on every run, with any failures, if anything at
    all changed (a signal was sent or a kill request recorded) then the state names a process
    that exists and whose identity token, when one was recorded, was read back equal, so a
    reused pid is never signalled; and no file but the execution's own running-state document
    and its temporary file is touched. *)
Theorem expired_kill_only_own_process (state : RunningExecutionState) (path : string)
    (w w' : World) (r : result (bool * RunningExecutionState)) :
  handle_expired_running_state_async state path w = (r, w') →
  (w' ≠ w → ∃ p, pid state = Some p ∧ (process_exists p w).1 = Ok true ∧
     ∀ tok, running.process_identity state = Some tok →
       (process_identity p w).1 = Ok (Some tok)) ∧
  (∀ q, ¬ store_paths path q → files w' !! q = files w !! q).
Proof.
  intros Hr. split.
  - intros Hne. unfold handle_expired_running_state_async, force_stop_expired_process_async in Hr.
    destruct (pid state) as [p|]; [|by injection Hr].
    exists p. split; [done|]. apply process_identity_state_matches.
    unfold mbind at 1, M_bind at 1 in Hr. rewrite (ro_eq _ w (process_identity_state_ro _ _)) in Hr.
    destruct (process_identity_state p _ w).1 as [[]|]; try done;
      by injection Hr as ? ?.
  - exact (respects_run _ _ _ _ _ (handle_expired_within state path) Hr).
Qed.

(** The verdict on a recorded deadline. *)
Lemma deadline_verdict d w : ∃ b, deadline_has_elapsed d w = (Ok b, w) ∧
  (b = true ↔ ∃ text t, d = Some text ∧ parse_rfc3339 text = Some t ∧ (t ≤ clock w)%Z).
Proof.
  unfold deadline_has_elapsed. destruct d as [text|]; [|exists false; naive_solver].
  destruct (parse_rfc3339 text) as [t|] eqn:Hp; [|exists false; naive_solver].
  exists (Z.leb t (clock w)). split; [done|]. rewrite Z.leb_le. naive_solver.
Qed.

(** What each answer of the identity probe says of the process. *)
Definition identity_fact (p : Z) (expected : option string) (w : World)
    (i : ProcessIdentityState) : Prop :=
  match i with
  | MissingProcess => (process_exists p w).1 = Ok false
  | Matches => (process_exists p w).1 = Ok true ∧
      ∀ tok, expected = Some tok → (process_identity p w).1 = Ok (Some tok)
  | Mismatch => (process_exists p w).1 = Ok true ∧
      ∃ tok other, expected = Some tok ∧ (process_identity p w).1 = Ok (Some other) ∧ other ≠ tok
  | Unavailable => (process_exists p w).1 = Ok true ∧
      ∃ tok, expected = Some tok ∧ (process_identity p w).1 = Ok None
  end.

Lemma identity_verdict p expected w i :
  (process_identity_state p expected w).1 = Ok i → identity_fact p expected w i.
Proof.
  unfold process_identity_state, mbind, M_bind.
  rewrite (ro_eq _ w (process_exists_ro p)).
  destruct (process_exists p w).1 as [[]|] eqn:Hex; [|cbn; naive_solver..].
  destruct expected as [tok|]; [|cbn; naive_solver].
  rewrite (ro_eq _ w (process_identity_ro p)).
  destruct (process_identity p w).1 as [[actual|]|] eqn:Hid; [|cbn; naive_solver..].
  cbn. case_decide; intros [= <-]; cbn; naive_solver.
Qed.

Lemma identity_fact_det p expected w i j :
  identity_fact p expected w i → identity_fact p expected w j → i = j.
Proof.
  destruct i, j; cbn; intros Hi Hj; try done; exfalso.
  all: repeat match goal with
    | H : ∃ _, _ |- _ => destruct H
    | H : _ ∧ _ |- _ => destruct H
    end; simplify_eq; try congruence.
  all: match goal with
    | H : ∀ _, Some ?x = Some _ → _ |- _ => specialize (H x eq_refl); congruence
    end.
Qed.

(** The verdict on a running state: it is [Inactive] exactly when there is no recorded pid,
    no such process, or a process with another identity token; it is [Expired] exactly when
    the process exists, is not contradicted or unreadable, and the recorded deadline parses
    and has passed (an unparsable or missing deadline never expires); and the inspection
    changes nothing. *)
Theorem inspect_verdict (state : RunningExecutionState) (w w' : World) (st : RunningStateStatus) :
  inspect_running_state state w = (Ok st, w') →
  w' = w ∧
  (st = Inactive ↔
     pid state = None ∨
     ∃ p, pid state = Some p ∧
       ((process_exists p w).1 = Ok false ∨
        (process_exists p w).1 = Ok true ∧
        ∃ tok other, running.process_identity state = Some tok ∧
          (process_identity p w).1 = Ok (Some other) ∧ other ≠ tok)) ∧
  (st = Expired ↔
     ∃ p d t, pid state = Some p ∧ (process_exists p w).1 = Ok true ∧
       (∀ tok, running.process_identity state = Some tok →
          (process_identity p w).1 = Ok (Some tok)) ∧
       deadline_at state = Some d ∧ parse_rfc3339 d = Some t ∧ (t ≤ clock w)%Z).
Proof.
  intros Hr. pose proof (inspect_running_state_ro state w) as Hw. rewrite Hr in Hw. cbn in Hw.
  split; [done|]. subst w'. unfold inspect_running_state in Hr.
  destruct (pid state) as [p|]; [|injection Hr as <-; naive_solver].
  unfold mbind, M_bind in Hr. rewrite (ro_eq _ w (process_identity_state_ro p _)) in Hr.
  destruct (process_identity_state p _ w).1 as [i|] eqn:Hi; [|done].
  apply identity_verdict in Hi.
  destruct (deadline_verdict (deadline_at state) w) as (b & Hd & Hb).
  rewrite Hd in Hr. injection Hr as <-.
  pose proof (λ j, identity_fact_det p (running.process_identity state) w i j Hi) as Hdet.
  split; split.
  - intros Hst. right. exists p. split; [done|].
    destruct i, b; try done; cbn in Hi; auto.
  - intros [?|(p' & [= <-] & [Hno|[Hyes Hother]])]; [done|..].
    + by rewrite (Hdet MissingProcess).
    + by rewrite (Hdet Mismatch).
  - intros Hst. destruct i, b; try done. destruct Hi as [Hyes Htok].
    destruct (proj1 Hb eq_refl) as (d & t & ? & ? & ?). by exists p, d, t.
  - intros (p' & d & t & [= <-] & Hyes & Htok & Hd' & Ht & Hle).
    rewrite (Hdet Matches) by done. rewrite (proj2 Hb) by eauto. done.
Qed.

(** The fields of a running state that no signal request changes. *)
Definition same_execution s s' : Prop :=
  running.schema_version s' = running.schema_version s ∧ execution_id s' = execution_id s ∧
  action_id s' = action_id s ∧ plan_digest s' = plan_digest s ∧ request_id s' = request_id s ∧
  workdir s' = workdir s ∧ pid s' = pid s ∧
  running.process_identity s' = running.process_identity s ∧ started_at s' = started_at s ∧
  deadline_at s' = deadline_at s ∧ current_step_id s' = current_step_id s ∧
  attempt s' = attempt s.

(** A signal request on a missing document is a no-op, otherwise it rewrites the document. *)
Lemma record_signal_ok (path : string) (kind : SignalRequestKind) (w w' : World) (u : unit) :
  record_signal_request_async path kind w = (Ok u, w') →
  (fs_exists path w = false ∧ w' = w) ∨
  ∃ text s, files w !! path = Some text ∧ from_json text = Ok s ∧
    w' = wrote path (to_json (apply_signal_request kind (rfc3339 (clock w)) s) +:+ nl) w.
Proof.
  unfold record_signal_request_async. intros Hr.
  apply bind_ok_inv in Hr as (r & w1 & Hm & Hr). unfold try in Hm.
  destruct (fs_metadata path w) as [rm w2] eqn:Emeta. injection Hm as <- <-.
  destruct rm as [[]|e].
  - right. apply fs_metadata_ok in Emeta as [-> _]. inv_bind.
    apply read_json_ok in Hrun as [-> (text & Htext & Hs)].
    injection Hrun0 as <- <-. apply write_json_ok in Hr as ->. by exists text, a.
  - left. apply fs_metadata_err in Emeta as [-> Hk].
    case_decide; [|done]. injection Hr as <-. naive_solver.
Qed.

Lemma signal_same_execution kind at_ s : same_execution s (apply_signal_request kind at_ s).
Proof. by destruct kind. Qed.

(** Signal requests accumulate in the running-state document: a request on a missing
    document is a no-op; otherwise the stored document becomes the old one with the request
    applied, so that it names the same execution and process, a cancel time once set is never
    overwritten, a kill never erases it, and the new document reads back. *)
Theorem record_signal_request_accumulates (path : string) (kind : SignalRequestKind)
    (w w' : World) (u : unit) :
  record_signal_request_async path kind w = (Ok u, w') →
  (fs_exists path w = false ∧ w' = w) ∨
  ∃ text s s', files w !! path = Some text ∧ from_json text = Ok s ∧
    s' = apply_signal_request kind (rfc3339 (clock w)) s ∧
    files w' !! path = Some (to_json s' +:+ nl) ∧ same_execution s s' ∧
    (∀ t, cancel_requested_at s = Some t → cancel_requested_at s' = Some t) ∧
    (kind = Cancel → is_Some (cancel_requested_at s') ∧ running.state s' = "cancelling") ∧
    (kind = Kill → kill_requested_at s' = Some (rfc3339 (clock w)) ∧
       running.state s' = "kill_requested") ∧
    (fs_fault OpRead path = None → load_async path w' = (Ok s', w')).
Proof.
  intros [[Hno ->]|(text & s & Ht & Hs & ->)]%record_signal_ok; [by left|right].
  eexists text, s, _. split_and!; [done|done|done|by rewrite wrote_lookup|..].
  - apply signal_same_execution.
  - destruct kind; cbn; [|done]. by intros t ->.
  - intros ->. cbn. by destruct (cancel_requested_at s).
  - by intros ->.
  - apply read_after_wrote.
Qed.
End Stopping.

(** * Witnesses: an execution [x] running as process 7 whose deadline has passed *)
Definition toy_running : RunningExecutionState :=
  build (b_progress "t0" (Some (rfc3339 0)) None None
    (b_process (Some 7%Z) None (builder "x" "act-x" "running" "/w/x"))).
Definition toy_running_path : string := running.path_for "/s" "x".
Definition toy_running_world : World :=
  MkWorld toy_os {[toy_running_path := to_json toy_running +:+ nl]} ∅ 5
    ({[7%Z := "7 (sleep) S 1"]} : gmap Z string).

Lemma expired_kill_only_own_process_witness :
  let run := handle_expired_running_state_async toy_running toy_running_path toy_running_world in
  os run.2 !! 7%Z = None ∧
  (∃ p, pid toy_running = Some p ∧ (process_exists p toy_running_world).1 = Ok true) ∧
  files run.2 !! "/s/running/y.json" = files toy_running_world !! "/s/running/y.json".
Proof.
  intros run. assert (Hos : os run.2 !! 7%Z = None) by (by vm_compute).
  destruct (expired_kill_only_own_process toy_running toy_running_path toy_running_world
              run.2 run.1 (surjective_pairing _)) as [Hkill Hframe].
  split; [exact Hos|]. split.
  - destruct Hkill as (p & Hp & Hex & _); [|exact (ex_intro _ p (conj Hp Hex))].
    intros Heq. apply (f_equal (λ w, os w !! 7%Z)) in Heq. rewrite Hos in Heq.
    vm_compute in Heq. discriminate Heq.
  - apply Hframe. intros [Hq|Hq]; vm_compute in Hq; discriminate Hq.
Defined.

Lemma inspect_verdict_witness :
  inspect_running_state toy_running toy_running_world = (Ok Expired, toy_running_world) ∧
  ∃ p d t, pid toy_running = Some p ∧ deadline_at toy_running = Some d ∧
    parse_rfc3339 d = Some t ∧ (t ≤ clock toy_running_world)%Z.
Proof.
  assert (Hrun : inspect_running_state toy_running toy_running_world =
                 (Ok Expired, toy_running_world)) by (by vm_compute).
  split; [exact Hrun|].
  destruct (inspect_verdict _ _ _ _ Hrun) as (_ & _ & [Hexp _]).
  destruct (Hexp eq_refl) as (p & d & t & Hp & _ & _ & Hd & Ht & Hle).
  by exists p, d, t.
Defined.

Lemma record_signal_request_accumulates_witness :
  let run := record_signal_request_async toy_running_path Cancel toy_running_world in
  ∃ s', files run.2 !! toy_running_path = Some (to_json s' +:+ nl) ∧
    is_Some (cancel_requested_at s') ∧ running.state s' = "cancelling".
Proof.
  intros run.
  assert (Hrun : record_signal_request_async toy_running_path Cancel toy_running_world =
                 (Ok tt, run.2)) by (by vm_compute).
  destruct (record_signal_request_accumulates _ _ _ _ _ Hrun)
    as [[Hno _]|(text & s & s' & _ & _ & _ & Hfile & _ & _ & Hc & _)].
  - by vm_compute in Hno.
  - exact (ex_intro _ s' (conj Hfile (Hc eq_refl))).
Defined.
