(* ===== verification/ExecSupport.v ===== *)
(** The duplicate-execution search and queue lookup of src/src/exec/execution_support.rs: an
    execution is identified by its action and plan digest, and may be queued, running, being
    reported or in the history. *)
From S2P Require Import Prelude Host Contracts Stores Toy.

(** A loop over directory entries that stops at the first answer: [continue] is [None],
    [return Ok(Some(x))] is [Some x]. *)
Fixpoint for_first `{Os} {A B} (visit : A → M World (option B)) (entries : list A)
    : M World (option B) :=
  match entries with
  | [] => mret None
  | e :: entries =>
      r ← visit e;
      match r with Some x => mret (Some x) | None => for_first visit entries end
  end.

Section ExecutionSupport.
Context `{ContractConstructors} `{StoreCodecs} `{Host} {BE : Backend}.

Definition final_state_name (result : ActionResult) : string :=
  as_state_name (final_status result).

Definition is_json (path : string) : bool :=
  bool_decide (path_extension path = Some "json").

(** [is_some_and(|name| name.ends_with(REPORT_ENVELOPE_SUFFIX))] on the file name. *)
Definition is_envelope (path : string) : bool :=
  ends_with REPORT_ENVELOPE_SUFFIX (path_file_name path).

Definition same_plan (action_id plan_digest a d : string) : bool :=
  String.eqb a action_id && String.eqb d plan_digest.

Definition visit_running (action_id plan_digest path : string) : M World (option string) :=
  if negb (is_json path) then mret None
  else
    state ← try (running.load path);
    mret (match state with
          | Err _ => None
          | Ok state =>
              if same_plan action_id plan_digest (running.action_id state)
                   (running.plan_digest state)
              then Some (running.execution_id state) else None
          end).

Definition visit_reporting (action_id plan_digest path : string) : M World (option string) :=
  if negb (is_json path) then mret None
  else if is_envelope path then mret None
  else
    state ← try (reporting.load path);
    mret (match state with
          | Err _ => None
          | Ok state =>
              if same_plan action_id plan_digest (reporting.action_id state)
                   (reporting.plan_digest state)
              then Some (reporting.execution_id state) else None
          end).

Definition visit_history (action_id plan_digest path : string) : M World (option string) :=
  if negb (is_json path) then mret None
  else
    record ← try (history.load path);
    mret (match record with
          | Err _ => None
          | Ok record =>
              if bool_decide (history.action_id record = Some action_id) &&
                 bool_decide (history.plan_digest record = Some plan_digest)
              then Some (history.execution_id record) else None
          end).

Definition scan_dir (visit : string → M World (option string)) (dir : string)
    : M World (option string) :=
  exists_ ← be_probe dir;
  if exists_ : bool then
    entries ← fs_read_dir dir;
    for_first visit entries
  else mret None.

Definition find_duplicate_running_execution (dir action_id plan_digest : string) :=
  scan_dir (visit_running action_id plan_digest) dir.
Definition find_duplicate_reporting_execution (dir action_id plan_digest : string) :=
  scan_dir (visit_reporting action_id plan_digest) dir.
Definition find_duplicate_history_execution (dir action_id plan_digest : string) :=
  scan_dir (visit_history action_id plan_digest) dir.

Definition find_duplicate_execution (state_dir action_id plan_digest : string)
    : M World (option string) :=
  queue ← execution_queue.load_or_default (execution_queue.path_for state_dir);
  match find_first (λ item, same_plan action_id plan_digest (execution_queue.action_id item)
                              (execution_queue.plan_digest item))
          (execution_queue.items queue) with
  | Some item => mret (Some (execution_queue.execution_id item))
  | None =>
      r ← find_duplicate_running_execution (path_join state_dir "running") action_id plan_digest;
      match r with
      | Some execution_id => mret (Some execution_id)
      | None =>
          r ← find_duplicate_reporting_execution (path_join state_dir "reporting") action_id
                plan_digest;
          match r with
          | Some execution_id => mret (Some execution_id)
          | None =>
              find_duplicate_history_execution (path_join state_dir "history") action_id
                plan_digest
          end
      end
  end.

Definition lookup_queued_execution (state_dir execution_id : string)
    : M World (option execution_queue.ExecutionQueueItem) :=
  let queue_path := execution_queue.path_for state_dir in
  exists_ ← be_probe queue_path;
  if exists_ : bool then
    queue ← execution_queue.load_or_default queue_path;
    mret (find_first (λ item, String.eqb (execution_queue.execution_id item) execution_id)
            (execution_queue.items queue))
  else mret None.
End ExecutionSupport.

Section Async.
Context `{ContractConstructors} `{StoreCodecs} `{Host}.
Definition find_duplicate_running_execution_async :=
  find_duplicate_running_execution (BE := nonblocking).
Definition find_duplicate_reporting_execution_async :=
  find_duplicate_reporting_execution (BE := nonblocking).
Definition find_duplicate_history_execution_async :=
  find_duplicate_history_execution (BE := nonblocking).
Definition find_duplicate_execution_async := find_duplicate_execution (BE := nonblocking).
Definition lookup_queued_execution_async := lookup_queued_execution (BE := nonblocking).
End Async.

(** * Specification: which executions the state directory knows for a plan *)
Section Known.
Context `{ContractConstructors} `{StoreCodecs} `{Os}.
Variables (state_dir action_id plan_digest : string).

(** The readable document of type [A] at a JSON path directly under [dir]. *)
Definition document {A} `{Json A} (dir path : string) (a : A) (w : World) : Prop :=
  path_parent path = Some dir ∧ is_json path = true ∧
  ∃ text, files w !! path = Some text ∧ from_json text = Ok a.

Inductive known_execution (w : World) : string → Prop :=
  | known_queued text q item :
      files w !! execution_queue.path_for state_dir = Some text → from_json text = Ok q →
      item ∈ execution_queue.items q →
      execution_queue.action_id item = action_id →
      execution_queue.plan_digest item = plan_digest →
      known_execution w (execution_queue.execution_id item)
  | known_running path (s : running.RunningExecutionState) :
      document (path_join state_dir "running") path s w →
      running.action_id s = action_id → running.plan_digest s = plan_digest →
      known_execution w (running.execution_id s)
  | known_reporting path (s : reporting.ReportingState) :
      document (path_join state_dir "reporting") path s w → is_envelope path = false →
      reporting.action_id s = action_id → reporting.plan_digest s = plan_digest →
      known_execution w (reporting.execution_id s)
  | known_history path (r : history.ExecutionHistoryRecord) :
      document (path_join state_dir "history") path r w →
      history.action_id r = Some action_id → history.plan_digest r = Some plan_digest →
      known_execution w (history.execution_id r).
End Known.

(** Every file sits in a directory that exists. *)
Definition rooted `{Os} (w : World) : Prop :=
  ∀ p s d, files w !! p = Some s → path_parent p = Some d → d ∈ dirs w.

(** * Helper lemmas *)
Section Scan.
Context `{ContractConstructors} `{StoreCodecs} `{Host} {BE : Backend} `{!BackendLaws}.

Lemma same_plan_true a d a' d' : same_plan a d a' d' = true ↔ a' = a ∧ d' = d.
Proof. unfold same_plan. by rewrite andb_true_iff, !String.eqb_eq. Qed.

Lemma for_first_ro {A B} (visit : A → M World (option B)) l :
  (∀ a, respects eq (visit a)) → respects eq (for_first visit l).
Proof.
  intros Hv. induction l as [|e l IH]; cbn; [by apply respects_ret, _|].
  apply respects_bind; [apply _|done|]. intros []; [by apply respects_ret, _|done].
Qed.

Lemma for_first_sound {A B} (visit : A → M World (option B)) l w x :
  (∀ a, respects eq (visit a)) → (for_first visit l w).1 = Ok (Some x) →
  ∃ a, a ∈ l ∧ (visit a w).1 = Ok (Some x).
Proof.
  intros Hv. induction l as [|e l IH]; cbn; [done|].
  unfold mbind, M_bind. specialize (Hv e w) as He.
  destruct (visit e w) as [[[y|]|err] w1] eqn:E; cbn in He; [| |done]; subst w1.
  - intros [= ->]. exists e. split; [by left|]. by rewrite E.
  - intros Hr. destruct (IH Hr) as (a & Ha & Hx). exists a. split; [by right|done].
Qed.

Lemma for_first_none {A B} (visit : A → M World (option B)) l w :
  (∀ a, respects eq (visit a)) → (for_first visit l w).1 = Ok None →
  ∀ a, a ∈ l → (visit a w).1 = Ok None.
Proof.
  intros Hv. induction l as [|e l IH]; cbn; [set_solver|].
  unfold mbind, M_bind. specialize (Hv e w) as He.
  destruct (visit e w) as [[[y|]|err] w1] eqn:E; cbn in He; [done| |done]; subst w1.
  intros Hr a [->|Ha]%elem_of_cons; [by rewrite E|auto].
Qed.

Lemma for_first_total {A B} (visit : A → M World (option B)) l w :
  (∀ a, respects eq (visit a)) → (∀ a, is_ok (visit a w).1 = true) →
  is_ok (for_first visit l w).1 = true.
Proof.
  intros Hv Hok. induction l as [|e l IH]; cbn; [done|].
  unfold mbind, M_bind. specialize (Hv e w) as He. specialize (Hok e).
  destruct (visit e w) as [[[y|]|err] w1]; cbn in He, Hok |- *; [done| |done]. by subst w1.
Qed.
(** The three visits are one: skip by name, load, and pick the id of a matching document. *)
Definition visitor {A} `{Json A} (skip : string → bool) (pick : A → option string)
    (path : string) : M World (option string) :=
  if skip path then mret None
  else r ← try (be_read_json path); mret (match r with Err _ => None | Ok a => pick a end).

Lemma visitor_ro {A} `{Json A} skip (pick : A → option string) p :
  respects eq (visitor skip pick p).
Proof.
  unfold visitor. case_match; [by apply respects_ret, _|].
  apply respects_bind; [apply _|by apply respects_try, be_read_respects, _|intros].
  by apply respects_ret, _.
Qed.

Lemma visitor_total {A} `{Json A} skip (pick : A → option string) p w :
  is_ok (visitor skip pick p w).1 = true.
Proof.
  unfold visitor. case_match; [done|]. unfold try, mbind, M_bind.
  by destruct (be_read_json p w).
Qed.

Lemma visitor_some {A} `{Json A} skip (pick : A → option string) p w x :
  (visitor skip pick p w).1 = Ok (Some x) →
  skip p = false ∧ ∃ text a, files w !! p = Some text ∧ from_json text = Ok a ∧ pick a = Some x.
Proof.
  unfold visitor. destruct (skip p); [done|]. unfold try, mbind, M_bind.
  destruct (be_read_json p w) as [[a|e] w1] eqn:E; [|done].
  apply be_read_ok in E as [-> (text & ? & ?)]. intros [= Hx]. eauto 6.
Qed.

Lemma visitor_none {A} `{Json A} skip (pick : A → option string) p w text a :
  fault_free → (visitor skip pick p w).1 = Ok None → skip p = false →
  files w !! p = Some text → from_json text = Ok a → pick a = None.
Proof.
  intros Hff. unfold visitor. destruct (skip p); [done|]. unfold try, mbind, M_bind.
  intros Hr _ Ht Ha. rewrite (be_read_ff _ _ _ Hff Ht), Ha in Hr. by injection Hr.
Qed.

Lemma scan_dir_ro visit dir : (∀ p, respects eq (visit p)) → respects eq (scan_dir visit dir).
Proof.
  intros Hv. apply respects_bind; [apply _|by apply be_probe_respects, _|].
  intros []; [|by apply respects_ret, _].
  apply respects_bind; [apply _|by apply fs_read_dir_respects, _|intros l].
  by apply for_first_ro.
Qed.

Lemma scan_dir_some visit dir w x : (∀ p, respects eq (visit p)) →
  (scan_dir visit dir w).1 = Ok (Some x) →
  ∃ p, path_parent p = Some dir ∧ (visit p w).1 = Ok (Some x).
Proof.
  intros Hv. unfold scan_dir, mbind, M_bind.
  destruct (be_probe dir w) as [[[]|] w1] eqn:E; [|done|done].
  apply be_probe_run in E as ->.
  destruct (fs_read_dir dir w) as [[l|] w1] eqn:E; [|done].
  apply fs_read_dir_ok in E as [-> Hl]. intros Hr.
  apply for_first_sound in Hr as (p & Hp & Hx); [|done].
  rewrite Hl in Hp. apply elem_of_dir_entries in Hp as [Hp _]. eauto.
Qed.

Lemma scan_dir_none visit dir w p : fault_free → rooted w → (∀ p, respects eq (visit p)) →
  (scan_dir visit dir w).1 = Ok None → path_parent p = Some dir → is_Some (files w !! p) →
  (visit p w).1 = Ok None.
Proof.
  intros Hff Hroot Hv Hr Hp [s Hs]. unfold scan_dir, mbind, M_bind in Hr.
  rewrite be_probe_ff in Hr by done. pose proof (Hroot p s dir Hs Hp) as Hdir.
  assert (fs_exists dir w = true) as Hex by (apply bool_decide_eq_true; by right).
  rewrite Hex in Hr. unfold fs_read_dir, mbind, M_bind in Hr.
  rewrite guard_fault_ff in Hr by done. unfold act in Hr.
  rewrite bool_decide_eq_true_2 in Hr by done.
  eapply (for_first_none visit _ w Hv Hr). rewrite readdir_order_perm.
  apply elem_of_dir_entries. eauto.
Qed.

Lemma scan_dir_total visit dir w : fault_free → files w !! dir = None →
  (∀ p, respects eq (visit p)) → (∀ p, is_ok (visit p w).1 = true) →
  is_ok (scan_dir visit dir w).1 = true.
Proof.
  intros Hff Hd Hv Hok. unfold scan_dir, mbind, M_bind. rewrite be_probe_ff by done.
  unfold fs_exists, fs_read_dir, mbind, M_bind. case_bool_decide as Hdir; [|done].
  rewrite guard_fault_ff by done. unfold act. rewrite bool_decide_eq_true_2.
  - by apply for_first_total.
  - destruct Hdir as [[? Hin]%elem_of_dom|]; [congruence|done].
Qed.

End Scan.

Section Search.
Context `{ContractConstructors} `{StoreCodecs} `{Host} {BE : Backend} `{!BackendLaws}.
Implicit Types (sd a d x : string) (w : World).

Definition skip_non_json (p : string) : bool := negb (is_json p).
Definition skip_reporting (p : string) : bool := negb (is_json p) || is_envelope p.
Definition pick_running a d (s : running.RunningExecutionState) : option string :=
  if same_plan a d (running.action_id s) (running.plan_digest s)
  then Some (running.execution_id s) else None.
Definition pick_reporting a d (s : reporting.ReportingState) : option string :=
  if same_plan a d (reporting.action_id s) (reporting.plan_digest s)
  then Some (reporting.execution_id s) else None.
Definition pick_history a d (r : history.ExecutionHistoryRecord) : option string :=
  if bool_decide (history.action_id r = Some a) && bool_decide (history.plan_digest r = Some d)
  then Some (history.execution_id r) else None.

Lemma visit_running_eq a d p : visit_running a d p = visitor skip_non_json (pick_running a d) p.
Proof. done. Qed.
Lemma visit_history_eq a d p : visit_history a d p = visitor skip_non_json (pick_history a d) p.
Proof. done. Qed.
Lemma visit_reporting_eq a d p :
  visit_reporting a d p = visitor skip_reporting (pick_reporting a d) p.
Proof. unfold visit_reporting, visitor, skip_reporting. by destruct (is_json p), (is_envelope p). Qed.

Lemma visits_ro a d p : respects eq (visit_running a d p) ∧ respects eq (visit_reporting a d p) ∧
  respects eq (visit_history a d p).
Proof.
  rewrite visit_running_eq, visit_reporting_eq, visit_history_eq. split_and!; apply visitor_ro.
Qed.
Lemma visits_total a d p w : is_ok (visit_running a d p w).1 = true ∧
  is_ok (visit_reporting a d p w).1 = true ∧ is_ok (visit_history a d p w).1 = true.
Proof.
  rewrite visit_running_eq, visit_reporting_eq, visit_history_eq. split_and!; apply visitor_total.
Qed.

(** What a successful load of the queue file saw. *)
Lemma queue_load_ok path w q w' : execution_queue.load_or_default path w = (Ok q, w') →
  w' = w ∧ (execution_queue.items q = [] ∧
              (fs_exists path w = false ∨ is_Some (fs_fault OpMetadata path)) ∨
            ∃ text, files w !! path = Some text ∧ from_json text = Ok q).
Proof.
  unfold execution_queue.load_or_default, mbind, M_bind.
  destruct (be_probe path w) as [[[]|] w1] eqn:E; [| |done].
  - apply be_probe_run in E as ->. intros Hr%be_read_ok. naive_solver.
  - pose proof (be_probe_false _ _ _ E) as Hp. apply be_probe_run in E as ->.
    intros [= <- <-]. auto.
Qed.

Lemma queue_load_run path w r w' : execution_queue.load_or_default path w = (r, w') → w' = w.
Proof.
  unfold execution_queue.load_or_default, mbind, M_bind.
  destruct (be_probe path w) as [[[]|] w1] eqn:E; apply be_probe_run in E as ->.
  - by intros ?%be_read_run.
  - by intros [= _ <-].
  - by intros [= _ <-].
Qed.

Lemma queue_load_ff path w text q : fault_free → files w !! path = Some text →
  from_json text = Ok q → execution_queue.load_or_default path w = (Ok q, w).
Proof.
  intros Hff Ht Hq. unfold execution_queue.load_or_default, mbind, M_bind.
  rewrite be_probe_ff, (fs_exists_lookup _ _ _ Ht), (be_read_ff _ _ _ Hff Ht) by done.
  by rewrite Hq.
Qed.

Lemma running_scan_sound sd a d w x :
  (find_duplicate_running_execution (path_join sd "running") a d w).1 = Ok (Some x) →
  known_execution sd a d w x.
Proof.
  intros Hr. apply scan_dir_some in Hr as (p & Hp & Hx); [|apply visits_ro].
  rewrite visit_running_eq in Hx.
  apply visitor_some in Hx as (Hs%negb_false_iff & text & s & Ht & Hj & Hx).
  unfold pick_running in Hx. destruct (same_plan _ _ _ _) eqn:E; [|done]. injection Hx as <-.
  apply same_plan_true in E as []. by eapply known_running; [repeat split; eauto|..].
Qed.
Lemma reporting_scan_sound sd a d w x :
  (find_duplicate_reporting_execution (path_join sd "reporting") a d w).1 = Ok (Some x) →
  known_execution sd a d w x.
Proof.
  intros Hr. apply scan_dir_some in Hr as (p & Hp & Hx); [|apply visits_ro].
  rewrite visit_reporting_eq in Hx.
  apply visitor_some in Hx as ((Hs%negb_false_iff & He)%orb_false_iff & text & s & Ht & Hj & Hx).
  unfold pick_reporting in Hx. destruct (same_plan _ _ _ _) eqn:E; [|done]. injection Hx as <-.
  apply same_plan_true in E as []. by eapply known_reporting; [repeat split; eauto|..].
Qed.
Lemma history_scan_sound sd a d w x :
  (find_duplicate_history_execution (path_join sd "history") a d w).1 = Ok (Some x) →
  known_execution sd a d w x.
Proof.
  intros Hr. apply scan_dir_some in Hr as (p & Hp & Hx); [|apply visits_ro].
  rewrite visit_history_eq in Hx.
  apply visitor_some in Hx as (Hs%negb_false_iff & text & s & Ht & Hj & Hx).
  unfold pick_history in Hx. destruct (_ && _) eqn:E; [|done]. injection Hx as <-.
  apply andb_true_iff in E as [E1%bool_decide_eq_true E2%bool_decide_eq_true].
  by eapply known_history; [repeat split; eauto|..].
Qed.

(** The scans of a duplicate search that found nothing. *)
Lemma scans_complete sd a d w x : fault_free → rooted w →
  (find_duplicate_running_execution (path_join sd "running") a d w).1 = Ok None →
  (find_duplicate_reporting_execution (path_join sd "reporting") a d w).1 = Ok None →
  (find_duplicate_history_execution (path_join sd "history") a d w).1 = Ok None →
  known_execution sd a d w x →
  ∃ text q item, files w !! execution_queue.path_for sd = Some text ∧ from_json text = Ok q ∧
    item ∈ execution_queue.items q ∧ execution_queue.action_id item = a ∧
    execution_queue.plan_digest item = d.
Proof.
  intros Hff Hroot Hru Hre Hhi [text q item|p s [Hp [Hj (text & Ht & Hs)]] Ha Hd
    |p s [Hp [Hj (text & Ht & Hs)]] He Ha Hd|p r [Hp [Hj (text & Ht & Hs)]] Ha Hd];
    [eauto 8|exfalso..].
  - apply (scan_dir_none _ _ _ p Hff Hroot) in Hru; [|apply visits_ro|done..].
    rewrite visit_running_eq in Hru. eapply visitor_none in Hru; [|done| |done..].
    + unfold pick_running in Hru. by rewrite (proj2 (same_plan_true _ _ _ _)) in Hru.
    + by apply negb_false_iff.
  - apply (scan_dir_none _ _ _ p Hff Hroot) in Hre; [|apply visits_ro|done..].
    rewrite visit_reporting_eq in Hre. eapply visitor_none in Hre; [|done| |done..].
    + unfold pick_reporting in Hre. by rewrite (proj2 (same_plan_true _ _ _ _)) in Hre.
    + unfold skip_reporting. by rewrite Hj, He.
  - apply (scan_dir_none _ _ _ p Hff Hroot) in Hhi; [|apply visits_ro|done..].
    rewrite visit_history_eq in Hhi. eapply visitor_none in Hhi; [|done| |done..].
    + unfold pick_history in Hhi. rewrite Ha, Hd in Hhi. by rewrite !bool_decide_eq_true_2 in Hhi.
    + by apply negb_false_iff.
Qed.
End Search.

Section SearchClaim.
Context `{ContractConstructors} `{StoreCodecs} `{Host} {BE : Backend} `{!BackendLaws}.

Lemma scans_ro (sd a d : string) :
  respects eq (find_duplicate_running_execution sd a d) ∧
  respects eq (find_duplicate_reporting_execution sd a d) ∧
  respects eq (find_duplicate_history_execution sd a d).
Proof. split_and!; apply scan_dir_ro; intros; apply visits_ro. Qed.

(** No path of the scanned directories is occupied by a file. *)
Definition scannable (sd : string) (w : World) : Prop :=
  files w !! path_join sd "running" = None ∧ files w !! path_join sd "reporting" = None ∧
  files w !! path_join sd "history" = None.

Lemma find_duplicate_ro sd a d : respects eq (find_duplicate_execution sd a d).
Proof.
  unfold find_duplicate_execution. destruct (scans_ro (path_join sd "running") a d) as (? & _ & _).
  destruct (scans_ro (path_join sd "reporting") a d) as (_ & ? & _).
  destruct (scans_ro (path_join sd "history") a d) as (_ & _ & ?).
  apply respects_bind; [apply _| |intros q].
  { intros w. destruct (execution_queue.load_or_default _ w) as [r w'] eqn:E.
    by apply queue_load_run in E. }
  case_match; [by apply respects_ret, _|].
  apply respects_bind; [apply _|done|intros []]; [by apply respects_ret, _|].
  apply respects_bind; [apply _|done|intros []]; [by apply respects_ret, _|done].
Qed.

(** Without faults and with a readable queue the search answers. *)
Lemma find_duplicate_total sd a d w : fault_free → scannable sd w →
  is_ok (execution_queue.load_or_default (execution_queue.path_for sd) w).1 = true →
  is_ok (find_duplicate_execution sd a d w).1 = true.
Proof.
  intros Hff (Hd1 & Hd2 & Hd3) Hq. unfold find_duplicate_execution. unfold mbind at 1, M_bind at 1.
  destruct (execution_queue.load_or_default _ w) as [[q|] w1] eqn:E; [|done].
  apply queue_load_run in E as ->. case_match; [done|].
  destruct (scans_ro (path_join sd "running") a d) as (Hr1 & _ & _).
  destruct (scans_ro (path_join sd "reporting") a d) as (_ & Hr2 & _).
  assert (is_ok (find_duplicate_running_execution (path_join sd "running") a d w).1 = true) as O1
    by (apply scan_dir_total; [done|done|intros; apply visits_ro|intros; apply visits_total]).
  assert (is_ok (find_duplicate_reporting_execution (path_join sd "reporting") a d w).1 = true) as O2
    by (apply scan_dir_total; [done|done|intros; apply visits_ro|intros; apply visits_total]).
  assert (is_ok (find_duplicate_history_execution (path_join sd "history") a d w).1 = true) as O3
    by (apply scan_dir_total; [done|done|intros; apply visits_ro|intros; apply visits_total]).
  specialize (Hr1 w). specialize (Hr2 w). unfold mbind, M_bind.
  destruct (find_duplicate_running_execution _ a d w) as [[[]|] w1]; [done| |done].
  cbn in Hr1. subst w1.
  destruct (find_duplicate_reporting_execution _ a d w) as [[[]|] w1]; [done| |done].
  cbn in Hr2. by subst w1.
Qed.

Definition plan_item a d (item : execution_queue.ExecutionQueueItem) : bool :=
  same_plan a d (execution_queue.action_id item) (execution_queue.plan_digest item).

(** The stages of a search that answered. *)
Lemma find_duplicate_stages sd a d w o :
  (find_duplicate_execution sd a d w).1 = Ok o →
  let run := (find_duplicate_running_execution (path_join sd "running") a d w).1 in
  let rep := (find_duplicate_reporting_execution (path_join sd "reporting") a d w).1 in
  let hist := (find_duplicate_history_execution (path_join sd "history") a d w).1 in
  ∃ q, execution_queue.load_or_default (execution_queue.path_for sd) w = (Ok q, w) ∧
  match find_first (plan_item a d) (execution_queue.items q) with
  | Some item => o = Some (execution_queue.execution_id item)
  | None =>
      (∃ x, o = Some x ∧ (run = Ok (Some x) ∨ rep = Ok (Some x) ∨ hist = Ok (Some x))) ∨
      (o = None ∧ run = Ok None ∧ rep = Ok None ∧ hist = Ok None)
  end.
Proof.
  intros Hr. cbn zeta. unfold find_duplicate_execution in Hr. unfold mbind at 1, M_bind at 1 in Hr.
  destruct (execution_queue.load_or_default _ w) as [[q|] w1] eqn:E; [|done].
  assert (w1 = w) as -> by by apply queue_load_run in E.
  exists q. split; [done|]. unfold plan_item.
  destruct (find_first _ _) as [item|]; [by injection Hr as <-|].
  destruct (scans_ro (path_join sd "running") a d) as (Hr1 & _ & _).
  destruct (scans_ro (path_join sd "reporting") a d) as (_ & Hr2 & _).
  specialize (Hr1 w). specialize (Hr2 w). unfold mbind, M_bind in Hr.
  destruct (find_duplicate_running_execution _ _ _ w) as [[[y|]|] w1]; [| |done].
  { injection Hr as <-. eauto. }
  cbn in Hr1. subst w1.
  destruct (find_duplicate_reporting_execution _ _ _ w) as [[[y|]|] w1]; [| |done].
  { injection Hr as <-. eauto 6. }
  cbn in Hr2. subst w1. destruct o; eauto 8.
Qed.

Lemma find_duplicate_sound sd a d w x :
  (find_duplicate_execution sd a d w).1 = Ok (Some x) → known_execution sd a d w x.
Proof.
  intros Hr. destruct (find_duplicate_stages _ _ _ _ _ Hr) as (q & Hq & Hst).
  apply queue_load_ok in Hq as [_ Hq].
  destruct (find_first _ _) as [item|] eqn:Hf.
  - injection Hst as ->. apply find_first_Some in Hf as [Hin [Ha Hd]%same_plan_true].
    destruct Hq as [[Hnil _]|(text & Ht & Hj)]; [rewrite Hnil in Hin; set_solver|].
    by eapply known_queued.
  - destruct Hst as [(y & [= <-] & [Hs|[Hs|Hs]])|[? _]]; [..|done].
    + by apply running_scan_sound.
    + by apply reporting_scan_sound.
    + by apply history_scan_sound.
Qed.

Lemma find_duplicate_complete sd a d w x : fault_free → rooted w →
  (find_duplicate_execution sd a d w).1 = Ok None → ¬ known_execution sd a d w x.
Proof.
  intros Hff Hroot Hr Hknown.
  destruct (find_duplicate_stages _ _ _ _ _ Hr) as (q & Hq & Hst).
  destruct (find_first _ _) eqn:Hf; [done|].
  destruct Hst as [(? & ? & _)|(_ & Hru & Hre & Hhi)]; [done|].
  apply (scans_complete sd _ _ w x Hff Hroot) in Hknown
    as (text & q' & item & Ht & Hj & Hin & Ha & Hd); [|done..].
  rewrite (queue_load_ff _ _ _ _ Hff Ht Hj) in Hq. injection Hq as ->.
  rewrite find_first_None in Hf. specialize (Hf _ Hin). unfold plan_item in Hf.
  by rewrite (proj2 (same_plan_true _ _ _ _)) in Hf.
Qed.

(** The duplicate search decides whether the state directory knows an execution of a plan:
    at either backend and with any failures, it changes nothing and an execution id it
    returns belongs to a queued, running, reported or historical execution of that action and
    plan digest; without failures, on a directory tree whose queue file parses, it always
    answers, and answers "none" exactly when no such execution exists. *)
Theorem find_duplicate_decides (sd action_id plan_digest : string) (w : World) :
  let '(r, w') := find_duplicate_execution sd action_id plan_digest w in
  w' = w ∧
  (∀ x, r = Ok (Some x) → known_execution sd action_id plan_digest w x) ∧
  (fault_free → rooted w → scannable sd w →
   is_ok (execution_queue.load_or_default (execution_queue.path_for sd) w).1 = true →
   ∃ o, r = Ok o ∧ (o = None ↔ ∀ x, ¬ known_execution sd action_id plan_digest w x)).
Proof.
  pose proof (find_duplicate_ro sd action_id plan_digest w) as Hro.
  pose proof (find_duplicate_total sd action_id plan_digest w) as Htot.
  pose proof (find_duplicate_sound sd action_id plan_digest w) as Hsound.
  pose proof (find_duplicate_complete sd action_id plan_digest w) as Hcomplete.
  destruct (find_duplicate_execution sd action_id plan_digest w) as [r w'].
  cbn in Hro, Hsound, Hcomplete. subst w'. split_and!; [done|exact Hsound|].
  intros Hff Hroot Hscan Hload. specialize (Htot Hff Hscan Hload). destruct r as [o|]; [|done].
  exists o. split; [done|]. split.
  - intros -> x. by apply Hcomplete.
  - intros Hno. destruct o as [x|]; [|done]. by destruct (Hno x); apply Hsound.
Qed.
End SearchClaim.

(** One queued execution [a] under [/s]. *)
Definition toy_queue_of (ids : list string) : execution_queue.ExecutionQueueState :=
  foldl (λ q id, execution_queue.enqueue "t" (toy_item id 100) q) (execution_queue.new "t0") ids.
Definition toy_queue_world (ids : list string) : World :=
  MkWorld toy_os {[execution_queue.path_for "/s" := to_json (toy_queue_of ids) +:+ nl]}
    {["/s"]} 7 (∅ : gmap Z string).

Lemma find_duplicate_decides_witness :
  let find d := (find_duplicate_execution (BE := nonblocking) "/s" "act-a" d
                   (toy_queue_world ["a"])).1 in
  find "digest-act-a" = Ok (Some "a") ∧
  known_execution "/s" "act-a" "digest-act-a" (toy_queue_world ["a"]) "a" ∧
  find "other" = Ok None ∧
  (∀ x, ¬ known_execution "/s" "act-a" "other" (toy_queue_world ["a"]) x).
Proof.
  intros find.
  assert (Hfound : find "digest-act-a" = Ok (Some "a")) by (by vm_compute).
  assert (Hnone : find "other" = Ok None) by (by vm_compute).
  assert (Hroot : rooted (toy_queue_world ["a"])).
  { intros p s d Hp. cbn [files toy_queue_world] in Hp. apply lookup_singleton_Some in Hp as [<- _]. intros [= <-].
    by apply elem_of_singleton. }
  pose proof (find_duplicate_decides (BE := nonblocking) "/s" "act-a" "digest-act-a"
                (toy_queue_world ["a"])) as Hdup.
  pose proof (find_duplicate_decides (BE := nonblocking) "/s" "act-a" "other"
                (toy_queue_world ["a"])) as Hnew.
  unfold find in *.
  destruct (find_duplicate_execution "/s" "act-a" "digest-act-a" _) as [r w'].
  destruct (find_duplicate_execution "/s" "act-a" "other" _) as [r2 w2].
  cbn [fst] in Hfound, Hnone |- *. destruct Hdup as (_ & Hdup & _), Hnew as (_ & _ & Hnew).
  split; [exact Hfound|]. split; [exact (Hdup _ Hfound)|]. split; [exact Hnone|].
  destruct Hnew as (o & Ho & Hiff).
  - exact toy_fault_free.
  - exact Hroot.
  - vm_compute. auto.
  - by vm_compute.
  - apply Hiff. rewrite Hnone in Ho. by injection Ho.
Defined.
