(* ===== verification/Reporting.v ===== *)
(** Local result reporting: src/src/reporting/reporting_pipeline.rs and its support file.  The
    outcome of an execution is kept as two documents, a reporting state and a report envelope
    ready to be sent, which [ensure_local_report] re-creates whenever one of them is missing or
    unreadable. *)
From stdpp Require Import pretty.
From S2P Require Import Prelude Host Contracts Stores Toy.
Import reporting.

Record ReportingRequest `{Contracts} := mk_request {
  rq_state_dir : string;
  rq_execution_id : string;
  rq_action_id : string;
  rq_request_id : string;
  rq_plan_digest : string;
  rq_agent_id : string;
  rq_instance_id : string;
  rq_final_state : string;
  rq_result_path : string;
  rq_result : ActionResult;
}.

Inductive LocalReportIssue :=
  | NewReport | MissingState_ | CorruptState_ | MissingEnvelope_ | CorruptEnvelope_
  | ManualRebuild.

Inductive PreparedReportOrigin :=
  | Existing
  | Prepared (i : LocalReportIssue)
  | EnvelopeRebuilt (i : LocalReportIssue).

Record PreparedReport `{Contracts} := mk_prepared {
  pr_envelope_path : string;
  pr_envelope : ReportActionResult;
  pr_state : ReportingState;
  pr_origin : PreparedReportOrigin;
}.

Inductive LocalReportInspection `{Contracts} :=
  | Ready (prepared : PreparedReport)
  | MissingState
  | CorruptState
  | MissingEnvelope (state : ReportingState)
  | CorruptEnvelope (state : ReportingState).

Definition set_report_envelope_path (p : option string) (s : ReportingState) : ReportingState :=
  mk_reporting (schema_version s) (execution_id s) (action_id s) (plan_digest s) (request_id s)
    (final_state s) (result_path s) p (result_digest s) (result_signature s) (report_attempt s)
    (last_report_at s) (last_report_error s).
Definition set_result_digest (d : option string) (s : ReportingState) : ReportingState :=
  mk_reporting (schema_version s) (execution_id s) (action_id s) (plan_digest s) (request_id s)
    (final_state s) (result_path s) (report_envelope_path s) d (result_signature s)
    (report_attempt s) (last_report_at s) (last_report_error s).
Definition set_result_signature (g : option string) (s : ReportingState) : ReportingState :=
  mk_reporting (schema_version s) (execution_id s) (action_id s) (plan_digest s) (request_id s)
    (final_state s) (result_path s) (report_envelope_path s) (result_digest s) g
    (report_attempt s) (last_report_at s) (last_report_error s).

Section Pipeline.
Context `{ContractConstructors} `{StoreCodecs} `{Host} {BE : Backend}.

Definition envelope_path_for (state_dir execution_id : string) : string :=
  path_join (path_join state_dir "reporting") (execution_id +:+ REPORT_ENVELOPE_SUFFIX).

(** * reporting_pipeline_support.rs *)

(** [result_digest.unwrap_or(digest_json(..)?)] computes the digest in any case. *)
Definition build_report_envelope (request : ReportingRequest) (action_id plan_digest : string)
    (report_attempt : Z) (result_digest result_signature : option string)
    : M World (ReportActionResult * string * string) :=
  computed ← of_result (digest_result (rq_result request));
  let result_digest := default computed result_digest in
  let result_signature :=
    default (sign_dev_placeholder (rq_agent_id request) result_digest) result_signature in
  reported_at ← now_rfc3339;
  let attestation := {|
    at_result_digest := result_digest;
    at_signature := result_signature;
    at_issued_by := dev_placeholder_issuer (rq_agent_id request);
    at_attested_at := reported_at |} in
  let envelope :=
    ReportActionResult_new
      ("rep_" +:+ rq_execution_id request +:+ "_" +:+ pretty report_attempt)
      action_id report_attempt (final_status (rq_result request)) (rq_execution_id request)
      plan_digest (rq_agent_id request) (rq_instance_id request) attestation reported_at
      (rq_result request) in
  match validate_report_action_result envelope with
  | Some code => throw (MkIoError InvalidData code)
  | None => mret (envelope, result_digest, result_signature)
  end.

Definition inspect_local_report (state_dir execution_id : string) : M World LocalReportInspection :=
  let state_path := path_for state_dir execution_id in
  exists_ ← be_probe state_path;
  if negb exists_ then mret MissingState
  else
    state ← try (load state_path);
    match state with
    | Err _ => mret CorruptState
    | Ok state =>
        let envelope_path := envelope_path_for state_dir execution_id in
        exists_ ← be_probe envelope_path;
        if negb exists_ then mret (MissingEnvelope state)
        else
          envelope ← try (be_read_json envelope_path);
          match envelope with
          | Err _ => mret (CorruptEnvelope state)
          | Ok envelope => mret (Ready (mk_prepared _ envelope_path envelope state Existing))
          end
    end.

Definition sync_reporting_state (state_dir execution_id : string) (state : ReportingState)
    (envelope_path result_digest_ result_signature_ : string) : M World ReportingState :=
  let '(rebuilt_state, state_changed) := (state, false) in
  let '(rebuilt_state, state_changed) :=
    if decide (report_envelope_path rebuilt_state ≠ Some envelope_path)
    then (set_report_envelope_path (Some envelope_path) rebuilt_state, true)
    else (rebuilt_state, state_changed) in
  let '(rebuilt_state, state_changed) :=
    if decide (result_digest rebuilt_state ≠ Some result_digest_)
    then (set_result_digest (Some result_digest_) rebuilt_state, true)
    else (rebuilt_state, state_changed) in
  let '(rebuilt_state, state_changed) :=
    if decide (result_signature rebuilt_state ≠ Some result_signature_)
    then (set_result_signature (Some result_signature_) rebuilt_state, true)
    else (rebuilt_state, state_changed) in
  when state_changed (store (path_for state_dir execution_id) rebuilt_state);;
  mret rebuilt_state.

(** * reporting_pipeline.rs *)

Definition load_complete_local_report (state_dir execution_id : string)
    : M World (option PreparedReport) :=
  i ← inspect_local_report state_dir execution_id;
  mret (match i with Ready prepared => Some prepared | _ => None end).

Definition prepare_local_report_with_issue (request : ReportingRequest)
    (issue : LocalReportIssue) : M World PreparedReport :=
  built ← build_report_envelope request (rq_action_id request) (rq_plan_digest request) 1 None None;
  let '(envelope, result_digest, result_signature) := built in
  let envelope_path := envelope_path_for (rq_state_dir request) (rq_execution_id request) in
  be_write_json envelope_path envelope;;
  let state :=
    new (rq_execution_id request) (rq_action_id request) (rq_plan_digest request)
      (rq_request_id request) (rq_final_state request) (rq_result_path request)
      (Some envelope_path) (Some result_digest) (Some result_signature) 0 None None in
  store (path_for (rq_state_dir request) (rq_execution_id request)) state;;
  mret (mk_prepared _ envelope_path envelope state (Prepared issue)).

Definition prepare_local_report (request : ReportingRequest) : M World PreparedReport :=
  prepare_local_report_with_issue request NewReport.

Definition rebuild_report_envelope_with_issue (request : ReportingRequest)
    (state : ReportingState) (issue : LocalReportIssue) : M World PreparedReport :=
  built ← build_report_envelope request (action_id state) (plan_digest state)
    (u32_saturating_add (report_attempt state) 1) (result_digest state) (result_signature state);
  let '(envelope, result_digest, result_signature) := built in
  let envelope_path := envelope_path_for (rq_state_dir request) (rq_execution_id request) in
  be_write_json envelope_path envelope;;
  rebuilt_state ← sync_reporting_state (rq_state_dir request) (rq_execution_id request) state
    envelope_path result_digest result_signature;
  mret (mk_prepared _ envelope_path envelope rebuilt_state (EnvelopeRebuilt issue)).

Definition rebuild_report_envelope (request : ReportingRequest) (state : ReportingState)
    : M World PreparedReport :=
  rebuild_report_envelope_with_issue request state ManualRebuild.

Definition ensure_local_report (request : ReportingRequest) : M World PreparedReport :=
  i ← inspect_local_report (rq_state_dir request) (rq_execution_id request);
  match i with
  | Ready prepared => mret prepared
  | MissingState => prepare_local_report_with_issue request MissingState_
  | CorruptState => prepare_local_report_with_issue request CorruptState_
  | MissingEnvelope state => rebuild_report_envelope_with_issue request state MissingEnvelope_
  | CorruptEnvelope state => rebuild_report_envelope_with_issue request state CorruptEnvelope_
  end.

Definition remove_local_report_artifacts (state_dir execution_id : string) : M World unit :=
  be_remove (path_for state_dir execution_id);;
  be_remove (envelope_path_for state_dir execution_id);;
  mret tt.
End Pipeline.

Section Async.
Context `{ContractConstructors} `{StoreCodecs} `{Host}.
Definition inspect_local_report_async := inspect_local_report (BE := nonblocking).
Definition sync_reporting_state_async := sync_reporting_state (BE := nonblocking).
Definition load_complete_local_report_async := load_complete_local_report (BE := nonblocking).
Definition prepare_local_report_with_issue_async :=
  prepare_local_report_with_issue (BE := nonblocking).
Definition prepare_local_report_async := prepare_local_report (BE := nonblocking).
Definition rebuild_report_envelope_with_issue_async :=
  rebuild_report_envelope_with_issue (BE := nonblocking).
Definition rebuild_report_envelope_async := rebuild_report_envelope (BE := nonblocking).
Definition ensure_local_report_async := ensure_local_report (BE := nonblocking).
Definition remove_local_report_artifacts_async :=
  remove_local_report_artifacts (BE := nonblocking).
End Async.

(** * Paths *)
Section ReportPaths.
Context `{ContractsLaws}.
Implicit Types (sd id : string).

(** The files of one execution's report. *)
Definition report_files sd id (q : string) : Prop :=
  store_paths (path_for sd id) q ∨ store_paths (envelope_path_for sd id) q.

Lemma state_path_json sd id : path_for sd id = path_join (reporting_dir sd) id +:+ ".json".
Proof. unfold path_for. apply join_ends_json. Qed.

Lemma envelope_path_json sd id : ∃ a, envelope_path_for sd id = a +:+ ".json".
Proof.
  destruct envelope_suffix_json as (m & _ & Hm). unfold envelope_path_for, path_join. rewrite Hm.
  exists ((sd +:+ String slash "reporting") +:+ String slash (id +:+ m)).
  by rewrite <-!app_assoc, !app_cons, <-!app_assoc.
Qed.

Lemma envelope_ne_state sd id : envelope_path_for sd id ≠ path_for sd id.
Proof.
  destruct envelope_suffix_json as (m & Hne & Hm). unfold envelope_path_for, path_for, reporting_dir.
  intros Heq%path_join_inj%app_inj_l. rewrite Hm in Heq.
  apply (f_equal String.length) in Heq. rewrite length_app_string in Heq. destruct m; [done|].
  cbn in Heq. lia.
Qed.

Lemma envelope_not_state_store sd id : ¬ store_paths (path_for sd id) (envelope_path_for sd id).
Proof.
  intros [Heq|Heq]; [by apply envelope_ne_state in Heq|].
  destruct (envelope_path_json sd id) as [a Ha]. rewrite Ha in Heq. by apply json_not_tmp in Heq.
Qed.

Lemma state_not_envelope_store sd id : ¬ store_paths (envelope_path_for sd id) (path_for sd id).
Proof.
  intros [Heq|Heq]; [by apply (envelope_ne_state sd id)|].
  rewrite state_path_json in Heq. by apply json_not_tmp in Heq.
Qed.
End ReportPaths.

(** * What the operations do *)
Section PipelineLemmas.
Context `{ContractsLaws} `{StoreCodecs} `{Host} {BE : Backend} `{!BackendLaws}.
Implicit Types (sd id : string) (w : World) (request : ReportingRequest) (state : ReportingState).

Lemma build_envelope_ok request a d n dig sg w e dig' sg' w' :
  build_report_envelope request a d n dig sg w = (Ok (e, dig', sg'), w') →
  w' = w ∧ is_ok (digest_result (rq_result request)) = true ∧
  (∀ x, dig = Some x → dig' = x) ∧ (dig = None → digest_result (rq_result request) = Ok dig') ∧
  sg' = default (sign_dev_placeholder (rq_agent_id request) dig') sg ∧
  validate_report_action_result e = None ∧
  e = ReportActionResult_new ("rep_" +:+ rq_execution_id request +:+ "_" +:+ pretty n) a n
        (final_status (rq_result request)) (rq_execution_id request) d (rq_agent_id request)
        (rq_instance_id request)
        {| at_result_digest := dig'; at_signature := sg';
           at_issued_by := dev_placeholder_issuer (rq_agent_id request);
           at_attested_at := rfc3339 (clock w) |} (rfc3339 (clock w)) (rq_result request).
Proof.
  unfold build_report_envelope, of_result, mbind, M_bind, now_rfc3339, gets.
  destruct (digest_result _) as [c|]; [|done]. cbn zeta.
  destruct (validate_report_action_result _) eqn:Hv; [done|].
  intros [= <- <- <- <-]. split_and!; try done; by intros; destruct dig; simplify_eq.
Qed.

Lemma inspect_ro sd id : respects eq (inspect_local_report sd id).
Proof.
  apply respects_bind; [apply _|by apply be_probe_respects, _|intros []]; [|by apply respects_ret, _].
  apply respects_bind; [apply _|by apply respects_try, be_read_respects, _|intros []];
    [|by apply respects_ret, _].
  apply respects_bind; [apply _|by apply be_probe_respects, _|intros []]; [|by apply respects_ret, _].
  apply respects_bind; [apply _|by apply respects_try, be_read_respects, _|intros []];
    by apply respects_ret, _.
Qed.

Lemma load_complete_ro sd id : respects eq (load_complete_local_report sd id).
Proof. apply respects_bind; [apply _|apply inspect_ro|intros]. by apply respects_ret, _. Qed.

(** What an inspection's answer says of the disk. *)
Lemma inspect_ok sd id w i w' : inspect_local_report sd id w = (Ok i, w') →
  w' = w ∧ match i with
  | Ready p => p = mk_prepared _ (envelope_path_for sd id) (pr_envelope p) (pr_state p) Existing ∧
      doc (path_for sd id) (pr_state p) w ∧ doc (envelope_path_for sd id) (pr_envelope p) w
  | MissingEnvelope s | CorruptEnvelope s => doc (path_for sd id) s w
  | MissingState | CorruptState => True
  end.
Proof.
  intros Hr. assert (w' = w) as -> by (pose proof (inspect_ro sd id w) as Hro; by rewrite Hr in Hro).
  split; [done|]. revert Hr. unfold inspect_local_report, try, mbind, M_bind, load.
  destruct (be_probe _ w) as [[[]|] w1] eqn:E1; apply be_probe_run in E1 as ->; cbn [negb];
    [|by intros [= <-]|done].
  destruct (be_read_json _ w) as [[s|] w1] eqn:E2; [|by intros [= <- _]].
  apply be_read_ok in E2 as [-> Hs].
  destruct (be_probe _ w) as [[[]|] w1] eqn:E1; apply be_probe_run in E1 as ->; cbn [negb];
    [|by intros [= <-]|done].
  destruct (be_read_json _ w) as [[e|] w1] eqn:E2; [|by intros [= <- _]].
  apply be_read_ok in E2 as [-> He]. by intros [= <-].
Qed.

Lemma inspect_ready sd id w s e : fault_free → doc (path_for sd id) s w →
  doc (envelope_path_for sd id) e w →
  inspect_local_report sd id w = (Ok (Ready (mk_prepared _ (envelope_path_for sd id) e s Existing)), w).
Proof.
  intros Hff (t & Ht & Hs) (u & Hu & He). unfold inspect_local_report, try, mbind, M_bind, load.
  rewrite be_probe_ff, (fs_exists_lookup _ _ _ Ht) by done. cbn [negb].
  rewrite (be_read_ff _ _ _ Hff Ht), Hs.
  rewrite be_probe_ff, (fs_exists_lookup _ _ _ Hu) by done. cbn [negb].
  by rewrite (be_read_ff _ _ _ Hff Hu), He.
Qed.

(** The state [sync_reporting_state] reaches. *)
Definition synced (ep d g : string) state : ReportingState :=
  set_result_signature (Some g) (set_result_digest (Some d) (set_report_envelope_path (Some ep) state)).

Lemma keep_envelope_path p s :
  report_envelope_path s = Some p → set_report_envelope_path (Some p) s = s.
Proof. destruct s; cbn. by intros ->. Qed.
Lemma keep_digest d s : result_digest s = Some d → set_result_digest (Some d) s = s.
Proof. destruct s; cbn. by intros ->. Qed.
Lemma keep_signature g s : result_signature s = Some g → set_result_signature (Some g) s = s.
Proof. destruct s; cbn. by intros ->. Qed.

Lemma sync_ok sd id state ep d g w s' w' : sync_reporting_state sd id state ep d g w = (Ok s', w') →
  s' = synced ep d g state ∧
  (w' = w ∧ s' = state ∨ w' = wrote (path_for sd id) (to_json s' +:+ nl) w).
Proof.
  unfold sync_reporting_state, synced. case_decide as H1'; [|rewrite (keep_envelope_path _ _ H1')];
    (case_decide as H2'; [|rewrite (keep_digest _ _ H2')]);
    (case_decide as H3'; [|rewrite (keep_signature _ _ H3')]); cbn [when]; intros Hr;
    apply bind_ok_inv in Hr as (u & w1 & Hw & [= <- <-]).
  all: try (apply be_write_ok in Hw as ->; by split; [|right]).
  injection Hw as _ <-. by split; [|left].
Qed.

Lemma sync_respects sd id state ep d g (F : string → Prop) :
  (∀ q, store_paths (path_for sd id) q → F q) →
  respects (only_files F) (sync_reporting_state sd id state ep d g).
Proof.
  intros HF. unfold sync_reporting_state. repeat case_decide; cbn [when];
    (apply respects_bind; [apply _| |intros _; by apply respects_ret, _]);
    (by apply respects_ret, _) || (by apply be_write_respects).
Qed.

Lemma prepare_ok request issue w p w' :
  prepare_local_report_with_issue request issue w = (Ok p, w') →
  let sd := rq_state_dir request in let id := rq_execution_id request in
  doc (path_for sd id) (pr_state p) w' ∧ doc (envelope_path_for sd id) (pr_envelope p) w' ∧
  pr_envelope_path p = envelope_path_for sd id ∧ pr_origin p = Prepared issue ∧
  report_attempt (pr_state p) = 0%Z.
Proof.
  intros Hr. unfold prepare_local_report_with_issue in Hr.
  apply bind_ok_inv in Hr as ([[e d] g] & w1 & Hb & Hr). apply build_envelope_ok in Hb as [-> _].
  apply bind_ok_inv in Hr as (? & w1 & Hw1%be_write_ok & Hr).
  apply bind_ok_inv in Hr as (? & w2 & Hw2%be_write_ok & Hr).
  injection Hr as <- <-. cbn. subst w1 w2. split_and!; try done; [apply doc_wrote|].
  apply doc_wrote_ne; [apply envelope_not_state_store|apply doc_wrote].
Qed.

Lemma rebuild_ok request state issue w p w' :
  rebuild_report_envelope_with_issue request state issue w = (Ok p, w') →
  let sd := rq_state_dir request in let id := rq_execution_id request in
  (doc (path_for sd id) state w → doc (path_for sd id) (pr_state p) w') ∧
  doc (envelope_path_for sd id) (pr_envelope p) w' ∧
  pr_envelope_path p = envelope_path_for sd id ∧ pr_origin p = EnvelopeRebuilt issue ∧
  ∃ d g, build_report_envelope request (action_id state) (plan_digest state)
      (u32_saturating_add (report_attempt state) 1) (result_digest state) (result_signature state) w
      = (Ok (pr_envelope p, d, g), w) ∧
    pr_state p = synced (envelope_path_for sd id) d g state.
Proof.
  intros Hr. unfold rebuild_report_envelope_with_issue in Hr.
  apply bind_ok_inv in Hr as ([[e d] g] & w1 & Hb & Hr).
  assert (w1 = w) as -> by by apply build_envelope_ok in Hb as [-> _].
  apply bind_ok_inv in Hr as (? & w1 & Hw1%be_write_ok & Hr).
  apply bind_ok_inv in Hr as (s' & w2 & [Hs' Hw2]%sync_ok & Hr).
  injection Hr as <- <-. cbn. subst w1. destruct Hw2 as [[-> Hst]| ->].
  - split_and!; try done; [|apply doc_wrote|by exists d, g].
    intros Hd. rewrite Hst. apply doc_wrote_ne; [apply state_not_envelope_store|done].
  - split_and!; try done; [intros _; apply doc_wrote| |by exists d, g].
    apply doc_wrote_ne; [apply envelope_not_state_store|apply doc_wrote].
Qed.

Lemma remove_artifacts_ff sd id w : fault_free →
  path_for sd id ∉ dirs w → envelope_path_for sd id ∉ dirs w →
  remove_local_report_artifacts sd id w =
    (Ok tt, set_files (delete (envelope_path_for sd id) (delete (path_for sd id) (files w))) w).
Proof.
  intros Hff Hv1 Hv2. unfold remove_local_report_artifacts, mbind, M_bind.
  rewrite be_remove_ff by done. by rewrite be_remove_ff by done.
Qed.

Lemma build_ro request a d n dig sg : respects eq (build_report_envelope request a d n dig sg).
Proof.
  apply respects_bind; [apply _|by apply respects_of_result, _|intros].
  apply respects_bind; [apply _|by apply respects_gets, _|intros].
  cbn zeta. case_match; [by apply respects_throw, _|by apply respects_ret, _].
Qed.

(** A successful [ensure_local_report] has both documents on disk as returned. *)
Lemma ensure_docs request w p w' : ensure_local_report request w = (Ok p, w') →
  let sd := rq_state_dir request in let id := rq_execution_id request in
  (pr_origin p = Existing → w' = w) ∧ pr_envelope_path p = envelope_path_for sd id ∧
  doc (path_for sd id) (pr_state p) w' ∧ doc (envelope_path_for sd id) (pr_envelope p) w'.
Proof.
  intros Hr sd id. unfold ensure_local_report in Hr.
  apply bind_ok_inv in Hr as (i & w1 & [-> Hi]%inspect_ok & Hr). destruct i.
  - injection Hr as -> ->. destruct Hi as (Hpe & Hs & He).
    split_and!; [done|by rewrite Hpe|done..].
  - apply prepare_ok in Hr as (Hs & He & Hp & Ho & _). by rewrite Ho.
  - apply prepare_ok in Hr as (Hs & He & Hp & Ho & _). by rewrite Ho.
  - apply rebuild_ok in Hr as (Hs & He & Hp & Ho & _). by rewrite Ho; split_and!; auto.
  - apply rebuild_ok in Hr as (Hs & He & Hp & Ho & _). by rewrite Ho; split_and!; auto.
Qed.

Lemma prepare_respects request i :
  respects (only_files (report_files (rq_state_dir request) (rq_execution_id request)))
    (prepare_local_report_with_issue request i).
Proof.
  apply respects_bind; [apply _| |intros [[e d] g]].
  { eapply respects_mono; [|apply build_ro]. by intros ?? ->. }
  apply respects_bind; [apply _|apply be_write_respects; by right|intros _].
  apply respects_bind; [apply _|apply be_write_respects; by left|intros _].
  by apply respects_ret, _.
Qed.

Lemma ensure_respects request :
  respects (only_files (report_files (rq_state_dir request) (rq_execution_id request)))
    (ensure_local_report request).
Proof.
  assert (Hro : ∀ A (m : M World A), respects eq m →
    respects (only_files (report_files (rq_state_dir request) (rq_execution_id request))) m).
  { intros A m Hm. eapply respects_mono; [|exact Hm]. by intros ?? ->. }
  unfold ensure_local_report. apply respects_bind; [apply _|apply Hro, inspect_ro|].
  assert (Hreb : ∀ s i, respects (only_files (report_files (rq_state_dir request)
    (rq_execution_id request))) (rebuild_report_envelope_with_issue request s i)).
  { intros s i. apply respects_bind; [apply _|apply Hro, build_ro|intros [[e d] g]].
    apply respects_bind; [apply _|apply be_write_respects; by right|intros _].
    apply respects_bind; [apply _|apply sync_respects; by left|intros]. by apply respects_ret, _. }
  intros []; auto using prepare_respects. by apply respects_ret, _.
Qed.

(** Without faults a report can always be ensured, when results can be digested and envelopes
    are accepted. *)
Lemma ensure_ff request w : fault_free → is_ok (digest_result (rq_result request)) = true →
  (∀ env, validate_report_action_result env = None) →
  ∃ p w', ensure_local_report request w = (Ok p, w').
Proof.
  intros Hff Hdig Hval. destruct (digest_result (rq_result request)) as [c|] eqn:Hc; [|done].
  assert (Hb : ∀ a d n dig sg v, ∃ x, build_report_envelope request a d n dig sg v = (Ok x, v)).
  { intros. unfold build_report_envelope, of_result, mbind, M_bind, now_rfc3339, gets. rewrite Hc.
    cbn zeta. rewrite Hval. by eexists. }
  assert (Hprep : ∀ i v, ∃ p w', prepare_local_report_with_issue request i v = (Ok p, w')).
  { intros i v. unfold prepare_local_report_with_issue.
    destruct (Hb (rq_action_id request) (rq_plan_digest request) 1%Z None None v) as [[[e d] g] E].
    rewrite (bind_ok _ _ _ _ _ E). unfold store, mbind, M_bind. rewrite be_write_ff by done.
    rewrite be_write_ff by done. by eexists _, _. }
  assert (Hreb : ∀ s i v, ∃ p w', rebuild_report_envelope_with_issue request s i v = (Ok p, w')).
  { intros s i v. unfold rebuild_report_envelope_with_issue.
    destruct (Hb (action_id s) (plan_digest s) (u32_saturating_add (report_attempt s) 1)
      (result_digest s) (result_signature s) v) as [[[e d] g] E].
    rewrite (bind_ok _ _ _ _ _ E). unfold mbind at 1, M_bind at 1. rewrite be_write_ff by done.
    unfold sync_reporting_state, store. repeat case_decide; cbn [when]; unfold mbind, M_bind;
      rewrite ?be_write_ff by done; by eexists _, _. }
  unfold ensure_local_report. unfold mbind at 1, M_bind at 1.
  assert (Hi : ∃ i, inspect_local_report (rq_state_dir request) (rq_execution_id request) w = (Ok i, w)).
  { unfold inspect_local_report, mbind, M_bind, try. rewrite be_probe_ff by done.
    destruct (fs_exists _ w); cbn [negb]; [|by eexists].
    destruct (load _ w) as [[s|] w1] eqn:El; apply be_read_run in El as ->; [|by eexists].
    rewrite be_probe_ff by done. destruct (fs_exists _ w); cbn [negb]; [|by eexists].
    destruct (be_read_json _ w) as [[e|] w1] eqn:Ee; apply be_read_run in Ee as ->; by eexists. }
  destruct Hi as [i Hi]. rewrite Hi. destruct i; auto. by eexists _, _.
Qed.
End PipelineLemmas.

(** * Properties *)
Section PipelineProperties.
Context `{ContractsLaws} `{StoreCodecs} `{Host} {BE : Backend} `{!BackendLaws}.

Definition as_existing (p : PreparedReport) : PreparedReport :=
  mk_prepared _ (pr_envelope_path p) (pr_envelope p) (pr_state p) Existing.

(** [ensure_local_report] leaves a complete report behind and is idempotent: at either
    backend and with any failures, only the execution's own report files change and an
    existing report is returned without touching the disk; when it succeeds, both documents
    are on disk exactly as returned, and (the store being readable) inspecting finds them and a
    second call returns them as an existing report, changing nothing. *)
Theorem ensure_local_report_complete (request : ReportingRequest) (w w' : World)
    (r : result PreparedReport) :
  let sd := rq_state_dir request in let id := rq_execution_id request in
  ensure_local_report request w = (r, w') →
  (∀ q, ¬ report_files sd id q → files w' !! q = files w !! q) ∧
  ∀ p, r = Ok p →
    (pr_origin p = Existing → w' = w) ∧
    doc (path_for sd id) (pr_state p) w' ∧
    doc (envelope_path_for sd id) (pr_envelope p) w' ∧
    (fault_free → inspect_local_report sd id w' = (Ok (Ready (as_existing p)), w') ∧
                  ensure_local_report request w' = (Ok (as_existing p), w')).
Proof.
  intros sd id Hr. split.
  { pose proof (respects_run _ _ _ _ _ (ensure_respects request) Hr) as [Hf _]. exact Hf. }
  intros p ->.
  destruct (ensure_docs _ _ _ _ Hr) as (Ho & Hp & Hs & He).
  split_and!; [done..|]. intros Hff.
  assert (Hins : inspect_local_report sd id w' = (Ok (Ready (as_existing p)), w')).
  { rewrite (inspect_ready _ _ _ _ _ Hff Hs He). unfold as_existing. by rewrite Hp. }
  split; [done|]. unfold ensure_local_report. by rewrite (bind_ok _ _ _ _ _ Hins).
Qed.

(** Rebuilding an envelope keeps the recorded result: whatever failures occur, when it
    succeeds the new envelope is for the action and plan recorded in the state and carries
    the recorded digest and signature (recomputed only when absent), its attempt number is
    one more than the recorded attempt but never exceeds [u32::MAX], and the returned state
    differs from the recorded one only in now naming the envelope, digest and signature: its
    attempt count is not advanced, so a rebuild repeated before the report is acknowledged
    reuses the same attempt and report id. *)
Theorem rebuild_keeps_recorded_result (request : ReportingRequest) (state : ReportingState)
    (w w' : World) (p : PreparedReport) :
  (0 ≤ report_attempt state ≤ u32_max)%Z →
  rebuild_report_envelope request state w = (Ok p, w') →
  ∃ d g n, pr_state p = synced (pr_envelope_path p) d g state ∧
    report_attempt (pr_state p) = report_attempt state ∧
    (∀ d', result_digest state = Some d' → d = d') ∧
    (∀ g', result_signature state = Some g' → g = g') ∧
    (result_digest state = None → digest_result (rq_result request) = Ok d) ∧
    (result_signature state = None → g = sign_dev_placeholder (rq_agent_id request) d) ∧
    (n = report_attempt state + 1 ∨ n = report_attempt state ∧ n = u32_max)%Z ∧
    (1 ≤ n ≤ u32_max)%Z ∧
    validate_report_action_result (pr_envelope p) = None ∧
    pr_envelope p = ReportActionResult_new
      ("rep_" +:+ rq_execution_id request +:+ "_" +:+ pretty n) (action_id state) n
      (final_status (rq_result request)) (rq_execution_id request) (plan_digest state)
      (rq_agent_id request) (rq_instance_id request)
      {| at_result_digest := d; at_signature := g;
         at_issued_by := dev_placeholder_issuer (rq_agent_id request);
         at_attested_at := rfc3339 (clock w) |} (rfc3339 (clock w)) (rq_result request).
Proof.
  intros Hn Hr. apply rebuild_ok in Hr as (_ & _ & Hp & _ & d & g & Hb & Hs).
  apply build_envelope_ok in Hb as (_ & _ & Hd & Hd' & Hg & Hv & He).
  exists d, g, (u32_saturating_add (report_attempt state) 1).
  rewrite Hp, Hs. split_and!; try done;
    try (intros; rewrite Hg; by simplify_option_eq);
    unfold u32_saturating_add, u32_max in *; lia.
Qed.

(** Removing a report removes it whole: without failures the call succeeds, both
    documents of the execution are gone, an inspection then finds no state, no other file
    changes, and removing again changes nothing. *)
Theorem remove_report_removes (sd id : string) (w : World) :
  fault_free → path_for sd id ∉ dirs w → envelope_path_for sd id ∉ dirs w →
  ∃ w', remove_local_report_artifacts sd id w = (Ok tt, w') ∧
    files w' !! path_for sd id = None ∧ files w' !! envelope_path_for sd id = None ∧
    (∀ q, q ≠ path_for sd id → q ≠ envelope_path_for sd id → files w' !! q = files w !! q) ∧
    inspect_local_report sd id w' = (Ok MissingState, w') ∧
    remove_local_report_artifacts sd id w' = (Ok tt, w').
Proof.
  intros Hff Hd1 Hd2.
  set (w1 := set_files (delete (path_for sd id) (files w)) w).
  set (w2 := set_files (delete (envelope_path_for sd id) (files w1)) w1).
  pose proof (envelope_ne_state sd id) as Hne.
  assert (Hs : files w2 !! path_for sd id = None).
  { cbn. rewrite lookup_delete_ne by done. apply lookup_delete_eq. }
  assert (He : files w2 !! envelope_path_for sd id = None) by apply lookup_delete_eq.
  exists w2. split_and!; [by rewrite remove_artifacts_ff|done|done| | |].
  - intros q Hq1 Hq2. cbn. by rewrite !lookup_delete_ne by done.
  - unfold inspect_local_report, mbind, M_bind. rewrite be_probe_ff by done.
    rewrite fs_exists_file by done. by rewrite Hs.
  - rewrite remove_artifacts_ff by done. f_equal. rewrite !delete_id; [apply set_files_same|done|].
    by rewrite lookup_delete_ne.
Qed.
End PipelineProperties.

(** * Witnesses *)
Definition toy_request : ReportingRequest :=
  mk_request _ "/s" "x" "act-x" "req-x" "digest-act-x" "agent" "inst" "succeeded" "/w/result.json"
    ("act-x", "x", 0, None).
Definition toy_recorded : ReportingState :=
  new "x" "act-x" "digest-act-x" "req-x" "succeeded" "/w/result.json" None (Some "d0") (Some "g0")
    u32_max None None.
(** A state without its envelope. *)
Definition toy_report_world : World :=
  MkWorld toy_os {[path_for "/s" "x" := to_json toy_recorded +:+ nl]} ∅ 7 (∅ : gmap Z string).

Lemma ensure_local_report_complete_witness :
  let run := ensure_local_report (BE := nonblocking) toy_request toy_report_world in
  ∃ p, run.1 = Ok p ∧ pr_origin p = EnvelopeRebuilt MissingEnvelope_ ∧
    ensure_local_report (BE := nonblocking) toy_request run.2 = (Ok (as_existing p), run.2).
Proof.
  intros run. destruct run as [r w'] eqn:E.
  pose proof (ensure_local_report_complete (BE := nonblocking) toy_request toy_report_world w' r E)
    as [_ Hok].
  assert (Hr : ∃ p, r = Ok p ∧ pr_origin p = EnvelopeRebuilt MissingEnvelope_).
  { change r with (r, w').1. rewrite <-E. eexists. split; vm_compute; reflexivity. }
  destruct Hr as (p & Hr & Ho). destruct (Hok p Hr) as (_ & _ & _ & Hagain).
  destruct (Hagain toy_fault_free) as [_ Hens].
  exact (ex_intro _ p (conj Hr (conj Ho Hens))).
Defined.

Lemma rebuild_keeps_recorded_result_witness :
  let run := rebuild_report_envelope (BE := nonblocking) toy_request toy_recorded toy_report_world in
  ∃ p, run.1 = Ok p ∧ report_attempt (pr_state p) = u32_max.
Proof.
  intros run.
  assert (Hr : ∃ p, run.1 = Ok p) by (eexists; vm_compute; reflexivity).
  destruct Hr as (p & Hr). exists p. split; [exact Hr|].
  destruct run as [r w'] eqn:E. cbn [fst] in Hr. subst r.
  destruct (rebuild_keeps_recorded_result (BE := nonblocking) toy_request toy_recorded
              toy_report_world w' p ltac:(split; vm_compute; discriminate) E)
    as (d & g & n & _ & Hn & _).
  exact Hn.
Defined.

Lemma remove_report_removes_witness :
  ∃ w', remove_local_report_artifacts (BE := nonblocking) "/s" "x" toy_report_world = (Ok tt, w') ∧
    inspect_local_report (BE := nonblocking) "/s" "x" w' = (Ok MissingState, w').
Proof.
  destruct (remove_report_removes (BE := nonblocking) "/s" "x" toy_report_world toy_fault_free
              ltac:(apply not_elem_of_empty) ltac:(apply not_elem_of_empty))
    as (w' & Hr & _ & _ & _ & Hi & _).
  exact (ex_intro _ w' (conj Hr Hi)).
Defined.
