(* ===== verification/Quarantine.v ===== *)
(** Quarantine of an execution, src/src/exec/quarantine.rs: its report is dropped, a history
    record takes its place, and it leaves the queue and the running set. *)
From S2P Require Import Prelude Host Contracts Stores Toy Queue ExecSupport Reporting.

Record QuarantineRequest := mk_quarantine {
  qr_state_dir : string;
  qr_execution_id : string;
  qr_action_id : option string;
  qr_plan_digest : option string;
  qr_request_id : option string;
  qr_detail : string;
  qr_running_path : option string;
  qr_remove_from_queue : bool;
}.

Definition queued_item (state_dir : string) (item : execution_queue.ExecutionQueueItem)
    (detail : string) (running_path : option string) : QuarantineRequest :=
  mk_quarantine state_dir (execution_queue.execution_id item)
    (Some (execution_queue.action_id item)) (Some (execution_queue.plan_digest item))
    (Some (execution_queue.request_id item)) detail running_path true.

Definition running_state (state_dir : string) (state : running.RunningExecutionState)
    (detail running_path : string) : QuarantineRequest :=
  mk_quarantine state_dir (running.execution_id state) (Some (running.action_id state))
    (Some (running.plan_digest state)) (Some (running.request_id state)) detail
    (Some running_path) true.

Definition unreadable_running (state_dir execution_id detail running_path : string)
    : QuarantineRequest :=
  mk_quarantine state_dir execution_id None None None detail (Some running_path) true.

(** [Option::or_else]. *)
Definition or_else {A} (o : option A) (d : option A) : option A :=
  match o with Some _ => o | None => d end.

Section Quarantine.
Context `{ContractConstructors} `{StoreCodecs} `{Host} {BE : Backend}.

Definition remove_queued_execution (state_dir execution_id : string) : M World unit :=
  let queue_path := execution_queue.path_for state_dir in
  exists_ ← be_probe queue_path;
  if negb exists_ then mret tt
  else
    queue ← execution_queue.load_or_default queue_path;
    let original_len := length (execution_queue.items queue) in
    now ← now_rfc3339;
    let queue := execution_queue.remove now execution_id queue in
    if Nat.eqb (length (execution_queue.items queue)) original_len then mret tt
    else execution_queue.store queue_path queue.

Definition quarantine_execution (request : QuarantineRequest) : M World unit :=
  queued ← lookup_queued_execution (qr_state_dir request) (qr_execution_id request);
  record ← history.quarantined (qr_execution_id request)
    (or_else (qr_action_id request) (execution_queue.action_id <$> queued))
    (or_else (qr_plan_digest request) (execution_queue.plan_digest <$> queued))
    (or_else (qr_request_id request) (execution_queue.request_id <$> queued))
    (qr_detail request);
  remove_local_report_artifacts (qr_state_dir request) (qr_execution_id request);;
  history.store (history.path_for (qr_state_dir request) (qr_execution_id request)) record;;
  when (qr_remove_from_queue request)
    (remove_queued_execution (qr_state_dir request) (qr_execution_id request));;
  match qr_running_path request with
  | Some running_path => running.remove running_path
  | None => mret tt
  end.
End Quarantine.

Section Async.
Context `{ContractConstructors} `{StoreCodecs} `{Host}.
Definition remove_queued_execution_async := remove_queued_execution (BE := nonblocking).
Definition quarantine_execution_async := quarantine_execution (BE := nonblocking).
End Async.

(** * Lemmas *)
Section QuarantineLemmas.
Context `{ContractsLaws} `{StoreCodecs} `{Host} {BE : Backend} `{!BackendLaws}.
Implicit Types (sd id : string) (w : World).

(** The item is in the queue document. *)
Definition in_queue sd w (item : execution_queue.ExecutionQueueItem) : Prop :=
  ∃ q, doc (execution_queue.path_for sd) q w ∧ item ∈ execution_queue.items q.

(** The history says the execution was quarantined. *)
Definition quarantine_recorded sd id w : Prop :=
  ∃ r, doc (history.path_for sd id) r w ∧ history.execution_id r = id ∧
    history.state r = "quarantined".

Lemma in_queue_same sd w w' item :
  files w' !! execution_queue.path_for sd = files w !! execution_queue.path_for sd →
  in_queue sd w item ↔ in_queue sd w' item.
Proof.
  intros Hs. unfold in_queue. split; intros (q & Hq & Hi); exists q; split; try done;
    by eapply doc_same.
Qed.

Lemma recorded_same sd id w w' :
  files w' !! history.path_for sd id = files w !! history.path_for sd id →
  quarantine_recorded sd id w ↔ quarantine_recorded sd id w'.
Proof.
  intros Hs. unfold quarantine_recorded. split; intros (q & Hq & Hi); exists q; split; try done;
    by eapply doc_same.
Qed.

Lemma in_queue_keep sd w w' item :
  files w' !! execution_queue.path_for sd = files w !! execution_queue.path_for sd →
  in_queue sd w item → in_queue sd w' item.
Proof. intros Hs. by rewrite (in_queue_same sd w w' item Hs). Qed.

Lemma recorded_keep sd id w w' :
  files w' !! history.path_for sd id = files w !! history.path_for sd id →
  quarantine_recorded sd id w → quarantine_recorded sd id w'.
Proof. intros Hs. by rewrite (recorded_same sd id w w' Hs). Qed.

Lemma lookup_queued_ro sd id : respects eq (lookup_queued_execution sd id).
Proof.
  apply respects_bind; [apply _|by apply be_probe_respects, _|intros []]; [|by apply respects_ret, _].
  apply respects_bind; [apply _| |intros; by apply respects_ret, _].
  intros w. destruct (execution_queue.load_or_default _ w) eqn:E. by apply queue_load_run in E.
Qed.

Lemma remove_length now id (q : execution_queue.ExecutionQueueState) :
  length (execution_queue.items (execution_queue.remove now id q)) = length (execution_queue.items q) →
  ∀ i, i ∈ execution_queue.items q → execution_queue.execution_id i ≠ id.
Proof.
  cbn. induction (execution_queue.items q) as [|i l IH]; [set_solver|].
  rewrite filter_cons. case_decide as Hi; cbn; intros Hlen.
  - intros j [->|Hj]%elem_of_cons; [done|]. apply IH; [lia|done].
  - pose proof (length_filter (λ i, execution_queue.execution_id i ≠ id) l). lia.
Qed.

(** Removal from the queue, with any failures. *)
Lemma remove_queued_run sd id w r w' : remove_queued_execution sd id w = (r, w') →
  (∀ q, ¬ store_paths (execution_queue.path_for sd) q → files w' !! q = files w !! q) ∧
  (∀ item, in_queue sd w item →
     in_queue sd w' item ∨ execution_queue.execution_id item = id) ∧
  (r = Ok tt → fs_fault OpMetadata (execution_queue.path_for sd) = None →
   ∀ item, in_queue sd w' item ↔ in_queue sd w item ∧ execution_queue.execution_id item ≠ id).
Proof.
  unfold remove_queued_execution, mbind, M_bind, now_rfc3339, gets.
  destruct (be_probe _ w) as [[[]|] w1] eqn:Ep; cbn [negb].
  2: { pose proof (be_probe_false _ _ _ Ep) as Hf. apply be_probe_run in Ep as ->.
       intros [= <- <-]. split_and!; [done|auto|]. intros _ Hnf item.
       destruct Hf as [Hf%fs_exists_false|[? Hf]]; [|congruence].
       split; [|naive_solver]. intros (q & (t & Ht & _) & _). congruence. }
  2: { apply be_probe_run in Ep as ->. intros [= <- <-]. split_and!; [done|auto|done]. }
  assert (w1 = w) as -> by by apply be_probe_run in Ep.
  unfold execution_queue.load_or_default, mbind, M_bind. rewrite Ep.
  destruct (be_read_json _ w) as [[q|] w1] eqn:El.
  2: { apply be_read_run in El as ->. intros [= <- <-]. split_and!; [done|auto|done]. }
  apply be_read_ok in El as [-> Hq].
  assert (Hiq : ∀ item, in_queue sd w item ↔ item ∈ execution_queue.items q).
  { intros item. split; [|intros; by exists q].
    intros (q0 & Hq0 & Hin). by rewrite (doc_functional _ _ _ _ Hq0 Hq) in Hin. }
  set (q' := execution_queue.remove _ _ _). destruct (Nat.eqb_spec (length (execution_queue.items q'))
    (length (execution_queue.items q))) as [Hlen|Hlen].
  { intros [= <- <-]. split_and!; [done|auto|]. intros _ _ item. rewrite Hiq. split; [|naive_solver].
    intros Hi. split; [done|]. by eapply remove_length. }
  assert (Hq' : ∀ item, item ∈ execution_queue.items q' ↔
    item ∈ execution_queue.items q ∧ execution_queue.execution_id item ≠ id).
  { intros item. cbn. rewrite list_elem_of_filter. tauto. }
  assert (Hdoc : ∀ v, files v !! execution_queue.path_for sd = Some (to_json q' +:+ nl) →
    ∀ item, in_queue sd v item ↔ in_queue sd w item ∧ execution_queue.execution_id item ≠ id).
  { intros v Hv item. rewrite Hiq, <-Hq'.
    assert (doc (execution_queue.path_for sd) q' v) as Hd by (eexists; split; [done|apply from_to_json]).
    split; [|by exists q']. intros (q0 & Hq0 & Hin). by rewrite (doc_functional _ _ _ _ Hq0 Hd) in Hin. }
  unfold execution_queue.store. intros Hr. split_and!.
  - pose proof (respects_run _ _ _ _ _ (be_write_respects (store_paths (execution_queue.path_for sd))
      _ q' (λ q Hs, Hs)) Hr) as [Hf _]. exact Hf.
  - intros item Hi. destruct (be_write_either _ _ _ _ _ (queue_storable sd) Hr) as [Hs|Hs].
    + left. by eapply in_queue_same.
    + rewrite (Hdoc _ Hs). destruct (decide (execution_queue.execution_id item = id)); auto.
  - intros -> _. apply be_write_ok in Hr as ->. apply Hdoc, wrote_lookup.
Qed.

Lemma report_files_under sd id q : report_files sd id q → under sd "reporting" q.
Proof. intros [Hq|Hq]; by apply store_paths_under in Hq. Qed.

Lemma history_store_under sd id q : store_paths (history.path_for sd id) q → under sd "history" q.
Proof. apply store_paths_under. Qed.

Lemma queue_not_under sd d : ¬ under sd d (execution_queue.path_for sd).
Proof. apply queue_store_not_under. by left. Qed.

Lemma history_path_under sd id : under sd "history" (history.path_for sd id).
Proof. by eexists. Qed.

Lemma history_not_queue_store sd id :
  ¬ store_paths (execution_queue.path_for sd) (history.path_for sd id).
Proof. intros Hq. by apply (queue_store_not_under _ "history" _ Hq), history_path_under. Qed.

Lemma remove_artifacts_respects sd id :
  respects (only_files (report_files sd id)) (remove_local_report_artifacts sd id).
Proof.
  apply respects_bind; [apply _|apply be_remove_frame; by left; left|intros _].
  apply respects_bind; [apply _|apply be_remove_frame; by right; left|intros _].
  by apply respects_ret, _.
Qed.

Lemma quarantined_run id a d q detail w r w' : history.quarantined id a d q detail w = (r, w') →
  w' = w ∧ r = Ok (history.mk_history SCHEMA_VERSION_V1 id a d q "quarantined" detail
                     (rfc3339 (clock w))).
Proof. by intros [= <- <-]. Qed.

(** The files a quarantine may touch. *)
Definition quarantine_files (request : QuarantineRequest) (q : string) : Prop :=
  report_files (qr_state_dir request) (qr_execution_id request) q ∨
  store_paths (history.path_for (qr_state_dir request) (qr_execution_id request)) q ∨
  store_paths (execution_queue.path_for (qr_state_dir request)) q ∨
  qr_running_path request = Some q.

(** The last steps, from the moment the history record is stored. *)
Lemma quarantine_tail request w r w' :
  (∀ p, qr_running_path request = Some p → under (qr_state_dir request) "running" p) →
  (when (qr_remove_from_queue request)
     (remove_queued_execution (qr_state_dir request) (qr_execution_id request));;
   match qr_running_path request with
   | Some running_path => running.remove running_path
   | None => mret tt
   end) w = (r, w') →
  let sd := qr_state_dir request in let id := qr_execution_id request in
  (∀ q, ¬ quarantine_files request q → files w' !! q = files w !! q) ∧
  (quarantine_recorded sd id w → quarantine_recorded sd id w') ∧
  (∀ item, in_queue sd w item → in_queue sd w' item ∨ execution_queue.execution_id item = id).
Proof.
  intros Hrun Hr sd id. unfold mbind, M_bind, when in Hr.
  set (m := if qr_remove_from_queue request then _ else _) in Hr.
  assert (Hm : ∀ r1 w1, m w = (r1, w1) →
    (∀ q, ¬ store_paths (execution_queue.path_for sd) q → files w1 !! q = files w !! q) ∧
    (∀ item, in_queue sd w item → in_queue sd w1 item ∨ execution_queue.execution_id item = id)).
  { intros r1 w1 Hm. subst m. destruct (qr_remove_from_queue request).
    - by apply remove_queued_run in Hm as (? & ? & _).
    - injection Hm as _ <-. auto. }
  destruct (m w) as [[u|e] w1]; destruct (Hm _ _ eq_refl) as [Hf Hq].
  2: { injection Hr as _ <-. split_and!; [|by apply recorded_keep, Hf, history_not_queue_store|done].
       intros q Hn. apply Hf. intros Hs. apply Hn. right. right. by left. }
  assert (Hlast : ∀ q, qr_running_path request ≠ Some q → files w' !! q = files w1 !! q).
  { destruct (qr_running_path request) as [p|].
    - pose proof (respects_run _ _ _ _ _ (be_remove_frame (λ q, q = p) p eq_refl) Hr) as [Hl _].
      intros q Hne. apply Hl. naive_solver.
    - by injection Hr as _ <-. }
  split_and!.
  - intros q Hn. rewrite Hlast, Hf; [done| |]; intros Hs; apply Hn; unfold quarantine_files; auto.
  - intros Hrec. eapply recorded_keep; [|eapply recorded_keep; [|exact Hrec]].
    + apply Hlast. intros Heq%Hrun.
      by eapply (under_disjoint _ _ _ _ Heq (history_path_under sd id)); intros ??.
    + by apply Hf, history_not_queue_store.
  - intros item Hi. destruct (Hq item Hi) as [Hi1|]; [|by right]. left.
    eapply in_queue_keep; [|exact Hi1]. apply Hlast. intros Heq%Hrun.
    by apply queue_not_under in Heq.
Qed.
End QuarantineLemmas.

Section QuarantineProperties.
Context `{ContractsLaws} `{StoreCodecs} `{Host} {BE : Backend} `{!BackendLaws}.

Lemma history_not_store sd id id' :
  id' ≠ id → ¬ store_paths (history.path_for sd id) (history.path_for sd id').
Proof.
  intros Hne [Heq|Heq]; [by apply history_path_inj in Heq|]. revert Heq.
  unfold history.path_for. rewrite join_ends_json. apply json_not_tmp.
Qed.

(** The four steps of a quarantine: the lookup changes nothing, the reports are dropped, the
    history record is stored, and the rest follows. *)
Lemma quarantine_steps request w r w' :
  let sd := qr_state_dir request in let id := qr_execution_id request in
  quarantine_execution request w = (r, w') →
  (is_ok r = false ∧ w' = w) ∨
  ∃ r1 w1, remove_local_report_artifacts sd id w = (r1, w1) ∧
    ((is_ok r = false ∧ w' = w1) ∨
     ∃ rec r2 w2, history.execution_id rec = id ∧ history.state rec = "quarantined" ∧
       history.store (history.path_for sd id) rec w1 = (r2, w2) ∧
       ((is_ok r = false ∧ w' = w2) ∨
        r2 = Ok tt ∧
        (when (qr_remove_from_queue request) (remove_queued_execution sd id);;
         match qr_running_path request with
         | Some running_path => running.remove running_path
         | None => mret tt
         end) w2 = (r, w'))).
Proof.
  intros sd id Hr. unfold quarantine_execution in Hr.
  apply bind_inv in Hr as [(e & El & ->)|(queued & w0 & El & Hr)];
    pose proof (respects_run _ _ _ _ _ (lookup_queued_ro sd id) El); subst; [by left|right].
  apply bind_inv in Hr as [(e & E0 & ->)|(rec & w1' & E0 & Hr)]; [by apply quarantined_run in E0 as [_ ?]|].
  apply quarantined_run in E0 as [-> [= ->]]. set (rec := history.mk_history _ _ _ _ _ _ _ _) in Hr.
  apply bind_inv in Hr as [(e & E1 & ->)|(u1 & w1 & E1 & Hr)].
  { eexists _, w'. split; [exact E1|]. by left. }
  eexists _, w1. split; [exact E1|right].
  apply bind_inv in Hr as [(e & E2 & ->)|([] & w2 & E2 & Hr)].
  { exists rec, (Err e), w'. split_and!; [done|done|exact E2|]. by left. }
  exists rec, (Ok tt), w2. split_and!; [done|done|exact E2|]. by right.
Qed.

Lemma remove_artifacts_frame sd id w r w' : remove_local_report_artifacts sd id w = (r, w') →
  (∀ q, ¬ report_files sd id q → files w' !! q = files w !! q) ∧
  (∀ item, in_queue sd w item → in_queue sd w' item) ∧
  (∀ id', quarantine_recorded sd id' w → quarantine_recorded sd id' w').
Proof.
  intros Hr. pose proof (respects_run _ _ _ _ _ (remove_artifacts_respects sd id) Hr) as [Hf _].
  split_and!; [done| |].
  - intros item. apply in_queue_keep, Hf. intros Hu%report_files_under. by apply queue_not_under in Hu.
  - intros id'. apply recorded_keep, Hf. intros Hu%report_files_under.
    by eapply (under_disjoint _ _ _ _ Hu (history_path_under sd id')); intros ??.
Qed.

Lemma history_store_frame sd id rec w r w' :
  history.execution_id rec = id → history.state rec = "quarantined" →
  history.store (history.path_for sd id) rec w = (r, w') →
  (∀ q, ¬ store_paths (history.path_for sd id) q → files w' !! q = files w !! q) ∧
  (∀ item, in_queue sd w item → in_queue sd w' item) ∧
  (∀ id', quarantine_recorded sd id' w → quarantine_recorded sd id' w') ∧
  (r = Ok tt → quarantine_recorded sd id w').
Proof.
  intros Hid Hst Hr. pose proof (respects_run _ _ _ _ _ (be_write_respects
    (store_paths (history.path_for sd id)) _ rec (λ q Hs, Hs)) Hr) as [Hf _].
  split_and!; [done| | |].
  - intros item. apply in_queue_keep, Hf. intros Hu%history_store_under. by apply queue_not_under in Hu.
  - intros id' Hrec. destruct (decide (id' = id)) as [->|Hne].
    + assert (storable (history.path_for sd id)) as Hstor
        by (unfold history.path_for; rewrite join_ends_json; apply json_storable).
      destruct (be_write_either _ _ _ _ _ Hstor Hr) as [Hs|Hs]; [by eapply recorded_keep|].
      exists rec. split; [|done]. eexists. split; [exact Hs|apply from_to_json].
    + eapply recorded_keep; [|done]. by apply Hf, history_not_store.
  - intros ->. apply be_write_ok in Hr as ->. exists rec. split; [apply doc_wrote|done].
Qed.

(** The tail keeps every quarantine record. *)
Lemma quarantine_tail_records request w r w' id' :
  (∀ p, qr_running_path request = Some p → under (qr_state_dir request) "running" p) →
  (when (qr_remove_from_queue request)
     (remove_queued_execution (qr_state_dir request) (qr_execution_id request));;
   match qr_running_path request with
   | Some running_path => running.remove running_path
   | None => mret tt
   end) w = (r, w') →
  quarantine_recorded (qr_state_dir request) id' w →
  quarantine_recorded (qr_state_dir request) id' w'.
Proof.
  intros Hrun Hr. apply recorded_keep.
  set (sd := qr_state_dir request) in *.
  assert (Hm : ∀ r1 w1, when (qr_remove_from_queue request)
    (remove_queued_execution sd (qr_execution_id request)) w = (r1, w1) →
    files w1 !! history.path_for sd id' = files w !! history.path_for sd id').
  { intros r1 w1. destruct (qr_remove_from_queue request); cbn [when]; [|by intros [= _ <-]].
    intros (Hf & _)%remove_queued_run. apply Hf, history_not_queue_store. }
  apply bind_inv in Hr as [(e & E & ->)|(u & w1 & E & Hr)]; [by apply Hm in E|].
  rewrite <-(Hm _ _ E). destruct (qr_running_path request) as [p|]; [|by injection Hr as _ <-].
  pose proof (respects_run _ _ _ _ _ (be_remove_frame (λ q, q = p) p eq_refl) Hr) as [Hl _].
  apply Hl. intros Heq. pose proof (Hrun p eq_refl) as Hu. rewrite <-Heq in Hu.
  by eapply (under_disjoint _ _ _ _ Hu (history_path_under sd id')); intros ??.
Qed.

(** Queued executions stay queued or are recorded in the history, and records stay. *)
Definition conserves (sd : string) : relation World := λ w w',
  (∀ item, in_queue sd w item →
     in_queue sd w' item ∨ quarantine_recorded sd (execution_queue.execution_id item) w') ∧
  (∀ id, quarantine_recorded sd id w → quarantine_recorded sd id w').

#[export] Instance conserves_preorder sd : PreOrder (conserves sd).
Proof.
  split; [split; auto|]. intros w1 w2 w3 [Hq1 Hr1] [Hq2 Hr2]. split; [|auto].
  intros item [Hi|Hi]%Hq1; auto.
Qed.

Lemma quarantine_conserves request :
  (∀ p, qr_running_path request = Some p → under (qr_state_dir request) "running" p) →
  respects (conserves (qr_state_dir request)) (quarantine_execution request).
Proof.
  intros Hrun w. destruct (quarantine_execution request w) as [r w'] eqn:Hr. cbn.
  apply quarantine_steps in Hr as [[_ ->]|(r1 & w1 & E1 & Hr)]; [done|].
  apply remove_artifacts_frame in E1 as (_ & Hq1 & Hr1).
  destruct Hr as [[_ ->]|(rec & r2 & w2 & Hid & Hst & E2 & Hr)]; [split; auto|].
  apply (history_store_frame _ _ _ _ _ _ Hid Hst) in E2 as (_ & Hq2 & Hr2 & Hrec).
  destruct Hr as [[_ ->]|[-> Hr]]; [split; auto|].
  pose proof (quarantine_tail request w2 r w' Hrun Hr) as (_ & _ & Hq3).
  pose proof (λ id', quarantine_tail_records request w2 r w' id' Hrun Hr) as Hr3.
  split; [|auto]. intros item Hi. destruct (Hq3 item) as [|Heq]; [by auto|by left|].
  right. rewrite Heq. auto.
Qed.

(** C26. Quarantine never loses an execution: whatever calls fail and wherever it stops, only
    the files of this execution and the queue file are touched, every queued execution is
    still queued afterwards, except the quarantined one, which leaves the queue only once the
    history records it as quarantined; and when it succeeds the record is there. *)
Theorem quarantine_never_loses (request : QuarantineRequest) (w w' : World) (r : result unit) :
  let sd := qr_state_dir request in let id := qr_execution_id request in
  (∀ p, qr_running_path request = Some p → under sd "running" p) →
  quarantine_execution request w = (r, w') →
  (∀ q, ¬ quarantine_files request q → files w' !! q = files w !! q) ∧
  (∀ item, in_queue sd w item → in_queue sd w' item ∨
     execution_queue.execution_id item = id ∧ quarantine_recorded sd id w') ∧
  (r = Ok tt → quarantine_recorded sd id w').
Proof.
  intros sd id Hrun Hr. apply quarantine_steps in Hr as [[Hr ->]|(r1 & w1 & E1 & Hr)].
  { split_and!; [done|auto|by intros ->]. }
  apply remove_artifacts_frame in E1 as (Hf1 & Hq1 & _). unfold quarantine_files.
  destruct Hr as [[Hr ->]|(rec & r2 & w2 & Hid & Hst & E2 & Hr)].
  { split_and!; [|auto|by intros ->]. intros q Hn. apply Hf1. naive_solver. }
  apply (history_store_frame _ _ _ _ _ _ Hid Hst) in E2 as (Hf2 & Hq2 & _ & Hrec).
  destruct Hr as [[Hr ->]|[-> Hr]].
  { split_and!; [|auto|by intros ->]. intros q Hn. rewrite Hf2, Hf1; naive_solver. }
  destruct (quarantine_tail request w2 r w' Hrun Hr) as (Hf3 & Hrec3 & Hq3).
  split_and!.
  - intros q Hn. rewrite Hf3, Hf2, Hf1; unfold quarantine_files; naive_solver.
  - intros item Hi. destruct (Hq3 item (Hq2 _ (Hq1 _ Hi))); auto.
  - auto.
Qed.

(** No path a quarantine uses is a directory, and the queue document, if any, parses. *)
Definition quarantine_ready (request : QuarantineRequest) (w : World) : Prop :=
  let sd := qr_state_dir request in let id := qr_execution_id request in
  (reporting.path_for sd id ∉ dirs w) ∧ (envelope_path_for sd id ∉ dirs w) ∧
  (execution_queue.path_for sd ∉ dirs w) ∧
  (∀ p, qr_running_path request = Some p → under sd "running" p ∧ p ∉ dirs w) ∧
  (∀ text, files w !! execution_queue.path_for sd = Some text →
     is_ok (from_json (A := execution_queue.ExecutionQueueState) text) = true).

Lemma path_parent_keeps d n : ∃ t, path_parent (path_join d n) = Some (d +:+ t).
Proof.
  unfold path_parent. destruct (rsplit_once_keeps slash d n) as (t & b & Hr & _).
  unfold path_join. rewrite Hr. by exists t.
Qed.

(** A store into one sub-directory does not turn a path of another place into a directory. *)
Lemma sub_store_dirs sd d n s w q rest :
  q = path_join sd rest → q ∉ dirs w → (∀ t u, (d +:+ t) ≠ (rest +:+ u)) →
  q ∉ dirs (wrote (path_join (path_join sd d) n) s w).
Proof.
  intros -> Hq Hne. apply wrote_dirs; [done|]. intros t.
  destruct (path_parent_keeps (path_join sd d) n) as [u ->]. intros [= Heq].
  unfold path_join in Heq. rewrite <-!app_assoc, !app_cons in Heq. apply app_inj_l in Heq.
  injection Heq as Heq. by apply Hne in Heq.
Qed.

Lemma queue_store_dirs sd s w d t : path_join (path_join sd d) t ∉ dirs w →
  path_join (path_join sd d) t ∉ dirs (wrote (execution_queue.path_for sd) s w).
Proof.
  intros Hq. apply wrote_dirs; [done|]. intros u. unfold execution_queue.path_for.
  rewrite path_parent_join by apply queue_file_name. intros [= Heq].
  unfold path_join in Heq. rewrite <-!app_assoc, !app_cons in Heq. by apply app_self_ne in Heq.
Qed.

Lemma queue_probe_ff sd w : fault_free → execution_queue.path_for sd ∉ dirs w →
  be_probe (execution_queue.path_for sd) w =
    (Ok (is_some (files w !! execution_queue.path_for sd)), w).
Proof. intros Hff Hd. by rewrite be_probe_ff, fs_exists_file. Qed.

Lemma lookup_queued_ff sd id w : fault_free → execution_queue.path_for sd ∉ dirs w →
  (∀ text, files w !! execution_queue.path_for sd = Some text →
     is_ok (from_json (A := execution_queue.ExecutionQueueState) text) = true) →
  ∃ o, lookup_queued_execution sd id w = (Ok o, w) ∧
    match o with
    | Some item => in_queue sd w item ∧ execution_queue.execution_id item = id
    | None => ∀ item, in_queue sd w item → execution_queue.execution_id item ≠ id
    end.
Proof.
  intros Hff Hd Hq. unfold lookup_queued_execution. unfold mbind at 1, M_bind at 1.
  rewrite queue_probe_ff by done.
  destruct (files w !! execution_queue.path_for sd) as [text|] eqn:E; cbn [is_some].
  - specialize (Hq text eq_refl). destruct (from_json text) as [q|] eqn:Ej; [|done].
    unfold mbind, M_bind. rewrite (queue_load_ff _ _ _ _ Hff E Ej). eexists. split; [done|].
    assert (doc (execution_queue.path_for sd) q w) as Hdoc by by exists text.
    destruct (find_first _ _) as [item|] eqn:Ef.
    + apply find_first_Some in Ef as [Hin Hid%String.eqb_eq]. split; [by exists q|done].
    + intros item (q0 & Hq0 & Hin). rewrite (doc_functional _ _ _ _ Hq0 Hdoc) in Hin.
      rewrite find_first_None in Ef. specialize (Ef _ Hin). by apply String.eqb_neq in Ef.
  - exists None. split; [done|]. intros item (q & (t & Ht & _) & _). congruence.
Qed.

Lemma remove_queued_ff sd id w : fault_free → execution_queue.path_for sd ∉ dirs w →
  (∀ text, files w !! execution_queue.path_for sd = Some text →
     is_ok (from_json (A := execution_queue.ExecutionQueueState) text) = true) →
  ∃ w', remove_queued_execution sd id w = (Ok tt, w') ∧
    (w' = w ∨ ∃ s, w' = wrote (execution_queue.path_for sd) s w).
Proof.
  intros Hff Hd Hq. unfold remove_queued_execution, mbind, M_bind, now_rfc3339, gets.
  rewrite queue_probe_ff by done.
  destruct (files w !! execution_queue.path_for sd) as [text|] eqn:E; cbn [is_some negb]; [|eauto].
  specialize (Hq text eq_refl). destruct (from_json text) as [q|] eqn:Ej; [|done].
  rewrite (queue_load_ff _ _ _ _ Hff E Ej). case_match; [eauto|].
  unfold execution_queue.store. rewrite be_write_ff by done. eauto.
Qed.

(** The last steps of a quarantine without failures. *)
Lemma quarantine_tail_ff request w :
  let sd := qr_state_dir request in let id := qr_execution_id request in
  fault_free → execution_queue.path_for sd ∉ dirs w →
  (∀ p, qr_running_path request = Some p → under sd "running" p ∧ p ∉ dirs w) →
  (∀ text, files w !! execution_queue.path_for sd = Some text →
     is_ok (from_json (A := execution_queue.ExecutionQueueState) text) = true) →
  ∃ w', (when (qr_remove_from_queue request) (remove_queued_execution sd id);;
         match qr_running_path request with
         | Some running_path => running.remove running_path
         | None => mret tt
         end) w = (Ok tt, w') ∧
    (∀ p, qr_running_path request = Some p → files w' !! p = None) ∧
    (∀ item, in_queue sd w' item ↔ in_queue sd w item ∧
       (qr_remove_from_queue request = true → execution_queue.execution_id item ≠ id)) ∧
    (∀ q, ¬ store_paths (execution_queue.path_for sd) q → ¬ under sd "running" q →
       files w' !! q = files w !! q).
Proof.
  intros sd id Hff Hdq Hrun Hparse.
  assert (Hm : ∃ w1, when (qr_remove_from_queue request) (remove_queued_execution sd id) w = (Ok tt, w1) ∧
    (∀ p, under sd "running" p → p ∉ dirs w → p ∉ dirs w1) ∧
    (∀ item, in_queue sd w1 item ↔ in_queue sd w item ∧
       (qr_remove_from_queue request = true → execution_queue.execution_id item ≠ id)) ∧
    (∀ q, ¬ store_paths (execution_queue.path_for sd) q → files w1 !! q = files w !! q)).
  { destruct (qr_remove_from_queue request); cbn [when]; [|exists w; split_and!; naive_solver].
    destruct (remove_queued_ff sd id w Hff Hdq Hparse) as (w1 & Hr & Hw1).
    destruct (remove_queued_run _ _ _ _ _ Hr) as (Hf & _ & Hin).
    exists w1. split_and!; [done| | |done].
    - intros p [t ->] Hp. destruct Hw1 as [->|[s ->]]; [done|]. by apply queue_store_dirs.
    - intros item. rewrite (Hin eq_refl (Hff _ _)). naive_solver. }
  destruct Hm as (w1 & Hm & Hd1 & Hin & Hf).
  unfold mbind, M_bind. rewrite Hm.
  destruct (qr_running_path request) as [p|] eqn:Hp.
  - destruct (Hrun p eq_refl) as [Hu Hpd]. unfold running.remove.
    rewrite be_remove_ff by auto. eexists. split; [done|]. split_and!.
    + intros p' [= <-]. apply lookup_delete_eq.
    + intros item. rewrite <-Hin. symmetry. apply in_queue_same. cbn.
      rewrite lookup_delete_ne; [done|]. intros ->. by apply queue_not_under in Hu.
    + intros q Hq Hnu. cbn. rewrite lookup_delete_ne by (by intros ->). by apply Hf.
  - exists w1. split_and!; [done|done|done|]. intros q Hq _. by apply Hf.
Qed.

(** Without failures a quarantine always succeeds and has its whole effect: the report
    documents and the running document are gone, the execution (and only it) has left the
    queue when asked to, and the history holds a record with the request's identifiers,
    completed from the queued item where the request had none. *)
Theorem quarantine_succeeds (request : QuarantineRequest) (w : World) :
  let sd := qr_state_dir request in let id := qr_execution_id request in
  fault_free → quarantine_ready request w →
  ∃ w' queued rec, quarantine_execution request w = (Ok tt, w') ∧
    (match queued with
     | Some item => in_queue sd w item ∧ execution_queue.execution_id item = id
     | None => ∀ item, in_queue sd w item → execution_queue.execution_id item ≠ id
     end) ∧
    doc (history.path_for sd id) rec w' ∧
    rec = history.mk_history SCHEMA_VERSION_V1 id
      (or_else (qr_action_id request) (execution_queue.action_id <$> queued))
      (or_else (qr_plan_digest request) (execution_queue.plan_digest <$> queued))
      (or_else (qr_request_id request) (execution_queue.request_id <$> queued))
      "quarantined" (qr_detail request) (rfc3339 (clock w)) ∧
    files w' !! reporting.path_for sd id = None ∧ files w' !! envelope_path_for sd id = None ∧
    (∀ p, qr_running_path request = Some p → files w' !! p = None) ∧
    (∀ item, in_queue sd w' item ↔ in_queue sd w item ∧
       (qr_remove_from_queue request = true → execution_queue.execution_id item ≠ id)).
Proof.
  intros sd id Hff (Hd1 & Hd2 & Hdq & Hrun & Hparse).
  destruct (lookup_queued_ff sd id w Hff Hdq Hparse) as (queued & El & Hqueued).
  set (rec := history.mk_history SCHEMA_VERSION_V1 id
    (or_else (qr_action_id request) (execution_queue.action_id <$> queued))
    (or_else (qr_plan_digest request) (execution_queue.plan_digest <$> queued))
    (or_else (qr_request_id request) (execution_queue.request_id <$> queued))
    "quarantined" (qr_detail request) (rfc3339 (clock w))).
  set (w1 := set_files (delete (envelope_path_for sd id) (delete (reporting.path_for sd id) (files w))) w).
  set (w2 := wrote (history.path_for sd id) (to_json rec +:+ nl) w1).
  assert (Hf2 : ∀ q, ¬ store_paths (history.path_for sd id) q → files w2 !! q = files w1 !! q)
    by (intros; by apply wrote_lookup_ne).
  assert (Hq2 : files w2 !! execution_queue.path_for sd = files w !! execution_queue.path_for sd).
  { rewrite Hf2 by (intros Hq%history_store_under; by apply queue_not_under in Hq).
    cbn. rewrite !lookup_delete_ne; [done| |]; intros Heq.
    - apply (queue_not_under sd "reporting"). rewrite <-Heq. by eexists.
    - apply (queue_not_under sd "reporting"). rewrite <-Heq. by eexists. }
  destruct (quarantine_tail_ff request w2) as (w' & Hrun' & Hgone & Hin & Hkeep); try done.
  { eapply sub_store_dirs; [done|exact Hdq|]. rewrite queue_file_is. intros ??. discriminate. }
  { intros p Hp. destruct (Hrun p Hp) as [Hu Hpd]. split; [done|]. destruct Hu as [t ->].
    rewrite join_join in *. eapply sub_store_dirs; [done|exact Hpd|]. intros ??. discriminate. }
  { intros text Ht. apply Hparse. exact (eq_trans (eq_sym Hq2) Ht). }
  exists w', queued, rec. split_and!; [|done| |done| | |done|].
  - unfold quarantine_execution, mbind, M_bind. fold sd id. rewrite El.
    destruct (history.quarantined _ _ _ _ _ w) as [r0 w0] eqn:E0. apply quarantined_run in E0 as [-> ->].
    rewrite remove_artifacts_ff by done. unfold history.store. rewrite be_write_ff by done.
    exact Hrun'.
  - eapply doc_same; [|apply doc_wrote]. symmetry. apply Hkeep.
    + apply history_not_queue_store.
    + intros Hu. by eapply (under_disjoint _ _ _ _ Hu (history_path_under sd id)); intros ??.
  - rewrite Hkeep, Hf2.
    + cbn. rewrite lookup_delete_ne by apply envelope_ne_state. apply lookup_delete_eq.
    + intros Hu%history_store_under. by eapply (under_disjoint sd "reporting" "history" _); [by eexists|done|intros ??].
    + intros Hu. by eapply (queue_store_not_under sd "reporting"); [exact Hu|eexists].
    + intros Hu. by eapply (under_disjoint sd "reporting" "running"); [by eexists|done|intros ??].
  - rewrite Hkeep, Hf2.
    + cbn. apply lookup_delete_eq.
    + intros Hu%history_store_under. by eapply (under_disjoint sd "reporting" "history" _); [by eexists|done|intros ??].
    + intros Hu. by eapply (queue_store_not_under sd "reporting"); [exact Hu|eexists].
    + intros Hu. by eapply (under_disjoint sd "reporting" "running"); [by eexists|done|intros ??].
  - intros item. etrans; [apply Hin|]. by rewrite (in_queue_same sd w w2) by done.
Qed.
End QuarantineProperties.

(** * Witnesses: two queued executions, [a] quarantined *)
Definition toy_quarantine : QuarantineRequest :=
  queued_item "/s" (toy_item "a" 100) "boom" (Some (running.path_for "/s" "a")).

Lemma toy_running_under p :
  qr_running_path toy_quarantine = Some p → under "/s" "running" p.
Proof. intros [= <-]. by eexists. Qed.

Lemma quarantine_never_loses_witness :
  let run := quarantine_execution (BE := nonblocking) toy_quarantine (toy_queue_world ["a"; "b"]) in
  run.1 = Ok tt ∧ quarantine_recorded "/s" "a" run.2.
Proof.
  intros run. assert (Hr : run.1 = Ok tt) by (by vm_compute).
  split; [exact Hr|].
  destruct (quarantine_never_loses (BE := nonblocking) toy_quarantine (toy_queue_world ["a"; "b"])
              run.2 run.1 toy_running_under (surjective_pairing _)) as (_ & _ & Hrec).
  exact (Hrec Hr).
Defined.

Lemma quarantine_succeeds_witness :
  ∃ w', quarantine_execution (BE := nonblocking) toy_quarantine (toy_queue_world ["a"; "b"]) = (Ok tt, w') ∧
    in_queue "/s" w' (toy_item "b" 100) ∧ ¬ in_queue "/s" w' (toy_item "a" 100).
Proof.
  destruct (quarantine_succeeds (BE := nonblocking) toy_quarantine (toy_queue_world ["a"; "b"])
              toy_fault_free) as (w' & queued & rec & Hr & _ & _ & _ & _ & _ & _ & Hin).
  - split; [|split; [|split; [|split]]].
    + intros Hd. cbn [dirs toy_queue_world] in Hd. apply elem_of_singleton in Hd.
      vm_compute in Hd. discriminate Hd.
    + intros Hd. cbn [dirs toy_queue_world] in Hd. apply elem_of_singleton in Hd.
      vm_compute in Hd. discriminate Hd.
    + intros Hd. cbn [dirs toy_queue_world] in Hd. apply elem_of_singleton in Hd.
      vm_compute in Hd. discriminate Hd.
    + intros p Hp. split; [by apply toy_running_under|]. injection Hp as <-.
      intros Hd. cbn [dirs toy_queue_world] in Hd. apply elem_of_singleton in Hd.
      vm_compute in Hd. discriminate Hd.
    + intros text Ht. cbn [files toy_queue_world] in Ht.
      apply lookup_singleton_Some in Ht as [_ <-]. by vm_compute.
  - exists w'. split; [exact Hr|]. split.
    + apply (Hin (toy_item "b" 100)). split; [|discriminate].
      exists (toy_queue_of ["a"; "b"]). split.
      * exists (to_json (toy_queue_of ["a"; "b"]) +:+ nl).
        split; [apply lookup_singleton_eq|apply from_to_json].
      * apply list_elem_of_In. vm_compute. auto.
    + intros Ha. apply (Hin (toy_item "a" 100)) in Ha as [_ Ha]. by apply Ha.
Defined.
