(* ===== verification/LocalExec.v ===== *)
(** The local execution controller: src/src/exec/local_exec.rs, its support file, and the
    synthesized results of src/src/exec/recovery.rs.  The child process (tokio's [Child]) is
    code outside the repository: its operations are parameters that may do anything to the
    host, and a property that needs more names the law it uses. *)
From stdpp Require Import pretty.
From S2P Require Import Prelude Text Host Contracts Stores Toy Process ExecSupport Reporting.

(** [std::process::ExitStatus] on Unix. *)
Inductive ExitStatus := Exited (code : Z) | Signaled (signal : Z).

Definition status_success (s : ExitStatus) : bool :=
  match s with Exited 0 => true | _ => false end.
Definition status_code (s : ExitStatus) : option Z :=
  match s with Exited c => Some c | Signaled _ => None end.

#[export] Instance ExitStatus_eq_dec : EqDecision ExitStatus.
Proof. solve_decision. Defined.

(** tokio::process. *)
Class ChildProcess `{Host} := {
  Child : Type;
  command_spawn : string → list string → M World Child;
  (** The reads of a piped stream in order: an empty read is the end of the stream. *)
  child_stdout : Child → option (list (result string));
  child_stderr : Child → option (list (result string));
  child_id : Child → World → option Z;
  child_try_wait : Child → M World (option ExitStatus);
  child_wait : Child → M World ExitStatus;
  (** [timeout(ms, child.wait())]: [None] when the time elapsed. *)
  child_wait_timeout : Z → Child → M World (option ExitStatus);
  child_start_kill : Child → M World unit;
}.

Record LocalExecRequest `{Contracts} := mk_exec {
  ex_execution_id : string;
  ex_run_dir : string;
  ex_state_dir : string;
  ex_exec_bin : string;
  ex_cancel_grace_ms : Z;
  ex_stdout_limit_bytes : Z;
  ex_stderr_limit_bytes : Z;
  ex_plan_digest : string;
  ex_request_id : string;
  ex_plan : ActionPlan;
}.

Record LocalExecOutcome `{Contracts} := mk_outcome {
  out_execution_id : string;
  out_workdir : string;
  out_result : ActionResult;
}.

Inductive ExitClassification :=
  | Completed (s : ExitStatus)
  | CompletedAfterTimeout (s : ExitStatus)
  | TimedOutExit.

(** * src/src/exec/local_exec_support.rs *)
Section Support.
Context `{ContractConstructors} `{StoreCodecs} `{Host} `{!ChildProcess}.

Definition STREAM_TRUNCATED_MARKER : string := nl +:+ "[truncated by wist-agentd]" +:+ nl.

(** A task that copies a stream into a log file; [None] is a panic of the task. *)
Definition JoinHandle : Type := M World (option (result unit)).

Fixpoint capture_loop (output : string) (limit_bytes : Z) (reads : list (result string))
    (written : Z) (truncated : bool) : M World unit :=
  match reads with
  | [] => mret tt
  | Err e :: _ => throw e
  | Ok buf :: reads =>
      let read := Z.of_nat (String.length buf) in
      if Z.eqb read 0 then mret tt
      else if Z.ltb written limit_bytes then
        let remaining := (limit_bytes - written)%Z in
        let to_write := Z.min read remaining in
        when (Z.ltb 0 to_write) (fs_append output (str_take (Z.to_nat to_write) buf));;
        let mark := Z.ltb to_write read && negb truncated in
        when mark (fs_append output STREAM_TRUNCATED_MARKER);;
        capture_loop output limit_bytes reads (written + to_write) (mark || truncated)
      else capture_loop output limit_bytes reads written truncated
  end.

Definition spawn_stream_capture (reader : list (result string)) (output : string)
    (limit_bytes : Z) : JoinHandle :=
  r ← try (capture_loop output limit_bytes reader 0 false;; fs_sync output);
  mret (Some r).

Definition join_capture (handle : JoinHandle) (stream_name : string) : M World unit :=
  r ← handle;
  match r with
  | Some result => of_result result
  | None => throw (io_other (stream_name +:+ " capture thread panicked"))
  end.

Definition terminate_child (child : Child) : M World unit :=
  st ← child_try_wait child;
  match st with
  | Some _ => mret tt
  | None =>
      r ← try (child_start_kill child);
      (match r with
       | Ok _ => mret tt
       | Err err => if decide (io_kind err = InvalidInput) then mret tt else throw err
       end);;
      _ ← child_wait child;
      mret tt
  end.

Definition synthesize_result (request : LocalExecRequest) (final_status : FinalStatus)
    (error_code step_status : string) : M World ActionResult :=
  finished_at ← now_rfc3339;
  let step_status :=
    if String.eqb step_status "timed_out" then StepTimedOut
    else if String.eqb step_status "cancelled" then StepCancelled else StepFailed in
  let plan := ex_plan request in
  mret (mk_action_result (plan_action_id plan) (ex_execution_id request) final_status
    (Some (ex_request_id request)) (Some error_code)
    [{| sr_step_id := plan_program_entry plan;
        sr_attempt := 1;
        sr_op := match find_first (λ s, String.eqb s.1 (plan_program_entry plan))
                         (plan_program_steps plan) with
                 | Some s => s.2 | None => None end;
        sr_status := step_status;
        sr_started_at := finished_at;
        sr_finished_at := Some finished_at;
        sr_duration_ms := None;
        sr_error_code := Some error_code |}]
    (Some finished_at) (Some finished_at)).

Definition write_exec_state_async (workdir execution_id action_id state : string)
    (reason_code : option string) (detail : string) : M World unit :=
  updated_at ← now_rfc3339;
  write_json_atomic_async (path_join workdir WORKDIR_STATE_FILE)
    {| ps_execution_id := execution_id; ps_action_id := action_id; ps_state := state;
       ps_updated_at := updated_at; ps_step_id := None; ps_attempt := None;
       ps_reason_code := reason_code; ps_detail := Some detail |}.

Definition write_timed_out_result_async (request : LocalExecRequest)
    (workdir result_path : string) : M World ActionResult :=
  result ← synthesize_result request TimedOut "agentd_total_timeout" "timed_out";
  write_json_atomic_async result_path result;;
  write_exec_state_async workdir (ex_execution_id request) (plan_action_id (ex_plan request))
    "timed_out" (Some "agentd_total_timeout")
    "agentd timed out execution and synthesized final result";;
  mret result.

Definition wait_for_child (child : Child) (timeout_ms cancel_grace_ms : Z)
    (running_path : string) : M World ExitClassification :=
  st ← child_try_wait child;
  match st with
  | Some status => mret (Completed status)
  | None =>
  st ← child_wait_timeout (Z.max timeout_ms 1) child;
  match st with
  | Some status => mret (Completed status)
  | None =>
  st ← child_try_wait child;
  match st with
  | Some status => mret (Completed status)
  | None =>
  record_signal_request_async running_path Cancel;;
  pid ← gets (child_id child);
  early ←
    (match pid with
     | None => mret None
     | Some pid =>
         r ← try (send_terminate pid);
         match r with
         | Ok _ => mret None
         | Err err =>
             st ← child_try_wait child;
             match st with
             | Some status => mret (Some status)
             | None => if decide (io_kind err ≠ InvalidInput) then throw err else mret None
             end
         end
     end);
  match early with
  | Some status => mret (CompletedAfterTimeout status)
  | None =>
  st ← child_wait_timeout (Z.max cancel_grace_ms 1) child;
  match st with
  | Some status => mret (CompletedAfterTimeout status)
  | None =>
      record_signal_request_async running_path Kill;;
      r ← try (child_start_kill child);
      (match r with
       | Ok _ => mret tt
       | Err err =>
           st ← child_try_wait child;
           if bool_decide (st = None) && negb (bool_decide (io_kind err = InvalidInput))
           then throw err else mret tt
       end);;
      _ ← child_wait child;
      mret TimedOutExit
  end end end end end.
End Support.

(** * src/src/exec/local_exec.rs *)
Section LocalExec.
Context `{ContractConstructors} `{StoreCodecs} `{Host} `{!ChildProcess}.

Definition load_or_synthesize_result_async (request : LocalExecRequest)
    (workdir result_path : string) (exit_status : ExitClassification) : M World ActionResult :=
  r ← try (fs_metadata result_path);
  result_exists ←
    (match r with
     | Ok _ => mret true
     | Err err => if decide (io_kind err = NotFound) then mret false else throw err
     end);
  match exit_status, result_exists with
  | Completed status, true =>
      result ← read_json_async result_path;
      if negb (status_success status) && bool_decide (final_status result = Succeeded)
      then throw (io_other "exec process exited non-zero with succeeded result")
      else mret result
  | CompletedAfterTimeout _, true =>
      result ← read_json_async result_path;
      if bool_decide (final_status result = Succeeded)
      then write_timed_out_result_async request workdir result_path
      else mret result
  | TimedOutExit, _ | CompletedAfterTimeout _, false =>
      write_timed_out_result_async request workdir result_path
  | Completed status, false =>
      let reason := match status_code status with
                    | Some code => "exec_exit_" +:+ pretty code
                    | None => "exec_terminated_by_signal"
                    end in
      result ← synthesize_result request Failed reason "failed";
      write_json_atomic_async result_path result;;
      write_exec_state_async workdir (ex_execution_id request) (plan_action_id (ex_plan request))
        "failed" (Some reason) "agentd synthesized failure result after abnormal exec exit";;
      mret result
  end.

Definition option_or_throw {A} (o : option A) (msg : string) : M World A :=
  match o with Some a => mret a | None => throw (io_other msg) end.

Definition execute_async (request : LocalExecRequest) : M World LocalExecOutcome :=
  let plan := ex_plan request in
  let workdir := path_join (path_join (ex_run_dir request) ACTIONS_DIR) (ex_execution_id request) in
  fs_create_dir_all workdir;;
  spawned_at ← now_rfc3339;
  deadline ← after_millis_rfc3339 (plan_max_total_duration_ms plan);
  let runtime := {|
    rc_execution_id := ex_execution_id request; rc_spawned_at := spawned_at;
    rc_deadline_at := Some deadline; rc_agent_id := plan_agent_id plan;
    rc_node_id := plan_node_id plan; rc_workdir := workdir |} in
  write_json_atomic_async (path_join workdir WORKDIR_PLAN_FILE) plan;;
  write_json_atomic_async (path_join workdir WORKDIR_RUNTIME_FILE) runtime;;
  let stdout_log := path_join workdir "stdout.log" in
  let stderr_log := path_join workdir "stderr.log" in
  fs_create stdout_log;;
  fs_create stderr_log;;
  child ← command_spawn (ex_exec_bin request) ["run"; "--workdir"; workdir];
  stdout_reader ← option_or_throw (child_stdout child) "child stdout pipe was not available";
  stderr_reader ← option_or_throw (child_stderr child) "child stderr pipe was not available";
  let stdout_capture := spawn_stream_capture stdout_reader stdout_log (ex_stdout_limit_bytes request) in
  let stderr_capture := spawn_stream_capture stderr_reader stderr_log (ex_stderr_limit_bytes request) in
  id ← gets (child_id child);
  child_pid ← option_or_throw id "spawned child pid was not available";
  started_at ← now_rfc3339;
  let running_path := running.path_for (ex_state_dir request) (ex_execution_id request) in
  identity ← process_identity child_pid;
  let running_state :=
    running.build
      (running.b_signals None None started_at
      (running.b_progress started_at (rc_deadline_at runtime) None (Some 1%Z)
      (running.b_process (Some child_pid) identity
      (running.b_submission (ex_plan_digest request) (ex_request_id request)
      (running.builder (ex_execution_id request) (plan_action_id plan) "spawned" workdir))))) in
  stored ← try (running.store_async running_path running_state);
  match stored with
  | Err err =>
      terminate_child child;;
      join_capture stdout_capture "stdout";;
      join_capture stderr_capture "stderr";;
      throw (MkIoError (io_kind err)
        ("failed to persist running state for " +:+ ex_execution_id request +:+ " after spawn: "
         +:+ io_msg err))
  | Ok _ =>
      exit_status ← wait_for_child child (plan_max_total_duration_ms plan)
        (ex_cancel_grace_ms request) running_path;
      join_capture stdout_capture "stdout";;
      join_capture stderr_capture "stderr";;
      let result_path := path_join workdir WORKDIR_RESULT_FILE in
      result ← load_or_synthesize_result_async request workdir result_path exit_status;
      reloaded ← try (running.load_async running_path);
      let signal_state := result_ok reloaded in
      now ← now_rfc3339;
      let finished_state :=
        running.build
          (running.b_signals (signal_state ≫= running.cancel_requested_at)
             (signal_state ≫= running.kill_requested_at) now
          (running.b_progress (running.started_at running_state) (rc_deadline_at runtime) None (Some 1%Z)
          (running.b_process (Some child_pid) (running.process_identity running_state)
          (running.b_submission (ex_plan_digest request) (ex_request_id request)
          (running.builder (ex_execution_id request) (plan_action_id plan)
             (final_state_name result) workdir))))) in
      running.store_async running_path finished_state;;
      mret (mk_outcome _ (ex_execution_id request) workdir result)
  end.

(** [execute] runs [execute_async] to completion on its own runtime. *)
Definition execute (request : LocalExecRequest) : M World LocalExecOutcome :=
  execute_async request.
End LocalExec.

(** * src/src/exec/recovery.rs *)
Section Recovery.
Context `{ContractConstructors} `{Host}.
(** The result at an instant of the clock. *)
Definition recovery_result_at (t : Z) (state : running.RunningExecutionState) : ActionResult :=
  mk_action_result (running.action_id state) (running.execution_id state) Failed
    (Some (running.request_id state)) (Some "agentd_recovered_incomplete_execution")
    [{| sr_step_id := default "unknown" (running.current_step_id state);
        sr_attempt := default 1%Z (running.attempt state);
        sr_op := None;
        sr_status := StepFailed;
        sr_started_at := running.started_at state;
        sr_finished_at := Some (rfc3339 t);
        sr_duration_ms := None;
        sr_error_code := Some "agentd_recovered_incomplete_execution" |}]
    (Some (running.started_at state)) (Some (rfc3339 t)).

Definition synthesize_recovery_result (state : running.RunningExecutionState) : M World ActionResult :=
  gets (λ w, recovery_result_at (clock w) state).
End Recovery.

(** * Bounded stream capture *)
Section Capture.
Context `{ContractConstructors} `{StoreCodecs} `{Host} `{!ChildProcess}.

Definition concat_string (l : list string) : string := foldr String.append "" l.


(** A read crosses the limit when it starts below it and ends above it. *)
Fixpoint crosses (limit : nat) (seen : nat) (chunks : list string) : bool :=
  match chunks with
  | [] => false
  | c :: chunks =>
      (Nat.ltb seen limit && Nat.ltb limit (seen + String.length c)) ||
      crosses limit (seen + String.length c) chunks
  end.

Lemma crosses_above limit seen chunks : limit ≤ seen → crosses limit seen chunks = false.
Proof.
  revert seen. induction chunks as [|c chunks IH]; intros seen Hs; cbn [crosses]; [done|].
  rewrite IH by lia. destruct (Nat.ltb_spec seen limit); [lia|done].
Qed.

Lemma capture_above output limit reads w tr written :
  Forall (λ c, c ≠ "") reads → (limit ≤ written)%Z →
  capture_loop output limit (Ok <$> reads) written tr w = (Ok tt, w).
Proof.
  intros Hne Hw. induction Hne as [|c reads Hc _ IH]; cbn; [done|].
  destruct (Z.eqb_spec (Z.of_nat (String.length c)) 0); [by destruct c|].
  destruct (Z.ltb_spec written limit); [lia|done].
Qed.

Lemma fs_append_ff p s w pre : fault_free → files w !! p = Some pre →
  fs_append p s w = (Ok tt, set_files (<[p := pre +:+ s]> (files w)) w).
Proof.
  intros Hff Hp. unfold fs_append, mbind, M_bind, modify. rewrite guard_fault_ff by done.
  by rewrite Hp.
Qed.

Definition marker_if (b : bool) : string := if b then STREAM_TRUNCATED_MARKER else "".

Lemma capture_loop_ff output limit reads : ∀ w written pre,
  fault_free → Forall (λ c, c ≠ "") reads → written ≤ limit → files w !! output = Some pre →
  capture_loop output (Z.of_nat limit) (Ok <$> reads) (Z.of_nat written) false w =
    (Ok tt, set_files (<[output := pre +:+ str_take (limit - written) (concat_string reads) +:+
               marker_if (crosses limit written reads)]> (files w)) w).
Proof.
  induction reads as [|c reads IH]; intros w written pre Hff Hne Hwl Hp.
  { cbn -[set_files]. destruct (limit - written); cbn -[set_files];
      by rewrite app_nil_r, insert_id, set_files_same. }
  inversion Hne as [|? ? Hc Hne']; subst.
  cbn [fmap list_fmap capture_loop concat_string foldr crosses]. fold (concat_string reads).
  destruct (Z.eqb_spec (Z.of_nat (String.length c)) 0) as [Hz|Hz]; [by destruct c|].
  destruct (Z.ltb_spec (Z.of_nat written) (Z.of_nat limit)) as [Hlt|Hge].
  2: { rewrite capture_above, crosses_above by (done || lia).
       destruct (Nat.ltb_spec written limit); [lia|]. cbn [andb orb].
       replace (limit - written) with 0 by lia. rewrite str_take_0, app_nil_l.
       cbn [marker_if]. by rewrite app_nil_r, insert_id, set_files_same. }
  destruct (Nat.ltb_spec written limit) as [_|]; [|lia]. cbn [andb].
  set (k := Nat.min (String.length c) (limit - written)).
  replace (Z.min (Z.of_nat (String.length c)) (Z.of_nat limit - Z.of_nat written)) with (Z.of_nat k) by lia.
  assert (0 < k) by (destruct (String.length c) eqn:E; [done|lia]).
  destruct (Z.ltb_spec 0 (Z.of_nat k)); [|lia]. cbn [when negb].
  rewrite (bind_ok _ _ _ _ _ (fs_append_ff _ _ _ _ Hff Hp)). rewrite Nat2Z.id.
  set (w1 := set_files _ w).
  assert (Hp1 : files w1 !! output = Some (pre +:+ str_take k c)) by apply lookup_insert_eq.
  destruct (Z.ltb_spec (Z.of_nat k) (Z.of_nat (String.length c))) as [Hover|Hfit]; cbn [andb when].
  - rewrite (bind_ok _ _ _ _ _ (fs_append_ff _ _ _ _ Hff Hp1)).
    rewrite capture_above by (done || lia).
    destruct (Nat.ltb_spec limit (written + String.length c)); [|lia]. cbn [orb marker_if].
    rewrite str_take_app. replace (limit - written - String.length c) with 0 by lia.
    rewrite str_take_0, app_nil_r. replace (limit - written) with k by lia.
    unfold w1. cbn [files set_files]. unfold set_files. cbn. rewrite insert_insert_eq.
    by rewrite app_assoc.
  - unfold mbind at 1, M_bind at 1. cbn [mret M_ret].
    replace (Z.of_nat written + Z.of_nat k)%Z with (Z.of_nat (written + k)) by lia.
    cbn [orb]. rewrite (IH w1 (written + k) _ Hff Hne') by (done || lia).
    destruct (Nat.ltb_spec limit (written + String.length c)); [lia|]. cbn [orb].
    replace (written + String.length c) with (written + k) by lia.
    rewrite (str_take_app (limit - written)).
    replace (limit - written - String.length c) with (limit - (written + k)) by lia.
    rewrite (str_take_all k c), (str_take_all (limit - written) c) by lia.
    unfold w1. unfold set_files. cbn. rewrite insert_insert_eq. by rewrite !app_assoc.
Qed.
End Capture.

Section ExecProperties.
Context `{ContractsLaws} `{StoreCodecs} `{Host} `{!ChildProcess}.

(** The log of a child's output stream is bounded: for any reads of the stream and any
    byte limit, capturing them succeeds without failures and appends exactly the first
    [limit] bytes of the stream, followed by the truncation marker when and only when one
    read of the stream straddles the limit.  So a stream within the limit is copied verbatim,
    the log never grows by more than the limit plus the marker, and a stream cut exactly at
    the end of a read is truncated without a marker. *)
Theorem stream_capture_bounded (output : string) (limit : nat) (reads : list string)
    (w : World) (old : string) :
  fault_free → Forall (λ c, c ≠ "") reads → files w !! output = Some old →
  let data := concat_string reads in
  let appended := str_take limit data +:+ marker_if (crosses limit 0 reads) in
  join_capture (spawn_stream_capture (Ok <$> reads) output (Z.of_nat limit)) "stdout" w =
    (Ok tt, set_files (<[output := old +:+ appended]> (files w)) w) ∧
  String.length appended ≤ limit + String.length STREAM_TRUNCATED_MARKER ∧
  (String.length data ≤ limit → appended = data) ∧
  (∀ c rest, reads = c :: rest → String.length c = limit → appended = c).
Proof.
  intros Hff Hne Hp data appended.
  assert (Hfits : ∀ l seen, seen + String.length (concat_string l) ≤ limit →
    crosses limit seen l = false).
  { intros l. induction l as [|c l IH]; intros seen; cbn [crosses concat_string foldr]; [done|].
    rewrite length_app_string. intros Hl. unfold concat_string in IH. rewrite IH by lia.
    destruct (Nat.ltb_spec limit (seen + String.length c)); [lia|]. by rewrite andb_false_r. }
  split_and!.
  - unfold join_capture, spawn_stream_capture. unfold mbind at 1 2, M_bind at 1 2, try.
    erewrite bind_ok by exact (capture_loop_ff output limit reads w 0 old Hff Hne ltac:(lia) Hp).
    unfold fs_sync. rewrite guard_fault_ff by done. rewrite Nat.sub_0_r. done.
  - unfold appended. rewrite length_app_string, str_take_length. destruct (crosses limit 0 reads);
      cbn [marker_if]; cbn [String.length]; lia.
  - intros Hl. unfold appended. rewrite str_take_all by done. rewrite Hfits by done.
    apply app_nil_r.
  - intros c rest Hr Hl. unfold appended, data. rewrite Hr. cbn [concat_string foldr crosses].
    rewrite str_take_app, Hl, Nat.sub_diag, Nat.add_0_l, Nat.ltb_irrefl, andb_false_r.
    cbn [orb]. rewrite crosses_above by done. rewrite str_take_all by lia.
    rewrite str_take_0. cbn [marker_if]. by rewrite !app_nil_r.
Qed.

Lemma synthesize_run request fs code st w r w' : synthesize_result request fs code st w = (Ok r, w') →
  w' = w ∧ final_status r = fs.
Proof. intros [= <- <-]. split; [done|apply final_status_mk]. Qed.

Lemma state_not_result_store d :
  ¬ store_paths (path_join d WORKDIR_STATE_FILE) (path_join d WORKDIR_RESULT_FILE).
Proof.
  destruct state_file_is as (m & Hm & Hne). rewrite Hm, result_file_is. intros [Heq|Heq].
  - apply path_join_inj in Heq. change "result.json" with ("result" +:+ ".json") in Heq.
    apply app_inj_r in Heq. congruence.
  - change "result.json" with ("result" +:+ ".json") in Heq. rewrite join_ends_json in Heq.
    by apply json_not_tmp in Heq.
Qed.

(** Writing a synthesized result and the progress state leaves the result on disk. *)
Lemma write_synthesized_ok (d x a st : string) rc detail (result : ActionResult) w u w' :
  (write_json_atomic_async (path_join d WORKDIR_RESULT_FILE) result;;
   write_exec_state_async d x a st rc detail) w = (Ok u, w') →
  doc (path_join d WORKDIR_RESULT_FILE) result w'.
Proof.
  intros Hr. apply bind_ok_inv in Hr as (u1 & w1 & Hw1%write_json_ok & Hr).
  unfold write_exec_state_async in Hr.
  apply bind_ok_inv in Hr as (now & w2 & [= <- <-] & Hr). apply write_json_ok in Hr. subst w' w1.
  apply doc_wrote_ne; [apply state_not_result_store|apply doc_wrote].
Qed.

Lemma write_timed_out_ok request d w r w' :
  write_timed_out_result_async request d (path_join d WORKDIR_RESULT_FILE) w = (Ok r, w') →
  final_status r = TimedOut ∧ doc (path_join d WORKDIR_RESULT_FILE) r w'.
Proof.
  intros Hr. unfold write_timed_out_result_async in Hr.
  apply bind_ok_inv in Hr as (res & w1 & [-> Hfs]%synthesize_run & Hr).
  rewrite <-bind_assoc in Hr.
  apply bind_ok_inv in Hr as (u & w2 & Hd%write_synthesized_ok & [= <- <-]). done.
Qed.

(** C6. An execution counts as succeeded only if its process exited with status 0 by itself
    before the timeout and left a readable result saying so; a process stopped by the timeout
    always yields a timed-out result; whatever the outcome, the result returned is the one in
    the execution's [result.json]. *)
Theorem success_needs_clean_exit (request : LocalExecRequest) (workdir : string)
    (exit : ExitClassification) (w w' : World) (r : ActionResult) :
  let result_path := path_join workdir WORKDIR_RESULT_FILE in
  load_or_synthesize_result_async request workdir result_path exit w = (Ok r, w') →
  doc result_path r w' ∧
  (final_status r = Succeeded → exit = Completed (Exited 0) ∧ doc result_path r w ∧ w' = w) ∧
  (exit = TimedOutExit → final_status r = TimedOut) ∧
  (∀ s, exit = CompletedAfterTimeout s →
     doc result_path r w ∧ w' = w ∨ final_status r = TimedOut) ∧
  (∀ s, exit = Completed s → doc result_path r w ∧ w' = w ∨ final_status r = Failed).
Proof.
  intros rp Hr. unfold load_or_synthesize_result_async in Hr.
  apply bind_ok_inv in Hr as (rm & w1 & Hm & Hr). unfold try in Hm.
  destruct (fs_metadata rp w) as [rm0 w2] eqn:Em. injection Hm as -> ->.
  assert (w1 = w) as ->.
  { destruct rm; [by apply fs_metadata_ok in Em as [-> _]|by apply fs_metadata_err in Em as [-> _]]. }
  apply bind_ok_inv in Hr as (ex & w1 & Hex & Hr).
  assert (w1 = w) as ->.
  { destruct rm; [by injection Hex|]. case_decide; [by injection Hex|done]. }
  pose proof timed_out_not_succeeded as Hts. pose proof failed_not_succeeded as Hfs.
  destruct exit as [s|s|], ex.
  - apply bind_ok_inv in Hr as (res & w1 & [-> Hd]%read_json_ok & Hr).
    destruct (negb _ && _) eqn:Eb; [done|]. injection Hr as <- <-.
    split_and!; [done| |done|done|by left]. intros Hs. rewrite Hs, bool_decide_eq_true_2 in Eb by done.
    rewrite andb_true_r in Eb. apply negb_false_iff in Eb. by destruct s as [[]|].
  - apply bind_ok_inv in Hr as (res & w1 & [-> Hf]%synthesize_run & Hr). rewrite <-bind_assoc in Hr.
    apply bind_ok_inv in Hr as (u & w2 & Hd%write_synthesized_ok & [= <- <-]).
    split_and!; [done|congruence|done|done|by right].
  - apply bind_ok_inv in Hr as (res & w1 & [-> Hd]%read_json_ok & Hr).
    case_bool_decide as Hs.
    + apply write_timed_out_ok in Hr as [Hf Hd']. split_and!; [done|congruence|done|by right|done].
    + injection Hr as <- <-. split_and!; [done|done|done|by left|done].
  - apply write_timed_out_ok in Hr as [Hf Hd]. split_and!; [done|congruence|done|by right|done].
  - apply write_timed_out_ok in Hr as [Hf Hd]. split_and!; [done|congruence|done|by right|done].
  - apply write_timed_out_ok in Hr as [Hf Hd]. split_and!; [done|congruence|done|by right|done].
Qed.

(** The child's operations leave the agent's document [p] alone: the child works in its own
    directory. *)
Definition keeps_file (p : string) : relation World := λ w w', files w' !! p = files w !! p.

#[export] Instance keeps_file_preorder p : PreOrder (keeps_file p).
Proof. split; [done|]. unfold keeps_file. intros ??? H1' H2'. congruence. Qed.

Record child_keeps (p : string) : Prop := {
  keeps_try_wait : ∀ c, respects (keeps_file p) (child_try_wait c);
  keeps_wait : ∀ c, respects (keeps_file p) (child_wait c);
  keeps_wait_timeout : ∀ ms c, respects (keeps_file p) (child_wait_timeout ms c);
  keeps_start_kill : ∀ c, respects (keeps_file p) (child_start_kill c);
}.

Lemma send_terminate_keeps p pid : respects (keeps_file p) (send_terminate pid).
Proof.
  unfold send_terminate, send_signal. apply respects_bind; [apply _| |].
  - destruct (Z.eqb pid 0); [by apply respects_ret, _|]. apply respects_act. intros w.
    by destruct (os_kill _ _ _).
  - intros []; [by apply respects_throw, _|by apply respects_ret, _].
Qed.

Lemma doc_keeps {A} `{Json A} p (a : A) w w' : keeps_file p w w' → doc p a w → doc p a w'.
Proof. apply doc_keep. Qed.

(** A signal request on an existing document. *)
Lemma record_signal_doc p kind w s u w' : doc p s w →
  record_signal_request_async p kind w = (Ok u, w') →
  doc p (apply_signal_request kind (rfc3339 (clock w)) s) w'.
Proof.
  intros (text & Ht & Hs) [[Hno _]|(text' & s' & Ht' & Hs' & ->)]%record_signal_ok.
  - by rewrite (fs_exists_lookup _ _ _ Ht) in Hno.
  - assert (s' = s) as -> by congruence. apply doc_wrote.
Qed.

(** How far a stopped execution's running state was escalated. *)
Definition escalated (exit : ExitClassification) (s s' : running.RunningExecutionState) : Prop :=
  match exit with
  | Completed _ => s' = s
  | CompletedAfterTimeout _ =>
      is_Some (running.cancel_requested_at s') ∧ running.state s' = "cancelling" ∧
      running.kill_requested_at s' = running.kill_requested_at s
  | TimedOutExit =>
      is_Some (running.cancel_requested_at s') ∧ is_Some (running.kill_requested_at s') ∧
      running.state s' = "kill_requested"
  end.

Lemma cancelled_escalated s at_ e :
  escalated (CompletedAfterTimeout e) s (apply_signal_request Cancel at_ s).
Proof. cbn. by destruct (running.cancel_requested_at s). Qed.

(** Stopping escalates in order and leaves a trace: if waiting for a child ends, then in
    the running-state document (which the child leaves alone) nothing changed when the child
    ended within its time; a cancel request was recorded when it ended after the timeout; and
    a cancel and a kill request were recorded when it had to be killed; the document still
    names the same execution and process. *)
Theorem wait_for_child_escalates (child : Child) (timeout_ms cancel_grace_ms : Z) (p : string)
    (s : running.RunningExecutionState) (w w' : World) (exit : ExitClassification) :
  child_keeps p → doc p s w →
  wait_for_child child timeout_ms cancel_grace_ms p w = (Ok exit, w') →
  ∃ s', doc p s' w' ∧ same_execution s s' ∧ escalated exit s s'.
Proof.
  intros Hk Hs Hr. unfold wait_for_child in Hr.
  assert (Hstep : ∀ A (m : M World A) v r v' (x : running.RunningExecutionState), respects (keeps_file p) m → m v = (r, v') →
    doc p x v → doc p x v').
  { intros A m v r v' x Hm Hv. apply doc_keeps. by eapply respects_run. }
  apply bind_ok_inv in Hr as (st & w1 & E & Hr). apply (Hstep _ _ _ _ _ _ (keeps_try_wait _ Hk _) E) in Hs.
  destruct st; [injection Hr as <- <-; by exists s|].
  apply bind_ok_inv in Hr as (st & w2 & E2 & Hr). apply (Hstep _ _ _ _ _ _ (keeps_wait_timeout _ Hk _ _) E2) in Hs.
  destruct st; [injection Hr as <- <-; by exists s|].
  apply bind_ok_inv in Hr as (st & w3 & E3 & Hr). apply (Hstep _ _ _ _ _ _ (keeps_try_wait _ Hk _) E3) in Hs.
  destruct st; [injection Hr as <- <-; by exists s|].
  apply bind_ok_inv in Hr as (u & w4 & E4 & Hr). apply (record_signal_doc _ _ _ _ _ _ Hs) in E4.
  set (s4 := apply_signal_request Cancel _ s) in E4.
  assert (Hs4 : same_execution s s4) by apply signal_same_execution.
  apply bind_ok_inv in Hr as (pid & w5 & [= <- <-] & Hr).
  apply bind_ok_inv in Hr as (early & w6 & E6 & Hr).
  assert (Hw6 : doc p s4 w6).
  { eapply (Hstep _ _ _ _ _ _ _ E6 E4). Unshelve.
    destruct (child_id child w4); [|by apply respects_ret, _].
    apply respects_bind; [apply _|by apply respects_try, send_terminate_keeps|intros [|e]];
      [by apply respects_ret, _|].
    apply respects_bind; [apply _|apply (keeps_try_wait _ Hk)|intros []]; [by apply respects_ret, _|].
    case_decide; [by apply respects_throw, _|by apply respects_ret, _]. }
  destruct early as [st|]; [injection Hr as <- <-; exists s4; by split_and!; [| |apply cancelled_escalated]|].
  apply bind_ok_inv in Hr as (st & w7 & E7 & Hr). apply (Hstep _ _ _ _ _ _ (keeps_wait_timeout _ Hk _ _) E7) in Hw6.
  destruct st as [st|]; [injection Hr as <- <-; exists s4; by split_and!; [| |apply cancelled_escalated]|].
  apply bind_ok_inv in Hr as (u8 & w8 & E8 & Hr). apply (record_signal_doc _ _ _ _ _ _ Hw6) in E8.
  apply bind_ok_inv in Hr as (r & w9 & E9 & Hr).
  apply (Hstep _ _ _ _ _ _ (respects_try _ _ (keeps_start_kill _ Hk _)) E9) in E8.
  apply bind_ok_inv in Hr as (u10 & w10 & E10 & Hr).
  assert (E10' : doc p (apply_signal_request Kill (rfc3339 (clock w7)) s4) w10).
  { eapply (Hstep _ _ _ _ _ _ _ E10 E8). Unshelve.
    destruct r; [by apply respects_ret, _|].
    apply respects_bind; [apply _|apply (keeps_try_wait _ Hk)|intros st].
    destruct (_ && _); [by apply respects_throw, _|by apply respects_ret, _]. }
  apply bind_ok_inv in Hr as (st & w11 & E11 & [= <- <-]).
  apply (Hstep _ _ _ _ _ _ (keeps_wait _ Hk _) E11) in E10'.
  eexists. split; [exact E10'|]. split; [exact Hs4|].
  cbn. split; [|done]. by destruct (running.cancel_requested_at s).
Qed.
End ExecProperties.

(** * Witnesses *)

(** A child that has exited with the given status, or runs until it is killed. *)
#[export] Instance toy_child : ChildProcess := {|
  Child := option ExitStatus;
  command_spawn _ _ := mret (Some (Exited 0));
  child_stdout _ := Some [Ok "out"];
  child_stderr _ := Some [];
  child_id _ _ := Some 7%Z;
  child_try_wait c := mret c;
  child_wait c := mret (default (Signaled 9) c);
  child_wait_timeout _ c := mret c;
  child_start_kill _ := mret tt;
|}.

(** A child that runs until it is killed. *)
Definition toy_stuck : @Child toy_os toy_host toy_child := None.

Definition toy_exec : LocalExecRequest :=
  mk_exec _ "x" "/r" "/s" "/bin/exec" 10 100 100 "digest-act-x" "req-x" (toy_plan_of "x").

Lemma stream_capture_bounded_witness :
  let w := MkWorld toy_os {["/log" := ""]} ∅ 0 (∅ : gmap Z string) in
  files (join_capture (spawn_stream_capture (Ok <$> ["ab"; "cd"]) "/log" 3) "stdout" w).2 !! "/log"
    = Some ("abc" +:+ STREAM_TRUNCATED_MARKER) ∧
  files (join_capture (spawn_stream_capture (Ok <$> ["ab"; "cd"]) "/log" 2) "stdout" w).2 !! "/log"
    = Some "ab".
Proof.
  intros w.
  destruct (stream_capture_bounded "/log" 3 ["ab"; "cd"] w "" toy_fault_free) as [H3 _];
    [repeat constructor; discriminate|apply lookup_singleton_eq|].
  destruct (stream_capture_bounded "/log" 2 ["ab"; "cd"] w "" toy_fault_free) as [H2 _];
    [repeat constructor; discriminate|apply lookup_singleton_eq|].
  change 3%Z with (Z.of_nat 3). change 2%Z with (Z.of_nat 2). rewrite H3, H2.
  split; apply lookup_insert_eq.
Defined.

Definition toy_result_world (r : ActionResult) : World :=
  MkWorld toy_os {["/w/result.json" := to_json r +:+ nl]} ∅ 0 (∅ : gmap Z string).

Lemma success_needs_clean_exit_witness :
  let load exit := load_or_synthesize_result_async toy_exec "/w" "/w/result.json" exit
                     (toy_result_world ("act-x", "x", 0, None)) in
  (load (Completed (Exited 0))).1 = Ok ("act-x", "x", 0, None) ∧
  (load (CompletedAfterTimeout (Exited 0))).1 =
    Ok ("act-x", "x", 2, Some "agentd_total_timeout") ∧
  ∀ r w', load (CompletedAfterTimeout (Exited 0)) = (Ok r, w') → final_status r ≠ Succeeded.
Proof.
  intros load. split; [by vm_compute|]. split; [by vm_compute|].
  intros r w' Hr Hs.
  destruct (success_needs_clean_exit toy_exec "/w" (CompletedAfterTimeout (Exited 0)) _ w' r Hr)
    as (_ & Hclean & _).
  destruct (Hclean Hs) as [Heq _]. discriminate Heq.
Defined.

Lemma toy_child_keeps p : child_keeps p.
Proof. split; intros; by apply respects_ret, _. Qed.

Lemma wait_for_child_escalates_witness :
  let run := wait_for_child toy_stuck 1000 10 toy_running_path toy_running_world in
  run.1 = Ok TimedOutExit ∧
  ∃ s', doc toy_running_path s' run.2 ∧ is_Some (running.kill_requested_at s').
Proof.
  intros run. assert (Hr : run.1 = Ok TimedOutExit) by (by vm_compute).
  split; [exact Hr|].
  assert (Hd : doc toy_running_path toy_running toy_running_world).
  { exists (to_json toy_running +:+ nl). split; [apply lookup_singleton_eq|apply from_to_json]. }
  destruct (wait_for_child_escalates toy_stuck 1000 10 toy_running_path toy_running toy_running_world
              run.2 TimedOutExit (toy_child_keeps _) Hd) as (s' & Hs' & _ & _ & Hkill & _).
  - rewrite <-Hr. apply surjective_pairing.
  - exact (ex_intro _ s' (conj Hs' Hkill)).
Defined.
