(* ===== verification/Scheduler.v ===== *)
(** The local execution queue scheduler: src/src/runtime/scheduler.rs,
    scheduler_queue_head.rs and scheduler_reporting_support.rs.  A plan is submitted into the
    queue once; draining takes the head of the queue, reconciles it with what an earlier run
    left on disk, executes it if nothing is left, and removes it when a report exists. *)
From stdpp Require Import pretty.
From S2P Require Import Prelude Host Contracts Stores Toy Queue Process ExecSupport Reporting.
From S2P Require Import Quarantine LocalExec.

Record SchedulerRequest `{Contracts} := mk_submit {
  sq_run_dir : string;
  sq_state_dir : string;
  sq_plan : ActionPlan;
}.

Record SchedulerOutcome := mk_submitted {
  so_execution_id : string;
  so_plan_digest : string;
}.

Record DrainRequest := mk_drain {
  dr_run_dir : string;
  dr_state_dir : string;
  dr_exec_bin : string;
  dr_instance_id : string;
  dr_cancel_grace_ms : Z;
  dr_stdout_limit_bytes : Z;
  dr_stderr_limit_bytes : Z;
}.

Record DrainOutcome `{Contracts} := mk_drained {
  do_execution_id : string;
  do_plan_digest : string;
  do_report : ReportActionResult;
}.

Record QueueHeadContext `{Contracts} := mk_head {
  hd_workdir : string;
  hd_running_path : string;
  hd_plan : ActionPlan;
}.

Inductive QueueHeadDisposition `{Contracts} :=
  | Blocked
  | ReloadQueue
  | CompletedHead (outcome : DrainOutcome).

(** [next_execution_id]: the nanoseconds of the clock. *)
Definition next_execution_id `{Host} : M World string :=
  gets (λ w, "exec_" +:+ pretty (clock w * 1000000)%Z).

Definition risk_level_name (risk : RiskLevel) : string :=
  match risk with R0 => "R0" | R1 => "R1" | R2 => "R2" | R3 => "R3" end.

Definition workdir_for `{Contracts} (run_dir execution_id : string) : string :=
  path_join (path_join run_dir ACTIONS_DIR) execution_id.

(** * scheduler.rs: submission *)
Section Submit.
Context `{ContractConstructors} `{StoreCodecs} `{Host} {BE : Backend}.

Definition submitted_item (execution_id plan_digest now : string) (deadline_at : option string)
    (plan : ActionPlan) : execution_queue.ExecutionQueueItem :=
  execution_queue.with_risk_level (Some (risk_level_name (plan_risk_level plan)))
    (execution_queue.with_deadline_at deadline_at
      (execution_queue.builder execution_id (plan_action_id plan) plan_digest
         (plan_request_id plan) now)).

(** The part of [submit_local_plan] after the duplicate search, with its rollback. *)
Definition submit_new (run_dir state_dir : string) (plan : ActionPlan)
    (execution_id plan_digest deadline : string) : M World SchedulerOutcome :=
  let workdir := workdir_for run_dir execution_id in
  fs_create_dir_all workdir;;
  be_write_json (path_join workdir WORKDIR_PLAN_FILE) plan;;
  let queue_path := execution_queue.path_for state_dir in
  queue_write ← try
    (queue ← execution_queue.load_or_default queue_path;
     queued_at ← now_rfc3339;
     updated_at ← now_rfc3339;
     execution_queue.store queue_path
       (execution_queue.enqueue updated_at
          (submitted_item execution_id plan_digest queued_at (Some deadline) plan) queue));
  match queue_write with
  | Err err =>
      _ ← try (fs_remove_dir_all workdir);
      throw err
  | Ok _ => mret (mk_submitted execution_id plan_digest)
  end.

Definition submit_local_plan (request : SchedulerRequest) : M World SchedulerOutcome :=
  let plan := sq_plan request in
  execution_id ← next_execution_id;
  plan_digest ← of_result (digest_plan plan);
  deadline ← after_millis_rfc3339 (plan_max_total_duration_ms plan);
  duplicate ← find_duplicate_execution (sq_state_dir request) (plan_action_id plan) plan_digest;
  match duplicate with
  | Some existing_execution_id =>
      throw (MkIoError AlreadyExists
        ("duplicate action plan already tracked locally: action_id=" +:+ plan_action_id plan
         +:+ " plan_digest=" +:+ plan_digest +:+ " execution_id=" +:+ existing_execution_id))
  | None =>
      submit_new (sq_run_dir request) (sq_state_dir request) plan execution_id plan_digest deadline
  end.
End Submit.

(** * scheduler_reporting_support.rs *)
Section ReportingSupport.
Context `{ContractConstructors} `{StoreCodecs} `{Host} `{!ChildProcess}.

Definition read_queued_plan_async (workdir : string) : M World ActionPlan :=
  read_json_async (path_join workdir WORKDIR_PLAN_FILE).

Definition drain_outcome (item : execution_queue.ExecutionQueueItem) (report : ReportActionResult)
    : DrainOutcome :=
  mk_drained _ (execution_queue.execution_id item) (execution_queue.plan_digest item) report.

(** The request every report of a queued item is made with. *)
Definition item_report_request (request : DrainRequest)
    (item : execution_queue.ExecutionQueueItem) (plan : ActionPlan) (result_path : string)
    (result : ActionResult) : ReportingRequest :=
  mk_request _ (dr_state_dir request) (execution_queue.execution_id item)
    (execution_queue.action_id item) (execution_queue.request_id item)
    (execution_queue.plan_digest item) (plan_agent_id plan) (dr_instance_id request)
    (final_state_name result) result_path result.

Definition prepare_queue_head_report_async (request : DrainRequest)
    (item : execution_queue.ExecutionQueueItem) (plan : ActionPlan)
    (local_result : LocalExecOutcome) : M World PreparedReport :=
  prepare_local_report_async
    (item_report_request request item plan
       (path_join (out_workdir local_result) WORKDIR_RESULT_FILE) (out_result local_result)).

Definition recover_stale_execution_async (request : DrainRequest)
    (item : execution_queue.ExecutionQueueItem) (head : QueueHeadContext)
    (running_state : running.RunningExecutionState) : M World DrainOutcome :=
  let result_path := path_join (hd_workdir head) WORKDIR_RESULT_FILE in
  recovered ← synthesize_recovery_result running_state;
  write_json_atomic_async result_path recovered;;
  prepared ← ensure_local_report_async
    (item_report_request request item (hd_plan head) result_path recovered);
  mret (drain_outcome item (pr_envelope prepared)).

Definition reconcile_completed_execution_async (request : DrainRequest)
    (item : execution_queue.ExecutionQueueItem) (plan : ActionPlan) (workdir : string)
    : M World (option DrainOutcome) :=
  let result_path := path_join workdir WORKDIR_RESULT_FILE in
  complete ← load_complete_local_report_async (dr_state_dir request)
    (execution_queue.execution_id item);
  match complete with
  | Some prepared => mret (Some (drain_outcome item (pr_envelope prepared)))
  | None =>
      r ← try (fs_metadata result_path);
      match r with
      | Err err => if decide (io_kind err = NotFound) then mret None else throw err
      | Ok _ =>
          result ← read_json_async result_path;
          prepared ← ensure_local_report_async
            (item_report_request request item plan result_path result);
          mret (Some (drain_outcome item (pr_envelope prepared)))
      end
  end.
End ReportingSupport.

(** * scheduler_queue_head.rs *)
Section QueueHead.
Context `{ContractConstructors} `{StoreCodecs} `{Host} `{!ChildProcess}.

Definition quarantine_queue_head_async (request : DrainRequest)
    (item : execution_queue.ExecutionQueueItem) (running_path reason : string) : M World unit :=
  quarantine_execution_async (queued_item (dr_state_dir request) item reason (Some running_path)).

Definition load_queue_head_context_async (request : DrainRequest)
    (item : execution_queue.ExecutionQueueItem) : M World (option QueueHeadContext) :=
  let workdir := workdir_for (dr_run_dir request) (execution_queue.execution_id item) in
  let running_path := running.path_for (dr_state_dir request) (execution_queue.execution_id item) in
  plan ← try (read_queued_plan_async workdir);
  match plan with
  | Ok plan => mret (Some (mk_head _ workdir running_path plan))
  | Err err =>
      quarantine_queue_head_async request item running_path
        ("queued execution plan unavailable: " +:+ display_runtime_error err);;
      mret None
  end.

Definition reconcile_queue_head_async (request : DrainRequest)
    (item : execution_queue.ExecutionQueueItem) (head : QueueHeadContext)
    : M World (option QueueHeadDisposition) :=
  r ← try (fs_metadata (hd_running_path head));
  match r with
  | Err err =>
      if decide (io_kind err = NotFound) then
        done ← reconcile_completed_execution_async request item (hd_plan head) (hd_workdir head);
        mret (CompletedHead <$> done)
      else throw err
  | Ok _ =>
      loaded ← try (running.load_async (hd_running_path head));
      match loaded with
      | Err err =>
          quarantine_queue_head_async request item (hd_running_path head)
            ("queued execution state unavailable: " +:+ io_msg err);;
          mret (Some ReloadQueue)
      | Ok state =>
          status ← inspect_running_state state;
          expired ←
            (match status with
             | Active => mret (true, state)
             | Expired => handle_expired_running_state_async state (hd_running_path head)
             | Inactive => mret (false, state)
             end);
          let '(blocked, state) := expired in
          if blocked : bool then mret (Some Blocked)
          else
            outcome ← reconcile_completed_execution_async request item (hd_plan head)
              (hd_workdir head);
            match outcome with
            | Some outcome =>
                running.remove_async (hd_running_path head);;
                mret (Some (CompletedHead outcome))
            | None =>
                recovered ← recover_stale_execution_async request item head state;
                running.remove_async (hd_running_path head);;
                mret (Some (CompletedHead recovered))
            end
      end
  end.

Definition local_exec_request (request : DrainRequest)
    (item : execution_queue.ExecutionQueueItem) (head : QueueHeadContext) : LocalExecRequest :=
  mk_exec _ (execution_queue.execution_id item) (dr_run_dir request) (dr_state_dir request)
    (dr_exec_bin request) (dr_cancel_grace_ms request) (dr_stdout_limit_bytes request)
    (dr_stderr_limit_bytes request) (execution_queue.plan_digest item)
    (execution_queue.request_id item) (hd_plan head).

Definition execute_queue_head_async (request : DrainRequest)
    (item : execution_queue.ExecutionQueueItem) (head : QueueHeadContext)
    : M World QueueHeadDisposition :=
  local ← try (execute_async (local_exec_request request item head));
  match local with
  | Err err =>
      quarantine_queue_head_async request item (hd_running_path head)
        ("local execution failed: " +:+ io_msg err);;
      mret ReloadQueue
  | Ok local_result =>
      prepared ← try (prepare_queue_head_report_async request item (hd_plan head) local_result);
      match prepared with
      | Err err =>
          quarantine_queue_head_async request item (hd_running_path head)
            ("local execution report preparation failed: " +:+ display_runtime_error err);;
          mret ReloadQueue
      | Ok prepared =>
          running.remove_async (hd_running_path head);;
          mret (CompletedHead (drain_outcome item (pr_envelope prepared)))
      end
  end.

Definition handle_queue_head_async (request : DrainRequest)
    (item : execution_queue.ExecutionQueueItem) : M World QueueHeadDisposition :=
  head ← load_queue_head_context_async request item;
  match head with
  | None => mret ReloadQueue
  | Some head =>
      disposition ← reconcile_queue_head_async request item head;
      match disposition with
      | Some disposition => mret disposition
      | None => execute_queue_head_async request item head
      end
  end.

(** * scheduler.rs: draining *)

(** The loop of [drain_next_with_report_async]; the outer [None] is the fuel running out. *)
Fixpoint drain_loop (fuel : nat) (request : DrainRequest)
    (queue : execution_queue.ExecutionQueueState) : M World (option (option DrainOutcome)) :=
  match fuel with
  | 0 => mret None
  | S fuel =>
      let queue_path := execution_queue.path_for (dr_state_dir request) in
      match execution_queue.items queue with
      | [] => mret (Some None)
      | item :: _ =>
          disposition ← handle_queue_head_async request item;
          match disposition with
          | Blocked => mret (Some None)
          | ReloadQueue =>
              queue ← execution_queue.load_or_default_async queue_path;
              drain_loop fuel request queue
          | CompletedHead outcome =>
              now ← now_rfc3339;
              execution_queue.store_async queue_path
                (execution_queue.remove now (execution_queue.execution_id item) queue);;
              mret (Some (Some outcome))
          end
      end
  end.

(** Each reload has removed the head: one round per queued item, and one that finds the queue
    empty. *)
Definition drain_fuel (queue : execution_queue.ExecutionQueueState) : nat :=
  S (length (execution_queue.items queue)).

Definition drain_next_with_report_async (request : DrainRequest) : M World (option DrainOutcome) :=
  queue ← execution_queue.load_or_default_async (execution_queue.path_for (dr_state_dir request));
  r ← drain_loop (drain_fuel queue) request queue;
  match r with Some o => mret o | None => throw (io_other "out of fuel") end.

Definition drain_next_async (request : DrainRequest) : M World bool :=
  o ← drain_next_with_report_async request;
  mret (is_some o).

(** The blocking entry points run the asynchronous ones to completion. *)
Definition drain_next (request : DrainRequest) : M World bool := drain_next_async request.
Definition drain_next_with_report (request : DrainRequest) : M World (option DrainOutcome) :=
  drain_next_with_report_async request.
End QueueHead.

(** * The queue as a list *)
Section QueueList.
Context `{ContractsLaws} `{StoreCodecs} `{Host} `{!ChildProcess}.
Implicit Types (sd id : string) (w : World) (l : list execution_queue.ExecutionQueueItem).

(** The queue file holds the items [l]; a missing file is an empty queue. *)
Definition queue_is sd w l : Prop :=
  match files w !! execution_queue.path_for sd with
  | None => l = []
  | Some text => ∃ q, from_json text = Ok q ∧ execution_queue.items q = l
  end.

Definition without id l := filter (λ i, execution_queue.execution_id i ≠ id) l.

Lemma queue_is_in sd w l item : queue_is sd w l → in_queue sd w item ↔ item ∈ l.
Proof.
  unfold queue_is, in_queue, doc. destruct (files w !! _) as [text|].
  - intros (q & Hq & <-). split; [intros (q' & (t & [= <-] & Hq') & Hi)|intros Hi].
    + by assert (q' = q) as -> by congruence.
    + exists q. eauto.
  - intros ->. split; [by intros (q & (t & ? & _) & _)|set_solver].
Qed.

Lemma queue_is_same sd w w' l :
  files w' !! execution_queue.path_for sd = files w !! execution_queue.path_for sd →
  queue_is sd w l → queue_is sd w' l.
Proof. unfold queue_is. by intros ->. Qed.

Lemma queue_is_wrote sd w q :
  queue_is sd (wrote (execution_queue.path_for sd) (to_json q +:+ nl) w) (execution_queue.items q).
Proof. unfold queue_is. rewrite wrote_lookup. exists q. split; [apply from_to_json|done]. Qed.

Lemma load_async_ok sd w q w' :
  execution_queue.load_or_default_async (execution_queue.path_for sd) w = (Ok q, w') →
  w' = w ∧ queue_is sd w (execution_queue.items q).
Proof.
  unfold execution_queue.load_or_default_async, execution_queue.load_or_default, queue_is.
  intros Hr. apply bind_ok_inv in Hr as ([] & w1 & Ep & Hr).
  - apply (be_probe_run (BE := nonblocking)) in Ep as ->.
    apply (be_read_ok (BE := nonblocking)) in Hr as [-> (text & Ht & Hj)]. rewrite Ht. eauto.
  - assert (w1 = w) as -> by by apply (be_probe_run (BE := nonblocking)) in Ep.
    injection Hr as <- <-. split; [done|]. cbn in Ep. unfold probe_metadata, try, mbind, M_bind in Ep.
    destruct (fs_metadata _ w) as [[[]|e] w1] eqn:E; [done|]. apply fs_metadata_err in E as [_ Hk].
    case_decide as Hd; [|done]. apply Hk in Hd as [Hno%fs_exists_false _]. by rewrite Hno.
Qed.

Lemma without_all id l : length (without id l) = length l → without id l = l.
Proof.
  unfold without. induction l as [|i l IH]; [done|]. rewrite filter_cons.
  case_decide; cbn; intros Hlen.
  - f_equal. apply IH. lia.
  - pose proof (length_filter (λ i, execution_queue.execution_id i ≠ id) l). lia.
Qed.

Lemma remove_queued_list sd id w w' l :
  remove_queued_execution_async sd id w = (Ok tt, w') → queue_is sd w l →
  queue_is sd w' (without id l).
Proof.
  unfold remove_queued_execution_async, remove_queued_execution. intros Hr Hl.
  apply bind_ok_inv in Hr as (ex & w1 & Ep & Hr).
  assert (w1 = w) as -> by by apply (be_probe_run (BE := nonblocking)) in Ep.
  destruct ex; cbn [negb] in Hr.
  - apply bind_ok_inv in Hr as (q & w1 & Hq & Hr).
    apply load_async_ok in Hq as [-> Hq].
    assert (execution_queue.items q = l) as Hql.
    { revert Hl Hq. unfold queue_is. destruct (files w !! _).
      - intros (q1 & Hj1 & <-) (q2 & Hj2 & <-). congruence.
      - congruence. }
    apply bind_ok_inv in Hr as (now & w1 & [= <- <-] & Hr). cbn [execution_queue.items execution_queue.remove] in Hr.
    fold (without id (execution_queue.items q)) in Hr. rewrite Hql in Hr.
    destruct (Nat.eqb_spec (length (without id l)) (length l)) as [Heq|].
    + injection Hr as <-. by rewrite without_all.
    + apply (be_write_ok (BE := nonblocking)) in Hr as ->. rewrite <-Hql.
      apply (queue_is_wrote sd w (execution_queue.remove _ id q)).
  - injection Hr as <-. revert Hl. unfold queue_is.
    cbn in Ep. unfold probe_metadata, try, mbind, M_bind in Ep.
    destruct (fs_metadata _ w) as [[[]|e] w1] eqn:E; [done|]. apply fs_metadata_err in E as [_ Hk].
    case_decide as Hd; [|done]. apply Hk in Hd as [Hno%fs_exists_false _]. rewrite Hno. by intros ->.
Qed.

(** A successful quarantine takes exactly its execution out of the queue. *)
Lemma quarantine_queue request w w' l :
  let sd := qr_state_dir request in
  qr_remove_from_queue request = true →
  (∀ p, qr_running_path request = Some p → under sd "running" p) →
  quarantine_execution_async request w = (Ok tt, w') → queue_is sd w l →
  queue_is sd w' (without (qr_execution_id request) l).
Proof.
  intros sd Hrm Hrun Hr Hl. apply (quarantine_steps (BE := nonblocking)) in Hr as [[? _]|(r1 & w1 & E1 & Hr)]; [done|].
  apply remove_artifacts_frame in E1 as (Hf1 & _).
  destruct Hr as [[? _]|(rec & r2 & w2 & Hid & Hst & E2 & Hr)]; [done|].
  apply (history_store_frame _ _ _ _ _ _ Hid Hst) in E2 as (Hf2 & _).
  destruct Hr as [[? _]|[-> Hr]]; [done|]. rewrite Hrm in Hr. cbn [when] in Hr.
  apply bind_ok_inv in Hr as ([] & w3 & Hq & Hr).
  assert (Hl2 : queue_is sd w2 l).
  { eapply queue_is_same; [|exact Hl]. rewrite Hf2, Hf1; [done| |].
    - intros Hu%report_files_under. by apply queue_not_under in Hu.
    - intros Hu%history_store_under. by apply queue_not_under in Hu. }
  eapply queue_is_same; [|by eapply remove_queued_list].
  destruct (qr_running_path request) as [p|]; [|by injection Hr as <-].
  pose proof (respects_run _ _ _ _ _ (@be_remove_frame _ _ nonblocking _ (λ q, q = p) p eq_refl) Hr) as [Hk _].
  apply Hk. intros Heq. pose proof (Hrun p eq_refl) as Hu. rewrite <-Heq in Hu. by apply queue_not_under in Hu.
Qed.
End QueueList.

(** * What handling the head touches *)
Section HeadFrames.
Context `{ContractsLaws} `{StoreCodecs} `{Host} `{!ChildProcess} `{!OsLaws}.
Implicit Types (sd id : string) (w : World).

(** A file of an execution: its working directory, its running document or its report. *)
Definition own_file (rd sd : string) (q : string) : Prop :=
  (∃ t, q = path_join (path_join rd ACTIONS_DIR) t) ∨ under sd "running" q ∨ under sd "reporting" q.

(** The run directory and the state directory are apart. *)
Definition separate (rd sd : string) : Prop :=
  ∀ t u, path_join (path_join rd ACTIONS_DIR) t ≠ path_join sd u.

(** The executor process works in the run directory. *)
Record child_confined (rd sd : string) : Prop := {
  confined_spawn : ∀ b a, respects (files_within (own_file rd sd)) (command_spawn b a);
  confined_try_wait : ∀ c, respects (files_within (own_file rd sd)) (child_try_wait c);
  confined_wait : ∀ c, respects (files_within (own_file rd sd)) (child_wait c);
  confined_wait_timeout : ∀ ms c, respects (files_within (own_file rd sd)) (child_wait_timeout ms c);
  confined_start_kill : ∀ c, respects (files_within (own_file rd sd)) (child_start_kill c);
}.

Context (rd sd : string) (Hsep : separate rd sd) (Hchild : child_confined rd sd).

Lemma own_workdir d n q :
  (∃ t, d = path_join (path_join rd ACTIONS_DIR) t) → store_paths (path_join d n) q → own_file rd sd q.
Proof.
  intros [t ->] [->| ->]; left; [by rewrite join_join; eexists|].
  destruct (with_extension_under (path_join (path_join rd ACTIONS_DIR) t) n "tmp") as [u ->].
  rewrite join_join. by eexists.
Qed.

Lemma own_running id q : store_paths (running.path_for sd id) q → own_file rd sd q.
Proof. intros Hq. right. left. by eapply store_paths_under. Qed.

Lemma own_report id q : report_files sd id q → own_file rd sd q.
Proof. intros Hq. right. right. by eapply report_files_under. Qed.

Lemma within_only {A} (F : string → Prop) (m : M World A) :
  (∀ q, F q → own_file rd sd q) → respects (only_files F) m → respects (files_within (own_file rd sd)) m.
Proof.
  intros HF. apply respects_mono. intros w w' Ho%only_files_within q Hq. apply Ho. auto.
Qed.

Lemma within_mono {A} (F : string → Prop) (m : M World A) :
  (∀ q, F q → own_file rd sd q) → respects (files_within F) m → respects (files_within (own_file rd sd)) m.
Proof. intros HF. apply respects_mono. intros w w' Ho q Hq. apply Ho. auto. Qed.

Lemma own_not_queue : ¬ own_file rd sd (execution_queue.path_for sd).
Proof.
  intros [[t Heq]|[Hu|Hu]]; [by apply (Hsep t EXECUTION_QUEUE_FILE)|by apply queue_not_under in Hu..].
Qed.

Lemma own_not_history id : ¬ own_file rd sd (history.path_for sd id).
Proof.
  intros [[t Heq]|[Hu|Hu]].
  - eapply (Hsep t). rewrite <-Heq. unfold history.path_for, history.history_dir. apply join_join.
  - by eapply (under_disjoint _ _ _ _ Hu (history_path_under sd id)); intros ??.
  - by eapply (under_disjoint _ _ _ _ Hu (history_path_under sd id)); intros ??.
Qed.

Lemma within_conserves w w' : files_within (own_file rd sd) w w' → conserves sd w w'.
Proof.
  intros Hw. split.
  - intros item Hi. left. eapply in_queue_keep; [|done]. apply Hw, own_not_queue.
  - intros id. apply recorded_keep, Hw, own_not_history.
Qed.

Lemma within_queue_is w w' l : files_within (own_file rd sd) w w' → queue_is sd w l → queue_is sd w' l.
Proof. intros Hw. apply queue_is_same, Hw, own_not_queue. Qed.

Lemma ro_within {A} (m : M World A) : respects eq m → respects (files_within (own_file rd sd)) m.
Proof. by apply respects_eq_any; apply _. Qed.

Lemma capture_within output limit reads written tr :
  own_file rd sd output → respects (files_within (own_file rd sd)) (capture_loop output limit reads written tr).
Proof.
  intros Ho. assert (Happ : ∀ s, respects (files_within (own_file rd sd)) (fs_append output s)).
  { intros s. eapply (within_only (λ q, q = output)); [by intros ? ->|].
    apply respects_bind; [apply _|by apply guard_fault_respects, _|intros _].
    apply modify_files_respects. intros w q Hq. by rewrite lookup_insert_ne. }
  revert written tr. induction reads as [|[buf|e] reads IH]; intros written tr; cbn [capture_loop].
  - by apply respects_ret, _.
  - cbn zeta. case_match; [by apply respects_ret, _|]. case_match; [|done].
    apply respects_bind; [apply _|apply respects_when; [apply _|done]|intros _].
    apply respects_bind; [apply _|apply respects_when; [apply _|done]|intros _]. apply IH.
  - by apply respects_throw, _.
Qed.

Lemma join_within h name : (∃ reads output limit, own_file rd sd output ∧
    h = spawn_stream_capture reads output limit) → respects (files_within (own_file rd sd)) (join_capture h name).
Proof.
  intros (reads & output & limit & Ho & ->).
  apply respects_bind; [apply _| |intros []; [by apply respects_of_result, _|by apply respects_throw, _]].
  apply respects_bind; [apply _| |intros; by apply respects_ret, _].
  apply respects_try. apply respects_bind; [apply _|by apply capture_within|intros _].
  by apply guard_fault_respects, _.
Qed.

Lemma write_within `{Json A} p (a : A) :
  (∀ q, store_paths p q → own_file rd sd q) → respects (files_within (own_file rd sd)) (write_json_atomic_async p a).
Proof. intros HF. by eapply (within_only (store_paths p)), write_json_respects. Qed.

Lemma signal_within id kind :
  respects (files_within (own_file rd sd)) (record_signal_request_async (running.path_for sd id) kind).
Proof.
  eapply (within_only (store_paths (running.path_for sd id))); [apply own_running|].
  by apply record_signal_request_within.
Qed.

Lemma terminate_within c : respects (files_within (own_file rd sd)) (terminate_child c).
Proof.
  apply respects_bind; [apply _|apply (confined_try_wait _ _ Hchild)|intros []]; [by apply respects_ret, _|].
  apply respects_bind; [apply _|apply respects_try, (confined_start_kill _ _ Hchild)|intros r].
  apply respects_bind; [apply _| |intros _].
  { destruct r; [by apply respects_ret, _|]. case_decide; [by apply respects_ret, _|by apply respects_throw, _]. }
  apply respects_bind; [apply _|apply (confined_wait _ _ Hchild)|intros _]. by apply respects_ret, _.
Qed.

Lemma send_terminate_within pid : respects (files_within (own_file rd sd)) (send_terminate pid).
Proof.
  unfold send_terminate, send_signal. apply respects_bind; [apply _| |].
  - destruct (Z.eqb pid 0); [by apply respects_ret, _|]. apply respects_act. intros w.
    by destruct (os_kill _ _ _).
  - intros []; [by apply respects_throw, _|by apply respects_ret, _].
Qed.

Lemma wait_for_child_within c t g id :
  respects (files_within (own_file rd sd)) (wait_for_child c t g (running.path_for sd id)).
Proof.
  unfold wait_for_child.
  apply respects_bind; [apply _|apply (confined_try_wait _ _ Hchild)|intros []]; [by apply respects_ret, _|].
  apply respects_bind; [apply _|apply (confined_wait_timeout _ _ Hchild)|intros []]; [by apply respects_ret, _|].
  apply respects_bind; [apply _|apply (confined_try_wait _ _ Hchild)|intros []]; [by apply respects_ret, _|].
  apply respects_bind; [apply _|apply signal_within|intros _].
  apply respects_bind; [apply _|by apply respects_gets, _|intros pid].
  apply respects_bind; [apply _| |intros []; [by apply respects_ret, _|]].
  { destruct pid; [|by apply respects_ret, _].
    apply respects_bind; [apply _|by apply respects_try, send_terminate_within|intros []]; [by apply respects_ret, _|].
    apply respects_bind; [apply _|apply (confined_try_wait _ _ Hchild)|intros []]; [by apply respects_ret, _|].
    case_decide; [by apply respects_throw, _|by apply respects_ret, _]. }
  apply respects_bind; [apply _|apply (confined_wait_timeout _ _ Hchild)|intros []]; [by apply respects_ret, _|].
  apply respects_bind; [apply _|apply signal_within|intros _].
  apply respects_bind; [apply _|apply respects_try, (confined_start_kill _ _ Hchild)|intros r].
  apply respects_bind; [apply _| |intros _].
  { destruct r; [by apply respects_ret, _|].
    apply respects_bind; [apply _|apply (confined_try_wait _ _ Hchild)|intros st].
    destruct (_ && _); [by apply respects_throw, _|by apply respects_ret, _]. }
  apply respects_bind; [apply _|apply (confined_wait _ _ Hchild)|intros _]. by apply respects_ret, _.
Qed.

Lemma synthesize_within request fs code st :
  respects (files_within (own_file rd sd)) (synthesize_result request fs code st).
Proof. apply respects_bind; [apply _|by apply respects_gets, _|intros]. by apply respects_ret, _. Qed.

Lemma write_state_within d x a st rc detail : (∃ t, d = path_join (path_join rd ACTIONS_DIR) t) →
  respects (files_within (own_file rd sd)) (write_exec_state_async d x a st rc detail).
Proof.
  intros Hd. apply respects_bind; [apply _|by apply respects_gets, _|intros now].
  apply write_within. intros q. by apply own_workdir.
Qed.

Lemma write_timed_out_within request d n : (∃ t, d = path_join (path_join rd ACTIONS_DIR) t) →
  respects (files_within (own_file rd sd)) (write_timed_out_result_async request d (path_join d n)).
Proof.
  intros Hd. apply respects_bind; [apply _|apply synthesize_within|intros r].
  apply respects_bind; [apply _|apply write_within; intros q; by apply own_workdir|intros _].
  apply respects_bind; [apply _|by apply write_state_within|intros _]. by apply respects_ret, _.
Qed.

Lemma load_result_within request d n exit : (∃ t, d = path_join (path_join rd ACTIONS_DIR) t) →
  respects (files_within (own_file rd sd))
    (load_or_synthesize_result_async request d (path_join d n) exit).
Proof.
  intros Hd. apply respects_bind; [apply _|by apply respects_try, fs_metadata_respects, _|intros r].
  apply respects_bind; [apply _| |intros ex].
  { destruct r; [by apply respects_ret, _|]. case_decide; [by apply respects_ret, _|by apply respects_throw, _]. }
  destruct exit, ex; cbn beta iota; [| | |by apply write_timed_out_within..].
  - apply respects_bind; [apply _|by apply read_json_respects, _|intros res].
    destruct (_ && _); [by apply respects_throw, _|by apply respects_ret, _].
  - apply respects_bind; [apply _|apply synthesize_within|intros res].
    apply respects_bind; [apply _|apply write_within; intros q; by apply own_workdir|intros _].
    apply respects_bind; [apply _|by apply write_state_within|intros _]. by apply respects_ret, _.
  - apply respects_bind; [apply _|by apply read_json_respects, _|intros res].
    case_bool_decide; [by apply write_timed_out_within|by apply respects_ret, _].
Qed.

Lemma mkdir_within d : respects (files_within (own_file rd sd)) (fs_create_dir_all d).
Proof. by eapply (within_only (λ _, False)), fs_create_dir_all_respects. Qed.

Lemma create_within p : own_file rd sd p → respects (files_within (own_file rd sd)) (fs_create p).
Proof.
  intros Hp. eapply (within_only (λ q, q = p)); [by intros ? ->|].
  apply respects_bind; [apply _|by apply guard_fault_respects, _|intros _].
  apply modify_files_respects. intros w q Hq. by rewrite lookup_insert_ne.
Qed.

Lemma or_throw_within {A} (o : option A) msg :
  respects (files_within (own_file rd sd)) (option_or_throw o msg).
Proof. destruct o; [by apply respects_ret, _|by apply respects_throw, _]. Qed.

(** Executing touches only the execution's own files. *)
Lemma execute_within request : ex_run_dir request = rd → ex_state_dir request = sd →
  respects (files_within (own_file rd sd)) (execute_async request).
Proof.
  intros Hrd Hsd. unfold execute_async. rewrite Hrd, Hsd. cbn zeta.
  set (d := path_join (path_join rd ACTIONS_DIR) (ex_execution_id request)).
  assert (Hd : ∃ t, d = path_join (path_join rd ACTIONS_DIR) t) by by eexists.
  assert (Hwd : ∀ n q, store_paths (path_join d n) q → own_file rd sd q) by (intros n q; by apply own_workdir).
  assert (Hlog : ∀ n, own_file rd sd (path_join d n)) by (intros n; apply (Hwd n); by left).
  apply respects_bind; [apply _|apply mkdir_within|intros _].
  apply respects_bind; [apply _|by apply respects_gets, _|intros sp].
  apply respects_bind; [apply _|by apply respects_gets, _|intros dl].
  apply respects_bind; [apply _|by apply write_within, Hwd|intros _].
  apply respects_bind; [apply _|by apply write_within, Hwd|intros _].
  apply respects_bind; [apply _|by apply create_within|intros _].
  apply respects_bind; [apply _|by apply create_within|intros _].
  apply respects_bind; [apply _|apply (confined_spawn _ _ Hchild)|intros child].
  apply respects_bind; [apply _|apply or_throw_within|intros out].
  apply respects_bind; [apply _|apply or_throw_within|intros err].
  apply respects_bind; [apply _|by apply respects_gets, _|intros id].
  apply respects_bind; [apply _|apply or_throw_within|intros pid].
  apply respects_bind; [apply _|by apply respects_gets, _|intros st].
  apply respects_bind; [apply _|apply ro_within, process_identity_ro|intros ident].
  assert (Hout : ∀ n l lim m, respects (files_within (own_file rd sd))
    (join_capture (spawn_stream_capture l (path_join d n) lim) m)).
  { intros n l lim m. apply join_within. eexists l, (path_join d n), lim. done. }
  apply respects_bind; [apply _|apply respects_try, write_within, own_running|intros [_|e]].
  - apply respects_bind; [apply _|apply wait_for_child_within|intros exit].
    apply respects_bind; [apply _|done|intros _]. apply respects_bind; [apply _|done|intros _].
    apply respects_bind; [apply _|by apply load_result_within|intros res].
    apply respects_bind; [apply _|by apply respects_try, read_json_respects, _|intros re].
    apply respects_bind; [apply _|by apply respects_gets, _|intros now].
    apply respects_bind; [apply _|apply write_within, own_running|intros _]. by apply respects_ret, _.
  - apply respects_bind; [apply _|apply terminate_within|intros _].
    apply respects_bind; [apply _|done|intros _]. apply respects_bind; [apply _|done|intros _].
    by apply respects_throw, _.
Qed.

(** * The outcome of handling the head *)

(** The execution's report is complete on disk. *)
Definition reported id w : Prop :=
  ∃ (s : reporting.ReportingState) (e : ReportActionResult),
    doc (reporting.path_for sd id) s w ∧ doc (envelope_path_for sd id) e w.

Lemma reported_keep id w w' :
  files w' !! reporting.path_for sd id = files w !! reporting.path_for sd id →
  files w' !! envelope_path_for sd id = files w !! envelope_path_for sd id →
  reported id w → reported id w'.
Proof. intros Hs He (s & e & ? & ?). exists s, e. by split; eapply doc_keep. Qed.

Lemma remove_running_run id w r w' :
  running.remove_async (running.path_for sd id) w = (r, w') →
  files_within (own_file rd sd) w w' ∧ (reported id w → reported id w').
Proof.
  intros Hr.
  pose proof (respects_run _ _ _ _ _ (@be_remove_frame _ _ nonblocking _ (λ q, q = running.path_for sd id)
    (running.path_for sd id) eq_refl) Hr) as [Hf _].
  split.
  - intros q Hq. apply Hf. intros ->. apply Hq, (own_running id). by left.
  - apply reported_keep; apply Hf; intros Heq.
    + by apply (running_ne_reporting sd id id).
    + eapply (under_disjoint sd "running" "reporting" (running.path_for sd id)).
      * by eexists.
      * rewrite <-Heq. by eexists.
      * by intros ??.
Qed.

Lemma running_under id : under sd "running" (running.path_for sd id).
Proof. by eexists. Qed.

(** What handling the head [item] may do, by its answer. *)
Definition head_result (item : execution_queue.ExecutionQueueItem) (w : World)
    (r : result QueueHeadDisposition) (w' : World) : Prop :=
  conserves sd w w' ∧
  match r with
  | Ok ReloadQueue => ∀ l, queue_is sd w l →
      queue_is sd w' (without (execution_queue.execution_id item) l)
  | Ok (CompletedHead o) =>
      files_within (own_file rd sd) w w' ∧
      do_execution_id o = execution_queue.execution_id item ∧
      reported (execution_queue.execution_id item) w'
  | Ok Blocked => files_within (own_file rd sd) w w'
  | Err _ => True
  end.

Lemma head_result_err item w e w' : conserves sd w w' → head_result item w (Err e) w'.
Proof. done. Qed.

Lemma head_result_before item w w1 r w' : files_within (own_file rd sd) w w1 →
  head_result item w1 r w' → head_result item w r w'.
Proof.
  intros Hw [Hc Hr]. split; [etrans; [by apply within_conserves|done]|].
  destruct r as [[| |o]|]; [by etrans| | |done].
  - intros l Hl. by apply Hr, (within_queue_is w).
  - destruct Hr as (? & ? & ?). split_and!; [by etrans|done..].
Qed.

Context (request : DrainRequest) (Hrd : dr_run_dir request = rd) (Hsd : dr_state_dir request = sd).

(** A quarantine of the head ends the round, with any disposition mapping it to [ReloadQueue]. *)
Lemma quarantine_head_run {A} item reason w (k : A) r w' :
  (quarantine_queue_head_async request item
     (running.path_for sd (execution_queue.execution_id item)) reason;; mret k) w = (r, w') →
  conserves sd w w' ∧
  (is_ok r = true → r = Ok k ∧ ∀ l, queue_is sd w l →
     queue_is sd w' (without (execution_queue.execution_id item) l)).
Proof.
  intros Hr. set (rq := queued_item (dr_state_dir request) item reason
    (Some (running.path_for sd (execution_queue.execution_id item)))).
  assert (Hun : ∀ p, qr_running_path rq = Some p → under (qr_state_dir rq) "running" p).
  { intros p [= <-]. cbn. rewrite Hsd. apply running_under. }
  pose proof (quarantine_conserves (BE := nonblocking) rq Hun) as Hc.
  change (qr_state_dir rq) with (dr_state_dir request) in Hc. rewrite Hsd in Hc.
  apply bind_inv in Hr as [(e & E & ->)|([] & w1 & E & [= <- <-])].
  - split; [exact (respects_run _ _ _ _ _ Hc E)|done].
  - split; [exact (respects_run _ _ _ _ _ Hc E)|]. intros _. split; [done|]. intros l Hl.
    pose proof (quarantine_queue rq w w1 l eq_refl Hun E) as Hq.
    change (qr_state_dir rq) with (dr_state_dir request) in Hq. rewrite Hsd in Hq. auto.
Qed.

Lemma ensure_within rq : rq_state_dir rq = sd →
  respects (files_within (own_file rd sd)) (ensure_local_report_async rq).
Proof.
  intros Hrq. eapply within_only; [|apply (ensure_respects (BE := nonblocking))].
  intros q. rewrite Hrq. apply own_report.
Qed.

Lemma ensure_reported rq w p w' : rq_state_dir rq = sd →
  ensure_local_report_async rq w = (Ok p, w') → reported (rq_execution_id rq) w'.
Proof.
  intros Hrq (_ & _ & Hs & He)%(ensure_docs (BE := nonblocking)). rewrite Hrq in Hs, He.
  exact (ex_intro _ _ (ex_intro _ _ (conj Hs He))).
Qed.

Lemma reconcile_completed_run item plan d w r w' :
  reconcile_completed_execution_async request item plan d w = (r, w') →
  files_within (own_file rd sd) w w' ∧
  ∀ o, r = Ok (Some o) → do_execution_id o = execution_queue.execution_id item ∧
    reported (execution_queue.execution_id item) w'.
Proof.
  intros Hr. unfold reconcile_completed_execution_async in Hr. rewrite Hsd in Hr.
  apply bind_inv in Hr as [(e & E & ->)|(c & w1 & E & Hr)].
  { split; [|done]. apply (respects_run _ _ _ _ _ (ro_within _ (load_complete_ro _ _)) E). }
  assert (w1 = w) as -> by exact (eq_sym (respects_run _ _ _ _ _ (load_complete_ro _ _) E)).
  destruct c as [p|].
  { injection Hr as <- <-. split; [done|]. intros o [= <-]. split; [done|].
    unfold load_complete_local_report_async, load_complete_local_report in E.
    apply bind_ok_inv in E as (i & w1 & [-> Hi]%(inspect_ok (BE := nonblocking)) & E).
    injection E as E. destruct i as [pr| | | |]; [|done..]. destruct Hi as (_ & Hs & He).
    exact (ex_intro _ _ (ex_intro _ _ (conj Hs He))). }
  apply bind_inv in Hr as [(e & Em & ->)|(m & w1 & Em & Hr)]; [by unfold try in Em; destruct (fs_metadata _ w)|].
  assert (w1 = w) as ->.
  { pose proof (respects_run _ _ _ _ _ (respects_try _ _ (fs_metadata_respects eq _)) Em). done. }
  destruct m as [u|e].
  2: { case_decide; [|injection Hr as <- <-; done]. injection Hr as <- <-. done. }
  apply bind_inv in Hr as [(e & E1 & ->)|(res & w1 & E1 & Hr)].
  { split; [|done]. by apply (respects_run _ _ _ _ _ (read_json_respects (files_within _) _) E1). }
  apply read_json_ok in E1 as [-> _].
  set (rq := item_report_request _ _ _ _ _) in Hr.
  assert (Hrq : rq_state_dir rq = sd) by exact Hsd.
  apply bind_inv in Hr as [(e & E2 & ->)|(p & w2 & E2 & [= <- <-])].
  - split; [|done]. apply (respects_run _ _ _ _ _ (ensure_within rq Hrq) E2).
  - split; [apply (respects_run _ _ _ _ _ (ensure_within rq Hrq) E2)|].
    intros o [= <-]. split; [done|]. apply (ensure_reported rq _ _ _ Hrq E2).
Qed.

Definition item_head item (plan : ActionPlan) : QueueHeadContext :=
  mk_head _ (workdir_for rd (execution_queue.execution_id item))
    (running.path_for sd (execution_queue.execution_id item)) plan.

Lemma head_workdir item : ∃ t, workdir_for rd (execution_queue.execution_id item) =
  path_join (path_join rd ACTIONS_DIR) t.
Proof. by eexists. Qed.

Lemma load_head_run item w r w' : load_queue_head_context_async request item w = (r, w') →
  (∃ plan, r = Ok (Some (item_head item plan)) ∧ w' = w) ∨
  (conserves sd w w' ∧ (is_ok r = true → r = Ok None ∧ ∀ l, queue_is sd w l →
     queue_is sd w' (without (execution_queue.execution_id item) l))).
Proof.
  intros Hr. unfold load_queue_head_context_async in Hr. rewrite Hrd, Hsd in Hr.
  apply bind_inv in Hr as [(e & E & ->)|(p & w1 & E & Hr)]; [by unfold try in E; destruct (read_queued_plan_async _ w)|].
  assert (w1 = w) as ->.
  { pose proof (respects_run _ _ _ _ _ (respects_try _ _ (read_json_respects eq (A := ActionPlan) _)) E). done. }
  destruct p as [plan|e].
  - injection Hr as <- <-. left. by exists plan.
  - right. by eapply quarantine_head_run.
Qed.

Lemma recover_stale_run item plan st w r w' :
  recover_stale_execution_async request item (item_head item plan) st w = (r, w') →
  files_within (own_file rd sd) w w' ∧
  ∀ o, r = Ok o → do_execution_id o = execution_queue.execution_id item ∧
    reported (execution_queue.execution_id item) w'.
Proof.
  intros Hr. unfold recover_stale_execution_async in Hr.
  apply bind_inv in Hr as [(e & E & ->)|(res & w1 & E & Hr)]; [done|].
  injection E as _ <-. cbn [hd_workdir hd_plan item_head] in Hr.
  assert (Hwr : ∀ res', respects (files_within (own_file rd sd)) (write_json_atomic_async
    (path_join (workdir_for rd (execution_queue.execution_id item)) WORKDIR_RESULT_FILE)
    (res' : ActionResult))).
  { intros res'. apply write_within. intros q. apply own_workdir, head_workdir. }
  apply bind_inv in Hr as [(e & E & ->)|(u & w1 & E & Hr)].
  { split; [|done]. apply (respects_run _ _ _ _ _ (Hwr _) E). }
  apply (respects_run _ _ _ _ _ (Hwr _)) in E.
  set (rq := item_report_request _ _ _ _ _) in Hr. assert (Hrq : rq_state_dir rq = sd) by exact Hsd.
  apply bind_inv in Hr as [(e & E2 & ->)|(p & w2 & E2 & [= <- <-])].
  - split; [|done]. etrans; [exact E|]. apply (respects_run _ _ _ _ _ (ensure_within rq Hrq) E2).
  - split; [etrans; [exact E|apply (respects_run _ _ _ _ _ (ensure_within rq Hrq) E2)]|].
    intros o [= <-]. split; [done|]. apply (ensure_reported rq _ _ _ Hrq E2).
Qed.

(** A completed outcome followed by the removal of the running document. *)
Lemma finish_head_run {A} item o (k : A) w r w' :
  do_execution_id o = execution_queue.execution_id item →
  reported (execution_queue.execution_id item) w →
  (running.remove_async (running.path_for sd (execution_queue.execution_id item));; mret k) w = (r, w') →
  files_within (own_file rd sd) w w' ∧
  (is_ok r = true → r = Ok k ∧ do_execution_id o = execution_queue.execution_id item ∧
     reported (execution_queue.execution_id item) w').
Proof.
  intros Ho Hrep Hr. apply bind_inv in Hr as [(e & E & ->)|(u & w1 & E & [= <- <-])];
    apply remove_running_run in E as [Hw Hk]; (split; [done|]); [done|auto].
Qed.

(** The answer of the reconciliation, as a result of the whole round when it is one. *)
Definition reconcile_result item w (r : result (option QueueHeadDisposition)) w' : Prop :=
  match r with
  | Ok (Some d) => head_result item w (Ok d) w'
  | Ok None => files_within (own_file rd sd) w w'
  | Err e => conserves sd w w'
  end.

Lemma within_completed item w w' o : files_within (own_file rd sd) w w' →
  do_execution_id o = execution_queue.execution_id item →
  reported (execution_queue.execution_id item) w' →
  head_result item w (Ok (CompletedHead o)) w'.
Proof. intros Hw Ho Hrep. split; [by apply within_conserves|done]. Qed.

Lemma quarantined_reconcile item reason w r w' :
  (quarantine_queue_head_async request item
     (running.path_for sd (execution_queue.execution_id item)) reason;;
   mret (Some ReloadQueue)) w = (r, w') → reconcile_result item w r w'.
Proof.
  intros Hr. apply quarantine_head_run in Hr as [Hc Hok]. destruct r; [|done].
  destruct (Hok eq_refl) as [[= ->] Hl]. by split.
Qed.

(** What the reconciliation does once the running state is known not to block. *)
Lemma settled_reconcile item plan st w r w' :
  (outcome ← reconcile_completed_execution_async request item plan
     (workdir_for rd (execution_queue.execution_id item));
   match outcome with
   | Some outcome =>
       running.remove_async (running.path_for sd (execution_queue.execution_id item));;
       mret (Some (CompletedHead outcome))
   | None =>
       recovered ← recover_stale_execution_async request item (item_head item plan) st;
       running.remove_async (running.path_for sd (execution_queue.execution_id item));;
       mret (Some (CompletedHead recovered))
   end) w = (r, w') → reconcile_result item w r w'.
Proof.
  intros Hr.
  assert (Hfin : ∀ o w1 r w', files_within (own_file rd sd) w w1 →
    do_execution_id o = execution_queue.execution_id item →
    reported (execution_queue.execution_id item) w1 →
    (running.remove_async (running.path_for sd (execution_queue.execution_id item));;
     mret (Some (CompletedHead o))) w1 = (r, w') → reconcile_result item w r w').
  { clear Hr. clear r w'. intros o w1 r w' Hw Ho Hrep Hr. eapply finish_head_run in Hr as [Hw2 Hok]; [|done..].
    assert (files_within (own_file rd sd) w w') as Hw3 by by etrans.
    destruct r; [|by apply within_conserves]. destruct (Hok eq_refl) as ([= ->] & _ & Hrep').
    by apply within_completed. }
  apply bind_inv in Hr as [(e & E & ->)|(o & w1 & E & Hr)];
    apply reconcile_completed_run in E as [Hw Ho]; [by apply within_conserves|].
  destruct o as [o|]; [destruct (Ho o eq_refl); by eapply Hfin|].
  apply bind_inv in Hr as [(e & E & ->)|(o & w2 & E & Hr)];
    apply recover_stale_run in E as [Hw2 Ho2].
  - apply within_conserves. by etrans.
  - destruct (Ho2 o eq_refl). eapply Hfin; [|done..]. by etrans.
Qed.

Lemma reconcile_before item w w1 r w' : files_within (own_file rd sd) w w1 →
  reconcile_result item w1 r w' → reconcile_result item w r w'.
Proof.
  intros Hw. destruct r as [[d|]|]; cbn.
  - by apply head_result_before.
  - intros ?. by etrans.
  - intros ?. etrans; [by apply within_conserves|done].
Qed.

Lemma reconcile_head_run item plan w r w' :
  reconcile_queue_head_async request item (item_head item plan) w = (r, w') →
  reconcile_result item w r w'.
Proof.
  intros Hr. unfold reconcile_queue_head_async in Hr. cbn [hd_running_path hd_plan hd_workdir item_head] in Hr.
  apply bind_inv in Hr as [(e & E & ->)|(m & w1 & E & Hr)]; [by unfold try in E; destruct (fs_metadata _ w)|].
  pose proof (respects_run _ _ _ _ _ (respects_try _ _ (fs_metadata_respects eq _)) E) as <-. clear E.
  destruct m as [u|e].
  2: { case_decide; [|injection Hr as <- <-; by apply within_conserves].
       apply bind_inv in Hr as [(e' & E & ->)|(o & w1 & E & [= <- <-])];
         apply reconcile_completed_run in E as [Hw Ho]; [by apply within_conserves|].
       destruct o as [o|]; [|done]. destruct (Ho o eq_refl). by apply within_completed. }
  apply bind_inv in Hr as [(e & E & ->)|(s & w1 & E & Hr)]; [by unfold try in E; destruct (running.load_async _ w)|].
  pose proof (respects_run _ _ _ _ _ (respects_try _ _ (read_json_respects eq _)) E) as <-. clear E.
  destruct s as [st|e]; [|by eapply quarantined_reconcile].
  apply bind_inv in Hr as [(e & E & ->)|(status & w1 & E & Hr)];
    pose proof (respects_run _ _ _ _ _ (inspect_running_state_ro st) E) as <-; [by apply within_conserves|]. clear E.
  assert (Hexp : ∀ r1 w1, (match status with
     | Active => mret (true, st)
     | Expired => handle_expired_running_state_async st
         (running.path_for sd (execution_queue.execution_id item))
     | Inactive => mret (false, st)
     end : M World _) w = (r1, w1) → files_within (own_file rd sd) w w1).
  { intros r1 w1. destruct status; try by intros [= _ <-].
    apply respects_run. eapply within_mono; [|apply handle_expired_within]. apply own_running. }
  apply bind_inv in Hr as [(e & E & ->)|([blocked st'] & w1 & E & Hr)]; apply Hexp in E.
  - by apply within_conserves.
  - destruct blocked.
    + injection Hr as <- <-. split; [by apply within_conserves|done].
    + eapply reconcile_before; [exact E|]. by eapply settled_reconcile.
Qed.

Lemma execute_head_run item plan w r w' :
  execute_queue_head_async request item (item_head item plan) w = (r, w') →
  head_result item w r w'.
Proof.
  intros Hr. unfold execute_queue_head_async in Hr. cbn [hd_running_path hd_plan item_head] in Hr.
  assert (Hq : ∀ reason w1, files_within (own_file rd sd) w w1 →
    (quarantine_queue_head_async request item
      (running.path_for sd (execution_queue.execution_id item)) reason;; mret ReloadQueue) w1 = (r, w') →
    head_result item w r w').
  { intros reason w1 Hw Hr'. eapply head_result_before; [exact Hw|].
    apply quarantine_head_run in Hr' as [Hc Hok]. split; [done|]. destruct r; [|done].
    destruct (Hok eq_refl) as [[= ->] Hl]. done. }
  apply bind_inv in Hr as [(e & E & ->)|(local & w1 & E & Hr)]; [by unfold try in E; destruct (execute_async _ w)|].
  set (lr := local_exec_request _ _ _) in E.
  assert (Hlr : ex_run_dir lr = rd ∧ ex_state_dir lr = sd) by done. destruct Hlr as [Hlr1 Hlr2].
  apply (respects_run _ _ _ _ _ (respects_try _ _ (execute_within lr Hlr1 Hlr2))) in E.
  destruct local as [out|e]; [|by eapply Hq].
  apply bind_inv in Hr as [(e & E2 & ->)|(prep & w2 & E2 & Hr)];
    [by unfold try in E2; destruct (prepare_queue_head_report_async _ _ _ _ w1)|].
  set (rq := item_report_request request item plan
    (path_join (out_workdir out) WORKDIR_RESULT_FILE) (out_result out)).
  unfold try in E2. destruct (prepare_queue_head_report_async request item plan out w1) as [p w2'] eqn:E3.
  injection E2 as <- <-.
  change (prepare_local_report_with_issue (BE := nonblocking) rq NewReport w1 = (p, w2')) in E3.
  assert (Hw2 : files_within (own_file rd sd) w w2').
  { etrans; [exact E|]. refine (respects_run _ _ _ _ _ (within_only _ _ _ _) E3).
    2: { apply (prepare_respects (BE := nonblocking)). }
    change (rq_state_dir rq) with (dr_state_dir request). rewrite Hsd. apply own_report. }
  destruct p as [p|e]; [|by eapply Hq].
  apply (prepare_ok (BE := nonblocking)) in E3 as (Hs & He & _).
  change (rq_state_dir rq) with (dr_state_dir request) in Hs, He. rewrite Hsd in Hs, He.
  assert (Hrep : reported (execution_queue.execution_id item) w2')
    by exact (ex_intro _ _ (ex_intro _ _ (conj Hs He))).
  eapply head_result_before; [exact Hw2|].
  eapply (finish_head_run item (drain_outcome item (pr_envelope p))) in Hr as [Hw3 Hok]; [|done..].
  split; [by apply within_conserves|]. destruct r; [|done].
  destruct (Hok eq_refl) as ([= ->] & _ & Hrep'). done.
Qed.

(** Whatever fails, handling the head conserves the queued executions and does what its
    answer says. *)
Lemma handle_head_run item w r w' :
  handle_queue_head_async request item w = (r, w') → head_result item w r w'.
Proof.
  intros Hr. unfold handle_queue_head_async in Hr.
  apply bind_inv in Hr as [(e & E & ->)|(head & w1 & E & Hr)];
    apply load_head_run in E as [(plan & Hp & ->)|[Hc Hok]]; try done.
  - injection Hp as ->.
    apply bind_inv in Hr as [(e & E & ->)|(d & w1 & E & Hr)]; apply reconcile_head_run in E; [done|].
    destruct d as [d|]; [by injection Hr as <- <-|].
    eapply head_result_before; [exact E|]. by eapply execute_head_run.
  - destruct (Hok eq_refl) as [[= ->] Hl]. by injection Hr as <- <-.
Qed.

(** * The drain loop *)

Definition accounted item w : Prop :=
  in_queue sd w item ∨ quarantine_recorded sd (execution_queue.execution_id item) w ∨
  reported (execution_queue.execution_id item) w.

(** Storing the queue without the head, whose report is complete. *)
Lemma store_queue_run item now (queue : execution_queue.ExecutionQueueState) w r w' :
  queue_is sd w (execution_queue.items queue) →
  reported (execution_queue.execution_id item) w →
  execution_queue.store_async (execution_queue.path_for sd)
    (execution_queue.remove now (execution_queue.execution_id item) queue) w = (r, w') →
  (∀ i, in_queue sd w i → accounted i w') ∧
  (∀ id, quarantine_recorded sd id w → quarantine_recorded sd id w') ∧
  reported (execution_queue.execution_id item) w' ∧
  (r = Ok tt → queue_is sd w' (without (execution_queue.execution_id item) (execution_queue.items queue))).
Proof.
  intros Hq Hrep Hr. set (q' := execution_queue.remove now _ queue) in Hr.
  pose proof (respects_run _ _ _ _ _ (be_write_respects (BE := nonblocking)
    (store_paths (execution_queue.path_for sd)) _ q' (λ q Hs, Hs)) Hr) as [Hf _].
  assert (Hrep' : reported (execution_queue.execution_id item) w').
  { eapply reported_keep; [..|exact Hrep]; apply Hf; intros Hs;
      (eapply (queue_store_not_under sd "reporting"); [exact Hs|by eexists]). }
  split_and!; [| |done|].
  - intros i Hi. destruct (be_write_either (BE := nonblocking) _ _ _ _ _ (queue_storable sd) Hr) as [Hs|Hs].
    + left. by eapply in_queue_keep.
    + apply (queue_is_in _ _ _ _ Hq) in Hi.
      destruct (decide (execution_queue.execution_id i = execution_queue.execution_id item)) as [Heq|Hne].
      * right; right. by rewrite Heq.
      * left. exists q'. split; [eexists; split; [exact Hs|apply from_to_json]|].
        apply list_elem_of_filter. done.
  - intros id. apply recorded_keep, Hf, history_not_queue_store.
  - intros ->. apply (be_write_ok (BE := nonblocking)) in Hr as ->. apply (queue_is_wrote sd w q').
Qed.

Definition drained (w : World) (r : result (option (option DrainOutcome))) (w' : World) : Prop :=
  (∀ i, in_queue sd w i → accounted i w') ∧
  (∀ id, quarantine_recorded sd id w → quarantine_recorded sd id w') ∧
  ∀ o, r = Ok (Some (Some o)) →
    (∃ i, in_queue sd w i ∧ execution_queue.execution_id i = do_execution_id o) ∧
    reported (do_execution_id o) w' ∧
    ∀ i, in_queue sd w' i → execution_queue.execution_id i ≠ do_execution_id o.

Lemma drained_conserves w r w' : conserves sd w w' →
  (∀ o, r ≠ Ok (Some (Some o))) → drained w r w'.
Proof.
  intros [Hq Hrec] Hr. split_and!; [|done|intros o Ho; by apply Hr in Ho].
  intros i Hi. unfold accounted. destruct (Hq i Hi); auto.
Qed.

Lemma drained_after w w1 r w' : conserves sd w w1 →
  (∀ i, in_queue sd w1 i → in_queue sd w i) → drained w1 r w' → drained w r w'.
Proof.
  intros [Hq Hrec] Hsub (Hacc & Hrec' & Ho). split_and!; [|auto|].
  - intros i Hi. destruct (Hq i Hi) as [Hi1|Hr1]; [auto|]. right. left. auto.
  - intros o Hr. destruct (Ho o Hr) as ((i & Hi & Hid) & Hrep & Hno). split_and!; [eauto|done|done].
Qed.

Lemma drain_loop_run fuel : ∀ queue w r w',
  drain_loop fuel request queue w = (r, w') → queue_is sd w (execution_queue.items queue) →
  (length (execution_queue.items queue) < fuel → r ≠ Ok None) ∧ drained w r w'.
Proof.
  induction fuel as [|fuel IH]; intros queue w r w' Hr Hq; cbn [drain_loop] in Hr.
  { injection Hr as <- <-. split; [lia|]. by apply drained_conserves. }
  rewrite Hsd in Hr. destruct (execution_queue.items queue) as [|item rest] eqn:Hitems.
  { injection Hr as <- <-. split; [done|]. by apply drained_conserves. }
  apply bind_inv in Hr as [(e & E & ->)|(d & w1 & E & Hr)]; apply handle_head_run in E as [Hc Hd].
  { split; [done|]. by apply drained_conserves. }
  destruct d as [| |o].
  - injection Hr as <- <-. split; [done|]. by apply drained_conserves.
  - specialize (Hd _ Hq).
    apply bind_inv in Hr as [(e & E & ->)|(q1 & w2 & E & Hr)].
    { split; [done|]. apply (queue_load_run (BE := nonblocking)) in E as ->. by apply drained_conserves. }
    apply load_async_ok in E as [-> Hq1].
    assert (Hlist : execution_queue.items q1 = without (execution_queue.execution_id item) (item :: rest)).
    { revert Hd Hq1. unfold queue_is. destruct (files w1 !! _); [|congruence].
      intros (? & ? & <-) (? & ? & <-). congruence. }
    destruct (IH q1 w1 r w' Hr Hq1) as [Hfuel Hdr]. split.
    + intros Hlen. apply Hfuel. rewrite Hlist. unfold without. rewrite filter_cons, decide_False by auto.
      pose proof (length_filter (λ i, execution_queue.execution_id i ≠ execution_queue.execution_id item) rest).
      cbn in Hlen. lia.
    + eapply drained_after; [exact Hc| |exact Hdr]. intros i Hi.
      apply (queue_is_in _ _ _ _ Hq1) in Hi. rewrite Hlist in Hi.
      apply (queue_is_in _ _ _ _ Hq). unfold without in Hi. by apply list_elem_of_filter in Hi as [_ ?].
  - destruct Hd as (Hw & Ho & Hrep). apply (within_queue_is _ _ _ Hw) in Hq.
    apply bind_inv in Hr as [(e & E & ->)|(now & w2 & [= <- <-] & Hr)]; [done|].
    rewrite <-Hitems in Hq.
    assert (Hin : in_queue sd w1 item) by (apply (queue_is_in _ _ _ _ Hq); rewrite Hitems; by left).
    assert (Hback : ∀ i, in_queue sd w1 i → in_queue sd w i).
    { intros i. apply in_queue_keep. symmetry. apply Hw, own_not_queue. }
    apply bind_inv in Hr as [(e & E & ->)|([] & w3 & E & [= <- <-])];
      apply (store_queue_run _ _ _ _ _ _ Hq Hrep) in E as (Hacc & Hrec & Hrep' & Hlist); (split; [done|]).
    + eapply drained_after; [exact Hc|exact Hback|]. by split_and!.
    + eapply drained_after; [exact Hc|exact Hback|]. split_and!; [done|done|].
      intros o' [= <-]. rewrite Ho. split_and!; [by exists item|done|].
      intros i Hi%(queue_is_in _ _ _ _ (Hlist eq_refl)). unfold without in Hi.
      by apply list_elem_of_filter in Hi as [? _].
Qed.

Lemma drain_run w r w' : drain_next_with_report_async request w = (r, w') →
  ∃ r0, drained w r0 w' ∧ (∀ o, r = Ok (Some o) → r0 = Ok (Some (Some o))).
Proof.
  intros Hr. unfold drain_next_with_report_async in Hr. rewrite Hsd in Hr.
  apply bind_inv in Hr as [(e & E & ->)|(q & w1 & E & Hr)].
  { apply (queue_load_run (BE := nonblocking)) in E as ->. exists (Err e). split; [|done].
    by apply drained_conserves. }
  apply load_async_ok in E as [-> Hq].
  apply bind_inv in Hr as [(e & E & ->)|(o & w1 & E & Hr)];
    apply drain_loop_run in E as [Hfuel Hdr]; try done.
  - by exists (Err e).
  - exists (Ok o). destruct o as [o|]; [|by destruct Hfuel; [unfold drain_fuel; lia|]].
    injection Hr as <- <-. split; [done|]. by intros o' [= ->].
Qed.
End HeadFrames.

(** * Properties *)
Section DrainProperties.
Context `{ContractsLaws} `{StoreCodecs} `{Host} `{!ChildProcess} `{!OsLaws}.

(** C1. Draining never loses an execution: whatever fails, wherever it stops, and whatever the
    executor process does in its own working directory, every execution queued before is
    afterwards still queued, or recorded in the history as quarantined, or completely reported
    on disk; an outcome is returned only for an execution that was queued, whose report is
    complete and which is no longer queued. *)
Theorem drain_conserves_executions (request : DrainRequest) (w w' : World)
    (r : result (option DrainOutcome)) :
  let sd := dr_state_dir request in
  separate (dr_run_dir request) sd → child_confined (dr_run_dir request) sd →
  drain_next_with_report_async request w = (r, w') →
  (∀ i, in_queue sd w i → accounted sd i w') ∧
  (∀ id, quarantine_recorded sd id w → quarantine_recorded sd id w') ∧
  (∀ o, r = Ok (Some o) →
     (∃ i, in_queue sd w i ∧ execution_queue.execution_id i = do_execution_id o) ∧
     reported sd (do_execution_id o) w' ∧
     ∀ i, in_queue sd w' i → execution_queue.execution_id i ≠ do_execution_id o).
Proof.
  intros sd Hsep Hchild Hr.
  destruct (drain_run _ _ Hsep Hchild request eq_refl eq_refl _ _ _ Hr) as (r0 & (Hacc & Hrec & Ho) & Hr0).
  split_and!; [done|done|]. intros o Hro. by apply Ho, Hr0.
Qed.

(** C34. Draining terminates: starting from what the queue file holds, the loop never uses up
    its fuel of one round per queued item plus one, because every reload has taken the head
    (and every other entry of its execution) out of the queue; this holds with any failures. *)
Theorem drain_loop_terminates (request : DrainRequest) (queue : execution_queue.ExecutionQueueState)
    (w : World) :
  let sd := dr_state_dir request in
  separate (dr_run_dir request) sd → child_confined (dr_run_dir request) sd →
  queue_is sd w (execution_queue.items queue) →
  (drain_loop (drain_fuel queue) request queue w).1 ≠ Ok None.
Proof.
  intros sd Hsep Hchild Hq.
  destruct (drain_loop (drain_fuel queue) request queue w) as [r w'] eqn:E.
  apply (drain_loop_run _ _ Hsep Hchild request eq_refl eq_refl) in E as [Hfuel _]; [|done].
  apply Hfuel. unfold drain_fuel. lia.
Qed.

(** One execution with a corrupt [result.json] stops the whole queue: when the head has a
    readable plan, no running document and no report, and its result does not parse, a drain
    without any failure of the host reports that error, changes nothing, and so will report it
    again; the execution is not quarantined. *)
Theorem corrupt_result_stops_drain (request : DrainRequest)
    (item : execution_queue.ExecutionQueueItem) (rest : list execution_queue.ExecutionQueueItem)
    (plan : ActionPlan) (w : World) (text : string) (e : IoError) :
  let sd := dr_state_dir request in
  let workdir := workdir_for (dr_run_dir request) (execution_queue.execution_id item) in
  fault_free →
  queue_is sd w (item :: rest) →
  doc (path_join workdir WORKDIR_PLAN_FILE) plan w →
  fs_exists (running.path_for sd (execution_queue.execution_id item)) w = false →
  fs_exists (reporting.path_for sd (execution_queue.execution_id item)) w = false →
  files w !! path_join workdir WORKDIR_RESULT_FILE = Some text →
  from_json (A := ActionResult) text = Err e →
  drain_next_with_report_async request w = (Err e, w).
Proof.
  intros sd workdir Hff Hq (pt & Hpt & Hpj) Hrun Hrep Hres Hbad.
  assert (Hload : ∃ q, execution_queue.load_or_default_async (execution_queue.path_for sd) w = (Ok q, w) ∧
    execution_queue.items q = item :: rest).
  { unfold queue_is in Hq. destruct (files w !! execution_queue.path_for sd) as [t|] eqn:Et; [|done].
    destruct Hq as (q & Hj & Hi). exists q. split; [|done].
    by apply (queue_load_ff (BE := nonblocking) _ _ _ _ Hff Et). }
  destruct Hload as (q & Hload & Hitems).
  unfold drain_next_with_report_async. fold sd. rewrite (bind_ok _ _ _ _ _ Hload).
  apply bind_err. cbn [drain_loop drain_fuel]. rewrite Hitems. apply bind_err.
  unfold handle_queue_head_async, load_queue_head_context_async. fold sd workdir.
  assert (Hplan : try (read_queued_plan_async workdir) w = (Ok (Ok plan), w)).
  { apply try_run. unfold read_queued_plan_async. by rewrite (read_json_ff _ _ _ Hff Hpt), Hpj. }
  rewrite bind_assoc, (bind_ok _ _ _ _ _ Hplan), (bind_ok _ _ _ _ _ (ret_run _ _)).
  apply bind_err. unfold reconcile_queue_head_async. cbn [hd_running_path hd_workdir hd_plan].
  assert (Hmeta : try (fs_metadata (running.path_for sd (execution_queue.execution_id item))) w =
    (Ok (Err enoent), w)) by (apply try_run; by rewrite fs_metadata_ff, Hrun).
  rewrite (bind_ok _ _ _ _ _ Hmeta). rewrite decide_True by done. apply bind_err.
  unfold reconcile_completed_execution_async. fold sd.
  assert (Hnone : load_complete_local_report_async sd (execution_queue.execution_id item) w =
    (Ok None, w)).
  { unfold load_complete_local_report_async, load_complete_local_report, inspect_local_report.
    rewrite bind_assoc. erewrite bind_ok by exact (@be_probe_ff _ _ nonblocking _ _ _ Hff).
    rewrite Hrep. done. }
  rewrite (bind_ok _ _ _ _ _ Hnone).
  assert (Hmr : try (fs_metadata (path_join workdir WORKDIR_RESULT_FILE)) w = (Ok (Ok tt), w)).
  { apply try_run. by rewrite fs_metadata_ff, (fs_exists_lookup _ _ _ Hres). }
  rewrite (bind_ok _ _ _ _ _ Hmr). apply bind_err. by rewrite (read_json_ff _ _ _ Hff Hres), Hbad.
Qed.
End DrainProperties.

Section SubmitProperties.
Context `{ContractsLaws} `{StoreCodecs} `{Host} {BE : Backend} `{!BackendLaws} `{!ChildProcess}.

Lemma queue_is_load sd w l : fault_free → execution_queue.path_for sd ∉ dirs w → queue_is sd w l →
  ∃ q, execution_queue.load_or_default (execution_queue.path_for sd) w = (Ok q, w) ∧
    execution_queue.items q = l.
Proof.
  intros Hff Hd. unfold queue_is. destruct (files w !! _) as [t|] eqn:E.
  - intros (q & Hj & Hi). exists q. split; [|done]. by eapply queue_load_ff.
  - intros ->. unfold execution_queue.load_or_default, mbind, M_bind.
    rewrite queue_probe_ff, E by done. by eexists.
Qed.

Lemma mkdir_ff p w : fault_free →
  fs_create_dir_all p w = (Ok tt, set_dirs (list_to_set (dir_prefixes p) ∪ dirs w) w).
Proof. intros Hff. unfold fs_create_dir_all, mbind, M_bind. by rewrite guard_fault_ff. Qed.

Lemma queue_store_not_run rd sd d n : separate rd sd →
  (∃ t, d = path_join (path_join rd ACTIONS_DIR) t) →
  ¬ store_paths (execution_queue.path_for sd) (path_join d n).
Proof.
  intros Hsep [t ->] [Heq|Heq].
  - apply (Hsep (path_join t n) EXECUTION_QUEUE_FILE). by rewrite <-join_join.
  - unfold execution_queue.path_for in Heq.
    destruct (with_extension_under sd EXECUTION_QUEUE_FILE "tmp") as [u Hu]. rewrite Hu in Heq.
    apply (Hsep (path_join t n) u). by rewrite <-join_join.
Qed.

(** Preparing the working directory of a submission leaves the queue file readable. *)
Lemma prepared_queue rd sd id n s w l : separate rd sd →
  execution_queue.path_for sd ∉ dirs w → queue_is sd w l →
  let workdir := workdir_for rd id in
  let w1 := wrote (path_join workdir n) s (set_dirs (list_to_set (dir_prefixes workdir) ∪ dirs w) w) in
  (execution_queue.path_for sd ∉ dirs w1) ∧ queue_is sd w1 l.
Proof.
  intros Hsep Hd Hl workdir w1.
  assert (Hpre : ∀ t u, workdir +:+ t ≠ execution_queue.path_for sd +:+ u).
  { intros t u Heq. apply (Hsep (id +:+ t) (EXECUTION_QUEUE_FILE +:+ u)).
    revert Heq. unfold workdir, workdir_for, execution_queue.path_for, path_join.
    repeat progress (rewrite <-?app_assoc, ?app_cons). done. }
  split.
  - apply wrote_dirs.
    + cbn. rewrite elem_of_union, elem_of_list_to_set. intros [[t Ht]%dir_prefix|]; [|done].
      apply (Hpre "" t). by rewrite app_nil_r.
    + intros t. destruct (path_parent_keeps workdir n) as [u Hu]. rewrite Hu. intros [= Heq].
      by apply (Hpre u t).
  - eapply queue_is_same; [|exact Hl]. unfold w1. rewrite wrote_lookup_ne; [done|].
    intros Hst. unfold workdir, workdir_for in Hst.
    assert (∃ t, execution_queue.path_for sd = path_join (path_join rd ACTIONS_DIR) t) as [t Ht].
    { destruct Hst as [->| ->]; [rewrite join_join; by eexists|].
      destruct (with_extension_under (path_join (path_join rd ACTIONS_DIR) id) n "tmp") as [t ->].
      rewrite join_join. by eexists. }
    by apply (Hsep t EXECUTION_QUEUE_FILE).
Qed.

(** A plan is accepted exactly when the state directory does not know it: without failures,
    a submission of a plan that is queued, running, reported or in the history is rejected as
    already existing and changes nothing; any other is accepted, its plan document is stored,
    its item takes its place in the queue by priority after the items already there, and from
    then on the plan is known, so that submitting it again is rejected. *)
Theorem submit_accepts_untracked (request : SchedulerRequest) (w : World) (d : string)
    (l : list execution_queue.ExecutionQueueItem) :
  let sd := sq_state_dir request in let plan := sq_plan request in
  let id := "exec_" +:+ pretty (clock w * 1000000)%Z in
  let item := submitted_item id d (rfc3339 (clock w))
    (Some (rfc3339 (clock w + plan_max_total_duration_ms plan))) plan in
  fault_free → rooted w → scannable sd w → execution_queue.path_for sd ∉ dirs w →
  queue_is sd w l → separate (sq_run_dir request) sd → digest_plan plan = Ok d →
  ((∃ x, known_execution sd (plan_action_id plan) d w x) →
     ∃ e, submit_local_plan request w = (Err e, w) ∧ io_kind e = AlreadyExists) ∧
  ((∀ x, ¬ known_execution sd (plan_action_id plan) d w x) →
     ∃ w', submit_local_plan request w = (Ok (mk_submitted id d), w') ∧
       doc (path_join (workdir_for (sq_run_dir request) id) WORKDIR_PLAN_FILE) plan w' ∧
       queue_is sd w' (place item l) ∧
       known_execution sd (plan_action_id plan) d w' id).
Proof.
  intros sd plan id item Hff Hroot Hscan Hqd Hl Hsep Hdig.
  destruct (queue_is_load sd w l Hff Hqd Hl) as (q & Hq & Hql).
  pose proof (find_duplicate_total sd (plan_action_id plan) d w Hff Hscan) as Htot.
  rewrite Hq in Htot. specialize (Htot eq_refl).
  pose proof (find_duplicate_ro sd (plan_action_id plan) d w) as Hro.
  pose proof (λ x, find_duplicate_sound sd (plan_action_id plan) d w x) as Hsound.
  pose proof (λ x, find_duplicate_complete sd (plan_action_id plan) d w x Hff Hroot) as Hcomplete.
  destruct (find_duplicate_execution sd (plan_action_id plan) d w) as [r w0] eqn:Edup.
  cbn in Hro, Htot, Hsound, Hcomplete. subst w0. destruct r as [o|]; [|done].
  assert (Hstart : ∀ R, (match o with
      | Some x => throw (MkIoError AlreadyExists
          ("duplicate action plan already tracked locally: action_id=" +:+ plan_action_id plan
           +:+ " plan_digest=" +:+ d +:+ " execution_id=" +:+ x))
      | None => submit_new (sq_run_dir request) sd plan id d
          (rfc3339 (clock w + plan_max_total_duration_ms plan))
      end : M World SchedulerOutcome) w = R → submit_local_plan request w = R).
  { intros R <-. unfold submit_local_plan, next_execution_id, of_result, after_millis_rfc3339, gets.
    unfold mbind at 1 2 3 4, M_bind at 1 2 3 4. fold plan. rewrite Hdig. fold sd. rewrite Edup.
    by destruct o. }
  split.
  - intros [x Hx]. destruct o as [y|]; [|by apply Hcomplete in Hx].
    eexists. split; [by apply Hstart|done].
  - intros Hno. destruct o as [y|]; [by destruct (Hno y); apply Hsound|].
    destruct (prepared_queue _ sd id WORKDIR_PLAN_FILE (to_json plan +:+ nl) w l Hsep Hqd Hl)
      as [Hqd1 Hl1].
    set (w1 := wrote _ _ _) in Hqd1, Hl1.
    destruct (queue_is_load sd w1 l Hff Hqd1 Hl1) as (q1 & Hq1 & Hql1).
    set (q2 := execution_queue.enqueue (rfc3339 (clock w)) item q1).
    exists (wrote (execution_queue.path_for sd) (to_json q2 +:+ nl) w1).
    assert (Hqi : queue_is sd (wrote (execution_queue.path_for sd) (to_json q2 +:+ nl) w1) (place item l)).
    { rewrite <-Hql1. apply (queue_is_wrote sd w1 q2). }
    split_and!; [| |done|].
    + apply Hstart. unfold submit_new. erewrite bind_ok by (apply (mkdir_ff _ w Hff)).
      erewrite bind_ok by (apply (be_write_ff _ _ _ Hff)). fold w1.
      unfold try, mbind, M_bind, now_rfc3339, gets. rewrite Hq1. unfold execution_queue.store.
      by rewrite be_write_ff.
    + apply doc_wrote_ne; [|apply doc_wrote]. apply (queue_store_not_run _ _ _ _ Hsep). by eexists.
    + pose proof (queue_is_in sd _ _ item Hqi) as [_ Hin].
      destruct Hin as (q3 & (t & Ht & Hj) & Hi); [rewrite place_perm; by left|].
      change id with (execution_queue.execution_id item). by eapply known_queued.
Qed.
End SubmitProperties.

(** * Witnesses: executions [a] and [b] queued, the plan of [b] stored, that of [a] missing *)
Definition toy_drain : DrainRequest := mk_drain "/r" "/s" "/bin/exec" "inst" 10 100 100.

Definition toy_drain_world (extra : gmap string string) : World :=
  MkWorld toy_os
    (<[execution_queue.path_for "/s" := to_json (toy_queue_of ["a"; "b"]) +:+ nl]>
     (<["/r/actions/b/plan.json" := to_json (toy_plan_of "b") +:+ nl]> extra))
    {["/s"]} 7 (∅ : gmap Z string).

Lemma toy_separate : separate "/r" "/s".
Proof. intros t u Heq. discriminate Heq. Qed.

Lemma toy_confined : child_confined "/r" "/s".
Proof. split; intros; by apply respects_ret, _. Qed.

Lemma toy_queue_is extra : queue_is "/s" (toy_drain_world extra)
  (execution_queue.items (toy_queue_of ["a"; "b"])).
Proof.
  unfold queue_is. cbn [files toy_drain_world]. rewrite lookup_insert_eq.
  exists (toy_queue_of ["a"; "b"]). split; [apply from_to_json|reflexivity].
Qed.

Lemma drain_conserves_executions_witness :
  let run := drain_next_with_report_async toy_drain (toy_drain_world ∅) in
  (∃ o, run.1 = Ok (Some o) ∧ do_execution_id o = "b") ∧
  accounted "/s" (toy_item "a" 100) run.2 ∧ reported "/s" "b" run.2.
Proof.
  intros run.
  destruct (drain_conserves_executions toy_drain (toy_drain_world ∅) run.2 run.1 toy_separate
              toy_confined (surjective_pairing _)) as (Hacc & _ & Hout).
  assert (Ho : ∃ o, run.1 = Ok (Some o) ∧ do_execution_id o = "b").
  { eexists. split; vm_compute; reflexivity. }
  split; [exact Ho|]. split.
  - apply Hacc. apply (queue_is_in _ _ _ _ (toy_queue_is ∅)).
    apply list_elem_of_In. vm_compute. auto.
  - destruct Ho as (o & Hr & Hid). destruct (Hout o Hr) as (_ & Hrep & _). by rewrite Hid in Hrep.
Defined.

Lemma drain_loop_terminates_witness :
  let q := toy_queue_of ["a"; "b"] in
  (drain_loop (drain_fuel q) toy_drain q (toy_drain_world ∅)).1 ≠ Ok None.
Proof.
  apply (drain_loop_terminates toy_drain (toy_queue_of ["a"; "b"]) (toy_drain_world ∅)
           toy_separate toy_confined (toy_queue_is ∅)).
Defined.

(** The queue of [b] alone, with a result document that is not JSON. *)
Definition toy_corrupt_world : World :=
  MkWorld toy_os
    (<[execution_queue.path_for "/s" := to_json (toy_queue_of ["b"]) +:+ nl]>
     (<["/r/actions/b/plan.json" := to_json (toy_plan_of "b") +:+ nl]>
      (<["/r/actions/b/result.json" := "?"]> ∅)))
    {["/s"]} 7 (∅ : gmap Z string).

Lemma corrupt_result_stops_drain_witness :
  drain_next_with_report_async toy_drain toy_corrupt_world =
    (Err (io_other "expected value"), toy_corrupt_world).
Proof.
  apply (corrupt_result_stops_drain toy_drain (toy_item "b" 100) [] (toy_plan_of "b")
           toy_corrupt_world "?" (io_other "expected value") toy_fault_free).
  - unfold queue_is. cbn [files toy_corrupt_world]. rewrite lookup_insert_eq.
    exists (toy_queue_of ["b"]). split; [apply from_to_json|reflexivity].
  - exists (to_json (toy_plan_of "b") +:+ nl). split; [by vm_compute|apply from_to_json].
  - by vm_compute.
  - by vm_compute.
  - by vm_compute.
  - by vm_compute.
Defined.

Lemma submit_accepts_untracked_witness :
  let rq := mk_submit _ "/r" "/s" (toy_plan_of "c") in
  let w := toy_queue_world ["a"] in
  let again := mk_submit _ "/r" "/s" (toy_plan_of "a") in
  (∃ w', submit_local_plan (BE := nonblocking) rq w =
     (Ok (mk_submitted "exec_7000000" "digest-act-c"), w')) ∧
  (∃ e, submit_local_plan (BE := nonblocking) again w = (Err e, w) ∧ io_kind e = AlreadyExists).
Proof.
  intros rq w again.
  assert (Hroot : rooted w).
  { intros p s d Hp. cbn [w files toy_queue_world] in Hp.
    apply lookup_singleton_Some in Hp as [<- _]. intros [= <-]. by apply elem_of_singleton. }
  assert (Hqd : execution_queue.path_for "/s" ∉ dirs w).
  { intros Hd. cbn [w dirs toy_queue_world] in Hd. apply elem_of_singleton in Hd. discriminate Hd. }
  assert (Hq : queue_is "/s" w (execution_queue.items (toy_queue_of ["a"]))).
  { unfold queue_is. cbn [w files toy_queue_world]. rewrite lookup_singleton_eq.
    exists (toy_queue_of ["a"]). split; [apply from_to_json|reflexivity]. }
  assert (Hscan : scannable "/s" w) by (vm_compute; auto).
  split.
  - destruct (submit_accepts_untracked (BE := nonblocking) rq w "digest-act-c" _ toy_fault_free
                Hroot Hscan Hqd Hq toy_separate eq_refl) as [_ Hok].
    destruct Hok as (w' & Hrun & _); [|by exists w'].
    assert (Hdup : (find_duplicate_execution (BE := nonblocking) "/s" "act-c" "digest-act-c" w).1 = Ok None)
      by (by vm_compute).
    intros x. apply (find_duplicate_complete (BE := nonblocking) _ _ _ _ _ toy_fault_free Hroot Hdup).
  - destruct (submit_accepts_untracked (BE := nonblocking) again w "digest-act-a" _ toy_fault_free
                Hroot Hscan Hqd Hq toy_separate eq_refl) as [Hdup _].
    apply Hdup. exists "a". apply (find_duplicate_sound (BE := nonblocking)). by vm_compute.
Defined.
