(* ===== verification/Recovery.v ===== *)
(** Crash recovery of incomplete executions, src/src/runtime/daemon_recovery.rs: every tick of
    the daemon walks the running documents and settles those whose execution has ended. *)
From S2P Require Import Prelude Host Contracts Stores Toy Queue Process ExecSupport Reporting.
From S2P Require Import Quarantine LocalExec Scheduler.

Section Recovery.
Context `{ContractConstructors} `{StoreCodecs} `{Host} `{!ChildProcess}.

Definition execution_is_still_running_async (state : running.RunningExecutionState)
    (running_path : string) : M World (bool * running.RunningExecutionState) :=
  status ← inspect_running_state state;
  match status with
  | Active => mret (true, state)
  | Expired => handle_expired_running_state_async state running_path
  | Inactive => mret (false, state)
  end.

Definition quarantine_running_state_async (state_dir running_path : string)
    (state : running.RunningExecutionState) (detail : string) : M World unit :=
  quarantine_execution_async (running_state state_dir state detail running_path).

Definition recovery_report_request (state_dir instance_id : string)
    (state : running.RunningExecutionState) (plan : ActionPlan) (result_path : string)
    (result : ActionResult) : ReportingRequest :=
  mk_request _ state_dir (running.execution_id state) (running.action_id state)
    (running.request_id state) (running.plan_digest state) (plan_agent_id plan) instance_id
    (final_state_name result) result_path result.

(** The end of an entry whose result is known. *)
Definition settle_entry (state_dir instance_id path : string)
    (state : running.RunningExecutionState) (plan : ActionPlan) (result_path : string)
    (result : ActionResult) : M World unit :=
  ensured ← try (ensure_local_report_async
    (recovery_report_request state_dir instance_id state plan result_path result));
  match ensured with
  | Err err =>
      quarantine_running_state_async state_dir path state
        ("running execution report preparation failed: " +:+ display_runtime_error err)
  | Ok _ => running.remove_async path
  end.

(** One round of the loop over the directory; [continue] is returning. *)
Definition recover_entry (state_dir instance_id path : string) : M World unit :=
  if negb (is_json path) then mret tt
  else
    state ← try (read_json_async path : M World running.RunningExecutionState);
    match state with
    | Err err =>
        quarantine_execution_async
          (unreadable_running state_dir (path_file_stem path)
             ("running state unreadable: " +:+ io_msg err) path)
    | Ok state =>
        let workdir := running.workdir state in
        let result_path := path_join workdir WORKDIR_RESULT_FILE in
        plan ← try (read_queued_plan_async workdir);
        match plan with
        | Err err =>
            quarantine_running_state_async state_dir path state
              ("running execution plan unavailable: " +:+ display_runtime_error err)
        | Ok plan =>
            meta ← try (fs_metadata result_path);
            match meta with
            | Ok _ =>
                result ← try (read_json_async result_path);
                match result with
                | Err err =>
                    quarantine_running_state_async state_dir path state
                      ("running execution result unavailable: " +:+ io_msg err)
                | Ok result => settle_entry state_dir instance_id path state plan result_path result
                end
            | Err err =>
                if decide (io_kind err = NotFound) then
                  still ← execution_is_still_running_async state path;
                  let '(still_running, state) := still in
                  if still_running : bool then mret tt
                  else
                    recovered ← synthesize_recovery_result state;
                    write_json_atomic_async result_path recovered;;
                    settle_entry state_dir instance_id path state plan result_path recovered
                else throw err
            end
        end
    end.

Fixpoint recover_entries (state_dir instance_id : string) (entries : list string) : M World unit :=
  match entries with
  | [] => mret tt
  | path :: entries =>
      recover_entry state_dir instance_id path;;
      recover_entries state_dir instance_id entries
  end.

Definition recover_incomplete_executions_impl_async (state_dir instance_id : string)
    : M World unit :=
  let running_dir := path_join state_dir "running" in
  r ← try (fs_metadata running_dir);
  match r with
  | Err err => if decide (io_kind err = NotFound) then mret tt else throw err
  | Ok _ =>
      entries ← fs_read_dir running_dir;
      recover_entries state_dir instance_id entries
  end.
End Recovery.

(** * Properties *)
Section RecoveryProperties.
Context `{ContractsLaws} `{StoreCodecs} `{Host} `{!ChildProcess} `{!OsLaws}.

Lemma settle_entry_ff sd inst p st plan rp res w :
  fault_free → is_ok (digest_result res) = true →
  (∀ env, validate_report_action_result env = None) →
  p = running.path_for sd (running.execution_id st) → p ∉ dirs w → is_Some (files w !! p) →
  ∃ w', settle_entry sd inst p st plan rp res w = (Ok tt, w') ∧ files w' !! p = None ∧
    reported sd (running.execution_id st) w' ∧
    (∀ q, ¬ report_files sd (running.execution_id st) q → q ≠ p → files w' !! q = files w !! q).
Proof.
  intros Hff Hdig Hval Hp Hd Hfile. unfold settle_entry.
  set (rq := recovery_report_request sd inst st plan rp res).
  destruct (ensure_ff (BE := nonblocking) rq w Hff Hdig Hval) as (prep & w1 & Hens).
  assert (Htry : try (ensure_local_report_async rq) w = (Ok (Ok prep), w1)) by by apply try_run.
  rewrite (bind_ok _ _ _ _ _ Htry).
  destruct (ensure_docs (BE := nonblocking) _ _ _ _ Hens) as (_ & _ & Hs & He).
  pose proof (respects_run _ _ _ _ _ (ensure_respects (BE := nonblocking) rq) Hens) as [Hf _].
  assert (Hp1 : files w1 !! p = files w !! p).
  { apply Hf. intros Hr%report_files_under.
    eapply (under_disjoint sd "reporting" "running" p); [exact Hr| |by intros ??].
    rewrite Hp. by eexists. }
  unfold running.remove_async, running.remove. cbn [be_remove nonblocking].
  unfold remove_ignore_missing, try, mbind, M_bind.
  rewrite fs_remove_ff by done. rewrite Hp1. destruct Hfile as [text Htext]. rewrite Htext. cbn.
  assert (Hrep : reported sd (running.execution_id st) w1)
    by exact (ex_intro _ _ (ex_intro _ _ (conj Hs He))).
  eexists. split; [done|]. split; [apply lookup_delete_eq|]. split.
  - eapply reported_keep; [..|exact Hrep]; cbn; rewrite lookup_delete_ne; try done; intros Heq.
    + rewrite Hp in Heq. by apply running_ne_reporting in Heq.
    + eapply (under_disjoint sd "running" "reporting" p); [rewrite Hp; by eexists| |by intros ??].
      rewrite Heq. by eexists.
  - intros q Hq Hne. cbn. rewrite lookup_delete_ne by done. by apply Hf.
Qed.

(** Settling an interrupted execution: for the running document of an execution whose plan
    is readable and which left no result, without failures of the host, an execution whose
    process may still be alive and in time is left exactly as it is; one whose process is gone
    ends with a failed result on disk and a complete report, and its running document is
    removed; no other execution's files are touched. *)
Theorem recovery_settles_execution (sd inst : string) (st : running.RunningExecutionState)
    (plan : ActionPlan) (w : World) (status : RunningStateStatus) :
  let id := running.execution_id st in
  let p := running.path_for sd id in
  let rp := path_join (running.workdir st) WORKDIR_RESULT_FILE in
  fault_free → (∀ res, is_ok (digest_result res) = true) →
  (∀ env, validate_report_action_result env = None) →
  is_json p = true → doc p st w → doc (path_join (running.workdir st) WORKDIR_PLAN_FILE) plan w →
  fs_exists rp w = false → p ∉ dirs (wrote rp "" w) → ¬ store_paths rp p → ¬ report_files sd id rp →
  inspect_running_state st w = (Ok status, w) →
  (status = Active → recover_entry sd inst p w = (Ok tt, w)) ∧
  (status = Inactive → ∃ w' res, recover_entry sd inst p w = (Ok tt, w') ∧
     files w' !! p = None ∧ reported sd id w' ∧ doc rp res w' ∧ final_status res = Failed ∧
     ∀ q, ¬ report_files sd id q → q ≠ p → ¬ store_paths rp q → files w' !! q = files w !! q).
Proof.
  intros id p rp Hff Hdig Hval Hjson (text & Ht & Hj) (pt & Hpt & Hpj) Hno Hd Hsep1 Hsep2 Hins.
  assert (Hstart : recover_entry sd inst p w =
    (still ← execution_is_still_running_async st p;
     let '(still_running, state) := still in
     if still_running : bool then mret tt
     else
       recovered ← synthesize_recovery_result state;
       write_json_atomic_async rp recovered;;
       settle_entry sd inst p state plan rp recovered) w).
  { unfold recover_entry. rewrite Hjson. cbn [negb].
    erewrite bind_ok by (apply try_run, (read_json_ff _ _ _ Hff Ht)). rewrite Hj. cbn zeta.
    erewrite bind_ok by (apply try_run, (read_json_ff _ _ _ Hff Hpt)). rewrite Hpj. fold rp.
    erewrite bind_ok by (apply try_run, (fs_metadata_ff _ _ Hff)). by rewrite Hno. }
  rewrite Hstart. unfold execution_is_still_running_async. rewrite bind_assoc, (bind_ok _ _ _ _ _ Hins).
  split; intros ->; [done|].
  erewrite bind_ok by apply ret_run. cbn beta iota.
  assert (Hsyn : synthesize_recovery_result st w = (Ok (recovery_result_at (clock w) st), w)) by done.
  rewrite (bind_ok _ _ _ _ _ Hsyn). set (res := recovery_result_at _ _).
  erewrite bind_ok by apply (write_json_ff _ _ _ Hff).
  set (w1 := wrote rp _ w).
  destruct (settle_entry_ff sd inst p st plan rp res w1 Hff (Hdig _) Hval eq_refl)
    as (w' & Hr & Hgone & Hrep & Hframe).
  - exact Hd.
  - unfold w1. rewrite wrote_lookup_ne by done. by eexists.
  - exists w', res. split_and!; [exact Hr|done|done| |apply final_status_mk|].
    + eapply doc_keep; [|apply (doc_wrote rp res w)]. apply Hframe; [done|].
      intros Heq. apply Hsep1. left. by rewrite Heq.
    + intros q Hq Hne Hst. rewrite Hframe by done. by apply wrote_lookup_ne.
Qed.
End RecoveryProperties.

(** * Witness: a running document of execution [b] whose process was never recorded *)
Definition toy_interrupted : running.RunningExecutionState :=
  running.build (running.b_progress "t0" None None None
    (running.builder "b" "act-b" "spawned" "/r/actions/b")).

Definition toy_interrupted_world : World :=
  MkWorld toy_os
    (<["/s/running/b.json" := to_json toy_interrupted +:+ nl]>
     (<["/r/actions/b/plan.json" := to_json (toy_plan_of "b") +:+ nl]> ∅))
    {["/s"]} 7 (∅ : gmap Z string).

Lemma recovery_settles_execution_witness :
  ∃ w', recover_entry "/s" "inst" "/s/running/b.json" toy_interrupted_world = (Ok tt, w') ∧
    files w' !! "/s/running/b.json" = None ∧ reported "/s" "b" w'.
Proof.
  destruct (recovery_settles_execution "/s" "inst" toy_interrupted (toy_plan_of "b")
              toy_interrupted_world Inactive toy_fault_free) as [_ Hinactive].
  - intros res. reflexivity.
  - intros env. reflexivity.
  - by vm_compute.
  - exists (to_json toy_interrupted +:+ nl). split; [apply lookup_insert_eq|apply from_to_json].
  - exists (to_json (toy_plan_of "b") +:+ nl). split; [by vm_compute|apply from_to_json].
  - by vm_compute.
  - intros Hd. apply (bool_decide_eq_true_2 _) in Hd. vm_compute in Hd. discriminate Hd.
  - intros [Hs|Hs]; vm_compute in Hs; discriminate Hs.
  - intros [[Hs|Hs]|[Hs|Hs]]; vm_compute in Hs; discriminate Hs.
  - by vm_compute.
  - destruct (Hinactive eq_refl) as (w' & res & Hr & Hgone & Hrep & _).
    exact (ex_intro _ w' (conj Hr (conj Hgone Hrep))).
Defined.
