(* ===== verification/Telemetry.v ===== *)
(** The data of the log pipeline: the record types of the shared crates it is built on, the
    checkpoint state kept for every input (src/src/state_store/log_checkpoint_state.rs), the
    stores of that state and of the global sequence number, and the container identity of a
    source path (src/src/telemetry/container_ref.rs). *)
From S2P Require Import Prelude Host Text.

(** * External types

    [wist_shared::records]: the delimiter that infers record boundaries, of which src/ holds the
    boundary signals and the limits.  [Record], [Limits], [Line] and [Completion] are written as
    complete literals and matched exhaustively in src/, so their fields and cases are known. *)

Inductive Completion := CBoundary | CDeadline | COversized.

Record LogRecord := mk_record {
  body : string;
  start_offset : Z;
  end_offset : Z;
  rlines : Z;
  completion : Completion;
}.

Definition set_completion (c : Completion) (r : LogRecord) : LogRecord :=
  mk_record (body r) (start_offset r) (end_offset r) (rlines r) c.

#[export] Instance Completion_eq_dec : EqDecision Completion.
Proof. solve_decision. Defined.
#[export] Instance LogRecord_eq_dec : EqDecision LogRecord.
Proof. solve_decision. Defined.

Record Limits := mk_limits { max_lines : Z; max_bytes : Z }.

Record Line := mk_line { l_text : string; l_start : Z; l_end : Z }.

Class LogContracts := {
  Boundary : Type;
  Starts : Boundary;
  Neither : Boundary;
  Start : Type;
  WaitForStart : Start;
  (** [records::indented]. *)
  indented : string → Boundary;
  Delimiter : Type;
  delimiter_new : Limits → Start → Delimiter;
  delimiter_resume : Limits → Start → LogRecord → Delimiter;
  (** [Delimiter::push]: the records it seals, and its state after the line. *)
  delimiter_push : Line → (string → Boundary) → Delimiter → list LogRecord * Delimiter;
  into_pending : Delimiter → option LogRecord;

  (** [wist_contracts::telemetry_record]. *)
  ContainerRef : Type;
  TelemetryRecord : Type;
  (** [new_log(agent_id, observed_at, input_id, source_path, body, start, end, seq)]. *)
  new_log : string → string → string → string → string → Z → Z → Z → TelemetryRecord;
  with_origin : string → string → TelemetryRecord → TelemetryRecord;
  with_container : option ContainerRef → TelemetryRecord → TelemetryRecord;
  tr_body : TelemetryRecord → string;
  tr_input_id : TelemetryRecord → string;
  tr_source_path : TelemetryRecord → string;
  tr_agent_id : TelemetryRecord → string;
  TelemetryRecord_json :: Json TelemetryRecord;

  LOG_SCHEMA_VERSION_V1 : string;
}.

(** What the pipeline relies on of a serialised telemetry record: it is one line of UTF-8
    that ends in no line terminator, is not blank, and parses without the newline too. *)
Class LogLaws `{LogContracts} : Prop := {
  record_parses : ∀ r : TelemetryRecord, from_json (to_json r) = Ok r;
  record_one_line : ∀ r : TelemetryRecord, has_char newline (to_json r) = false;
  record_not_blank : ∀ r : TelemetryRecord, is_blank (to_json r +:+ nl) = false;
  record_utf8 : ∀ r : TelemetryRecord, utf8_valid (to_json r +:+ nl) = true;
  record_end : ∀ r : TelemetryRecord, ∃ a, last_char (to_json r) = Some a ∧
    code a ≠ 13%Z ∧ code a ≠ 10%Z;
}.

(** [InputOrigin] of src/src/telemetry/logs/mod.rs. *)
Record InputOrigin := mk_origin { family : string; unit_ : string }.

(** * src/src/telemetry/container_ref.rs *)
Module container_ref.
Section ContainerRef.
Context `{LogContracts}.

(** [Iterator::rposition]. *)
Definition rposition {A} (p : A → bool) (l : list A) : option nat :=
  (λ i, length l - 1 - i) <$> position p (rev l).

(** [resolve] reads the container's configuration file through a process-wide cache keyed by
    modification time and size, which the host model does not have: it is an argument. *)
Definition for_source_path (resolve : string → string → option ContainerRef) (path : string)
    : option ContainerRef :=
  if negb (starts_with "/" path) then None
  else
    let parts := List.filter (λ part, negb (String.eqb part "")) (split_on slash path) in
    index ← rposition (String.eqb "containers") parts;
    id ← parts !! S index;
    if Nat.leb (length parts) (index + 2) || String.eqb id "" then None
    else
      let config :=
        "/" +:+ join "/" (take (S index) parts) +:+ "/" +:+ id +:+ "/config.v2.json" in
      resolve config id.
End ContainerRef.
End container_ref.

(** The container lookup of a source path while a batch is processed. *)
Class ContainerLookup `{LogContracts} := {
  resolve_container : string → string → option ContainerRef;
}.

(** * src/src/state_store/log_checkpoint_state.rs *)

Record PendingMultilineState := mk_pending {
  pm_source_path : string;
  pm_last_updated_at : string;
  pm_record : LogRecord;
}.

Record TrackedFileCheckpoint := mk_tracked {
  file_id : string;
  tf_path : string;
  tf_device_id : option Z;
  tf_inode : option Z;
  tf_fingerprint : option string;
  checkpoint_offset : Z;
  tf_probe : option string;
  last_size : option Z;
  last_read_at : option string;
  last_commit_point_at : option string;
  rotated_from_path : option string;
  real_path : string;
  tf_pending : option PendingMultilineState;
}.

Record LogCheckpointState := mk_checkpoint_state {
  lc_schema_version : string;
  lc_input_id : string;
  lc_updated_at : string;
  lc_next_seq : Z;
  last_scan_ms : option Z;
  pending_multiline : option PendingMultilineState;
  tracked : list TrackedFileCheckpoint;
}.

#[export] Instance PendingMultilineState_eq_dec : EqDecision PendingMultilineState.
Proof. solve_decision. Defined.
#[export] Instance TrackedFileCheckpoint_eq_dec : EqDecision TrackedFileCheckpoint.
Proof. solve_decision. Defined.
#[export] Instance LogCheckpointState_eq_dec : EqDecision LogCheckpointState.
Proof. solve_decision. Defined.

Definition LogCheckpointState_new `{LogContracts} (input_id updated_at : string)
    : LogCheckpointState :=
  mk_checkpoint_state LOG_SCHEMA_VERSION_V1 input_id updated_at 0 None None [].

Definition set_tracked (fs : list TrackedFileCheckpoint) (s : LogCheckpointState) :=
  mk_checkpoint_state (lc_schema_version s) (lc_input_id s) (lc_updated_at s) (lc_next_seq s)
    (last_scan_ms s) (pending_multiline s) fs.
Definition set_pending (p : option PendingMultilineState) (s : LogCheckpointState) :=
  mk_checkpoint_state (lc_schema_version s) (lc_input_id s) (lc_updated_at s) (lc_next_seq s)
    (last_scan_ms s) p (tracked s).
Definition set_updated_at (t : string) (s : LogCheckpointState) :=
  mk_checkpoint_state (lc_schema_version s) (lc_input_id s) t (lc_next_seq s)
    (last_scan_ms s) (pending_multiline s) (tracked s).

(** [LogSeqState] of src/src/state_store/log_seq_state.rs. *)
Record LogSeqState := mk_seq_state { ls_next_seq : Z }.

Class LogCodecs := {
  checkpoint_json :: Json LogCheckpointState;
  seq_json :: Json LogSeqState;
}.

(** * The stores *)
Section Stores.
Context `{Host} `{LogContracts} `{LogCodecs}.

(** [match metadata(path) { Ok => read, NotFound => default, Err => Err }], the shape of both
    loads. *)
Definition load_or `{Json A} {B} (path : string) (found : A → B) (absent : M World B) : M World B :=
  r ← try (fs_metadata path);
  match r with
  | Ok _ => a ← read_json_async path; mret (found a)
  | Err err => if decide (io_kind err = NotFound) then absent else throw err
  end.
End Stores.

Module log_checkpoints.
Section Store.
Context `{Host} `{LogContracts} `{LogCodecs}.

Definition load_or_default (input_id : string) : M World LogCheckpointState :=
  now ← now_rfc3339; mret (LogCheckpointState_new input_id now).

Definition path_for (state_dir input_id : string) : string :=
  path_join (path_join (path_join (path_join state_dir "logs") "file_inputs") input_id)
    "checkpoints.json".

Definition load_or_default_from_path_async (path input_id : string)
    : M World LogCheckpointState :=
  load_or path id (load_or_default input_id).

Definition store_async (path : string) (state : LogCheckpointState) : M World unit :=
  write_json_atomic_async path state.
End Store.
End log_checkpoints.

Module log_seq_state.
Section Store.
Context `{Host} `{LogContracts} `{LogCodecs}.

Definition path_for (state_dir : string) : string :=
  path_join (path_join state_dir "logs") "seq.json".

Definition load_or_default_async (path : string) : M World Z :=
  load_or path ls_next_seq (mret 0%Z).

Definition store_async (path : string) (next_seq : Z) : M World unit :=
  write_json_atomic_async path (mk_seq_state next_seq).
End Store.
End log_seq_state.

(** * Frames and outcomes of the stores *)
Section StoreLemmas.
Context `{Host} `{LogContracts} `{LogCodecs}.

Lemma load_or_respects (R : relation World) `{!PreOrder R} `{Json A} {B} p (f : A → B) d :
  respects R d → respects R (load_or p f d).
Proof.
  intros Hd. apply respects_bind; [done|by apply respects_try, fs_metadata_respects|].
  intros [?|e]; [|case_decide; [done|by apply respects_throw]].
  apply respects_bind; [done|by apply read_json_respects|intros ?; by apply respects_ret].
Qed.

Lemma checkpoint_load_run p input w r w' :
  log_checkpoints.load_or_default_from_path_async p input w = (r, w') → w' = w.
Proof.
  intros E. assert (Hr : respects eq (log_checkpoints.load_or_default_from_path_async p input)).
  { apply load_or_respects; [apply _|]. apply respects_bind; [apply _|by apply respects_gets, _|].
    intros ?. by apply respects_ret, _. }
  specialize (Hr w). rewrite E in Hr. by cbn in Hr.
Qed.

(** A sequence number stored is the one the next start reads. *)
Lemma seq_store_load p n w u w' : fs_fault OpRead p = None → fs_fault OpMetadata p = None →
  log_seq_state.store_async p n w = (Ok u, w') →
  log_seq_state.load_or_default_async p w' = (Ok n, w').
Proof.
  intros Hr Hm Hs. apply write_json_ok in Hs as ->.
  unfold log_seq_state.load_or_default_async, load_or, try, fs_metadata, guard_fault, act.
  unfold mbind at 1, M_bind at 1. unfold mbind at 1, M_bind at 1. rewrite Hm.
  rewrite (fs_exists_lookup p _ _ (wrote_lookup _ _ _)).
  unfold mbind, M_bind. by rewrite read_after_wrote.
Qed.
End StoreLemmas.
