(* ===== verification/Reader.v ===== *)
(** Reading complete lines from a tracked log file
    (src/src/telemetry/logs/files/file_reader.rs): the buffered reader, the bounded line
    buffer, the loop with its line and byte budgets, file identities and checkpoint probes.

    The bytes of a file are those of the world when it is opened.  How many of them one
    [fill_buf] delivers is up to the system: [fill_sizes] is any list of sizes. *)
From stdpp Require Import pretty.
From S2P Require Import Prelude Host Text Telemetry.

(** What the host tells of a file besides its content. *)
Class FileMeta `{Host} := {
  meta_dev : string → World → Z;
  meta_ino : string → World → Z;
  canonicalize : string → World → result string;
  fill_sizes : string → World → list nat;
}.

Definition CHECKPOINT_PROBE_BYTES : nat := 16.

Record ReadLimits := mk_read_limits {
  max_line_bytes : Z;
  rl_max_bytes : Z;
  rl_max_lines : Z;
}.

Definition ReadLimits_new (max_line_bytes max_bytes max_lines : Z) : ReadLimits :=
  mk_read_limits (Z.max max_line_bytes 1) (Z.max max_bytes 1) (Z.max max_lines 1).

Record ObservedFileIdentity := mk_identity {
  device_id : option Z;
  inode : option Z;
  fingerprint_of : option string;
  file_len : Z;
}.

Record RawFileLine := mk_raw_line { text : string; rl_start : Z; rl_end : Z }.

Record ReadFromOffset := mk_read {
  identity : ObservedFileIdentity;
  lines : list RawFileLine;
  committed_end_offset : Z;
  truncated_lines : Z;
}.

(** * Identities *)
Section Identity.
Context `{FileMeta}.

Definition nibble_to_hex (value : Z) : ascii :=
  if Z.leb value 9 then ascii_of_N (Z.to_N (48 + value)) else ascii_of_N (Z.to_N (97 + (value - 10))).

Fixpoint fingerprint (bytes : string) : string :=
  match bytes with
  | EmptyString => ""
  | String byte rest =>
      String (nibble_to_hex (Z.shiftr (code byte) 4))
        (String (nibble_to_hex (Z.land (code byte) 0x0f)) (fingerprint rest))
  end.

Definition open_file (path : string) : M World string :=
  fs_read path.

Definition identity_from_metadata (path content prefix : string) (w : World)
    : ObservedFileIdentity :=
  mk_identity (Some (meta_dev path w)) (Some (meta_ino path w)) (Some (fingerprint prefix))
    (str_len content).

Definition read_prefix_async (content : string) : string := str_take 32 content.

Definition inspect_path_async (path : string) : M World ObservedFileIdentity :=
  content ← open_file path;
  guard_fault OpMetadata path;;
  gets (identity_from_metadata path content (read_prefix_async content)).

Definition canonical_key_path_async (path : string) : M World string :=
  gets (λ w, match canonicalize path w with Ok p => p | Err _ => path end).

Definition stable_file_id_async (path : string) (identity : ObservedFileIdentity)
    : M World string :=
  match device_id identity, inode identity with
  | Some device_id, Some inode =>
      mret ("dev:" +:+ pretty device_id +:+ ":ino:" +:+ pretty inode)
  | _, _ =>
      canonical ← canonical_key_path_async path;
      mret (match fingerprint_of identity with
            | Some fp => "path:" +:+ canonical +:+ ":fingerprint:" +:+ fp
            | None => "path:" +:+ canonical
            end)
  end.

Definition checkpoint_probe_async (path : string) (checkpoint_offset : Z)
    : M World (option string) :=
  if Z.eqb checkpoint_offset 0 then mret None
  else
    content ← open_file path;
    let probe_len := min (Z.to_nat checkpoint_offset) CHECKPOINT_PROBE_BYTES in
    let probe_start := Z.to_nat checkpoint_offset - probe_len in
    let buf := str_take probe_len (str_drop probe_start content) in
    if Nat.ltb (String.length buf) probe_len
    then throw (MkIoError UnexpectedEof "failed to fill whole buffer")
    else mret (Some (fingerprint buf)).
End Identity.

(** * The buffered reader *)

Record BufReader := mk_reader { avail : string; unread : string; sizes : list nat }.

Definition fill_buf (r : BufReader) : BufReader :=
  match avail r with
  | EmptyString =>
      let n := max 1 (default (N.to_nat 8192) (head (sizes r))) in
      mk_reader (str_take n (unread r)) (str_drop n (unread r)) (tail (sizes r))
  | _ => r
  end.

Definition consume (n : nat) (r : BufReader) : BufReader :=
  mk_reader (str_drop n (avail r)) (unread r) (sizes r).

Definition pending_bytes (r : BufReader) : string := avail r +:+ unread r.

Fixpoint newline_pos (s : string) : option nat :=
  match s with
  | EmptyString => None
  | String a s => if Ascii.eqb a newline then Some 0 else S <$> newline_pos s
  end.

Record ReadChunk := mk_chunk { take_ : nat; has_newline : bool; bytes : string }.

Definition read_chunk_async (r : BufReader) : option ReadChunk * BufReader :=
  let r := fill_buf r in
  match avail r with
  | EmptyString => (None, r)
  | available =>
      (Some match newline_pos available with
            | Some pos => mk_chunk (pos + 1) true (str_take (pos + 1) available)
            | None => mk_chunk (String.length available) false available
            end, r)
  end.

(** One round consumes a byte or ends, so the bytes left bound the rounds. *)
Fixpoint skip_loop (fuel : nat) (skipped : Z) (r : BufReader) : Z * BufReader :=
  match fuel with
  | 0 => (skipped, r)
  | S fuel =>
      let r := fill_buf r in
      match avail r with
      | EmptyString => (skipped, r)
      | rest =>
          let '(take_, found_newline) :=
            match newline_pos rest with
            | Some pos => (pos + 1, true)
            | None => (String.length rest, false)
            end in
          let r := consume take_ r in
          let skipped := (skipped + Z.of_nat take_)%Z in
          if found_newline : bool then (skipped, r) else skip_loop fuel skipped r
      end
  end.

Definition skip_to_line_end_async (r : BufReader) : Z * BufReader :=
  skip_loop (S (String.length (pending_bytes r))) 0 r.

(** Appends without exceeding [max]; tells whether something was cut. *)
Definition append_bounded (buf chunk : string) (max : Z) : string * bool :=
  if Z.leb max (str_len buf) then (buf, true)
  else
    let room := (max - str_len buf)%Z in
    if Z.ltb room (str_len chunk) then (buf +:+ str_take (Z.to_nat room) chunk, true)
    else (buf +:+ chunk, false).

(** * The read loop *)

Record ReadState := mk_rs {
  rs_lines : list RawFileLine;
  rs_truncated : Z;
  rs_committed : Z;
  line_start : Z;
  line_consumed : Z;
  consumed_total : Z;
  line_buf : string;
  rs_reader : BufReader;
}.

(** One round of the loop: [None] is [break]. *)
Definition read_round (limits : ReadLimits) (st : ReadState) : option ReadState :=
  if Z.leb (rl_max_lines limits) (Z.of_nat (length (rs_lines st))) then None
  else if Z.eqb (line_consumed st) 0 && Z.leb (rl_max_bytes limits) (consumed_total st) then None
  else
    let '(chunk, reader) := read_chunk_async (rs_reader st) in
    chunk ← chunk;
    if Z.eqb (line_consumed st) 0 && Z.ltb 0 (consumed_total st)
       && Z.ltb (rl_max_bytes limits) (consumed_total st + Z.of_nat (take_ chunk)) then None
    else
      let '(line_buf, truncated) := append_bounded (line_buf st) (bytes chunk) (max_line_bytes limits) in
      let reader := consume (take_ chunk) reader in
      let line_consumed := (line_consumed st + Z.of_nat (take_ chunk))%Z in
      let consumed_total := (consumed_total st + Z.of_nat (take_ chunk))%Z in
      if negb (has_newline chunk) && negb truncated then
        Some (mk_rs (rs_lines st) (rs_truncated st) (rs_committed st) (line_start st)
                line_consumed consumed_total line_buf reader)
      else
        let '(skipped, reader) :=
          if has_newline chunk then (0%Z, reader) else skip_to_line_end_async reader in
        let line_consumed := (line_consumed + skipped)%Z in
        let consumed_total := (consumed_total + skipped)%Z in
        let end_ := (line_start st + line_consumed)%Z in
        Some (mk_rs
                (rs_lines st ++ [mk_raw_line (from_utf8_lossy line_buf) (line_start st) end_])
                (if truncated then rs_truncated st + 1 else rs_truncated st)%Z
                end_ end_ 0 consumed_total "" reader).

(** The state the loop ends in, and whether it ended within the fuel. *)
Fixpoint read_loop (fuel : nat) (limits : ReadLimits) (st : ReadState) : ReadState * bool :=
  match fuel with
  | 0 => (st, false)
  | S fuel =>
      match read_round limits st with
      | None => (st, true)
      | Some st => read_loop fuel limits st
      end
  end.

Definition read_start (content : string) (bounded_offset : Z) (sizes : list nat) : ReadState :=
  mk_rs [] 0 bounded_offset bounded_offset 0 0 ""
    (mk_reader "" (str_drop (Z.to_nat bounded_offset) content) sizes).

Section ReadFromOffset.
Context `{FileMeta}.

Definition read_from_offset_async (path : string) (start_offset : Z) (limits : ReadLimits)
    : M World ReadFromOffset :=
  content ← open_file path;
  guard_fault OpMetadata path;;
  identity ← gets (identity_from_metadata path content (read_prefix_async content));
  sizes ← gets (fill_sizes path);
  let bounded_offset := Z.min start_offset (file_len identity) in
  let st := (read_loop (S (String.length content)) limits
               (read_start content bounded_offset sizes)).1 in
  mret (mk_read identity (rs_lines st) (rs_committed st) (rs_truncated st)).
End ReadFromOffset.

(** * What the loop reads

    The bytes from the start offset are cut into raw lines and a tail; [render] is how raw
    lines are returned. *)
Section Tiling.
Implicit Types (r s : string) (rs : list string) (o : Z).

Definition sconcat rs : string := foldr String.append "" rs.

Fixpoint render (max o : Z) rs : list RawFileLine :=
  match rs with
  | [] => []
  | r :: rs =>
      mk_raw_line (from_utf8_lossy (str_take (Z.to_nat max) r)) o (o + str_len r)
        :: render max (o + str_len r) rs
  end.

Definition overlong (max : Z) r : bool := Z.ltb max (str_len r).
Definition count_overlong (max : Z) rs : Z := Z.of_nat (length (List.filter (overlong max) rs)).

(** A complete line: text without a newline, and the newline. *)
Definition terminated r : Prop := ∃ s, r = s +:+ nl ∧ has_char newline s = false.

(** Every raw line is complete, except that an over-long one may end the file. *)
Fixpoint raws_ok (max : Z) rs (rest : string) : Prop :=
  match rs with
  | [] => True
  | r :: rs =>
      (terminated r ∨
       (has_char newline r = false ∧ r ≠ "" ∧ overlong max r = true ∧ rs = [] ∧ rest = "")) ∧
      raws_ok max rs rest
  end.

Lemma sconcat_app rs1 rs2 : sconcat (rs1 ++ rs2) = sconcat rs1 +:+ sconcat rs2.
Proof.
  induction rs1 as [|r rs IH]; [done|].
  change (r +:+ sconcat (rs ++ rs2) = (r +:+ sconcat rs) +:+ sconcat rs2).
  by rewrite IH, app_assoc.
Qed.

Lemma sconcat_snoc rs r : sconcat (rs ++ [r]) = sconcat rs +:+ r.
Proof. rewrite sconcat_app. unfold sconcat at 2. cbn [foldr]. by rewrite app_nil_r. Qed.

Lemma render_app max o rs1 rs2 :
  render max o (rs1 ++ rs2) = render max o rs1 ++ render max (o + str_len (sconcat rs1)) rs2.
Proof.
  revert o. induction rs1 as [|r rs IH]; intros o; cbn [render app].
  - cbn. by rewrite Z.add_0_r.
  - rewrite IH. change (sconcat (r :: rs)) with (r +:+ sconcat rs).
    by rewrite str_len_app, Z.add_assoc.
Qed.

Lemma render_length max o rs : length (render max o rs) = length rs.
Proof. revert o. induction rs as [|r rs IH]; intros o; cbn; [done|]. by rewrite IH. Qed.

Lemma count_overlong_snoc max rs r :
  count_overlong max (rs ++ [r]) =
    (if overlong max r then count_overlong max rs + 1 else count_overlong max rs)%Z.
Proof.
  unfold count_overlong. rewrite List.filter_app, length_app. cbn [List.filter].
  destruct (overlong max r); cbn; lia.
Qed.

Lemma raws_ok_snoc max rs r rest : r ≠ "" → raws_ok max rs (r +:+ rest) →
  (terminated r ∨ (has_char newline r = false ∧ overlong max r = true ∧ rest = "")) →
  raws_ok max (rs ++ [r]) rest.
Proof.
  intros Hr Hrs Hnew. induction rs as [|x rs IH]; cbn [app raws_ok].
  - split; [|done]. destruct Hnew as [|(? & ? & ?)]; [by left|right]. naive_solver.
  - destruct Hrs as [[Hx|(_ & _ & _ & _ & Hx)] Hrs].
    + split; [by left|]. by apply IH.
    + by destruct r.
Qed.
End Tiling.

(** * The calls of the buffered reader *)
Section BufReaderLemmas.
Implicit Types (r : BufReader) (s : string).

Lemma fill_buf_pending r : pending_bytes (fill_buf r) = pending_bytes r.
Proof.
  unfold fill_buf, pending_bytes. destruct (avail r) eqn:E; [|by rewrite E].
  cbn -[max]. rewrite str_take_drop. done.
Qed.

Lemma fill_buf_empty r : avail (fill_buf r) = "" → pending_bytes r = "".
Proof.
  unfold fill_buf, pending_bytes. destruct (avail r) eqn:E; [|by rewrite E].
  cbn [avail]. rewrite app_nil_l. destruct (unread r) eqn:E'; [done|].
  destruct (max 1 _) eqn:Em; [lia|done].
Qed.

Lemma newline_pos_Some s p : newline_pos s = Some p →
  ∃ u v, s = u +:+ nl +:+ v ∧ has_char newline u = false ∧ String.length u = p.
Proof.
  revert p. induction s as [|a s IH]; intros p; [done|]. cbn.
  destruct (Ascii.eqb_spec a newline) as [->|Ha].
  - intros [= <-]. by exists "", s.
  - destruct (newline_pos s) as [q|]; [|done]. intros [= <-].
    destruct (IH q eq_refl) as (u & v & -> & Hu & <-). exists (String a u), v.
    rewrite has_char_cons. apply Ascii.eqb_neq in Ha. rewrite Ha. done.
Qed.

Lemma newline_pos_None s : newline_pos s = None → has_char newline s = false.
Proof.
  induction s as [|a s IH]; [done|]. cbn [newline_pos]. rewrite has_char_cons.
  destruct (Ascii.eqb a newline); [done|]. destruct (newline_pos s); [done|]. auto.
Qed.

(** Taking [u] off the buffer. *)
Lemma consume_pending r u v : avail r = u +:+ v →
  pending_bytes r = u +:+ pending_bytes (consume (String.length u) r).
Proof.
  intros Ha. unfold pending_bytes, consume. cbn. by rewrite Ha, str_drop_app_length, app_assoc.
Qed.

(** What a chunk is: a piece of the file that either ends the line or has no newline. *)
Definition piece (u : string) (ended : bool) : Prop :=
  u ≠ "" ∧ if ended then terminated u else has_char newline u = false.

Lemma take_piece r a s : avail r = String a s →
  let '(n, ended) :=
    match newline_pos (avail r) with Some p => (p + 1, true) | None => (String.length (avail r), false) end in
  ∃ u, pending_bytes r = u +:+ pending_bytes (consume n r) ∧ str_take n (avail r) = u ∧
    n = String.length u ∧ piece u ended.
Proof.
  intros Ha. destruct (newline_pos (avail r)) as [p|] eqn:E.
  - apply newline_pos_Some in E as (u & v & Hu & Hn & <-).
    exists (u +:+ nl). assert (Hl : String.length u + 1 = String.length (u +:+ nl)).
    { by rewrite length_app_string. }
    rewrite app_assoc in Hu. rewrite Hl.
    split; [by apply consume_pending with v|]. split; [by rewrite Hu, str_take_app_length|].
    split; [done|]. split; [by destruct u|]. by exists u.
  - exists (avail r). split; [apply consume_pending with ""; by rewrite app_nil_r|].
    split; [by apply str_take_all|]. split; [done|]. split; [by rewrite Ha|].
    by apply newline_pos_None.
Qed.

Lemma read_chunk_spec r c r' : read_chunk_async r = (c, r') →
  match c with
  | None => pending_bytes r = ""
  | Some c => ∃ u, pending_bytes r = u +:+ pending_bytes (consume (take_ c) r') ∧
      bytes c = u ∧ take_ c = String.length u ∧ piece u (has_newline c)
  end.
Proof.
  unfold read_chunk_async. intros Hr. destruct (avail (fill_buf r)) as [|a s] eqn:E.
  - injection Hr as <- <-. by apply fill_buf_empty.
  - pose proof (take_piece (fill_buf r) a s E) as Hp.
    rewrite E in Hp. rewrite fill_buf_pending in Hp.
    destruct (newline_pos (String a s)) as [p|]; destruct Hp as (u & Hp & Hb & Hn & Hpc);
      injection Hr as <- <-; exists u; (split; [done|]); (split; [|done]); cbn [bytes].
    + done.
    + rewrite <-Hb. symmetry. by apply str_take_all.
Qed.

Lemma skip_loop_spec fuel k r k' r' : String.length (pending_bytes r) < fuel →
  skip_loop fuel k r = (k', r') →
  ∃ u, pending_bytes r = u +:+ pending_bytes r' ∧ k' = (k + str_len u)%Z ∧
    (terminated u ∨ (has_char newline u = false ∧ pending_bytes r' = "")).
Proof.
  revert k r. induction fuel as [|fuel IH]; intros k r Hf Hs; [lia|]. cbn [skip_loop] in Hs.
  destruct (avail (fill_buf r)) as [|a s] eqn:E.
  - injection Hs as <- <-. pose proof (fill_buf_empty r E) as Hp. exists "".
    rewrite fill_buf_pending.
    split_and!; [done|unfold str_len; cbn; lia|by right].
  - pose proof (take_piece (fill_buf r) a s E) as Hp. rewrite E in Hp.
    rewrite fill_buf_pending in Hp.
    destruct (match newline_pos (String a s) with Some p => _ | None => _ end) as [n ended].
    destruct Hp as (u & Hp & _ & -> & Hne & Hu). destruct ended.
    + injection Hs as <- <-. exists u. split_and!; [done|done|by left].
    + apply IH in Hs as (u' & Hp' & -> & Hu').
      2:{ rewrite Hp, length_app_string in Hf. destruct u; [done|]. cbn [String.length] in *. lia. }
      exists (u +:+ u'). rewrite <-app_assoc, <-Hp'. split_and!; [done|rewrite str_len_app; unfold str_len; lia|].
      destruct Hu' as [(v & -> & Hv)|[Hv ?]].
      * left. exists (u +:+ v). by rewrite app_assoc, has_char_app, Hu.
      * right. by rewrite has_char_app, Hu.
Qed.

Lemma append_bounded_spec max cur chunk : (str_len cur ≤ max)%Z → chunk ≠ "" →
  append_bounded cur chunk max = (str_take (Z.to_nat max) (cur +:+ chunk), overlong max (cur +:+ chunk)).
Proof.
  intros Hc Hne. unfold append_bounded, overlong. rewrite str_len_app.
  assert (Hpos : (0 < str_len chunk)%Z) by (destruct chunk; [done|unfold str_len; cbn; lia]).
  assert (Htk : str_take (Z.to_nat max) (cur +:+ chunk) =
    cur +:+ str_take (Z.to_nat (max - str_len cur)) chunk).
  { clear Hpos Hne. revert max Hc. induction cur as [|a cur IH]; intros max Hc.
    - rewrite !app_nil_l. do 2 f_equal. unfold str_len. cbn. lia.
    - rewrite !app_cons. unfold str_len in *. cbn [String.length] in *.
      destruct (Z.to_nat max) as [|n] eqn:En; [lia|]. cbn [str_take]. f_equal.
      replace n with (Z.to_nat (max - 1)) by lia. rewrite IH by lia. do 2 f_equal. lia. }
  rewrite Htk. destruct (Z.leb_spec max (str_len cur)).
  - replace (Z.to_nat (max - str_len cur)) with 0 by lia. cbn. rewrite app_nil_r.
    f_equal. symmetry. apply Z.ltb_lt. lia.
  - destruct (Z.ltb_spec (max - str_len cur) (str_len chunk)).
    + f_equal. symmetry. apply Z.ltb_lt. lia.
    + rewrite str_take_all by (unfold str_len in *; lia). f_equal. symmetry. apply Z.ltb_ge. lia.
Qed.
End BufReaderLemmas.

(** * The loop's invariant *)
Section ReadLoop.
Context (limits : ReadLimits) (full : string) (b : Z).
Implicit Types (raws : list string) (cur : string) (st : ReadState).

(** Only a line started within the byte budget is read. *)
Definition within_budget raws : Prop :=
  ∀ rs r, raws = rs ++ [r] → (str_len (sconcat rs) < rl_max_bytes limits)%Z.

(** The loop has returned [raws] and holds the part [cur] of the next line. *)
Record reading raws cur st : Prop := {
  rd_full : full = sconcat raws +:+ cur +:+ pending_bytes (rs_reader st);
  rd_lines : rs_lines st = render (max_line_bytes limits) b raws;
  rd_truncated : rs_truncated st = count_overlong (max_line_bytes limits) raws;
  rd_committed : rs_committed st = (b + str_len (sconcat raws))%Z;
  rd_start : line_start st = (b + str_len (sconcat raws))%Z;
  rd_consumed : line_consumed st = str_len cur;
  rd_total : consumed_total st = (str_len (sconcat raws) + str_len cur)%Z;
  rd_buf : line_buf st = cur;
  rd_cur : (str_len cur ≤ max_line_bytes limits)%Z;
  rd_open : has_char newline cur = false;
  rd_ok : raws_ok (max_line_bytes limits) raws (cur +:+ pending_bytes (rs_reader st));
  rd_started : cur ≠ "" → (str_len (sconcat raws) < rl_max_bytes limits)%Z;
  rd_budget : within_budget raws;
  rd_count : raws ≠ [] → (Z.of_nat (length raws) ≤ rl_max_lines limits)%Z;
}.

Lemma str_len_zero s : Z.eqb (str_len s) 0 = String.eqb s "".
Proof. by destruct s. Qed.

Lemma str_len_nil : str_len "" = 0%Z.
Proof. done. Qed.

(** The line completed by the piece [u] and what was skipped after it. *)
Lemma reading_push raws cur st u k r' : reading raws cur st → u ≠ "" →
  cur +:+ pending_bytes (rs_reader st) = u +:+ pending_bytes r' →
  (terminated u ∨ (has_char newline u = false ∧ overlong (max_line_bytes limits) u = true ∧
    pending_bytes r' = "")) →
  (cur = "" → str_len (sconcat raws) < rl_max_bytes limits)%Z →
  (Z.of_nat (length raws) < rl_max_lines limits)%Z →
  (0 ≤ max_line_bytes limits)%Z → k = str_len u →
  reading (raws ++ [u]) ""
    (mk_rs (rs_lines st ++ [mk_raw_line (from_utf8_lossy (str_take (Z.to_nat (max_line_bytes limits)) u))
                              (line_start st) (line_start st + k)])
       (if overlong (max_line_bytes limits) u then rs_truncated st + 1 else rs_truncated st)%Z
       (line_start st + k) (line_start st + k) 0 (str_len (sconcat raws) + k) "" r').
Proof.
  intros Hr Hu Hrest Hend Hstart Hcount Hm ->. destruct Hr.
  assert (Hlen : str_len (sconcat (raws ++ [u])) = (str_len (sconcat raws) + str_len u)%Z).
  { by rewrite sconcat_snoc, str_len_app. }
  split; cbn [rs_reader rs_lines rs_truncated rs_committed line_start line_consumed
    consumed_total line_buf].
  - rewrite sconcat_snoc, app_nil_l, <-app_assoc, <-Hrest. done.
  - rewrite render_app. cbn [render]. by rewrite rd_lines0, rd_start0.
  - by rewrite count_overlong_snoc, rd_truncated0.
  - rewrite Hlen. lia.
  - rewrite Hlen. lia.
  - done.
  - rewrite Hlen, str_len_nil. lia.
  - done.
  - done.
  - done.
  - rewrite app_nil_l. apply raws_ok_snoc; [done|by rewrite <-Hrest|done].
  - done.
  - intros rs r [-> _]%app_inj_tail. destruct cur; auto.
  - intros _. rewrite length_app. cbn. lia.
Qed.

(** A round goes on with fewer bytes left, keeping the invariant. *)
Lemma read_round_step raws cur st st' : (1 ≤ max_line_bytes limits)%Z →
  reading raws cur st → read_round limits st = Some st' →
  (∃ raws' cur', reading raws' cur' st') ∧
  String.length (pending_bytes (rs_reader st')) < String.length (pending_bytes (rs_reader st)).
Proof.
  intros Hm Hr. unfold read_round.
  destruct (Z.leb_spec (rl_max_lines limits) (Z.of_nat (length (rs_lines st)))) as [|Hl]; [done|].
  rewrite (rd_lines _ _ _ Hr), render_length in Hl. rewrite (rd_consumed _ _ _ Hr), str_len_zero.
  destruct (String.eqb cur "" && _) eqn:Hb1; [done|].
  destruct (read_chunk_async (rs_reader st)) as [[c|] r1] eqn:Hc; [|done].
  apply read_chunk_spec in Hc as (u & Hpend & Hby & Htake & Hune & Hpiece).
  cbn [mbind option_bind]. destruct (_ && _ && _) eqn:Hb2; [done|]. rewrite Hby, Htake.
  rewrite (rd_buf _ _ _ Hr), append_bounded_spec by (done || apply Hr).
  rewrite Htake in Hpend. set (r2 := consume (String.length u) r1) in *.
  assert (Hlt : String.length (pending_bytes r2) < String.length (pending_bytes (rs_reader st))).
  { rewrite Hpend, length_app_string. destruct u; [done|]. cbn [String.length]. lia. }
  assert (Hstart : (cur = "" → str_len (sconcat raws) < rl_max_bytes limits)%Z).
  { intros ->. cbn in Hb1. apply Z.leb_gt in Hb1. rewrite (rd_total _ _ _ Hr) in Hb1.
    rewrite str_len_nil in Hb1. lia. }
  assert (Hcat : cur +:+ pending_bytes (rs_reader st) = (cur +:+ u) +:+ pending_bytes r2).
  { by rewrite Hpend, app_assoc. }
  assert (Hcne : cur +:+ u ≠ "") by (by destruct cur).
  fold (str_len u). rewrite (rd_total _ _ _ Hr).
  destruct (has_newline c) eqn:Hnl; cbn [negb andb].
  - intros [= <-]. cbn [rs_reader]. split; [|done]. exists (raws ++ [cur +:+ u]), "".
    rewrite Z.add_0_r, <-!Z.add_assoc, Z.add_0_r.
    apply (reading_push raws cur); try done; [|lia|by rewrite str_len_app].
    left. destruct Hpiece as (v & -> & Hv). exists (cur +:+ v).
    by rewrite app_assoc, has_char_app, (rd_open _ _ _ Hr).
  - assert (Hopen : has_char newline (cur +:+ u) = false)
      by (by rewrite has_char_app, (rd_open _ _ _ Hr)).
    destruct (overlong (max_line_bytes limits) (cur +:+ u)) eqn:Hov; cbn [negb].
    + destruct (skip_to_line_end_async r2) as [k r3] eqn:Hsk. intros [= <-]. cbn [rs_reader].
      apply skip_loop_spec in Hsk as (s & Hs & -> & Hend); [|lia].
      split; [|rewrite Hs in Hlt; rewrite length_app_string in Hlt; lia].
      exists (raws ++ [cur +:+ u +:+ s]), "".
      assert (Hov' : overlong (max_line_bytes limits) (cur +:+ u +:+ s) = true).
      { unfold overlong in *. rewrite app_assoc, str_len_app.
        pose proof (str_len_nonneg s). apply Z.ltb_lt in Hov. apply Z.ltb_lt. lia. }
      assert (Htk : str_take (Z.to_nat (max_line_bytes limits)) (cur +:+ u) =
        str_take (Z.to_nat (max_line_bytes limits)) (cur +:+ u +:+ s)).
      { rewrite app_assoc. unfold overlong, str_len in Hov. apply Z.ltb_lt in Hov.
        assert (Hlong : Z.to_nat (max_line_bytes limits) ≤ String.length (cur +:+ u)) by lia.
        clear -Hlong. revert Hlong. generalize (Z.to_nat (max_line_bytes limits)), (cur +:+ u).
        intros n t. revert t. induction n as [|n IH]; intros [|a t] Hn; [done..|cbn in Hn; lia|].
        rewrite app_cons. cbn [str_take]. rewrite (IH t); [done|cbn in Hn; lia]. }
      rewrite Htk. pose proof (reading_push raws cur st (cur +:+ u +:+ s)
        (str_len cur + (str_len u + str_len s)) r3 Hr) as Hpush. rewrite Hov' in Hpush.
      rewrite Z.add_0_l, <-!Z.add_assoc. apply Hpush; try done; try lia.
      * by destruct cur, u.
      * by rewrite Hcat, Hs, <-!app_assoc.
      * destruct Hend as [(v & -> & Hv)|[Hv ?]].
        -- left. exists (cur +:+ u +:+ v). rewrite <-!app_assoc. split; [done|].
           by rewrite app_assoc, has_char_app, Hopen.
        -- right. by rewrite app_assoc, has_char_app, Hopen.
      * by rewrite !str_len_app.
    + intros [= <-]. cbn [rs_reader]. split; [|done]. exists raws, (cur +:+ u).
      unfold overlong in Hov. apply Z.ltb_ge in Hov. destruct Hr.
      split; cbn [rs_reader rs_lines rs_truncated rs_committed line_start line_consumed
        consumed_total line_buf]; try done.
      * by rewrite <-Hcat.
      * by rewrite str_len_app.
      * rewrite str_len_app. lia.
      * rewrite str_take_all; [done|]. unfold str_len in Hov. lia.
      * by rewrite <-Hcat.
      * intros _. destruct cur; auto.
Qed.

Lemma split_line_open u v : has_char newline u = false →
  (split_line (u +:+ v)).1 = u +:+ (split_line v).1.
Proof.
  induction u as [|a u IH]; intros Hu; [done|]. rewrite has_char_cons in Hu.
  apply orb_false_iff in Hu as [Ha Hu]. rewrite !app_cons. cbn [split_line]. rewrite Ha.
  rewrite <-(IH Hu). by destruct (split_line (u +:+ v)).
Qed.

(** A chunk lies within the next line. *)
Lemma piece_in_line u v ended : piece u ended →
  (str_len u ≤ str_len (split_line (u +:+ v)).1)%Z.
Proof.
  intros [Hne Hu]. destruct ended.
  - destruct Hu as (s & -> & Hs). rewrite <-app_assoc, split_line_line by done. cbn [fst]. lia.
  - rewrite split_line_open by done. rewrite str_len_app. pose proof (str_len_nonneg (split_line v).1). lia.
Qed.

(** Why the loop stops: the end of the file, the number of lines, or a next line that the
    byte budget has no room for. *)
Lemma read_round_stop raws cur st : (1 ≤ rl_max_bytes limits)%Z →
  reading raws cur st → read_round limits st = None →
  pending_bytes (rs_reader st) = "" ∨
  (rl_max_lines limits ≤ Z.of_nat (length raws))%Z ∨
  (cur = "" ∧ raws ≠ [] ∧ (rl_max_bytes limits <
     str_len (sconcat raws) + str_len (split_line (pending_bytes (rs_reader st))).1)%Z).
Proof.
  intros Hmb Hr. unfold read_round.
  destruct (Z.leb_spec (rl_max_lines limits) (Z.of_nat (length (rs_lines st)))) as [Hl|_].
  { intros _. right; left. by rewrite (rd_lines _ _ _ Hr), render_length in Hl. }
  rewrite (rd_consumed _ _ _ Hr), (rd_total _ _ _ Hr), str_len_zero.
  assert (Hne : cur = "" → (0 < str_len (sconcat raws) + str_len cur)%Z → raws ≠ []).
  { intros -> H0 ->. done. }
  destruct (String.eqb_spec cur "") as [->|Hcur]; cbn [andb].
  - destruct (Z.leb_spec (rl_max_bytes limits) (str_len (sconcat raws) + str_len "")) as [Hb|_].
    + intros _. destruct (pending_bytes (rs_reader st)) as [|a p] eqn:Ep; [by left|]. right; right.
      split; [done|]. split; [apply Hne; [done|lia]|]. rewrite str_len_nil in Hb.
      destruct (split_line (String a p)) as [l r] eqn:E. cbn [fst].
      apply split_line_nonempty in E; [|done]. destruct l; [done|].
      unfold str_len at 2. cbn [String.length]. lia.
    + destruct (read_chunk_async (rs_reader st)) as [[c|] r1] eqn:Hc.
      2:{ intros _. left. by apply read_chunk_spec in Hc. }
      apply read_chunk_spec in Hc as (u & Hpend & _ & Htake & Hpiece).
      cbn [mbind option_bind]. rewrite str_len_nil, Z.add_0_r.
      destruct (_ && _) eqn:Hb2.
      2:{ destruct (append_bounded _ _ _). by repeat case_match. }
      intros _. apply andb_true_iff in Hb2 as [H0%Z.ltb_lt Hb2%Z.ltb_lt]. right; right.
      split; [done|]. split; [apply Hne; [done|rewrite str_len_nil; lia]|].
      rewrite Hpend, Htake in *. fold (str_len u) in Hb2.
      pose proof (piece_in_line u (pending_bytes (consume (String.length u) r1)) _ Hpiece). lia.
  - destruct (read_chunk_async (rs_reader st)) as [[c|] r1] eqn:Hc.
    2:{ intros _. left. by apply read_chunk_spec in Hc. }
    cbn [mbind option_bind]. destruct (append_bounded _ _ _). by repeat case_match.
Qed.

(** One round per byte, and one to stop, are enough; the loop ends in a stopped state. *)
Lemma read_loop_ends fuel raws cur st : (1 ≤ max_line_bytes limits)%Z →
  reading raws cur st → String.length (pending_bytes (rs_reader st)) < fuel →
  ∃ raws' cur' st', read_loop fuel limits st = (st', true) ∧ reading raws' cur' st' ∧
    read_round limits st' = None.
Proof.
  intros Hm. revert raws cur st. induction fuel as [|fuel IH]; intros raws cur st Hr Hf; [lia|].
  cbn [read_loop]. destruct (read_round limits st) as [st'|] eqn:E; [|eauto 6].
  destruct (read_round_step _ _ _ _ Hm Hr E) as [(raws' & cur' & Hr') Hlt].
  apply (IH raws' cur'); [done|lia].
Qed.
End ReadLoop.

Lemma reading_start limits content b sizes : (1 ≤ max_line_bytes limits)%Z →
  reading limits (str_drop (Z.to_nat b) content) b [] "" (read_start content b sizes).
Proof.
  intros Hm. split; try done; try (cbn; lia).
  - change (sconcat []) with "". rewrite str_len_nil. cbn. lia.
  - change (sconcat []) with "". rewrite str_len_nil. cbn. lia.
  - rewrite str_len_nil. lia.
  - intros rs r H. by apply app_cons_not_nil in H.
Qed.

(** * Reads of a file *)

(** What a read of [content] from [b] returned: the raw lines [raws], and what is left. *)
Record read_tiles (limits : ReadLimits) (content : string) (b : Z) (raws : list string)
    (tail : string) (rd : ReadFromOffset) : Prop := {
  rt_split : str_drop (Z.to_nat b) content = sconcat raws +:+ tail;
  rt_lines : lines rd = render (max_line_bytes limits) b raws;
  rt_truncated : truncated_lines rd = count_overlong (max_line_bytes limits) raws;
  rt_committed : committed_end_offset rd = (b + str_len (sconcat raws))%Z;
  rt_ok : raws_ok (max_line_bytes limits) raws tail;
  rt_count : raws ≠ [] → (Z.of_nat (length raws) ≤ rl_max_lines limits)%Z;
  rt_budget : within_budget limits raws;
  rt_stop : (has_char newline tail = false ∧ str_len tail ≤ max_line_bytes limits)%Z ∨
    (rl_max_lines limits ≤ Z.of_nat (length raws))%Z ∨
    (raws ≠ [] ∧
       rl_max_bytes limits < str_len (sconcat raws) + str_len (split_line tail).1)%Z;
}.

Definition sane_limits (limits : ReadLimits) : Prop :=
  (1 ≤ max_line_bytes limits ∧ 1 ≤ rl_max_bytes limits ∧ 1 ≤ rl_max_lines limits)%Z.

Lemma ReadLimits_new_sane a b c : sane_limits (ReadLimits_new a b c).
Proof. unfold sane_limits, ReadLimits_new. cbn. lia. Qed.

Section Reads.
Context `{FileMeta}.
Implicit Types (w : World) (path : string) (off : Z).

Lemma read_loop_tiles limits content b sizes identity : sane_limits limits →
  ∃ raws tail st, read_loop (S (String.length content)) limits (read_start content b sizes)
      = (st, true) ∧
    read_tiles limits content b raws tail
      (mk_read identity (rs_lines st) (rs_committed st) (rs_truncated st)).
Proof.
  intros (Hml & Hmb & Hmn).
  destruct (read_loop_ends limits (str_drop (Z.to_nat b) content) b (S (String.length content))
    [] "" (read_start content b sizes) Hml (reading_start limits content b sizes Hml))
    as (raws & cur & st & Hl & Hr & Hstop).
  { unfold read_start, pending_bytes. cbn [rs_reader avail unread]. rewrite app_nil_l, str_drop_length. lia. }
  exists raws, (cur +:+ pending_bytes (rs_reader st)), st. split; [done|].
  apply (read_round_stop _ _ _ _ _ _ Hmb Hr) in Hstop. destruct Hr.
  split; cbn [lines truncated_lines committed_end_offset]; try done.
  destruct Hstop as [->|[?|(-> & ? & ?)]]; [left|by right; left|right; right].
  - by rewrite app_nil_r.
  - by rewrite app_nil_l.
Qed.

Lemma read_from_offset_reads path off limits w rd w' : sane_limits limits →
  read_from_offset_async path off limits w = (Ok rd, w') →
  w' = w ∧ ∃ content raws tail, files w !! path = Some content ∧
    identity rd = identity_from_metadata path content (read_prefix_async content) w ∧
    read_tiles limits content (Z.min off (str_len content)) raws tail rd.
Proof.
  intros Hs Hr. unfold read_from_offset_async in Hr.
  apply bind_ok_inv in Hr as (content & w1 & Hc & Hr). apply fs_read_ok in Hc as [-> Hc].
  apply bind_ok_inv in Hr as ([] & w1 & Hg & Hr). apply guard_fault_ok in Hg as [-> _].
  unfold mbind, M_bind, gets in Hr. injection Hr as <- <-.
  split; [done|]. exists content. cbn [file_len identity_from_metadata].
  destruct (read_loop_tiles limits content (Z.min off (str_len content)) (fill_sizes path w)
    (identity_from_metadata path content (read_prefix_async content) w) Hs)
    as (raws & tail & st & E & Ht). cbn [read_loop] in E. rewrite E. cbn [fst]. eauto.
Qed.

Lemma read_from_offset_respects (R : relation World) `{!PreOrder R} path off limits :
  respects R (read_from_offset_async path off limits).
Proof. unfold read_from_offset_async, open_file. solve_respects. Qed.

Lemma inspect_path_run path w r w' : inspect_path_async path w = (r, w') → w' = w.
Proof.
  intros E. assert (Hr : respects eq (inspect_path_async path)).
  { unfold inspect_path_async, open_file. solve_respects. }
  specialize (Hr w). rewrite E in Hr. by cbn in Hr.
Qed.

Lemma checkpoint_probe_respects (R : relation World) `{!PreOrder R} path off :
  respects R (checkpoint_probe_async path off).
Proof. unfold checkpoint_probe_async, open_file. solve_respects. Qed.

(** A read only fails at the file: its loop does not run out of rounds. *)
Lemma read_from_offset_fails path off limits w e w' :
  read_from_offset_async path off limits w = (Err e, w') →
  is_Some (fs_fault OpRead path) ∨ is_Some (fs_fault OpMetadata path) ∨ files w !! path = None.
Proof.
  unfold read_from_offset_async, open_file, fs_read, guard_fault, act, gets, mbind, M_bind.
  destruct (fs_fault OpRead path); [by left; eexists|]. cbn. destruct (files w !! path); cbn; [|by right; right].
  destruct (fs_fault OpMetadata path); [by right; left; eexists|done].
Qed.

(** C40. Reading a tracked file returns, unless the file cannot be opened or looked at, an exact tiling of it: from
    the start offset (at most the file's length) the file is cut into consecutive raw lines, each returned with its
    offsets and its first [max_line_bytes] bytes, and the committed offset is where the last
    one ends.  Every line is complete (its only newline is its last byte), except an over-long
    one at the end of the file.  At most [max_lines] lines are returned, a line is only
    started within the byte budget, over-long lines are counted, and the loop only stops at
    a short unfinished tail, at [max_lines], or before a line the budget has no room for. *)
Theorem read_from_offset_tiles path off limits w : sane_limits limits →
  let '(r, w') := read_from_offset_async path off limits w in
  w' = w ∧
  match r with
  | Err _ => is_Some (fs_fault OpRead path) ∨ is_Some (fs_fault OpMetadata path) ∨ files w !! path = None
  | Ok rd => ∃ content raws tail, files w !! path = Some content ∧
      let b := Z.min off (str_len content) in
      str_drop (Z.to_nat b) content = sconcat raws +:+ tail ∧
      lines rd = render (max_line_bytes limits) b raws ∧
      committed_end_offset rd = (b + str_len (sconcat raws))%Z ∧
      truncated_lines rd = count_overlong (max_line_bytes limits) raws ∧
      raws_ok (max_line_bytes limits) raws tail ∧
      (Z.of_nat (length raws) ≤ rl_max_lines limits)%Z ∧
      within_budget limits raws ∧
      ((has_char newline tail = false ∧ str_len tail ≤ max_line_bytes limits)%Z ∨
       Z.of_nat (length raws) = rl_max_lines limits ∨
       (raws ≠ [] ∧
          rl_max_bytes limits < str_len (sconcat raws) + str_len (split_line tail).1)%Z)
  end.
Proof.
  intros Hs. destruct (read_from_offset_async path off limits w) as [[rd|e] w'] eqn:Hr.
  2:{ pose proof (read_from_offset_respects eq path off limits w) as He. rewrite Hr in He. split; [done|]. by eapply read_from_offset_fails. }
  apply read_from_offset_reads in Hr as (-> & content & raws & tail & Hc & _ & Ht);
    [|done]. destruct Hs as (_ & _ & Hmn).
  assert (Hcount : (Z.of_nat (length raws) ≤ rl_max_lines limits)%Z).
  { destruct (decide (raws = [])) as [->|Hne]; [cbn; lia|]. by apply Ht. }
  split; [done|]. exists content, raws, tail. destruct Ht.
  cbv zeta. do 8 (split; [done|]).
  destruct rt_stop0 as [?|[?|?]]; [by left|right; left; lia|by right; right].
Qed.

(** A read makes progress: when it returns nothing, the rest of the file is a single
    unfinished line within the line limit, so a line longer than the byte budget is never
    read again and again from its start. *)
Theorem read_makes_progress path off limits w rd w' : sane_limits limits → (0 ≤ off)%Z →
  read_from_offset_async path off limits w = (Ok rd, w') →
  (lines rd ≠ [] → (Z.min off (str_len (default "" (files w !! path))) < committed_end_offset rd)%Z) ∧
  (lines rd = [] → ∃ content, files w !! path = Some content ∧
     committed_end_offset rd = Z.min off (str_len content) ∧
     let rest := str_drop (Z.to_nat (Z.min off (str_len content))) content in
     has_char newline rest = false ∧ (str_len rest ≤ max_line_bytes limits)%Z).
Proof.
  intros Hs Hoff Hr. apply read_from_offset_reads in Hr as (-> & content & raws & tail & Hc & _ & Ht);
    [|done]. rewrite Hc. cbn [default]. destruct Ht, Hs as (_ & _ & Hmn). split; intros Hl.
  - rewrite rt_committed0. destruct raws as [|r raws]; [by rewrite rt_lines0 in Hl|].
    change (sconcat (r :: raws)) with (r +:+ sconcat raws). rewrite str_len_app.
    assert (r ≠ "") as Hne.
    { destruct rt_ok0 as [[(s & -> & _)|(_ & ? & _)] _]; [by destruct s|done]. }
    pose proof (str_len_nonneg (sconcat raws)). unfold id.
    assert (0 < str_len r)%Z by (destruct r; [done|unfold str_len; cbn [String.length]; lia]). lia.
  - rewrite rt_lines0 in Hl. destruct raws; [|done]. exists content.
    change (sconcat []) with "" in *. rewrite str_len_nil in *. rewrite app_nil_l in rt_split0.
    cbv zeta. rewrite rt_split0. split; [done|]. split; [lia|].
    destruct rt_stop0 as [?|[Hn|[? _]]]; [done|cbn in Hn; lia|done].
Qed.

(** An unfinished line longer than the line limit is committed although its newline has
    not been written yet: the rest of that line, once written, starts in the middle of it. *)
Theorem overlong_tail_committed path limits w rd w' content : sane_limits limits →
  files w !! path = Some content →
  has_char newline content = false → (max_line_bytes limits < str_len content)%Z →
  read_from_offset_async path 0 limits w = (Ok rd, w') →
  committed_end_offset rd = str_len content ∧ truncated_lines rd = 1%Z ∧
  lines rd = [mk_raw_line (from_utf8_lossy (str_take (Z.to_nat (max_line_bytes limits)) content))
                0 (str_len content)].
Proof.
  intros Hs Hc Hn Hlong Hr.
  apply read_from_offset_reads in Hr as (_ & content' & raws & tail & Hc' & _ & Ht); [|done].
  assert (content' = content) as -> by congruence. clear Hc'.
  pose proof (str_len_nonneg content). destruct Hs as (_ & _ & Hmn), Ht.
  rewrite (Z.min_l 0) in * by done.
  change (str_drop (Z.to_nat 0) content) with content in rt_split0.
  assert (raws = [content]) as ->.
  { destruct raws as [|r raws].
    - change (sconcat []) with "" in *. rewrite app_nil_l in rt_split0. subst tail.
      destruct rt_stop0 as [[? ?]|[Hk|[? _]]]; [lia|cbn in Hk; lia|done].
    - change (sconcat (r :: raws)) with (r +:+ sconcat raws) in rt_split0.
      destruct rt_ok0 as [[(s & -> & _)|(_ & _ & _ & -> & ->)] _].
      + rewrite rt_split0, !has_char_app in Hn. by rewrite orb_true_r in Hn.
      + change (sconcat []) with "" in rt_split0. by rewrite !app_nil_r in rt_split0; subst. }
  assert (Hcat : sconcat [content] = content) by (apply app_nil_r).
  rewrite Hcat in rt_committed0. split_and!; [lia| |done].
  rewrite rt_truncated0. unfold count_overlong, overlong. cbn [List.filter].
  by rewrite (proj2 (Z.ltb_lt _ _) Hlong).
Qed.
End Reads.

(** * A concrete file system and the witnesses *)
Module ConcreteFiles.
Export Host.Concrete.
(** One device; the inode of a file is the code of its first byte, so it follows a rename. *)
#[export] Instance toy_meta : FileMeta := {|
  meta_dev _ _ := 1%Z;
  meta_ino p w :=
    match files w !! p with Some (String a _) => code a | _ => 0%Z end;
  canonicalize p _ := Ok p;
  fill_sizes _ _ := [2; 3];
|}.

Definition toy_limits : ReadLimits := ReadLimits_new 4 8 10.
Definition toy_log : string := "ab" +:+ nl +:+ "cdefg" +:+ nl +:+ "hi" +:+ nl +:+ "j".
Definition toy_files (content : string) : World :=
  MkWorld _ {[ "l/app.log" := content ]} {[ "l" ]} 0 ∅.
Definition toy_read (w : World) (off : Z) (limits : ReadLimits) : ReadFromOffset :=
  match read_from_offset_async "l/app.log" off limits w with
  | (Ok rd, _) => rd
  | _ => mk_read (mk_identity None None None 0) [] 0 0
  end.

Lemma toy_limits_sane : sane_limits toy_limits.
Proof. apply ReadLimits_new_sane. Qed.

Example toy_read_lines : lines (toy_read (toy_files toy_log) 0 (ReadLimits_new 4 100 10)) =
  [mk_raw_line ("ab" +:+ nl) 0 3; mk_raw_line "cdef" 3 9; mk_raw_line ("hi" +:+ nl) 9 12].
Proof. vm_compute. reflexivity. Qed.
End ConcreteFiles.
Import ConcreteFiles.

Lemma read_from_offset_tiles_witness :
  let rd := toy_read (toy_files toy_log) 0 toy_limits in
  sane_limits toy_limits ∧ length (lines rd) = 2 ∧ truncated_lines rd = 1%Z ∧
  ∃ raws tail, toy_log = sconcat raws +:+ tail ∧ lines rd = render 4 0 raws.
Proof.
  intros rd. split; [exact toy_limits_sane|]. split; [vm_compute; reflexivity|].
  split; [vm_compute; reflexivity|].
  assert (Hrun : read_from_offset_async "l/app.log" 0 toy_limits (toy_files toy_log) =
    (Ok rd, toy_files toy_log)) by (vm_compute; reflexivity).
  pose proof (read_from_offset_tiles "l/app.log" 0 toy_limits (toy_files toy_log) toy_limits_sane) as Ht.
  rewrite Hrun in Ht. destruct Ht as (_ & content & raws & tail & Hc & Hsplit & Hl & _).
  assert (content = toy_log) as -> by (cbn [files toy_files] in Hc; rewrite lookup_singleton_eq in Hc;
    injection Hc; congruence).
  exists raws, tail. split; [exact Hsplit|exact Hl].
Defined.

Lemma read_makes_progress_witness :
  let rd := toy_read (toy_files toy_log) 12 toy_limits in
  sane_limits toy_limits ∧ lines rd = [] ∧
  ∃ content, files (toy_files toy_log) !! "l/app.log" = Some content ∧
     committed_end_offset rd = Z.min 12 (str_len content).
Proof.
  intros rd. split; [exact toy_limits_sane|].
  assert (Hl : lines rd = []) by (vm_compute; reflexivity). split; [exact Hl|].
  assert (Hrun : read_from_offset_async "l/app.log" 12 toy_limits (toy_files toy_log) =
    (Ok rd, toy_files toy_log)) by (vm_compute; reflexivity).
  destruct (read_makes_progress "l/app.log" 12 toy_limits (toy_files toy_log) rd _
    toy_limits_sane ltac:(lia) Hrun) as [_ Hp].
  destruct (Hp Hl) as (content & Hc & Ho & _). exists content. split; [exact Hc|exact Ho].
Defined.

(** The first read commits the unfinished line; the read after the line was finished returns
    its end as a line of its own. *)
Lemma overlong_tail_committed_witness :
  let rd := toy_read (toy_files "abcdef") 0 toy_limits in
  sane_limits toy_limits ∧ committed_end_offset rd = 6%Z ∧
  lines (toy_read (toy_files ("abcdefgh" +:+ nl)) (committed_end_offset rd) toy_limits) =
    [mk_raw_line ("gh" +:+ nl) 6 9].
Proof.
  intros rd. split; [exact toy_limits_sane|].
  assert (Hrun : read_from_offset_async "l/app.log" 0 toy_limits (toy_files "abcdef") =
    (Ok rd, toy_files "abcdef")) by (vm_compute; reflexivity).
  destruct (overlong_tail_committed "l/app.log" toy_limits (toy_files "abcdef") rd _ "abcdef"
    toy_limits_sane ltac:(apply lookup_singleton_eq) ltac:(vm_compute; reflexivity)
    ltac:(vm_compute; reflexivity) Hrun) as (Hc & _ & _).
  split; [exact Hc|]. rewrite Hc. vm_compute. reflexivity.
Defined.
