(* ===== verification/LogToy.v ===== *)
(** A concrete instance of every parameter of the log pipeline's model, for the witnesses:
    telemetry records are tuples, documents use the countable encoding of [Host.Concrete], and
    the delimiter starts a record at every [Starts] line. *)
From S2P Require Import Prelude Host Text Telemetry.
Export Host.Concrete.

#[export] Instance Completion_countable : Countable Completion.
Proof.
  refine (inj_countable' (λ c, match c with CBoundary => 0 | CDeadline => 1 | COversized => 2 end)
    (λ n, match n with 0 => CBoundary | 1 => CDeadline | _ => COversized end) _).
  abstract (by intros []).
Defined.
#[export] Instance LogRecord_countable : Countable LogRecord.
Proof.
  refine (inj_countable' (λ r, (body r, start_offset r, end_offset r, rlines r, completion r))
    (λ '(a, b, c, d, e), mk_record a b c d e) _).
  abstract (by intros []).
Defined.
#[export] Instance PendingMultilineState_countable : Countable PendingMultilineState.
Proof.
  refine (inj_countable' (λ p, (pm_source_path p, pm_last_updated_at p, pm_record p))
    (λ '(a, b, c), mk_pending a b c) _).
  abstract (by intros []).
Defined.
#[export] Instance TrackedFileCheckpoint_countable : Countable TrackedFileCheckpoint.
Proof.
  refine (inj_countable'
    (λ t, ((file_id t, tf_path t, tf_device_id t, tf_inode t, tf_fingerprint t),
           (checkpoint_offset t, tf_probe t, last_size t, last_read_at t),
           (last_commit_point_at t, rotated_from_path t, real_path t, tf_pending t)))
    (λ '((a, b, c, d, e), (f, g, h, i), (j, k, l, m)), mk_tracked a b c d e f g h i j k l m) _).
  abstract (by intros []).
Defined.
#[export] Instance LogCheckpointState_countable : Countable LogCheckpointState.
Proof.
  refine (inj_countable'
    (λ s, (lc_schema_version s, lc_input_id s, lc_updated_at s, lc_next_seq s,
           (last_scan_ms s, pending_multiline s, tracked s)))
    (λ '(a, b, c, d, (e, f, g)), mk_checkpoint_state a b c d e f g) _).
  abstract (by intros []).
Defined.
#[export] Instance LogSeqState_eq_dec : EqDecision LogSeqState.
Proof. solve_decision. Defined.
#[export] Instance LogSeqState_countable : Countable LogSeqState.
Proof. refine (inj_countable' ls_next_seq mk_seq_state _). abstract (by intros []). Defined.

(** (agent, observed at, input, source), (body, start, end, seq), (family, unit, container). *)
Definition toy_record : Type :=
  (string * string * string * string) * (string * Z * Z * Z) * (string * string * option string).

(** [Starts] is [true]. *)
Definition toy_push (line : Line) (signal : string → bool) (d : option LogRecord)
    : list LogRecord * option LogRecord :=
  let fresh := mk_record (l_text line) (l_start line) (l_end line) 1 CBoundary in
  if signal (l_text line) then
    (match d with Some r => [set_completion CBoundary r] | None => [] end, Some fresh)
  else
    ([], (λ r, mk_record (body r +:+ l_text line) (start_offset r) (l_end line) (rlines r + 1)
                 (completion r)) <$> d).

#[export] Instance toy_log_contracts : LogContracts := {|
  Boundary := bool;
  Starts := true;
  Neither := false;
  Start := unit;
  WaitForStart := tt;
  indented s := negb (starts_with " " s);
  Delimiter := option LogRecord;
  delimiter_new _ _ := None;
  delimiter_resume _ _ r := Some r;
  delimiter_push := toy_push;
  into_pending d := d;
  ContainerRef := string;
  TelemetryRecord := toy_record;
  new_log a o i p b s e q := ((a, o, i, p), (b, s, e, q), ("", "", None));
  with_origin f u r := (r.1, (f, u, r.2.2));
  with_container c r := (r.1, (r.2.1, c));
  tr_body r := r.1.2.1.1.1;
  tr_input_id r := r.1.1.1.2;
  tr_source_path r := r.1.1.2;
  tr_agent_id r := r.1.1.1.1.1;
  TelemetryRecord_json := toy_json;
  LOG_SCHEMA_VERSION_V1 := "v1";
|}.

#[export] Instance toy_lookup : ContainerLookup := {| resolve_container _ id := Some id |}.

#[export] Instance toy_log_codecs : LogCodecs := {|
  checkpoint_json := toy_json;
  seq_json := toy_json;
|}.

(** The documents of [toy_json] are one line of ASCII. *)
Lemma bits_text p :
  has_char newline (bits p) = false ∧
  (∀ fuel, String.length (bits p) + 1 ≤ fuel → utf8_valid_fuel fuel (bits p +:+ nl) = true) ∧
  (bits p = "" ∨ ∃ a, last_char (bits p) = Some a ∧ code a ≠ 13%Z ∧ code a ≠ 10%Z).
Proof.
  induction p as [p (H1 & H2 & H3)|p (H1 & H2 & H3)|].
  1,2: split; [cbn [bits]; rewrite has_char_cons; exact H1|]; split.
  1,3: intros [|fuel] Hf; cbn [bits String.length] in Hf; [lia|];
    cbn [bits]; rewrite app_cons; cbn; apply H2; lia.
  1,2: right; cbn [bits]; destruct H3 as [->|(a & Ha & Hc)];
    [eexists; split; [reflexivity|by vm_compute]|
     exists a; split; [|done]; cbn [last_char]; by destruct (bits p)].
  split; [done|]. split; [|by left]. intros [|[|fuel]] Hf; cbn in Hf; try lia; done.
Qed.

#[export] Instance toy_log_laws : LogLaws.
Proof.
  split; intros r; change (to_json r) with (String "b" (bits (encode (A := toy_record) r)));
    destruct (bits_text (encode (A := toy_record) r)) as (H1 & H2 & H3).
  - change (toy_from_json (A := toy_record) (String "b" (bits (encode (A := toy_record) r))) = Ok r).
    unfold toy_from_json. cbn -[bits encode]. rewrite (proj1 (parse_bits_spec _)).
    cbn -[encode decode]. by rewrite decode_encode.
  - rewrite has_char_cons. exact H1.
  - rewrite app_cons. by destruct (bits _) as [|? [|? ?]].
  - unfold utf8_valid. rewrite app_cons. cbn [String.length utf8_valid_fuel].
    rewrite length_app_string. cbn. apply H2. done.
  - destruct H3 as [->|(a & Ha & Hc)]; [eexists; split; [reflexivity|by vm_compute]|].
    exists a. split; [|done]. cbn [last_char]. by destruct (bits _).
Qed.
