(* ===== verification/Records.v ===== *)
(** From raw lines to telemetry records: the uplink gate (src/src/telemetry/logs/gate.rs), the
    numbering of records (parser.rs), the reading modes (multiline.rs) and the folding of
    lines into records (files/multiline_support.rs). *)
From stdpp Require Import pretty.
From S2P Require Import Prelude Host Text Telemetry Reader LogToy.

Definition MAX_RECORD_LINES : Z := 1000.
Definition MAX_RECORD_BYTES : Z := Z.shiftl 1 20.
Definition FOLD_LIMITS : Limits := mk_limits MAX_RECORD_LINES MAX_RECORD_BYTES.

(** * parser.rs *)
Section Parser.
Context `{ContainerLookup}.

(** The record sent for a delimited record. *)
Definition telemetry_of (agent_id observed_at input_id source_path : string)
    (origin : InputOrigin) (container : option ContainerRef) (record : LogRecord) (seq : Z)
    : TelemetryRecord :=
  with_container container
    (with_origin (family origin) (unit_ origin)
       (new_log agent_id observed_at input_id source_path (body record) (start_offset record)
          (end_offset record) seq)).

(** [*next_seq += 1] on a [u64]. *)
Definition seq_succ (seq : Z) : Z := ((seq + 1) mod 2 ^ 64)%Z.

Fixpoint number_records (mk : LogRecord → Z → TelemetryRecord) (records : list LogRecord)
    (next_seq : Z) : list TelemetryRecord * Z :=
  match records with
  | [] => ([], next_seq)
  | record :: records =>
      let '(out, next) := number_records mk records (seq_succ next_seq) in
      (mk record next_seq :: out, next)
  end.

Definition parse_delimited_records (agent_id observed_at input_id source_path : string)
    (origin : InputOrigin) (records : list LogRecord) (next_seq : Z)
    : list TelemetryRecord * Z :=
  let container := container_ref.for_source_path resolve_container source_path in
  number_records (telemetry_of agent_id observed_at input_id source_path origin container)
    records next_seq.
End Parser.

(** * gate.rs *)

Definition WITHHELD_REASON : string := "truncated:record_limit".

Record Withheld := mk_withheld { wh_records : Z; wh_bytes : Z }.
Definition Withheld_default : Withheld := mk_withheld 0 0.

Definition withheld_is_empty (w : Withheld) : bool := Z.eqb (wh_records w) 0.

Definition withheld_detail (w : Withheld) : string :=
  WITHHELD_REASON +:+ " limit_lines=" +:+ pretty.pretty MAX_RECORD_LINES +:+ " limit_bytes="
    +:+ pretty.pretty MAX_RECORD_BYTES.

Definition withheld_magnitude (w : Withheld) : string :=
  "records=" +:+ pretty.pretty (wh_records w) +:+ " bytes=" +:+ pretty.pretty (wh_bytes w).

Record UplinkGate := mk_gate {
  agent_id : string;
  observed_at : string;
  input_id : string;
  origin : InputOrigin;
  withheld : Withheld;
}.

Definition UplinkGate_new (agent_id observed_at input_id : string) (origin : InputOrigin)
    : UplinkGate := mk_gate agent_id observed_at input_id origin Withheld_default.

Definition withholds (record : LogRecord) : bool :=
  match completion record with COversized => true | CBoundary | CDeadline => false end.

Definition withhold (g : UplinkGate) (record : LogRecord) : UplinkGate :=
  mk_gate (agent_id g) (observed_at g) (input_id g) (origin g)
    (mk_withheld (wh_records (withheld g) + 1) (wh_bytes (withheld g) + str_len (body record))).

(** The loop of [admit]: the records that pass, and the account of the others. *)
Fixpoint admit_loop (g : UplinkGate) (records : list LogRecord) : list LogRecord * UplinkGate :=
  match records with
  | [] => ([], g)
  | record :: records =>
      if withholds record then admit_loop (withhold g record) records
      else let '(admitted, g) := admit_loop g records in (record :: admitted, g)
  end.

Section Gate.
Context `{ContainerLookup}.

(** [UplinkGate::admit]: what [&mut self] and [&mut u64] become is returned. *)
Definition gate_admit (source_path : string) (records : list LogRecord) (st : UplinkGate * Z)
    : list TelemetryRecord * (UplinkGate * Z) :=
  let '(gate, next_seq) := st in
  let '(admitted, gate) := admit_loop gate records in
  let '(out, next_seq) := parse_delimited_records (agent_id gate) (observed_at gate)
    (input_id gate) source_path (origin gate) admitted next_seq in
  (out, (gate, next_seq)).
End Gate.

(** * multiline.rs *)

Inductive MultilineMode := MNone | IndentedContinuation | MysqlSlow | PostgresCsv.

#[export] Instance MultilineMode_eq_dec : EqDecision MultilineMode.
Proof. solve_decision. Defined.

Definition MultilineMode_parse (mode : string) : option MultilineMode :=
  if String.eqb mode "none" then Some MNone
  else if String.eqb mode "indented" then Some IndentedContinuation
  else if String.eqb mode "mysql_slow" then Some MysqlSlow
  else if String.eqb mode "postgres_csv" then Some PostgresCsv
  else None.

Definition folds_records (mode : MultilineMode) : bool :=
  match mode with MNone => false | _ => true end.

Section Multiline.
Context `{LogContracts}.

Definition is_slow_header (line : string) : bool :=
  match strip_prefix "# Time:" line with
  | Some rest =>
      match trim_start rest with String c _ => is_ascii_digit c | EmptyString => false end
  | None => false
  end.

Definition mysql_slow (line : string) : Boundary :=
  if is_slow_header line then Starts else Neither.

Definition delimiter_policy (mode : MultilineMode) : option (Start * (string → Boundary)) :=
  match mode with
  | MNone => None
  | IndentedContinuation => Some (WaitForStart, indented)
  | MysqlSlow => Some (WaitForStart, mysql_slow)
  | PostgresCsv => None
  end.
End Multiline.

(** * files/multiline_support.rs: postgres csvlog *)

Record CsvRecord := mk_csv { acc : LogRecord; in_quotes : bool }.

(** [scan_csv]: whether a newline outside quotes was seen, and the quote state afterwards.
    The index loop is the recursion; an escaped quote skips two bytes. *)
Fixpoint scan_csv (s : string) (in_quotes : bool) : bool * bool :=
  match s with
  | EmptyString => (false, in_quotes)
  | String c s1 =>
      if Ascii.eqb c "034" then
        match s1 with
        | String d s2 =>
            if in_quotes && Ascii.eqb d "034" then scan_csv s2 in_quotes
            else scan_csv s1 (negb in_quotes)
        | EmptyString => (false, negb in_quotes)
        end
      else
        let '(ended, q) := scan_csv s1 in_quotes in
        ((Ascii.eqb c newline && negb in_quotes) || ended, q)
  end.

Definition csv_resume (record : LogRecord) : CsvRecord :=
  mk_csv record (scan_csv (body record) false).2.

Definition csv_begin (line : RawFileLine) : CsvRecord :=
  mk_csv (mk_record "" (rl_start line) (rl_start line) 0 CBoundary) false.

Definition over_limit (record : LogRecord) (text : string) : bool :=
  Z.ltb (max_lines FOLD_LIMITS) (rlines record + 1)
  || Z.ltb (max_bytes FOLD_LIMITS) (str_len (body record) + str_len text).

(** A line pushed onto a record. *)
Definition push_line (record : LogRecord) (line : RawFileLine) : LogRecord :=
  mk_record (body record +:+ text line) (start_offset record) (rl_end line) (rlines record + 1)
    (completion record).

(** The loop's variables: [current], [sealed], [discarding], [discarding_in_quotes]. *)
Record CsvFold := mk_fold {
  current : option CsvRecord;
  sealed : list LogRecord;
  discarding : bool;
  discarding_in_quotes : bool;
}.

Definition fold_csv_line (st : CsvFold) (line : RawFileLine) : CsvFold :=
  if negb (ends_with nl (text line)) then
    let record := match current st with Some a => acc a | None => acc (csv_begin line) end in
    mk_fold None (sealed st ++ [set_completion COversized (push_line record line)]) false false
  else if discarding st then
    let '(ended, q) := scan_csv (text line) (discarding_in_quotes st) in
    mk_fold (current st) (sealed st) (negb ended) q
  else
    match current st with
    | Some a =>
        if over_limit (acc a) (text line) then
          let '(ended, q) := scan_csv (text line) (in_quotes a) in
          mk_fold None (sealed st ++ [set_completion COversized (acc a)]) (negb ended) q
        else
          let '(ended, q) := scan_csv (text line) (in_quotes a) in
          let record := push_line (acc a) line in
          if ended : bool then
            mk_fold None (sealed st ++ [set_completion CBoundary record]) (discarding st)
              (discarding_in_quotes st)
          else mk_fold (Some (mk_csv record q)) (sealed st) (discarding st) (discarding_in_quotes st)
    | None =>
        let a := csv_begin line in
        let '(ended, q) := scan_csv (text line) (in_quotes a) in
        let record := push_line (acc a) line in
        if ended : bool then
          mk_fold None (sealed st ++ [set_completion CBoundary record]) (discarding st)
            (discarding_in_quotes st)
        else mk_fold (Some (mk_csv record q)) (sealed st) (discarding st) (discarding_in_quotes st)
    end.

(** When an unfinished record was last fed: only lines of this read reset the clock. *)
Definition last_updated (had_lines : bool) (resumed_at : option string) (observed_at : string)
    : string :=
  match had_lines, resumed_at with
  | false, Some at_ => at_
  | _, _ => observed_at
  end.

(** [Option::filter]. *)
Definition keep_if {A} (p : A → bool) (o : option A) : option A :=
  match o with Some a => if p a then Some a else None | None => None end.

Definition same_source (path : string) (state : PendingMultilineState) : bool :=
  String.eqb (pm_source_path state) path.

Definition fold_csv (path : string) (lines : list RawFileLine)
    (pending : option PendingMultilineState) (observed_at : string)
    : list LogRecord * option PendingMultilineState :=
  let previous := keep_if (same_source path) pending in
  let st := fold_left fold_csv_line lines
    (mk_fold ((λ state, csv_resume (pm_record state)) <$> previous) [] false false) in
  (sealed st,
   (λ a, mk_pending path
           (last_updated (negb (Nat.eqb (length lines) 0)) (pm_last_updated_at <$> previous)
              observed_at)
           (acc a)) <$> current st).

(** * files/multiline_support.rs: reads, flushes *)

Definition MULTILINE_IDLE_FLUSH_MS : Z := 1000.
Definition CSV_IDLE_FLUSH_MS : Z := 60000.

Record FoldedRead `{LogContracts} := mk_folded {
  fr_records : list TelemetryRecord;
  fr_pending : option PendingMultilineState;
  fr_dropped_noise : Z;
}.

Record Admission `{LogContracts} := mk_admission {
  ad_records : list TelemetryRecord;
  ad_dropped_noise : Z;
}.

Arguments mk_folded {_} _ _ _.
Arguments mk_admission {_} _ _.

Definition record_from_line (line : RawFileLine) : LogRecord :=
  mk_record (text line) (rl_start line) (rl_end line) 1 CBoundary.

Definition is_noise (body_ : string) (needles : list string) : bool :=
  existsb (λ needle, contains needle body_) needles.

Section MultilineSupport.
Context `{Host} `{ContainerLookup}.
Implicit Types (st : UplinkGate * Z).

Definition admit_with_noise_filter (source_path : string) (folded : list LogRecord)
    (drop_if_contains : list string) st : (list TelemetryRecord * Z) * (UplinkGate * Z) :=
  match drop_if_contains with
  | [] => let '(out, st) := gate_admit source_path folded st in ((out, 0%Z), st)
  | _ =>
      let before := length folded in
      let kept := List.filter (λ record, negb (is_noise (body record) drop_if_contains)) folded in
      let dropped := Z.of_nat (before - length kept) in
      let '(out, st) := gate_admit source_path kept st in
      ((out, dropped), st)
  end.

(** The loop over the lines of one read. *)
Fixpoint delimit (signal : string → Boundary) (lines : list RawFileLine) (d : Delimiter)
    : list LogRecord * Delimiter :=
  match lines with
  | [] => ([], d)
  | line :: lines =>
      let '(out, d) := delimiter_push (mk_line (text line) (rl_start line) (rl_end line)) signal d in
      let '(rest, d) := delimit signal lines d in
      (out ++ rest, d)
  end.

Definition records_from_read (mode : MultilineMode) (drop_if_contains : list string)
    (observed_at source_path : string) (lines : list RawFileLine)
    (pending : option PendingMultilineState) st : FoldedRead * (UplinkGate * Z) :=
  let path := source_path in
  if decide (mode = PostgresCsv) then
    let '(folded, pending) := fold_csv path lines pending observed_at in
    let '((records, dropped_noise), st) :=
      admit_with_noise_filter path folded drop_if_contains st in
    (mk_folded records pending dropped_noise, st)
  else
    let previous := keep_if (same_source path) pending in
    match delimiter_policy mode with
    | None =>
        let folded :=
          match previous with
          | Some state => [set_completion CDeadline (pm_record state)]
          | None => []
          end ++ map record_from_line lines in
        let '((records, dropped_noise), st) :=
          admit_with_noise_filter path folded drop_if_contains st in
        (mk_folded records None dropped_noise, st)
    | Some (start, signal) =>
        let had_lines := negb (Nat.eqb (length lines) 0) in
        let delimiter :=
          match previous with
          | Some state => delimiter_resume FOLD_LIMITS start (pm_record state)
          | None => delimiter_new FOLD_LIMITS start
          end in
        let '(folded, delimiter) := delimit signal lines delimiter in
        let '((records, dropped_noise), st) :=
          admit_with_noise_filter path folded drop_if_contains st in
        let pending :=
          mk_pending path (last_updated had_lines (pm_last_updated_at <$> previous) observed_at)
            <$> into_pending delimiter in
        (mk_folded records pending dropped_noise, st)
    end.

Definition records_from_pending (mode : MultilineMode) (drop_if_contains : list string)
    (pending : option PendingMultilineState) st : Admission * (UplinkGate * Z) :=
  match pending with
  | None => (mk_admission [] 0, st)
  | Some state =>
      let completion := if decide (mode = PostgresCsv) then COversized else CDeadline in
      let record := set_completion completion (pm_record state) in
      let '((records, dropped_noise), st) :=
        admit_with_noise_filter (pm_source_path state) [record] drop_if_contains st in
      (mk_admission records dropped_noise, st)
  end.

(** What [pending] becomes is returned. *)
Definition flush_pending_if_source_changes (mode : MultilineMode)
    (drop_if_contains : list string) (pending : option PendingMultilineState)
    (next_source_path : string) st
    : (Admission * option PendingMultilineState) * (UplinkGate * Z) :=
  match pending with
  | Some state =>
      if negb (same_source next_source_path state) then
        let '(admitted, st) := records_from_pending mode drop_if_contains pending st in
        ((admitted, None), st)
      else ((mk_admission [] 0, pending), st)
  | None => ((mk_admission [] 0, pending), st)
  end.

Definition rebind_pending_source_on_rotate (previous_source_path rotated_path : string)
    (pending : option PendingMultilineState) : option PendingMultilineState :=
  match pending with
  | Some state =>
      if same_source previous_source_path state
      then Some (mk_pending rotated_path (pm_last_updated_at state) (pm_record state))
      else pending
  | None => None
  end.

Definition pending_should_flush (mode : MultilineMode) (pending : option PendingMultilineState)
    (observed_at : string) : bool :=
  match pending with
  | None => false
  | Some pending =>
      let idle_ms := if decide (mode = PostgresCsv) then CSV_IDLE_FLUSH_MS
                     else MULTILINE_IDLE_FLUSH_MS in
      match parse_rfc3339 (pm_last_updated_at pending) with
      | None => true
      | Some last_updated_at =>
          match parse_rfc3339 observed_at with
          | None => true
          | Some observed_at => Z.leb idle_ms (observed_at - last_updated_at)
          end
      end
  end.
End MultilineSupport.

(** * The gate and the numbering *)
Section GateLemmas.
Context `{ContainerLookup}.
Implicit Types (g : UplinkGate) (rs : list LogRecord) (st : UplinkGate * Z).

Definition complete (r : LogRecord) : bool := negb (withholds r).
Definition passes (drop_if_contains : list string) (r : LogRecord) : bool :=
  negb (is_noise (body r) drop_if_contains) && complete r.

(** The records of a gate with its numbers. *)
Definition sent g source_path rs (next_seq : Z) : list TelemetryRecord :=
  zip_with (telemetry_of (agent_id g) (observed_at g) (input_id g) source_path (origin g)
              (container_ref.for_source_path resolve_container source_path))
    rs (seqZ next_seq (Z.of_nat (length rs))).

Definition bodies_len rs : Z := foldr (λ r n, str_len (body r) + n)%Z 0%Z rs.

Definition account g rs : UplinkGate :=
  mk_gate (agent_id g) (observed_at g) (input_id g) (origin g)
    (mk_withheld (wh_records (withheld g) + Z.of_nat (length rs))
       (wh_bytes (withheld g) + bodies_len rs)).

Lemma admit_loop_spec g rs :
  admit_loop g rs = (List.filter complete rs, account g (List.filter withholds rs)).
Proof.
  revert g. induction rs as [|r rs IH]; intros g; cbn [admit_loop List.filter].
  - unfold account. cbn. rewrite !Z.add_0_r. by destruct g as [? ? ? ? []].
  - unfold complete at 1. destruct (withholds r); cbn [negb].
    + rewrite IH. f_equal. unfold account, withhold, bodies_len.
      cbn [agent_id observed_at input_id origin withheld wh_records wh_bytes length foldr].
      do 2 f_equal; lia.
    + by rewrite IH.
Qed.

Lemma number_records_spec mk rs n : (0 ≤ n)%Z → (n + Z.of_nat (length rs) < 2 ^ 64)%Z →
  number_records mk rs n = (zip_with mk rs (seqZ n (Z.of_nat (length rs))),
                            (n + Z.of_nat (length rs))%Z).
Proof.
  revert n. induction rs as [|r rs IH]; intros n Hn Hb; cbn [number_records].
  - cbn. by rewrite Z.add_0_r.
  - cbn [length] in *. rewrite Nat2Z.inj_succ in *. unfold seq_succ.
    rewrite Z.mod_small by lia. rewrite (IH (n + 1)%Z) by lia.
    rewrite (seqZ_cons n) by lia. cbn [zip_with].
    replace (Z.succ n) with (n + 1)%Z by lia.
    rewrite Z.pred_succ.
    f_equal. lia.
Qed.

Lemma admit_spec source_path rs g n : (0 ≤ n)%Z →
  (n + Z.of_nat (length (List.filter complete rs)) < 2 ^ 64)%Z →
  gate_admit source_path rs (g, n) =
    (sent g source_path (List.filter complete rs) n,
     (account g (List.filter withholds rs), (n + Z.of_nat (length (List.filter complete rs)))%Z)).
Proof.
  intros Hn Hb. unfold gate_admit. rewrite admit_loop_spec. unfold parse_delimited_records.
  by rewrite number_records_spec.
Qed.

Lemma filter_filter {A} (p q : A → bool) l :
  List.filter p (List.filter q l) = List.filter (λ x, q x && p x) l.
Proof.
  induction l as [|x l IH]; [done|]. cbn [List.filter].
  destruct (q x); cbn [List.filter andb]; [destruct (p x); by rewrite IH|done].
Qed.

Lemma filter_all {A} (p : A → bool) l : (∀ x, p x = true) → List.filter p l = l.
Proof. intros Hp. induction l as [|x l IH]; [done|]. cbn. by rewrite Hp, IH. Qed.

Lemma filter_count {A} (p : A → bool) l :
  length (List.filter p l) + length (List.filter (λ x, negb (p x)) l) = length l.
Proof. induction l as [|x l IH]; [done|]. cbn. destruct (p x); cbn; lia. Qed.

(** The one exit of records. *)
Lemma noise_filter_spec source_path folded drop g n : (0 ≤ n)%Z →
  (n + Z.of_nat (length (List.filter (passes drop) folded)) < 2 ^ 64)%Z →
  admit_with_noise_filter source_path folded drop (g, n) =
    ((sent g source_path (List.filter (passes drop) folded) n,
      Z.of_nat (length (List.filter (λ r, is_noise (body r) drop) folded))),
     (account g (List.filter (λ r, negb (is_noise (body r) drop) && withholds r) folded),
      (n + Z.of_nat (length (List.filter (passes drop) folded)))%Z)).
Proof.
  intros Hn Hb. unfold admit_with_noise_filter. destruct drop as [|d drop].
  - change (passes []) with complete in *. rewrite admit_spec by done.
    assert (Hnone : List.filter (λ r, is_noise (body r) []) folded = [])
      by (clear; induction folded as [|r l IH]; [done|exact IH]).
    by rewrite Hnone.
  - set (noise r := is_noise (body r) (d :: drop)).
    change (λ record : LogRecord, negb (is_noise (body record) (d :: drop))) with (λ r, negb (noise r)).
    assert (Hf : List.filter complete (List.filter (λ r, negb (noise r)) folded) =
      List.filter (passes (d :: drop)) folded) by apply filter_filter.
    rewrite admit_spec by (rewrite ?Hf; done). rewrite Hf, filter_filter.
    do 2 f_equal. pose proof (filter_count noise folded). unfold noise in *. lia.
Qed.
End GateLemmas.

(** * Claims *)
Section Claims.
Context `{Host} `{ContainerLookup}.
Implicit Types (g : UplinkGate).

(** C35. Every record folded from a file leaves by one of three doors, and only the first takes
    sequence numbers.  Complete records that are not noise are sent, in order, numbered from
    [next_seq] without gaps; cut-off (oversized) ones are withheld and counted with their
    bytes; noise is dropped and counted.  Nothing else about the gate changes. *)
Theorem uplink_accounts_for_every_record (source_path : string) (folded : list LogRecord)
    (drop_if_contains : list string) g (next_seq : Z) :
  (0 ≤ next_seq)%Z → (next_seq + Z.of_nat (length folded) < 2 ^ 64)%Z →
  let '((out, dropped), (g', next_seq')) :=
    admit_with_noise_filter source_path folded drop_if_contains (g, next_seq) in
  let kept := List.filter (passes drop_if_contains) folded in
  let cut := List.filter (λ r, negb (is_noise (body r) drop_if_contains) && withholds r) folded in
  out = sent g source_path kept next_seq ∧
  next_seq' = (next_seq + Z.of_nat (length out))%Z ∧
  dropped = Z.of_nat (length (List.filter (λ r, is_noise (body r) drop_if_contains) folded)) ∧
  g' = account g cut ∧
  (Z.of_nat (length out) + dropped + (wh_records (withheld g') - wh_records (withheld g)) =
     Z.of_nat (length folded))%Z.
Proof.
  intros Hn Hb.
  assert (Hle : length (List.filter (passes drop_if_contains) folded) ≤ length folded)
    by (pose proof (filter_count (passes drop_if_contains) folded); lia).
  rewrite noise_filter_spec by lia. cbv zeta.
  assert (Hlen : ∀ rs, length (sent g source_path rs next_seq) = length rs).
  { intros rs. unfold sent. rewrite length_zip_with, length_seqZ. lia. }
  rewrite Hlen. do 4 (split; [done|]). unfold account. cbn [withheld wh_records].
  pose proof (filter_count (λ r, is_noise (body r) drop_if_contains) folded) as Hc1.
  pose proof (filter_count withholds
    (List.filter (λ r, negb (is_noise (body r) drop_if_contains)) folded)) as Hc2.
  rewrite !filter_filter in Hc2. unfold passes, complete. lia.
Qed.

(** In the one-line-per-record mode nothing is inferred: after a record left over from
    another mode, which is sent first, every line read is sent as one record with its text
    and offsets, and no record is left unfinished. *)
Theorem single_lines_are_records (observed_at_ source_path : string) (lines : list RawFileLine)
    (pending : option PendingMultilineState) g (next_seq : Z) :
  (0 ≤ next_seq)%Z → (next_seq + Z.of_nat (S (length lines)) < 2 ^ 64)%Z →
  let left_over := match keep_if (same_source source_path) pending with
                   | Some state => [set_completion CDeadline (pm_record state)]
                   | None => [] end in
  records_from_read MNone [] observed_at_ source_path lines pending (g, next_seq) =
    (mk_folded (sent g source_path (left_over ++ map record_from_line lines) next_seq) None 0,
     (g, (next_seq + Z.of_nat (length left_over + length lines))%Z)).
Proof.
  intros Hn Hb left_over. unfold records_from_read. cbn [decide delimiter_policy].
  destruct (decide (MNone = PostgresCsv)) as [|_]; [done|]. fold left_over.
  assert (Hall : List.filter (passes []) (left_over ++ map record_from_line lines) =
    left_over ++ map record_from_line lines).
  { rewrite List.filter_app. f_equal.
    - unfold left_over. by destruct (keep_if _ _).
    - induction lines as [|l ls IH]; [done|]. cbn -[passes]. rewrite IH; [done|]. cbn [length] in Hb. lia. }
  assert (Hno : List.filter (λ r, negb (is_noise (body r) []) && withholds r)
    (left_over ++ map record_from_line lines) = []).
  { rewrite List.filter_app.
    replace (List.filter _ left_over) with (@nil LogRecord)
      by (unfold left_over; by destruct (keep_if _ _)).
    clear. induction lines as [|l ls IH]; [done|exact IH]. }
  assert (Hcut : account g [] = g).
  { destruct g as [? ? ? ? []]. unfold account. cbn. by rewrite !Z.add_0_r. }
  assert (Hlen : length (left_over ++ map record_from_line lines) =
    length left_over + length lines) by (by rewrite length_app, length_map).
  assert (length left_over ≤ 1) by (unfold left_over; destruct (keep_if _ _); cbn; lia).
  rewrite noise_filter_spec by (rewrite ?Hall, ?Hlen; lia). rewrite Hall, Hlen, Hno, Hcut.
  assert (Hz : List.filter (λ r, is_noise (body r) []) (left_over ++ map record_from_line lines) = []).
  { clear. induction (left_over ++ map record_from_line lines) as [|l ls IH]; [done|exact IH]. }
  by rewrite Hz.
Qed.

(** The idle flush: an unfinished record is due when the time since it was last fed has
    reached the mode's threshold (one second, a minute for csvlog) or a time text does not
    parse.  What is flushed is sent as one record, except in csvlog mode, where an unfinished
    record is half a line and is only counted as withheld, without taking a number. *)
Theorem idle_flush (mode : MultilineMode) (state : PendingMultilineState) g (next_seq t0 t1 : Z) :
  (0 ≤ next_seq)%Z → (next_seq + 1 < 2 ^ 64)%Z →
  pm_last_updated_at state = rfc3339 t0 →
  let idle := if decide (mode = PostgresCsv) then 60000%Z else 1000%Z in
  (pending_should_flush mode (Some state) (rfc3339 t1) = true ↔ (idle ≤ t1 - t0)%Z) ∧
  records_from_pending mode [] (Some state) (g, next_seq) =
    if decide (mode = PostgresCsv) then
      (mk_admission [] 0, (account g [set_completion COversized (pm_record state)], next_seq))
    else
      (mk_admission (sent g (pm_source_path state) [set_completion CDeadline (pm_record state)]
                      next_seq) 0,
       (g, next_seq + 1)%Z).
Proof.
  intros Hn Hb Hat idle. split.
  - unfold pending_should_flush. rewrite Hat, !parse_rfc3339_format.
    unfold idle, CSV_IDLE_FLUSH_MS, MULTILINE_IDLE_FLUSH_MS. case_decide; apply Z.leb_le.
  - unfold records_from_pending. destruct (decide (mode = PostgresCsv)).
    + rewrite noise_filter_spec by (cbn; lia). cbn. by rewrite Z.add_0_r.
    + rewrite noise_filter_spec by (cbn; lia). cbn. unfold account. cbn.
      by destruct g as [? ? ? ? []]; cbn; rewrite !Z.add_0_r.
Qed.
End Claims.

Definition toy_gate : UplinkGate := UplinkGate_new "agent" "now" "input" (mk_origin "fam" "unit").
Definition toy_folded : list LogRecord :=
  [mk_record "one" 0 4 1 CBoundary; mk_record "two noise" 4 14 1 CBoundary;
   mk_record "three" 14 20 1000 COversized; mk_record "four" 20 25 1 CDeadline].

Lemma uplink_accounts_for_every_record_witness :
  let '((out, dropped), (g', next_seq')) :=
    admit_with_noise_filter "/l/app.log" toy_folded ["noise"] (toy_gate, 7%Z) in
  tr_body <$> out = ["one"; "four"] ∧ next_seq' = 9%Z ∧
  (Z.of_nat (length out) + dropped + (wh_records (withheld g') - 0) = 4)%Z.
Proof.
  pose proof (uplink_accounts_for_every_record "/l/app.log" toy_folded ["noise"] toy_gate 7
    ltac:(lia) ltac:(vm_compute; reflexivity)) as Hc.
  destruct (admit_with_noise_filter "/l/app.log" toy_folded ["noise"] (toy_gate, 7%Z))
    as [[out dropped] [g' n']] eqn:E.
  destruct Hc as (Ho & Hn & _ & _ & Hsum). split; [rewrite Ho; vm_compute; reflexivity|].
  split; [rewrite Hn, Ho; vm_compute; reflexivity|]. exact Hsum.
Defined.

Lemma single_lines_are_records_witness :
  let lines := [mk_raw_line "a" 0 2; mk_raw_line "b" 2 4] in
  let pending := Some (mk_pending "/l/x" "t" (mk_record "old" 0 1 1 CBoundary)) in
  tr_body <$> fr_records (records_from_read MNone [] "now" "/l/x" lines pending (toy_gate, 0%Z)).1
    = ["old"; "a"; "b"].
Proof.
  intros lines pending.
  rewrite (single_lines_are_records "now" "/l/x" lines pending toy_gate 0 ltac:(lia)
    ltac:(vm_compute; reflexivity)).
  vm_compute. reflexivity.
Defined.

Lemma idle_flush_witness :
  let state := mk_pending "/l/x" (rfc3339 5) (mk_record "half" 0 5 1 CBoundary) in
  pending_should_flush IndentedContinuation (Some state) (rfc3339 1005) = true ∧
  ad_records (records_from_pending PostgresCsv [] (Some state) (toy_gate, 3%Z)).1 = [].
Proof.
  intros state. split.
  - apply (idle_flush IndentedContinuation state toy_gate 3 5 1005 ltac:(lia)
      ltac:(vm_compute; reflexivity) eq_refl). vm_compute. discriminate.
  - rewrite (proj2 (idle_flush PostgresCsv state toy_gate 3 5 1005 ltac:(lia)
      ltac:(vm_compute; reflexivity) eq_refl)). reflexivity.
Defined.
