(* ===== verification/Csv.v ===== *)
(** The csvlog folder (files/multiline_support.rs) against a reference: the records of a CSV
    stream are its pieces up to the newlines outside quoted fields, as an RFC 4180 automaton
    reads them byte by byte.  The folder works on lines, a batch at a time, and recomputes its
    quote state from the unfinished record it kept. *)
From S2P Require Import Prelude Host Text Telemetry Reader LogToy Records.

Definition quote : ascii := "034".

(** * The reference *)

(** In a field; in a quoted field; just after a quote inside a quoted field, which either
    escapes the next quote or closed the field. *)
Inductive CsvState := Field | Quoted | QuoteSeen.

Definition csv_next (st : CsvState) (c : ascii) : CsvState :=
  match st with
  | Field => if Ascii.eqb c quote then Quoted else Field
  | Quoted => if Ascii.eqb c quote then QuoteSeen else Quoted
  | QuoteSeen => if Ascii.eqb c quote then Quoted else Field
  end.

Definition csv_ends (st : CsvState) (c : ascii) : bool :=
  Ascii.eqb c newline && match st with Quoted => false | _ => true end.

(** A piece of a record before the pieces of the rest. *)
Definition glue (u : string) (p : list string * string) : list string * string :=
  match p.1 with
  | [] => ([], u +:+ p.2)
  | r :: rs => ((u +:+ r) :: rs, p.2)
  end.

(** The complete records of a stream and its unfinished end. *)
Fixpoint csv_split (st : CsvState) (s : string) : list string * string :=
  match s with
  | EmptyString => ([], "")
  | String c s =>
      if csv_ends st c then
        let '(rs, t) := csv_split Field s in (String c "" :: rs, t)
      else glue (String c "") (csv_split (csv_next st c) s)
  end.

(** One whole CSV record. *)
Definition whole_record (s : string) : Prop := csv_split Field s = ([s], "").

(** * The scan is the automaton *)

(** The scan without lookahead: an escaped quote closes and reopens the field. *)
Fixpoint scan1 (s : string) (q : bool) : bool * bool :=
  match s with
  | EmptyString => (false, q)
  | String c s =>
      if Ascii.eqb c quote then scan1 s (negb q)
      else let '(ended, q') := scan1 s q in ((Ascii.eqb c newline && negb q) || ended, q')
  end.

Lemma scan_csv_scan1 s q : scan_csv s q = scan1 s q.
Proof.
  remember (String.length s) as n eqn:Hn. revert s q Hn.
  induction n as [n IH] using lt_wf_ind. intros [|c s] q ->; [done|].
  cbn [scan_csv scan1]. change "034"%char with quote.
  destruct (Ascii.eqb_spec c quote) as [->|Hc].
  - destruct s as [|d s]; [done|]. cbn [scan1].
    destruct (Ascii.eqb_spec d quote) as [->|Hd].
    + destruct q; cbn [andb negb]; [by apply (IH (String.length s)); [cbn; lia|]|].
      rewrite (IH (String.length (String quote s)) ltac:(cbn; lia) _ _ eq_refl). done.
    + rewrite andb_false_r. rewrite (IH (String.length (String d s)) ltac:(cbn; lia) _ _ eq_refl).
      cbn [scan1]. apply Ascii.eqb_neq in Hd. by rewrite Hd.
  - rewrite (IH (String.length s) ltac:(cbn; lia) _ _ eq_refl). done.
Qed.

Lemma scan1_app s t q :
  scan1 (s +:+ t) q =
    let '(e1, q1) := scan1 s q in let '(e2, q2) := scan1 t q1 in (e1 || e2, q2).
Proof.
  revert q. induction s as [|c s IH]; intros q.
  - rewrite app_nil_l. cbn [scan1]. destruct (scan1 t q) as [e2 q2]. done.
  - rewrite app_cons. cbn [scan1]. rewrite !IH. destruct (Ascii.eqb c quote); [done|].
    destruct (scan1 s q) as [e1 q1], (scan1 t q1) as [e2 q2]. by rewrite orb_assoc.
Qed.

Lemma quote_not_newline : Ascii.eqb quote newline = false.
Proof. done. Qed.

(** Text without a newline ends no record. *)
Lemma scan1_no_newline s q : has_char newline s = false → (scan1 s q).1 = false.
Proof.
  revert q. induction s as [|c s IH]; intros q Hs; [done|]. rewrite has_char_cons in Hs.
  apply orb_false_iff in Hs as [Hc Hs]. cbn [scan1]. destruct (Ascii.eqb c quote); [auto|].
  specialize (IH q Hs). destruct (scan1 s q). cbn in *. by rewrite Hc.
Qed.

(** A complete line ends a record exactly when its newline is outside quotes. *)
Lemma scan1_line s q : terminated s → (scan1 s q).1 = negb (scan1 s q).2.
Proof.
  intros (t & -> & Ht). rewrite scan1_app. pose proof (scan1_no_newline t q Ht) as He.
  destruct (scan1 t q) as [e q']. cbn in He. subst e. by destruct q'.
Qed.

Definition is_quoted (st : CsvState) : bool := match st with Quoted => true | _ => false end.

Lemma glue_glue u v p : glue u (glue v p) = glue (u +:+ v) p.
Proof. unfold glue. destruct p as [[|r rs] t]; cbn; by rewrite app_assoc. Qed.

Lemma glue_empty p : glue "" p = p.
Proof. by destruct p as [[|r rs] t]. Qed.

(** The automaton over a prefix that ends no record. *)
Lemma csv_split_open u v st : (scan1 u (is_quoted st)).1 = false →
  ∃ st', is_quoted st' = (scan1 u (is_quoted st)).2 ∧
    csv_split st (u +:+ v) = glue u (csv_split st' v).
Proof.
  revert st. induction u as [|c u IH]; intros st Hu.
  - exists st. by rewrite app_nil_l, glue_empty.
  - rewrite app_cons. cbn [csv_split scan1] in *. unfold csv_ends.
    destruct (Ascii.eqb_spec c quote) as [->|Hc].
    + rewrite quote_not_newline. cbn [andb].
      assert (Hq : is_quoted (csv_next st quote) = negb (is_quoted st)) by by destruct st.
      rewrite <-Hq in *. destruct (IH _ Hu) as (st' & Hst & ->). exists st'.
      split; [done|]. rewrite glue_glue, app_cons. done.
    + destruct (scan1 u (is_quoted st)) as [e q] eqn:E. cbn [fst] in Hu.
      apply orb_false_iff in Hu as [Hn ->].
      assert (Hq : is_quoted (csv_next st c) = is_quoted st).
      { apply Ascii.eqb_neq in Hc. destruct st; cbn; by rewrite Hc. }
      assert (Hends : Ascii.eqb c newline && match st with Quoted => false | _ => true end = false)
        by (destruct st; exact Hn).
      rewrite Hends. destruct (IH (csv_next st c)) as (st' & Hst & ->).
      { by rewrite Hq, E. }
      exists st'. rewrite Hq, E in Hst. split; [done|]. rewrite glue_glue, app_cons. done.
Qed.

Lemma csv_split_same v st st' : is_quoted st = is_quoted st' → st ≠ QuoteSeen → st' ≠ QuoteSeen →
  csv_split st v = csv_split st' v.
Proof. by destruct st, st'. Qed.

(** [QuoteSeen] reads on like [Field]. *)
Lemma csv_split_seen v : csv_split QuoteSeen v = csv_split Field v.
Proof. by destruct v. Qed.

Lemma csv_split_quoted v st st' : is_quoted st = is_quoted st' → csv_split st v = csv_split st' v.
Proof. destruct st, st'; intros ?; rewrite ?csv_split_seen; done. Qed.

Definition state_of (q : bool) : CsvState := if q then Quoted else Field.

Lemma csv_split_prefix u v q : (scan1 u q).1 = false →
  csv_split (state_of q) (u +:+ v) = glue u (csv_split (state_of (scan1 u q).2) v).
Proof.
  intros Hu. assert (Hq : is_quoted (state_of q) = q) by by destruct q.
  destruct (csv_split_open u v (state_of q)) as (st' & Hst & ->); [by rewrite Hq|].
  rewrite Hq in Hst. f_equal. apply csv_split_quoted. rewrite Hst. by destruct (scan1 u q).2.
Qed.

(** The automaton over a complete line. *)
Lemma csv_split_line u v q : terminated u →
  csv_split (state_of q) (u +:+ v) =
    if (scan1 u q).1 then let '(rs, t) := csv_split Field v in (u :: rs, t)
    else glue u (csv_split Quoted v).
Proof.
  intros Hu. pose proof (scan1_line u q Hu) as He. destruct Hu as (s & -> & Hs).
  pose proof (scan1_no_newline s q Hs) as Hs1. rewrite <-app_assoc, csv_split_prefix by done.
  rewrite scan1_app in *. destruct (scan1 s q) as [e q1]. cbn [fst snd] in *. subst e.
  destruct q1; cbn [scan1 state_of negb andb orb fst snd] in *.
  - unfold nl. cbn [scan1]. rewrite app_cons, app_nil_l. cbn [csv_split].
    unfold csv_ends. cbn. rewrite glue_glue. done.
  - unfold nl. rewrite app_cons, app_nil_l. cbn [csv_split]. unfold csv_ends. cbn.
    destruct (csv_split Field v) as [rs t]. done.
Qed.

(** * The folder *)

(** Text that starts a record and does not end it. *)
Definition unfinished (s : string) : Prop := csv_split Field s = ([], s).

Lemma unfinished_scan s : unfinished s ↔ (scan1 s false).1 = false.
Proof.
  split.
  - unfold unfinished. change Field with (state_of false). intros H.
    assert (Hg : ∀ s st, (csv_split st s).1 = [] → (scan1 s (is_quoted st)).1 = false).
    { clear. induction s as [|c s IH]; intros st; [done|]. cbn [csv_split scan1]. unfold csv_ends.
      destruct (Ascii.eqb_spec c newline) as [->|Hn].
      - destruct st; cbn [andb].
        1,3: by destruct (csv_split Field s).
        intros Hg. specialize (IH (csv_next Quoted newline)). cbn in IH.
        cbn. destruct (scan1 s true). apply IH. revert Hg. unfold glue. cbn.
        by destruct (csv_split Quoted s).1.
      - cbn [andb]. intros Hg. specialize (IH (csv_next st c)).
        assert (He : (csv_split (csv_next st c) s).1 = []).
        { revert Hg. unfold glue. by destruct (csv_split (csv_next st c) s).1. }
        specialize (IH He). destruct (Ascii.eqb_spec c quote) as [->|Hq].
        + by destruct st.
        + apply Ascii.eqb_neq in Hq. replace (is_quoted (csv_next st c)) with (is_quoted st) in IH
            by (destruct st; cbn; by rewrite Hq).
          by destruct (scan1 s (is_quoted st)). }
    apply (Hg s Field). unfold state_of in H. by rewrite H.
  - intros H. unfold unfinished. pose proof (csv_split_prefix s "" false H) as Hp.
    rewrite app_nil_r in Hp. cbn [state_of] in Hp. rewrite Hp. unfold glue. cbn. by rewrite app_nil_r.
Qed.

(** The record being assembled, and its quote state. *)
Definition cur_body (c : option CsvRecord) : string := match c with Some a => body (acc a) | None => "" end.
Definition cur_lines (c : option CsvRecord) : Z := match c with Some a => rlines (acc a) | None => 0 end.

Definition cur_ok (c : option CsvRecord) : Prop :=
  match c with
  | Some a => body (acc a) ≠ "" ∧ (scan1 (body (acc a)) false).1 = false ∧
      in_quotes a = (scan1 (body (acc a)) false).2 ∧ (0 ≤ rlines (acc a))%Z
  | None => True
  end.

Lemma csv_resume_ok r : body r ≠ "" → (0 ≤ rlines r)%Z → unfinished (body r) →
  cur_ok (Some (csv_resume r)).
Proof.
  intros Hne Hl Hu%unfinished_scan. unfold csv_resume, cur_ok. cbn. by rewrite scan_csv_scan1.
Qed.

(** What a complete line does to the record being assembled. *)
Lemma next_line c u : cur_ok c → terminated u →
  let q := (scan1 (cur_body c) false).2 in
  (scan1 u q).1 = negb (scan1 u q).2 ∧
  (if (scan1 u q).1 then
     ∀ v, csv_split Field ((cur_body c +:+ u) +:+ v) =
       let '(rs, t) := csv_split Field v in ((cur_body c +:+ u) :: rs, t)
   else (scan1 (cur_body c +:+ u) false) = (false, true)).
Proof.
  intros Hc Hu q. pose proof (scan1_line u q Hu) as He. split; [done|].
  assert (Hopen : (scan1 (cur_body c) false).1 = false) by (destruct c; [apply Hc|done]).
  destruct (scan1 u q).1 eqn:E.
  - intros v. rewrite <-app_assoc. change Field with (state_of false) at 1.
    rewrite csv_split_prefix by done. fold q. rewrite csv_split_line by done. rewrite E.
    unfold glue. by destruct (csv_split Field v).
  - rewrite scan1_app. unfold q in *. destruct (scan1 (cur_body c) false) as [e1 q1].
    cbn [fst snd] in *. subst e1. destruct (scan1 u q1) as [e2 q2]. cbn [fst snd] in *. subst e2.
    by destruct q2.
Qed.

Lemma terminated_ends u : terminated u → negb (ends_with nl u) = false.
Proof. intros (s & -> & _). by rewrite ends_with_app. Qed.

Lemma terminated_ne u : terminated u → u ≠ "".
Proof. intros (s & -> & _). by destruct s. Qed.

(** One round on a complete line, while nothing is being discarded. *)
Lemma fold_line_step c sld dq line : cur_ok c → terminated (text line) →
  match c with Some a => over_limit (acc a) (text line) = false | None => True end →
  let q := (scan1 (cur_body c) false).2 in
  ∃ r, body r = cur_body c +:+ text line ∧ rlines r = (cur_lines c + 1)%Z ∧
    fold_csv_line (mk_fold c sld false dq) line =
      if (scan1 (text line) q).1 then mk_fold None (sld ++ [set_completion CBoundary r]) false dq
      else mk_fold (Some (mk_csv r (scan1 (text line) q).2)) sld false dq.
Proof.
  intros Hc Hu Hlim q. unfold fold_csv_line. rewrite terminated_ends by done.
  cbn [discarding current sealed discarding_in_quotes]. destruct c as [a|].
  - rewrite Hlim. destruct Hc as (_ & _ & Hq & _). rewrite scan_csv_scan1, Hq. fold q.
    exists (push_line (acc a) line). split; [done|]. split; [done|].
    unfold q, cur_body. by destruct (scan1 (text line) _) as [[] ?].
  - exists (push_line (acc (csv_begin line)) line). split; [done|]. split; [done|].
    unfold csv_begin. cbn [in_quotes acc]. rewrite scan_csv_scan1. unfold q. cbn.
    by destruct (scan1 (text line) false) as [[] ?].
Qed.

Lemma cur_lines_nonneg c : cur_ok c → (0 ≤ cur_lines c)%Z.
Proof. destruct c; [by intros (_ & _ & _ & ?)|done]. Qed.

Lemma cur_ok_next c r u q : cur_ok c → terminated u → body r = cur_body c +:+ u →
  rlines r = (cur_lines c + 1)%Z →
  scan1 (cur_body c +:+ u) false = (false, true) → q = true → cur_ok (Some (mk_csv r q)).
Proof.
  intros Hc Hu Hb Hl Hs ->. unfold cur_ok. cbn [acc in_quotes]. rewrite Hb, Hs, Hl.
  pose proof (cur_lines_nonneg c Hc). split_and!; [|done|done|lia]. apply terminated_ne in Hu. by destruct (cur_body c).
Qed.

(** The lines of a text, by its newlines. *)
Fixpoint newlines (s : string) : Z :=
  match s with EmptyString => 0 | String c s => (if Ascii.eqb c newline then 1 else 0) + newlines s end%Z.
Lemma newlines_app s t : newlines (s +:+ t) = (newlines s + newlines t)%Z.
Proof. induction s as [|c s IH]; [done|]. rewrite app_cons. cbn [newlines]. rewrite IH. lia. Qed.
Lemma newlines_nonneg s : (0 ≤ newlines s)%Z.
Proof. induction s as [|c s IH]; cbn [newlines]; [lia|]. destruct (Ascii.eqb c newline); lia. Qed.
Lemma newlines_none s : has_char newline s = false → newlines s = 0%Z.
Proof.
  induction s as [|c s IH]; [done|]. rewrite has_char_cons. intros [Hc Hs]%orb_false_iff. cbn [newlines]. rewrite Hc, IH; done.
Qed.
Lemma newlines_line u : terminated u → newlines u = 1%Z.
Proof. intros (s & -> & Hs). by rewrite newlines_app, newlines_none. Qed.

(** A record, or the rest of a stream, within the limits of one record. *)
Definition fits (s : string) : Prop := (newlines s ≤ MAX_RECORD_LINES)%Z ∧ (str_len s ≤ MAX_RECORD_BYTES)%Z.
Definition all_fit (p : list string * string) : Prop := Forall fits p.1 ∧ fits p.2.

Lemma fits_app s t : fits (s +:+ t) → fits s.
Proof.
  unfold fits. rewrite newlines_app, str_len_app. pose proof (newlines_nonneg t). pose proof (str_len_nonneg t). lia.
Qed.
Lemma all_fit_glue u p : all_fit (glue u p) → fits u.
Proof.
  unfold all_fit, glue. destruct p as [[|r rs] t]; cbn; [intros [_ H]|intros [H _]; apply Forall_cons in H as [H _]]; by eapply fits_app.
Qed.

(** The record being assembled counts its lines. *)
Definition cur_counted (c : option CsvRecord) : Prop := cur_lines c = newlines (cur_body c).

(** While every record of the stream fits, the folder cuts it where the automaton does. *)
Lemma fold_csv_lines lines c sld dq v : cur_ok c → cur_counted c →
  Forall (λ l, terminated (text l)) lines →
  all_fit (csv_split Field (cur_body c +:+ sconcat (map text lines) +:+ v)) →
  ∃ new c' dq', fold_left fold_csv_line lines (mk_fold c sld false dq) =
      mk_fold c' (sld ++ new) false dq' ∧ cur_ok c' ∧ cur_counted c' ∧
    Forall (λ r, completion r = CBoundary) new ∧
    csv_split Field (cur_body c +:+ sconcat (map text lines) +:+ v) =
      let '(rs, t) := csv_split Field (cur_body c' +:+ v) in ((map body new ++ rs)%list, t).
Proof.
  intros Hc Hn Hlines. revert c sld dq Hc Hn.
  induction Hlines as [|line lines Hu Hlines IH]; intros c sld dq Hc Hn Hfit.
  { exists [], c, dq. rewrite (right_id_L [] (++) sld). do 4 (split; [done|]). cbn [map].
    change (sconcat []) with "". rewrite app_nil_l. by destruct (csv_split _ _). }
  cbn [fold_left]. change (sconcat (map text (line :: lines))) with (text line +:+ sconcat (map text lines)) in *.
  rewrite <- app_assoc in *. rewrite app_assoc in Hfit |- *.
  destruct (next_line c (text line) Hc Hu) as [He Hnext]. set (rest := sconcat (map text lines) +:+ v) in *.
  assert (Hf : fits (cur_body c +:+ text line)).
  { destruct (scan1 (text line) _).1.
    - rewrite Hnext in Hfit. destruct (csv_split Field rest). destruct Hfit as [Hx _]. cbn in Hx. by apply Forall_cons in Hx as [? _].
    - change Field with (state_of false) in Hfit. rewrite csv_split_prefix in Hfit by by rewrite Hnext.
      by eapply all_fit_glue. }
  destruct (fold_line_step c sld dq line Hc Hu) as (r & Hb & Hrl & ->).
  { destruct c as [a|]; [|done]. unfold over_limit, FOLD_LIMITS. destruct Hf as [Hf1 Hf2].
    rewrite newlines_app, (newlines_line _ Hu) in Hf1. rewrite str_len_app in Hf2. unfold cur_counted in Hn.
    cbn in Hn, Hf1, Hf2 |- *. apply orb_false_iff. split; apply Z.ltb_ge; lia. }
  destruct (scan1 (text line) _).1 eqn:E.
  - rewrite Hnext in Hfit |- *. destruct (IH None (sld ++ [set_completion CBoundary r]) dq I eq_refl)
      as (new & c' & dq' & -> & Hc' & Hn' & Hnew & Hsp).
    { cbn [cur_body]. rewrite app_nil_l. fold rest. destruct (csv_split Field rest). destruct Hfit as [Hx Hy]. cbn in Hx, Hy. apply Forall_cons in Hx as [_ Hx]. by split. }
    exists (set_completion CBoundary r :: new), c', dq'. rewrite <-(assoc_L (++)).
    split; [done|]. split; [done|]. split; [done|]. split; [by constructor|].
    cbn [cur_body] in Hsp. rewrite app_nil_l in Hsp. fold rest in Hsp. rewrite Hsp. destruct (csv_split Field (cur_body c' +:+ v)). cbn [map app body set_completion]. by rewrite <-Hb.
  - assert (Hq : (scan1 (text line) (scan1 (cur_body c) false).2).2 = true) by by destruct (scan1 (text line) _).2.
    rewrite Hq. pose proof (cur_ok_next c r (text line) true Hc Hu Hb Hrl Hnext eq_refl) as Hc1.
    destruct (IH (Some (mk_csv r true)) sld dq Hc1) as (new & c' & dq' & -> & Hc' & Hn' & Hnew & Hsp).
    { unfold cur_counted in *. cbn [cur_lines cur_body acc]. rewrite Hrl, Hb, newlines_app, (newlines_line _ Hu). lia. }
    { cbn [cur_body acc]. by rewrite Hb. }
    exists new, c', dq'. cbn [cur_body acc] in Hsp. rewrite Hb in Hsp.
    split; [done|]. split; [done|]. split; [done|]. by split.
Qed.

(** A batch leaves what the next one resumes. *)
Lemma csv_resume_current a : cur_ok (Some a) → csv_resume (acc a) = a.
Proof. intros (_ & _ & Hq & _). unfold csv_resume. rewrite scan_csv_scan1, <- Hq. by destruct a. Qed.

(** * Without limits: nothing but whole records is called complete *)
Section Whole.
Context (L : Z).

Definition line_shape (u : string) : Prop := terminated u ∨ has_char newline u = false.

Definition in_bounds (r : LogRecord) : Prop :=
  (0 ≤ rlines r ≤ MAX_RECORD_LINES)%Z ∧ (str_len (body r) ≤ Z.max MAX_RECORD_BYTES L)%Z.

Record fold_ok (st : CsvFold) : Prop := {
  fo_cur : cur_ok (current st);
  fo_cur_bounds : ∀ a, current st = Some a → in_bounds (acc a);
  fo_sealed : Forall (λ r, completion r = CBoundary → whole_record (body r) ∧ in_bounds r) (sealed st);
  fo_no_deadline : Forall (λ r, completion r ≠ CDeadline) (sealed st);
}.

Lemma fold_ok_seal st c r d q : fold_ok st →
  (completion r = CBoundary → whole_record (body r) ∧ in_bounds r) → completion r ≠ CDeadline →
  c = None → fold_ok (mk_fold c (sealed st ++ [r]) d q).
Proof.
  intros Hst Hr Hd ->. destruct Hst. split; cbn [current sealed]; try done.
  - apply Forall_app; split; [done|by constructor].
  - apply Forall_app; split; [done|by constructor].
Qed.

Lemma fold_ok_step st line : fold_ok st → line_shape (text line) → (str_len (text line) ≤ L)%Z →
  fold_ok (fold_csv_line st line).
Proof.
  intros Hst Hshape HL. destruct (ends_with nl (text line)) eqn:Ee.
  2:{ unfold fold_csv_line. rewrite Ee. cbn [negb]. by apply fold_ok_seal. }
  assert (Hu : terminated (text line)).
  { destruct Hshape as [?|Hn]; [done|]. apply ends_with_spec in Ee as [p Hp].
    rewrite Hp, has_char_app in Hn. by rewrite orb_true_r in Hn. }
  destruct st as [c sld [] dq].
  { unfold fold_csv_line. rewrite Ee. cbn [negb discarding]. destruct (scan_csv _ _).
    destruct Hst. by split. }
  destruct (match c with Some a => over_limit (acc a) (text line) | None => false end) eqn:Elim.
  { destruct c as [a|]; [|done]. unfold fold_csv_line. rewrite Ee. cbn [negb discarding current].
    rewrite Elim. destruct (scan_csv _ _).
    by apply (fold_ok_seal (mk_fold (Some a) sld false dq)). }
  assert (Hc : cur_ok c) by apply Hst.
  destruct (fold_line_step c sld dq line Hc Hu) as (r & Hb & Hrl & ->).
  { by destruct c. }
  destruct (next_line c (text line) Hc Hu) as [He Hnext].
  assert (Hin : in_bounds r).
  { unfold in_bounds. rewrite Hb, Hrl, str_len_app. pose proof (cur_lines_nonneg c Hc).
    destruct c as [a|]; cbn [cur_lines cur_body] in *.
    - unfold over_limit, FOLD_LIMITS in Elim. cbn [max_lines max_bytes] in Elim.
      apply orb_false_iff in Elim as [E1%Z.ltb_ge E2%Z.ltb_ge]. lia.
    - rewrite str_len_nil. unfold MAX_RECORD_LINES. lia. }
  destruct (scan1 (text line) _).1 eqn:E.
  - apply (fold_ok_seal (mk_fold c sld false dq)); [done| |done|done]. intros _. split; [|exact Hin].
    unfold whole_record. cbn [body set_completion]. rewrite Hb.
    specialize (Hnext ""). rewrite app_nil_r in Hnext. rewrite Hnext. done.
  - assert (Hq : (scan1 (text line) (scan1 (cur_body c) false).2).2 = true).
    { by destruct (scan1 (text line) _).2. }
    rewrite Hq. destruct Hst. split; cbn [current sealed] in *; try done.
    + by apply (cur_ok_next c r (text line) true).
    + by intros a [= <-].
Qed.

Lemma fold_ok_lines lines st : fold_ok st →
  Forall (λ l, line_shape (text l) ∧ (str_len (text l) ≤ L)%Z) lines →
  fold_ok (fold_left fold_csv_line lines st).
Proof.
  intros Hst Hl. revert st Hst. induction Hl as [|l ls [H1 H2] _ IH]; intros st Hst; [done|].
  cbn [fold_left]. by apply IH, fold_ok_step.
Qed.

Lemma fold_sealed_count lines st :
  length (sealed (fold_left fold_csv_line lines st)) ≤ length (sealed st) + length lines.
Proof.
  revert st. induction lines as [|l ls IH]; intros st; cbn [fold_left length]; [lia|].
  specialize (IH (fold_csv_line st l)).
  assert (length (sealed (fold_csv_line st l)) ≤ S (length (sealed st))); [|lia].
  clear. unfold fold_csv_line. repeat case_match; cbn [sealed]; rewrite ?length_app; cbn; lia.
Qed.

(** A kept unfinished record, as the folder leaves it. *)
Definition pending_ok (p : PendingMultilineState) : Prop :=
  body (pm_record p) ≠ "" ∧ unfinished (body (pm_record p)) ∧ in_bounds (pm_record p).

Lemma fold_start_ok path pending : (∀ p, pending = Some p → pending_ok p) →
  fold_ok (mk_fold ((λ state, csv_resume (pm_record state)) <$> keep_if (same_source path) pending)
             [] false false).
Proof.
  intros Hp. split; cbn [current sealed]; try by constructor.
  - unfold keep_if. destruct pending as [p|]; [|done]. destruct (same_source path p); [|done].
    destruct (Hp p eq_refl) as (? & ? & [? ?]). apply csv_resume_ok; [done|lia|done].
  - unfold keep_if. destruct pending as [p|]; [|done]. destruct (same_source path p); [|done].
    intros a [= <-]. apply (Hp p eq_refl).
Qed.
End Whole.

(** * Claims *)

(** The batches of a file, one after the other, each with the time it was read at. *)
Fixpoint fold_batches (path : string) (batches : list (string * list RawFileLine))
    (pending : option PendingMultilineState) : list LogRecord * option PendingMultilineState :=
  match batches with
  | [] => ([], pending)
  | (observed_at_, lines) :: batches =>
      let '(sealed_, pending) := fold_csv path lines pending observed_at_ in
      let '(more, pending) := fold_batches path batches pending in ((sealed_ ++ more)%list, pending)
  end.
Definition stream_of (batches : list (string * list RawFileLine)) : string :=
  sconcat (map (λ b, sconcat (map text b.2)) batches).

(** A record a batch left unfinished: not empty, of this file, its lines counted. *)
Definition left_over (path : string) (p : PendingMultilineState) : Prop :=
  pm_source_path p = path ∧ body (pm_record p) ≠ "" ∧ unfinished (body (pm_record p)) ∧
  rlines (pm_record p) = newlines (body (pm_record p)).
Definition pending_body (pending : option PendingMultilineState) : string :=
  match pending with Some p => body (pm_record p) | None => "" end.

Lemma fold_batch path lines pending observed_at_ v : (∀ p, pending = Some p → left_over path p) →
  Forall (λ l, terminated (text l)) lines →
  all_fit (csv_split Field (pending_body pending +:+ sconcat (map text lines) +:+ v)) →
  let '(sealed_, pending') := fold_csv path lines pending observed_at_ in
  Forall (λ r, completion r = CBoundary) sealed_ ∧ (∀ p, pending' = Some p → left_over path p) ∧
  csv_split Field (pending_body pending +:+ sconcat (map text lines) +:+ v) =
    let '(rs, t) := csv_split Field (pending_body pending' +:+ v) in ((map body sealed_ ++ rs)%list, t).
Proof.
  intros Hp Hlines Hfit. unfold fold_csv.
  assert (Hk : keep_if (same_source path) pending = pending).
  { unfold keep_if, same_source. destruct pending as [p|]; [|done]. destruct (Hp p eq_refl) as [-> _]. by rewrite String.eqb_refl. }
  rewrite Hk. set (c := (λ state, csv_resume (pm_record state)) <$> pending).
  assert (Hbody : cur_body c = pending_body pending) by (unfold c; by destruct pending).
  assert (Hok : cur_ok c ∧ cur_counted c).
  { unfold c. destruct pending as [p|]; [|done]. destruct (Hp p eq_refl) as (_ & Hne & Hu & Hl). split; [|exact Hl].
    apply csv_resume_ok; [done| |done]. rewrite Hl. apply newlines_nonneg. }
  destruct Hok as [Hok Hn]. rewrite <- Hbody in *.
  destruct (fold_csv_lines lines c [] false v Hok Hn Hlines Hfit) as (new & c' & dq' & -> & Hc' & Hn' & Hnew & Hsp).
  cbn [sealed current app]. split_and!; [done| |by destruct c'].
  intros p. destruct c' as [a|]; [|done]. intros [= <-]. destruct Hc' as (Hne & Hu & _ & _).
  split_and!; [done|exact Hne|by apply unfinished_scan|exact Hn'].
Qed.

(** C25. The csvlog folder cuts a stream of complete lines exactly where an RFC 4180 reader does,
    whatever batches the lines come in: with the record that was left unfinished before in front, the
    records sealed over all batches are the complete CSV records of the whole stream, in order, the rest
    is kept with its file for the next batch, and nothing is sealed as cut off.  The stream may be of any
    length; each of its records, and the rest, is to be within the limits of one record, 1000
    lines and 1 MiB ([csv_only_whole_records] says what holds beyond them). *)
Theorem fold_csv_matches_reference (path : string) (batches : list (string * list RawFileLine))
    (pending : option PendingMultilineState) :
  (∀ p, pending = Some p → left_over path p) →
  Forall (λ b, Forall (λ l, terminated (text l)) b.2) batches →
  all_fit (csv_split Field (pending_body pending +:+ stream_of batches)) →
  let '(sealed_, pending') := fold_batches path batches pending in
  csv_split Field (pending_body pending +:+ stream_of batches) = (map body sealed_, pending_body pending') ∧
  Forall (λ r, completion r = CBoundary) sealed_ ∧
  (∀ p, pending' = Some p → left_over path p).
Proof.
  revert pending. induction batches as [|[observed_at_ lines] batches IH]; intros pending Hp Hl Hfit; cbn [fold_batches].
  { split; [|by split]. change (stream_of []) with "". rewrite app_nil_r.
    destruct pending as [p|]; [|done]. by destruct (Hp p eq_refl) as (_ & _ & ? & _). }
  apply Forall_cons in Hl as [Hl Hls].
  change (stream_of ((observed_at_, lines) :: batches)) with (sconcat (map text lines) +:+ stream_of batches) in *.
  pose proof (fold_batch path lines pending observed_at_ _ Hp Hl Hfit) as Hb. destruct (fold_csv _ _ _ _) as [sealed_ pending1].
  destruct Hb as (Hc & Hp1 & Hsp). rewrite Hsp in Hfit |- *. specialize (IH pending1 Hp1 Hls).
  destruct (fold_batches path batches pending1) as [more pending2]. destruct (csv_split Field _) as [rs t].
  destruct Hfit as [Hrs Ht]. cbn in Hrs, Ht. apply Forall_app in Hrs as [_ Hrs]. destruct (IH (conj Hrs Ht)) as ([= -> ->] & Hm & Hp2).
  split_and!; [by rewrite map_app|by apply Forall_app|done].
Qed.

Section Uplink.
Context `{Host} `{ContainerLookup}.

(** Whatever the csvlog file holds (quotes never closed, records over the limits, lines cut
    by the reader), only whole CSV records within the limits are sent, numbered in order;
    what is kept for the next read is an unfinished record within the limits. *)
Theorem csv_only_whole_records (L : Z) (observed_at_ path : string) (lines : list RawFileLine)
    (pending : option PendingMultilineState) (g : UplinkGate) (next_seq : Z) :
  (∀ p, pending = Some p → pending_ok L p) →
  Forall (λ l, line_shape (text l) ∧ (str_len (text l) ≤ L)%Z) lines →
  (0 ≤ next_seq)%Z → (next_seq + Z.of_nat (length lines) < 2 ^ 64)%Z →
  let '(folded, (g', next_seq')) :=
    records_from_read PostgresCsv [] observed_at_ path lines pending (g, next_seq) in
  ∃ kept, fr_records folded = sent g path kept next_seq ∧
    next_seq' = (next_seq + Z.of_nat (length kept))%Z ∧
    Forall (λ r, whole_record (body r) ∧ in_bounds L r) kept ∧
    (∀ p, fr_pending folded = Some p → pending_ok L p).
Proof.
  intros Hp Hlines Hn Hb. unfold records_from_read, fold_csv.
  destruct (decide (PostgresCsv = PostgresCsv)) as [_|]; [|done].
  pose proof (fold_ok_lines L lines _ (fold_start_ok L path pending Hp) Hlines) as Hok.
  pose proof (fold_sealed_count lines (mk_fold ((λ state, csv_resume (pm_record state)) <$>
    keep_if (same_source path) pending) [] false false)) as Hcount.
  set (st := fold_left fold_csv_line lines _) in *. cbn [sealed length] in Hcount.
  pose proof (filter_count (passes []) (sealed st)).
  rewrite noise_filter_spec by lia. cbn [fr_records fr_pending].
  exists (List.filter (passes []) (sealed st)). split; [done|]. split; [done|].
  destruct Hok. split.
  - apply Forall_forall. intros r [Hr Hpass]%list_elem_of_In%filter_In.
    apply list_elem_of_In in Hr. rewrite Forall_forall in fo_sealed0, fo_no_deadline0.
    apply fo_sealed0; [done|]. specialize (fo_no_deadline0 r Hr).
    unfold passes, complete, withholds in Hpass. cbn in Hpass. by destruct (completion r).
  - intros p. destruct (current st) as [a|] eqn:Ea; [|done]. intros [= <-].
    unfold pending_ok. cbn [pm_record]. specialize (fo_cur_bounds0 a eq_refl).
    destruct fo_cur0 as (? & ? & _). split_and!; [done|by apply unfinished_scan|apply fo_cur_bounds0..].
Qed.
End Uplink.

(** A record whose quoted field holds an escaped quote and a newline, over two batches. *)
Definition dq : string := String quote "".
Definition toy_text1 : string := "1," +:+ dq +:+ "a" +:+ dq +:+ dq +:+ "b" +:+ nl.
Definition toy_text2 : string := "c" +:+ dq +:+ nl.
Definition toy_text3 : string := "2,d" +:+ nl.
Definition toy_pending : PendingMultilineState :=
  mk_pending "/l/x.csv" "t" (mk_record toy_text1 0 9 1 CBoundary).
Definition toy_lines : list RawFileLine := [mk_raw_line toy_text2 9 12; mk_raw_line toy_text3 12 16].

Lemma toy_pending_ok L p : Some toy_pending = Some p → pending_ok L p.
Proof.
  intros [= <-]. split; [by vm_compute|]. split; [vm_compute; reflexivity|].
  assert (Hl : str_len (body (pm_record toy_pending)) = 8%Z) by (vm_compute; reflexivity).
  unfold in_bounds. rewrite Hl. assert (MAX_RECORD_BYTES = 1048576%Z) as -> by (vm_compute; reflexivity).
  unfold MAX_RECORD_LINES. cbn [rlines pm_record toy_pending]. lia.
Qed.

Lemma toy_lines_terminated : Forall (λ l, terminated (text l)) toy_lines.
Proof.
  repeat constructor; cbn [text].
  - exists ("c" +:+ dq). split; [vm_compute; reflexivity|vm_compute; reflexivity].
  - exists "2,d". split; [vm_compute; reflexivity|vm_compute; reflexivity].
Qed.

(** Two batches; the record over both has two lines. *)
Definition toy_batches : list (string * list RawFileLine) :=
  [("t1", [mk_raw_line toy_text1 0 9]); ("t2", toy_lines)].
Lemma fold_csv_matches_reference_witness :
  let '(sealed_, pending') := fold_batches "/l/x.csv" toy_batches None in
  map body sealed_ = [toy_text1 +:+ toy_text2; toy_text3] ∧ pending' = None ∧
  csv_split Field (stream_of toy_batches) = (map body sealed_, "").
Proof.
  assert (Hl : Forall (λ b, Forall (λ l, terminated (text l)) b.2) toy_batches).
  { apply Forall_cons. split; [|apply Forall_singleton, toy_lines_terminated]. apply Forall_singleton.
    exists ("1," +:+ dq +:+ "a" +:+ dq +:+ dq +:+ "b"). split; vm_compute; reflexivity. }
  assert (Hf : all_fit (csv_split Field (stream_of toy_batches))).
  { split; [|split; vm_compute; discriminate]. repeat apply Forall_cons_2; [..|apply Forall_nil_2]; split; vm_compute; discriminate. }
  pose proof (fold_csv_matches_reference "/l/x.csv" toy_batches None ltac:(discriminate) Hl Hf) as Hc.
  destruct (fold_batches "/l/x.csv" toy_batches None) as [sl p'] eqn:E.
  vm_compute in E. injection E as <- <-.
  split; [vm_compute; reflexivity|]. split; [reflexivity|]. exact (proj1 Hc).
Defined.

Lemma csv_only_whole_records_witness :
  let lines := toy_lines ++ [mk_raw_line "3,cut" 16 30] in
  let '(folded, (_, next_seq')) :=
    records_from_read PostgresCsv [] "now" "/l/x.csv" lines (Some toy_pending) (toy_gate, 5%Z) in
  next_seq' = 7%Z ∧
  ∃ kept, fr_records folded = sent toy_gate "/l/x.csv" kept 5 ∧
    Forall (λ r, whole_record (body r) ∧ in_bounds 10 r) kept.
Proof.
  intros lines.
  assert (Hl : Forall (λ l, line_shape (text l) ∧ (str_len (text l) ≤ 10)%Z) lines).
  { unfold lines, toy_lines. cbn [app].
    pose proof toy_lines_terminated as Ht. unfold toy_lines in Ht.
    apply Forall_cons in Ht as [H1 Ht]. apply Forall_cons in Ht as [H2 _].
    apply Forall_cons. split; [split; [left; exact H1|vm_compute; discriminate]|].
    apply Forall_cons. split; [split; [left; exact H2|vm_compute; discriminate]|].
    apply Forall_singleton. split; [right; vm_compute; reflexivity|vm_compute; discriminate]. }
  pose proof (csv_only_whole_records 10 "now" "/l/x.csv" lines (Some toy_pending) toy_gate 5
    (toy_pending_ok 10) Hl ltac:(lia) ltac:(vm_compute; reflexivity)) as Hc.
  destruct (records_from_read PostgresCsv [] "now" "/l/x.csv" lines (Some toy_pending) (toy_gate, 5%Z))
    as [folded [g' n']] eqn:E.
  destruct Hc as (kept & Hr & _ & Hk & _). split.
  - vm_compute in E. injection E as _ _ <-. reflexivity.
  - exists kept. split; [exact Hr|exact Hk].
Defined.
