(* ===== verification/Delivery.v ===== *)
(** Delivery of telemetry records: the bounded buffer (src/src/telemetry/buffer.rs), the
    durable spool (spool.rs), and the choice between sending and spooling
    (logs/files/delivery_support.rs).  The sink is an interface ([RecordSink]); the file and TCP
    sinks of warp_parse.rs are those of Wire.v. *)
From S2P Require Import Prelude Host Text Telemetry LogToy.

(** * buffer.rs *)
Section Buffer.
Context `{LogContracts}.

Record StageResult := mk_stage { staged : list TelemetryRecord; overflowed : list TelemetryRecord }.

Record TelemetryBuffer := mk_buffer {
  tb_max_bytes : Z;
  used_bytes : Z;
  tb_staged : list TelemetryRecord;
}.

Definition TelemetryBuffer_new (max_bytes : Z) : TelemetryBuffer := mk_buffer max_bytes 0 [].

Definition estimate_record_size (record : TelemetryRecord) : Z :=
  str_len (tr_body record) + str_len (tr_input_id record) + str_len (tr_source_path record)
  + str_len (tr_agent_id record) + 64.

Fixpoint stage_loop (records : list TelemetryRecord) (overflowed : list TelemetryRecord)
    (b : TelemetryBuffer) : list TelemetryRecord * TelemetryBuffer :=
  match records with
  | [] => (overflowed, b)
  | record :: records =>
      let record_size := estimate_record_size record in
      if Z.ltb (tb_max_bytes b) (used_bytes b + record_size)
      then stage_loop records (overflowed ++ [record]) b
      else stage_loop records overflowed
             (mk_buffer (tb_max_bytes b) (used_bytes b + record_size) (tb_staged b ++ [record]))
  end.

Definition stage_all (records : list TelemetryRecord) (b : TelemetryBuffer)
    : StageResult * TelemetryBuffer :=
  let '(overflowed, b) := stage_loop records [] b in
  (mk_stage (tb_staged b) overflowed, mk_buffer (tb_max_bytes b) (used_bytes b) []).
End Buffer.
Arguments mk_stage {_} _ _.
Arguments mk_buffer {_} _ _ _.

(** * The interfaces *)

(** [RecordSink] of warp_parse.rs, and the reason carried by an error of the sink. *)
Class RecordSink `{LogContracts} := {
  SinkState : Type;
  write_records : list TelemetryRecord → SinkState → result unit * SinkState;
  uplink_write_detail : IoError → option string;
  (** The records the other end has taken. *)
  accepted : SinkState → list TelemetryRecord;
}.

(** A sink that reports success has delivered the batch; one that fails may have delivered
    some of it. *)
Class RecordSinkLaws `{RecordSink} : Prop := {
  write_records_ok : ∀ rs s u s', write_records rs s = (Ok u, s') → accepted s' = accepted s ++ rs;
  write_records_err : ∀ rs s e s', write_records rs s = (Err e, s') →
    ∃ part, accepted s' = accepted s ++ part ∧ part `sublist_of` rs;
}.

(** [wist_shared::fs::ensure_parent], and the capacity [Vec::with_capacity] allocates. *)
Class SpoolEnv `{Host} := {
  ensure_parent : string → M World unit;
  with_capacity : nat → nat;
}.
Class SpoolLaws `{SpoolEnv} : Prop := {
  ensure_parent_law : ∀ p, meq (ensure_parent p) (ensure_parent_async p);
  with_capacity_ge : ∀ n, n ≤ with_capacity n;
}.

(** The world and the sink of one input. *)
Record Uplink `{Os} `{RecordSink} := mk_uplink { world : World; sink : SinkState }.
Arguments mk_uplink {_ _ _} _ _.

Section State.
Context `{Os} `{RecordSink}.
Definition in_world {A} (m : M World A) : M Uplink A :=
  zoom world (λ w d, mk_uplink w (sink d)) m.
Definition in_sink {A} (m : M SinkState A) : M Uplink A :=
  zoom sink (λ s d, mk_uplink (world d) s) m.
End State.

(** * spool.rs *)
Section Spool.
Context `{SpoolEnv} `{LogContracts}.

(** [OpenOptions::new().create(true).append(true).open]. *)
Definition fs_open_append (p : string) : M World unit :=
  guard_fault OpCreate p;;
  modify (λ w, set_files (<[p := default "" (files w !! p)]> (files w)) w).

Fixpoint write_lines (path : string) (records : list TelemetryRecord) : M World unit :=
  match records with
  | [] => mret tt
  | record :: records =>
      let encoded := to_json record in
      fs_append path encoded;;
      fs_append path nl;;
      write_lines path records
  end.

Definition append_records_async (path : string) (records : list TelemetryRecord) : M World unit :=
  match records with
  | [] => mret tt
  | _ =>
      ensure_parent path;;
      fs_open_append path;;
      write_lines path records;;
      fs_sync path
  end.

(** [metadata(path)?.len()]. *)
Definition fs_len (path : string) : M World Z :=
  fs_metadata path;; gets (λ w, str_len (default "" (files w !! path))).

Definition or_missing {A} (d : A) (m : M World A) : M World A :=
  r ← try m;
  match r with
  | Ok a => mret a
  | Err err => if decide (io_kind err = NotFound) then mret d else throw err
  end.

Definition has_records_async (path : string) : M World bool :=
  or_missing false (len ← fs_len path; mret (Z.ltb 0 len)).

Definition size_async (path : string) : M World Z := or_missing 0%Z (fs_len path).

Definition clear_async (path : string) : M World unit := or_missing tt (fs_remove path).

Definition parse_record_line (line : string) : result TelemetryRecord :=
  from_json (trim_line_end line).

Definition quarantine_line (path line : string) : M World unit :=
  let bad_path := path_with_extension path "ndjson.bad" in
  ensure_parent bad_path;;
  fs_open_append bad_path;;
  fs_append bad_path line;;
  if negb (ends_with nl line) then fs_append bad_path nl else mret tt.

Definition invalid_utf8 : IoError := MkIoError InvalidData "stream did not contain valid UTF-8".
End Spool.

Section Replay.
Context `{SpoolEnv} `{RecordSink}.

(** The loop of [replay_records_async] over the bytes of the file not yet read; a round reads
    a line, so one round per byte and one to stop are enough. *)
Fixpoint replay_loop (fuel : nat) (path : string) (capacity : nat)
    (batch : list TelemetryRecord) (replayed : nat) (rest : string)
    : M Uplink (list TelemetryRecord * nat) :=
  match fuel with
  | 0 => mret (batch, replayed)
  | S fuel =>
      let '(line, rest) := split_line rest in
      if String.eqb line "" then mret (batch, replayed)
      else if negb (utf8_valid line) then throw invalid_utf8
      else if is_blank line then replay_loop fuel path capacity batch replayed rest
      else
        batch ← match parse_record_line line with
                | Ok record => mret (batch ++ [record])
                | Err _ => in_world (quarantine_line path line);; mret batch
                end;
        if Nat.leb capacity (length batch) then
          in_sink (write_records batch);;
          replay_loop fuel path capacity [] (replayed + length batch) rest
        else replay_loop fuel path capacity batch replayed rest
  end.

Definition replay_records_async (path : string) (batch_size : nat) : M Uplink nat :=
  file ← try (in_world (fs_read path));
  match file with
  | Err err => if decide (io_kind err = NotFound) then mret 0 else throw err
  | Ok content =>
      '(batch, replayed) ← replay_loop (S (String.length content)) path
        (with_capacity (max batch_size 1)) [] 0 content;
      replayed ← (if Nat.eqb (length batch) 0 then mret replayed
                  else in_sink (write_records batch);; mret (replayed + length batch));
      in_world (clear_async path);;
      mret replayed
  end.
End Replay.

(** * delivery_support.rs *)

Record DeliveryOutcome := mk_delivery {
  records_processed : Z;
  emitted_directly : Z;
  spooled : Z;
  sink_error : option string;
}.

Section Delivery.
Context `{SpoolEnv} `{RecordSink}.

Definition len_ (rs : list TelemetryRecord) : Z := Z.of_nat (length rs).

Definition spool_pending (spool_path : string) (staged overflowed : list TelemetryRecord)
    : M Uplink Z :=
  let to_spool := staged ++ overflowed in
  in_world (append_records_async spool_path to_spool);;
  mret (len_ to_spool).

Definition deliver_fresh (spool_path : string) (staged overflowed : list TelemetryRecord)
    : M Uplink (Z * Z * option string) :=
  spooled ← (match overflowed with
             | [] => mret 0%Z
             | _ => in_world (append_records_async spool_path overflowed);;
                    mret (len_ overflowed)
             end);
  match staged with
  | [] => mret (0%Z, spooled, None)
  | _ =>
      sent ← try (in_sink (write_records staged));
      match sent with
      | Ok _ => mret (len_ staged, spooled, None)
      | Err err =>
          let spooled := (spooled + len_ staged)%Z in
          let detail := io_msg err in
          buffered ← try (in_world (append_records_async spool_path staged));
          match buffered with
          | Err spool_err =>
              throw (MkIoError (io_kind spool_err)
                (io_msg spool_err +:+ "; while buffering records that failed to send: " +:+ detail))
          | Ok _ => mret (0%Z, spooled, Some detail)
          end
      end
  end.

Definition deliver_records (spool_path : string) (in_memory_budget_bytes : Z)
    (records : list TelemetryRecord) : M Uplink DeliveryOutcome :=
  let records_processed := len_ records in
  let buffer := TelemetryBuffer_new in_memory_budget_bytes in
  let '(st, _) := stage_all records buffer in
  pending ← in_world (has_records_async spool_path);
  '(emitted_directly, spooled, sink_error) ←
    (if pending : bool then
       spooled ← spool_pending spool_path (staged st) (overflowed st);
       mret (0%Z, spooled, None)
     else deliver_fresh spool_path (staged st) (overflowed st));
  mret (mk_delivery records_processed emitted_directly spooled sink_error).

Definition replay_spool_if_present (spool_path : string) (batch_size : nat) : M Uplink nat :=
  present ← in_world (has_records_async spool_path);
  if negb present then mret 0 else replay_records_async spool_path batch_size.
End Delivery.

(** * The buffer *)
Section BufferLemmas.
Context `{LogContracts}.
Implicit Types (rs : list TelemetryRecord) (b : TelemetryBuffer).

Definition total_size rs : Z := foldr (λ r n, estimate_record_size r + n)%Z 0%Z rs.

Lemma record_size_pos r : (0 < estimate_record_size r)%Z.
Proof.
  unfold estimate_record_size. pose proof (str_len_nonneg (tr_body r)).
  pose proof (str_len_nonneg (tr_input_id r)). pose proof (str_len_nonneg (tr_source_path r)).
  pose proof (str_len_nonneg (tr_agent_id r)). lia.
Qed.

Lemma total_size_nonneg rs : (0 ≤ total_size rs)%Z.
Proof. induction rs as [|r rs IH]; cbn; [lia|]. pose proof (record_size_pos r). unfold total_size in IH. lia. Qed.

(** What the loop keeps and what it passes on. *)
Lemma stage_loop_spec rs ov b ov' b' : stage_loop rs ov b = (ov', b') →
  ∃ kept over, ov' = ov ++ over ∧ tb_staged b' = tb_staged b ++ kept ∧
    kept ++ over ≡ₚ rs ∧ kept `sublist_of` rs ∧ over `sublist_of` rs ∧
    used_bytes b' = (used_bytes b + total_size kept)%Z ∧ tb_max_bytes b' = tb_max_bytes b ∧
    (used_bytes b ≤ tb_max_bytes b → used_bytes b' ≤ tb_max_bytes b)%Z ∧
    Forall (λ r, (tb_max_bytes b < used_bytes b' + estimate_record_size r)%Z) over.
Proof.
  revert ov b. induction rs as [|r rs IH]; intros ov b; cbn [stage_loop].
  - intros [= <- <-]. exists [], []. rewrite !(right_id_L [] (++)). cbn.
    rewrite Z.add_0_r. split_and!; done || constructor.
  - destruct (Z.ltb_spec (tb_max_bytes b) (used_bytes b + estimate_record_size r)) as [Hov|Hfit].
    + intros (kept & over & -> & -> & Hp & Hs1 & Hs2 & Hu & Hm & Hle & Hall)%IH.
      exists kept, (r :: over). rewrite <-(assoc_L (++)).
      split; [done|]. split; [done|]. split; [by rewrite <-Permutation_middle, Hp|].
      split; [by constructor|]. split; [by constructor|]. do 3 (split; [done|]).
      constructor; [|done]. rewrite Hu. pose proof (total_size_nonneg kept). lia.
    + intros (kept & over & -> & Hst & Hp & Hs1 & Hs2 & Hu & Hm & Hle & Hall)%IH.
      cbn [tb_staged used_bytes tb_max_bytes] in *.
      exists (r :: kept), over. split; [done|]. split; [by rewrite Hst, <-(assoc_L (++))|].
      split; [cbn; by rewrite Hp|]. split; [by constructor|]. split; [by constructor|].
      split; [rewrite Hu; cbn; unfold total_size; lia|]. split; [done|]. split; [|done].
      intros _. apply Hle. lia.
Qed.

Lemma stage_all_spec rs max : ∃ st b', stage_all rs (TelemetryBuffer_new max) = (st, b') ∧
  staged st ++ overflowed st ≡ₚ rs ∧ staged st `sublist_of` rs ∧ overflowed st `sublist_of` rs ∧
  (0 ≤ max → total_size (staged st) ≤ max)%Z ∧
  Forall (λ r, (max < total_size (staged st) + estimate_record_size r)%Z) (overflowed st).
Proof.
  unfold stage_all. destruct (stage_loop rs [] _) as [ov b'] eqn:E.
  apply stage_loop_spec in E as (kept & over & -> & Hst & Hp & Hs1 & Hs2 & Hu & Hm & Hle & Hall).
  cbn [tb_staged used_bytes tb_max_bytes TelemetryBuffer_new app] in *. rewrite Hst.
  eexists _, _. split; [reflexivity|]. cbn [staged overflowed app]. rewrite Hu in *.
  rewrite Z.add_0_l in *. split_and!; auto.
Qed.
End BufferLemmas.

(** * The calls of the spool *)
Section SpoolLemmas.
Context `{SpoolEnv} `{!SpoolLaws} `{LogContracts}.
Implicit Types (w : World) (p : string) (rs : list TelemetryRecord).

Definition spool_text rs : string := foldr (λ r s, to_json r +:+ nl +:+ s) "" rs.

Lemma ensure_parent_run p w u w' : ensure_parent p w = (Ok u, w') → files w' = files w.
Proof. rewrite ensure_parent_law. by intros ->%ensure_parent_ok. Qed.

Lemma ensure_parent_respects F p : respects (only_files F) (ensure_parent p).
Proof.
  intros w. rewrite ensure_parent_law. unfold ensure_parent_async.
  case_match; [by apply fs_create_dir_all_respects|by apply respects_ret, _].
Qed.

Lemma fs_append_respects F p s : F p → respects (only_files F) (fs_append p s).
Proof.
  intros HF. apply respects_bind; [apply _|by apply guard_fault_respects, _|intros _].
  apply modify_files_respects. intros w q Hq. rewrite lookup_insert_ne; [done|naive_solver].
Qed.

Lemma fs_open_append_respects F p : F p → respects (only_files F) (fs_open_append p).
Proof.
  intros HF. apply respects_bind; [apply _|by apply guard_fault_respects, _|intros _].
  apply modify_files_respects. intros w q Hq. rewrite lookup_insert_ne; [done|naive_solver].
Qed.

Lemma write_lines_respects F p rs : F p → respects (only_files F) (write_lines p rs).
Proof.
  intros HF. induction rs as [|r rs IH]; cbn [write_lines]; [by apply respects_ret, _|].
  apply respects_bind; [apply _|by apply fs_append_respects|intros _].
  apply respects_bind; [apply _|by apply fs_append_respects|done].
Qed.

Lemma append_records_respects F p rs : F p → respects (only_files F) (append_records_async p rs).
Proof.
  intros HF. unfold append_records_async. destruct rs; [by apply respects_ret, _|].
  apply respects_bind; [apply _|by apply ensure_parent_respects|intros _].
  apply respects_bind; [apply _|by apply fs_open_append_respects|intros _].
  apply respects_bind; [apply _|by apply write_lines_respects|intros _].
  by apply guard_fault_respects, _.
Qed.

Lemma fs_append_ok p s w u w' : fs_append p s w = (Ok u, w') →
  files w' = <[p := default "" (files w !! p) +:+ s]> (files w).
Proof. intros Hr. unfold fs_append in Hr. by apply guarded_modify_ok in Hr as ->. Qed.

Lemma write_lines_ok p rs w u w' : write_lines p rs w = (Ok u, w') →
  is_Some (files w !! p) →
  files w' !! p = Some (default "" (files w !! p) +:+ spool_text rs).
Proof.
  revert w. induction rs as [|r rs IH]; intros w Hr Hp; cbn [write_lines] in Hr.
  - injection Hr as _ <-. destruct Hp as [s Hs]. rewrite Hs. cbn. by rewrite app_nil_r.
  - apply bind_ok_inv in Hr as (? & w1 & H1' & Hr). apply fs_append_ok in H1'.
    apply bind_ok_inv in Hr as (? & w2 & H2' & Hr). apply fs_append_ok in H2'.
    apply IH in Hr as ->; rewrite H2', H1', ?lookup_insert_eq; [|by eexists].
    cbn [default spool_text foldr]. unfold id. by rewrite <-!app_assoc.
Qed.

Lemma append_records_ok p rs w u w' : append_records_async p rs w = (Ok u, w') →
  default "" (files w' !! p) = default "" (files w !! p) +:+ spool_text rs ∧
  (rs ≠ [] → is_Some (files w' !! p)).
Proof.
  unfold append_records_async. destruct rs as [|r rs].
  - intros [= _ <-]. cbn. by rewrite app_nil_r.
  - intros Hr. apply bind_ok_inv in Hr as (? & w1 & H1' & Hr). apply ensure_parent_run in H1'.
    apply bind_ok_inv in Hr as (? & w2 & H2' & Hr). apply guarded_modify_ok in H2'.
    apply bind_ok_inv in Hr as (? & w3 & H3' & Hr). apply guarded_ok in Hr as ->.
    apply write_lines_ok in H3'; [|rewrite H2'; cbn; rewrite lookup_insert_eq; by eexists].
    rewrite H3', H2'. cbn [files set_files]. rewrite lookup_insert_eq, H1'. by split; [|eexists].
Qed.

Lemma append_records_ff p rs w : fault_free → ∃ w', append_records_async p rs w = (Ok tt, w').
Proof.
  intros Hff. unfold append_records_async. destruct rs as [|r rs]; [eauto|].
  assert (Hl : ∀ rs w, ∃ w', write_lines p rs w = (Ok tt, w')).
  { clear r rs w. induction rs as [|r rs IH]; intros w; cbn [write_lines]; [by eexists|].
    unfold mbind, M_bind, fs_append, mbind, M_bind, guard_fault, modify. rewrite !Hff. apply IH. }
  destruct (ensure_parent p w) as [[[]|e] w1] eqn:E1; rewrite ensure_parent_law in E1.
  2:{ exfalso. unfold ensure_parent_async in E1. destruct (path_parent p); [|done].
      unfold fs_create_dir_all, mbind, M_bind, guard_fault, modify in E1. by rewrite Hff in E1. }
  rewrite <-(ensure_parent_law p w) in E1. rewrite (bind_ok _ _ _ _ _ E1).
  assert (E2 : ∃ w2, fs_open_append p w1 = (Ok tt, w2)).
  { unfold fs_open_append, mbind, M_bind, guard_fault, modify. rewrite Hff. eauto. }
  destruct E2 as [w2 E2]. rewrite (bind_ok _ _ _ _ _ E2). destruct (Hl (r :: rs) w2) as [w3 E3].
  rewrite (bind_ok _ _ _ _ _ E3). exists w3. unfold fs_sync, guard_fault. by rewrite Hff.
Qed.

Lemma fs_len_run p w r w' : fs_len p w = (r, w') → w' = w ∧
  (∀ n, r = Ok n → n = str_len (default "" (files w !! p))) ∧
  (∀ e, r = Err e → io_kind e = NotFound → files w !! p = None).
Proof.
  unfold fs_len. intros Hr. apply bind_inv in Hr as [(e & E & ->)|([] & w1 & E & Hr)].
  - apply fs_metadata_err in E as [-> Hk]. split; [done|]. split; [done|].
    intros e' [= <-] Hn. apply Hk in Hn as [Hn _]. by apply fs_exists_false.
  - apply fs_metadata_ok in E as [-> _]. injection Hr as <- <-. split; [done|].
    split; [by intros n [= <-]|done].
Qed.

Lemma or_missing_run {A} (d : A) (m : M World A) w r w' : or_missing d m w = (r, w') →
  ∃ r0, m w = (r0, w') ∧
    match r0 with
    | Ok a => r = Ok a
    | Err e => if decide (io_kind e = NotFound) then r = Ok d else r = Err e
    end.
Proof.
  unfold or_missing, try, mbind, M_bind. destruct (m w) as [[a|e] w1]; intros Hr.
  - injection Hr as <- <-. by exists (Ok a).
  - exists (Err e). case_decide; injection Hr as <- <-; done.
Qed.

Lemma has_records_run p w r w' : has_records_async p w = (r, w') → w' = w ∧
  (∀ b, r = Ok b → b = negb (String.eqb (default "" (files w !! p)) "")).
Proof.
  unfold has_records_async. intros (r0 & Hr & Hres)%or_missing_run.
  apply bind_inv in Hr as [(e & E & ->)|(n & w1 & E & Hr)]; apply fs_len_run in E as (-> & Hn & He).
  - split; [done|]. intros b Hb. case_decide as Hk; [|congruence]. rewrite (He e eq_refl Hk).
    cbn. congruence.
  - injection Hr as <- <-. split; [done|]. intros b Hb. rewrite Hres in Hb. injection Hb as <-.
    rewrite (Hn n eq_refl). by destruct (default "" _).
Qed.

Lemma clear_run p w r w' : clear_async p w = (r, w') →
  match r with
  | Ok _ => files w' = delete p (files w)
  | Err _ => w' = w
  end.
Proof.
  unfold clear_async. intros (r0 & Hr & Hres)%or_missing_run. destruct r0 as [[]|e].
  - subst r. by apply fs_remove_ok in Hr as [-> _].
  - apply fs_remove_err in Hr as [-> Hk]. case_decide as Hd; subst r; [|done].
    by rewrite delete_id by auto.
Qed.

Lemma quarantine_line_respects p line :
  respects (only_files (eq (path_with_extension p "ndjson.bad"))) (quarantine_line p line).
Proof.
  unfold quarantine_line.
  apply respects_bind; [apply _|by apply ensure_parent_respects|intros _].
  apply respects_bind; [apply _|by apply fs_open_append_respects|intros _].
  apply respects_bind; [apply _|by apply fs_append_respects|intros _].
  case_match; [by apply fs_append_respects|by apply respects_ret, _].
Qed.

(** A line as it is kept: with its newline. *)
Definition kept_line (line : string) : string := if ends_with nl line then line else line +:+ nl.

Lemma quarantine_line_ok p line w u w' : quarantine_line p line w = (Ok u, w') →
  let bad := path_with_extension p "ndjson.bad" in
  default "" (files w' !! bad) = default "" (files w !! bad) +:+ kept_line line.
Proof.
  intros Hr bad. unfold quarantine_line in Hr. fold bad in Hr.
  apply bind_ok_inv in Hr as (? & w1 & H1' & Hr). apply ensure_parent_run in H1'.
  apply bind_ok_inv in Hr as (? & w2 & H2' & Hr). apply guarded_modify_ok in H2'.
  apply bind_ok_inv in Hr as (? & w3 & H3' & Hr). apply fs_append_ok in H3'.
  assert (H2f : files w2 !! bad = Some (default "" (files w !! bad))).
  { subst w2. cbn [files set_files]. by rewrite lookup_insert_eq, H1'. }
  assert (H3f : files w3 !! bad = Some (default "" (files w !! bad) +:+ line)).
  { by rewrite H3', lookup_insert_eq, H2f. }
  unfold kept_line. destruct (ends_with nl line); cbn [negb] in Hr.
  - injection Hr as _ <-. by rewrite H3f.
  - apply fs_append_ok in Hr. rewrite Hr, lookup_insert_eq, H3f. cbn [default].
    unfold id. by rewrite app_assoc.
Qed.
End SpoolLemmas.

(** * Replay *)
Section ReplayLemmas.
Context `{SpoolEnv} `{!SpoolLaws} `{RecordSink} `{!RecordSinkLaws} `{!LogLaws}.
Implicit Types (d : Uplink) (p : string) (rs : list TelemetryRecord).

Lemma in_world_run {A} (m : M World A) d r d' : in_world m d = (r, d') →
  ∃ w', m (world d) = (r, w') ∧ d' = mk_uplink w' (sink d).
Proof. unfold in_world, zoom. destruct (m (world d)) as [r0 w0]. intros [= <- <-]. eauto. Qed.

Lemma in_sink_run {A} (m : M SinkState A) d r d' : in_sink m d = (r, d') →
  ∃ s', m (sink d) = (r, s') ∧ d' = mk_uplink (world d) s'.
Proof. unfold in_sink, zoom. destruct (m (sink d)) as [r0 s0]. intros [= <- <-]. eauto. Qed.

(** The lines of a spool file, blank ones left out. *)
Fixpoint lines_fuel (fuel : nat) (s : string) : list string :=
  match fuel with
  | 0 => []
  | S fuel =>
      let '(line, rest) := split_line s in
      if String.eqb line "" then [] else
      (if is_blank line then [] else [line]) ++ lines_fuel fuel rest
  end.
Definition spool_lines (content : string) : list string :=
  lines_fuel (S (String.length content)) content.
Definition good_records (ls : list string) : list TelemetryRecord :=
  omap (λ l, result_ok (parse_record_line l)) ls.
Definition bad_text (ls : list string) : string :=
  foldr (λ l s, (if is_ok (parse_record_line l) then "" else kept_line l) +:+ s) "" ls.

Lemma lines_fuel_more n m s : String.length s < n → String.length s < m →
  lines_fuel n s = lines_fuel m s.
Proof.
  revert m s. induction n as [|n IH]; intros [|m] s Hn Hm; [lia..|]. cbn [lines_fuel].
  destruct (split_line s) as [l r] eqn:E. destruct (String.eqb_spec l "") as [->|Hl]; [done|].
  f_equal. apply split_line_app in E as ->. rewrite length_app_string in *.
  destruct l; [done|]. cbn [String.length] in *. apply IH; lia.
Qed.

Lemma spool_lines_text rs : spool_lines (spool_text rs) = map (λ r, to_json r +:+ nl) rs.
Proof.
  unfold spool_lines. induction rs as [|r rs IH]; [done|].
  change (spool_text (r :: rs)) with (to_json r +:+ nl +:+ spool_text rs). cbn [lines_fuel map].
  rewrite split_line_line by apply record_one_line.
  destruct (String.eqb_spec (to_json r +:+ nl) "") as [He|_]; [by destruct (to_json r)|].
  rewrite record_not_blank. cbn [app]. f_equal. rewrite <-IH. apply lines_fuel_more; [|lia].
  rewrite !length_app_string. cbn. lia.
Qed.

Lemma parse_record_text r : parse_record_line (to_json r +:+ nl) = Ok r.
Proof.
  unfold parse_record_line. rewrite trim_line_end_snoc_nl.
  destruct (record_end r) as (a & Ha & ? & ?). rewrite (trim_line_end_id _ a) by done.
  apply record_parses.
Qed.

Lemma good_records_text rs : good_records (spool_lines (spool_text rs)) = rs.
Proof.
  rewrite spool_lines_text. induction rs as [|r rs IH]; [done|]. cbn.
  rewrite parse_record_text. cbn. by f_equal.
Qed.

(** The sink went on from [s] to [s']. *)
Definition sink_extends (s s' : SinkState) : Prop := ∃ part, accepted s' = accepted s ++ part.

#[export] Instance sink_extends_preorder : PreOrder sink_extends.
Proof.
  split.
  - intros s. exists []. by rewrite (right_id_L [] (++)).
  - intros s1 s2 s3 [p1 E1] [p2 E2]. exists (p1 ++ p2). by rewrite E2, E1, (assoc_L (++)).
Qed.

Lemma write_records_extends rs s r s' : write_records rs s = (r, s') → sink_extends s s'.
Proof.
  destruct r as [u|e]; [intros ?%write_records_ok; by eexists|].
  intros (part & ? & _)%write_records_err. by eexists.
Qed.

(** What a run of the loop did, whether it failed or not. *)
Lemma replay_loop_run fuel p cap batch n rest d r d' :
  String.length rest < fuel →
  replay_loop fuel p cap batch n rest d = (r, d') →
  let bad := path_with_extension p "ndjson.bad" in
  only_files (eq bad) (world d) (world d') ∧ sink_extends (sink d) (sink d') ∧
  ∀ batch' n', r = Ok (batch', n') →
    let ls := lines_fuel fuel rest in
    (∃ out, batch ++ good_records ls = out ++ batch' ∧
       accepted (sink d') = accepted (sink d) ++ out ∧ n' = n + length out) ∧
    default "" (files (world d') !! bad) = default "" (files (world d) !! bad) +:+ bad_text ls ∧
    Forall (λ l, utf8_valid l = true) ls.
Proof.
  intros Hf Hr bad. revert batch n rest d Hf Hr.
  induction fuel as [|fuel IH]; intros batch n rest d Hf Hr; [lia|]. cbn [replay_loop] in Hr.
  cbn [lines_fuel]. destruct (split_line rest) as [l rest'] eqn:E.
  destruct (String.eqb_spec l "") as [->|Hl].
  { injection Hr as <- <-. split; [reflexivity|]. split; [reflexivity|].
    intros batch' n' [= <- <-]. cbn. split; [|by rewrite app_nil_r].
    exists []. rewrite !(right_id_L [] (++)). cbn. by rewrite Nat.add_0_r. }
  assert (Hf' : String.length rest' < fuel).
  { apply split_line_app in E as ->. rewrite length_app_string in Hf. destruct l; [done|].
    cbn [String.length] in Hf. lia. }
  destruct (utf8_valid l) eqn:Hv; cbn [negb] in Hr.
  2:{ injection Hr as <- <-. split; [reflexivity|]. split; [reflexivity|done]. }
  destruct (is_blank l).
  { cbn [app]. by apply IH. }
  (* The line joined the batch or was set aside. *)
  assert (∃ rb d1,
    (match parse_record_line l with
     | Ok record => mret (batch ++ [record])
     | Err _ => in_world (quarantine_line p l);; mret batch
     end) d = (rb, d1) ∧ only_files (eq bad) (world d) (world d1) ∧ sink d1 = sink d ∧
    match rb with
    | Ok b1 => b1 = batch ++ good_records [l] ∧
        default "" (files (world d1) !! bad) = default "" (files (world d) !! bad) +:+ bad_text [l]
    | Err _ => True
    end) as (rb & d1 & E1 & Hw1 & Hs1 & Hb1).
  { unfold good_records, bad_text. cbn [omap list_omap foldr].
    destruct (parse_record_line l) as [rec|e]; cbn [result_ok is_ok].
    - exists (Ok (batch ++ [rec])), d. split_and!; try reflexivity. cbn. by rewrite app_nil_r.
    - destruct (in_world (quarantine_line p l) d) as [[u|e'] d1] eqn:Eq.
      + exists (Ok batch), d1. rewrite (bind_ok _ _ _ _ _ Eq).
        apply in_world_run in Eq as (w1 & Eq & ->). cbn [world sink].
        split; [done|]. split; [by eapply respects_run; [apply quarantine_line_respects|]|].
        split; [done|]. rewrite (right_id_L [] (++)), app_nil_r. split; [done|].
        by apply quarantine_line_ok in Eq.
      + exists (Err e'), d1. rewrite (bind_err _ _ _ _ _ Eq).
        apply in_world_run in Eq as (w1 & Eq & ->). cbn [world sink].
        split; [done|]. split; [by eapply respects_run; [apply quarantine_line_respects|]|done]. }
  destruct rb as [b1|e1].
  2:{ rewrite (bind_err _ _ _ _ _ E1) in Hr. injection Hr as <- <-. rewrite Hs1. done. }
  rewrite (bind_ok _ _ _ _ _ E1) in Hr. destruct Hb1 as [-> Hbad1].
  assert (Hgood : ∀ ls, good_records ([l] ++ ls) = good_records [l] ++ good_records ls)
    by (intros ls; apply omap_app).
  assert (Hbt : ∀ ls, bad_text ([l] ++ ls) = bad_text [l] +:+ bad_text ls).
  { intros ls. unfold bad_text. cbn [app foldr]. by rewrite app_nil_r. }
  destruct (Nat.leb cap (length (batch ++ good_records [l]))).
  - destruct (in_sink (write_records (batch ++ good_records [l])) d1) as [[u|e] d2] eqn:E2.
    + rewrite (bind_ok _ _ _ _ _ E2) in Hr. apply in_sink_run in E2 as (s2 & E2 & ->).
      apply IH in Hr as (Hw & Hs & Hok); [|done]. cbn [world sink] in *. rewrite <-Hs1.
      split; [by etrans|]. split; [etrans; [by eapply write_records_extends|done]|].
      intros batch' n' ->. destruct (Hok _ _ eq_refl) as ((out & Ho & Ha & Hn) & Hbd & Hval).
      split; [|split; [by rewrite Hbd, Hbad1, Hbt, app_assoc|by constructor]].
      exists (batch ++ good_records [l] ++ out). rewrite Hgood. cbn [app] in Ho.
      split; [by rewrite Ho, <-!(assoc_L (++))|].
      split; [rewrite Ha; apply write_records_ok in E2 as ->; by rewrite <-!(assoc_L (++))|].
      rewrite Hn, !length_app. lia.
    + rewrite (bind_err _ _ _ _ _ E2) in Hr. injection Hr as <- <-.
      apply in_sink_run in E2 as (s2 & E2 & ->). cbn [world sink]. rewrite <-Hs1.
      split; [done|]. split; [by eapply write_records_extends|done].
  - apply IH in Hr as (Hw & Hs & Hok); [|done]. rewrite Hs1 in *.
    split; [by etrans|]. split; [done|].
    intros batch' n' ->. destruct (Hok _ _ eq_refl) as ((out & Ho & Ha & Hn) & Hbd & Hval).
    split; [|split; [by rewrite Hbd, Hbad1, Hbt, app_assoc|by constructor]].
    exists out. by rewrite Hgood, (assoc_L (++)).
Qed.
End ReplayLemmas.

Section ReplayRuns.
Context `{SpoolEnv} `{!SpoolLaws} `{RecordSink} `{!RecordSinkLaws} `{!LogLaws}.
Implicit Types (d : Uplink) (p : string) (rs : list TelemetryRecord).

Definition bad_path (p : string) : string := path_with_extension p "ndjson.bad".

(** Only the spool and its quarantine file change. *)
Definition spool_files (p : string) (q : string) : Prop := q = p ∨ q = bad_path p.

Lemma replay_records_run p n d r d' content : bad_path p ≠ p →
  files (world d) !! p = Some content → replay_records_async p n d = (r, d') →
  (∀ q, ¬ spool_files p q → files (world d') !! q = files (world d) !! q) ∧
  sink_extends (sink d) (sink d') ∧
  match r with
  | Ok k =>
      let ls := spool_lines content in
      accepted (sink d') = accepted (sink d) ++ good_records ls ∧ k = length (good_records ls) ∧
      files (world d') !! p = None ∧
      default "" (files (world d') !! bad_path p) =
        default "" (files (world d) !! bad_path p) +:+ bad_text ls ∧
      Forall (λ l, utf8_valid l = true) ls
  | Err _ => files (world d') !! p = Some content
  end.
Proof.
  intros Hbad Hc Hr. unfold replay_records_async in Hr.
  destruct (in_world (fs_read p) d) as [rf d1] eqn:Ef. rewrite (bind_ok _ _ _ _ _ (try_run _ _ _ _ Ef)) in Hr.
  apply in_world_run in Ef as (w1 & Ef & ->).
  assert (Hw1 : w1 = world d).
  { pose proof (fs_read_respects eq p (world d)) as He. rewrite Ef in He. by cbn in He. }
  subst w1. destruct rf as [c|e].
  2:{ assert (Hk : io_kind e ≠ NotFound).
      { unfold fs_read, mbind, M_bind, guard_fault, act in Ef.
        destruct (fs_fault OpRead p) as [e'|] eqn:Ee; [|by rewrite Hc in Ef].
        injection Ef as <-. by eapply fs_fault_kind. }
      rewrite decide_False in Hr by done. injection Hr as <- <-. by split_and!. }
  apply fs_read_ok in Ef as [_ Ef]. assert (c = content) as -> by congruence. clear Ef.
  set (loop := replay_loop _ _ _ _ _ _) in Hr.
  assert (Hin : ∀ w2 w3 q, only_files (eq (bad_path p)) w2 w3 → ¬ spool_files p q →
    files w3 !! q = files w2 !! q).
  { intros w2 w3 q [Hf _] Hq. apply Hf. intros <-. by apply Hq; right. }
  assert (Hp : ∀ w2 w3, only_files (eq (bad_path p)) w2 w3 → files w3 !! p = files w2 !! p).
  { intros w2 w3 [Hf _]. by apply Hf. }
  destruct (loop (mk_uplink (world d) (sink d))) as [rl d2] eqn:El0. pose proof El0 as El.
  unfold loop in El. apply replay_loop_run in El as (Hw2 & Hs2 & Hok); [|lia]. cbn [world sink] in *.
  fold (bad_path p) in *.
  destruct rl as [[batch replayed]|e].
  2:{ rewrite (bind_err _ _ _ _ _ El0) in Hr. injection Hr as <- <-.
      split; [intros q; by apply Hin|]. split; [done|]. by rewrite (Hp _ _ Hw2). }
  rewrite (bind_ok _ _ _ _ _ El0) in Hr. cbn beta iota in Hr.
  destruct (Hok batch replayed eq_refl) as ((out & Ho & Ha & Hn) & Hb & Hv).
  fold (spool_lines content) in *. cbn [app] in Ho.
  (* The last, partial batch. *)
  assert (∃ rb d3, (if Nat.eqb (length batch) 0 then mret replayed
      else in_sink (write_records batch);; mret (replayed + length batch)) d2 = (rb, d3) ∧
    world d3 = world d2 ∧ sink_extends (sink d2) (sink d3) ∧
    match rb with
    | Ok k => accepted (sink d3) = accepted (sink d2) ++ batch ∧ k = replayed + length batch
    | Err _ => True
    end) as (rb & d3 & E3 & Hw3 & Hs3 & Hb3).
  { destruct batch as [|x batch]; cbn [length Nat.eqb].
    - exists (Ok replayed), d2. cbn. rewrite (right_id_L [] (++)), Nat.add_0_r. by split_and!.
    - destruct (in_sink (write_records (x :: batch)) d2) as [[u|e] d3] eqn:E3.
      + exists (Ok (replayed + length (x :: batch))), d3. rewrite (bind_ok _ _ _ _ _ E3).
        apply in_sink_run in E3 as (s3 & E3 & ->). cbn [world sink]. split_and!; try done.
        * by eapply write_records_extends.
        * by apply write_records_ok in E3.
      + exists (Err e), d3. rewrite (bind_err _ _ _ _ _ E3).
        apply in_sink_run in E3 as (s3 & E3 & ->). cbn [world sink]. split_and!; try done.
        by eapply write_records_extends. }
  destruct rb as [k|e].
  2:{ rewrite (bind_err _ _ _ _ _ E3) in Hr. injection Hr as <- <-. rewrite Hw3.
      split; [intros q; by apply Hin|]. split; [by etrans|]. by rewrite (Hp _ _ Hw2). }
  rewrite (bind_ok _ _ _ _ _ E3) in Hr. destruct Hb3 as [Ha3 ->].
  destruct (in_world (clear_async p) d3) as [[u|e] d4] eqn:E4.
  - rewrite (bind_ok _ _ _ _ _ E4) in Hr. injection Hr as <- <-.
    apply in_world_run in E4 as (w4 & E4 & ->). apply clear_run in E4. cbn [world sink] in *.
    rewrite Hw3 in E4. rewrite E4. split.
    { intros q Hq. rewrite lookup_delete_ne; [by apply Hin|]. intros <-. by apply Hq; left. }
    split; [by etrans|]. rewrite Ha3, Ha, Ho, lookup_delete_eq, length_app, Hn.
    rewrite lookup_delete_ne by done. split_and!; [by rewrite (assoc_L (++))|lia|done|done|done].
  - rewrite (bind_err _ _ _ _ _ E4) in Hr. injection Hr as <- <-.
    apply in_world_run in E4 as (w4 & E4 & ->). apply clear_run in E4. cbn [world sink] in *.
    rewrite E4, Hw3. split; [intros q; by apply Hin|]. split; [by etrans|].
    by rewrite (Hp _ _ Hw2).
Qed.

(** As long as the sink is in a state [up], it accepts. *)
Definition accepting (up : SinkState → Prop) : Prop :=
  ∀ rs s, up s → ∃ s', write_records rs s = (Ok tt, s') ∧ up s'.

(** Without failures the loop reads a spool of whole records to its end. *)
Lemma replay_loop_text (up : SinkState → Prop) fuel p cap batch n rs d :
  accepting up → up (sink d) → String.length (spool_text rs) < fuel →
  ∃ b' n' d', replay_loop fuel p cap batch n (spool_text rs) d = (Ok (b', n'), d') ∧ up (sink d').
Proof.
  intros Hacc. revert fuel batch n d. induction rs as [|r rs IH]; intros [|fuel] batch n d Hup Hf;
    try lia; cbn [replay_loop].
  { cbn. eauto 6. }
  change (spool_text (r :: rs)) with (to_json r +:+ nl +:+ spool_text rs) in *.
  rewrite split_line_line by apply record_one_line.
  destruct (String.eqb_spec (to_json r +:+ nl) "") as [He|_]; [by destruct (to_json r)|].
  rewrite record_utf8, record_not_blank, parse_record_text. cbn [negb].
  assert (String.length (spool_text rs) < fuel).
  { rewrite !length_app_string in Hf. cbn in Hf. lia. }
  rewrite (bind_ok _ _ _ _ _ (ret_run _ _)). case_match; [|by apply IH].
  destruct (Hacc (batch ++ [r]) (sink d) Hup) as (s' & Hs & Hup').
  unfold mbind, M_bind, in_sink, zoom. rewrite Hs. by apply IH.
Qed.
End ReplayRuns.

(** * Delivery of a batch *)
Section DeliverRuns.
Context `{SpoolEnv} `{!SpoolLaws} `{RecordSink} `{!RecordSinkLaws}.
Implicit Types (d : Uplink) (p : string) (rs : list TelemetryRecord).

(** How a batch left: [direct] to the sink, [sp] to the spool, nothing else touched. *)
Definition delivered p (direct sp : list TelemetryRecord) (err : option string) d d' : Prop :=
  only_files (eq p) (world d) (world d') ∧
  default "" (files (world d') !! p) = default "" (files (world d) !! p) +:+ spool_text sp ∧
  match err with
  | None => accepted (sink d') = accepted (sink d) ++ direct
  | Some _ => direct = [] ∧ ∃ part, accepted (sink d') = accepted (sink d) ++ part ∧ part `sublist_of` sp
  end.

Lemma append_in_world p rs d u d' : in_world (append_records_async p rs) d = (Ok u, d') →
  only_files (eq p) (world d) (world d') ∧ sink d' = sink d ∧
  default "" (files (world d') !! p) = default "" (files (world d) !! p) +:+ spool_text rs.
Proof.
  intros (w' & Hr & ->)%in_world_run. cbn [world sink].
  split; [by eapply respects_run; [by apply append_records_respects|]|]. split; [done|].
  by apply append_records_ok in Hr as [? _].
Qed.

Lemma spool_text_app rs1 rs2 : spool_text (rs1 ++ rs2) = spool_text rs1 +:+ spool_text rs2.
Proof.
  induction rs1 as [|r rs IH]; [done|]. cbn [app spool_text foldr] in *.
  fold (spool_text (rs ++ rs2)) (spool_text rs). by rewrite IH, !app_assoc.
Qed.

Lemma deliver_fresh_ok p staged over d e s err d' :
  deliver_fresh p staged over d = (Ok (e, s, err), d') →
  ∃ direct sp, delivered p direct sp err d d' ∧ e = len_ direct ∧ s = len_ sp ∧
    (direct = staged ∧ sp = over ∨ direct = [] ∧ sp = over ++ staged).
Proof.
  intros Hr. unfold deliver_fresh in Hr. apply bind_ok_inv in Hr as (n & d1 & H1' & Hr).
  assert (Ho : only_files (eq p) (world d) (world d1) ∧ sink d1 = sink d ∧ n = len_ over ∧
    default "" (files (world d1) !! p) = default "" (files (world d) !! p) +:+ spool_text over).
  { destruct over as [|x over].
    - injection H1' as <- <-. cbn. by rewrite app_nil_r.
    - apply bind_ok_inv in H1' as (? & d2 & H2' & H1').
      apply append_in_world in H2' as (? & ? & ?). injection H1' as <- <-. by split_and!. }
  destruct Ho as (Hw1 & Hs1 & -> & Hf1). destruct staged as [|x st].
  { injection Hr as <- <- <- <-. exists [], over. unfold delivered.
    rewrite (right_id_L [] (++)), Hs1. split; [done|]. split; [done|]. split; [done|]. by left. }
  destruct (in_sink (write_records (x :: st)) d1) as [rw d2] eqn:E2.
  rewrite (bind_ok _ _ _ _ _ (try_run _ _ _ _ E2)) in Hr.
  apply in_sink_run in E2 as (s2 & E2 & ->). destruct rw as [u|er].
  { injection Hr as <- <- <- <-. exists (x :: st), over. unfold delivered. cbn [world sink].
    apply write_records_ok in E2. rewrite E2, Hs1. split; [done|]. split; [done|]. split; [done|]. by left. }
  destruct (in_world (append_records_async p (x :: st)) (mk_uplink (world d1) s2)) as [rb d3] eqn:E3.
  rewrite (bind_ok _ _ _ _ _ (try_run _ _ _ _ E3)) in Hr. destruct rb as [u|es]; [|done].
  injection Hr as <- <- <- <-. apply append_in_world in E3 as (Hw3 & Hs3 & Hf3).
  cbn [world sink] in *. exists [], (over ++ x :: st). unfold delivered.
  apply write_records_err in E2 as (part & Ha & Hsub). rewrite Hf3, Hf1, spool_text_app, app_assoc, Hs3, <-Hs1.
  split; [split; [by etrans|]; split; [done|]; split; [done|exists part; split; [done|by apply sublist_inserts_l]]|].
  split; [done|]. split; [unfold len_; rewrite length_app; lia|]. by right.
Qed.

Lemma deliver_records_ok p budget rs d out d' :
  deliver_records p budget rs d = (Ok out, d') →
  ∃ direct sp, delivered p direct sp (sink_error out) d d' ∧ direct ++ sp ≡ₚ rs ∧
    direct `sublist_of` rs ∧ records_processed out = len_ rs ∧
    emitted_directly out = len_ direct ∧ spooled out = len_ sp ∧
    (0 ≤ budget → total_size direct ≤ budget)%Z ∧
    (default "" (files (world d) !! p) ≠ "" → direct = [] ∧ sink d' = sink d).
Proof.
  intros Hr. unfold deliver_records in Hr.
  destruct (stage_all_spec rs budget) as (st & b' & Hst & Hperm & Hsub1 & Hsub2 & Hsize & _).
  rewrite Hst in Hr. apply bind_ok_inv in Hr as (pend & d1 & H1' & Hr).
  apply in_world_run in H1' as (w1 & H1' & ->). apply has_records_run in H1' as (-> & Hp).
  specialize (Hp pend eq_refl). replace (mk_uplink (world d) (sink d)) with d in Hr by by destruct d.
  destruct pend.
  - apply bind_ok_inv in Hr as ([[e s] err] & d2 & H2' & Hr). injection Hr as <- <-.
    apply bind_ok_inv in H2' as (n & d3 & H3' & H2'). injection H2' as <- <- <- <-.
    apply bind_ok_inv in H3' as (? & d4 & H4' & H3'). injection H3' as <- <-.
    apply append_in_world in H4' as (Hw & Hs & Hf). exists [], (staged st ++ overflowed st).
    unfold delivered. cbn [sink_error records_processed emitted_directly spooled app].
    rewrite (right_id_L [] (++)), Hs. split; [done|]. split; [done|].
    split; [apply sublist_nil_l|]. do 3 (split; [done|]). split; [done|]. by intros _.
  - apply bind_ok_inv in Hr as ([[e s] err] & d2 & H2' & Hr). injection Hr as <- <-.
    apply deliver_fresh_ok in H2' as (direct & sp & Hdel & -> & -> & Hcase).
    exists direct, sp. cbn [sink_error records_processed emitted_directly spooled].
    split; [done|].
    assert (Hne : default "" (files (world d) !! p) ≠ "" → False).
    { intros Hne. apply String.eqb_neq in Hne. by rewrite Hne in Hp. }
    destruct Hcase as [[-> ->]|[-> ->]].
    + do 5 (split; [done|]). split; [done|]. by intros ?%Hne.
    + split; [cbn; by rewrite (comm (++))|]. split; [apply sublist_nil_l|]. do 3 (split; [done|]).
      split; [by cbn|]. by intros ?%Hne.
Qed.
(** What a delivery may touch, whether it fails or not. *)
Definition spools p d d' : Prop :=
  only_files (eq p) (world d) (world d') ∧ sink_extends (sink d) (sink d').

#[export] Instance spools_preorder p : PreOrder (spools p).
Proof.
  split; [by split|]. intros d1 d2 d3 [Hw1 Hs1] [Hw2 Hs2]. split; by etrans.
Qed.

Lemma in_world_spools {A} p (m : M World A) :
  respects (only_files (eq p)) m → respects (spools p) (in_world m).
Proof.
  intros Hm d. destruct (in_world m d) as [r d'] eqn:E. apply in_world_run in E as (w' & E & ->).
  split; [|reflexivity]. by eapply respects_run.
Qed.

Lemma deliver_records_spools p budget rs : respects (spools p) (deliver_records p budget rs).
Proof.
  assert (Ha : ∀ rs, respects (spools p) (in_world (append_records_async p rs))).
  { intros rs'. apply in_world_spools. by apply append_records_respects. }
  assert (Hs : ∀ rs, respects (spools p) (in_sink (write_records rs))).
  { intros rs' d. destruct (in_sink (write_records rs') d) as [r d'] eqn:E.
    apply in_sink_run in E as (s' & E & ->). split; [reflexivity|].
    by eapply write_records_extends. }
  assert (Hh : respects (spools p) (in_world (has_records_async p))).
  { intros d. destruct (in_world _ d) as [r d'] eqn:E. apply in_world_run in E as (w' & E & ->).
    apply has_records_run in E as [-> _]. by destruct d. }
  unfold deliver_records, spool_pending, deliver_fresh. destruct (stage_all rs _). solve_respects.
Qed.
End DeliverRuns.

(** * Claims *)
Section Claims.
Context `{SpoolEnv} `{!SpoolLaws} `{RecordSink} `{!RecordSinkLaws} `{!LogLaws}.
Implicit Types (d : Uplink) (p : string) (rs : list TelemetryRecord).

(** The buffer keeps within its budget and loses nothing: every record is staged or
    overflows, both in their order, the staged ones fit the budget together, and a record
    only overflows when it does not fit beside them. *)
Theorem stage_all_partitions rs (max : Z) : (0 ≤ max)%Z →
  let '(st, b) := stage_all rs (TelemetryBuffer_new max) in
  staged st ++ overflowed st ≡ₚ rs ∧ staged st `sublist_of` rs ∧ overflowed st `sublist_of` rs ∧
  (total_size (staged st) ≤ max)%Z ∧
  Forall (λ r, (max < total_size (staged st) + estimate_record_size r)%Z) (overflowed st).
Proof.
  intros Hmax. destruct (stage_all_spec rs max) as (st & b' & -> & ?). naive_solver.
Qed.

(** C13. A delivery that succeeds keeps every record of the batch: the batch is what was sent directly and what was
    appended to the spool file behind what was there.  Unless the sink fails, each record is in one of the two and the
    sink took exactly the first; when it fails, all of the batch is in the spool, and what the sink may have taken
    before it failed is part of that too, so it is sent at least once.  The counts it reports are those of the two
    parts, a batch never overtakes records already waiting in the spool, and no other file changes. *)
Theorem deliver_conserves p (budget : Z) rs d out d' :
  deliver_records p budget rs d = (Ok out, d') →
  ∃ direct sp, direct ++ sp ≡ₚ rs ∧
    default "" (files (world d') !! p) = default "" (files (world d) !! p) +:+ spool_text sp ∧
    (∀ q, q ≠ p → files (world d') !! q = files (world d) !! q) ∧
    records_processed out = len_ rs ∧ emitted_directly out = len_ direct ∧
    spooled out = len_ sp ∧
    (sink_error out = None → accepted (sink d') = accepted (sink d) ++ direct) ∧
    (is_Some (sink_error out) → direct = [] ∧ ∃ part, accepted (sink d') = accepted (sink d) ++ part ∧ part `sublist_of` sp) ∧
    (default "" (files (world d) !! p) ≠ "" → direct = [] ∧ sink d' = sink d).
Proof.
  intros (direct & sp & ((Hf & _) & Hsp & Herr) & Hperm & _ & Hn & He & Hs & _ & Hbl)%deliver_records_ok.
  exists direct, sp. split_and!; try done.
  - intros q Hq. by apply Hf.
  - by destruct (sink_error out).
  - intros [? E]. by rewrite E in Herr.
Qed.

(** A replay that succeeds has sent every readable record of the spool, in order, put
    every unreadable line aside in the quarantine file and removed the spool; one that
    fails, whenever it fails, leaves the spool file as it was.  No other file changes. *)
Theorem replay_delivers_backlog p (n : nat) d r d' content : bad_path p ≠ p →
  files (world d) !! p = Some content → replay_records_async p n d = (r, d') →
  (∀ q, ¬ spool_files p q → files (world d') !! q = files (world d) !! q) ∧
  match r with
  | Ok k =>
      accepted (sink d') = accepted (sink d) ++ good_records (spool_lines content) ∧
      k = length (good_records (spool_lines content)) ∧
      files (world d') !! p = None ∧
      default "" (files (world d') !! bad_path p) =
        default "" (files (world d) !! bad_path p) +:+ bad_text (spool_lines content)
  | Err _ => files (world d') !! p = Some content
  end.
Proof.
  intros Hb Hc Hr. destruct (replay_records_run p n d r d' content Hb Hc Hr) as (Hf & _ & Hm).
  split; [done|]. destruct r; [|done]. destruct Hm as (? & ? & ? & ? & _). by split_and!.
Qed.

(** Spool round trip: what is appended to an absent spool is what its replay sends, all of
    it, in order, whatever the batch size, when nothing fails and the sink accepts; the
    spool is then gone. *)
Theorem spool_roundtrip (up : SinkState → Prop) p (n : nat) rs d : fault_free → bad_path p ≠ p →
  accepting up → up (sink d) →
  rs ≠ [] → files (world d) !! p = None →
  ∃ w1 d', append_records_async p rs (world d) = (Ok tt, w1) ∧
    replay_records_async p n (mk_uplink w1 (sink d)) = (Ok (length rs), d') ∧
    accepted (sink d') = accepted (sink d) ++ rs ∧ files (world d') !! p = None.
Proof.
  intros Hff Hb Hacc Hup Hne Hnone. destruct (append_records_ff p rs (world d) Hff) as [w1 Ha].
  exists w1. destruct (append_records_ok p rs _ _ _ Ha) as [Hc Hsome].
  rewrite Hnone in Hc. cbn in Hc. destruct (Hsome Hne) as [c Hc1]. rewrite Hc1 in Hc. cbn in Hc.
  unfold id in Hc. rewrite app_nil_l in Hc. subst c.
  destruct (replay_records_async p n (mk_uplink w1 (sink d))) as [r d'] eqn:Hr.
  assert (Hok : ∃ k, r = Ok k).
  { unfold replay_records_async in Hr.
    assert (Hread : fs_read p w1 = (Ok (spool_text rs), w1)).
    { unfold fs_read, mbind, M_bind, guard_fault, act. by rewrite Hff, Hc1. }
    assert (Hin : in_world (fs_read p) (mk_uplink w1 (sink d)) =
      (Ok (spool_text rs), mk_uplink w1 (sink d))).
    { unfold in_world, zoom. cbn [world]. by rewrite Hread. }
    rewrite (bind_ok _ _ _ _ _ (try_run _ _ _ _ Hin)) in Hr.
    destruct (replay_loop_text up (S (String.length (spool_text rs))) p (with_capacity (max n 1)) [] 0
      rs (mk_uplink w1 (sink d)) Hacc Hup ltac:(lia)) as (b' & n' & d2 & El & Hup2).
    rewrite (bind_ok _ _ _ _ _ El) in Hr.
    assert (Hclear : ∀ d3, ∃ d4, in_world (clear_async p) d3 = (Ok tt, d4)).
    { intros d3. unfold in_world, zoom, clear_async, or_missing, try, mbind, M_bind.
      rewrite fs_remove_ff by done. destruct (files (world d3) !! p); cbn; eauto. }
    destruct (Nat.eqb (length b') 0).
    - rewrite (bind_ok _ _ _ _ _ (ret_run _ _)) in Hr. destruct (Hclear d2) as [d4 E4].
      rewrite (bind_ok _ _ _ _ _ E4) in Hr. injection Hr as <- _. eauto.
    - destruct (Hacc b' (sink d2) Hup2) as (s' & Hs & _).
      assert (E3 : (in_sink (write_records b');; mret (n' + length b')) d2 =
        (Ok (n' + length b'), mk_uplink (world d2) s')).
      { unfold mbind, M_bind, in_sink, zoom. by rewrite Hs. }
      rewrite (bind_ok _ _ _ _ _ E3) in Hr. destruct (Hclear (mk_uplink (world d2) s')) as [d4 E4].
      rewrite (bind_ok _ _ _ _ _ E4) in Hr. injection Hr as <- _. eauto. }
  destruct Hok as [k ->].
  destruct (replay_records_run p n (mk_uplink w1 (sink d)) _ d' _ Hb Hc1 Hr)
    as (_ & _ & Hacc' & -> & Hgone & _).
  rewrite good_records_text in *. cbn [sink] in Hacc'. eauto.
Qed.

(** A spool line that is not valid UTF-8 is not put aside: every replay fails, and the
    spool stays as it is, so the next replay fails too. *)
Theorem undecodable_line_blocks_replay p (n : nat) d r d' content l : bad_path p ≠ p →
  files (world d) !! p = Some content → l ∈ spool_lines content → utf8_valid l = false →
  replay_records_async p n d = (r, d') →
  (∃ e, r = Err e) ∧ files (world d') !! p = Some content.
Proof.
  intros Hb Hc Hl Hv Hr. destruct (replay_records_run p n d r d' content Hb Hc Hr) as (_ & _ & Hm).
  destruct r as [k|e]; [|eauto]. exfalso. destruct Hm as (_ & _ & _ & _ & Hall).
  rewrite Forall_forall in Hall. specialize (Hall l Hl). congruence.
Qed.
End Claims.

(** * A concrete sink and the witnesses *)
Module ConcreteSink.
(** The records taken so far, and whether the other end is reachable. *)
#[export] Instance toy_sink : RecordSink := {|
  SinkState := list toy_record * bool;
  write_records rs s :=
    if s.2 then (Ok tt, (s.1 ++ rs, true)) else (Err (io_other "unreachable"), s);
  uplink_write_detail e := Some (io_msg e);
  accepted s := s.1;
|}.

#[export] Instance toy_sink_laws : RecordSinkLaws.
Proof.
  split; intros rs [l []]; cbn.
  - by intros u s' [= _ <-].
  - done.
  - done.
  - intros e s' [= _ <-]. exists []. rewrite (right_id_L [] (++)). split; [done|apply sublist_nil_l].
Qed.

#[export] Instance toy_spool_env : SpoolEnv := {|
  ensure_parent := ensure_parent_async;
  with_capacity n := n;
|}.
#[export] Instance toy_spool_laws : SpoolLaws.
Proof. by split. Qed.

Definition toy_rec (body : string) (seq : Z) : TelemetryRecord :=
  (("agent", "now", "in", "/l/x"), (body, 0%Z, 1%Z, seq), ("", "", None)).
Definition toy_recs : list TelemetryRecord := [toy_rec "one" 1; toy_rec "two" 2; toy_rec "three" 3].
Definition toy_uplink (files : gmap string string) (up : bool) : Uplink :=
  mk_uplink (MkWorld _ files ∅ 0 ∅) ([], up).
Definition toy_spool : string := "s/spool.ndjson".

Lemma toy_bad_path : bad_path toy_spool ≠ toy_spool.
Proof. vm_compute. discriminate. Qed.
End ConcreteSink.
Import ConcreteSink.

Lemma stage_all_partitions_witness :
  let st := (stage_all toy_recs (TelemetryBuffer_new 160)).1 in
  tr_body <$> staged st = ["one"; "two"] ∧ (total_size (staged st) ≤ 160)%Z.
Proof.
  pose proof (stage_all_partitions toy_recs 160 ltac:(lia)) as H.
  assert (Hv : tr_body <$> staged (stage_all toy_recs (TelemetryBuffer_new 160)).1 = ["one"; "two"])
    by (vm_compute; reflexivity).
  destruct (stage_all toy_recs (TelemetryBuffer_new 160)) as [st b].
  destruct H as (_ & _ & _ & H & _). split; [exact Hv|exact H].
Defined.

(** The sink is down: the whole batch is in the spool. *)
Lemma deliver_conserves_witness :
  let r := deliver_records toy_spool 1000 toy_recs (toy_uplink ∅ false) in
  ∃ out d', r = (Ok out, d') ∧ is_Some (sink_error out) ∧ spooled out = 3%Z ∧
    ∃ sp, sp ≡ₚ toy_recs ∧ default "" (files (world d') !! toy_spool) = spool_text sp.
Proof.
  intros r.
  assert (Hv : ((λ o, (sink_error o, spooled o)) <$> result_ok r.1) = Some (Some "unreachable", 3%Z))
    by (vm_compute; reflexivity).
  destruct r as [[out|e] d'] eqn:E; [|discriminate Hv]. cbn in Hv. injection Hv as Hs1 Hs2.
  exists out, d'. split; [reflexivity|]. rewrite Hs1. split; [eexists; reflexivity|]. split; [exact Hs2|].
  destruct (deliver_conserves toy_spool 1000 toy_recs (toy_uplink ∅ false) out d' E)
    as (direct & sp & Hp & Hf & _ & _ & _ & _ & _ & Hd & _).
  destruct Hd as [Hd _]; [rewrite Hs1; eexists; reflexivity|]. rewrite Hd in Hp. exists sp. split; [exact Hp|exact Hf].
Defined.

(** A spool with an unreadable line between two records. *)
Definition toy_backlog : string :=
  spool_text [toy_rec "one" 1] +:+ "garbage" +:+ nl +:+ spool_text [toy_rec "two" 2].

Lemma replay_delivers_backlog_witness :
  let r := replay_records_async toy_spool 1 (toy_uplink {[ toy_spool := toy_backlog ]} true) in
  ∃ d', r = (Ok 2, d') ∧ files (world d') !! toy_spool = None ∧
    (accepted (sink d') : list toy_record) = [toy_rec "one" 1; toy_rec "two" 2] ∧
    default "" (files (world d') !! bad_path toy_spool) = "garbage" +:+ nl.
Proof.
  intros r. assert (Hv : is_ok r.1 = true) by (vm_compute; reflexivity).
  destruct r as [[k|e] d'] eqn:E; [|discriminate Hv].
  destruct (replay_delivers_backlog toy_spool 1 (toy_uplink {[ toy_spool := toy_backlog ]} true)
    _ d' toy_backlog toy_bad_path (lookup_singleton_eq _ _) E) as (_ & Ha & Hk & Hg & Hb).
  exists d'. split; [rewrite Hk; f_equal; vm_compute; reflexivity|]. split; [exact Hg|].
  split; [rewrite Ha; vm_compute; reflexivity|]. rewrite Hb. vm_compute. reflexivity.
Defined.

Definition toy_up (s : SinkState) : Prop := snd (s : list toy_record * bool) = true.

Lemma toy_sink_accepting : accepting toy_up.
Proof. intros rs [l []]; [|done]. intros _. eexists. split; reflexivity. Qed.

Lemma spool_roundtrip_witness :
  ∃ w1 d', append_records_async toy_spool toy_recs (world (toy_uplink ∅ true)) = (Ok tt, w1) ∧
    replay_records_async toy_spool 2 (mk_uplink w1 (sink (toy_uplink ∅ true))) = (Ok 3, d') ∧
    (accepted (sink d') : list TelemetryRecord) = toy_recs.
Proof.
  destruct (spool_roundtrip toy_up toy_spool 2 toy_recs (toy_uplink ∅ true)
    toy_fault_free toy_bad_path toy_sink_accepting eq_refl ltac:(discriminate) (lookup_empty _))
    as (w1 & d' & Ha & Hr & Hacc & _).
  exists w1, d'. split; [exact Ha|]. split; [exact Hr|exact Hacc].
Defined.

(** A lone continuation byte on a line of its own. *)
Definition toy_broken : string := spool_text [toy_rec "one" 1] +:+ String (ascii_of_N 0x80) nl.

Lemma undecodable_line_blocks_replay_witness :
  let r := replay_records_async toy_spool 8 (toy_uplink {[ toy_spool := toy_broken ]} true) in
  (∃ e, r.1 = Err e) ∧ files (world r.2) !! toy_spool = Some toy_broken.
Proof.
  intros r. exact (undecodable_line_blocks_replay toy_spool 8
    (toy_uplink {[ toy_spool := toy_broken ]} true) r.1 r.2 toy_broken (String (ascii_of_N 0x80) nl)
    toy_bad_path (lookup_singleton_eq _ _)
    ltac:(vm_compute; right; left) ltac:(vm_compute; reflexivity) (surjective_pairing _)).
Defined.
