(* ===== verification/Checkpoint.v ===== *)
(** Where to resume a tracked file (src/src/telemetry/logs/files/file_watcher.rs) and the
    checkpoints that remember it (files/checkpoint_support.rs). *)
From S2P Require Import Prelude Text Host Telemetry Reader LogToy.
Import ConcreteFiles.

(** * file_watcher.rs *)

Inductive StartupPosition := Head | Tail.

#[export] Instance StartupPosition_eq_dec : EqDecision StartupPosition.
Proof. solve_decision. Defined.

Record ResumeDecision := mk_resume {
  start_offset_ : Z;
  rd_rotated_from : option string;
  rd_truncated : bool;
  rd_rotated : bool;
}.

Definition if_empty_then (s fallback : string) : string :=
  if String.eqb s "" then fallback else s.

Definition short_file_append_keeps_prefix (previous : TrackedFileCheckpoint)
    (current : ObservedFileIdentity) (previous_fingerprint current_fingerprint : string) : bool :=
  match last_size previous with
  | None => false
  | Some previous_size =>
      Z.ltb previous_size 32 && Z.ltb previous_size (file_len current)
      && starts_with previous_fingerprint current_fingerprint
  end.

Definition fingerprints_match (previous : TrackedFileCheckpoint) (current : ObservedFileIdentity)
    : bool :=
  match tf_fingerprint previous, fingerprint_of current with
  | Some previous_fingerprint, Some current_fingerprint =>
      String.eqb previous_fingerprint current_fingerprint
      || short_file_append_keeps_prefix previous current previous_fingerprint current_fingerprint
  | _, _ => true
  end.

Definition same_identity (source_path : string) (current : ObservedFileIdentity)
    (previous : TrackedFileCheckpoint) : bool :=
  let same_path := String.eqb (tf_path previous) "" || String.eqb (tf_path previous) source_path in
  if is_some (tf_device_id previous) && is_some (tf_inode previous)
     && is_some (device_id current) && is_some (inode current)
  then
    same_path && bool_decide (tf_device_id previous = device_id current)
    && bool_decide (tf_inode previous = inode current) && fingerprints_match previous current
  else same_path && fingerprints_match previous current.

Section Watcher.
Context `{FileMeta}.

Definition checkpoint_probe_matches_async (path : string) (previous : TrackedFileCheckpoint)
    : M World bool :=
  if Z.eqb (checkpoint_offset previous) 0 then mret true
  else
    match tf_probe previous with
    | None => mret true
    | Some expected =>
        probe ← checkpoint_probe_async path (checkpoint_offset previous);
        mret (bool_decide (probe = Some expected))
    end.

Definition decide_resume_async (source_path : string) (current : ObservedFileIdentity)
    (previous : option TrackedFileCheckpoint) (startup_position : StartupPosition)
    : M World ResumeDecision :=
  match previous with
  | None =>
      mret (mk_resume match startup_position with Head => 0 | Tail => file_len current end
              None false false)
  | Some previous =>
      if same_identity source_path current previous then
        stale ← (if Z.ltb (file_len current) (checkpoint_offset previous) then mret true
                 else
                   r ← try (checkpoint_probe_matches_async source_path previous);
                   mret (negb (default false (result_ok r))));
        mret (if stale : bool then mk_resume 0 None true false
              else mk_resume (checkpoint_offset previous) None false false)
      else
        mret (mk_resume 0 (Some (if_empty_then (tf_path previous) source_path)) false true)
  end.
End Watcher.

(** * checkpoint_support.rs *)

Definition checkpoint_for_path (state : LogCheckpointState) (source_path : string)
    : option TrackedFileCheckpoint :=
  find_first (λ entry, String.eqb (tf_path entry) source_path) (tracked state).

Definition with_path (p : string) (t : TrackedFileCheckpoint) : TrackedFileCheckpoint :=
  mk_tracked (file_id t) p (tf_device_id t) (tf_inode t) (tf_fingerprint t) (checkpoint_offset t)
    (tf_probe t) (last_size t) (last_read_at t) (last_commit_point_at t) (rotated_from_path t)
    (real_path t) (tf_pending t).

(** [iter_mut().find(p)] followed by an update of what is found. *)
Fixpoint update_first {A} (p : A → bool) (f : A → A) (l : list A) : list A :=
  match l with
  | [] => []
  | x :: l => if p x then f x :: l else x :: update_first p f l
  end.

Definition relocate_checkpoint_path (state : LogCheckpointState)
    (previous : TrackedFileCheckpoint) (rotated_path : string) : LogCheckpointState :=
  set_tracked
    (update_first
       (λ entry, String.eqb (file_id entry) (file_id previous)
                 || String.eqb (tf_path entry) (tf_path previous))
       (with_path rotated_path) (tracked state))
    state.

Definition inode_pair_matches (left_device left_inode right_device right_inode : option Z) : bool :=
  match left_device, left_inode, right_device, right_inode with
  | Some left_device, Some left_inode, Some right_device, Some right_inode =>
      Z.eqb left_device right_device && Z.eqb left_inode right_inode
  | _, _, _, _ => false
  end.

Definition stored_identity_matches (checkpoint : TrackedFileCheckpoint)
    (identity : ObservedFileIdentity) (source_path : string) : bool :=
  if inode_pair_matches (tf_device_id checkpoint) (tf_inode checkpoint) (device_id identity)
       (inode identity)
  then true
  else String.eqb (tf_path checkpoint) source_path && is_some (tf_fingerprint checkpoint)
       && bool_decide (tf_fingerprint checkpoint = fingerprint_of identity).

Definition checkpoint_real_path (checkpoint : TrackedFileCheckpoint) : string :=
  if String.eqb (real_path checkpoint) "" then tf_path checkpoint else real_path checkpoint.

Record CheckpointUpdate := mk_update {
  cu_offset : Z;
  cu_observed_at : string;
  cu_real_path : string;
  cu_pending : option PendingMultilineState;
  cu_rotated_from : option string;
}.

Definition checkpoint_from_observation (file_id path : string) (identity : ObservedFileIdentity)
    (checkpoint_probe : option string) (update : CheckpointUpdate) : TrackedFileCheckpoint :=
  mk_tracked file_id path (device_id identity) (inode identity) (fingerprint_of identity)
    (cu_offset update) checkpoint_probe (Some (file_len identity)) (Some (cu_observed_at update))
    (Some (cu_observed_at update)) (cu_rotated_from update) (cu_real_path update)
    (cu_pending update).

(** [Vec::retain] with the running index. *)
Fixpoint keep_newest_from (index keep_index : nat) (path : string)
    (l : list TrackedFileCheckpoint) : list TrackedFileCheckpoint :=
  match l with
  | [] => []
  | entry :: l =>
      let rest := keep_newest_from (S index) keep_index path l in
      if Nat.eqb index keep_index || negb (String.eqb (tf_path entry) path)
      then entry :: rest else rest
  end.

Definition keep_only_newest_at_path (state : LogCheckpointState) (path : string)
    (keep_index : nat) : LogCheckpointState :=
  set_tracked (keep_newest_from 0 keep_index path (tracked state)) state.

(** [upsert_checkpoint_async] once the file identity and the probe are known. *)
Definition upsert_observed (state : LogCheckpointState) (source_path file_id_ : string)
    (identity : ObservedFileIdentity) (probe : option string) (update : CheckpointUpdate)
    : LogCheckpointState :=
  let existing_index :=
    position (λ entry, String.eqb (file_id entry) file_id_
                       || stored_identity_matches entry identity source_path) (tracked state) in
  let path := match existing_index ≫= (λ i, tracked state !! i) with
              | Some entry => tf_path entry
              | None => source_path
              end in
  let checkpoint := checkpoint_from_observation file_id_ path identity probe update in
  let '(files, keep_index) :=
    match existing_index with
    | Some index => (<[index := checkpoint]> (tracked state), index)
    | None => (tracked state ++ [checkpoint], length (tracked state))
    end in
  keep_only_newest_at_path (set_tracked files state) path keep_index.

Section CheckpointSupport.
Context `{FileMeta}.

Definition matches_by_fingerprint (previous : TrackedFileCheckpoint) (path : string)
    : M World bool :=
  if is_some (tf_device_id previous) || is_some (tf_inode previous) then mret false
  else
    match tf_fingerprint previous with
    | None => mret false
    | Some fingerprint =>
        r ← try (inspect_path_async path);
        mret match r with
             | Ok identity => bool_decide (fingerprint_of identity = Some fingerprint)
             | Err _ => false
             end
    end.

Definition rotated_entry_matches (previous : TrackedFileCheckpoint) (path : string)
    : M World bool :=
  guard_fault OpMetadata path;;
  hit ← gets (λ w, inode_pair_matches (tf_device_id previous) (tf_inode previous)
                     (Some (meta_dev path w)) (Some (meta_ino path w)));
  if hit : bool then mret true else matches_by_fingerprint previous path.

Fixpoint find_rotated_entry (source_path : string) (previous : TrackedFileCheckpoint)
    (entries : list string) : M World (option string) :=
  match entries with
  | [] => mret None
  | path :: entries =>
      if String.eqb path source_path then find_rotated_entry source_path previous entries
      else
        hit ← rotated_entry_matches previous path;
        if hit : bool then mret (Some path)
        else find_rotated_entry source_path previous entries
  end.

Definition find_rotated_path_async (source_path : string) (previous : TrackedFileCheckpoint)
    : M World (option string) :=
  match path_parent source_path with
  | None => mret None
  | Some parent =>
      dir ← fs_read_dir parent;
      find_rotated_entry source_path previous dir
  end.

Definition upsert_checkpoint_async (state : LogCheckpointState) (source_path : string)
    (identity : ObservedFileIdentity) (update : CheckpointUpdate) : M World LogCheckpointState :=
  file_id ← stable_file_id_async source_path identity;
  probe ← try (checkpoint_probe_async source_path (cu_offset update));
  mret (upsert_observed state source_path file_id identity
          (result_ok probe ≫= id) update).
End CheckpointSupport.

(** * Fingerprints *)
Section Fingerprints.
Implicit Types (s t : string).

Definition unhex (c : ascii) : Z := if Z.ltb (code c) 97 then code c - 48 else code c - 87.

Lemma unhex_byte a :
  (unhex (nibble_to_hex (Z.shiftr (code a) 4)) * 16 + unhex (nibble_to_hex (Z.land (code a) 0x0f)))%Z
  = code a.
Proof. by destruct a as [[] [] [] [] [] [] [] []]; vm_compute. Qed.

Lemma code_inj a b : code a = code b → a = b.
Proof.
  unfold code. intros H%N2Z.inj. by rewrite <-(ascii_N_embedding a), H, ascii_N_embedding.
Qed.

Lemma fingerprint_inj s t : fingerprint s = fingerprint t → s = t.
Proof.
  revert t. induction s as [|a s IH]; intros [|b t]; try done. cbn [fingerprint].
  intros [= H1 H2 H3]. f_equal; [|by apply IH]. apply code_inj.
  by rewrite <-(unhex_byte a), <-(unhex_byte b), H1, H2.
Qed.

Lemma fingerprint_app s t : fingerprint (s +:+ t) = fingerprint s +:+ fingerprint t.
Proof. induction s as [|a s IH]; [done|]. rewrite app_cons. cbn [fingerprint]. by rewrite IH, !app_cons. Qed.

Lemma prefix_app s t : String.prefix s (s +:+ t) = true.
Proof. induction s as [|a s IH]; [by destruct t|]. rewrite app_cons. cbn. by destruct (ascii_dec a a). Qed.

Lemma prefix_exists s t : String.prefix s t = true ↔ ∃ x, t = s +:+ x.
Proof.
  split; [|intros [x ->]; apply prefix_app]. revert t. induction s as [|a s IH]; intros t Ht; [by exists t|].
  destruct t as [|b t]; [done|]. cbn in Ht. destruct (ascii_dec a b) as [->|]; [|done].
  destruct (IH t Ht) as [x ->]. by exists x.
Qed.

Lemma fingerprint_prefix s t : String.prefix (fingerprint s) (fingerprint t) = true → String.prefix s t = true.
Proof.
  intros [x Hx]%prefix_exists. apply prefix_exists. revert t Hx. induction s as [|a s IH]; intros t Hx; [by exists t|].
  destruct t as [|b t]; [done|]. cbn [fingerprint] in Hx. rewrite !app_cons in Hx. injection Hx as H1 H2 Hx.
  destruct (IH t Hx) as [y ->]. exists y. rewrite app_cons. f_equal. apply code_inj.
  by rewrite <-(unhex_byte a), <-(unhex_byte b), H1, H2.
Qed.

Lemma str_drop_app n s t : n ≤ String.length s → str_drop n (s +:+ t) = str_drop n s +:+ t.
Proof.
  revert s. induction n as [|n IH]; intros [|a s] Hn; cbn in Hn; try done; try lia.
  rewrite app_cons. cbn [str_drop]. apply IH. lia.
Qed.

(** The bytes a probe at [o] looks at. *)
Definition probe_bytes (o : Z) (c : string) : string :=
  let k := min (Z.to_nat o) CHECKPOINT_PROBE_BYTES in str_take k (str_drop (Z.to_nat o - k) c).

Lemma probe_bytes_length o c :
  (String.length (probe_bytes o c) <? min (Z.to_nat o) CHECKPOINT_PROBE_BYTES) =
    (String.length c <? Z.to_nat o).
Proof.
  unfold probe_bytes. rewrite str_take_length, str_drop_length.
  set (k := min (Z.to_nat o) CHECKPOINT_PROBE_BYTES).
  assert (k ≤ Z.to_nat o) by (unfold k; lia).
  assert (k = 0 → Z.to_nat o = 0) by (unfold k, CHECKPOINT_PROBE_BYTES; lia).
  destruct (Nat.ltb_spec (min k (String.length c - (Z.to_nat o - k))) k),
    (Nat.ltb_spec (String.length c) (Z.to_nat o)); lia.
Qed.

Lemma probe_bytes_0 c : probe_bytes 0 c = "".
Proof. unfold probe_bytes. cbn. by rewrite str_take_0. Qed.
Lemma probe_bytes_app o c d : (0 ≤ o ≤ str_len c)%Z → probe_bytes o (c +:+ d) = probe_bytes o c.
Proof.
  intros Ho. unfold probe_bytes, str_len in *. set (k := min _ _).
  rewrite str_drop_app by lia. rewrite str_take_app, str_drop_length.
  replace (k - (String.length c - (Z.to_nat o - k))) with 0 by (unfold k; lia).
  by rewrite str_take_0, app_nil_r.
Qed.

(** An append keeps the first 32 bytes, or extends them while there are fewer. *)
Lemma prefix32_app c d :
  str_take 32 (c +:+ d) = str_take 32 c ∨
  (str_len c < 32)%Z ∧ ∃ x, str_take 32 (c +:+ d) = str_take 32 c +:+ x.
Proof.
  rewrite str_take_app. unfold str_len. destruct (decide (32 ≤ String.length c)).
  - left. replace (32 - String.length c) with 0 by lia. by rewrite str_take_0, app_nil_r.
  - right. split; [lia|]. eauto.
Qed.
End Fingerprints.

(** * Resuming *)
Section Resume.
Context `{FileMeta}.
Implicit Types (w : World) (p : string) (o : Z).

Lemma checkpoint_probe_run p o w c : fs_fault OpRead p = None → files w !! p = Some c →
  (0 < o)%Z →
  checkpoint_probe_async p o w =
    (if String.length c <? Z.to_nat o then Err (MkIoError UnexpectedEof "failed to fill whole buffer")
     else Ok (Some (fingerprint (probe_bytes o c))), w).
Proof.
  intros Hf Hc Ho. unfold checkpoint_probe_async, open_file, fs_read, guard_fault, act.
  destruct (Z.eqb_spec o 0); [lia|]. unfold mbind, M_bind. rewrite Hf, Hc.
  change (str_take (min (Z.to_nat o) CHECKPOINT_PROBE_BYTES)
    (str_drop (Z.to_nat o - min (Z.to_nat o) CHECKPOINT_PROBE_BYTES) c)) with (probe_bytes o c).
  rewrite probe_bytes_length. by destruct (String.length c <? Z.to_nat o).
Qed.

(** The identity of a file with content [c]. *)
Definition observe p c w : ObservedFileIdentity :=
  identity_from_metadata p c (read_prefix_async c) w.

(** The checkpoint recorded for an offset of a file with content [c]. *)
Definition recorded p c o w (id_ : string) (u : CheckpointUpdate) : TrackedFileCheckpoint :=
  checkpoint_from_observation id_ p (observe p c w)
    (if Z.eqb o 0 then None else Some (fingerprint (probe_bytes o c))) u.

(** The fingerprints match exactly if the file still begins with the bytes that were recorded: its first 32, or
    all it had. *)
Lemma fingerprints_match_recorded p q c1 c2 o w1 w2 id_ u :
  fingerprints_match (recorded p c1 o w1 id_ u) (observe q c2 w2) = String.prefix (str_take 32 c1) c2.
Proof.
  unfold fingerprints_match, recorded, checkpoint_from_observation, observe, identity_from_metadata, read_prefix_async.
  cbn [tf_fingerprint fingerprint_of]. unfold short_file_append_keeps_prefix, starts_with. cbn [last_size file_len].
  apply eq_true_iff_eq. rewrite orb_true_iff, !andb_true_iff, !Z.ltb_lt, String.eqb_eq. split.
  - intros [Heq%fingerprint_inj|[[Hs _] Hp%fingerprint_prefix]]; apply prefix_exists.
    + exists (str_drop 32 c2). by rewrite Heq, str_take_drop.
    + apply prefix_exists in Hp as [x Hx]. exists (x +:+ str_drop 32 c2). by rewrite app_assoc, <- Hx, str_take_drop.
  - intros [x Hx]%prefix_exists. destruct (decide (32 ≤ String.length c1)).
    + left. f_equal. rewrite Hx, str_take_app, str_take_length. replace (32 - min 32 (String.length c1)) with 0 by lia.
      rewrite str_take_0, app_nil_r. by rewrite (str_take_all 32 (str_take 32 c1)) by (rewrite str_take_length; lia).
    + rewrite str_take_all in Hx by lia. subst c2. destruct (decide (x = "")) as [->|Hne]; [left; by rewrite app_nil_r|].
      destruct (prefix32_app c1 x) as [->|(Hs & y & Hy)]; [by left|right].
      rewrite Hy, fingerprint_app, prefix_app, str_len_app.
      assert (0 < str_len x)%Z by (destruct x; [done|unfold str_len; cbn [String.length]; lia]). split_and!; [lia|lia|done].
Qed.

(** The same device and inode. *)
Definition same_inode p w1 w2 : Prop := meta_dev p w2 = meta_dev p w1 ∧ meta_ino p w2 = meta_ino p w1.
Lemma recorded_same_identity p c1 c2 o w1 w2 id_ u :
  same_identity p (observe p c2 w2) (recorded p c1 o w1 id_ u) = true ↔
  same_inode p w1 w2 ∧ String.prefix (str_take 32 c1) c2 = true.
Proof.
  rewrite <- (fingerprints_match_recorded p p c1 c2 o w1 w2 id_ u).
  unfold same_identity. cbn [recorded checkpoint_from_observation observe identity_from_metadata tf_path tf_device_id tf_inode
    device_id inode is_some andb]. rewrite String.eqb_refl, orb_true_r, !andb_true_iff, !bool_decide_eq_true.
  unfold same_inode. naive_solver congruence.
Qed.

(** What [decide_resume_async] answers for a recorded checkpoint. *)
Lemma decide_recorded p c1 c2 o w1 w2 id_ u startup :
  fs_fault OpRead p = None → files w2 !! p = Some c2 → (0 ≤ o)%Z → cu_offset u = o →
  decide_resume_async p (observe p c2 w2) (Some (recorded p c1 o w1 id_ u)) startup w2 =
    (Ok (if same_identity p (observe p c2 w2) (recorded p c1 o w1 id_ u) then
           if Z.ltb (str_len c2) o || negb (Z.eqb o 0 || String.eqb (probe_bytes o c2) (probe_bytes o c1))
           then mk_resume 0 None true false else mk_resume o None false false
         else mk_resume 0 (Some (if_empty_then p p)) false true), w2).
Proof.
  intros Hf Hc Ho Hu. unfold decide_resume_async.
  destruct (same_identity _ _ _); [|done].
  unfold recorded, checkpoint_from_observation, observe, identity_from_metadata.
  cbn [file_len checkpoint_offset]. rewrite Hu.
  destruct (Z.ltb_spec (str_len c2) o) as [Hlt|Hge]; [done|]. cbn [orb].
  unfold checkpoint_probe_matches_async. cbn [checkpoint_offset tf_probe].
  destruct (Z.eqb_spec o 0) as [->|Hne]; [done|]. cbn [orb].
  assert (Hprobe : checkpoint_probe_async p o w2 = (Ok (Some (fingerprint (probe_bytes o c2))), w2)).
  { rewrite (checkpoint_probe_run p o w2 c2) by (done || lia).
    destruct (Nat.ltb_spec (String.length c2) (Z.to_nat o)); [unfold str_len in *; lia|done]. }
  unfold try, mbind, M_bind. rewrite Hprobe. cbn [mret M_ret result_ok default].
  destruct (String.eqb_spec (probe_bytes o c2) (probe_bytes o c1)) as [He|He].
  - rewrite He, bool_decide_eq_true_2 by done. done.
  - rewrite bool_decide_eq_false_2; [done|]. by intros [= ?%fingerprint_inj].
Qed.
End Resume.

(** * The tracked files *)
Section Tracked.
Implicit Types (l : list TrackedFileCheckpoint) (e : TrackedFileCheckpoint) (p q : string).

Definition at_path p e : bool := String.eqb (tf_path e) p.

Lemma keep_newest_from_other i k p l q : q ≠ p →
  find_first (at_path q) (keep_newest_from i k p l) = find_first (at_path q) l.
Proof.
  intros Hq. revert i. induction l as [|e l IH]; intros i; [done|]. cbn [keep_newest_from].
  destruct (Nat.eqb i k || negb (String.eqb (tf_path e) p)) eqn:E; cbn [find_first].
  - by rewrite IH.
  - apply orb_false_iff in E as [_ E]. apply negb_false_iff, String.eqb_eq in E.
    unfold at_path at 2. rewrite E. destruct (String.eqb_spec p q); [congruence|]. apply IH.
Qed.

(** From the kept entry on, nothing else is left at its path. *)
Lemma keep_newest_from_path i k p l : i ≤ k →
  List.filter (at_path p) (keep_newest_from i k p l) =
    match l !! (k - i) with Some e => if at_path p e then [e] else [] | None => [] end.
Proof.
  assert (Hafter : ∀ i l, k < i → List.filter (at_path p) (keep_newest_from i k p l) = []).
  { clear i l. intros i l. revert i. induction l as [|e l IH]; intros i Hi; [done|].
    cbn [keep_newest_from]. destruct (Nat.eqb_spec i k); [lia|]. cbn [orb].
    destruct (String.eqb (tf_path e) p) eqn:E; cbn [negb List.filter]; [apply IH; lia|].
    unfold at_path at 1. rewrite E. apply IH. lia. }
  revert i. induction l as [|e l IH]; intros i Hi; [by rewrite lookup_nil|].
  cbn [keep_newest_from]. destruct (Nat.eqb_spec i k) as [->|Hne].
  - rewrite Nat.sub_diag. cbn [orb List.filter lookup list_lookup].
    rewrite Hafter by lia. done.
  - replace (k - i) with (S (k - S i)) by lia. cbn [orb lookup list_lookup].
    destruct (String.eqb (tf_path e) p) eqn:E; cbn [negb List.filter].
    + apply IH. lia.
    + unfold at_path at 1. rewrite E. apply IH. lia.
Qed.

Lemma find_first_filter {A} (p : A → bool) (l : list A) : find_first p l = head (List.filter p l).
Proof. induction l as [|x l IH]; [done|]. cbn. by destruct (p x). Qed.

Lemma keep_newest_paths_nodup i k p l : i ≤ k → (∃ e, l !! (k - i) = Some e ∧ tf_path e = p) →
  NoDup (tf_path <$> List.filter (λ e, negb (at_path p e)) l) →
  NoDup (tf_path <$> keep_newest_from i k p l).
Proof.
  intros Hi Hk Hn.
  assert (Hsplit : keep_newest_from i k p l ≡ₚ
    List.filter (at_path p) (keep_newest_from i k p l) ++
    List.filter (λ e, negb (at_path p e)) l).
  { clear Hi Hk Hn. revert i. induction l as [|e l IH]; intros i; [done|].
    cbn [keep_newest_from List.filter]. unfold at_path at 2.
    destruct (String.eqb (tf_path e) p) eqn:E; cbn [negb]; rewrite ?orb_false_r, ?orb_true_r.
    - destruct (Nat.eqb i k); cbn [List.filter]; [|by apply IH].
      unfold at_path at 1. rewrite E. cbn. by rewrite <-IH.
    - cbn [List.filter]. unfold at_path at 1. rewrite E.
      rewrite <-Permutation_middle. by rewrite <-IH. }
  rewrite Hsplit, keep_newest_from_path by done. destruct Hk as (e & -> & He).
  unfold at_path at 1. rewrite He, String.eqb_refl. cbn [app fmap list_fmap].
  apply NoDup_cons. split; [|done]. rewrite list_elem_of_fmap. intros (e' & Hp & Hin).
  apply list_elem_of_In, filter_In in Hin as [_ Hneg]. unfold at_path in Hneg.
  rewrite <-Hp, He, String.eqb_refl in Hneg. done.
Qed.
End Tracked.

Section Upsert.
Implicit Types (l : list TrackedFileCheckpoint) (e c : TrackedFileCheckpoint) (p q : string).

Lemma at_path_eq p e : tf_path e = p → at_path p e = true.
Proof. intros <-. apply String.eqb_refl. Qed.

Lemma replace_same_path l i e c : l !! i = Some e → tf_path c = tf_path e →
  (∀ q, q ≠ tf_path e → find_first (at_path q) (<[i := c]> l) = find_first (at_path q) l) ∧
  List.filter (λ e', negb (at_path (tf_path e) e')) (<[i := c]> l) =
    List.filter (λ e', negb (at_path (tf_path e) e')) l.
Proof.
  intros Hl Hp. revert i Hl. induction l as [|x l IH]; intros [|i] Hl; [done..| |].
  - injection Hl as ->. split.
    + intros q Hq. change (<[0:=c]> (e :: l)) with (c :: l). cbn [find_first].
      unfold at_path at 1 3. rewrite Hp. by destruct (String.eqb_spec (tf_path e) q).
    + change (<[0:=c]> (e :: l)) with (c :: l). cbn [List.filter].
      by rewrite (at_path_eq (tf_path e) c Hp), (at_path_eq (tf_path e) e eq_refl).
  - destruct (IH i Hl) as [IH1 IH2]. change (<[S i:=c]> (x :: l)) with (x :: <[i:=c]> l). split.
    + intros q Hq. cbn [find_first]. by rewrite IH1.
    + cbn [List.filter]. by rewrite IH2.
Qed.

Lemma find_first_app_other l c q : tf_path c ≠ q →
  find_first (at_path q) (l ++ [c]) = find_first (at_path q) l.
Proof.
  intros Hc. induction l as [|x l IH]; cbn [app find_first].
  - unfold at_path. by destruct (String.eqb_spec (tf_path c) q).
  - by rewrite IH.
Qed.

Lemma NoDup_other_paths p l : NoDup (tf_path <$> l) →
  NoDup (tf_path <$> List.filter (λ e, negb (at_path p e)) l).
Proof.
  induction l as [|x l IH]; cbn [fmap list_fmap]; intros Hn; [done|].
  apply NoDup_cons in Hn as [Hx Hn]. cbn [List.filter]. destruct (negb (at_path p x)); [|by apply IH].
  cbn [fmap list_fmap]. apply NoDup_cons. split; [|by apply IH].
  intros (e & He & Hin)%list_elem_of_fmap. apply Hx, list_elem_of_fmap. exists e. split; [done|].
  apply list_elem_of_In, filter_In in Hin as [Hin _]. by apply list_elem_of_In.
Qed.

(** What an upsert leaves, given the entry it wrote and where. *)
Lemma keep_newest_spec l k c : l !! k = Some c →
  let l' := keep_newest_from 0 k (tf_path c) l in
  find_first (at_path (tf_path c)) l' = Some c ∧
  List.filter (at_path (tf_path c)) l' = [c] ∧
  (∀ q, q ≠ tf_path c → find_first (at_path q) l' = find_first (at_path q) l) ∧
  (NoDup (tf_path <$> List.filter (λ e, negb (at_path (tf_path c) e)) l) → NoDup (tf_path <$> l')).
Proof.
  intros Hk l'. assert (Hf : List.filter (at_path (tf_path c)) l' = [c]).
  { unfold l'. rewrite keep_newest_from_path by lia. rewrite Nat.sub_0_r, Hk.
    unfold at_path. by rewrite String.eqb_refl. }
  split; [by rewrite find_first_filter, Hf|]. split; [done|]. split.
  - intros q Hq. by apply keep_newest_from_other.
  - apply keep_newest_paths_nodup; [lia|]. exists c. by rewrite Nat.sub_0_r.
Qed.

Lemma upsert_observed_spec state source_path id_ identity probe u :
  let state' := upsert_observed state source_path id_ identity probe u in
  ∃ p, let e := checkpoint_from_observation id_ p identity probe u in
    List.filter (at_path p) (tracked state') = [e] ∧
    checkpoint_for_path state' p = Some e ∧
    (∀ q, q ≠ p → checkpoint_for_path state' q = checkpoint_for_path state q) ∧
    (NoDup (tf_path <$> tracked state) → NoDup (tf_path <$> tracked state')) ∧
    (p = source_path ∨ ∃ old, old ∈ tracked state ∧ tf_path old = p ∧
       (file_id old = id_ ∨ stored_identity_matches old identity source_path = true)) ∧
    pending_multiline state' = pending_multiline state.
Proof.
  intros state'. unfold state', upsert_observed.
  destruct (position _ (tracked state)) as [i|] eqn:Epos.
  - apply position_Some in Epos as (old & Hi & Hmatch & _). cbn [mbind option_bind]. rewrite Hi.
    set (e := checkpoint_from_observation id_ (tf_path old) identity probe u).
    exists (tf_path old). fold e. change (tf_path old) with (tf_path e) at 1 2 4 5 6 7.
    unfold keep_only_newest_at_path, checkpoint_for_path. cbn [tracked set_tracked pending_multiline].
    assert (Hins : <[i := e]> (tracked state) !! i = Some e).
    { apply list_lookup_insert_eq. by eapply lookup_lt_Some. }
    destruct (keep_newest_spec _ _ _ Hins) as (H1 & H2 & H3 & H4).
    destruct (replace_same_path (tracked state) i old e Hi eq_refl) as [H5 H6].
    split_and!; try done.
    + intros q Hq. etrans; [by apply H3|]. by apply H5.
    + intros Hn. apply H4. change (tf_path e) with (tf_path old). rewrite H6.
      by apply NoDup_other_paths.
    + right. exists old. split; [by eapply list_elem_of_lookup_2|]. split; [done|].
      apply orb_true_iff in Hmatch as [Hm|Hm]; [left; by apply String.eqb_eq|by right].
  - cbn [mbind option_bind]. set (e := checkpoint_from_observation id_ source_path identity probe u).
    exists source_path. fold e. change source_path with (tf_path e) at 1 2 4 5 6 7.
    unfold keep_only_newest_at_path, checkpoint_for_path. cbn [tracked set_tracked pending_multiline].
    assert (Hins : (tracked state ++ [e]) !! length (tracked state) = Some e).
    { rewrite lookup_app_r by lia. by rewrite Nat.sub_diag. }
    destruct (keep_newest_spec _ _ _ Hins) as (H1 & H2 & H3 & H4). split_and!; try done.
    + intros q Hq. etrans; [by apply H3|]. by apply find_first_app_other.
    + intros Hn. apply H4. rewrite List.filter_app. cbn [List.filter].
      rewrite (at_path_eq (tf_path e) e eq_refl). cbn [negb]. rewrite (right_id_L [] (++)).
      by apply NoDup_other_paths.
    + by left.
Qed.
(** Recording a read reads the file again for its identity and its probe, and never fails. *)
Lemma upsert_run `{FileMeta} state source_path identity u w :
  ∃ id_ probe, upsert_checkpoint_async state source_path identity u w =
    (Ok (upsert_observed state source_path id_ identity probe u), w).
Proof.
  unfold upsert_checkpoint_async.
  assert (Hid : ∃ id_, stable_file_id_async source_path identity w = (Ok id_, w)).
  { unfold stable_file_id_async, canonical_key_path_async, gets, mbind, M_bind.
    destruct (device_id identity), (inode identity); by eexists. }
  destruct Hid as [id_ Hid]. rewrite (bind_ok _ _ _ _ _ Hid).
  destruct (checkpoint_probe_async source_path (cu_offset u) w) as [r w1] eqn:E.
  rewrite (bind_ok _ _ _ _ _ (try_run _ _ _ _ E)).
  pose proof (checkpoint_probe_respects eq source_path (cu_offset u) w) as Hr.
  rewrite E in Hr. cbn in Hr. subst w1. by eexists _, _.
Qed.
End Upsert.

(** * Claims *)
Section Claims.
Context `{FileMeta}.
Implicit Types (w : World) (p : string) (o : Z).

(** C23. A checkpoint follows its file.  An entry was recorded at offset [o] of a file with content [c1],
    which now has content [c2].  Reading resumes exactly at [o] if and only if the file has the device
    and inode that were recorded, begins with the bytes that were recorded (the first 32, or all if there
    were fewer), reaches to [o], and has the same bytes just before [o] (32 of them, or all there are): so
    whenever the file only grew.  If only the last two conditions fail, it was cut or written anew, and if
    one of the first two fails it is another file; both are read from the beginning. *)
Theorem resume_follows_file p c1 c2 o w1 w2 id_ u startup :
  fs_fault OpRead p = None → files w2 !! p = Some c2 → p ≠ "" →
  cu_offset u = o → (0 ≤ o ≤ str_len c1)%Z →
  let same_file := same_inode p w1 w2 ∧ ∃ x, c2 = str_take 32 c1 +:+ x in
  let unchanged := (o ≤ str_len c2)%Z ∧ probe_bytes o c2 = probe_bytes o c1 in
  ∃ d, decide_resume_async p (observe p c2 w2) (Some (recorded p c1 o w1 id_ u)) startup w2 = (Ok d, w2) ∧
    (d = mk_resume o None false false ↔ same_file ∧ unchanged) ∧
    (d = mk_resume 0 None true false ↔ same_file ∧ ¬ unchanged) ∧
    (d = mk_resume 0 (Some p) false true ↔ ¬ same_file) ∧
    (same_inode p w1 w2 → (∃ x, c2 = c1 +:+ x) → d = mk_resume o None false false).
Proof.
  intros Hf Hc Hp Hu Ho same_file unchanged.
  pose proof (recorded_same_identity p c1 c2 o w1 w2 id_ u) as Hsame. rewrite prefix_exists in Hsame. fold same_file in Hsame.
  assert (Hun : Z.ltb (str_len c2) o || negb (Z.eqb o 0 || String.eqb (probe_bytes o c2) (probe_bytes o c1)) = false ↔ unchanged).
  { unfold unchanged. rewrite orb_false_iff, negb_false_iff, orb_true_iff, Z.ltb_ge, Z.eqb_eq, String.eqb_eq.
    split; [intros (Hle & [->|Heq]); [by rewrite !probe_bytes_0|done]|naive_solver]. }
  eexists. split; [apply decide_recorded; [done|done|lia|done]|].
  assert (Hgrow : same_inode p w1 w2 → (∃ x, c2 = c1 +:+ x) → same_file ∧ unchanged).
  { intros Hi [x ->]. pose proof (str_len_nonneg x). split; [split; [done|]|split].
    - exists (str_drop 32 c1 +:+ x). by rewrite app_assoc, str_take_drop.
    - rewrite str_len_app. lia.
    - by apply probe_bytes_app. }
  unfold if_empty_then. rewrite (proj2 (String.eqb_neq p "") Hp).
  destruct (same_identity _ _ _); [destruct (_ || _)|].
  - assert (same_file) by by apply Hsame. assert (¬ unchanged) by (rewrite <- Hun; done). naive_solver.
  - assert (same_file) by by apply Hsame. assert (unchanged) by by apply Hun. naive_solver.
  - assert (¬ same_file) by (rewrite <- Hsame; done). naive_solver.
Qed.

(** Recording a read leaves exactly one checkpoint at its path, the new one, which a later
    lookup finds; the path is the source path unless an entry of the same file is tracked
    under another.  Checkpoints of other paths are found as before, and paths stay unique. *)
Theorem upsert_one_checkpoint_per_path state source_path identity u w :
  ∃ state' p id_ probe,
    upsert_checkpoint_async state source_path identity u w = (Ok state', w) ∧
    let e := checkpoint_from_observation id_ p identity probe u in
    List.filter (at_path p) (tracked state') = [e] ∧
    checkpoint_for_path state' p = Some e ∧ checkpoint_offset e = cu_offset u ∧
    (∀ q, q ≠ p → checkpoint_for_path state' q = checkpoint_for_path state q) ∧
    (NoDup (tf_path <$> tracked state) → NoDup (tf_path <$> tracked state')) ∧
    (p = source_path ∨ ∃ old, old ∈ tracked state ∧ tf_path old = p ∧
       (file_id old = id_ ∨ stored_identity_matches old identity source_path = true)).
Proof.
  destruct (upsert_run state source_path identity u w) as (id_ & probe & ->).
  destruct (upsert_observed_spec state source_path id_ identity probe u)
    as (p & Hp1 & Hp2 & Hp3 & Hp4 & Hp5 & _).
  eexists _, p, id_, probe. split; [reflexivity|]. by split_and!.
Qed.
End Claims.

(** * Witnesses *)
Definition toy_update (o : Z) : CheckpointUpdate := mk_update o "now" "" None None.

Lemma resume_follows_file_witness :
  let w := toy_files (toy_log +:+ "k" +:+ nl) in
  decide_resume_async "l/app.log" (observe "l/app.log" (toy_log +:+ "k" +:+ nl) w)
    (Some (recorded "l/app.log" toy_log 12 (toy_files toy_log) "id" (toy_update 12))) Tail w
  = (Ok (mk_resume 12 None false false), w).
Proof.
  intros w.
  destruct (resume_follows_file "l/app.log" toy_log (toy_log +:+ "k" +:+ nl) 12 (toy_files toy_log)
    w "id" (toy_update 12) Tail (toy_fault_free OpRead _) (lookup_singleton_eq _ _) ltac:(discriminate) eq_refl
    ltac:(vm_compute; split; discriminate)) as (d & Hd & _ & _ & _ & Hgrow).
  rewrite Hd. rewrite Hgrow; [reflexivity| |].
  - split; vm_compute; reflexivity.
  - exists ("k" +:+ nl). reflexivity.
Defined.
