(* ===== verification/Select.v ===== *)
(** Which files an input covers (src/src/telemetry/logs/files/glob_match.rs): an explicit path, a
    directory or a glob is expanded, and the selection layer (exclusions, container filters)
    is applied to every candidate while it is collected. *)
From S2P Require Import Prelude Text Host Telemetry LogToy.

(** [wist_contracts::work::ContainerFilters] and the name in a container reference. *)
Class FilterContracts `{LogContracts} := {
  ContainerFilters : Type;
  filters_empty : ContainerFilters → bool;
  namespace_in : ContainerFilters → list string;
  pod_not_in : ContainerFilters → list string;
  name_in : ContainerFilters → list string;
  name_not_in : ContainerFilters → list string;
  container_name : ContainerRef → string;
}.

(** A filter without conditions is an empty one. *)
Class FilterLaws `{FilterContracts} : Prop := {
  filters_empty_spec : ∀ f, filters_empty f = true ↔
    namespace_in f = [] ∧ pod_not_in f = [] ∧ name_in f = [] ∧ name_not_in f = [];
}.

(** [globset]: a pattern compiled with [literal_separator(true)], or the text of its error. *)
Class GlobSet := { glob_matcher : string → string + (string → bool) }.

(** [str::split_once] and [str::strip_suffix]. *)
Fixpoint split_once (c : ascii) (s : string) : option (string * string) :=
  match s with
  | EmptyString => None
  | String a s =>
      if Ascii.eqb a c then Some ("", s)
      else (λ '(x, y), (String a x, y)) <$> split_once c s
  end.

Definition strip_suffix (suf s : string) : option string :=
  if ends_with suf s then Some (str_take (String.length s - String.length suf) s) else None.

(** [BTreeSet<PathBuf>]: paths are ordered by their components. *)
Fixpoint compare_components (a b : list string) : comparison :=
  match a, b with
  | [], [] => Eq
  | [], _ => Lt
  | _, [] => Gt
  | x :: a, y :: b => match String.compare x y with Eq => compare_components a b | c => c end
  end.
Definition path_compare (p q : string) : comparison :=
  compare_components (split_on slash p) (split_on slash q).

Fixpoint set_insert (cmp : string → string → comparison) (x : string) (l : list string)
    : list string :=
  match l with
  | [] => [x]
  | y :: l' =>
      match cmp x y with
      | Lt => x :: l
      | Eq => l
      | Gt => y :: set_insert cmp x l'
      end
  end.

(** * Container log names and filters *)

Record ContainerLogName := mk_log_name { cl_pod : string; cl_namespace : string; cl_container : string }.

Definition parse_container_log_name (path : string) : option ContainerLogName :=
  stem ← strip_suffix ".log" (path_file_name path);
  '(head, id) ← rsplit_once "-" stem;
  if String.eqb id "" then None
  else
    '(pod, rest) ← split_once "_" head;
    '(namespace, container) ← split_once "_" rest;
    if String.eqb pod "" || String.eqb namespace "" || String.eqb container "" then None
    else Some (mk_log_name pod namespace container).

Inductive FilterVerdict := Keep | Drop | KeepIdentityUnknown | DropIdentityUnknown.

Definition keeps (v : FilterVerdict) : bool :=
  match v with Keep | KeepIdentityUnknown => true | _ => false end.
Definition identity_unknown (v : FilterVerdict) : bool :=
  match v with KeepIdentityUnknown | DropIdentityUnknown => true | _ => false end.

Definition is_empty {A} (l : list A) : bool := match l with [] => true | _ => false end.
Definition mem (x : string) (l : list string) : bool := existsb (String.eqb x) l.

Section Filters.
Context `{LogContracts} `{!ContainerLookup} `{!FilterContracts}.

(** The part of the verdict on the container's name. *)
Definition name_verdict (filters : ContainerFilters) (container : option string) : FilterVerdict :=
  match container with
  | None => if negb (is_empty (name_in filters)) then DropIdentityUnknown else KeepIdentityUnknown
  | Some container =>
      if negb (is_empty (name_in filters)) && negb (mem container (name_in filters)) then Drop
      else if mem container (name_not_in filters) then Drop
      else Keep
  end.

(** The part on the namespace and the pod, which only a kubelet name has. *)
Definition k8s_drops (filters : ContainerFilters) (k8s : option ContainerLogName) : bool :=
  if negb (is_empty (namespace_in filters)) || negb (is_empty (pod_not_in filters)) then
    match k8s with
    | None => true
    | Some name =>
        if negb (is_empty (namespace_in filters))
           && negb (mem (cl_namespace name) (namespace_in filters))
        then true
        else mem (cl_pod name) (pod_not_in filters)
    end
  else false.

Definition container_filters_verdict (filters : ContainerFilters) (path : string) : FilterVerdict :=
  if filters_empty filters then Keep
  else
    let k8s := parse_container_log_name path in
    if k8s_drops filters k8s then Drop
    else if is_empty (name_in filters) && is_empty (name_not_in filters) then
      (if is_some k8s then Keep else Drop)
    else
      let container := match k8s with
                       | Some name => Some (cl_container name)
                       | None => (container_name <$> container_ref.for_source_path resolve_container path)
                       end in
      name_verdict filters container.
End Filters.

(** * Expansion *)

Definition has_glob (target : string) : bool :=
  has_char "*" target || has_char "?" target || has_char "[" target.

Record FamilySelection := mk_selection {
  selected : list string;
  deselected : gset string;
  sel_filtered : Z;
  sel_identity_unknown : Z;
}.

Definition FamilySelection_none : FamilySelection := mk_selection [] ∅ 0 0.

(** What [keep] counts: the rejected paths, and the two statistics. *)
Record ScanStats := mk_stats { rejected : gset string; ss_filtered : Z; ss_unknown : Z }.
Definition stats_new : ScanStats := mk_stats ∅ 0 0.

Record Scan `{Os} := mk_scan { scan_world : World; stats : ScanStats }.
Arguments mk_scan {_} _ _.

(** [str]'s [Debug] on text without control characters. *)
Fixpoint debug_chars (s : string) : string :=
  match s with
  | EmptyString => ""
  | String a s =>
      (if Ascii.eqb a "034" || Ascii.eqb a "\"%char then String "\"%char (String a "")
       else String a "") +:+ debug_chars s
  end.
Definition debug_str (s : string) : string :=
  String "034" (debug_chars s) +:+ String "034" "".

Section Expansion.
Context `{Host} `{LogContracts} `{!ContainerLookup} `{!FilterContracts} `{!GlobSet}.

Definition invalid_glob (pattern err : string) : IoError :=
  MkIoError InvalidInput ("invalid glob pattern " +:+ debug_str pattern +:+ ": " +:+ err).

Definition component_matcher (component : string) : result (string → bool) :=
  match glob_matcher component with
  | inr m => Ok m
  | inl err => Err (invalid_glob component err)
  end.

Fixpoint compile_excludes (patterns : list string) : result (list (string → bool)) :=
  match patterns with
  | [] => Ok []
  | p :: ps =>
      match component_matcher p with
      | Err e => Err e
      | Ok m => match compile_excludes ps with Err e => Err e | Ok ms => Ok (m :: ms) end
      end
  end.

Definition in_scan {A} (m : M World A) : M Scan A :=
  zoom scan_world (λ w s, mk_scan w (stats s)) m.

(** What [metadata] says of a path: [Some true] a directory, [Some false] a file, [None] an error. *)
Definition is_dir (p : string) (w : World) : bool := bool_decide (p ∈ dirs w).
Definition is_file (p : string) (w : World) : bool := negb (is_dir p w) && is_some (files w !! p).

Definition entry_kind (p : string) : M World (option bool) :=
  r ← try (fs_metadata p);
  match r with Ok _ => gets (λ w, Some (is_dir p w)) | Err _ => mret None end.

(** A listing with its sub-directories. *)
Definition all_entries (p : string) (w : World) : list string :=
  dir_entries p w ++
  List.filter (λ q, bool_decide (path_parent q = Some p) && negb (is_some (files w !! q)))
    (elements (dirs w)).

Definition fs_list_dir (p : string) : M World (list string) :=
  guard_fault OpReadDir p;;
  act (λ w, if bool_decide (p ∈ dirs w) then (Ok (readdir_order (all_entries p w)), w)
            else (Err enoent, w)).

(** The closure [keep]: exclusions, then filters; the verdict is counted. *)
Definition verdict_of (excludes : list (string → bool)) (filters : ContainerFilters) (path : string)
    : FilterVerdict :=
  if existsb (λ m, m path) excludes then Drop else container_filters_verdict filters path.

Definition keep_path (excludes : list (string → bool)) (filters : ContainerFilters) (path : string)
    (st : ScanStats) : bool * ScanStats :=
  let excluded := existsb (λ m, m path) excludes in
  let verdict := verdict_of excludes filters path in
  let unknown := (if identity_unknown verdict then ss_unknown st + 1 else ss_unknown st)%Z in
  if keeps verdict then (true, mk_stats (rejected st) (ss_filtered st) unknown)
  else (false, mk_stats ({[ path ]} ∪ rejected st)
                 (if negb excluded then ss_filtered st + 1 else ss_filtered st)%Z unknown).

Section Keep.
Context (keep : string → ScanStats → bool * ScanStats) (max_paths : nat).

Definition kept (path : string) : M Scan bool := λ s,
  let '(b, st) := keep path (stats s) in (Ok b, mk_scan (scan_world s) st).

Definition collect (path : string) (out : list string) : M Scan (list string) :=
  b ← kept path;
  mret (if b : bool then set_insert path_compare path out else out).

Fixpoint list_loop (entries : list string) (out : list string) : M Scan (list string) :=
  match entries with
  | [] => mret out
  | path :: entries =>
      if Nat.leb max_paths (length out) then mret out
      else
        kind ← in_scan (entry_kind path);
        out ← match kind with Some false => collect path out | _ => mret out end;
        list_loop entries out
  end.

Definition list_dir_files (dir : string) : M Scan (list string) :=
  entries ← in_scan (fs_list_dir dir);
  list_loop entries [].

Definition resolve_explicit_or_dir (target : string) : M Scan (list string) :=
  r ← in_scan (try (fs_metadata target));
  match r with
  | Ok _ =>
      dir ← in_scan (gets (is_dir target));
      if dir : bool then list_dir_files target
      else b ← kept target; mret (if b : bool then [target] else [])
  | Err err => if decide (io_kind err = NotFound) then mret [] else throw err
  end.

(** One level of the walk: [deeper] is the walk of the remaining components. *)
Fixpoint walk_entries (last : bool) (deeper : string → list string → M Scan (list string))
    (matcher : string → bool) (entries : list string) (out : list string) : M Scan (list string) :=
  match entries with
  | [] => mret out
  | path :: entries =>
      if Nat.leb max_paths (length out) then mret out
      else if negb (matcher (path_file_name path)) then walk_entries last deeper matcher entries out
      else
        kind ← in_scan (entry_kind path);
        out ← match kind with
              | None => mret out
              | Some dir =>
                  if last then (if dir : bool then mret out else collect path out)
                  else (if dir : bool then deeper path out else mret out)
              end;
        walk_entries last deeper matcher entries out
  end.

Fixpoint walk_components (remaining : list string) (base : string) (out : list string)
    : M Scan (list string) :=
  match remaining with
  | [] => mret out
  | component :: remaining =>
      if Nat.leb max_paths (length out) then mret out
      else
        matcher ← of_result (component_matcher component);
        r ← try (in_scan (fs_list_dir base));
        match r with
        | Err err => if decide (io_kind err = NotFound) then mret out else throw err
        | Ok entries =>
            walk_entries (is_empty remaining) (walk_components remaining) matcher entries out
        end
  end.

Definition resolve_glob (pattern : string) : M Scan (list string) :=
  let components := List.filter (λ part, negb (String.eqb part "")) (split_on slash pattern) in
  let first_glob := default (length components) (position has_glob components) in
  let base := foldl path_join "" (take first_glob components) in
  if Nat.eqb first_glob (length components) then resolve_explicit_or_dir base
  else walk_components (drop first_glob components) base [].
End Keep.

(** Runs an expansion and takes the statistics out. *)
Definition with_stats (m : M Scan (list string)) : M World FamilySelection := λ w,
  let '(r, s) := m (mk_scan w stats_new) in
  (match r with
   | Ok selected => Ok (mk_selection selected (rejected (stats s)) (ss_filtered (stats s))
                          (ss_unknown (stats s)))
   | Err e => Err e
   end, scan_world s).

Definition resolve_family_paths (target : string) (exclude_globs : list string)
    (filters : ContainerFilters) (max_paths : nat) : M World FamilySelection :=
  if contains "**" target
  then throw (MkIoError InvalidInput "recursive glob `**` is not supported")
  else
    excludes ← of_result (compile_excludes exclude_globs);
    let keep := keep_path excludes filters in
    with_stats (if negb (has_glob target) then resolve_explicit_or_dir keep max_paths target
                else resolve_glob keep max_paths target).
End Expansion.

(** * Sets of paths *)
Section PathSets.
Implicit Types (l : list string) (p q x : string).

Lemma compare_components_eq a b : compare_components a b = Eq → a = b.
Proof.
  revert b. induction a as [|x a IH]; intros [|y b]; cbn; try done.
  destruct (String.compare x y) eqn:E; try done. apply String.compare_eq_iff in E as ->.
  by intros ->%IH.
Qed.

Lemma split_on_inj c s t : split_on c s = split_on c t → s = t.
Proof.
  assert (Hne : ∀ s, split_on c s ≠ []).
  { intros u. destruct u as [|a u]; cbn; [done|]. destruct (Ascii.eqb a c); [done|].
    by destruct (split_on c u). }
  revert t. induction s as [|a s IH]; intros [|b t]; cbn; [done|..].
  - destruct (Ascii.eqb b c); [intros [= H]; by destruct (Hne t)|].
    destruct (split_on c t); intros [= ?].
  - destruct (Ascii.eqb a c); [intros [= H]; by destruct (Hne s)|].
    destruct (split_on c s); intros [= ?].
  - destruct (Ascii.eqb_spec a c) as [->|Ha], (Ascii.eqb_spec b c) as [->|Hb].
    + by intros [= ->%IH].
    + destruct (split_on c t); intros [= ?].
    + destruct (split_on c s); intros [= ?].
    + destruct (split_on c s) as [|x l] eqn:Es, (split_on c t) as [|y k] eqn:Et;
        [by destruct (Hne s)|by destruct (Hne s)|by destruct (Hne t)|].
      intros [= -> -> ->]. f_equal. apply IH. by rewrite Et.
Qed.

Lemma path_compare_eq p q : path_compare p q = Eq → p = q.
Proof. intros H%compare_components_eq. by apply split_on_inj in H. Qed.

Lemma elem_of_set_insert cmp x l p : (∀ p q, cmp p q = Eq → p = q) →
  p ∈ set_insert cmp x l ↔ p = x ∨ p ∈ l.
Proof.
  intros Hcmp. induction l as [|y l IH]; cbn; [set_solver|].
  destruct (cmp x y) eqn:E; [|set_solver..]. apply Hcmp in E as ->. set_solver.
Qed.

Lemma set_insert_length cmp x l :
  length l ≤ length (set_insert cmp x l) ≤ S (length l).
Proof. induction l as [|y l IH]; cbn; [lia|]. destruct (cmp x y); cbn; lia. Qed.

Lemma set_insert_length_new cmp x l : (∀ p q, cmp p q = Eq → p = q) → x ∉ l →
  length (set_insert cmp x l) = S (length l).
Proof.
  intros Hcmp. induction l as [|y l IH]; cbn; [done|]. intros Hx.
  destruct (cmp x y) eqn:E; [apply Hcmp in E as ->; set_solver|done|]. cbn. rewrite IH; set_solver.
Qed.
End PathSets.

(** * What an expansion collects *)
Section Collects.
Context `{Host} `{LogContracts} `{!ContainerLookup} `{!FilterContracts} `{!GlobSet}.
Context (excludes : list (string → bool)) (filters : ContainerFilters) (max_paths : nat).
Implicit Types (p base : string) (w : World) (out : list string) (s : Scan).

#[local] Abbreviation keep := (keep_path excludes filters).
#[local] Abbreviation chosen p := (keeps (verdict_of excludes filters p)).

(** [m], started with the paths [out], adds those of the candidates [P] that are kept, rejects
    the others, and has seen all of them unless it stopped at the limit. *)
Record grows (P : string → Prop) (w : World) out s out' s' : Prop := {
  gr_world : scan_world s = w ∧ scan_world s' = w;
  gr_length : length out ≤ length out' ∧ (length out ≤ max_paths → length out' ≤ max_paths);
  gr_keeps : ∀ p, p ∈ out → p ∈ out';
  gr_rejects : rejected (stats s) ⊆ rejected (stats s');
  gr_new : ∀ p, p ∈ out' → p ∈ out ∨ P p ∧ chosen p = true;
  gr_rejected : ∀ p, p ∈ rejected (stats s') → p ∈ rejected (stats s) ∨ P p ∧ chosen p = false;
  gr_all : length out' < max_paths → (∀ q, fs_fault OpMetadata q = None) → ∀ p, P p →
    if chosen p then p ∈ out' else p ∈ rejected (stats s');
}.

Lemma grows_none (P : string → Prop) w out s : scan_world s = w →
  (length out < max_paths → (∀ q, fs_fault OpMetadata q = None) → ∀ p, ¬ P p) →
  grows P w out s out s.
Proof. intros Hw Hno. split; try done; [by left|by left|]. intros Hl Hf p Hp. by destruct (Hno Hl Hf p). Qed.

Lemma grows_trans (P Q R : string → Prop) w out1 s1 out2 s2 out3 s3 :
  (∀ p, R p ↔ P p ∨ Q p) →
  grows P w out1 s1 out2 s2 → grows Q w out2 s2 out3 s3 → grows R w out1 s1 out3 s3.
Proof.
  intros HR [W1 L1 K1 J1 N1 X1 A1] [W2 L2 K2 J2 N2 X2 A2]. split.
  - by split; [apply W1|apply W2].
  - lia.
  - auto.
  - set_solver.
  - intros p Hp. destruct (N2 p Hp) as [Hp'|[? ?]]; [|naive_solver]. destruct (N1 p Hp'); naive_solver.
  - intros p Hp. destruct (X2 p Hp) as [Hp'|[? ?]]; [|naive_solver]. destruct (X1 p Hp'); naive_solver.
  - intros Hl Hf p [Hp|Hp]%HR; [|by apply A2].
    specialize (A1 ltac:(lia) Hf p Hp). destruct (chosen p); [by apply K2|]. set_solver.
Qed.

Lemma grows_ext (P Q : string → Prop) w out s out' s' :
  (∀ p, P p ↔ Q p) → grows P w out s out' s' → grows Q w out s out' s'.
Proof.
  intros HPQ [W L K J N X A]. split; try done.
  - intros p Hp. destruct (N p Hp) as [|[? ?]]; [by left|right]. by rewrite <-HPQ.
  - intros p Hp. destruct (X p Hp) as [|[? ?]]; [by left|right]. by rewrite <-HPQ.
  - intros ?? p Hp. apply A; [done..|]. by apply HPQ.
Qed.

Lemma collect_grows path w out s r s' : scan_world s = w → length out < max_paths →
  collect keep path out s = (r, s') → ∃ out', r = Ok out' ∧ grows (eq path) w out s out' s'.
Proof.
  intros Hw Hlen. unfold collect, kept, mbind, M_bind, keep_path.
  destruct (chosen path) eqn:Ec; intros [= <- <-]; eexists; (split; [reflexivity|]); split;
    cbn [scan_world stats rejected]; try done.
  - pose proof (set_insert_length path_compare path out). lia.
  - intros p ?. apply (elem_of_set_insert _ _ _ _ path_compare_eq). by right.
  - intros p [->|?]%(elem_of_set_insert _ _ _ _ path_compare_eq); [by right|by left].
  - by left.
  - intros _ _ p <-. rewrite Ec. apply (elem_of_set_insert _ _ _ _ path_compare_eq). by left.
  - set_solver.
  - by left.
  - intros p [->%elem_of_singleton|?]%elem_of_union; [by right|by left].
  - intros _ _ p <-. rewrite Ec. set_solver.
Qed.

Lemma entry_kind_run p w r w' : entry_kind p w = (r, w') → w' = w ∧
  ((r = Ok None ∧ (is_some (fs_fault OpMetadata p) = true ∨ fs_exists p w = false)) ∨
   (r = Ok (Some (is_dir p w)) ∧ fs_exists p w = true)).
Proof.
  unfold entry_kind, try, mbind, M_bind. destruct (fs_metadata p w) as [[u|e] w1] eqn:E.
  - apply fs_metadata_ok in E as [-> Hex]. intros [= <- <-]. split; [done|]. by right.
  - unfold fs_metadata, mbind, M_bind, guard_fault, act in E. intros [= <- <-].
    destruct (fs_fault OpMetadata p).
    + injection E as _ ->. split; [done|]. left. split; [done|by left].
    + destruct (fs_exists p w) eqn:Hex; [done|]. injection E as _ ->. split; [done|]. left.
      split; [done|by right].
Qed.

Lemma is_file_exists p w : is_file p w = true ↔ fs_exists p w = true ∧ is_dir p w = false.
Proof.
  unfold is_file, is_dir, fs_exists. destruct (decide (p ∈ dirs w)) as [Hd|Hd].
  - rewrite !bool_decide_eq_true_2 by auto. cbn. naive_solver.
  - rewrite (bool_decide_eq_false_2 (p ∈ dirs w)) by done. cbn. rewrite bool_decide_eq_true.
    rewrite elem_of_dom. destruct (files w !! p); cbn; naive_solver.
Qed.

Lemma is_dir_exists p w : is_dir p w = true → fs_exists p w = true.
Proof. unfold is_dir, fs_exists. rewrite !bool_decide_eq_true. by right. Qed.

Lemma in_scan_run {A} (m : M World A) s r s' : in_scan m s = (r, s') →
  ∃ w', m (scan_world s) = (r, w') ∧ s' = mk_scan w' (stats s).
Proof. unfold in_scan, zoom. destruct (m (scan_world s)) as [r0 w0]. intros [= <- <-]. eauto. Qed.

Lemma scan_eta s : mk_scan (scan_world s) (stats s) = s.
Proof. by destruct s. Qed.

(** A candidate whose metadata is asked before it is handled. *)
Lemma entry_step_grows path (f : option bool → M Scan (list string)) (P : string → Prop)
    w out s out' s' :
  scan_world s = w → f None = mret out → (∀ p, P p → fs_exists path w = true) →
  (∀ out' s', fs_exists path w = true → f (Some (is_dir path w)) s = (Ok out', s') →
     grows P w out s out' s') →
  (in_scan (entry_kind path) ≫= f) s = (Ok out', s') → grows P w out s out' s'.
Proof.
  intros Hw Hnone HP Hf Hr. apply bind_ok_inv in Hr as (k & s1 & Ek & Hr).
  apply in_scan_run in Ek as (w1 & Ek & ->). rewrite Hw in Ek.
  apply entry_kind_run in Ek as [-> [[Hk Hno]|[Hk Hex]]]; injection Hk as ->;
    (replace (mk_scan w (stats s)) with s in Hr by (rewrite <-Hw; by destruct s)).
  - rewrite Hnone in Hr. injection Hr as <- <-. apply grows_none; [done|].
    intros _ Hff p Hp. rewrite Hff in Hno. destruct Hno as [|Hno]; [done|].
    specialize (HP p Hp). congruence.
  - by apply Hf.
Qed.

Lemma list_loop_grows entries w out s out' s' : scan_world s = w → length out ≤ max_paths →
  list_loop keep max_paths entries out s = (Ok out', s') →
  grows (λ p, p ∈ entries ∧ is_file p w = true) w out s out' s'.
Proof.
  revert out s. induction entries as [|path entries IH]; intros out s Hw Hlen Hr; cbn [list_loop] in Hr.
  { injection Hr as <- <-. apply grows_none; [done|]. set_solver. }
  destruct (Nat.leb_spec max_paths (length out)) as [Hge|Hlt].
  { injection Hr as <- <-. apply grows_none; [done|]. lia. }
  rewrite <-bind_assoc in Hr. apply bind_ok_inv in Hr as (out1 & s1 & E1 & Hr).
  apply (entry_step_grows path _ (λ p, p = path ∧ is_file p w = true) w out) in E1; [|done..| |].
  - apply IH in Hr; [|by apply (gr_world _ _ _ _ _ _ E1)|by apply (gr_length _ _ _ _ _ _ E1)].
    eapply grows_trans; [|exact E1|exact Hr]. set_solver.
  - intros p [-> Hp]. by apply is_file_exists in Hp as [? _].
  - intros out2 s2 Hex Hc. destruct (is_dir path w) eqn:Ed.
    + injection Hc as <- <-. apply grows_none; [done|]. intros _ _ p [-> [? ?]%is_file_exists]. congruence.
    + apply (collect_grows path w) in Hc as (? & [= <-] & G); [|done..].
      eapply grows_ext; [|exact G]. intros p. rewrite is_file_exists. naive_solver.
Qed.

(** A matching child of the directory: the file itself, or a directory that [Q] goes on from. *)
Definition via (last : bool) (Q : string → string → Prop) (matcher : string → bool) w
    (child p : string) : Prop :=
  matcher (path_file_name child) = true ∧
  if last then p = child ∧ is_file child w = true else is_dir child w = true ∧ Q child p.

Lemma walk_entries_grows last deeper Q matcher entries w out s out' s' :
  (last = false → ∀ dir out s out' s', scan_world s = w → length out ≤ max_paths →
     deeper dir out s = (Ok out', s') → grows (Q dir) w out s out' s') →
  scan_world s = w → length out ≤ max_paths →
  walk_entries keep max_paths last deeper matcher entries out s = (Ok out', s') →
  grows (λ p, ∃ child, child ∈ entries ∧ via last Q matcher w child p) w out s out' s'.
Proof.
  intros Hdeep. revert out s. induction entries as [|path entries IH]; intros out s Hw Hlen Hr;
    cbn [walk_entries] in Hr.
  { injection Hr as <- <-. apply grows_none; [done|]. intros _ _ p (c & Hc & _). set_solver. }
  destruct (Nat.leb_spec max_paths (length out)) as [Hge|Hlt].
  { injection Hr as <- <-. apply grows_none; [done|]. lia. }
  destruct (matcher (path_file_name path)) eqn:Em; cbn [negb] in Hr.
  2:{ apply IH in Hr; [|done..]. eapply grows_ext; [|exact Hr]. intros p. split.
      - intros (c & Hc & Hv). exists c. split; [by right|done].
      - intros (c & [->|Hc]%elem_of_cons & Hv); [|by exists c]. destruct Hv. congruence. }
  rewrite <-bind_assoc in Hr. apply bind_ok_inv in Hr as (out1 & s1 & E1 & Hr).
  apply (entry_step_grows path _ (via last Q matcher w path) w out) in E1; [|done..| |].
  - apply IH in Hr; [|by apply (gr_world _ _ _ _ _ _ E1)|by apply (gr_length _ _ _ _ _ _ E1)].
    eapply grows_trans; [|exact E1|exact Hr]. intros p. split.
    + intros (c & [->|Hc]%elem_of_cons & Hv); [by left|right; by exists c].
    + intros [Hv|(c & Hc & Hv)]; [exists path|exists c]; (split; [|done]); set_solver.
  - intros p [_ Hv]. destruct last; [destruct Hv as [-> Hv]; by apply is_file_exists in Hv as [? _]|].
    destruct Hv as [Hv _]. by apply is_dir_exists.
  - intros out2 s2 Hex Hc. unfold via. destruct last.
    + destruct (is_dir path w) eqn:Ed.
      * injection Hc as <- <-. apply grows_none; [done|].
        intros _ _ p (_ & _ & [_ ?]%is_file_exists). congruence.
      * apply (collect_grows path w) in Hc as (? & [= <-] & G); [|done..].
        eapply grows_ext; [|exact G]. intros p. rewrite is_file_exists. naive_solver.
    + destruct (is_dir path w) eqn:Ed.
      * apply Hdeep in Hc; [|done..]. eapply grows_ext; [|exact Hc]. naive_solver.
      * injection Hc as <- <-. apply grows_none; [done|]. naive_solver congruence.
Qed.

(** The paths a glob covers: from the base directory, each component matches the name of a child,
    directories on the way and a file at the end. *)
Fixpoint covers w (components : list string) (base p : string) : Prop :=
  match components with
  | [] => False
  | component :: rest =>
      base ∈ dirs w ∧ ∃ matcher child, component_matcher component = Ok matcher ∧
        path_parent child = Some base ∧ via (is_empty rest) (covers w rest) matcher w child p
  end.

(** The paths a target that is no glob covers. *)
Definition covers_explicit w (target p : string) : Prop :=
  fs_exists target w = true ∧
  if is_dir target w then path_parent p = Some target ∧ is_file p w = true else p = target.

Definition covers_target w (target p : string) : Prop :=
  if negb (has_glob target) then covers_explicit w target p
  else
    let components := List.filter (λ part, negb (String.eqb part "")) (split_on slash target) in
    let first_glob := default (length components) (position has_glob components) in
    let base := foldl path_join "" (take first_glob components) in
    if Nat.eqb first_glob (length components) then covers_explicit w base p
    else covers w (drop first_glob components) base p.

Lemma elem_of_all_entries base q w :
  q ∈ all_entries base w ↔ path_parent q = Some base ∧ fs_exists q w = true.
Proof.
  unfold all_entries, fs_exists. rewrite elem_of_app, elem_of_dir_entries, bool_decide_eq_true, elem_of_dom.
  rewrite list_elem_of_In, filter_In, <-list_elem_of_In, elem_of_elements, andb_true_iff,
    bool_decide_eq_true, negb_true_iff.
  destruct (files w !! q); cbn; naive_solver.
Qed.

Lemma list_dir_run base s r s' : in_scan (fs_list_dir base) s = (r, s') → s' = s ∧
  match r with
  | Ok entries => base ∈ dirs (scan_world s) ∧
      ∀ q, q ∈ entries ↔ path_parent q = Some base ∧ fs_exists q (scan_world s) = true
  | Err e => io_kind e = NotFound → base ∉ dirs (scan_world s)
  end.
Proof.
  intros (w' & Hr & ->)%in_scan_run. unfold fs_list_dir, mbind, M_bind, guard_fault, act in Hr.
  destruct (fs_fault OpReadDir base) as [e|] eqn:Ef.
  { injection Hr as <- <-. rewrite scan_eta. split; [done|]. by apply fs_fault_kind in Ef. }
  case_bool_decide as Hd; injection Hr as <- <-; rewrite scan_eta; (split; [done|]); [|done].
  split; [done|]. intros q. by rewrite readdir_order_perm, elem_of_all_entries.
Qed.

Lemma via_exists last Q matcher w child p : via last Q matcher w child p → fs_exists child w = true.
Proof.
  intros [_ Hv]. destruct last; [destruct Hv as [_ Hv]; by apply is_file_exists in Hv as [? _]|].
  destruct Hv as [Hv _]. by apply is_dir_exists.
Qed.

Lemma walk_components_grows components base w out s out' s' :
  scan_world s = w → length out ≤ max_paths →
  walk_components keep max_paths components base out s = (Ok out', s') →
  grows (covers w components base) w out s out' s'.
Proof.
  revert base out s out' s'. induction components as [|c rest IH]; intros base out s out' s' Hw Hlen Hr;
    cbn [walk_components covers] in *.
  { injection Hr as <- <-. apply grows_none; [done|]. naive_solver. }
  destruct (Nat.leb_spec max_paths (length out)) as [Hge|Hlt].
  { injection Hr as <- <-. apply grows_none; [done|]. lia. }
  apply bind_ok_inv in Hr as (m & s1 & Em & Hr). unfold of_result in Em. injection Em as Em <-.
  destruct (in_scan (fs_list_dir base) s) as [rl s1] eqn:El.
  rewrite (bind_ok _ _ _ _ _ (try_run _ _ _ _ El)) in Hr.
  apply list_dir_run in El as [-> Hl]. rewrite Hw in Hl. destruct rl as [entries|e].
  - destruct Hl as [Hb Hl]. eapply (walk_entries_grows _ _ (covers w rest) _ _ w) in Hr; [|naive_solver..].
    eapply grows_ext; [|exact Hr]. intros p. split.
    + intros (child & Hc & Hv). apply Hl in Hc as [Hc _]. by split; [|exists m, child].
    + intros (_ & m' & child & Hm & Hc & Hv). rewrite Em in Hm. injection Hm as <-.
      exists child. split; [|done]. apply Hl. split; [done|]. by eapply via_exists.
  - case_decide; [|done]. injection Hr as <- <-. apply grows_none; [done|]. naive_solver.
Qed.

Lemma resolve_explicit_grows target w s out' s' : 0 < max_paths → scan_world s = w →
  resolve_explicit_or_dir keep max_paths target s = (Ok out', s') →
  grows (covers_explicit w target) w [] s out' s'.
Proof.
  intros Hmax Hw Hr. unfold resolve_explicit_or_dir in Hr.
  apply bind_ok_inv in Hr as (rm & s1 & Em & Hr). apply in_scan_run in Em as (w1 & Em & ->).
  rewrite Hw in Em. unfold try in Em. destruct (fs_metadata target w) as [r0 w0] eqn:E.
  injection Em as <- <-. destruct r0 as [u|e].
  2:{ apply fs_metadata_err in E as [-> Hk]. rewrite <-Hw, scan_eta in Hr. case_decide as Hn; [|done].
      injection Hr as <- <-. apply grows_none; [done|]. intros _ _ p [Hex _]. apply Hk in Hn.
      destruct Hn. congruence. }
  apply fs_metadata_ok in E as [-> Hex]. apply bind_ok_inv in Hr as (d & s2 & Ed & Hr).
  apply in_scan_run in Ed as (w2 & Ed & ->). injection Ed as <- <-. cbn [scan_world stats] in Hr.
  replace (mk_scan w (stats s)) with s in Hr by (rewrite <-Hw; by destruct s).
  unfold covers_explicit. destruct (is_dir target w).
  - apply bind_ok_inv in Hr as (entries & s3 & El & Hr). apply list_dir_run in El as [-> [_ Hl]].
    apply (list_loop_grows entries w) in Hr; [|done|cbn; lia]. eapply grows_ext; [|exact Hr].
    intros p. cbn beta. rewrite Hl, Hw, is_file_exists. naive_solver.
  - assert (Hc : collect keep target [] s = (Ok out', s')).
    { unfold collect. revert Hr. unfold mbind, M_bind. destruct (kept keep target s) as [[[]|]]; done. }
    apply (collect_grows target w) in Hc as (? & [= <-] & G); [|done|done].
    eapply grows_ext; [|exact G]. naive_solver.
Qed.
End Collects.

(** * A scan reads *)
Section ReadOnly.
Context `{Host} `{LogContracts} `{!ContainerLookup} `{!FilterContracts} `{!GlobSet}.

Lemma resolve_ro target globs filters n : respects eq (resolve_family_paths target globs filters n).
Proof.
  assert (Hex : ∀ A (m : M World A), respects eq m → respects (λ s s', scan_world s = scan_world s')
    (in_scan m)).
  { intros A m Hm s. specialize (Hm (scan_world s)). unfold in_scan, zoom.
    by destruct (m (scan_world s)). }
  assert (Hlist : ∀ q, respects eq (fs_list_dir q)).
  { intros q. unfold fs_list_dir. apply respects_bind; [apply _|by apply guard_fault_respects, _|].
    intros _. apply respects_act. intros w. by case_match. }
  assert (Hkind : ∀ q, respects eq (entry_kind q)) by (intros q; unfold entry_kind; solve_respects).
  assert (Hk : ∀ keep q, respects (λ s s', scan_world s = scan_world s') (kept keep q)).
  { intros keep q s. unfold kept. by destruct (keep q (stats s)). }
  assert (HP : PreOrder (λ s s' : Scan, scan_world s = scan_world s')).
  { split; [done|]. intros ??? -> ->. done. }
  set (R := λ s s' : Scan, scan_world s = scan_world s') in *.
  assert (Hc : ∀ keep q out, respects R (collect keep q out)).
  { intros keep q out. unfold collect. solve_respects. }
  assert (Hloop : ∀ keep l out, respects R (list_loop keep n l out)).
  { intros keep l. induction l as [|q l IH]; intros out; cbn [list_loop]; [by apply respects_ret|].
    case_match; [by apply respects_ret|]. apply respects_bind; [done|by apply Hex|intros k].
    apply respects_bind; [done| |done]. solve_respects. }
  assert (Hexp : ∀ keep t, respects R (resolve_explicit_or_dir keep n t)).
  { intros keep t. unfold resolve_explicit_or_dir, list_dir_files.
    apply respects_bind; [done|apply Hex; solve_respects|intros []; [|case_decide; solve_respects]].
    apply respects_bind; [done|apply Hex; by apply respects_gets, _|intros []].
    - apply respects_bind; [done|by apply Hex|intros l; apply Hloop].
    - apply respects_bind; [done|apply Hk|solve_respects]. }
  assert (Hwalk : ∀ keep comps base out, respects R (walk_components keep n comps base out)).
  { intros keep comps. induction comps as [|c comps IH]; intros base out; cbn [walk_components];
      [by apply respects_ret|]. destruct (Nat.leb n (length out)); [by apply respects_ret|].
    apply respects_bind; [done|by apply respects_of_result|intros m].
    apply respects_bind; [done|by apply respects_try, Hex|intros [l|]; [|case_decide; solve_respects]].
    revert out. induction l as [|q l IHl]; intros out; cbn [walk_entries]; [by apply respects_ret|].
    destruct (Nat.leb n (length out)); [by apply respects_ret|]. case_match; [done|].
    apply respects_bind; [done|by apply Hex|intros k]. apply respects_bind; [done| |done].
    solve_respects. }
  unfold resolve_family_paths. case_match; [by apply respects_throw, _|].
  apply respects_bind; [apply _|by apply respects_of_result, _|intros ms w].
  unfold with_stats. match goal with |- context [?m (mk_scan w stats_new)] =>
    assert (Hm : R (mk_scan w stats_new) (m (mk_scan w stats_new)).2) end.
  { destruct (has_glob target); cbn [negb]; [|apply Hexp]. unfold resolve_glob.
    case_match; [apply Hexp|apply Hwalk]. }
  by destruct (_ (mk_scan w stats_new)) as [r s'].
Qed.
End ReadOnly.

(** * Names *)
Section Names.
Implicit Types (s t x y : string).

Lemma split_once_app c x y : has_char c x = false → split_once c (x +:+ String c y) = Some (x, y).
Proof.
  induction x as [|a x IH]; intros Hx.
  - rewrite app_nil_l. cbn [split_once]. by rewrite Ascii.eqb_refl.
  - rewrite has_char_cons in Hx. apply orb_false_iff in Hx as [Ha Hx].
    rewrite app_cons. cbn [split_once]. rewrite Ha, IH by done. done.
Qed.

Lemma strip_suffix_app s suf : strip_suffix suf (s +:+ suf) = Some s.
Proof.
  unfold strip_suffix. rewrite ends_with_app, length_app_string.
  replace (_ + _ - _) with (String.length s) by lia. by rewrite str_take_app_length.
Qed.

Lemma mem_spec x l : mem x l = true ↔ x ∈ l.
Proof.
  unfold mem. rewrite existsb_exists, list_elem_of_In. split.
  - intros (y & Hy & ->%String.eqb_eq). done.
  - intros Hx. exists x. split; [done|apply String.eqb_refl].
Qed.

Lemma is_empty_nil {A} (l : list A) : is_empty l = true → l = [].
Proof. by destruct l. Qed.

Lemma mem_empty x : mem x [] = false.
Proof. done. Qed.

(** The name kubelet gives the log of a container. *)
Definition k8s_log_name (pod namespace container id : string) : string :=
  pod +:+ String "_" (namespace +:+ String "_" (container +:+ String "-" (id +:+ ".log"))).

Lemma parse_k8s_log_name dir pod namespace container id :
  has_char slash (k8s_log_name pod namespace container id) = false →
  has_char "_" pod = false → has_char "_" namespace = false → has_char "-" id = false →
  pod ≠ "" → namespace ≠ "" → container ≠ "" → id ≠ "" →
  parse_container_log_name (path_join dir (k8s_log_name pod namespace container id)) =
    Some (mk_log_name pod namespace container).
Proof.
  intros Hs Hp Hn Hi Hp0 Hn0 Hc0 Hi0. unfold parse_container_log_name.
  rewrite path_file_name_join by done.
  assert (Hsplit : k8s_log_name pod namespace container id =
    ((pod +:+ String "_" (namespace +:+ String "_" container)) +:+ String "-" id) +:+ ".log").
  { unfold k8s_log_name. by repeat (rewrite <-app_assoc || rewrite app_cons). }
  rewrite Hsplit, strip_suffix_app. cbn [mbind option_bind].
  rewrite rsplit_once_none_app by by apply has_char_false. cbn [mbind option_bind].
  rewrite (proj2 (String.eqb_neq _ _)) by done.
  rewrite split_once_app by done. cbn [mbind option_bind].
  rewrite split_once_app by done. cbn [mbind option_bind].
  by rewrite !(proj2 (String.eqb_neq _ _)) by done.
Qed.
End Names.

(** * Claims *)
Section Claims.
Context `{Host} `{LogContracts} `{!ContainerLookup} `{!FilterContracts} `{!GlobSet}.

(** What a scan selects.  Every selected path is covered by the target (component by component
    for a glob, the files of a directory, or the path itself) and passes the exclusions and the
    filters; the rejected paths are covered too but do not pass; at most [max_paths] are
    selected.  When the limit was not reached and no path is unreadable, nothing was
    overlooked: every covered path is selected or rejected by its verdict. *)
Theorem selection_exact target exclude_globs filters max_paths w sel w' : 0 < max_paths →
  resolve_family_paths target exclude_globs filters max_paths w = (Ok sel, w') →
  w' = w ∧ length (selected sel) ≤ max_paths ∧
  ∃ excludes, compile_excludes exclude_globs = Ok excludes ∧
    let passes p := keeps (verdict_of excludes filters p) in
    (∀ p, p ∈ selected sel → covers_target w target p ∧ passes p = true) ∧
    (∀ p, p ∈ deselected sel → covers_target w target p ∧ passes p = false) ∧
    (length (selected sel) < max_paths → (∀ q, fs_fault OpMetadata q = None) →
     ∀ p, covers_target w target p → if passes p then p ∈ selected sel else p ∈ deselected sel).
Proof.
  intros Hmax Hr. unfold resolve_family_paths in Hr. destruct (contains "**" target); [done|].
  apply bind_ok_inv in Hr as (excludes & w1 & Ee & Hr). injection Ee as Ee <-.
  unfold with_stats in Hr. match type of Hr with (let '(_, _) := ?m in _) = _ => destruct m as [r s'] eqn:Em end.
  injection Hr as Hr <-. destruct r as [out|]; [|done]. injection Hr as <-. cbn [selected deselected].
  assert (G : grows excludes filters max_paths (covers_target w target) w [] (mk_scan w stats_new) out s').
  { unfold covers_target. destruct (has_glob target); cbn [negb] in *.
    - unfold resolve_glob in Em. destruct (Nat.eqb _ _); [by apply (resolve_explicit_grows _ _ _ _ w) in Em|].
      apply (walk_components_grows _ _ _ _ _ w) in Em; [done|done|cbn; lia].
    - by apply (resolve_explicit_grows _ _ _ _ w) in Em. }
  destruct G as [W L K J N X A]. split; [apply W|]. split; [apply L; cbn; lia|].
  exists excludes. split; [done|]. cbn [stats rejected stats_new] in *. split_and!.
  - intros p Hp. destruct (N p Hp); [set_solver|done].
  - intros p Hp. destruct (X p Hp); [set_solver|done].
  - done.
Qed.

(** What the container filters decide.  A log with a kubelet name is kept exactly when each
    condition that is given holds of the namespace, pod and container in its name.  For any
    other path, conditions on namespace or pod reject it; a condition on the container's name
    is decided by its recorded identity, and when that is unknown an inclusion list rejects
    the log and an exclusion list alone keeps it, both counted as unknown. *)
Theorem filters_decide `{!FilterLaws} (f : ContainerFilters) :
  (∀ dir pod namespace container id,
     has_char slash (k8s_log_name pod namespace container id) = false →
     has_char "_" pod = false → has_char "_" namespace = false → has_char "-" id = false →
     pod ≠ "" → namespace ≠ "" → container ≠ "" → id ≠ "" →
     container_filters_verdict f (path_join dir (k8s_log_name pod namespace container id)) =
       (if decide ((namespace_in f = [] ∨ namespace ∈ namespace_in f) ∧ (pod ∉ pod_not_in f) ∧
                   (name_in f = [] ∨ container ∈ name_in f) ∧ container ∉ name_not_in f)
        then Keep else Drop)) ∧
  (∀ path, parse_container_log_name path = None → filters_empty f = false →
     let identity := (container_name <$> container_ref.for_source_path resolve_container path) in
     container_filters_verdict f path =
       if decide (namespace_in f ≠ [] ∨ pod_not_in f ≠ []) then Drop
       else match identity with
            | None => if decide (name_in f = []) then KeepIdentityUnknown else DropIdentityUnknown
            | Some c => if decide ((name_in f = [] ∨ c ∈ name_in f) ∧ c ∉ name_not_in f)
                        then Keep else Drop
            end).
Proof.
  assert (Hname : ∀ c, name_verdict f (Some c) =
    if decide ((name_in f = [] ∨ c ∈ name_in f) ∧ c ∉ name_not_in f) then Keep else Drop).
  { intros c. unfold name_verdict. pose proof (mem_spec c (name_in f)) as H1'.
    pose proof (mem_spec c (name_not_in f)) as H2'.
    destruct (name_in f) as [|x l]; cbn [is_empty negb andb]; destruct (mem c _);
      cbn [negb]; try destruct (mem c (name_not_in f)); case_decide; naive_solver. }
  split.
  - intros dir pod ns c id Hs Hp Hn Hi Hp0 Hn0 Hc0 Hi0. unfold container_filters_verdict.
    destruct (filters_empty f) eqn:He.
    { apply filters_empty_spec in He as (-> & -> & -> & ->). rewrite decide_True; [done|].
      split_and!; auto; by apply not_elem_of_nil. }
    rewrite parse_k8s_log_name by done. cbn [cl_namespace cl_pod cl_container is_some].
    assert (Hd : k8s_drops f (Some (mk_log_name pod ns c)) = true ↔
      ¬ (namespace_in f = [] ∨ ns ∈ namespace_in f) ∨ pod ∈ pod_not_in f).
    { unfold k8s_drops. cbn [cl_namespace cl_pod].
      rewrite <-!mem_spec. destruct (namespace_in f), (pod_not_in f); cbn [is_empty negb orb andb];
        try destruct (mem ns _); cbn [negb]; naive_solver. }
    destruct (k8s_drops f _).
    { rewrite decide_False; [done|]. intros (? & ? & _). destruct (proj1 Hd eq_refl); auto. }
    assert (Hk : (namespace_in f = [] ∨ ns ∈ namespace_in f) ∧ pod ∉ pod_not_in f).
    { split; [|naive_solver]. destruct (decide (namespace_in f = [] ∨ ns ∈ namespace_in f)); naive_solver. }
    clear Hd. rewrite Hname. destruct (is_empty (name_in f) && is_empty (name_not_in f)) eqn:Hno.
    { apply andb_true_iff in Hno as [->%is_empty_nil ->%is_empty_nil].
      rewrite decide_True; [done|]. split_and!; [apply Hk..|by left|apply not_elem_of_nil]. }
    destruct Hk as [Hk1 Hk2]. repeat case_decide; tauto.
  - intros path Hpath He identity. unfold container_filters_verdict. rewrite He, Hpath.
    assert (Hsome : namespace_in f = [] → pod_not_in f = [] → name_in f = [] → name_not_in f = [] → False).
    { intros ????. assert (filters_empty f = true) by by apply filters_empty_spec. congruence. }
    unfold k8s_drops. destruct (namespace_in f) as [|n0 ns_in], (pod_not_in f) as [|p0 pods];
      cbn [is_empty negb orb]; [|rewrite decide_True by auto; done..].
    rewrite decide_False by naive_solver.
    assert (is_empty (name_in f) && is_empty (name_not_in f) = false) as ->.
    { apply not_true_iff_false. intros [?%is_empty_nil ?%is_empty_nil]%andb_true_iff. auto. }
    fold identity. destruct identity as [c|]; [apply Hname|]. unfold name_verdict.
    by destruct (name_in f).
Qed.
End Claims.

(** * Concrete filters and the witnesses *)
Module ConcreteSelect.
(** Namespaces, excluded pods, names, excluded names. *)
#[export] Instance toy_filters : FilterContracts := {|
  ContainerFilters := list string * list string * list string * list string;
  filters_empty f := bool_decide (f = ([], [], [], []));
  namespace_in f := f.1.1.1;
  pod_not_in f := f.1.1.2;
  name_in f := f.1.2;
  name_not_in f := f.2;
  container_name c := c;
|}.

Definition toy_filter (namespaces pods names not_names : list string) : ContainerFilters :=
  (namespaces, pods, names, not_names).

#[export] Instance toy_filter_laws : FilterLaws.
Proof.
  split. intros [[[a b] c] d]. cbn. rewrite bool_decide_eq_true. naive_solver.
Qed.

(** A leading star matches any prefix. *)
#[export] Instance toy_globs : GlobSet := {|
  glob_matcher p :=
    match p with
    | String "*" rest => inr (ends_with rest)
    | String "[" _ => inl "unclosed character class"
    | _ => inr (String.eqb p)
    end;
|}.

Definition toy_dir : World :=
  MkWorld _ {[ "/l/a.log" := "x"; "/l/b.log" := "y"; "/l/c.txt" := "z" ]} {[ ""; "/l" ]} 0 ∅.
End ConcreteSelect.
Import ConcreteSelect.

Lemma selection_exact_witness :
  let r := resolve_family_paths "/l/*.log" ["/l/b.log"] (toy_filter [] [] [] []) 10 toy_dir in
  ∃ sel, r = (Ok sel, toy_dir) ∧ selected sel = ["/l/a.log"] ∧ "/l/b.log" ∈ deselected sel ∧
    (∀ p, p ∈ selected sel → covers_target toy_dir "/l/*.log" p).
Proof.
  intros r. assert (Hv : (selected <$> result_ok r.1) = Some ["/l/a.log"]) by (vm_compute; reflexivity).
  assert (Hd : (bool_decide ("/l/b.log" ∈ deselected (default FamilySelection_none (result_ok r.1)))) = true)
    by (vm_compute; reflexivity).
  destruct r as [[sel|e] w'] eqn:E; [|discriminate Hv]. cbn in Hv, Hd. injection Hv as Hv.
  destruct (selection_exact "/l/*.log" ["/l/b.log"] (toy_filter [] [] [] []) 10 toy_dir sel w' ltac:(lia) E)
    as (-> & _ & ms & _ & Hsel & _).
  exists sel. split; [reflexivity|]. split; [exact Hv|].
  split; [exact (bool_decide_eq_true_1 _ Hd)|]. intros p Hp. exact (proj1 (Hsel p Hp)).
Defined.

Lemma filters_decide_witness :
  container_filters_verdict (toy_filter ["prod"] [] [] ["web"])
    (path_join "/c" (k8s_log_name "pod1" "prod" "web-1" "abc")) = Keep.
Proof.
  rewrite (proj1 (filters_decide (toy_filter ["prod"] [] [] ["web"]))); try reflexivity; try discriminate.
Defined.
