(* ===== verification/FileInput.v ===== *)
(** The file input: one pass over a tracked log file (src/src/telemetry/logs/files/file.rs with
    state_support.rs).  A pass replays the spool, reads what is new, delivers the records,
    then advances the global sequence number, and only then commits the checkpoint. *)
From S2P Require Import Prelude Text Host Telemetry Reader LogToy Records Delivery Checkpoint Select.
Import ConcreteFiles ConcreteSink ConcreteSelect.

Definition SPOOL_REPLAY_BATCH_SIZE : nat := 128.

Record FileInputConfig `{FilterContracts} := mk_config {
  cfg_agent_id : string;
  cfg_input_id : string;
  cfg_origin : InputOrigin;
  cfg_source_path : string;
  cfg_exclude_globs : list string;
  cfg_filters : ContainerFilters;
  cfg_drop_if_contains : list string;
  cfg_max_files : Z;
  cfg_max_new_files : Z;
  cfg_rescan_interval_ms : Z;
  cfg_state_dir : string;
  cfg_spool_path : string;
  cfg_startup_position : StartupPosition;
  cfg_multiline_mode : MultilineMode;
  cfg_in_memory_budget_bytes : Z;
  cfg_read_limits : ReadLimits;
  cfg_spool_max_bytes : Z;
}.

Inductive ProcessOutcomeKind := SourceBatch | SpoolReplayOnly | SpoolPaused.

Record FamilyCapacity := mk_capacity { fc_tracked : Z; fc_max_files : Z; fc_refused : Z }.

Record ProcessOutcome := mk_outcome {
  po_kind : ProcessOutcomeKind;
  po_records_processed : Z;
  po_emitted_directly : Z;
  po_spooled : Z;
  po_sink_error : option string;
  po_checkpoint_offset : Z;
  po_replayed_spool : nat;
  po_truncated : bool;
  po_truncated_lines : Z;
  po_read_lines : Z;
  po_withheld : Withheld;
  po_dropped_noise : Z;
  po_selection_filtered : Z;
  po_identity_unknown : Z;
  po_rotated : bool;
  po_paused : bool;
  po_spool_bytes : Z;
  po_capacity : option FamilyCapacity;
}.

Definition from_delivery (delivery : DeliveryOutcome) (checkpoint_offset : Z)
    (replayed_spool : nat) (truncated : bool) (truncated_lines : Z) (withheld : Withheld)
    (rotated : bool) (read_lines : Z) : ProcessOutcome :=
  mk_outcome SourceBatch (records_processed delivery) (emitted_directly delivery)
    (spooled delivery) (sink_error delivery) checkpoint_offset replayed_spool truncated
    truncated_lines read_lines withheld 0 0 0 rotated false 0 None.

Definition with_dropped_noise (dropped_noise : Z) (o : ProcessOutcome) : ProcessOutcome :=
  mk_outcome (po_kind o) (po_records_processed o) (po_emitted_directly o) (po_spooled o)
    (po_sink_error o) (po_checkpoint_offset o) (po_replayed_spool o) (po_truncated o)
    (po_truncated_lines o) (po_read_lines o) (po_withheld o) dropped_noise
    (po_selection_filtered o) (po_identity_unknown o) (po_rotated o) (po_paused o)
    (po_spool_bytes o) (po_capacity o).

Definition outcome_spool_replay_only (replayed_spool : nat) : ProcessOutcome :=
  mk_outcome SpoolReplayOnly 0 0 0 None 0 replayed_spool false 0 0 Withheld_default 0 0 0 false
    false 0 None.

Definition outcome_paused (spool_bytes : Z) (sink_error : option string) : ProcessOutcome :=
  mk_outcome SpoolPaused 0 0 0 sink_error 0 0 false 0 0 Withheld_default 0 0 0 false true
    spool_bytes None.

(** * state_support.rs *)

Record PendingCheckpoint := mk_pending_checkpoint {
  pc_source_path : string;
  pc_identity : ObservedFileIdentity;
  pc_offset : Z;
  pc_rotated_from : option string;
}.

Record RuntimeState := mk_runtime {
  rt_checkpoint_path : string;
  rt_log_state : LogCheckpointState;
  rt_observed_at : string;
  rt_replayed_spool : nat;
}.

Definition set_log_state (s : LogCheckpointState) (r : RuntimeState) : RuntimeState :=
  mk_runtime (rt_checkpoint_path r) s (rt_observed_at r) (rt_replayed_spool r).
Definition set_replayed (n : nat) (r : RuntimeState) : RuntimeState :=
  mk_runtime (rt_checkpoint_path r) (rt_log_state r) (rt_observed_at r) n.

Record CollectedReadBatch `{LogContracts} := mk_batch {
  cb_records : list TelemetryRecord;
  cb_pending : option PendingMultilineState;
  cb_checkpoints : list PendingCheckpoint;
  cb_offset : Z;
  cb_truncated_lines : Z;
  cb_read_lines : Z;
  cb_dropped_noise : Z;
  cb_withheld : Withheld;
  cb_resume : ResumeDecision;
}.
Arguments mk_batch {_} _ _ _ _ _ _ _ _ _.

Section Batch.
Context `{LogContracts}.

Definition CollectedReadBatch_new (resume : ResumeDecision) : CollectedReadBatch :=
  mk_batch [] None [] 0 0 0 0 Withheld_default resume.

(** Records handed over, and what is then left unfinished. *)
Definition batch_add (records : list TelemetryRecord) (dropped : Z)
    (pending : option PendingMultilineState) (b : CollectedReadBatch) : CollectedReadBatch :=
  mk_batch (cb_records b ++ records) pending (cb_checkpoints b) (cb_offset b)
    (cb_truncated_lines b) (cb_read_lines b) (cb_dropped_noise b + dropped) (cb_withheld b)
    (cb_resume b).

Definition batch_set_pending (pending : option PendingMultilineState) (b : CollectedReadBatch) :=
  batch_add [] 0 pending b.

(** The counts of one read. *)
Definition batch_count (rd : ReadFromOffset) (b : CollectedReadBatch) : CollectedReadBatch :=
  mk_batch (cb_records b) (cb_pending b) (cb_checkpoints b) (cb_offset b)
    (cb_truncated_lines b + truncated_lines rd) (cb_read_lines b + Z.of_nat (length (lines rd)))
    (cb_dropped_noise b) (cb_withheld b) (cb_resume b).

Definition batch_checkpoint (c : PendingCheckpoint) (b : CollectedReadBatch) : CollectedReadBatch :=
  mk_batch (cb_records b) (cb_pending b) (cb_checkpoints b ++ [c]) (cb_offset b)
    (cb_truncated_lines b) (cb_read_lines b) (cb_dropped_noise b) (cb_withheld b) (cb_resume b).

Definition batch_finish (offset : Z) (w : Withheld) (b : CollectedReadBatch) : CollectedReadBatch :=
  mk_batch (cb_records b) (cb_pending b) (cb_checkpoints b) offset (cb_truncated_lines b)
    (cb_read_lines b) (cb_dropped_noise b) w (cb_resume b).
End Batch.

(** * The state of a pass: the world, the sink, and the agent's next sequence number *)

Record Input `{Os} `{RecordSink} := mk_input { uplink : Uplink; next_seq : Z }.
Arguments mk_input {_ _ _} _ _.

Section Processor.
Context `{Host} `{!FileMeta} `{!SpoolEnv} `{LogContracts} `{!ContainerLookup} `{!LogCodecs}
  `{!RecordSink} `{!FilterContracts}.
Context (config : FileInputConfig).

Definition in_uplink {A} (m : M Uplink A) : M Input A :=
  zoom uplink (λ u i, mk_input u (next_seq i)) m.
Definition in_host {A} (m : M World A) : M Input A := in_uplink (in_world m).

(** A step of the gate, which takes numbers from the shared counter. *)
Definition gated {A} (f : UplinkGate * Z → A * (UplinkGate * Z)) (gate : UplinkGate)
    : M Input (A * UplinkGate) := λ i,
  let '(a, (gate, next_seq)) := f (gate, next_seq i) in (Ok (a, gate), mk_input (uplink i) next_seq).

Definition load_runtime_state_async : M World RuntimeState :=
  let checkpoint_path := log_checkpoints.path_for (cfg_state_dir config) (cfg_input_id config) in
  loaded ← try (log_checkpoints.load_or_default_from_path_async checkpoint_path (cfg_input_id config));
  log_state ← match loaded with
              | Ok state => mret state
              | Err _ => log_checkpoints.load_or_default (cfg_input_id config)
              end;
  observed_at ← now_rfc3339;
  mret (mk_runtime checkpoint_path log_state observed_at 0).

Definition paused_outcome_async (replay_error : option IoError) : M World (option ProcessOutcome) :=
  spool_bytes ← size_async (cfg_spool_path config);
  mret (if Z.leb (cfg_spool_max_bytes config) spool_bytes
        then Some (outcome_paused spool_bytes (replay_error ≫= uplink_write_detail))
        else None).

(** Reads what a renamed file still holds behind its checkpoint. *)
Definition collect_rotated_tail (runtime : RuntimeState) (tracked : option TrackedFileCheckpoint)
    (batch : CollectedReadBatch) (gate : UplinkGate)
    : M Input (bool * RuntimeState * CollectedReadBatch * UplinkGate) :=
  if negb (rd_rotated (cb_resume batch)) then mret (false, runtime, batch, gate)
  else
    match tracked with
    | None => mret (false, runtime, batch, gate)
    | Some previous =>
        found ← in_host (find_rotated_path_async (cfg_source_path config) previous);
        match found with
        | None => mret (false, runtime, batch, gate)
        | Some rotated_path =>
            let runtime := set_log_state
              (relocate_checkpoint_path (rt_log_state runtime) previous rotated_path) runtime in
            let pending := rebind_pending_source_on_rotate (cfg_source_path config) rotated_path
              (cb_pending batch) in
            rotated_read ← in_host (read_from_offset_async rotated_path
              (checkpoint_offset previous) (cfg_read_limits config));
            let saw_new_lines := negb (Nat.eqb (length (lines rotated_read)) 0) in
            let batch := batch_count rotated_read batch in
            '(folded, gate) ← gated (records_from_read (cfg_multiline_mode config)
              (cfg_drop_if_contains config) (rt_observed_at runtime) rotated_path
              (lines rotated_read) pending) gate;
            let batch := batch_add (fr_records folded) (fr_dropped_noise folded)
              (fr_pending folded) batch in
            let batch := batch_checkpoint
              (mk_pending_checkpoint rotated_path (identity rotated_read)
                 (committed_end_offset rotated_read) None) batch in
            mret (saw_new_lines, runtime, batch, gate)
        end
    end.

(** The unfinished record before the active file is read. *)
Definition settle_pending (batch : CollectedReadBatch) (gate : UplinkGate)
    : M Input (CollectedReadBatch * UplinkGate) :=
  if rd_rotated (cb_resume batch) || rd_truncated (cb_resume batch) then
    '(admission, gate) ← gated (records_from_pending (cfg_multiline_mode config)
      (cfg_drop_if_contains config) (cb_pending batch)) gate;
    mret (batch_add (ad_records admission) (ad_dropped_noise admission) None batch, gate)
  else
    '((admission, pending), gate) ← gated (flush_pending_if_source_changes
      (cfg_multiline_mode config) (cfg_drop_if_contains config) (cb_pending batch)
      (cfg_source_path config)) gate;
    mret (batch_add (ad_records admission) (ad_dropped_noise admission) pending batch, gate).

Definition collect_read_batch (runtime : RuntimeState)
    : M Input (CollectedReadBatch * RuntimeState) :=
  current ← in_host (inspect_path_async (cfg_source_path config));
  let tracked := checkpoint_for_path (rt_log_state runtime) (cfg_source_path config) in
  resume ← in_host (decide_resume_async (cfg_source_path config) current tracked
    (cfg_startup_position config));
  let batch := batch_set_pending (pending_multiline (rt_log_state runtime))
    (CollectedReadBatch_new resume) in
  let runtime := set_log_state (set_pending None (rt_log_state runtime)) runtime in
  let observed_at := rt_observed_at runtime in
  let gate := UplinkGate_new (cfg_agent_id config) observed_at (cfg_input_id config)
    (cfg_origin config) in
  '(saw_rotated, runtime, batch, gate) ← collect_rotated_tail runtime tracked batch gate;
  '(batch, gate) ← settle_pending batch gate;
  active_read ← in_host (read_from_offset_async (cfg_source_path config) (start_offset_ resume)
    (cfg_read_limits config));
  let saw_new_lines := (saw_rotated : bool) || negb (Nat.eqb (length (lines active_read)) 0) in
  let batch := batch_count active_read batch in
  '(folded, gate) ← gated (records_from_read (cfg_multiline_mode config)
    (cfg_drop_if_contains config) observed_at (cfg_source_path config) (lines active_read)
    (cb_pending batch)) gate;
  let batch := batch_add (fr_records folded) (fr_dropped_noise folded) (fr_pending folded) batch in
  let offset := committed_end_offset active_read in
  let batch := batch_checkpoint
    (mk_pending_checkpoint (cfg_source_path config) (identity active_read) offset
       (rd_rotated_from resume)) batch in
  '(batch, gate) ←
    (if negb saw_new_lines
        && pending_should_flush (cfg_multiline_mode config) (cb_pending batch) observed_at
     then
       '(admission, gate) ← gated (records_from_pending (cfg_multiline_mode config)
         (cfg_drop_if_contains config) (cb_pending batch)) gate;
       mret (batch_add (ad_records admission) (ad_dropped_noise admission) None batch, gate)
     else mret (batch, gate));
  mret (batch_finish offset (withheld gate) batch, runtime).

Fixpoint commit_checkpoints (observed_at : string) (state : LogCheckpointState)
    (checkpoints : list PendingCheckpoint) : M World LogCheckpointState :=
  match checkpoints with
  | [] => mret state
  | checkpoint :: checkpoints =>
      state ← upsert_checkpoint_async state (pc_source_path checkpoint) (pc_identity checkpoint)
        (mk_update (pc_offset checkpoint) observed_at "" None (pc_rotated_from checkpoint));
      commit_checkpoints observed_at state checkpoints
  end.

Definition commit_log_state (runtime : RuntimeState) (checkpoints : list PendingCheckpoint)
    (pending : option PendingMultilineState) : M World unit :=
  state ← commit_checkpoints (rt_observed_at runtime) (rt_log_state runtime) checkpoints;
  let state := set_updated_at (rt_observed_at runtime) (set_pending pending state) in
  log_checkpoints.store_async (rt_checkpoint_path runtime) state.

(** The part of a pass after the replay. *)
Definition process_batch (runtime : RuntimeState) : M Input ProcessOutcome :=
  '(batch, runtime) ← collect_read_batch runtime;
  delivery ← in_uplink (deliver_records (cfg_spool_path config)
    (cfg_in_memory_budget_bytes config) (cb_records batch));
  (if Z.ltb 0 (records_processed delivery) then
     n ← gets next_seq;
     in_host (log_seq_state.store_async (log_seq_state.path_for (cfg_state_dir config)) n)
   else mret tt);;
  in_host (commit_log_state runtime (cb_checkpoints batch) (cb_pending batch));;
  mret (with_dropped_noise (cb_dropped_noise batch)
    (from_delivery delivery (cb_offset batch) (rt_replayed_spool runtime)
       (rd_truncated (cb_resume batch)) (cb_truncated_lines batch) (cb_withheld batch)
       (rd_rotated (cb_resume batch)) (cb_read_lines batch))).

Definition process_once_async : M Input ProcessOutcome :=
  runtime ← in_host load_runtime_state_async;
  replay ← try (in_uplink (replay_spool_if_present (cfg_spool_path config) SPOOL_REPLAY_BATCH_SIZE));
  match replay with
  | Ok replayed => process_batch (set_replayed replayed runtime)
  | Err err =>
      paused ← in_host (paused_outcome_async (Some err));
      match paused with
      | Some paused => mret paused
      | None => throw err
      end
  end.
End Processor.

(** * What the reads of a pass leave alone *)
Section Reads.
Context `{FileMeta}.

Lemma respects_eq {A} (R : relation World) `{!Reflexive R} (m : M World A) :
  respects eq m → respects R m.
Proof. intros Hm w. rewrite <-(Hm w). done. Qed.

Lemma inspect_respects (R : relation World) `{!PreOrder R} p : respects R (inspect_path_async p).
Proof. unfold inspect_path_async, open_file. solve_respects. Qed.

Lemma decide_resume_respects (R : relation World) `{!PreOrder R} p current previous startup :
  respects R (decide_resume_async p current previous startup).
Proof.
  unfold decide_resume_async, checkpoint_probe_matches_async, checkpoint_probe_async, open_file.
  solve_respects.
Qed.

Lemma find_rotated_respects (R : relation World) `{!PreOrder R} p previous :
  respects R (find_rotated_path_async p previous).
Proof.
  assert (He : ∀ l, respects R (find_rotated_entry p previous l)).
  { induction l as [|q l IH]; cbn [find_rotated_entry]; [by apply respects_ret|].
    unfold rotated_entry_matches, matches_by_fingerprint, inspect_path_async, open_file.
    solve_respects. }
  unfold find_rotated_path_async. solve_respects.
Qed.

Lemma upsert_respects (R : relation World) `{!PreOrder R} state p identity u :
  respects R (upsert_checkpoint_async state p identity u).
Proof.
  unfold upsert_checkpoint_async, stable_file_id_async, canonical_key_path_async,
    checkpoint_probe_async, open_file. solve_respects.
Qed.

Lemma commit_checkpoints_respects (R : relation World) `{!PreOrder R} at_ state cs :
  respects R (commit_checkpoints at_ state cs).
Proof.
  revert state. induction cs as [|c cs IH]; intros state; cbn [commit_checkpoints];
    [by apply respects_ret|]. apply respects_bind; [done|by apply upsert_respects|done].
Qed.

(** A read never fails a commit: the probe of a file that is gone is left out. *)
Lemma commit_checkpoints_run at_ state cs w :
  ∃ st, commit_checkpoints at_ state cs w = (Ok st, w).
Proof.
  revert state. induction cs as [|c cs IH]; intros state; cbn [commit_checkpoints]; [by eexists|].
  destruct (upsert_run state (pc_source_path c) (pc_identity c)
    (mk_update (pc_offset c) at_ "" None (pc_rotated_from c)) w) as (id_ & probe & E).
  rewrite (bind_ok _ _ _ _ _ E). apply IH.
Qed.
End Reads.

Section Frames.
Context `{Host} `{!FileMeta} `{!SpoolEnv} `{LogContracts} `{!ContainerLookup} `{!LogCodecs}
  `{!RecordSink} `{!FilterContracts}.
Implicit Types (i : Input).

(** Only sequence numbers are taken. *)
Definition same_uplink : relation Input := λ i i', uplink i' = uplink i.

#[export] Instance same_uplink_preorder : PreOrder same_uplink.
Proof. split; unfold same_uplink; repeat intro; congruence. Qed.

Lemma in_host_run {A} (m : M World A) i r i' : in_host m i = (r, i') →
  ∃ w', m (world (uplink i)) = (r, w') ∧
    i' = mk_input (mk_uplink w' (sink (uplink i))) (next_seq i).
Proof.
  unfold in_host, in_uplink, zoom. destruct (in_world m (uplink i)) as [r0 u'] eqn:E.
  intros [= <- <-]. apply in_world_run in E as (w' & E & ->). eauto.
Qed.

Lemma in_uplink_run {A} (m : M Uplink A) i r i' : in_uplink m i = (r, i') →
  ∃ u', m (uplink i) = (r, u') ∧ i' = mk_input u' (next_seq i).
Proof. unfold in_uplink, zoom. destruct (m (uplink i)) as [r0 u']. intros [= <- <-]. eauto. Qed.

Lemma in_host_respects {A} (m : M World A) : respects eq m → respects same_uplink (in_host m).
Proof.
  intros Hm i. destruct (in_host m i) as [r i'] eqn:E. apply in_host_run in E as (w' & E & ->).
  specialize (Hm (world (uplink i))). rewrite E in Hm. cbn in *. subst w'.
  unfold same_uplink. cbn. by destruct (uplink i).
Qed.

Lemma gated_respects {A} (f : UplinkGate * Z → A * (UplinkGate * Z)) g :
  respects same_uplink (gated f g).
Proof. intros i. unfold gated. by destruct (f _) as [a [g' n']]. Qed.

#[local] Hint Resolve gated_respects : respects.
#[local] Hint Extern 2 (respects same_uplink (in_host _)) =>
  apply in_host_respects; first [apply (inspect_respects eq) | apply (decide_resume_respects eq)
    | apply (find_rotated_respects eq) | apply (read_from_offset_respects eq)] : respects.

Lemma collect_rotated_respects config runtime t batch g :
  respects same_uplink (collect_rotated_tail config runtime t batch g).
Proof. unfold collect_rotated_tail. solve_respects. Qed.

Lemma settle_pending_respects config batch g :
  respects same_uplink (settle_pending config batch g).
Proof. unfold settle_pending. solve_respects. Qed.

#[local] Hint Resolve collect_rotated_respects settle_pending_respects : respects.

Lemma collect_read_batch_respects config runtime :
  respects same_uplink (collect_read_batch config runtime).
Proof. unfold collect_read_batch. solve_respects. Qed.

Lemma load_runtime_run config w r w' : load_runtime_state_async config w = (r, w') →
  w' = w ∧ ∃ state, r = Ok (mk_runtime
    (log_checkpoints.path_for (cfg_state_dir config) (cfg_input_id config)) state
    (rfc3339 (clock w)) 0) ∧
  (log_checkpoints.load_or_default_from_path_async
     (log_checkpoints.path_for (cfg_state_dir config) (cfg_input_id config))
     (cfg_input_id config) w = (Ok state, w) ∨
   state = LogCheckpointState_new (cfg_input_id config) (rfc3339 (clock w))).
Proof.
  unfold load_runtime_state_async.
  destruct (log_checkpoints.load_or_default_from_path_async _ _ w) as [rl w1] eqn:E.
  rewrite (bind_ok _ _ _ _ _ (try_run _ _ _ _ E)). apply checkpoint_load_run in E as ->.
  destruct rl as [state|e]; intros [= <- <-]; (split; [done|]); eexists; (split; [reflexivity|]);
    [by left|by right].
Qed.
End Frames.

(** * A pass, step by step *)
Section Runs.
Context `{Host} `{!FileMeta} `{!SpoolEnv} `{!SpoolLaws} `{LogContracts} `{!LogLaws}
  `{!ContainerLookup} `{!LogCodecs} `{!RecordSink} `{!RecordSinkLaws} `{!FilterContracts}.
Context (config : FileInputConfig).
Implicit Types (i : Input).

Definition checkpoint_path : string :=
  log_checkpoints.path_for (cfg_state_dir config) (cfg_input_id config).
Definition seq_path : string := log_seq_state.path_for (cfg_state_dir config).

(** The content of a file, "" when there is none. *)
Definition content_of (p : string) i : string := default "" (files (world (uplink i)) !! p).

(** The files an input writes are different files. *)
Definition paths_apart : Prop :=
  storable checkpoint_path ∧ bad_path (cfg_spool_path config) ≠ cfg_spool_path config ∧
  (∀ q, store_paths checkpoint_path q → ¬ store_paths seq_path q ∧
     ¬ spool_files (cfg_spool_path config) q) ∧
  (∀ q, store_paths seq_path q → ¬ spool_files (cfg_spool_path config) q).

(** All the files an input writes. *)
Definition written_files (q : string) : Prop :=
  spool_files (cfg_spool_path config) q ∨ store_paths seq_path q ∨ store_paths checkpoint_path q.

Lemma replay_if_present_run p n d r d' : bad_path p ≠ p →
  replay_spool_if_present p n d = (r, d') →
  (∀ q, ¬ spool_files p q → files (world d') !! q = files (world d) !! q) ∧
  sink_extends (sink d) (sink d') ∧
  (∀ e, r = Err e → files (world d') !! p = files (world d) !! p).
Proof.
  intros Hb Hr. unfold replay_spool_if_present in Hr.
  apply bind_inv in Hr as [(e & E & ->)|(present & d1 & E & Hr)];
    apply in_world_run in E as (w1 & E & ->); apply has_records_run in E as [-> Hp]; [done|].
  replace (mk_uplink (world d) (sink d)) with d in Hr by by destruct d.
  specialize (Hp _ eq_refl). destruct (files (world d) !! p) as [c|] eqn:Ec; cbn in Hp.
  - destruct present; cbn [negb] in Hr; [|by injection Hr as <- <-].
    destruct (replay_records_run p n d r d' c Hb Ec Hr) as (Hf & Hs & Hm).
    split; [done|]. split; [done|]. intros e ->. exact Hm.
  - subst present. cbn [negb] in Hr. by injection Hr as <- <-.
Qed.

Lemma commit_log_state_run runtime cs pending w r w' :
  commit_log_state runtime cs pending w = (r, w') →
  ∃ st, commit_checkpoints (rt_observed_at runtime) (rt_log_state runtime) cs w = (Ok st, w) ∧
    log_checkpoints.store_async (rt_checkpoint_path runtime)
      (set_updated_at (rt_observed_at runtime) (set_pending pending st)) w = (r, w').
Proof.
  unfold commit_log_state.
  destruct (commit_checkpoints_run (rt_observed_at runtime) (rt_log_state runtime) cs w) as [st E].
  rewrite (bind_ok _ _ _ _ _ E). eauto.
Qed.

(** Collecting keeps the path the state goes to. *)
Lemma collect_runtime runtime i batch runtime' i' :
  collect_read_batch config runtime i = (Ok (batch, runtime'), i') →
  rt_checkpoint_path runtime' = rt_checkpoint_path runtime.
Proof.
  intros Hr. unfold collect_read_batch in Hr.
  apply bind_ok_inv in Hr as (current & i1 & _ & Hr).
  apply bind_ok_inv in Hr as (resume & i2 & _ & Hr).
  apply bind_ok_inv in Hr as ([[[saw rt] b] g] & i3 & E3 & Hr).
  assert (rt_checkpoint_path rt = rt_checkpoint_path runtime) as <-.
  { unfold collect_rotated_tail in E3. destruct (rd_rotated _); cbn [negb] in E3; [|by injection E3 as _ <- _ _ _].
    destruct (checkpoint_for_path _ _); [|by injection E3 as _ <- _ _ _].
    apply bind_ok_inv in E3 as ([p|] & ? & _ & E3); [|by injection E3 as _ <- _ _ _].
    apply bind_ok_inv in E3 as (? & ? & _ & E3). apply bind_ok_inv in E3 as ([? ?] & ? & _ & E3).
    by injection E3 as _ <- _ _ _. }
  apply bind_ok_inv in Hr as ([b4 g4] & i4 & _ & Hr).
  apply bind_ok_inv in Hr as (rd & i5 & _ & Hr).
  apply bind_ok_inv in Hr as ([f6 g6] & i6 & _ & Hr).
  apply bind_ok_inv in Hr as ([b7 g7] & i7 & _ & Hr).
  by injection Hr as _ <- _.
Qed.

(** The sequence number is stored when there were records. *)
Definition store_seq (n : Z) : M Input unit :=
  if Z.ltb 0 n then
    n ← gets next_seq;
    in_host (log_seq_state.store_async (log_seq_state.path_for (cfg_state_dir config)) n)
  else mret tt.

Lemma store_seq_run n i r i' : store_seq n i = (r, i') →
  ∃ w', i' = mk_input (mk_uplink w' (sink (uplink i))) (next_seq i) ∧
    only_files (store_paths seq_path) (world (uplink i)) w' ∧
    (r = Ok tt → (0 < n)%Z → doc seq_path (mk_seq_state (next_seq i)) w').
Proof.
  unfold store_seq. destruct (Z.ltb_spec 0 n) as [Hpos|Hz]; intros E.
  - apply in_host_run in E as (w' & E & ->). exists w'. split; [done|].
    split; [by apply (respects_run _ _ _ _ _ (write_json_respects _ _ _ (λ q Hq, Hq)) E)|].
    intros -> _. apply write_json_ok in E as ->. apply doc_wrote.
  - injection E as <- <-. exists (world (uplink i)). split; [by destruct i as [[] ?]|].
    split; [done|]. intros _ ?. lia.
Qed.

(** Every record is sent or in the spool file, and the next sequence number is on disk. *)
Definition handed_over (records : list TelemetryRecord) i i' : Prop :=
  (∃ direct sp, direct ++ sp ≡ₚ records ∧
     content_of (cfg_spool_path config) i' =
       content_of (cfg_spool_path config) i +:+ spool_text sp ∧
     (accepted (sink (uplink i')) = accepted (sink (uplink i)) ++ direct ∨ direct = [])) ∧
  (records ≠ [] → doc seq_path (mk_seq_state (next_seq i')) (world (uplink i'))).

(** The tail of a pass: delivery, then the sequence number, then the state by [commit]. *)
Definition deliver_then (records : list TelemetryRecord) (commit : M World unit)
    : M Input DeliveryOutcome :=
  delivery ← in_uplink (deliver_records (cfg_spool_path config)
    (cfg_in_memory_budget_bytes config) records);
  store_seq (records_processed delivery);;
  in_host commit;;
  mret delivery.

Lemma deliver_seq_run records i r i1 : paths_apart →
  (delivery ← in_uplink (deliver_records (cfg_spool_path config)
     (cfg_in_memory_budget_bytes config) records);
   store_seq (records_processed delivery);; mret delivery) i = (r, i1) →
  (∀ q, ¬ spool_files (cfg_spool_path config) q → ¬ store_paths seq_path q →
     files (world (uplink i1)) !! q = files (world (uplink i)) !! q) ∧
  sink_extends (sink (uplink i)) (sink (uplink i1)) ∧ next_seq i1 = next_seq i ∧
  (∀ out, r = Ok out → handed_over records i i1).
Proof.
  intros (_ & _ & _ & Hsq) Hr.
  assert (Hkeep : ∀ d d' q, spools (cfg_spool_path config) d d' →
    ¬ spool_files (cfg_spool_path config) q → files (world d') !! q = files (world d) !! q).
  { intros d d' q [[Hw _] _] Hq. apply Hw. intros <-. apply Hq. by left. }
  apply bind_inv in Hr as [(e & E & ->)|(delivery & i2 & E1 & Hr)].
  { apply in_uplink_run in E as (u1 & Ed & ->).
    pose proof (respects_run _ _ _ _ _ (deliver_records_spools _ _ _) Ed) as Hs1.
    split; [intros q ??; by apply Hkeep|]. split; [apply Hs1|done]. }
  apply in_uplink_run in E1 as (u1 & Ed & ->).
  pose proof (respects_run _ _ _ _ _ (deliver_records_spools _ _ _) Ed) as Hs1.
  apply deliver_records_ok in Ed as (direct & sp & (_ & Hf & Herr) & Hperm & _ & Hcount & _).
  destruct (store_seq (records_processed delivery) (mk_input u1 (next_seq i))) as [r2 i2] eqn:E2.
  assert (r = match r2 with Ok _ => Ok delivery | Err e => Err e end ∧ i1 = i2) as [-> ->].
  { destruct r2; [rewrite (bind_ok _ _ _ _ _ E2) in Hr|rewrite (bind_err _ _ _ _ _ E2) in Hr];
      by injection Hr as <- <-. }
  clear Hr. apply store_seq_run in E2 as (w2 & -> & Hw2 & Hdoc). cbn [uplink next_seq world sink] in *.
  split; [intros q ??; etrans; [by apply Hw2|by apply Hkeep]|]. split; [apply Hs1|]. split; [done|].
  intros out Hout. destruct r2 as [[]|]; [|done]. split.
  - exists direct, sp. split; [done|]. unfold content_of. cbn [uplink world sink]. split.
    + rewrite <-Hf. f_equal. apply Hw2. intros Hq. apply Hsq in Hq. apply Hq. by left.
    + destruct (sink_error delivery); [right; apply Herr|by left].
  - intros Hne. apply Hdoc; [done|]. rewrite Hcount. unfold len_. destruct records; [done|cbn; lia].
Qed.

(** Whatever [commit] does to the checkpoint file, it does last. *)
Lemma deliver_then_run records commit i r i' (Good : World → World → Prop) : paths_apart →
  respects (only_files (store_paths checkpoint_path)) commit →
  (∀ w rc w', commit w = (rc, w') →
     files w' !! checkpoint_path = files w !! checkpoint_path ∨ Good w w') →
  deliver_then records commit i = (r, i') →
  (∀ q, ¬ written_files q → files (world (uplink i')) !! q = files (world (uplink i)) !! q) ∧
  sink_extends (sink (uplink i)) (sink (uplink i')) ∧ next_seq i' = next_seq i ∧
  (files (world (uplink i')) !! checkpoint_path = files (world (uplink i)) !! checkpoint_path ∨
   handed_over records i i' ∧ ∃ w, Good w (world (uplink i'))) ∧
  (∀ out, r = Ok out → handed_over records i i').
Proof.
  intros Hapart Hcommit Hgood Hr. pose proof Hapart as (_ & _ & Hcp & Hsq).
  destruct (Hcp checkpoint_path ltac:(by left)) as [Hcq Hcs]. unfold written_files.
  assert (Hsplit : deliver_then records commit i =
    ((delivery ← in_uplink (deliver_records (cfg_spool_path config)
        (cfg_in_memory_budget_bytes config) records);
      store_seq (records_processed delivery);; mret delivery) ≫=
     (λ delivery, in_host commit;; mret delivery)) i).
  { unfold deliver_then. rewrite bind_assoc. apply bind_ext. intros d i0. rewrite bind_assoc.
    by apply bind_ext. }
  rewrite Hsplit in Hr. clear Hsplit.
  apply bind_inv in Hr as [(e & E & ->)|(delivery & i1 & E & Hr)];
    apply deliver_seq_run in E as (Hf & Hs & Hn & Hok); [|done| |done].
  { split; [intros q Hq; apply Hf; tauto|]. do 2 (split; [done|]). split; [left; by apply Hf|done]. }
  specialize (Hok delivery eq_refl).
  destruct (in_host commit i1) as [rc i2] eqn:E2.
  assert (i' = i2) as ->.
  { destruct rc; [rewrite (bind_ok _ _ _ _ _ E2) in Hr|rewrite (bind_err _ _ _ _ _ E2) in Hr];
      by injection Hr as _ <-. }
  clear Hr. apply in_host_run in E2 as (w2 & E2 & ->). cbn [uplink world sink next_seq].
  pose proof (respects_run _ _ _ _ _ Hcommit E2) as Hw2.
  assert (Hho : handed_over records i (mk_input (mk_uplink w2 (sink (uplink i1))) (next_seq i1))).
  { destruct Hok as [(direct & sp & Hp & Hc & Ha) Hd]. split.
    - exists direct, sp. split; [done|]. unfold content_of in *. cbn [uplink world sink]. split; [|done].
      rewrite <-Hc. f_equal. apply Hw2. intros Hq. apply Hcp in Hq as [_ Hq]. apply Hq. by left.
    - intros Hne. cbn [uplink world next_seq]. eapply doc_keep; [|by apply Hd].
      apply Hw2. intros Hq. apply Hcp in Hq as [Hq _]. apply Hq. by left. }
  split; [intros q Hq; etrans; [apply Hw2; tauto|apply Hf; tauto]|]. split; [done|]. split; [done|].
  split; [|done]. destruct (Hgood _ _ _ E2) as [Heq|Hg]; [left|right].
  - rewrite Heq. by apply Hf.
  - split; [done|by exists (world (uplink i1))].
Qed.

(** What a committed batch went through: delivered in full, its sequence numbers stored, and its
    own checkpoints written. *)
Definition wrote_checkpoints (runtime : RuntimeState) (batch : CollectedReadBatch) w0 w : Prop :=
  ∃ st, commit_checkpoints (rt_observed_at runtime) (rt_log_state runtime) (cb_checkpoints batch) w0
      = (Ok st, w0) ∧
    doc checkpoint_path (set_updated_at (rt_observed_at runtime) (set_pending (cb_pending batch) st)) w.

Definition committed (runtime : RuntimeState) (batch : CollectedReadBatch) i i' : Prop :=
  handed_over (cb_records batch) i i' ∧ ∃ w0, wrote_checkpoints runtime batch w0 (world (uplink i')).

Lemma commit_log_state_writes runtime batch : storable checkpoint_path →
  rt_checkpoint_path runtime = checkpoint_path →
  let commit := commit_log_state runtime (cb_checkpoints batch) (cb_pending batch) in
  respects (only_files (store_paths checkpoint_path)) commit ∧
  (∀ w r w', commit w = (r, w') →
     files w' !! checkpoint_path = files w !! checkpoint_path ∨ wrote_checkpoints runtime batch w w').
Proof.
  intros Hst Hpath commit. split.
  - intros w. destruct (commit w) as [r w'] eqn:E. apply commit_log_state_run in E as (st & _ & E).
    rewrite Hpath in E. by apply (respects_run _ _ _ _ _ (write_json_respects _ _ _ (λ q Hq, Hq)) E).
  - intros w r w' (st & Est & E)%commit_log_state_run. rewrite Hpath in E.
    destruct (write_json_either _ _ _ _ _ Hst E) as [|Hnew]; [by left|right].
    exists st. split; [done|]. eexists. split; [exact Hnew|]. apply from_to_json.
Qed.

Lemma process_batch_split runtime i : process_batch config runtime i =
  ('(batch, runtime) ← collect_read_batch config runtime;
   delivery ← deliver_then (cb_records batch)
     (commit_log_state runtime (cb_checkpoints batch) (cb_pending batch));
   mret (with_dropped_noise (cb_dropped_noise batch)
    (from_delivery delivery (cb_offset batch) (rt_replayed_spool runtime)
       (rd_truncated (cb_resume batch)) (cb_truncated_lines batch) (cb_withheld batch)
       (rd_rotated (cb_resume batch)) (cb_read_lines batch)))) i.
Proof.
  unfold process_batch. apply bind_ext. intros [batch rt] i1. unfold deliver_then.
  rewrite !bind_assoc. apply bind_ext. intros d i2. rewrite !bind_assoc. apply bind_ext. intros [] i3.
  by rewrite !bind_assoc.
Qed.
Lemma size_run p w r w' : size_async p w = (r, w') → w' = w ∧
  (∀ n, r = Ok n → n = str_len (default "" (files w !! p))).
Proof.
  intros (r0 & Hr & Hres)%or_missing_run. apply fs_len_run in Hr as (-> & Hn & He).
  split; [done|]. intros n Hr. destruct r0 as [m|e]; [rewrite Hres in Hr; injection Hr as <-; by apply Hn|].
  case_decide as Hk; [|congruence]. rewrite (He e eq_refl Hk).
  assert (Ok n = Ok 0%Z) as [= ->] by congruence. done.
Qed.

Lemma size_ok p w : fs_fault OpMetadata p = None →
  size_async p w = (Ok (str_len (default "" (files w !! p))), w).
Proof.
  intros Hf. unfold size_async, or_missing, fs_len, fs_metadata, guard_fault, act, gets, try,
    mbind, M_bind. rewrite Hf. destruct (fs_exists p w) eqn:E; [done|].
  by rewrite fs_exists_false.
Qed.

Lemma paused_run err w r w' : paused_outcome_async config err w = (r, w') → w' = w ∧
  (∀ o, r = Ok o →
     let size := str_len (default "" (files w !! cfg_spool_path config)) in
     o = if Z.leb (cfg_spool_max_bytes config) size
         then Some (outcome_paused size (err ≫= uplink_write_detail)) else None).
Proof.
  unfold paused_outcome_async. intros Hr.
  apply bind_inv in Hr as [(e & E & ->)|(n & w1 & E & Hr)]; apply size_run in E as [-> Hn]; [done|].
  injection Hr as <- <-. split; [done|]. intros o [= <-]. by rewrite (Hn n eq_refl).
Qed.

(** The end of a pass whose replay failed. *)
Definition stop_unless_paused (err : IoError) : M Input ProcessOutcome :=
  paused ← in_host (paused_outcome_async config (Some err));
  match paused with Some paused => mret paused | None => throw err end.

Lemma stop_unless_paused_run err i r i' : stop_unless_paused err i = (r, i') → i' = i ∧
  (∀ o, r = Ok o → let size := str_len (content_of (cfg_spool_path config) i) in
     (cfg_spool_max_bytes config ≤ size)%Z ∧ o = outcome_paused size (uplink_write_detail err)).
Proof.
  unfold stop_unless_paused. intros Hr.
  assert (Hi : ∀ i : Input, mk_input (mk_uplink (world (uplink i)) (sink (uplink i))) (next_seq i) = i)
    by by intros [[] ?].
  apply bind_inv in Hr as [(e & E & ->)|(p & i1 & E & Hr)];
    apply in_host_run in E as (w1 & E & ->); apply paused_run in E as [-> Hp]; rewrite ?Hi in *; [done|].
  specialize (Hp p eq_refl). cbv zeta in Hp.
  destruct (Z.leb_spec (cfg_spool_max_bytes config)
    (str_len (default "" (files (world (uplink i)) !! cfg_spool_path config)))); subst p;
    injection Hr as <- <-; split; try done. intros o [= <-]. by split.
Qed.
(** What the parts of a collection count. *)
Lemma read_lines_bound p off limits w rd w' : sane_limits limits →
  read_from_offset_async p off limits w = (Ok rd, w') →
  (0 ≤ Z.of_nat (length (lines rd)) ≤ rl_max_lines limits)%Z.
Proof.
  intros Hl (_ & c & raws & tail & _ & _ & T)%read_from_offset_reads; [|done].
  rewrite (rt_lines _ _ _ _ _ _ T), render_length. destruct Hl as (_ & _ & Hl).
  destruct (decide (raws = [])) as [->|Hne]; [cbn; lia|].
  pose proof (rt_count _ _ _ _ _ _ T Hne). lia.
Qed.

Lemma collect_rotated_counts runtime t b g i saw rt b' g' i' : sane_limits (cfg_read_limits config) →
  cb_checkpoints b = [] → cb_read_lines b = 0%Z →
  collect_rotated_tail config runtime t b g i = (Ok (saw, rt, b', g'), i') →
  cb_resume b' = cb_resume b ∧
  (rd_rotated (cb_resume b) = false → cb_checkpoints b' = [] ∧ cb_read_lines b' = 0%Z) ∧
  (0 ≤ cb_read_lines b' ≤ rl_max_lines (cfg_read_limits config))%Z.
Proof.
  intros Hl Hc Hn Hr. assert (0 ≤ rl_max_lines (cfg_read_limits config))%Z by (unfold sane_limits in Hl; lia).
  unfold collect_rotated_tail in Hr.
  destruct (rd_rotated (cb_resume b)) eqn:Hrot; cbn [negb] in Hr.
  2:{ injection Hr as _ _ <- _ _. rewrite Hn. split; [done|]. split; [done|lia]. }
  destruct t as [previous|]; [|injection Hr as _ _ <- _ _; rewrite Hn; split; [done|]; split; [done|lia]].
  apply bind_ok_inv in Hr as ([q|] & i1 & _ & Hr);
    [|injection Hr as _ _ <- _ _; rewrite Hn; split; [done|]; split; [done|lia]].
  apply bind_ok_inv in Hr as (rd & i2 & E & Hr). apply in_host_run in E as (w2 & E & _).
  apply (read_lines_bound _ _ _ _ _ _ Hl) in E.
  apply bind_ok_inv in Hr as ([f3 g3] & i3 & _ & Hr). injection Hr as _ _ <- _ _.
  cbn [cb_resume cb_read_lines batch_checkpoint batch_add batch_count]. rewrite Hn.
  split; [done|]. split; [done|lia].
Qed.

Lemma settle_pending_counts b g i b' g' i' :
  settle_pending config b g i = (Ok (b', g'), i') →
  cb_resume b' = cb_resume b ∧ cb_checkpoints b' = cb_checkpoints b ∧ cb_read_lines b' = cb_read_lines b.
Proof.
  unfold settle_pending. intros Hr. destruct (_ || _).
  - apply bind_ok_inv in Hr as ([? ?] & ? & _ & Hr). by injection Hr as <- _ _.
  - apply bind_ok_inv in Hr as ([[? ?] ?] & ? & _ & Hr). by injection Hr as <- _ _.
Qed.

(** Both processors: load, replay, and stop when the replay failed. *)
Lemma after_replay_run (body : nat → M Input ProcessOutcome) i r i' : paths_apart →
  (replay ← try (in_uplink (replay_spool_if_present (cfg_spool_path config) SPOOL_REPLAY_BATCH_SIZE));
   match replay with
   | Ok replayed => body replayed
   | Err err => stop_unless_paused err
   end) i = (r, i') →
  ∃ i1, sink_extends (sink (uplink i)) (sink (uplink i1)) ∧ next_seq i1 = next_seq i ∧
    (∀ q, ¬ spool_files (cfg_spool_path config) q →
       files (world (uplink i1)) !! q = files (world (uplink i)) !! q) ∧
    (i' = i1 ∨ ∃ replayed, body replayed i1 = (r, i')).
Proof.
  intros (_ & Hbad & _) Hr.
  destruct (in_uplink (replay_spool_if_present (cfg_spool_path config) SPOOL_REPLAY_BATCH_SIZE) i)
    as [rr i1] eqn:E1.
  rewrite (bind_ok _ _ _ _ _ (try_run _ _ _ _ E1)) in Hr.
  apply in_uplink_run in E1 as (u1 & E1 & ->).
  apply replay_if_present_run in E1 as (Hf1 & Hs1 & _); [|done].
  exists (mk_input u1 (next_seq i)). cbn [uplink next_seq].
  split; [done|]. split; [done|]. split; [done|].
  destruct rr as [replayed|e]; [right; by exists replayed|left].
  by apply stop_unless_paused_run in Hr as [-> _].
Qed.
End Runs.

(** * Claims *)
Section Claims.
Context `{Host} `{!FileMeta} `{!SpoolEnv} `{!SpoolLaws} `{LogContracts} `{!LogLaws}
  `{!ContainerLookup} `{!LogCodecs} `{!RecordSink} `{!RecordSinkLaws} `{!FilterContracts}.
Context (config : FileInputConfig).
Implicit Types (i : Input).

(** C2. The checkpoint moves last.  Whatever fails in a pass and wherever it stops, either the
    checkpoint file is as it was, so the next pass reads the same bytes again, or a batch was
    read and every record of it is now sent or in the spool file, the sequence numbers it used
    are stored on disk (so a restart never reuses them), and the checkpoint file holds that
    batch's own offsets and unfinished record.  Between the start of the pass and the read
    only the spool was replayed, and nothing but the agent's own files ever changes. *)
Theorem checkpoint_moves_last i r i' : paths_apart config →
  process_once_async config i = (r, i') →
  (∀ q, ¬ written_files config q → files (world (uplink i')) !! q = files (world (uplink i)) !! q) ∧
  (files (world (uplink i')) !! checkpoint_path config =
     files (world (uplink i)) !! checkpoint_path config ∨
   ∃ runtime i1 batch runtime' i2,
     sink_extends (sink (uplink i)) (sink (uplink i1)) ∧ next_seq i1 = next_seq i ∧
     (∀ q, ¬ spool_files (cfg_spool_path config) q →
        files (world (uplink i1)) !! q = files (world (uplink i)) !! q) ∧
     collect_read_batch config runtime i1 = (Ok (batch, runtime'), i2) ∧
     committed config runtime' batch i2 i').
Proof.
  intros Hapart Hr. pose proof Hapart as (_ & _ & Hcp & _). unfold process_once_async in Hr.
  apply bind_inv in Hr as [(e & E & ->)|(runtime & i0 & E & Hr)];
    apply in_host_run in E as (w0 & E & ->); apply load_runtime_run in E as (-> & state & E & _);
    [done|injection E as ->].
  replace (mk_input (mk_uplink (world (uplink i)) (sink (uplink i))) (next_seq i)) with i in Hr
    by by destruct i as [[] ?].
  set (runtime := mk_runtime _ state _ 0) in *.
  apply (after_replay_run config (λ n, process_batch config (set_replayed n runtime))) in Hr
    as (i1 & Hs1 & Hn1 & Hf1 & Hr); [|done].
  assert (Hcs : ¬ spool_files (cfg_spool_path config) (checkpoint_path config))
    by (apply Hcp; by left).
  assert (Hf1' : ∀ q, ¬ written_files config q →
    files (world (uplink i1)) !! q = files (world (uplink i)) !! q).
  { intros q Hq. apply Hf1. unfold written_files in Hq. tauto. }
  destruct Hr as [->|(n & Hr)]; [split; [done|left; by apply Hf1]|].
  rewrite process_batch_split in Hr.
  apply bind_inv in Hr as [(e & E & ->)|([batch rt'] & i2 & E & Hr)];
    pose proof (collect_read_batch_respects config (set_replayed n runtime) i1) as Hrd;
    rewrite E in Hrd; cbn in Hrd; unfold same_uplink in Hrd.
  { rewrite Hrd. split; [done|left; by apply Hf1]. }
  destruct (deliver_then config (cb_records batch)
    (commit_log_state rt' (cb_checkpoints batch) (cb_pending batch)) i2) as [rc ic] eqn:Ec.
  assert (i' = ic) as ->.
  { destruct rc; [rewrite (bind_ok _ _ _ _ _ Ec) in Hr|rewrite (bind_err _ _ _ _ _ Ec) in Hr];
      by injection Hr as _ <-. }
  destruct (commit_log_state_writes config rt' batch (proj1 Hapart)) as [Hres Hgood];
    [by rewrite (collect_runtime _ _ _ _ _ _ E)|].
  apply (deliver_then_run _ _ _ _ _ _ _ Hapart Hres Hgood) in Ec as (Hf & _ & _ & Hc & _).
  rewrite Hrd in Hf, Hc. split; [intros q Hq; rewrite Hf by done; by apply Hf1'|].
  destruct Hc as [Hc|Hc]; [left; rewrite Hc; by apply Hf1|right].
  exists (set_replayed n runtime), i1, batch, rt', i2. by split_and!.
Qed.

(** Back pressure.  When the replay of the spool fails, the pass reads no log file, takes no
    sequence number and keeps the spool and the checkpoint; it reports a pause, with the size of
    the spool and the sink's reason, exactly when the spool has reached its limit, and
    otherwise the error of the replay. *)
Theorem failed_replay_reads_nothing i r i' err u1 : paths_apart config →
  fs_fault OpMetadata (cfg_spool_path config) = None →
  replay_spool_if_present (cfg_spool_path config) SPOOL_REPLAY_BATCH_SIZE (uplink i) =
    (Err err, u1) →
  process_once_async config i = (r, i') →
  let size := str_len (content_of (cfg_spool_path config) i) in
  r = (if Z.leb (cfg_spool_max_bytes config) size
       then Ok (outcome_paused size (uplink_write_detail err)) else Err err) ∧
  next_seq i' = next_seq i ∧
  (∀ q, q ≠ bad_path (cfg_spool_path config) →
     files (world (uplink i')) !! q = files (world (uplink i)) !! q).
Proof.
  intros (_ & Hbad & _) Hmeta E1 Hr size. unfold process_once_async in Hr.
  apply bind_inv in Hr as [(e & E & ->)|(runtime & i0 & E & Hr)];
    apply in_host_run in E as (w0 & E & ->); apply load_runtime_run in E as (-> & state & E & _);
    [done|injection E as ->].
  replace (mk_input (mk_uplink (world (uplink i)) (sink (uplink i))) (next_seq i)) with i in Hr
    by by destruct i as [[] ?].
  assert (E2 : in_uplink (replay_spool_if_present (cfg_spool_path config) SPOOL_REPLAY_BATCH_SIZE) i
    = (Err err, mk_input u1 (next_seq i))) by (unfold in_uplink, zoom; by rewrite E1).
  rewrite (bind_ok _ _ _ _ _ (try_run _ _ _ _ E2)) in Hr.
  apply replay_if_present_run in E1 as (Hf1 & Hs1 & Hkeep); [|done]. specialize (Hkeep err eq_refl).
  change (stop_unless_paused config err (mk_input u1 (next_seq i)) = (r, i')) in Hr.
  pose proof Hr as [-> _]%stop_unless_paused_run. split; [|split; [done|]].
  - assert (Hsize : size_async (cfg_spool_path config) (world u1) = (Ok size, world u1)).
    { unfold size, content_of. rewrite <-Hkeep. by apply size_ok. }
    unfold stop_unless_paused, in_host, in_uplink, in_world, zoom, paused_outcome_async, mbind,
      M_bind in Hr. cbn [uplink] in Hr. rewrite Hsize in Hr.
    destruct (Z.leb _ size); cbn in Hr; by injection Hr as <-.
  - intros q Hq. cbn [uplink]. destruct (decide (q = cfg_spool_path config)) as [->|Hne]; [done|].
    apply Hf1. by intros [?|?].
Qed.
(** What one pass reads.  Only a pass that meets the rotation reads the renamed file; every
    other pass reads the source path alone and records a checkpoint for nothing else.  Each of
    the two reads is within the read limits. *)
Theorem rotated_file_read_once runtime i batch runtime' i' : sane_limits (cfg_read_limits config) →
  collect_read_batch config runtime i = (Ok (batch, runtime'), i') →
  let limit := rl_max_lines (cfg_read_limits config) in
  (rd_rotated (cb_resume batch) = false →
     (pc_source_path <$> cb_checkpoints batch) = [cfg_source_path config] ∧
     (0 ≤ cb_read_lines batch ≤ limit)%Z) ∧
  (0 ≤ cb_read_lines batch ≤ 2 * limit)%Z.
Proof.
  intros Hl Hr limit. unfold collect_read_batch in Hr.
  apply bind_ok_inv in Hr as (current & i1 & _ & Hr).
  apply bind_ok_inv in Hr as (resume & i2 & _ & Hr).
  apply bind_ok_inv in Hr as ([[[saw rt] b3] g3] & i3 & E3 & Hr).
  apply (collect_rotated_counts config) in E3 as (Hres3 & Hrot3 & Hlines3); [|done..].
  apply bind_ok_inv in Hr as ([b4 g4] & i4 & E4 & Hr).
  apply settle_pending_counts in E4 as (Hres4 & Hcp4 & Hn4).
  apply bind_ok_inv in Hr as (rd & i5 & E5 & Hr).
  apply in_host_run in E5 as (w5 & E5 & _). apply (read_lines_bound _ _ _ _ _ _ Hl) in E5.
  apply bind_ok_inv in Hr as ([f6 g6] & i6 & _ & Hr).
  apply bind_ok_inv in Hr as ([b7 g7] & i7 & E7 & Hr). injection Hr as <- _ _.
  assert (Hb7 : cb_resume b7 = cb_resume b4 ∧
    cb_read_lines b7 = (cb_read_lines b4 + Z.of_nat (length (lines rd)))%Z ∧
    (pc_source_path <$> cb_checkpoints b7) =
      (pc_source_path <$> cb_checkpoints b4) ++ [cfg_source_path config]).
  { match type of E7 with (if ?c then _ else _) _ = _ => destruct c end;
      [apply bind_ok_inv in E7 as ([? ?] & ? & _ & E7)|];
      injection E7 as <- _ _; cbn [cb_resume cb_read_lines cb_checkpoints batch_add batch_checkpoint
        batch_count]; by rewrite fmap_app. }
  destruct Hb7 as (Hr7 & Hn7 & Hc7). cbn [batch_finish cb_resume cb_checkpoints cb_read_lines].
  rewrite Hr7, Hn7, Hc7, Hres4, Hcp4, Hn4. fold limit in E5, Hlines3. split; [|lia].
  rewrite Hres3. intros Hno. apply Hrot3 in Hno as [-> ->]. split; [done|lia].
Qed.
End Claims.

(** * A concrete input and the witnesses *)
Module ConcreteInput.
Definition toy_config : FileInputConfig :=
  mk_config _ _ "agent" "in" (mk_origin "fam" "unit") "l/app.log" [] (toy_filter [] [] [] []) [] 10 10 1000 "st" toy_spool
    Head MNone 1000 (ReadLimits_new 10 100 10) 4.

Definition toy_start (log : string) (up : bool) : Input :=
  mk_input (mk_uplink (toy_files log) ([], up)) 7.

Definition toy_one : Input := toy_start ("ab" +:+ nl +:+ "c") true.
Definition toy_paused : Input :=
  mk_input (toy_uplink {[ toy_spool := spool_text [toy_rec "one" 1] ]} false) 7.

Lemma toy_apart : paths_apart toy_config.
Proof.
  split; [vm_compute; discriminate|]. split; [vm_compute; discriminate|]. split.
  - intros q [->| ->]; (split; intros [H|H]; vm_compute in H; discriminate H).
  - intros q [->| ->] [H|H]; vm_compute in H; discriminate H.
Qed.
End ConcreteInput.
Import ConcreteInput.

Lemma checkpoint_moves_last_witness :
  let ri := process_once_async toy_config toy_one in
  is_ok ri.1 = true ∧
  ∃ runtime i1 batch runtime' i2,
    collect_read_batch toy_config runtime i1 = (Ok (batch, runtime'), i2) ∧
    committed toy_config runtime' batch i2 ri.2.
Proof.
  intros ri. assert (Hv : is_ok ri.1 = true) by (vm_compute; reflexivity).
  assert (Hsome : is_some (files (world (uplink ri.2)) !! checkpoint_path toy_config) = true)
    by (vm_compute; reflexivity).
  assert (Hnone : files (world (uplink toy_one)) !! checkpoint_path toy_config = None)
    by (vm_compute; reflexivity).
  pose proof (checkpoint_moves_last toy_config toy_one ri.1 ri.2 toy_apart (surjective_pairing ri))
    as [_ Hm].
  clearbody ri. split; [exact Hv|]. destruct Hm as [Hn|Hc]; [rewrite Hn, Hnone in Hsome; discriminate Hsome|].
  destruct Hc as (rt & i1 & batch & rt' & i2 & _ & _ & _ & Hc & Hd).
  exists rt, i1, batch, rt', i2. split; [exact Hc|exact Hd].
Defined.

(** The sink is down and the spool is over its limit: the pass pauses. *)
Lemma failed_replay_reads_nothing_witness :
  let r := process_once_async toy_config toy_paused in
  ∃ n i', r = (Ok (outcome_paused n (Some "unreachable")), i') ∧ (4 ≤ n)%Z ∧ next_seq i' = 7%Z.
Proof.
  intros r. set (rp := replay_spool_if_present toy_spool SPOOL_REPLAY_BATCH_SIZE (uplink toy_paused)).
  assert (Hrp : rp.1 = Err (io_other "unreachable")) by (vm_compute; reflexivity).
  assert (Hsize : (4 <= str_len (content_of toy_spool toy_paused))%Z) by (vm_compute; discriminate).
  assert (Hr : rp = (Err (io_other "unreachable"), rp.2)) by (rewrite <-Hrp; apply surjective_pairing).
  destruct (failed_replay_reads_nothing toy_config toy_paused r.1 r.2 (io_other "unreachable")
    rp.2 toy_apart (toy_fault_free _ _) Hr (surjective_pairing r)) as (H1 & H2 & _).
  exists (str_len (content_of toy_spool toy_paused)), r.2.
  split; [|split; [exact Hsize|exact H2]].
  rewrite (surjective_pairing r) at 1. rewrite H1.
  change (cfg_spool_max_bytes toy_config) with 4%Z. change (cfg_spool_path toy_config) with toy_spool.
  rewrite (proj2 (Z.leb_le _ _) Hsize). reflexivity.
Defined.

Lemma rotated_file_read_once_witness :
  let ri := collect_read_batch toy_config
    (mk_runtime "c" (LogCheckpointState_new "in" "now") "now" 0) toy_one in
  ((λ b, pc_source_path <$> cb_checkpoints b.1) <$> result_ok ri.1) = Some ["l/app.log"].
Proof.
  intros ri. assert (Hv : ((λ b, rd_rotated (cb_resume b.1)) <$> result_ok ri.1) = Some false)
    by (vm_compute; reflexivity).
  destruct ri as [[[batch rt']|e] i'] eqn:E; [|discriminate Hv]. cbn in Hv. injection Hv as Hv.
  destruct (rotated_file_read_once toy_config _ toy_one batch rt' i' (ReadLimits_new_sane 10 100 10) E)
    as [Hc _].
  cbn [result_ok fst fmap option_fmap option_map]. f_equal. exact (proj1 (Hc Hv)).
Defined.
