(* ===== verification/Family.v ===== *)
(** File families (src/src/telemetry/logs/files/file.rs, [FileFamilyProcessor]): one input that
    follows every file a glob or a directory selects.  A pass shares one read budget among the
    files, drains rotated files by their real path, and commits one checkpoint per file. *)
From S2P Require Import Prelude Text Host Telemetry Reader LogToy Records Delivery Checkpoint.
From S2P Require Import Select FileInput.
Import ConcreteFiles ConcreteSink ConcreteSelect ConcreteInput.

(** [usize::saturating_mul]. *)
Definition usize_saturating_mul (a b : Z) : Z := Z.min (2 ^ 64 - 1) (a * b).
(** [saturating_sub] on unsigned integers. *)
Definition saturating_sub (a b : Z) : Z := Z.max 0 (a - b).

Record FamilyCheckpoint := mk_family_checkpoint {
  fk_display_path : string;
  fk_real_path : string;
  fk_identity : ObservedFileIdentity;
  fk_offset : Z;
  fk_pending : option PendingMultilineState;
}.

Record FamilyBatch `{LogContracts} := mk_family_batch {
  fb_records : list TelemetryRecord;
  fb_checkpoints : list FamilyCheckpoint;
  fb_offset : Z;
  fb_truncated_lines : Z;
  fb_read_lines : Z;
  fb_dropped_noise : Z;
  fb_selection_filtered : Z;
  fb_identity_unknown : Z;
  fb_rotated : bool;
  fb_truncated : bool;
  fb_withheld : Withheld;
  fb_failure : option IoError;
  fb_capacity : option FamilyCapacity;
}.
Arguments mk_family_batch {_} _ _ _ _ _ _ _ _ _ _ _ _ _.

Section FamilyBatch.
Context `{LogContracts}.

Definition FamilyBatch_new : FamilyBatch :=
  mk_family_batch [] [] 0 0 0 0 0 0 false false Withheld_default None None.

Definition fb_add (records : list TelemetryRecord) (dropped : Z) (b : FamilyBatch) : FamilyBatch :=
  mk_family_batch (fb_records b ++ records) (fb_checkpoints b) (fb_offset b) (fb_truncated_lines b)
    (fb_read_lines b) (fb_dropped_noise b + dropped) (fb_selection_filtered b)
    (fb_identity_unknown b) (fb_rotated b) (fb_truncated b) (fb_withheld b) (fb_failure b)
    (fb_capacity b).

(** The counts of one read. *)
Definition fb_count (rd : ReadFromOffset) (b : FamilyBatch) : FamilyBatch :=
  mk_family_batch (fb_records b) (fb_checkpoints b) (fb_offset b)
    (fb_truncated_lines b + truncated_lines rd)
    (fb_read_lines b + Z.of_nat (length (lines rd))) (fb_dropped_noise b)
    (fb_selection_filtered b) (fb_identity_unknown b) (fb_rotated b) (fb_truncated b)
    (fb_withheld b) (fb_failure b) (fb_capacity b).

Definition fb_max_offset (o : Z) (b : FamilyBatch) : FamilyBatch :=
  mk_family_batch (fb_records b) (fb_checkpoints b) (Z.max (fb_offset b) o) (fb_truncated_lines b)
    (fb_read_lines b) (fb_dropped_noise b) (fb_selection_filtered b) (fb_identity_unknown b)
    (fb_rotated b) (fb_truncated b) (fb_withheld b) (fb_failure b) (fb_capacity b).

Definition fb_checkpoint (c : FamilyCheckpoint) (b : FamilyBatch) : FamilyBatch :=
  mk_family_batch (fb_records b) (fb_checkpoints b ++ [c]) (fb_offset b) (fb_truncated_lines b)
    (fb_read_lines b) (fb_dropped_noise b) (fb_selection_filtered b) (fb_identity_unknown b)
    (fb_rotated b) (fb_truncated b) (fb_withheld b) (fb_failure b) (fb_capacity b).

Definition fb_mark (rotated truncated : bool) (b : FamilyBatch) : FamilyBatch :=
  mk_family_batch (fb_records b) (fb_checkpoints b) (fb_offset b) (fb_truncated_lines b)
    (fb_read_lines b) (fb_dropped_noise b) (fb_selection_filtered b) (fb_identity_unknown b)
    (fb_rotated b || rotated) (fb_truncated b || truncated) (fb_withheld b) (fb_failure b)
    (fb_capacity b).

Definition fb_selection (filtered unknown : Z) (capacity : option FamilyCapacity) (b : FamilyBatch)
    : FamilyBatch :=
  mk_family_batch (fb_records b) (fb_checkpoints b) (fb_offset b) (fb_truncated_lines b)
    (fb_read_lines b) (fb_dropped_noise b) filtered unknown (fb_rotated b) (fb_truncated b)
    (fb_withheld b) (fb_failure b) capacity.

(** [failure.get_or_insert(err)]. *)
Definition fb_fail (err : IoError) (b : FamilyBatch) : FamilyBatch :=
  mk_family_batch (fb_records b) (fb_checkpoints b) (fb_offset b) (fb_truncated_lines b)
    (fb_read_lines b) (fb_dropped_noise b) (fb_selection_filtered b) (fb_identity_unknown b)
    (fb_rotated b) (fb_truncated b) (fb_withheld b)
    (match fb_failure b with Some e => Some e | None => Some err end) (fb_capacity b).

Definition fb_finish (w : Withheld) (b : FamilyBatch) : FamilyBatch :=
  mk_family_batch (fb_records b) (fb_checkpoints b) (fb_offset b) (fb_truncated_lines b)
    (fb_read_lines b) (fb_dropped_noise b) (fb_selection_filtered b) (fb_identity_unknown b)
    (fb_rotated b) (fb_truncated b) w (fb_failure b) (fb_capacity b).
End FamilyBatch.

(** * The tracked files of a family *)

Definition with_pending (p : option PendingMultilineState) (t : TrackedFileCheckpoint)
    : TrackedFileCheckpoint :=
  mk_tracked (file_id t) (tf_path t) (tf_device_id t) (tf_inode t) (tf_fingerprint t)
    (checkpoint_offset t) (tf_probe t) (last_size t) (last_read_at t) (last_commit_point_at t)
    (rotated_from_path t) (real_path t) p.

Definition set_last_scan (ms : option Z) (s : LogCheckpointState) : LogCheckpointState :=
  mk_checkpoint_state (lc_schema_version s) (lc_input_id s) (lc_updated_at s) (lc_next_seq s) ms
    (pending_multiline s) (tracked s).

(** The unfinished record of a single-file input goes to its file's checkpoint; what finds none
    is returned. *)
Definition migrate_input_pending_to_files (state : LogCheckpointState)
    : LogCheckpointState * option PendingMultilineState :=
  match pending_multiline state with
  | None => (state, None)
  | Some pending =>
      let state := set_pending None state in
      let here := at_path (pm_source_path pending) in
      match find_first here (tracked state) with
      | Some entry =>
          if is_some (tf_pending entry) then (state, Some pending)
          else (set_tracked (update_first here (with_pending (Some pending)) (tracked state)) state,
                None)
      | None => (state, Some pending)
      end
  end.

Section Prune.
Context `{Host}.

Definition SEVEN_DAYS_MS : Z := 7 * 86400000.

Definition checkpoint_is_stale (entry : TrackedFileCheckpoint) (observed_at : string) : bool :=
  match last_commit_point_at entry with
  | None => true
  | Some last =>
      match parse_rfc3339 last with
      | None => false
      | Some last =>
          match parse_rfc3339 observed_at with
          | None => false
          | Some now => Z.leb SEVEN_DAYS_MS (now - last)
          end
      end
  end.

Definition keeps_checkpoint (matched deselected_ : gset string) (observed_at : string)
    (entry : TrackedFileCheckpoint) : bool :=
  if bool_decide (tf_path entry ∈ matched) then true
  else if bool_decide (tf_path entry ∈ deselected_) then false
  else if is_some (tf_pending entry) then true
  else if match last_size entry with
          | Some size => Z.leb size (checkpoint_offset entry)
          | None => false
          end
  then false
  else negb (checkpoint_is_stale entry observed_at).

Definition prune_family_state (matched deselected_ : gset string) (observed_at : string)
    (state : LogCheckpointState) : LogCheckpointState :=
  set_tracked (List.filter (keeps_checkpoint matched deselected_ observed_at) (tracked state)) state.
End Prune.

(** * The working set of a pass *)

(** [working], [taken_real], [new_count] and [refused]. *)
Record Working := mk_working {
  wk_paths : list string;
  wk_real : gset string;
  wk_new : Z;
  wk_refused : Z;
}.

Definition working_insert : string → list string → list string := set_insert String.compare.

(** The tracked files, those just deselected left out. *)
Definition start_working (tracked_ : list TrackedFileCheckpoint) (deselected_ : gset string) : Working :=
  mk_working
    (foldr working_insert []
       (tf_path <$> List.filter (λ e, negb (bool_decide (tf_path e ∈ deselected_))) tracked_))
    (list_to_set (checkpoint_real_path <$> tracked_)) 0 0.

Section WorkingSet.
Context `{FileMeta}.

(** [canonicalize(path)], the path itself when that fails. *)
Definition real_path_of (path : string) : M World string :=
  gets (λ w, match canonicalize path w with Ok p => p | Err _ => path end).

Fixpoint take_matched (max_files max_new_files : Z) (matched : list string) (wk : Working)
    : M World Working :=
  match matched with
  | [] => mret wk
  | path :: rest =>
      if mem path (wk_paths wk) then take_matched max_files max_new_files rest wk
      else if Z.leb max_files (Z.of_nat (length (wk_paths wk))) then
        mret (mk_working (wk_paths wk) (wk_real wk) (wk_new wk)
          (Z.of_nat (length (List.filter (λ p, negb (mem p (wk_paths wk))) matched))))
      else if Z.leb max_new_files (wk_new wk) then mret wk
      else
        real ← real_path_of path;
        if bool_decide (real ∈ wk_real wk) then take_matched max_files max_new_files rest wk
        else
          take_matched max_files max_new_files rest
            (mk_working (working_insert path (wk_paths wk)) ({[ real ]} ∪ wk_real wk) (wk_new wk + 1)
               (wk_refused wk))
  end.
End WorkingSet.

(** * A pass *)

(** What a pass changes as it goes; a failure on one file keeps it. *)
Record Pass `{Os} `{RecordSink} := mk_pass {
  ps_input : Input;
  ps_runtime : RuntimeState;
  ps_gate : UplinkGate;
  ps_budget : ReadLimits;
  ps_batch : FamilyBatch;
}.
Arguments mk_pass {_ _ _} _ _ _ _ _.

Section Family.
Context `{Host} `{!FileMeta} `{!SpoolEnv} `{LogContracts} `{!ContainerLookup} `{!LogCodecs}
  `{!RecordSink} `{!FilterContracts} `{!GlobSet}.
Context (config : FileInputConfig).

Definition on_host {A} (m : M World A) : M Pass A :=
  zoom ps_input (λ i p, mk_pass i (ps_runtime p) (ps_gate p) (ps_budget p) (ps_batch p)) (in_host m).

Definition on_gate {A} (f : UplinkGate * Z → A * (UplinkGate * Z)) : M Pass A := λ p,
  let '(a, (gate, next_seq)) := f (ps_gate p, next_seq (ps_input p)) in
  (Ok a, mk_pass (mk_input (uplink (ps_input p)) next_seq) (ps_runtime p) gate (ps_budget p)
           (ps_batch p)).

Definition on_state (f : LogCheckpointState → LogCheckpointState) : M Pass unit :=
  modify (λ p, mk_pass (ps_input p) (set_log_state (f (rt_log_state (ps_runtime p))) (ps_runtime p))
                 (ps_gate p) (ps_budget p) (ps_batch p)).

Definition on_batch (f : FamilyBatch → FamilyBatch) : M Pass unit :=
  modify (λ p, mk_pass (ps_input p) (ps_runtime p) (ps_gate p) (ps_budget p) (f (ps_batch p))).

Definition on_budget (f : ReadLimits → ReadLimits) : M Pass unit :=
  modify (λ p, mk_pass (ps_input p) (ps_runtime p) (ps_gate p) (f (ps_budget p)) (ps_batch p)).

(** [records_from_pending], its records taken into the batch. *)
Definition flush (pending : option PendingMultilineState) : M Pass unit :=
  admission ← on_gate (records_from_pending (cfg_multiline_mode config)
    (cfg_drop_if_contains config) pending);
  on_batch (fb_add (ad_records admission) (ad_dropped_noise admission)).

Definition spend (lines_ bytes_ : Z) (budget : ReadLimits) : ReadLimits :=
  mk_read_limits (max_line_bytes budget) (saturating_sub (rl_max_bytes budget) bytes_)
    (saturating_sub (rl_max_lines budget) lines_).

Definition exhausted (budget : ReadLimits) : bool :=
  Z.eqb (rl_max_lines budget) 0 || Z.eqb (rl_max_bytes budget) 0.

(** A read of [path] from [off] folded into records of [source], with the flush of an unfinished
    record that waited long enough; the two halves of [read_one_file] and [drain_rotated]. *)
Definition read_and_fold (path source : string) (off : Z) (pending : option PendingMultilineState)
    : M Pass (ReadFromOffset * option PendingMultilineState) :=
  limits ← gets ps_budget;
  read ← on_host (read_from_offset_async path off limits);
  on_batch (fb_count read);;
  observed_at ← gets (λ p, rt_observed_at (ps_runtime p));
  folded ← on_gate (records_from_read (cfg_multiline_mode config) (cfg_drop_if_contains config)
    observed_at source (lines read) pending);
  on_batch (fb_add (fr_records folded) (fr_dropped_noise folded));;
  let pending := fr_pending folded in
  if Nat.eqb (length (lines read)) 0
     && pending_should_flush (cfg_multiline_mode config) pending observed_at
  then flush pending;; mret (read, None)
  else mret (read, pending).

Definition drain_rotated (previous : TrackedFileCheckpoint) : M Pass bool :=
  let base := checkpoint_real_path previous in
  found ← on_host (find_rotated_path_async base previous);
  match found with
  | None => mret false
  | Some rotated_path =>
      let pending :=
        rebind_pending_source_on_rotate (tf_path previous) rotated_path (tf_pending previous) in
      on_state (λ s, relocate_checkpoint_path s previous rotated_path);;
      '(read, pending) ← read_and_fold rotated_path rotated_path (checkpoint_offset previous) pending;
      rotated_real ← on_host (real_path_of rotated_path);
      on_batch (λ b, fb_checkpoint (mk_family_checkpoint rotated_path rotated_real (identity read)
        (committed_end_offset read) pending) (fb_max_offset (committed_end_offset read) b));;
      on_budget (spend (Z.of_nat (length (lines read)))
        (saturating_sub (committed_end_offset read) (checkpoint_offset previous)));;
      mret true
  end.

(** The file is gone and no renamed one was found. *)
Definition flush_vanished (display : string) : M Pass unit :=
  entry ← gets (λ p, checkpoint_for_path (rt_log_state (ps_runtime p)) display);
  match entry with
  | None => mret tt
  | Some entry =>
      on_state (λ s, set_tracked (update_first (at_path display) (with_pending None) (tracked s)) s);;
      flush (tf_pending entry)
  end.

(** The file is there: where to resume, what to do with the old content, and the read. *)
Definition read_present (display : string) (first_scan : bool)
    (tracked_ : option TrackedFileCheckpoint) (current : ObservedFileIdentity) : M Pass unit :=
  real_path_ ← on_host (real_path_of display);
  let startup := if negb (is_some tracked_) && negb first_scan then Head
                 else cfg_startup_position config in
  let resume_base := match tracked_ with Some p => checkpoint_real_path p | None => real_path_ end in
  let previous_for_resume := (λ p, with_path (checkpoint_real_path p) p) <$> tracked_ in
  resume ← on_host (decide_resume_async resume_base current previous_for_resume startup);
  let pending := tracked_ ≫= tf_pending in
  pending ← (if rd_truncated resume then
               flush pending;; on_batch (fb_mark false true);; mret None
             else mret pending);
  pending ← (if rd_rotated resume then
               drained ← match tracked_ with Some p => drain_rotated p | None => mret false end;
               (if drained : bool then mret tt
                else
                  on_state (λ s, set_tracked
                    (List.filter (λ e, negb (at_path display e)) (tracked s)) s);;
                  flush pending);;
               on_batch (fb_mark true false);;
               mret None
             else mret pending);
  budget ← gets ps_budget;
  if exhausted budget then
    (if rd_rotated resume || rd_truncated resume then
       on_batch (fb_checkpoint (mk_family_checkpoint display real_path_ current 0 None))
     else mret tt)
  else
    '(read, pending) ← read_and_fold real_path_ display (start_offset_ resume) pending;
    on_batch (fb_max_offset (committed_end_offset read));;
    let unchanged := match tracked_ with
                     | Some p => Z.eqb (checkpoint_offset p) (committed_end_offset read)
                                 && bool_decide (tf_pending p = pending)
                                 && String.eqb (checkpoint_real_path p) real_path_
                     | None => false
                     end in
    (if negb unchanged then
       on_batch (fb_checkpoint (mk_family_checkpoint display real_path_ (identity read)
         (committed_end_offset read) pending))
     else mret tt);;
    on_budget (spend (Z.of_nat (length (lines read)))
      (saturating_sub (committed_end_offset read) (start_offset_ resume))).

Definition read_one_file (display : string) (first_scan : bool) : M Pass unit :=
  tracked_ ← gets (λ p, checkpoint_for_path (rt_log_state (ps_runtime p)) display);
  current ← try (on_host (inspect_path_async display));
  match current with
  | Ok current => read_present display first_scan tracked_ current
  | Err err =>
      if decide (io_kind err = NotFound) then
        match tracked_ with
        | None => mret tt
        | Some previous =>
            drained ← drain_rotated previous;
            if drained : bool then mret tt else flush_vanished display
        end
      else throw err
  end.

Fixpoint read_files (working : list string) (first_scan : bool) : M Pass unit :=
  match working with
  | [] => mret tt
  | display :: rest =>
      budget ← gets ps_budget;
      if exhausted budget then mret tt
      else
        r ← try (read_one_file display first_scan);
        match r with
        | Ok _ => mret tt
        | Err err => on_batch (fb_fail err)
        end;;
        read_files rest first_scan
  end.

(** ** Collecting *)

(** The scan of this pass, when one is due: what it selects, and whether it ran. *)
Definition scan_family : M Pass (FamilySelection * bool) :=
  state ← gets (λ p, rt_log_state (ps_runtime p));
  let target := cfg_source_path config in
  dir ← on_host (r ← try (fs_metadata target);
                 match r with Ok _ => gets (is_dir target) | Err _ => mret false end);
  now_ms ← on_host (gets clock);
  let is_family := has_glob target || (dir : bool) in
  let should_scan :=
    negb is_family
    || match last_scan_ms state with
       | None => true
       | Some last => Z.leb (cfg_rescan_interval_ms config) (i64_saturating_sub now_ms last)
       end in
  if should_scan then
    selection ← on_host (resolve_family_paths target (cfg_exclude_globs config) (cfg_filters config)
      (Z.to_nat (Z.max (usize_saturating_mul (cfg_max_files config) 4) 1024)));
    on_state (set_last_scan (Some now_ms));;
    mret (selection, true)
  else mret (FamilySelection_none, false).

Definition capacity_of (wk : Working) : option FamilyCapacity :=
  if Z.ltb 0 (wk_refused wk)
  then Some (mk_capacity (Z.of_nat (length (wk_paths wk))) (cfg_max_files config) (wk_refused wk))
  else None.

Definition collect_family_batch (orphan_pending : option PendingMultilineState) : M Pass unit :=
  flush orphan_pending;;
  state ← gets (λ p, rt_log_state (ps_runtime p));
  let first_scan := is_empty (tracked state) && negb (is_some (last_scan_ms state)) in
  '(selection, should_scan) ← scan_family;
  working ← on_host (take_matched (cfg_max_files config) (cfg_max_new_files config)
    (selected selection) (start_working (tracked state) (deselected selection)));
  on_batch (fb_selection (sel_filtered selection) (sel_identity_unknown selection)
    (capacity_of working));;
  on_budget (λ _, cfg_read_limits config);;
  read_files (wk_paths working) first_scan;;
  observed_at ← gets (λ p, rt_observed_at (ps_runtime p));
  (if should_scan : bool then
     on_state (prune_family_state (list_to_set (selected selection)) (deselected selection)
       observed_at)
   else mret tt);;
  gate ← gets ps_gate;
  on_batch (fb_finish (withheld gate)).

(** Runs the collection and takes its batch and the state it left out. *)
Definition run_pass (runtime : RuntimeState) (orphan : option PendingMultilineState)
    : M Input (FamilyBatch * RuntimeState) := λ i,
  let gate := UplinkGate_new (cfg_agent_id config) (rt_observed_at runtime) (cfg_input_id config)
    (cfg_origin config) in
  let '(r, p) := collect_family_batch orphan
    (mk_pass i runtime gate (cfg_read_limits config) FamilyBatch_new) in
  (match r with Ok _ => Ok (ps_batch p, ps_runtime p) | Err e => Err e end, ps_input p).

(** ** Committing *)

Fixpoint commit_family_checkpoints (observed_at : string) (state : LogCheckpointState)
    (checkpoints : list FamilyCheckpoint) : M World LogCheckpointState :=
  match checkpoints with
  | [] => mret state
  | c :: checkpoints =>
      state ← upsert_checkpoint_async state (fk_display_path c) (fk_identity c)
        (mk_update (fk_offset c) observed_at (fk_real_path c) (fk_pending c) None);
      commit_family_checkpoints observed_at state checkpoints
  end.

Definition commit_family_state (runtime : RuntimeState) (checkpoints : list FamilyCheckpoint)
    (before : LogCheckpointState) : M World unit :=
  state ← commit_family_checkpoints (rt_observed_at runtime) (rt_log_state runtime) checkpoints;
  let state := set_pending None state in
  if decide (state = before) then mret tt
  else log_checkpoints.store_async (rt_checkpoint_path runtime)
         (set_updated_at (rt_observed_at runtime) state).

Definition family_outcome (batch : FamilyBatch) (delivery : DeliveryOutcome) (replayed : nat)
    : ProcessOutcome :=
  mk_outcome SourceBatch (records_processed delivery) (emitted_directly delivery)
    (spooled delivery) (sink_error delivery) (fb_offset batch) replayed (fb_truncated batch)
    (fb_truncated_lines batch) (fb_read_lines batch) (fb_withheld batch) (fb_dropped_noise batch)
    (fb_selection_filtered batch) (fb_identity_unknown batch) (fb_rotated batch) false 0
    (fb_capacity batch).

(** The part of a pass after the replay. *)
Definition family_batch (runtime : RuntimeState) (orphan : option PendingMultilineState)
    (before : LogCheckpointState) : M Input ProcessOutcome :=
  '(batch, runtime) ← run_pass runtime orphan;
  delivery ← in_uplink (deliver_records (cfg_spool_path config)
    (cfg_in_memory_budget_bytes config) (fb_records batch));
  (if Z.ltb 0 (records_processed delivery) then
     n ← gets next_seq;
     in_host (log_seq_state.store_async (log_seq_state.path_for (cfg_state_dir config)) n)
   else mret tt);;
  in_host (commit_family_state runtime (fb_checkpoints batch) before);;
  match fb_failure batch with
  | Some err => throw err
  | None => mret (family_outcome batch delivery (rt_replayed_spool runtime))
  end.

Definition family_process_once_async : M Input ProcessOutcome :=
  runtime ← in_host (load_runtime_state_async config);
  let before := rt_log_state runtime in
  let '(state, orphan_pending) := migrate_input_pending_to_files before in
  let runtime := set_log_state state runtime in
  replay ← try (in_uplink (replay_spool_if_present (cfg_spool_path config) SPOOL_REPLAY_BATCH_SIZE));
  match replay with
  | Ok replayed => family_batch (set_replayed replayed runtime) orphan_pending before
  | Err err =>
      paused ← in_host (paused_outcome_async config (Some err));
      match paused with
      | Some paused => mret paused
      | None => throw err
      end
  end.
End Family.

(** * The working set *)
Section WorkingLemmas.
Context `{FileMeta}.
Implicit Types (w : World) (p q : string) (wk : Working).

Definition resolve w p : string := match canonicalize p w with Ok r => r | Err _ => p end.

Lemma string_compare_eq p q : String.compare p q = Eq → p = q.
Proof. apply String.compare_eq_iff. Qed.

Lemma elem_of_working_insert x l p : p ∈ working_insert x l ↔ p = x ∨ p ∈ l.
Proof. by apply elem_of_set_insert, string_compare_eq. Qed.

Lemma elem_of_start tracked_ deselected_ p :
  p ∈ wk_paths (start_working tracked_ deselected_) ↔
  (p ∉ deselected_) ∧ ∃ e, e ∈ tracked_ ∧ tf_path e = p.
Proof.
  unfold start_working. cbn [wk_paths]. induction tracked_ as [|e l IH]; [set_solver|].
  cbn [List.filter]. destruct (bool_decide (tf_path e ∈ deselected_)) eqn:E; cbn [negb].
  - apply bool_decide_eq_true in E. rewrite IH. set_solver.
  - apply bool_decide_eq_false in E. cbn [fmap list_fmap foldr]. rewrite elem_of_working_insert, IH.
    set_solver.
Qed.

(** What taking the matched paths adds to a working set. *)
Record takes (max_files max_new : Z) (matched : list string) w wk wk' : Prop := {
  tk_keeps : ∀ p, p ∈ wk_paths wk → p ∈ wk_paths wk';
  tk_from : ∀ p, p ∈ wk_paths wk' → p ∈ wk_paths wk ∨ p ∈ matched ∧ resolve w p ∉ wk_real wk;
  tk_once : ∀ p q, p ∈ wk_paths wk' → q ∈ wk_paths wk' → p ∉ wk_paths wk → q ∉ wk_paths wk →
    resolve w p = resolve w q → p = q;
  tk_real : ∀ r, r ∈ wk_real wk' ↔ r ∈ wk_real wk ∨ ∃ p, p ∈ wk_paths wk' ∧ (p ∉ wk_paths wk) ∧
    resolve w p = r;
  tk_length : Z.of_nat (length (wk_paths wk')) =
    (Z.of_nat (length (wk_paths wk)) + (wk_new wk' - wk_new wk))%Z;
  tk_new : (wk_new wk ≤ wk_new wk' ≤ Z.max (wk_new wk) max_new)%Z;
  tk_files : (Z.of_nat (length (wk_paths wk')) ≤ Z.max (Z.of_nat (length (wk_paths wk))) max_files)%Z;
  tk_all : (wk_new wk' < max_new → Z.of_nat (length (wk_paths wk')) < max_files →
    ∀ p, p ∈ matched → p ∈ wk_paths wk' ∨ resolve w p ∈ wk_real wk')%Z;
  tk_refused : wk_refused wk = 0%Z → wk_refused wk' ≠ 0%Z →
    (max_files ≤ Z.of_nat (length (wk_paths wk')))%Z;
}.

Lemma take_matched_run max_files max_new matched wk w r w' :
  take_matched max_files max_new matched wk w = (r, w') →
  w' = w ∧ ∃ wk', r = Ok wk' ∧ takes max_files max_new matched w wk wk'.
Proof.
  assert (Hsame : ∀ (l : list string) k (n : Z), (l ≠ [] →
      (max_files ≤ Z.of_nat (length (wk_paths k)) ∨ max_new ≤ wk_new k)%Z) →
    (n ≠ wk_refused k → max_files ≤ Z.of_nat (length (wk_paths k)))%Z →
    takes max_files max_new l w k (mk_working (wk_paths k) (wk_real k) (wk_new k) n)).
  { intros l k n Hl Hn. split; cbn [wk_paths wk_real wk_new wk_refused]; try done; try lia.
    - by left.
    - intros r0. split; [by left|]. intros [|(p & ? & ? & _)]; done.
    - intros ?? p Hp. destruct l; [by apply elem_of_nil in Hp|]. destruct (Hl ltac:(done)); lia. }
  revert wk. induction matched as [|path rest IH]; intros wk Hr; cbn [take_matched] in Hr.
  { injection Hr as <- <-. split; [done|]. exists wk. split; [done|].
    destruct wk as [a b c d]. by apply (Hsame [] (mk_working a b c d) d). }
  destruct (mem path (wk_paths wk)) eqn:Em.
  { apply mem_spec in Em. apply IH in Hr as (-> & wk' & -> & T). split; [done|]. exists wk'.
    split; [done|]. destruct T. split; try done.
    - intros p Hp. destruct (tk_from0 p Hp) as [|[? ?]]; [by left|right]. split; [by right|done].
    - intros ?? p [->|Hp]%elem_of_cons; [left; auto|auto]. }
  destruct (Z.leb_spec max_files (Z.of_nat (length (wk_paths wk)))).
  { injection Hr as <- <-. split; [done|]. eexists. split; [reflexivity|]. apply Hsame; auto. }
  destruct (Z.leb_spec max_new (wk_new wk)).
  { injection Hr as <- <-. split; [done|]. exists wk. split; [done|].
    destruct wk as [a b c d]. apply (Hsame _ (mk_working a b c d) d); [by right|done]. }
  unfold real_path_of at 1 in Hr. rewrite (bind_ok _ _ _ (resolve w path) w) in Hr by done.
  assert (Hpath : path ∉ wk_paths wk).
  { intros Hp%mem_spec. congruence. }
  case_bool_decide as Ht.
  { apply IH in Hr as (-> & wk' & -> & T). split; [done|]. exists wk'. split; [done|].
    destruct T. split; try done.
    - intros p Hp. destruct (tk_from0 p Hp) as [|[? ?]]; [by left|right]. split; [by right|done].
    - intros ?? p [->|Hp]%elem_of_cons; [right; apply tk_real0; by left|auto]. }
  apply IH in Hr as (-> & wk' & -> & T). split; [done|]. exists wk'. split; [done|].
  destruct T. cbn [wk_paths wk_real wk_new wk_refused] in *.
  assert (Hin : path ∈ wk_paths wk') by (apply tk_keeps0, elem_of_working_insert; by left).
  assert (Hnew : ∀ p, p ∈ wk_paths wk' → p ∉ wk_paths wk → p = path ∨
    (p ∉ working_insert path (wk_paths wk)) ∧ resolve w p ≠ resolve w path).
  { intros p Hp Hn. destruct (decide (p = path)) as [|Hne]; [by left|right].
    destruct (tk_from0 p Hp) as [[?|?]%elem_of_working_insert|[_ Hr]]; [done|done|].
    split; [rewrite elem_of_working_insert; naive_solver|]. set_solver. }
  unfold working_insert in tk_length0, tk_files0 at 1.
  rewrite (set_insert_length_new _ _ _ string_compare_eq Hpath) in tk_length0. split.
  - intros p Hp. apply tk_keeps0, elem_of_working_insert. by right.
  - intros p Hp. destruct (tk_from0 p Hp) as [[->|?]%elem_of_working_insert|[? ?]].
    + right. split; [by left|done].
    + by left.
    + right. split; [by right|]. set_solver.
  - intros p q Hp Hq Hpn Hqn He.
    destruct (Hnew p Hp Hpn) as [->|[Hp1 Hp2]], (Hnew q Hq Hqn) as [->|[Hq1 Hq2]]; try congruence.
    by apply tk_once0.
  - intros r0. rewrite tk_real0, elem_of_union, elem_of_singleton. split.
    + intros [[->|?]|(p & Hp & Hn & <-)]; [right; by exists path|by left|].
      right. exists p. split; [done|]. split; [|done]. intros ?. apply Hn, elem_of_working_insert. by right.
    + intros [?|(p & Hp & Hn & <-)]; [left; by right|].
      destruct (Hnew p Hp Hn) as [->|[Hp1 _]]; [left; by left|right; by exists p].
  - lia.
  - lia.
  - unfold working_insert in tk_files0.
    rewrite (set_insert_length_new _ _ _ string_compare_eq Hpath) in tk_files0. lia.
  - intros ?? p [->|Hp]%elem_of_cons; [by left|auto].
  - done.
Qed.
End WorkingLemmas.

(** * What a pass keeps while it collects *)
Section PassLemmas.
Context `{Host} `{!FileMeta} `{!SpoolEnv} `{LogContracts} `{!ContainerLookup} `{!LogCodecs}
  `{!RecordSink} `{!FilterContracts} `{!GlobSet}.
Context (config : FileInputConfig).
Implicit Types (p : Pass).

(** Collecting reads: it takes sequence numbers, and nothing else outside the pass changes. *)
Definition same_pass p p' : Prop :=
  uplink (ps_input p') = uplink (ps_input p) ∧
  rt_checkpoint_path (ps_runtime p') = rt_checkpoint_path (ps_runtime p).

#[export] Instance same_pass_preorder : PreOrder same_pass.
Proof. split; [done|]. unfold same_pass. intros ??? [-> ->] [-> ->]. done. Qed.

Lemma on_host_run {A} (m : M World A) p r p' : on_host m p = (r, p') →
  ∃ w', m (world (uplink (ps_input p))) = (r, w') ∧
    p' = mk_pass (mk_input (mk_uplink w' (sink (uplink (ps_input p)))) (next_seq (ps_input p)))
           (ps_runtime p) (ps_gate p) (ps_budget p) (ps_batch p).
Proof.
  unfold on_host, zoom. destruct (in_host m (ps_input p)) as [r0 i'] eqn:E.
  intros [= <- <-]. apply in_host_run in E as (w' & E & ->). eauto.
Qed.

Lemma on_host_keeps {A} (m : M World A) p r p' : respects eq m → on_host m p = (r, p') → p' = p.
Proof.
  intros Hm (w' & E & ->)%on_host_run. specialize (Hm (world (uplink (ps_input p)))).
  rewrite E in Hm. cbn in Hm. subst w'. by destruct p as [[[] ?] ? ? ? ?].
Qed.

Lemma on_host_respects {A} (R : relation Pass) `{!PreOrder R} (m : M World A) :
  respects eq m → respects R (on_host m).
Proof.
  intros Hm p. destruct (on_host m p) as [r p'] eqn:E. by apply on_host_keeps in E as ->.
Qed.

Lemma on_gate_same {A} (f : UplinkGate * Z → A * (UplinkGate * Z)) : respects same_pass (on_gate f).
Proof. intros p. unfold on_gate. by destruct (f _) as [a [g n]]. Qed.
Lemma on_state_same f : respects same_pass (on_state f).
Proof. by intros p. Qed.
Lemma on_batch_same f : respects same_pass (on_batch f).
Proof. by intros p. Qed.
Lemma on_budget_same f : respects same_pass (on_budget f).
Proof. by intros p. Qed.

Lemma real_path_ro q : respects eq (real_path_of q).
Proof. by intros w. Qed.

Lemma take_matched_ro mf mn l wk : respects eq (take_matched mf mn l wk).
Proof. intros w. destruct (take_matched mf mn l wk w) as [r w'] eqn:E. by apply take_matched_run in E as [-> _]. Qed.

#[local] Hint Resolve on_gate_same on_state_same on_batch_same on_budget_same : respects.
#[local] Hint Extern 2 (respects _ (on_host _)) =>
  apply on_host_respects; [apply _|first [apply (inspect_respects eq) | apply (decide_resume_respects eq)
    | apply (find_rotated_respects eq) | apply (read_from_offset_respects eq) | apply real_path_ro
    | apply resolve_ro | apply take_matched_ro]] : respects.

Lemma flush_same pending : respects same_pass (flush config pending).
Proof. unfold flush. solve_respects. Qed.
#[local] Hint Resolve flush_same : respects.

Lemma read_and_fold_same path source off pending :
  respects same_pass (read_and_fold config path source off pending).
Proof. unfold read_and_fold. solve_respects. Qed.
#[local] Hint Resolve read_and_fold_same : respects.

Lemma drain_rotated_same previous : respects same_pass (drain_rotated config previous).
Proof. unfold drain_rotated. solve_respects. Qed.
#[local] Hint Resolve drain_rotated_same : respects.

Lemma read_one_file_same display first_scan : respects same_pass (read_one_file config display first_scan).
Proof. unfold read_one_file, read_present, flush_vanished. solve_respects. Qed.

Lemma read_files_same working first_scan : respects same_pass (read_files config working first_scan).
Proof.
  induction working as [|d l IH]; cbn [read_files]; [by apply respects_ret, _|].
  apply respects_bind; [apply _|by apply respects_gets, _|intros b].
  destruct (exhausted b); [by apply respects_ret, _|].
  apply respects_bind; [apply _|by apply respects_try, read_one_file_same|intros r].
  apply respects_bind; [apply _|solve_respects|done].
Qed.

Lemma collect_family_same orphan : respects same_pass (collect_family_batch config orphan).
Proof.
  unfold collect_family_batch, scan_family.
  assert (Hdir : respects eq (r ← try (fs_metadata (cfg_source_path config));
    match r with Ok _ => gets (is_dir (cfg_source_path config)) | Err _ => mret false end))
    by solve_respects.
  assert (Hnow : respects eq (gets (S := World) clock)) by by apply respects_gets, _.
  pose proof (on_host_respects same_pass _ Hdir) as Hdir'.
  pose proof (on_host_respects same_pass _ Hnow) as Hnow'.
  pose proof read_files_same. solve_respects.
Qed.
End PassLemmas.

(** * A pass, step by step *)
Section FamilyRuns.
Context `{Host} `{!FileMeta} `{!SpoolEnv} `{!SpoolLaws} `{LogContracts} `{!LogLaws}
  `{!ContainerLookup} `{!LogCodecs} `{!RecordSink} `{!RecordSinkLaws} `{!FilterContracts} `{!GlobSet}.
Context (config : FileInputConfig).
Implicit Types (i : Input).

Lemma run_pass_run runtime orphan i r i' : run_pass config runtime orphan i = (r, i') →
  uplink i' = uplink i ∧
  ∀ batch runtime', r = Ok (batch, runtime') → rt_checkpoint_path runtime' = rt_checkpoint_path runtime.
Proof.
  unfold run_pass. destruct (collect_family_batch config orphan _) as [r0 p'] eqn:E.
  apply (respects_run _ _ _ _ _ (collect_family_same config orphan)) in E as [Hu Hc].
  cbn [ps_input ps_runtime] in *. intros [= <- <-]. split; [done|]. by destruct r0; intros ?? [= <- <-].
Qed.

Lemma commit_family_checkpoints_run at_ state cs w :
  ∃ st, commit_family_checkpoints at_ state cs w = (Ok st, w).
Proof.
  revert state. induction cs as [|c cs IH]; intros state; cbn [commit_family_checkpoints]; [by eexists|].
  destruct (upsert_run state (fk_display_path c) (fk_identity c)
    (mk_update (fk_offset c) at_ (fk_real_path c) (fk_pending c) None) w) as (id_ & probe & E).
  rewrite (bind_ok _ _ _ _ _ E). apply IH.
Qed.

(** The state a family commits: the checkpoints of the batch, on disk unless nothing changed. *)
Definition wrote_family (runtime : RuntimeState) (batch : FamilyBatch) (before : LogCheckpointState)
    w0 w : Prop :=
  ∃ st, commit_family_checkpoints (rt_observed_at runtime) (rt_log_state runtime)
      (fb_checkpoints batch) w0 = (Ok st, w0) ∧ set_pending None st ≠ before ∧
    doc (checkpoint_path config) (set_updated_at (rt_observed_at runtime) (set_pending None st)) w.

Lemma commit_family_writes runtime batch before : storable (checkpoint_path config) →
  rt_checkpoint_path runtime = checkpoint_path config →
  let commit := commit_family_state runtime (fb_checkpoints batch) before in
  respects (only_files (store_paths (checkpoint_path config))) commit ∧
  (∀ w r w', commit w = (r, w') →
     files w' !! checkpoint_path config = files w !! checkpoint_path config ∨
     wrote_family runtime batch before w w').
Proof.
  intros Hst Hpath commit.
  assert (Hrun : ∀ w r w', commit w = (r, w') → w' = w ∨ ∃ st,
    commit_family_checkpoints (rt_observed_at runtime) (rt_log_state runtime) (fb_checkpoints batch)
      w = (Ok st, w) ∧ set_pending None st ≠ before ∧
    log_checkpoints.store_async (checkpoint_path config)
      (set_updated_at (rt_observed_at runtime) (set_pending None st)) w = (r, w')).
  { intros w r w' E. unfold commit, commit_family_state in E.
    destruct (commit_family_checkpoints_run (rt_observed_at runtime) (rt_log_state runtime)
      (fb_checkpoints batch) w) as [st Est].
    rewrite (bind_ok _ _ _ _ _ Est), Hpath in E. case_decide as Hd; [injection E as _ <-; by left|].
    right. by exists st. }
  split.
  - intros w. destruct (commit w) as [r w'] eqn:E. apply Hrun in E as [->|(st & _ & _ & E)]; [done|].
    by apply (respects_run _ _ _ _ _ (write_json_respects _ _ _ (λ q Hq, Hq)) E).
  - intros w r w' [->|(st & Est & Hne & E)]%Hrun; [by left|].
    destruct (write_json_either _ _ _ _ _ Hst E) as [|Hnew]; [by left|right].
    exists st. split; [done|]. split; [done|]. eexists. split; [exact Hnew|]. apply from_to_json.
Qed.

Lemma family_batch_split runtime orphan before i : family_batch config runtime orphan before i =
  ('(batch, runtime) ← run_pass config runtime orphan;
   delivery ← deliver_then config (fb_records batch)
     (commit_family_state runtime (fb_checkpoints batch) before);
   match fb_failure batch with
   | Some err => throw err
   | None => mret (family_outcome batch delivery (rt_replayed_spool runtime))
   end) i.
Proof.
  unfold family_batch. apply bind_ext. intros [batch rt] i1. unfold deliver_then.
  rewrite !bind_assoc. apply bind_ext. intros d i2. rewrite !bind_assoc. apply bind_ext. intros [] i3.
  by rewrite !bind_assoc.
Qed.
End FamilyRuns.

(** * The budget of a pass *)
Section Budget.
Context `{Host} `{!FileMeta} `{!SpoolEnv} `{LogContracts} `{!ContainerLookup} `{!LogCodecs}
  `{!RecordSink} `{!FilterContracts} `{!GlobSet}.
Context (config : FileInputConfig).
Implicit Types (p : Pass).

(** Neither the budget nor the count of lines moved. *)
Definition same_count p p' : Prop :=
  ps_budget p' = ps_budget p ∧ fb_read_lines (ps_batch p') = fb_read_lines (ps_batch p).

#[export] Instance same_count_preorder : PreOrder same_count.
Proof. split; [done|]. unfold same_count. intros ??? [-> ->] [-> ->]. done. Qed.

(** What was read and what may still be read stay within [limit] lines. *)
Definition fits (limit : Z) p : Prop :=
  (1 ≤ max_line_bytes (ps_budget p) ∧ 0 ≤ rl_max_bytes (ps_budget p) ∧
   0 ≤ rl_max_lines (ps_budget p) ∧ 0 ≤ fb_read_lines (ps_batch p) ∧
   fb_read_lines (ps_batch p) + rl_max_lines (ps_budget p) ≤ limit)%Z.

Lemma fits_same limit p p' : same_count p p' → fits limit p → fits limit p'.
Proof. unfold fits. by intros [-> ->]. Qed.

Lemma on_gate_count {A} (f : UplinkGate * Z → A * (UplinkGate * Z)) : respects same_count (on_gate f).
Proof. intros p. unfold on_gate. by destruct (f _) as [a [g n]]. Qed.
Lemma on_state_count f : respects same_count (on_state f).
Proof. by intros p. Qed.
Lemma on_batch_count f : (∀ b, fb_read_lines (f b) = fb_read_lines b) → respects same_count (on_batch f).
Proof. intros Hf p. split; [done|apply Hf]. Qed.

#[local] Hint Resolve on_gate_count on_state_count : respects.
#[local] Hint Extern 2 (respects same_count (on_batch _)) => apply on_batch_count; done : respects.
#[local] Hint Extern 2 (respects _ (on_host _)) =>
  apply on_host_respects; [apply _|first [apply (inspect_respects eq) | apply (decide_resume_respects eq)
    | apply (find_rotated_respects eq) | apply (read_from_offset_respects eq) | apply real_path_ro
    | apply resolve_ro | apply take_matched_ro]] : respects.

Lemma flush_count pending : respects same_count (flush config pending).
Proof. unfold flush. solve_respects. Qed.
#[local] Hint Resolve flush_count : respects.

(** A read counts its lines, at most as many as the budget has. *)
Lemma read_and_fold_count path source off pending p r p' limit : fits limit p →
  exhausted (ps_budget p) = false → read_and_fold config path source off pending p = (r, p') →
  ps_budget p' = ps_budget p ∧
  match r with
  | Ok (rd, _) => (fb_read_lines (ps_batch p') =
      fb_read_lines (ps_batch p) + Z.of_nat (length (lines rd)) ∧
      Z.of_nat (length (lines rd)) ≤ rl_max_lines (ps_budget p))%Z
  | Err _ => fb_read_lines (ps_batch p') = fb_read_lines (ps_batch p)
  end.
Proof.
  intros (Hb1 & Hb2 & Hb3 & _) Hex Hr. apply orb_false_iff in Hex as [Hx1%Z.eqb_neq Hx2%Z.eqb_neq].
  unfold read_and_fold in Hr. apply bind_inv in Hr as [(? & ? & _)|(limits & p0 & El & Hr)]; [done|].
  injection El as <- <-.
  assert (Hro : respects eq (read_from_offset_async path off (ps_budget p)))
    by apply read_from_offset_respects, _.
  apply bind_inv in Hr as [(e & E & ->)|(rd & p1 & E & Hr)]; pose proof E as ->%on_host_keeps; try done.
  apply on_host_run in E as (w' & E & _). apply read_from_offset_reads in E as (_ & c & raws & tail & _ & _ & T);
    [|unfold sane_limits; lia].
  assert (Hlen : (Z.of_nat (length (lines rd)) ≤ rl_max_lines (ps_budget p))%Z).
  { rewrite (rt_lines _ _ _ _ _ _ T), render_length.
    destruct (decide (raws = [])) as [->|Hne]; [cbn; lia|]. by apply (rt_count _ _ _ _ _ _ T). }
  apply bind_inv in Hr as [(? & ? & _)|([] & p2 & E2 & Hr)]; [done|]. injection E2 as <-.
  match type of Hr with ?m ?s = _ => assert (Hs : respects same_count m) by solve_respects;
    pose proof (respects_run _ _ _ _ _ Hs Hr) as [Hbud Hcnt]; clear Hs end.
  cbn [ps_budget ps_batch fb_count fb_read_lines] in Hbud, Hcnt. split; [done|].
  assert (Hrd : ∀ a, r = Ok a → a.1 = rd).
  { intros a ->. apply bind_ok_inv in Hr as (o & p3 & _ & Hr).
    apply bind_ok_inv in Hr as (fo & p4 & _ & Hr). apply bind_ok_inv in Hr as ([] & p5 & _ & Hr).
    destruct (_ && _); [apply bind_ok_inv in Hr as ([] & p6 & _ & Hr)|]; by injection Hr as <- _. }
  destruct r as [[rd' pe]|e].
  - specialize (Hrd _ eq_refl). cbn in Hrd. subst rd'. by rewrite Hcnt.
  - exfalso. apply bind_inv in Hr as [(? & ? & _)|(o & p3 & _ & Hr)]; [done|].
    apply bind_inv in Hr as [(e' & Hg & _)|(fo & p4 & _ & Hr)].
    { unfold on_gate in Hg. by destruct (records_from_read _ _ _ _ _ _ _) as [? [? ?]]. }
    apply bind_inv in Hr as [(? & ? & _)|([] & p5 & _ & Hr)]; [done|].
    destruct (_ && _); [|done]. apply bind_inv in Hr as [(e' & Hg & _)|([] & p6 & _ & Hr)]; [|done].
    unfold flush in Hg. apply bind_inv in Hg as [(? & Hg & _)|(ad & p7 & _ & Hg)]; [|done].
    unfold on_gate in Hg. by destruct (records_from_pending _ _ _ _) as [? [? ?]].
Qed.

(** A read, then steps that count nothing, then its lines are spent. *)
Lemma spend_fits limit n k p p' : (0 ≤ n ≤ rl_max_lines (ps_budget p))%Z → fits limit p →
  ps_budget p' = ps_budget p → fb_read_lines (ps_batch p') = (fb_read_lines (ps_batch p) + n)%Z →
  fits limit (mk_pass (ps_input p') (ps_runtime p') (ps_gate p') (spend n k (ps_budget p')) (ps_batch p')).
Proof.
  intros Hn (H1' & H2' & H3' & H4' & H5') Hb Hc. unfold fits, spend, saturating_sub.
  cbn [ps_budget ps_batch rl_max_bytes rl_max_lines max_line_bytes]. rewrite Hb, Hc. lia.
Qed.

(** Both reads end alike: steps that count nothing and cannot fail, then what was read is spent. *)
Lemma read_then_spend path source off pending p r p' limit
    (k : Z → Z) (f : ReadFromOffset → option PendingMultilineState → M Pass unit) :
  fits limit p → exhausted (ps_budget p) = false →
  (∀ rd pe q, ∃ q', f rd pe q = (Ok tt, q') ∧ same_count q q') →
  ('(rd, pe) ← read_and_fold config path source off pending;
   f rd pe;;
   on_budget (spend (Z.of_nat (length (lines rd))) (k (committed_end_offset rd)))) p = (r, p') →
  fits limit p'.
Proof.
  intros Hfit Hex Hf Hr.
  apply bind_inv in Hr as [(e & E & ->)|([rd pe] & p1 & E & Hr)];
    pose proof (read_and_fold_count _ _ _ _ _ _ _ _ Hfit Hex E) as [Hb Hc].
  { by apply (fits_same limit p). }
  destruct (Hf rd pe p1) as (p2 & E2 & Hb2 & Hc2). rewrite (bind_ok _ _ _ _ _ E2) in Hr.
  injection Hr as _ <-. destruct Hc as [Hc Hn].
  apply (spend_fits limit _ _ p); [lia|done|by rewrite Hb2|by rewrite Hc2].
Qed.

Lemma drain_rotated_fits limit previous p r p' : fits limit p → exhausted (ps_budget p) = false →
  drain_rotated config previous p = (r, p') → fits limit p'.
Proof.
  intros Hfit Hex Hr. unfold drain_rotated in Hr.
  apply bind_inv in Hr as [(e & E & ->)|(found & p1 & E & Hr)];
    apply on_host_keeps in E as ->; try apply (find_rotated_respects eq); [done|].
  destruct found as [q|]; [|by injection Hr as _ <-].
  apply bind_inv in Hr as [(e & E & _)|([] & p2 & E & Hr)]; [done|].
  assert (Hfit2 : fits limit p2) by (by injection E as <-).
  assert (Hex2 : exhausted (ps_budget p2) = false) by (by injection E as <-).
  set (f := λ (read : ReadFromOffset) (pending : option PendingMultilineState),
    rotated_real ← on_host (real_path_of q);
    on_batch (λ b, fb_checkpoint (mk_family_checkpoint q rotated_real (identity read)
      (committed_end_offset read) pending) (fb_max_offset (committed_end_offset read) b))).
  match type of Hr with ((read_and_fold _ _ _ _ ?x) ≫= _) _ = _ =>
    destruct (('(rd, pe) ← read_and_fold config q q (checkpoint_offset previous) x;
      f rd pe;; on_budget (spend (Z.of_nat (length (lines rd)))
        (saturating_sub (committed_end_offset rd) (checkpoint_offset previous)))) p2)
      as [r3 p3] eqn:E3 end.
  assert (Hp : p' = p3).
  { revert Hr E3. unfold mbind, M_bind, f. destruct (read_and_fold _ _ _ _ _ _) as [[[rd pe]|] p4];
      [|by intros [= _ <-] [= _ <-]]. unfold on_host, real_path_of, in_host, in_uplink, in_world, zoom, gets, mbind, M_bind, on_batch, on_budget, modify, mret, M_ret.
    by intros [= _ <-] [= _ <-]. }
  subst p'. apply (read_then_spend q q _ _ _ _ _ limit (λ c, saturating_sub c (checkpoint_offset previous)) f)
    in E3; [done..|]. intros rd pe a. eexists. split; [reflexivity|]. done.
Qed.

Lemma read_present_fits limit display first_scan tracked_ current p r p' : fits limit p →
  exhausted (ps_budget p) = false →
  read_present config display first_scan tracked_ current p = (r, p') → fits limit p'.
Proof.
  intros Hfit Hex Hr. unfold read_present in Hr.
  apply bind_inv in Hr as [(e & E & ->)|(real & p1 & E & Hr)];
    apply on_host_keeps in E as ->; try apply real_path_ro; [done|].
  apply bind_inv in Hr as [(e & E & ->)|(resume & p1 & E & Hr)];
    apply on_host_keeps in E as ->; try apply (decide_resume_respects eq); [done|].
  match type of Hr with (?m ≫= _) _ = _ => assert (Hs : respects same_count m) by solve_respects end.
  apply bind_inv in Hr as [(e & E & ->)|(pe1 & p1 & E & Hr)];
    pose proof (respects_run _ _ _ _ _ Hs E) as Hs1; clear Hs E; [by eapply fits_same|].
  assert (Hfit1 : fits limit p1) by by eapply fits_same.
  assert (Hex1 : exhausted (ps_budget p1) = false) by (by destruct Hs1 as [-> _]).
  clear Hs1 Hfit Hex p.
  match type of Hr with (?m ≫= _) _ = _ => destruct (m p1) as [r2 p2] eqn:E end.
  assert (Hfit2 : fits limit p2).
  { destruct (rd_rotated resume); [|by injection E as _ <-].
    match type of E with (?m ≫= _) _ = _ => destruct (m p1) as [rd pd] eqn:Ed end.
    assert (Hfitd : fits limit pd).
    { destruct tracked_; [by eapply drain_rotated_fits|by injection Ed as _ <-]. }
    destruct rd as [drained|e]; [rewrite (bind_ok _ _ _ _ _ Ed) in E|
      rewrite (bind_err _ _ _ _ _ Ed) in E; by injection E as _ <-].
    match type of E with ?m _ = _ => assert (Hs : respects same_count m) by solve_respects end.
    by eapply fits_same; [eapply respects_run|]. }
  destruct r2 as [pe2|e]; [rewrite (bind_ok _ _ _ _ _ E) in Hr|
    rewrite (bind_err _ _ _ _ _ E) in Hr; by injection Hr as _ <-].
  clear E Hfit1 Hex1 p1. apply bind_inv in Hr as [(? & ? & _)|(budget & p3 & Eg & Hr)]; [done|].
  injection Eg as <- <-. destruct (exhausted (ps_budget p2)) eqn:Hex2.
  { match type of Hr with ?m _ = _ => assert (Hs : respects same_count m) by solve_respects end.
    by eapply fits_same; [eapply respects_run|]. }
  set (f := λ (read : ReadFromOffset) (pending : option PendingMultilineState),
    on_batch (fb_max_offset (committed_end_offset read));;
    if negb match tracked_ with
            | Some p => Z.eqb (checkpoint_offset p) (committed_end_offset read)
                        && bool_decide (tf_pending p = pending)
                        && String.eqb (checkpoint_real_path p) real
            | None => false
            end
    then on_batch (fb_checkpoint (mk_family_checkpoint display real (identity read)
           (committed_end_offset read) pending))
    else mret tt).
  apply (read_then_spend real display (start_offset_ resume) pe2 p2 r p' limit
    (λ c, saturating_sub c (start_offset_ resume)) f); [done..| |].
  - intros rd pe q. unfold f. destruct (negb _); eexists; (split; [reflexivity|done]).
  - rewrite <-Hr. apply bind_ext. intros [rd pe] p3. unfold f. rewrite bind_assoc. by apply bind_ext.
Qed.

Lemma read_files_fits limit working first_scan p r p' : fits limit p →
  read_files config working first_scan p = (r, p') → fits limit p'.
Proof.
  revert p. induction working as [|d l IH]; intros p Hfit Hr; cbn [read_files] in Hr;
    [by injection Hr as _ <-|].
  apply bind_inv in Hr as [(? & ? & _)|(budget & p1 & Eg & Hr)]; [done|]. injection Eg as <- <-.
  destruct (exhausted (ps_budget p)) eqn:Hex; [by injection Hr as _ <-|].
  destruct (read_one_file config d first_scan p) as [rr p1] eqn:E.
  rewrite (bind_ok _ _ _ _ _ (try_run _ _ _ _ E)) in Hr.
  assert (Hfit1 : fits limit p1).
  { unfold read_one_file in E. apply bind_inv in E as [(? & ? & _)|(t & p2 & Et & E)]; [done|].
    injection Et as <- <-. destruct (on_host (inspect_path_async d) p) as [ri p2] eqn:Ei.
    rewrite (bind_ok _ _ _ _ _ (try_run _ _ _ _ Ei)) in E.
    apply on_host_keeps in Ei as ->; [|apply (inspect_respects eq)].
    destruct ri as [current|e]; [by eapply read_present_fits|].
    case_decide; [|by injection E as _ <-].
    destruct (checkpoint_for_path _ d) as [previous|]; [|by injection E as _ <-].
    apply bind_inv in E as [(? & E & _)|(drained & p3 & E & E2)];
      apply (drain_rotated_fits limit) in E; try done.
    match type of E2 with ?m _ = _ => assert (Hs : respects same_count m)
      by (unfold flush_vanished; solve_respects) end.
    by eapply fits_same; [eapply respects_run|]. }
  apply bind_inv in Hr as [(e & E2 & _)|([] & p2 & E2 & Hr)]; [by destruct rr|].
  apply (IH p2); [|done]. by destruct rr; injection E2 as <-.
Qed.

Lemma collect_family_fits orphan p r p' : sane_limits (cfg_read_limits config) →
  ps_batch p = FamilyBatch_new → ps_budget p = cfg_read_limits config →
  collect_family_batch config orphan p = (r, p') →
  fits (rl_max_lines (cfg_read_limits config)) p'.
Proof.
  intros (Hl1 & Hl2 & Hl3) Hbatch Hbudget Hr.
  assert (Hfit : fits (rl_max_lines (cfg_read_limits config)) p).
  { unfold fits. rewrite Hbatch, Hbudget. cbn. lia. }
  unfold collect_family_batch in Hr.
  apply bind_inv in Hr as [(e & E & ->)|([] & p1 & E & Hr)];
    pose proof (respects_run _ _ _ _ _ (flush_count _) E) as Hs1; [by eapply fits_same|].
  apply bind_inv in Hr as [(? & ? & _)|(st & p2 & E2 & Hr)]; [done|]. injection E2 as <- <-.
  assert (Hscan : respects same_count (scan_family config)).
  { unfold scan_family.
    assert (Hdir : respects eq (r ← try (fs_metadata (cfg_source_path config));
      match r with Ok _ => gets (is_dir (cfg_source_path config)) | Err _ => mret false end))
      by solve_respects.
    assert (Hnow : respects eq (gets (S := World) clock)) by by apply respects_gets, _.
    pose proof (on_host_respects same_count _ Hdir). pose proof (on_host_respects same_count _ Hnow).
    solve_respects. }
  apply bind_inv in Hr as [(e & E3 & ->)|([sel due] & p3 & E3 & Hr)];
    apply (respects_run _ _ _ _ _ Hscan) in E3; [by eapply fits_same; [|eapply fits_same]|].
  apply bind_inv in Hr as [(e & E4 & ->)|(wk & p4 & E4 & Hr)];
    apply on_host_keeps in E4 as ->; try apply take_matched_ro;
    [by eapply fits_same; [|eapply fits_same]|].
  assert (Hfit3 : fits (rl_max_lines (cfg_read_limits config)) p3) by (by eapply fits_same; [|eapply fits_same]).
  apply bind_inv in Hr as [(? & ? & _)|([] & p5 & E5 & Hr)]; [done|]. injection E5 as <-.
  apply bind_inv in Hr as [(? & ? & _)|([] & p6 & E6 & Hr)]; [done|]. injection E6 as <-.
  assert (Hz : fb_read_lines (ps_batch p3) = 0%Z).
  { rewrite (proj2 E3), (proj2 Hs1), Hbatch. done. }
  match type of Hr with (read_files _ _ _ ≫= _) ?s = _ =>
    assert (Hfit6 : fits (rl_max_lines (cfg_read_limits config)) s) end.
  { unfold fits. cbn [ps_budget ps_batch fb_selection fb_read_lines]. rewrite Hz. lia. }
  apply bind_inv in Hr as [(e & E7 & ->)|([] & p7 & E7 & Hr)];
    apply (read_files_fits _ _ _ _ _ _ Hfit6) in E7; [done|].
  match type of Hr with ?m _ = _ => assert (Hs : respects same_count m) by solve_respects end.
  by eapply fits_same; [eapply respects_run|].
Qed.
End Budget.

(** * Claims *)
Section Claims.
Context `{Host} `{!FileMeta} `{!SpoolEnv} `{!SpoolLaws} `{LogContracts} `{!LogLaws}
  `{!ContainerLookup} `{!LogCodecs} `{!RecordSink} `{!RecordSinkLaws} `{!FilterContracts} `{!GlobSet}.
Context (config : FileInputConfig).
Implicit Types (i : Input).

(** C29. A file family commits last, too.  Whatever fails in a pass over the family, either the
    checkpoint file is as it was, or the pass collected a batch (a file that cannot be read is
    left out and does not stop the others), every record of it is sent or spooled, the sequence
    numbers are on disk, and the checkpoint file holds exactly the checkpoints of that batch.
    No other file ever changes. *)
Theorem family_checkpoint_moves_last i r i' : paths_apart config →
  family_process_once_async config i = (r, i') →
  (∀ q, ¬ written_files config q → files (world (uplink i')) !! q = files (world (uplink i)) !! q) ∧
  (files (world (uplink i')) !! checkpoint_path config =
     files (world (uplink i)) !! checkpoint_path config ∨
   ∃ runtime orphan before i1 batch runtime' i2 w0,
     sink_extends (sink (uplink i)) (sink (uplink i1)) ∧ next_seq i1 = next_seq i ∧
     (∀ q, ¬ spool_files (cfg_spool_path config) q →
        files (world (uplink i1)) !! q = files (world (uplink i)) !! q) ∧
     run_pass config runtime orphan i1 = (Ok (batch, runtime'), i2) ∧
     handed_over config (fb_records batch) i2 i' ∧
     wrote_family config runtime' batch before w0 (world (uplink i'))).
Proof.
  intros Hapart Hr. pose proof Hapart as (_ & _ & Hcp & _). unfold family_process_once_async in Hr.
  apply bind_inv in Hr as [(e & E & ->)|(runtime & i0 & E & Hr)];
    apply in_host_run in E as (w0 & E & ->); apply load_runtime_run in E as (-> & state & E & _);
    [done|injection E as ->].
  replace (mk_input (mk_uplink (world (uplink i)) (sink (uplink i))) (next_seq i)) with i in Hr
    by by destruct i as [[] ?].
  cbn zeta in Hr. destruct (migrate_input_pending_to_files _) as [st orphan].
  set (runtime := set_log_state st _) in *. set (before := rt_log_state _) in Hr.
  apply (after_replay_run config (λ n, family_batch config (set_replayed n runtime) orphan before)) in Hr
    as (i1 & Hs1 & Hn1 & Hf1 & Hr); [|done].
  assert (Hcs : ¬ spool_files (cfg_spool_path config) (checkpoint_path config)) by (apply Hcp; by left).
  assert (Hf1' : ∀ q, ¬ written_files config q →
    files (world (uplink i1)) !! q = files (world (uplink i)) !! q).
  { intros q Hq. apply Hf1. unfold written_files in Hq. tauto. }
  destruct Hr as [->|(n & Hr)]; [split; [done|left; by apply Hf1]|].
  rewrite family_batch_split in Hr.
  apply bind_inv in Hr as [(e & E & ->)|([batch rt'] & i2 & E & Hr)];
    pose proof E as [Hrd Hcpath]%run_pass_run.
  { rewrite Hrd. split; [done|left; by apply Hf1]. }
  specialize (Hcpath batch rt' eq_refl).
  destruct (deliver_then config (fb_records batch)
    (commit_family_state rt' (fb_checkpoints batch) before) i2) as [rc ic] eqn:Ec.
  assert (i' = ic) as ->.
  { destruct rc; [rewrite (bind_ok _ _ _ _ _ Ec) in Hr|rewrite (bind_err _ _ _ _ _ Ec) in Hr];
      [destruct (fb_failure batch)|]; by injection Hr as _ <-. }
  destruct (commit_family_writes config rt' batch before (proj1 Hapart) Hcpath) as [Hres Hgood].
  apply (deliver_then_run _ _ _ _ _ _ _ Hapart Hres Hgood) in Ec as (Hf & _ & _ & Hc & _).
  rewrite Hrd in Hf, Hc. split; [intros q Hq; rewrite Hf by done; by apply Hf1'|].
  destruct Hc as [Hc|[Hc [w0 Hw]]]; [left; rewrite Hc; by apply Hf1|right].
  exists (set_replayed n runtime), orphan, before, i1, batch, rt', i2, w0. by split_and!.
Qed.

(** The working set of a pass.  Every tracked file that is still selected is read, no
    deselected one is; a newly matched file is added only when no tracked file is the same real
    file, and no two new ones are.  The limits on new and on all files hold; below them no
    matched file is left out whose bytes are not read under another name; and files are reported
    as refused only when the limit on files is reached. *)
Theorem family_working_set tracked_ deselected_ matched (max_files max_new : Z) w :
  (∀ p, p ∈ matched → p ∉ deselected_) →
  ∃ wk, take_matched max_files max_new matched (start_working tracked_ deselected_) w = (Ok wk, w) ∧
    let is_tracked p := ∃ e, e ∈ tracked_ ∧ tf_path e = p in
    let real_tracked p := ∃ e, e ∈ tracked_ ∧ checkpoint_real_path e = resolve w p in
    (∀ p, is_tracked p → p ∉ deselected_ → p ∈ wk_paths wk) ∧
    (∀ p, p ∈ wk_paths wk → (p ∉ deselected_) ∧ (is_tracked p ∨ p ∈ matched ∧ ¬ real_tracked p)) ∧
    (∀ p q, p ∈ wk_paths wk → q ∈ wk_paths wk → ¬ is_tracked p → ¬ is_tracked q →
       resolve w p = resolve w q → p = q) ∧
    (wk_new wk ≤ Z.max 0 max_new)%Z ∧
    (Z.of_nat (length (wk_paths wk)) ≤
       Z.max (Z.of_nat (length (wk_paths (start_working tracked_ deselected_)))) max_files)%Z ∧
    ((wk_new wk < max_new)%Z → (Z.of_nat (length (wk_paths wk)) < max_files)%Z →
     ∀ p, p ∈ matched → p ∈ wk_paths wk ∨ real_tracked p ∨
       ∃ q, q ∈ wk_paths wk ∧ resolve w q = resolve w p) ∧
    (wk_refused wk ≠ 0%Z → (max_files ≤ Z.of_nat (length (wk_paths wk)))%Z).
Proof.
  intros Hdis. destruct (take_matched max_files max_new matched (start_working tracked_ deselected_) w)
    as [r w'] eqn:E.
  apply take_matched_run in E as (-> & wk & -> & T). exists wk. split; [done|]. cbn zeta.
  assert (Hreal : ∀ r, r ∈ wk_real (start_working tracked_ deselected_) ↔
    ∃ e, e ∈ tracked_ ∧ checkpoint_real_path e = r).
  { intros r. unfold start_working. cbn [wk_real]. rewrite elem_of_list_to_set, list_elem_of_fmap.
    naive_solver. }
  assert (Hstart : ∀ p, p ∈ wk_paths wk → ¬ (∃ e, e ∈ tracked_ ∧ tf_path e = p) →
    p ∉ wk_paths (start_working tracked_ deselected_)) by (intros p _ Hn [_ ?]%elem_of_start; auto).
  destruct T. split; [|split; [|split; [|split; [|split; [|split]]]]].
  - intros p Ht Hd. apply tk_keeps0, elem_of_start. by split.
  - intros p [Hp|[Hp Hr]]%tk_from0; [apply elem_of_start in Hp as [? ?]; by split; [|left]|].
    split; [by apply Hdis|right]. split; [done|]. by rewrite <-Hreal.
  - intros p q Hp Hq Hnp Hnq. apply tk_once0; auto.
  - change (wk_new (start_working tracked_ deselected_)) with 0%Z in *. lia.
  - done.
  - intros Hn Hm p Hp. destruct (tk_all0 Hn Hm p Hp) as [|Hr]; [by left|right].
    apply tk_real0 in Hr as [Hr|(q & Hq & _ & Hr)]; [left; by apply Hreal|right; by exists q].
  - by apply tk_refused0.
Qed.
(** A pass over a family is bounded, however many files it follows and however they were
    rotated: all its reads together return no more lines than the input's read limit. *)
Theorem family_pass_bounded runtime orphan i batch runtime' i' : sane_limits (cfg_read_limits config) →
  run_pass config runtime orphan i = (Ok (batch, runtime'), i') →
  (0 ≤ fb_read_lines batch ≤ rl_max_lines (cfg_read_limits config))%Z.
Proof.
  intros Hl Hr. unfold run_pass in Hr.
  match type of Hr with context [collect_family_batch config orphan ?p0] =>
    destruct (collect_family_batch config orphan p0) as [r0 p'] eqn:E end.
  apply collect_family_fits in E as (_ & _ & ? & ? & ?); [|done..].
  destruct r0; [|done]. injection Hr as <- <- <-. lia.
Qed.
End Claims.

(** * A concrete family and the witnesses *)
Module ConcreteFamily.
Definition toy_family : FileInputConfig :=
  mk_config _ _ "agent" "in" (mk_origin "fam" "unit") "/l/*.log" [] (toy_filter [] [] [] []) [] 10 10
    1000 "st" toy_spool Head MNone 1000 (ReadLimits_new 10 100 2) 4.

Definition toy_family_start : Input :=
  mk_input (mk_uplink (MkWorld _ {[ "/l/a.log" := "one" +:+ nl; "/l/b.log" := "two" +:+ nl +:+ "3" +:+ nl;
    "/l/c.log" := "4" +:+ nl ]} {[ ""; "/l" ]} 0 ∅) ([], true)) 7.

Lemma toy_family_apart : paths_apart toy_family.
Proof. exact toy_apart. Qed.

Definition toy_runtime : RuntimeState :=
  mk_runtime (checkpoint_path toy_family) (LogCheckpointState_new "in" "now") "now" 0.
End ConcreteFamily.
Import ConcreteFamily.

Lemma family_checkpoint_moves_last_witness :
  let ri := family_process_once_async toy_family toy_family_start in
  is_ok ri.1 = true ∧
  ∃ runtime orphan i1 batch runtime' i2,
    run_pass toy_family runtime orphan i1 = (Ok (batch, runtime'), i2) ∧
    handed_over toy_family (fb_records batch) i2 ri.2.
Proof.
  intros ri. assert (Hv : is_ok ri.1 = true) by (vm_compute; reflexivity).
  assert (Hsome : is_some (files (world (uplink ri.2)) !! checkpoint_path toy_family) = true)
    by (vm_compute; reflexivity).
  assert (Hnone : files (world (uplink toy_family_start)) !! checkpoint_path toy_family = None)
    by (vm_compute; reflexivity).
  pose proof (family_checkpoint_moves_last toy_family toy_family_start ri.1 ri.2 toy_family_apart
    (surjective_pairing ri)) as [_ Hm].
  clearbody ri. split; [exact Hv|].
  destruct Hm as [Hn|Hc]; [rewrite Hn, Hnone in Hsome; discriminate Hsome|].
  destruct Hc as (rt & o & before & i1 & batch & rt' & i2 & w0 & _ & _ & _ & Hc & Hd & _).
  exists rt, o, i1, batch, rt', i2. split; [exact Hc|exact Hd].
Defined.

(** Two of the four lines are read, the rest waits for the next pass. *)
Lemma family_pass_bounded_witness :
  let ri := run_pass toy_family toy_runtime None toy_family_start in
  ((λ b, fb_read_lines b.1) <$> result_ok ri.1) = Some 2%Z ∧
  (0 <= default 0 ((λ b, fb_read_lines b.1) <$> result_ok ri.1) <= 2)%Z.
Proof.
  intros ri. assert (Hv : ((λ b, fb_read_lines b.1) <$> result_ok ri.1) = Some 2%Z)
    by (vm_compute; reflexivity).
  split; [exact Hv|]. destruct ri as [[[batch rt']|e] i'] eqn:E; [|discriminate Hv].
  exact (family_pass_bounded toy_family toy_runtime None toy_family_start batch rt' i'
    (ReadLimits_new_sane 10 100 2) E).
Defined.

Lemma family_working_set_witness :
  ∃ wk, take_matched 10 10 ["/l/a.log"; "/l/b.log"] (start_working [] {[ "/l/c.log" ]}) toy_dir
      = (Ok wk, toy_dir) ∧
    (∀ p, p ∈ wk_paths wk → p ∉ ({[ "/l/c.log" ]} : gset string)).
Proof.
  destruct (family_working_set [] {[ "/l/c.log" ]} ["/l/a.log"; "/l/b.log"] 10 10 toy_dir) as (wk & Hr & _ & Hd & _).
  - intros p [->|[->|H]%elem_of_cons]%elem_of_cons; [..|destruct (not_elem_of_nil _ H)];
      intros H%elem_of_singleton; discriminate H.
  - exists wk. split; [exact Hr|]. intros p Hp. exact (proj1 (Hd p Hp)).
Defined.
