(* ===== verification/Fmt.v ===== *)
(** Formatting and trimming of text as the control plane uses it: [str::trim], the [Debug] form of
    a string, and predicates on every byte of one.  Work.v and the upgrade files share it. *)
From S2P Require Import Prelude Text.

(** What [{:?}] prints for a character outside ASCII depends on the Unicode tables of [core]. *)
Class UnicodeTables := { escape_debug_char : string → string }.

Fixpoint trim_end (s : string) : string :=
  match s with
  | EmptyString => ""
  | String a s' => if is_blank s then "" else String a (trim_end s')
  end.
Definition trim (s : string) : string := trim_end (trim_start s).

(** [str::trim_end_matches] for a character. *)
Fixpoint trim_end_char (c : ascii) (s : string) : string :=
  match s with
  | EmptyString => ""
  | String a s =>
      match trim_end_char c s with
      | EmptyString => if Ascii.eqb a c then "" else String a ""
      | t => String a t
      end
  end.

Definition is_ascii_alphanumeric (a : ascii) : bool :=
  is_ascii_digit a || in_range 65 90 (code a) || in_range 97 122 (code a).

Definition ascii_lower (a : ascii) : ascii :=
  if in_range 65 90 (code a) then ascii_of_N (Z.to_N (code a + 32)) else a.
Fixpoint to_ascii_lowercase (s : string) : string :=
  match s with EmptyString => EmptyString | String a s => String (ascii_lower a) (to_ascii_lowercase s) end.

(** [str::lines] *)
Definition strip_cr (line : string) : string :=
  match rsplit_once "013" line with Some (line', "") => line' | _ => line end.
Fixpoint lines_of (pieces : list string) : list string :=
  match pieces with
  | [] => []
  | [last] => if String.eqb last "" then [] else [last]
  | line :: pieces => strip_cr line :: lines_of pieces
  end.
Definition lines (text : string) : list string := lines_of (split_on newline text).

Definition hex_digit (n : Z) : ascii :=
  ascii_of_N (Z.to_N (if Z.ltb n 10 then 48 + n else 87 + n)).
Definition hex_byte_short (z : Z) : string :=
  if Z.ltb z 16 then String (hex_digit z) ""
  else String (hex_digit (z / 16)) (String (hex_digit (z mod 16)) "").

Definition backslash : ascii := "092"%char.
Definition dquote : ascii := "034"%char.

(** [<str as Debug>::fmt] *)
Definition escape_debug_ascii (a : ascii) : string :=
  let z := code a in
  if Z.eqb z 0 then String backslash "0"
  else if Z.eqb z 9 then String backslash "t"
  else if Z.eqb z 10 then String backslash "n"
  else if Z.eqb z 13 then String backslash "r"
  else if Ascii.eqb a backslash then String backslash (String backslash "")
  else if Ascii.eqb a dquote then String backslash (String dquote "")
  else if in_range 32 126 z then String a ""
  else String backslash "u{" +:+ hex_byte_short z +:+ "}".

Fixpoint debug_chars `{UnicodeTables} (fuel : nat) (s : string) : string :=
  match fuel, s with
  | S fuel, String a s' =>
      if Z.ltb (code a) 128 then escape_debug_ascii a +:+ debug_chars fuel s'
      else
        let '(k, _) := utf8_head a s' in
        escape_debug_char (str_take k s) +:+ debug_chars fuel (str_drop k s)
  | _, _ => ""
  end.
Definition debug_str `{UnicodeTables} (s : string) : string :=
  String dquote (debug_chars (String.length s) s +:+ String dquote "").

Fixpoint all_chars (p : ascii → bool) (s : string) : bool :=
  match s with EmptyString => true | String a s => p a && all_chars p s end.

Lemma all_chars_app p s t : all_chars p (s +:+ t) = all_chars p s && all_chars p t.
Proof.
  induction s as [|a s IH]; [done|]. rewrite app_cons. cbn. rewrite IH. by destruct (p a).
Qed.

(** ** Trimming a character at the end *)

Lemma trim_end_char_split c s : ∃ n, s = trim_end_char c s +:+ Nat.iter n (String c) "".
Proof.
  induction s as [|a s [n IH]]; [by exists 0|]. cbn.
  destruct (trim_end_char c s) as [|b t] eqn:E.
  - destruct (Ascii.eqb_spec a c) as [->|]; [|by exists n; rewrite IH at 1].
    exists (S n). by rewrite IH at 1.
  - exists n. by rewrite IH at 1.
Qed.

Lemma trim_end_char_last c s : last_char (trim_end_char c s) ≠ Some c.
Proof.
  induction s as [|a s IH]; [done|]. cbn. destruct (trim_end_char c s) as [|b t] eqn:E; [|done].
  destruct (Ascii.eqb_spec a c); [done|]. cbn. by intros [= ?].
Qed.

Lemma trim_end_char_id c s : last_char s ≠ Some c → trim_end_char c s = s.
Proof.
  induction s as [|a s IH]; [done|]. cbn. destruct s as [|b s]; cbn.
  - intros Hl. destruct (Ascii.eqb_spec a c) as [->|]; [by destruct Hl|done].
  - intros Hl. cbn in IH. by rewrite (IH Hl).
Qed.

Lemma has_char_trim_end c d s : has_char d (trim_end_char c s) = true → has_char d s = true.
Proof.
  destruct (trim_end_char_split c s) as [n E]. revert E. generalize (trim_end_char c s). intros t ->.
  rewrite has_char_app. by intros ->.
Qed.

Lemma split_on_nonempty c s : split_on c s ≠ [].
Proof.
  destruct s as [|a s]; cbn; [done|]. destruct (Ascii.eqb a c); [done|]. by destruct (split_on c s).
Qed.

Lemma split_on_app c s t : split_on c (s +:+ String c t) = (split_on c s ++ split_on c t)%list.
Proof.
  induction s as [|a s IH].
  - rewrite Prelude.app_nil_l. cbn. by rewrite Ascii.eqb_refl.
  - rewrite app_cons. cbn. rewrite IH. destruct (Ascii.eqb a c); [done|].
    destruct (split_on c s) as [|x l] eqn:E; [by apply split_on_nonempty in E|done].
Qed.

Lemma split_on_id c s : has_char c s = false → split_on c s = [s].
Proof.
  induction s as [|a s IH]; [done|]. rewrite has_char_cons. intros [Ha Hs]%orb_false_iff.
  cbn. by rewrite Ha, IH.
Qed.

Lemma split_on_cons c s t : has_char c s = false → split_on c (s +:+ String c t) = s :: split_on c t.
Proof.
  induction s as [|a s IH]; intros Hc; [rewrite Prelude.app_nil_l; cbn; by rewrite Ascii.eqb_refl|].
  rewrite has_char_cons in Hc. apply orb_false_iff in Hc as [Ha Hs].
  rewrite app_cons. cbn. by rewrite Ha, IH.
Qed.

Lemma split_on_join c l : l ≠ [] → forallb (λ s, negb (has_char c s)) l = true →
  split_on c (Text.join (String c "") l) = l.
Proof.
  intros Hl. induction l as [|x l IH]; [done|]. cbn [forallb]. intros [Hx Ha]%andb_true_iff.
  apply negb_true_iff in Hx. destruct l as [|y l]; [by apply split_on_id|].
  change (Text.join _ (x :: y :: l)) with (x +:+ String c "" +:+ Text.join (String c "") (y :: l)).
  rewrite app_cons, Prelude.app_nil_l, split_on_cons by done. by rewrite IH.
Qed.

Lemma split_on_parts c s : forallb (λ s, negb (has_char c s)) (split_on c s) = true ∧ split_on c s ≠ [].
Proof.
  induction s as [|a s [IH1 IH2]]; [done|]. cbn [split_on].
  destruct (Ascii.eqb a c) eqn:E; [split; [exact IH1|done]|].
  destruct (split_on c s) as [|x l]; [done|]. cbn [forallb] in *.
  apply andb_true_iff in IH1 as [Hx Hl]. split; [|done]. rewrite has_char_cons, E. cbn [orb].
  by rewrite Hx, Hl.
Qed.

Lemma split_on_pieces c s x : x ∈ split_on c s → has_char c x = false.
Proof.
  revert x. induction s as [|a s IH]; intros x Hx.
  { by apply list_elem_of_singleton in Hx as ->. }
  cbn in Hx. destruct (Ascii.eqb a c) eqn:Ea.
  { apply elem_of_cons in Hx as [->|Hx]; [done|by apply IH]. }
  destruct (split_on c s) as [|y l]; [by apply list_elem_of_singleton in Hx as ->; rewrite has_char_cons, Ea|].
  apply elem_of_cons in Hx as [->|Hx].
  - rewrite has_char_cons, Ea. apply IH, elem_of_cons. by left.
  - apply IH, elem_of_cons. by right.
Qed.

Lemma split_on_trim_end c s x : x ∈ split_on c (trim_end_char c s) → x ∈ split_on c s.
Proof.
  destruct (trim_end_char_split c s) as [n E]. revert E. generalize (trim_end_char c s).
  intros t ->. destruct n as [|n]; cbn.
  - by rewrite Prelude.app_nil_r.
  - rewrite split_on_app. intros Hx. apply elem_of_app. by left.
Qed.

Lemma starts_with_trim_end c a s : starts_with (String a "") s = true → trim_end_char c s ≠ "" →
  starts_with (String a "") (trim_end_char c s) = true.
Proof.
  destruct s as [|b s]; [done|]. unfold starts_with. cbn.
  destruct (trim_end_char c s) as [|d t]; cbn.
  - destruct (Ascii.eqb b c); cbn; [by intros _ []|]. destruct (ascii_dec a b); [done|done].
  - destruct (ascii_dec a b); [done|done].
Qed.

(** [str::parse::<u64>] *)
Fixpoint parse_digits (acc : Z) (s : string) : string + Z :=
  match s with
  | EmptyString => inr acc
  | String a s =>
      if negb (is_ascii_digit a) then inl "invalid digit found in string"
      else
        let acc := (acc * 10 + (code a - 48))%Z in
        if Z.ltb u64_max acc then inl "number too large to fit in target type" else parse_digits acc s
  end.
Definition parse_u64 (s : string) : string + Z :=
  match s with
  | EmptyString => inl "cannot parse integer from empty string"
  | String a rest =>
      if Ascii.eqb a "+" then
        match rest with EmptyString => inl "invalid digit found in string" | _ => parse_digits 0 rest end
      else parse_digits 0 s
  end.
