(* ===== verification/Throttle.v ===== *)
(** What the refreshes of runtime/daemon.rs share: a minimum interval between two attempts, kept as
    the instant of the last one, and the url of an endpoint of the gateway.  Policies.v and
    WorkLoop.v build on it. *)
From S2P Require Import Prelude Text Fmt.

Definition WORK_FETCH_MIN_INTERVAL_MS : Z := 30000.
Definition TICK_INTERVAL_MS : Z := 3000.
Definition STATUS_REPORT_INTERVAL_MS : Z := 3000.

(** The guard of every refresh: [at.elapsed() < interval] ends it. *)
Definition fetch_due (interval now : Z) (last_fetch : option Z) : bool :=
  match last_fetch with Some at_ => negb (Z.ltb (now - at_) interval) | None => true end.

Definition gateway_url (endpoint path : string) : string := trim_end_char slash endpoint +:+ path.

(** Requests at least an interval apart, the last of them no later than the instant kept. *)
Record throttled (interval : Z) (times : list Z) (last_fetch : option Z) : Prop := {
  th_spaced : StronglySorted (λ a b, (a + interval ≤ b)%Z) times;
  th_last : ∀ t, t ∈ times → ∃ l, last_fetch = Some l ∧ (t ≤ l)%Z;
}.

Lemma throttled_attempt interval times last_fetch now :
  throttled interval times last_fetch → (0 ≤ interval)%Z → fetch_due interval now last_fetch = true →
  throttled interval times (Some now) ∧ throttled interval (times ++ [now]) (Some now).
Proof.
  intros [Hs Hl] Hi Hd.
  assert (Hb : ∀ t, t ∈ times → (t + interval ≤ now)%Z).
  { intros t Ht. destruct (Hl t Ht) as (l & -> & Hle). cbn in Hd.
    apply negb_true_iff, Z.ltb_ge in Hd. lia. }
  split; split.
  - done.
  - intros t Ht. exists now. split; [done|]. specialize (Hb t Ht). lia.
  - apply StronglySorted_app. split_and!; [|done|by repeat constructor].
    intros a b Ha ->%list_elem_of_singleton. by apply Hb.
  - intros t [Ht| ->%list_elem_of_singleton]%elem_of_app; exists now; [|done].
    split; [done|]. specialize (Hb t Ht). lia.
Qed.

