(* ===== verification/BTree.v ===== *)
(** [BTreeMap<String, V>]: a list of bindings in strictly increasing byte order of the keys, so
    that iteration has the order of the program.  Work.v and Upgrade.v use it. *)
From S2P Require Import Prelude.
From Stdlib Require Import Sorted.

(** [Ord for str]: byte-wise. *)
Definition str_lt (a b : string) : Prop := String.compare a b = Lt.

Lemma compare_refl a : String.compare a a = Eq.
Proof.
  induction a as [|c a IH]; [done|]. cbn. unfold Ascii.compare. by rewrite N.compare_refl.
Qed.

Lemma compare_swap a b : String.compare a b = CompOpp (String.compare b a).
Proof. apply String.compare_antisym. Qed.

Lemma str_lt_irrefl a : ¬ str_lt a a.
Proof. unfold str_lt. by rewrite compare_refl. Qed.

Lemma str_lt_trans a b c : str_lt a b → str_lt b c → str_lt a c.
Proof.
  unfold str_lt. revert b c. induction a as [|x a IH]; intros [|y b] [|z c]; cbn; try done.
  unfold Ascii.compare.
  destruct (N.compare_spec (N_of_ascii x) (N_of_ascii y)) as [E1|L1|G1]; try done;
    destruct (N.compare_spec (N_of_ascii y) (N_of_ascii z)) as [E2|L2|G2]; try done.
  - rewrite E1, E2, N.compare_refl. apply IH.
  - rewrite E1. by apply N.compare_lt_iff in L2 as ->.
  - rewrite <- E2. by apply N.compare_lt_iff in L1 as ->.
  - assert (L3 : (N_of_ascii x < N_of_ascii z)%N) by lia. by apply N.compare_lt_iff in L3 as ->.
Qed.

Lemma str_lt_ne a b : str_lt a b → a ≠ b.
Proof. intros Hl ->. by apply str_lt_irrefl in Hl. Qed.

Lemma compare_gt a b : String.compare a b = Gt → str_lt b a.
Proof. unfold str_lt. rewrite compare_swap. by destruct (String.compare b a). Qed.

Lemma str_lt_cases a b : str_lt a b ∨ a = b ∨ str_lt b a.
Proof.
  destruct (String.compare a b) eqn:E; auto using compare_gt. by apply String.compare_eq_iff in E; auto.
Qed.

(** * The map *)

Definition btree (V : Type) : Type := list (string * V).

Section ops.
Context {V : Type}.
Implicit Types (m : btree V) (k : string) (v : V).

Fixpoint bt_insert k v m : btree V :=
  match m with
  | [] => [(k, v)]
  | (k', v') :: m' =>
      match String.compare k k' with
      | Lt => (k, v) :: m
      | Eq => (k', v) :: m'
      | Gt => (k', v') :: bt_insert k v m'
      end
  end.

Fixpoint bt_get k m : option V :=
  match m with
  | [] => None
  | (k', v) :: m' => if String.eqb k k' then Some v else bt_get k m'
  end.

Definition bt_contains_key k m : bool := is_some (bt_get k m).

(** [if let Some(v) = map.get_mut(k) { .. }] *)
Definition bt_update k (f : V → V) m : btree V :=
  (λ '(k', v), (k', if String.eqb k k' then f v else v)) <$> m.

(** [FromIterator]: later pairs replace earlier ones. *)
Definition bt_collect (l : list (string * V)) : btree V :=
  foldl (λ m '(k, v), bt_insert k v m) [] l.

Definition bt_wf m : Prop := StronglySorted str_lt (fst <$> m).

End ops.

Section lemmas.
Context {V : Type}.
Implicit Types (m : btree V) (k : string) (v : V).

Lemma eqb_refl k : String.eqb k k = true.
Proof. apply String.eqb_refl. Qed.

Lemma eqb_ne k1 k2 : k1 ≠ k2 → String.eqb k1 k2 = false.
Proof. apply String.eqb_neq. Qed.

Lemma bt_get_insert_eq k v m : bt_get k (bt_insert k v m) = Some v.
Proof.
  induction m as [|[k' v'] m IH]; cbn; [by rewrite eqb_refl|].
  destruct (String.compare k k') eqn:E; cbn.
  - apply String.compare_eq_iff in E as ->. by rewrite eqb_refl.
  - by rewrite eqb_refl.
  - rewrite eqb_ne; [done|]. intros ->. by rewrite compare_refl in E.
Qed.

Lemma bt_get_insert_ne k1 k2 v m : k1 ≠ k2 → bt_get k1 (bt_insert k2 v m) = bt_get k1 m.
Proof.
  intros Hne. induction m as [|[k' v'] m IH]; cbn; [by rewrite eqb_ne|].
  destruct (String.compare k2 k') eqn:E; cbn.
  - apply String.compare_eq_iff in E as ->. by rewrite eqb_ne.
  - by rewrite eqb_ne.
  - by rewrite IH.
Qed.

Lemma bt_get_insert k1 k2 v m :
  bt_get k1 (bt_insert k2 v m) = if String.eqb k1 k2 then Some v else bt_get k1 m.
Proof.
  destruct (String.eqb k1 k2) eqn:E.
  - apply String.eqb_eq in E as ->. apply bt_get_insert_eq.
  - apply String.eqb_neq in E. by apply bt_get_insert_ne.
Qed.

Lemma bt_insert_keys k v m k' : k' ∈ fst <$> bt_insert k v m → k' = k ∨ k' ∈ fst <$> m.
Proof.
  induction m as [|[k1 v1] m IH]; cbn; [set_solver|].
  destruct (String.compare k k1); cbn; rewrite ?elem_of_cons; [intuition|intuition|].
  intros [->|Hin]; [by auto|]. destruct (IH Hin); auto.
Qed.

Lemma bt_insert_wf k v m : bt_wf m → bt_wf (bt_insert k v m).
Proof.
  unfold bt_wf. induction m as [|[k' v'] m IH]; cbn; intros Hs; [repeat constructor|].
  apply StronglySorted_inv in Hs as [Hs Hall]. destruct (String.compare k k') eqn:E; cbn.
  - by constructor.
  - constructor; [by constructor|]. constructor; [done|].
    eapply List.Forall_impl; [|exact Hall]. intros a Ha. by eapply str_lt_trans.
  - constructor; [by apply IH|]. apply Forall_forall. intros a Ha.
    apply bt_insert_keys in Ha as [->|Ha]; [by apply compare_gt|].
    by eapply Forall_forall in Ha; [|exact Hall].
Qed.

Lemma bt_nil_wf : bt_wf (V := V) [].
Proof. constructor. Qed.

Lemma bt_get_not_in k m : k ∉ fst <$> m ↔ bt_get k m = None.
Proof.
  induction m as [|[k' v] m IH]; cbn; [set_solver|]. rewrite not_elem_of_cons, IH.
  destruct (String.eqb k k') eqn:E; [apply String.eqb_eq in E; naive_solver|].
  apply String.eqb_neq in E. naive_solver.
Qed.

Lemma bt_get_in k v m : bt_wf m → (k, v) ∈ m ↔ bt_get k m = Some v.
Proof.
  unfold bt_wf. induction m as [|[k' v'] m IH]; cbn; intros Hs; [set_solver|].
  apply StronglySorted_inv in Hs as [Hs Hall]. rewrite elem_of_cons, IH by done.
  destruct (String.eqb k k') eqn:E.
  - apply String.eqb_eq in E as ->. split; [|naive_solver]. intros [[= ->]|Hg]; [done|].
    exfalso. apply (str_lt_irrefl k'). apply (proj1 (Forall_forall _ _) Hall).
    destruct (decide (k' ∈ fst <$> m)) as [|Hn]; [done|]. apply bt_get_not_in in Hn. congruence.
  - apply String.eqb_neq in E. naive_solver.
Qed.

Lemma bt_get_elem k v m : bt_get k m = Some v → (k, v) ∈ m.
Proof.
  induction m as [|[k' v'] m IH]; cbn; [done|]. rewrite elem_of_cons.
  destruct (String.eqb k k') eqn:E; [|auto]. apply String.eqb_eq in E as ->. intros [= ->]; auto.
Qed.

Lemma bt_keys_nodup m : bt_wf m → NoDup (fst <$> m).
Proof.
  unfold bt_wf. induction (fst <$> m) as [|k l IH]; intros Hs; [constructor|].
  apply StronglySorted_inv in Hs as [Hs Hall]. constructor; [|by apply IH].
  intros Hk. by eapply str_lt_irrefl, (proj1 (Forall_forall _ _) Hall).
Qed.

(** Two maps with the same bindings are equal, iteration order included. *)
Lemma bt_ext m1 m2 : bt_wf m1 → bt_wf m2 → (∀ k, bt_get k m1 = bt_get k m2) → m1 = m2.
Proof.
  unfold bt_wf. revert m2. induction m1 as [|[k1 v1] m1 IH]; intros [|[k2 v2] m2]; cbn; intros H1 H2 Hg.
  - done.
  - specialize (Hg k2). by rewrite eqb_refl in Hg.
  - specialize (Hg k1). by rewrite eqb_refl in Hg.
  - apply StronglySorted_inv in H1 as [H1 A1]. apply StronglySorted_inv in H2 as [H2 A2].
    rewrite Forall_forall in A1, A2.
    assert (k1 = k2) as ->.
    { destruct (str_lt_cases k1 k2) as [L|[->|L]]; [|done|]; exfalso.
      - pose proof (Hg k1) as Hk. rewrite eqb_refl, eqb_ne in Hk by by apply str_lt_ne.
        symmetry in Hk. apply bt_get_elem in Hk. apply (str_lt_irrefl k1).
        eapply str_lt_trans; [exact L|]. apply A2. apply list_elem_of_fmap. by exists (k1, v1).
      - pose proof (Hg k2) as Hk. rewrite eqb_refl, eqb_ne in Hk by by apply str_lt_ne.
        apply bt_get_elem in Hk. apply (str_lt_irrefl k2).
        eapply str_lt_trans; [exact L|]. apply A1. apply list_elem_of_fmap. by exists (k2, v2). }
    pose proof (Hg k2) as Hk. rewrite eqb_refl in Hk. injection Hk as ->. f_equal.
    apply IH; [done|done|]. intros k. destruct (decide (k = k2)) as [->|Hne].
    + assert (Hn : ∀ m : btree V, (∀ x, x ∈ fst <$> m → str_lt k2 x) → bt_get k2 m = None).
      { intros m Hm. apply bt_get_not_in. intros Hin. by apply (str_lt_irrefl k2), Hm. }
      by rewrite !Hn.
    + specialize (Hg k). by rewrite eqb_ne in Hg.
Qed.

Lemma bt_get_update k k' f m :
  bt_get k' (bt_update k f m) = if String.eqb k k' then f <$> bt_get k' m else bt_get k' m.
Proof.
  induction m as [|[k1 v1] m IH]; cbn; [by destruct (String.eqb k k')|]. unfold bt_update in IH.
  destruct (String.eqb k' k1) eqn:E; [|done]. apply String.eqb_eq in E as ->.
  by destruct (String.eqb k k1).
Qed.

Lemma bt_update_wf k f m : bt_wf m → bt_wf (bt_update k f m).
Proof.
  unfold bt_wf, bt_update. rewrite <- list_fmap_compose.
  rewrite (list_fmap_ext (fst ∘ (λ '(k', v), (k', if String.eqb k k' then f v else v))) fst m);
    [done|]. by intros i [].
Qed.

Lemma foldl_insert_wf l m : bt_wf m → bt_wf (foldl (λ m '(k, v), bt_insert k v m) m l).
Proof. revert m. induction l as [|[k v] l IH]; intros m Hm; cbn; [done|]. by apply IH, bt_insert_wf. Qed.

Lemma bt_collect_wf (l : list (string * V)) : bt_wf (bt_collect l).
Proof. apply foldl_insert_wf, bt_nil_wf. Qed.

(** The last pair with the key wins. *)
Definition last_with k (l : list (string * V)) : option V :=
  foldl (λ acc '(k', v), if String.eqb k k' then Some v else acc) None l.

Lemma bt_get_foldl k l m :
  bt_get k (foldl (λ m '(k, v), bt_insert k v m) m l)
  = foldl (λ acc '(k', v), if String.eqb k k' then Some v else acc) (bt_get k m) l.
Proof.
  revert m. induction l as [|[k1 v1] l IH]; intros m; cbn; [done|]. rewrite IH, bt_get_insert.
  by destruct (String.eqb k k1).
Qed.

Lemma bt_get_collect k l : bt_get k (bt_collect l) = last_with k l.
Proof. apply bt_get_foldl. Qed.

Lemma last_with_snoc k l k' v :
  last_with k (l ++ [(k', v)]) = if String.eqb k k' then Some v else last_with k l.
Proof. unfold last_with. by rewrite foldl_app. Qed.

Lemma last_with_in k l v : last_with k l = Some v → (k, v) ∈ l.
Proof.
  induction l as [|[k' v'] l IH] using rev_ind; [done|]. rewrite last_with_snoc, elem_of_app.
  destruct (String.eqb k k') eqn:E; [|auto]. apply String.eqb_eq in E as ->.
  intros [= ->]. right. apply list_elem_of_singleton. done.
Qed.

Lemma last_with_none k l : last_with k l = None ↔ k ∉ fst <$> l.
Proof.
  induction l as [|[k' v'] l IH] using rev_ind; [cbn; set_solver|].
  rewrite last_with_snoc, fmap_app, not_elem_of_app. cbn. rewrite list_elem_of_singleton.
  destruct (String.eqb k k') eqn:E; [apply String.eqb_eq in E|apply String.eqb_neq in E]; naive_solver.
Qed.

Lemma last_with_nodup k l v : NoDup (fst <$> l) → (k, v) ∈ l → last_with k l = Some v.
Proof.
  induction l as [|[k' v'] l IH] using rev_ind; [set_solver|].
  rewrite fmap_app, NoDup_app, elem_of_app, last_with_snoc. cbn. intros (Hn & Hd & _).
  rewrite list_elem_of_singleton. intros [Hin|[= -> ->]]; [|by rewrite eqb_refl].
  rewrite eqb_ne; [by auto|]. intros ->. eapply Hd; [|by left]. apply list_elem_of_fmap. by exists (k', v).
Qed.

(** Collecting a map's own bindings gives the map back. *)
Lemma bt_collect_id m : bt_wf m → bt_collect m = m.
Proof.
  intros Hm. apply bt_ext; [apply bt_collect_wf|done|]. intros k. rewrite bt_get_collect.
  destruct (bt_get k m) as [v|] eqn:E.
  - apply last_with_nodup; [by apply bt_keys_nodup|]. by apply bt_get_elem.
  - apply last_with_none. by apply bt_get_not_in.
Qed.

End lemmas.

Section two_types.
Context {V W : Type}.
Implicit Types (m : btree V) (k : string) (v : V).

Lemma bt_wf_same_keys (m : btree V) (m' : btree W) : fst <$> m' = fst <$> m → bt_wf m → bt_wf m'.
Proof. unfold bt_wf. by intros ->. Qed.

Lemma bt_collect_assoc (f : string → V → W) m : bt_wf m →
  bt_collect ((λ '(k, v), (k, f k v)) <$> m) = (λ '(k, v), (k, f k v)) <$> m.
Proof.
  intros Hm. apply bt_collect_id. eapply bt_wf_same_keys; [|exact Hm].
  rewrite <- list_fmap_compose. apply list_fmap_ext. by intros i [].
Qed.

Lemma bt_get_assoc (f : string → V → W) m k :
  bt_get k ((λ '(k, v), (k, f k v)) <$> m) = f k <$> bt_get k m.
Proof.
  induction m as [|[k' v] m IH]; cbn; [done|]. destruct (String.eqb k k') eqn:E; [|exact IH].
  by apply String.eqb_eq in E as ->.
Qed.

(** The pairs of a map whose value has a part, collected again. *)
Lemma last_with_omap (f : V → option W) m k : bt_wf m →
  last_with k (omap (λ '(k, v), pair k <$> f v) m) = bt_get k m ≫= f.
Proof.
  intros Hm. destruct (bt_get k m ≫= f) as [x|] eqn:E.
  - apply bind_Some in E as (v & Hg & Hf). apply bt_get_elem in Hg.
    apply last_with_nodup.
    + eapply sublist_NoDup; [by apply (bt_keys_nodup m)|].
      clear. induction m as [|[k v] m IH]; cbn; [done|]. destruct (f v); cbn; by constructor.
    + apply list_elem_of_omap. exists (k, v). by rewrite Hf.
  - apply last_with_none. intros ([k' x] & -> & Hin)%list_elem_of_fmap. cbn in *.
    apply list_elem_of_omap in Hin as ([k2 v] & Hin & Hf). apply fmap_Some in Hf as (y & Hf & [= -> ->]).
    apply bt_get_in in Hin; [|done]. rewrite Hin in E. cbn in E. congruence.
Qed.

End two_types.

Create HintDb btree.
#[export] Hint Resolve bt_nil_wf bt_insert_wf bt_update_wf bt_collect_wf : btree.
