(* ===== verification/Work.v ===== *)
(** control/work.rs and state_store/work.rs: the work the gateway grants this agent, what it
    folds down to (log inputs, exporter runs, a metrics interval), and the life of its one-shot
    works.  The types of wist-contracts are [WorkContracts]. *)
From S2P Require Import Prelude Text Host Telemetry LogToy Select BTree Fmt.
From stdpp Require Import pretty.

(** [wist_contracts::work] and [wist_api::work]: the structs src/ builds field by field. *)
Record StandingWork := mk_standing {
  sw_work_id : string;
  sw_agent_id : string;
  sw_family : string;
  sw_spec : string;
  sw_catalog_version : Z;
  sw_proposal_id : option string;
  sw_plan_version : Z;
  sw_effective_from : string;
  sw_status : string;
  sw_updated_by : string;
  sw_updated_at : string;
}.

Record OneShotWork := mk_one_shot {
  ow_work_id : string;
  ow_agent_id : string;
  ow_action : string;
  ow_spec : string;
  ow_scheduled_at : string;
  ow_deadline_at : string;
  ow_timeout_seconds : Z;
  ow_interruptible : bool;
  ow_status : string;
  ow_paused_at : option string;
  ow_paused_total_seconds : Z;
  ow_current_step : option string;
  ow_completed_steps : list string;
  ow_attempt : Z;
  ow_issued_by : string;
  ow_issued_at : string;
}.

Record WorkGrant := mk_grant {
  wg_agent_id : string;
  wg_standing : list StandingWork;
  wg_one_shot : list OneShotWork;
  wg_sequence : Z;
  wg_granted_at : string;
}.

(** The types src/ reads by field and the functions it calls.  [WorkSpec] has one field, the
    list of units; the error of [encode] is never looked at. *)
Class WorkContracts `{FilterContracts} := {
  WorkSpecSource : Type;
  ss_kind : WorkSpecSource → string;
  ss_target : WorkSpecSource → string;
  ss_multiline : WorkSpecSource → string;
  ss_exclude_globs : WorkSpecSource → list string;
  ss_filters : WorkSpecSource → ContainerFilters;
  ss_drop_if_contains : WorkSpecSource → list string;
  WorkSpecUnit : Type;
  unit_id : WorkSpecUnit → string;
  capability : WorkSpecUnit → string;
  unit_sources : WorkSpecUnit → list WorkSpecSource;
  file_sources : WorkSpecUnit → list WorkSpecSource;
  unsupported_sources : WorkSpecUnit → list WorkSpecSource;
  metric_interval_seconds : list WorkSpecUnit → option Z;
  spec_parse : string → string + list WorkSpecUnit;
  spec_encode : list WorkSpecUnit → option string;
  is_executable_source : string → string → bool;
  is_known_exporter : string → bool;
  parse_exporter_target : string → option (string * option string);
  is_outstanding : OneShotWork → bool;
}.

(** Serialising units and parsing the text gives them back, and a word that is not a JSON
    document is no specification. *)
Class WorkLaws `{WorkContracts} : Prop := {
  spec_parse_encode : ∀ text units, spec_parse text = inr units →
    ∃ t, spec_encode units = Some t ∧ spec_parse t = inr units;
  spec_encode_sound : ∀ units t, spec_encode units = Some t →
    spec_parse t = inr units ∨ ∃ e, spec_parse t = inl e;
  spec_parse_unparsable : ∃ e, spec_parse "unparsable" = inl e;
}.

(** * Text *)

Definition token_char (a : ascii) : bool :=
  is_ascii_alphanumeric a || Ascii.eqb a "-" || Ascii.eqb a "_".

(** One dash for each character that is not kept, whatever its number of bytes. *)
Fixpoint safe_token_fuel (fuel : nat) (raw : string) : string :=
  match fuel, raw with
  | S fuel, String a s =>
      let '(k, _) := utf8_head a s in
      String (if token_char a then a else "-"%char) (safe_token_fuel fuel (str_drop k raw))
  | _, _ => ""
  end.
Definition safe_token (raw : string) : string := safe_token_fuel (String.length raw) raw.

(** [Vec<String>::sort] *)
Definition str_le (a b : string) : Prop := String.compare a b ≠ Gt.
#[export] Instance str_le_dec : RelDecision str_le.
Proof. intros a b. unfold str_le. destruct (String.compare a b); [left|left|right]; naive_solver. Defined.
Definition sort_strings (l : list string) : list string := merge_sort str_le l.

Section Work.
Context `{WorkContracts} `{UnicodeTables}.

Record LogFileInputSection := mk_input {
  lf_input_id : string;
  lf_path : string;
  lf_startup_position : string;
  lf_multiline_mode : string;
  lf_exclude_globs : list string;
  lf_filters : ContainerFilters;
  lf_drop_if_contains : list string;
}.

Record WorkLogInput := mk_log_input {
  wl_work_id : string;
  wl_family : string;
  wl_unit_id : string;
  wl_input : LogFileInputSection;
}.

Record WorkExporterRun := mk_run {
  we_work_id : string;
  we_family : string;
  we_unit_id : string;
  we_exporter_id : string;
  we_arg : option string;
  we_target : string;
  we_input_id : string;
}.

Record UnsupportedUnit := mk_unsupported {
  uu_work_id : string;
  uu_unit_id : string;
  uu_detail : string;
}.

Record AppliedWork := mk_applied {
  aw_family : string;
  aw_plan_version : Z;
  aw_status : string;
  aw_effective_from : string;
  aw_spec : option (list WorkSpecUnit);
  aw_spec_detail : option string;
  aw_acked_plan_version : option Z;
}.

Definition is_working (w : AppliedWork) : bool :=
  String.eqb (aw_status w) "active" && is_some (aw_spec w).

Record ApplyOutcome := mk_apply {
  ao_changed : bool;
  ao_to_ack : list (string * Z);
  ao_started : list string;
  ao_stopped : list string;
  ao_unsupported : list UnsupportedUnit;
  ao_broken : list (string * string);
  ao_unexecutable_one_shot : list string;
  ao_one_shot_to_dispatch : list OneShotWork;
}.

Definition ONE_SHOT_UNEXECUTED : string := "unexecuted".

Definition is_one_shot_execution_in_flight (execution : string) : bool :=
  String.eqb execution "dispatched" || String.eqb execution "running".

Definition EXECUTABLE_ONE_SHOT_ACTIONS : list string := ["upgrade"].

Definition is_executable_one_shot_action (action : string) : bool :=
  existsb (String.eqb (trim action)) EXECUTABLE_ONE_SHOT_ACTIONS.

Record AppliedWorkGrant := mk_applied_grant {
  ag_sequence : Z;
  ag_works : btree AppliedWork;
  ag_one_shot_works : btree OneShotWork;
  ag_unexecutable_one_shot : list string;
  ag_one_shot_execution : btree string;
}.

Definition AppliedWorkGrant_default : AppliedWorkGrant := mk_applied_grant 0 [] [] [] [].

Definition is_empty (s : AppliedWorkGrant) : bool :=
  match ag_works s with [] => true | _ => false end.

(** ** [apply] *)

Definition parse_work_spec (text : string) : option (list WorkSpecUnit) * option string :=
  match spec_parse text with
  | inr spec => (Some spec, None)
  | inl err => (None, Some ("unparsable work spec: " +:+ err))
  end.

(** The acknowledgement of the same plan version is carried over. *)
Definition previous_ack (works : btree AppliedWork) (work : StandingWork) : option Z :=
  match bt_get (sw_work_id work) works with
  | Some previous =>
      if Z.eqb (aw_plan_version previous) (sw_plan_version work)
      then aw_acked_plan_version previous else None
  | None => None
  end.

Definition apply_standing_one (works : btree AppliedWork) (work : StandingWork)
    (acc : btree AppliedWork * list (string * string))
    : btree AppliedWork * list (string * string) :=
  let '(next, broken) := acc in
  let '(spec, spec_detail) := parse_work_spec (sw_spec work) in
  (bt_insert (sw_work_id work)
     (mk_applied (sw_family work) (sw_plan_version work) (sw_status work) (sw_effective_from work)
        spec spec_detail (previous_ack works work)) next,
   match spec_detail with Some detail => broken ++ [(sw_work_id work, detail)] | None => broken end).

Definition apply_standing (works : btree AppliedWork) (standing : list StandingWork)
    : btree AppliedWork * list (string * string) :=
  foldl (λ acc work, apply_standing_one works work acc) ([], []) standing.

Definition working_in (works : btree AppliedWork) (work_id : string) : bool :=
  match bt_get work_id works with Some w => is_working w | None => false end.

(** The works of [a] that work there and do not in [b]. *)
Definition newly_working (a b : btree AppliedWork) : list string :=
  fst <$> List.filter (λ '(work_id, work), is_working work && negb (working_in b work_id)) a.

Definition works_to_ack (works : btree AppliedWork) : list (string * Z) :=
  (λ '(work_id, work), (work_id, aw_plan_version work)) <$>
  List.filter (λ '(_, work), is_some (aw_spec work)
      && negb (bool_decide (aw_acked_plan_version work = Some (aw_plan_version work)))) works.

Record one_shot_pass := mk_pass {
  op_to_dispatch : list OneShotWork;
  op_unexecutable_now : list string;
  op_unexecutable_new : list string;
  op_next_execution : btree string;
}.

Definition execution_of (s : AppliedWorkGrant) (work_id : string) : string :=
  default ONE_SHOT_UNEXECUTED (bt_get work_id (ag_one_shot_execution s)).

Definition one_shot_step (s : AppliedWorkGrant) (p : one_shot_pass) (work : OneShotWork)
    : one_shot_pass :=
  let execution := execution_of s (ow_work_id work) in
  let next_execution := bt_insert (ow_work_id work) execution (op_next_execution p) in
  if is_executable_one_shot_action (ow_action work) then
    mk_pass
      (if String.eqb execution ONE_SHOT_UNEXECUTED then op_to_dispatch p ++ [work]
       else op_to_dispatch p)
      (op_unexecutable_now p) (op_unexecutable_new p) next_execution
  else
    mk_pass (op_to_dispatch p) (op_unexecutable_now p ++ [ow_work_id work])
      (if existsb (String.eqb (ow_work_id work)) (ag_unexecutable_one_shot s)
       then op_unexecutable_new p else op_unexecutable_new p ++ [ow_work_id work])
      next_execution.

(** Works that left the snapshot while they are being done keep their state and content. *)
Definition keep_in_flight (old next_execution : btree string) : btree string :=
  foldl (λ next '(work_id, execution),
           if bt_contains_key work_id next || negb (is_one_shot_execution_in_flight execution)
           then next else bt_insert work_id execution next) next_execution old.

Definition keep_works (old : btree OneShotWork) (keys : list string) (next : btree OneShotWork)
    : btree OneShotWork :=
  foldl (λ next work_id,
           if bt_contains_key work_id next then next
           else match bt_get work_id old with
                | Some previous => bt_insert work_id previous next
                | None => next
                end) next keys.

Definition apply (grant : WorkGrant) (s : AppliedWorkGrant) : ApplyOutcome * AppliedWorkGrant :=
  let '(next, broken) := apply_standing (ag_works s) (wg_standing grant) in
  let one_shot_now := List.filter is_outstanding (wg_one_shot grant) in
  let pass := foldl (one_shot_step s) (mk_pass [] [] [] []) one_shot_now in
  let next_execution := keep_in_flight (ag_one_shot_execution s) (op_next_execution pass) in
  let next_works := keep_works (ag_one_shot_works s) (fst <$> next_execution)
                      (bt_collect ((λ work, (ow_work_id work, work)) <$> one_shot_now)) in
  (mk_apply (negb (Z.eqb (wg_sequence grant) (ag_sequence s)))
     (works_to_ack next)
     (sort_strings (newly_working next (ag_works s)))
     (sort_strings (newly_working (ag_works s) next))
     [] broken (op_unexecutable_new pass) (op_to_dispatch pass),
   mk_applied_grant (wg_sequence grant) next next_works (op_unexecutable_now pass) next_execution).

Definition mark_one_shot_execution (work_id execution : string) (s : AppliedWorkGrant)
    : AppliedWorkGrant :=
  mk_applied_grant (ag_sequence s) (ag_works s) (ag_one_shot_works s)
    (ag_unexecutable_one_shot s) (bt_insert work_id execution (ag_one_shot_execution s)).

Definition one_shot_execution (work_id : string) (s : AppliedWorkGrant) : option string :=
  bt_get work_id (ag_one_shot_execution s).

Definition has_upgrade_in_flight (s : AppliedWorkGrant) : bool :=
  existsb (λ '(_, state), is_one_shot_execution_in_flight state) (ag_one_shot_execution s).

Definition set_acked (version : Z) (w : AppliedWork) : AppliedWork :=
  mk_applied (aw_family w) (aw_plan_version w) (aw_status w) (aw_effective_from w) (aw_spec w)
    (aw_spec_detail w) (Some version).

Definition mark_acked (work_id : string) (plan_version : Z) (s : AppliedWorkGrant)
    : AppliedWorkGrant :=
  mk_applied_grant (ag_sequence s) (bt_update work_id (set_acked plan_version) (ag_works s))
    (ag_one_shot_works s) (ag_unexecutable_one_shot s) (ag_one_shot_execution s).

(** ** What the works fold down to *)

(** [-1], [-2], .. only when a unit has several sources. *)
Definition source_suffix (count index : nat) : string :=
  if 1 <? count then "-" +:+ pretty (index + 1) else "".

Definition log_input_of (work_id : string) (work : AppliedWork) (unit : WorkSpecUnit)
    (count index : nat) (source : WorkSpecSource) : WorkLogInput :=
  mk_log_input work_id (aw_family work) (unit_id unit)
    (mk_input
       ("work-" +:+ safe_token (aw_family work) +:+ "-" +:+ safe_token (unit_id unit)
          +:+ source_suffix count index)
       (ss_target source) "tail" (ss_multiline source) (ss_exclude_globs source)
       (ss_filters source) (ss_drop_if_contains source)).

Definition unit_log_inputs (work_id : string) (work : AppliedWork) (unit : WorkSpecUnit)
    : list WorkLogInput :=
  if negb (String.eqb (capability unit) "collect_logs") then []
  else
    let globs := List.filter (λ source, is_executable_source (ss_kind source) (ss_target source))
                   (file_sources unit) in
    imap (log_input_of work_id work unit (length globs)) globs.

(** The units of the works that are working, in order. *)
Definition over_working_units {A} (s : AppliedWorkGrant)
    (f : string → AppliedWork → WorkSpecUnit → list A) : list A :=
  mjoin ((λ '(work_id, work),
            if is_working work then
              match aw_spec work with
              | Some spec => mjoin (f work_id work <$> spec)
              | None => []
              end
            else []) <$> ag_works s).

Definition log_inputs (s : AppliedWorkGrant) : list WorkLogInput :=
  over_working_units s unit_log_inputs.

Definition exporter_run_of (work_id : string) (work : AppliedWork) (unit : WorkSpecUnit)
    (count index : nat) (source : WorkSpecSource) : list WorkExporterRun :=
  match parse_exporter_target (ss_target source) with
  | None => []
  | Some (id, arg) =>
      [mk_run work_id (aw_family work) (unit_id unit) id arg (ss_target source)
         ("work-" +:+ safe_token (aw_family work) +:+ "-" +:+ safe_token (unit_id unit)
            +:+ "-exporter" +:+ source_suffix count index)]
  end.

Definition unit_exporter_runs (work_id : string) (work : AppliedWork) (unit : WorkSpecUnit)
    : list WorkExporterRun :=
  if negb (String.eqb (capability unit) "collect_logs") then []
  else
    let exporters := List.filter (λ source, String.eqb (ss_kind source) "Exporter"
                       && is_known_exporter (ss_target source)) (unit_sources unit) in
    mjoin (imap (exporter_run_of work_id work unit (length exporters)) exporters).

Definition exporter_runs (s : AppliedWorkGrant) : list WorkExporterRun :=
  over_working_units s unit_exporter_runs.

Definition DEFAULT_METRICS_UPLINK_SECONDS : Z := 15.

Definition metrics_seconds (spec : list WorkSpecUnit) : Z :=
  default DEFAULT_METRICS_UPLINK_SECONDS (metric_interval_seconds spec).

Definition metrics_step (seconds : option Z) (work : AppliedWork) : option Z :=
  if negb (is_working work) then seconds
  else
    match aw_spec work with
    | None => seconds
    | Some spec =>
        if negb (existsb (λ unit, String.eqb (capability unit) "collect_metrics") spec)
        then seconds
        else
          let interval := metrics_seconds spec in
          Some match seconds with Some current => Z.min current interval | None => interval end
    end.

(** In seconds. *)
Definition metrics_interval (s : AppliedWorkGrant) : option Z :=
  (λ seconds, Z.max seconds 1) <$> foldl metrics_step None (snd <$> ag_works s).

Definition unsupported_reason (source : WorkSpecSource) : string :=
  if String.eqb (ss_kind source) "FileGlob" then
    "source target " +:+ debug_str (ss_target source) +:+
    " is not a collectable absolute path (recursive `**`, `~` and relative paths are not supported)"
  else if String.eqb (ss_kind source) "Exporter" then
    "Exporter target " +:+ debug_str (ss_target source) +:+
    " is not a known exporter id (see wist_contracts::work::EXPORTER_IDS)"
  else "source kind " +:+ ss_kind source +:+ " is not collectable on this agent".

Definition unsupported_units (s : AppliedWorkGrant) : list UnsupportedUnit :=
  over_working_units s (λ work_id _ unit,
    (λ source, mk_unsupported work_id (unit_id unit) (unsupported_reason source))
      <$> unsupported_sources unit).

Definition summary (s : AppliedWorkGrant) : string :=
  "held=" +:+ pretty (length (ag_works s)) +:+
  " working=" +:+ pretty (length (List.filter is_working (snd <$> ag_works s))) +:+
  " log_inputs=" +:+ pretty (length (log_inputs s)) +:+
  " exporters=" +:+ pretty (length (exporter_runs s)) +:+
  " metrics=" +:+ match metrics_interval s with
                  | Some interval => "on(" +:+ pretty interval +:+ "s)"
                  | None => "off"
                  end +:+
  " unsupported_units=" +:+ pretty (length (unsupported_units s)) +:+
  " one_shot_pending=" +:+ pretty (length (ag_unexecutable_one_shot s)).

(** ** The local view, state/work.json *)

Record WorkTaskRecord := mk_task {
  wt_input_id : string;
  wt_path : string;
  wt_startup_position : string;
}.

Record StandingWorkRecord := mk_standing_record {
  sr_work_id : string;
  sr_family : string;
  sr_status : string;
  sr_plan_version : Z;
  sr_acknowledged_version : option Z;
  sr_effective_from : string;
  sr_units : list WorkSpecUnit;
  sr_tasks : list WorkTaskRecord;
}.

Record OneShotWorkRecord := mk_one_shot_record {
  or_work_id : string;
  or_action : string;
  or_spec : string;
  or_status : string;
  or_execution : string;
  or_scheduled_at : string;
  or_deadline_at : string;
  or_timeout_seconds : Z;
}.

Record WorkRecord := mk_work_record {
  wr_schema_version : string;
  wr_recorded_at : string;
  wr_gateway_sequence : Z;
  wr_standing : list StandingWorkRecord;
  wr_one_shot : list OneShotWorkRecord;
  wr_metrics_interval_seconds : option Z;
}.

Definition SCHEMA_VERSION_V1 : string := "v1".

Definition task_record (entry : WorkLogInput) : WorkTaskRecord :=
  mk_task (lf_input_id (wl_input entry)) (lf_path (wl_input entry))
    (lf_startup_position (wl_input entry)).

Definition standing_record (s : AppliedWorkGrant) (work_id : string) (work : AppliedWork)
    : StandingWorkRecord :=
  mk_standing_record work_id (aw_family work) (aw_status work) (aw_plan_version work)
    (aw_acked_plan_version work) (aw_effective_from work) (default [] (aw_spec work))
    (task_record <$> List.filter (λ entry, String.eqb (wl_work_id entry) work_id) (log_inputs s)).

Definition one_shot_record (s : AppliedWorkGrant) (work : OneShotWork) : OneShotWorkRecord :=
  mk_one_shot_record (ow_work_id work) (ow_action work) (ow_spec work) (ow_status work)
    (execution_of s (ow_work_id work)) (ow_scheduled_at work) (ow_deadline_at work)
    (ow_timeout_seconds work).

Definition device_view (recorded_at : string) (s : AppliedWorkGrant) : option WorkRecord :=
  if Z.eqb (ag_sequence s) 0 then None
  else
    Some (mk_work_record SCHEMA_VERSION_V1 recorded_at (ag_sequence s)
            ((λ '(work_id, work), standing_record s work_id work) <$> ag_works s)
            ((λ '(_, work), one_shot_record s work) <$> ag_one_shot_works s)
            (metrics_interval s)).

Definition standing_of_record (entry : StandingWorkRecord) : StandingWork :=
  mk_standing (sr_work_id entry) "" (sr_family entry)
    (default "unparsable" (spec_encode (sr_units entry))) 0 None (sr_plan_version entry)
    (sr_effective_from entry) (sr_status entry) "" "".

Definition one_shot_of_record (entry : OneShotWorkRecord) : OneShotWork :=
  mk_one_shot (or_work_id entry) "" (or_action entry) (or_spec entry) (or_scheduled_at entry)
    (or_deadline_at entry) (or_timeout_seconds entry) false (or_status entry) None 0 None [] 0 "" "".

Definition restore_ack (s : AppliedWorkGrant) (entry : StandingWorkRecord) : AppliedWorkGrant :=
  match sr_acknowledged_version entry with
  | Some version => mark_acked (sr_work_id entry) version s
  | None => s
  end.

Definition restore_one_shot (s : AppliedWorkGrant) (entry : OneShotWorkRecord)
    : AppliedWorkGrant :=
  mk_applied_grant (ag_sequence s) (ag_works s)
    (bt_insert (or_work_id entry) (one_shot_of_record entry) (ag_one_shot_works s))
    (if negb (is_executable_one_shot_action (or_action entry))
        && negb (existsb (String.eqb (or_work_id entry)) (ag_unexecutable_one_shot s))
     then ag_unexecutable_one_shot s ++ [or_work_id entry] else ag_unexecutable_one_shot s)
    (bt_insert (or_work_id entry) (or_execution entry) (ag_one_shot_execution s)).

Definition restore (record : WorkRecord) : AppliedWorkGrant :=
  let runtime := mk_applied_grant (wr_gateway_sequence record) [] [] [] [] in
  let runtime := (apply (mk_grant "" (standing_of_record <$> wr_standing record) []
                    (wr_gateway_sequence record) (wr_recorded_at record)) runtime).2 in
  let runtime := foldl restore_ack runtime (wr_standing record) in
  let runtime := foldl restore_one_shot runtime (wr_one_shot record) in
  mk_applied_grant (ag_sequence runtime) (ag_works runtime) (ag_one_shot_works runtime)
    (sort_strings (ag_unexecutable_one_shot runtime)) (ag_one_shot_execution runtime).


(** * What a grant turns into *)

Arguments is_executable_one_shot_action : simpl never.
Arguments is_one_shot_execution_in_flight : simpl never.

Definition applied_of (works : btree AppliedWork) (work : StandingWork) : AppliedWork :=
  mk_applied (sw_family work) (sw_plan_version work) (sw_status work) (sw_effective_from work)
    (parse_work_spec (sw_spec work)).1 (parse_work_spec (sw_spec work)).2 (previous_ack works work).

Lemma apply_standing_works works standing :
  (apply_standing works standing).1
  = bt_collect ((λ w, (sw_work_id w, applied_of works w)) <$> standing).
Proof.
  induction standing as [|w l IH] using rev_ind; [done|].
  unfold apply_standing, bt_collect in *. rewrite fmap_app, !foldl_app. cbn. rewrite <- IH.
  unfold apply_standing_one, applied_of.
  destruct (foldl _ _ l) as [next broken], (parse_work_spec (sw_spec w)) as [sp d]. done.
Qed.

(** The entry of a grant that decides a work: the last one with its id. *)
Definition granted (grant : WorkGrant) (work_id : string) : option StandingWork :=
  last_with work_id ((λ w, (sw_work_id w, w)) <$> wg_standing grant).

Lemma last_with_fmap {A B} (f : A → B) (key : A → string) (l : list A) k :
  last_with k ((λ a, (key a, f a)) <$> l) = f <$> last_with k ((λ a, (key a, a)) <$> l).
Proof.
  induction l as [|a l IH] using rev_ind; [done|]. rewrite !fmap_app. cbn.
  rewrite !last_with_snoc, IH. by destruct (String.eqb k (key a)).
Qed.

Lemma last_with_key {A} (key : A → string) (l : list A) k a :
  last_with k ((λ a, (key a, a)) <$> l) = Some a → key a = k ∧ a ∈ l.
Proof. intros Hl%last_with_in%list_elem_of_fmap. destruct Hl as (a' & [= -> ->] & Hin). done. Qed.

Lemma granted_id grant k w : granted grant k = Some w → sw_work_id w = k.
Proof. intros Hg. by apply last_with_key in Hg as [? _]. Qed.

Definition next_works_of (grant : WorkGrant) (s : AppliedWorkGrant) : btree AppliedWork :=
  (apply_standing (ag_works s) (wg_standing grant)).1.

Lemma next_works_get grant s k :
  bt_get k (next_works_of grant s) = applied_of (ag_works s) <$> granted grant k.
Proof.
  unfold next_works_of. rewrite apply_standing_works, bt_get_collect.
  apply (last_with_fmap _ sw_work_id).
Qed.

Lemma next_works_wf grant s : bt_wf (next_works_of grant s).
Proof. unfold next_works_of. rewrite apply_standing_works. apply bt_collect_wf. Qed.

(** One-shot works: the pass is four filters. *)
Definition one_shot_now (grant : WorkGrant) : list OneShotWork :=
  List.filter is_outstanding (wg_one_shot grant).

Definition dispatchable (s : AppliedWorkGrant) (work : OneShotWork) : bool :=
  is_executable_one_shot_action (ow_action work)
  && String.eqb (execution_of s (ow_work_id work)) ONE_SHOT_UNEXECUTED.

Definition unexecutable (work : OneShotWork) : bool :=
  negb (is_executable_one_shot_action (ow_action work)).

Definition newly_unexecutable (s : AppliedWorkGrant) (work : OneShotWork) : bool :=
  unexecutable work && negb (existsb (String.eqb (ow_work_id work)) (ag_unexecutable_one_shot s)).

Definition pass_of (s : AppliedWorkGrant) (l : list OneShotWork) : one_shot_pass :=
  mk_pass (List.filter (dispatchable s) l)
    (ow_work_id <$> List.filter unexecutable l)
    (ow_work_id <$> List.filter (newly_unexecutable s) l)
    (bt_collect ((λ w, (ow_work_id w, execution_of s (ow_work_id w))) <$> l)).

Lemma one_shot_pass_eq s l : foldl (one_shot_step s) (mk_pass [] [] [] []) l = pass_of s l.
Proof.
  induction l as [|w l IH] using rev_ind; [done|]. rewrite foldl_app, IH. cbn.
  unfold pass_of, one_shot_step, bt_collect. rewrite !List.filter_app, !fmap_app, foldl_app. cbn.
  unfold dispatchable, newly_unexecutable, unexecutable.
  destruct (is_executable_one_shot_action (ow_action w)), (String.eqb (execution_of s (ow_work_id w)) _),
    (existsb (String.eqb (ow_work_id w)) _); cbn; by rewrite ?(right_id_L [] (++)).
Qed.

Definition kept (old : btree string) (k : string) : option string :=
  match bt_get k old with
  | Some e => if is_one_shot_execution_in_flight e then Some e else None
  | None => None
  end.

Lemma keep_in_flight_snoc old k e next :
  keep_in_flight (old ++ [(k, e)]) next
  = if bt_contains_key k (keep_in_flight old next) || negb (is_one_shot_execution_in_flight e)
    then keep_in_flight old next else bt_insert k e (keep_in_flight old next).
Proof. unfold keep_in_flight. by rewrite foldl_app. Qed.

Lemma keep_in_flight_next old next k e :
  bt_get k next = Some e → bt_get k (keep_in_flight old next) = Some e.
Proof.
  intros Hg. induction old as [|[k' e'] old IH] using rev_ind; [done|]. rewrite keep_in_flight_snoc.
  destruct (bt_contains_key k' _) eqn:C; cbn; [done|]. destruct (is_one_shot_execution_in_flight e'); cbn; [|done].
  rewrite bt_get_insert_ne; [done|]. intros ->. unfold bt_contains_key in C. by rewrite IH in C.
Qed.

Lemma keep_in_flight_some old next k e : bt_get k (keep_in_flight old next) = Some e →
  bt_get k next = Some e ∨ (bt_get k next = None ∧ is_one_shot_execution_in_flight e = true).
Proof.
  induction old as [|[k' e'] old IH] using rev_ind; [by left|]. rewrite keep_in_flight_snoc.
  destruct (bt_contains_key k' _) eqn:C; cbn; [done|].
  destruct (is_one_shot_execution_in_flight e') eqn:F; cbn; [|done].
  rewrite bt_get_insert. destruct (String.eqb k k') eqn:E; [|done].
  apply String.eqb_eq in E as ->. intros [= ->]. right. split; [|done].
  destruct (bt_get k' next) as [e2|] eqn:G; [|done]. unfold bt_contains_key in C.
  by rewrite (keep_in_flight_next old next k' e2 G) in C.
Qed.

Lemma keep_in_flight_get old next k : NoDup (fst <$> old) → bt_get k next = None →
  bt_get k (keep_in_flight old next)
  = match last_with k old with
    | Some e => if is_one_shot_execution_in_flight e then Some e else None
    | None => None
    end.
Proof.
  intros Hd Hn. induction old as [|[k' e'] old IH] using rev_ind; [done|].
  rewrite fmap_app, NoDup_app in Hd. destruct Hd as (Hd & Hk & _). specialize (IH Hd).
  rewrite keep_in_flight_snoc, last_with_snoc.
  destruct (String.eqb k k') eqn:E.
  - apply String.eqb_eq in E as ->.
    assert (L : last_with k' old = None).
    { apply last_with_none. intros Hin. apply (Hk _ Hin). by left. }
    rewrite L in IH. unfold bt_contains_key. rewrite IH. cbn.
    destruct (is_one_shot_execution_in_flight e'); cbn; [apply bt_get_insert_eq|done].
  - apply String.eqb_neq in E.
    destruct (bt_contains_key k' _ || _); [done|]. by rewrite bt_get_insert_ne.
Qed.

Lemma keep_in_flight_wf old next : bt_wf next → bt_wf (keep_in_flight old next).
Proof.
  intros Hw. induction old as [|[k' e'] old IH] using rev_ind; [done|]. rewrite keep_in_flight_snoc.
  destruct (_ || _); auto with btree.
Qed.

Lemma keep_works_get old keys next k :
  bt_get k (keep_works old keys next)
  = match bt_get k next with
    | Some w => Some w
    | None => if bool_decide (k ∈ keys) then bt_get k old else None
    end.
Proof.
  unfold keep_works. revert next. induction keys as [|k' keys IH]; intros next; cbn [foldl].
  - by destruct (bt_get k next).
  - rewrite IH. destruct (decide (k = k')) as [->|Hne].
    + rewrite (bool_decide_eq_true_2 (k' ∈ k' :: keys)) by by left. unfold bt_contains_key.
      destruct (bt_get k' next) as [w|] eqn:E; cbn; [by rewrite E|].
      destruct (bt_get k' old) as [w|] eqn:E2; [by rewrite bt_get_insert_eq|]. rewrite E.
      by destruct (bool_decide _).
    + assert (Hb : bool_decide (k ∈ k' :: keys) = bool_decide (k ∈ keys)).
      { apply bool_decide_ext. rewrite elem_of_cons. naive_solver. }
      rewrite Hb. destruct (bt_contains_key k' next); [done|].
      destruct (bt_get k' old); [by rewrite bt_get_insert_ne|done].
Qed.

Lemma keep_works_wf old keys next : bt_wf next → bt_wf (keep_works old keys next).
Proof.
  unfold keep_works. revert next. induction keys as [|k' keys IH]; intros next Hw; cbn; [done|].
  apply IH. destruct (bt_contains_key k' next); [done|]. destruct (bt_get k' old); auto with btree.
Qed.

(** The state after a grant, map by map. *)
Definition next_execution_of (grant : WorkGrant) (s : AppliedWorkGrant) : btree string :=
  keep_in_flight (ag_one_shot_execution s) (op_next_execution (pass_of s (one_shot_now grant))).

Definition next_one_shot_of (grant : WorkGrant) (s : AppliedWorkGrant) : btree OneShotWork :=
  keep_works (ag_one_shot_works s) (fst <$> next_execution_of grant s)
    (bt_collect ((λ w, (ow_work_id w, w)) <$> one_shot_now grant)).

Lemma apply_eq grant s :
  apply grant s
  = (mk_apply (negb (Z.eqb (wg_sequence grant) (ag_sequence s)))
       (works_to_ack (next_works_of grant s))
       (sort_strings (newly_working (next_works_of grant s) (ag_works s)))
       (sort_strings (newly_working (ag_works s) (next_works_of grant s)))
       [] (apply_standing (ag_works s) (wg_standing grant)).2
       (op_unexecutable_new (pass_of s (one_shot_now grant)))
       (List.filter (dispatchable s) (one_shot_now grant)),
     mk_applied_grant (wg_sequence grant) (next_works_of grant s) (next_one_shot_of grant s)
       (op_unexecutable_now (pass_of s (one_shot_now grant))) (next_execution_of grant s)).
Proof.
  unfold apply, next_one_shot_of, next_execution_of, next_works_of. fold (one_shot_now grant).
  rewrite !one_shot_pass_eq. by destruct (apply_standing _ _).
Qed.

Definition named_now (grant : WorkGrant) (k : string) : Prop :=
  k ∈ ow_work_id <$> one_shot_now grant.

#[export] Instance named_now_dec grant k : Decision (named_now grant k).
Proof. unfold named_now. apply _. Defined.

Lemma pass_execution_get grant s k :
  bt_get k (op_next_execution (pass_of s (one_shot_now grant)))
  = if decide (named_now grant k) then Some (execution_of s k) else None.
Proof.
  cbn. rewrite bt_get_collect, (last_with_fmap (λ w, execution_of s (ow_work_id w)) ow_work_id).
  destruct (last_with k _) as [w|] eqn:E; cbn.
  - apply last_with_key in E as [<- Hin]. rewrite decide_True; [done|].
    by apply list_elem_of_fmap_2.
  - apply last_with_none in E. rewrite <- list_fmap_compose in E. by rewrite decide_False.
Qed.

Lemma next_execution_get grant s k : bt_wf (ag_one_shot_execution s) →
  bt_get k (next_execution_of grant s)
  = if decide (named_now grant k) then Some (execution_of s k)
    else kept (ag_one_shot_execution s) k.
Proof.
  intros Hw. pose proof (pass_execution_get grant s k) as Hp. unfold next_execution_of, kept.
  destruct (decide (named_now grant k)) as [Hn|Hn].
  - by apply keep_in_flight_next, Hp.
  - rewrite keep_in_flight_get by (done || by apply bt_keys_nodup).
    rewrite <- bt_get_collect, bt_collect_id by done. done.
Qed.

Lemma next_execution_wf grant s : bt_wf (next_execution_of grant s).
Proof. apply keep_in_flight_wf, bt_collect_wf. Qed.

Lemma next_one_shot_wf grant s : bt_wf (next_one_shot_of grant s).
Proof. apply keep_works_wf, bt_collect_wf. Qed.

(** ** Starting, stopping and acknowledging *)

Lemma sort_strings_in l k : k ∈ sort_strings l ↔ k ∈ l.
Proof. unfold sort_strings. by rewrite (merge_sort_Permutation str_le l). Qed.

Lemma newly_working_in a b k : bt_wf a →
  k ∈ newly_working a b ↔ working_in a k = true ∧ working_in b k = false.
Proof.
  intros Ha. unfold newly_working, working_in at 2. rewrite list_elem_of_fmap. split.
  - intros ([k' w] & -> & Hin). apply list_elem_of_In, filter_In in Hin as [Hin Hw].
    apply list_elem_of_In, bt_get_in in Hin; [|done]. cbn. rewrite Hin.
    apply andb_true_iff in Hw as [Hw Hn]. by apply negb_true_iff in Hn.
  - destruct (bt_get k a) as [w|] eqn:E; [|naive_solver]. intros [Hw Hn]. exists (k, w).
    split; [done|]. apply list_elem_of_In, filter_In. rewrite Hw, Hn. split; [|done].
    by apply list_elem_of_In, bt_get_in.
Qed.

Lemma newly_working_self a : bt_wf a → newly_working a a = [].
Proof.
  intros Ha. destruct (newly_working a a) as [|k l] eqn:E; [done|].
  assert (Hk : k ∈ newly_working a a) by (rewrite E; left).
  apply newly_working_in in Hk as [H1' H2']; [congruence|done].
Qed.

Lemma newly_working_ext a b b' : (∀ k, bt_get k b = bt_get k b') → newly_working a b = newly_working a b'.
Proof.
  intros Hb. unfold newly_working. f_equal. apply List.filter_ext. intros [k w]. unfold working_in.
  by rewrite Hb.
Qed.

(** The entry of a snapshot asks for work: its parameters parse and it is active. *)
Definition asks_for_work (w : StandingWork) : bool :=
  String.eqb (sw_status w) "active" && is_some (parse_work_spec (sw_spec w)).1.

Lemma working_after grant s k :
  working_in (next_works_of grant s) k
  = match granted grant k with Some w => asks_for_work w | None => false end.
Proof. unfold working_in. rewrite next_works_get. by destruct (granted grant k). Qed.

(** [started] and [stopped] are the change of the set of works that are being done, which
    after a snapshot is the set of its active works with readable parameters: a work the
    snapshot does not name, pauses or garbles stops. *)
Theorem started_stopped_exact (grant : WorkGrant) (s : AppliedWorkGrant) (k : string) :
  bt_wf (ag_works s) →
  let '(o, s') := apply grant s in
  working_in (ag_works s') k
    = match granted grant k with Some w => asks_for_work w | None => false end ∧
  (k ∈ ao_started o ↔ working_in (ag_works s) k = false ∧ working_in (ag_works s') k = true) ∧
  (k ∈ ao_stopped o ↔ working_in (ag_works s) k = true ∧ working_in (ag_works s') k = false).
Proof.
  intros Hw. rewrite apply_eq. cbn [ag_works ao_started ao_stopped].
  rewrite !sort_strings_in, !newly_working_in by first [done | apply next_works_wf].
  split; [apply working_after|]. naive_solver.
Qed.

Lemma works_to_ack_in works k v : bt_wf works →
  (k, v) ∈ works_to_ack works ↔ ∃ w, bt_get k works = Some w ∧ aw_plan_version w = v ∧
    aw_spec w ≠ None ∧ aw_acked_plan_version w ≠ Some v.
Proof.
  intros Hw. unfold works_to_ack. rewrite list_elem_of_fmap. split.
  - intros ([k' w] & [= -> ->] & Hin). apply list_elem_of_In, filter_In in Hin as [Hin Hf].
    apply list_elem_of_In, bt_get_in in Hin; [|done]. exists w.
    apply andb_true_iff in Hf as [Hs Hn]. apply negb_true_iff, bool_decide_eq_false in Hn.
    by destruct (aw_spec w).
  - intros (w & Hg & <- & Hs & Hn). exists (k, w). split; [done|].
    apply list_elem_of_In, filter_In. split; [by apply list_elem_of_In, bt_get_in|].
    rewrite bool_decide_eq_false_2 by done. by destruct (aw_spec w).
Qed.

(** Acknowledged are exactly the works of the snapshot whose parameters were understood, at
    the version it names, unless that very version was acknowledged before; pausing a work or
    taking it up again at the same version acknowledges nothing. *)
Theorem to_ack_exact (grant : WorkGrant) (s : AppliedWorkGrant) (k : string) (v : Z) :
  (k, v) ∈ ao_to_ack (apply grant s).1 ↔
  ∃ w, granted grant k = Some w ∧ sw_plan_version w = v ∧
    (∃ units, spec_parse (sw_spec w) = inr units) ∧
    ¬ (∃ previous, bt_get k (ag_works s) = Some previous ∧ aw_plan_version previous = v ∧
         aw_acked_plan_version previous = Some v).
Proof.
  rewrite apply_eq. cbn [fst ao_to_ack]. rewrite works_to_ack_in by apply next_works_wf.
  setoid_rewrite next_works_get. split.
  - intros (w' & (w & Hg & ->)%fmap_Some & <- & Hs & Hn). exists w. split_and!; [done|done| |].
    + unfold applied_of, parse_work_spec in Hs. cbn in Hs. destruct (spec_parse _); [done|eauto].
    + intros (p & Hp & Hv & Ha). apply Hn. cbn. unfold previous_ack.
      rewrite (granted_id _ _ _ Hg), Hp, Hv. cbn. by rewrite Z.eqb_refl.
  - intros (w & Hg & <- & (units & Hu) & Hn). exists (applied_of (ag_works s) w). rewrite Hg.
    split_and!; [done|done| |].
    + cbn. unfold parse_work_spec. by rewrite Hu.
    + cbn. unfold previous_ack. rewrite (granted_id _ _ _ Hg).
      destruct (bt_get k (ag_works s)) as [p|] eqn:Hp; [|done].
      destruct (Z.eqb_spec (aw_plan_version p) (sw_plan_version w)) as [Hv|]; [|done].
      intros Ha. apply Hn. by exists p.
Qed.

Definition mark_acks (acks : list (string * Z)) (s : AppliedWorkGrant) : AppliedWorkGrant :=
  foldl (λ s '(work_id, plan_version), mark_acked work_id plan_version s) s acks.

Lemma mark_acks_get acks s k :
  bt_get k (ag_works (mark_acks acks s))
  = match last_with k acks with
    | Some v => set_acked v <$> bt_get k (ag_works s)
    | None => bt_get k (ag_works s)
    end.
Proof.
  induction acks as [|[k' v] l IH] using rev_ind; [done|]. unfold mark_acks in *.
  rewrite foldl_app, last_with_snoc. cbn. rewrite bt_get_update, IH.
  rewrite (String.eqb_sym k' k). destruct (String.eqb k k'); [|done].
  destruct (last_with k l); [|done]. by destruct (bt_get k (ag_works s)).
Qed.

Lemma mark_acks_wf acks s : bt_wf (ag_works s) → bt_wf (ag_works (mark_acks acks s)).
Proof.
  intros Hw. induction acks as [|[k' v] l IH] using rev_ind; [done|]. unfold mark_acks in *.
  rewrite foldl_app. cbn. auto with btree.
Qed.

Lemma mark_acks_rest acks s :
  ag_sequence (mark_acks acks s) = ag_sequence s ∧
  ag_one_shot_works (mark_acks acks s) = ag_one_shot_works s ∧
  ag_unexecutable_one_shot (mark_acks acks s) = ag_unexecutable_one_shot s ∧
  ag_one_shot_execution (mark_acks acks s) = ag_one_shot_execution s.
Proof. revert s. induction acks as [|[k v] l IH]; intros s; [done|]. apply (IH (mark_acked k v s)). Qed.

(** Acknowledging converges: once the gateway has taken every acknowledgement of a snapshot,
    the same snapshot asks for none. *)
Theorem acks_converge (grant : WorkGrant) (s : AppliedWorkGrant) :
  let '(o, s1) := apply grant s in
  ao_to_ack (apply grant (mark_acks (ao_to_ack o) s1)).1 = [].
Proof.
  rewrite (apply_eq grant s). cbn [ao_to_ack]. set (s1 := mk_applied_grant _ _ _ _ _).
  set (acks := works_to_ack _). rewrite apply_eq. cbn [fst ao_to_ack].
  destruct (works_to_ack (next_works_of grant (mark_acks acks s1))) as [|[k v] l] eqn:E; [done|]. exfalso.
  assert (Hin : (k, v) ∈ works_to_ack (next_works_of grant (mark_acks acks s1))) by (rewrite E; left).
  apply works_to_ack_in in Hin as (w' & Hw & <- & Hs & Hn); [|apply next_works_wf].
  rewrite next_works_get in Hw. apply fmap_Some in Hw as (w & Hg & ->).
  apply Hn. cbn. unfold previous_ack. rewrite (granted_id _ _ _ Hg), mark_acks_get.
  assert (Hg1 : bt_get k (ag_works s1) = Some (applied_of (ag_works s) w)).
  { subst s1. cbn. by rewrite next_works_get, Hg. }
  rewrite Hg1. destruct (last_with k acks) as [v|] eqn:L; cbn; rewrite Z.eqb_refl.
  - apply last_with_in, works_to_ack_in in L as (w2 & Hw2 & <- & _); [|apply next_works_wf].
    change (bt_get k (ag_works s1) = Some w2) in Hw2. rewrite Hg1 in Hw2. by injection Hw2 as <-.
  - destruct (decide (previous_ack (ag_works s) w = Some (sw_plan_version w))) as [|Hp]; [done|].
    exfalso. apply last_with_none in L. apply L. apply list_elem_of_fmap.
    exists (k, sw_plan_version w). split; [done|]. apply works_to_ack_in; [apply next_works_wf|].
    by exists (applied_of (ag_works s) w).
Qed.

(** ** Applying the same snapshot again *)

Lemma execution_of_named grant s k : named_now grant k →
  execution_of (apply grant s).2 k = execution_of s k.
Proof.
  intros Hn. rewrite apply_eq. unfold execution_of. cbn [snd ag_one_shot_execution].
  unfold next_execution_of. erewrite keep_in_flight_next; [done|].
  rewrite pass_execution_get. by rewrite decide_True.
Qed.

Lemma one_shot_named grant w : w ∈ one_shot_now grant → named_now grant (ow_work_id w).
Proof. intros Hin. by apply list_elem_of_fmap_2. Qed.

Lemma apply_again_works grant s :
  next_works_of grant (apply grant s).2 = next_works_of grant s.
Proof.
  apply bt_ext; [apply next_works_wf..|]. intros k. rewrite !next_works_get.
  destruct (granted grant k) as [w|] eqn:Hg; [|done]. cbn. f_equal. unfold applied_of. f_equal.
  unfold previous_ack at 1. rewrite (granted_id _ _ _ Hg), apply_eq. cbn [snd ag_works].
  rewrite next_works_get, Hg. cbn. by rewrite Z.eqb_refl.
Qed.

Lemma filter_ext_in {A} (f g : A → bool) l :
  (∀ x, x ∈ l → f x = g x) → List.filter f l = List.filter g l.
Proof. intros Hf. apply List.filter_ext_in. intros x Hx. by apply Hf, list_elem_of_In. Qed.

Lemma filter_none {A} (f : A → bool) l : (∀ x, x ∈ l → f x = false) → List.filter f l = [].
Proof. intros Hf. rewrite (filter_ext_in f (λ _, false)) by done. clear Hf. by induction l. Qed.

Lemma apply_again_pass grant s :
  op_next_execution (pass_of (apply grant s).2 (one_shot_now grant))
  = op_next_execution (pass_of s (one_shot_now grant)).
Proof.
  cbn [pass_of op_next_execution]. f_equal. apply list_fmap_ext. intros i w Hw. f_equal.
  apply execution_of_named, one_shot_named. by eapply list_elem_of_lookup_2.
Qed.

Lemma apply_again_execution grant s :
  next_execution_of grant (apply grant s).2 = next_execution_of grant s.
Proof.
  apply bt_ext; [apply next_execution_wf..|]. intros k.
  rewrite next_execution_get by (rewrite apply_eq; apply next_execution_wf).
  destruct (decide (named_now grant k)) as [Hn|Hn].
  - rewrite execution_of_named by done. symmetry. apply keep_in_flight_next.
    rewrite pass_execution_get. by rewrite decide_True.
  - rewrite apply_eq. unfold kept. cbn [snd ag_one_shot_execution].
    destruct (bt_get k (next_execution_of grant s)) as [e|] eqn:E; [|done].
    pose proof E as E'. unfold next_execution_of in E'.
    apply keep_in_flight_some in E' as [E'|[_ ->]]; [|done].
    rewrite pass_execution_get in E'. by rewrite decide_False in E'.
Qed.

Lemma apply_again_one_shot grant s :
  next_one_shot_of grant (apply grant s).2 = next_one_shot_of grant s.
Proof.
  apply bt_ext; [apply next_one_shot_wf..|]. intros k. unfold next_one_shot_of at 1 2.
  rewrite !keep_works_get, apply_again_execution. rewrite apply_eq. cbn [snd ag_one_shot_works].
  unfold next_one_shot_of. rewrite keep_works_get.
  destruct (bt_get k (bt_collect _)); [done|]. by destruct (bool_decide _).
Qed.

Lemma broken_of_snapshot works1 works2 standing :
  (apply_standing works1 standing).2 = (apply_standing works2 standing).2.
Proof.
  induction standing as [|w l IH] using rev_ind; [done|].
  unfold apply_standing in *. rewrite !foldl_app. cbn. unfold apply_standing_one at 1 3.
  destruct (foldl (λ acc work, apply_standing_one works1 work acc) _ l) as [n1 b1].
  destruct (foldl (λ acc work, apply_standing_one works2 work acc) _ l) as [n2 b2].
  destruct (parse_work_spec (sw_spec w)) as [sp d]. cbn in *. by rewrite IH.
Qed.

(** Applying a snapshot is idempotent: the second time nothing changes, nothing starts or
    stops and no one-shot work is newly refused; what is still to be acknowledged, dispatched
    or reported as broken is asked for again. *)
Theorem apply_idempotent (grant : WorkGrant) (s : AppliedWorkGrant) :
  let '(o, s1) := apply grant s in
  apply grant s1
  = (mk_apply false (ao_to_ack o) [] [] [] (ao_broken o) [] (ao_one_shot_to_dispatch o), s1).
Proof.
  destruct (apply grant s) as [o s1] eqn:E.
  assert (Es : s1 = (apply grant s).2) by (by rewrite E).
  pose proof (apply_again_works grant s) as Hw. pose proof (apply_again_execution grant s) as Hx.
  pose proof (apply_again_one_shot grant s) as Ho.
  rewrite <- Es in Hw, Hx, Ho. rewrite apply_eq, Hw, Hx, Ho.
  rewrite apply_eq in E. injection E as <- E1. rewrite <- E1.
  cbn [ag_sequence ag_works ao_to_ack ao_broken ao_one_shot_to_dispatch].
  rewrite Z.eqb_refl, !newly_working_self by apply next_works_wf.
  f_equal. cbn [negb]. f_equal.
  - apply broken_of_snapshot.
  - unfold pass_of. cbn [op_unexecutable_new].
    rewrite filter_none; [done|]. intros w Hin. unfold newly_unexecutable. cbn.
    destruct (unexecutable w) eqn:U; [|done]. cbn.
    apply negb_false_iff, existsb_exists. exists (ow_work_id w). rewrite String.eqb_refl. split; [|done].
    apply list_elem_of_In, list_elem_of_fmap. exists w. split; [done|].
    by apply list_elem_of_In, filter_In; split; [apply list_elem_of_In|].
  - apply filter_ext_in. intros w Hin. unfold dispatchable. f_equal. f_equal.
    rewrite E1, Es. by apply execution_of_named, one_shot_named.
Qed.

(** ** One-shot works *)

(** Dispatched are exactly the outstanding works of the snapshot whose action this agent can
    do and that it has not begun: never seen, or seen and not yet handed to the upgrader. *)
Theorem dispatch_exact (grant : WorkGrant) (s : AppliedWorkGrant) (w : OneShotWork) :
  w ∈ ao_one_shot_to_dispatch (apply grant s).1 ↔
  w ∈ wg_one_shot grant ∧ is_outstanding w = true ∧ trim (ow_action w) = "upgrade" ∧
  (one_shot_execution (ow_work_id w) s = None ∨
   one_shot_execution (ow_work_id w) s = Some "unexecuted").
Proof.
  rewrite apply_eq. cbn [fst ao_one_shot_to_dispatch].
  unfold one_shot_now, dispatchable, execution_of, one_shot_execution.
  rewrite list_elem_of_In, !filter_In, <- list_elem_of_In, andb_true_iff.
  unfold is_executable_one_shot_action. cbn. rewrite orb_false_r, !String.eqb_eq.
  destruct (bt_get _ (ag_one_shot_execution s)) as [e|]; cbn; unfold ONE_SHOT_UNEXECUTED; naive_solver.
Qed.

(** What holds of every state the agent gets into. *)
Record held_wf (s : AppliedWorkGrant) : Prop := mk_held_wf {
  hw_works : bt_wf (ag_works s);
  hw_one_shot : bt_wf (ag_one_shot_works s);
  hw_execution : bt_wf (ag_one_shot_execution s);
  hw_keys : ∀ k w, bt_get k (ag_one_shot_works s) = Some w → ow_work_id w = k;
  hw_dom : ∀ k, is_Some (bt_get k (ag_one_shot_execution s)) ↔
                is_Some (bt_get k (ag_one_shot_works s));
  hw_specs : ∀ k w units, bt_get k (ag_works s) = Some w → aw_spec w = Some units →
               ∃ text, spec_parse text = inr units;
}.

Lemma parse_work_spec_some text units :
  (parse_work_spec text).1 = Some units ↔ spec_parse text = inr units.
Proof. unfold parse_work_spec. destruct (spec_parse text); naive_solver. Qed.

Lemma default_wf : held_wf AppliedWorkGrant_default.
Proof. split; cbn; auto with btree; done. Qed.

Lemma named_now_last grant k : named_now grant k ↔
  is_Some (bt_get k (bt_collect ((λ w, (ow_work_id w, w)) <$> one_shot_now grant))).
Proof.
  rewrite bt_get_collect, <- not_eq_None_Some, last_with_none, <- list_fmap_compose.
  unfold named_now. split; [intros ? Hn; by apply Hn|]. intros Hn. destruct (decide (k ∈ ow_work_id <$> one_shot_now grant)); [done|].
  by destruct Hn.
Qed.

Lemma bt_in_keys {V} k (m : btree V) : k ∈ fst <$> m ↔ is_Some (bt_get k m).
Proof.
  rewrite <- not_eq_None_Some, <- bt_get_not_in. split; [intros ? Hn; by apply Hn|].
  intros Hn. destruct (decide (k ∈ fst <$> m)); [done|]. by destruct Hn.
Qed.

Lemma apply_wf grant s : held_wf s → held_wf (apply grant s).2.
Proof.
  intros [Hw Ho Hx Hk Hd Hs]. rewrite apply_eq. cbn [snd].
  split; cbn [ag_works ag_one_shot_works ag_one_shot_execution].
  - apply next_works_wf.
  - apply next_one_shot_wf.
  - apply next_execution_wf.
  - intros k w. unfold next_one_shot_of. rewrite keep_works_get.
    destruct (bt_get k (bt_collect _)) as [w'|] eqn:E.
    + intros [= ->]. rewrite bt_get_collect in E. by apply last_with_key in E as [? _].
    + destruct (bool_decide _); [apply Hk|done].
  - intros k. unfold next_one_shot_of. rewrite keep_works_get.
    pose proof (named_now_last grant k) as Hn. pose proof (next_execution_get grant s k Hx) as Hg.
    destruct (bt_get k (bt_collect _)) as [w|] eqn:E.
    + rewrite decide_True in Hg by by apply Hn. rewrite Hg. naive_solver.
    + rewrite decide_False in Hg by (intros N; apply Hn in N as [? [=]]).
      destruct (bool_decide_reflect (k ∈ fst <$> next_execution_of grant s)) as [I|I];
        rewrite bt_in_keys in I; [|naive_solver].
      rewrite <- Hd. split; [|done]. rewrite Hg. unfold kept.
      destruct (bt_get k (ag_one_shot_execution s)); [done|]. by intros [? [=]].
  - intros k w units. rewrite next_works_get. intros (g & _ & ->)%fmap_Some Hu.
    apply parse_work_spec_some in Hu. eauto.
Qed.

Lemma mark_execution_wf id e s : one_shot_execution id s ≠ None → held_wf s →
  held_wf (mark_one_shot_execution id e s).
Proof.
  intros Hi [Hw Ho Hx Hk Hd Hs]. split; cbn; auto with btree.
  intros k. rewrite bt_get_insert, <- Hd. destruct (String.eqb k id) eqn:E; [|done].
  apply String.eqb_eq in E as ->. split; [|eauto]. intros _. by apply not_eq_None_Some.
Qed.

Lemma mark_acked_wf id v s : held_wf s → held_wf (mark_acked id v s).
Proof.
  intros [Hw Ho Hx Hk Hd Hs]. split; cbn; auto with btree.
  intros k w units. rewrite bt_get_update. destruct (String.eqb id k); [|apply Hs].
  intros (w' & Hg & ->)%fmap_Some. by apply (Hs k w' units Hg).
Qed.

(** *** Restoring from the local view *)

Definition record_acks (entries : list StandingWorkRecord) : list (string * Z) :=
  omap (λ e, pair (sr_work_id e) <$> sr_acknowledged_version e) entries.

Definition restored_works (record : WorkRecord) : btree AppliedWork :=
  ag_works (mark_acks (record_acks (wr_standing record))
    (mk_applied_grant 0 (apply_standing [] (standing_of_record <$> wr_standing record)).1 [] [] [])).

Lemma restore_acks_eq entries s :
  foldl restore_ack s entries = mark_acks (record_acks entries) s.
Proof.
  revert s. induction entries as [|e l IH]; intros s; [done|]. cbn. rewrite IH.
  unfold restore_ack. by destruct (sr_acknowledged_version e).
Qed.

Lemma mark_acks_works acks s1 s2 : ag_works s1 = ag_works s2 →
  ag_works (mark_acks acks s1) = ag_works (mark_acks acks s2).
Proof.
  revert s1 s2. induction acks as [|[k v] l IH]; intros s1 s2 E; [done|]. cbn. apply IH. cbn. by rewrite E.
Qed.

Lemma restore_one_shots entries s :
  let s' := foldl restore_one_shot s entries in
  ag_sequence s' = ag_sequence s ∧ ag_works s' = ag_works s ∧
  ag_one_shot_works s' = foldl (λ m '(k, v), bt_insert k v m) (ag_one_shot_works s)
    ((λ e, (or_work_id e, one_shot_of_record e)) <$> entries) ∧
  ag_one_shot_execution s' = foldl (λ m '(k, v), bt_insert k v m) (ag_one_shot_execution s)
    ((λ e, (or_work_id e, or_execution e)) <$> entries).
Proof.
  revert s. induction entries as [|e l IH]; intros s; [done|]. cbn.
  destruct (IH (restore_one_shot s e)) as (H1' & H2' & H3' & H4'). by rewrite H1', H2', H3', H4'.
Qed.

Lemma restore_eq record :
  ag_sequence (restore record) = wr_gateway_sequence record ∧
  ag_works (restore record) = restored_works record ∧
  ag_one_shot_works (restore record)
    = bt_collect ((λ e, (or_work_id e, one_shot_of_record e)) <$> wr_one_shot record) ∧
  ag_one_shot_execution (restore record)
    = bt_collect ((λ e, (or_work_id e, or_execution e)) <$> wr_one_shot record).
Proof.
  unfold restore. rewrite restore_acks_eq, apply_eq. cbn [snd].
  match goal with |- context [mark_acks _ ?s] => set (s0 := s) end.
  destruct (restore_one_shots (wr_one_shot record) (mark_acks (record_acks (wr_standing record)) s0))
    as (Hq & Hw & Ho & Hx).
  destruct (mark_acks_rest (record_acks (wr_standing record)) s0) as (Eq & Eo & _ & Ex).
  rewrite Eo in Ho. rewrite Ex in Hx. rewrite Eq in Hq.
  cbn [ag_sequence ag_works ag_one_shot_works ag_one_shot_execution]. rewrite Hq, Hw, Ho, Hx.
  split_and!; [done| |done|done]. unfold restored_works. by apply mark_acks_works.
Qed.

(** What becomes of a work that goes through the record. *)
Definition restored (w : AppliedWork) : AppliedWork :=
  mk_applied (aw_family w) (aw_plan_version w) (aw_status w) (aw_effective_from w)
    (parse_work_spec (default "unparsable" (spec_encode (default [] (aw_spec w))))).1
    (parse_work_spec (default "unparsable" (spec_encode (default [] (aw_spec w))))).2
    (aw_acked_plan_version w).

Definition one_shot_through_record (s : AppliedWorkGrant) (w : OneShotWork) : OneShotWork :=
  one_shot_of_record (one_shot_record s w).

Lemma device_view_inv t s v : device_view t s = Some v →
  ag_sequence s ≠ 0%Z ∧
  v = mk_work_record SCHEMA_VERSION_V1 t (ag_sequence s)
        ((λ '(work_id, work), standing_record s work_id work) <$> ag_works s)
        ((λ '(_, work), one_shot_record s work) <$> ag_one_shot_works s) (metrics_interval s).
Proof. unfold device_view. destruct (Z.eqb_spec (ag_sequence s) 0) as [|Hn]; [done|]. by intros [= <-]. Qed.

Lemma device_view_some t s : Z.eqb (ag_sequence s) 0 = false → ∃ v, device_view t s = Some v.
Proof. unfold device_view. intros ->. eauto. Qed.

Lemma restored_works_view t s v : held_wf s → device_view t s = Some v →
  ag_works (restore v) = (λ '(k, w), (k, restored w)) <$> ag_works s.
Proof.
  intros Hs [_ ->]%device_view_inv. destruct (restore_eq (mk_work_record SCHEMA_VERSION_V1 t
    (ag_sequence s) ((λ '(k, w), standing_record s k w) <$> ag_works s)
    ((λ '(_, w), one_shot_record s w) <$> ag_one_shot_works s) (metrics_interval s))) as (_ & -> & _).
  unfold restored_works. cbn [wr_standing]. rewrite apply_standing_works, <- !list_fmap_compose.
  set (base := bt_collect _).
  assert (Hb : base = (λ '(k, w), (k, applied_of [] (standing_of_record (standing_record s k w))))
                        <$> ag_works s).
  { subst base. rewrite <- (bt_collect_assoc
      (λ k w, applied_of [] (standing_of_record (standing_record s k w)))) by apply Hs.
    f_equal. apply list_fmap_ext. by intros i []. }
  assert (Ha : record_acks ((λ '(k, w), standing_record s k w) <$> ag_works s)
               = omap (λ '(k, w), pair k <$> aw_acked_plan_version w) (ag_works s)).
  { unfold record_acks. clear. induction (ag_works s) as [|[k w] l IH]; [done|]. cbn. by rewrite IH. }
  apply bt_ext.
  - apply mark_acks_wf. cbn. apply bt_collect_wf.
  - eapply bt_wf_same_keys; [|apply (hw_works s Hs)]. rewrite <- list_fmap_compose.
    apply list_fmap_ext. by intros i [].
  - intros k. rewrite mark_acks_get, Ha, last_with_omap by apply Hs. cbn [ag_works].
    rewrite Hb, !(bt_get_assoc (λ k w, applied_of [] (standing_of_record (standing_record s k w)))),
      (bt_get_assoc (λ _ w, restored w)).
    destruct (bt_get k (ag_works s)) as [w|] eqn:E; [|done]. cbn. unfold restored, applied_of.
    destruct (aw_acked_plan_version w); done.
Qed.

Lemma restored_one_shot_view t s v : held_wf s → device_view t s = Some v →
  ag_one_shot_works (restore v)
    = (λ '(k, w), (k, one_shot_through_record s w)) <$> ag_one_shot_works s ∧
  ag_one_shot_execution (restore v)
    = (λ '(k, w), (k, execution_of s k)) <$> ag_one_shot_works s.
Proof.
  intros Hs [_ ->]%device_view_inv. destruct (restore_eq (mk_work_record SCHEMA_VERSION_V1 t
    (ag_sequence s) ((λ '(k, w), standing_record s k w) <$> ag_works s)
    ((λ '(_, w), one_shot_record s w) <$> ag_one_shot_works s) (metrics_interval s)))
    as (_ & _ & -> & ->). cbn [wr_one_shot]. rewrite <- !list_fmap_compose.
  assert (Hk : ∀ k w, (k, w) ∈ ag_one_shot_works s → ow_work_id w = k).
  { intros k w Hin. apply bt_get_in in Hin; [|apply Hs]. by apply (hw_keys s Hs). }
  split.
  - rewrite <- (bt_collect_assoc (λ _ w, one_shot_through_record s w)) by apply Hs. f_equal.
    apply list_fmap_ext. intros i [k w] Hl%list_elem_of_lookup_2. unfold compose.
    unfold one_shot_through_record. f_equal. by apply Hk.
  - rewrite <- (bt_collect_assoc (λ k _, execution_of s k)) by apply Hs. f_equal.
    apply list_fmap_ext. intros i [k w] Hl%list_elem_of_lookup_2. cbn. by rewrite (Hk k w Hl).
Qed.

Lemma restore_execution_get t s v k : held_wf s → device_view t s = Some v →
  one_shot_execution k (restore v) = one_shot_execution k s.
Proof.
  intros Hs Hv. unfold one_shot_execution.
  destruct (restored_one_shot_view t s v Hs Hv) as [_ ->].
  rewrite (bt_get_assoc (λ k _, execution_of s k)). unfold execution_of.
  pose proof (hw_dom s Hs k) as Hd.
  destruct (bt_get k (ag_one_shot_execution s)), (bt_get k (ag_one_shot_works s)); try done.
  - destruct Hd as [Hd _]. by destruct Hd as [? [=]].
  - destruct Hd as [_ Hd]. by destruct Hd as [? [=]].
Qed.

Lemma restore_wf t s v : held_wf s → device_view t s = Some v → held_wf (restore v).
Proof.
  intros Hs Hv. pose proof (restored_works_view t s v Hs Hv) as Ew.
  destruct (restored_one_shot_view t s v Hs Hv) as [Eo Ex].
  assert (Hfst : ∀ {A B} (f : string → A → B) (m : btree A), bt_wf m →
            bt_wf ((λ '(k, a), (k, f k a)) <$> m)).
  { intros A B f m. apply bt_wf_same_keys. rewrite <- list_fmap_compose. apply list_fmap_ext. by intros i []. }
  split; rewrite ?Ew, ?Eo, ?Ex.
  - apply (Hfst _ _ (λ _ w, restored w)), Hs.
  - apply (Hfst _ _ (λ _ w, one_shot_through_record s w)), Hs.
  - apply (Hfst _ _ (λ k _, execution_of s k)), Hs.
  - intros k w. rewrite (bt_get_assoc (λ _ w, one_shot_through_record s w)).
    intros (w' & Hg & ->)%fmap_Some. by apply (hw_keys s Hs) in Hg.
  - intros k. rewrite (bt_get_assoc (λ _ w, one_shot_through_record s w)),
      (bt_get_assoc (λ k _, execution_of s k)), !fmap_is_Some. done.
  - intros k w units. rewrite (bt_get_assoc (λ _ w, restored w)).
    intros (w' & Hg & ->)%fmap_Some Hu. apply parse_work_spec_some in Hu. eauto.
Qed.

(** *** The round trip of the local view *)

Section round_trip.
Context `{!WorkLaws}.

Lemma restored_spec w : (∀ units, aw_spec w = Some units → ∃ text, spec_parse text = inr units) →
  default [] (aw_spec (restored w)) = default [] (aw_spec w) ∧
  (aw_spec w ≠ None → aw_spec (restored w) = aw_spec w).
Proof.
  intros Hp. unfold restored. cbn [aw_spec]. destruct (aw_spec w) as [units|] eqn:E.
  - destruct (Hp units eq_refl) as [text Ht]. apply spec_parse_encode in Ht as (t & Ht & Hu).
    change (default [] (Some units)) with units. rewrite Ht. cbn. unfold parse_work_spec. by rewrite Hu.
  - split; [|done]. cbn. destruct (spec_encode []) as [t|] eqn:Et; cbn; unfold parse_work_spec.
    + destruct (spec_encode_sound _ _ Et) as [->|[e ->]]; done.
    + destruct spec_parse_unparsable as [e ->]. done.
Qed.

Lemma over_working_units_eq {A} s (f : string → AppliedWork → WorkSpecUnit → list A) :
  over_working_units s f
  = mjoin ((λ '(k, w), if String.eqb (aw_status w) "active"
                       then mjoin (f k w <$> default [] (aw_spec w)) else []) <$> ag_works s).
Proof.
  unfold over_working_units. f_equal. apply list_fmap_ext. intros i [k w] _. unfold is_working.
  destruct (String.eqb (aw_status w) "active"); [|done]. by destruct (aw_spec w).
Qed.

Lemma over_working_units_restore {A} t s v (f : string → AppliedWork → WorkSpecUnit → list A) :
  held_wf s → device_view t s = Some v →
  (∀ k w1 w2 u, aw_family w1 = aw_family w2 → f k w1 u = f k w2 u) →
  over_working_units (restore v) f = over_working_units s f.
Proof.
  intros Hs Hv Hf. rewrite !over_working_units_eq, (restored_works_view t s v Hs Hv).
  rewrite <- list_fmap_compose. f_equal. apply list_fmap_ext.
  intros i [k w] Hl%list_elem_of_lookup_2. cbn.
  apply bt_get_in in Hl; [|apply Hs].
  destruct (restored_spec w (λ u, hw_specs s Hs k w u Hl)) as [E _]. cbn in E. rewrite E.
  destruct (String.eqb _ _); [|done]. f_equal. apply list_fmap_ext. intros j u _. by apply Hf.
Qed.

Lemma metrics_step_eq seconds w :
  metrics_step seconds w
  = if String.eqb (aw_status w) "active"
       && existsb (λ unit, String.eqb (capability unit) "collect_metrics") (default [] (aw_spec w))
    then Some match seconds with
              | Some current => Z.min current (metrics_seconds (default [] (aw_spec w)))
              | None => metrics_seconds (default [] (aw_spec w))
              end
    else seconds.
Proof.
  unfold metrics_step, is_working. destruct (String.eqb _ _), (aw_spec w) as [spec|]; cbn; try done.
  by destruct (existsb _ spec).
Qed.

Lemma metrics_interval_restore t s v : held_wf s → device_view t s = Some v →
  metrics_interval (restore v) = metrics_interval s.
Proof.
  intros Hs Hv. unfold metrics_interval. f_equal. rewrite (restored_works_view t s v Hs Hv).
  assert (Hin : ∀ k w, (k, w) ∈ ag_works s → default [] (aw_spec (restored w)) = default [] (aw_spec w)).
  { intros k w Hin. apply bt_get_in in Hin; [|apply Hs].
    by destruct (restored_spec w (λ u, hw_specs s Hs k w u Hin)). }
  generalize (@None Z). induction (ag_works s) as [|[k w] l IH]; intros o; [done|].
  cbn [fmap list_fmap foldl snd]. rewrite !metrics_step_eq, (Hin k w) by left.
  apply IH. intros k' w' Hk. apply (Hin k' w'). by right.
Qed.

(** Storing the local view and restoring from it is a round trip: the restored state has the
    same view, that is the same works, units, tasks, acknowledged versions, one-shot works with
    their progress, and metrics interval. *)
Theorem restore_view_roundtrip (t : string) (s : AppliedWorkGrant) (v : WorkRecord) :
  held_wf s → device_view t s = Some v → device_view t (restore v) = Some v.
Proof.
  intros Hs Hv. pose proof (restored_works_view t s v Hs Hv) as Ew.
  destruct (restored_one_shot_view t s v Hs Hv) as [Eo _].
  pose proof (λ k, restore_execution_get t s v k Hs Hv) as Ex.
  pose proof (metrics_interval_restore t s v Hs Hv) as Em.
  assert (El : log_inputs (restore v) = log_inputs s).
  { apply (over_working_units_restore t); [done|done|]. intros k w1 w2 u E.
    unfold unit_log_inputs, log_input_of. by rewrite E. }
  destruct (device_view_inv t s v Hv) as [Hn Hv'].
  assert (Eq : ag_sequence (restore v) = ag_sequence s).
  { destruct (restore_eq v) as [-> _]. by rewrite Hv'. }
  unfold device_view. rewrite Eq. destruct (Z.eqb_spec (ag_sequence s) 0); [done|].
  set (r := restore v) in *. clearbody r. subst v. rewrite Em. f_equal. f_equal.
  - rewrite Ew, <- list_fmap_compose. apply list_fmap_ext.
    intros i [k w] Hl%list_elem_of_lookup_2. apply bt_get_in in Hl; [|apply Hs]. cbn.
    unfold standing_record. rewrite El. cbn [aw_spec restored].
    destruct (restored_spec w (λ u, hw_specs s Hs k w u Hl)) as [E _]. cbn in E. by rewrite E.
  - rewrite Eo, <- list_fmap_compose. apply list_fmap_ext. intros i [k w] _. cbn.
    unfold one_shot_record, execution_of. unfold one_shot_execution in Ex. by rewrite Ex.
Qed.

End round_trip.

(** *** One upgrade is handed out once *)

Inductive work_event :=
| WApply (grant : WorkGrant)
| WMark (work_id execution : string)
| WAck (work_id : string) (plan_version : Z)
| WStore (recorded_at : string)
| WRestart.

(** What the agent holds in memory, and the view that lies in state/work.json. *)
Record WorkLife := mk_life { wl_memory : AppliedWorkGrant; wl_view : option WorkRecord }.
Definition restored_from (view : option WorkRecord) : AppliedWorkGrant :=
  match view with Some v => restore v | None => AppliedWorkGrant_default end.

(** The life of the agent: snapshots arrive, the progress of held works is marked, versions are acknowledged, now and
    then the view is stored, and the process restarts from the view that was stored last, if there is one. *)
Inductive work_step : WorkLife → work_event → list OneShotWork → WorkLife → Prop :=
| step_apply grant s d : wg_sequence grant ≠ 0%Z →
    work_step (mk_life s d) (WApply grant) (ao_one_shot_to_dispatch (apply grant s).1) (mk_life (apply grant s).2 d)
| step_mark work_id execution s d : one_shot_execution work_id s ≠ None →
    work_step (mk_life s d) (WMark work_id execution) [] (mk_life (mark_one_shot_execution work_id execution s) d)
| step_ack work_id v s d : work_step (mk_life s d) (WAck work_id v) [] (mk_life (mark_acked work_id v s) d)
| step_store t s d v : device_view t s = Some v → work_step (mk_life s d) (WStore t) [] (mk_life s (Some v))
| step_restart s d : work_step (mk_life s d) WRestart [] (mk_life (restored_from d) d).

Inductive work_run : WorkLife → list work_event → list OneShotWork → WorkLife → Prop :=
| run_nil l : work_run l [] [] l
| run_cons l ev ds l1 evs ds' l2 :
    work_step l ev ds l1 → work_run l1 evs ds' l2 → work_run l (ev :: evs) (ds ++ ds') l2.

(** The view is stored before the process restarts for the first time. *)
Fixpoint stored_first (evs : list work_event) : bool :=
  match evs with [] | WStore _ :: _ => true | WRestart :: _ => false | _ :: evs => stored_first evs end.

Definition life_wf (l : WorkLife) : Prop := held_wf (wl_memory l) ∧ held_wf (restored_from (wl_view l)).
Lemma work_step_wf l ev ds l' : work_step l ev ds l' → life_wf l → life_wf l'.
Proof.
  intros Hst [Hs Hd]. destruct Hst as [grant s d Hq|id e s d Hn|id v s d|t s d v Hv|s d]; unfold life_wf; cbn [wl_memory wl_view restored_from] in *.
  - split; [by apply apply_wf|done].
  - split; [by apply mark_execution_wf|done].
  - split; [by apply mark_acked_wf|done].
  - split; [done|by apply (restore_wf t s)].
  - by split.
Qed.

Definition in_flight (work_id : string) (s : AppliedWorkGrant) : Prop :=
  ∃ e, one_shot_execution work_id s = Some e ∧ is_one_shot_execution_in_flight e = true.

Lemma has_upgrade_in_flight_spec s : held_wf s →
  has_upgrade_in_flight s = true ↔ ∃ k, in_flight k s.
Proof.
  intros Hs. unfold has_upgrade_in_flight. rewrite existsb_exists. split.
  - intros ([k e] & Hin & He). exists k, e. split; [|done].
    apply bt_get_in; [apply Hs|by apply list_elem_of_In].
  - intros (k & e & Hg & He). exists (k, e). split; [|done]. apply list_elem_of_In.
    by apply bt_get_in; [apply Hs|].
Qed.

Lemma in_flight_not_unexecuted e : is_one_shot_execution_in_flight e = true → e ≠ ONE_SHOT_UNEXECUTED.
Proof. by intros Hf ->. Qed.

Lemma apply_in_flight grant s k : held_wf s → in_flight k s →
  in_flight k (apply grant s).2 ∧
  k ∉ ow_work_id <$> ao_one_shot_to_dispatch (apply grant s).1.
Proof.
  intros Hs (e & Hg & He). split.
  - exists e. split; [|done]. rewrite apply_eq. unfold one_shot_execution in *. cbn [snd ag_one_shot_execution].
    rewrite next_execution_get by apply Hs. unfold execution_of, kept. rewrite Hg. cbn. rewrite He.
    by destruct (decide _).
  - intros (w & -> & Hin)%list_elem_of_fmap. rewrite apply_eq in Hin.
    apply list_elem_of_In, filter_In in Hin as [_ Hd]. apply andb_true_iff in Hd as [_ Hd].
    apply String.eqb_eq in Hd. unfold execution_of, one_shot_execution in *. rewrite Hg in Hd. cbn in Hd.
    by apply in_flight_not_unexecuted in He.
Qed.

(** A work is being done, in memory and in the view that is stored, or in memory alone until the view is stored. *)
Definition on_record (k : string) (l : WorkLife) : Prop := in_flight k (restored_from (wl_view l)).
Lemma work_step_in_flight l ev ds l' k evs : work_step l ev ds l' → life_wf l → in_flight k (wl_memory l) →
  on_record k l ∨ stored_first (ev :: evs) = true → (∀ e, ev = WMark k e → is_one_shot_execution_in_flight e = true) →
  in_flight k (wl_memory l') ∧ (on_record k l' ∨ stored_first evs = true) ∧ k ∉ ow_work_id <$> ds.
Proof.
  intros Hst [Hs Hd] Hf Hr Hm. destruct Hst as [grant s d Hq|id e s d Hn|id v s d|t s d v Hv|s d]; cbn [wl_memory wl_view] in *.
  - destruct (apply_in_flight grant s k Hs Hf) as [? ?]. by split_and!.
  - split_and!; [|done|cbn; set_solver]. unfold in_flight, one_shot_execution. cbn. rewrite bt_get_insert.
    destruct (String.eqb_spec k id) as [->|]; [|done]. exists e. split; [done|]. by apply Hm.
  - split_and!; [done|done|cbn; set_solver].
  - split_and!; [done|left|cbn; set_solver]. destruct Hf as (e & Hg & He). exists e. split; [|done]. change (one_shot_execution k (restore v) = Some e).
    by rewrite (restore_execution_get t s v).
  - destruct Hr as [Hr|Hr]; [|done]. split_and!; [done|by left|cbn; set_solver].
Qed.

(** C5. A one-shot work that is being done is never handed out again, whatever snapshots come, whether they still name
    it or not, until its progress is marked with a final state; until then it stays on record with its content, and
    blocks other upgrades.  This holds over restarts from the view on disk, provided that the view on disk says that
    the work is being done, or is stored before the first restart. *)
Theorem dispatched_once (l l' : WorkLife) (evs : list work_event) (ds : list OneShotWork) (k : string) :
  life_wf l → work_run l evs ds l' → in_flight k (wl_memory l) → on_record k l ∨ stored_first evs = true →
  (∀ e, WMark k e ∈ evs → is_one_shot_execution_in_flight e = true) →
  (k ∉ ow_work_id <$> ds) ∧ in_flight k (wl_memory l') ∧ has_upgrade_in_flight (wl_memory l') = true ∧
  (∃ w, bt_get k (ag_one_shot_works (wl_memory l')) = Some w ∧ ow_work_id w = k).
Proof.
  intros Hs Hr Hf Hd Hm. cut ((k ∉ ow_work_id <$> ds) ∧ in_flight k (wl_memory l') ∧ held_wf (wl_memory l')).
  { intros (Hn & Hf' & Hs'). split_and!; [done|done|by apply has_upgrade_in_flight_spec; [|exists k]|].
    destruct Hf' as (e & Hg & _). destruct (proj1 (hw_dom _ Hs' k)) as [w Hw]; [by eexists|].
    exists w. split; [done|]. by eapply hw_keys. }
  induction Hr as [l|l ev ds l1 evs ds' l2 Hst Hr IH]; [split_and!; [cbn; set_solver|done|apply Hs]|].
  destruct (work_step_in_flight _ _ _ _ k evs Hst Hs Hf Hd) as (Hf1 & Hd1 & Hn1); [intros e ->; apply Hm; by left|].
  destruct IH as (Hn2 & Hf2 & Hs2); [by eapply work_step_wf|done|done| |].
  { intros e He. apply Hm. by right. }
  split_and!; [|done|done]. rewrite fmap_app, not_elem_of_app. done.
Qed.

(** ** The metrics interval *)

(** A work that is being done and collects metrics. *)
Definition wants_metrics (w : AppliedWork) : bool :=
  is_working w
  && existsb (λ unit, String.eqb (capability unit) "collect_metrics") (default [] (aw_spec w)).

Definition wanted_seconds (w : AppliedWork) : Z := metrics_seconds (default [] (aw_spec w)).

Definition min_option (o : option Z) (z : Z) : Z := match o with Some c => Z.min c z | None => z end.

Lemma metrics_step_wants seconds w :
  metrics_step seconds w
  = if wants_metrics w then Some (min_option seconds (wanted_seconds w)) else seconds.
Proof.
  unfold metrics_step, wants_metrics, wanted_seconds. destruct (is_working w) eqn:E; [|done].
  unfold is_working in E. destruct (aw_spec w) as [spec|]; cbn in *; [|by rewrite andb_false_r in E].
  by destruct (existsb _ spec).
Qed.

Lemma metrics_fold l o :
  match foldl metrics_step o l with
  | None => o = None ∧ ∀ w, w ∈ l → wants_metrics w = false
  | Some d => (∀ c, o = Some c → (d ≤ c)%Z) ∧
      (∀ w, w ∈ l → wants_metrics w = true → (d ≤ wanted_seconds w)%Z) ∧
      (o = Some d ∨ ∃ w, w ∈ l ∧ wants_metrics w = true ∧ d = wanted_seconds w)
  end.
Proof.
  revert o. induction l as [|w l IH]; intros o; cbn [foldl].
  - destruct o as [c|]; [|by split; [|set_solver]]. split_and!; [by intros ? [= ->]|set_solver|by left].
  - rewrite metrics_step_wants. specialize (IH (if wants_metrics w then Some (min_option o (wanted_seconds w)) else o)).
    destruct (foldl metrics_step _ l) as [d|].
    + destruct IH as (Hc & Hl & Ha). setoid_rewrite elem_of_cons. destruct (wants_metrics w) eqn:E.
      * specialize (Hc _ eq_refl). unfold min_option in *. split_and!.
        -- intros c ->. lia.
        -- intros w' [->|Hin] Hw; [destruct o; lia|by apply Hl].
        -- destruct Ha as [[= <-]|(w' & Hin & Hw & ->)]; [|by eauto 6].
           destruct o as [c|]; [|by eauto 6].
           destruct (Z.min_spec c (wanted_seconds w)) as [[_ ->]|[_ ->]]; eauto 6.
      * split_and!; [done| |naive_solver]. intros w' [->|Hin] Hw; [congruence|by apply Hl].
    + destruct IH as [Hc Hl]. destruct (wants_metrics w) eqn:E; [done|]. split; [done|].
      intros w' [->|Hin]%elem_of_cons; [done|by apply Hl].
Qed.

(** Metrics are sent when, and only when, some work that is being done collects them, at the
    shortest interval any of those works asks for (its default when it names none), and never
    more often than once a second. *)
Theorem metrics_interval_tightest (s : AppliedWorkGrant) :
  match metrics_interval s with
  | None => ∀ k w, (k, w) ∈ ag_works s → wants_metrics w = false
  | Some d => (1 ≤ d)%Z ∧
      (∀ k w, (k, w) ∈ ag_works s → wants_metrics w = true → (d ≤ Z.max (wanted_seconds w) 1)%Z) ∧
      (∃ k w, (k, w) ∈ ag_works s ∧ wants_metrics w = true ∧ d = Z.max (wanted_seconds w) 1)
  end.
Proof.
  unfold metrics_interval. pose proof (metrics_fold (snd <$> ag_works s) None) as Hf.
  assert (Hin : ∀ k w, (k, w) ∈ ag_works s → w ∈ snd <$> ag_works s).
  { intros k w Hin. apply list_elem_of_fmap. by exists (k, w). }
  destruct (foldl metrics_step None _) as [d|]; cbn.
  - destruct Hf as (_ & Hl & [[=]|(w & Hw & Hm & ->)]). split_and!; [lia| |].
    + intros k w' Hk Hm'. specialize (Hl w' (Hin _ _ Hk) Hm'). lia.
    + apply list_elem_of_fmap in Hw as ([k w'] & -> & Hk). by exists k, w'.
  - destruct Hf as [_ Hl]. intros k w Hk. by eapply Hl, Hin.
Qed.

(** ** Task ids *)

Lemma safe_token_chars raw : all_chars token_char (safe_token raw) = true.
Proof.
  unfold safe_token. generalize (String.length raw) as fuel. intros fuel. revert raw.
  induction fuel as [|fuel IH]; intros [|a s]; try done. cbn [safe_token_fuel].
  destruct (utf8_head a s) as [k ok]. cbn [all_chars]. rewrite IH.
  by destruct (token_char a) eqn:E; [rewrite E|].
Qed.

Lemma pretty_N_char_token x : (x < 10)%N → token_char (pretty_N_char x) = true.
Proof.
  intros Hx. assert (Hc : In x [0; 1; 2; 3; 4; 5; 6; 7; 8; 9]%N) by (cbn; lia).
  cbn in Hc. by repeat destruct Hc as [<-|Hc].
Qed.

Lemma pretty_N_go_token x acc : all_chars token_char acc = true →
  all_chars token_char (pretty_N_go x acc) = true.
Proof.
  revert acc. induction (N.lt_wf_0 x) as [x _ IH]; intros acc Ha.
  destruct (decide (x = 0)%N) as [->|Hx]; [by rewrite pretty_N_go_0|].
  rewrite pretty_N_go_step by lia. apply IH; [apply N.div_lt; lia|]. cbn. rewrite Ha, andb_true_r.
  apply pretty_N_char_token, N.mod_lt. lia.
Qed.

Lemma pretty_nat_token (n : nat) : all_chars token_char (pretty n) = true.
Proof.
  unfold pretty, pretty_nat, pretty, pretty_N. case_decide; [done|]. by apply pretty_N_go_token.
Qed.

Lemma source_suffix_token count i : all_chars token_char (source_suffix count i) = true.
Proof. unfold source_suffix. destruct (1 <? count); [|done]. rewrite all_chars_app. by rewrite pretty_nat_token. Qed.

Lemma source_suffix_inj count i j : i < count → j < count →
  source_suffix count i = source_suffix count j → i = j.
Proof.
  unfold source_suffix. destruct (Nat.ltb_spec 1 count); [|lia].
  intros _ _ E%app_inj_l. apply (inj pretty) in E. lia.
Qed.

Definition input_id_of (entry : WorkLogInput) : string := lf_input_id (wl_input entry).

Lemma unit_log_inputs_ids k w u : NoDup (input_id_of <$> unit_log_inputs k w u) ∧
  ∀ entry, entry ∈ unit_log_inputs k w u →
    all_chars token_char (input_id_of entry) = true ∧ lf_startup_position (wl_input entry) = "tail".
Proof.
  unfold unit_log_inputs. destruct (negb _); [split; [constructor|set_solver]|].
  set (globs := List.filter _ _). split.
  - apply NoDup_alt. intros i j id Hi Hj. rewrite !list_lookup_fmap, !list_lookup_imap in *.
    destruct (globs !! i) as [x|] eqn:Gi; [|done]. destruct (globs !! j) as [y|] eqn:Gj; [|done].
    cbn in *. injection Hi as <-. injection Hj as Hj.
    apply lookup_lt_Some in Gi, Gj. unfold input_id_of, log_input_of in Hj. cbn in Hj.
    repeat (apply app_inj_l in Hj || injection Hj as Hj).
    symmetry. by eapply source_suffix_inj.
  - intros entry (i & x & -> & _)%elem_of_lookup_imap. split; [|done].
    unfold input_id_of, log_input_of. cbn [wl_input lf_input_id].
    by rewrite !all_chars_app, !safe_token_chars, source_suffix_token.
Qed.

Lemma over_working_units_in {A} s (f : string → AppliedWork → WorkSpecUnit → list A) a :
  a ∈ over_working_units s f → ∃ k w spec u, (k, w) ∈ ag_works s ∧ is_working w = true ∧
    aw_spec w = Some spec ∧ u ∈ spec ∧ a ∈ f k w u.
Proof.
  unfold over_working_units. intros (l & Hl & Hk)%list_elem_of_join.
  apply list_elem_of_fmap in Hk as ([k w] & -> & Hk).
  destruct (is_working w) eqn:E; [|by apply not_elem_of_nil in Hl].
  destruct (aw_spec w) as [spec|] eqn:Es; [|by apply not_elem_of_nil in Hl].
  apply list_elem_of_join in Hl as (l' & Hl' & Hu). apply list_elem_of_fmap in Hu as (u & -> & Hu).
  by exists k, w, spec, u.
Qed.

(** The id of a log task can be a file name: only letters, digits, dashes and underscores,
    whatever the catalogue holds; the tasks of one unit have different ids, and no granted task
    replays the history of its file. *)
Theorem task_ids_are_file_names (s : AppliedWorkGrant) :
  (∀ entry, entry ∈ log_inputs s →
     all_chars token_char (lf_input_id (wl_input entry)) = true ∧
     lf_startup_position (wl_input entry) = "tail") ∧
  (∀ work_id work unit, NoDup ((lf_input_id ∘ wl_input) <$> unit_log_inputs work_id work unit)).
Proof.
  split; [|intros k w u; apply unit_log_inputs_ids].
  intros entry (k & w & spec & u & _ & _ & _ & _ & Hin)%over_working_units_in.
  by apply (unit_log_inputs_ids k w u).
Qed.

(** What cannot be collected is not reported: the outcome that is logged never names a unit. *)
Lemma unsupported_never_reported (grant : WorkGrant) (s : AppliedWorkGrant) :
  ao_unsupported (apply grant s).1 = [].
Proof. by rewrite apply_eq. Qed.

End Work.

(** A catalogue whose specifications are lines, one for each unit: its id, its capability and its
    sources, [kind:target]. *)
Module ConcreteWork.
Import ConcreteSelect.

Definition no_newline (s : string) : bool := negb (has_char newline s).

Definition line_parse (text : string) : string + list string :=
  match split_on newline text with
  | hd :: units => if String.eqb hd "units" then inr units else inl "not a specification"
  | [] => inl "empty"
  end.
Definition line_encode (units : list string) : option string :=
  if forallb no_newline units then Some (Text.join nl ("units" :: units)) else None.

Definition words (unit : string) : list string := split_on " "%char unit.
Definition source_part (source : string) : string * string :=
  default (source, "") (split_once ":"%char source).

#[export] Instance toy_work : WorkContracts := {|
  WorkSpecSource := string;
  ss_kind source := (source_part source).1;
  ss_target source := (source_part source).2;
  ss_multiline _ := "none";
  ss_exclude_globs _ := [];
  ss_filters _ := toy_filter [] [] [] [];
  ss_drop_if_contains _ := [];
  WorkSpecUnit := string;
  unit_id unit := default "" (words unit !! 0);
  capability unit := default "" (words unit !! 1);
  unit_sources unit := drop 2 (words unit);
  file_sources unit := List.filter (λ s, starts_with "FileGlob:" s) (drop 2 (words unit));
  unsupported_sources unit :=
    List.filter (λ s, negb (starts_with "FileGlob:/" s || starts_with "MetricInterval:" s))
      (drop 2 (words unit));
  metric_interval_seconds units :=
    if existsb (contains "MetricInterval:60s") units then Some 60%Z
    else if existsb (contains "MetricInterval:5s") units then Some 5%Z else None;
  spec_parse := line_parse;
  spec_encode := line_encode;
  is_executable_source kind target := String.eqb kind "FileGlob" && starts_with "/" target;
  is_known_exporter target := String.eqb target "dmesg";
  parse_exporter_target target := Some (target, None);
  is_outstanding work := negb (String.eqb (ow_status work) "succeeded");
|}.

#[export] Instance toy_unicode : UnicodeTables := {| escape_debug_char c := c |}.

Lemma line_encode_parse units t : line_encode units = Some t → line_parse t = inr units.
Proof.
  unfold line_encode. destruct (forallb no_newline units) eqn:E; [|done]. intros Ht.
  assert (Hj : split_on newline t = "units" :: units).
  { apply (inj Some) in Ht as <-. apply split_on_join; [done|]. exact E. }
  unfold line_parse. by rewrite Hj.
Qed.

#[export] Instance toy_work_laws : WorkLaws.
Proof.
  split.
  - intros text units Hp. cbn in Hp. unfold line_parse in Hp.
    destruct (split_on_parts newline text) as [Ha _].
    destruct (split_on newline text) as [|hd us]; [done|]. destruct (String.eqb hd "units"); [|done].
    injection Hp as ->. apply andb_true_iff in Ha as [_ Ha].
    assert (He : line_encode units = Some (Text.join nl ("units" :: units))).
    { change (forallb no_newline units = true) in Ha. unfold line_encode. by rewrite Ha. }
    exists (Text.join nl ("units" :: units)). split; [done|]. by apply line_encode_parse.
  - intros units t Ht. left. by apply line_encode_parse.
  - eexists. by vm_compute.
Qed.

Definition standing (work_id family : string) (version : Z) (status : string) (units : list string)
    : StandingWork :=
  mk_standing work_id "agent-1" family (Text.join nl ("units" :: units)) 1 None version
    "2026-09-23T00:00:00Z" status "admin" "2026-09-23T00:00:00Z".

Definition one_shot (work_id action spec : string) : OneShotWork :=
  mk_one_shot work_id "agent-1" action spec "t0" "t1" 600 false "dispatched" None 0 None [] 0
    "admin" "t0".

Definition snapshot (sequence : Z) (works : list StandingWork) (shots : list OneShotWork) : WorkGrant :=
  mk_grant "agent-1" works shots sequence "t0".

Definition crash : StandingWork :=
  standing "work-1" "CrashPanic" 1 "active"
    ["mac-crash collect_logs FileGlob:/a/crash.ips FileGlob:/a/crash.panic"].
Definition host : StandingWork :=
  standing "work-m" "HostMetrics" 2 "active" ["h-metrics collect_metrics MetricInterval:5s"].

Definition granted_state : AppliedWorkGrant :=
  (apply (snapshot 4 [crash; host] [one_shot "work-up" "upgrade" "0.1.4"]) AppliedWorkGrant_default).2.
Definition upgrading : AppliedWorkGrant := mark_one_shot_execution "work-up" "dispatched" granted_state.

Lemma granted_state_wf : held_wf granted_state.
Proof. apply apply_wf, default_wf. Qed.

Lemma upgrading_wf : held_wf upgrading.
Proof. apply mark_execution_wf; [by vm_compute|apply granted_state_wf]. Qed.
End ConcreteWork.
Import ConcreteSelect ConcreteWork.

Example granted_log_tasks :
  (λ e, (lf_input_id (wl_input e), lf_path (wl_input e))) <$> log_inputs granted_state
  = [("work-CrashPanic-mac-crash-1", "/a/crash.ips"); ("work-CrashPanic-mac-crash-2", "/a/crash.panic")].
Proof. vm_compute. reflexivity. Qed.

Example granted_summary :
  summary granted_state
  = "held=2 working=2 log_inputs=2 exporters=0 metrics=on(5s) unsupported_units=0 one_shot_pending=0".
Proof. vm_compute. reflexivity. Qed.

Example unsafe_token : safe_token "weird/../id" = "weird----id".
Proof. reflexivity. Qed.

Lemma started_stopped_exact_witness :
  let g := snapshot 5 [standing "work-1" "CrashPanic" 1 "paused" ["u collect_logs FileGlob:/a/b"]] [] in
  let '(o, s') := apply g granted_state in
  ("work-1" ∈ ao_stopped o ↔ working_in (ag_works granted_state) "work-1" = true ∧
                              working_in (ag_works s') "work-1" = false) ∧
  ao_stopped o = ["work-1"; "work-m"].
Proof.
  intros g. pose proof (started_stopped_exact g granted_state "work-1" (hw_works _ granted_state_wf)) as Ht.
  assert (Ho : ao_stopped (apply g granted_state).1 = ["work-1"; "work-m"]) by (vm_compute; reflexivity).
  destruct (apply g granted_state) as [o s']. split; [apply Ht|exact Ho].
Defined.

Lemma restore_view_roundtrip_witness :
  ∃ v, device_view "t" upgrading = Some v ∧ device_view "t" (restore v) = Some v ∧
    (or_execution <$> wr_one_shot v) = ["dispatched"].
Proof.
  destruct (device_view_some "t" upgrading) as [v E]; [vm_compute; reflexivity|].
  exists v. split; [exact E|]. split.
  - exact (restore_view_roundtrip "t" upgrading v upgrading_wf E).
  - destruct (device_view_inv _ _ _ E) as [_ ->]. vm_compute. reflexivity.
Defined.

Lemma dispatched_once_witness :
  let s1 := (apply (snapshot 5 [] []) upgrading).2 in
  ∃ v, device_view "t" s1 = Some v ∧
    has_upgrade_in_flight (apply (snapshot 6 [] [one_shot "work-up" "upgrade" "0.1.4"]) (restore v)).2
    = true.
Proof.
  intros s1. destruct (device_view_some "t" s1) as [v E]; [vm_compute; reflexivity|].
  exists v. split; [exact E|]. set (g := snapshot 5 [] []).
  set (g6 := snapshot 6 [] [one_shot "work-up" "upgrade" "0.1.4"]).
  refine (proj1 (proj2 (proj2 (dispatched_once (mk_life upgrading None) (mk_life _ (Some v)) [WApply g; WStore "t"; WRestart; WApply g6] _ "work-up"
    (conj upgrading_wf default_wf) _ _ _ _)))).
  - eapply run_cons; [apply step_apply; discriminate|].
    eapply run_cons; [apply step_store; exact E|].
    eapply run_cons; [apply step_restart|].
    eapply run_cons; [apply step_apply; discriminate|apply run_nil].
  - exists "dispatched". split; vm_compute; reflexivity.
  - right. reflexivity.
  - intros e He. exfalso. do 4 (apply elem_of_cons in He as [He|He]; [discriminate|]).
    by apply not_elem_of_nil in He.
Defined.

(** Two units can still share a task id: the suffix of one is a unit name of the other. *)
Definition colliding : AppliedWorkGrant :=
  (apply (snapshot 1 [standing "work-1" "F" 1 "active"
            ["app collect_logs FileGlob:/a FileGlob:/b"; "app-1 collect_logs FileGlob:/c"]] [])
         AppliedWorkGrant_default).2.

Example task_ids_collide :
  (λ e, lf_input_id (wl_input e)) <$> log_inputs colliding
  = ["work-F-app-1"; "work-F-app-2"; "work-F-app-1"].
Proof. vm_compute. reflexivity. Qed.

(** A unit that cannot be collected is found by [unsupported_units] and missing in the outcome. *)
Definition home_relative : ApplyOutcome * AppliedWorkGrant :=
  apply (snapshot 1 [standing "work-1" "F" 1 "active" ["app collect_logs FileGlob:~/x"]] [])
        AppliedWorkGrant_default.

Lemma unsupported_source_not_logged :
  length (unsupported_units home_relative.2) = 1 ∧ ao_unsupported home_relative.1 = [].
Proof. vm_compute. split; reflexivity. Qed.
