(* ===== verification/UpgradeRequest.v ===== *)
(** upgrade.rs, the part that decides nothing about the machine: what a one-shot work asks for,
    whether the request may be carried out, and the command line that hands it to the upgrader
    (src/src/bin/wist-upgrader.rs), alone or wrapped into a transient systemd unit. *)
From S2P Require Import Prelude Text Fmt.
From stdpp Require Import pretty.

Definition AGENTD_BIN_NAME : string := "wist-agentd".
Definition EXEC_BIN_NAME : string := "wist-exec".
Definition UPGRADER_BIN_NAME : string := "wist-upgrader".

Record UpgradeSpec := mk_spec {
  us_target_version : option string;
  us_package_url : string;
  us_package_sha256 : string;
  us_allow_downgrade : bool;
}.

Record UpgradeRequest := mk_request {
  ur_work_id : string;
  ur_target_version : option string;
  ur_current_version : string;
  ur_agentd_bin : string;
  ur_package_url : string;
  ur_package_sha256 : string;
  ur_allow_downgrade : bool;
}.

(** [Path::with_file_name] *)
Definition path_with_file_name (p name : string) : string :=
  match path_parent p with Some d => path_join d name | None => name end.

Definition exec_bin (request : UpgradeRequest) : string :=
  path_with_file_name (ur_agentd_bin request) EXEC_BIN_NAME.
Definition upgrader_bin (request : UpgradeRequest) : string :=
  path_with_file_name (ur_agentd_bin request) UPGRADER_BIN_NAME.

(** [None] restarts nothing. *)
Inductive RestartPlan := RestartNone | RestartCommand (program : string) (args : list string).

Record UpgradeOptions := mk_options {
  uo_dry_run : bool;
  uo_ready_wait : Z;   (* seconds *)
  uo_restart : RestartPlan;
}.

Definition DEFAULT_READY_WAIT : Z := 60.

Definition UpgradeOptions_default : UpgradeOptions := mk_options true DEFAULT_READY_WAIT RestartNone.

Record UpgradeError := fail { ue_reason : string; ue_detail : string }.

Definition display_upgrade_error (e : UpgradeError) : string := ue_reason e +:+ ": " +:+ ue_detail e.

(** [serde_json] on [UpgradeSpec] and the crate wist_artifact. *)
Class Artifacts := {
  upgrade_spec_from_json : string → string + UpgradeSpec;
  parse_digest : string → option string;
  sha256_hex_bytes : string → string;
  parse_version : string → option (list Z);
  version_is_newer : string → string → option bool;
}.

Definition quoted (s : string) : string := String dquote (s +:+ String dquote "").

Section Request.
Context `{Artifacts} `{UnicodeTables}.

Definition parse_spec (text : string) : UpgradeError + UpgradeSpec :=
  match upgrade_spec_from_json text with
  | inl err =>
      inl (fail "spec_invalid"
             ("expected JSON {" +:+ quoted "package_url" +:+ ":" +:+ quoted "…" +:+ "," +:+
              quoted "package_sha256" +:+ ":" +:+ quoted "…" +:+ "} (optional " +:+
              quoted "target_version" +:+ ":" +:+ quoted "…" +:+ "), got: " +:+ err))
  | inr spec =>
      if String.eqb (trim (us_package_url spec)) "" then inl (fail "spec_invalid" "package_url is empty")
      else if String.eqb (default "" (trim <$> us_target_version spec)) ""
      then inr (mk_spec None (us_package_url spec) (us_package_sha256 spec) (us_allow_downgrade spec))
      else inr spec
  end.

Definition version_parts (value : string) : option (list Z) := parse_version value.

Definition digest_hex (value : string) : UpgradeError + string :=
  match parse_digest value with
  | Some digest => inr digest
  | None => inl (fail "digest_invalid" ("package_sha256 must be 64 hex chars, got " +:+ debug_str value))
  end.

Definition provided_target (request : UpgradeRequest) : option string :=
  match trim <$> ur_target_version request with
  | Some value => if String.eqb value "" then None else Some value
  | None => None
  end.

Definition ensure_newer (target current : string) : UpgradeError + unit :=
  match version_is_newer target current with
  | Some true => inr tt
  | Some false =>
      inl (fail "not_newer"
             ("target " +:+ target +:+ " is not newer than running " +:+ current +:+
              " (downgrade and reinstall are refused)"))
  | None =>
      inl (fail "version_uncomparable"
             ("cannot compare " +:+ target +:+ " with " +:+ current +:+ " as dotted numeric versions"))
  end.

Definition validate_request (request : UpgradeRequest) : UpgradeError + unit :=
  if String.eqb (trim (ur_work_id request)) "" then inl (fail "spec_invalid" "work_id is empty")
  else if String.eqb (trim (ur_package_url request)) "" then inl (fail "spec_invalid" "package_url is empty")
  else
    match
      match provided_target request with
      | Some target =>
          if negb (ur_allow_downgrade request) then ensure_newer target (ur_current_version request)
          else inr tt
      | None => inr tt
      end
    with
    | inl err => inl err
    | inr _ => match digest_hex (ur_package_sha256 request) with inl err => inl err | inr _ => inr tt end
    end.

Definition requested_target (request : UpgradeRequest) (reported : string) : UpgradeError + string :=
  match provided_target request with
  | Some target =>
      if negb (String.eqb target reported) then
        inl (fail "version_mismatch"
               ("package reports " +:+ debug_str reported +:+ ", target is " +:+ debug_str target))
      else inr target
  | None => inr reported
  end.

Definition resolve_target_version (request : UpgradeRequest) (reported : string)
    : UpgradeError + string :=
  match requested_target request reported with
  | inl err => inl err
  | inr target =>
      if negb (ur_allow_downgrade request) then
        match ensure_newer target (ur_current_version request) with
        | inl err => inl err
        | inr _ => inr target
        end
      else inr target
  end.

Definition verify_digest (bytes expected : string) : UpgradeError + unit :=
  match digest_hex expected with
  | inl err => inl err
  | inr expected =>
      let actual := sha256_hex_bytes bytes in
      if negb (String.eqb actual expected) then
        inl (fail "digest_mismatch" ("expected " +:+ expected +:+ ", got " +:+ actual))
      else inr tt
  end.

(** [str::split_whitespace]: the words read so far in reverse, and the open one. *)
Fixpoint split_whitespace_go (fuel : nat) (s : string) (open : string) : list string :=
  match fuel, s with
  | S fuel, String a s' =>
      let '(k, _) := utf8_head a s' in
      let c := str_take k s in
      if is_blank c then
        (if String.eqb open "" then [] else [open]) ++ split_whitespace_go fuel (str_drop k s) ""
      else split_whitespace_go fuel (str_drop k s) (open +:+ c)
  | _, _ => if String.eqb open "" then [] else [open]
  end.
Definition split_whitespace (s : string) : list string := split_whitespace_go (String.length s) s "".

Definition looks_like_version (token : string) : bool :=
  match version_parts token with Some parts => 2 <=? length parts | None => false end.

Definition parse_version_output (stdout : string) : option string :=
  trim <$> find_first looks_like_version (rev (split_whitespace stdout)).

(** [upgrade_request_for] of runtime/daemon.rs; [version] is CARGO_PKG_VERSION. *)
Definition upgrade_request_for (version agentd_bin work_id spec_text : string)
    : string + UpgradeRequest :=
  match parse_spec spec_text with
  | inl err => inl (display_upgrade_error err)
  | inr spec =>
      inr (mk_request work_id (us_target_version spec) version agentd_bin (us_package_url spec)
             (us_package_sha256 spec) (us_allow_downgrade spec))
  end.

End Request.

(** * The command line *)

Record UpgradeLaunch := mk_launch { la_program : string; la_args : list string }.

Definition build_launch (program config_dir : string) (request : UpgradeRequest) : UpgradeLaunch :=
  mk_launch program
    (["apply"; "--config-dir"; config_dir; "--bin"; ur_agentd_bin request; "--work-id";
      ur_work_id request]
     ++ match provided_target request with
        | Some target => ["--target-version"; target]
        | None => []
        end
     ++ (if ur_allow_downgrade request then ["--allow-downgrade"] else [])
     ++ ["--current-version"; ur_current_version request; "--package-url"; ur_package_url request;
         "--package-sha256"; ur_package_sha256 request; "--apply"]).

Definition UPGRADER_UNIT_PREFIX : string := "wist-upgrader-".

Definition unit_char (a : ascii) : bool :=
  is_ascii_alphanumeric a || existsb (Ascii.eqb a) [":"; "_"; "."; "-"]%char.

(** One underscore for each character that is not allowed. *)
Fixpoint unit_token (fuel : nat) (s : string) : string :=
  match fuel, s with
  | S fuel, String a s' =>
      let '(k, _) := utf8_head a s' in
      String (if unit_char a then a else "_"%char) (unit_token fuel (str_drop k s))
  | _, _ => ""
  end.
Definition upgrader_unit_name (work_id : string) : string :=
  UPGRADER_UNIT_PREFIX +:+ unit_token (String.length work_id) work_id.

(** [str::replace] of one byte by two of it. *)
Fixpoint double_char (c : ascii) (s : string) : string :=
  match s with
  | EmptyString => ""
  | String a s => if Ascii.eqb a c then String a (String a (double_char c s)) else String a (double_char c s)
  end.

Definition systemd_exec_escape (arg : string) : string :=
  double_char "%"%char (double_char "$"%char arg).
Definition systemd_property_path_escape (value : string) : string := double_char "%"%char value.

Definition build_systemd_run_launch (inner : UpgradeLaunch) (unit_name log_path env_file : string)
    : UpgradeLaunch :=
  let log := systemd_property_path_escape log_path in
  let env := systemd_property_path_escape env_file in
  mk_launch "systemd-run"
    (["--unit=" +:+ unit_name; "--collect"; "--service-type=exec";
      "--property=StandardOutput=append:" +:+ log; "--property=StandardError=append:" +:+ log;
      "--property=EnvironmentFile=-" +:+ env; "--property=SyslogIdentifier=" +:+ unit_name; "--";
      systemd_exec_escape (la_program inner)]
     ++ (systemd_exec_escape <$> la_args inner)).

(** ** src/src/bin/wist-upgrader.rs *)

Record Args := mk_args {
  ar_config_dir : string;
  ar_bin : option string;
  ar_work_id : string;
  ar_target_version : option string;
  ar_current_version : string;
  ar_package_url : string;
  ar_package_sha256 : string;
  ar_dry_run : bool;
  ar_allow_downgrade : bool;
  ar_ready_wait : Z;
}.

(** The mutable variables of [parse_args]. *)
Record Flags := mk_flags {
  fl_config_dir : option string;
  fl_bin : option string;
  fl_work_id : option string;
  fl_target_version : option string;
  fl_current_version : option string;
  fl_package_url : option string;
  fl_package_sha256 : option string;
  fl_dry_run : bool;
  fl_allow_downgrade : bool;
  fl_ready_wait : Z;
}.

Section Cli.
(** The usage text and the version of the binary. *)
Variable USAGE : string.

Fixpoint parse_flags (args : list string) (f : Flags) : string + Flags :=
  match args with
  | [] => inr f
  | flag :: rest =>
      let '(mk_flags config_dir bin work_id target current url sha dry allow wait) := f in
      if String.eqb flag "--config-dir" then
        match rest with
        | v :: rest => parse_flags rest (mk_flags (Some v) bin work_id target current url sha dry allow wait)
        | [] => inl ("missing value for " +:+ flag)
        end
      else if String.eqb flag "--bin" then
        match rest with
        | v :: rest => parse_flags rest (mk_flags config_dir (Some v) work_id target current url sha dry allow wait)
        | [] => inl ("missing value for " +:+ flag)
        end
      else if String.eqb flag "--work-id" then
        match rest with
        | v :: rest => parse_flags rest (mk_flags config_dir bin (Some v) target current url sha dry allow wait)
        | [] => inl ("missing value for " +:+ flag)
        end
      else if String.eqb flag "--target-version" then
        match rest with
        | v :: rest => parse_flags rest (mk_flags config_dir bin work_id (Some v) current url sha dry allow wait)
        | [] => inl ("missing value for " +:+ flag)
        end
      else if String.eqb flag "--current-version" then
        match rest with
        | v :: rest => parse_flags rest (mk_flags config_dir bin work_id target (Some v) url sha dry allow wait)
        | [] => inl ("missing value for " +:+ flag)
        end
      else if String.eqb flag "--package-url" then
        match rest with
        | v :: rest => parse_flags rest (mk_flags config_dir bin work_id target current (Some v) sha dry allow wait)
        | [] => inl ("missing value for " +:+ flag)
        end
      else if String.eqb flag "--package-sha256" then
        match rest with
        | v :: rest => parse_flags rest (mk_flags config_dir bin work_id target current url (Some v) dry allow wait)
        | [] => inl ("missing value for " +:+ flag)
        end
      else if String.eqb flag "--ready-wait-secs" then
        match rest with
        | v :: rest =>
            match parse_u64 v with
            | inl err => inl ("--ready-wait-secs must be a number: " +:+ err)
            | inr secs => parse_flags rest (mk_flags config_dir bin work_id target current url sha dry allow secs)
            end
        | [] => inl ("missing value for " +:+ flag)
        end
      else if String.eqb flag "--apply" then
        parse_flags rest (mk_flags config_dir bin work_id target current url sha false allow wait)
      else if String.eqb flag "--allow-downgrade" then
        parse_flags rest (mk_flags config_dir bin work_id target current url sha dry true wait)
      else inl ("unsupported flag: " +:+ flag +:+ nl +:+ nl +:+ USAGE)
  end.

Definition required (name : string) (o : option string) : string + string :=
  match o with Some v => inr v | None => inl ("missing " +:+ name) end.

Definition parse_args (args : list string) : string + Args :=
  match parse_flags args (mk_flags None None None None None None None true false DEFAULT_READY_WAIT) with
  | inl err => inl err
  | inr f =>
      match required "--config-dir" (fl_config_dir f) with
      | inl err => inl err
      | inr config_dir =>
      match required "--work-id" (fl_work_id f) with
      | inl err => inl err
      | inr work_id =>
      match required "--current-version" (fl_current_version f) with
      | inl err => inl err
      | inr current =>
      match required "--package-url" (fl_package_url f) with
      | inl err => inl err
      | inr url =>
      match required "--package-sha256" (fl_package_sha256 f) with
      | inl err => inl err
      | inr sha =>
          inr (mk_args config_dir (fl_bin f) work_id (fl_target_version f) current url sha
                 (fl_dry_run f) (fl_allow_downgrade f) (fl_ready_wait f))
      end end end end end
  end.

(** [run], up to what it carries out. *)
Inductive Command := RunApply (args : Args) | RunVersion | RunHelp.

Definition run_command_line (args : list string) : string + Command :=
  match args with
  | [] => inr RunHelp
  | first :: rest =>
      if String.eqb first "apply" then
        match parse_args rest with inl err => inl err | inr parsed => inr (RunApply parsed) end
      else if String.eqb first "version" then inr RunVersion
      else if String.eqb first "help" || String.eqb first "--help" || String.eqb first "-h" then inr RunHelp
      else inl ("unsupported subcommand: " +:+ first)
  end.

(** The request and options [execute] builds; [default_bin] is the sibling of the running
    upgrader, [default_restart_plan] the platform's. *)
Definition execute_request (default_bin : string) (args : Args) : UpgradeRequest :=
  mk_request (ar_work_id args) (ar_target_version args) (ar_current_version args)
    (default default_bin (ar_bin args)) (ar_package_url args) (ar_package_sha256 args)
    (ar_allow_downgrade args).

Definition execute_options (default_restart_plan : RestartPlan) (args : Args) : UpgradeOptions :=
  mk_options (ar_dry_run args) (ar_ready_wait args)
    (if ar_dry_run args then RestartNone else default_restart_plan).

End Cli.

(** * What the service manager makes of the command *)

(** systemd reads [$$] and [%%] in a command line as the character itself, and expands any other
    use of the two; [None] is an argument it would change. *)
Fixpoint systemd_literal (s : string) : option string :=
  match s with
  | EmptyString => Some ""
  | String a rest =>
      if Ascii.eqb a "$" || Ascii.eqb a "%" then
        match rest with
        | String b rest' => if Ascii.eqb a b then String a <$> systemd_literal rest' else None
        | EmptyString => None
        end
      else String a <$> systemd_literal rest
  end.

Lemma systemd_exec_escape_cons a s :
  systemd_exec_escape (String a s)
  = if Ascii.eqb a "$" || Ascii.eqb a "%" then String a (String a (systemd_exec_escape s))
    else String a (systemd_exec_escape s).
Proof.
  unfold systemd_exec_escape. cbn [double_char].
  destruct (Ascii.eqb_spec a "$") as [->|Hd]; [done|]. cbn [double_char orb].
  by destruct (Ascii.eqb_spec a "%") as [->|Hp].
Qed.

Lemma systemd_literal_escape s : systemd_literal (systemd_exec_escape s) = Some s.
Proof.
  induction s as [|a s IH]; [done|]. rewrite systemd_exec_escape_cons.
  destruct (Ascii.eqb a "$" || Ascii.eqb a "%") eqn:E; cbn [systemd_literal]; rewrite E;
    [rewrite Ascii.eqb_refl|]; by rewrite IH.
Qed.

Lemma unit_token_chars fuel s : all_chars unit_char (unit_token fuel s) = true.
Proof.
  revert s. induction fuel as [|fuel IH]; intros [|a s]; try done. cbn [unit_token].
  destruct (utf8_head a s) as [k ok]. cbn [all_chars]. rewrite IH.
  by destruct (unit_char a) eqn:E; [rewrite E|].
Qed.

Lemma systemd_args_literal l : mapM systemd_literal (systemd_exec_escape <$> l) = Some l.
Proof. induction l as [|a l IH]; [done|]. cbn. rewrite systemd_literal_escape. cbn. by rewrite IH. Qed.

(** The words after [--], as systemd hands them to the program. *)
Fixpoint command_after_dashes (args : list string) : option (list string) :=
  match args with
  | [] => None
  | a :: rest => if String.eqb a "--" then mapM systemd_literal rest else command_after_dashes rest
  end.

(** Wrapping the upgrader into a transient unit changes where it runs and nothing else: after
    its options systemd-run is given exactly the program and the arguments it would have been
    started with, no character of them being expanded, and the unit's name is a legal one. *)
Theorem systemd_wrap_transparent (inner : UpgradeLaunch) (work_id log_path env_file : string) :
  let unit_name := upgrader_unit_name work_id in
  command_after_dashes (la_args (build_systemd_run_launch inner unit_name log_path env_file))
    = Some (la_program inner :: la_args inner) ∧
  all_chars unit_char unit_name = true.
Proof.
  intros unit_name. split.
  - unfold build_systemd_run_launch. cbn [la_args].
    change (command_after_dashes _)
      with (mapM systemd_literal (systemd_exec_escape <$> (la_program inner :: la_args inner))).
    apply systemd_args_literal.
  - unfold unit_name, upgrader_unit_name. by rewrite all_chars_app, unit_token_chars.
Qed.

(** The command line is a faithful encoding of the request: the upgrader reads back the same
    work, binary, package, digest and permission to go back, the target version exactly when one
    was given, and carries it out for real with the platform's restart plan. *)
Theorem launch_roundtrip (USAGE program config_dir default_bin : string) (plan : RestartPlan)
    (request : UpgradeRequest) :
  ∃ args, run_command_line USAGE (la_args (build_launch program config_dir request))
            = inr (RunApply args) ∧
    ar_config_dir args = config_dir ∧
    execute_request default_bin args
      = mk_request (ur_work_id request) (provided_target request) (ur_current_version request)
          (ur_agentd_bin request) (ur_package_url request) (ur_package_sha256 request)
          (ur_allow_downgrade request) ∧
    execute_options plan args = mk_options false DEFAULT_READY_WAIT plan.
Proof.
  unfold build_launch. destruct (provided_target request) as [t|], (ur_allow_downgrade request);
    cbn; eexists; (split; [reflexivity|]); done.
Qed.

(** * Which requests go through *)

Section Laws.
Context `{Artifacts} `{UnicodeTables}.

Lemma ensure_newer_ok target current u : ensure_newer target current = inr u ↔ version_is_newer target current = Some true.
Proof. unfold ensure_newer. destruct u, (version_is_newer target current) as [[]|]; naive_solver. Qed.

Lemma requested_target_ok request reported v : requested_target request reported = inr v ↔
  v = reported ∧ (∀ t, provided_target request = Some t → t = reported).
Proof.
  unfold requested_target. destruct (provided_target request) as [t|]; [|naive_solver].
  destruct (String.eqb_spec t reported) as [E|E]; cbn; naive_solver.
Qed.

Lemma resolve_target_ok request reported v : resolve_target_version request reported = inr v ↔
  v = reported ∧ (∀ t, provided_target request = Some t → t = reported) ∧
  (ur_allow_downgrade request = true ∨ version_is_newer v (ur_current_version request) = Some true).
Proof.
  unfold resolve_target_version. pose proof (requested_target_ok request reported) as Ht.
  destruct (requested_target request reported) as [e|t]; [naive_solver|].
  destruct (ur_allow_downgrade request); cbn; [naive_solver|].
  pose proof (ensure_newer_ok t (ur_current_version request) tt) as Hn.
  destruct (ensure_newer t _) as [e|[]]; naive_solver.
Qed.

Lemma verify_digest_ok bytes expected u : verify_digest bytes expected = inr u →
  parse_digest expected = Some (sha256_hex_bytes bytes).
Proof.
  unfold verify_digest, digest_hex. destruct (parse_digest expected) as [d|]; [|done].
  by destruct (String.eqb_spec (sha256_hex_bytes bytes) d) as [->|].
Qed.

(** Versions only go forward: a target is settled only if it is the version the package
    reports of itself, is the one that was asked for when one was, and is newer than the running
    version unless the request declares a downgrade. *)
Theorem forward_only (request : UpgradeRequest) (reported v : string) :
  resolve_target_version request reported = inr v ↔
  v = reported ∧ (∀ t, provided_target request = Some t → t = reported) ∧
  (ur_allow_downgrade request = true ∨ version_is_newer v (ur_current_version request) = Some true).
Proof.
  apply resolve_target_ok.
Qed.

End Laws.
