(* ===== verification/Upgrade.v ===== *)
(** upgrade.rs, the part that changes the machine: staging a package, replacing the binaries and
    putting them back, waiting for the new version, and [apply], the upgrade as a whole. *)
From S2P Require Import Prelude Errors Text Host Fmt UpgradeRequest.
From stdpp Require Import pretty.

(** * Programs the upgrader runs *)

Record Exit := mk_exit {
  ex_success : bool;
  ex_display : string;
  ex_stdout : string;
  ex_stderr : string;
}.

Inductive ArtifactError := TooLarge (detail : string) | OtherArtifactError (display : string).

(** The host beyond its files: programs that are run and waited for ([tar], [install], [mv], the
    service manager, a staged binary), symbolic links, modes and modification times, the gateway's
    packages, and what the other processes of the machine do while the upgrader sleeps.  A program
    that cannot be started is an [Err]. *)
Class UpgradeHost `{Host} := {
  run_program : string → list string → M World Exit;
  is_symlink : string → World → bool;
  chmod_755 : string → M World unit;
  modified_at : string → World → result Z;
  others_act : Z → World → World;
  Client : Type;
  enrollment_http_client : World → string + Client;
  read_local_source : string → Z → World → ArtifactError + string;
  read_source_with_client : Client → string → Z → Z → World → ArtifactError + string;
  display_artifact_error : ArtifactError → string;
  (** [AgentRuntimeState] of wist-contracts. *)
  AgentRuntimeState : Type;
  runtime_version : AgentRuntimeState → string;
  AgentRuntimeState_json :: Json AgentRuntimeState;
  AGENT_RUNTIME_FILE : string;
  (** A process of its own session, not waited for; its pid. *)
  spawn_detached : UpgradeLaunch → string → M World Z;
  (** [fs::read_dir] with its sub-directories, in the order of the listing. *)
  read_dir_all : string → M World (list string);
}.

(** Computations that fail with an [UpgradeError]. *)
Abbreviation UM := (EM UpgradeError).

Definition UPGRADE_RECORD_FILE : string := "upgrade.json".
Definition UPGRADE_HEARTBEAT_FILE : string := "upgrade.heartbeat".
Definition UPGRADE_WORK_DIR : string := "upgrade".
Definition UPGRADER_DEAD_AFTER_MS : Z := 60000.
Definition DOWNLOAD_TIMEOUT : Z := 300.
Definition MAX_PACKAGE_BYTES : Z := 512 * 1024 * 1024.
Definition READY_POLL_INTERVAL_MS : Z := 1000.
Definition MAX_ARTIFACT_DEPTH : nat := 3.

Record UpgradeRecord := mk_upgrade_record {
  rec_work_id : string;
  rec_from_version : string;
  rec_to_version : string;
  rec_step : string;
  rec_status : string;
  rec_detail : string;
  rec_agentd_bin : string;
  rec_updated_at : string;
}.

Record StagedBinary := mk_staged { sb_name : string; sb_path : string }.

Record Backup := mk_backup {
  bk_installed : string;
  bk_backup : string;
  bk_existed : bool;
}.

Section Upgrade.
Context `{UpgradeHost} `{!SharedFs} `{Artifacts} `{UnicodeTables}.
Context `{!Json UpgradeRecord} `{!Json string}.

(** ** The package *)

Definition map_fetch_error (err : ArtifactError) : UpgradeError :=
  match err with
  | TooLarge detail => fail "package_too_large" detail
  | other => fail "package_unavailable" (display_artifact_error other)
  end.

Definition fetch_package (source : string) : UM World string :=
  let source := trim source in
  look (λ w, w) ≫= λ w,
  if starts_with "/" source then
    match read_local_source source MAX_PACKAGE_BYTES w with
    | inl err => raise (map_fetch_error err)
    | inr bytes => mret bytes
    end
  else
    match enrollment_http_client w with
    | inl err => raise (fail "package_unavailable" ("build http client: " +:+ err))
    | inr client =>
        match read_source_with_client client source MAX_PACKAGE_BYTES DOWNLOAD_TIMEOUT w with
        | inl err => raise (map_fetch_error err)
        | inr bytes => mret bytes
        end
    end.

Definition looks_gzipped (bytes : string) : bool :=
  match bytes with
  | String a (String b _) => Z.eqb (code a) 0x1f && Z.eqb (code b) 0x8b
  | _ => false
  end.

Definition set_executable (path : string) : UM World unit :=
  io (λ err, fail "staging_failed" ("stat " +:+ path +:+ ": " +:+ err)) (fs_metadata path);;
  io (λ err, fail "staging_failed" ("chmod " +:+ path +:+ ": " +:+ err)) (chmod_755 path).

Definition known_binaries : list string := [AGENTD_BIN_NAME; EXEC_BIN_NAME; UPGRADER_BIN_NAME].
Definition is_known_binary (name : string) : bool := existsb (String.eqb name) known_binaries.

Definition is_named (name : string) (item : StagedBinary) : bool := String.eqb (sb_name item) name.

(** [Path::is_dir] *)
Definition is_dir (p : string) : UM World bool :=
  look (λ w, match fs_fault OpMetadata p with Some _ => false | None => bool_decide (p ∈ dirs w) end).

(** One entry of a directory: what was found so far and the sub-directories still to visit. *)
Definition visit_entry (levels : nat) (path : string) (acc : list StagedBinary * list string)
    : UM World (list StagedBinary * list string) :=
  let '(found, subdirs) := acc in
  let name := from_utf8_lossy (path_file_name path) in
  look (is_symlink path) ≫= λ symlink,
  if symlink : bool then
    if is_known_binary name then
      raise (fail "artifact_invalid" (name +:+ " is a symlink (" +:+ path +:+ ")"))
    else mret acc
  else
    is_dir path ≫= λ there,
    if there : bool then mret (found, if 0 <? levels then subdirs ++ [path] else subdirs)
    else if is_known_binary name then
      if existsb (is_named name) found then
        raise (fail "artifact_invalid" ("artifact carries more than one " +:+ name))
      else mret (found ++ [mk_staged name path], subdirs)
    else mret acc.

Fixpoint visit_entries (levels : nat) (entries : list string) (acc : list StagedBinary * list string)
    : UM World (list StagedBinary * list string) :=
  match entries with
  | [] => mret acc
  | path :: entries => acc ← visit_entry levels path acc; visit_entries levels entries acc
  end.

(** The loop over the stack of directories: a directory's own entries first, then what was pushed
    last, at most [levels] directories further down. *)
Fixpoint visit_dir (levels : nat) (dir : string) (found : list StagedBinary)
    : UM World (list StagedBinary) :=
  entries ← io (λ err, fail "artifact_invalid" ("read " +:+ dir +:+ ": " +:+ err)) (read_dir_all dir);
  '(found, subdirs) ← visit_entries levels entries (found, []);
  match levels with
  | 0 => mret found
  | S levels =>
      (fix visit_dirs (l : list string) (found : list StagedBinary) : UM World (list StagedBinary) :=
         match l with
         | [] => mret found
         | d :: l => found ← visit_dir levels d found; visit_dirs l found
         end) (rev subdirs) found
  end.

(** [sort_by] on the names, which differ. *)
Fixpoint insert_staged (x : StagedBinary) (l : list StagedBinary) : list StagedBinary :=
  match l with
  | [] => [x]
  | y :: l => match String.compare (sb_name x) (sb_name y) with
              | Gt => y :: insert_staged x l
              | _ => x :: y :: l
              end
  end.
Definition sort_staged (l : list StagedBinary) : list StagedBinary := foldr insert_staged [] l.

Definition find_binaries (root : string) : UM World (list StagedBinary) :=
  found ← visit_dir MAX_ARTIFACT_DEPTH root [];
  if negb (existsb (is_named AGENTD_BIN_NAME) found) then
    raise (fail "artifact_invalid" (AGENTD_BIN_NAME +:+ " not found in the artifact"))
  else mret (sort_staged found).

Definition brings (staged : list StagedBinary) (name : string) : bool := existsb (is_named name) staged.

Definition display_bool (b : bool) : string := if b then "true" else "false".

Definition already_exists (bin_dir name : string) : UpgradeError :=
  fail "artifact_invalid"
    (name +:+ " already exists in " +:+ bin_dir +:+
     ": the artifact must carry it too, otherwise the upgrade would leave it at the old version").

Definition exists_now (p : string) : UM World bool := io (fail "") (path_exists p).

Definition check_upgrade_keeps_bin_directory_consistent (staged : list StagedBinary) (bin_dir : string)
    : UM World unit :=
  let exec := brings staged EXEC_BIN_NAME in
  let upgrader := brings staged UPGRADER_BIN_NAME in
  if negb (Bool.eqb exec upgrader) then
    raise (fail "artifact_invalid"
      ("the artifact carries " +:+ EXEC_BIN_NAME +:+ "=" +:+ display_bool exec +:+ ", " +:+
       UPGRADER_BIN_NAME +:+ "=" +:+ display_bool upgrader +:+
       ": a package must carry all three binaries, or only " +:+ AGENTD_BIN_NAME))
  else if exec then mret tt
  else
    exists_now (path_join bin_dir EXEC_BIN_NAME) ≫= λ e1,
    if e1 : bool then raise (already_exists bin_dir EXEC_BIN_NAME)
    else
      exists_now (path_join bin_dir UPGRADER_BIN_NAME) ≫= λ e2,
      if e2 : bool then raise (already_exists bin_dir UPGRADER_BIN_NAME) else mret tt.

(** [fs::write] *)
Definition fs_write (path bytes : string) : M World unit := fs_create path;; fs_append path bytes.

Definition staging (verb path : string) (err : string) : UpgradeError :=
  fail "staging_failed" (verb +:+ " " +:+ path +:+ ": " +:+ err).

Definition stage_package (bytes staging_dir : string) : UM World (list StagedBinary) :=
  exists_now staging_dir ≫= λ present,
  (if present : bool then io (staging "clear" staging_dir) (fs_remove_dir_all staging_dir) else mret tt);;
  io (staging "create" staging_dir) (fs_create_dir_all staging_dir);;
  if negb (looks_gzipped bytes) then
    let path := path_join staging_dir AGENTD_BIN_NAME in
    io (staging "write" path) (fs_write path bytes);;
    set_executable path;;
    mret [mk_staged AGENTD_BIN_NAME path]
  else
    let archive := path_join staging_dir "package.tar.gz" in
    io (staging "write" archive) (fs_write archive bytes);;
    let unpacked := path_join staging_dir "unpacked" in
    io (staging "create" unpacked) (fs_create_dir_all unpacked);;
    status ← io (λ err, fail "staging_failed" ("run tar: " +:+ err))
               (run_program "tar" ["-xzf"; archive; "-C"; unpacked]);
    if negb (ex_success status) then
      raise (fail "staging_failed" ("tar -xzf exited with " +:+ ex_display status))
    else find_binaries unpacked.

Definition verify_staged_agentd (staged : list StagedBinary) : UM World string :=
  match find_first (is_named AGENTD_BIN_NAME) staged with
  | None => raise (fail "artifact_invalid" "staged artifact has no wist-agentd")
  | Some agentd =>
      output ← io (λ err, fail "artifact_invalid" ("run " +:+ sb_path agentd +:+ " version: " +:+ err))
                 (run_program (sb_path agentd) ["version"]);
      if negb (ex_success output) then
        raise (fail "artifact_invalid"
                 (sb_path agentd +:+ " version exited with " +:+ ex_display output))
      else
        let reported := default "" (parse_version_output (from_utf8_lossy (ex_stdout output))) in
        if String.eqb (trim reported) "" then
          raise (fail "artifact_invalid" (sb_path agentd +:+ " did not report a version"))
        else mret reported
  end.

(** ** Replacing the binaries *)

Definition run_command (program : string) (args : list string) : UM World unit :=
  status ← io (λ err, fail "command_failed" ("run " +:+ program +:+ ": " +:+ err))
             (run_program program args);
  if negb (ex_success status) then
    raise (fail "command_failed" (program +:+ " exited with " +:+ ex_display status))
  else mret tt.

(** [Path::is_file] *)
Definition is_file (p : string) : UM World bool :=
  look (λ w, match fs_fault OpMetadata p with Some _ => false | None => is_some (files w !! p) end).

(** [fs::copy]: an interrupted copy leaves what was written. *)
Definition fs_copy (from to : string) : M World unit :=
  bytes ← fs_read from; fs_create to;; fs_append to bytes.

Fixpoint restore_backups (backups : list Backup) (bin_dir : string) : UM World unit :=
  match backups with
  | [] => mret tt
  | backup :: backups =>
      (if negb (bk_existed backup) then
         is_file (bk_installed backup) ≫= λ there,
         if there : bool then
           io (λ err, fail "rollback_failed" ("remove " +:+ bk_installed backup +:+ ": " +:+ err))
             (fs_remove (bk_installed backup))
         else mret tt
       else
         is_file (bk_backup backup) ≫= λ there,
         if negb there then raise (fail "rollback_failed" ("missing backup " +:+ bk_backup backup))
         else
           let new_path := path_join bin_dir (from_utf8_lossy (path_file_name (bk_installed backup)) +:+ ".rollback") in
           run_command "install" ["-m"; "0755"; bk_backup backup; new_path];;
           run_command "mv" ["-f"; new_path; bk_installed backup]);;
      restore_backups backups bin_dir
  end.

Definition installed_path (bin_dir : string) (item : StagedBinary) : string :=
  path_join bin_dir (sb_name item).
Definition backup_path (bin_dir current_version : string) (item : StagedBinary) : string :=
  path_join bin_dir (sb_name item +:+ ".bak-" +:+ current_version).
Definition new_path_of (bin_dir : string) (item : StagedBinary) : string :=
  path_join bin_dir (sb_name item +:+ ".new").

(** The closure [attempt] of the loop body. *)
Definition replace_one (bin_dir current_version : string) (item : StagedBinary) (existed : bool)
    : UM World unit :=
  let installed := installed_path bin_dir item in
  let backup := backup_path bin_dir current_version item in
  let new_path := new_path_of bin_dir item in
  exists_now backup ≫= λ backed_up,
  (if existed && negb backed_up then
     io (λ err, fail "install_failed" ("backup " +:+ installed +:+ ": " +:+ err)) (fs_copy installed backup)
   else mret tt);;
  run_command "install" ["-m"; "0755"; sb_path item; new_path];;
  run_command "mv" ["-f"; new_path; installed].

Fixpoint install_loop (staged : list StagedBinary) (bin_dir current_version : string) (dry_run : bool)
    (backups : list Backup) : UM World (list Backup) :=
  match staged with
  | [] => mret backups
  | item :: staged =>
      exists_now (installed_path bin_dir item) ≫= λ existed,
      let this := mk_backup (installed_path bin_dir item) (backup_path bin_dir current_version item) existed in
      if dry_run then install_loop staged bin_dir current_version dry_run (backups ++ [this])
      else
        attempt (replace_one bin_dir current_version item existed) ≫= λ r,
        match r with
        | inl err =>
            rolled ← attempt (restore_backups backups bin_dir);
            raise (fail (ue_reason err) (ue_detail err +:+
              match rolled with
              | inr _ => "; already-replaced binaries were rolled back"
              | inl rollback_err =>
                  "; rollback of the already-replaced binaries failed: " +:+ display_upgrade_error rollback_err
              end))
        | inr _ => install_loop staged bin_dir current_version dry_run (backups ++ [this])
        end
  end.

Definition install_binaries (staged : list StagedBinary) (bin_dir current_version : string) (dry_run : bool)
    : UM World (list Backup) :=
  install_loop staged bin_dir current_version dry_run [].

(** ** Waiting for the new version *)

Definition running_version (state_dir : string) : M World (option string) :=
  r ← try (shared_read_json (A := AgentRuntimeState) (path_join state_dir AGENT_RUNTIME_FILE));
  mret (match r with Ok state => Some (runtime_version state) | Err _ => None end).

(** [tokio::time::sleep]: the other processes of the machine go on. *)
Definition sleep (ms : Z) : M World unit := modify (others_act ms).

(** [None]: out of fuel. *)
Fixpoint wait_loop (fuel : nat) (state_dir target_version : string) (deadline : Z)
    : M World (option bool) :=
  match fuel with
  | 0 => mret None
  | S fuel =>
      version ← running_version state_dir;
      if bool_decide (version = Some target_version) then mret (Some true)
      else
        now ← gets clock;
        if Z.leb deadline now then mret (Some false)
        else sleep READY_POLL_INTERVAL_MS;; wait_loop fuel state_dir target_version deadline
  end.

(** One poll each second and two more. *)
Definition wait_fuel (limit : Z) : nat := Z.to_nat limit + 2.

Definition wait_for_version (state_dir target_version : string) (limit : Z) : M World bool :=
  now ← gets clock;
  r ← wait_loop (wait_fuel limit) state_dir target_version (now + limit * 1000);
  mret (default false r).

(** ** Record and heartbeat *)

Definition UpgradeRecord_new (request : UpgradeRequest) (now : string) : UpgradeRecord :=
  mk_upgrade_record (ur_work_id request) (ur_current_version request)
    (default "" (ur_target_version request)) "validate" "running" "" (ur_agentd_bin request) now.

Definition rec_at_step (step now : string) (r : UpgradeRecord) : UpgradeRecord :=
  mk_upgrade_record (rec_work_id r) (rec_from_version r) (rec_to_version r) step (rec_status r)
    (rec_detail r) (rec_agentd_bin r) now.
Definition rec_finish (status detail now : string) (r : UpgradeRecord) : UpgradeRecord :=
  mk_upgrade_record (rec_work_id r) (rec_from_version r) (rec_to_version r) (rec_step r) status
    detail (rec_agentd_bin r) now.
Definition rec_set_target (target : string) (r : UpgradeRecord) : UpgradeRecord :=
  mk_upgrade_record (rec_work_id r) (rec_from_version r) target (rec_step r) (rec_status r)
    (rec_detail r) (rec_agentd_bin r) (rec_updated_at r).
Definition rec_set_status (status : string) (r : UpgradeRecord) : UpgradeRecord :=
  mk_upgrade_record (rec_work_id r) (rec_from_version r) (rec_to_version r) (rec_step r) status
    (rec_detail r) (rec_agentd_bin r) (rec_updated_at r).
Definition rec_add_detail (note : string) (r : UpgradeRecord) : UpgradeRecord :=
  mk_upgrade_record (rec_work_id r) (rec_from_version r) (rec_to_version r) (rec_step r) (rec_status r)
    (rec_detail r +:+ note) (rec_agentd_bin r) (rec_updated_at r).

Definition store_record (state_dir : string) (record : UpgradeRecord) : M World unit :=
  shared_write_json_atomic (path_join state_dir UPGRADE_RECORD_FILE) record.

Definition touch_heartbeat (state_dir : string) : M World unit :=
  now ← now_rfc3339;
  shared_write_json_atomic (path_join state_dir UPGRADE_HEARTBEAT_FILE) now.

Definition heartbeat_is_fresh (state_dir : string) (now : Z) (w : World) : bool :=
  match modified_at (path_join state_dir UPGRADE_HEARTBEAT_FILE) w with
  | Err _ => false
  | Ok modified =>
      if Z.leb modified now then Z.ltb (now - modified) UPGRADER_DEAD_AFTER_MS else true
  end.

(** The first beat; the further ones are the heartbeat task's, among [others_act]. *)
Definition spawn_heartbeat (state_dir : string) : M World unit := λ w, (Ok tt, (touch_heartbeat state_dir w).2).

Definition run_restart (plan : RestartPlan) : UM World unit :=
  match plan with
  | RestartNone => mret tt
  | RestartCommand program args => run_command program args
  end.

(** ** Starting the upgrader *)

Definition SERVICE_NAME : string := "wist-agentd".
Definition default_restart_plan : RestartPlan := RestartCommand "systemctl" ["restart"; SERVICE_NAME].

Definition resolve_upgrader_bin_from (current_exe : string) (env_override : option string)
    : M World (string + string) :=
  let '(path, origin) :=
    match env_override with
    | Some path => (path, "WARP_INSIGHT_UPGRADER_BIN")
    | None => (path_with_file_name current_exe UPGRADER_BIN_NAME, "sibling of the running agentd")
    end in
  gets (λ w,
    if match fs_fault OpMetadata path with Some _ => false | None => is_some (files w !! path) end
    then inr path
    else inl (UPGRADER_BIN_NAME +:+ " not found at " +:+ path +:+ " (" +:+ origin +:+ ")")).

(** The directory of the log file. *)
Definition create_log_dir (log_path : string) : M World unit :=
  match path_parent log_path with
  | Some parent => if String.eqb parent "" then mret tt else fs_create_dir_all parent
  | None => mret tt
  end.

Definition launch_detached (launch : UpgradeLaunch) (log_path : string) : M World Z :=
  create_log_dir log_path;;
  guard_fault OpCreate log_path;;
  modify (λ w, set_files (<[log_path := default "" (files w !! log_path)]> (files w)) w);;
  spawn_detached launch log_path.

(** [Ok(Err(text))] is the error of the function; the handle is the unit or the pid. *)
Definition spawn_upgrader (launch : UpgradeLaunch) (log_path work_id env_file : string)
    : M World (string + string) :=
  made ← try (create_log_dir log_path);
  match made with
  | Err err => mret (inl ("create log dir: " +:+ io_msg err))
  | Ok _ =>
      let unit := upgrader_unit_name work_id in
      let wrapped := build_systemd_run_launch launch unit log_path env_file in
      ran ← try (run_program (la_program wrapped) (la_args wrapped));
      let detached :=
        pid ← try (launch_detached launch log_path);
        mret (match pid with
              | Ok pid => inr (pretty pid)
              | Err err => inl ("launch " +:+ la_program launch +:+ ": " +:+ io_msg err)
              end) in
      match ran with
      | Ok output =>
          if ex_success output then mret (inr unit)
          else
            let stderr := trim (from_utf8_lossy (ex_stderr output)) in
            mret (inl ("systemd-run " +:+ unit +:+ ": " +:+
              if String.eqb stderr "" then "exit status " +:+ ex_display output else stderr))
      | Err err =>
          if decide (io_kind err = NotFound) then detached
          else mret (inl ("run systemd-run: " +:+ io_msg err))
      end
  end.

(** ** The upgrade *)

(** The state of [apply_inner]: the host, and the record it is handed by reference. *)
Definition US : Type := World * UpgradeRecord.

Definition host {A} (m : UM World A) : UM US A := λ s,
  let '(r, w) := m s.1 in (r, (w, s.2)).
Definition update_record (f : UpgradeRecord → UpgradeRecord) : UM US unit := λ s, (inr tt, (s.1, f s.2)).
Definition step_to (step : string) : UM US unit := λ s,
  (inr tt, (s.1, rec_at_step step (rfc3339 (clock s.1)) s.2)).
(** [let _ = store_record(..)] *)
Definition save (state_dir : string) : UM US unit := λ s,
  (inr tt, ((store_record state_dir s.2 s.1).2, s.2)).

(** What a failed restart and a new version that does not come up have in common. *)
Definition roll_back (backups : list Backup) (bin_dir : string) (plan : RestartPlan)
    : UM US (option UpgradeError * option UpgradeError) :=
  rollback ← host (attempt (restore_backups backups bin_dir));
  retry ← host (attempt (run_restart plan));
  (match rollback with inr _ => update_record (rec_set_status "rolled_back") | inl _ => mret tt end);;
  mret (match rollback with inl e => Some e | inr _ => None end,
        match retry with inl e => Some e | inr _ => None end).

Definition rollback_notes (rollback retry : option UpgradeError) : string :=
  match rollback with Some e => "; rollback failed: " +:+ display_upgrade_error e | None => "" end +:+
  match retry with Some e => "; restart after rollback failed: " +:+ display_upgrade_error e | None => "" end.

Definition apply_inner (request : UpgradeRequest) (options : UpgradeOptions) (state_dir : string)
    : UM US unit :=
  step_to "validate";;
  host (of_sum (validate_request request));;
  let staging_dir := path_join state_dir UPGRADE_WORK_DIR in
  step_to "fetch";;
  save state_dir;;
  bytes ← host (fetch_package (ur_package_url request));
  step_to "verify_digest";;
  save state_dir;;
  host (of_sum (verify_digest bytes (ur_package_sha256 request)));;
  step_to "stage";;
  save state_dir;;
  staged ← host (stage_package bytes staging_dir);
  step_to "verify_artifact";;
  save state_dir;;
  reported ← host (verify_staged_agentd staged);
  target_version ← host (of_sum (resolve_target_version request reported));
  update_record (rec_set_target target_version);;
  save state_dir;;
  bin_dir ← host (match path_parent (ur_agentd_bin request) with
                  | Some d => mret d
                  | None => raise (fail "install_failed"
                              ("no parent directory for " +:+ ur_agentd_bin request))
                  end);
  host (check_upgrade_keeps_bin_directory_consistent staged bin_dir);;
  step_to "install";;
  save state_dir;;
  backups ← host (install_binaries staged bin_dir (ur_current_version request) (uo_dry_run options));
  if uo_dry_run options then mret tt
  else
    step_to "restart";;
    save state_dir;;
    restarted ← host (attempt (run_restart (uo_restart options)));
    match restarted with
    | inl err =>
        '(rollback, retry) ← roll_back backups bin_dir (uo_restart options);
        raise (fail "restart_failed" (display_upgrade_error err +:+ rollback_notes rollback retry))
    | inr _ =>
        step_to "wait_ready";;
        save state_dir;;
        ready ← host (io (fail "") (wait_for_version state_dir target_version (uo_ready_wait options)));
        if negb (ready : bool) then
          '(rollback, retry) ← roll_back backups bin_dir (uo_restart options);
          raise (fail "not_ready"
            ("new version did not report " +:+ target_version +:+ " within " +:+
             pretty (uo_ready_wait options) +:+ "s" +:+ rollback_notes rollback retry))
        else mret tt
    end.

(** The work is done under the beat of a heartbeat, and its outcome is stored. *)
Definition apply (request : UpgradeRequest) (options : UpgradeOptions) (state_dir : string) (w : World)
    : UpgradeRecord * World :=
  let w := (spawn_heartbeat state_dir w).2 in
  let record := UpgradeRecord_new request (rfc3339 (clock w)) in
  let '(r, (w, record)) := apply_inner request options state_dir (w, record) in
  let now := rfc3339 (clock w) in
  let record :=
    match r with
    | inr _ => rec_finish "succeeded" "" now record
    | inl err =>
        rec_finish (if String.eqb (rec_status record) "rolled_back" then "rolled_back" else "failed")
          (display_upgrade_error err) now record
    end in
  match store_record state_dir record w with
  | (Ok _, w) => (record, w)
  | (Err err, w) => (rec_add_detail ("; record store failed: " +:+ io_msg err) record, w)
  end.

(** * The directory of the binaries *)

Section Machine.
Variables bin_dir state_dir : string.

Definition slot (x : string) : string := path_join bin_dir x.

(** Nothing in the directory changes, and nothing of it becomes a directory. *)
Definition keeps (w w' : World) : Prop := ∀ x,
  files w' !! slot x = files w !! slot x ∧ (slot x ∈ dirs w' → slot x ∈ dirs w).

#[local] Instance keeps_preorder : PreOrder keeps.
Proof.
  split; [by repeat split|]. intros w1 w2 w3 H12 H23 x. destruct (H12 x), (H23 x). split; [congruence|auto].
Qed.

(** The directory of the binaries and the state directory are apart. *)
Record layout : Prop := mk_layout {
  ly_apart : ∀ x y, path_join state_dir y ≠ slot x;
  ly_above : ∀ x p, p ∈ dir_prefixes state_dir → p ≠ slot x;
}.

(** What the programs the upgrader runs do to the files of the machine: [install] writes its
    target, and the whole of its source when it succeeds; [mv] renames or does nothing; no other
    program, and no other process, touches the directory of the binaries. *)
Class UpgradeLaws : Prop := {
  ul_install : ∀ src dst w r w', run_program "install" ["-m"; "0755"; src; dst] w = (r, w') →
    dst ∉ dirs w → dirs w' = dirs w ∧ (∀ p, p ≠ dst → files w' !! p = files w !! p) ∧
    (∀ e, r = Ok e → ex_success e = true → files w' !! dst = files w !! src ∧ is_Some (files w !! src));
  ul_mv : ∀ a b w r w', run_program "mv" ["-f"; a; b] w = (r, w') → b ∉ dirs w → dirs w' = dirs w ∧
    ((∃ e c, r = Ok e ∧ ex_success e = true ∧ files w !! a = Some c ∧
             files w' = <[b:=c]> (delete a (files w))) ∨
     ((∀ e, r = Ok e → ex_success e = false) ∧ files w' = files w));
  ul_quiet : ∀ program args, program ≠ "install" → program ≠ "mv" → respects keeps (run_program program args);
  ul_others : ∀ ms w, keeps w (others_act ms w);
  ul_clock : ∀ ms w, (clock w + ms ≤ clock (others_act ms w))%Z;
  ul_chmod : ∀ p, respects eq (chmod_755 p);
  ul_read_dir : ∀ dir w r w', read_dir_all dir w = (r, w') → w' = w ∧
    (∀ l, r = Ok l → ∀ p, p ∈ l → ∃ n, p = path_join dir n ∧ has_char slash n = false);
}.

Context `{!SharedFsLaws} `{!UpgradeLaws} (Hlay : layout).

(** ** What leaves the binaries alone *)

Lemma dir_prefixes_app d y p : p ∈ dir_prefixes (path_join d y) → p ∈ dir_prefixes d ∨ (∃ z, p = path_join d z) ∨ p = d.
Proof.
  unfold path_join. revert p. induction d as [|a d IH]; intros p.
  - rewrite Prelude.app_nil_l. cbn [dir_prefixes]. rewrite Ascii.eqb_refl. cbn. rewrite elem_of_cons.
    intros [->|(z & -> & _)%list_elem_of_fmap]; [auto|]. right; left. exists z. by rewrite Prelude.app_nil_l.
  - rewrite app_cons. cbn [dir_prefixes]. rewrite !elem_of_app.
    intros [Ha|(z & -> & Hz)%list_elem_of_fmap]; [auto|].
    destruct (IH z Hz) as [Hin|[(y' & ->)| ->]].
    + left; right. by apply list_elem_of_fmap_2.
    + right; left. exists y'. by rewrite app_cons.
    + auto.
Qed.

Lemma state_prefix_apart y p x : p ∈ dir_prefixes (path_join state_dir y) → p ≠ slot x.
Proof.
  intros [Hin|[(z & ->)| ->]]%dir_prefixes_app.
  - by apply Hlay.
  - apply Hlay.
  - apply Hlay. clear. induction state_dir as [|a d IH]; [by left|]. cbn. apply elem_of_app. right.
    by apply list_elem_of_fmap_2.
Qed.

Lemma keeps_files F w w' : only_files F w w' → (∀ x, ¬ F (slot x)) → dirs w' = dirs w → keeps w w'.
Proof. intros (Hf & _) HF Hd x. split; [by apply Hf|by rewrite Hd]. Qed.

Lemma guard_keeps op p : respects keeps (guard_fault op p).
Proof. apply guard_fault_respects, _. Qed.

Lemma modify_file_keeps (f : World → gmap string string) :
  (∀ w x, f w !! slot x = files w !! slot x) → respects keeps (modify (λ w, set_files (f w) w)).
Proof. intros Hf w x. cbn. by rewrite Hf. Qed.

Lemma create_keeps p : (∀ x, p ≠ slot x) → respects keeps (fs_create p).
Proof.
  intros Hp. apply respects_bind; [apply _|apply guard_keeps|]. intros _. apply modify_file_keeps.
  intros w x. by rewrite lookup_insert_ne.
Qed.

Lemma append_keeps p bytes : (∀ x, p ≠ slot x) → respects keeps (fs_append p bytes).
Proof.
  intros Hp. apply respects_bind; [apply _|apply guard_keeps|]. intros _. apply modify_file_keeps.
  intros w x. by rewrite lookup_insert_ne.
Qed.

Lemma rename_keeps a b : (∀ x, a ≠ slot x) → (∀ x, b ≠ slot x) → respects keeps (fs_rename a b).
Proof.
  intros Ha Hb. apply respects_bind; [apply _|apply guard_keeps|]. intros _ w x. unfold act. cbn.
  destruct (files w !! a) as [s|]; cbn; [|done]. by rewrite lookup_insert_ne, lookup_delete_ne.
Qed.

Lemma mkdir_keeps d : (∀ p x, p ∈ dir_prefixes d → p ≠ slot x) → respects keeps (fs_create_dir_all d).
Proof.
  intros Hd. apply respects_bind; [apply _|apply guard_keeps|]. intros _ w x. cbn. split; [done|].
  rewrite elem_of_union, elem_of_list_to_set. intros [Hin|]; [|done]. by destruct (Hd _ x Hin).
Qed.

Lemma starts_with_app pre s : starts_with pre s = true → ∃ rest, s = pre +:+ rest.
Proof.
  unfold starts_with. revert s. induction pre as [|a pre IH]; intros s; [by exists s|].
  destruct s as [|b s]; [done|]. cbn. destruct (ascii_dec a b) as [->|]; [|done].
  intros [rest ->]%IH. by exists rest.
Qed.

Lemma path_with_extension_join d n ext : has_char slash n = false →
  ∃ m, path_with_extension (path_join d n) ext = path_join d m.
Proof. intros Hn. unfold path_with_extension. rewrite path_parent_join by done. by eexists. Qed.

Lemma path_join_join d a b : path_join (path_join d a) b = path_join d (a +:+ String slash b).
Proof. unfold path_join. by rewrite <- Prelude.app_assoc, app_cons. Qed.

Lemma store_keeps `{Json A} n (a : A) : has_char slash n = false →
  respects keeps (shared_write_json_atomic (path_join state_dir n) a).
Proof.
  intros Hn w. rewrite (shared_write_json_law A _ _ a w). revert w.
  unfold write_json_atomic_async, write_bytes_atomic_async, ensure_parent_async, sync_parent_dir_async.
  rewrite path_parent_join by done.
  destruct (path_with_extension_join state_dir n "tmp" Hn) as [m ->].
  assert (Hj : ∀ y x, path_join state_dir y ≠ slot x) by (intros y x; apply Hlay).
  assert (Ha : ∀ p x, p ∈ dir_prefixes state_dir → p ≠ slot x) by (intros p x; apply Hlay).
  repeat first [solve [auto using mkdir_keeps, create_keeps, append_keeps, rename_keeps]
               | solve [apply guard_keeps] | apply respects_bind; [apply _| |intros _]].
Qed.

Lemma remove_dir_keeps y : respects keeps (fs_remove_dir_all (path_join state_dir y)).
Proof.
  apply respects_bind; [apply _|apply guard_keeps|]. intros _ w x. cbn. split.
  - apply option_eq. intros c. rewrite map_lookup_filter_Some. split; [by intros [? _]|]. intros Hc.
    split; [done|]. apply not_true_is_false. intros E.
    apply starts_with_app in E as [rest E]. rewrite path_join_join in E. symmetry in E.
    unfold path_join in E. rewrite <- Prelude.app_assoc in E. by apply (ly_apart Hlay) in E.
  - rewrite elem_of_filter. by intros [_ ?].
Qed.

Lemma fs_write_keeps y bytes : respects keeps (fs_write (path_join state_dir y) bytes).
Proof.
  apply respects_bind; [apply _| |intros _].
  - apply create_keeps. intros x. apply Hlay.
  - apply append_keeps. intros x. apply Hlay.
Qed.

Lemma ignore_dirs_keeps {A} (m : M World A) : respects eq m → respects keeps m.
Proof. intros Hm w. rewrite <- (Hm w). reflexivity. Qed.

Lemma path_exists_keeps p : respects keeps (path_exists p).
Proof. apply path_exists_respects, _. Qed.

Create HintDb keeps.
#[local] Hint Resolve store_keeps remove_dir_keeps fs_write_keeps path_exists_keeps guard_keeps : keeps.

Ltac solve_keeps :=
  repeat first
    [ solve [auto with keeps]
    | apply urespects_bind; [apply _| |intros ?]
    | apply urespects_ret; apply _ | apply urespects_raise; apply _ | apply urespects_of_sum; apply _
    | apply urespects_look; apply _ | apply urespects_attempt | apply urespects_io
    | match goal with |- urespects _ (match ?x with _ => _ end) => destruct x end
    | match goal with |- urespects _ (let '(_, _) := ?x in _) => destruct x end ].

Lemma quiet_keeps program args : program ≠ "install" → program ≠ "mv" →
  respects keeps (run_program program args).
Proof. apply ul_quiet. Qed.

Lemma fetch_keeps source : urespects keeps (fetch_package source).
Proof. unfold fetch_package. solve_keeps. Qed.

(** A path with a separator is no program of the search path. *)
Lemma state_path_program y s : has_char slash s = false → path_join state_dir y ≠ s.
Proof.
  intros Hs E. rewrite <- E in Hs. unfold path_join in Hs. clear -Hs.
  induction state_dir as [|a d IH].
  - rewrite Prelude.app_nil_l in Hs. rewrite has_char_cons, Ascii.eqb_refl in Hs. done.
  - rewrite app_cons, has_char_cons in Hs. apply orb_false_iff in Hs as [_ Hs]. auto.
Qed.


Lemma read_dir_keeps dir : respects keeps (read_dir_all dir).
Proof. apply ignore_dirs_keeps. intros w. destruct (read_dir_all dir w) as [r w'] eqn:E. by apply ul_read_dir in E as [-> _]. Qed.

Lemma chmod_keeps p : respects keeps (chmod_755 p).
Proof. apply ignore_dirs_keeps, ul_chmod. Qed.

#[local] Hint Resolve read_dir_keeps chmod_keeps : keeps.

Lemma visit_entries_keeps levels entries acc : urespects keeps (visit_entries levels entries acc).
Proof.
  revert acc. induction entries as [|p l IH]; intros acc; cbn [visit_entries]; [solve_keeps|].
  apply urespects_bind; [apply _| |intros acc'; apply IH]. destruct acc as [found subdirs].
  unfold visit_entry, is_dir. solve_keeps.
Qed.

Lemma visit_dir_keeps levels dir found : urespects keeps (visit_dir levels dir found).
Proof.
  revert dir found. induction levels as [|levels IH]; intros dir found; cbn [visit_dir];
    (apply urespects_bind; [apply _|solve_keeps|intros entries]);
    (apply urespects_bind; [apply _|apply visit_entries_keeps|intros [found' subdirs]]); [solve_keeps|].
  generalize (rev subdirs) as l. intros l. revert found'. induction l as [|d l IHl]; intros found'; [solve_keeps|].
  apply urespects_bind; [apply _|apply IH|intros f]. apply IHl.
Qed.

Lemma find_binaries_keeps root : urespects keeps (find_binaries root).
Proof. unfold find_binaries. pose proof visit_dir_keeps. solve_keeps. Qed.

Lemma mkdir_state_keeps y : respects keeps (fs_create_dir_all (path_join state_dir y)).
Proof. apply mkdir_keeps. intros p x. apply state_prefix_apart. Qed.

Lemma metadata_keeps p : respects keeps (fs_metadata p).
Proof. apply fs_metadata_respects, _. Qed.

Lemma tar_keeps args : respects keeps (run_program "tar" args).
Proof. by apply quiet_keeps. Qed.

#[local] Hint Resolve find_binaries_keeps mkdir_state_keeps metadata_keeps tar_keeps : keeps.

Lemma stage_keeps bytes : urespects keeps (stage_package bytes (path_join state_dir UPGRADE_WORK_DIR)).
Proof. unfold stage_package, exists_now, set_executable. rewrite !path_join_join. solve_keeps. Qed.

(** The binaries of an artifact: different known names, at paths under the state directory. *)
Definition staged_ok (l : list StagedBinary) : Prop :=
  NoDup (sb_name <$> l) ∧
  ∀ b, b ∈ l → sb_name b ∈ known_binaries ∧ ∃ y, sb_path b = path_join state_dir y.

Lemma is_known_spec n : is_known_binary n = true ↔ n ∈ known_binaries.
Proof.
  unfold is_known_binary. rewrite existsb_exists. setoid_rewrite String.eqb_eq.
  setoid_rewrite <- list_elem_of_In. naive_solver.
Qed.

Lemma existsb_named n l : existsb (is_named n) l = false → n ∉ sb_name <$> l.
Proof.
  intros E (b & -> & Hb)%list_elem_of_fmap. apply not_true_iff_false in E. apply E.
  apply existsb_exists. exists b. split; [by apply list_elem_of_In|]. apply String.eqb_refl.
Qed.

Definition under_state (p : string) : Prop := ∃ y, p = path_join state_dir y.

Lemma staged_ok_snoc found n p : staged_ok found → is_known_binary n = true →
  existsb (is_named n) found = false → under_state p → staged_ok (found ++ [mk_staged n p]).
Proof.
  intros [Hn Hf] Hk He Hp. unfold staged_ok. rewrite fmap_app. split.
  - apply NoDup_app. split_and!; [done| |apply NoDup_singleton].
    intros m Hin ->%list_elem_of_singleton. by eapply existsb_named.
  - intros b [Hb| ->%list_elem_of_singleton]%elem_of_app; [by apply Hf|].
    cbn. split; [by apply is_known_spec|exact Hp].
Qed.

Lemma visit_entries_ok levels entries found subdirs w found' subdirs' w' :
  visit_entries levels entries (found, subdirs) w = (inr (found', subdirs'), w') →
  Forall under_state entries → staged_ok found → Forall under_state subdirs →
  staged_ok found' ∧ Forall under_state subdirs'.
Proof.
  revert found subdirs w. induction entries as [|p l IH]; intros found subdirs w; cbn [visit_entries].
  - intros [= -> -> ->]. done.
  - intros [(e & _ & [=])|([f1 s1] & w1 & Hv & Hr)]%em_bind_inv [Hp Hl]%Forall_cons Hf Hs.
    eapply IH; [exact Hr|done|..].
    all: unfold visit_entry, is_dir, look, mbind, EM_bind, raise, mret, EM_ret in Hv.
    all: repeat case_match; simplify_eq; auto.
    all: try (apply Forall_app; by split; [|repeat constructor]).
    all: by apply staged_ok_snoc.
Qed.

Lemma visit_dir_ok levels dir found w found' w' :
  visit_dir levels dir found w = (inr found', w') → under_state dir → staged_ok found → staged_ok found'.
Proof.
  revert dir found w found' w'. induction levels as [|levels IH]; intros dir found w found' w' Hr Hd Hf;
    cbn [visit_dir] in Hr.
  all: apply em_bind_inv in Hr as [(e & _ & [=])|(entries & w1 & He & Hr)].
  all: apply em_bind_inv in Hr as [(e & _ & [=])|([f1 subdirs] & w2 & Hv & Hr)].
  all: assert (Hent : Forall under_state entries) by
    (unfold io in He; destruct (read_dir_all dir w) as [[l|e] w0] eqn:E; [|done]; injection He as -> ->;
     apply ul_read_dir in E as [_ Hl]; apply Forall_forall; intros p Hp;
     destruct (Hl _ eq_refl p Hp) as (n & -> & _); destruct Hd as [y ->]; rewrite path_join_join; by eexists).
  all: destruct (visit_entries_ok _ _ _ _ _ _ _ _ Hv Hent Hf) as [Hf1 Hs]; [constructor|].
  - by injection Hr as -> ->.
  - assert (Hs' : Forall under_state (rev subdirs)) by (apply Forall_rev, Hs). clear Hs Hv.
    revert f1 w2 Hr Hf1. generalize dependent (rev subdirs). intros l Hl.
    induction Hl as [|d l Hd' Hl IHl]; intros f1 w2 Hr Hf1; [by injection Hr as -> ->|].
    apply em_bind_inv in Hr as [(e & _ & [=])|(f2 & w3 & H1' & Hr)].
    eapply IHl; [exact Hr|by eapply IH].
Qed.

Lemma insert_staged_perm x l : insert_staged x l ≡ₚ x :: l.
Proof.
  induction l as [|y l IH]; [done|]. cbn. destruct (String.compare _ _); [done..|].
  rewrite IH. apply Permutation_swap.
Qed.

Lemma sort_staged_perm l : sort_staged l ≡ₚ l.
Proof. induction l as [|x l IH]; [done|]. cbn. by rewrite insert_staged_perm, IH. Qed.

Lemma staged_ok_perm l l' : l ≡ₚ l' → staged_ok l → staged_ok l'.
Proof.
  intros Hp [Hn Hf]. split; [by rewrite <- Hp|]. intros b. rewrite <- Hp. apply Hf.
Qed.

Lemma find_binaries_ok root w staged w' : under_state root →
  find_binaries root w = (inr staged, w') →
  staged_ok staged ∧ brings staged AGENTD_BIN_NAME = true.
Proof.
  intros Hu. unfold find_binaries.
  intros [(e & _ & [=])|(found & w1 & Hv & Hr)]%em_bind_inv.
  apply visit_dir_ok in Hv; [|done|split; [constructor|set_solver]].
  destruct (existsb _ found) eqn:E; [|done]. injection Hr as <- _.
  split; [eapply staged_ok_perm; [symmetry; apply sort_staged_perm|done]|].
  unfold brings. apply existsb_exists in E as (b & Hb & Hn). apply existsb_exists. exists b.
  split; [|done]. rewrite <- list_elem_of_In in *. by rewrite sort_staged_perm.
Qed.

Lemma stage_ok bytes w staged w' :
  stage_package bytes (path_join state_dir UPGRADE_WORK_DIR) w = (inr staged, w') →
  staged_ok staged ∧ brings staged AGENTD_BIN_NAME = true.
Proof.
  unfold stage_package. rewrite !path_join_join.
  intros [(? & _ & [=])|(? & ? & _ & Hr)]%em_bind_inv.
  do 2 apply em_bind_inv in Hr as [(? & _ & [=])|(? & ? & _ & Hr)].
  destruct (negb (looks_gzipped bytes)).
  - do 2 apply em_bind_inv in Hr as [(? & _ & [=])|(? & ? & _ & Hr)]. injection Hr as <- _.
    split; [|done]. split; [apply NoDup_singleton|].
    intros b ->%list_elem_of_singleton. split; [by left|by eexists].
  - do 3 apply em_bind_inv in Hr as [(? & _ & [=])|(? & ? & _ & Hr)].
    destruct (negb _); [done|]. eapply find_binaries_ok; [|exact Hr]. by eexists.
Qed.


(** ** Names beside the binaries *)

Definition known (n : string) : Prop := n ∈ known_binaries.
Definition bak (v n : string) : string := n +:+ ".bak-" +:+ v.
Definition fresh (n : string) : string := n +:+ ".new".
Definition rb (n : string) : string := n +:+ ".rollback".

Lemma known_cases n : known n → n = AGENTD_BIN_NAME ∨ n = EXEC_BIN_NAME ∨ n = UPGRADER_BIN_NAME.
Proof. unfold known, known_binaries. rewrite !elem_of_cons, elem_of_nil. tauto. Qed.

Lemma known_app_inj n m s t : known n → known m → n +:+ s = m +:+ t → n = m ∧ s = t.
Proof.
  intros Hn Hm E.
  destruct (known_cases n Hn) as [-> |[-> | ->]], (known_cases m Hm) as [-> |[-> | ->]];
    try (split; [done|by apply Prelude.app_inj_l in E]);
    apply (f_equal (str_drop 5)) in E; vm_compute in E; discriminate E.
Qed.

Lemma known_nil n : n = n +:+ "".
Proof. symmetry. apply Prelude.app_nil_r. Qed.

Lemma slot_inj x y : slot x = slot y → x = y.
Proof. apply path_join_inj. Qed.

(** The four names of a binary differ from each other and from those of the others. *)
Lemma names_apart v n m : known n → known m →
  n ≠ bak v m ∧ n ≠ fresh m ∧ n ≠ rb m ∧ bak v n ≠ fresh m ∧ bak v n ≠ rb m ∧ fresh n ≠ rb m.
Proof.
  intros Hn Hm.
  assert (Ha : ∀ s t, str_take 2 s ≠ str_take 2 t → n +:+ s ≠ m +:+ t).
  { intros s t Hst E. apply known_app_inj in E as [_ ->]; done. }
  unfold bak, fresh, rb. split_and!; first [apply Ha | rewrite (known_nil n) at 1; apply Ha];
    vm_compute; discriminate.
Qed.

Lemma bak_inj v n m : known n → known m → bak v n = bak v m → n = m.
Proof. intros Hn Hm E. by apply known_app_inj in E as [? _]. Qed.

Lemma known_file_name n : known n →
  from_utf8_lossy (path_file_name (slot n)) = n.
Proof.
  intros Hn. unfold slot. rewrite path_file_name_join.
  - by destruct (known_cases n Hn) as [-> |[-> | ->]]; vm_compute.
  - by destruct (known_cases n Hn) as [-> |[-> | ->]]; vm_compute.
Qed.

(** None of the four names is a directory. *)
Definition slots_free (v : string) (w : World) : Prop := ∀ n, known n →
  (slot n ∉ dirs w) ∧ (slot (bak v n) ∉ dirs w) ∧ (slot (fresh n) ∉ dirs w) ∧ (slot (rb n) ∉ dirs w).

(** Only these files of the directory may change. *)
Definition only_slots (xs : list string) (w w' : World) : Prop :=
  dirs w' = dirs w ∧ ∀ p, p ∉ slot <$> xs → files w' !! p = files w !! p.

Lemma only_slots_refl xs w : only_slots xs w w.
Proof. done. Qed.

Lemma only_slots_trans xs w1 w2 w3 : only_slots xs w1 w2 → only_slots xs w2 w3 → only_slots xs w1 w3.
Proof. intros [D1 F1] [D2 F2]. split; [congruence|]. intros p Hp. by rewrite F2, F1. Qed.

Lemma only_slots_mono xs ys w w' : xs ⊆ ys → only_slots xs w w' → only_slots ys w w'.
Proof.
  intros Hs [D F]. split; [done|]. intros p Hp. apply F. intros Hin. apply Hp.
  apply list_elem_of_fmap in Hin as (x & -> & Hx). by apply list_elem_of_fmap_2, Hs.
Qed.

Lemma only_slots_slot xs w w' x : only_slots xs w w' → x ∉ xs → files w' !! slot x = files w !! slot x.
Proof. intros [_ F] Hx. apply F. intros (y & ->%slot_inj & Hy)%list_elem_of_fmap. done. Qed.

Lemma only_slots_other xs w w' p : only_slots xs w w' → under_state p → files w' !! p = files w !! p.
Proof.
  intros [_ F] [y ->]. apply F. intros (x & E & _)%list_elem_of_fmap. by apply (ly_apart Hlay) in E.
Qed.

Lemma only_slots_free xs v w w' : only_slots xs w w' → slots_free v w → slots_free v w'.
Proof. intros [D _] Hf n Hn. rewrite D. by apply Hf. Qed.

(** ** Runs of the commands *)

Lemma install_run src x w r w' : run_command "install" ["-m"; "0755"; src; slot x] w = (r, w') →
  slot x ∉ dirs w → only_slots [x] w w' ∧
  (∀ u, r = inr u → files w' !! slot x = files w !! src ∧ is_Some (files w !! src)).
Proof.
  intros Hr Hx. unfold run_command, io, mbind, EM_bind in Hr.
  destruct (run_program _ _ w) as [re w1] eqn:E. apply ul_install in E as (Hd & Hf & Hs); [|done].
  assert (Ho : only_slots [x] w w1).
  { split; [done|]. intros p Hp. apply Hf. intros ->. apply Hp. by left. }
  destruct re as [e|e]; [|by injection Hr as <- <-]. destruct (ex_success e) eqn:Ee; cbn in Hr.
  - injection Hr as <- <-. split; [done|]. intros u _. by apply (Hs e).
  - by injection Hr as <- <-.
Qed.

Lemma mv_run a x w r w' : run_command "mv" ["-f"; slot a; slot x] w = (r, w') →
  slot x ∉ dirs w → a ≠ x → only_slots [a; x] w w' ∧
  match r with
  | inr _ => files w' !! slot x = files w !! slot a
  | inl _ => files w' !! slot x = files w !! slot x
  end.
Proof.
  intros Hr Hx Ha. unfold run_command, io, mbind, EM_bind in Hr.
  destruct (run_program _ _ w) as [re w1] eqn:E. apply ul_mv in E as [Hd Hf]; [|done].
  destruct Hf as [(e & c & -> & Hs & Hc & Hf)|[Hs Hf]].
  - rewrite Hs in Hr. cbn in Hr. injection Hr as <- <-. split.
    + split; [done|]. intros p Hp. rewrite Hf. cbn in Hp. rewrite !not_elem_of_cons in Hp.
      destruct Hp as (Hpa & Hpx & _). by rewrite lookup_insert_ne, lookup_delete_ne.
    + by rewrite Hf, lookup_insert_eq.
  - assert (r = inr tt → False).
    { intros ->. destruct re as [e|e]; [|done]. specialize (Hs e eq_refl). by rewrite Hs in Hr. }
    assert (w' = w1 ∧ ∃ e, r = inl e) as (-> & e & ->).
    { destruct re as [e|e]; [|injection Hr as <- <-; eauto]. specialize (Hs e eq_refl).
      rewrite Hs in Hr. cbn in Hr. injection Hr as <- <-. eauto. }
    split; [|by rewrite Hf]. split; [done|]. intros p _. by rewrite Hf.
Qed.

Lemma copy_run a x w r w' : fs_copy (slot a) (slot x) w = (r, w') → only_slots [x] w w' ∧
  (∀ u, r = Ok u → files w' !! slot x = files w !! slot a).
Proof.
  unfold fs_copy. intros [(e & Hr & ->)|(c & w1 & Hc & Hr)]%bind_inv.
  { pose proof (fs_read_respects eq (slot a) w) as E. rewrite Hr in E. cbn in E. subst w'. done. }
  apply fs_read_ok in Hc as [-> Hc].
  assert (Ho : ∀ s, only_slots [x] w (set_files (<[slot x := s]> (files w)) w)).
  { intros s. split; [done|]. intros p Hp. cbn in *.
    rewrite not_elem_of_cons in Hp. destruct Hp as [Hp _]. by rewrite lookup_insert_ne. }
  unfold fs_create, fs_append, guard_fault, modify, mbind, M_bind in Hr.
  destruct (fs_fault OpCreate (slot x)) as [e|]; [by injection Hr as <- <-|]. cbn in Hr.
  destruct (fs_fault OpWrite (slot x)) as [e|]; injection Hr as <- <-; [done|]. split.
  - split; [done|]. intros p Hp. cbn in *. rewrite not_elem_of_cons in Hp.
    destruct Hp as [Hp _]. by rewrite !lookup_insert_ne.
  - intros _ _. rewrite Hc. cbn. by rewrite !lookup_insert_eq.
Qed.

Lemma exists_slot x w : fs_fault OpMetadata (slot x) = None → slot x ∉ dirs w →
  exists_now (slot x) w = (inr (is_some (files w !! slot x)), w).
Proof.
  intros Hf Hd. unfold exists_now, io, path_exists. rewrite Hf. by rewrite fs_exists_file.
Qed.


(** ** Putting the binaries back *)

Section Slots.
Variable v : string.
Hypothesis Hmeta : ∀ x, fs_fault OpMetadata (slot x) = None.

(** The backups [install_binaries] makes of binaries whose content was [orig]. *)
Definition backup_of (orig : string → option string) (n : string) : Backup :=
  mk_backup (slot n) (slot (bak v n)) (is_some (orig n)).

Definition touched (names : list string) : list string := mjoin ((λ n, [n; rb n]) <$> names).

Lemma touched_cons n names : touched (n :: names) = [n; rb n] ++ touched names.
Proof. done. Qed.

Lemma touched_in x names : x ∈ touched names ↔ ∃ n, n ∈ names ∧ (x = n ∨ x = rb n).
Proof.
  unfold touched. rewrite list_elem_of_join. setoid_rewrite list_elem_of_fmap. split.
  - intros (l & Hx & n & -> & Hn). exists n. set_solver.
  - intros (n & Hn & Hx). exists [n; rb n]. split; [set_solver|eauto].
Qed.

Lemma is_file_slot x w : is_file (slot x) w = (inr (is_some (files w !! slot x)), w).
Proof. unfold is_file, look. by rewrite Hmeta. Qed.

(** One round of the loop. *)
Definition restore_one (backup : Backup) : UM World unit :=
  if negb (bk_existed backup) then
    is_file (bk_installed backup) ≫= λ there,
    if there : bool then
      io (λ err, fail "rollback_failed" ("remove " +:+ bk_installed backup +:+ ": " +:+ err))
        (fs_remove (bk_installed backup))
    else mret tt
  else
    is_file (bk_backup backup) ≫= λ there,
    if negb there then raise (fail "rollback_failed" ("missing backup " +:+ bk_backup backup))
    else
      let new_path := path_join bin_dir (from_utf8_lossy (path_file_name (bk_installed backup)) +:+ ".rollback") in
      run_command "install" ["-m"; "0755"; bk_backup backup; new_path];;
      run_command "mv" ["-f"; new_path; bk_installed backup].

Lemma restore_cons backup backups : restore_backups (backup :: backups) bin_dir
  = (restore_one backup;; restore_backups backups bin_dir).
Proof. done. Qed.

Lemma restore_one_run orig n w r w' : known n → slots_free v w →
  (orig n ≠ None → files w !! slot (bak v n) = orig n) →
  restore_one (backup_of orig n) w = (r, w') →
  only_slots [n; rb n] w w' ∧ (∀ u, r = inr u → files w' !! slot n = orig n).
Proof.
  intros Hk Hfree Hb. unfold restore_one, backup_of. cbn [bk_existed bk_installed bk_backup].
  destruct (Hfree n Hk) as (Hn & _ & _ & Hr). destruct (names_apart v n n Hk Hk) as (_ & _ & Hnr & _ & Hbr & _).
  destruct (orig n) as [c|] eqn:Eo; cbn [is_some negb].
  - specialize (Hb ltac:(done)). unfold mbind at 1, EM_bind at 1. rewrite is_file_slot, Hb. cbn [is_some negb].
    rewrite known_file_name by done. change (path_join bin_dir (n +:+ ".rollback")) with (slot (rb n)).
    intros [(e & Hi & ->)|([] & w1 & Hi & Hm)]%em_bind_inv; apply install_run in Hi as [Ho Hi]; try done.
    + split; [|done]. eapply only_slots_mono; [|exact Ho]. set_solver.
    + destruct (Hi tt eq_refl) as [Hc _]. apply mv_run in Hm as [Ho2 Hm]; [| |done].
      2:{ destruct Ho as [-> _]. done. }
      split.
      * eapply only_slots_trans; eapply only_slots_mono; [| exact Ho| |exact Ho2]; set_solver.
      * intros u ->. rewrite Hm, Hc. exact Hb.
  - unfold mbind, EM_bind. rewrite is_file_slot. destruct (files w !! slot n) as [c|] eqn:Ef; cbn [is_some].
    + unfold io. destruct (fs_remove (slot n) w) as [[u|e] w1] eqn:Er; intros [= <- <-].
      * apply fs_remove_ok in Er as [-> _]. split.
        -- split; [done|]. intros p Hp. cbn in *. rewrite not_elem_of_cons in Hp. destruct Hp as [Hp _].
           by rewrite lookup_delete_ne.
        -- intros u' _. cbn. apply lookup_delete_eq.
      * split; [|done]. apply fs_remove_err in Er as [-> _]. done.
    + intros [= <- <-]. done.
Qed.

Lemma restore_run orig names w r w' : Forall known names → NoDup names → slots_free v w →
  (∀ n, n ∈ names → orig n ≠ None → files w !! slot (bak v n) = orig n) →
  restore_backups (backup_of orig <$> names) bin_dir w = (r, w') →
  only_slots (touched names) w w' ∧ (∀ u, r = inr u → ∀ n, n ∈ names → files w' !! slot n = orig n).
Proof.
  intros Hk. revert w. induction Hk as [|n names Hk Hks IH]; intros w Hd Hfree Hb.
  { intros [= <- <-]. split; [done|set_solver]. }
  apply NoDup_cons in Hd as [Hn Hd]. rewrite fmap_cons, restore_cons.
  assert (Hkn : ∀ m, m ∈ names → known m) by (by apply Forall_forall).
  intros [(e & Ho & ->)|([] & w1 & Ho & Hr)]%em_bind_inv;
    apply restore_one_run in Ho as [Ho Hc]; auto using list_elem_of_here.
  - split; [|done]. rewrite touched_cons. eapply only_slots_mono; [|exact Ho]. set_solver.
  - apply IH in Hr as [Ho2 Hc2]; [|done|by eapply only_slots_free|].
    + rewrite touched_cons. split.
      * eapply only_slots_trans; eapply only_slots_mono; [|exact Ho| |exact Ho2]; set_solver.
      * intros u -> m [->|Hm]%elem_of_cons; [|by eapply Hc2].
        rewrite (only_slots_slot _ _ _ _ Ho2); [by eapply Hc|].
        intros (m & Hm & [->|E])%touched_in; [done|].
        by destruct (names_apart v n m Hk (Hkn m Hm)) as (_ & _ & ? & _).
    + intros m Hm Hs. rewrite (only_slots_slot _ _ _ _ Ho); [apply Hb; [by right|done]|].
      destruct (names_apart v n m Hk (Hkn m Hm)) as (Hx & _).
      destruct (names_apart v m n (Hkn m Hm) Hk) as (_ & _ & _ & _ & Hy & _). set_solver.
Qed.

(** ** Replacing one binary *)

Lemma replace_one_run item w r w' : known (sb_name item) → under_state (sb_path item) → slots_free v w →
  replace_one bin_dir v item (is_some (files w !! slot (sb_name item))) w = (r, w') →
  let n := sb_name item in
  only_slots [n; bak v n; fresh n] w w' ∧
  match r with
  | inr _ => files w' !! slot n = files w !! sb_path item ∧ is_Some (files w !! sb_path item) ∧
      (files w !! slot n ≠ None → files w !! slot (bak v n) = None →
         files w' !! slot (bak v n) = files w !! slot n) ∧
      (files w !! slot (bak v n) ≠ None → files w' !! slot (bak v n) = files w !! slot (bak v n))
  | inl _ => files w' !! slot n = files w !! slot n
  end.
Proof.
  intros Hk Hu Hfree Hr n. fold n in Hk. destruct (Hfree n Hk) as (Hn & Hb & Hf & _).
  destruct (names_apart v n n Hk Hk) as (Hnb & Hnf & _ & Hbf & _).
  assert (Hmid : ∃ w1, only_slots [bak v n] w w1 ∧
      ((∃ e, r = inl e ∧ w' = w1) ∨
       ((files w !! slot n ≠ None → files w !! slot (bak v n) = None →
           files w1 !! slot (bak v n) = files w !! slot n) ∧
        (files w !! slot (bak v n) ≠ None → files w1 !! slot (bak v n) = files w !! slot (bak v n)) ∧
        (run_command "install" ["-m"; "0755"; sb_path item; slot (fresh n)];;
         run_command "mv" ["-f"; slot (fresh n); slot n]) w1 = (r, w')))).
  { unfold replace_one in Hr. unfold mbind at 1, EM_bind at 1 in Hr.
    change (backup_path bin_dir v item) with (slot (bak v n)) in Hr.
    change (installed_path bin_dir item) with (slot n) in Hr.
    change (new_path_of bin_dir item) with (slot (fresh n)) in Hr. fold n in Hr.
    rewrite exists_slot in Hr by done.
    destruct (files w !! slot n) as [c|] eqn:En, (files w !! slot (bak v n)) as [b|] eqn:Eb; cbn [is_some negb andb] in Hr.
    2:{ apply em_bind_inv in Hr as [(e & Hc & ->)|(u & w1 & Hc & Hr)]; unfold io in Hc;
          destruct (fs_copy _ _ w) as [[u'|e'] w2] eqn:Ec; try done; apply copy_run in Ec as [Ho Hcopy].
        - injection Hc as <- <-. exists w2. split; [done|]. left. eauto.
        - injection Hc as <- <-. exists w2. split; [done|]. right. split_and!; [|done|exact Hr].
          intros _ _. rewrite <- En. by eapply Hcopy. }
    all: exists w; split; [done|]; right; split_and!; [congruence|congruence|exact Hr]. }
  destruct Hmid as (w1 & Ho1 & [(e & -> & ->)|(Hnew & Hold & Hr1)]).
  { split; [eapply only_slots_mono; [|exact Ho1]; set_solver|].
    apply (only_slots_slot _ _ _ _ Ho1). set_solver. }
  assert (Hfree1 : slots_free v w1) by by eapply only_slots_free.
  destruct (Hfree1 n Hk) as (Hn1 & Hb1 & Hf1 & _).
  assert (En1 : files w1 !! slot n = files w !! slot n) by (apply (only_slots_slot _ _ _ _ Ho1); set_solver).
  apply em_bind_inv in Hr1 as [(e & Hi & ->)|([] & w2 & Hi & Hm)]; apply install_run in Hi as [Ho2 Hi]; try done.
  { split.
    - eapply only_slots_trans; eapply only_slots_mono; [|exact Ho1| |exact Ho2]; set_solver.
    - rewrite (only_slots_slot _ _ _ _ Ho2) by set_solver. done. }
  destruct (Hi tt eq_refl) as [Hsrc Hs]. rewrite (only_slots_other _ _ _ _ Ho1 Hu) in Hsrc, Hs.
  apply mv_run in Hm as [Ho3 Hm]; [| |done].
  2:{ destruct Ho2 as [-> _]. done. }
  assert (Ho : only_slots [n; bak v n; fresh n] w w').
  { eapply only_slots_trans; [eapply only_slots_mono; [|exact Ho1]; set_solver|].
    eapply only_slots_trans; eapply only_slots_mono; [|exact Ho2| |exact Ho3]; set_solver. }
  split; [done|]. destruct r as [e|u].
  - rewrite Hm, (only_slots_slot _ _ _ _ Ho2) by set_solver. done.
  - assert (Eb : files w' !! slot (bak v n) = files w1 !! slot (bak v n)).
    { rewrite (only_slots_slot _ _ _ _ Ho3), (only_slots_slot _ _ _ _ Ho2) by set_solver. done. }
    rewrite Hm, Hsrc, Eb. done.
Qed.

(** ** All of them *)

Section Install.
(** What the binaries and the backups beside them held at first. *)
Variables (orig old : string → option string) (w0 : World).

(** What going back to a binary's backup gives: the backup that was there already, if there was one. *)
Definition recovered (n : string) : option string := match orig n with Some c => Some (default c (old n)) | None => None end.
Lemma backup_of_recovered n : backup_of recovered n = backup_of orig n.
Proof. unfold backup_of, recovered. by destruct (orig n). Qed.

Definition names (items : list StagedBinary) : list string := sb_name <$> items.

(** The machine after the binaries of [fin] were replaced: the others are as they were, and each
    replaced one is the artifact's and can be recovered from its backup. *)
Record progress (fin : list StagedBinary) (w : World) : Prop := mk_progress {
  pg_free : slots_free v w;
  pg_todo : ∀ n, known n → n ∉ names fin → files w !! slot n = orig n;
  pg_bak : ∀ n, n ∈ names fin → orig n ≠ None → files w !! slot (bak v n) = recovered n;
  pg_old : ∀ n, known n → n ∉ names fin → files w !! slot (bak v n) = old n;
  pg_src : ∀ p, under_state p → files w !! p = files w0 !! p;
  pg_new : ∀ b, b ∈ fin → files w !! slot (sb_name b) = files w0 !! sb_path b ∧
    is_Some (files w0 !! sb_path b);
}.

Lemma names_snoc fin item : names (fin ++ [item]) = names fin ++ [sb_name item].
Proof. unfold names. by rewrite fmap_app. Qed.

Lemma progress_step fin item w w' : staged_ok (fin ++ [item]) → progress fin w →
  replace_one bin_dir v item (is_some (files w !! slot (sb_name item))) w = (inr tt, w') →
  progress (fin ++ [item]) w'.
Proof.
  intros [Hnd Hst] [Hfree Htodo Hbak Hold Hsrc Hnew] Hr. set (n := sb_name item) in *.
  assert (Hin : item ∈ fin ++ [item]) by (apply elem_of_app; right; by left).
  destruct (Hst item Hin) as [Hk Hu]. fold n in Hk.
  rewrite fmap_app, NoDup_app in Hnd. destruct Hnd as (_ & Hnd & _).
  assert (Hn : n ∉ names fin) by (intros Hx; apply (Hnd n Hx); by left).
  assert (Hkf : ∀ m, m ∈ names fin → known m).
  { intros m (b & -> & Hb)%list_elem_of_fmap. apply Hst, elem_of_app. by left. }
  apply replace_one_run in Hr as (Ho & Hi & Hs & Hb1 & Hb2); try done. fold n in Ho, Hi, Hs, Hb1, Hb2.
  assert (Hother : ∀ m, known m → m ≠ n →
            files w' !! slot m = files w !! slot m ∧ files w' !! slot (bak v m) = files w !! slot (bak v m)).
  { intros m Hm Hne. destruct (names_apart v m n Hm Hk) as (A1 & A2 & _ & A4 & _).
    destruct (names_apart v n m Hk Hm) as (B1 & _).
    assert (bak v m ≠ bak v n) by (intros E; by apply Hne, (bak_inj v)).
    split; apply (only_slots_slot _ _ _ _ Ho); set_solver. }
  split.
  - by eapply only_slots_free.
  - intros m Hm. rewrite names_snoc, not_elem_of_app, list_elem_of_singleton. intros [Hm1 Hm2].
    rewrite (proj1 (Hother m Hm Hm2)). by apply Htodo.
  - intros m. rewrite names_snoc, elem_of_app, list_elem_of_singleton. intros [Hm| ->] Hso.
    + rewrite (proj2 (Hother m (Hkf m Hm) ltac:(by intros ->))). by apply Hbak.
    + fold n in Hso |- *. specialize (Htodo n Hk Hn). specialize (Hold n Hk Hn). unfold recovered. destruct (orig n) as [c|] eqn:Eo; [|done].
      destruct (old n) as [b|] eqn:Eb; cbn [default from_option id]; [rewrite Hb2; congruence|rewrite Hb1; congruence].
  - intros m Hm. rewrite names_snoc, not_elem_of_app, list_elem_of_singleton. intros [Hm1 Hm2].
    rewrite (proj2 (Hother m Hm Hm2)). by apply Hold.
  - intros p Hp. rewrite (only_slots_other _ _ _ _ Ho Hp). by apply Hsrc.
  - intros b [Hb| ->%list_elem_of_singleton]%elem_of_app.
    + assert (Hm : sb_name b ∈ names fin) by by apply list_elem_of_fmap_2.
      rewrite (proj1 (Hother (sb_name b) (Hkf _ Hm) ltac:(by intros E; rewrite E in Hm))).
      by apply Hnew.
    + fold n. rewrite Hi. rewrite (Hsrc _ Hu) in *. done.
Qed.

Definition rollback_failure (e : UpgradeError) : Prop := ∃ pre note,
  ue_detail e = pre +:+ "; rollback of the already-replaced binaries failed: " +:+ note.

Lemma install_loop_run staged fin w r w' : staged_ok (fin ++ staged) → progress fin w →
  install_loop staged bin_dir v false (backup_of recovered <$> names fin) w = (r, w') →
  match r with
  | inr backups => backups = backup_of recovered <$> names (fin ++ staged) ∧ progress (fin ++ staged) w'
  | inl e => (∀ n, known n → files w' !! slot n = orig n ∨ n ∈ names (fin ++ staged) ∧ files w' !! slot n = recovered n) ∨ rollback_failure e
  end.
Proof.
  revert fin w. induction staged as [|item staged IH]; intros fin w Hst Hp; cbn [install_loop].
  { intros [= <- <-]. by rewrite (right_id_L [] (++)). }
  assert (Hst1 : staged_ok (fin ++ [item])).
  { destruct Hst as [Hn Hs]. split.
    - rewrite fmap_app in *. cbn in *. apply NoDup_app in Hn as (H1' & H2' & H3'). apply NoDup_app.
      split_and!; [done| |apply NoDup_singleton]. intros m Hm E. eapply H2'; [exact Hm|]. set_solver.
    - intros b Hb. apply Hs. set_solver. }
  destruct (proj2 Hst1 item ltac:(set_solver)) as [Hk Hu].
  destruct (pg_free _ _ Hp _ Hk) as (Hfree & _).
  change (installed_path bin_dir item) with (slot (sb_name item)).
  change (backup_path bin_dir v item) with (slot (bak v (sb_name item))).
  assert (Hn : sb_name item ∉ names fin).
  { destruct Hst1 as [Hnd _]. rewrite fmap_app, NoDup_app in Hnd. destruct Hnd as (_ & Hnd & _).
    intros Hx. apply (Hnd _ Hx). by left. }
  unfold mbind at 1, EM_bind at 1. rewrite exists_slot by done.
  pose proof (pg_todo _ _ Hp _ Hk Hn) as Eo.
  unfold mbind at 1, EM_bind at 1, attempt at 1.
  destruct (replace_one bin_dir v item _ w) as [[err|[]] w1] eqn:E.
  - intros Hr. apply em_bind_inv in Hr as [(e & Ha & _)|(rolled & w2 & Ha & Hr)]; unfold attempt in Ha;
      destruct (restore_backups (backup_of recovered <$> names fin) bin_dir w1) as [ro w3] eqn:Er; [done|].
    injection Ha as -> ->. injection Hr as <- <-. destruct rolled as [rerr|[]].
    + right. by eexists _, _.
    + left. apply replace_one_run in E as [Ho Hsame]; try done; [|apply Hp].
      assert (Hkf : Forall known (names fin)).
      { apply Forall_forall. intros m (b & -> & Hb)%list_elem_of_fmap.
        by apply (proj2 Hst1 b), elem_of_app; left. }
      assert (Hnd : NoDup (names fin)).
      { destruct Hst1 as [Hnd _]. rewrite fmap_app in Hnd. by apply NoDup_app in Hnd as [? _]. }
      apply restore_run in Er as [Ho2 Hc]; [|done|done|by eapply only_slots_free; [|apply Hp]|].
      2:{ intros m Hm Hs. assert (Hkm : known m) by by eapply Forall_forall in Hkf.
          rewrite (only_slots_slot _ _ _ _ Ho); [apply (pg_bak _ _ Hp); [done|by unfold recovered in Hs; destruct (orig m)]|].
          destruct (names_apart v (sb_name item) m Hk Hkm) as (A1 & _).
          destruct (names_apart v m (sb_name item) Hkm Hk) as (_ & _ & _ & A4 & _).
          assert (bak v m ≠ bak v (sb_name item)).
          { intros E%(bak_inj v); [|done..]. by subst m. }
          set_solver. }
      intros m Hm. destruct (decide (m ∈ names fin)) as [Hmf|Hmf]; [right; split; [unfold names; rewrite fmap_app; set_solver|by eapply Hc]|left].
      rewrite (only_slots_slot _ _ _ _ Ho2).
      * destruct (decide (m = sb_name item)) as [->|Hne]; [by rewrite Hsame|].
        rewrite (only_slots_slot _ _ _ _ Ho); [by apply (pg_todo _ _ Hp)|].
        destruct (names_apart v m (sb_name item) Hm Hk) as (A1 & A2 & _). set_solver.
      * intros (m' & Hm' & [->| ->])%touched_in; [done|].
        assert (Hkm : known m') by by eapply Forall_forall in Hkf.
        by destruct (names_apart v (rb m') m' Hm Hkm) as (_ & _ & ? & _).
  - intros Hr. rewrite Eo in Hr. change (mk_backup _ _ _) with (backup_of orig (sb_name item)) in Hr.
    assert (El : (backup_of recovered <$> names fin) ++ [backup_of orig (sb_name item)]
                 = backup_of recovered <$> names (fin ++ [item])).
    { by rewrite names_snoc, fmap_app, <- backup_of_recovered. }
    rewrite El in Hr. rewrite (cons_middle item fin staged), (assoc_L (++)) in *.
    eapply IH; [done| |exact Hr]. by eapply progress_step.
Qed.

End Install.

(** ** The whole upgrade *)

Definition same_binaries (w w' : World) : Prop := ∀ n, known n → files w' !! slot n = files w !! slot n.

Definition binaries (w : World) (n : string) : option string := files w !! slot n.
Definition old_backups (w : World) (n : string) : option string := files w !! slot (bak v n).

(** Every binary is as it was, or, when a backup of the same version was there before, what that backup held: only
    the presence of a backup is looked at. *)
Definition put_back (w w' : World) : Prop := ∀ n, known n →
  files w' !! slot n = files w !! slot n ∨
  ∃ old, files w !! slot (bak v n) = Some old ∧ files w !! slot n ≠ None ∧ files w' !! slot n = Some old.

Lemma recovered_put_back w w' : (∀ n, known n → files w' !! slot n = binaries w n ∨ files w' !! slot n = recovered (binaries w) (old_backups w) n) → put_back w w'.
Proof.
  intros Hw n Hn. destruct (Hw n Hn) as [->|E]; [by left|]. rewrite E. unfold recovered, binaries, old_backups.
  destruct (files w !! slot n) as [c|]; [|by left]. destruct (files w !! slot (bak v n)) as [old|]; [right; by exists old|by left].
Qed.

Lemma progress_start w : slots_free v w → progress (binaries w) (old_backups w) w [] w.
Proof. intros Hf. split; auto; set_solver. Qed.

Lemma install_binaries_run staged w r w' : staged_ok staged → slots_free v w →
  install_binaries staged bin_dir v false w = (r, w') →
  match r with
  | inr backups => backups = backup_of (recovered (binaries w) (old_backups w)) <$> names staged ∧ progress (binaries w) (old_backups w) w staged w'
  | inl e => put_back w w' ∧ (∀ n, known n → n ∉ names staged → files w' !! slot n = files w !! slot n) ∨ rollback_failure e
  end.
Proof.
  intros Hst Hf Hr. apply (install_loop_run (binaries w) (old_backups w) w staged [] w) in Hr; [|done|].
  - destruct r as [e|b]; [|done]. destruct Hr as [Hr|Hr]; [left|by right]. split.
    + apply recovered_put_back. intros n Hn. destruct (Hr n Hn) as [?|[_ ?]]; auto.
    + intros n Hn Hs. by destruct (Hr n Hn) as [?|[? _]].
  - by apply progress_start.
Qed.

(** What a rollback needs of it. *)
Record replaced (orig old : string → option string) (staged : list StagedBinary) (w : World) : Prop := mk_replaced {
  rp_free : slots_free v w;
  rp_todo : ∀ n, known n → n ∉ names staged → files w !! slot n = orig n;
  rp_bak : ∀ n, n ∈ names staged → recovered orig old n ≠ None → files w !! slot (bak v n) = recovered orig old n;
}.

Lemma progress_replaced orig old w0 staged w : progress orig old w0 staged w → replaced orig old staged w.
Proof. intros [? ? Hb _ _ _]. split; [done|done|]. intros n Hn Hr. apply Hb; [done|]. unfold recovered in Hr. by destruct (orig n). Qed.

Lemma replaced_keeps orig old staged w w' : keeps w w' → replaced orig old staged w → replaced orig old staged w'.
Proof.
  intros Hk [Hf Ht Hb]. split.
  - intros n Hn. destruct (Hf n Hn) as (D1 & D2 & D3 & D4). split_and!; intros D; apply Hk in D; done.
  - intros n Hn Hs. rewrite (proj1 (Hk n)). by apply Ht.
  - intros n Hn Hs. rewrite (proj1 (Hk _)). by apply Hb.
Qed.

Lemma replaced_restore orig old staged w r w' : staged_ok staged → replaced orig old staged w →
  restore_backups (backup_of (recovered orig old) <$> names staged) bin_dir w = (r, w') →
  ∀ u, r = inr u → ∀ n, known n → files w' !! slot n = orig n ∨ files w' !! slot n = recovered orig old n.
Proof.
  intros [Hnd Hst] Hp Hr u -> n Hn.
  assert (Hkf : Forall known (names staged)).
  { apply Forall_forall. intros m (b & -> & Hb)%list_elem_of_fmap. by apply Hst. }
  apply restore_run in Hr as [Ho Hc]; [|done|done|apply Hp|].
  2:{ intros m Hm Hs. by apply (rp_bak _ _ _ _ Hp). }
  destruct (decide (n ∈ names staged)) as [Hin|Hin]; [right; by eapply Hc|left].
  rewrite (only_slots_slot _ _ _ _ Ho); [by apply (rp_todo _ _ _ _ Hp)|].
  intros (m & Hm & [->|E])%touched_in; [done|]. assert (Hkm : known m) by by eapply Forall_forall in Hkf.
  by destruct (names_apart v n m Hn Hkm) as (_ & _ & ? & _).
Qed.

Lemma keeps_free w w' : keeps w w' → slots_free v w → slots_free v w'.
Proof.
  intros Hk Hf n Hn. destruct (Hf n Hn) as (H1' & H2' & H3' & H4').
  split_and!; intros Hd; apply Hk in Hd; done.
Qed.

Lemma keeps_same w w' : keeps w w' → same_binaries w w'.
Proof. intros Hk n _. apply Hk. Qed.

Lemma same_trans w1 w2 w3 : same_binaries w1 w2 → same_binaries w2 w3 → same_binaries w1 w3.
Proof. intros S1 S2 n Hn. by rewrite S2, S1. Qed.
Lemma put_back_keeps w1 w2 w3 w4 : keeps w1 w2 → put_back w2 w3 → keeps w3 w4 → put_back w1 w4.
Proof. intros K1 Hp K2 n Hn. specialize (Hp n Hn). by rewrite (proj1 (K2 _)), <- !(proj1 (K1 _)). Qed.

(** *** Waiting *)

Lemma shared_read_run `{Json A} p w (r : result A) w' : shared_read_json p w = (r, w') → w' = w.
Proof.
  intros Hr. rewrite (shared_read_json_law A _ p w) in Hr.
  pose proof (read_json_respects eq (A := A) p w) as E. by rewrite Hr in E.
Qed.

Lemma running_version_run state w : ∃ o, running_version state w = (Ok o, w).
Proof.
  unfold running_version, try, mbind, M_bind.
  destruct (shared_read_json _ w) as [r w'] eqn:E. apply shared_read_run in E as ->. by destruct r; eexists.
Qed.

Lemma wait_loop_run fuel state target deadline w : (deadline - clock w ≤ (Z.of_nat fuel - 2) * 1000)%Z → 2 ≤ fuel →
  ∃ b w', wait_loop fuel state target deadline w = (Ok (Some b), w') ∧ keeps w w' ∧
    (b = true → ∃ w1, running_version state w1 = (Ok (Some target), w') ∧ w1 = w') ∧
    (b = false → deadline ≤ clock w')%Z.
Proof.
  revert w. induction fuel as [|fuel IH]; intros w Hd Hf; [lia|].
  cbn [wait_loop]. destruct (running_version_run state w) as [o Ho].
  unfold mbind at 1, M_bind at 1. rewrite Ho.
  destruct (bool_decide_reflect (o = Some target)) as [->|Hne].
  { exists true, w. split_and!; [done|reflexivity| |done]. intros _. by exists w. }
  unfold mbind at 1, M_bind at 1, gets.
  destruct (Z.leb_spec deadline (clock w)) as [Hle|Hlt].
  { exists false, w. split_and!; [done|reflexivity|done|done]. }
  unfold mbind, M_bind, sleep, modify.
  pose proof (ul_clock READY_POLL_INTERVAL_MS w) as Hc. unfold READY_POLL_INTERVAL_MS in *.
  destruct (IH (others_act 1000 w)) as (b & w' & Hr & Hk & Ht & Hfa); [lia|lia|].
  exists b, w'. split_and!; [exact Hr| |done|done].
  etrans; [apply ul_others|exact Hk].
Qed.

Lemma wait_run state target limit w : (0 ≤ limit)%Z → ∃ b w',
  wait_for_version state target limit w = (Ok b, w') ∧ keeps w w' ∧
  (b = true → running_version state w' = (Ok (Some target), w')) ∧
  (b = false → clock w + limit * 1000 ≤ clock w')%Z.
Proof.
  intros Hl. unfold wait_for_version, gets, mbind, M_bind.
  destruct (wait_loop_run (wait_fuel limit) state target (clock w + limit * 1000) w) as (b & w' & Hr & Hk & Ht & Hf).
  { unfold wait_fuel. lia. }
  { unfold wait_fuel. lia. }
  rewrite Hr. exists b, w'. cbn. split_and!; [done|done| |done].
  intros Hb. by destruct (Ht Hb) as (w1 & Hv & ->).
Qed.


(** *** The steps of [apply_inner] *)

Lemma host_bind {A B} (m : UM World A) (f : A → UM US B) w rec r s' :
  (host m ≫= f) (w, rec) = (r, s') →
  (∃ e w1, m w = (inl e, w1) ∧ r = inl e ∧ s' = (w1, rec)) ∨
  (∃ a w1, m w = (inr a, w1) ∧ f a (w1, rec) = (r, s')).
Proof.
  unfold host, mbind, EM_bind. cbn. destruct (m w) as [[e|a] w1]; [|by right; eauto].
  intros [= <- <-]. left. eauto 6.
Qed.

Lemma save_keeps w rec : keeps w (store_record state_dir rec w).2.
Proof. by apply store_keeps. Qed.

Lemma version_keeps staged : staged_ok staged → urespects keeps (verify_staged_agentd staged).
Proof.
  intros [_ Hs]. unfold verify_staged_agentd.
  destruct (find_first (is_named AGENTD_BIN_NAME) staged) as [b|] eqn:E; [|solve_keeps].
  apply find_first_Some in E as [Hb _]. destruct (Hs b Hb) as [_ [y Hy]].
  assert (Hq : respects keeps (run_program (sb_path b) ["version"])).
  { rewrite Hy. by apply quiet_keeps; apply state_path_program. }
  solve_keeps.
Qed.

Lemma check_keeps staged w r w' :
  check_upgrade_keeps_bin_directory_consistent staged bin_dir w = (r, w') → slots_free v w → w' = w ∧
  (r = inr tt → ∀ n, known n → n ≠ AGENTD_BIN_NAME → brings staged n = false → files w !! slot n = None).
Proof.
  intros Hr Hf. unfold check_upgrade_keeps_bin_directory_consistent in Hr.
  set (be := brings staged EXEC_BIN_NAME) in *. set (bu := brings staged UPGRADER_BIN_NAME) in *.
  assert (Hke : known EXEC_BIN_NAME) by (unfold known; set_solver).
  assert (Hku : known UPGRADER_BIN_NAME) by (unfold known; set_solver).
  destruct (negb (Bool.eqb be bu)) eqn:E1.
  { injection Hr as <- <-. done. }
  apply negb_false_iff, Bool.eqb_prop in E1.
  destruct be eqn:Ebe.
  { injection Hr as <- <-. split; [done|]. intros _ n Hn Hna Hb.
    subst be bu. destruct (known_cases n Hn) as [->|[->| ->]]; [done|congruence|congruence]. }
  unfold mbind, EM_bind in Hr. change (path_join bin_dir ?x) with (slot x) in Hr.
  destruct (Hf _ Hke) as (De & _). destruct (Hf _ Hku) as (Du & _).
  rewrite exists_slot in Hr by done.
  destruct (files w !! slot EXEC_BIN_NAME) eqn:Fe; cbn [is_some] in Hr; [by injection Hr as <- <-|].
  rewrite exists_slot in Hr by done.
  destruct (files w !! slot UPGRADER_BIN_NAME) eqn:Fu; cbn [is_some] in Hr; injection Hr as <- <-; [done|].
  split; [done|]. intros _ n Hn Hna _. by destruct (known_cases n Hn) as [->|[->| ->]].
Qed.

Lemma restart_keeps plan :
  (∀ program args, plan = RestartCommand program args → program ≠ "install" ∧ program ≠ "mv") →
  urespects keeps (run_restart plan).
Proof.
  intros Hp. destruct plan as [|program args]; [apply urespects_ret, _|].
  destruct (Hp program args eq_refl). unfold run_restart, run_command.
  assert (respects keeps (run_program program args)) by by apply quiet_keeps. solve_keeps.
Qed.

Lemma dry_run_run staged w acc r w' : install_loop staged bin_dir v true acc w = (r, w') → w' = w.
Proof.
  revert acc. induction staged as [|b l IH]; intros acc; cbn [install_loop]; [by intros [= _ ->]|].
  unfold mbind at 1, EM_bind at 1, exists_now, io, path_exists. apply IH.
Qed.

(** What [roll_back] leaves: the old binaries, if it says so. *)
Lemma roll_back_run orig old staged plan w rec rr s' : staged_ok staged → replaced orig old staged w →
  urespects keeps (run_restart plan) →
  roll_back (backup_of (recovered orig old) <$> names staged) bin_dir plan (w, rec) = (rr, s') →
  (∃ x, rr = inr x) ∧
  (rec_status s'.2 = rec_status rec ∨
   rec_status s'.2 = "rolled_back" ∧ ∀ n, known n → files s'.1 !! slot n = orig n ∨ files s'.1 !! slot n = recovered orig old n).
Proof.
  intros Hst Hp Hq. unfold roll_back.
  intros [(e & w1 & Ha & _)|(rolled & w1 & Ha & Hr)]%host_bind; unfold attempt in Ha;
    destruct (restore_backups _ bin_dir w) as [ro w2] eqn:Er; [done|]. injection Ha as -> ->.
  apply host_bind in Hr as [(e & w2 & Hb & _)|(retry & w2 & Hb & Hr)]; unfold attempt in Hb;
    destruct (run_restart plan w1) as [rs w3] eqn:Ers; [done|]. injection Hb as -> ->.
  assert (Hk : keeps w1 w2) by by eapply urespects_run.
  destruct rolled as [e|u]; injection Hr as <- <-; (split; [by eexists|]); [by left|].
  right. split; [done|]. intros n Hn. cbn. rewrite (keeps_same _ _ Hk n Hn).
  by eapply (replaced_restore orig old staged w (inr u) w1).
Qed.

(** The end of a run of [apply_inner]. *)
(** The package came from the request's source, what was staged from it and what was installed from
    what was staged. *)
Record passage (request : UpgradeRequest) (bytes : string) (staged : list StagedBinary) (wi : World) : Prop := {
  ps_fetched : ∃ w w', fetch_package (ur_package_url request) w = (inr bytes, w');
  ps_staged : ∃ w w', stage_package bytes (path_join state_dir UPGRADE_WORK_DIR) w = (inr staged, w');
  ps_installed : ∃ backups w',
    install_binaries staged bin_dir (ur_current_version request) false wi = (inr backups, w');
}.

Inductive upgrade_end (request : UpgradeRequest) (dry_run : bool) (w : World) (rec : UpgradeRecord)
    : UpgradeError + unit → World → UpgradeRecord → Prop :=
| end_same r w' rec' : rec_status rec' = rec_status rec → same_binaries w w' →
    (r = inr tt → dry_run = true) → upgrade_end request dry_run w rec r w' rec'
| end_stuck e w' rec' : rec_status rec' = rec_status rec → dry_run = false →
    upgrade_end request dry_run w rec (inl e) w' rec'
| end_rolled_back e w' rec' : rec_status rec' = "rolled_back" → dry_run = false → put_back w w' →
    upgrade_end request dry_run w rec (inl e) w' rec'
| end_done w' rec' bytes staged wi : rec_status rec' = rec_status rec → dry_run = false →
    passage request bytes staged wi →
    parse_digest (ur_package_sha256 request) = Some (sha256_hex_bytes bytes) →
    (ur_allow_downgrade request = true ∨
     version_is_newer (rec_to_version rec') (ur_current_version request) = Some true) →
    running_version state_dir w' = (Ok (Some (rec_to_version rec')), w') →
    staged_ok staged → brings staged AGENTD_BIN_NAME = true →
    (∀ b, b ∈ staged → files w' !! slot (sb_name b) = files wi !! sb_path b ∧
                       is_Some (files wi !! sb_path b)) →
    (∀ n, known n → files w' !! slot n ≠ None → brings staged n = true) →
    upgrade_end request dry_run w rec (inr tt) w' rec'.

Lemma step_bind {A} st (f : unit → UM US A) w rec :
  (step_to st ≫= f) (w, rec) = f tt (w, rec_at_step st (rfc3339 (clock w)) rec).
Proof. done. Qed.
Lemma save_bind {A} (f : unit → UM US A) w rec :
  (save state_dir ≫= f) (w, rec) = f tt ((store_record state_dir rec w).2, rec).
Proof. done. Qed.
Lemma update_bind {A} g (f : unit → UM US A) w rec : (update_record g ≫= f) (w, rec) = f tt (w, g rec).
Proof. done. Qed.

(** A host call before the binaries are touched: it fails and ends the run, or goes on. *)
Lemma quiet_bind {A B} (m : UM World A) (f : A → UM US B) w0 w rec r s' :
  (host m ≫= f) (w, rec) = (r, s') → keeps w0 w → urespects keeps m →
  (∃ e w1, r = inl e ∧ s' = (w1, rec) ∧ keeps w0 w1) ∨
  (∃ a w1, m w = (inr a, w1) ∧ keeps w0 w1 ∧ f a (w1, rec) = (r, s')).
Proof.
  intros Hr Hk Hm. apply host_bind in Hr as [(e & w1 & Hm1 & -> & ->)|(a & w1 & Hm1 & Hr)].
  - left. exists e, w1. split_and!; [done|done|]. etrans; [exact Hk|]. by eapply urespects_run.
  - right. exists a, w1. split_and!; [done| |done]. etrans; [exact Hk|]. by eapply urespects_run.
Qed.

Section Run.
Variables (request : UpgradeRequest) (options : UpgradeOptions).
Hypothesis Hbin : path_parent (ur_agentd_bin request) = Some bin_dir.
Hypothesis Hv : ur_current_version request = v.
Hypothesis Hplan : ∀ program args, uo_restart options = RestartCommand program args →
  program ≠ "install" ∧ program ≠ "mv".
Hypothesis Hwait : (0 ≤ uo_ready_wait options)%Z.

(** The part after the binaries were replaced. *)
Definition finish_upgrade (target_version : string) (backups : list Backup) : UM US unit :=
  step_to "restart";;
  save state_dir;;
  restarted ← host (attempt (run_restart (uo_restart options)));
  match restarted with
  | inl err =>
      '(rollback, retry) ← roll_back backups bin_dir (uo_restart options);
      raise (fail "restart_failed" (display_upgrade_error err +:+ rollback_notes rollback retry))
  | inr _ =>
      step_to "wait_ready";;
      save state_dir;;
      ready ← host (io (fail "") (wait_for_version state_dir target_version (uo_ready_wait options)));
      if negb (ready : bool) then
        '(rollback, retry) ← roll_back backups bin_dir (uo_restart options);
        raise (fail "not_ready"
          ("new version did not report " +:+ target_version +:+ " within " +:+
           pretty (uo_ready_wait options) +:+ "s" +:+ rollback_notes rollback retry))
      else mret tt
  end.

Lemma roll_back_raise {A} orig old staged w rec (err : option UpgradeError → option UpgradeError → UpgradeError)
    (r : UpgradeError + A) s' : staged_ok staged → replaced orig old staged w →
  ('(a, b) ← roll_back (backup_of (recovered orig old) <$> names staged) bin_dir (uo_restart options); raise (err a b))
    (w, rec) = (r, s') →
  (∃ e, r = inl e) ∧
  (rec_status s'.2 = rec_status rec ∨
   rec_status s'.2 = "rolled_back" ∧ ∀ n, known n → files s'.1 !! slot n = orig n ∨ files s'.1 !! slot n = recovered orig old n).
Proof.
  intros Hst Hp [(e & Hr & ->)|([a b] & s1 & Hr & Hr2)]%em_bind_inv.
  - split; [by eexists|]. apply (roll_back_run orig old) in Hr as [[x [=]] _]; auto using restart_keeps.
  - injection Hr2 as <- <-. split; [by eexists|].
    apply (roll_back_run orig old) in Hr as [_ Hr]; auto using restart_keeps.
Qed.
Lemma finish_run target staged orig old w rec r w' rec' : staged_ok staged → replaced orig old staged w →
  finish_upgrade target (backup_of (recovered orig old) <$> names staged) (w, rec) = (r, (w', rec')) →
  (∃ e, r = inl e ∧ (rec_status rec' = rec_status rec ∨
     rec_status rec' = "rolled_back" ∧ ∀ n, known n → files w' !! slot n = orig n ∨ files w' !! slot n = recovered orig old n)) ∨
  (r = inr tt ∧ keeps w w' ∧ rec_status rec' = rec_status rec ∧ rec_to_version rec' = rec_to_version rec ∧
   running_version state_dir w' = (Ok (Some target), w')).
Proof.
  intros Hst Hrep. unfold finish_upgrade. rewrite step_bind, save_bind.
  set (rec1 := rec_at_step _ _ rec). set (w1 := (store_record _ _ w).2).
  assert (K1 : keeps w w1) by apply save_keeps.
  intros Hr. apply host_bind in Hr as [(e & w2 & Ha & _)|(ro & w2 & Ha & Hr)]; unfold attempt in Ha;
    destruct (run_restart _ w1) as [rs w3] eqn:Ers; [done|]. injection Ha as -> ->.
  assert (K2 : keeps w w2).
  { etrans; [exact K1|]. eapply urespects_run; [by apply restart_keeps|exact Ers]. }
  destruct ro as [err|[]].
  - left. apply (roll_back_raise orig old) in Hr as [[e ->] Hs]; [|done|by eapply replaced_keeps].
    exists e. by split.
  - rewrite step_bind, save_bind in Hr. set (rec2 := rec_at_step _ _ rec1) in Hr.
    set (w3 := (store_record _ _ w2).2) in Hr.
    assert (K3 : keeps w w3) by (etrans; [exact K2|apply save_keeps]).
    destruct (wait_run state_dir target (uo_ready_wait options) w3 Hwait) as (b & w4 & Hw & K4 & Ht & Hfalse).
    apply host_bind in Hr as [(e & w5 & Ha & _)|(ready & w5 & Ha & Hr)]; unfold io in Ha; rewrite Hw in Ha;
      [done|]. injection Ha as -> ->.
    assert (K5 : keeps w w5) by by etrans. destruct ready; cbn [negb] in Hr.
    + injection Hr as <- <- <-. right. split_and!; [done|done|done|done|by apply Ht].
    + left. apply (roll_back_raise orig old) in Hr as [[e ->] Hs]; [|done|by eapply replaced_keeps].
      exists e. by split.
Qed.

Lemma apply_inner_run w rec r w' rec' : slots_free v w →
  apply_inner request options state_dir (w, rec) = (r, (w', rec')) →
  upgrade_end request (uo_dry_run options) w rec r w' rec'.
Proof.
  intros Hfree Hr.
  assert (Hsame : ∀ e w1 rec1, keeps w w1 → rec_status rec1 = rec_status rec →
    upgrade_end request (uo_dry_run options) w rec (inl e) w1 rec1).
  { intros e w1 rec1 Hk Hs. apply end_same; [done|by apply keeps_same|done]. }
  unfold apply_inner in Hr. rewrite step_bind in Hr.
  apply (quiet_bind _ _ w) in Hr as [(e & w1 & -> & [= -> ->] & K1)|(u1 & w1 & V1 & K1 & Hr)];
    [by apply Hsame| |reflexivity|solve_keeps].
  rewrite step_bind, save_bind in Hr.
  apply (quiet_bind _ _ w) in Hr as [(e & w2 & -> & [= -> ->] & K2)|(bytes & w2 & V2 & K2 & Hr)];
    [by apply Hsame| |by etrans; [|apply save_keeps]|apply fetch_keeps].
  rewrite step_bind, save_bind in Hr.
  apply (quiet_bind _ _ w) in Hr as [(e & w3 & -> & [= -> ->] & K3)|(u3 & w3 & V3 & K3 & Hr)];
    [by apply Hsame| |by etrans; [|apply save_keeps]|solve_keeps].
  rewrite step_bind, save_bind in Hr.
  apply (quiet_bind _ _ w) in Hr as [(e & w4 & -> & [= -> ->] & K4)|(staged & w4 & V4 & K4 & Hr)];
    [by apply Hsame| |by etrans; [|apply save_keeps]|apply stage_keeps].
  pose proof V4 as [Hst Hag]%stage_ok.
  rewrite step_bind, save_bind in Hr.
  apply (quiet_bind _ _ w) in Hr as [(e & w5 & -> & [= -> ->] & K5)|(reported & w5 & V5 & K5 & Hr)];
    [by apply Hsame| |by etrans; [|apply save_keeps]|by apply version_keeps].
  apply (quiet_bind _ _ w) in Hr as [(e & w6 & -> & [= -> ->] & K6)|(target & w6 & V6 & K6 & Hr)];
    [by apply Hsame| |done|solve_keeps].
  rewrite update_bind, save_bind, Hbin in Hr.
  apply (quiet_bind _ _ w) in Hr as [(e & w7 & -> & [= -> ->] & K7)|(bd & w7 & V7 & K7 & Hr)];
    [by apply Hsame| |by etrans; [|apply save_keeps]|solve_keeps].
  injection V7 as <- <-. set (w7 := (store_record _ _ w6).2) in *.
  apply host_bind in Hr as [(e & w8 & V8 & -> & [= -> ->])|([] & w8 & V8 & Hr)];
    apply check_keeps in V8 as [-> Hmix]; try (by eapply keeps_free); [by apply Hsame|].
  specialize (Hmix eq_refl).
  rewrite step_bind, save_bind, Hv in Hr. set (rec9 := rec_at_step _ _ _) in Hr.
  set (w9 := (store_record _ _ w7).2) in Hr.
  assert (K79 : keeps w7 w9) by apply save_keeps.
  assert (K9 : keeps w w9) by by etrans.
  apply host_bind in Hr as [(e & w10 & V10 & -> & [= -> ->])|(backups & w10 & V10 & Hr)];
    destruct (uo_dry_run options) eqn:Edry.
  - apply dry_run_run in V10 as ->. by apply Hsame.
  - by apply end_stuck.
  - apply dry_run_run in V10 as ->. injection Hr as <- <- <-.
    apply end_same; [done|by apply keeps_same|done].
  - pose proof V10 as Hins. apply install_binaries_run in V10 as [-> Hp]; [|done|by eapply keeps_free].
    apply (finish_run target staged (binaries w9) (old_backups w9)) in Hr; [|done|by eapply progress_replaced].
    destruct Hr as [(e & -> & [Hs|[Hs Hb]])|(-> & K & Hs & Hto & Hrun)].
    + by apply end_stuck.
    + apply end_rolled_back; [done|done|]. eapply put_back_keeps; [exact K9|by apply recovered_put_back|reflexivity].
    + injection V6 as V6 _. injection V3 as V3 _. apply resolve_target_ok in V6 as (-> & _ & Hnew).
      assert (Et : rec_to_version rec' = reported) by exact Hto. rewrite <- Et in *.
      eapply end_done with (bytes := bytes) (staged := staged) (wi := w9); try done.
      * split; [by do 2 eexists|by do 2 eexists|]. rewrite Hv. do 2 eexists. exact Hins.
      * by apply verify_digest_ok in V3.
      * intros b Hb. rewrite (proj1 (K _)). by apply (pg_new _ _ _ _ _ Hp).
      * intros n Hn. rewrite (proj1 (K _)). destruct (brings staged n) eqn:Eb; [done|].
        intros Hf. exfalso. apply Hf.
        assert (Hna : n ≠ AGENTD_BIN_NAME) by (intros ->; congruence).
        assert (Hin : n ∉ names staged) by by apply existsb_named.
        rewrite (pg_todo _ _ _ _ _ Hp n Hn Hin). unfold binaries. rewrite (proj1 (K79 n)).
        by apply Hmix.
Qed.


End Run.

(** ** [apply] *)

Definition plan_is_quiet (options : UpgradeOptions) : Prop := ∀ program args,
  uo_restart options = RestartCommand program args → program ≠ "install" ∧ program ≠ "mv".

Lemma apply_run request options w : path_parent (ur_agentd_bin request) = Some bin_dir →
  ur_current_version request = v → plan_is_quiet options → (0 ≤ uo_ready_wait options)%Z →
  slots_free v w →
  ∃ rec0 r w1 rec1, rec_status rec0 = "running" ∧ upgrade_end request (uo_dry_run options) w rec0 r w1 rec1 ∧
    keeps w1 (apply request options state_dir w).2 ∧
    rec_to_version (apply request options state_dir w).1 = rec_to_version rec1 ∧
    rec_status (apply request options state_dir w).1
    = match r with
      | inr _ => "succeeded"
      | inl _ => if String.eqb (rec_status rec1) "rolled_back" then "rolled_back" else "failed"
      end.
Proof.
  intros Hbin Hv Hplan Hwait Hfree. unfold apply. set (w0 := (spawn_heartbeat state_dir w).2).
  assert (K0 : keeps w w0).
  { unfold w0, spawn_heartbeat. cbn. unfold touch_heartbeat, now_rfc3339, gets, mbind, M_bind.
    by apply store_keeps. }
  set (rec0 := UpgradeRecord_new request _).
  destruct (apply_inner request options state_dir (w0, rec0)) as [r [w1 rec1]] eqn:E.
  apply apply_inner_run in E; try done; [|by eapply keeps_free].
  exists rec0, r, w1, rec1. split; [done|]. split.
  { assert (Hs : ∀ w2, same_binaries w0 w2 → same_binaries w w2).
    { intros w2. apply same_trans, keeps_same, K0. }
    destruct E; [apply end_same|apply end_stuck|apply end_rolled_back|eapply end_done]; eauto.
    by eapply put_back_keeps; [exact K0| |reflexivity]. }
  match goal with |- context [store_record state_dir ?rec w1] =>
    pose proof (save_keeps w1 rec) as K; destruct (store_record state_dir rec w1) as [[u|e] w2] end;
    cbn in K |- *; (split; [done|]); by destruct r.
Qed.

End Slots.

(** C31. A binary is replaced with the others or not at all.  When one of them cannot be replaced, those already
    replaced are put back from their backups, unless the error says that putting them back failed: the binaries that
    were not staged are untouched, and each of the others is as before, or, only where a backup for the same version
    was there already, what that backup held.  When all could be replaced, each is the artifact's, the others are
    untouched, and beside each old binary lies its backup: the one that was there, and otherwise the old binary.
    This is for binaries that can be looked up and no temporary file of a replacement in their place. *)
Theorem install_all_or_nothing (v : string) (staged : list StagedBinary) (w w' : World)
    (r : UpgradeError + list Backup) :
  (∀ x, fs_fault OpMetadata (slot x) = None) → staged_ok staged → slots_free v w →
  install_binaries staged bin_dir v false w = (r, w') →
  match r with
  | inl e => put_back v w w' ∧ (∀ n, known n → n ∉ names staged → files w' !! slot n = files w !! slot n) ∨ rollback_failure e
  | inr _ =>
      (∀ b, b ∈ staged → files w' !! slot (sb_name b) = files w !! sb_path b ∧ is_Some (files w !! sb_path b)) ∧
      (∀ n, known n → n ∉ names staged → files w' !! slot n = files w !! slot n) ∧
      (∀ n old, n ∈ names staged → files w !! slot n = Some old → files w' !! slot (bak v n) = Some (default old (files w !! slot (bak v n))))
  end.
Proof.
  intros Hm Hst Hf Hr. apply install_binaries_run in Hr; [|done..]. destruct r as [e|b]; [done|].
  destruct Hr as [_ Hp]. split_and!.
  - intros b' Hb. by apply (pg_new _ _ _ _ _ _ Hp).
  - intros n Hn Hin. by apply (pg_todo _ _ _ _ _ _ Hp).
  - intros n old Hn Hs. rewrite (pg_bak _ _ _ _ _ _ Hp) by (unfold binaries; by rewrite ?Hs). unfold recovered, binaries, old_backups. by rewrite Hs.
Qed.

(** C3. An upgrade that reports [rolled_back] has put back every binary of the machine, wherever it failed: each is as
    it was, or, only where a backup for the same version was there before the upgrade began, what that backup held;
    and a rehearsal leaves every binary as it was, whatever it reports.  This is for binaries that can be looked up,
    restart commands that leave them alone, and no temporary file of a replacement in their place. *)
Theorem rolled_back_is_restored (request : UpgradeRequest) (options : UpgradeOptions) (w : World) :
  (∀ x, fs_fault OpMetadata (slot x) = None) → path_parent (ur_agentd_bin request) = Some bin_dir →
  plan_is_quiet options → (0 ≤ uo_ready_wait options)%Z → slots_free (ur_current_version request) w →
  let '(record, w') := apply request options state_dir w in
  (rec_status record = "rolled_back" → put_back (ur_current_version request) w w') ∧ (uo_dry_run options = true → same_binaries w w').
Proof.
  intros Hm Hbin Hp Hw Hf.
  destruct (apply_run _ Hm request options w Hbin eq_refl Hp Hw Hf) as (rec0 & r & w1 & rec1 & Hr0 & He & K & _ & Hs).
  destruct (apply request options state_dir w) as [record w']. cbn in *.
  destruct He as [r w1 rec1 H1' H2' H3'|e w1 rec1 H1' H2'|e w1 rec1 H1' H2' H3'|w1 rec1 bytes staged wi H1' H2']; split; intros Hor; try congruence.
  - intros n Hn. left. rewrite (proj1 (K _)). by apply H2'.
  - eapply same_trans; [exact H2'|by apply keeps_same].
  - rewrite H1', Hr0 in Hs. by rewrite Hor in Hs.
  - by eapply put_back_keeps; [reflexivity|exact H3'|exact K].
Qed.

(** C20. An upgrade that reports success has fetched a package with the digest of the request and
    installed all that was staged from it: its version is newer than the one that ran, or going back
    was declared; the daemon reported that version before the last record was stored; every staged
    binary is in place; and no binary of another version is left beside them. *)
Theorem success_is_complete (request : UpgradeRequest) (options : UpgradeOptions) (w : World) :
  (∀ x, fs_fault OpMetadata (slot x) = None) → path_parent (ur_agentd_bin request) = Some bin_dir →
  plan_is_quiet options → (0 ≤ uo_ready_wait options)%Z →
  slots_free (ur_current_version request) w →
  let '(record, w') := apply request options state_dir w in
  rec_status record = "succeeded" → uo_dry_run options = false →
  ∃ bytes staged w1 w2,
    passage request bytes staged w1 ∧
    parse_digest (ur_package_sha256 request) = Some (sha256_hex_bytes bytes) ∧
    (ur_allow_downgrade request = true ∨
     version_is_newer (rec_to_version record) (ur_current_version request) = Some true) ∧
    running_version state_dir w2 = (Ok (Some (rec_to_version record)), w2) ∧ keeps w2 w' ∧
    brings staged AGENTD_BIN_NAME = true ∧
    (∀ b, b ∈ staged → files w' !! slot (sb_name b) = files w1 !! sb_path b ∧ is_Some (files w1 !! sb_path b)) ∧
    (∀ n, known n → files w' !! slot n ≠ None → brings staged n = true).
Proof.
  intros Hm Hbin Hp Hw Hf.
  destruct (apply_run _ Hm request options w Hbin eq_refl Hp Hw Hf)
    as (rec0 & r & w1 & rec1 & Hr0 & He & K & Hto & Hs).
  destruct (apply request options state_dir w) as [record w']. cbn in *. intros Hsuc Hd.
  destruct He as [r w1 rec1 H1' H2' H3'|e w1 rec1 H1' H2'|e w1 rec1 H1' H2'
                 |w1 rec1 bytes staged wi H1' H2' Hps Hdig Hnew Hrun Hst Hag Hb Hmix].
  - exfalso. destruct r as [e|[]]; [|by rewrite H3' in Hd].
    rewrite H1', Hr0, Hsuc in Hs. done.
  - rewrite H1', Hr0, Hsuc in Hs. done.
  - rewrite H1', Hsuc in Hs. done.
  - exists bytes, staged, wi, w1. rewrite Hto. split_and!; try done.
    + intros b Hin. rewrite (proj1 (K _)). by apply Hb.
    + intros n Hn. rewrite (proj1 (K _)). by apply Hmix.
Qed.

(** Waiting for the new version ends: within the time allowed and one poll it answers, yes
    only if the daemon's state names the version, no only if the time is over. *)
Theorem wait_for_version_terminates (target : string) (limit : Z) (w : World) : (0 ≤ limit)%Z →
  ∃ b w', wait_for_version state_dir target limit w = (Ok b, w') ∧
    wait_loop (wait_fuel limit) state_dir target (clock w + limit * 1000) w = (Ok (Some b), w') ∧
    (b = true → running_version state_dir w' = (Ok (Some target), w')) ∧
    (b = false → clock w + limit * 1000 ≤ clock w')%Z.
Proof.
  intros Hl. unfold wait_for_version, gets, mbind, M_bind.
  destruct (wait_loop_run (wait_fuel limit) state_dir target (clock w + limit * 1000) w)
    as (b & w' & Hr & _ & Ht & Hf); [unfold wait_fuel; lia..|].
  rewrite Hr. exists b, w'. cbn. split_and!; [done|done| |done].
  intros Hb. by destruct (Ht Hb) as (w1 & Hv & ->).
Qed.




End Machine.

End Upgrade.

(** A machine whose binaries are texts that name their own version; a version that ends in [x] does
    not come up. *)
Module ConcreteUpgrade.
Export Concrete.

#[export] Instance UpgradeRecord_eq_dec : EqDecision UpgradeRecord.
Proof. solve_decision. Defined.
#[export] Instance UpgradeRecord_countable : Countable UpgradeRecord.
Proof.
  refine (inj_countable'
    (λ r, (rec_work_id r, rec_from_version r, rec_to_version r, rec_step r,
           (rec_status r, rec_detail r, rec_agentd_bin r, rec_updated_at r)))
    (λ '(a, b, c, d, (e, f, g, h)), mk_upgrade_record a b c d e f g h) _).
  abstract (by intros []).
Defined.

#[export] Instance record_json : Json UpgradeRecord := toy_json.
#[export] Instance text_json : Json string := toy_json.
#[export] Instance shared : SharedFs := {|
  shared_read_json A J p := @read_json_async _ _ A J p;
  shared_write_json_atomic A J p a := write_json_atomic_async p a;
|}.
#[export] Instance shared_laws : SharedFsLaws.
Proof. by split. Qed.

Definition exited (ok : bool) (out : string) : Exit := mk_exit ok (if ok then "exit status: 0" else "exit status: 1") out "".

Definition daemon_state : string := "/s/agent_runtime.json".

(** [install], [mv], the service manager, and a staged binary that tells its version. *)
Definition toy_program (program : string) (args : list string) : M World Exit := λ w,
  if String.eqb program "install" then
    match args with
    | [_; _; src; dst] =>
        match files w !! src with
        | Some c => (Ok (exited true ""), set_files (<[dst:=c]> (files w)) w)
        | None => (Ok (exited false ""), w)
        end
    | _ => (Ok (exited false ""), w)
    end
  else if String.eqb program "mv" then
    match args with
    | [_; a; b] =>
        match files w !! a with
        | Some c => (Ok (exited true ""), set_files (<[b:=c]> (delete a (files w))) w)
        | None => (Ok (exited false ""), w)
        end
    | _ => (Ok (exited false ""), w)
    end
  else if String.eqb program "systemctl" then
    match files w !! "/b/wist-agentd" with
    | Some c =>
        (Ok (exited true ""),
         if ends_with "x" c then w
         else set_files (<[daemon_state := to_json c +:+ nl]> (files w)) w)
    | None => (Ok (exited false ""), w)
    end
  else (Ok (exited true ("wist-agentd " +:+ default "" (files w !! program))), w).

#[export] Instance toy_upgrade_host : UpgradeHost := {|
  run_program := toy_program;
  is_symlink _ _ := false;
  chmod_755 _ := mret tt;
  modified_at _ w := Ok (clock w);
  others_act ms w := set_clock (clock w + ms) w;
  Client := unit;
  enrollment_http_client _ := inl "not enrolled";
  read_local_source p _ w :=
    match files w !! p with Some c => inr c | None => inl (OtherArtifactError "not found") end;
  read_source_with_client _ _ _ _ _ := inl (OtherArtifactError "unreachable");
  display_artifact_error e := match e with TooLarge d => d | OtherArtifactError d => d end;
  AgentRuntimeState := string;
  runtime_version s := s;
  AgentRuntimeState_json := toy_json;
  AGENT_RUNTIME_FILE := "agent_runtime.json";
  spawn_detached _ _ := mret 1%Z;
  read_dir_all dir w :=
    (Ok (List.filter (λ p, bool_decide (p = path_join dir (path_file_name p) ∧ has_char slash (path_file_name p) = false))
           (elements (dom (files w)))), w);
|}.

(** Versions are compared as texts; a package is its own digest. *)
#[export] Instance toy_artifacts : Artifacts := {|
  upgrade_spec_from_json _ := inl "expected value";
  parse_digest s := Some s;
  sha256_hex_bytes b := b;
  parse_version s := if contains "." s then Some [0; 1]%Z else None;
  version_is_newer a b := Some (match String.compare a b with Gt => true | _ => false end);
|}.
#[export] Instance toy_unicode : UnicodeTables := {| escape_debug_char c := c |}.

Lemma toy_layout : layout "/b" "/s".
Proof.
  split.
  - intros x y E. apply (f_equal (str_drop 1)) in E. vm_compute in E. discriminate E.
  - intros x p Hp E.
    let l := eval vm_compute in (dir_prefixes "/s") in change (dir_prefixes "/s") with l in Hp.
    rewrite !elem_of_cons, elem_of_nil in Hp.
    destruct_or! Hp; subst p; [..|done]; apply (f_equal (str_drop 1)) in E; vm_compute in E; discriminate E.
Qed.

Lemma daemon_state_apart x : daemon_state ≠ slot "/b" x.
Proof. apply (ly_apart _ _ toy_layout x "agent_runtime.json"). Qed.

#[export] Instance toy_upgrade_laws : UpgradeLaws "/b".
Proof.
  split.
  - intros src dst w r w' Hr Hd. cbn in Hr. unfold toy_program in Hr. cbn in Hr.
    destruct (files w !! src) as [c|] eqn:E; injection Hr as <- <-; cbn.
    + split_and!; [done| |].
      * intros p Hp. by rewrite lookup_insert_ne.
      * intros e _ _. rewrite lookup_insert_eq. eauto.
    + split_and!; [done|done|]. by intros e [= <-].
  - intros a b w r w' Hr Hd. cbn in Hr. unfold toy_program in Hr. cbn in Hr.
    destruct (files w !! a) as [c|] eqn:E; injection Hr as <- <-; cbn; (split; [done|]).
    + left. by eexists _, c.
    + right. split; [by intros e [= <-]|done].
  - intros program args Hi Hm w x. cbn. unfold toy_program.
    apply String.eqb_neq in Hi as ->. apply String.eqb_neq in Hm as ->.
    destruct (String.eqb program "systemctl"); [|done].
    destruct (files w !! "/b/wist-agentd") as [c|]; [|done]. destruct (ends_with "x" c); [done|].
    cbn. split; [|done]. rewrite lookup_insert_ne; [done|]. apply daemon_state_apart.
  - by intros ms w x.
  - intros ms w. cbn. lia.
  - by intros p w.
  - intros dir w r w' [= <- <-]. split; [done|]. intros l [= <-] p Hp.
    apply list_elem_of_In, filter_In in Hp as [_ Hp]. apply bool_decide_eq_true in Hp as [Hp Hs].
    by exists (path_file_name p).
Qed.

(** A bare agent of version 0.1.3, and a package. *)
Definition machine (package : string) : World :=
  MkWorld _ {[ "/b/wist-agentd" := "0.1.3"; "/tmp/p" := package ]} {[ ""; "/b"; "/s" ]} 0 ∅.

Definition request_for (package : string) : UpgradeRequest :=
  mk_request "work-up" None "0.1.3" "/b/wist-agentd" "/tmp/p" package false.

Definition live : UpgradeOptions := mk_options false 3 default_restart_plan.

Lemma live_quiet : plan_is_quiet live.
Proof. intros program args [= <- <-]. done. Qed.

Lemma machine_free package : slots_free "/b" "0.1.3" (machine package).
Proof.
  intros n Hn. cbn [dirs machine]. destruct (known_cases n Hn) as [->|[->| ->]];
    (split_and!; apply (bool_decide_unpack (_ ∉ _)); vm_compute; exact I).
Qed.

Lemma meta_ok x : fs_fault OpMetadata (slot "/b" x) = None.
Proof. reflexivity. Qed.

Definition in_state : list StagedBinary := [mk_staged "wist-agentd" "/s/upgrade/wist-agentd"].

Definition unpacked (package : string) : World :=
  MkWorld _ {[ "/b/wist-agentd" := "0.1.3"; "/s/upgrade/wist-agentd" := package ]} {[ ""; "/b"; "/s" ]} 0 ∅.

Lemma in_state_ok : staged_ok "/s" in_state.
Proof.
  split; [apply NoDup_singleton|]. intros b ->%list_elem_of_singleton.
  split; [by left|]. by exists "upgrade/wist-agentd".
Qed.

Example install_all_or_nothing_witness :
  let w' := (install_binaries in_state "/b" "0.1.3" false (unpacked "0.1.4")).2 in
  files w' !! "/b/wist-agentd" = Some "0.1.4" ∧ files w' !! "/b/wist-agentd.bak-0.1.3" = Some "0.1.3" ∧
  match (install_binaries in_state "/b" "0.1.3" false (unpacked "0.1.4")).1 with
  | inl e => put_back "/b" "0.1.3" (unpacked "0.1.4") w' ∧
      (∀ n, known n → n ∉ names in_state → files w' !! slot "/b" n = files (unpacked "0.1.4") !! slot "/b" n) ∨ rollback_failure e
  | inr _ =>
      (∀ b, b ∈ in_state → files w' !! slot "/b" (sb_name b) = files (unpacked "0.1.4") !! sb_path b ∧
         is_Some (files (unpacked "0.1.4") !! sb_path b)) ∧
      (∀ n, known n → n ∉ names in_state → files w' !! slot "/b" n = files (unpacked "0.1.4") !! slot "/b" n) ∧
      (∀ n old, n ∈ names in_state → files (unpacked "0.1.4") !! slot "/b" n = Some old →
         files w' !! slot "/b" (bak "0.1.3" n) = Some (default old (files (unpacked "0.1.4") !! slot "/b" (bak "0.1.3" n))))
  end.
Proof.
  intros w'. split; [by vm_compute|]. split; [by vm_compute|].
  apply (install_all_or_nothing "/b" "/s" toy_layout "0.1.3" in_state (unpacked "0.1.4") w').
  - exact meta_ok.
  - exact in_state_ok.
  - exact (machine_free "").
  - apply surjective_pairing.
Defined.


Example rolled_back_is_restored_witness :
  rec_status (apply (request_for "0.1.4x") live "/s" (machine "0.1.4x")).1 = "rolled_back" ∧
  let '(record, w') := apply (request_for "0.1.4x") live "/s" (machine "0.1.4x") in
  (rec_status record = "rolled_back" → put_back "/b" "0.1.3" (machine "0.1.4x") w') ∧
  (uo_dry_run live = true → same_binaries "/b" (machine "0.1.4x") w').
Proof.
  split; [by vm_compute|].
  apply (rolled_back_is_restored "/b" "/s" toy_layout (request_for "0.1.4x") live (machine "0.1.4x")).
  - exact meta_ok.
  - reflexivity.
  - exact live_quiet.
  - discriminate.
  - exact (machine_free _).
Defined.

Example success_is_complete_witness :
  rec_status (apply (request_for "0.1.4") live "/s" (machine "0.1.4")).1 = "succeeded" ∧
  let '(record, w') := apply (request_for "0.1.4") live "/s" (machine "0.1.4") in
  rec_status record = "succeeded" → uo_dry_run live = false →
  ∃ bytes staged w1 w2,
    passage "/b" "/s" (request_for "0.1.4") bytes staged w1 ∧
    parse_digest "0.1.4" = Some (sha256_hex_bytes bytes) ∧
    (false = true ∨ version_is_newer (rec_to_version record) "0.1.3" = Some true) ∧
    running_version "/s" w2 = (Ok (Some (rec_to_version record)), w2) ∧ keeps "/b" w2 w' ∧
    brings staged AGENTD_BIN_NAME = true ∧
    (∀ b, b ∈ staged → files w' !! slot "/b" (sb_name b) = files w1 !! sb_path b ∧
       is_Some (files w1 !! sb_path b)) ∧
    (∀ n, known n → files w' !! slot "/b" n ≠ None → brings staged n = true).
Proof.
  split; [by vm_compute|].
  apply (success_is_complete "/b" "/s" toy_layout (request_for "0.1.4") live (machine "0.1.4")).
  - exact meta_ok.
  - reflexivity.
  - exact live_quiet.
  - discriminate.
  - exact (machine_free _).
Defined.

Example wait_for_version_terminates_witness :
  ∃ b w', wait_for_version "/s" "0.1.4" 2 (machine "0.1.4") = (Ok b, w') ∧
    wait_loop (wait_fuel 2) "/s" "0.1.4" (clock (machine "0.1.4") + 2 * 1000) (machine "0.1.4")
      = (Ok (Some b), w') ∧
    (b = true → running_version "/s" w' = (Ok (Some "0.1.4"), w')) ∧
    (b = false → (clock (machine "0.1.4") + 2 * 1000 ≤ clock w')%Z).
Proof. apply (wait_for_version_terminates "/b" "/s" "0.1.4" 2 (machine "0.1.4")). discriminate. Defined.

(** An existing backup of the same version is trusted whatever it holds. *)
Definition machine_with_backup (package : string) : World :=
  MkWorld _ {[ "/b/wist-agentd" := "0.1.3"; "/b/wist-agentd.bak-0.1.3" := "cut sho"; "/tmp/p" := package ]}
    {[ ""; "/b"; "/s" ]} 0 ∅.

(** The upgrade says that it has been rolled back, and the agent is now what an earlier run left in
    the backup: only the presence of a backup is looked at, and a copy that was interrupted leaves
    one. *)
Example stale_backup_restored :
  let '(record, w') := apply (request_for "0.1.4x") live "/s" (machine_with_backup "0.1.4x") in
  rec_status record = "rolled_back" ∧ files w' !! "/b/wist-agentd" = Some "cut sho".
Proof. vm_compute. by split. Qed.

End ConcreteUpgrade.
