(* ===== verification/WorkLoop.v ===== *)
(** runtime/daemon.rs, the part of the loop that is about granted work: fetching the grant,
    dispatching upgrades, acknowledging, and telling the gateway how an upgrade went.  The HTTP
    exchange of control/work.rs is here too: the requests are built as in the code, what the
    gateway answers to them is a parameter. *)
From S2P Require Import Prelude Text Host BTree Telemetry LogToy Select Fmt Throttle Work UpgradeRequest.
From S2P Require Import Upgrade.
From stdpp Require Import pretty.

(** * The gateway *)

(** [wist_api::work], as control/work.rs fills them in. *)
Record PollWork := mk_poll {
  pw_agent_id : string;
  pw_instance_id : string;
  pw_last_seen_sequence : Z;
  pw_wait_ms : Z;
  pw_requested_at : string;
}.

Record AckWork := mk_ack {
  ak_agent_id : string;
  ak_instance_id : string;
  ak_work_id : string;
  ak_plan_version : Z;
  ak_acknowledged_at : string;
}.

Record ReportWorkResult := mk_report_result {
  rw_agent_id : string;
  rw_instance_id : string;
  rw_work_id : string;
  rw_status : string;
  rw_detail : string;
  rw_reported_at : string;
}.

Inductive GatewayRequest :=
| RequestPoll (r : PollWork)
| RequestAck (r : AckWork)
| RequestResult (r : ReportWorkResult).

(** A response with its success flag and body, or none at all. *)
Inductive Reply := Response (success : bool) (body : string) | NoResponse.

(** What the loop did to the world outside, in order. *)
Inductive LoopEvent :=
| Posted (url : string) (request : GatewayRequest) (reply : Reply)
| Launched (work_id : string) (handle : string + string).

(** The gateway answers what it likes, knowing all that happened; a request takes time, in which
    the other processes of the host go on.  Decoding a body is [serde_json] on the types of
    wist_api. *)
Class WorkGateway `{UpgradeHost} := {
  gateway_reply : Client → string → GatewayRequest → list LoopEvent → World → Reply;
  request_takes : string → GatewayRequest → list LoopEvent → World → Z;
  decode_work_grant : string → option WorkGrant;
  (** The status of a [WorkAccepted]. *)
  decode_work_accepted : string → option string;
  (** The body is a [WorkResultAccepted]. *)
  decodes_work_result_accepted : string → bool;
  current_exe : World → result string;
  CARGO_PKG_VERSION : string;
}.

(** The parts of [DaemonLoop] and its configuration that are read here. *)
Record DaemonLoop := mk_daemon_loop {
  dl_endpoint : option string;
  dl_agent_id : option string;
  dl_instance_name : option string;
  dl_state_dir : string;
  dl_log_dir : string;
  dl_upgrader_bin : string;
  dl_config_dir : string;
}.

(** The host, the work in memory, the instant of the last fetch, and what was done so far. *)
Record Loop `{Os} `{WorkContracts} := mk_loop {
  lp_world : World;
  lp_runtime : AppliedWorkGrant;
  lp_last_fetch : option Z;
  lp_events : list LoopEvent;
}.

Arguments mk_loop {_ _ _ _} _ _ _ _.

Definition ENV_FILE_NAME : string := "agentd.env".

Section WorkLoop.
Context `{WorkContracts} `{WorkGateway} `{!SharedFs} `{Artifacts} `{UnicodeTables}.
Context `{!Json UpgradeRecord} `{!Json WorkRecord}.

Definition on_world {A} (m : M World A) : M Loop A := λ l,
  let '(r, w) := m (lp_world l) in
  (r, mk_loop w (lp_runtime l) (lp_last_fetch l) (lp_events l)).
Definition on_runtime (f : AppliedWorkGrant → AppliedWorkGrant) : M Loop unit :=
  modify (λ l, mk_loop (lp_world l) (f (lp_runtime l)) (lp_last_fetch l) (lp_events l)).
Definition set_last_fetch (now : Z) : M Loop unit :=
  modify (λ l, mk_loop (lp_world l) (lp_runtime l) (Some now) (lp_events l)).
Definition happened (e : LoopEvent) : M Loop unit :=
  modify (λ l, mk_loop (lp_world l) (lp_runtime l) (lp_last_fetch l) (lp_events l ++ [e])).

(** [client.post(url).timeout(..).json(request).send().await] *)
Definition post (client : Client) (url : string) (request : GatewayRequest) : M Loop Reply :=
  reply ← gets (λ l, gateway_reply client url request (lp_events l) (lp_world l));
  time ← gets (λ l, request_takes url request (lp_events l) (lp_world l));
  on_world (modify (others_act time));;
  happened (Posted url request reply);;
  mret reply.

(** ** control/work.rs: the three requests *)

(** The client is built for each request; without one nothing is sent. *)
Definition call_gateway (endpoint path : string) (request : GatewayRequest) : M Loop (option string) :=
  client ← gets (λ l, enrollment_http_client (lp_world l));
  match client with
  | inl _ => mret None
  | inr client =>
      reply ← post client (gateway_url endpoint path) request;
      mret (match reply with Response true body => Some body | _ => None end)
  end.

Definition fetch_work_grant (config : DaemonLoop) (last_seen_sequence : Z) : M Loop (option WorkGrant) :=
  match dl_endpoint config, dl_agent_id config with
  | Some endpoint, Some agent_id =>
      now ← on_world now_rfc3339;
      body ← call_gateway endpoint "/api/v1/agent/work:poll"
               (RequestPoll (mk_poll agent_id (default "" (dl_instance_name config))
                  last_seen_sequence 0 now));
      mret (body ≫= decode_work_grant)
  | _, _ => mret None
  end.

Definition ack_work (config : DaemonLoop) (work_id : string) (plan_version : Z) : M Loop bool :=
  match dl_endpoint config, dl_agent_id config with
  | Some endpoint, Some agent_id =>
      now ← on_world now_rfc3339;
      body ← call_gateway endpoint "/api/v1/agent/work:ack"
               (RequestAck (mk_ack agent_id (default "" (dl_instance_name config))
                  work_id plan_version now));
      mret (match body ≫= decode_work_accepted with
            | Some status => String.eqb status "accepted"
            | None => false
            end)
  | _, _ => mret false
  end.

Definition report_work_result (config : DaemonLoop) (work_id status detail : string) : M Loop bool :=
  match dl_endpoint config, dl_agent_id config with
  | Some endpoint, Some agent_id =>
      now ← on_world now_rfc3339;
      body ← call_gateway endpoint "/api/v1/agent/work:result"
               (RequestResult (mk_report_result agent_id (default "" (dl_instance_name config))
                  work_id status detail now));
      mret (match body with Some body => decodes_work_result_accepted body | None => false end)
  | _, _ => mret false
  end.

(** ** state_store/work.rs *)

Definition work_path_for (state_dir : string) : string := path_join state_dir "work.json".

Definition work_load_async (path : string) : M World (option WorkRecord) :=
  r ← try (read_json_async path);
  match r with
  | Ok record => mret (Some record)
  | Err err => if decide (io_kind err = NotFound) then mret None else throw err
  end.

Definition work_store_async (path : string) (record : WorkRecord) : M World unit :=
  write_json_atomic_async path record.

(** ** Dispatching *)

Definition dispatch_upgrade (config : DaemonLoop) (entry : OneShotWork) : M Loop (string + string) :=
  exe ← gets (λ l, current_exe (lp_world l));
  match exe with
  | Err err => mret (inl ("resolve current exe: " +:+ io_msg err))
  | Ok agentd_bin =>
      match upgrade_request_for CARGO_PKG_VERSION agentd_bin (ow_work_id entry) (ow_spec entry) with
      | inl err => mret (inl err)
      | inr request =>
          let launch := build_launch (dl_upgrader_bin config) (dl_config_dir config) request in
          let log_path := path_join (dl_log_dir config) "wist-upgrader.log" in
          let env_file := path_join (dl_config_dir config) ENV_FILE_NAME in
          launched ← on_world (spawn_upgrader launch log_path (ow_work_id entry) env_file);
          happened (Launched (ow_work_id entry) launched);;
          mret launched
      end
  end.

(** One work that was handed out: whether its dispatch was acknowledged. *)
Definition dispatch_one (config : DaemonLoop) (work : OneShotWork) : M Loop bool :=
  busy ← gets (λ l, has_upgrade_in_flight (lp_runtime l));
  if busy : bool then mret false
  else
    dispatched ← dispatch_upgrade config work;
    match dispatched with
    | inr _ =>
        on_runtime (mark_one_shot_execution (ow_work_id work) "dispatched");;
        ack_work config (ow_work_id work) 0
    | inl err =>
        on_runtime (mark_one_shot_execution (ow_work_id work) "rejected");;
        report_work_result config (ow_work_id work) "failed" ("agentd 未能启动升级器：" +:+ err);;
        mret false
    end.

Fixpoint dispatch_all (config : DaemonLoop) (works : list OneShotWork) : M Loop bool :=
  match works with
  | [] => mret false
  | work :: works =>
      acked ← dispatch_one config work;
      rest ← dispatch_all config works;
      mret (acked || rest)
  end.

(** ** The record of the upgrader *)

(** The status and the detail the control plane is told. *)
Definition work_result_of (record : UpgradeRecord) : option (string * string) :=
  if String.eqb (rec_status record) "running" then Some ("running", "正在 " +:+ rec_step record)
  else if String.eqb (rec_status record) "succeeded" then
    Some ("succeeded", rec_from_version record +:+ " -> " +:+ rec_to_version record)
  else if String.eqb (rec_status record) "failed" then Some ("failed", rec_detail record)
  else if String.eqb (rec_status record) "rolled_back" then
    Some ("failed", "已回滚到 " +:+ rec_from_version record +:+ "：" +:+ rec_detail record)
  else None.

Definition declared_dead_detail (record : UpgradeRecord) : string :=
  "升级器 " +:+ pretty (UPGRADER_DEAD_AFTER_MS / 1000)%Z +:+ "s 没有心跳，判定已死（步骤 " +:+
  rec_step record +:+ "）；机器可能停在中间态".

Definition is_dead (state_dir : string) (record : UpgradeRecord) (w : World) : bool :=
  String.eqb (rec_status record) "running" && negb (heartbeat_is_fresh state_dir (clock w) w).

Definition local_status_of (dead : bool) (record : UpgradeRecord) : string :=
  if dead then "failed" else rec_status record.

Definition reported_of (dead : bool) (record : UpgradeRecord) : option (string * string) :=
  if dead then Some ("failed", declared_dead_detail record) else work_result_of record.

Definition reconcile_upgrade_record (config : DaemonLoop) : M Loop bool :=
  let state_dir := dl_state_dir config in
  read ← try (on_world (shared_read_json (A := UpgradeRecord) (path_join state_dir UPGRADE_RECORD_FILE)));
  match read with
  | Err _ => mret false
  | Ok record =>
      current ← gets (λ l, one_shot_execution (rec_work_id record) (lp_runtime l));
      match current with
      | None => mret false
      | Some current =>
          dead ← gets (λ l, is_dead state_dir record (lp_world l));
          let local_status := local_status_of dead record in
          if String.eqb current local_status then mret false
          else
            match reported_of dead record with
            | None => mret false
            | Some (status, detail) =>
                sent ← report_work_result config (rec_work_id record) status detail;
                if negb (sent : bool) then mret false
                else
                  on_runtime (mark_one_shot_execution (rec_work_id record) local_status);;
                  mret true
            end
      end
  end.

(** ** A refresh *)

Fixpoint ack_all (config : DaemonLoop) (to_ack : list (string * Z)) : M Loop bool :=
  match to_ack with
  | [] => mret false
  | (work_id, plan_version) :: to_ack =>
      acked ← ack_work config work_id plan_version;
      (if acked : bool then on_runtime (mark_acked work_id plan_version) else mret tt);;
      rest ← ack_all config to_ack;
      mret (acked || rest)
  end.

(** What follows from a snapshot. *)
Definition take_grant (config : DaemonLoop) (record_path : string) (grant : WorkGrant) : M Loop unit :=
  outcome ← gets (λ l, (Work.apply grant (lp_runtime l)).1);
  on_runtime (λ runtime, (Work.apply grant runtime).2);;
  dispatched_anything ← dispatch_all config (ao_one_shot_to_dispatch outcome);
  progressed ← reconcile_upgrade_record config;
  acked_anything ← ack_all config (ao_to_ack outcome);
  if ao_changed outcome || acked_anything || dispatched_anything || progressed then
    now ← on_world now_rfc3339;
    view ← gets (λ l, device_view now (lp_runtime l));
    match view with
    | Some record => stored ← try (on_world (work_store_async record_path record)); mret tt
    | None => mret tt
    end
  else mret tt.

Definition refresh_work_grant (config : DaemonLoop) (record_path : string) : M Loop unit :=
  now ← gets (λ l, clock (lp_world l));
  last_fetch ← gets lp_last_fetch;
  if negb (fetch_due WORK_FETCH_MIN_INTERVAL_MS now last_fetch) then mret tt
  else
    set_last_fetch now;;
    sequence ← gets (λ l, ag_sequence (lp_runtime l));
    grant ← fetch_work_grant config sequence;
    match grant with
    | None => mret tt
    | Some grant => take_grant config record_path grant
    end.

(** What [run_forever_async] starts from. *)
Definition restore_work (record_path : string) : M World AppliedWorkGrant :=
  r ← try (work_load_async record_path);
  mret (match r with Ok (Some record) => restore record | _ => AppliedWorkGrant_default end).


(** * What happened *)

Definition launched_of (e : LoopEvent) : option string :=
  match e with Launched k (inr _) => Some k | _ => None end.
Definition launches (evs : list LoopEvent) : list string := omap launched_of evs.

(** The result of a work that the gateway took. *)
Definition told_of (k : string) (e : LoopEvent) : option (string * string) :=
  match e with
  | Posted _ (RequestResult r) (Response true body) =>
      if String.eqb (rw_work_id r) k && decodes_work_result_accepted body
      then Some (rw_status r, rw_detail r) else None
  | _ => None
  end.
Definition told (k : string) (evs : list LoopEvent) : list (string * string) := omap (told_of k) evs.

(** The dispatch of a work was acknowledged. *)
Definition acked_of (e : LoopEvent) : option string :=
  match e with
  | Posted _ (RequestAck r) (Response true body) =>
      match decode_work_accepted body with
      | Some status => if String.eqb status "accepted" && Z.eqb (ak_plan_version r) 0
                       then Some (ak_work_id r) else None
      | None => None
      end
  | _ => None
  end.
Definition acks (evs : list LoopEvent) : list string := omap acked_of evs.

Definition final (status : string) : Prop := status = "succeeded" ∨ status = "failed".
Definition told_final (k : string) (evs : list LoopEvent) : Prop :=
  ∃ status detail, (status, detail) ∈ told k evs ∧ final status.

Lemma launches_app a b : launches (a ++ b) = launches a ++ launches b.
Proof. apply omap_app. Qed.
Lemma told_app k a b : told k (a ++ b) = told k a ++ told k b.
Proof. apply omap_app. Qed.
Lemma told_final_app k a b : told_final k (a ++ b) ↔ told_final k a ∨ told_final k b.
Proof. unfold told_final. rewrite told_app. setoid_rewrite elem_of_app. naive_solver. Qed.

(** A call that leaves the work in memory alone, and what it adds to the events. *)
Record extends (l l' : Loop) (evs : list LoopEvent) : Prop := mk_extends {
  ex_events : lp_events l' = lp_events l ++ evs;
  ex_runtime : lp_runtime l' = lp_runtime l;
}.

Lemma extends_refl l : extends l l [].
Proof. split; [by rewrite (right_id_L [] (++))|done]. Qed.
Lemma extends_trans l1 l2 l3 a b : extends l1 l2 a → extends l2 l3 b → extends l1 l3 (a ++ b).
Proof. intros [E1 R1] [E2 R2]. split; [by rewrite E2, E1, (assoc_L (++))|congruence]. Qed.

(** A request is sent or not; only an accepted one has a body. *)
Lemma call_gateway_run endpoint path request l : ∃ body l' evs,
  call_gateway endpoint path request l = (Ok body, l') ∧ extends l l' evs ∧
  ((evs = [] ∧ body = None) ∨
   ∃ reply, evs = [Posted (gateway_url endpoint path) request reply] ∧
     body = match reply with Response true body => Some body | _ => None end).
Proof.
  unfold call_gateway, gets, mbind, M_bind.
  destruct (enrollment_http_client (lp_world l)) as [err|client].
  - exists None, l, []. split_and!; [done|apply extends_refl|by left].
  - eexists _, _, _. split; [reflexivity|]. split; [|right; eexists; split; reflexivity].
    by split.
Qed.

(** Requests that say nothing of a result. *)
Definition silent (evs : list LoopEvent) : Prop := launches evs = [] ∧ ∀ k, told k evs = [].

Lemma silent_nil : silent [].
Proof. by split. Qed.
Lemma silent_app a b : silent a → silent b → silent (a ++ b).
Proof.
  intros [La Ta] [Lb Tb]. split; [by rewrite launches_app, La, Lb|].
  intros k. by rewrite told_app, Ta, Tb.
Qed.

Lemma fetch_run config seq l : ∃ grant l' evs,
  fetch_work_grant config seq l = (Ok grant, l') ∧ extends l l' evs ∧ silent evs ∧ acks evs = [].
Proof.
  unfold fetch_work_grant.
  destruct (dl_endpoint config) as [endpoint|], (dl_agent_id config) as [agent|];
    try (exists None, l, []; split_and!; [done|apply extends_refl|apply silent_nil|done]).
  unfold now_rfc3339, gets, on_world at 1, mbind, M_bind. cbn.
  match goal with |- context [call_gateway _ _ _ ?l] => set (l0 := l) end.
  match goal with |- context [call_gateway ?e ?p ?q l0] =>
    destruct (call_gateway_run e p q l0) as (body & l' & evs & -> & [E R] & Hevs) end.
  eexists _, l', evs. split; [reflexivity|]. split; [by split|].
  destruct Hevs as [[-> _]|(reply & -> & _)]; [split; [apply silent_nil|done]|]. by repeat split.
Qed.

Lemma ack_run config k v l : ∃ b l' evs,
  ack_work config k v l = (Ok b, l') ∧ extends l l' evs ∧ silent evs ∧
  acks evs = (if b && Z.eqb v 0 then [k] else []).
Proof.
  unfold ack_work.
  destruct (dl_endpoint config) as [endpoint|], (dl_agent_id config) as [agent|];
    try (exists false, l, []; split_and!; [done|apply extends_refl|apply silent_nil|done]).
  unfold now_rfc3339, gets, on_world at 1, mbind, M_bind. cbn.
  match goal with |- context [call_gateway _ _ _ ?l] => set (l0 := l) end.
  match goal with |- context [call_gateway ?e ?p ?q l0] =>
    destruct (call_gateway_run e p q l0) as (body & l' & evs & -> & [E R] & Hevs) end.
  eexists _, l', evs. split; [reflexivity|]. split; [by split|].
  destruct Hevs as [[-> ->]|(reply & -> & ->)].
  { split; [apply silent_nil|done]. }
  split; [by split|]. destruct reply as [[] text|]; cbn; [|done..].
  destruct (decode_work_accepted text) as [status|]; cbn; [|done].
  by destruct (String.eqb status "accepted"), (Z.eqb v 0).
Qed.

Lemma report_run config k status detail l : ∃ b l' evs,
  report_work_result config k status detail l = (Ok b, l') ∧ extends l l' evs ∧ launches evs = [] ∧
  acks evs = [] ∧ told k evs = (if b : bool then [(status, detail)] else []) ∧
  (∀ k', k' ≠ k → told k' evs = []).
Proof.
  unfold report_work_result.
  destruct (dl_endpoint config) as [endpoint|], (dl_agent_id config) as [agent|];
    try (exists false, l, []; split_and!; [done|apply extends_refl|done..]).
  unfold now_rfc3339, gets, on_world at 1, mbind, M_bind. cbn.
  match goal with |- context [call_gateway _ _ _ ?l] => set (l0 := l) end.
  match goal with |- context [call_gateway ?e ?p ?q l0] =>
    destruct (call_gateway_run e p q l0) as (body & l' & evs & -> & [E R] & Hevs) end.
  eexists _, l', evs. split; [reflexivity|]. split; [by split|].
  destruct Hevs as [[-> ->]|(reply & -> & ->)]; [done|].
  destruct reply as [[] text|]; cbn; [|done..]. rewrite String.eqb_refl. cbn.
  do 2 (split; [done|]). destruct (decodes_work_result_accepted text); cbn; (split; [done|]);
    intros k' Hk; [|by rewrite andb_false_r].
  apply not_eq_sym, String.eqb_neq in Hk as ->. done.
Qed.


(** ** Dispatching *)

Definition held_ids (s : AppliedWorkGrant) (works : list OneShotWork) : Prop :=
  Forall (λ w, one_shot_execution (ow_work_id w) s ≠ None) works.

Lemma mark_get id e s k : one_shot_execution k (mark_one_shot_execution id e s)
  = if String.eqb k id then Some e else one_shot_execution k s.
Proof. apply bt_get_insert. Qed.

Lemma held_ids_mark id e s works : held_ids s works → held_ids (mark_one_shot_execution id e s) works.
Proof.
  intros Hf. eapply Forall_impl; [exact Hf|]. intros w Hw. rewrite mark_get. by destruct (String.eqb _ _).
Qed.

Lemma in_flight_mark_ne id e s k : k ≠ id → in_flight k (mark_one_shot_execution id e s) ↔ in_flight k s.
Proof. intros Hn. unfold in_flight. rewrite mark_get. by apply String.eqb_neq in Hn as ->. Qed.

Lemma in_flight_mark_eq id e s :
  in_flight id (mark_one_shot_execution id e s) ↔ is_one_shot_execution_in_flight e = true.
Proof.
  unfold in_flight. rewrite mark_get, String.eqb_refl. split; [by intros (? & [= <-] & ?)|eauto].
Qed.

Lemma dispatch_upgrade_run config work l : ∃ r l' evs,
  dispatch_upgrade config work l = (Ok r, l') ∧ extends l l' evs ∧
  acks evs = [] ∧
  match r with inr _ => launches evs = [ow_work_id work] | inl _ => launches evs = [] end.
Proof.
  unfold dispatch_upgrade, gets, mbind, M_bind.
  destruct (current_exe (lp_world l)) as [bin|err];
    [|eexists _, l, []; split_and!; [done|apply extends_refl|done..]].
  destruct (upgrade_request_for _ _ _ _) as [err|request];
    [eexists _, l, []; split_and!; [done|apply extends_refl|done..]|].
  unfold on_world.
  set (m := spawn_upgrader _ _ _ _).
  assert (Hok : ∃ r w', m (lp_world l) = (Ok r, w')).
  { unfold m, spawn_upgrader, try, mbind, M_bind.
    destruct (create_log_dir _ _) as [[]]; [|by eexists _, _].
    destruct (run_program _ _ _) as [[output|err] w1].
    - destruct (ex_success output); by eexists _, _.
    - destruct (decide _); [|by eexists _, _].
      destruct (launch_detached _ _ _) as [[]]; by eexists _, _. }
  destruct Hok as (r & w' & ->). eexists r, _, [Launched (ow_work_id work) r].
  split; [reflexivity|]. split; [by split|]. by destruct r.
Qed.

(** What becomes of one work that was handed out. *)
Record dispatched (works : list OneShotWork) (l : Loop) (b : bool) (l' : Loop)
    (evs : list LoopEvent) : Prop := mk_dispatched {
  di_events : lp_events l' = lp_events l ++ evs;
  di_wf : held_wf (lp_runtime l');
  di_ids : ∀ k, one_shot_execution k (lp_runtime l) ≠ None →
           one_shot_execution k (lp_runtime l') ≠ None;
  di_busy : has_upgrade_in_flight (lp_runtime l) = true → l' = l ∧ evs = [] ∧ b = false;
  di_launches : launches evs = [] ∨ ∃ k, launches evs = [k] ∧ in_flight k (lp_runtime l') ∧
                k ∈ ow_work_id <$> works;
  di_acked : ∀ k, k ∈ acks evs → b = true;
  di_sequence : ag_sequence (lp_runtime l') = ag_sequence (lp_runtime l);
}.

Lemma dispatch_one_run config work l : held_wf (lp_runtime l) →
  one_shot_execution (ow_work_id work) (lp_runtime l) ≠ None →
  ∃ b l' evs, dispatch_one config work l = (Ok b, l') ∧ dispatched [work] l b l' evs.
Proof.
  intros Hw Hid. unfold dispatch_one, gets, mbind, M_bind.
  destruct (has_upgrade_in_flight (lp_runtime l)) eqn:Hb.
  { exists false, l, []. split; [done|]. split; rewrite ?(right_id_L [] (++)); auto; by intros ? ?%elem_of_nil. }
  destruct (dispatch_upgrade_run config work l) as (r & l1 & evs1 & -> & [E1 R1] & T1 & L1).
  assert (Hm : ∀ e, held_wf (mark_one_shot_execution (ow_work_id work) e (lp_runtime l1))).
  { intros e. rewrite R1. apply mark_execution_wf; [exact Hid|exact Hw]. }
  assert (Hk : ∀ e k, one_shot_execution k (lp_runtime l) ≠ None →
     one_shot_execution k (mark_one_shot_execution (ow_work_id work) e (lp_runtime l1)) ≠ None).
  { intros e k. rewrite mark_get, R1. by destruct (String.eqb _ _). }
  destruct r as [err|handle]; unfold on_runtime, modify; cbn.
  - match goal with |- context [report_work_result ?c ?k ?s ?d ?l2] =>
      destruct (report_run c k s d l2) as (b & l3 & evs3 & -> & [E3 R3] & L3 & A3 & _) end.
    cbn in E3, R3. exists false, l3, (evs1 ++ evs3). split; [done|].
    assert (Hl : launches (evs1 ++ evs3) = []) by by rewrite launches_app, L1, L3.
    split; [by rewrite E3, E1, (assoc_L (++))|rewrite R3; eauto|intros k; rewrite R3; apply Hk|congruence
           |by left| |by rewrite R3; cbn; rewrite R1].
    unfold acks in *. rewrite omap_app, T1, A3. by intros ? ?%elem_of_nil.
  - match goal with |- context [ack_work ?c ?k ?v ?l2] =>
      destruct (ack_run c k v l2) as (b & l3 & evs3 & -> & [E3 R3] & [L3 T3] & A3) end.
    cbn in E3, R3. exists b, l3, (evs1 ++ evs3). split; [done|].
    assert (Hl : launches (evs1 ++ evs3) = [ow_work_id work]) by by rewrite launches_app, L1, L3.
    split; [by rewrite E3, E1, (assoc_L (++))|rewrite R3; eauto|intros k; rewrite R3; apply Hk|congruence| | |].
    + right. exists (ow_work_id work). split; [done|]. rewrite R3. split; [by apply in_flight_mark_eq|by left].
    + intros k. unfold acks in *. rewrite omap_app, T1, A3. by destruct b; [|intros ?%elem_of_nil].
    + by rewrite R3; cbn; rewrite R1.
Qed.

Lemma dispatched_nil l : held_wf (lp_runtime l) → dispatched [] l false l [].
Proof. intros Hw. split; rewrite ?(right_id_L [] (++)); auto; by intros ? ?%elem_of_nil. Qed.

Lemma dispatch_all_run config works l : held_wf (lp_runtime l) → held_ids (lp_runtime l) works →
  ∃ b l' evs, dispatch_all config works l = (Ok b, l') ∧ dispatched works l b l' evs.
Proof.
  revert l. induction works as [|w works IH]; intros l Hw Hids.
  { exists false, l, []. split; [done|]. by apply dispatched_nil. }
  apply Forall_cons in Hids as [Hid Hids].
  destruct (dispatch_one_run config w l Hw Hid) as (b1 & l1 & e1 & Hr1 & D1).
  destruct (IH l1 (di_wf _ _ _ _ _ D1)) as (b2 & l2 & e2 & Hr2 & D2).
  { eapply Forall_impl; [exact Hids|]. intros x Hx. by apply (di_ids _ _ _ _ _ D1). }
  exists (b1 || b2), l2, (e1 ++ e2). cbn [dispatch_all]. unfold mbind, M_bind. rewrite Hr1, Hr2.
  split; [done|].
  destruct D1 as [E1 W1 I1 B1 L1 A1 S1], D2 as [E2 W2 I2 B2 L2 A2 S2].
  assert (Hl : (launches e1 = [] ∧ launches (e1 ++ e2) = launches e2) ∨
               (∃ k, launches e1 = [k] ∧ k = ow_work_id w ∧ in_flight k (lp_runtime l1) ∧
                     e2 = [] ∧ l2 = l1 ∧ b2 = false)).
  { destruct L1 as [L1|(k & L1 & F1 & ->%list_elem_of_singleton)].
    - left. by rewrite launches_app, L1.
    - right. exists (ow_work_id w). destruct B2 as (-> & -> & ->); [|done].
      apply has_upgrade_in_flight_spec; [done|]. by exists (ow_work_id w). }
  split.
  - by rewrite E2, E1, (assoc_L (++)).
  - done.
  - auto.
  - intros Hb. destruct (B1 Hb) as (-> & -> & ->). by apply B2.
  - destruct Hl as [[_ ->]|(k & L & -> & F & -> & -> & _)].
    + destruct L2 as [L2|(k & L2 & F2 & Hk)]; [by left|]. right. exists k. split_and!; [done|done|by right].
    + right. exists (ow_work_id w). rewrite (right_id_L [] (++)). split_and!; [done|done|by left].
  - intros k. unfold acks. rewrite omap_app, elem_of_app.
    intros [Ha|Ha]; [rewrite (A1 k Ha); done|rewrite (A2 k Ha); apply orb_true_r].
  - by rewrite S2, S1.
Qed.


(** ** The record of the upgrader *)

Context `{!SharedFsLaws}.

Definition record_read (config : DaemonLoop) (w : World) : result UpgradeRecord :=
  (shared_read_json (A := UpgradeRecord) (path_join (dl_state_dir config) UPGRADE_RECORD_FILE) w).1.

Lemma record_read_run config w :
  shared_read_json (A := UpgradeRecord) (path_join (dl_state_dir config) UPGRADE_RECORD_FILE) w
  = (record_read config w, w).
Proof.
  unfold record_read. rewrite shared_read_json_law.
  pose proof (read_json_respects eq (A := UpgradeRecord)
    (path_join (dl_state_dir config) UPGRADE_RECORD_FILE) w) as Hq.
  destruct (read_json_async _ w) as [r w']. cbn in *. by subst.
Qed.

(** What the control plane is told fits what is kept here. *)
Lemma reported_fits dead record status detail : reported_of dead record = Some (status, detail) →
  if is_one_shot_execution_in_flight (local_status_of dead record) then status = "running" else final status.
Proof.
  unfold reported_of, local_status_of, work_result_of, final. destruct dead; [intros [= <- _]; by right|].
  destruct (String.eqb_spec (rec_status record) "running") as [->|]; [by intros [= <- _]|].
  destruct (String.eqb_spec (rec_status record) "succeeded") as [->|]; [intros [= <- _]; by left|].
  destruct (String.eqb_spec (rec_status record) "failed") as [->|]; [intros [= <- _]; by right|].
  destruct (String.eqb_spec (rec_status record) "rolled_back") as [->|]; [intros [= <- _]; by right|].
  done.
Qed.

(** A reconciliation that moved on: what it read, told and kept. *)
Record moved_on (config : DaemonLoop) (l l' : Loop) (evs : list LoopEvent) (record : UpgradeRecord)
    : Prop := mk_moved_on {
  mo_read : record_read config (lp_world l) = Ok record;
  mo_held : ∃ current, one_shot_execution (rec_work_id record) (lp_runtime l) = Some current ∧
    current ≠ local_status_of (is_dead (dl_state_dir config) record (lp_world l)) record;
  mo_told : ∃ status detail,
    reported_of (is_dead (dl_state_dir config) record (lp_world l)) record = Some (status, detail) ∧
    told (rec_work_id record) evs = [(status, detail)];
  mo_kept : lp_runtime l' = mark_one_shot_execution (rec_work_id record)
    (local_status_of (is_dead (dl_state_dir config) record (lp_world l)) record) (lp_runtime l);
}.

Lemma reconcile_run config l : ∃ b l' evs,
  reconcile_upgrade_record config l = (Ok b, l') ∧ lp_events l' = lp_events l ++ evs ∧
  launches evs = [] ∧ acks evs = [] ∧
  if b : bool then ∃ record, moved_on config l l' evs record ∧ ∀ k, k ≠ rec_work_id record → told k evs = []
  else lp_runtime l' = lp_runtime l ∧ ∀ k, told k evs = [].
Proof.
  assert (Hsame : ∀ l', lp_events l' = lp_events l → lp_runtime l' = lp_runtime l → ∃ b l'' evs,
    (Ok false, l') = (Ok b, l'') ∧ lp_events l'' = lp_events l ++ evs ∧
    launches evs = [] ∧ acks evs = [] ∧
    if b : bool then ∃ record, moved_on config l l'' evs record ∧ ∀ k, k ≠ rec_work_id record → told k evs = []
    else lp_runtime l'' = lp_runtime l ∧ ∀ k, told k evs = []).
  { intros l' E R. exists false, l', []. by rewrite (right_id_L [] (++)). }
  unfold reconcile_upgrade_record, try, on_world at 1, gets, mbind, M_bind. rewrite record_read_run.
  destruct (record_read config (lp_world l)) as [record|err] eqn:Hread; [|by apply Hsame].
  cbn [lp_runtime lp_world].
  destruct (one_shot_execution (rec_work_id record) (lp_runtime l)) as [current|] eqn:Hcur;
    [|by apply Hsame].
  set (dead := is_dead _ _ _).
  destruct (String.eqb_spec current (local_status_of dead record)) as [|Hne]; [by apply Hsame|].
  destruct (reported_of dead record) as [[status detail]|] eqn:Hrep; [|by apply Hsame].
  match goal with |- context [report_work_result ?c ?k ?s ?d ?l2] =>
    destruct (report_run c k s d l2) as (b & l3 & evs & -> & [E3 R3] & L3 & A3 & T3 & O3) end.
  cbn in E3, R3. destruct b; cbn.
  - eexists true, _, evs. split; [reflexivity|]. split_and!; [done..|]. exists record. split; [|done].
    split; cbn; [done|by eexists|by eexists _, _|by rewrite R3].
  - eexists false, _, evs. split; [reflexivity|]. split_and!; [done..|]. intros k.
    destruct (decide (k = rec_work_id record)) as [->|]; auto.
Qed.

(** ** Acknowledging *)

Record acknowledged (l l' : Loop) (evs : list LoopEvent) : Prop := mk_acknowledged {
  an_events : lp_events l' = lp_events l ++ evs;
  an_silent : silent evs;
  an_execution : ∀ k, one_shot_execution k (lp_runtime l') = one_shot_execution k (lp_runtime l);
  an_wf : held_wf (lp_runtime l) → held_wf (lp_runtime l');
  an_sequence : ag_sequence (lp_runtime l') = ag_sequence (lp_runtime l);
}.

Lemma acknowledged_refl l : acknowledged l l [].
Proof. split; rewrite ?(right_id_L [] (++)); auto using silent_nil. Qed.
Lemma acknowledged_trans l1 l2 l3 a b :
  acknowledged l1 l2 a → acknowledged l2 l3 b → acknowledged l1 l3 (a ++ b).
Proof.
  intros [E1 S1 X1 W1 Q1] [E2 S2 X2 W2 Q2]. split; auto using silent_app.
  - by rewrite E2, E1, (assoc_L (++)).
  - intros k. by rewrite X2, X1.
  - congruence.
Qed.
Lemma acknowledged_mark k v l : acknowledged l (on_runtime (mark_acked k v) l).2 [].
Proof. split; cbn; rewrite ?(right_id_L [] (++)); auto using silent_nil, mark_acked_wf. Qed.

Lemma ack_all_run config to_ack l : ∃ b l' evs,
  ack_all config to_ack l = (Ok b, l') ∧ acknowledged l l' evs ∧ (b = false → acks evs = []).
Proof.
  revert l. induction to_ack as [|[k v] to_ack IH]; intros l.
  { exists false, l, []. split_and!; [done|apply acknowledged_refl|done]. }
  cbn [ack_all]. unfold mbind, M_bind.
  destruct (ack_run config k v l) as (b & l1 & e1 & -> & [E1 R1] & S1 & K1).
  assert (A1 : acknowledged l l1 e1) by (split; [done|done|by rewrite R1|by rewrite R1|by rewrite R1]).
  assert (Hm : ∃ l2, (if b then on_runtime (mark_acked k v) else mret tt) l1 = (Ok tt, l2) ∧
                     acknowledged l1 l2 []).
  { destruct b; eexists; split; [reflexivity|apply acknowledged_mark|reflexivity|apply acknowledged_refl]. }
  destruct Hm as (l2 & -> & A2). destruct (IH l2) as (b' & l3 & e3 & -> & A3 & K3).
  eexists _, l3, (e1 ++ e3). split; [reflexivity|]. split.
  - eapply acknowledged_trans; [exact A1|]. by eapply (acknowledged_trans _ _ _ []).
  - intros [-> ->]%orb_false_iff. unfold acks in *. rewrite omap_app, K1. by apply K3.
Qed.


(** ** A refresh *)

Lemma apply_held_ids grant s : held_wf s →
  held_ids (Work.apply grant s).2 (ao_one_shot_to_dispatch (Work.apply grant s).1).
Proof.
  intros Hw. rewrite apply_eq. apply Forall_forall. intros w Hin. cbn in Hin.
  apply list_elem_of_In, filter_In in Hin as [Hin _].
  unfold one_shot_execution. cbn [snd ag_one_shot_execution]. rewrite next_execution_get by apply Hw.
  rewrite decide_True; [done|]. by apply list_elem_of_fmap_2, list_elem_of_In.
Qed.

(** What a snapshot leads to: the events up to the dispatches, then those that follow. *)
Record taken (record_path : string) (grant : WorkGrant) (l l' : Loop) (evs1 evs2 : list LoopEvent)
    : Prop := mk_taken {
  tk_events : lp_events l' = lp_events l ++ evs1 ++ evs2;
  tk_wf : held_wf (lp_runtime l');
  tk_one : launches evs1 = [] ∨ ∃ k, launches evs1 = [k];
  tk_none : launches evs2 = [];
  tk_busy : has_upgrade_in_flight (lp_runtime l) = true → launches evs1 = [];
  tk_locked : ∀ k, in_flight k (lp_runtime l) ∨ k ∈ launches evs1 →
    in_flight k (lp_runtime l') ∨ told_final k evs2;
  tk_stored : ∀ k, k ∈ acks (evs1 ++ evs2) → ∃ now w, match device_view now (lp_runtime l') with
    | Some record => lp_world l' = (work_store_async record_path record w).2
    | None => True
    end;
  tk_sequence : ag_sequence (lp_runtime l') = wg_sequence grant;
}.

(** A work in flight is still in flight after its record was looked at, or told to be over. *)
Lemma moved_on_locked config l l' evs record k : moved_on config l l' evs record →
  in_flight k (lp_runtime l) → in_flight k (lp_runtime l') ∨ told_final k evs.
Proof.
  intros [Hread Hheld (status & detail & Hrep & Htold) Hk] Hf. rewrite Hk.
  destruct (decide (k = rec_work_id record)) as [->|Hne]; [|left; by apply in_flight_mark_ne].
  rewrite in_flight_mark_eq. apply reported_fits in Hrep.
  destruct (is_one_shot_execution_in_flight _); [by left|]. right. exists status, detail.
  rewrite Htold. split; [by left|done].
Qed.

Lemma moved_on_wf config l l' evs record : moved_on config l l' evs record →
  held_wf (lp_runtime l) → held_wf (lp_runtime l').
Proof.
  intros [_ (current & Hc & _) _ ->] Hw. apply mark_execution_wf; [by rewrite Hc|done].
Qed.

Lemma apply_locked grant s k : held_wf s → in_flight k s → in_flight k (Work.apply grant s).2.
Proof. intros Hw Hf. by apply apply_in_flight. Qed.

Lemma take_grant_run config record_path grant l : held_wf (lp_runtime l) → ∃ l' evs1 evs2,
  take_grant config record_path grant l = (Ok tt, l') ∧ taken record_path grant l l' evs1 evs2.
Proof.
  intros Hw. unfold take_grant, gets, on_runtime at 1, modify, mbind, M_bind.
  set (outcome := (Work.apply grant (lp_runtime l)).1).
  match goal with |- context [dispatch_all ?c ?ws ?l0] => set (l0' := l0) end.
  assert (Hw0 : held_wf (lp_runtime l0')) by by apply apply_wf.
  destruct (dispatch_all_run config (ao_one_shot_to_dispatch outcome) l0' Hw0) as (b1 & l1 & e1 & -> & D);
    [by apply apply_held_ids|].
  destruct D as [E1 W1 I1 B1 L1 A1 Q1].
  destruct (reconcile_run config l1) as (b2 & l2 & e2 & -> & E2 & L2 & A2 & R2).
  destruct (ack_all_run config (ao_to_ack outcome) l2) as (b3 & l3 & e3 & -> & [E3 S3 X3 W3 Q3] & A3).
  assert (Hbusy : has_upgrade_in_flight (lp_runtime l) = true → l1 = l0' ∧ e1 = [] ∧ b1 = false).
  { intros Hb. apply B1. apply has_upgrade_in_flight_spec; [done|].
    apply has_upgrade_in_flight_spec in Hb as [k Hk]; [|done]. exists k. by apply apply_locked. }
  assert (Hlock1 : ∀ k, in_flight k (lp_runtime l) ∨ k ∈ launches e1 → in_flight k (lp_runtime l1)).
  { intros k [Hk|Hk].
    - destruct Hbusy as (-> & _); [|by apply apply_locked].
      apply has_upgrade_in_flight_spec; [done|by exists k].
    - destruct L1 as [L1|(k' & L1 & F & _)]; rewrite L1 in Hk; [by apply elem_of_nil in Hk|].
      by apply list_elem_of_singleton in Hk as ->. }
  assert (Hw2 : held_wf (lp_runtime l2)).
  { destruct b2; [destruct R2 as (record & Hm & _); by eapply moved_on_wf|by destruct R2 as [-> _]]. }
  assert (Hq2 : ag_sequence (lp_runtime l2) = ag_sequence (lp_runtime l1)).
  { destruct b2; [destruct R2 as (record & [_ _ _ ->] & _); done|by destruct R2 as [-> _]]. }
  assert (Ht : ∀ l', lp_events l' = lp_events l3 → lp_runtime l' = lp_runtime l3 →
    (b1 || b3 = true → ∃ now w, match device_view now (lp_runtime l') with
       | Some record => lp_world l' = (work_store_async record_path record w).2
       | None => True end) →
    taken record_path grant l l' e1 (e2 ++ e3)).
  { intros l' E R St. split.
    - by rewrite E, E3, E2, E1, <- !(assoc_L (++)).
    - rewrite R. auto.
    - destruct L1 as [L1|(k & L1 & _)]; [by left|right; by exists k].
    - rewrite launches_app, L2. apply S3.
    - intros Hb. by destruct (Hbusy Hb) as (_ & -> & _).
    - intros k Hk%Hlock1. rewrite R. unfold in_flight. setoid_rewrite X3. rewrite told_final_app.
      destruct b2; [destruct R2 as (record & Hm & _)|destruct R2 as [-> _]; by left].
      destruct (moved_on_locked _ _ _ _ _ _ Hm Hk); auto.
    - intros k. unfold acks in *. rewrite !omap_app, A2. cbn. rewrite elem_of_app.
      intros [Hk|Hk]; apply St; [by rewrite (A1 k Hk)|].
      destruct b3; [apply orb_true_r|]. rewrite A3 in Hk by done. by apply elem_of_nil in Hk.
    - rewrite R, Q3, Hq2, Q1. unfold l0'. by rewrite apply_eq. }
  destruct (ao_changed outcome || b3 || b1 || b2) eqn:Hc.
  - unfold now_rfc3339, gets, on_world, mbind, M_bind. cbn.
    destruct (device_view (rfc3339 (clock (lp_world l3))) (lp_runtime l3)) as [record|] eqn:Hv.
    + unfold try, M_bind. cbn. destruct (work_store_async record_path record (lp_world l3)) as [r w] eqn:Hst.
      eexists _, e1, (e2 ++ e3). split; [reflexivity|]. apply Ht; [done..|]. intros _.
      eexists _, _. cbn. erewrite Hv. by rewrite Hst.
    + eexists _, e1, (e2 ++ e3). split; [reflexivity|]. apply Ht; [done..|]. intros _.
      eexists _, (lp_world l3). cbn. by rewrite Hv.
  - eexists _, e1, (e2 ++ e3). split; [reflexivity|]. apply Ht; [done..|]. intros Hb.
    rewrite !orb_false_iff in Hc. destruct Hc as (((_ & ->) & ->) & _). done.
Qed.


(** A refresh, whether it is due, answered or not. *)
Record refreshed (record_path : string) (l l' : Loop) (evs1 evs2 : list LoopEvent) : Prop := mk_refreshed {
  rf_events : lp_events l' = lp_events l ++ evs1 ++ evs2;
  rf_wf : held_wf (lp_runtime l');
  rf_one : launches evs1 = [] ∨ ∃ k, launches evs1 = [k];
  rf_none : launches evs2 = [];
  rf_busy : has_upgrade_in_flight (lp_runtime l) = true → launches evs1 = [];
  rf_locked : ∀ k, in_flight k (lp_runtime l) ∨ k ∈ launches evs1 →
    in_flight k (lp_runtime l') ∨ told_final k evs2;
  rf_stored : ∀ k, k ∈ acks (evs1 ++ evs2) → ∃ now w, match device_view now (lp_runtime l') with
    | Some record => lp_world l' = (work_store_async record_path record w).2
    | None => True
    end;
}.

Lemma refreshed_extends record_path l l' evs : extends l l' evs → silent evs → acks evs = [] →
  held_wf (lp_runtime l) → refreshed record_path l l' evs [].
Proof.
  intros [E R] [L T] A Hw. split; rewrite ?R; auto.
  - by rewrite (right_id_L [] (++)).
  - intros k [Hk|Hk]; [by left|]. rewrite L in Hk. by apply elem_of_nil in Hk.
  - unfold acks in *. rewrite omap_app, A. by intros k ?%elem_of_nil.
Qed.

Lemma refresh_run config record_path l : held_wf (lp_runtime l) → ∃ l' evs1 evs2,
  refresh_work_grant config record_path l = (Ok tt, l') ∧ refreshed record_path l l' evs1 evs2.
Proof.
  intros Hw. unfold refresh_work_grant, set_last_fetch, modify, gets, mbind, M_bind.
  destruct (fetch_due _ _ _); cbn [negb].
  2:{ exists l, [], []. split; [done|]. by apply refreshed_extends; [apply extends_refl|apply silent_nil| |]. }
  match goal with |- context [fetch_work_grant ?c ?q ?l0] =>
    destruct (fetch_run c q l0) as (grant & l1 & e0 & -> & [E0 R0] & S0 & A0) end.
  cbn in E0, R0. destruct grant as [grant|].
  2:{ exists l1, e0, []. split; [done|]. by apply refreshed_extends. }
  destruct (take_grant_run config record_path grant l1) as (l2 & e1 & e2 & -> & T); [by rewrite R0|].
  exists l2, (e0 ++ e1), e2. split; [done|]. destruct T as [E W O N B L St _]. destruct S0 as [L0 T0].
  assert (Hl : launches (e0 ++ e1) = launches e1) by by rewrite launches_app, L0.
  split; rewrite ?Hl; auto.
  - by rewrite E, E0, <- !(assoc_L (++)).
  - by rewrite <- R0.
  - by rewrite <- R0.
  - intros k. unfold acks. rewrite <- (assoc_L (++)), omap_app. unfold acks in A0. rewrite A0. apply St.
Qed.

(** The life of the loop: the other processes do what they like, then the work is refreshed. *)
Definition with_world (w : World) (l : Loop) : Loop :=
  mk_loop w (lp_runtime l) (lp_last_fetch l) (lp_events l).

Inductive ticks (config : DaemonLoop) (record_path : string) : Loop → list LoopEvent → Loop → Prop :=
| ticks_nil l : ticks config record_path l [] l
| ticks_cons l w l1 evs1 evs2 l2 :
    refresh_work_grant config record_path (with_world w l) = (Ok tt, l1) →
    lp_events l1 = lp_events l ++ evs1 →
    ticks config record_path l1 evs2 l2 →
    ticks config record_path l (evs1 ++ evs2) l2.

Lemma refresh_inv config record_path l w l1 evs : held_wf (lp_runtime l) →
  refresh_work_grant config record_path (with_world w l) = (Ok tt, l1) →
  lp_events l1 = lp_events l ++ evs →
  ∃ evs1 evs2, evs = evs1 ++ evs2 ∧ refreshed record_path (with_world w l) l1 evs1 evs2.
Proof.
  intros Hw Hr He. destruct (refresh_run config record_path (with_world w l) Hw) as (l' & e1 & e2 & Hr' & R).
  rewrite Hr in Hr'. injection Hr' as <-. exists e1, e2. split; [|done].
  pose proof (rf_events _ _ _ _ _ R) as Ev. cbn in Ev. rewrite He in Ev. by apply (inj (lp_events l ++.)) in Ev.
Qed.

Lemma app_split {A} (x : A) a b c d : a ++ b = c ++ x :: d →
  (∃ a', a = c ++ x :: a' ∧ d = a' ++ b) ∨ (∃ c', c = a ++ c' ∧ b = c' ++ x :: d).
Proof.
  revert c. induction a as [|y a IH]; intros c; cbn; [intros ->; right; by exists c|].
  destruct c as [|z c]; cbn; intros [= <- E]; [left; by exists a|].
  apply IH in E as [(a' & -> & ->)|(c' & -> & ->)]; [left|right]; eauto.
Qed.

Lemma launches_in k h c d evs : evs = c ++ Launched k (inr h) :: d → k ∈ launches evs.
Proof. intros ->. rewrite launches_app. apply elem_of_app. right. by left. Qed.

Lemma ticks_locked config record_path l evs l' k k2 h e1 e2 : ticks config record_path l evs l' →
  held_wf (lp_runtime l) → in_flight k (lp_runtime l) → evs = e1 ++ Launched k2 (inr h) :: e2 →
  told_final k e1.
Proof.
  intros Ht. revert e1. induction Ht as [l|l w l1 evs1 evs2 l2 Hr He Ht IH]; intros e1 Hw Hf E.
  { by destruct e1. }
  destruct (refresh_inv _ _ _ _ _ _ Hw Hr He) as (a & b & -> & R).
  assert (La : launches (a ++ b) = []).
  { rewrite launches_app, (rf_none _ _ _ _ _ R), (rf_busy _ _ _ _ _ R); [done|].
    apply has_upgrade_in_flight_spec; [done|by exists k]. }
  apply app_split in E as [(a' & E & _)|(e1' & -> & E)].
  { apply launches_in in E. rewrite La in E. by apply elem_of_nil in E. }
  rewrite !told_final_app. destruct (rf_locked _ _ _ _ _ R k) as [Hf1|Ht1]; [by left| |auto].
  right. by apply (IH e1'); [apply (rf_wf _ _ _ _ _ R)| |].
Qed.

Lemma ticks_launched config record_path l evs l' k h k2 h2 e1 e2 e3 : ticks config record_path l evs l' →
  held_wf (lp_runtime l) →
  evs = e1 ++ Launched k (inr h) :: e2 ++ Launched k2 (inr h2) :: e3 → told_final k e2.
Proof.
  intros Ht. revert e1. induction Ht as [l|l w l1 evs1 evs2 l2 Hr He Ht IH]; intros e1 Hw E.
  { by destruct e1. }
  destruct (refresh_inv _ _ _ _ _ _ Hw Hr He) as (a & b & -> & R).
  pose proof (rf_wf _ _ _ _ _ R) as Hw1.
  apply app_split in E as [(d & E & E2)|(e1' & -> & E)]; [|by apply (IH e1')].
  apply app_split in E as [(a' & -> & ->)|(c' & _ & Eb)].
  2:{ apply launches_in in Eb. rewrite (rf_none _ _ _ _ _ R) in Eb. by apply elem_of_nil in Eb. }
  assert (La : launches (a' ++ b) = []).
  { rewrite launches_app, (rf_none _ _ _ _ _ R), (right_id_L [] (++)).
    destruct (rf_one _ _ _ _ _ R) as [O|[k' O]]; rewrite launches_app in O; cbn in O.
    - by apply app_nil in O as [_ [=]].
    - apply app_singleton in O as [[_ [= _ O]]|[_ [=]]]. done. }
  symmetry in E2. apply app_split in E2 as [(x & E2 & _)|(e2' & -> & E2)].
  { apply launches_in in E2. rewrite La in E2. by apply elem_of_nil in E2. }
  rewrite !told_final_app. destruct (rf_locked _ _ _ _ _ R k) as [Hf1|Ht1].
  { right. by eapply launches_in. }
  - right. by eapply ticks_locked.
  - left. by right.
Qed.


(** ** The theorems *)

(** C4. Upgrades never overlap: over any number of refreshes, whatever the gateway answers, whatever
    snapshots it sends and whatever the other processes of the host do, between the launch of one
    upgrader and the next the gateway has taken the final result of the first work. *)
Theorem upgrades_never_overlap (config : DaemonLoop) (record_path : string) (l l' : Loop)
    (evs e1 e2 e3 : list LoopEvent) (k1 k2 h1 h2 : string) :
  held_wf (lp_runtime l) → ticks config record_path l evs l' →
  evs = e1 ++ Launched k1 (inr h1) :: e2 ++ Launched k2 (inr h2) :: e3 →
  ∃ status detail, (status, detail) ∈ told k1 e2 ∧ (status = "succeeded" ∨ status = "failed").
Proof. intros Hw Ht E. by eapply ticks_launched. Qed.

(** A work is released only when its end is known to the gateway: across a refresh, a work that
    is being done is still being done, or its final result was taken; and nothing is launched
    beside it. *)
Theorem released_only_by_report (config : DaemonLoop) (record_path : string) (l : Loop) (k : string) :
  held_wf (lp_runtime l) → in_flight k (lp_runtime l) →
  ∃ l' evs, refresh_work_grant config record_path l = (Ok tt, l') ∧ lp_events l' = lp_events l ++ evs ∧
    launches evs = [] ∧ (in_flight k (lp_runtime l') ∨
    ∃ status detail, (status, detail) ∈ told k evs ∧ (status = "succeeded" ∨ status = "failed")).
Proof.
  intros Hw Hf. destruct (refresh_run config record_path l Hw) as (l' & e1 & e2 & Hr & R).
  exists l', (e1 ++ e2). split; [done|]. split; [apply R|]. split.
  - rewrite launches_app, (rf_none _ _ _ _ _ R), (rf_busy _ _ _ _ _ R); [done|].
    apply has_upgrade_in_flight_spec; [done|by exists k].
  - destruct (rf_locked _ _ _ _ _ R k) as [Hk|Hk]; [by left|by left|]. right.
    apply told_final_app. by right.
Qed.

(** What the upgrader recorded reaches the gateway, once: when the gateway takes results, a
    reconciliation that finds a new state of a held work reports it, final if the work is over or
    its upgrader is dead, and keeps it; the next one that finds the same state says nothing. *)
Theorem upgrade_reported_once (config : DaemonLoop) (l : Loop) (record : UpgradeRecord)
    (endpoint agent current status detail : string) :
  dl_endpoint config = Some endpoint → dl_agent_id config = Some agent →
  (∀ w, ∃ client, enrollment_http_client w = inr client) →
  (∀ client r evs w, ∃ body,
     gateway_reply client (gateway_url endpoint "/api/v1/agent/work:result") (RequestResult r) evs w
       = Response true body ∧ decodes_work_result_accepted body = true) →
  record_read config (lp_world l) = Ok record →
  one_shot_execution (rec_work_id record) (lp_runtime l) = Some current →
  current ≠ local_status_of (is_dead (dl_state_dir config) record (lp_world l)) record →
  reported_of (is_dead (dl_state_dir config) record (lp_world l)) record = Some (status, detail) →
  ∃ l' evs, reconcile_upgrade_record config l = (Ok true, l') ∧ lp_events l' = lp_events l ++ evs ∧
    told (rec_work_id record) evs = [(status, detail)] ∧
    one_shot_execution (rec_work_id record) (lp_runtime l')
      = Some (local_status_of (is_dead (dl_state_dir config) record (lp_world l)) record) ∧
    (record_read config (lp_world l') = Ok record →
     is_dead (dl_state_dir config) record (lp_world l') = is_dead (dl_state_dir config) record (lp_world l) →
     reconcile_upgrade_record config l' = (Ok false, l')).
Proof.
  intros He Ha Hc Hg Hread Hcur Hne Hrep.
  assert (Hrun : ∃ l', reconcile_upgrade_record config l = (Ok true, l')).
  { unfold reconcile_upgrade_record, try, on_world at 1, gets, mbind, M_bind.
    rewrite record_read_run, Hread. cbn [lp_runtime lp_world]. rewrite Hcur. cbn [lp_world lp_runtime lp_events].
    rewrite (proj2 (String.eqb_neq _ _) Hne), Hrep.
    unfold report_work_result. rewrite He, Ha.
    unfold now_rfc3339, call_gateway, post, gets, on_world, mbind, M_bind. cbn.
    destruct (Hc (lp_world l)) as [client ->]. cbn.
    match goal with |- context [gateway_reply client _ (RequestResult ?r) ?e ?w] =>
      destruct (Hg client r e w) as (body & -> & Hd) end.
    cbn. rewrite Hd. cbn. by eexists. }
  destruct Hrun as [l' Hrun]. destruct (reconcile_run config l) as (b & l2 & evs & Hr & E & _ & _ & R).
  rewrite Hrun in Hr. injection Hr as <- <-. destruct R as (record' & [Hread' _ (s & d & Hrep' & Ht) Hk] & _).
  rewrite Hread in Hread'. injection Hread' as <-. rewrite Hrep in Hrep'. injection Hrep' as <- <-.
  assert (Hx : one_shot_execution (rec_work_id record) (lp_runtime l')
     = Some (local_status_of (is_dead (dl_state_dir config) record (lp_world l)) record)).
  { by rewrite Hk, mark_get, String.eqb_refl. }
  exists l', evs. split_and!; [done..|]. intros Hread2 Hdead2.
  unfold reconcile_upgrade_record, try, on_world at 1, gets, mbind, M_bind.
  rewrite record_read_run, Hread2. cbn [lp_runtime lp_world]. rewrite Hx. cbn [lp_world]. rewrite Hdead2, String.eqb_refl. by destruct l'.
Qed.

(** A launch survives a restart: once the gateway has acknowledged the dispatch of an upgrade,
    what the next start of the agent restores from work.json still holds that upgrade as being done,
    unless its final result has been taken. *)
Theorem launch_survives_restart (config : DaemonLoop) (record_path : string) (l l' : Loop)
    (evs : list LoopEvent) (k : string) :
  fault_free → held_wf (lp_runtime l) →
  refresh_work_grant config record_path l = (Ok tt, l') → lp_events l' = lp_events l ++ evs →
  k ∈ launches evs → k ∈ acks evs → ag_sequence (lp_runtime l') ≠ 0%Z →
  ∃ restored, restore_work record_path (lp_world l') = (Ok restored, lp_world l') ∧
    (in_flight k restored ∨ told_final k evs).
Proof.
  intros Hff Hw Hr He Hk Ha Hq.
  destruct (refresh_run config record_path l Hw) as (l2 & e1 & e2 & Hr2 & R).
  rewrite Hr in Hr2. injection Hr2 as <-. pose proof (rf_wf _ _ _ _ _ R) as Hw'.
  pose proof (rf_events _ _ _ _ _ R) as Ev. rewrite He in Ev. apply (inj (lp_events l ++.)) in Ev as ->.
  assert (Hk1 : k ∈ launches e1).
  { rewrite launches_app, (rf_none _ _ _ _ _ R), (right_id_L [] (++)) in Hk. done. }
  destruct (rf_stored _ _ _ _ _ R k Ha) as (now & w & Hst).
  destruct (device_view_some now (lp_runtime l')) as [record Hv]; [by apply Z.eqb_neq|].
  rewrite Hv in Hst. unfold work_store_async in Hst. rewrite write_json_ff in Hst by done. cbn in Hst.
  exists (restore record). split.
  - unfold restore_work, work_load_async, try, mbind, M_bind. rewrite Hst.
    rewrite read_after_wrote by done. done.
  - destruct (rf_locked _ _ _ _ _ R k) as [(e & He' & Hf)|Ht]; [by right| |].
    + left. exists e. by rewrite (restore_execution_get now (lp_runtime l') record).
    + right. apply told_final_app. by right.
Qed.

End WorkLoop.

(** The machine of [ConcreteUpgrade], a gateway that sends one upgrade and then another, and a
    service manager whose transient units do nothing by themselves. *)
Module ConcreteLoop.
Export ConcreteSelect ConcreteWork ConcreteUpgrade.

(** Local views are written as trees of texts and numbers. *)
Definition tree : Type := gen_tree (string + Z).
Definition enc_text (s : string) : tree := GenLeaf (inl s).
Definition enc_number (z : Z) : tree := GenLeaf (inr z).
Definition enc_option (o : option Z) : tree :=
  match o with Some z => GenNode 1 [enc_number z] | None => GenNode 0 [] end.
Definition enc_list {A} (f : A → tree) (l : list A) : tree := GenNode 0 (f <$> l).
Definition dec_list {A} (g : tree → option A) (t : tree) : option (list A) :=
  match t with GenNode 0 l => mapM g l | _ => None end.
Definition dec_text (t : tree) : option string := match t with GenLeaf (inl s) => Some s | _ => None end.

Lemma dec_enc_list {A} (f : A → tree) g l : (∀ x, g (f x) = Some x) → dec_list g (enc_list f l) = Some l.
Proof. intros Hg. cbn. by apply mapM_fmap_Some. Qed.

Definition enc_task (t : WorkTaskRecord) : tree :=
  GenNode 0 [enc_text (wt_input_id t); enc_text (wt_path t); enc_text (wt_startup_position t)].
Definition dec_task (t : tree) : option WorkTaskRecord :=
  match t with
  | GenNode 0 [GenLeaf (inl a); GenLeaf (inl b); GenLeaf (inl c)] => Some (mk_task a b c)
  | _ => None
  end.

Definition enc_standing (r : StandingWorkRecord) : tree :=
  GenNode 0 [enc_text (sr_work_id r); enc_text (sr_family r); enc_text (sr_status r);
    enc_number (sr_plan_version r); enc_option (sr_acknowledged_version r); enc_text (sr_effective_from r);
    enc_list enc_text (sr_units r); enc_list enc_task (sr_tasks r)].
Definition dec_option (t : tree) : option (option Z) :=
  match t with
  | GenNode 1 [GenLeaf (inr z)] => Some (Some z)
  | GenNode 0 [] => Some None
  | _ => None
  end.
Definition dec_standing (t : tree) : option StandingWorkRecord :=
  match t with
  | GenNode 0 [GenLeaf (inl a); GenLeaf (inl b); GenLeaf (inl c); GenLeaf (inr d); e; GenLeaf (inl f); g; h] =>
      e ← dec_option e; g ← dec_list dec_text g; h ← dec_list dec_task h;
      Some (mk_standing_record a b c d e f g h)
  | _ => None
  end.
Lemma dec_enc_standing r : dec_standing (enc_standing r) = Some r.
Proof.
  destruct r as [a b c d e f g h]. unfold enc_standing, dec_standing. cbn [sr_work_id sr_family sr_status
    sr_plan_version sr_acknowledged_version sr_effective_from sr_units sr_tasks enc_text enc_number].
  assert (E : dec_option (enc_option e) = Some e) by by destruct e. rewrite E. cbn [mbind option_bind].
  rewrite (dec_enc_list enc_text) by done. cbn [mbind option_bind].
  rewrite (dec_enc_list enc_task) by by intros []. done.
Qed.

Definition enc_one_shot (r : OneShotWorkRecord) : tree :=
  GenNode 0 [enc_text (or_work_id r); enc_text (or_action r); enc_text (or_spec r); enc_text (or_status r);
    enc_text (or_execution r); enc_text (or_scheduled_at r); enc_text (or_deadline_at r);
    enc_number (or_timeout_seconds r)].
Definition dec_one_shot (t : tree) : option OneShotWorkRecord :=
  match t with
  | GenNode 0 [GenLeaf (inl a); GenLeaf (inl b); GenLeaf (inl c); GenLeaf (inl d); GenLeaf (inl e);
               GenLeaf (inl f); GenLeaf (inl g); GenLeaf (inr h)] =>
      Some (mk_one_shot_record a b c d e f g h)
  | _ => None
  end.

Definition enc_view (r : WorkRecord) : tree :=
  GenNode 0 [enc_text (wr_schema_version r); enc_text (wr_recorded_at r); enc_number (wr_gateway_sequence r);
    enc_list enc_standing (wr_standing r); enc_list enc_one_shot (wr_one_shot r);
    enc_option (wr_metrics_interval_seconds r)].
Definition dec_view (t : tree) : option WorkRecord :=
  match t with
  | GenNode 0 [GenLeaf (inl a); GenLeaf (inl b); GenLeaf (inr c); d; e; f] =>
      d ← dec_list dec_standing d; e ← dec_list dec_one_shot e; f ← dec_option f;
      Some (mk_work_record a b c d e f)
  | _ => None
  end.
Lemma dec_enc_view r : dec_view (enc_view r) = Some r.
Proof.
  destruct r as [a b c d e f]. unfold enc_view, dec_view. cbn [wr_schema_version wr_recorded_at
    wr_gateway_sequence wr_standing wr_one_shot wr_metrics_interval_seconds enc_text enc_number].
  rewrite (dec_enc_list enc_standing) by apply dec_enc_standing. cbn [mbind option_bind].
  rewrite (dec_enc_list enc_one_shot) by by intros []. cbn [mbind option_bind].
  assert (E : dec_option (enc_option f) = Some f) by by destruct f. by rewrite E.
Qed.

#[export] Instance WorkRecord_eq_dec : EqDecision WorkRecord.
Proof.
  refine (λ a b, cast_if (decide (enc_view a = enc_view b))); [|by intros ->].
  abstract (apply (inj Some); by rewrite <- !dec_enc_view, e).
Defined.
#[export] Instance WorkRecord_countable : Countable WorkRecord := inj_countable enc_view dec_view dec_enc_view.
#[export] Instance view_json : Json WorkRecord := toy_json.

#[export] Instance loop_artifacts : Artifacts := {|
  upgrade_spec_from_json text :=
    if String.eqb text "" then inl "EOF" else inr (mk_spec None "/tmp/p" text false);
  parse_digest s := Some s;
  sha256_hex_bytes b := b;
  parse_version s := if contains "." s then Some [0; 1]%Z else None;
  version_is_newer a b := Some (match String.compare a b with Gt => true | _ => false end);
|}.

(** The endpoint names the gateway's manners: [ok] takes everything, [busy] answers polls only. *)
Definition polled (sequence : string) : option WorkGrant :=
  if String.eqb sequence "1" then Some (snapshot 1 [] [one_shot "work-a" "upgrade" "0.1.4"])
  else if String.eqb sequence "2" then
    Some (snapshot 2 [] [one_shot "work-a" "upgrade" "0.1.4"; one_shot "work-b" "upgrade" "0.1.5"])
  else if String.eqb sequence "3" then Some (snapshot 3 [] [one_shot "work-bad" "upgrade" ""])
  else None.

#[export] Instance enrolled_host : UpgradeHost := {|
  run_program := toy_program;
  is_symlink _ _ := false;
  chmod_755 _ := mret tt;
  modified_at _ w := Ok (clock w);
  others_act ms w := set_clock (clock w + ms) w;
  Client := unit;
  enrollment_http_client _ := inr tt;
  read_local_source _ _ _ := inl (OtherArtifactError "not found");
  read_source_with_client _ _ _ _ _ := inl (OtherArtifactError "unreachable");
  display_artifact_error e := match e with TooLarge d => d | OtherArtifactError d => d end;
  AgentRuntimeState := string;
  runtime_version s := s;
  AgentRuntimeState_json := toy_json;
  AGENT_RUNTIME_FILE := "agent_runtime.json";
  spawn_detached _ _ := mret 1%Z;
  read_dir_all _ := mret [];
|}.

#[export] Instance loop_gateway : WorkGateway := {|
  gateway_reply _ url request _ w :=
    match request with
    | RequestPoll _ =>
        Response true (if Z.ltb (clock w) 30000 then "1" else if Z.ltb (clock w) 900000 then "2" else "3")
    | RequestAck _ => if starts_with "busy" url then NoResponse else Response true "accepted"
    | RequestResult _ => if starts_with "busy" url then NoResponse else Response true "accepted"
    end;
  request_takes _ _ _ _ := 0%Z;
  decode_work_grant := polled;
  decode_work_accepted body := Some body;
  decodes_work_result_accepted _ := true;
  current_exe _ := Ok "/b/wist-agentd";
  CARGO_PKG_VERSION := "0.1.3";
|}.


Definition config (endpoint : string) : DaemonLoop :=
  mk_daemon_loop (Some endpoint) (Some "agent-1") None "/s" "/l" "/b/wist-upgrader" "/c".
Definition view_path : string := work_path_for "/s".

(** The clock in ms, and the record the upgrader has left. *)
Definition at_time (time : Z) (record : option UpgradeRecord) : World :=
  MkWorld _ (match record with
             | Some r => {[ "/s/upgrade.json" := to_json r +:+ nl ]}
             | None => ∅
             end) {[ ""; "/s" ]} time ∅.

Definition failed (work_id : string) : UpgradeRecord :=
  mk_upgrade_record work_id "0.1.3" "0.1.4" "fetch" "failed" "package_unavailable" "/b/wist-agentd" "t".

Definition start : Loop := mk_loop (at_time 0 None) AppliedWorkGrant_default None [].
Definition tick (endpoint : string) (w : World) (l : Loop) : Loop :=
  (refresh_work_grant (config endpoint) view_path (with_world w l)).2.

Definition first_tick : Loop := tick "ok" (at_time 0 None) start.
Definition second_tick : Loop := tick "ok" (at_time 30000 (Some (failed "work-a"))) first_tick.
Definition third_tick : Loop := tick "ok" (at_time 60000 (Some (failed "work-a"))) second_tick.

Lemma start_wf : held_wf (lp_runtime start).
Proof. apply default_wf. Qed.

Lemma tick_wf endpoint w l : held_wf (lp_runtime l) → held_wf (lp_runtime (tick endpoint w l)).
Proof.
  intros Hw. destruct (refresh_run (config endpoint) view_path (with_world w l) Hw) as (l' & a & b & Hr & R).
  unfold tick. rewrite Hr. apply R.
Qed.

Lemma first_wf : held_wf (lp_runtime first_tick).
Proof. apply tick_wf, start_wf. Qed.
Lemma second_wf : held_wf (lp_runtime second_tick).
Proof. apply tick_wf, first_wf. Qed.

Lemma tick_run endpoint w l : held_wf (lp_runtime l) →
  refresh_work_grant (config endpoint) view_path (with_world w l) = (Ok tt, tick endpoint w l).
Proof.
  intros Hw. destruct (refresh_run (config endpoint) view_path (with_world w l) Hw) as (l' & a & b & Hr & R).
  unfold tick. by rewrite Hr.
Qed.

(** The first upgrade fails, its failure is told, and the second is launched. *)
Example upgrades_never_overlap_witness :
  ∃ status detail, (status, detail) ∈ told "work-a" (take 4 (drop 2 (lp_events third_tick))) ∧
    (status = "succeeded" ∨ status = "failed").
Proof.
  apply (upgrades_never_overlap (config "ok") view_path start third_tick
    (drop 0 (lp_events first_tick) ++ drop 3 (lp_events second_tick) ++ drop 5 (lp_events third_tick) ++ [])
    (take 1 (lp_events third_tick)) (take 4 (drop 2 (lp_events third_tick))) (drop 7 (lp_events third_tick))
    "work-a" "work-b" "wist-upgrader-work-a" "wist-upgrader-work-b").
  - exact start_wf.
  - apply (ticks_cons _ _ start (at_time 0 None) first_tick); [apply tick_run, start_wf|vm_compute; reflexivity|].
    apply (ticks_cons _ _ first_tick (at_time 30000 (Some (failed "work-a"))) second_tick);
      [apply tick_run, first_wf|vm_compute; reflexivity|].
    apply (ticks_cons _ _ second_tick (at_time 60000 (Some (failed "work-a"))) third_tick);
      [apply tick_run, second_wf|vm_compute; reflexivity|apply ticks_nil].
  - vm_compute. reflexivity.
Defined.

Example released_only_by_report_witness :
  ∃ l' evs, refresh_work_grant (config "ok") view_path (with_world (at_time 30000 None) first_tick) = (Ok tt, l') ∧
    lp_events l' = lp_events first_tick ++ evs ∧ launches evs = [] ∧ (in_flight "work-a" (lp_runtime l') ∨
    ∃ status detail, (status, detail) ∈ told "work-a" evs ∧ (status = "succeeded" ∨ status = "failed")).
Proof.
  apply (released_only_by_report (config "ok") view_path (with_world (at_time 30000 None) first_tick) "work-a").
  - exact first_wf.
  - exists "dispatched". split; vm_compute; reflexivity.
Defined.

Definition met : Loop := with_world (at_time 30000 (Some (failed "work-a"))) first_tick.

Example upgrade_reported_once_witness :
  ∃ l' evs, reconcile_upgrade_record (config "ok") met = (Ok true, l') ∧ lp_events l' = lp_events met ++ evs ∧
    told "work-a" evs = [("failed", "package_unavailable")] ∧
    one_shot_execution "work-a" (lp_runtime l') = Some "failed" ∧
    (record_read (config "ok") (lp_world l') = Ok (failed "work-a") →
     is_dead "/s" (failed "work-a") (lp_world l') = is_dead "/s" (failed "work-a") (lp_world met) →
     reconcile_upgrade_record (config "ok") l' = (Ok false, l')).
Proof.
  apply (upgrade_reported_once (config "ok") met (failed "work-a") "ok" "agent-1" "dispatched"
           "failed" "package_unavailable").
  - reflexivity.
  - reflexivity.
  - intros w. exists tt. reflexivity.
  - intros client r evs w. exists "accepted". split; reflexivity.
  - vm_compute. reflexivity.
  - vm_compute. reflexivity.
  - vm_compute. discriminate.
  - vm_compute. reflexivity.
Defined.

Example launch_survives_restart_witness :
  ∃ restored, restore_work view_path (lp_world first_tick) = (Ok restored, lp_world first_tick) ∧
    (in_flight "work-a" restored ∨ told_final "work-a" (lp_events first_tick)).
Proof.
  apply (launch_survives_restart (config "ok") view_path (with_world (at_time 0 None) start) first_tick
           (lp_events first_tick) "work-a").
  - by intros op p.
  - exact start_wf.
  - apply tick_run, start_wf.
  - reflexivity.
  - vm_compute. by left.
  - vm_compute. by left.
  - vm_compute. discriminate.
Defined.

(** An upgrader that ends before it stores its first record (its configuration cannot be read, say)
    leaves the work [dispatched] for ever: no later refresh settles it, and the next upgrade is not
    launched although nothing runs. *)
Example lost_upgrader_blocks_upgrades :
  let l := foldl (λ l t, tick "ok" (at_time t None) l) first_tick
             [30000; 120000; 240000; 480000; 600000; 800000]%Z in
  one_shot_execution "work-a" (lp_runtime l) = Some "dispatched" ∧
  one_shot_execution "work-b" (lp_runtime l) = Some "unexecuted" ∧
  launches (lp_events l) = ["work-a"] ∧ told "work-a" (lp_events l) = [].
Proof. vm_compute. by repeat split. Qed.

(** A work whose upgrader cannot be launched is reported once; when that report is lost the gateway
    is never told. *)
Example lost_rejection_is_not_retried :
  let l1 := tick "busy" (at_time 900000 None) start in
  let l2 := foldl (λ l t, tick "ok" (at_time t None) l) l1 [960000; 1020000; 1080000]%Z in
  one_shot_execution "work-bad" (lp_runtime l2) = Some "rejected" ∧ told "work-bad" (lp_events l2) = [] ∧
  length (lp_events l2) = 5.
Proof. vm_compute. by repeat split. Qed.

Definition restarted (l : Loop) : Loop :=
  match (restore_work view_path (lp_world l)).1 with
  | Ok runtime => mk_loop (lp_world l) runtime None (lp_events l)
  | Err _ => l
  end.

(** A launch whose acknowledgement is lost is not in work.json when the snapshot did not change, and
    a restart launches it a second time. *)
Example unacknowledged_launch_repeated :
  let l := tick "busy" (set_clock 60000 (lp_world second_tick)) second_tick in
  let l' := tick "ok" (set_clock 120000 (lp_world l)) (restarted l) in
  launches (lp_events l) = ["work-a"; "work-b"] ∧ launches (lp_events l') = ["work-a"; "work-b"; "work-b"].
Proof. vm_compute. by split. Qed.
End ConcreteLoop.
