(* ===== verification/Search.v ===== *)
(** discovery/log_source/search.rs: the bounded search for a service's log directories under the
    roots the gateway allows.  The walk lists directories up to a depth, takes every entry from a
    budget of entries and time, never enters a symbolic link, and collects at most a few hits. *)
From S2P Require Import Prelude Text Fmt BTree.

(** * The tree that is searched *)

Inductive FileType := RegularFile | Directory | Symlink | OtherFile.

(** A directory entry, with its type unless it cannot be told. *)
Record DirEntry := mk_dir_entry { de_name : string; de_type : option FileType }.

(** The file system and the clock as the search sees them.  Others change both while it runs:
    everything is asked for at the [n]-th look outside.  [None] for an entry, a listing or a
    real path is an error of the call. *)
Class Tree := {
  tree_now : nat → Z;
  tree_read_dir : nat → string → option (list (option DirEntry));
  tree_canonicalize : nat → string → option string;
  tree_is_dir : nat → string → bool;
  (** [str::to_lowercase], which needs the tables of Unicode. *)
  to_lowercase : string → string;
}.

(** * The limits and the markers *)

Definition MAX_SEARCH_ROOTS : nat := 8.
Definition MAX_SEARCH_DEPTH : nat := 4.
Definition MAX_SEARCH_ENTRIES : N := 2000.
Definition MAX_SEARCH_DURATION : Z := 2000.
Definition MAX_HITS : nat := 4.

Record Hit := mk_hit { log_dir : string; detail : string }.

Record Marker := mk_marker {
  mk_service : string;
  mk_data_entries : list string;
  mk_log_subdir : string;
  mk_logs : list (string * string);
}.

Definition MARKERS : list Marker :=
  [mk_marker "postgresql" ["PG_VERSION"] "log" [("postgresql-", ".log"); ("postgresql-", ".csv")];
   mk_marker "mysql" ["ibdata1"; "mysql.ibd"] "" [("", ".err"); ("", "-slow.log"); ("slow", ".log")];
   mk_marker "redis" ["dump.rdb"; "appendonly.aof"; "appendonlydir"] "" [("redis", ".log")];
   mk_marker "mongodb" ["WiredTiger"; "storage.bson"] "log" [("mongod.log", "")]].

(** * The state of a search *)

(** What the search did to the file system: listing a directory at a depth, taking an entry of
    one at an instant. *)
Inductive SearchEvent :=
| Listed (depth : nat) (dir : string)
| Took (at_ : Z) (dir : string) (entry : option DirEntry).

(** The two fields of [Budget], the hits so far, the looks outside so far, and the trace. *)
Record Search := mk_search {
  bd_entries : N;
  bd_deadline : Z;
  se_hits : list Hit;
  se_looks : nat;
  se_trace : list SearchEvent;
}.

(** What the loop over a directory's entries has gathered. *)
Record Seen := mk_seen { sn_data_hit : bool; sn_log_hit : bool; sn_subdirs : list string }.

(** [Path::join] with a name that is not absolute. *)
Definition dir_join (dir name : string) : string :=
  if bool_decide (last_char dir = Some slash) then dir +:+ name else path_join dir name.

Section Search.
Context `{Tree}.

Definition look {A} (f : nat → A) : M Search A := λ s,
  (Ok (f (se_looks s)),
   mk_search (bd_entries s) (bd_deadline s) (se_hits s) (S (se_looks s)) (se_trace s)).
Definition traced (e : SearchEvent) : M Search unit :=
  modify (λ s, mk_search (bd_entries s) (bd_deadline s) (se_hits s) (se_looks s) (se_trace s ++ [e])).
Definition set_hits (f : list Hit → list Hit) : M Search unit :=
  modify (λ s, mk_search (bd_entries s) (bd_deadline s) (f (se_hits s)) (se_looks s) (se_trace s)).
Definition spend : M Search unit :=
  modify (λ s, mk_search (bd_entries s - 1) (bd_deadline s) (se_hits s) (se_looks s) (se_trace s)).

(** [Budget::exhausted] *)
Definition exhausted : M Search bool :=
  entries ← gets bd_entries;
  if N.eqb entries 0 then mret true
  else
    now ← look tree_now;
    deadline ← gets bd_deadline;
    mret (Z.leb deadline now).

(** [Budget::take], for an entry of [dir]. *)
Definition budget_take (dir : string) (entry : option DirEntry) : M Search bool :=
  entries ← gets bd_entries;
  if N.eqb entries 0 then mret false
  else
    now ← look tree_now;
    deadline ← gets bd_deadline;
    if Z.leb deadline now then mret false
    else
      spend;;
      traced (Took now dir entry);;
      mret true.

Definition matches_log_name (name : string) (logs : list (string * string)) : bool :=
  let lowered := to_lowercase name in
  existsb (λ '(prefix, suffix),
    starts_with (to_lowercase prefix) lowered && ends_with (to_lowercase suffix) lowered) logs.

(** What one entry adds. *)
Definition see_entry (dir : string) (marker : Marker) (entry : option DirEntry) (seen : Seen) : Seen :=
  match entry with
  | Some (mk_dir_entry raw (Some file_type)) =>
      match file_type with
      | Symlink => seen
      | _ =>
          let name := from_utf8_lossy raw in
          mk_seen
            (sn_data_hit seen || existsb (String.eqb name) (mk_data_entries marker))
            (sn_log_hit seen ||
             match file_type with
             | RegularFile => matches_log_name name (mk_logs marker)
             | _ => false
             end)
            (match file_type with
             | Directory => (sn_subdirs seen ++ [dir_join dir raw])%list
             | _ => sn_subdirs seen
             end)
      end
  | _ => seen
  end.

(** The loop over the entries; [None] when the budget ends it. *)
Fixpoint scan_entries (dir : string) (marker : Marker) (entries : list (option DirEntry))
    (seen : Seen) : M Search (option Seen) :=
  match entries with
  | [] => mret (Some seen)
  | entry :: entries =>
      taken ← budget_take dir entry;
      if taken : bool then scan_entries dir marker entries (see_entry dir marker entry seen)
      else mret None
  end.

Definition add_hit (hit : Hit) (hits : list Hit) : list Hit :=
  if existsb (λ h, String.eqb (log_dir h) (log_dir hit)) hits then hits else (hits ++ [hit])%list.

Definition push_hit (path detail : string) : M Search unit :=
  real ← look (λ n, tree_canonicalize n path);
  match real with
  | None => mret tt
  | Some real =>
      is_dir ← look (λ n, tree_is_dir n real);
      if negb is_dir then mret tt
      else set_hits (add_hit (mk_hit (from_utf8_lossy real) detail))
  end.

Definition log_detail (marker : Marker) (dir : string) : string :=
  "search: " +:+ mk_service marker +:+ " 日志在 " +:+ from_utf8_lossy dir.
Definition data_detail (marker : Marker) (dir : string) : string :=
  "search: " +:+ Text.join "|" (mk_data_entries marker) +:+ " @ " +:+ from_utf8_lossy dir.
Definition data_target (marker : Marker) (dir : string) : string :=
  if String.eqb (mk_log_subdir marker) "" then dir else dir_join dir (mk_log_subdir marker).

Fixpoint for_each {A} (f : A → M Search unit) (l : list A) : M Search unit :=
  match l with
  | [] => mret tt
  | x :: l => f x;; for_each f l
  end.

(** [walk]; the fuel only bounds the recursion, which ends with the depth. *)
Fixpoint walk (fuel : nat) (dir : string) (depth : nat) (marker : Marker) : M Search unit :=
  match fuel with
  | O => mret tt
  | S fuel =>
      exh ← exhausted;
      hits ← gets se_hits;
      if exh || Nat.leb MAX_HITS (length hits) || Nat.ltb MAX_SEARCH_DEPTH depth then mret tt
      else
        entries ← look (λ n, tree_read_dir n dir);
        match entries with
        | None => mret tt
        | Some entries =>
            traced (Listed depth dir);;
            seen ← scan_entries dir marker entries (mk_seen false false []);
            match seen with
            | None => mret tt
            | Some seen =>
                when (sn_log_hit seen) (push_hit dir (log_detail marker dir));;
                if sn_data_hit seen then push_hit (data_target marker dir) (data_detail marker dir)
                else for_each (λ subdir, walk fuel subdir (S depth) marker) (sn_subdirs seen)
            end
        end
  end.

Definition walk_fuel : nat := MAX_SEARCH_DEPTH + 2.

(** A root the search accepts, trimmed. *)
Definition usable_root (root : string) : bool :=
  starts_with "/" root && negb (String.eqb root "/").

(** The loop over the roots. *)
Fixpoint search_roots (marker : Marker) (roots : list string) : M Search unit :=
  match roots with
  | [] => mret tt
  | root :: roots =>
      let root := trim root in
      if negb (usable_root root) then search_roots marker roots
      else
        walk walk_fuel root 0 marker;;
        exh ← exhausted;
        hits ← gets se_hits;
        if exh || Nat.leb MAX_HITS (length hits) then mret tt else search_roots marker roots
  end.

Definition hit_le (a b : Hit) : Prop := String.compare (log_dir a) (log_dir b) ≠ Gt.
#[export] Instance hit_le_dec : RelDecision hit_le.
Proof.
  intros a b. unfold hit_le. destruct (String.compare _ _); [left|left|right]; naive_solver.
Defined.

(** [dedup_by]: a hit is dropped when it repeats the one kept last. *)
Fixpoint dedup_after (kept : Hit) (hits : list Hit) : list Hit :=
  match hits with
  | [] => []
  | h :: hits =>
      if String.eqb (log_dir h) (log_dir kept) then dedup_after kept hits else h :: dedup_after h hits
  end.
Definition dedup_hits (hits : list Hit) : list Hit :=
  match hits with [] => [] | h :: hits => h :: dedup_after h hits end.

Definition finish_hits (hits : list Hit) : list Hit :=
  take MAX_HITS (dedup_hits (merge_sort hit_le hits)).

(** [search_with]: the hits and the budget that is left. *)
Definition search_with (service : string) (roots : list string) (budget : Search) :
    list Hit * Search :=
  match find_first (λ m, String.eqb (mk_service m) service) MARKERS with
  | None => ([], budget)
  | Some marker =>
      let started := mk_search (bd_entries budget) (bd_deadline budget) [] (se_looks budget)
                       (se_trace budget) in
      let s := (search_roots marker (take MAX_SEARCH_ROOTS roots) started).2 in
      (finish_hits (se_hits s), s)
  end.

(** [Budget::new] *)
Definition budget_new (looks : nat) : Search :=
  mk_search MAX_SEARCH_ENTRIES (tree_now looks + MAX_SEARCH_DURATION) [] (S looks) [].

(** [search] *)
Definition search (service : string) (roots : list string) (looks : nat) : list Hit * Search :=
  search_with service roots (budget_new looks).
End Search.

(** * What every step of a search keeps *)

Definition taken (evs : list SearchEvent) : list SearchEvent :=
  List.filter (λ e, match e with Took _ _ _ => true | Listed _ _ => false end) evs.

(** [dir] is [depth] steps below [root], each step an entry that was taken as a real directory. *)
Inductive beneath (evs : list SearchEvent) (root : string) : nat → string → Prop :=
| beneath_root : beneath evs root 0 root
| beneath_step k dir raw t :
    beneath evs root k dir → Took t dir (Some (mk_dir_entry raw (Some Directory))) ∈ evs →
    beneath evs root (S k) (dir_join dir raw).

Lemma beneath_mono evs evs' root k dir :
  evs ⊆ evs' → beneath evs root k dir → beneath evs' root k dir.
Proof. intros Hs. induction 1; [constructor|]. econstructor; eauto. Qed.

Arguments taken : simpl never.

Lemma taken_took t d e evs : taken (Took t d e :: evs) = Took t d e :: taken evs.
Proof. done. Qed.
Lemma taken_listed k d evs : taken (Listed k d :: evs) = taken evs.
Proof. done. Qed.

Lemma taken_app e1 e2 : taken (e1 ++ e2) = (taken e1 ++ taken e2)%list.
Proof. apply List.filter_app. Qed.

(** The budget is spent on entries, each taken before the deadline; hits are only added. *)
Record moves (s s' : Search) : Prop := {
  mv_deadline : bd_deadline s' = bd_deadline s;
  mv_hits : se_hits s `prefix_of` se_hits s';
  mv_trace : ∃ evs, se_trace s' = (se_trace s ++ evs)%list ∧
    (bd_entries s = bd_entries s' + N.of_nat (length (taken evs)))%N ∧
    ∀ t d e, Took t d e ∈ evs → (t < bd_deadline s)%Z;
}.

#[export] Instance moves_preorder : PreOrder moves.
Proof.
  split.
  - intros s. split; [done|done|]. exists []. rewrite (right_id_L [] (++)).
    split_and!; [done|unfold taken; cbn; lia|]. by intros ??? ?%elem_of_nil.
  - intros s1 s2 s3 [D1 P1 (e1 & T1 & N1 & B1)] [D2 P2 (e2 & T2 & N2 & B2)].
    split; [congruence|by etrans|]. exists (e1 ++ e2)%list. split_and!.
    + by rewrite T2, T1, (assoc_L (++)).
    + rewrite taken_app, length_app. lia.
    + intros t d e [?|?]%elem_of_app; [by eapply B1|]. rewrite <- D1. by eapply B2.
Qed.

Lemma moves_events s s' : moves s s' → se_trace s ⊆ se_trace s'.
Proof. intros [_ _ (evs & -> & _)] e He. apply elem_of_app. by left. Qed.

Lemma moves_entries s s' : moves s s' → (bd_entries s' ≤ bd_entries s)%N.
Proof. intros [_ _ (evs & _ & -> & _)]. lia. Qed.

Lemma moves_length s s' : moves s s' → length (se_hits s) ≤ length (se_hits s').
Proof. intros [_ Hp _]. by apply prefix_length. Qed.

(** Nothing but the number of looks changed. *)
Definition quiet (s s' : Search) : Prop :=
  bd_entries s' = bd_entries s ∧ bd_deadline s' = bd_deadline s ∧ se_hits s' = se_hits s ∧
  se_trace s' = se_trace s.

Lemma quiet_moves s s' : quiet s s' → moves s s'.
Proof.
  intros (E & D & Hh & T). split; [done|by rewrite Hh|]. exists [].
  rewrite T, E, (right_id_L [] (++)). split_and!; [done|unfold taken; cbn; lia|]. by intros ??? ?%elem_of_nil.
Qed.

Lemma add_hit_cases hit hits :
  add_hit hit hits = hits ∨
  (add_hit hit hits = (hits ++ [hit])%list ∧ log_dir hit ∉ log_dir <$> hits).
Proof.
  unfold add_hit. destruct (existsb _ hits) eqn:E; [by left|right]. split; [done|].
  intros (h & Hl & Hi)%list_elem_of_fmap. apply not_true_iff_false in E. apply E.
  apply existsb_exists. exists h. split; [by apply list_elem_of_In|]. by apply String.eqb_eq.
Qed.

Lemma add_hit_in hit hits : log_dir hit ∈ log_dir <$> add_hit hit hits.
Proof.
  unfold add_hit. destruct (existsb _ hits) eqn:E.
  - apply existsb_exists in E as (h & Hi & He). apply String.eqb_eq in He as <-.
    apply list_elem_of_fmap. exists h. by rewrite list_elem_of_In.
  - rewrite fmap_app. apply elem_of_app. right. by apply list_elem_of_singleton.
Qed.

Section Steps.
Context `{Tree} (marker : Marker) (R : list string).

(** A directory holds the marks of the service: a file named like one of its logs, or an entry of its data
    directory, no symbolic link. *)
Definition log_mark (evs : list SearchEvent) (dir : string) : Prop :=
  ∃ t raw, Took t dir (Some (mk_dir_entry raw (Some RegularFile))) ∈ evs ∧
    matches_log_name (from_utf8_lossy raw) (mk_logs marker) = true.
Definition data_mark (evs : list SearchEvent) (dir : string) : Prop :=
  ∃ t raw file_type, Took t dir (Some (mk_dir_entry raw (Some file_type))) ∈ evs ∧ file_type ≠ Symlink ∧
    existsb (String.eqb (from_utf8_lossy raw)) (mk_data_entries marker) = true.
Definition marked (evs : list SearchEvent) (path dir : string) : Prop :=
  path = dir ∧ log_mark evs dir ∨ path = data_target marker dir ∧ data_mark evs dir.

(** Where a hit comes from: the real path of a listed directory that holds a log, or of the log directory
    of one that is a data directory, seen to be a directory. *)
Definition hit_from (evs : list SearchEvent) (h : Hit) : Prop :=
  ∃ k dir path n real, Listed k dir ∈ evs ∧ marked evs path dir ∧
    tree_canonicalize n path = Some real ∧ tree_is_dir (S n) real = true ∧
    log_dir h = from_utf8_lossy real.

Record sound (s : Search) : Prop := {
  so_listed : ∀ k dir, Listed k dir ∈ se_trace s →
    k ≤ MAX_SEARCH_DEPTH ∧ ∃ root, root ∈ R ∧ beneath (se_trace s) root k dir;
  so_hits : ∀ h, h ∈ se_hits s → hit_from (se_trace s) h;
  so_nodup : NoDup (log_dir <$> se_hits s);
}.

Definition steps (s s' : Search) : Prop := moves s s' ∧ (sound s → sound s').

#[export] Instance steps_preorder : PreOrder steps.
Proof.
  split; [by intros s; split|]. intros s1 s2 s3 [M1 S1] [M2 S2]. split; [by etrans|auto].
Qed.

Lemma marked_mono evs evs' path dir : evs ⊆ evs' → marked evs path dir → marked evs' path dir.
Proof.
  intros Hs [[-> (t & raw & Ht & Hm)]|[-> (t & raw & ft & Ht & Hm)]]; [left|right]; (split; [done|]).
  - exists t, raw. auto.
  - exists t, raw, ft. auto.
Qed.
Lemma hit_from_mono evs evs' h : evs ⊆ evs' → hit_from evs h → hit_from evs' h.
Proof. intros Hs (k & dir & path & n & real & Hl & Hm & ?). exists k, dir, path, n, real. eauto using marked_mono. Qed.

Lemma quiet_steps s s' : quiet s s' → steps s s'.
Proof.
  intros Q. split; [by apply quiet_moves|]. destruct Q as (E & D & Hh & T).
  intros [L Hi N]. split; rewrite ?T, ?Hh; auto.
Qed.

Lemma exhausted_run s : ∃ b s', exhausted s = (Ok b, s') ∧ quiet s s' ∧
  (b = true ↔ bd_entries s = 0%N ∨ (bd_deadline s ≤ tree_now (se_looks s))%Z ∧ bd_entries s ≠ 0%N).
Proof.
  unfold exhausted, look, gets, mbind, M_bind. destruct (N.eqb_spec (bd_entries s) 0) as [E|E].
  - exists true, s. split_and!; [done|done|tauto].
  - eexists _, _. split_and!; [done|done|]. cbn. rewrite Z.leb_le. tauto.
Qed.

Lemma budget_take_run dir entry s : ∃ b s', budget_take dir entry s = (Ok b, s') ∧ steps s s' ∧
  se_hits s' = se_hits s ∧
  (if b : bool then ∃ t, Took t dir entry ∈ se_trace s'
   else bd_entries s = 0%N ∨ (bd_deadline s ≤ tree_now (se_looks s))%Z).
Proof.
  unfold budget_take, spend, traced, modify, look, gets, mbind, M_bind.
  destruct (N.eqb_spec (bd_entries s) 0) as [E|E].
  { exists false, s. split_and!; [done|reflexivity|done|by left]. }
  cbn. destruct (Z.leb_spec (bd_deadline s) (tree_now (se_looks s))) as [L|L].
  { eexists false, _. split_and!; [done|by apply quiet_steps|done|by right]. }
  eexists true, _. split_and!; [done| |done|].
  - split.
    + split; [done|done|]. eexists [_]. split_and!; [done|unfold taken; cbn; lia|].
      intros t d e ?%list_elem_of_singleton. simplify_eq. done.
    + intros [Ls Hi N]. cbn. split; cbn; [|intros h Hh; eapply hit_from_mono; [|by apply Hi];
        intros ??; apply elem_of_app; by left|done].
      intros k d [Hl|[=]%list_elem_of_singleton]%elem_of_app.
      destruct (Ls k d Hl) as (Hk & root & Hr & Hb). split; [done|]. exists root. split; [done|].
      eapply beneath_mono; [|done]. intros ??. apply elem_of_app. by left.
  - eexists. apply elem_of_app. right. by apply list_elem_of_singleton.
Qed.

Lemma push_hit_run path detail s :
  (∃ k dir, Listed k dir ∈ se_trace s ∧ marked (se_trace s) path dir) →
  ∃ s', push_hit path detail s = (Ok tt, s') ∧ steps s s' ∧ bd_entries s' = bd_entries s.
Proof.
  intros (k & dir & Hl & Hp). unfold push_hit, set_hits, modify, look, mbind, M_bind.
  destruct (tree_canonicalize (se_looks s) path) as [real|] eqn:Er; cbn.
  2:{ eexists. split_and!; [done|by apply quiet_steps|done]. }
  destruct (tree_is_dir (S (se_looks s)) real) eqn:Ed; cbn.
  2:{ eexists. split_and!; [done|by apply quiet_steps|done]. }
  eexists. split_and!; [done| |done].
  destruct (add_hit_cases (mk_hit (from_utf8_lossy real) detail) (se_hits s)) as [->|[-> Hn]];
    [by apply quiet_steps|].
  split.
  - split; [done|by apply prefix_app_r|]. exists []. rewrite (right_id_L [] (++)).
    split_and!; [done|unfold taken; cbn; lia|]. by intros ??? ?%elem_of_nil.
  - intros [Ls Hi N]. split; cbn; [done| |].
    + intros h [Hh| ->%list_elem_of_singleton]%elem_of_app; [by apply Hi|].
      exists k, dir, path, (se_looks s), real. done.
    + rewrite fmap_app. apply NoDup_app. split_and!; [done| |by apply NoDup_singleton].
      intros x Hx ->%list_elem_of_singleton. done.
Qed.

Lemma exhausted_step s : ∃ b s', exhausted s = (Ok b, s') ∧ steps s s' ∧ quiet s s' ∧
  (b = true → bd_entries s = 0%N ∨ ∃ n, (bd_deadline s ≤ tree_now n)%Z).
Proof.
  destruct (exhausted_run s) as (b & s' & E & Q & Hb). exists b, s'.
  split_and!; [done|by apply quiet_steps|done|]. rewrite Hb. naive_solver.
Qed.

Definition see_all (dir : string) (entries : list (option DirEntry)) (seen : Seen) : Seen :=
  foldl (λ seen entry, see_entry dir marker entry seen) seen entries.

Lemma see_all_subdirs dir entries seen d : d ∈ sn_subdirs (see_all dir entries seen) →
  d ∈ sn_subdirs seen ∨
  ∃ raw, Some (mk_dir_entry raw (Some Directory)) ∈ entries ∧ d = dir_join dir raw.
Proof.
  revert seen. induction entries as [|e es IH]; intros seen; cbn; [by left|].
  intros [Hd|(raw & Hr & ->)]%IH.
  2:{ right. exists raw. split; [|done]. apply elem_of_cons. by right. }
  destruct e as [[raw [[]|]]|]; cbn in Hd; try by left.
  apply elem_of_app in Hd as [?| ->%list_elem_of_singleton]; [by left|].
  right. exists raw. split; [|done]. apply elem_of_cons. by left.
Qed.

(** A mark that was seen is among the entries. *)
Lemma see_all_marks dir entries seen :
  (sn_log_hit (see_all dir entries seen) = true → sn_log_hit seen = true ∨
    ∃ raw, Some (mk_dir_entry raw (Some RegularFile)) ∈ entries ∧ matches_log_name (from_utf8_lossy raw) (mk_logs marker) = true) ∧
  (sn_data_hit (see_all dir entries seen) = true → sn_data_hit seen = true ∨
    ∃ raw ft, Some (mk_dir_entry raw (Some ft)) ∈ entries ∧ ft ≠ Symlink ∧
      existsb (String.eqb (from_utf8_lossy raw)) (mk_data_entries marker) = true).
Proof.
  revert seen. induction entries as [|e es IH]; intros seen; cbn; [by split; left|].
  destruct (IH (see_entry dir marker e seen)) as [IHl IHd]. split.
  - intros [Hl|(raw & Hr & Hm)]%IHl; [|right; exists raw; split; [apply elem_of_cons; by right|done]].
    destruct e as [[raw [[]|]]|]; cbn in Hl; rewrite ?orb_false_r in Hl; try by left.
    apply orb_true_iff in Hl as [|Hl]; [by left|right]. exists raw. split; [apply elem_of_cons; by left|done].
  - intros [Hl|(raw & ft & Hr & Hm)]%IHd; [|right; exists raw, ft; split; [apply elem_of_cons; by right|done]].
    destruct e as [[raw [ft|]]|]; cbn in Hl; try by left. assert (Hne : ft = Symlink ∨ ft ≠ Symlink) by (destruct ft; naive_solver). destruct Hne as [->|Hne]; [by left|].
    assert (Hd : sn_data_hit seen || existsb (String.eqb (from_utf8_lossy raw)) (mk_data_entries marker) = true) by by destruct ft.
    apply orb_true_iff in Hd as [|Hd]; [by left|right]. exists raw, ft. split; [apply elem_of_cons; by left|done].
Qed.

Lemma entries_marked evs dir entries : (∀ e, e ∈ entries → ∃ t, Took t dir e ∈ evs) →
  let seen := see_all dir entries (mk_seen false false []) in
  (sn_log_hit seen = true → log_mark evs dir) ∧ (sn_data_hit seen = true → data_mark evs dir).
Proof.
  intros Ht seen. destruct (see_all_marks dir entries (mk_seen false false [])) as [Hl Hd]. split.
  - intros [|(raw & Hr & Hm)]%Hl; [done|]. destruct (Ht _ Hr) as [t Hin]. by exists t, raw.
  - intros [|(raw & ft & Hr & Hm)]%Hd; [done|]. destruct (Ht _ Hr) as [t Hin]. by exists t, raw, ft.
Qed.

Lemma scan_entries_run dir entries seen s :
  ∃ r s', scan_entries dir marker entries seen s = (Ok r, s') ∧ steps s s' ∧
    se_hits s' = se_hits s ∧
    match r with
    | Some seen' => seen' = see_all dir entries seen ∧
        ∀ e, e ∈ entries → ∃ t, Took t dir e ∈ se_trace s'
    | None => bd_entries s' = 0%N ∨ ∃ n, (bd_deadline s ≤ tree_now n)%Z
    end.
Proof.
  revert seen s. induction entries as [|e es IH]; intros seen s; cbn.
  { exists (Some seen), s. split_and!; [done|reflexivity|done|done|]. by intros ? ?%elem_of_nil. }
  destruct (budget_take_run dir e s) as (b & s1 & E1 & S1 & H1' & Hb).
  erewrite bind_ok by done. destruct b.
  - destruct (IH (see_entry dir marker e seen) s1) as (r & s2 & -> & S2 & H2' & Hr).
    exists r, s2. split_and!; [done|by etrans|congruence|]. destruct r as [seen'|].
    + destruct Hr as [-> Hr]. split; [done|]. intros e' [->|He]%elem_of_cons; [|by apply Hr].
      destruct Hb as [t Ht]. exists t. destruct S2 as [M2 _]. by apply (moves_events _ _ M2).
    + destruct S1 as [[D1 _ _] _]. by rewrite <- D1.
  - exists None, s1. split_and!; [done|done|done|]. destruct Hb as [Hb|Hb]; [left|right; eauto].
    destruct S1 as [M1 _]. apply moves_entries in M1. lia.
Qed.

Lemma traced_listed_steps root depth dir s :
  beneath (se_trace s) root depth dir → root ∈ R → depth ≤ MAX_SEARCH_DEPTH →
  ∃ s', traced (Listed depth dir) s = (Ok tt, s') ∧ steps s s' ∧ bd_entries s' = bd_entries s ∧
    se_hits s' = se_hits s ∧ Listed depth dir ∈ se_trace s'.
Proof.
  intros Hb Hr Hd. eexists. split_and!; [done| |done|done|cbn; set_solver]. split.
  - split; [done|done|]. eexists [_]. split_and!; [done|unfold taken; cbn; lia|].
    intros t d e ?%list_elem_of_singleton. done.
  - assert (Hs : se_trace s ⊆ se_trace s ++ [Listed depth dir]).
    { intros ??. apply elem_of_app. by left. }
    intros [Ls Hi N]. split; cbn; [|intros h Hh; eapply hit_from_mono; [|by apply Hi]; done|done].
    intros k d [Hl|[= -> ->]%list_elem_of_singleton]%elem_of_app.
    + destruct (Ls k d Hl) as (Hk & root' & Hr' & Hb'). split; [done|]. exists root'.
      split; [done|]. by eapply beneath_mono.
    + split; [done|]. exists root. split; [done|]. by eapply beneath_mono.
Qed.

Lemma for_each_run {A} (f : A → M Search unit) (P : Search → Prop) l s :
  (∀ s s', P s → steps s s' → P s') →
  (∀ x s, x ∈ l → P s → ∃ s', f x s = (Ok tt, s') ∧ steps s s') →
  P s → ∃ s', for_each f l s = (Ok tt, s') ∧ steps s s'.
Proof.
  intros Hm. revert s. induction l as [|x l IH]; intros s Hf HP; cbn; [by exists s|].
  destruct (Hf x s) as (s1 & E1 & S1); [apply elem_of_cons; by left|done|].
  erewrite bind_ok by done.
  destruct (IH s1) as (s2 & -> & S2); [|by eapply Hm|exists s2; split; [done|by etrans]].
  intros y s' Hy. apply Hf, elem_of_cons. by right.
Qed.

(** What the walk does once the entries of a directory are known. *)
Definition after_scan (fuel : nat) (dir : string) (depth : nat) (seen : Seen) : M Search unit :=
  when (sn_log_hit seen) (push_hit dir (log_detail marker dir));;
  if sn_data_hit seen then push_hit (data_target marker dir) (data_detail marker dir)
  else for_each (λ subdir, walk fuel subdir (S depth) marker) (sn_subdirs seen).

Lemma push_listed_run path text k dir s :
  Listed k dir ∈ se_trace s → marked (se_trace s) path dir →
  ∃ s', push_hit path text s = (Ok tt, s') ∧ steps s s' ∧ bd_entries s' = bd_entries s.
Proof. intros. apply push_hit_run. eauto. Qed.

Lemma when_push_run (b : bool) k dir s : Listed k dir ∈ se_trace s → (b = true → log_mark (se_trace s) dir) →
  ∃ s', when b (push_hit dir (log_detail marker dir)) s = (Ok tt, s') ∧ steps s s' ∧
    bd_entries s' = bd_entries s.
Proof.
  intros Hl Hm. destruct b; cbn; [|by exists s]. eapply push_listed_run; [done|]. left. auto.
Qed.

Lemma after_scan_run fuel dir depth entries s root :
  (∀ dir depth s, beneath (se_trace s) root depth dir →
     ∃ s', walk fuel dir depth marker s = (Ok tt, s') ∧ steps s s') →
  beneath (se_trace s) root depth dir → Listed depth dir ∈ se_trace s →
  (∀ e, e ∈ entries → ∃ t, Took t dir e ∈ se_trace s) →
  ∃ s', after_scan fuel dir depth (see_all dir entries (mk_seen false false [])) s = (Ok tt, s') ∧
    steps s s'.
Proof.
  intros IH Hb Hl Ht. unfold after_scan. set (seen := see_all _ _ _).
  destruct (entries_marked _ _ _ Ht) as [Hlm Hdm]. fold seen in Hlm, Hdm.
  destruct (when_push_run (sn_log_hit seen) depth dir s Hl Hlm) as (s1 & E1 & S1 & _).
  erewrite bind_ok by done. pose proof (moves_events _ _ (proj1 S1)) as Hs.
  destruct (sn_data_hit seen) eqn:Ehit.
  - destruct (push_listed_run (data_target marker dir) (data_detail marker dir) depth dir s1)
      as (s2 & E2 & S2 & _); [by apply Hs|eapply marked_mono; [exact Hs|right; auto]|]. exists s2. split; [done|by etrans].
  - destruct (for_each_run (λ subdir, walk fuel subdir (S depth) marker)
      (λ s, ∀ d, d ∈ sn_subdirs seen → beneath (se_trace s) root (S depth) d)
      (sn_subdirs seen) s1) as (s2 & E2 & S2).
    + intros s2 s3 HP [M _] d Hd. eapply beneath_mono; [by apply moves_events|auto].
    + intros d s2 Hd HP. apply IH. auto.
    + intros d [Hd|(raw & Hr & ->)]%see_all_subdirs; [by apply elem_of_nil in Hd|].
      destruct (Ht _ Hr) as [t Hin]. eapply beneath_step; [|by apply Hs].
      by eapply beneath_mono.
    + exists s2. split; [done|by etrans].
Qed.

Lemma walk_run root fuel dir depth s :
  root ∈ R → beneath (se_trace s) root depth dir →
  ∃ s', walk fuel dir depth marker s = (Ok tt, s') ∧ steps s s'.
Proof.
  intros Hr. revert dir depth s. induction fuel as [|fuel IH]; intros dir depth s Hb; cbn [walk].
  { by exists s. }
  destruct (exhausted_step s) as (exh & s1 & E1 & S1 & (_ & _ & Hh & T) & _).
  erewrite bind_ok by done. unfold gets at 1. erewrite bind_ok by done.
  destruct (exh || _ || _) eqn:Hstop; [by exists s1|].
  apply orb_false_iff in Hstop as [_ Hd%Nat.ltb_ge].
  assert (Q : ∃ s2, look (λ n, tree_read_dir n dir) s1
    = (Ok (tree_read_dir (se_looks s1) dir), s2) ∧ quiet s1 s2) by by eexists.
  destruct Q as (s2 & E2 & Q2). erewrite bind_ok by done.
  assert (S2 : steps s s2) by by etrans; [|apply quiet_steps].
  destruct (tree_read_dir _ dir) as [entries|]; [|by exists s2].
  destruct (traced_listed_steps root depth dir s2) as (s3 & E3 & S3 & _ & _ & Hl); [|done..|].
  { eapply beneath_mono; [by apply moves_events, S2|done]. }
  erewrite bind_ok by done.
  destruct (scan_entries_run dir entries (mk_seen false false []) s3) as (r & s4 & E4 & S4 & _ & Hsc).
  erewrite bind_ok by done.
  assert (S5 : steps s s4) by (etrans; [exact S2|]; by etrans).
  destruct r as [seen|]; [|by exists s4]. destruct Hsc as [-> Ht].
  destruct (after_scan_run fuel dir depth entries s4 root) as (s5 & E5 & S6); [done| |..|done|].
  - eapply beneath_mono; [by apply moves_events, S5|done].
  - by apply (moves_events _ _ (proj1 S4)).
  - exists s5. split; [exact E5|by etrans].
Qed.

Lemma search_roots_run l s :
  (∀ root, root ∈ l → usable_root (trim root) = true → trim root ∈ R) →
  ∃ s', search_roots marker l s = (Ok tt, s') ∧ steps s s'.
Proof.
  revert s. induction l as [|root l IH]; intros s Hl; cbn [search_roots]; [by exists s|].
  assert (Hl' : ∀ r, r ∈ l → usable_root (trim r) = true → trim r ∈ R).
  { intros r Hr. apply Hl, elem_of_cons. by right. }
  destruct (usable_root (trim root)) eqn:Hu; cbn [negb]; [|by apply IH].
  destruct (walk_run (trim root) walk_fuel (trim root) 0 s) as (s1 & E1 & S1);
    [apply Hl; [apply elem_of_cons; by left|done]|constructor|].
  erewrite bind_ok by done.
  destruct (exhausted_step s1) as (exh & s2 & E2 & S2 & _).
  erewrite bind_ok by done. unfold gets at 1. erewrite bind_ok by done.
  destruct (exh || _); [exists s2; split; [done|by etrans]|].
  destruct (IH s2 Hl') as (s3 & E3 & S3). exists s3. split; [done|]. etrans; [done|by etrans].
Qed.

End Steps.

(** * The recursion ends with the depth *)

Section Fuel.
Context `{Tree}.

Lemma for_each_ext {A} (f g : A → M Search unit) l s :
  (∀ x s, f x s = g x s) → for_each f l s = for_each g l s.
Proof.
  intros Hfg. revert s. induction l as [|x l IH]; intros s; cbn; [done|].
  unfold mbind, M_bind. rewrite Hfg. destruct (g x s) as [[]?]; [by rewrite IH|done].
Qed.

Lemma walk_fuel_indep fuel fuel' dir depth marker s :
  MAX_SEARCH_DEPTH + 1 - depth < fuel → MAX_SEARCH_DEPTH + 1 - depth < fuel' →
  walk fuel dir depth marker s = walk fuel' dir depth marker s.
Proof.
  revert fuel' dir depth s. induction fuel as [|fuel IH]; intros [|fuel'] dir depth s Hf Hf';
    [lia..|]. cbn [walk]. apply bind_ext. intros exh s1. apply bind_ext. intros hits s2.
  destruct (exh || _ || _) eqn:Hstop; [done|].
  apply orb_false_iff in Hstop as [_ Hd%Nat.ltb_ge]. unfold MAX_SEARCH_DEPTH in *.
  apply bind_ext. intros [entries|] s3; [|done]. apply bind_ext. intros [] s4.
  apply bind_ext. intros [seen|] s5; [|done]. apply bind_ext. intros [] s6.
  destruct (sn_data_hit seen); [done|]. apply for_each_ext. intros d s7. apply IH; lia.
Qed.
End Fuel.

(** * The search without its limits

    On a tree that does not change, the directories a search would find if nothing were bounded
    but the depth. *)
Section Found.
Context `{Tree} (marker : Marker).

Definition hit_at (path text : string) : list Hit :=
  match tree_canonicalize 0 path with
  | Some real => if tree_is_dir 0 real then [mk_hit (from_utf8_lossy real) text] else []
  | None => []
  end.

Fixpoint found (levels : nat) (dir : string) : list Hit :=
  match levels with
  | O => []
  | S levels =>
      match tree_read_dir 0 dir with
      | None => []
      | Some entries =>
          let seen := see_all marker dir entries (mk_seen false false []) in
          ((if sn_log_hit seen then hit_at dir (log_detail marker dir) else []) ++
           (if sn_data_hit seen then hit_at (data_target marker dir) (data_detail marker dir)
            else concat (found levels <$> sn_subdirs seen)))%list
      end
  end.

Definition found_below (roots : list string) : list Hit :=
  concat (found (S MAX_SEARCH_DEPTH) <$>
    List.filter usable_root (trim <$> take MAX_SEARCH_ROOTS roots)).

(** Nothing moves while the search runs, and it ends in time. *)
Class Still (deadline : Z) : Prop := {
  still_now : ∀ n, (tree_now n < deadline)%Z;
  still_read_dir : ∀ n dir, tree_read_dir n dir = tree_read_dir 0 dir;
  still_canonicalize : ∀ n p, tree_canonicalize n p = tree_canonicalize 0 p;
  still_is_dir : ∀ n p, tree_is_dir n p = tree_is_dir 0 p;
}.

Definition add_all (hits new : list Hit) : list Hit := foldl (λ hits hit, add_hit hit hits) hits new.

Lemma add_all_app hits new1 new2 : add_all hits (new1 ++ new2) = add_all (add_all hits new1) new2.
Proof. apply foldl_app. Qed.

Lemma add_all_dirs hits new d :
  d ∈ log_dir <$> add_all hits new ↔ d ∈ log_dir <$> hits ∨ d ∈ log_dir <$> new.
Proof.
  revert hits. induction new as [|h new IH]; intros hits; cbn; [set_solver|].
  rewrite IH. pose proof (add_hit_in h hits) as Hin.
  destruct (add_hit_cases h hits) as [Ha|[Ha _]]; rewrite Ha in *; [set_solver|].
  rewrite fmap_app. set_solver.
Qed.

Context (deadline : Z) `{!Still deadline}.

(** The search has room left: entries in its budget and fewer hits than it takes. *)
Definition roomy (s : Search) : Prop :=
  bd_deadline s = deadline ∧ bd_entries s ≠ 0%N ∧ length (se_hits s) < MAX_HITS.

Lemma roomy_before s s' : moves s s' → roomy s' → roomy s.
Proof.
  intros Hm (D & E & L). pose proof (moves_entries _ _ Hm). pose proof (moves_length _ _ Hm).
  destruct Hm as [D' _ _]. split_and!; [congruence|lia|lia].
Qed.

Lemma still_in_time n : ¬ (deadline ≤ tree_now n)%Z.
Proof. pose proof (still_now n). lia. Qed.

Lemma push_hit_still path text s : ∃ s', push_hit path text s = (Ok tt, s') ∧
  se_hits s' = add_all (se_hits s) (hit_at path text).
Proof.
  unfold push_hit, hit_at, set_hits, modify, look, mbind, M_bind. rewrite still_canonicalize.
  destruct (tree_canonicalize 0 path) as [real|]; cbn; [|by eexists].
  rewrite still_is_dir. destruct (tree_is_dir 0 real); by eexists.
Qed.

Lemma when_push_still b path text s : ∃ s', when b (push_hit path text) s = (Ok tt, s') ∧
  se_hits s' = add_all (se_hits s) (if b then hit_at path text else []).
Proof. destruct b; [apply push_hit_still|by exists s]. Qed.

Variable R : list string.

Definition walks_exactly (fuel : nat) (root dir : string) (depth : nat) : Prop :=
  ∀ s, root ∈ R → beneath (se_trace s) root depth dir →
    ∀ s', walk fuel dir depth marker s = (Ok tt, s') → roomy s' →
    se_hits s' = add_all (se_hits s) (found (S MAX_SEARCH_DEPTH - depth) dir).

Lemma for_each_still fuel root depth l s s' :
  (∀ dir, walks_exactly fuel root dir depth) →
  root ∈ R → (∀ d, d ∈ l → beneath (se_trace s) root depth d) →
  for_each (λ subdir, walk fuel subdir depth marker) l s = (Ok tt, s') → roomy s' →
  se_hits s' = add_all (se_hits s) (concat (found (S MAX_SEARCH_DEPTH - depth) <$> l)).
Proof.
  intros Hw Hr. revert s. induction l as [|d l IH]; intros s Hb; cbn [for_each].
  { by intros [= <-]. }
  destruct (walk_run marker R root fuel d depth s Hr) as (s1 & E1 & [M1 _]);
    [apply Hb, elem_of_cons; by left|]. erewrite bind_ok by done. intros E Hs'.
  assert (Hb1 : ∀ d, d ∈ l → beneath (se_trace s1) root depth d).
  { intros d' Hd'. eapply beneath_mono; [by apply moves_events|]. apply Hb, elem_of_cons. by right. }
  destruct (for_each_run marker R (λ subdir, walk fuel subdir depth marker)
    (λ s, ∀ d, d ∈ l → beneath (se_trace s) root depth d) l s1) as (s2 & E2 & [M2 _]).
  - intros s3 s4 HP [M _] d' Hd'. eapply beneath_mono; [by apply moves_events|auto].
  - intros d' s3 Hd' HP. apply walk_run with root; auto.
  - done.
  - rewrite E in E2. injection E2 as ->. rewrite (IH s1 Hb1 E Hs'). cbn.
    rewrite add_all_app. f_equal. eapply Hw; [done|apply Hb, elem_of_cons; by left|done|].
    by eapply roomy_before.
Qed.

Lemma roomy_continues s exh s1 depth :
  exhausted s = (Ok exh, s1) → roomy s → depth ≤ MAX_SEARCH_DEPTH →
  (exh || Nat.leb MAX_HITS (length (se_hits s)) || Nat.ltb MAX_SEARCH_DEPTH depth) = false.
Proof.
  intros E (D & En & L) Hd. destruct (exhausted_run s) as (b & s2 & E2 & _ & Hb).
  rewrite E in E2. injection E2 as -> ->. apply orb_false_iff. split.
  - apply orb_false_iff. split; [|by apply Nat.leb_gt]. apply not_true_iff_false. intros ->.
    destruct Hb as [Hb _]. destruct Hb as [?|[Hd' _]]; [done|done|].
    rewrite D in Hd'. by apply still_in_time in Hd'.
  - by apply Nat.ltb_ge.
Qed.

(** The rest of a walk, once the entries of its directory are known. *)
Lemma after_scan_still root fuel dir depth entries s s' :
  let seen := see_all marker dir entries (mk_seen false false []) in
  (∀ dir, walks_exactly fuel root dir (S depth)) → root ∈ R →
  beneath (se_trace s) root depth dir → Listed depth dir ∈ se_trace s →
  (∀ e, e ∈ entries → ∃ t, Took t dir e ∈ se_trace s) →
  after_scan marker fuel dir depth seen s = (Ok tt, s') → roomy s' →
  se_hits s' = add_all (se_hits s)
    ((if sn_log_hit seen then hit_at dir (log_detail marker dir) else []) ++
     (if sn_data_hit seen then hit_at (data_target marker dir) (data_detail marker dir)
      else concat (found (MAX_SEARCH_DEPTH - depth) <$> sn_subdirs seen)))%list.
Proof.
  intros seen Hw Hr Hb Hl Ht E Hs'. unfold after_scan in E.
  destruct (when_push_still (sn_log_hit seen) dir (log_detail marker dir) s) as (s1 & E1 & H1').
  destruct (when_push_run marker R (sn_log_hit seen) depth dir s Hl (proj1 (entries_marked marker _ _ _ Ht))) as (s1' & E1' & [M1 _] & _).
  rewrite E1 in E1'. injection E1' as <-. erewrite bind_ok in E by done.
  rewrite add_all_app, <- H1'. destruct (sn_data_hit seen).
  - destruct (push_hit_still (data_target marker dir) (data_detail marker dir) s1) as (s2 & E2 & H2').
    rewrite E in E2. by injection E2 as <-.
  - change (MAX_SEARCH_DEPTH - depth) with (S MAX_SEARCH_DEPTH - S depth).
    eapply for_each_still; [exact Hw|done| |exact E|done].
    intros d [Hd|(raw & Hin & ->)]%see_all_subdirs; [by apply elem_of_nil in Hd|].
    destruct (Ht _ Hin) as [t Htook]. pose proof (moves_events _ _ M1) as Hsub.
    eapply beneath_step; [|by apply Hsub]. by eapply beneath_mono.
Qed.

Lemma walk_still root fuel dir depth :
  MAX_SEARCH_DEPTH + 1 - depth < fuel → walks_exactly fuel root dir depth.
Proof.
  revert dir depth. induction fuel as [|fuel IH]; intros dir depth Hf; [lia|].
  intros s Hr Hb s' E Hs'.
  destruct (walk_run marker R root (S fuel) dir depth s Hr Hb) as (s'' & E0 & [M0 _]).
  rewrite E in E0. injection E0 as <-. pose proof (roomy_before _ _ M0 Hs') as Hs.
  cbn [walk] in E.
  destruct (exhausted_step marker R s) as (exh & s1 & E1 & [M1 _] & (Qe & Qd & Qh & Qt) & _).
  erewrite bind_ok in E by done. unfold gets at 1 in E. erewrite bind_ok in E by done.
  rewrite Qh in E. destruct (decide (depth ≤ MAX_SEARCH_DEPTH)) as [Hd|Hd].
  2:{ rewrite (proj2 (Nat.ltb_lt _ _)), orb_true_r in E by lia. injection E as <-.
      replace (S MAX_SEARCH_DEPTH - depth) with 0 by lia. done. }
  rewrite (roomy_continues s exh s1 depth E1 Hs Hd) in E.
  replace (S MAX_SEARCH_DEPTH - depth) with (S (MAX_SEARCH_DEPTH - depth)) by lia. cbn [found].
  unfold look at 1 in E. erewrite bind_ok in E by done. rewrite still_read_dir in E.
  destruct (tree_read_dir 0 dir) as [entries|].
  2:{ injection E as <-. exact Qh. }
  match type of E with _ ?x = _ => set (s2 := x) in E end.
  destruct (traced_listed_steps marker R root depth dir s2) as (s3 & E3 & [M3 _] & _ & Hh3 & Hl);
    [by cbn; rewrite Qt|done..|]. erewrite bind_ok in E by done.
  destruct (scan_entries_run marker R dir entries (mk_seen false false []) s3)
    as (r & s4 & E4 & [M4 _] & Hh4 & Hsc). erewrite bind_ok in E by done.
  destruct r as [seen|].
  2:{ injection E as <-. destruct Hs' as (D & En & _). destruct Hsc as [Hsc|[n Hn]]; [done|].
      rewrite <- (mv_deadline _ _ M4), D in Hn. by apply still_in_time in Hn. }
  destruct Hsc as [-> Ht].
  assert (Hev : se_trace s ⊆ se_trace s4).
  { intros e He. apply (moves_events _ _ M4), (moves_events _ _ M3). cbn. by rewrite Qt. }
  erewrite (after_scan_still root fuel dir depth entries s4 s'); [|..|exact E|done].
  - by rewrite Hh4, Hh3; cbn; rewrite Qh.
  - intros d. apply IH. unfold MAX_SEARCH_DEPTH in *. lia.
  - done.
  - by eapply beneath_mono.
  - by apply (moves_events _ _ M4).
  - done.
Qed.

Lemma search_roots_still l s s' :
  (∀ root, root ∈ l → usable_root (trim root) = true → trim root ∈ R) →
  search_roots marker l s = (Ok tt, s') → roomy s' →
  se_hits s' = add_all (se_hits s)
    (concat (found (S MAX_SEARCH_DEPTH) <$> List.filter usable_root (trim <$> l))).
Proof.
  revert s. induction l as [|root l IH]; intros s Hl; cbn [search_roots]; [by intros [= <-]|].
  assert (Hl' : ∀ r, r ∈ l → usable_root (trim r) = true → trim r ∈ R).
  { intros r Hr. apply Hl, elem_of_cons. by right. }
  rewrite fmap_cons. cbn [List.filter].
  destruct (usable_root (trim root)) eqn:Hu; cbn [negb]; [|by apply IH].
  rewrite fmap_cons. cbn [concat].
  assert (HR : trim root ∈ R) by (apply Hl; [apply elem_of_cons; by left|done]).
  destruct (walk_run marker R (trim root) walk_fuel (trim root) 0 s HR) as (s1 & E1 & [M1 _]);
    [constructor|]. erewrite bind_ok by done.
  destruct (exhausted_step marker R s1) as (exh & s2 & E2 & _ & Q2 & _).
  erewrite bind_ok by done. unfold gets at 1. erewrite bind_ok by done. intros E Hs'.
  assert (M2 : moves s2 s').
  { destruct (exh || _); [by injection E as <-|].
    destruct (search_roots_run marker R l s2 Hl') as (s3 & E3 & [M3 _]).
    rewrite E in E3. by injection E3 as <-. }
  pose proof (roomy_before _ _ M2 Hs') as Hs2.
  pose proof (roomy_before _ _ (quiet_moves _ _ Q2) Hs2) as Hs1.
  pose proof (roomy_continues s1 exh s2 0 E2 Hs1 ltac:(lia)) as Hgo.
  destruct Q2 as (_ & _ & Qh & _). rewrite Qh in E.
  apply orb_false_iff in Hgo as [Hgo _]. rewrite Hgo in E.
  rewrite (IH s2 Hl' E Hs'), add_all_app, Qh. f_equal.
  assert (W : walks_exactly walk_fuel (trim root) (trim root) 0).
  { apply walk_still. unfold walk_fuel, MAX_SEARCH_DEPTH. lia. }
  exact (W s HR (beneath_root _ _) s1 E1 Hs1).
Qed.
End Found.

(** * How much a search does *)

Definition listings (evs : list SearchEvent) : list SearchEvent :=
  List.filter (λ e, match e with Listed _ _ => true | Took _ _ _ => false end) evs.

(** At most [n] directories more than entries taken were listed between two states. *)
Definition costs (n : nat) (s s' : Search) : Prop := ∃ evs,
  se_trace s' = (se_trace s ++ evs)%list ∧ length (listings evs) ≤ n + length (taken evs).

Lemma costs_refl s : costs 0 s s.
Proof. exists []. by rewrite (right_id_L [] (++)). Qed.

Lemma costs_weaken n m s s' : costs n s s' → n ≤ m → costs m s s'.
Proof. intros (evs & T & L) ?. exists evs. split; [done|lia]. Qed.

Lemma costs_trans n m s1 s2 s3 : costs n s1 s2 → costs m s2 s3 → costs (n + m) s1 s3.
Proof.
  intros (e1 & T1 & L1) (e2 & T2 & L2). exists (e1 ++ e2)%list. split.
  - by rewrite T2, T1, (assoc_L (++)).
  - unfold listings in *. rewrite List.filter_app, taken_app, !length_app. lia.
Qed.

Lemma costs_same s s' : se_trace s' = se_trace s → costs 0 s s'.
Proof. intros E. exists []. by rewrite E, (right_id_L [] (++)). Qed.

Section Cost.
Context `{Tree} (marker : Marker).

Lemma exhausted_cost s r s' : exhausted s = (r, s') → costs 0 s s'.
Proof.
  destruct (exhausted_run s) as (b & s1 & -> & (_ & _ & _ & T) & _). intros [= _ <-].
  by apply costs_same.
Qed.

Lemma push_hit_cost path text s r s' : push_hit path text s = (r, s') → costs 0 s s'.
Proof.
  unfold push_hit, set_hits, modify, look, mbind, M_bind.
  destruct (tree_canonicalize _ path) as [real|]; cbn; [|intros [= _ <-]; by apply costs_same].
  destruct (tree_is_dir _ real); cbn; intros [= _ <-]; by apply costs_same.
Qed.

(** Every subdirectory that is found has been paid for by its entry. *)
Lemma scan_entries_cost dir entries seen s r s' :
  scan_entries dir marker entries seen s = (Ok r, s') → ∃ evs,
    se_trace s' = (se_trace s ++ evs)%list ∧ listings evs = [] ∧
    match r with
    | Some seen' => length (sn_subdirs seen') ≤ length (sn_subdirs seen) + length (taken evs)
    | None => True
    end.
Proof.
  revert seen s. induction entries as [|e es IH]; intros seen s; cbn [scan_entries].
  { intros [= <- <-]. exists []. rewrite (right_id_L [] (++)). split_and!; [done|done|cbn; lia]. }
  unfold budget_take, spend, traced, modify, look, gets, mbind, M_bind.
  destruct (N.eqb _ 0); cbn; [intros [= <- <-]; exists []; by rewrite (right_id_L [] (++))|].
  destruct (Z.leb _ _); cbn; [intros [= <- <-]; exists []; by rewrite (right_id_L [] (++))|].
  cbn. intros (evs & T & L & Hr)%IH. cbn in T. exists (Took (tree_now (se_looks s)) dir e :: evs).
  rewrite T, <- (assoc_L (++)). split_and!; [done|done|]. destruct r as [seen'|]; [|done].
  rewrite taken_took. cbn [length]. assert (length (sn_subdirs (see_entry dir marker e seen)) ≤ S (length (sn_subdirs seen))).
  { destruct e as [[raw [[]|]]|]; cbn; rewrite ?length_app; cbn; lia. }
  lia.
Qed.

Lemma for_each_cost {A} (f : A → M Search unit) l s r s' :
  (∀ x s r s', f x s = (r, s') → costs 1 s s') →
  for_each f l s = (r, s') → costs (length l) s s'.
Proof.
  intros Hf. revert s. induction l as [|x l IH]; intros s; cbn; [intros [= _ <-]; apply costs_refl|].
  intros Hr. apply bind_inv in Hr as [(e & E1 & _)|([] & s1 & E1 & E2)].
  - eapply costs_weaken; [by eapply Hf|lia].
  - apply (costs_trans 1 (length l) s s1 s'); [by eapply Hf|by apply IH].
Qed.

(** [walk] cannot fail, so its result is always [Ok]; what it costs is one listing beyond the
    entries it took. *)
Lemma walk_cost fuel dir depth s r s' : walk fuel dir depth marker s = (r, s') → costs 1 s s'.
Proof.
  revert dir depth s r s'. induction fuel as [|fuel IH]; intros dir depth s r s'; cbn [walk].
  { intros [= _ <-]. by eapply costs_weaken; [apply costs_refl|lia]. }
  destruct (exhausted_run s) as (exh & s1 & E1 & (_ & _ & _ & T1) & _).
  erewrite bind_ok by done. unfold gets at 1. erewrite bind_ok by done.
  assert (C1 : costs 1 s s1) by (eapply costs_weaken; [by apply costs_same|lia]).
  destruct (exh || _ || _); [by intros [= _ <-]|].
  unfold look at 1. erewrite bind_ok by done.
  destruct (tree_read_dir _ dir) as [entries|].
  2:{ intros [= _ <-]. destruct C1 as (evs & T & L). by exists evs. }
  unfold traced, modify at 1. erewrite bind_ok by done.
  match goal with |- _ ?x = _ → _ => set (s2 := x) end.
  destruct (scan_entries_run marker [] dir entries (mk_seen false false []) s2)
    as (r3 & s3 & E3 & _). erewrite bind_ok by done.
  apply scan_entries_cost in E3 as (evs & T3 & L3 & Hr). cbn in T3. rewrite T1 in T3.
  assert (C3 : ∀ n, n ≤ length (taken evs) → ∀ s4, costs n s3 s4 → costs 1 s s4).
  { intros n Hn s4 (evs4 & T4 & L4). exists (Listed depth dir :: evs ++ evs4)%list. split.
    - rewrite T4, T3. by rewrite <- !(assoc_L (++)).
    - rewrite taken_listed, taken_app, length_app. unfold listings in *. cbn.
      rewrite List.filter_app, L3. cbn. lia. }
  destruct r3 as [seen|]; [|intros [= _ <-]; apply (C3 0); [lia|apply costs_refl]].
  cbn in Hr. intros Hw. apply bind_inv in Hw as [(e & E4 & _)|([] & s4 & E4 & Hw)].
  { destruct (sn_log_hit seen); cbn in E4; [|done]. apply push_hit_cost in E4. by apply (C3 0); [lia|]. }
  assert (C4 : costs 0 s3 s4).
  { destruct (sn_log_hit seen); cbn in E4; [by apply push_hit_cost in E4|].
    injection E4 as <-. apply costs_refl. }
  destruct (sn_data_hit seen).
  - apply push_hit_cost in Hw. apply (C3 0); [lia|]. by apply (costs_trans 0 0 s3 s4).
  - apply (C3 (length (sn_subdirs seen))); [lia|].
    apply (costs_trans 0 _ s3 s4); [done|]. apply for_each_cost in Hw; [done|]. eauto.
Qed.

Lemma search_roots_cost l s r s' : search_roots marker l s = (r, s') → costs (length l) s s'.
Proof.
  revert s r s'. induction l as [|root l IH]; intros s r s'; cbn [search_roots].
  { intros [= _ <-]. apply costs_refl. }
  destruct (negb _). { intros ?%IH. by eapply costs_weaken; [done|cbn; lia]. }
  intros Hr. apply bind_inv in Hr as [(e & E1 & _)|([] & s1 & E1 & Hr)].
  { apply walk_cost in E1. eapply costs_weaken; [done|cbn; lia]. }
  apply walk_cost in E1. destruct (exhausted_run s1) as (exh & s2 & E2 & _).
  pose proof (exhausted_cost _ _ _ E2) as C2. erewrite bind_ok in Hr by done.
  unfold gets at 1 in Hr. erewrite bind_ok in Hr by done.
  pose proof (costs_trans 1 0 _ _ _ E1 C2) as C.
  destruct (exh || _).
  - injection Hr as _ <-. by eapply costs_weaken; [done|cbn; lia].
  - apply IH in Hr. by apply (costs_trans 1 (length l) s s2 s').
Qed.
End Cost.

(** * The hits that are returned *)

Lemma dedup_after_id h hits :
  NoDup (log_dir <$> h :: hits) → dedup_after h hits = hits.
Proof.
  revert h. induction hits as [|h' hits IH]; intros h; cbn; [done|].
  intros [Hn Hd]%NoDup_cons. rewrite eqb_ne.
  - f_equal. by apply IH.
  - intros E. apply Hn. rewrite E. apply elem_of_cons. by left.
Qed.

Lemma dedup_hits_id hits : NoDup (log_dir <$> hits) → dedup_hits hits = hits.
Proof. destruct hits as [|h hits]; [done|]. intros Hd. cbn. by rewrite dedup_after_id. Qed.

#[export] Instance hit_le_total : Total hit_le.
Proof.
  intros a b. unfold hit_le. rewrite (compare_swap (log_dir b)).
  destruct (String.compare (log_dir a) (log_dir b)); cbn; naive_solver.
Qed.

#[export] Instance hit_le_trans : Transitive hit_le.
Proof.
  assert (Hle : ∀ a b, hit_le a b ↔ str_lt (log_dir a) (log_dir b) ∨ log_dir a = log_dir b).
  { intros a b. unfold hit_le, str_lt. destruct (String.compare _ _) eqn:E.
    - apply String.compare_eq_iff in E. naive_solver.
    - naive_solver.
    - split; [done|]. intros [?|Ee]; [done|]. rewrite Ee, compare_refl in E. done. }
  intros a b c. rewrite !Hle. intros [H1'|H1'] [H2'|H2'].
  - left. by eapply str_lt_trans.
  - left. congruence.
  - left. congruence.
  - right. congruence.
Qed.

Lemma finish_hits_sort hits : NoDup (log_dir <$> hits) →
  finish_hits hits = take MAX_HITS (merge_sort hit_le hits).
Proof.
  intros Hd. unfold finish_hits. rewrite dedup_hits_id; [done|].
  by rewrite (merge_sort_Permutation hit_le hits).
Qed.

Lemma finish_hits_in hits h : NoDup (log_dir <$> hits) → h ∈ finish_hits hits → h ∈ hits.
Proof.
  intros Hd. rewrite finish_hits_sort by done. intros Hh.
  rewrite <- (merge_sort_Permutation hit_le hits), <- (take_drop MAX_HITS (merge_sort _ _)).
  apply elem_of_app. by left.
Qed.

Lemma finish_hits_all hits h : NoDup (log_dir <$> hits) → length hits ≤ MAX_HITS →
  h ∈ finish_hits hits ↔ h ∈ hits.
Proof.
  intros Hd Hl. rewrite finish_hits_sort, take_ge by
    (rewrite ?(Permutation_length (merge_sort_Permutation hit_le hits)); done).
  by rewrite (merge_sort_Permutation hit_le hits).
Qed.

Lemma finish_hits_sorted hits : NoDup (log_dir <$> hits) →
  StronglySorted hit_le (finish_hits hits) ∧ NoDup (log_dir <$> finish_hits hits) ∧
  length (finish_hits hits) ≤ MAX_HITS.
Proof.
  intros Hd. rewrite finish_hits_sort by done. split_and!.
  - pose proof (StronglySorted_merge_sort hit_le hits) as Hs.
    rewrite <- (take_drop MAX_HITS (merge_sort hit_le hits)) in Hs.
    by apply StronglySorted_app in Hs as (_ & ? & _).
  - rewrite <- (merge_sort_Permutation hit_le hits) in Hd.
    rewrite <- (take_drop MAX_HITS (merge_sort hit_le hits)), fmap_app in Hd.
    by apply NoDup_app in Hd as (? & _).
  - rewrite length_take. lia.
Qed.

(** * Claims *)

Definition marker_for (service : string) : option Marker :=
  find_first (λ m, String.eqb (mk_service m) service) MARKERS.

Definition search_scope (roots : list string) : list string :=
  List.filter usable_root (trim <$> take MAX_SEARCH_ROOTS roots).

Lemma search_scope_in roots root :
  root ∈ search_scope roots ↔
  ∃ r, r ∈ take MAX_SEARCH_ROOTS roots ∧ root = trim r ∧ usable_root root = true.
Proof.
  unfold search_scope. rewrite list_elem_of_In, filter_In, <- list_elem_of_In, list_elem_of_fmap.
  naive_solver.
Qed.

Section Claims.
Context `{Tree}.

Lemma search_run service roots looks marker : marker_for service = Some marker →
  ∃ s, search service roots looks = (finish_hits (se_hits s), s) ∧
    let s0 := mk_search MAX_SEARCH_ENTRIES (tree_now looks + MAX_SEARCH_DURATION) [] (S looks) [] in
    search_roots marker (take MAX_SEARCH_ROOTS roots) s0 = (Ok tt, s) ∧
    steps marker (search_scope roots) s0 s ∧ sound marker (search_scope roots) s.
Proof.
  intros Hm. unfold search, search_with, budget_new. fold (marker_for service). rewrite Hm. cbn [bd_entries
    bd_deadline se_looks se_trace].
  destruct (search_roots_run marker (search_scope roots) (take MAX_SEARCH_ROOTS roots)
    (mk_search MAX_SEARCH_ENTRIES (tree_now looks + MAX_SEARCH_DURATION) [] (S looks) []))
    as (s & E & S1).
  { intros root Hr Hu. apply search_scope_in. eauto. }
  exists s. rewrite E. split_and!; [done|done|done|]. apply S1. split; cbn; [| |constructor];
    by intros * ?%elem_of_nil.
Qed.

(** C27. The search stays where it is allowed: every directory it lists is at most four steps
    below one of the first eight roots, none of which is relative or the root of the file
    system, and each step is an entry the system reported to be a real directory, so that no
    symbolic link is entered; every hit is the real path of such a directory, or of the log
    directory of one that holds the marks of the service; at most four hits are returned, in
    order and none twice. *)
Theorem search_stays_below_roots service roots looks marker :
  marker_for service = Some marker →
  let '(hits, s) := search service roots looks in
  (∀ k dir, Listed k dir ∈ se_trace s → k ≤ MAX_SEARCH_DEPTH ∧
     ∃ root, root ∈ take MAX_SEARCH_ROOTS roots ∧ usable_root (trim root) = true ∧
       beneath (se_trace s) (trim root) k dir) ∧
  (∀ h, h ∈ hits → hit_from marker (se_trace s) h) ∧
  StronglySorted hit_le hits ∧ NoDup (log_dir <$> hits) ∧ length hits ≤ MAX_HITS.
Proof.
  intros Hm. destruct (search_run service roots looks marker Hm) as (s & -> & _ & _ & [L Hi N]).
  split_and!.
  - intros k dir (Hk & root & (r & Hr & -> & Hu)%search_scope_in & Hb)%L. eauto 6.
  - intros h Hh%finish_hits_in; auto.
  - by apply finish_hits_sorted.
  - by apply finish_hits_sorted.
  - by apply finish_hits_sorted.
Qed.

(** A search ends, and soon: at most 2000 entries are looked at, each before the deadline set
    when the search began, at most eight directories more than entries are listed, and the
    recursion is bounded by the depth alone. *)
Theorem search_work_bounded service roots looks :
  let s := (search service roots looks).2 in
  (N.of_nat (length (taken (se_trace s))) ≤ MAX_SEARCH_ENTRIES)%N ∧
  (∀ t dir e, Took t dir e ∈ se_trace s → (t < tree_now looks + MAX_SEARCH_DURATION)%Z) ∧
  length (listings (se_trace s)) ≤ MAX_SEARCH_ROOTS + length (taken (se_trace s)) ∧
  ∀ extra dir marker s0, walk (walk_fuel + extra) dir 0 marker s0 = walk walk_fuel dir 0 marker s0.
Proof.
  cbn zeta. assert (Hfuel : ∀ extra dir marker s0,
    walk (walk_fuel + extra) dir 0 marker s0 = walk walk_fuel dir 0 marker s0).
  { intros. apply walk_fuel_indep; unfold walk_fuel, MAX_SEARCH_DEPTH; lia. }
  destruct (marker_for service) as [marker|] eqn:Hm.
  - destruct (search_run service roots looks marker Hm) as (s & -> & E & [[_ _ (evs & T & L & B)] _] & _).
    cbn [snd]. cbn in T, L, B. subst evs. split_and!; [lia|exact B| |exact Hfuel].
    apply search_roots_cost in E as (evs & T & C). cbn in T. subst evs.
    rewrite length_take in C. lia.
  - unfold search, search_with. fold (marker_for service). rewrite Hm. cbn.
    split_and!; [unfold taken; cbn; lia|by intros * ?%elem_of_nil|lia|exact Hfuel].
Qed.

(** Within its limits the search is exhaustive: on a tree that does not change, when it ends in
    time with entries left in its budget and with fewer than four hits, it returns exactly the
    directories a search bounded by the depth alone finds below the roots. *)
Theorem search_exact service roots looks marker
    `{!Still (tree_now looks + MAX_SEARCH_DURATION)} :
  marker_for service = Some marker →
  let '(hits, s) := search service roots looks in
  bd_entries s ≠ 0%N → length (se_hits s) < MAX_HITS →
  ∀ d, d ∈ log_dir <$> hits ↔ d ∈ log_dir <$> found_below marker roots.
Proof.
  intros Hm. destruct (search_run service roots looks marker Hm) as (s & -> & E & [M _] & [L Hi N]).
  intros He Hl d.
  assert (Hs : roomy (tree_now looks + MAX_SEARCH_DURATION) s).
  { split_and!; [apply (mv_deadline _ _ M)|done|done]. }
  apply (search_roots_still marker _ (search_scope roots)) in E;
    [|intros root Hr Hu; apply search_scope_in; eauto|done].
  cbn [se_hits] in E. transitivity (d ∈ log_dir <$> se_hits s).
  - rewrite !list_elem_of_fmap. split; intros (h & -> & Hh); exists h; (split; [done|]);
      apply (finish_hits_all (se_hits s)); [done|lia|done|done|lia|done].
  - rewrite E, add_all_dirs. unfold found_below. split; [|by right].
    intros [Hd|Hd]; [by apply elem_of_nil in Hd|done].
Qed.
End Claims.

(** * A concrete tree *)
Module ConcreteSearch.
Definition dir_entry (name : string) : option DirEntry := Some (mk_dir_entry name (Some Directory)).
Definition file_entry (name : string) : option DirEntry := Some (mk_dir_entry name (Some RegularFile)).
Definition link_entry (name : string) : option DirEntry := Some (mk_dir_entry name (Some Symlink)).

(** A database below /srv whose log directory is a link to /var/log/pg, a second one that only a
    link leads to, and the directories /opt and / beside it. *)
Definition listing (dir : string) : option (list (option DirEntry)) :=
  if String.eqb dir "/srv" then Some [link_entry "old"; dir_entry "db"; None; file_entry "notes.log"]
  else if String.eqb dir "/srv/db" then
    Some [file_entry "PG_VERSION"; dir_entry "base"; link_entry "log"]
  else if String.eqb dir "/srv/old" then Some [file_entry "PG_VERSION"; dir_entry "log"]
  else if String.eqb dir "/." then Some [dir_entry "srv"; dir_entry "opt"]
  else if String.eqb dir "/./srv" then Some [dir_entry "db"]
  else if String.eqb dir "/./srv/db" then Some [file_entry "PG_VERSION"; link_entry "log"]
  else None.

#[export] Instance toy_tree : Tree := {|
  tree_now _ := 1000%Z;
  tree_read_dir _ := listing;
  tree_canonicalize _ path :=
    if String.eqb path "/srv/db/log" || String.eqb path "/./srv/db/log" then Some "/var/log/pg"
    else Some path;
  tree_is_dir _ real := negb (ends_with ".log" real);
  to_lowercase s := s;
|}.

#[export] Instance toy_still : Still (tree_now 0 + MAX_SEARCH_DURATION).
Proof. by split. Qed.

Definition pg : Marker := mk_marker "postgresql" ["PG_VERSION"] "log"
  [("postgresql-", ".log"); ("postgresql-", ".csv")].

Example toy_search :
  log_dir <$> (search "postgresql" [" /srv "; "relative"; "/"] 0).1 = ["/var/log/pg"].
Proof. vm_compute. reflexivity. Qed.

(** The log directory of a data directory is resolved even if it is a symbolic link, so a hit can
    lie outside every root. *)
Example hit_outside_roots : ∃ h,
  (search "postgresql" ["/srv"] 0).1 = [h] ∧ starts_with "/srv" (log_dir h) = false.
Proof. eexists. split; vm_compute; reflexivity. Qed.

Lemma search_stays_below_roots_witness :
  let '(hits, s) := search "postgresql" ["/srv"; "/"] 0 in
  (∀ k dir, Listed k dir ∈ se_trace s → k ≤ MAX_SEARCH_DEPTH ∧
     ∃ root, root ∈ take MAX_SEARCH_ROOTS ["/srv"; "/"] ∧ usable_root (trim root) = true ∧
       beneath (se_trace s) (trim root) k dir) ∧
  (∀ h, h ∈ hits → hit_from pg (se_trace s) h) ∧
  StronglySorted hit_le hits ∧ NoDup (log_dir <$> hits) ∧ length hits ≤ MAX_HITS.
Proof. apply (search_stays_below_roots "postgresql" ["/srv"; "/"] 0 pg). reflexivity. Defined.

Lemma search_exact_witness :
  "/var/log/pg" ∈ log_dir <$> (search "postgresql" ["/srv"] 0).1.
Proof.
  pose proof (search_exact "postgresql" ["/srv"] 0 pg eq_refl) as Hx.
  apply Hx; [vm_compute; discriminate|vm_compute; lia|].
  vm_compute. apply elem_of_cons. by left.
Defined.
End ConcreteSearch.
