(* ===== verification/Policies.v ===== *)
(** The policies the gateway hands out beside granted work: whether the agent may send to the data
    plane (control/uplink.rs), how often it sends raw discovery snapshots
    (control/discovery_snapshot.rs), and where it may search for logs
    (control/source_search_policy.rs), with the three throttled refreshes of runtime/daemon.rs.
    The HTTP exchange is a parameter; what is sent, how every status is read, and what each answer
    does to the policy in memory and to the file on disk are as in the code. *)
From S2P Require Import Prelude Text Host BTree Fmt Throttle Search.
From stdpp Require Import pretty.

(** * The exchange with the gateway *)

(** The types of wist_api, with the fields the agent fills in or reads. *)
Record AgentUplinkGrant := mk_uplink_grant {
  ug_enabled : bool;
  ug_host : option string;
  ug_port : option Z;
  ug_granted_at : string;
}.

Record DiscoverySnapshotGrant := mk_snapshot_grant {
  sg_enabled : bool;
  sg_interval_seconds : Z;
  sg_source : string;
  sg_granted_at : string;
}.

Record AppliedDiscoverySnapshot := mk_applied_snapshot {
  ad_enabled : bool;
  ad_interval_seconds : Z;
  ad_source : string;
}.

(** The three requests; each carries the version of the interface and its kind. *)
Record PollAgentUplink := mk_poll_uplink {
  pu_agent_id : string;
  pu_instance_id : string;
  pu_requested_at : string;
}.

Record PollDiscoverySnapshot := mk_poll_snapshot {
  ps_agent_id : string;
  ps_instance_id : string;
  ps_requested_at : string;
  ps_applied : option AppliedDiscoverySnapshot;
}.

Record PollSourceSearch := mk_poll_search {
  pr_api_version : string;
  pr_kind : string;
  pr_agent_id : string;
  pr_instance_id : string;
  pr_requested_at : string;
}.

Inductive PolicyRequest :=
| RequestUplink (r : PollAgentUplink)
| RequestSnapshot (r : PollDiscoverySnapshot)
| RequestSearch (r : PollSourceSearch).

(** [control::source_search_policy::Returned] and its rows. *)
Record ServiceRow := mk_service_row { sr_service : string; sr_roots : list string }.

Record Returned := mk_returned {
  rt_api_version : string;
  rt_kind : string;
  rt_catalog_version : Z;
  rt_services : list ServiceRow;
  rt_returned_at : string;
}.

(** What an attempt to reach the gateway came to: no client could be built, the request failed,
    or a response with its status and its body, unless the body could not be read. *)
Inductive Exchange :=
| NoClient (err : string)
| Unreachable (err : string)
| Responded (status : Z) (body : string + string).

(** wist_api, serde_json and reqwest, as far as the policies use them. *)
Class PolicyApi := {
  API_VERSION_V1 : string;
  APPLIED_SOURCE_CONTROL_PLANE : string;
  APPLIED_SOURCE_LOCAL_CONFIG : string;
  (** [AgentUplinkGrant::target] and [AgentUplinkGrant::standby]. *)
  target : AgentUplinkGrant → option (string * Z);
  standby : string → AgentUplinkGrant;
  (** How a status is displayed. *)
  display_status : Z → string;
  (** A body as a value, or the text of the error. *)
  decode_uplink_grant : string → string + AgentUplinkGrant;
  decode_snapshot_grant : string → string + DiscoverySnapshotGrant;
  decode_returned : string → string + Returned;
}.

(** What wist_api documents of a grant on standby: switched off, with no target. *)
Class PolicyApiLaws `{PolicyApi} : Prop := {
  standby_enabled : ∀ t, ug_enabled (standby t) = false;
  standby_host : ∀ t, ug_host (standby t) = None;
  standby_port : ∀ t, ug_port (standby t) = None;
}.

(** What happened, in order: each request with the instant it was made at, each line logged. *)
Inductive PolicyEvent :=
| Asked (at_ : Z) (url : string) (request : PolicyRequest) (answer : Exchange)
| Logged (line : string).

(** The gateway answers what it likes, knowing what was asked so far, and takes its time. *)
Class PolicyGateway `{Os} := {
  exchange : string → PolicyRequest → list PolicyEvent → World → Exchange;
  exchange_takes : string → PolicyRequest → list PolicyEvent → World → N;
}.

(** The parts of the configuration that are read here. *)
Record PolicyConfig := mk_policy_config {
  pc_endpoint : option string;
  pc_agent_id : option string;
  pc_instance_name : option string;
  pc_state_dir : string;
  pc_snapshot_uplink_enabled : bool;
  pc_snapshot_uplink_interval_seconds : Z;
}.

Definition is_success (status : Z) : bool := Z.leb 200 status && Z.ltb status 300.
Definition NO_CONTENT : Z := 204.
Definition UNAUTHORIZED : Z := 401.
Definition FORBIDDEN : Z := 403.
Definition NOT_FOUND : Z := 404.

(** [response.json()]: the body has to be there and to decode. *)
Definition json_of {A} (decode : string → string + A) (body : string + string) : string + A :=
  match body with inl err => inl err | inr text => decode text end.

(** ** control/enrollment.rs *)

Definition TERMINAL_AUTH_CODES : list string := ["certificate_revoked"; "certificate_mismatch"].

Definition auth_rejection_code (body : string) : option string :=
  find_first (λ code, contains code body) TERMINAL_AUTH_CODES.

(** * control/uplink.rs *)

Inductive UplinkFetch :=
| UplinkGranted (grant : AgentUplinkGrant)
| UplinkNotDispatched
| UplinkFailed (signature : string)
| CredentialRejected (signature : string).

Record AppliedUplink := mk_applied_uplink {
  au_grant : option AgentUplinkGrant;
  au_last_failure : option string;
}.
Definition applied_uplink_default : AppliedUplink := mk_applied_uplink None None.

Definition EffectiveState : Type := bool * option string * option Z.
Definition STANDBY_STATE : EffectiveState := (false, None, None).

Definition effective_state (grant : AgentUplinkGrant) : EffectiveState :=
  (ug_enabled grant, trim <$> ug_host grant, ug_port grant).

Section Uplink.
Context `{PolicyApi}.

Definition describe (grant : AgentUplinkGrant) : string :=
  match ug_enabled grant, target grant with
  | false, _ => "enabled=false"
  | true, Some (host, port) => "enabled=true target=" +:+ host +:+ ":" +:+ pretty port
  | true, None => "enabled=true target=" +:+ String dquote ("本机配置" +:+ String dquote "")
  end.

(** How the answer to a poll is read; the arms in the order of the code. *)
Definition uplink_outcome (endpoint : string) (answer : Exchange) : UplinkFetch :=
  match answer with
  | NoClient err => UplinkFailed ("client: " +:+ err)
  | Unreachable err => UplinkFailed ("transport: " +:+ err)
  | Responded status body =>
      if is_success status then
        match json_of decode_uplink_grant body with
        | inr grant => UplinkGranted grant
        | inl err => UplinkFailed ("invalid response from " +:+ endpoint +:+ ": " +:+ err)
        end
      else if Z.eqb status NOT_FOUND then UplinkNotDispatched
      else if Z.eqb status UNAUTHORIZED || Z.eqb status FORBIDDEN then
        let body := match body with inl _ => "" | inr text => text end in
        CredentialRejected
          (match auth_rejection_code body with
           | Some code =>
               "http " +:+ display_status status +:+ " from " +:+ endpoint +:+ " (" +:+ code +:+ ")"
           | None => "http " +:+ display_status status +:+ " from " +:+ endpoint
           end)
      else UplinkFailed ("http " +:+ display_status status +:+ " from " +:+ endpoint)
  end.

(** [AppliedUplink::observe]: the line to log, if any, and the state after it; [now] is
    [now_rfc3339()]. *)
Definition uplink_observe (now : string) (outcome : UplinkFetch) (st : AppliedUplink) :
    option string * AppliedUplink :=
  match outcome with
  | UplinkNotDispatched => (None, mk_applied_uplink (au_grant st) None)
  | UplinkFailed signature =>
      if decide (au_last_failure st = Some signature) then (None, st)
      else (Some ("wist-agentd uplink grant fetch failed: " +:+ signature),
            mk_applied_uplink (au_grant st) (Some signature))
  | CredentialRejected signature =>
      let was_sending := negb (bool_decide (effective_state <$> au_grant st = Some STANDBY_STATE)) in
      let first_time := negb (bool_decide (au_last_failure st = Some signature)) in
      (if negb was_sending && negb first_time then None
       else Some ("event=UplinkGrantRejected " +:+ signature +:+ " action=" +:+
                  String dquote ("强制回落待命" +:+ String dquote "")),
       mk_applied_uplink (Some (standby now)) (Some signature))
  | UplinkGranted grant =>
      let changed :=
        negb (bool_decide (effective_state <$> au_grant st = Some (effective_state grant))) in
      (if changed then Some ("event=UplinkGrantApplied " +:+ describe grant) else None,
       mk_applied_uplink (Some grant) None)
  end.
End Uplink.

(** * control/discovery_snapshot.rs *)

Definition MIN_INTERVAL_SECONDS : Z := 60.

Inductive SnapshotFetch :=
| SnapshotGranted (grant : DiscoverySnapshotGrant)
| SnapshotNotDispatched
| SnapshotFailed (signature : string).

(** [SnapshotFetch::grant] *)
Definition snapshot_fetch_grant (outcome : SnapshotFetch) : option DiscoverySnapshotGrant :=
  match outcome with SnapshotGranted grant => Some grant | _ => None end.

Inductive SnapshotEvent := SnapshotApplied (line : string) | SnapshotFailedLine (line : string).

Record AppliedSnapshotPolicy := mk_snapshot_policy {
  sp_grant : option DiscoverySnapshotGrant;
  sp_last_failure : option string;
}.
Definition snapshot_policy_default : AppliedSnapshotPolicy := mk_snapshot_policy None None.

Definition policy_key (grant : DiscoverySnapshotGrant) : bool * Z :=
  (sg_enabled grant, Z.max (sg_interval_seconds grant) MIN_INTERVAL_SECONDS).

Definition display_bool (b : bool) : string := if b then "true" else "false".

Record EffectiveSnapshotPolicy := mk_effective_snapshot {
  es_enabled : bool;
  es_interval_seconds : Z;
  es_source : string;
}.

(** [EffectiveSnapshotPolicy::applied] *)
Definition snapshot_applied (p : EffectiveSnapshotPolicy) : AppliedDiscoverySnapshot :=
  mk_applied_snapshot (es_enabled p) (es_interval_seconds p) (es_source p).

Definition snapshot_observe (outcome : SnapshotFetch) (st : AppliedSnapshotPolicy) :
    option SnapshotEvent * AppliedSnapshotPolicy :=
  match outcome with
  | SnapshotNotDispatched =>
      (if is_some (sp_grant st) then
         Some (SnapshotApplied
           ("event=DiscoverySnapshotPolicyCleared source=local_config detail=" +:+
            String dquote ("网关已撤销设置，回落本机 [discovery]" +:+ String dquote "")))
       else None,
       mk_snapshot_policy None None)
  | SnapshotFailed signature =>
      if decide (sp_last_failure st = Some signature) then (None, st)
      else (Some (SnapshotFailedLine
              ("wist-agentd discovery snapshot policy fetch failed: " +:+ signature)),
            mk_snapshot_policy (sp_grant st) (Some signature))
  | SnapshotGranted grant =>
      let changed := negb (bool_decide (policy_key <$> sp_grant st = Some (policy_key grant))) in
      (if changed then
         Some (SnapshotApplied
           ("event=DiscoverySnapshotPolicyApplied enabled=" +:+ display_bool (sg_enabled grant) +:+
            " interval_seconds=" +:+
              pretty (Z.max (sg_interval_seconds grant) MIN_INTERVAL_SECONDS) +:+
            " source=grant:" +:+ sg_source grant))
       else None,
       mk_snapshot_policy (Some grant) None)
  end.

Section Snapshot.
Context `{PolicyApi}.

Definition snapshot_outcome (endpoint : string) (answer : Exchange) : SnapshotFetch :=
  match answer with
  | NoClient err => SnapshotFailed ("client: " +:+ err)
  | Unreachable err => SnapshotFailed ("transport: " +:+ err)
  | Responded status body =>
      if is_success status then
        match json_of decode_snapshot_grant body with
        | inr grant => SnapshotGranted grant
        | inl err => SnapshotFailed ("invalid response from " +:+ endpoint +:+ ": " +:+ err)
        end
      else if Z.eqb status NO_CONTENT then SnapshotNotDispatched
      else if Z.eqb status NOT_FOUND then SnapshotNotDispatched
      else SnapshotFailed ("http " +:+ display_status status +:+ " from " +:+ endpoint)
  end.

Definition effective_policy (config : PolicyConfig) (grant : option DiscoverySnapshotGrant) :
    EffectiveSnapshotPolicy :=
  match grant with
  | Some grant =>
      mk_effective_snapshot (sg_enabled grant)
        (Z.max (sg_interval_seconds grant) MIN_INTERVAL_SECONDS) APPLIED_SOURCE_CONTROL_PLANE
  | None =>
      mk_effective_snapshot (pc_snapshot_uplink_enabled config)
        (Z.max (pc_snapshot_uplink_interval_seconds config) MIN_INTERVAL_SECONDS)
        APPLIED_SOURCE_LOCAL_CONFIG
  end.
End Snapshot.

(** * control/source_search_policy.rs *)

Definition POLL_KIND : string := "source_search_policy".
Definition STATE_FILE : string := "source_search_policy.json".
Definition MAX_ROOTS_PER_SERVICE : nat := MAX_SEARCH_ROOTS.

Record SourceSearchPolicy := mk_search_policy {
  ss_catalog_version : Z;
  ss_services : btree (list string);
  ss_fetched_at : string;
}.
Definition search_policy_default : SourceSearchPolicy := mk_search_policy 0 [] "".

Definition roots_for (policy : SourceSearchPolicy) (service : string) : list string :=
  default [] (bt_get service (ss_services policy)).

(** [SourceSearchPolicy::is_empty] *)
Definition policy_is_empty (policy : SourceSearchPolicy) : bool :=
  match ss_services policy with [] => true | _ => false end.

(** [SourceSearchPolicy::describe] *)
Definition describe_search (policy : SourceSearchPolicy) : string :=
  match ss_services policy with
  | [] => "不搜索"
  | services =>
      Text.join " " ((λ '(service, roots), service +:+ "=[" +:+ Text.join "," roots +:+ "]") <$> services)
  end.

(** The condition a root has to meet, on the trimmed text. *)
Definition root_accepted (value : string) : bool :=
  starts_with "/" value
  && negb (String.eqb value "/")
  && negb (existsb (String.eqb "..") (split_on slash value))
  && negb (has_char "*" value || has_char "?" value || has_char "[" value || has_char "000" value).

Definition normalized (value : string) : string := trim_end_char slash value.

(** The body of the loop over the roots of a service. *)
Definition keep_root (kept : list string) (root : string) : list string :=
  let value := trim root in
  if root_accepted value then
    if decide (normalized value ∈ kept) then kept else kept ++ [normalized value]
  else kept.

Definition sanitize_roots (roots : list string) : list string :=
  take MAX_ROOTS_PER_SERVICE (foldl keep_root [] roots).

Definition sanitize_service (cleaned : btree (list string)) (entry : string * list string) :
    btree (list string) :=
  let '(service, roots) := entry in
  let kept := foldl keep_root [] roots in
  match kept with
  | [] => cleaned
  | _ => bt_insert service (take MAX_ROOTS_PER_SERVICE kept) cleaned
  end.

Definition sanitize (policy : SourceSearchPolicy) : SourceSearchPolicy :=
  mk_search_policy (ss_catalog_version policy) (foldl sanitize_service [] (ss_services policy))
    (ss_fetched_at policy).

(** [path_for] *)
Definition search_path_for (state_dir : string) : string := path_join state_dir STATE_FILE.

Section SearchPolicy.
Context `{PolicyApi} `{Host} `{!Json SourceSearchPolicy}.

(** [parse] *)
Definition search_parse (text : string) : SourceSearchPolicy :=
  match from_json text with
  | Ok policy => sanitize policy
  | Err _ => search_policy_default
  end.

(** [load] and [load_async]: a file that cannot be read is no policy. *)
Definition search_load (state_dir : string) : M World SourceSearchPolicy :=
  text ← try (fs_read (search_path_for state_dir));
  mret (match text with Ok text => search_parse text | Err _ => search_policy_default end).

(** What a response is worth. *)
Definition search_outcome (answer : Exchange) : option Returned :=
  match answer with
  | Responded status body =>
      if Z.eqb status NOT_FOUND then None
      else if negb (is_success status) then None
      else
        match json_of decode_returned body with
        | inr returned =>
            if negb (String.eqb (rt_api_version returned) API_VERSION_V1)
               || negb (String.eqb (rt_kind returned) POLL_KIND)
            then None else Some returned
        | inl _ => None
        end
  | _ => None
  end.

Definition returned_policy (returned : Returned) (now : string) : SourceSearchPolicy :=
  sanitize (mk_search_policy (rt_catalog_version returned)
    (bt_collect ((λ row, (sr_service row, sr_roots row)) <$> rt_services returned)) now).
End SearchPolicy.

(** * runtime/daemon.rs: the three refreshes *)

Definition DISCOVERY_POLICY_FETCH_MIN_INTERVAL_MS : Z := 300000.

(** The host, the two policies in memory, the instant of each last fetch, what happened so far. *)
Record Control `{Os} := mk_control {
  ct_world : World;
  ct_uplink : AppliedUplink;
  ct_last_uplink : option Z;
  ct_snapshot : AppliedSnapshotPolicy;
  ct_last_snapshot : option Z;
  ct_last_search : option Z;
  ct_events : list PolicyEvent;
}.

Arguments mk_control {_} _ _ _ _ _ _ _.

Section Refresh.
Context `{PolicyApi} `{Host} `{!PolicyGateway} `{!Json SourceSearchPolicy}.

Definition on_host {A} (m : M World A) : M Control A :=
  zoom ct_world (λ w c, mk_control w (ct_uplink c) (ct_last_uplink c) (ct_snapshot c)
    (ct_last_snapshot c) (ct_last_search c) (ct_events c)) m.
Definition set_uplink (st : AppliedUplink) : M Control unit :=
  modify (λ c, mk_control (ct_world c) st (ct_last_uplink c) (ct_snapshot c)
    (ct_last_snapshot c) (ct_last_search c) (ct_events c)).
Definition set_snapshot (st : AppliedSnapshotPolicy) : M Control unit :=
  modify (λ c, mk_control (ct_world c) (ct_uplink c) (ct_last_uplink c) st
    (ct_last_snapshot c) (ct_last_search c) (ct_events c)).
Definition attempt_uplink (now : Z) : M Control unit :=
  modify (λ c, mk_control (ct_world c) (ct_uplink c) (Some now) (ct_snapshot c)
    (ct_last_snapshot c) (ct_last_search c) (ct_events c)).
Definition attempt_snapshot (now : Z) : M Control unit :=
  modify (λ c, mk_control (ct_world c) (ct_uplink c) (ct_last_uplink c) (ct_snapshot c)
    (Some now) (ct_last_search c) (ct_events c)).
Definition attempt_search (now : Z) : M Control unit :=
  modify (λ c, mk_control (ct_world c) (ct_uplink c) (ct_last_uplink c) (ct_snapshot c)
    (ct_last_snapshot c) (Some now) (ct_events c)).
Definition record_event (e : PolicyEvent) : M Control unit :=
  modify (λ c, mk_control (ct_world c) (ct_uplink c) (ct_last_uplink c) (ct_snapshot c)
    (ct_last_snapshot c) (ct_last_search c) (ct_events c ++ [e])).
Definition log_line (line : option string) : M Control unit :=
  match line with Some line => record_event (Logged line) | None => mret tt end.

(** [client.post(url).timeout(..).json(request).send().await] with a client built for it. *)
Definition ask (url : string) (request : PolicyRequest) : M Control Exchange :=
  at_ ← gets (λ c, clock (ct_world c));
  answer ← gets (λ c, exchange url request (ct_events c) (ct_world c));
  time ← gets (λ c, exchange_takes url request (ct_events c) (ct_world c));
  on_host (modify (λ w, set_clock (clock w + Z.of_N time) w));;
  record_event (Asked at_ url request answer);;
  mret answer.

Definition uplink_path : string := "/api/v1/agent/uplink:poll".
Definition snapshot_path : string := "/api/v1/agent/discovery-snapshot:poll".
Definition search_path : string := "/api/v1/agent/source-search-policy:poll".

Definition fetch_uplink_grant (config : PolicyConfig) : M Control UplinkFetch :=
  match pc_endpoint config, pc_agent_id config with
  | Some endpoint, Some agent_id =>
      now ← on_host now_rfc3339;
      answer ← ask (gateway_url endpoint uplink_path)
                 (RequestUplink (mk_poll_uplink agent_id (default "" (pc_instance_name config)) now));
      mret (uplink_outcome endpoint answer)
  | _, _ => mret UplinkNotDispatched
  end.

Definition refresh_uplink_grant (config : PolicyConfig) : M Control unit :=
  now ← gets (λ c, clock (ct_world c));
  last_fetch ← gets ct_last_uplink;
  if negb (fetch_due WORK_FETCH_MIN_INTERVAL_MS now last_fetch) then mret tt
  else
    attempt_uplink now;;
    outcome ← fetch_uplink_grant config;
    now_text ← on_host now_rfc3339;
    st ← gets ct_uplink;
    set_uplink (uplink_observe now_text outcome st).2;;
    log_line (uplink_observe now_text outcome st).1.

Definition fetch_discovery_snapshot (config : PolicyConfig)
    (applied : option AppliedDiscoverySnapshot) : M Control SnapshotFetch :=
  match pc_endpoint config, pc_agent_id config with
  | Some endpoint, Some agent_id =>
      now ← on_host now_rfc3339;
      answer ← ask (gateway_url endpoint snapshot_path)
                 (RequestSnapshot (mk_poll_snapshot agent_id (default "" (pc_instance_name config))
                    now applied));
      mret (snapshot_outcome endpoint answer)
  | _, _ => mret SnapshotNotDispatched
  end.

Definition refresh_discovery_snapshot_policy (config : PolicyConfig) : M Control unit :=
  now ← gets (λ c, clock (ct_world c));
  last_fetch ← gets ct_last_snapshot;
  if negb (fetch_due WORK_FETCH_MIN_INTERVAL_MS now last_fetch) then mret tt
  else
    attempt_snapshot now;;
    grant ← gets (λ c, sp_grant (ct_snapshot c));
    outcome ← fetch_discovery_snapshot config
                (Some (snapshot_applied (effective_policy config grant)));
    st ← gets ct_snapshot;
    set_snapshot (snapshot_observe outcome st).2;;
    log_line ((λ e, match e with SnapshotApplied line | SnapshotFailedLine line => line end)
      <$> (snapshot_observe outcome st).1).

(** [control::source_search_policy::refresh]: a failed store is only logged. *)
Definition refresh_search (config : PolicyConfig) : M Control (option SourceSearchPolicy) :=
  match pc_endpoint config, pc_agent_id config with
  | Some endpoint, Some agent_id =>
      requested_at ← on_host now_rfc3339;
      answer ← ask (gateway_url endpoint search_path)
                 (RequestSearch (mk_poll_search API_VERSION_V1 POLL_KIND agent_id
                    (default "" (pc_instance_name config)) requested_at));
      match search_outcome answer with
      | None => mret None
      | Some returned =>
          now ← on_host now_rfc3339;
          let policy := returned_policy returned now in
          try (on_host (write_json_atomic_async (search_path_for (pc_state_dir config)) policy));;
          mret (Some policy)
      end
  | _, _ => mret None
  end.

Definition refresh_source_search_policy (config : PolicyConfig) (force : bool) : M Control unit :=
  now ← gets (λ c, clock (ct_world c));
  last_fetch ← gets ct_last_search;
  if negb force && negb (fetch_due DISCOVERY_POLICY_FETCH_MIN_INTERVAL_MS now last_fetch)
  then mret tt
  else
    attempt_search now;;
    refresh_search config;;
    mret tt.

(** One turn of the loop as far as these policies go, in its order. *)
Definition policies_tick (config : PolicyConfig) (force : bool) : M Control unit :=
  refresh_source_search_policy config force;;
  refresh_uplink_grant config;;
  refresh_discovery_snapshot_policy config.

(** Between two turns time passes and a refresh may be forced. *)
Fixpoint policies_run (config : PolicyConfig) (turns : list (N * bool)) : M Control unit :=
  match turns with
  | [] => mret tt
  | (pause, force) :: turns =>
      on_host (modify (λ w, set_clock (clock w + Z.of_N pause) w));;
      policies_tick config force;;
      policies_run config turns
  end.
End Refresh.

(** * What the gateway has said so far *)

Section Standing.
Context `{PolicyApi}.

(** Whether the agent may send, by the answers alone: a grant holds until the next grant, and a
    rejected credential until then is a revocation; nothing else counts. *)
Definition uplink_verdict (s : option EffectiveState) (e : PolicyEvent) : option EffectiveState :=
  match e with
  | Asked _ _ (RequestUplink _) (Responded status body) =>
      if is_success status then
        match json_of decode_uplink_grant body with
        | inr grant => Some (effective_state grant)
        | inl _ => s
        end
      else if Z.eqb status UNAUTHORIZED || Z.eqb status FORBIDDEN then Some STANDBY_STATE else s
  | _ => s
  end.
Definition uplink_standing (evs : list PolicyEvent) : option EffectiveState :=
  foldl uplink_verdict None evs.

(** The snapshot setting, by the answers alone: only an unknown endpoint takes it away. *)
Definition snapshot_verdict (s : option DiscoverySnapshotGrant) (e : PolicyEvent) :
    option DiscoverySnapshotGrant :=
  match e with
  | Asked _ _ (RequestSnapshot _) (Responded status body) =>
      if is_success status then
        match json_of decode_snapshot_grant body with inr grant => Some grant | inl _ => s end
      else if Z.eqb status NOT_FOUND then None else s
  | _ => s
  end.
Definition snapshot_standing (evs : list PolicyEvent) : option DiscoverySnapshotGrant :=
  foldl snapshot_verdict None evs.

Lemma uplink_standing_snoc evs e : uplink_standing (evs ++ [e]) = uplink_verdict (uplink_standing evs) e.
Proof. unfold uplink_standing. by rewrite foldl_app. Qed.
Lemma snapshot_standing_snoc evs e :
  snapshot_standing (evs ++ [e]) = snapshot_verdict (snapshot_standing evs) e.
Proof. unfold snapshot_standing. by rewrite foldl_app. Qed.

Lemma uplink_outcome_verdict `{!PolicyApiLaws} endpoint answer now at_ url r st :
  effective_state <$> au_grant (uplink_observe now (uplink_outcome endpoint answer) st).2 =
  uplink_verdict (effective_state <$> au_grant st) (Asked at_ url (RequestUplink r) answer).
Proof.
  assert (Hs : effective_state (standby now) = STANDBY_STATE).
  { unfold effective_state. by rewrite standby_enabled, standby_host, standby_port. }
  destruct answer as [err|err|status body]; cbn; [by case_decide|by case_decide|].
  destruct (is_success status).
  - destruct (json_of decode_uplink_grant body); cbn; [by case_decide|done].
  - destruct (Z.eqb_spec status NOT_FOUND) as [->|]; [done|].
    destruct (Z.eqb status UNAUTHORIZED || Z.eqb status FORBIDDEN); cbn; [by rewrite Hs|].
    by case_decide.
Qed.

Lemma snapshot_outcome_verdict endpoint answer at_ url r st :
  sp_grant (snapshot_observe (snapshot_outcome endpoint answer) st).2 =
  snapshot_verdict (sp_grant st) (Asked at_ url (RequestSnapshot r) answer).
Proof.
  destruct answer as [err|err|status body]; cbn; [by case_decide|by case_decide|].
  destruct (is_success status) eqn:Hs.
  - destruct (json_of decode_snapshot_grant body); cbn; [by case_decide|done].
  - destruct (Z.eqb_spec status NO_CONTENT) as [->|]; [done|].
    destruct (Z.eqb_spec status NOT_FOUND) as [->|]; cbn; [done|]. by case_decide.
Qed.

Lemma uplink_observe_quiet now st : au_grant (uplink_observe now UplinkNotDispatched st).2 = au_grant st.
Proof. done. Qed.
End Standing.

(** * What the loop keeps *)

(** The instants at which requests of a kind were made. *)
Definition asked (p : PolicyRequest → bool) (evs : list PolicyEvent) : list Z :=
  omap (λ e, match e with
             | Asked at_ _ request _ => if p request then Some at_ else None
             | Logged _ => None
             end) evs.
Definition is_uplink_request (r : PolicyRequest) : bool :=
  match r with RequestUplink _ => true | _ => false end.
Definition is_snapshot_request (r : PolicyRequest) : bool :=
  match r with RequestSnapshot _ => true | _ => false end.

Lemma asked_snoc p evs e : asked p (evs ++ [e]) =
  (asked p evs ++ match e with
                  | Asked at_ _ request _ => if p request then [at_] else []
                  | Logged _ => []
                  end)%list.
Proof. unfold asked. rewrite omap_app. destruct e as [? ? r ?|]; cbn; [by destruct (p r)|done]. Qed.

Arguments uplink_standing : simpl never.
Arguments snapshot_standing : simpl never.
Arguments asked : simpl never.

Section Loop.
Context `{PolicyApi} `{!PolicyApiLaws} `{Host} `{!PolicyGateway} `{!Json SourceSearchPolicy}.
Context (config : PolicyConfig).

Definition enrolled : bool := is_some (pc_endpoint config) && is_some (pc_agent_id config).

Record controlled (c : Control) : Prop := {
  cn_uplink : effective_state <$> au_grant (ct_uplink c) = uplink_standing (ct_events c);
  cn_snapshot : sp_grant (ct_snapshot c) = snapshot_standing (ct_events c);
  cn_unenrolled : enrolled = false → sp_grant (ct_snapshot c) = None;
  cn_uplink_polls :
    throttled WORK_FETCH_MIN_INTERVAL_MS (asked is_uplink_request (ct_events c)) (ct_last_uplink c);
  cn_snapshot_polls :
    throttled WORK_FETCH_MIN_INTERVAL_MS (asked is_snapshot_request (ct_events c)) (ct_last_snapshot c);
  cn_reports : ∀ evs1 evs2 at_ url r answer,
    ct_events c = (evs1 ++ Asked at_ url (RequestSnapshot r) answer :: evs2)%list →
    ps_applied r = Some (snapshot_applied (effective_policy config (snapshot_standing evs1)));
}.

(** An event that says nothing of either policy. *)
Definition neutral (e : PolicyEvent) : bool :=
  match e with
  | Asked _ _ (RequestSearch _) _ | Logged _ => true
  | _ => false
  end.

Lemma split_snoc {A} (l l1 l2 : list A) e x : (l ++ [e])%list = (l1 ++ x :: l2)%list →
  (l = l1 ∧ e = x ∧ l2 = []) ∨ ∃ l2', l2 = (l2' ++ [e])%list ∧ l = (l1 ++ x :: l2')%list.
Proof.
  destruct l2 as [|y l2' _] using rev_ind; intros E.
  - apply app_inj_tail in E as [-> ->]. by left.
  - right. rewrite app_comm_cons, (assoc_L (++)) in E. apply app_inj_tail in E as [-> ->]. eauto.
Qed.

(** Only the world, the instant of the last search fetch and neutral events differ. *)
Lemma controlled_neutral c w search evs :
  controlled c → Forall (λ e, neutral e = true) evs →
  controlled (mk_control w (ct_uplink c) (ct_last_uplink c) (ct_snapshot c) (ct_last_snapshot c)
    search (ct_events c ++ evs)).
Proof.
  intros Hc. revert w search. induction evs as [|e evs IH] using rev_ind; intros w search Hn.
  { rewrite (right_id_L [] (++)). by destruct Hc. }
  apply Forall_app in Hn as [Hn [He _]%Forall_cons]. rewrite (assoc_L (++)).
  specialize (IH w search Hn). destruct IH as [U S E PU PS Rp]. cbn in *.
  assert (Hs : snapshot_standing ((ct_events c ++ evs) ++ [e]) = snapshot_standing (ct_events c ++ evs)).
  { rewrite snapshot_standing_snoc. by destruct e as [? ? [] ?|]. }
  split; cbn.
  - rewrite uplink_standing_snoc. by destruct e as [? ? [] ?|].
  - by rewrite Hs.
  - done.
  - rewrite asked_snoc. destruct e as [? ? [] ?|]; try done; cbn; by rewrite (right_id_L [] (++)).
  - rewrite asked_snoc. destruct e as [? ? [] ?|]; try done; cbn; by rewrite (right_id_L [] (++)).
  - intros evs1 evs2 at_ url r answer [(<- & -> & _)|(l2 & -> & E2)]%split_snoc; [done|].
    by eapply Rp.
Qed.

Lemma log_line_controlled line c : controlled c →
  ∃ c', log_line line c = (Ok tt, c') ∧ controlled c'.
Proof.
  intros Hc. destruct line as [line|]; [|by exists c]. eexists. split; [done|].
  destruct c as [w u lu s ls search evs].
  by apply (controlled_neutral (mk_control w u lu s ls search evs) w search [Logged line]); [|repeat constructor].
Qed.

Lemma ask_run url request c : ∃ answer w,
  ask url request c = (Ok answer,
    mk_control w (ct_uplink c) (ct_last_uplink c) (ct_snapshot c) (ct_last_snapshot c)
      (ct_last_search c) (ct_events c ++ [Asked (clock (ct_world c)) url request answer])) ∧
  files w = files (ct_world c).
Proof. by eexists _, _. Qed.

Lemma control_host_run {A} (m : M World A) c : ∃ r w, on_host m c = (r,
  mk_control w (ct_uplink c) (ct_last_uplink c) (ct_snapshot c) (ct_last_snapshot c)
    (ct_last_search c) (ct_events c)).
Proof. unfold on_host, zoom. destruct (m (ct_world c)) as [r w]. by eexists r, w. Qed.

Lemma now_run c : on_host now_rfc3339 c = (Ok (rfc3339 (clock (ct_world c))), c).
Proof. by destruct c. Qed.

Lemma on_host_modify f c : on_host (modify f) c = (Ok tt,
  mk_control (f (ct_world c)) (ct_uplink c) (ct_last_uplink c) (ct_snapshot c) (ct_last_snapshot c)
    (ct_last_search c) (ct_events c)).
Proof. done. Qed.

Lemma enrolled_spec : enrolled = true →
  ∃ endpoint agent_id, pc_endpoint config = Some endpoint ∧ pc_agent_id config = Some agent_id.
Proof. unfold enrolled. destruct (pc_endpoint config), (pc_agent_id config); naive_solver. Qed.

(** ** Where to search *)

Lemma refresh_search_run c : ∃ r c', refresh_search config c = (Ok r, c') ∧
  (∃ w evs, c' = mk_control w (ct_uplink c) (ct_last_uplink c) (ct_snapshot c) (ct_last_snapshot c)
     (ct_last_search c) (ct_events c ++ evs) ∧ Forall (λ e, neutral e = true) evs) ∧
  match r with
  | None => files (ct_world c') = files (ct_world c)
  | Some policy => ∃ w, files w = files (ct_world c) ∧
      ct_world c' = (write_json_atomic_async (search_path_for (pc_state_dir config)) policy w).2 ∧
      ∃ returned now, policy = returned_policy returned now
  end.
Proof.
  unfold refresh_search. destruct (pc_endpoint config) as [endpoint|], (pc_agent_id config) as [agent_id|];
    try (exists None, c; split_and!; [done| |done]; exists (ct_world c), []; split; [|done];
         destruct c; cbn; by rewrite (right_id_L [] (++))).
  erewrite bind_ok by apply now_run.
  match goal with |- context [ask ?u ?q] => destruct (ask_run u q c) as (answer & w & Ea & Hw) end.
  erewrite bind_ok by exact Ea.
  destruct (search_outcome answer) as [returned|].
  2:{ eexists None, _. split_and!; [done| |done]. eexists w, [_]. split; [done|by repeat constructor]. }
  erewrite bind_ok by apply now_run. cbn [ct_world].
  set (policy := returned_policy returned (rfc3339 (clock w))).
  unfold try, on_host, zoom, mbind, M_bind. cbn [ct_world].
  destruct (write_json_atomic_async _ policy w) as [r w'] eqn:Ew.
  eexists (Some policy), _. split_and!; [done| |].
  - eexists w', [_]. split; [done|by repeat constructor].
  - exists w. rewrite Ew. split_and!; [done|done|by eexists _, _].
Qed.

Lemma refresh_source_search_policy_run force c : controlled c →
  ∃ c', refresh_source_search_policy config force c = (Ok tt, c') ∧ controlled c'.
Proof.
  intros Hc. unfold refresh_source_search_policy, attempt_search.
  rewrite !gets_then. destruct (_ && _); [by exists c|]. rewrite modify_then.
  match goal with |- context [mbind _ (refresh_search config) ?x] =>
    destruct (refresh_search_run x) as (r & c' & E & (w & evs & -> & Hn) & _) end.
  erewrite bind_ok by done. eexists. split; [done|]. cbn. by apply controlled_neutral.
Qed.

(** ** Whether to send *)

Lemma fetch_uplink_run c :
  ∃ outcome c', fetch_uplink_grant config c = (Ok outcome, c') ∧
  ((enrolled = false ∧ outcome = UplinkNotDispatched ∧ c' = c) ∨
   ∃ endpoint url r answer w, outcome = uplink_outcome endpoint answer ∧
     c' = mk_control w (ct_uplink c) (ct_last_uplink c) (ct_snapshot c) (ct_last_snapshot c)
       (ct_last_search c)
       (ct_events c ++ [Asked (clock (ct_world c)) url (RequestUplink r) answer])).
Proof.
  unfold fetch_uplink_grant, enrolled.
  destruct (pc_endpoint config) as [endpoint|], (pc_agent_id config) as [agent_id|];
    try (by exists UplinkNotDispatched, c; split; [|left]).
  erewrite bind_ok by apply now_run.
  match goal with |- context [ask ?u ?q] => destruct (ask_run u q c) as (answer & w & Ea & _) end.
  erewrite bind_ok by exact Ea. eexists _, _. split; [done|]. right. by eexists endpoint, _, _, answer, w.
Qed.

Lemma controlled_uplink c now text st outcome c1 :
  controlled c → fetch_due WORK_FETCH_MIN_INTERVAL_MS now (ct_last_uplink c) = true →
  now = clock (ct_world c) →
  st = (uplink_observe text outcome (ct_uplink c)).2 →
  (enrolled = false ∧ outcome = UplinkNotDispatched ∧ ct_events c1 = ct_events c) ∨
  (∃ endpoint url r answer, outcome = uplink_outcome endpoint answer ∧
     ct_events c1 = (ct_events c ++ [Asked now url (RequestUplink r) answer])%list) →
  ct_snapshot c1 = ct_snapshot c → ct_last_snapshot c1 = ct_last_snapshot c →
  controlled (mk_control (ct_world c1) st (Some now) (ct_snapshot c1) (ct_last_snapshot c1)
    (ct_last_search c1) (ct_events c1)).
Proof.
  intros [U S E PU PS Rp] Hd Hnow -> Hout Hs Hl.
  destruct (throttled_attempt _ _ _ _ PU ltac:(done) Hd) as [P1 P2].
  destruct Hout as [(_ & -> & ->)|(endpoint & url & r & answer & -> & ->)]; rewrite Hs, Hl.
  { by split. }
  assert (Hk : snapshot_standing (ct_events c ++ [Asked now url (RequestUplink r) answer])
    = snapshot_standing (ct_events c)) by by rewrite snapshot_standing_snoc.
  split; cbn.
  - rewrite uplink_standing_snoc, <- U. apply uplink_outcome_verdict.
  - by rewrite Hk.
  - done.
  - rewrite asked_snoc. exact P2.
  - rewrite asked_snoc. cbn. by rewrite (right_id_L [] (++)).
  - intros evs1 evs2 at_ url' r' answer' [(_ & [=] & _)|(l2 & -> & E2)]%split_snoc. by eapply Rp.
Qed.

Lemma refresh_uplink_grant_run c : controlled c →
  ∃ c', refresh_uplink_grant config c = (Ok tt, c') ∧ controlled c'.
Proof.
  intros Hc. unfold refresh_uplink_grant, attempt_uplink.
  rewrite !gets_then. destruct (fetch_due _ _ _) eqn:Hd; cbn [negb]; [|by exists c].
  rewrite modify_then.
  match goal with |- context [mbind _ (fetch_uplink_grant config) ?x] =>
    destruct (fetch_uplink_run x) as (outcome & c1 & E1 & Hout) end.
  erewrite bind_ok by done. erewrite bind_ok by apply now_run.
  unfold set_uplink. rewrite gets_then, modify_then.
  apply log_line_controlled.
  assert (Hc1 : ct_uplink c1 = ct_uplink c ∧ ct_last_uplink c1 = Some (clock (ct_world c)) ∧
    ct_snapshot c1 = ct_snapshot c ∧ ct_last_snapshot c1 = ct_last_snapshot c).
  { by destruct Hout as [(_ & _ & ->)|(? & ? & ? & ? & ? & _ & ->)]. }
  destruct Hc1 as (Hu & -> & Hs & Hl).
  eapply controlled_uplink; [done|done|done|by rewrite Hu| |done|done].
  destruct Hout as [(He & -> & ->)|(endpoint & url & r & answer & w & -> & ->)]; [by left|].
  right. by eexists endpoint, url, r, answer.
Qed.

(** ** The snapshot setting *)

Lemma fetch_snapshot_run applied c :
  ∃ outcome c', fetch_discovery_snapshot config applied c = (Ok outcome, c') ∧
  ((enrolled = false ∧ outcome = SnapshotNotDispatched ∧ c' = c) ∨
   enrolled = true ∧
   ∃ endpoint url r answer w, outcome = snapshot_outcome endpoint answer ∧ ps_applied r = applied ∧
     c' = mk_control w (ct_uplink c) (ct_last_uplink c) (ct_snapshot c) (ct_last_snapshot c)
       (ct_last_search c)
       (ct_events c ++ [Asked (clock (ct_world c)) url (RequestSnapshot r) answer])).
Proof.
  unfold fetch_discovery_snapshot, enrolled.
  destruct (pc_endpoint config) as [endpoint|], (pc_agent_id config) as [agent_id|];
    try (by exists SnapshotNotDispatched, c; split; [|left]).
  erewrite bind_ok by apply now_run.
  match goal with |- context [ask ?u ?q] => destruct (ask_run u q c) as (answer & w & Ea & _) end.
  erewrite bind_ok by exact Ea. eexists _, _. split; [done|]. right. split; [done|].
  eexists endpoint, _, (mk_poll_snapshot _ _ _ _), answer, w. by split_and!.
Qed.

Lemma controlled_snapshot c now st outcome c1 :
  controlled c → fetch_due WORK_FETCH_MIN_INTERVAL_MS now (ct_last_snapshot c) = true →
  now = clock (ct_world c) →
  st = (snapshot_observe outcome (ct_snapshot c)).2 →
  (enrolled = false ∧ outcome = SnapshotNotDispatched ∧ ct_events c1 = ct_events c) ∨
  (enrolled = true ∧ ∃ endpoint url r answer, outcome = snapshot_outcome endpoint answer ∧
     ps_applied r = Some (snapshot_applied (effective_policy config (sp_grant (ct_snapshot c)))) ∧
     ct_events c1 = (ct_events c ++ [Asked now url (RequestSnapshot r) answer])%list) →
  ct_uplink c1 = ct_uplink c → ct_last_uplink c1 = ct_last_uplink c →
  controlled (mk_control (ct_world c1) (ct_uplink c1) (ct_last_uplink c1) st (Some now)
    (ct_last_search c1) (ct_events c1)).
Proof.
  intros [U S E PU PS Rp] Hd Hnow -> Hout Hs Hl.
  destruct (throttled_attempt _ _ _ _ PS ltac:(done) Hd) as [P1 P2].
  destruct Hout as [(He & -> & ->)|(He & endpoint & url & r & answer & -> & Hr & ->)]; rewrite Hs, Hl.
  { split; cbn; auto. by rewrite <- S, E. }
  split; cbn.
  - rewrite uplink_standing_snoc. exact U.
  - rewrite snapshot_standing_snoc, <- S. apply snapshot_outcome_verdict.
  - by rewrite He.
  - rewrite asked_snoc. cbn. by rewrite (right_id_L [] (++)).
  - rewrite asked_snoc. exact P2.
  - intros evs1 evs2 at_ url' r' answer' [(<- & [= _ _ <- _] & _)|(l2 & -> & E2)]%split_snoc.
    + by rewrite Hr, S.
    + by eapply Rp.
Qed.

Lemma refresh_snapshot_run c : controlled c →
  ∃ c', refresh_discovery_snapshot_policy config c = (Ok tt, c') ∧ controlled c'.
Proof.
  intros Hc. unfold refresh_discovery_snapshot_policy, attempt_snapshot.
  rewrite !gets_then. destruct (fetch_due _ _ _) eqn:Hd; cbn [negb]; [|by exists c].
  rewrite modify_then, gets_then. cbn [ct_snapshot].
  match goal with |- context [mbind _ (fetch_discovery_snapshot config ?a) ?x] =>
    destruct (fetch_snapshot_run a x) as (outcome & c1 & E1 & Hout) end.
  erewrite bind_ok by done. unfold set_snapshot. rewrite gets_then, modify_then.
  apply log_line_controlled.
  assert (Hc1 : ct_snapshot c1 = ct_snapshot c ∧ ct_last_snapshot c1 = Some (clock (ct_world c)) ∧
    ct_uplink c1 = ct_uplink c ∧ ct_last_uplink c1 = ct_last_uplink c).
  { by destruct Hout as [(_ & _ & ->)|(_ & ? & ? & ? & ? & ? & _ & _ & ->)]. }
  destruct Hc1 as (Hu & -> & Hs & Hl).
  eapply controlled_snapshot; [done|done|done|by rewrite Hu| |done|done].
  destruct Hout as [(He & -> & ->)|(He & endpoint & url & r & answer & w & -> & Hr & ->)]; [by left|].
  right. split; [done|]. by eexists endpoint, url, r, answer.
Qed.

Lemma policies_tick_run force c : controlled c →
  ∃ c', policies_tick config force c = (Ok tt, c') ∧ controlled c'.
Proof.
  intros Hc. unfold policies_tick.
  destruct (refresh_source_search_policy_run force c Hc) as (c1 & E1 & H1').
  destruct (refresh_uplink_grant_run c1 H1') as (c2 & E2 & H2').
  destruct (refresh_snapshot_run c2 H2') as (c3 & E3 & H3').
  exists c3. erewrite bind_ok by done. by erewrite bind_ok by done.
Qed.

Lemma policies_run_run turns c : controlled c →
  ∃ c', policies_run config turns c = (Ok tt, c') ∧ controlled c'.
Proof.
  revert c. induction turns as [|[pause force] turns IH]; intros c Hc; cbn [policies_run]; [by exists c|].
  erewrite bind_ok by apply on_host_modify.
  match goal with |- context [mbind _ (policies_tick config force) ?x] =>
    destruct (policies_tick_run force x) as (c1 & E1 & H1') end.
  { pose proof (controlled_neutral c (set_clock (clock (ct_world c) + Z.of_N pause) (ct_world c))
      (ct_last_search c) [] Hc ltac:(done)) as Hn. by rewrite (right_id_L [] (++)) in Hn. }
  erewrite bind_ok by done. by apply IH.
Qed.

(** What [run_forever_async] starts from. *)
Definition control_start (w : World) : Control :=
  mk_control w applied_uplink_default None snapshot_policy_default None None [].

Lemma control_start_controlled w : controlled (control_start w).
Proof.
  split; cbn; try done.
  - split; [constructor|by intros ? ?%elem_of_nil].
  - split; [constructor|by intros ? ?%elem_of_nil].
  - by intros [|? ?] *.
Qed.

End Loop.

(** * Roots that may be searched *)

Section Roots.

(** What the loop over the roots of a service computes: the accepted roots, normalised, each kept
    where it first occurs. *)
Definition accepted_roots (roots : list string) : list string :=
  normalized <$> List.filter root_accepted (trim <$> roots).

Fixpoint first_occurrences (seen l : list string) : list string :=
  match l with
  | [] => []
  | x :: l => if decide (x ∈ seen) then first_occurrences seen l
              else x :: first_occurrences (seen ++ [x]) l
  end.

Lemma keep_root_spec roots kept :
  foldl keep_root kept roots = (kept ++ first_occurrences kept (accepted_roots roots))%list.
Proof.
  unfold accepted_roots. revert kept. induction roots as [|root roots IH]; intros kept.
  { cbn. by rewrite (right_id_L [] (++)). }
  cbn [foldl]. rewrite fmap_cons. cbn [List.filter]. unfold keep_root at 2.
  destruct (root_accepted (trim root)); [|by apply IH].
  rewrite fmap_cons. cbn [first_occurrences]. case_decide; [by apply IH|].
  rewrite IH. by rewrite <- (assoc_L (++)).
Qed.

Lemma first_occurrences_in x seen l : x ∈ first_occurrences seen l ↔ x ∈ l ∧ x ∉ seen.
Proof.
  revert seen. induction l as [|y l IH]; intros seen; cbn; [set_solver|].
  case_decide.
  - rewrite IH, elem_of_cons. split; [tauto|]. intros [[->|] ?]; tauto.
  - rewrite !elem_of_cons, IH, elem_of_app, list_elem_of_singleton.
    destruct (decide (x = y)) as [->|]; tauto.
Qed.

Lemma first_occurrences_nodup seen l : NoDup (first_occurrences seen l).
Proof.
  revert seen. induction l as [|y l IH]; intros seen; cbn; [constructor|].
  case_decide; [done|]. constructor; [|done]. rewrite first_occurrences_in, elem_of_app,
    list_elem_of_singleton. tauto.
Qed.

(** What a root that is kept looks like. *)
Record clean_root (root : string) : Prop := {
  cr_absolute : starts_with "/" root = true ∨ root = "";
  cr_no_parent : ".." ∉ split_on slash root;
  cr_no_glob : has_char "*" root = false ∧ has_char "?" root = false ∧ has_char "[" root = false ∧
    has_char "000" root = false;
  cr_no_slash : last_char root ≠ Some slash;
}.

Lemma normalized_clean value : root_accepted value = true → clean_root (normalized value).
Proof.
  unfold root_accepted. rewrite !andb_true_iff, !negb_true_iff, !orb_false_iff.
  intros (((Ha & Hr) & Hp) & (((H1' & H2') & H3') & H4')). unfold normalized.
  assert (Hc : ∀ d, has_char d value = false → has_char d (trim_end_char slash value) = false).
  { intros d Hd. apply not_true_iff_false. intros Ht%has_char_trim_end. congruence. }
  split; auto.
  - destruct (decide (trim_end_char slash value = "")); [by right|left].
    by apply starts_with_trim_end.
  - intros Hin%split_on_trim_end. apply not_true_iff_false in Hp. apply Hp.
    apply existsb_exists. exists "..". by rewrite <- list_elem_of_In.
  - apply trim_end_char_last.
Qed.

Lemma clean_root_accepted root : clean_root root → root ≠ "" → root_accepted root = true.
Proof.
  intros [Ha Hp (H1' & H2' & H3' & H4') Hl] Hne. unfold root_accepted.
  destruct Ha as [->|]; [|done]. rewrite H1', H2', H3', H4'.
  assert (Hs : String.eqb root "/" = false).
  { apply String.eqb_neq. intros ->. by apply Hl. }
  rewrite Hs. cbn [negb andb orb]. rewrite andb_true_r. apply negb_true_iff, not_true_iff_false.
  intros (x & Hx & Hd)%existsb_exists. apply String.eqb_eq in Hd as <-.
  by apply Hp, list_elem_of_In.
Qed.

(** The roots a service is left with, and the services left. *)
Definition cleaned_roots (roots : list string) : list string :=
  take MAX_ROOTS_PER_SERVICE (first_occurrences [] (accepted_roots roots)).

#[global] Arguments cleaned_roots : simpl never.

Lemma sanitize_service_spec cleaned service roots :
  sanitize_service cleaned (service, roots) =
  match cleaned_roots roots with [] => cleaned | l => bt_insert service l cleaned end.
Proof.
  unfold sanitize_service, cleaned_roots. rewrite keep_root_spec. cbn [app].
  by destruct (first_occurrences [] (accepted_roots roots)).
Qed.

Lemma sanitize_wf policy : bt_wf (ss_services (sanitize policy)).
Proof.
  unfold sanitize. cbn. assert (Hg : ∀ l (m : btree (list string)), bt_wf m → bt_wf (foldl sanitize_service m l)).
  { induction l as [|[s roots] l IH]; intros m Hm; cbn; [done|]. apply IH.
    change (bt_wf (sanitize_service m (s, roots))). rewrite sanitize_service_spec.
    destruct (cleaned_roots roots); [done|by apply bt_insert_wf]. }
  apply Hg, bt_nil_wf.
Qed.

Lemma sanitize_list_get service l : NoDup (fst <$> l) →
  bt_get service (foldl sanitize_service [] l) =
  last_with service l ≫= (λ roots, match cleaned_roots roots with [] => None | l => Some l end).
Proof.
  induction l as [|[s roots] l IH] using rev_ind; [done|].
  rewrite fmap_app, NoDup_app. intros (Hd & Hn & _). specialize (IH Hd).
  rewrite foldl_app, last_with_snoc. cbn [foldl]. rewrite sanitize_service_spec.
  destruct (String.eqb service s) eqn:E; [apply String.eqb_eq in E as ->|apply String.eqb_neq in E].
  - cbn [mbind option_bind]. destruct (cleaned_roots roots) as [|r rs]; [|by rewrite bt_get_insert_eq].
    rewrite IH. assert (Hl : last_with s l = None); [|by rewrite Hl].
    apply last_with_none. intros Hin. apply (Hn _ Hin). by apply list_elem_of_singleton.
  - destruct (cleaned_roots roots); [done|]. by rewrite bt_get_insert_ne.
Qed.

Lemma sanitize_get policy service : bt_wf (ss_services policy) →
  bt_get service (ss_services (sanitize policy)) =
  bt_get service (ss_services policy)
    ≫= (λ roots, match cleaned_roots roots with [] => None | l => Some l end).
Proof.
  intros Hw. unfold sanitize. cbn [ss_services]. rewrite sanitize_list_get by by apply bt_keys_nodup.
  rewrite <- (bt_collect_id (ss_services policy)) at 2 by done. by rewrite bt_get_collect.
Qed.

Lemma sanitize_roots_for policy service : bt_wf (ss_services policy) →
  roots_for (sanitize policy) service = cleaned_roots (roots_for policy service).
Proof.
  intros Hw. unfold roots_for. rewrite sanitize_get by done.
  destruct (bt_get service _) as [roots|]; [|done]. cbn. by destruct (cleaned_roots roots).
Qed.

Lemma cleaned_roots_in root roots : root ∈ cleaned_roots roots → root ∈ accepted_roots roots.
Proof.
  intros Hr. apply (first_occurrences_in root [] (accepted_roots roots)). unfold cleaned_roots in Hr.
  rewrite <- (take_drop MAX_ROOTS_PER_SERVICE (first_occurrences _ _)). apply elem_of_app. by left.
Qed.

Lemma cleaned_roots_nodup roots : NoDup (cleaned_roots roots).
Proof.
  pose proof (first_occurrences_nodup [] (accepted_roots roots)) as Hd.
  rewrite <- (take_drop MAX_ROOTS_PER_SERVICE (first_occurrences _ _)) in Hd.
  by apply NoDup_app in Hd as (? & _).
Qed.

Lemma cleaned_roots_clean root roots : root ∈ cleaned_roots roots → clean_root root.
Proof.
  intros (v & -> & Hv)%cleaned_roots_in%list_elem_of_fmap. apply normalized_clean.
  by apply list_elem_of_In, filter_In in Hv as [_ ?].
Qed.

Lemma first_occurrences_id seen l : NoDup l → (∀ x, x ∈ l → x ∉ seen) → first_occurrences seen l = l.
Proof.
  revert seen. induction l as [|x l IH]; intros seen; cbn; [done|]. intros [Hx Hd]%NoDup_cons Hs.
  rewrite decide_False by (apply Hs, elem_of_cons; by left). f_equal. apply IH; [done|].
  intros y Hy. rewrite elem_of_app, list_elem_of_singleton. intros [?| ->]; [|done].
  by eapply Hs; [apply elem_of_cons; right|].
Qed.

(** Roots that are clean and neither empty nor in need of trimming stay as they are. *)
Lemma cleaned_roots_id roots : NoDup roots → length roots ≤ MAX_ROOTS_PER_SERVICE →
  (∀ r, r ∈ roots → clean_root r ∧ r ≠ "" ∧ trim r = r) → cleaned_roots roots = roots.
Proof.
  intros Hd Hl Hc. assert (Ha : accepted_roots roots = roots).
  { clear Hd Hl. unfold accepted_roots. induction roots as [|r roots IH]; [done|].
    destruct (Hc r) as (Hr & Hne & Ht); [apply elem_of_cons; by left|].
    rewrite fmap_cons, Ht. cbn [List.filter]. rewrite clean_root_accepted by done.
    rewrite fmap_cons. f_equal; [by apply trim_end_char_id, cr_no_slash|].
    apply IH. intros r' Hr'. apply Hc, elem_of_cons. by right. }
  unfold cleaned_roots. rewrite Ha, first_occurrences_id by (try done; set_solver).
  by apply take_ge.
Qed.

Lemma sanitize_twice policy : bt_wf (ss_services policy) →
  (∀ service r, r ∈ roots_for (sanitize policy) service → r ≠ "" ∧ trim r = r) →
  sanitize (sanitize policy) = sanitize policy.
Proof.
  intros Hw Hr. assert (Hs : ss_services (sanitize (sanitize policy)) = ss_services (sanitize policy)).
  { apply bt_ext; [apply sanitize_wf|apply sanitize_wf|]. intros service.
    rewrite sanitize_get by apply sanitize_wf. specialize (Hr service).
    unfold roots_for in Hr. rewrite sanitize_get in * by done.
    destruct (bt_get service (ss_services policy)) as [roots|]; [|done]. cbn in *.
    destruct (cleaned_roots roots) as [|r rs] eqn:Ec; [done|]. cbn in *.
    assert (Hid : cleaned_roots (r :: rs) = r :: rs); [|by rewrite Hid].
    rewrite <- Ec in *. apply cleaned_roots_id.
    - apply cleaned_roots_nodup.
    - unfold cleaned_roots. rewrite length_take. lia.
    - intros x Hx. split; [by eapply cleaned_roots_clean|by apply Hr]. }
  unfold sanitize in Hs |- *. cbn in Hs |- *. by rewrite Hs.
Qed.
End Roots.

(** * Claims *)

Section Claims.
Context `{PolicyApi} `{!PolicyApiLaws} `{Host} `{!PolicyGateway} `{!Json SourceSearchPolicy}.

(** C28. Over any run of the loop, whatever the gateway answers and however requests fail, the agent
    may send exactly when the answers so far say so: the last grant counts until the next one, a
    credential that was rejected after it puts the agent on standby, and failures, lost requests
    and an unknown endpoint change nothing; polls are thirty seconds apart, failed ones too. *)
Theorem uplink_follows_gateway config turns w :
  ∃ c, policies_run config turns (control_start w) = (Ok tt, c) ∧
    effective_state <$> au_grant (ct_uplink c) = uplink_standing (ct_events c) ∧
    StronglySorted (λ a b, (a + WORK_FETCH_MIN_INTERVAL_MS ≤ b)%Z)
      (asked is_uplink_request (ct_events c)).
Proof.
  destruct (policies_run_run config turns _ (control_start_controlled config w)) as (c & E & [U _ _ PU _ _]).
  exists c. split_and!; [done|done|apply PU].
Qed.

(** Over any run of the loop the snapshot setting in force is the one the gateway handed out
    last, or the local one when there is none or its endpoint became unknown; its interval is
    never below a minute; each poll tells the gateway the setting in force when it was made;
    polls are thirty seconds apart. *)
Theorem snapshot_follows_gateway config turns w :
  ∃ c, policies_run config turns (control_start w) = (Ok tt, c) ∧
    sp_grant (ct_snapshot c) = snapshot_standing (ct_events c) ∧
    (MIN_INTERVAL_SECONDS ≤ es_interval_seconds (effective_policy config (sp_grant (ct_snapshot c))))%Z ∧
    (∀ evs1 evs2 at_ url r answer,
       ct_events c = (evs1 ++ Asked at_ url (RequestSnapshot r) answer :: evs2)%list →
       ps_applied r = Some (snapshot_applied (effective_policy config (snapshot_standing evs1)))) ∧
    StronglySorted (λ a b, (a + WORK_FETCH_MIN_INTERVAL_MS ≤ b)%Z)
      (asked is_snapshot_request (ct_events c)).
Proof.
  destruct (policies_run_run config turns _ (control_start_controlled config w)) as (c & E & [_ S _ _ PS Rp]).
  exists c. split_and!; [done|done| |done|apply PS].
  destruct (sp_grant (ct_snapshot c)); cbn; lia.
Qed.

(** The log tells exactly the changes: a line is written when the state in force changes or
    when a failure differs from the one reported last, and in no other case; the same outcome
    right after is silent. *)
Theorem uplink_logged_exactly now now' outcome st :
  let '(line, st') := uplink_observe now outcome st in
  (is_Some line ↔
     effective_state <$> au_grant st' ≠ effective_state <$> au_grant st ∨
     ∃ signature, (outcome = UplinkFailed signature ∨ outcome = CredentialRejected signature) ∧
       au_last_failure st ≠ Some signature) ∧
  (uplink_observe now' outcome st').1 = None.
Proof.
  assert (Hs : ∀ t, effective_state (standby t) = STANDBY_STATE).
  { intros t. unfold effective_state. by rewrite standby_enabled, standby_host, standby_port. }
  destruct outcome as [grant| |signature|signature]; cbn.
  - rewrite (bool_decide_eq_true_2 (Some _ = Some _)) by done. split; [|done].
    case_bool_decide as Hc; cbn; rewrite ?Hc; split.
    + by intros [? [=]].
    + by intros [?|(? & [[=]|[=]] & _)].
    + intros _. left. congruence.
    + by eexists.
  - split; [|done]. split; [by intros [? [=]]|]. by intros [?|(? & [[=]|[=]] & _)].
  - case_decide as Hl; cbn.
    + rewrite decide_True by done. split; [|done].
      split; [by intros [? [=]]|]. by intros [?|(? & [[= <-]|[=]] & ?)].
    + rewrite decide_True by done. split; [|done]. split; [|by eexists]. intros _. right. eauto.
  - rewrite Hs. rewrite !(bool_decide_eq_true_2 (Some _ = Some _)) by done. cbn. split; [|done].
    case_bool_decide as Hc; cbn; rewrite ?Hc; [|split; [intros _; left; congruence|by eexists]].
    case_bool_decide as Hl; cbn.
    + split; [by intros [? [=]]|]. by intros [?|(? & [[=]|[= <-]] & ?)].
    + split; [intros _; right; eauto|by eexists].
Qed.

(** What may be searched: of the roots a service is given, exactly the acceptable ones are kept,
    without trailing slashes, in order, each once, eight at most; every one is absolute or empty,
    has no parent step and no pattern; a service left without roots is not searched. *)
Theorem sanitize_exact policy service :
  bt_wf (ss_services policy) →
  roots_for (sanitize policy) service =
    take MAX_ROOTS_PER_SERVICE
      (first_occurrences [] (normalized <$> List.filter root_accepted (trim <$> roots_for policy service))) ∧
  (∀ root, root ∈ roots_for (sanitize policy) service → clean_root root) ∧
  NoDup (roots_for (sanitize policy) service) ∧
  bt_get service (ss_services (sanitize policy)) ≠ Some [] ∧
  bt_wf (ss_services (sanitize policy)).
Proof.
  intros Hw. rewrite sanitize_roots_for by done. split_and!.
  - done.
  - intros root. apply cleaned_roots_clean.
  - apply cleaned_roots_nodup.
  - rewrite sanitize_get by done. destruct (bt_get service _) as [roots|]; [|done]. cbn.
    by destruct (cleaned_roots roots).
  - apply sanitize_wf.
Qed.

Lemma returned_policy_twice returned now :
  (∀ service r, r ∈ roots_for (returned_policy returned now) service → r ≠ "" ∧ trim r = r) →
  sanitize (returned_policy returned now) = returned_policy returned now.
Proof. apply sanitize_twice, bt_collect_wf. Qed.

(** A policy that was fetched is on disk: what a restart loads is that policy, sanitised again,
    which is the same policy when no root of it is empty or ends in white space; and a fetch that
    brings nothing leaves the stored one as it is. *)
Theorem search_policy_survives_restart config c :
  fault_free →
  ∃ r c', refresh_search config c = (Ok r, c') ∧
    match r with
    | None => files (ct_world c') = files (ct_world c)
    | Some policy =>
        (search_load (pc_state_dir config) (ct_world c')).1 = Ok (sanitize policy) ∧
        ((∀ service root, root ∈ roots_for policy service → root ≠ "" ∧ trim root = root) →
         sanitize policy = policy)
    end.
Proof.
  intros Hff. destruct (refresh_search_run config c) as (r & c' & E & _ & Hr).
  exists r, c'. split; [done|]. destruct r as [policy|]; [|done].
  destruct Hr as (w & _ & -> & returned & now & ->). rewrite write_json_ff by done. cbn [snd]. split.
  - unfold search_load, try, fs_read, guard_fault, act, mbind, M_bind. rewrite Hff, wrote_lookup.
    cbn. unfold search_parse. by rewrite from_to_json.
  - apply returned_policy_twice.
Qed.
End Claims.

(** * A concrete gateway *)
Module ConcretePolicies.
Import Concrete ConcreteSearch.

#[export] Instance search_policy_eq_dec : EqDecision SourceSearchPolicy.
Proof. solve_decision. Defined.
#[export] Instance search_policy_countable : Countable SourceSearchPolicy.
Proof.
  refine (inj_countable'
    (λ p, (ss_catalog_version p, (ss_services p : list (string * list string)), ss_fetched_at p))
    (λ '(v, s, f), mk_search_policy v s f) _). by intros [].
Defined.

#[export] Instance search_policy_json : Json SourceSearchPolicy := toy_json.

Definition sending : AgentUplinkGrant := mk_uplink_grant true (Some " gw ") (Some 9000%Z) "t".
Definition hourly : DiscoverySnapshotGrant := mk_snapshot_grant true 5 "agent" "t".
Definition served : Returned := mk_returned "v1" POLL_KIND 7
  [mk_service_row "redis" ["/data/"; "/data"; "relative"; "/srv"]; mk_service_row "mysql" ["/"]] "t".

(** Bodies are one word each; an empty body is no JSON. *)
#[export] Instance toy_api : PolicyApi := {|
  API_VERSION_V1 := "v1";
  APPLIED_SOURCE_CONTROL_PLANE := "control_plane";
  APPLIED_SOURCE_LOCAL_CONFIG := "local_config";
  target g := match ug_host g, ug_port g with Some h, Some p => Some (trim h, p) | _, _ => None end;
  standby t := mk_uplink_grant false None None t;
  display_status status := pretty status;
  decode_uplink_grant s := if String.eqb s "sending" then inr sending else inl "not JSON";
  decode_snapshot_grant s := if String.eqb s "hourly" then inr hourly else inl "not JSON";
  decode_returned s := if String.eqb s "served" then inr served else inl "not JSON";
|}.

#[export] Instance toy_api_laws : PolicyApiLaws.
Proof. by split. Qed.

(** The gateway grants at first, revokes everything from the seventh request on: 401 for sending,
    204 for the snapshot setting. *)
#[export] Instance toy_gateway : PolicyGateway := {|
  exchange url request evs w :=
    match request with
    | RequestUplink _ =>
        if Nat.ltb (length evs) 6 then Responded 200 (inr "sending")
        else Responded 401 (inr "agent identity rejected: certificate_revoked")
    | RequestSnapshot _ =>
        if Nat.ltb (length evs) 6 then Responded 200 (inr "hourly") else Responded 204 (inr "")
    | RequestSearch _ => Responded 200 (inr "served")
    end;
  exchange_takes _ _ _ _ := 10%N;
|}.

Definition config : PolicyConfig :=
  mk_policy_config (Some "https://gw/") (Some "agent-x") None "state" true 3600.
Definition turns : list (N * bool) := [(0%N, false); (3000%N, false); (30000%N, true); (40000%N, false)].
Definition ended : Control := (policies_run config turns (control_start empty_world)).2.

Example toy_uplink_standby : effective_state <$> au_grant (ct_uplink ended) = Some STANDBY_STATE.
Proof. vm_compute. reflexivity. Qed.
Example toy_uplink_polls : asked is_uplink_request (ct_events ended) = [10; 33040; 73060]%Z.
Proof. vm_compute. reflexivity. Qed.

(** The gateway answers 204 to say that there is no setting any more; [is_success] holds of 204,
    so the arm for it is never reached, the empty body fails to decode, and the setting stays. *)
Example revocation_by_204_is_ignored :
  snapshot_outcome "gw" (Responded NO_CONTENT (inr "")) =
    SnapshotFailed "invalid response from gw: not JSON" ∧
  sp_grant (ct_snapshot ended) = Some hourly.
Proof. split; vm_compute; reflexivity. Qed.

(** Roots that mean the root of the file system and are kept all the same. *)
Definition tampered : SourceSearchPolicy :=
  mk_search_policy 1 [("mysql", ["/."; "/data/.. /"; "//"])] "t".

Example root_in_disguise_is_kept :
  roots_for (sanitize tampered) "mysql" = ["/."; "/data/.. "; ""] ∧
  Forall (λ r, usable_root (trim r) = true) ["/."; "/data/.. "] ∧
  trim "/data/.. " = "/data/.." ∧
  listings (se_trace (search "postgresql" (roots_for (sanitize tampered) "mysql") 0).2) =
    [Listed 0 "/."; Listed 1 "/./srv"; Listed 2 "/./srv/db"].
Proof. split_and!; [vm_compute; reflexivity|repeat constructor|vm_compute; reflexivity..]. Qed.

Lemma uplink_follows_gateway_witness :
  ∃ c, policies_run config turns (control_start empty_world) = (Ok tt, c) ∧
    effective_state <$> au_grant (ct_uplink c) = uplink_standing (ct_events c) ∧
    StronglySorted (λ a b, (a + WORK_FETCH_MIN_INTERVAL_MS ≤ b)%Z)
      (asked is_uplink_request (ct_events c)).
Proof. exact (uplink_follows_gateway config turns empty_world). Defined.

Lemma snapshot_follows_gateway_witness :
  ∃ c, policies_run config turns (control_start empty_world) = (Ok tt, c) ∧
    sp_grant (ct_snapshot c) = snapshot_standing (ct_events c).
Proof.
  destruct (snapshot_follows_gateway config turns empty_world) as (c & E & S & _).
  exists c. split; [exact E|exact S].
Defined.

Lemma uplink_logged_exactly_witness :
  (uplink_observe "now" (CredentialRejected "http 401")
     (uplink_observe "then" (UplinkGranted sending) applied_uplink_default).2).1 ≠ None.
Proof.
  set (st := (uplink_observe "then" (UplinkGranted sending) applied_uplink_default).2).
  pose proof (uplink_logged_exactly "now" "later" (CredentialRejected "http 401") st) as Hx.
  destruct (uplink_observe "now" (CredentialRejected "http 401") st) as [line st'] eqn:E.
  destruct Hx as [[_ Hl] _]. destruct Hl as [x Hx].
  - left. vm_compute in E. injection E as _ <-. vm_compute. discriminate.
  - cbn. rewrite Hx. discriminate.
Defined.

Lemma sanitize_exact_witness :
  roots_for (sanitize tampered) "mysql" = ["/."; "/data/.. "; ""] ∧
  NoDup (roots_for (sanitize tampered) "mysql").
Proof.
  destruct (sanitize_exact tampered "mysql") as (Hx & _ & Hn & _).
  - repeat constructor.
  - split; [rewrite Hx; vm_compute; reflexivity|exact Hn].
Defined.

Lemma search_policy_survives_restart_witness :
  ∃ r c', refresh_search config (control_start empty_world) = (Ok r, c') ∧
    match r with
    | None => files (ct_world c') = files (ct_world (control_start empty_world))
    | Some policy =>
        (search_load (pc_state_dir config) (ct_world c')).1 = Ok (sanitize policy) ∧
        ((∀ service root, root ∈ roots_for policy service → root ≠ "" ∧ trim root = root) →
         sanitize policy = policy)
    end.
Proof. exact (search_policy_survives_restart config _ toy_fault_free). Defined.

Example toy_policy_stored :
  roots_for (sanitize (returned_policy served "now")) "redis" = ["/data"; "/srv"] ∧
  bt_get "mysql" (ss_services (returned_policy served "now")) = None.
Proof. split; vm_compute; reflexivity. Qed.
End ConcretePolicies.
