(* ===== verification/Requests.v ===== *)
(** What a command of the gateway asks for: the parameters of an investigation (investigate.rs) and
    of a path probe (control/preflight.rs), and the probe itself (reporting/fact_summary.rs).
    Parsing text as JSON is serde_json and a parameter; what is made of the value is as in the
    code. *)
From S2P Require Import Prelude Text Host BTree Fmt.
From stdpp Require Import pretty.

(** * JSON values *)

(** [serde_json::Value]; a number is kept as what [as_u64] makes of it. *)
#[warnings="-register-all"]
Inductive Value :=
| VNull
| VBool (b : bool)
| VNumber (as_u64 : option Z)
| VString (s : string)
| VArray (l : list Value)
| VObject (m : list (string * Value)).

(** The value of a text, or the message of the error. *)
Class JsonText := { parse_value : string → string + Value }.

Definition value_get (key : string) (v : Value) : option Value :=
  match v with VObject m => bt_get key m | _ => None end.
Definition as_str (v : Value) : option string := match v with VString s => Some s | _ => None end.
Definition as_array (v : Value) : option (list Value) := match v with VArray l => Some l | _ => None end.
Definition as_u64 (v : Value) : option Z := match v with VNumber n => n | _ => None end.

(** * investigate.rs *)

Definition TOPIC_DISK : string := "disk".
Definition TOPIC_LOAD : string := "load".
Definition TOPIC_ACCOUNTS : string := "accounts".
Definition TOPIC_PERSISTENCE : string := "persistence".
Definition TOPIC_EXPOSURE : string := "exposure".
Definition TOPIC_TELEMETRY : string := "telemetry-health".
Definition TOPICS : list string :=
  [TOPIC_DISK; TOPIC_LOAD; TOPIC_ACCOUNTS; TOPIC_PERSISTENCE; TOPIC_EXPOSURE; TOPIC_TELEMETRY].

Definition DEFAULT_TOP : Z := 10.
Definition MAX_TOP : Z := 50.
Definition DEFAULT_DEPTH : Z := 16.
Definition MAX_DEPTH : Z := 64.
Definition DEFAULT_MAX_SCAN_SECONDS : Z := 120.
Definition MAX_SCAN_SECONDS : Z := 300.

Record InvestigateRequest := mk_investigate {
  iv_topic : string;
  iv_path : option string;
  iv_top : Z;
  iv_min_size : Z;
  iv_depth : Z;
  iv_max_seconds : Z;
}.

Definition investigate_default : InvestigateRequest :=
  mk_investigate TOPIC_DISK None DEFAULT_TOP 0 DEFAULT_DEPTH DEFAULT_MAX_SCAN_SECONDS.

(** [InvestigateRequest::for_topic] *)
Definition for_topic (topic : string) : string + InvestigateRequest :=
  let topic := trim topic in
  if String.eqb topic "" then inr investigate_default
  else if negb (existsb (String.eqb topic) TOPICS) then
    inl ("unknown investigation topic `" +:+ topic +:+ "` (supported: " +:+ Text.join " | " TOPICS +:+ ")")
  else inr (mk_investigate topic None DEFAULT_TOP 0 DEFAULT_DEPTH DEFAULT_MAX_SCAN_SECONDS).

Definition clamp (x lo hi : Z) : Z := Z.max lo (Z.min x hi).

(** [InvestigateRequest::normalize] *)
Definition normalize (r : InvestigateRequest) : InvestigateRequest :=
  mk_investigate (iv_topic r) (iv_path r) (clamp (iv_top r) 1 MAX_TOP) (iv_min_size r)
    (clamp (iv_depth r) 1 MAX_DEPTH) (clamp (iv_max_seconds r) 1 MAX_SCAN_SECONDS).

(** The optional fields of the parameters, each read if it has the right type. *)
Definition with_path (v : Value) (r : InvestigateRequest) : InvestigateRequest :=
  match value_get "path" v ≫= as_str with
  | Some path =>
      let path := trim path in
      if starts_with "/" path then
        mk_investigate (iv_topic r) (Some path) (iv_top r) (iv_min_size r) (iv_depth r) (iv_max_seconds r)
      else r
  | None => r
  end.
Definition with_numbers (v : Value) (r : InvestigateRequest) : InvestigateRequest :=
  mk_investigate (iv_topic r) (iv_path r)
    (default (iv_top r) (value_get "top" v ≫= as_u64))
    (default (iv_min_size r) (value_get "min_size" v ≫= as_u64))
    (default (iv_depth r) (value_get "depth" v ≫= as_u64))
    (default (iv_max_seconds r) (value_get "max_seconds" v ≫= as_u64)).

Section Params.
Context `{JsonText}.

(** [InvestigateRequest::from_params] *)
Definition from_params (params : string) : string + InvestigateRequest :=
  let params := trim params in
  if String.eqb params "" then inr investigate_default
  else
    match parse_value params with
    | inl err => inl ("investigate params 不是合法 JSON：" +:+ err)
    | inr value =>
        match value with
        | VObject _ =>
            match for_topic (default TOPIC_DISK (value_get "topic" value ≫= as_str)) with
            | inl err => inl err
            | inr request => inr (normalize (with_numbers value (with_path value request)))
            end
        | _ => inl "investigate params 必须是 JSON 对象"
        end
    end.

(** * control/preflight.rs: recognising a path probe *)

Definition MAX_PROBE_PATHS : nat := 512.

(** [parse_probe_request]: the paths to probe. *)
Definition parse_probe_request (params : string) : option (list string) :=
  let params := trim params in
  if String.eqb params "" then None
  else
    match parse_value params with
    | inl _ => None
    | inr value =>
        if decide (value_get "scope" value ≫= as_str = Some "paths") then
          items ← value_get "paths" value ≫= as_array;
          match take MAX_PROBE_PATHS (List.filter (starts_with "/") (trim <$> omap as_str items)) with
          | [] => None
          | paths => Some paths
          end
        else None
    end.
End Params.

(** * reporting/fact_summary.rs: [probe_paths] *)

Record PathProbeReport := mk_probe_report {
  pp_probed : btree unit;
  pp_present : btree unit;
  pp_unreadable : list (string * string);
}.
Definition probe_report_default : PathProbeReport := mk_probe_report [] [] [].

Section Probe.
Context `{Host}.

(** One path: it exists, it is known not to, or it cannot be told. *)
Definition probe_path (path : string) (report : PathProbeReport) : M World PathProbeReport :=
  let path := trim path in
  if String.eqb path "" || negb (starts_with "/" path) then mret report
  else
    r ← try (fs_metadata path);
    match r with
    | Ok _ =>
        mret (mk_probe_report (bt_insert path tt (pp_probed report))
                (bt_insert path tt (pp_present report)) (pp_unreadable report))
    | Err err =>
        if decide (io_kind err = NotFound) then
          mret (mk_probe_report (bt_insert path tt (pp_probed report)) (pp_present report)
                  (pp_unreadable report))
        else
          mret (mk_probe_report (pp_probed report) (pp_present report)
                  (pp_unreadable report ++ [(path, io_msg err)]))
    end.

Fixpoint probe_all (paths : list string) (report : PathProbeReport) : M World PathProbeReport :=
  match paths with
  | [] => mret report
  | path :: paths => report ← probe_path path report; probe_all paths report
  end.

Definition probe_paths (paths : list string) : M World PathProbeReport :=
  probe_all paths probe_report_default.
End Probe.

(** [preflight::summarize] *)
Definition summarize (probe : PathProbeReport) : string :=
  "probed=" +:+ pretty (Z.of_nat (length (pp_probed probe))) +:+
  " present=" +:+ pretty (Z.of_nat (length (pp_present probe))) +:+
  match pp_unreadable probe with
  | [] => ""
  | l => " unreadable=" +:+ pretty (Z.of_nat (length l))
  end.

(** * Claims *)

Section RequestFacts.
Context `{JsonText}.

(** A request whose values are in range; the scan of any investigation is bounded by them. *)
Record well_formed (r : InvestigateRequest) : Prop := {
  wf_topic : iv_topic r ∈ TOPICS;
  wf_path : ∀ path, iv_path r = Some path → starts_with "/" path = true;
  wf_top : (1 ≤ iv_top r ≤ MAX_TOP)%Z;
  wf_depth : (1 ≤ iv_depth r ≤ MAX_DEPTH)%Z;
  wf_seconds : (1 ≤ iv_max_seconds r ≤ MAX_SCAN_SECONDS)%Z;
}.

Lemma investigate_default_wf : well_formed investigate_default.
Proof.
  split; cbn; unfold DEFAULT_TOP, MAX_TOP, DEFAULT_DEPTH, MAX_DEPTH, DEFAULT_MAX_SCAN_SECONDS,
    MAX_SCAN_SECONDS; try lia; [apply elem_of_cons; by left|done].
Qed.

Lemma for_topic_wf topic r : for_topic topic = inr r → well_formed r.
Proof.
  unfold for_topic. destruct (String.eqb _ ""); [intros [= <-]; apply investigate_default_wf|].
  destruct (existsb (String.eqb (trim topic)) TOPICS) eqn:E; cbn [negb]; [|done]. intros [= <-].
  apply existsb_exists in E as (t & Ht & Heq). apply String.eqb_eq in Heq as ->.
  destruct investigate_default_wf. split; try done. by apply list_elem_of_In.
Qed.

Lemma with_path_wf v r : well_formed r → well_formed (with_path v r).
Proof.
  intros Hr. unfold with_path. destruct (_ ≫= as_str) as [path|]; [|done].
  destruct (starts_with "/" (trim path)) eqn:E; [|done]. destruct Hr. split; try done.
  by intros p [= <-].
Qed.

Lemma clamp_in x lo hi : (lo ≤ hi)%Z → (lo ≤ clamp x lo hi ≤ hi)%Z.
Proof. unfold clamp. lia. Qed.

Lemma normalize_wf r : iv_topic r ∈ TOPICS →
  (∀ path, iv_path r = Some path → starts_with "/" path = true) → well_formed (normalize r).
Proof. intros Ht Hp. split; cbn; auto; by apply clamp_in. Qed.

Lemma normalize_id r : well_formed r → normalize r = r.
Proof.
  intros [_ _ H1' H2' H3']. destruct r as [topic path top size depth secs]. cbn in *. unfold normalize. cbn.
  f_equal; unfold clamp; lia.
Qed.

(** An investigation the gateway asks for is in range whatever the text of its parameters: its
    topic is a known one, its path absolute, its limits within theirs, and normalising it again
    changes nothing; parameters are refused exactly when they are no JSON, no object, or name an
    unknown topic. *)
Theorem investigation_in_range params :
  match from_params params with
  | inr r => well_formed r ∧ normalize r = r
  | inl _ => trim params ≠ "" ∧
      match parse_value (trim params) with
      | inr (VObject m) => trim (default TOPIC_DISK (bt_get "topic" m ≫= as_str)) ∉ "" :: TOPICS
      | _ => True
      end
  end.
Proof.
  assert (Hg : ∀ r, well_formed r → well_formed r ∧ normalize r = r) by auto using normalize_id.
  unfold from_params. destruct (String.eqb_spec (trim params) "") as [|Hne].
  { apply Hg, investigate_default_wf. }
  destruct (parse_value (trim params)) as [err|v]; [done|].
  destruct v as [| | | | |m]; try done. cbn [value_get].
  destruct (for_topic _) as [err|r] eqn:E.
  - split; [done|]. unfold for_topic in E.
    destruct (String.eqb_spec (trim (default TOPIC_DISK (bt_get "topic" m ≫= as_str))) "") as [|Ht]; [done|].
    destruct (existsb _ TOPICS) eqn:Ex; cbn [negb] in E; [done|].
    intros [?|Hin]%elem_of_cons; [done|]. apply not_true_iff_false in Ex. apply Ex.
    apply existsb_exists. eexists. split; [by apply list_elem_of_In|]. by apply String.eqb_eq.
  - apply Hg. destruct (with_path_wf (VObject m) r (for_topic_wf _ _ E)) as [Ht Hp _ _ _].
    by apply normalize_wf.
Qed.

Lemma filter_take_in {A} (p : A → bool) n l x : x ∈ take n (List.filter p l) → x ∈ l ∧ p x = true.
Proof.
  intros Hx. assert (Hf : x ∈ List.filter p l).
  { rewrite <- (take_drop n (List.filter p l)). apply elem_of_app. by left. }
  by apply list_elem_of_In, filter_In in Hf as [?%list_elem_of_In ?].
Qed.

Lemma parse_probe_request_spec params paths : parse_probe_request params = Some paths →
  paths ≠ [] ∧ length paths ≤ MAX_PROBE_PATHS ∧ ∀ p, p ∈ paths → starts_with "/" p = true.
Proof.
  unfold parse_probe_request. destruct (String.eqb _ ""); [done|].
  destruct (parse_value _) as [|v]; [done|]. case_decide; [|done].
  destruct (value_get "paths" v ≫= as_array) as [items|]; [|done]. cbn [mbind option_bind].
  set (l := take _ _). destruct l as [|p l'] eqn:El; [done|]. intros [= <-]. rewrite <- El.
  split_and!; [by rewrite El| |].
  - unfold l. rewrite length_take. lia.
  - intros q Hq. by apply filter_take_in in Hq as [_ ?].
Qed.
End RequestFacts.

Section ProbeFacts.
Context `{Host}.

(** A path as it is probed, and what can be told of it. *)
Definition probed_as (raw path : string) : Prop :=
  path = trim raw ∧ path ≠ "" ∧ starts_with "/" path = true.
Definition tellable (w : World) (path : string) : Prop :=
  match fs_fault OpMetadata path with Some err => io_kind err = NotFound | None => True end.
Definition exists_ (w : World) (path : string) : Prop :=
  fs_fault OpMetadata path = None ∧ fs_exists path w = true.

Definition in_set (path : string) (m : btree unit) : Prop := path ∈ fst <$> m.

Lemma in_set_insert x p (m : btree unit) : in_set x (bt_insert p tt m) ↔ x = p ∨ in_set x m.
Proof.
  unfold in_set. split; [apply bt_insert_keys|]. intros Hx. apply dec_stable. intros Hn.
  apply bt_get_not_in in Hn. destruct Hx as [->|Hx]; [by rewrite bt_get_insert_eq in Hn|].
  destruct (decide (x = p)) as [->|]; [by rewrite bt_get_insert_eq in Hn|].
  rewrite bt_get_insert_ne in Hn by done. by apply bt_get_not_in in Hn.
Qed.

Record probe_spec (w : World) (seen : list string) (r : PathProbeReport) : Prop := {
  ps_probed : ∀ x, in_set x (pp_probed r) ↔ ∃ raw, raw ∈ seen ∧ probed_as raw x ∧ tellable w x;
  ps_present : ∀ x, in_set x (pp_present r) ↔ ∃ raw, raw ∈ seen ∧ probed_as raw x ∧ exists_ w x;
  ps_unreadable : ∀ x, x ∈ fst <$> pp_unreadable r ↔
    ∃ raw, raw ∈ seen ∧ probed_as raw x ∧ ¬ tellable w x;
  ps_sorted : bt_wf (pp_probed r) ∧ bt_wf (pp_present r);
}.

Lemma snoc_ex (seen : list string) path (Q : string → Prop) :
  (∃ raw, raw ∈ seen ++ [path] ∧ Q raw) ↔ (∃ raw, raw ∈ seen ∧ Q raw) ∨ Q path.
Proof. setoid_rewrite elem_of_app. setoid_rewrite list_elem_of_singleton. naive_solver. Qed.

(** One more path, given what it adds to each of the three sets. *)
Lemma probe_spec_snoc w seen r r' path :
  probe_spec w seen r →
  (∀ x, in_set x (pp_probed r') ↔ in_set x (pp_probed r) ∨ (probed_as path x ∧ tellable w x)) →
  (∀ x, in_set x (pp_present r') ↔ in_set x (pp_present r) ∨ (probed_as path x ∧ exists_ w x)) →
  (∀ x, x ∈ fst <$> pp_unreadable r' ↔
     x ∈ fst <$> pp_unreadable r ∨ (probed_as path x ∧ ¬ tellable w x)) →
  bt_wf (pp_probed r') ∧ bt_wf (pp_present r') →
  probe_spec w (seen ++ [path]) r'.
Proof.
  intros [P E U S] P' E' U' S'. split; [| | |done]; intros x.
  - rewrite P', P. by rewrite (snoc_ex seen path (λ raw, probed_as raw x ∧ tellable w x)).
  - rewrite E', E. by rewrite (snoc_ex seen path (λ raw, probed_as raw x ∧ exists_ w x)).
  - rewrite U', U. by rewrite (snoc_ex seen path (λ raw, probed_as raw x ∧ ¬ tellable w x)).
Qed.

(** How a set changes at the one path that is probed. *)
Lemma set_kept {q} {Q P : string → Prop} : ¬ Q q → ∀ x, P x ↔ P x ∨ (x = q ∧ Q x).
Proof. intros Hq x. split; [by left|]. by intros [?|[-> ?]]. Qed.
Lemma set_added {q} {Q : string → Prop} {m} : Q q →
  ∀ x, in_set x (bt_insert q tt m) ↔ in_set x m ∨ (x = q ∧ Q x).
Proof.
  intros Hq x. rewrite in_set_insert. split; [intros [->|?]; [by right|by left]|].
  intros [?|[-> _]]; [by right|by left].
Qed.
Lemma list_added {q e} {Q : string → Prop} {l : list (string * string)} : Q q →
  ∀ x, x ∈ fst <$> l ++ [(q, e)] ↔ x ∈ fst <$> l ∨ (x = q ∧ Q x).
Proof.
  intros Hq x. rewrite fmap_app, elem_of_app. cbn. rewrite list_elem_of_singleton.
  split; (intros [?|Hx]; [by left|right]); [by subst|tauto].
Qed.

Lemma probe_path_spec w seen r path : probe_spec w seen r →
  ∃ r', probe_path path r w = (Ok r', w) ∧ probe_spec w (seen ++ [path]) r'.
Proof.
  intros Hs. pose proof (ps_sorted _ _ _ Hs) as [S1 S2]. unfold probe_path.
  destruct (String.eqb (trim path) "" || negb (starts_with "/" (trim path))) eqn:Hu.
  { exists r. split; [done|].
    assert (Hn : ∀ x, ¬ probed_as path x).
    { intros x (-> & Hne & Ha). rewrite Ha, orb_false_r in Hu. by apply String.eqb_eq in Hu. }
    apply probe_spec_snoc with r; [done|..|done]; intros x; specialize (Hn x); tauto. }
  apply orb_false_iff in Hu as [Hne%String.eqb_neq Ha%negb_false_iff].
  assert (Hp : ∀ x, probed_as path x ↔ x = trim path) by (unfold probed_as; naive_solver).
  assert (Hstep : ∀ r',
    (∀ x, in_set x (pp_probed r') ↔ in_set x (pp_probed r) ∨ (x = trim path ∧ tellable w x)) →
    (∀ x, in_set x (pp_present r') ↔ in_set x (pp_present r) ∨ (x = trim path ∧ exists_ w x)) →
    (∀ x, x ∈ fst <$> pp_unreadable r' ↔ x ∈ fst <$> pp_unreadable r ∨ (x = trim path ∧ ¬ tellable w x)) →
    bt_wf (pp_probed r') ∧ bt_wf (pp_present r') → probe_spec w (seen ++ [path]) r').
  { intros r' P E U S. apply probe_spec_snoc with r; try done; intros x; by rewrite Hp. }
  generalize dependent (trim path). intros q _ _ _ Hstep.
  unfold fs_metadata, guard_fault, act, try, mbind, M_bind.
  destruct (fs_fault OpMetadata q) as [err|] eqn:Ef.
  - assert (Hex : ¬ exists_ w q) by (intros [? _]; congruence).
    assert (Htl : tellable w q ↔ io_kind err = NotFound) by (unfold tellable; by rewrite Ef).
    cbn. case_decide as Hk; (eexists; split; [done|]); apply Hstep; cbn; auto using bt_insert_wf.
    + apply set_added. tauto.
    + by apply set_kept.
    + apply set_kept. tauto.
    + apply set_kept. tauto.
    + by apply set_kept.
    + apply list_added. tauto.
  - assert (Htl : tellable w q) by (unfold tellable; by rewrite Ef).
    destruct (fs_exists q w) eqn:Ex; cbn; (eexists; split; [done|]); apply Hstep; cbn;
      auto using bt_insert_wf.
    + by apply set_added.
    + by apply set_added.
    + apply set_kept. tauto.
    + by apply set_added.
    + apply set_kept. intros [_ ?]. congruence.
    + apply set_kept. tauto.
Qed.

Lemma probe_all_spec w seen paths r : probe_spec w seen r →
  ∃ r', probe_all paths r w = (Ok r', w) ∧ probe_spec w (seen ++ paths) r'.
Proof.
  revert seen r. induction paths as [|path paths IH]; intros seen r Hs; cbn [probe_all].
  { exists r. by rewrite (right_id_L [] (++)). }
  destruct (probe_path_spec w seen r path Hs) as (r1 & E1 & H1'). erewrite bind_ok by done.
  destruct (IH _ _ H1') as (r2 & -> & H2'). exists r2. split; [done|].
  by rewrite <- (assoc_L (++)) in H2'.
Qed.

Lemma probe_paths_run paths w : ∃ r, probe_paths paths w = (Ok r, w) ∧ probe_spec w paths r.
Proof.
  destruct (probe_all_spec w [] paths probe_report_default) as (r & E & S); [|by exists r].
  assert (Hnil : ∀ (Q : string → Prop) (x : string), x ∈ [] ↔ ∃ raw, raw ∈ [] ∧ probed_as raw x ∧ Q x).
  { intros Q x. split; [by intros ?%elem_of_nil|by intros (? & ?%elem_of_nil & _)]. }
  split; [exact (Hnil (tellable w))|exact (Hnil (exists_ w))|exact (Hnil (λ x, ¬ tellable w x))|].
  split; apply bt_nil_wf.
Qed.

(** A path probe tells the truth and tells the three cases apart: of the absolute paths asked for,
    those reported present are exactly those that exist, those reported probed are exactly those
    whose existence could be told, every other one is reported unreadable, and nothing is
    changed on the host. *)
Theorem probe_exact paths w :
  ∃ r, probe_paths paths w = (Ok r, w) ∧
    (∀ x, in_set x (pp_probed r) ↔ ∃ raw, raw ∈ paths ∧ probed_as raw x ∧ tellable w x) ∧
    (∀ x, in_set x (pp_present r) ↔ ∃ raw, raw ∈ paths ∧ probed_as raw x ∧ exists_ w x) ∧
    (∀ x, x ∈ fst <$> pp_unreadable r ↔ ∃ raw, raw ∈ paths ∧ probed_as raw x ∧ ¬ tellable w x) ∧
    bt_wf (pp_probed r) ∧ bt_wf (pp_present r).
Proof.
  destruct (probe_paths_run paths w) as (r & E & [P Ex U [S1 S2]]). exists r. by split_and!.
Qed.
End ProbeFacts.

(** * Concrete requests *)
Module ConcreteRequests.
Import Concrete.

#[export] Instance toy_json_text : JsonText := {|
  parse_value s :=
    if String.eqb s "disk" then
      inr (VObject [("depth", VNumber (Some 900%Z)); ("path", VString " /srv "); ("topic", VString "disk")])
    else if String.eqb s "paths" then
      inr (VObject [("paths", VArray [VString "/etc"; VNull; VString "etc"]); ("scope", VString "paths")])
    else inl "expected value";
|}.

Example toy_params : from_params " disk " = inr (mk_investigate "disk" (Some "/srv") 10 0 64 120).
Proof. vm_compute. reflexivity. Qed.
Example toy_probe_request : parse_probe_request "paths" = Some ["/etc"].
Proof. vm_compute. reflexivity. Qed.
Example toy_bad_params : ∃ err, from_params "{" = inl err.
Proof. eexists. vm_compute. reflexivity. Qed.
End ConcreteRequests.
