(* ===== verification/Commands.v ===== *)
(** One-shot commands: the history and the local request of state_store/commands.rs, and the part of
    runtime/daemon.rs that takes commands from the gateway and from the local request, decides
    each, runs it or hands it to a task, records its result and acknowledges it. *)
From S2P Require Import Prelude Text Host Fmt Throttle BTree Requests.
From stdpp Require Import pretty.

(** * Data *)

(** [wist_api::status]; a command is all the gateway says of it. *)
Record AgentCommand := mk_command {
  ac_command_id : string;
  ac_requested_at_ms : Z;
  ac_kind : string;
  ac_params : string;
}.
Record AgentCommandAck := mk_command_ack {
  ak_command_id : string;
  ak_outcome : string;
  ak_detail : string;
}.

#[export] Instance command_eq_dec : EqDecision AgentCommand.
Proof. solve_decision. Defined.

(** [wist_api::status::command_kind] and [command_outcome]. *)
Class CommandVocabulary := {
  REFRESH_FACTS : string;
  INVESTIGATE : string;
  SUCCEEDED : string;
  FAILED : string;
  UNSUPPORTED : string;
  STALE : string;
  THROTTLED : string;
  ACCEPTED : string;
  NO_UPLINK : string;
}.
(** The two kinds are different words. *)
Class CommandVocabularyLaws `{CommandVocabulary} : Prop := { kinds_differ : REFRESH_FACTS ≠ INVESTIGATE }.

(** ** state_store/commands.rs *)

Definition HISTORY_LIMIT : nat := 64.
Definition REQUEST_FILE : string := "command.request.json".
Definition HISTORY_FILE : string := "command_history.json".

Record CommandRecord := mk_command_record {
  cr_command_id : string;
  cr_kind : string;
  cr_outcome : string;
  cr_detail : string;
  cr_completed_at_ms : Z;
}.

(** [CommandHistory]: its entries, oldest first. *)
Record CommandHistory := mk_history { ch_entries : list CommandRecord }.
Definition history_default : CommandHistory := mk_history [].

Definition is_record_of (command_id : string) (entry : CommandRecord) : bool :=
  String.eqb (cr_command_id entry) command_id.

(** [CommandHistory::find] *)
Definition history_find (command_id : string) (h : CommandHistory) : option CommandRecord :=
  find_first (is_record_of command_id) (rev (ch_entries h)).

(** [CommandHistory::record] *)
Definition history_record (record : CommandRecord) (h : CommandHistory) : CommandHistory :=
  let entries :=
    (List.filter (λ entry, negb (is_record_of (cr_command_id record) entry)) (ch_entries h)
     ++ [record])%list in
  mk_history (if Nat.ltb HISTORY_LIMIT (length entries)
              then drop (length entries - HISTORY_LIMIT) entries else entries).

Definition request_path (state_dir : string) : string := path_join state_dir REQUEST_FILE.
Definition history_path (state_dir : string) : string := path_join state_dir HISTORY_FILE.

Inductive SubmitOutcome := Queued | AlreadyPending (command : AgentCommand).

Section CommandStore.
Context `{Host} `{!Json AgentCommand} `{!Json CommandHistory}.

Definition read_request_async (state_dir : string) : M World (option AgentCommand) :=
  r ← try (read_json_async (request_path state_dir));
  match r with
  | Ok command => mret (Some command)
  | Err err => if decide (io_kind err = NotFound) then mret None else throw err
  end.

Definition submit_request_async (state_dir : string) (command : AgentCommand) :
    M World SubmitOutcome :=
  r ← try (read_request_async state_dir);
  match r with
  | Ok (Some pending) => mret (AlreadyPending pending)
  | _ => write_json_atomic_async (request_path state_dir) command;; mret Queued
  end.

Definition remove_request_async (state_dir : string) : M World unit :=
  r ← try (fs_remove (request_path state_dir));
  match r with
  | Ok _ => mret tt
  | Err err => if decide (io_kind err = NotFound) then mret tt else throw err
  end.

Definition load_history_async (state_dir : string) : M World CommandHistory :=
  r ← try (read_json_async (history_path state_dir));
  match r with
  | Ok history => mret history
  | Err err => if decide (io_kind err = NotFound) then mret history_default else throw err
  end.

Definition store_history_async (state_dir : string) (history : CommandHistory) : M World unit :=
  write_json_atomic_async (history_path state_dir) history.

(** [take_local_command]: the request is removed before it is handled; failures are logged. *)
Definition take_local_command (state_dir : string) : M World (option AgentCommand) :=
  r ← try (read_request_async state_dir);
  match r with
  | Ok (Some command) => try (remove_request_async state_dir);; mret (Some command)
  | Ok None => mret None
  | Err _ => try (remove_request_async state_dir);; mret None
  end.
End CommandStore.

(** ** runtime/daemon.rs *)

Definition COMMAND_STALE_MS : Z := 10 * 60 * 1000.

Inductive CommandSource := Local | Remote.
#[export] Instance command_source_eq_dec : EqDecision CommandSource.
Proof. solve_decision. Defined.

(** A running investigation; the task itself is outside the state. *)
Record InflightInvestigation := mk_inflight { if_command : AgentCommand; if_source : CommandSource }.

Inductive CommandVerdict :=
| VUnsupported
| VStale
| VThrottled
| AcceptRefresh
| AcceptProbe (paths : list string)
| AcceptInvestigate (request : InvestigateRequest)
| BadInvestigateParams (detail : string).

(** The health of the probes after a tick, as far as a refresh reports it. *)
Record ProbeHealth := mk_probe_health { ph_probe : string; ph_status : string; ph_error : option string }.
Record Health := mk_health { hl_probes : list ProbeHealth; hl_failure_count : Z }.
Record FactReportAttempt := mk_attempt { at_attempted : bool; at_reported : bool; at_error : option string }.

(** [CommandTurn] *)
Record CommandTurn := mk_turn {
  tn_accepted_refresh : option (AgentCommand * CommandSource);
  tn_acks : list AgentCommandAck;
  tn_history_dirty : bool;
}.

(** What happened, in order: a command began to be executed at an instant, a result was recorded, a
    status report with its acks was answered, and the report of the terminal state, which carries no
    acks, was. *)
Inductive Execution := Refresh | Probe | Investigation.
Inductive CommandEvent :=
| Executed (at_ : Z) (command : AgentCommand) (what : Execution)
| CommandRecorded (record : CommandRecord)
| StatusReported (acks : list AgentCommandAck) (reply : option (list AgentCommand))
| TerminalReported (reply : option (list AgentCommand)).

(** How a turn begins: as any other, in the terminal state, or there with a report that is answered with
    the commands of the gateway or with none. *)
Inductive TurnStart := Regular | TerminalWait | TerminalAsked (reply : option (list AgentCommand)).

(** The result of a task that ended, or of one that was interrupted. *)
Inductive TaskResult := TaskReport (report path : string) | TaskFailed (detail : string) | TaskInterrupted (err : string).

(** What the commands reach: what a turn does about the identity before it comes to the commands (the
    terminal state and the renewal, modelled in Terminal.v), posting a probe's result, the tasks of the investigations, delivering
    a report, the tick itself, and the status report.  Each may depend on all that happened and
    takes its time. *)
Class CommandHost `{Os} := {
  begin_turn : list CommandEvent → World → TurnStart * N;
  post_report : PathProbeReport → list CommandEvent → World → (string + unit) * N;
  task_result : AgentCommand → list CommandEvent → World → option TaskResult;
  deliver_investigation : AgentCommand → string → string → list CommandEvent → World → string * N;
  run_once : bool → list CommandEvent → World → result (Health * FactReportAttempt) * N;
  report_status : list AgentCommandAck → list CommandEvent → World → option (list AgentCommand) * N;
}.

Record CommandConfig := mk_command_config {
  cf_state_dir : string;
  (** [refresh_facts_min_interval()], in milliseconds. *)
  cf_refresh_interval : Z;
}.

(** The variables of [run_forever_async] that are about commands. *)
Record Commander `{Os} := mk_commander {
  cm_world : World;
  cm_history : CommandHistory;
  cm_inflight : list InflightInvestigation;
  cm_last_refresh : option Z;
  cm_pending_commands : list AgentCommand;
  cm_pending_acks : list AgentCommandAck;
  cm_last_report : Z;
  cm_events : list CommandEvent;
}.
Arguments mk_commander {_} _ _ _ _ _ _ _ _.

Definition investigation_already_running (inflight : list InflightInvestigation) (command_id : string) : bool :=
  existsb (λ entry, String.eqb (ac_command_id (if_command entry)) command_id) inflight.

Definition ack_from_record (record : CommandRecord) : AgentCommandAck :=
  mk_command_ack (cr_command_id record) (cr_outcome record) (cr_detail record).

Section Daemon.
Context `{CommandVocabulary} `{JsonText}.

Definition stale (command : AgentCommand) (now_ms : Z) : bool :=
  Z.ltb COMMAND_STALE_MS (i64_saturating_sub now_ms (ac_requested_at_ms command)).

Definition evaluate_command (command : AgentCommand) (refresh_accepted_this_tick : bool)
    (last_refresh : option Z) (min_interval now now_ms : Z) : CommandVerdict :=
  if String.eqb (ac_kind command) INVESTIGATE then
    if stale command now_ms then VStale
    else match from_params (ac_params command) with
         | inr request => AcceptInvestigate request
         | inl detail => BadInvestigateParams detail
         end
  else if negb (String.eqb (ac_kind command) REFRESH_FACTS) then VUnsupported
  else if stale command now_ms then VStale
  else match parse_probe_request (ac_params command) with
       | Some paths => AcceptProbe paths
       | None =>
           if refresh_accepted_this_tick || negb (fetch_due min_interval now last_refresh) then VThrottled
           else AcceptRefresh
       end.

Definition accepted_ack (command : AgentCommand) (request : InvestigateRequest) : AgentCommandAck :=
  mk_command_ack (ac_command_id command) ACCEPTED
    ("已取走，扫描中（最长 " +:+ pretty (iv_max_seconds request) +:+ "s）").

(** The outcome and the detail of a verdict that is not carried out. *)
Definition refusal (command : AgentCommand) (refresh_interval : Z) (verdict : CommandVerdict) :
    option (string * string) :=
  match verdict with
  | BadInvestigateParams detail => Some (FAILED, detail)
  | VUnsupported => Some (UNSUPPORTED, "agentd 尚未实现命令 kind=" +:+ ac_kind command)
  | VStale =>
      Some (STALE, "命令超过 " +:+ pretty (COMMAND_STALE_MS / 60000)%Z +:+
                   " 分钟未被处理（守护进程当时没在跑 / 被阻塞）")
  | VThrottled =>
      Some (THROTTLED, "距上一次重采不足最小间隔（" +:+ pretty (refresh_interval / 1000)%Z +:+
                       "s）或本 tick 已接受一条")
  | AcceptRefresh | AcceptProbe _ | AcceptInvestigate _ => None
  end.

Definition refresh_facts_outcome (snapshot : Health) (attempt : FactReportAttempt) : string * string :=
  let probe_failures :=
    (λ p, match ph_error p with
          | Some detail => if String.eqb detail "" then ph_probe p else ph_probe p +:+ ": " +:+ detail
          | None => ph_probe p
          end) <$> List.filter (λ p, String.eqb (ph_status p) "failed") (hl_probes snapshot) in
  let outcome :=
    if at_reported attempt then SUCCEEDED
    else if at_attempted attempt || is_some (at_error attempt) then FAILED
    else NO_UPLINK in
  let detail :=
    match at_error attempt with
    | Some error => error
    | None =>
        match probe_failures with
        | [] => "probes=" +:+ pretty (Z.of_nat (length (hl_probes snapshot))) +:+
                " failed=" +:+ pretty (hl_failure_count snapshot)
        | _ => pretty (Z.of_nat (length probe_failures)) +:+
               " 个探针失败（沿用上次成功输出）：" +:+ Text.join "; " probe_failures
        end
    end in
  (outcome, detail).
End Daemon.

(** * The loop *)

Section Loop.
Context `{CommandVocabulary} `{JsonText} `{Host} `{!CommandHost}.
Context `{!Json AgentCommand} `{!Json CommandHistory}.

Definition on_files {A} (m : M World A) : M Commander A :=
  zoom cm_world (λ w c, mk_commander w (cm_history c) (cm_inflight c) (cm_last_refresh c)
    (cm_pending_commands c) (cm_pending_acks c) (cm_last_report c) (cm_events c)) m.
Definition pass (time : N) : M Commander unit :=
  on_files (modify (λ w, set_clock (clock w + Z.of_N time) w)).
Definition set_history (f : CommandHistory → CommandHistory) : M Commander unit :=
  modify (λ c, mk_commander (cm_world c) (f (cm_history c)) (cm_inflight c) (cm_last_refresh c)
    (cm_pending_commands c) (cm_pending_acks c) (cm_last_report c) (cm_events c)).
Definition set_inflight (f : list InflightInvestigation → list InflightInvestigation) : M Commander unit :=
  modify (λ c, mk_commander (cm_world c) (cm_history c) (f (cm_inflight c)) (cm_last_refresh c)
    (cm_pending_commands c) (cm_pending_acks c) (cm_last_report c) (cm_events c)).
Definition set_last_refresh (now : Z) : M Commander unit :=
  modify (λ c, mk_commander (cm_world c) (cm_history c) (cm_inflight c) (Some now)
    (cm_pending_commands c) (cm_pending_acks c) (cm_last_report c) (cm_events c)).
Definition set_commands (commands : list AgentCommand) : M Commander unit :=
  modify (λ c, mk_commander (cm_world c) (cm_history c) (cm_inflight c) (cm_last_refresh c)
    commands (cm_pending_acks c) (cm_last_report c) (cm_events c)).
Definition set_acks (f : list AgentCommandAck → list AgentCommandAck) : M Commander unit :=
  modify (λ c, mk_commander (cm_world c) (cm_history c) (cm_inflight c) (cm_last_refresh c)
    (cm_pending_commands c) (f (cm_pending_acks c)) (cm_last_report c) (cm_events c)).
Definition set_last_report (now : Z) : M Commander unit :=
  modify (λ c, mk_commander (cm_world c) (cm_history c) (cm_inflight c) (cm_last_refresh c)
    (cm_pending_commands c) (cm_pending_acks c) now (cm_events c)).
Definition event (e : CommandEvent) : M Commander unit :=
  modify (λ c, mk_commander (cm_world c) (cm_history c) (cm_inflight c) (cm_last_refresh c)
    (cm_pending_commands c) (cm_pending_acks c) (cm_last_report c) (cm_events c ++ [e])).
Definition now_instant : M Commander Z := gets (λ c, clock (cm_world c)).
Definition send_ack (source : CommandSource) (ack : AgentCommandAck) : list AgentCommandAck :=
  match source with Remote => [ack] | Local => [] end.

Definition record_command (command : AgentCommand) (outcome detail : string) (now_ms : Z) :
    M Commander AgentCommandAck :=
  let record := mk_command_record (ac_command_id command) (ac_kind command) outcome detail now_ms in
  set_history (history_record record);;
  event (CommandRecorded record);;
  mret (ack_from_record record).

(** [preflight::report_path_probe] *)
Definition report_path_probe (paths : list string) : M Commander (string * string) :=
  probe ← on_files (probe_paths paths);
  sent ← gets (λ c, post_report probe (cm_events c) (cm_world c));
  pass sent.2;;
  mret (match sent.1 with
        | inr _ => (SUCCEEDED, summarize probe)
        | inl detail => (FAILED, summarize probe +:+ "；回传失败：" +:+ detail)
        end).

(** One command of the queue. *)
Definition handle_command (config : CommandConfig) (now_ms : Z) (turn : CommandTurn)
    (command : AgentCommand) (source : CommandSource) : M Commander CommandTurn :=
  known ← gets (λ c, history_find (ac_command_id command) (cm_history c));
  match known with
  | Some record =>
      mret (mk_turn (tn_accepted_refresh turn)
              (tn_acks turn ++ send_ack source (ack_from_record record)) (tn_history_dirty turn))
  | None =>
      now ← now_instant;
      last_refresh ← gets cm_last_refresh;
      let verdict := evaluate_command command (is_some (tn_accepted_refresh turn)) last_refresh
                       (cf_refresh_interval config) now now_ms in
      match verdict with
      | AcceptRefresh =>
          set_last_refresh now;;
          event (Executed now command Refresh);;
          mret (mk_turn (Some (command, source)) (tn_acks turn) (tn_history_dirty turn))
      | AcceptProbe paths =>
          event (Executed now command Probe);;
          result ← report_path_probe paths;
          completed ← now_instant;
          ack ← record_command command result.1 result.2 completed;
          mret (mk_turn (tn_accepted_refresh turn) (tn_acks turn ++ send_ack source ack) true)
      | AcceptInvestigate request =>
          inflight ← gets cm_inflight;
          let turn := mk_turn (tn_accepted_refresh turn)
                        (tn_acks turn ++ send_ack source (accepted_ack command request))
                        (tn_history_dirty turn) in
          if investigation_already_running inflight (ac_command_id command) then mret turn
          else
            event (Executed now command Investigation);;
            set_inflight (λ inflight, (inflight ++ [mk_inflight command source])%list);;
            mret turn
      | _ =>
          let '(outcome, detail) := default ("", "") (refusal command (cf_refresh_interval config) verdict) in
          ack ← record_command command outcome detail now_ms;
          mret (mk_turn (tn_accepted_refresh turn) (tn_acks turn ++ send_ack source ack) true)
      end
  end.

Fixpoint handle_commands (config : CommandConfig) (now_ms : Z) (turn : CommandTurn)
    (queue : list (AgentCommand * CommandSource)) : M Commander CommandTurn :=
  match queue with
  | [] => mret turn
  | (command, source) :: queue =>
      turn ← handle_command config now_ms turn command source;
      handle_commands config now_ms turn queue
  end.

Definition handle_command_queue (config : CommandConfig) (now_ms : Z)
    (queue : list (AgentCommand * CommandSource)) : M Commander CommandTurn :=
  handle_commands config now_ms (mk_turn None [] false) queue.

(** What a finished task is worth. *)
Definition conclude (command : AgentCommand) (done : TaskResult) : M Commander (string * string) :=
  match done with
  | TaskReport report path =>
      delivered ← gets (λ c, deliver_investigation command report path (cm_events c) (cm_world c));
      pass delivered.2;;
      mret (SUCCEEDED, delivered.1)
  | TaskFailed detail => mret (FAILED, detail)
  | TaskInterrupted err => mret (FAILED, "调查任务中断：" +:+ err)
  end.

(** [drain_finished_investigations]: [before] are the tasks found running already. *)
Fixpoint drain_from (before rest : list InflightInvestigation) (acks : list AgentCommandAck)
    (recorded : bool) : M Commander (list AgentCommandAck * bool) :=
  match rest with
  | [] => mret (acks, recorded)
  | entry :: rest =>
      finished ← gets (λ c, task_result (if_command entry) (cm_events c) (cm_world c));
      match finished with
      | None => drain_from (before ++ [entry]) rest acks recorded
      | Some done =>
          set_inflight (λ _, (before ++ rest)%list);;
          result ← conclude (if_command entry) done;
          now_ms ← now_instant;
          ack ← record_command (if_command entry) result.1 result.2 now_ms;
          drain_from before rest (acks ++ send_ack (if_source entry) ack) true
      end
  end.
Definition drain_finished_investigations : M Commander (list AgentCommandAck * bool) :=
  inflight ← gets cm_inflight;
  drain_from [] inflight [] false.

(** The result of an accepted refresh, after the tick. *)
Definition settle_refresh (accepted : option (AgentCommand * CommandSource)) (result : string * string) :
    M Commander bool :=
  match accepted with
  | None => mret false
  | Some (command, source) =>
      now_ms ← now_instant;
      ack ← record_command command result.1 result.2 now_ms;
      set_acks (λ acks, (acks ++ send_ack source ack)%list);;
      mret true
  end.

Definition store_if_dirty (config : CommandConfig) (dirty : bool) : M Commander unit :=
  if dirty then
    history ← gets cm_history;
    try (on_files (store_history_async (cf_state_dir config) history));;
    mret tt
  else mret tt.

(** The status report, when it is due. *)
Definition report_if_due : M Commander unit :=
  now ← now_instant;
  last ← gets cm_last_report;
  if Z.ltb (now - last) STATUS_REPORT_INTERVAL_MS then mret tt
  else
    set_last_report now;;
    acks ← gets cm_pending_acks;
    reply ← gets (λ c, report_status acks (cm_events c) (cm_world c));
    pass reply.2;;
    event (StatusReported acks reply.1);;
    match reply.1 with
    | Some commands => set_acks (λ _, []);; set_commands commands
    | None => mret tt
    end.

(** The tick itself, with a refresh forced if one was accepted, and what follows from it. *)
Definition finish_tick (config : CommandConfig) (turn : CommandTurn) (dirty : bool) : M Commander unit :=
  tick ← gets (λ c, run_once (is_some (tn_accepted_refresh turn)) (cm_events c) (cm_world c));
  pass tick.2;;
  match tick.1 with
  | Err err =>
      settled ← settle_refresh (tn_accepted_refresh turn) (FAILED, "守护循环失败：" +:+ io_msg err);
      store_if_dirty config (dirty || settled);;
      throw err
  | Ok (snapshot, attempt) =>
      settled ← settle_refresh (tn_accepted_refresh turn) (refresh_facts_outcome snapshot attempt);
      store_if_dirty config (dirty || settled);;
      report_if_due;;
      pass (Z.to_N TICK_INTERVAL_MS)
  end.

(** A turn that is not in the terminal state, as far as commands go. *)
Definition command_tick (config : CommandConfig) : M Commander unit :=
  pending ← gets cm_pending_commands;
  set_commands [];;
  local ← on_files (take_local_command (cf_state_dir config));
  now_ms ← now_instant;
  let queue := (((λ command, (command, Remote)) <$> pending)
                ++ match local with Some command => [(command, Local)] | None => [] end)%list in
  drained ← drain_finished_investigations;
  set_acks (λ acks, (acks ++ drained.1)%list);;
  turn ← handle_command_queue config now_ms queue;
  set_acks (λ acks, (acks ++ tn_acks turn)%list);;
  finish_tick config turn (drained.2 || tn_history_dirty turn).

(** What comes first in a turn, for the commands: in the terminal state the turn ends here, unless the gateway
    accepts the report; the commands that come with its answer are dropped. *)
Definition terminal_gate : M Commander bool :=
  begun ← gets (λ c, begin_turn (cm_events c) (cm_world c));
  pass begun.2;;
  match begun.1 with
  | Regular => mret true
  | TerminalWait => mret false
  | TerminalAsked reply => event (TerminalReported reply);; mret (is_some reply)
  end.
Definition command_turn (config : CommandConfig) : M Commander unit :=
  goes_on ← terminal_gate;
  if goes_on : bool then command_tick config else pass (Z.to_N TICK_INTERVAL_MS).

(** Between two turns somebody may leave a command in the local request. *)
Definition submit_local (config : CommandConfig) (command : option AgentCommand) : M Commander unit :=
  match command with
  | Some command => try (on_files (submit_request_async (cf_state_dir config) command));; mret tt
  | None => mret tt
  end.

Fixpoint command_run (config : CommandConfig) (submissions : list (option AgentCommand)) :
    M Commander unit :=
  match submissions with
  | [] => mret tt
  | command :: submissions =>
      submit_local config command;;
      command_turn config;;
      command_run config submissions
  end.

(** What [run_forever_async] starts from; a history that cannot be read is an empty one. *)
Definition commander_start (config : CommandConfig) (w : World) : Commander :=
  let '(r, w') := load_history_async (cf_state_dir config) w in
  mk_commander w' (match r with Ok history => history | Err _ => history_default end)
    [] None [] [] (clock w') [].
End Loop.

(** * The history, as what was recorded *)

Definition ids (l : list CommandRecord) : list string := cr_command_id <$> l.
Definition lastn {A} (n : nat) (l : list A) : list A := drop (length l - n) l.

(** Of the records of a command, the last. *)
Fixpoint keep_last (l : list CommandRecord) : list CommandRecord :=
  match l with
  | [] => []
  | r :: l => if decide (cr_command_id r ∈ ids l) then keep_last l else r :: keep_last l
  end.

(** The last records of the commands recorded most recently. *)
Definition recent (l : list CommandRecord) : list CommandRecord := lastn HISTORY_LIMIT (keep_last l).

Section History.
Implicit Types (l : list CommandRecord) (r : CommandRecord).

Definition others r l : list CommandRecord :=
  List.filter (λ entry, negb (is_record_of (cr_command_id r) entry)) l.

Lemma ids_app l1 l2 : ids (l1 ++ l2) = (ids l1 ++ ids l2)%list.
Proof. apply fmap_app. Qed.

Lemma others_in r x l : x ∈ others r l ↔ x ∈ l ∧ cr_command_id x ≠ cr_command_id r.
Proof.
  unfold others, is_record_of. rewrite list_elem_of_In, filter_In, <- list_elem_of_In, negb_true_iff.
  by rewrite String.eqb_neq.
Qed.

Lemma others_app r l1 l2 : others r (l1 ++ l2) = (others r l1 ++ others r l2)%list.
Proof. apply List.filter_app. Qed.

Lemma others_cons r x l : others r (x :: l) =
  if decide (cr_command_id x = cr_command_id r) then others r l else x :: others r l.
Proof.
  unfold others, is_record_of. cbn [List.filter]. case_decide as E; [by rewrite E, String.eqb_refl|].
  by rewrite eqb_ne.
Qed.

Lemma others_id r l : cr_command_id r ∉ ids l → others r l = l.
Proof.
  induction l as [|x l IH]; [done|]. unfold ids. rewrite fmap_cons, not_elem_of_cons. intros [Hx Hl].
  rewrite others_cons, decide_False by congruence. f_equal. by apply IH.
Qed.

Lemma lastn_short {A} n (l : list A) : length l ≤ n → lastn n l = l.
Proof. intros Hl. unfold lastn. by replace (length l - n) with 0 by lia. Qed.

Lemma lastn_snoc {A} n (l : list A) x : lastn (S n) (l ++ [x]) = (lastn n l ++ [x])%list.
Proof.
  unfold lastn. rewrite length_app. cbn. rewrite drop_app_le by lia. do 2 f_equal. lia.
Qed.

Lemma lastn_length {A} n (l : list A) : length (lastn n l) = min n (length l).
Proof. unfold lastn. rewrite length_drop. lia. Qed.

Lemma lastn_split {A} n (l : list A) : ∃ k, l = (take k l ++ lastn n l)%list.
Proof. exists (length l - n). symmetry. apply take_drop. Qed.

Lemma lastn_app {A} n (l1 l2 : list A) : n ≤ length l2 → lastn n (l1 ++ l2) = lastn n l2.
Proof.
  intros Hn. unfold lastn. rewrite length_app, drop_app_ge by lia. f_equal. lia.
Qed.

Lemma keep_last_ids x l : x ∈ ids (keep_last l) ↔ x ∈ ids l.
Proof.
  unfold ids. induction l as [|r l IH]; cbn [keep_last]; [done|].
  rewrite fmap_cons, elem_of_cons. case_decide as Hd.
  - rewrite IH. unfold ids in Hd. split; [tauto|]. intros [->|]; tauto.
  - rewrite fmap_cons, elem_of_cons, IH. done.
Qed.

Lemma keep_last_nodup l : NoDup (ids (keep_last l)).
Proof.
  unfold ids. induction l as [|r l IH]; cbn [keep_last]; [constructor|]. case_decide as Hd; [done|].
  rewrite fmap_cons. constructor; [|done]. intros Hin. by apply Hd, keep_last_ids.
Qed.

Lemma keep_last_snoc l r : keep_last (l ++ [r]) = (others r (keep_last l) ++ [r])%list.
Proof.
  induction l as [|x l IH]; cbn [keep_last app].
  { done. }
  rewrite ids_app, IH. destruct (decide (cr_command_id x = cr_command_id r)) as [E|E].
  - rewrite decide_True by (apply elem_of_app; right; apply list_elem_of_fmap;
      exists r; split; [done|by apply list_elem_of_singleton]).
    f_equal. case_decide as Hd; [done|]. by rewrite others_cons, decide_True.
  - destruct (decide (cr_command_id x ∈ ids l)) as [Hd|Hd].
    + rewrite decide_True by (apply elem_of_app; by left). done.
    + rewrite decide_False.
      * by rewrite others_cons, decide_False.
      * intros [?|(y & Hy & ->%list_elem_of_singleton)%list_elem_of_fmap]%elem_of_app; done.
Qed.

Lemma others_nodup_length r l : NoDup (ids l) → length l ≤ S (length (others r l)).
Proof.
  induction l as [|x l IH]; [cbn; lia|]. unfold ids. rewrite fmap_cons. intros [Hx Hd]%NoDup_cons.
  rewrite others_cons. case_decide as E; cbn [length].
  - rewrite others_id by by rewrite <- E. lia.
  - specialize (IH Hd). lia.
Qed.

(** Dropping what is too old before or after the new record comes to the same. *)
Lemma lastn_others n r l : NoDup (ids l) →
  lastn (S n) (others r (lastn (S n) l) ++ [r]) = lastn (S n) (others r l ++ [r]).
Proof.
  intros Hd. rewrite !lastn_snoc. f_equal.
  destruct (decide (length l ≤ S n)) as [Hl|Hl]; [by rewrite (lastn_short (S n) l)|].
  destruct (lastn_split (S n) l) as [k Hk].
  replace (others r l) with (others r (take k l) ++ others r (lastn (S n) l))%list
    by by rewrite <- others_app, <- Hk.
  symmetry. apply lastn_app.
  assert (Hd' : NoDup (ids (lastn (S n) l))).
  { rewrite Hk in Hd. unfold ids in Hd. rewrite fmap_app in Hd. by apply NoDup_app in Hd as (_ & _ & ?). }
  pose proof (others_nodup_length r _ Hd') as Hlen. rewrite lastn_length in Hlen. lia.
Qed.

(** Recording is remembering one record more. *)
Lemma history_record_recent l r h : ch_entries h = recent l →
  ch_entries (history_record r h) = recent (l ++ [r]).
Proof.
  intros Hh. assert (HR : recent (l ++ [r]) = lastn HISTORY_LIMIT (others r (recent l) ++ [r])).
  { unfold recent at 1. rewrite keep_last_snoc. symmetry. apply (lastn_others 63), keep_last_nodup. }
  rewrite HR. unfold history_record. cbn [ch_entries]. rewrite Hh. fold (others r (recent l)).
  destruct (Nat.ltb_spec HISTORY_LIMIT (length (others r (recent l) ++ [r]))); [done|].
  symmetry. by apply lastn_short.
Qed.

Lemma history_find_none id h : history_find id h = None ↔ id ∉ ids (ch_entries h).
Proof.
  unfold history_find. rewrite find_first_None. unfold ids, is_record_of. split.
  - intros Hx (r & -> & Hr)%list_elem_of_fmap. specialize (Hx r).
    rewrite list_elem_of_In, <- in_rev, <- list_elem_of_In, String.eqb_refl in Hx. by discriminate (Hx Hr).
  - intros Hn x Hx. rewrite list_elem_of_In, <- in_rev, <- list_elem_of_In in Hx. apply eqb_ne. intros <-. apply Hn.
    apply list_elem_of_fmap. eauto.
Qed.

Lemma history_find_some id h r : history_find id h = Some r → cr_command_id r = id.
Proof. intros [_ Hr]%find_first_Some. by apply String.eqb_eq. Qed.

(** A command that was recorded and is no longer among the recent ones was followed by as many
    others as the history holds. *)
Lemma forgotten l1 r l2 : cr_command_id r ∉ ids l2 → cr_command_id r ∉ ids (recent (l1 ++ r :: l2)) →
  HISTORY_LIMIT ≤ length (keep_last l2).
Proof.
  intros Hn Hr. apply dec_stable. intros Hlt. apply Hr.
  assert (Hk : ∃ l', keep_last (l1 ++ r :: l2) = (l' ++ r :: keep_last l2)%list).
  { clear Hr Hlt. induction l1 as [|x l1 [l' IH]]; cbn [app keep_last].
    - exists []. by rewrite decide_False.
    - case_decide; [by exists l'|]. exists (x :: l'). by rewrite IH. }
  destruct Hk as [l' Hk]. unfold recent, lastn. rewrite Hk, length_app. cbn [length].
  rewrite drop_app_le by lia. unfold ids. rewrite fmap_app, fmap_cons. apply elem_of_app. right.
  apply elem_of_cons. by left.
Qed.
End History.

(** * What the loop keeps *)

Definition recorded (evs : list CommandEvent) : list CommandRecord :=
  omap (λ e, match e with CommandRecorded r => Some r | _ => None end) evs.
Definition refreshes (evs : list CommandEvent) : list Z :=
  omap (λ e, match e with Executed t _ Refresh => Some t | _ => None end) evs.

(** The commands that were begun and have no result yet. *)
Definition open_step (open : list AgentCommand) (e : CommandEvent) : list AgentCommand :=
  match e with
  | Executed _ command _ => command :: open
  | CommandRecorded r =>
      List.filter (λ command, negb (String.eqb (ac_command_id command) (cr_command_id r))) open
  | StatusReported _ _ | TerminalReported _ => open
  end.
Definition open_after (evs : list CommandEvent) : list AgentCommand := foldl open_step [] evs.

Arguments recorded : simpl never.
Arguments refreshes : simpl never.
Arguments open_after : simpl never.

Lemma recorded_app e1 e2 : recorded (e1 ++ e2) = (recorded e1 ++ recorded e2)%list.
Proof. apply omap_app. Qed.
Lemma recorded_snoc evs e : recorded (evs ++ [e]) =
  (recorded evs ++ match e with CommandRecorded r => [r] | _ => [] end)%list.
Proof. rewrite recorded_app. by destruct e. Qed.
Lemma refreshes_snoc evs e : refreshes (evs ++ [e]) =
  (refreshes evs ++ match e with Executed t _ Refresh => [t] | _ => [] end)%list.
Proof. unfold refreshes. rewrite omap_app. by destruct e as [? ? []| | |]. Qed.
Lemma open_after_snoc evs e : open_after (evs ++ [e]) = open_step (open_after evs) e.
Proof. unfold open_after. by rewrite foldl_app. Qed.

Lemma open_step_recorded open r command :
  command ∈ open_step open (CommandRecorded r) ↔
  command ∈ open ∧ ac_command_id command ≠ cr_command_id r.
Proof.
  cbn. rewrite list_elem_of_In, filter_In, <- list_elem_of_In, negb_true_iff.
  by rewrite String.eqb_neq.
Qed.

Definition inflight_ids (l : list InflightInvestigation) : list string :=
  (λ entry, ac_command_id (if_command entry)) <$> l.

Section Keeping.
Context `{CommandVocabulary} `{!CommandVocabularyLaws} `{JsonText} `{Host} `{!CommandHost}.
Context `{!Json AgentCommand} `{!Json CommandHistory}.
Context (config : CommandConfig) (known : list CommandRecord).
Hypothesis interval_nonneg : (0 ≤ cf_refresh_interval config)%Z.

(** Why a command without a result is not begun again: it is a running investigation, or the refresh
    of this turn. *)
Definition held (inflight : list InflightInvestigation) (accepted : option AgentCommand)
    (command : AgentCommand) : Prop :=
  (command ∈ if_command <$> inflight ∧ ac_kind command = INVESTIGATE) ∨
  (accepted = Some command ∧ ac_kind command = REFRESH_FACTS ∧
   parse_probe_request (ac_params command) = None).

(** The invariant of the loop, [known] being the history it started with. *)
Record commanding (accepted : option AgentCommand) (c : Commander) : Prop := {
  cd_history : ch_entries (cm_history c) = recent (known ++ recorded (cm_events c));
  cd_held : ∀ command, command ∈ open_after (cm_events c) → held (cm_inflight c) accepted command;
  cd_inflight : NoDup (inflight_ids (cm_inflight c));
  cd_executed : ∀ e1 t command what e2, cm_events c = (e1 ++ Executed t command what :: e2)%list →
    (command ∉ open_after e1) ∧ ac_command_id command ∉ ids (recent (known ++ recorded e1));
  cd_refreshes : throttled (cf_refresh_interval config) (refreshes (cm_events c)) (cm_last_refresh c);
}.

Lemma snoc_split {A} (l l1 l2 : list A) e x : (l ++ [e])%list = (l1 ++ x :: l2)%list →
  (l = l1 ∧ e = x ∧ l2 = []) ∨ ∃ l2', l2 = (l2' ++ [e])%list ∧ l = (l1 ++ x :: l2')%list.
Proof.
  destruct l2 as [|y l2' _] using rev_ind; intros E.
  - apply app_inj_tail in E as [-> ->]. by left.
  - right. rewrite app_comm_cons, (assoc_L (++)) in E. apply app_inj_tail in E as [-> ->]. eauto.
Qed.

(** A step that records nothing and begins nothing. *)
Lemma commanding_same accepted c c' evs :
  commanding accepted c → cm_history c' = cm_history c → cm_inflight c' = cm_inflight c →
  cm_last_refresh c' = cm_last_refresh c → cm_events c' = (cm_events c ++ evs)%list →
  evs = [] ∨ (∃ acks reply, evs = [StatusReported acks reply]) ∨ (∃ reply, evs = [TerminalReported reply]) →
  commanding accepted c'.
Proof.
  intros [Hh Hd Hn Hx Hr] E1 E2 E3 E4 [->|Hev].
  { rewrite (right_id_L [] (++)) in E4. split; by rewrite ?E1, ?E2, ?E3, ?E4. }
  destruct Hev as [(acks & reply & ->)|(reply & ->)].
  all: split; rewrite ?E1, ?E2, ?E3, ?E4;
    [by rewrite recorded_snoc, (right_id_L [] (++))|rewrite open_after_snoc; exact Hd|done
    |intros e1 t command what e2 [(_ & [=] & _)|(l2 & -> & El)]%snoc_split; by eapply Hx
    |by rewrite refreshes_snoc, (right_id_L [] (++))].
Qed.

(** Recording the result of a command, which is no longer held afterwards. *)
Lemma commanding_record accepted accepted' c c' r :
  commanding accepted c → cm_history c' = history_record r (cm_history c) →
  cm_last_refresh c' = cm_last_refresh c → cm_events c' = (cm_events c ++ [CommandRecorded r])%list →
  NoDup (inflight_ids (cm_inflight c')) →
  (∀ command, held (cm_inflight c) accepted command → ac_command_id command ≠ cr_command_id r →
     held (cm_inflight c') accepted' command) →
  commanding accepted' c'.
Proof.
  intros [Hh Hd Hn Hx Hr] E1 E3 E4 Hn' Hheld. split; rewrite ?E1, ?E3, ?E4.
  - rewrite (history_record_recent _ _ _ Hh), recorded_snoc, <- (assoc_L (++)). done.
  - intros command. rewrite open_after_snoc, open_step_recorded. intros [Ho Hne]. auto.
  - done.
  - intros e1 t command what e2 [(_ & [=] & _)|(l2 & -> & El)]%snoc_split. by eapply Hx.
  - by rewrite refreshes_snoc, (right_id_L [] (++)).
Qed.

(** Beginning a command. *)
Lemma commanding_execute accepted accepted' c c' t command what :
  commanding accepted c → cm_history c' = cm_history c →
  cm_events c' = (cm_events c ++ [Executed t command what])%list →
  NoDup (inflight_ids (cm_inflight c')) →
  (∀ other, held (cm_inflight c) accepted other → held (cm_inflight c') accepted' other) →
  held (cm_inflight c') accepted' command →
  ¬ held (cm_inflight c) accepted command →
  history_find (ac_command_id command) (cm_history c) = None →
  throttled (cf_refresh_interval config)
    (refreshes (cm_events c) ++ match what with Refresh => [t] | _ => [] end) (cm_last_refresh c') →
  commanding accepted' c'.
Proof.
  intros [Hh Hd Hn Hx Hr] E1 E4 Hn' Hheld Hc Hfresh Hnone Ht. split; rewrite ?E1, ?E4.
  - by rewrite recorded_snoc, (right_id_L [] (++)).
  - intros other. rewrite open_after_snoc. cbn. intros [->|Ho]%elem_of_cons; auto.
  - done.
  - intros e1 t' command' what' e2 [(<- & [= _ <- _] & _)|(l2 & -> & El)]%snoc_split; [|by eapply Hx].
    split; [by intros ?%Hd|]. rewrite <- Hh. by apply history_find_none.
  - rewrite refreshes_snoc. by destruct what.
Qed.

(** ** The verdicts *)

Lemma evaluate_investigate command b last interval now now_ms request :
  evaluate_command command b last interval now now_ms = AcceptInvestigate request →
  ac_kind command = INVESTIGATE.
Proof.
  unfold evaluate_command. destruct (String.eqb_spec (ac_kind command) INVESTIGATE) as [->|]; [done|].
  destruct (negb _); [done|]. destruct (stale _ _); [done|].
  destruct (parse_probe_request _); [done|]. by destruct (_ || _).
Qed.

Lemma evaluate_probe command b last interval now now_ms paths :
  evaluate_command command b last interval now now_ms = AcceptProbe paths →
  ac_kind command = REFRESH_FACTS ∧ parse_probe_request (ac_params command) = Some paths.
Proof.
  unfold evaluate_command. destruct (String.eqb_spec (ac_kind command) INVESTIGATE) as [->|].
  { destruct (stale _ _); [done|]. by destruct (from_params _). }
  destruct (String.eqb_spec (ac_kind command) REFRESH_FACTS) as [->|]; cbn [negb]; [|done].
  destruct (stale _ _); [done|]. destruct (parse_probe_request _) as [l|]; [|by destruct (_ || _)].
  by intros [= ->].
Qed.

Lemma evaluate_refresh command b last interval now now_ms :
  evaluate_command command b last interval now now_ms = AcceptRefresh →
  ac_kind command = REFRESH_FACTS ∧ parse_probe_request (ac_params command) = None ∧ b = false ∧
  fetch_due interval now last = true.
Proof.
  unfold evaluate_command. destruct (String.eqb_spec (ac_kind command) INVESTIGATE) as [->|].
  { destruct (stale _ _); [done|]. by destruct (from_params _). }
  destruct (String.eqb_spec (ac_kind command) REFRESH_FACTS) as [->|]; cbn [negb]; [|done].
  destruct (stale _ _); [done|]. destruct (parse_probe_request _) as [l|]; [done|].
  destruct b, (fetch_due _ _ _); cbn; naive_solver.
Qed.

Lemma refusal_total command interval verdict :
  (∃ o d, refusal command interval verdict = Some (o, d)) ∨
  verdict = AcceptRefresh ∨ (∃ p, verdict = AcceptProbe p) ∨ ∃ r, verdict = AcceptInvestigate r.
Proof. destruct verdict; cbn; eauto 6. Qed.

Lemma running_spec inflight id : investigation_already_running inflight id = true ↔ id ∈ inflight_ids inflight.
Proof.
  unfold investigation_already_running, inflight_ids. rewrite existsb_exists, list_elem_of_fmap.
  split; intros (e & H1' & H2').
  - exists e. split; [by apply String.eqb_eq in H2'|by apply list_elem_of_In].
  - exists e. split; [by apply list_elem_of_In|by apply String.eqb_eq].
Qed.

Lemma held_ids inflight accepted command : held inflight accepted command →
  ac_command_id command ∈ inflight_ids inflight ∨ accepted = Some command.
Proof.
  intros [[(e & -> & He)%list_elem_of_fmap _]|[-> _]]; [left|by right].
  apply list_elem_of_fmap. eauto.
Qed.

(** ** The steps of a turn *)

(** What handling commands leaves alone. *)
Record turned (c c' : Commander) : Prop := {
  tu_files : files (cm_world c') = files (cm_world c);
  tu_commands : cm_pending_commands c' = cm_pending_commands c;
  tu_acks : cm_pending_acks c' = cm_pending_acks c;
  tu_events : ∃ evs, cm_events c' = (cm_events c ++ evs)%list ∧
    ∀ acks reply, StatusReported acks reply ∉ evs;
}.

#[local] Instance turned_preorder : PreOrder turned.
Proof.
  split.
  - intros c. split; [done..|]. exists []. rewrite (right_id_L [] (++)). split; [done|].
    by intros ?? ?%elem_of_nil.
  - intros c1 c2 c3 [F1 P1 A1 (e1 & E1 & N1)] [F2 P2 A2 (e2 & E2 & N2)].
    split; [congruence..|]. exists (e1 ++ e2)%list. split; [by rewrite E2, E1, (assoc_L (++))|].
    intros acks reply [?|?]%elem_of_app; [by eapply N1|by eapply N2].
Qed.

Lemma turned_one c c' e :
  files (cm_world c') = files (cm_world c) → cm_pending_commands c' = cm_pending_commands c →
  cm_pending_acks c' = cm_pending_acks c → cm_events c' = (cm_events c ++ [e])%list →
  (∀ acks reply, e ≠ StatusReported acks reply) → turned c c'.
Proof.
  intros F P A E N. split; [done..|]. exists [e]. split; [done|].
  intros acks reply He%list_elem_of_singleton. by eapply N.
Qed.

Lemma turned_same c c' :
  files (cm_world c') = files (cm_world c) → cm_pending_commands c' = cm_pending_commands c →
  cm_pending_acks c' = cm_pending_acks c → cm_events c' = cm_events c → turned c c'.
Proof.
  intros F P A E. split; [done..|]. exists []. rewrite (right_id_L [] (++)). split; [done|].
  by intros ?? ?%elem_of_nil.
Qed.

Lemma commanding_quiet accepted c w pending acks report :
  commanding accepted c →
  commanding accepted (mk_commander w (cm_history c) (cm_inflight c) (cm_last_refresh c) pending acks
    report (cm_events c)).
Proof.
  intros Hc. eapply (commanding_same _ c _ []); [done..| |by left]. by rewrite (right_id_L [] (++)).
Qed.

Lemma record_command_run command outcome detail now_ms c :
  let r := mk_command_record (ac_command_id command) (ac_kind command) outcome detail now_ms in
  record_command command outcome detail now_ms c = (Ok (ack_from_record r),
    mk_commander (cm_world c) (history_record r (cm_history c)) (cm_inflight c) (cm_last_refresh c)
      (cm_pending_commands c) (cm_pending_acks c) (cm_last_report c) (cm_events c ++ [CommandRecorded r])).
Proof. done. Qed.

Lemma report_path_probe_run paths c : ∃ result w,
  report_path_probe paths c = (Ok result, mk_commander w (cm_history c) (cm_inflight c)
    (cm_last_refresh c) (cm_pending_commands c) (cm_pending_acks c) (cm_last_report c) (cm_events c)) ∧
  files w = files (cm_world c).
Proof.
  unfold report_path_probe. destruct (probe_paths_run paths (cm_world c)) as (r & E & _).
  assert (E' : on_files (probe_paths paths) c = (Ok r, c)).
  { unfold on_files, zoom. rewrite E. by destruct c. }
  erewrite bind_ok by exact E'. by eexists _, _.
Qed.

Lemma commanding_probe accepted c c' t command r :
  commanding accepted c → cr_command_id r = ac_command_id command →
  cm_history c' = history_record r (cm_history c) → cm_inflight c' = cm_inflight c →
  cm_last_refresh c' = cm_last_refresh c →
  cm_events c' = (cm_events c ++ [Executed t command Probe; CommandRecorded r])%list →
  ¬ held (cm_inflight c) accepted command →
  history_find (ac_command_id command) (cm_history c) = None →
  commanding accepted c'.
Proof.
  intros [Hh Hd Hn Hx Hr] Hid E1 E2 E3 E4 Hfresh Hnone.
  change [Executed t command Probe; CommandRecorded r] with
    ([Executed t command Probe] ++ [CommandRecorded r])%list in E4. rewrite (assoc_L (++)) in E4.
  split; rewrite ?E1, ?E2, ?E3, ?E4.
  - rewrite (history_record_recent _ _ _ Hh), !recorded_snoc, (right_id_L [] (++)). by rewrite (assoc_L (++)).
  - intros other. rewrite !open_after_snoc, open_step_recorded. cbn [open_step].
    intros [[->|Ho]%elem_of_cons Hne]; [by rewrite Hid in Hne|auto].
  - done.
  - intros e1 t' command' what' e2 [(_ & [=] & _)|(l2 & -> & El)]%snoc_split.
    apply snoc_split in El as [(<- & [= _ <- _] & _)|(l3 & -> & El)]; [|by eapply Hx].
    split; [by intros ?%Hd|]. rewrite <- Hh. by apply history_find_none.
  - by rewrite !refreshes_snoc, !(right_id_L [] (++)).
Qed.

(** What handling one command comes to. *)
Record handled (turn turn' : CommandTurn) (c c' : Commander) : Prop := {
  hd_turned : turned c c';
  hd_commanding : commanding (fst <$> tn_accepted_refresh turn') c';
  hd_acks : tn_acks turn ⊆ tn_acks turn';
  hd_accepted : ∀ x, tn_accepted_refresh turn = Some x → tn_accepted_refresh turn' = Some x;
  hd_dirty : tn_history_dirty turn' = true ∨
    (cm_history c' = cm_history c ∧ tn_history_dirty turn' = tn_history_dirty turn);
}.

(** A command of the gateway is answered in this turn or is its refresh. *)
Definition answered (turn : CommandTurn) (command : AgentCommand) (source : CommandSource) : Prop :=
  source = Remote →
  (∃ ack, ack ∈ tn_acks turn ∧ ak_command_id ack = ac_command_id command) ∨
  tn_accepted_refresh turn = Some (command, Remote).

Lemma answered_ack a acks d command source ack :
  ak_command_id ack = ac_command_id command →
  answered (mk_turn a (acks ++ send_ack source ack) d) command source.
Proof.
  intros Hid ->. left. exists ack. split; [|done]. apply elem_of_app. right. by apply list_elem_of_singleton.
Qed.

Lemma sub_app {A} (l1 l2 : list A) : l1 ⊆ (l1 ++ l2)%list.
Proof. intros x Hx. apply elem_of_app. by left. Qed.

Lemma handle_refused turn command source outcome detail now_ms c :
  commanding (fst <$> tn_accepted_refresh turn) c →
  let ack := ack_from_record (mk_command_record (ac_command_id command) (ac_kind command) outcome detail now_ms) in
  let turn' := mk_turn (tn_accepted_refresh turn) (tn_acks turn ++ send_ack source ack) true in
  ∃ c', record_command command outcome detail now_ms c = (Ok ack, c') ∧
    handled turn turn' c c' ∧ answered turn' command source.
Proof.
  intros Hc ack turn'. eexists. split; [apply record_command_run|]. split.
  - split; cbn; [by eapply turned_one| |apply sub_app|done|by left].
    eapply commanding_record; [exact Hc|done..|apply Hc|auto].
  - by apply answered_ack.
Qed.

Lemma handle_probed turn command source paths now c :
  commanding (fst <$> tn_accepted_refresh turn) c →
  ¬ held (cm_inflight c) (fst <$> tn_accepted_refresh turn) command →
  history_find (ac_command_id command) (cm_history c) = None →
  ∃ turn' c',
    (event (Executed now command Probe);;
     result ← report_path_probe paths;
     completed ← now_instant;
     ack ← record_command command result.1 result.2 completed;
     mret (mk_turn (tn_accepted_refresh turn) (tn_acks turn ++ send_ack source ack) true)) c = (Ok turn', c') ∧
    handled turn turn' c c' ∧ answered turn' command source.
Proof.
  intros Hc Hh Hn. unfold event. rewrite modify_then.
  match goal with |- context [mbind _ (report_path_probe paths) ?x] =>
    destruct (report_path_probe_run paths x) as (result & w & E & Hw) end.
  erewrite bind_ok by exact E. unfold now_instant. rewrite gets_then.
  erewrite bind_ok by apply record_command_run. eexists _, _. split; [done|]. split.
  - split; cbn; [| |apply sub_app|done|by left].
    2:{ eapply (commanding_probe _ c _ now command
          (mk_command_record (ac_command_id command) (ac_kind command) result.1 result.2 (clock w)));
        try done. cbn. by rewrite <- (assoc_L (++)). }
    split; [done..|]. eexists [_; _]. cbn. rewrite <- (assoc_L (++)). split; [done|].
    intros acks reply [[=]|[[=]|?%elem_of_nil]%elem_of_cons]%elem_of_cons. done.
  - by apply answered_ack.
Qed.

Lemma handle_command_run now_ms turn command source c :
  commanding (fst <$> tn_accepted_refresh turn) c →
  ∃ turn' c', handle_command config now_ms turn command source c = (Ok turn', c') ∧
    handled turn turn' c c' ∧ answered turn' command source.
Proof.
  intros Hc. unfold handle_command. rewrite gets_then.
  destruct (history_find (ac_command_id command) (cm_history c)) as [r|] eqn:Hf.
  { eexists _, c. split; [done|]. split.
    - split; cbn; [reflexivity|done|apply sub_app|done|by right].
    - apply answered_ack. cbn. by eapply history_find_some. }
  unfold now_instant. rewrite !gets_then.
  match goal with |- context [evaluate_command ?a ?b ?d ?e ?f ?g] =>
    destruct (evaluate_command a b d e f g) as [| | | |paths|request|] eqn:Hv end.
  1-3,7: cbn [refusal default from_option id]; cbv beta iota;
    match goal with |- context [record_command _ ?o ?d ?n] =>
      destruct (handle_refused turn command source o d n c Hc) as (c' & E & Hr) end;
    erewrite bind_ok by exact E; by eexists _, c'.
  - apply evaluate_refresh in Hv as (Hk & Hp & Hacc & Hdue).
    destruct (tn_accepted_refresh turn) as [a|] eqn:Ha; [done|].
    destruct (throttled_attempt _ _ _ _ (cd_refreshes _ _ Hc) interval_nonneg Hdue) as [_ Ht].
    eexists _, _. split; [reflexivity|]. split; [split; cbn|].
    + by eapply turned_one.
    + eapply (commanding_execute None _ c _ (clock (cm_world c)) command Refresh); try done; cbn.
      * apply Hc.
      * intros other [?|[[=] _]]. by left.
      * right. done.
      * intros [[_ Hi]|[[=] _]]. apply kinds_differ. congruence.
    + apply reflexivity.
    + intros x. by rewrite Ha.
    + by right.
    + intros ->. by right.
  - apply evaluate_probe in Hv as [Hk Hp]. apply handle_probed; [done| |done].
    intros [[_ Hi]|(_ & _ & Hp')]; [|congruence]. apply kinds_differ. congruence.
  - apply evaluate_investigate in Hv as Hk. rewrite gets_then.
    destruct (investigation_already_running _ _) eqn:Hrun.
    { eexists _, c. split; [reflexivity|]. split.
      - split; cbn; [reflexivity|done|apply sub_app|done|by right].
      - by apply answered_ack. }
    assert (Hni : ac_command_id command ∉ inflight_ids (cm_inflight c)).
    { intros Hin%running_spec. congruence. }
    eexists _, _. split; [reflexivity|]. split; [split; cbn|by apply answered_ack].
    + by eapply turned_one.
    + eapply (commanding_execute _ _ c _ (clock (cm_world c)) command Investigation); try done; cbn.
      * unfold inflight_ids. rewrite fmap_app. apply NoDup_app. split_and!; [apply Hc| |by apply NoDup_singleton].
        intros x Hx Hx'%list_elem_of_singleton. by subst.
      * intros other [[Hi Hki]|Ho]; [left|by right]. split; [|done]. rewrite fmap_app.
        apply elem_of_app. by left.
      * left. split; [|done]. rewrite fmap_app. apply elem_of_app. right. by apply list_elem_of_singleton.
      * intros [[(e & -> & He)%list_elem_of_fmap _]|(_ & Hk' & _)].
        -- apply Hni, list_elem_of_fmap. eauto.
        -- apply kinds_differ. congruence.
      * rewrite (right_id_L [] (++)). apply Hc.
    + apply sub_app.
    + done.
    + by right.
Qed.

Lemma handled_trans t1 t2 t3 c1 c2 c3 : handled t1 t2 c1 c2 → handled t2 t3 c2 c3 → handled t1 t3 c1 c3.
Proof.
  intros [T1 C1 A1 X1 D1] [T2 C2 A2 X2 D2]. split; [by etrans|done|by etrans|auto|].
  destruct D2 as [?|[E2 D2]]; [by left|]. destruct D1 as [?|[E1 D1]]; [left|right]; [congruence|].
  split; congruence.
Qed.

Lemma answered_mono t1 t2 command source :
  tn_acks t1 ⊆ tn_acks t2 → (∀ x, tn_accepted_refresh t1 = Some x → tn_accepted_refresh t2 = Some x) →
  answered t1 command source → answered t2 command source.
Proof. intros Ha Hx Hans ->. destruct (Hans eq_refl) as [(ack & ? & ?)|?]; [left; eauto|right; auto]. Qed.

Lemma handle_commands_run now_ms turn queue c :
  commanding (fst <$> tn_accepted_refresh turn) c →
  ∃ turn' c', handle_commands config now_ms turn queue c = (Ok turn', c') ∧
    handled turn turn' c c' ∧ ∀ command source, (command, source) ∈ queue → answered turn' command source.
Proof.
  revert turn c. induction queue as [|[command source] queue IH]; intros turn c Hc; cbn [handle_commands].
  { exists turn, c. split; [done|]. split; [split; try done; by right|]. by intros ?? ?%elem_of_nil. }
  destruct (handle_command_run now_ms turn command source c Hc) as (t1 & c1 & E1 & H1' & A1).
  erewrite bind_ok by exact E1.
  destruct (IH t1 c1 (hd_commanding _ _ _ _ H1')) as (t2 & c2 & -> & H2' & A2).
  exists t2, c2. split; [done|]. split; [by eapply handled_trans|].
  intros cmd src [[= -> ->]|Hin]%elem_of_cons; [|by apply A2].
  eapply answered_mono; [apply H2'|apply H2'|done].
Qed.

(** ** The investigations that ended *)

Lemma conclude_run command done_ c : ∃ result w,
  conclude command done_ c = (Ok result, mk_commander w (cm_history c) (cm_inflight c)
    (cm_last_refresh c) (cm_pending_commands c) (cm_pending_acks c) (cm_last_report c) (cm_events c)) ∧
  files w = files (cm_world c).
Proof.
  destruct done_ as [report path|detail|err]; cbn.
  - by eexists _, _.
  - eexists _, (cm_world c). by destruct c.
  - eexists _, (cm_world c). by destruct c.
Qed.

Lemma drain_from_run before rest acks b c :
  commanding None c → cm_inflight c = (before ++ rest)%list →
  ∃ acks' b' c', drain_from before rest acks b c = (Ok (acks', b'), c') ∧ commanding None c' ∧
    turned c c' ∧ (b' = true ∨ cm_history c' = cm_history c ∧ b' = b).
Proof.
  revert before acks b c. induction rest as [|entry rest IH]; intros before acks b c Hc Hi; cbn [drain_from].
  { exists acks, b, c. split_and!; [done|done|done|by right]. }
  rewrite gets_then. destruct (task_result _ _ _) as [done_|].
  2:{ apply IH; [done|]. by rewrite <- (assoc_L (++)). }
  unfold set_inflight. rewrite modify_then.
  match goal with |- context [mbind _ (conclude ?e ?d) ?x] =>
    destruct (conclude_run e d x) as (result & w & E & Hw) end.
  erewrite bind_ok by exact E. unfold now_instant. rewrite gets_then.
  erewrite bind_ok by apply record_command_run. cbn [cm_world cm_history cm_inflight cm_last_refresh
    cm_pending_commands cm_pending_acks cm_last_report cm_events] in Hw |- *.
  match goal with |- context [drain_from before rest ?a true ?x] =>
    destruct (IH before a true x) as (acks' & b' & c' & E' & C' & T' & B') end.
  - eapply (commanding_record None None c); [done..| |]; cbn.
    + pose proof (cd_inflight _ _ Hc) as Hd. rewrite Hi in Hd. unfold inflight_ids in *.
      rewrite fmap_app, fmap_cons in Hd. rewrite fmap_app.
      apply NoDup_app in Hd as (H1' & H2' & [_ H3']%NoDup_cons). apply NoDup_app.
      split_and!; [done| |done]. intros x Hx Hx'. apply (H2' x Hx), elem_of_cons. by right.
    + intros other [[Hin Hk]|[[=] _]] Hne. left. split; [|done]. rewrite Hi in Hin.
      rewrite fmap_app, fmap_cons, elem_of_app, elem_of_cons in Hin. rewrite fmap_app, elem_of_app.
      destruct Hin as [?|[->|?]]; [by left|done|by right].
  - done.
  - exists acks', b', c'. split_and!; [done|done| |].
    + etrans; [|exact T']. by eapply turned_one.
    + destruct B' as [?|[_ ?]]; by left.
Qed.

Lemma drain_tasks_run c : commanding None c →
  ∃ acks b c', drain_finished_investigations c = (Ok (acks, b), c') ∧ commanding None c' ∧
    turned c c' ∧ (b = true ∨ cm_history c' = cm_history c).
Proof.
  intros Hc. unfold drain_finished_investigations. rewrite gets_then.
  destruct (drain_from_run [] (cm_inflight c) [] false c Hc eq_refl) as (acks & b & c' & E & C' & T & B).
  exists acks, b, c'. split_and!; [done..|]. destruct B as [?|[? _]]; auto.
Qed.


(** ** A whole turn *)

(** A command has an ack that waits for the next report or was delivered with one. *)
Definition acknowledged (c : Commander) (command : AgentCommand) : Prop :=
  ∃ ack, ak_command_id ack = ac_command_id command ∧
    (ack ∈ cm_pending_acks c ∨
     ∃ acks commands, StatusReported acks (Some commands) ∈ cm_events c ∧ ack ∈ acks).

Record kept (c : Commander) : Prop := {
  kp_commanding : commanding None c;
  kp_answered : ∀ acks commands command,
    StatusReported acks (Some commands) ∈ cm_events c → command ∈ commands →
    command ∈ cm_pending_commands c ∨ acknowledged c command;
}.

(** Acks are only added, and no report is made. *)
Definition grows (c c' : Commander) : Prop :=
  cm_pending_acks c ⊆ cm_pending_acks c' ∧ cm_events c ⊆ cm_events c' ∧
  ∀ acks reply, StatusReported acks reply ∈ cm_events c' → StatusReported acks reply ∈ cm_events c.

#[local] Instance grows_preorder : PreOrder grows.
Proof.
  split; [by intros c|]. intros c1 c2 c3 (A1 & E1 & R1) (A2 & E2 & R2). split_and!; [set_solver..|auto].
Qed.

Lemma turned_grows c c' : turned c c' → grows c c'.
Proof.
  intros [_ _ A (evs & E & N)]. unfold grows. rewrite A, E. split_and!; [done|apply sub_app|].
  intros acks reply [?|Hn]%elem_of_app; [done|]. by apply N in Hn.
Qed.

Lemma acknowledged_grows c c' command : grows c c' → acknowledged c command → acknowledged c' command.
Proof. intros (A & E & _) (ack & Hid & [?|(acks & cmds & ? & ?)]); exists ack; split; eauto 7. Qed.

Lemma set_acks_grows more c :
  grows c (mk_commander (cm_world c) (cm_history c) (cm_inflight c) (cm_last_refresh c)
    (cm_pending_commands c) (cm_pending_acks c ++ more) (cm_last_report c) (cm_events c)).
Proof. split_and!; cbn; [apply sub_app|done|done]. Qed.

Lemma settle_run accepted result c : commanding (fst <$> accepted) c →
  ∃ b c', settle_refresh accepted result c = (Ok b, c') ∧ commanding None c' ∧ grows c c' ∧
    files (cm_world c') = files (cm_world c) ∧ cm_pending_commands c' = cm_pending_commands c ∧
    (b = true ∨ cm_history c' = cm_history c) ∧
    ∀ command, accepted = Some (command, Remote) → acknowledged c' command.
Proof.
  intros Hc. destruct accepted as [[command source]|]; cbn [settle_refresh].
  2:{ exists false, c. split_and!; [done..|by right|done]. }
  unfold now_instant. rewrite gets_then. erewrite bind_ok by apply record_command_run.
  unfold set_acks. rewrite modify_then. eexists _, _. split; [done|]. cbn. split_and!; [| | |done|by left|].
  - eapply (commanding_record (Some command) None c); [done..| |]; cbn; [apply Hc|].
    intros other [[Hin Hk]|([= ->] & _)] Hne; [by left|done].
  - split_and!; cbn; [apply sub_app|apply sub_app|].
    intros acks reply [?|[=]%list_elem_of_singleton]%elem_of_app. done.
  - done.
  - intros command' [= <- ->]. eexists. split; [|left; apply elem_of_app; right; by apply list_elem_of_singleton].
    done.
Qed.

Lemma report_if_due_run c : kept c → cm_pending_commands c = [] →
  ∃ c', report_if_due c = (Ok tt, c') ∧ kept c' ∧ files (cm_world c') = files (cm_world c) ∧
    cm_history c' = cm_history c.
Proof.
  intros [Hc Ha] Hp. unfold report_if_due, now_instant. rewrite !gets_then.
  destruct (Z.ltb _ _); [by exists c|].
  unfold set_last_report. rewrite modify_then, !gets_then.
  cbn [cm_pending_acks cm_events cm_world].
  match goal with |- context [report_status ?a ?b ?d] => destruct (report_status a b d) as [reply time] end.
  cbn [fst snd]. unfold pass. erewrite bind_ok by done. unfold event. rewrite modify_then. cbn.
  assert (Hk : ∀ w acks cmds n, commanding None (mk_commander w (cm_history c) (cm_inflight c)
    (cm_last_refresh c) cmds acks n (cm_events c ++ [StatusReported (cm_pending_acks c) reply]))).
  { intros. eapply (commanding_same None c _ [_]); [done..|right; eauto]. }
  destruct reply as [commands|].
  - unfold set_acks, set_commands. rewrite modify_then. cbn. eexists. split; [reflexivity|].
    cbn. split_and!; [|done|done]. split; [apply Hk|]. cbn. intros acks cmds command Hin Hcmd. apply elem_of_app in Hin
      as [Hin|[= -> ->]%list_elem_of_singleton]; [right|by left].
    destruct (Ha acks cmds command Hin Hcmd) as [Hx|(ack & Hid & Hack)].
    { rewrite Hp in Hx. by apply elem_of_nil in Hx. }
    exists ack. split; [done|]. right. cbn. destruct Hack as [Hack|(acks' & cmds' & ? & ?)].
    + exists (cm_pending_acks c), commands. split; [apply elem_of_app; right|done]. by apply list_elem_of_singleton.
    + exists acks', cmds'. split; [apply elem_of_app; by left|done].
  - eexists. split; [reflexivity|]. cbn. split_and!; [|done|done]. split; [apply Hk|]. cbn.
    intros acks cmds command [Hin|[=]%list_elem_of_singleton]%elem_of_app Hcmd.
    destruct (Ha acks cmds command Hin Hcmd) as [Hx|Hx]; [by left|right].
    destruct Hx as (ack & Hid & [?|(acks' & cmds' & ? & ?)]); exists ack; (split; [done|]); cbn; [by left|right].
    exists acks', cmds'. split; [apply elem_of_app; by left|done].
Qed.

(** ** What is on disk *)

Definition history_on_disk (w : World) : CommandHistory :=
  match (load_history_async (cf_state_dir config) w).1 with Ok history => history | Err _ => history_default end.

Lemma load_history_files w w' :
  files w' !! history_path (cf_state_dir config) = files w !! history_path (cf_state_dir config) →
  history_on_disk w' = history_on_disk w.
Proof.
  intros E. unfold history_on_disk, load_history_async, try, read_json_async, fs_read, guard_fault, act,
    of_result, mbind, M_bind.
  destruct (fs_fault OpRead _) as [e|]; cbn; [by case_decide|]. rewrite E.
  destruct (files w !! _) as [text|]; cbn; [|done].
  destruct (from_json text); cbn; [done|by case_decide].
Qed.

Lemma request_not_history q : store_paths (request_path (cf_state_dir config)) q →
  q ≠ history_path (cf_state_dir config).
Proof.
  intros [->| ->].
  - intros E. by apply path_join_inj in E.
  - unfold history_path. change HISTORY_FILE with ("command_history" +:+ ".json"). rewrite join_ends_json.
    intros E. symmetry in E. by apply json_not_tmp in E.
Qed.

Lemma only_request_keeps w w' : only_files (store_paths (request_path (cf_state_dir config))) w w' →
  files w' !! history_path (cf_state_dir config) = files w !! history_path (cf_state_dir config).
Proof. intros [Hf _]. apply Hf. intros Hs. by eapply request_not_history. Qed.

#[local] Hint Resolve read_json_respects fs_remove_respects write_json_respects : respects.

Lemma read_request_respects (F : string → Prop) : respects (only_files F) (read_request_async (cf_state_dir config)).
Proof. unfold read_request_async. solve_respects. Qed.

Lemma remove_request_respects : respects (only_files (store_paths (request_path (cf_state_dir config))))
  (remove_request_async (cf_state_dir config)).
Proof.
  unfold remove_request_async. apply respects_bind; [apply _| |].
  - apply respects_try, fs_remove_respects. by left.
  - intros [[]|e]; [by apply respects_ret, _|]. case_decide; [by apply respects_ret, _|by apply respects_throw, _].
Qed.

Lemma take_local_run w : ∃ r w', take_local_command (cf_state_dir config) w = (Ok r, w') ∧
  files w' !! history_path (cf_state_dir config) = files w !! history_path (cf_state_dir config).
Proof.
  assert (Hr : respects (only_files (store_paths (request_path (cf_state_dir config))))
    (take_local_command (cf_state_dir config))).
  { unfold take_local_command. apply respects_bind; [apply _|apply respects_try, read_request_respects|].
    intros [[cmd|]|e]; [..|by apply respects_ret, _|];
      (apply respects_bind; [apply _|apply respects_try, remove_request_respects|intros; by apply respects_ret, _]). }
  specialize (Hr w). unfold take_local_command, try, mbind, M_bind in *.
  destruct (read_request_async _ w) as [[[cmd|]|e] w1]; cbn in *;
    try destruct (remove_request_async _ w1) as [r w2]; cbn in *;
    (eexists _, _; split; [reflexivity|by apply only_request_keeps]).
Qed.

Lemma submit_run command w : ∃ r w', submit_request_async (cf_state_dir config) command w = (r, w') ∧
  files w' !! history_path (cf_state_dir config) = files w !! history_path (cf_state_dir config).
Proof.
  assert (Hr : respects (only_files (store_paths (request_path (cf_state_dir config))))
    (submit_request_async (cf_state_dir config) command)).
  { unfold submit_request_async. apply respects_bind; [apply _|apply respects_try, read_request_respects|].
    intros [[cmd|]|e]; [by apply respects_ret, _| |];
      (apply respects_bind; [apply _|by apply write_json_respects|intros; by apply respects_ret, _]). }
  specialize (Hr w). destruct (submit_request_async _ command w) as [r w']. eexists _, _. split; [done|].
  by apply only_request_keeps.
Qed.

Lemma history_storable : storable (history_path (cf_state_dir config)).
Proof.
  unfold history_path. change HISTORY_FILE with ("command_history" +:+ ".json"). rewrite join_ends_json.
  apply json_storable.
Qed.

Lemma store_run dirty c : ∃ w, store_if_dirty config dirty c = (Ok tt, mk_commander w (cm_history c)
    (cm_inflight c) (cm_last_refresh c) (cm_pending_commands c) (cm_pending_acks c) (cm_last_report c)
    (cm_events c)) ∧
  (fault_free → (dirty = true ∨ history_on_disk (cm_world c) = cm_history c) → history_on_disk w = cm_history c).
Proof.
  destruct dirty; cbn [store_if_dirty].
  2:{ exists (cm_world c). split; [by destruct c|]. naive_solver. }
  rewrite gets_then. unfold try, on_files, zoom, store_history_async, mbind, M_bind.
  destruct (write_json_atomic_async _ (cm_history c) (cm_world c)) as [r w] eqn:E. exists w. split; [done|].
  intros Hff _. rewrite write_json_ff in E by done. injection E as _ <-.
  unfold history_on_disk, load_history_async, try, mbind, M_bind.
  by rewrite read_after_wrote by apply Hff.
Qed.


Definition on_disk (c : Commander) : Prop := history_on_disk (cm_world c) = cm_history c.

(** Taking the commands and handling them: all but the accepted refresh are answered. *)
Lemma tick_handled c : kept c → ∃ turn c1 dirty accepted,
  command_tick config c = finish_tick config turn dirty c1 ∧
  accepted = tn_accepted_refresh turn ∧ commanding (fst <$> accepted) c1 ∧ cm_pending_commands c1 = [] ∧
  (∀ acks commands command, StatusReported acks (Some commands) ∈ cm_events c1 → command ∈ commands →
     acknowledged c1 command ∨ accepted = Some (command, Remote)) ∧
  (on_disk c → dirty = true ∨ on_disk c1).
Proof.
  intros [Hc Ha].
  set (c0 := mk_commander (cm_world c) (cm_history c) (cm_inflight c) (cm_last_refresh c) []
    (cm_pending_acks c) (cm_last_report c) (cm_events c)).
  destruct (take_local_run (cm_world c)) as (local & w1 & E1 & F1).
  set (c1 := mk_commander w1 (cm_history c) (cm_inflight c) (cm_last_refresh c) []
    (cm_pending_acks c) (cm_last_report c) (cm_events c)).
  assert (H1' : commanding None c1) by by apply (commanding_quiet None c).
  destruct (drain_tasks_run c1 H1') as (acks & b & c2 & E2 & H2' & T2 & B2).
  set (c3 := mk_commander (cm_world c2) (cm_history c2) (cm_inflight c2) (cm_last_refresh c2)
    (cm_pending_commands c2) (cm_pending_acks c2 ++ acks) (cm_last_report c2) (cm_events c2)).
  assert (H3' : commanding None c3) by by apply (commanding_quiet None c2).
  set (queue := (((λ command, (command, Remote)) <$> cm_pending_commands c)
    ++ match local with Some command => [(command, Local)] | None => [] end)%list).
  destruct (handle_commands_run (clock w1) (mk_turn None [] false) queue c3 H3')
    as (turn & c4 & E4 & [T4 C4 A4 X4 D4] & Hans).
  set (c5 := mk_commander (cm_world c4) (cm_history c4) (cm_inflight c4) (cm_last_refresh c4)
    (cm_pending_commands c4) (cm_pending_acks c4 ++ tn_acks turn) (cm_last_report c4) (cm_events c4)).
  assert (G : grows c1 c5).
  { etrans; [by apply turned_grows|]. etrans; [apply set_acks_grows|].
    etrans; [by apply turned_grows|]. apply set_acks_grows. }
  exists turn, c5, (b || tn_history_dirty turn), (tn_accepted_refresh turn).
  split_and!; [| |by apply commanding_quiet| | |].
  - unfold command_tick. rewrite gets_then. unfold set_commands. rewrite modify_then. fold c0.
    assert (E0 : on_files (take_local_command (cf_state_dir config)) c0 = (Ok local, c1)).
    { unfold on_files, zoom. cbn [cm_world c0]. by rewrite E1. }
    erewrite bind_ok by exact E0. unfold now_instant. rewrite gets_then.
    erewrite bind_ok by exact E2. unfold set_acks. rewrite modify_then.
    erewrite bind_ok by exact E4. by rewrite modify_then.
  - done.
  - cbn. rewrite (tu_commands _ _ T4). cbn. by rewrite (tu_commands _ _ T2).
  - intros acks' commands command Hin Hcmd.
    destruct (Ha acks' commands command) as [Hp|Hk]; [by apply G|done| |].
    + destruct (Hans command Remote) as [(ack & Hack & Hid)|Hacc]; [|done|left|by right].
      * apply elem_of_app. left. apply list_elem_of_fmap. eauto.
      * exists ack. split; [done|]. left. apply elem_of_app. by right.
    + left. eapply acknowledged_grows; [exact G|]. exact Hk.
  - intros Hd. destruct B2 as [->|B2]; [by left|]. destruct D4 as [->|[D4 _]]; [left; by rewrite orb_true_r|].
    right. unfold on_disk in *. cbn. rewrite D4. cbn. rewrite B2. cbn. rewrite <- Hd.
    apply load_history_files. rewrite (tu_files _ _ T4). cbn. by rewrite (tu_files _ _ T2).
Qed.

Lemma after_settle accepted c c' :
  grows c c' → cm_pending_commands c' = cm_pending_commands c → commanding None c' →
  (∀ acks commands command, StatusReported acks (Some commands) ∈ cm_events c → command ∈ commands →
     acknowledged c command ∨ accepted = Some (command, Remote)) →
  (∀ command, accepted = Some (command, Remote) → acknowledged c' command) → kept c'.
Proof.
  intros G P Hc Ha Hs. split; [done|]. intros acks commands command Hin Hcmd. right.
  destruct (Ha acks commands command) as [Hx|Hx]; [by apply G|done|by eapply acknowledged_grows|auto].
Qed.

Lemma command_tick_run c : kept c → ∃ r c', command_tick config c = (r, c') ∧ kept c' ∧
  (fault_free → on_disk c → on_disk c').
Proof.
  intros Hk. destruct (tick_handled c Hk) as (turn & c1 & dirty & accepted & E & -> & C1 & P1 & A1 & D1).
  rewrite E. clear E. unfold finish_tick. rewrite gets_then.
  destruct (run_once _ _ _) as [tick time]. cbn [fst snd]. unfold pass at 1. erewrite bind_ok by done.
  match goal with |- context [match tick with Ok _ => _ | Err _ => _ end ?x] => set (c2 := x) end.
  assert (C2 : commanding (fst <$> tn_accepted_refresh turn) c2) by by apply (commanding_quiet _ c1).
  assert (Hsettled : ∀ result, ∃ b w c3,
    (settled ← settle_refresh (tn_accepted_refresh turn) result;
     store_if_dirty config (dirty || settled)) c2 = (Ok tt, mk_commander w (cm_history c3) (cm_inflight c3)
       (cm_last_refresh c3) (cm_pending_commands c3) (cm_pending_acks c3) (cm_last_report c3) (cm_events c3)) ∧
    settle_refresh (tn_accepted_refresh turn) result c2 = (Ok b, c3) ∧
    store_if_dirty config (dirty || b) c3 = (Ok tt, mk_commander w (cm_history c3) (cm_inflight c3)
       (cm_last_refresh c3) (cm_pending_commands c3) (cm_pending_acks c3) (cm_last_report c3) (cm_events c3)) ∧
    kept c3 ∧ cm_pending_commands c3 = [] ∧
    (fault_free → on_disk c → history_on_disk w = cm_history c3)).
  { intros result. destruct (settle_run (tn_accepted_refresh turn) result c2 C2)
      as (b & c3 & E3 & C3 & G3 & F3 & P3 & B3 & S3).
    destruct (store_run (dirty || b) c3) as (w & E4 & Hd). exists b, w, c3. split_and!; [|done|done| | |].
    - by erewrite bind_ok by exact E3.
    - eapply (after_settle (tn_accepted_refresh turn) c2 c3); done.
    - by rewrite P3.
    - intros Hff Hod. apply Hd; [done|]. destruct (D1 Hod) as [->|Hod1]; [by left|].
      destruct B3 as [->|B3]; [left; by rewrite orb_true_r|right].
      rewrite B3. transitivity (history_on_disk (cm_world c1)); [|exact Hod1].
      apply load_history_files. by rewrite F3. }
  assert (Hq : ∀ c3 w n, kept c3 → kept (mk_commander w (cm_history c3) (cm_inflight c3)
    (cm_last_refresh c3) (cm_pending_commands c3) (cm_pending_acks c3) n (cm_events c3))).
  { intros c3 w n [K1 K2]. split; [by apply commanding_quiet|done]. }
  destruct tick as [[snapshot attempt]|err].
  - destruct (Hsettled (refresh_facts_outcome snapshot attempt)) as (b & w & c3 & _ & E3 & E4 & K3 & P3 & D3).
    erewrite bind_ok by exact E3. erewrite bind_ok by exact E4.
    destruct (report_if_due_run _ (Hq c3 w (cm_last_report c3) K3) P3) as (c5 & E5 & K5 & F5 & H5').
    erewrite bind_ok by exact E5. eexists _, _. split; [done|]. split; [by apply Hq|].
    intros Hff Hod. unfold on_disk. cbn. rewrite H5'. cbn. rewrite <- (D3 Hff Hod).
    apply load_history_files. cbn. by rewrite F5.
  - destruct (Hsettled (FAILED, "守护循环失败：" +:+ io_msg err)) as (b & w & c3 & _ & E3 & E4 & K3 & P3 & D3).
    erewrite bind_ok by exact E3. erewrite bind_ok by exact E4.
    eexists _, _. split; [done|]. split; [by apply Hq|exact D3].
Qed.

Lemma submit_local_run command c : kept c → ∃ c', submit_local config command c = (Ok tt, c') ∧ kept c' ∧
  (on_disk c → on_disk c').
Proof.
  intros [K1 K2]. destruct command as [command|]; [|by exists c].
  destruct (submit_run command (cm_world c)) as (r & w & E & F).
  unfold submit_local, try, on_files, zoom, mbind, M_bind. rewrite E. eexists. split; [done|].
  split; [split; [by apply commanding_quiet|done]|]. intros Hod. unfold on_disk. cbn. rewrite <- Hod.
  by apply load_history_files.
Qed.

Lemma terminal_gate_run c : kept c → ∃ b c', terminal_gate c = (Ok b, c') ∧ kept c' ∧ (on_disk c → on_disk c').
Proof.
  intros [K1 K2]. unfold terminal_gate. rewrite gets_then. destruct (begin_turn _ _) as [begun time]. cbn [fst snd].
  unfold pass. erewrite bind_ok by done. cbn.
  set (c1 := mk_commander (set_clock _ _) _ _ _ _ _ _ _). assert (C1 : commanding None c1) by by apply (commanding_quiet None c).
  destruct begun as [| |reply]; try by (eexists _, c1; split; [reflexivity|]; split; [by split|]; intros Hod; unfold on_disk; cbn; rewrite <- Hod; by apply load_history_files).
  eexists _, _. split; [reflexivity|]. split; [|intros Hod; unfold on_disk; cbn; rewrite <- Hod; by apply load_history_files]. split.
  - apply (commanding_same None c1 _ [TerminalReported reply]); [done..|right; right; eauto].
  - cbn. intros acks cmds command [Hin|[=]%list_elem_of_singleton]%elem_of_app Hcmd.
    destruct (K2 acks cmds command Hin Hcmd) as [Hx|(ack & Hid & Hx)]; [by left|right]. exists ack. split; [done|]. cbn.
    destruct Hx as [Hx|(acks' & cmds' & Hx & Hy)]; [by left|right]. exists acks', cmds'. split; [apply elem_of_app; by left|done].
Qed.

Lemma command_turn_run c : kept c → ∃ r c', command_turn config c = (r, c') ∧ kept c' ∧
  (fault_free → on_disk c → on_disk c').
Proof.
  intros Hk. destruct (terminal_gate_run c Hk) as (b & c1 & E1 & K1 & D1). unfold command_turn. erewrite bind_ok by exact E1.
  destruct b; [destruct (command_tick_run c1 K1) as (r & c2 & E2 & K2 & D2); exists r, c2; split_and!; auto|].
  eexists _, _. split; [reflexivity|]. destruct K1 as [K1 K2]. split; [split; [by apply (commanding_quiet None c1)|done]|].
  intros _ Hod. unfold on_disk. cbn. rewrite <- (D1 Hod). by apply load_history_files.
Qed.

Lemma command_run_run submissions c : kept c → ∃ r c', command_run config submissions c = (r, c') ∧ kept c' ∧
  (fault_free → on_disk c → on_disk c').
Proof.
  revert c. induction submissions as [|command submissions IH]; intros c Hk; cbn [command_run].
  { by exists (Ok tt), c. }
  destruct (submit_local_run command c Hk) as (c1 & E1 & K1 & D1). erewrite bind_ok by exact E1.
  destruct (command_turn_run c1 K1) as (r & c2 & E2 & K2 & D2). destruct r as [[]|e].
  - erewrite bind_ok by exact E2. destruct (IH c2 K2) as (r & c3 & -> & K3 & D3).
    exists r, c3. split_and!; auto.
  - erewrite bind_err by exact E2. exists (Err e), c2. split_and!; auto.
Qed.

End Keeping.

(** * Claims *)

Section Claims.
Context `{CommandVocabulary} `{!CommandVocabularyLaws} `{JsonText} `{Host} `{!CommandHost}.
Context `{!Json AgentCommand} `{!Json CommandHistory}.

(** A history as the loop leaves it. *)
Definition history_wf (h : CommandHistory) : Prop := ch_entries h = recent (ch_entries h).

Lemma recent_id l : NoDup (ids l) → length l ≤ HISTORY_LIMIT → recent l = l.
Proof.
  intros Hd Hl. assert (Hk : keep_last l = l).
  { clear Hl. induction l as [|r l IH]; [done|]. unfold ids in Hd. rewrite fmap_cons in Hd.
    apply NoDup_cons in Hd as [Hn Hd]. cbn. rewrite decide_False by done. by rewrite IH. }
  unfold recent. rewrite Hk. by apply lastn_short.
Qed.

Lemma recent_nodup l : NoDup (ids (recent l)).
Proof.
  pose proof (keep_last_nodup l) as Hd. destruct (lastn_split HISTORY_LIMIT (keep_last l)) as [k Hk].
  rewrite Hk in Hd. rewrite ids_app in Hd. by apply NoDup_app in Hd as (_ & _ & ?).
Qed.

Lemma recent_length l : length (recent l) ≤ HISTORY_LIMIT.
Proof. unfold recent. rewrite lastn_length. lia. Qed.

Lemma recent_idem l : recent (recent l) = recent l.
Proof. apply recent_id; [apply recent_nodup|apply recent_length]. Qed.

Lemma start_kept config w : (0 ≤ cf_refresh_interval config)%Z →
  history_wf (cm_history (commander_start config w)) →
  kept config (ch_entries (cm_history (commander_start config w))) (commander_start config w) ∧
  on_disk config (commander_start config w).
Proof.
  intros Hi Hw. unfold commander_start, on_disk, history_on_disk in *.
  destruct (load_history_async (cf_state_dir config) w) as [r w'] eqn:E. cbn in *. split.
  - split; [|by intros * ?%elem_of_nil]. split; cbn.
    + change (recorded []) with (@nil CommandRecord). by rewrite (right_id_L [] (++)).
    + change (open_after []) with (@nil AgentCommand). by intros ? ?%elem_of_nil.
    + constructor.
    + by intros [|? ?] *.
    + change (refreshes []) with (@nil Z). split; [constructor|by intros ? ?%elem_of_nil].
  - assert (Hw' : w' = w).
    { pose proof (read_json_respects (A := CommandHistory) eq (history_path (cf_state_dir config)) w) as Hr.
      unfold load_history_async, try, mbind, M_bind in E.
      destruct (read_json_async _ w) as [[h|e] w1]; cbn in Hr; subst w1; cbn in E.
      - by injection E as _ <-.
      - case_decide; by injection E as _ <-. }
    subst w'. by rewrite E.
Qed.

(** C7. No command is carried out twice while it is remembered: whenever the agent begins a refresh, a
    probe or an investigation, the command is neither still being carried out nor among the 64
    commands recorded last, whatever was sent, resent or left locally; so between two executions of
    the same command its result and those of at least 64 others were recorded.  Refreshes are at
    least the minimum interval apart. *)
Theorem commands_executed_once config w submissions :
  (0 ≤ cf_refresh_interval config)%Z →
  history_wf (cm_history (commander_start config w)) →
  let known := ch_entries (cm_history (commander_start config w)) in
  let c := (command_run config submissions (commander_start config w)).2 in
  (∀ e1 t command what e2, cm_events c = (e1 ++ Executed t command what :: e2)%list →
     (command ∉ open_after e1) ∧ ac_command_id command ∉ ids (recent (known ++ recorded e1))) ∧
  (∀ e1 r e2 t command what e3, cm_events c = (e1 ++ CommandRecorded r :: e2 ++ Executed t command what :: e3)%list →
     cr_command_id r = ac_command_id command → ac_command_id command ∉ ids (recorded e2) →
     HISTORY_LIMIT ≤ length (keep_last (recorded e2))) ∧
  StronglySorted (λ a b, (a + cf_refresh_interval config ≤ b)%Z) (refreshes (cm_events c)).
Proof.
  intros Hi Hw known c. destruct (start_kept config w Hi Hw) as [Hk _].
  destruct (command_run_run config known Hi submissions _ Hk) as (r & c' & E & [[_ _ _ Hx Hr] _] & _).
  unfold c. rewrite E. cbn [snd]. split_and!; [exact Hx| |apply Hr].
  intros e1 rec e2 t command what e3 Hev Hid Hn.
  destruct (Hx (e1 ++ CommandRecorded rec :: e2) t command what e3) as [_ Hf].
  { by rewrite Hev, <- (assoc_L (++)). }
  rewrite recorded_app in Hf. change (CommandRecorded rec :: e2) with ([CommandRecorded rec] ++ e2)%list in Hf.
  rewrite recorded_app, (assoc_L (++)) in Hf. cbn in Hf.
  apply (forgotten (known ++ recorded e1) rec (recorded e2)); rewrite Hid; [done|].
  by rewrite <- (assoc_L (++)) in Hf |- *.
Qed.

(** C22. Every command that comes with a regular status report is answered: it is taken up in the next
    turn that is not in the terminal state, and from then on there is an ack for it that waits for a
    report or went out with one the gateway took; acks are dropped only when such a report carried
    them.  This holds in every state of every run, one with a failing tick and one through the terminal
    state included.  What comes with the answer to a report of the terminal state is dropped
    ([dropped_in_terminal_state]); the gateway has to send it again. *)
Theorem commands_answered config w submissions :
  (0 ≤ cf_refresh_interval config)%Z →
  history_wf (cm_history (commander_start config w)) →
  let c := (command_run config submissions (commander_start config w)).2 in
  ∀ acks commands command, StatusReported acks (Some commands) ∈ cm_events c → command ∈ commands →
    command ∈ cm_pending_commands c ∨ acknowledged c command.
Proof.
  intros Hi Hw c. destruct (start_kept config w Hi Hw) as [Hk _].
  destruct (command_run_run config _ Hi submissions _ Hk) as (r & c' & E & [_ Ha] & _).
  unfold c. rewrite E. exact Ha.
Qed.

(** The history is the last results of the 64 commands recorded most recently, and it outlives the
    process: after any run, a tick that failed included, a restart begins with the history the run
    ended with. *)
Theorem history_survives_restart config w submissions :
  fault_free → (0 ≤ cf_refresh_interval config)%Z →
  history_wf (cm_history (commander_start config w)) →
  let c := (command_run config submissions (commander_start config w)).2 in
  ch_entries (cm_history c) =
    recent (ch_entries (cm_history (commander_start config w)) ++ recorded (cm_events c)) ∧
  cm_history (commander_start config (cm_world c)) = cm_history c ∧
  history_wf (cm_history c).
Proof.
  intros Hff Hi Hw c. destruct (start_kept config w Hi Hw) as [Hk Hd].
  destruct (command_run_run config _ Hi submissions _ Hk) as (r & c' & E & [[Hh _ _ _ _] _] & Hd').
  unfold c. rewrite E. cbn [snd]. split_and!; [done| |].
  - specialize (Hd' Hff Hd). unfold on_disk, history_on_disk in Hd'. unfold commander_start.
    by destruct (load_history_async _ _).
  - unfold history_wf. rewrite Hh. by rewrite recent_idem.
Qed.

(** The local request is a slot for one command.  A command left there while the slot is free, or
    holds something that cannot be read, is queued and then taken exactly once; a command that
    waits is handed back to whoever submits another and is not overwritten; what cannot be read is
    thrown away by the loop. *)
Theorem local_request_once state_dir command w :
  fault_free → request_path state_dir ∉ dirs w →
  (∀ text, files w !! request_path state_dir = Some text →
     ∃ e, from_json (A := AgentCommand) text = Err e ∧ io_kind e ≠ NotFound) →
  ∃ w' w'', submit_request_async state_dir command w = (Ok Queued, w') ∧
    (∀ other, submit_request_async state_dir other w' = (Ok (AlreadyPending command), w')) ∧
    take_local_command state_dir w' = (Ok (Some command), w'') ∧
    take_local_command state_dir w'' = (Ok None, w'') ∧
    (∃ v, take_local_command state_dir w = (Ok None, v) ∧
      take_local_command state_dir v = (Ok None, v)).
Proof.
  intros Hff Hd Hn.
  assert (Hread : ∀ w, files w !! request_path state_dir = None →
    read_request_async state_dir w = (Ok None, w)).
  { intros v Hv. unfold read_request_async, try, read_json_async, fs_read, guard_fault, act, mbind, M_bind.
    by rewrite Hff, Hv. }
  assert (Htake : ∀ v, files v !! request_path state_dir = None →
    take_local_command state_dir v = (Ok None, v)).
  { intros v Hv. unfold take_local_command, try, mbind, M_bind. by rewrite Hread. }
  assert (Hbad : read_request_async state_dir w =
    (match files w !! request_path state_dir with
     | Some text => match from_json (A := AgentCommand) text with Ok _ => Ok None | Err e => Err e end
     | None => Ok None end, w)).
  { destruct (files w !! request_path state_dir) as [text|] eqn:E; [|by apply Hread].
    destruct (Hn text eq_refl) as (e & He & Hk). unfold read_request_async, try, mbind, M_bind.
    rewrite (read_json_ff _ _ text) by done. rewrite He. by rewrite decide_False. }
  set (w' := wrote (request_path state_dir) (to_json command +:+ nl) w).
  assert (Hread' : read_request_async state_dir w' = (Ok (Some command), w')).
  { unfold read_request_async, try, mbind, M_bind. unfold w'. by rewrite read_after_wrote by apply Hff. }
  exists w', (set_files (delete (request_path state_dir) (files w')) w'). split_and!.
  - unfold submit_request_async, try, mbind, M_bind. rewrite Hbad.
    destruct (files w !! _) as [text|]; [destruct (from_json text)|]; by rewrite write_json_ff.
  - intros other. unfold submit_request_async, try, mbind, M_bind. by rewrite Hread'.
  - unfold take_local_command, remove_request_async, try, mbind, M_bind. rewrite Hread'.
    rewrite fs_remove_ff by done. unfold w'. by rewrite wrote_lookup.
  - apply Htake. apply lookup_delete_eq.
  - destruct (files w !! request_path state_dir) as [text|] eqn:E; [|exists w; by rewrite Htake].
    exists (set_files (delete (request_path state_dir) (files w)) w). split; [|apply Htake, lookup_delete_eq].
    destruct (Hn text eq_refl) as (e & He & _).
    unfold take_local_command, remove_request_async, try, mbind, M_bind.
    by rewrite Hbad, He, fs_remove_ff, E.
Qed.
End Claims.

(** * A concrete loop *)

Module ConcreteCommands.
Import Concrete ConcreteRequests.

#[export] Instance command_countable : Countable AgentCommand.
Proof.
  refine (inj_countable'
    (λ c, (ac_command_id c, ac_requested_at_ms c, ac_kind c, ac_params c))
    (λ '(i, t, k, p), mk_command i t k p) _). by intros [].
Defined.
#[export] Instance record_eq_dec : EqDecision CommandRecord.
Proof. solve_decision. Defined.
#[export] Instance record_countable : Countable CommandRecord.
Proof.
  refine (inj_countable'
    (λ r, (cr_command_id r, cr_kind r, cr_outcome r, cr_detail r, cr_completed_at_ms r))
    (λ '(i, k, o, d, t), mk_command_record i k o d t) _). by intros [].
Defined.
#[export] Instance history_eq_dec : EqDecision CommandHistory.
Proof. solve_decision. Defined.
#[export] Instance history_countable : Countable CommandHistory.
Proof. refine (inj_countable' ch_entries mk_history _). by intros []. Defined.

#[export] Instance command_json : Json AgentCommand := toy_json.
#[export] Instance history_json : Json CommandHistory := toy_json.

#[export] Instance toy_vocabulary : CommandVocabulary := {|
  REFRESH_FACTS := "refresh_facts";
  INVESTIGATE := "investigate";
  SUCCEEDED := "succeeded";
  FAILED := "failed";
  UNSUPPORTED := "unsupported";
  STALE := "stale";
  THROTTLED := "throttled";
  ACCEPTED := "accepted";
  NO_UPLINK := "no_uplink";
|}.
#[export] Instance toy_vocabulary_laws : CommandVocabularyLaws.
Proof. by split. Qed.

Definition refresh : AgentCommand := mk_command "refresh-1" 0 "refresh_facts" "{".
Definition scan : AgentCommand := mk_command "scan-1" 0 "investigate" "disk".
Definition probe : AgentCommand := mk_command "probe-1" 0 "refresh_facts" "paths".
Definition odd : AgentCommand := mk_command "odd-1" 0 "reboot" "".

Definition reports (evs : list CommandEvent) : nat :=
  length (List.filter (λ e, match e with StatusReported _ _ => true | _ => false end) evs).

(** The gateway sends four commands, two of them again with the second reply, one of these twice; it
    does not answer the third report.  A task ends once a second report was sent. *)
#[export] Instance toy_commands : CommandHost := {|
  begin_turn _ _ := (Regular, 0%N);
  post_report _ _ _ := (inr tt, 5%N);
  task_result _ evs _ := if Nat.leb 2 (reports evs) then Some (TaskReport "report" "path") else None;
  deliver_investigation _ _ _ _ _ := ("delivered", 7%N);
  run_once _ _ _ := (Ok (mk_health [] 0, mk_attempt true true None), 11%N);
  report_status _ evs _ :=
    (match reports evs with
     | 0 => Some [refresh; scan; probe; odd]
     | 1 => Some [scan; probe]
     | 2 => None
     | _ => Some []
     end, 3%N);
|}.

Definition config : CommandConfig := mk_command_config "state" 60000.
Definition start : Commander := commander_start config (set_clock 5000 empty_world).
Definition turns : list (option AgentCommand) :=
  [None; None; Some (mk_command "local-1" 0 "refresh_facts" ""); None; None].
Definition ended : Commander := (command_run config turns start).2.

Definition begun (evs : list CommandEvent) : list (string * Execution) :=
  omap (λ e, match e with Executed _ c what => Some (ac_command_id c, what) | _ => None end) evs.
Definition outcomes (evs : list CommandEvent) : list (string * string) :=
  (λ r, (cr_command_id r, cr_outcome r)) <$> recorded evs.

Example toy_run :
  begun (cm_events ended) = [("refresh-1", Refresh); ("scan-1", Investigation); ("probe-1", Probe)] ∧
  outcomes (cm_events ended) =
    [("probe-1", "succeeded"); ("odd-1", "unsupported"); ("local-1", "throttled");
     ("refresh-1", "succeeded"); ("scan-1", "succeeded")].
Proof. split; vm_compute; reflexivity. Qed.

(** The same refresh twice in one queue, or left locally as well: the second is judged before the
    first has a result, so its ack says it was throttled while the command is being executed; the
    record and the later ack say it succeeded. *)
Example duplicate_refresh_is_throttled :
  let '(turn, c) := handle_command_queue config 0 [(refresh, Remote); (refresh, Remote)] start in
  (λ a, (ak_command_id a, ak_outcome a)) <$> (match turn with Ok t => tn_acks t | Err _ => [] end) =
    [("refresh-1", "throttled")] ∧
  begun (cm_events c) = [("refresh-1", Refresh)] ∧
  (outcomes (cm_events (finish_tick config (match turn with Ok t => t | Err _ => mk_turn None [] false end) true c).2)) =
    [("refresh-1", "throttled"); ("refresh-1", "succeeded")].
Proof. vm_compute. split_and!; reflexivity. Qed.

Lemma start_history_wf : history_wf (cm_history start).
Proof. vm_compute. reflexivity. Qed.

Lemma commands_executed_once_witness :
  StronglySorted (λ a b, (a + 60000 ≤ b)%Z) (refreshes (cm_events ended)).
Proof.
  destruct (commands_executed_once config (set_clock 5000 empty_world) turns) as (_ & _ & Hr);
    [vm_compute; discriminate|exact start_history_wf|exact Hr].
Defined.

Lemma commands_answered_witness : scan ∈ cm_pending_commands ended ∨ acknowledged ended scan.
Proof.
  apply (commands_answered config (set_clock 5000 empty_world) turns ltac:(vm_compute; discriminate) start_history_wf
           [] [refresh; scan; probe; odd]).
  - apply list_elem_of_lookup. exists 0. vm_compute. reflexivity.
  - apply list_elem_of_lookup. by exists 1.
Defined.

Lemma history_survives_restart_witness :
  cm_history (commander_start config (cm_world ended)) = cm_history ended ∧
  ids (ch_entries (cm_history ended)) = ["probe-1"; "odd-1"; "local-1"; "refresh-1"; "scan-1"].
Proof.
  destruct (history_survives_restart config (set_clock 5000 empty_world) turns) as (_ & H & _);
    [exact toy_fault_free|vm_compute; discriminate|exact start_history_wf|].
  split; [exact H|vm_compute; reflexivity].
Defined.

Lemma local_request_once_witness :
  ∃ w' w'', submit_request_async "state" scan empty_world = (Ok Queued, w') ∧
    take_local_command "state" w' = (Ok (Some scan), w'') ∧ take_local_command "state" w'' = (Ok None, w'').
Proof.
  destruct (local_request_once "state" scan empty_world) as (w' & w'' & E & _ & T1 & T2 & _);
    [exact toy_fault_free|by vm_compute
    |by intros text|].
  by exists w', w''.
Defined.

(** The same gateway takes the agent back in the first turn, and sends a command with that answer: it is neither
    begun nor recorded nor acknowledged, now or later. *)
Definition recovering : CommandHost := {|
  begin_turn evs _ := (if is_some (head evs) then Regular else TerminalAsked (Some [mk_command "lost-1" 0 "reboot" ""]), 4%N);
  post_report := post_report;
  task_result := task_result;
  deliver_investigation := deliver_investigation;
  run_once := run_once;
  report_status := report_status;
|}.
#[local] Existing Instance recovering | 0.
Example dropped_in_terminal_state :
  let c := (command_run config turns start).2 in
  TerminalReported (Some [mk_command "lost-1" 0 "reboot" ""]) ∈ cm_events c ∧
  begun (cm_events c) = [("refresh-1", Refresh); ("scan-1", Investigation); ("probe-1", Probe)] ∧
  "lost-1" ∉ (outcomes (cm_events c)).*1 ∧
  "lost-1" ∉ (ak_command_id <$> concat (omap (λ e, match e with StatusReported acks _ => Some acks | _ => None end) (cm_events c))) ∧
  cm_pending_acks c = [] ∧ cm_pending_commands c = [].
Proof.
  cbv zeta. split_and!; [apply list_elem_of_lookup; exists 0; by vm_compute|by vm_compute| | |by vm_compute..];
    by apply (bool_decide_unpack _); vm_compute.
Qed.

End ConcreteCommands.
