(* ===== verification/Identity.v ===== *)
(** The agent's identity: its key, certificate and renewal ledger on disk
    (state_store/client_identity.rs), the runtime state that names it (state_store/agent_runtime.rs),
    and enrolment, renewal and the client that presents the certificate (control/enrollment.rs). *)
From S2P Require Import Prelude Errors Text Host Private Toy Fmt Throttle Policies.
From stdpp Require Import pretty.

(** * Data *)

Inductive EnrollmentReason :=
| RIo | MissingEndpoint | MissingConfigFile | MissingEnrollmentToken | Http | InvalidTrustBundle
| Rejected | InvalidAcceptedResult | UnsupportedCredentialScheme | InvalidTlsMode | RConfig.

(** [EnrollmentError]: its reason, its detail, and the text of what caused it. *)
Record EnrollmentError := mk_enrollment_error {
  er_reason : EnrollmentReason;
  er_detail : string;
  er_source : string;
}.
Definition reject (reason : EnrollmentReason) (detail : string) : EnrollmentError :=
  mk_enrollment_error reason detail "".

Inductive EnrollmentDecision := Disabled | ExistingConfigIdentity | ExistingStateIdentity | Enrolled.

(** The parts of [AgentConfig] that are read or changed here. *)
Record IdentityConfig := mk_identity_config {
  ic_state_dir : string;
  ic_agent_id : option string;
  ic_environment_id : option string;
  ic_instance_name : option string;
  ic_enabled : bool;
  ic_endpoint : option string;
  ic_enrollment_token : option string;
  ic_tls_mode : option string;
  ic_trust_bundle : option string;
  ic_auth_mode : option string;
  ic_credential_id : option string;
  ic_credential_expires_at : option string;
}.

(** The types of wist_api and wist_contracts, with the fields the agent fills in or reads. *)
Record CredentialBundle := mk_credential {
  cb_credential_id : string;
  cb_certificate : string;
  cb_not_after : option string;
}.
Record IssuedIdentity := mk_issued { is_agent_id : string; is_instance_id : string; is_environment_id : string }.
Record EnrollmentOutcome := mk_outcome {
  oc_accepted : bool;
  (** [{:?}] of the status. *)
  oc_status : string;
  oc_reason_code : option string;
  oc_agent_id : option string;
  oc_instance_id : option string;
  oc_issued_identity : option IssuedIdentity;
  oc_credential_bundle : option CredentialBundle;
}.
Record AgentRuntimeState := mk_runtime_state {
  rs_agent_id : string;
  rs_instance_id : string;
  rs_version : string;
  rs_updated_at : string;
  rs_credential_id : option string;
  rs_credential_expires_at : option string;
}.
Record RenewalLedger := mk_ledger {
  rl_checked_at : string;
  rl_outcome : string;
  rl_detail : string;
  rl_not_after : string;
}.

(** rcgen, x509-parser and the time crate; the texts of their errors. *)
Class Certificates `{Os} := {
  KeyPair : Type;
  key_from_pem : string → string + KeyPair;
  key_generate : World → string + KeyPair;
  key_pem : KeyPair → string;
  serialize_request : KeyPair → string + string;
  parse_x509_pem : string → string + string;
  certificate_not_after : string → string + Z;
  format_unix : Z → option string;
}.

(** A key is read back from what it was written as. *)
Class CertificatesLaws `{Certificates} : Prop := { key_roundtrip : ∀ k, key_from_pem (key_pem k) = inr k }.

(** What a client is built from: an extra root, whether the server's certificate is not verified,
    and the identity it presents. *)
Record ClientSpec := mk_client { cs_root : option string; cs_accept_invalid : bool; cs_identity : option string }.

(** A request; both kinds carry the certificate signing request. *)
Inductive EnrollPost :=
| PostEnroll (token csr : string) (requested_at : string)
| PostRenew (agent_id instance_id csr : string) (requested_at : string).

(** What a request came to: a transport error, or a status and a body that may be unreadable. *)
Inductive Reply := Unreached (err : string) | Replied (status : Z) (body : string + string).

Inductive EnrollEvent :=
| Posted (at_ : Z) (url : string) (request : EnrollPost) (client : ClientSpec) (reply : Reply).

(** reqwest, serde_json on the two answers, and the platform. *)
Class EnrollHost `{Os} := {
  certificate_from_pem : string → option string;
  identity_from_pem : string → option string;
  build_client : ClientSpec → option string;
  post : string → EnrollPost → ClientSpec → list EnrollEvent → World → Reply * N;
  decode_envelope : string → string + EnrollmentOutcome;
  decode_renewed : string → string + CredentialBundle;
  display_status_code : Z → string;
  CARGO_PKG_VERSION : string;
  (** [wist_shared::paths]. *)
  AGENT_RUNTIME_FILE : string;
  default_instance_id : string;
  runtime_state_new : string → string → string → string → AgentRuntimeState;
  display_enrollment_error : EnrollmentError → string;
}.

(** [AgentRuntimeState::new] takes the identity as given; the runtime state is a JSON file of the
    state directory. *)
Class EnrollHostLaws `{EnrollHost} : Prop := {
  new_agent_id : ∀ a i v t, rs_agent_id (runtime_state_new a i v t) = a;
  new_instance_id : ∀ a i v t, rs_instance_id (runtime_state_new a i v t) = i;
  runtime_file_name : has_char slash AGENT_RUNTIME_FILE = false;
  runtime_file_json : ∃ n, AGENT_RUNTIME_FILE = n +:+ ".json";
}.

(** * state_store/client_identity.rs *)

Definition CLIENT_KEY_RELATIVE_PATH : string := "identity/client.key.pem".
Definition CLIENT_CERT_RELATIVE_PATH : string := "identity/client.crt.pem".
Definition RENEWAL_LEDGER_RELATIVE_PATH : string := "identity/renewal.json".
Definition RENEWAL_LEAD_SECONDS : Z := 30 * 24 * 60 * 60.

Record ClientIdentityPaths := mk_paths { key_file : string; cert_file : string; renewal_file : string }.
(** [ClientIdentityPaths::under] *)
Definition under (state_dir : string) : ClientIdentityPaths :=
  mk_paths (path_join state_dir CLIENT_KEY_RELATIVE_PATH) (path_join state_dir CLIENT_CERT_RELATIVE_PATH)
    (path_join state_dir RENEWAL_LEDGER_RELATIVE_PATH).

Inductive CertificateValidity := Valid | RenewDue | Expired.
#[export] Instance validity_eq_dec : EqDecision CertificateValidity.
Proof. solve_decision. Defined.
Record ClientCertificateStatus := mk_status {
  st_not_after : string;
  st_remaining_seconds : Z;
  st_validity : CertificateValidity;
}.

Definition invalid_data (message : string) : IoError := MkIoError InvalidData message.

Section Material.
Context `{Host} `{!Certificates} `{!Json RenewalLedger}.

Definition read_optional (path : string) : M World (option string) :=
  there ← path_exists path;
  if there : bool then text ← fs_read path; mret (Some text) else mret None.

Definition load_or_generate_key_pair (paths : ClientIdentityPaths) : M World KeyPair :=
  there ← path_exists (key_file paths);
  if there : bool then
    pem ← fs_read (key_file paths);
    match key_from_pem pem with
    | inr key => mret key
    | inl err => throw (invalid_data ("failed to parse local client key " +:+ key_file paths +:+ ": " +:+ err))
    end
  else
    generated ← gets key_generate;
    match generated with
    | inr key => write_private (key_file paths) (key_pem key);; mret key
    | inl err => throw (io_other ("failed to generate local client key: " +:+ err))
    end.

Definition build_certificate_signing_request (key : KeyPair) : M World string :=
  match serialize_request key with
  | inr csr => mret csr
  | inl err => throw (io_other ("failed to build certificate signing request: " +:+ err))
  end.

Definition store_client_certificate (paths : ClientIdentityPaths) (certificate_pem : string) : M World unit :=
  write_private (cert_file paths) certificate_pem.

Definition combined_client_identity_pem (paths : ClientIdentityPaths) : M World (option string) :=
  certificate ← read_optional (cert_file paths);
  match certificate with
  | None => mret None
  | Some certificate =>
      key ← read_optional (key_file paths);
      match key with
      | None => mret None
      | Some key => mret (Some (trim_end_char newline certificate +:+ nl +:+ key))
      end
  end.

Definition store_renewal_ledger (paths : ClientIdentityPaths) (ledger : RenewalLedger) : M World unit :=
  write_private (renewal_file paths) (to_json ledger).

Definition format_rfc3339 (unix_seconds : Z) : string := default (pretty unix_seconds) (format_unix unix_seconds).

Definition validity_of (remaining_seconds : Z) : CertificateValidity :=
  if Z.leb remaining_seconds 0 then Expired
  else if Z.leb remaining_seconds RENEWAL_LEAD_SECONDS then RenewDue
  else Valid.

Definition certificate_status_from_pem (certificate_pem : string) (now_unix : Z) :
    result ClientCertificateStatus :=
  match parse_x509_pem certificate_pem with
  | inl err => Err (invalid_data ("failed to parse local client certificate PEM: " +:+ err))
  | inr contents =>
      match certificate_not_after contents with
      | inl err => Err (invalid_data ("failed to parse local client certificate: " +:+ err))
      | inr not_after_unix =>
          let remaining_seconds := (not_after_unix - now_unix)%Z in
          Ok (mk_status (format_rfc3339 not_after_unix) remaining_seconds (validity_of remaining_seconds))
      end
  end.

Definition client_certificate_status (paths : ClientIdentityPaths) : M World (option ClientCertificateStatus) :=
  pem ← read_optional (cert_file paths);
  match pem with
  | None => mret None
  | Some pem =>
      now ← gets (λ w, (clock w / 1000)%Z);
      status ← of_result (certificate_status_from_pem pem now);
      mret (Some status)
  end.
End Material.

(** * state_store/agent_runtime.rs *)

Section Runtime.
Context `{Host} `{!SharedFs} `{!SharedPrivate} `{!EnrollHost} `{!Json AgentRuntimeState}.

Definition runtime_path_for (state_dir : string) : string := path_join state_dir AGENT_RUNTIME_FILE.

Definition load_default : M World AgentRuntimeState :=
  now ← now_rfc3339;
  mret (runtime_state_new "local-agent" default_instance_id CARGO_PKG_VERSION now).

Definition load_or_default (path : string) : M World AgentRuntimeState :=
  there ← path_exists path;
  if there : bool then shared_read_json path else load_default.

Definition store (path : string) (state : AgentRuntimeState) : M World unit :=
  shared_write_json_private path state.

Definition load_or_default_async (path : string) : M World AgentRuntimeState :=
  r ← try (fs_metadata path);
  match r with
  | Ok _ => read_json_async path
  | Err err => if decide (io_kind err = NotFound) then load_default else throw err
  end.

Definition store_async (path : string) (state : AgentRuntimeState) : M World unit :=
  write_json_private_atomic_async path state.
End Runtime.

(** * control/enrollment.rs *)

Definition ENROLLMENT_MAX_ATTEMPTS : nat := 3.

Inductive AuthRejection := Terminal (code : string) | NotRevoked.

Definition classify_auth_rejection (status : Z) (body : string) : AuthRejection :=
  if negb (Z.eqb status UNAUTHORIZED || Z.eqb status FORBIDDEN) then NotRevoked
  else match auth_rejection_code body with Some code => Terminal code | None => NotRevoked end.

Definition terminal_auth_advice (code : string) : option string :=
  if String.eqb code "certificate_revoked" then Some "在被拒名单里：得运维先在网关解除，重装/重注册都没用"
  else if String.eqb code "certificate_mismatch" then
    Some "证书身份与这台 agent 对不上：用一次性 token 重新注册（`enroll --force`）"
  else None.

Definition required_option (value : option string) : option string :=
  match trim <$> value with
  | Some value => if String.eqb value "" then None else Some value
  | None => None
  end.

Definition is_registered_agent_id (value : string) : bool :=
  let normalized := trim value in
  negb (String.eqb normalized "")
  && negb (existsb (String.eqb normalized) ["local-agent"; "unregistered-agent"; "unknown"; "unknown-agent"]).

(** [.filter(|value| !value.trim().is_empty())] *)
Definition non_blank (value : option string) : option string :=
  match value with
  | Some value => if String.eqb (trim value) "" then None else Some value
  | None => None
  end.

Definition is_enrollment_scoped_line (line : string) : bool :=
  let trimmed := trim_start line in
  starts_with "enrollment_token" trimmed
  || (starts_with "auth_mode" trimmed && contains "enrollment_token" trimmed).

Inductive RenewalDecision := NotDue | Renewed | RenewalFailed (detail : string) | NeedsReinstall | Revoked.
Inductive RenewOutcome := RenewDone | RenewRevoked.

Definition ledger_outcome (d : RenewalDecision) : string :=
  match d with
  | NotDue => "not_due" | Renewed => "renewed" | RenewalFailed _ => "failed"
  | NeedsReinstall => "needs_reinstall" | Revoked => "revoked"
  end.
Definition ledger_detail (d : RenewalDecision) : string :=
  match d with
  | NotDue => "credential is not due for renewal"
  | Renewed => "credential renewed"
  | RenewalFailed detail => detail
  | NeedsReinstall => "no usable client certificate; re-enroll or reinstall with a token"
  | Revoked => "gateway refused this agent as revoked (denylist); an operator must lift the " +:+
               "revocation, then restart — reinstalling will not help"
  end.

(** The host, the configuration in memory, and every request so far. *)
Record Enrollee `{Os} := mk_enrollee {
  en_world : World;
  en_config : IdentityConfig;
  en_events : list EnrollEvent;
}.
Arguments mk_enrollee {_} _ _ _.

Abbreviation EnM := (EM EnrollmentError).

(** [.source_err(reason, detail)?] on a call of the host. *)
Definition source_err {S A} (reason : EnrollmentReason) (detail : string) (m : M S A) : EnM S A := λ s,
  match m s with
  | (Ok a, s) => (inr a, s)
  | (Err e, s) => (inl (mk_enrollment_error reason detail (io_msg e)), s)
  end.
(** A computation over the host alone. *)
Definition at_host `{Os} {A} (m : EnM World A) : EnM Enrollee A := λ s,
  let '(r, w) := m (en_world s) in (r, mk_enrollee w (en_config s) (en_events s)).
Definition change_config `{Os} (f : IdentityConfig → IdentityConfig) : EnM Enrollee unit := λ s,
  (inr tt, mk_enrollee (en_world s) (f (en_config s)) (en_events s)).

Section Enrollment.
Context `{Host} `{!SharedFs} `{!SharedPrivate} `{!Certificates} `{!EnrollHost}.
Context `{!Json AgentRuntimeState} `{!Json RenewalLedger}.

(** ** The client *)

Definition local_client_identity (config : IdentityConfig) : M World (option string) :=
  let paths := under (ic_state_dir config) in
  status ← try (client_certificate_status paths);
  match status with
  | Err _ => mret None
  | Ok (Some (mk_status _ _ Expired)) => mret None
  | Ok _ =>
      combined ← try (combined_client_identity_pem paths);
      mret (match combined with
            | Ok (Some combined) =>
                match identity_from_pem combined with None => Some combined | Some _ => None end
            | _ => None
            end)
  end.

Definition effective_mode (config : IdentityConfig) : string :=
  match ic_tls_mode config with
  | Some mode => mode
  | None => if starts_with "https://" (default "" (ic_endpoint config)) then "https" else "http"
  end.

(** The root certificate to add, and whether verification is switched off. *)
Definition trust (config : IdentityConfig) : EnrollmentError + (option string * bool) :=
  let mode := effective_mode config in
  if String.eqb mode "https" || String.eqb mode "verify" then
    match required_option (ic_trust_bundle config) with
    | Some trust_bundle =>
        match certificate_from_pem trust_bundle with
        | None => inr (Some trust_bundle, false)
        | Some err => inl (reject InvalidTrustBundle ("invalid control_plane.trust_bundle: " +:+ err))
        end
    | None => inr (None, false)
    end
  else if String.eqb mode "none" then inr (None, true)
  else if String.eqb mode "http" then inr (None, false)
  else inl (reject InvalidTlsMode ("invalid control_plane.tls_mode: " +:+ mode)).

Definition enrollment_http_client (config : IdentityConfig) : EnM World ClientSpec :=
  settings ← of_sum (trust config);
  presented ← io (reject RIo) (local_client_identity config);
  let client := mk_client settings.1 settings.2 presented in
  match build_client client with
  | None => mret client
  | Some err =>
      raise (if is_some settings.1 then
               reject InvalidTrustBundle ("invalid control_plane.trust_bundle: " +:+ err)
             else mk_enrollment_error Http "enrollment http error" err)
  end.

Definition retry_backoff (attempt : nat) : N := (200 * 2 ^ N.of_nat attempt)%N.

Definition pass_time (time : N) : EnM Enrollee unit := λ s,
  (inr tt, mk_enrollee (set_clock (clock (en_world s) + Z.of_N time) (en_world s)) (en_config s) (en_events s)).
Definition send (url : string) (request : EnrollPost) (client : ClientSpec) : EnM Enrollee Reply := λ s,
  let '(reply, time) := post url request client (en_events s) (en_world s) in
  (inr reply, mk_enrollee (set_clock (clock (en_world s) + Z.of_N time) (en_world s)) (en_config s)
     (en_events s ++ [Posted (clock (en_world s)) url request client reply])).

(** [send_with_retry], from an attempt on. *)
Fixpoint send_from (tries attempt : nat) (url : string) (request : EnrollPost) (client : ClientSpec) :
    EnM Enrollee (Z * (string + string)) :=
  match tries with
  | 0 => raise (reject Http "unreachable")
  | S tries =>
      reply ← send url request client;
      match reply with
      | Replied status body => mret (status, body)
      | Unreached err =>
          if Nat.ltb (attempt + 1) ENROLLMENT_MAX_ATTEMPTS then
            pass_time (retry_backoff attempt);;
            send_from tries (attempt + 1) url request client
          else raise (mk_enrollment_error Http "enrollment http error" err)
      end
  end.
Definition send_with_retry (url : string) (request : EnrollPost) (client : ClientSpec) :
    EnM Enrollee (Z * (string + string)) :=
  send_from ENROLLMENT_MAX_ATTEMPTS 0 url request client.

(** ** What an issued credential changes *)

Definition missing_certificate : EnrollmentError :=
  reject InvalidAcceptedResult "accepted credential bundle is missing the client certificate".

Definition store_issued_client_certificate (state_dir : string) (credential : CredentialBundle) :
    EnM World unit :=
  if String.eqb (trim (cb_certificate credential)) "" then raise missing_certificate
  else source_err RIo "store client certificate"
         (store_client_certificate (under state_dir) (cb_certificate credential)).

Definition apply_credential_to_config (credential : CredentialBundle) : EnM Enrollee unit :=
  if String.eqb (trim (cb_certificate credential)) "" then raise missing_certificate
  else change_config (λ c, mk_identity_config (ic_state_dir c) (ic_agent_id c) (ic_environment_id c)
         (ic_instance_name c) (ic_enabled c) (ic_endpoint c) None (ic_tls_mode c) (ic_trust_bundle c)
         (Some "certificate") (Some (cb_credential_id credential))
         (match cb_not_after credential with
          | Some expires_at => Some expires_at
          | None => ic_credential_expires_at c
          end)).

Definition apply_credential_to_runtime_state (credential : CredentialBundle) (r : AgentRuntimeState) :
    AgentRuntimeState :=
  mk_runtime_state (rs_agent_id r) (rs_instance_id r) (rs_version r) (rs_updated_at r)
    (Some (cb_credential_id credential)) (cb_not_after credential).

(** ** Enrolment *)

Definition has_config_identity (config : IdentityConfig) : bool := is_some (required_option (ic_agent_id config)).

(** [load_state_identity], and [restore_runtime_identity], which is the same. *)
Definition load_state_identity (state_dir : string) : EnM Enrollee bool :=
  let runtime_path := runtime_path_for state_dir in
  there ← at_host (io (reject RIo) (path_exists runtime_path));
  if negb there then mret false
  else
    state ← at_host (source_err RIo "load runtime state" (load_or_default runtime_path));
    if negb (is_registered_agent_id (rs_agent_id state)) then mret false
    else
      change_config (λ c,
        let with_credential := non_blank (rs_credential_id state) in
        mk_identity_config (ic_state_dir c) (Some (rs_agent_id state)) (ic_environment_id c)
          (Some (rs_instance_id state)) (ic_enabled c) (ic_endpoint c)
          (if is_some with_credential then None else ic_enrollment_token c)
          (ic_tls_mode c) (ic_trust_bundle c)
          (if is_some with_credential then Some "certificate" else ic_auth_mode c)
          (match with_credential with Some id => Some id | None => ic_credential_id c end)
          (match non_blank (rs_credential_expires_at state) with
           | Some expires_at => Some expires_at
           | None => ic_credential_expires_at c
           end));;
      mret true.

Definition local_certificate_signing_request (state_dir : string) : EnM World string :=
  key ← source_err RIo "prepare a local client key for the certificate signing request"
          (load_or_generate_key_pair (under state_dir));
  source_err RIo "build the certificate signing request" (build_certificate_signing_request key).

Definition build_enrollment_request (state_dir token : string) : EnM World EnrollPost :=
  csr ← local_certificate_signing_request state_dir;
  now ← io (reject RIo) now_rfc3339;
  mret (PostEnroll token csr now).

Definition config_now : EnM Enrollee IdentityConfig := look en_config.

(** [Response::error_for_status] *)
Definition is_error_status (status : Z) : bool := Z.leb 400 status && Z.ltb status 600.

Definition post_enrollment (endpoint : string) (request : EnrollPost) : EnM Enrollee EnrollmentOutcome :=
  config ← config_now;
  client ← at_host (enrollment_http_client config);
  response ← send_with_retry (gateway_url endpoint "/api/v1/agent/enroll") request client;
  if is_error_status response.1 then
    raise (mk_enrollment_error Http "enrollment http error" (display_status_code response.1))
  else
    match json_of decode_envelope response.2 with
    | inr outcome => mret outcome
    | inl err => raise (mk_enrollment_error Http "decode enrollment response" err)
    end.

Definition apply_enrollment_result (state_dir : string) (result : EnrollmentOutcome) : EnM Enrollee unit :=
  if negb (oc_accepted result) then
    raise (reject Rejected ("enrollment rejected with status " +:+ oc_status result +:+ " reason " +:+
                           default "unknown" (oc_reason_code result)))
  else
    match non_blank (match oc_agent_id result with
                     | Some id => Some id | None => is_agent_id <$> oc_issued_identity result end) with
    | None => raise (reject InvalidAcceptedResult "accepted enrollment response is missing agent_id")
    | Some agent_id =>
    match non_blank (match oc_instance_id result with
                     | Some id => Some id | None => is_instance_id <$> oc_issued_identity result end) with
    | None => raise (reject InvalidAcceptedResult "accepted enrollment response is missing instance_id")
    | Some instance_id =>
        (match oc_issued_identity result with
         | Some issued =>
             change_config (λ c, mk_identity_config (ic_state_dir c) (ic_agent_id c)
               (Some (is_environment_id issued)) (ic_instance_name c) (ic_enabled c) (ic_endpoint c)
               (ic_enrollment_token c) (ic_tls_mode c) (ic_trust_bundle c) (ic_auth_mode c)
               (ic_credential_id c) (ic_credential_expires_at c))
         | None => mret tt
         end);;
        (match oc_credential_bundle result with
         | Some credential =>
             apply_credential_to_config credential;;
             at_host (store_issued_client_certificate state_dir credential)
         | None => mret tt
         end);;
        change_config (λ c, mk_identity_config (ic_state_dir c) (Some agent_id) (ic_environment_id c)
          (Some instance_id) (ic_enabled c) (ic_endpoint c) (ic_enrollment_token c) (ic_tls_mode c)
          (ic_trust_bundle c) (ic_auth_mode c) (ic_credential_id c) (ic_credential_expires_at c));;
        now ← at_host (io (reject RIo) now_rfc3339);
        let state := runtime_state_new agent_id instance_id CARGO_PKG_VERSION now in
        let state := match oc_credential_bundle result with
                     | Some credential => apply_credential_to_runtime_state credential state
                     | None => state
                     end in
        at_host (source_err RIo "store runtime state" (store (runtime_path_for state_dir) state))
    end end.

(** ** Renewal *)

Definition renew_credential (state_dir : string) : EnM Enrollee RenewOutcome :=
  config ← config_now;
  match required_option (ic_endpoint config) with
  | None => raise (reject MissingEndpoint "control_plane.endpoint is required for enrollment")
  | Some endpoint =>
  match required_option (ic_agent_id config) with
  | None => mret RenewDone
  | Some agent_id =>
      let instance_id := default "" (required_option (ic_instance_name config)) in
      csr ← at_host (local_certificate_signing_request state_dir);
      now ← at_host (io (reject RIo) now_rfc3339);
      client ← at_host (enrollment_http_client config);
      response ← send_with_retry (gateway_url endpoint "/api/v1/agent/credentials:renew")
                   (PostRenew agent_id instance_id csr now) client;
      if negb (is_success response.1) then
        let body := match response.2 with inr body => body | inl _ => "" end in
        match classify_auth_rejection response.1 body with
        | Terminal _ => mret RenewRevoked
        | NotRevoked =>
            raise (reject Http ("renewal http error: " +:+ display_status_code response.1 +:+ " " +:+ trim body))
        end
      else
        match json_of decode_renewed response.2 with
        | inl err => raise (mk_enrollment_error Http "decode renewal response" err)
        | inr credential =>
            apply_credential_to_config credential;;
            at_host (store_issued_client_certificate state_dir credential);;
            state ← at_host (source_err RIo "load runtime state"
                               (load_or_default_async (runtime_path_for state_dir)));
            at_host (source_err RIo "store runtime state"
              (store_async (runtime_path_for state_dir) (apply_credential_to_runtime_state credential state)));;
            mret RenewDone
        end
  end end.

Definition renew_now (state_dir : string) : EnM Enrollee RenewalDecision :=
  renewed ← attempt (renew_credential state_dir);
  mret (match renewed with
        | inr RenewDone => Renewed
        | inr RenewRevoked => Revoked
        | inl err => RenewalFailed (display_enrollment_error err)
        end).

Definition renewal_decision (state_dir : string) : EnM Enrollee RenewalDecision :=
  status ← at_host (io (reject RIo) (try (client_certificate_status (under state_dir))));
  match status with
  | Ok (Some (mk_status _ _ Expired)) => mret NeedsReinstall
  | Ok (Some (mk_status _ _ Valid)) => mret NotDue
  | Ok (Some (mk_status _ _ RenewDue)) => renew_now state_dir
  | Ok None => mret NeedsReinstall
  | Err err => mret (RenewalFailed (io_msg err))
  end.

Definition record_renewal_ledger (state_dir : string) (decision : RenewalDecision) : EnM World unit :=
  let paths := under state_dir in
  status ← io (reject RIo) (try (client_certificate_status paths));
  let not_after := match status with Ok (Some status) => st_not_after status | _ => "" end in
  now ← io (reject RIo) now_rfc3339;
  ignore (store_renewal_ledger paths
            (mk_ledger now (ledger_outcome decision) (ledger_detail decision) not_after)).

Definition renew_credential_if_due (state_dir : string) : EnM Enrollee RenewalDecision :=
  decision ← renewal_decision state_dir;
  at_host (record_renewal_ledger state_dir decision);;
  mret decision.

(** ** The start of the agent *)

Definition scrub_enrollment_token_from_config_file (path : string) : EnM World unit :=
  text ← io (reject RIo) (try (fs_read path));
  match text with
  | Err err =>
      if decide (io_kind err = NotFound) then mret tt
      else raise (mk_enrollment_error RIo ("read config " +:+ path) (io_msg err))
  | Ok text =>
      let scrubbed := List.filter (λ line, negb (is_enrollment_scoped_line line)) (lines text) in
      if Nat.eqb (length scrubbed) (length (lines text)) then mret tt
      else source_err RIo "scrub enrollment token" (shared_write_bytes_private path (Text.join nl scrubbed))
  end.

Definition scrub_if (config_path : option string) : EnM Enrollee unit :=
  match config_path with
  | Some config_path => at_host (scrub_enrollment_token_from_config_file config_path)
  | None => mret tt
  end.

(** [ensure_enrolled_with_optional_config_path]; [ensure_enrolled] and
    [ensure_enrolled_with_config_path] are its two uses. *)
Definition ensure_enrolled (state_dir : string) (config_path : option string) : EnM Enrollee EnrollmentDecision :=
  config ← config_now;
  if has_config_identity config then scrub_if config_path;; mret ExistingConfigIdentity
  else
    known ← load_state_identity state_dir;
    if known : bool then
      renew_credential_if_due state_dir;;
      scrub_if config_path;;
      mret ExistingStateIdentity
    else if negb (ic_enabled config) then mret Disabled
    else
      match required_option (ic_endpoint config) with
      | None => raise (reject MissingEndpoint "control_plane.endpoint is required for enrollment")
      | Some endpoint =>
      match required_option (ic_enrollment_token config) with
      | None =>
          raise (reject MissingEnrollmentToken
            ("no enrollment token available; enroll first with `wist-agentd enroll --token <token>` " +:+
             "(or install with `service install --enrollment-token <token>`)"))
      | Some token =>
          request ← at_host (build_enrollment_request state_dir token);
          result ← post_enrollment endpoint request;
          apply_enrollment_result state_dir result;;
          scrub_if config_path;;
          mret Enrolled
      end end.

(** [enroll --force]: the identity goes, the key stays. *)
Definition discard (path detail : string) : EnM World unit :=
  there ← io (reject RIo) (path_exists path);
  if there : bool then source_err RIo detail (fs_remove path) else mret tt.
Definition discard_local_identity (state_dir : string) : EnM World unit :=
  let paths := under state_dir in
  discard (runtime_path_for state_dir) "discard local credential state";;
  discard (cert_file paths) "discard local client certificate";;
  discard (renewal_file paths) "discard renewal ledger".
End Enrollment.

(** * Runs *)

Section Runs.
Context `{Host} `{!SharedFs} `{!SharedPrivate} `{!Certificates} `{!EnrollHost}.
Context `{!Json AgentRuntimeState} `{!Json RenewalLedger}.
Implicit Types (w : World) (s : Enrollee) (config : IdentityConfig) (paths : ClientIdentityPaths).

(** A request with its retries: all replies but the last are transport errors, and no more than
    three are sent. *)
Record tried (url : string) (request : EnrollPost) (client : ClientSpec)
    (r : EnrollmentError + Z * (string + string)) (evs : list EnrollEvent) : Prop := {
  td_same : Forall (λ e, ∃ at_ reply, e = Posted at_ url request client reply) evs;
  td_bound : 1 ≤ length evs ≤ ENROLLMENT_MAX_ATTEMPTS;
  td_last : ∃ init at_ reply, evs = (init ++ [Posted at_ url request client reply])%list ∧
    Forall (λ e, ∃ at_ err, e = Posted at_ url request client (Unreached err)) init ∧
    match r with
    | inr (status, body) => reply = Replied status body
    | inl e => er_reason e = Http ∧ ∃ err, reply = Unreached err
    end;
}.

Lemma tried_first url request client r at_ err evs :
  tried url request client r evs → length evs < ENROLLMENT_MAX_ATTEMPTS →
  tried url request client r (Posted at_ url request client (Unreached err) :: evs).
Proof.
  intros [Hs Hb (init & a & reply & -> & Hi & Hr)] Hl. split.
  - constructor; [by eauto|done].
  - cbn [length]. lia.
  - exists (Posted at_ url request client (Unreached err) :: init), a, reply. split_and!; [done| |done].
    constructor; eauto.
Qed.

Lemma send_from_run tries attempt url request client s :
  tries + attempt = ENROLLMENT_MAX_ATTEMPTS → 0 < tries →
  ∃ r t evs, send_from tries attempt url request client s =
    (r, mk_enrollee (set_clock t (en_world s)) (en_config s) (en_events s ++ evs)) ∧
    tried url request client r evs ∧ length evs ≤ tries.
Proof.
  revert attempt s. induction tries as [|tries IH]; intros attempt s Hn Ht; [lia|].
  cbn [send_from]. unfold send at 1, mbind at 1, EM_bind at 1.
  destruct (post url request client (en_events s) (en_world s)) as [reply time].
  destruct reply as [err|status body].
  - destruct (Nat.ltb_spec (attempt + 1) ENROLLMENT_MAX_ATTEMPTS) as [Hl|Hl].
    + unfold pass_time, mbind, EM_bind. cbn [en_world en_config en_events].
      match goal with |- context [send_from tries (attempt + 1) url request client ?x] => set (s1 := x) end.
      destruct (IH (attempt + 1) s1) as (r & t & evs & -> & Htd & Hle); [lia|lia|].
      eexists _, _, (_ :: evs). split_and!.
      * cbn. f_equal. f_equal. by rewrite <- (assoc_L (++)).
      * apply tried_first; [done|]. unfold ENROLLMENT_MAX_ATTEMPTS in *. lia.
      * cbn. lia.
    + eexists _, _, [_]. split_and!; [reflexivity| |cbn; lia]. split.
      * by repeat constructor; eauto.
      * unfold ENROLLMENT_MAX_ATTEMPTS. cbn. lia.
      * eexists [], _, _. split; [done|]. split; [done|]. cbn. eauto.
  - eexists _, _, [_]. split_and!; [reflexivity| |cbn; lia]. split.
    + by repeat constructor; eauto.
    + unfold ENROLLMENT_MAX_ATTEMPTS. cbn. lia.
    + by eexists [], _, _.
Qed.

Lemma send_with_retry_run url request client s : ∃ r t evs, send_with_retry url request client s =
    (r, mk_enrollee (set_clock t (en_world s)) (en_config s) (en_events s ++ evs)) ∧
  tried url request client r evs.
Proof.
  destruct (send_from_run ENROLLMENT_MAX_ATTEMPTS 0 url request client s) as (r & t & evs & E & Ht & _);
    [done|unfold ENROLLMENT_MAX_ATTEMPTS; lia|]. eauto 10.
Qed.

(** ** Reading the identity changes nothing *)

Lemma read_optional_respects (R : relation World) `{!PreOrder R} p : respects R (read_optional p).
Proof.
  apply respects_bind; [done|by apply path_exists_respects|]. intros []; [|by apply respects_ret].
  apply respects_bind; [done|by apply fs_read_respects|]. intros ?. by apply respects_ret.
Qed.

Lemma certificate_status_respects (R : relation World) `{!PreOrder R} paths :
  respects R (client_certificate_status paths).
Proof.
  apply respects_bind; [done|by apply read_optional_respects|]. intros [pem|]; [|by apply respects_ret].
  apply respects_bind; [done|intros w; reflexivity|]. intros now.
  apply respects_bind; [done|intros w; reflexivity|]. intros ?. by apply respects_ret.
Qed.

Lemma local_identity_respects (R : relation World) `{!PreOrder R} config :
  respects R (local_client_identity config).
Proof.
  apply respects_bind; [done|by apply respects_try, certificate_status_respects|].
  intros [[[? ? []]|]|]; try (by apply respects_ret);
    (apply respects_bind; [done| |intros ?; by apply respects_ret]); apply respects_try;
    (apply respects_bind; [done|by apply read_optional_respects|]); (intros [?|]; [|by apply respects_ret]);
    (apply respects_bind; [done|by apply read_optional_respects|]); intros [?|]; by apply respects_ret.
Qed.

Lemma http_client_same config w : (enrollment_http_client config w).2 = w.
Proof.
  assert (Hr : urespects eq (enrollment_http_client config)).
  { apply urespects_bind; [apply _|by apply urespects_of_sum, _|]. intros settings.
    apply urespects_bind; [apply _|by apply urespects_io, local_identity_respects, _|]. intros presented.
    cbn. destruct (build_client _); [by apply urespects_raise, _|by apply urespects_ret, _]. }
  by rewrite <- (Hr w).
Qed.
End Runs.

(** * The client *)

Section ClientSound.
Context `{Host} `{!SharedFs} `{!SharedPrivate} `{!Certificates} `{!EnrollHost}.
Implicit Types (w : World) (config : IdentityConfig) (paths : ClientIdentityPaths).

Lemma read_optional_run p w r w' : read_optional p w = (r, w') →
  w' = w ∧ match r with
           | Ok (Some text) => files w !! p = Some text
           | Ok None => fs_fault OpMetadata p ≠ None ∨ fs_exists p w = false
           | Err _ => True
           end.
Proof.
  intros Hr. pose proof (read_optional_respects eq p w) as Hw. rewrite Hr in Hw. cbn in Hw.
  split; [done|]. subst w'. unfold read_optional, path_exists, mbind, M_bind in Hr.
  destruct (fs_fault OpMetadata p) eqn:Ef.
  { injection Hr as <-. by left. }
  destruct (fs_exists p w) eqn:Ee; [|injection Hr as <-; by right].
  destruct (fs_read p w) as [[text|e] w1] eqn:Et; cbn in Hr; injection Hr as <-; [|done].
  by apply fs_read_ok in Et as [_ ?].
Qed.

(** The certificate on disk and how long it is still good for. *)
Definition good_for (w : World) paths (cert : string) (remaining : Z) : Prop :=
  files w !! cert_file paths = Some cert ∧ ∃ not_after,
  certificate_status_from_pem cert (clock w / 1000)%Z = Ok (mk_status not_after remaining (validity_of remaining)).

Lemma status_from_pem_ok pem now st : certificate_status_from_pem pem now = Ok st →
  st_validity st = validity_of (st_remaining_seconds st).
Proof.
  unfold certificate_status_from_pem. destruct (parse_x509_pem pem) as [?|contents]; [done|].
  destruct (certificate_not_after contents) as [?|t]; [done|]. by intros [= <-].
Qed.

Lemma certificate_status_run paths w r w' : client_certificate_status paths w = (r, w') →
  w' = w ∧ match r with
           | Ok (Some st) => ∃ cert, good_for w paths cert (st_remaining_seconds st) ∧
               certificate_status_from_pem cert (clock w / 1000)%Z = Ok st
           | Ok None => fs_fault OpMetadata (cert_file paths) ≠ None ∨ fs_exists (cert_file paths) w = false
           | Err _ => True
           end.
Proof.
  unfold client_certificate_status. intros [(e & He & ->)|(pem & w1 & Hp & Hr)]%bind_inv.
  { by apply read_optional_run in He as [-> _]. }
  apply read_optional_run in Hp as [-> Hp]. destruct pem as [pem|]; [|by injection Hr as <- <-].
  unfold gets, of_result, mbind, M_bind in Hr.
  destruct (certificate_status_from_pem pem (clock w / 1000)%Z) as [st|e] eqn:Es; injection Hr as <- <-; [|done].
  split; [done|]. exists pem. split; [|done]. split; [done|]. pose proof (status_from_pem_ok _ _ _ Es) as Hv.
  destruct st as [na re va]. cbn in *. subst va. eauto.
Qed.

Lemma combined_run paths w r w' : combined_client_identity_pem paths w = (r, w') → w' = w ∧
  ∀ pem, r = Ok (Some pem) → ∃ cert key, files w !! cert_file paths = Some cert ∧
    files w !! key_file paths = Some key ∧ pem = trim_end_char newline cert +:+ nl +:+ key.
Proof.
  unfold combined_client_identity_pem. intros [(e & He & ->)|(cert & w3 & Hc & Hr)]%bind_inv.
  { apply read_optional_run in He as [-> _]. by split. }
  apply read_optional_run in Hc as [-> Hc]. destruct cert as [cert|]; [|by injection Hr as <- <-].
  apply bind_inv in Hr as [(e & He & ->)|(key & w3 & Hk & Hr)].
  { apply read_optional_run in He as [-> _]. by split. }
  apply read_optional_run in Hk as [-> Hk]. destruct key as [key|]; injection Hr as <- <-; [|done].
  split; [done|]. intros pem [= <-]. eauto.
Qed.

(** A client is given the key and the certificate on disk, or no identity; never one that expired. *)
Lemma local_identity_run config w : ∃ r, local_client_identity config w = (Ok r, w) ∧
  ∀ pem, r = Some pem → ∃ cert key remaining, let paths := under (ic_state_dir config) in
    good_for w paths cert remaining ∧ (0 < remaining)%Z ∧ files w !! key_file paths = Some key ∧
    pem = trim_end_char newline cert +:+ nl +:+ key.
Proof.
  set (paths := under (ic_state_dir config)).
  unfold local_client_identity. fold paths.
  destruct (client_certificate_status paths w) as [st w1] eqn:Es.
  apply certificate_status_run in Es as Hs. destruct Hs as [-> Hs].
  assert (Et : try (client_certificate_status paths) w = (Ok st, w)) by by unfold try; rewrite Es.
  erewrite bind_ok by exact Et.
  assert (Hsome : ∀ na re va, st = Ok (Some (mk_status na re va)) → va ≠ Expired →
    ∃ r, (combined ← try (combined_client_identity_pem paths);
          mret (match combined with
                | Ok (Some combined) => match identity_from_pem combined with None => Some combined | Some _ => None end
                | _ => None
                end)) w = (Ok r, w) ∧
    ∀ pem, r = Some pem → ∃ cert key remaining, good_for w paths cert remaining ∧ (0 < remaining)%Z ∧
      files w !! key_file paths = Some key ∧ pem = trim_end_char newline cert +:+ nl +:+ key).
  { intros na re va -> Hva. unfold try, mbind, M_bind.
    destruct (combined_client_identity_pem paths w) as [r w2] eqn:Ec. apply combined_run in Ec as [-> Hp].
    eexists. split; [done|]. intros pem Hpem. destruct r as [[pem'|]|]; try done.
    destruct (identity_from_pem pem'); [done|]. injection Hpem as ->.
    destruct (Hp pem eq_refl) as (cert & key & Hcert & Hkey & ->). exists cert, key, re.
    destruct Hs as (cert' & [Hg (na' & Hg')] & Hst). cbn in *. rewrite Hcert in Hg. injection Hg as <-.
    rewrite Hst in Hg'. injection Hg' as -> ->. split_and!; [by split; eauto| |done|done].
    unfold validity_of in Hva. destruct (Z.leb_spec re 0); [done|lia]. }
  destruct st as [[[na re va]|]|e].
  - destruct va; [| |by exists None];
      (destruct (Hsome _ _ _ eq_refl ltac:(done)) as (r & E & Hr); exists r; split; [exact E|exact Hr]).
  - exists None. split; [|done]. unfold try, combined_client_identity_pem, read_optional, path_exists, mbind, M_bind.
    destruct (fs_fault OpMetadata (cert_file paths)); [done|]. destruct Hs as [Hs| ->]; done.
  - by exists None.
Qed.

(** The client that speaks to the gateway is safe to use, whatever fails on the host: it skips
    the verification of the gateway's certificate exactly when the configuration says [none], adds
    exactly the configured trust bundle and only for a mode that verifies, refuses a mode it does
    not know, and presents no identity but the key and certificate of the state directory, and
    these only while the certificate has not expired. *)
Theorem client_is_safe config w :
  (enrollment_http_client config w).2 = w ∧
  match (enrollment_http_client config w).1 with
  | inr client =>
      (cs_accept_invalid client = true ↔ effective_mode config = "none") ∧
      (cs_accept_invalid client = true ↔ ic_tls_mode config = Some "none") ∧
      cs_root client = (if String.eqb (effective_mode config) "https" || String.eqb (effective_mode config) "verify"
                        then required_option (ic_trust_bundle config) else None) ∧
      (∀ pem, cs_identity client = Some pem → ∃ cert key remaining,
         let paths := under (ic_state_dir config) in
         good_for w paths cert remaining ∧ (0 < remaining)%Z ∧ files w !! key_file paths = Some key ∧
         pem = trim_end_char newline cert +:+ nl +:+ key)
  | inl err => er_reason err ∈ [InvalidTlsMode; InvalidTrustBundle; Http]
  end ∧
  (effective_mode config ∉ ["https"; "verify"; "none"; "http"] →
   ∃ err, (enrollment_http_client config w).1 = inl err ∧ er_reason err = InvalidTlsMode).
Proof.
  split; [apply http_client_same|].
  assert (Hnone : effective_mode config = "none" ↔ ic_tls_mode config = Some "none").
  { unfold effective_mode. destruct (ic_tls_mode config); [split; congruence|]. split; [|done].
    by destruct (starts_with _ _). }
  unfold enrollment_http_client, mbind, EM_bind. unfold of_sum.
  destruct (local_identity_run config w) as (presented & El & Hp).
  assert (Hio : io (reject RIo) (local_client_identity config) w = (inr presented, w)) by by unfold io; rewrite El.
  assert (Ht : match trust config with
    | inl err => er_reason err = InvalidTrustBundle ∧ (String.eqb (effective_mode config) "https" = true ∨
        String.eqb (effective_mode config) "verify" = true) ∨
        er_reason err = InvalidTlsMode ∧ effective_mode config ∉ ["https"; "verify"; "none"; "http"]
    | inr (root, skip) => (skip = true ↔ effective_mode config = "none") ∧
        root = (if String.eqb (effective_mode config) "https" || String.eqb (effective_mode config) "verify"
                then required_option (ic_trust_bundle config) else None) ∧
        effective_mode config ∈ ["https"; "verify"; "none"; "http"]
    end).
  { unfold trust. set (mode := effective_mode config).
    destruct (String.eqb_spec mode "https") as [->|N1]; [|destruct (String.eqb_spec mode "verify") as [->|N2]].
    1,2: cbn [orb]; destruct (required_option _) as [b|]; [destruct (certificate_from_pem b)|];
      [left; split; auto|split_and!; [done|done|set_solver]..].
    cbn [orb]. destruct (String.eqb_spec mode "none") as [->|N3]; [split_and!; [done|done|set_solver]|].
    destruct (String.eqb_spec mode "http") as [->|N4]; [split_and!; [done|done|set_solver]|].
    right. split; [done|]. set_solver. }
  destruct (trust config) as [err|[root skip]].
  - destruct Ht as [[Er Hm]|[Er Hm]]; cbn [fst]; rewrite Er.
    + split; [set_solver|]. intros Hn. destruct Hm as [Hm|Hm]; apply String.eqb_eq in Hm; set_solver.
    + split; [set_solver|eauto].
  - destruct Ht as (Hs & Hr & Hm). rewrite Hio. cbn [fst snd].
    destruct (build_client _); cbn [fst raise mret EM_ret]; unfold raise, mret, EM_ret; cbn [fst].
    + split; [destruct (is_some root); set_solver|by intros ?].
    + split; [|by intros ?]. split_and!; [done|by rewrite <- Hnone|done|exact Hp].
Qed.
End ClientSound.

(** * Taking the token out of the configuration file *)

Section Scrub.
Context `{Host} `{!SharedFs} `{!SharedPrivate} `{!SharedPrivateLaws}.
Implicit Types (w : World) (text line : string) (l : list string).

Lemma split_join l : l ≠ [] → Forall (λ x, has_char newline x = false) l →
  split_on newline (Text.join nl l +:+ nl) = (l ++ [""])%list.
Proof.
  intros Hne Hl. induction Hl as [|x l Hx Hl IH]; [done|]. destruct l as [|y l].
  - cbn [Text.join]. change nl with (String newline ""). by rewrite split_on_app, split_on_id.
  - change (Text.join nl (x :: y :: l)) with (x +:+ nl +:+ Text.join nl (y :: l)).
    rewrite <- !Prelude.app_assoc. change (nl +:+ ?t) with (String newline t).
    rewrite split_on_app, split_on_id by done. cbn [app]. f_equal. by apply IH.
Qed.

Lemma lines_of_snoc l : lines_of (l ++ [""]) = strip_cr <$> l.
Proof.
  induction l as [|x l IH]; [done|]. cbn [app lines_of]. destruct (l ++ [""])%list eqn:E.
  - by destruct l.
  - by rewrite fmap_cons, IH.
Qed.

Lemma strip_cr_no_newline line : has_char newline line = false → has_char newline (strip_cr line) = false.
Proof.
  intros Hl. unfold strip_cr. destruct (rsplit_once "013" line) as [[x [|]]|] eqn:E; [|done..].
  apply rsplit_once_spec in E. rewrite E, has_char_app in Hl. by apply orb_false_iff in Hl as [? _].
Qed.

Lemma lines_no_newline text : Forall (λ x, has_char newline x = false) (lines text).
Proof.
  unfold lines. assert (Hp : Forall (λ x, has_char newline x = false) (split_on newline text))
    by by apply Forall_forall; apply split_on_pieces.
  induction Hp as [|x l Hx Hl IH]; [done|]. destruct l as [|y l]; cbn [lines_of].
  - destruct (String.eqb x ""); by repeat constructor.
  - constructor; [by apply strip_cr_no_newline|done].
Qed.

Lemma filter_without_change {A} (p : A → bool) (l : list A) :
  length (List.filter p l) = length l → List.filter p l = l.
Proof.
  induction l as [|x l IH]; [done|]. cbn. destruct (p x).
  - cbn. intros [= Hl]. f_equal. by apply IH.
  - intros Hl. pose proof (filter_length_le p l). lia.
Qed.

(** What the scrub keeps of a text. *)
Definition kept_lines text : list string := List.filter (λ line, negb (is_enrollment_scoped_line line)) (lines text).

Lemma kept_no_newline text : Forall (λ x, has_char newline x = false) (kept_lines text).
Proof.
  pose proof (lines_no_newline text) as Hl. rewrite Forall_forall in Hl. apply Forall_forall. intros x Hx.
  apply Hl. unfold kept_lines in Hx. rewrite list_elem_of_In in Hx |- *. by apply filter_In in Hx as [? _].
Qed.

Lemma scrub_run path w : fault_free → scrub_enrollment_token_from_config_file path w =
  (inr tt, match files w !! path with
           | Some text => if decide (kept_lines text = lines text) then w
                          else wrote path (Text.join nl (kept_lines text) +:+ nl) w
           | None => w
           end).
Proof.
  intros Hff. unfold scrub_enrollment_token_from_config_file, io, try, fs_read, guard_fault, act, mbind, M_bind, EM_bind.
  rewrite Hff. destruct (files w !! path) as [text|]; cbn; [|done]. fold (kept_lines text).
  destruct (Nat.eqb_spec (length (kept_lines text)) (length (lines text))) as [Hl|Hl].
  - rewrite decide_True by by apply filter_without_change. done.
  - rewrite decide_False by by intros E; apply Hl; rewrite E.
    unfold source_err. by rewrite shared_write_bytes_private_law, private_write_ff.
Qed.

(** Once enrolment is through, the one-time token is not left in the configuration file: the file
    then consists of exactly the lines that are not about enrolment, in their order, and is not
    touched when there is no such line, so doing it again changes nothing. *)
Theorem scrub_exact path text w : fault_free → files w !! path = Some text →
  Forall (λ line, strip_cr line = line) (lines text) →
  ∃ w', scrub_enrollment_token_from_config_file path w = (inr tt, w') ∧
    (∀ q, ¬ store_paths path q → files w' !! q = files w !! q) ∧
    (Forall (λ line, is_enrollment_scoped_line line = false) (lines text) → w' = w) ∧
    (∀ text', files w' !! path = Some text' →
       lines text' = (if decide (kept_lines text = []) then if decide (lines text = []) then [] else [""]
                      else kept_lines text) ∧
       Forall (λ line, is_enrollment_scoped_line line = false) (lines text')) ∧
    scrub_enrollment_token_from_config_file path w' = (inr tt, w').
Proof.
  intros Hff Ht Hcr. rewrite scrub_run, Ht by done. eexists. split; [done|].
  assert (Hk : Forall (λ line, is_enrollment_scoped_line line = false) (kept_lines text)).
  { apply Forall_forall. intros x Hx. unfold kept_lines in Hx. rewrite list_elem_of_In, filter_In in Hx.
    by apply negb_true_iff, Hx. }
  assert (Hall : Forall (λ line, is_enrollment_scoped_line line = false) (lines text) ↔ kept_lines text = lines text).
  { split; [|by intros <-]. intros Hl. unfold kept_lines. induction Hl as [|x l Hx Hl IH]; [done|].
    cbn. rewrite Hx. cbn. f_equal. apply IH; by inversion Hcr. }
  assert (Hnew : kept_lines text ≠ lines text →
    lines (Text.join nl (kept_lines text) +:+ nl) = if decide (kept_lines text = []) then [""] else kept_lines text).
  { intros Hne. case_decide as Hz; [by rewrite Hz|]. unfold lines. rewrite split_join, lines_of_snoc by
      (done || apply kept_no_newline). rewrite <- (list_fmap_id (kept_lines text)) at 2. apply list_fmap_ext.
    intros i x Hx. apply list_elem_of_lookup_2 in Hx. unfold kept_lines in Hx.
    rewrite list_elem_of_In, filter_In, <- list_elem_of_In in Hx. rewrite Forall_forall in Hcr. by apply Hcr, Hx. }
  destruct (decide (kept_lines text = lines text)) as [Hd|Hd].
  - split_and!; [done|done| |by rewrite scrub_run, Ht, decide_True by done].
    intros text' Ht'. rewrite Ht in Ht'. injection Ht' as <-. split; [|by apply Hall].
    case_decide as Hz; [|done]. rewrite Hd in Hz. rewrite Hz. by rewrite decide_True.
  - split_and!.
    + intros q. apply wrote_lookup_ne.
    + by intros ?%Hall.
    + intros text' Ht'. rewrite wrote_lookup in Ht'. injection Ht' as <-. rewrite Hnew by done.
      case_decide as Hz; [|done]. rewrite decide_False by by intros E; apply Hd; rewrite Hz, E.
      split; [done|by repeat constructor].
    + rewrite scrub_run, wrote_lookup by done. rewrite decide_True; [done|].
      set (new := Text.join nl (kept_lines text) +:+ nl).
      assert (Hs : Forall (λ line, is_enrollment_scoped_line line = false) (lines new)).
      { unfold new. rewrite Hnew by done. case_decide; [by repeat constructor|done]. }
      unfold kept_lines. clear - Hs. induction Hs as [|x l Hx Hl IH]; [done|]. cbn. rewrite Hx. cbn. by f_equal.
Qed.
End Scrub.

(** * The identity stays *)

Section Stays.
Context `{Host} `{!SharedFs} `{!SharedPrivate} `{!SharedFsLaws} `{!SharedPrivateLaws} `{!Certificates}.
Context `{!EnrollHost} `{!EnrollHostLaws} `{!Json AgentRuntimeState} `{!Json RenewalLedger}.
Context (d : string).
Implicit Types (w : World) (s : Enrollee) (config : IdentityConfig).

(** The file that says who the agent is, and what it says. *)
Definition registered (a i : string) w : Prop := ∃ text state,
  files w !! runtime_path_for d = Some text ∧ from_json text = Ok state ∧
  rs_agent_id state = a ∧ rs_instance_id state = i ∧ is_registered_agent_id a = true.

Definition is_enroll (e : EnrollEvent) : bool :=
  match e with Posted _ _ (PostEnroll _ _ _) _ _ => true | _ => false end.
Definition enroll_posts s : list EnrollEvent := List.filter is_enroll (en_events s).

(** What is known of a renewal: who the agent is does not change, and nobody enrols. *)
Record stays s s' : Prop := mk_stays {
  sy_registered : ∀ a i, registered a i (en_world s) → registered a i (en_world s');
  sy_agent : ic_agent_id (en_config s') = ic_agent_id (en_config s);
  sy_instance : ic_instance_name (en_config s') = ic_instance_name (en_config s);
  sy_posts : enroll_posts s' = enroll_posts s;
}.

#[export] Instance stays_preorder : PreOrder stays.
Proof.
  split; [by intros s; split|]. intros s1 s2 s3 [R1 A1 I1 P1] [R2 A2 I2 P2]. split; [auto|congruence..].
Qed.

Definition keeps_id w w' : Prop := ∀ a i, registered a i w → registered a i w'.
#[export] Instance keeps_id_preorder : PreOrder keeps_id.
Proof. split; [by intros w a i|]. intros w1 w2 w3 H12 H23 a i Hr. auto. Qed.

Lemma keeps_id_files w w' : files w' !! runtime_path_for d = files w !! runtime_path_for d → keeps_id w w'.
Proof. intros E a i (text & state & Ht & Hr). exists text, state. by rewrite E. Qed.

Lemma keeps_id_only (F : string → Prop) {A} (m : M World A) : ¬ F (runtime_path_for d) →
  respects (only_files F) m → respects keeps_id m.
Proof. intros HF Hm w. apply keeps_id_files. by apply (Hm w). Qed.

Lemma runtime_apart x : has_char slash x = true → path_join d x ≠ runtime_path_for d.
Proof. intros Hx Heq. apply path_join_inj in Heq as ->. by rewrite runtime_file_name in Hx. Qed.

Lemma runtime_storable : storable (runtime_path_for d).
Proof.
  unfold runtime_path_for. destruct runtime_file_json as [n ->]. rewrite join_ends_json. apply json_storable.
Qed.

Lemma write_private_keeps p bytes : p ≠ runtime_path_for d → respects keeps_id (write_private p bytes).
Proof.
  intros Hp w. destruct (write_private p bytes w) as [r w'] eqn:E. apply write_private_run in E as [Ho _].
  apply keeps_id_files. apply Ho. congruence.
Qed.

Lemma key_keeps : respects keeps_id (load_or_generate_key_pair (under d)).
Proof.
  apply respects_bind; [apply _|by apply path_exists_respects, _|]. intros [].
  - apply respects_bind; [apply _|by apply fs_read_respects, _|]. intros pem.
    destruct (key_from_pem pem); [by apply respects_throw, _|by apply respects_ret, _].
  - apply respects_bind; [apply _|intros w; reflexivity|]. intros [err|key]; [by apply respects_throw, _|].
    apply respects_bind; [apply _|by apply write_private_keeps, runtime_apart|].
    intros _. by apply respects_ret, _.
Qed.

Lemma source_err_respects {S A} (R : relation S) reason detail (m : M S A) :
  respects R m → urespects R (source_err reason detail m).
Proof. intros Hm s. specialize (Hm s). unfold source_err. by destruct (m s) as [[] ?]. Qed.

Lemma csr_keeps : urespects keeps_id (local_certificate_signing_request d).
Proof.
  apply urespects_bind; [apply _|apply source_err_respects, key_keeps|]. intros key.
  apply source_err_respects. unfold build_certificate_signing_request.
  destruct (serialize_request key); [by apply respects_throw, _|by apply respects_ret, _].
Qed.

Lemma certificate_keeps credential : urespects keeps_id (store_issued_client_certificate d credential).
Proof.
  unfold store_issued_client_certificate. case_match; [by apply urespects_raise, _|].
  by apply source_err_respects, write_private_keeps, runtime_apart.
Qed.

Lemma ledger_keeps decision : urespects keeps_id (record_renewal_ledger d decision).
Proof.
  apply urespects_bind; [apply _|by apply urespects_io, respects_try, certificate_status_respects, _|].
  intros status. apply urespects_bind; [apply _|apply urespects_io; intros w; reflexivity|].
  intros now w. apply (write_private_keeps (renewal_file (under d))). by apply runtime_apart.
Qed.

(** Storing the credential of a renewal over a state keeps who that state is. *)
Lemma runtime_store_keeps credential w w1 state : load_or_default_async (runtime_path_for d) w = (Ok state, w1) →
  keeps_id w w1 ∧
  keeps_id w1 (store_async (runtime_path_for d) (apply_credential_to_runtime_state credential state) w1).2.
Proof.
  intros Hl. assert (Hw : w1 = w ∧ ∀ a i, registered a i w → rs_agent_id state = a ∧ rs_instance_id state = i).
  { unfold load_or_default_async, try in Hl. unfold mbind, M_bind in Hl.
    destruct (fs_metadata (runtime_path_for d) w) as [[u|e] w2] eqn:Em.
    - apply fs_metadata_ok in Em as [-> _]. apply read_json_ok in Hl as (-> & text & Ht & Hj). split; [done|]. intros a i (text' & st & Ht' & Hj' & Ha & Hi & _).
      rewrite Ht in Ht'. injection Ht' as <-. rewrite Hj in Hj'. injection Hj' as <-. done.
    - apply fs_metadata_err in Em as [-> Hx]. case_decide as Hk; [|done]. injection Hl as Hst <-.
      split; [done|]. intros a i (text' & st & Ht' & _). exfalso.
      apply Hx in Hk as [Hk _]. by rewrite (fs_exists_lookup _ _ _ Ht') in Hk. }
  destruct Hw as [-> Hid]. split; [reflexivity|]. intros a i Hr.
  destruct (Hid a i Hr) as [Ha Hi]. destruct (store_async _ _ w) as [r w'] eqn:Es.
  apply write_private_atomic_either in Es as [Es|Es]; [| |apply runtime_storable].
  - by apply (keeps_id_files w w').
  - destruct Hr as (_ & _ & _ & _ & _ & _ & Hreg).
    eexists _, _. cbn. rewrite Es, from_to_json. split_and!; [done|done|done|done|done].
Qed.

Lemma at_host_stays {A} (m : EnM World A) : urespects keeps_id m → urespects stays (at_host m).
Proof.
  intros Hm s. specialize (Hm (en_world s)). unfold at_host. destruct (m (en_world s)) as [r w].
  by split.
Qed.

Lemma change_config_stays f :
  (∀ c, ic_agent_id (f c) = ic_agent_id c ∧ ic_instance_name (f c) = ic_instance_name c) →
  urespects stays (change_config f).
Proof. intros Hf s. destruct (Hf (en_config s)). by split. Qed.

Lemma enroll_posts_app evs evs' : List.filter is_enroll (evs ++ evs') = (List.filter is_enroll evs ++ List.filter is_enroll evs')%list.
Proof. apply List.filter_app. Qed.

Lemma tried_renewal url a i csr now client r evs : tried url (PostRenew a i csr now) client r evs →
  List.filter is_enroll evs = [].
Proof. intros [Hs _ _]. induction Hs as [|e evs (at_ & reply & ->) Hs IH]; [done|exact IH]. Qed.

Lemma send_renewal_stays url a i csr now client : urespects stays (send_with_retry url (PostRenew a i csr now) client).
Proof.
  intros s. destruct (send_with_retry_run url (PostRenew a i csr now) client s) as (r & t & evs & -> & Ht).
  split; cbn; [|done|done|].
  - intros a' i'. by apply keeps_id_files.
  - unfold enroll_posts. cbn. rewrite enroll_posts_app, (tried_renewal _ _ _ _ _ _ _ _ Ht). apply (right_id_L [] (++)).
Qed.

Lemma io_now_respects {R : relation World} `{!PreOrder R} reason : urespects R (io (reject reason) now_rfc3339).
Proof. apply urespects_io. intros w. reflexivity. Qed.

Lemma http_client_respects {R : relation World} `{!PreOrder R} config : urespects R (enrollment_http_client config).
Proof. intros w. by rewrite http_client_same. Qed.

Lemma apply_credential_stays credential : urespects stays (apply_credential_to_config credential).
Proof.
  unfold apply_credential_to_config. case_match; [by apply urespects_raise, _|]. by apply change_config_stays.
Qed.

Lemma load_async_respects (R : relation World) `{!PreOrder R} p : respects R (load_or_default_async p).
Proof.
  apply respects_bind; [done|by apply respects_try, fs_metadata_respects|]. intros [u|err].
  - by apply read_json_respects.
  - case_decide; [intros w; reflexivity|by apply respects_throw].
Qed.

Lemma load_async_same p w r w' : load_or_default_async p w = (r, w') → w' = w.
Proof. intros Hl. pose proof (load_async_respects eq p w) as Hw. by rewrite Hl in Hw. Qed.

Lemma renew_store_stays credential : urespects stays
  (state ← at_host (source_err RIo "load runtime state" (load_or_default_async (runtime_path_for d)));
   at_host (source_err RIo "store runtime state"
     (store_async (runtime_path_for d) (apply_credential_to_runtime_state credential state)));;
   mret RenewDone).
Proof.
  intros s. unfold mbind, EM_bind, at_host, source_err.
  destruct (load_or_default_async (runtime_path_for d) (en_world s)) as [[state|e] w1] eqn:El.
  - apply (runtime_store_keeps credential) in El as [K1 K2]. cbn [en_world en_config en_events].
    destruct (store_async _ _ w1) as [[u|e] w2]; cbn in K2; split; cbn; auto.
  - apply load_async_same in El as ->. by split.
Qed.

Lemma renew_credential_stays : urespects stays (renew_credential d).
Proof.
  unfold renew_credential. apply urespects_bind; [apply _|by apply urespects_look, _|]. intros config.
  destruct (required_option (ic_endpoint config)) as [endpoint|]; [|by apply urespects_raise, _].
  destruct (required_option (ic_agent_id config)) as [agent_id|]; [|by apply urespects_ret, _].
  apply urespects_bind; [apply _|apply at_host_stays, csr_keeps|]. intros csr.
  apply urespects_bind; [apply _|apply at_host_stays, io_now_respects|]. intros now.
  apply urespects_bind; [apply _|apply at_host_stays, http_client_respects|]. intros client.
  apply urespects_bind; [apply _|apply send_renewal_stays|]. intros response.
  destruct (negb (is_success response.1)).
  { destruct (classify_auth_rejection _ _); [by apply urespects_ret, _|by apply urespects_raise, _]. }
  destruct (json_of decode_renewed response.2) as [e|credential]; [by apply urespects_raise, _|].
  apply urespects_bind; [apply _|apply apply_credential_stays|]. intros _.
  apply urespects_bind; [apply _|apply at_host_stays, certificate_keeps|]. intros _.
  apply renew_store_stays.
Qed.

Lemma renewal_stays : urespects stays (renew_credential_if_due d).
Proof.
  unfold renew_credential_if_due. apply urespects_bind; [apply _| |].
  - unfold renewal_decision. apply urespects_bind; [apply _| |].
    { apply at_host_stays, urespects_io, respects_try, certificate_status_respects, _. }
    intros [[[? ? []]|]|]; try by apply urespects_ret, _.
    unfold renew_now. apply urespects_bind; [apply _|apply urespects_attempt, renew_credential_stays|].
    intros ?. by apply urespects_ret, _.
  - intros decision. apply urespects_bind; [apply _|apply at_host_stays, ledger_keeps|].
    intros _. by apply urespects_ret, _.
Qed.

Lemma scrub_stays path : ¬ store_paths path (runtime_path_for d) →
  urespects stays (at_host (scrub_enrollment_token_from_config_file path)).
Proof.
  intros Hp. apply at_host_stays. unfold scrub_enrollment_token_from_config_file.
  apply urespects_bind; [apply _|by apply urespects_io, respects_try, fs_read_respects, _|].
  intros [text|err].
  - cbn. case_match; [by apply urespects_ret, _|]. apply source_err_respects.
    apply (keeps_id_only (store_paths path)); [done|]. intros w. rewrite shared_write_bytes_private_law.
    by apply private_write_respects.
  - case_decide; [by apply urespects_ret, _|by apply urespects_raise, _].
Qed.

Lemma scrub_if_stays config_path : (∀ p, config_path = Some p → ¬ store_paths p (runtime_path_for d)) →
  urespects stays (scrub_if config_path).
Proof. intros Hp. destruct config_path as [p|]; [by apply scrub_stays, Hp|by apply urespects_ret, _]. Qed.

(** A start with a state on disk takes the identity from it. *)
Lemma load_state_run a i s : fs_fault OpMetadata (runtime_path_for d) = None → registered a i (en_world s) →
  ∃ r s', load_state_identity d s = (r, s') ∧ (r = inr true ∨ ∃ e, r = inl e) ∧
  en_world s' = en_world s ∧ en_events s' = en_events s ∧
  (r = inr true → ic_agent_id (en_config s') = Some a ∧ ic_instance_name (en_config s') = Some i) ∧
  (∀ e, r = inl e → en_config s' = en_config s).
Proof.
  intros Hf (text & state & Ht & Hj & Ha & Hi & Hreg). unfold load_state_identity.
  assert (He : path_exists (runtime_path_for d) (en_world s) = (Ok true, en_world s)).
  { unfold path_exists. rewrite Hf. by rewrite (fs_exists_lookup _ _ _ Ht). }
  unfold mbind, EM_bind, at_host, io, source_err. rewrite He. cbn [negb en_world en_config en_events].
  unfold load_or_default, mbind, M_bind. rewrite He. rewrite shared_read_json_law.
  destruct (read_json_async _ (en_world s)) as [[st|e] w1] eqn:Er.
  - apply read_json_ok in Er as (-> & text' & Ht' & Hj'). rewrite Ht in Ht'. injection Ht' as <-.
    rewrite Hj in Hj'. injection Hj' as <-. rewrite Ha, Hreg. cbn. eexists _, _. split; [done|].
    split_and!; [by left|done|done|by rewrite Hi|done].
  - assert (w1 = en_world s) as ->.
    { pose proof (read_json_respects (A := AgentRuntimeState) eq (runtime_path_for d) (en_world s)) as Hr. by rewrite Er in Hr. }
    eexists _, _. split; [done|]. split_and!; [right; eauto|done|done|done|done].
Qed.
End Stays.

(** * Starts of the agent *)

Section Starts.
Context `{Host} `{!SharedFs} `{!SharedPrivate} `{!SharedFsLaws} `{!SharedPrivateLaws} `{!Certificates}.
Context `{!EnrollHost} `{!EnrollHostLaws} `{!Json AgentRuntimeState} `{!Json RenewalLedger}.
Implicit Types (w : World) (s : Enrollee) (config : IdentityConfig).

(** A start reads the configuration afresh; what it ends in, and the agent id it then goes by. *)
Definition start_agent (d : string) (config_path : option string) config : EnM Enrollee EnrollmentDecision :=
  change_config (λ _, config);;
  ensure_enrolled d config_path.

Fixpoint starts (d : string) (config_path : option string) (configs : list IdentityConfig) s :
    list (EnrollmentError + EnrollmentDecision * option string) * Enrollee :=
  match configs with
  | [] => ([], s)
  | config :: configs =>
      let '(r, s) := start_agent d config_path config s in
      let '(rs, s') := starts d config_path configs s in
      (match r with inr decision => inr (decision, ic_agent_id (en_config s)) | inl e => inl e end :: rs, s')
  end.

Lemma at_host_ok {A} (m : EnM World A) s a s1 : at_host m s = (inr a, s1) →
  ∃ w, m (en_world s) = (inr a, w) ∧ s1 = mk_enrollee w (en_config s) (en_events s).
Proof. unfold at_host. destruct (m (en_world s)) as [r w]. intros [= -> <-]. eauto. Qed.

Lemma load_state_false d s s1 : load_state_identity d s = (inr false, s1) → s1 = s.
Proof.
  assert (Hput : ∀ w, en_world s = w → mk_enrollee w (en_config s) (en_events s) = s) by (intros w <-; by destruct s).
  unfold load_state_identity. intros (there & s2 & Hp & Hr)%em_bind_ok.
  apply at_host_ok in Hp as (w & Hp & ->). unfold io, path_exists in Hp.
  assert (w = en_world s) as -> by by injection Hp. rewrite Hput in Hr by done.
  destruct there; cbn [negb] in Hr; [|by injection Hr].
  apply em_bind_ok in Hr as (state & s2 & Hl & Hr). apply at_host_ok in Hl as (w & Hl & ->).
  assert (w = en_world s) as ->.
  { unfold source_err in Hl. destruct (load_or_default _ _) as [[st|e] w1] eqn:E; [|done].
    injection Hl as _ <-. unfold load_or_default, mbind, M_bind, path_exists in E.
    destruct (match fs_fault OpMetadata (runtime_path_for d) with Some _ => false | None => fs_exists (runtime_path_for d) (en_world s) end).
    - rewrite shared_read_json_law in E.
      pose proof (read_json_respects (A := AgentRuntimeState) eq (runtime_path_for d) (en_world s)) as Hw. by rewrite E in Hw.
    - by injection E. }
  rewrite Hput in Hr by done. destruct (negb (is_registered_agent_id (rs_agent_id state))); [by injection Hr|].
  apply em_bind_ok in Hr as ([] & s2 & _ & Hr). done.
Qed.

(** Whoever is registered stays so, whatever a later start does. *)
Lemma later_start d config_path a i config s :
  fs_fault OpMetadata (runtime_path_for d) = None →
  (∀ p, config_path = Some p → ¬ store_paths p (runtime_path_for d)) →
  registered d a i (en_world s) →
  let '(r, s') := start_agent d config_path config s in
  registered d a i (en_world s') ∧ enroll_posts s' = enroll_posts s ∧
  match r with
  | inr ExistingStateIdentity => ic_agent_id (en_config s') = Some a
  | inr ExistingConfigIdentity => has_config_identity config = true ∧ ic_agent_id (en_config s') = ic_agent_id config
  | inr _ => False
  | inl _ => True
  end.
Proof.
  intros Hf Hp Hreg. destruct (start_agent d config_path config s) as [r s'] eqn:E.
  unfold start_agent in E. apply em_bind_inv in E as [(e & [=] & _)|([] & s1 & Hc & E)].
  injection Hc as <-. set (s1 := mk_enrollee (en_world s) config (en_events s)) in *.
  change (registered d a i (en_world s1)) in Hreg. change (enroll_posts s) with (enroll_posts s1).
  unfold ensure_enrolled in E. apply em_bind_inv in E as [(e & [=] & _)|(c & s2 & Hc & E)].
  injection Hc as <- <-. change (en_config s1) with config in E. destruct (has_config_identity config) eqn:Hid.
  { assert (Hs : stays d s1 s').
    { assert (Hu : urespects (stays d) (scrub_if config_path;; mret (M := EnM Enrollee) ExistingConfigIdentity)).
      { apply urespects_bind; [apply _|by apply scrub_if_stays|]. intros _. by apply urespects_ret, _. }
      specialize (Hu s1). by rewrite E in Hu. }
    destruct Hs as [Hsr Hsa _ Hsp]. split_and!; [auto|done|].
    apply em_bind_inv in E as [(e & _ & ->)|(? & ? & _ & E)]; [done|]. injection E as <- <-. done. }
  destruct (load_state_run d a i s1 Hf Hreg) as (r1 & s2 & El & Hr1 & Hw & Hev & Hok & Herr).
  apply em_bind_inv in E as [(e & He & ->)|(known & s3 & Hk & E)].
  { rewrite El in He. injection He as -> ->. rewrite Hw. unfold enroll_posts. by rewrite Hev. }
  rewrite El in Hk. injection Hk as -> ->. destruct Hr1 as [[= ->]|[? [=]]].
  destruct (Hok eq_refl) as [Ha Hi].
  assert (Hs : stays d s3 s').
  { assert (Hu : urespects (stays d) (renew_credential_if_due d;; scrub_if config_path;; mret (M := EnM Enrollee) ExistingStateIdentity)).
    { apply urespects_bind; [apply _|apply renewal_stays|]. intros _.
      apply urespects_bind; [apply _|by apply scrub_if_stays|]. intros _. by apply urespects_ret, _. }
    specialize (Hu s3). by rewrite E in Hu. }
  destruct Hs as [Hsr Hsa _ Hsp]. split_and!.
  - apply Hsr. by rewrite Hw.
  - rewrite Hsp. unfold enroll_posts. by rewrite Hev.
  - apply em_bind_inv in E as [(e & _ & ->)|(? & ? & _ & E)]; [done|].
    apply em_bind_inv in E as [(e & _ & ->)|(? & ? & _ & E)]; [done|]. injection E as <- <-. by rewrite Hsa.
Qed.

Lemma at_host_inv {A} (m : EnM World A) s r s1 : at_host m s = (r, s1) →
  en_config s1 = en_config s ∧ en_events s1 = en_events s.
Proof. unfold at_host. destruct (m (en_world s)) as [r' w]. by intros [= _ <-]. Qed.

(** Who an accepted result names, and that the agent then goes by it in memory and on disk. *)
Lemma apply_result_run d result s s1 : apply_enrollment_result d result s = (inr tt, s1) →
  oc_accepted result = true ∧ en_events s1 = en_events s ∧ ∃ a i,
    ic_agent_id (en_config s1) = Some a ∧ ic_instance_name (en_config s1) = Some i ∧
    (is_registered_agent_id a = true → registered d a i (en_world s1)) ∧
    (∀ credential, oc_credential_bundle result = Some credential →
       ic_enrollment_token (en_config s1) = None ∧ ic_credential_id (en_config s1) = Some (cb_credential_id credential)).
Proof.
  unfold apply_enrollment_result. destruct (oc_accepted result); [|done]. cbn [negb].
  destruct (non_blank (match oc_agent_id result with Some _ => _ | None => _ end)) as [a|]; [|done].
  destruct (non_blank (match oc_instance_id result with Some _ => _ | None => _ end)) as [i|]; [|done].
  intros Hr. split; [done|].
  apply em_bind_ok in Hr as ([] & s2 & H2' & Hr).
  assert (E2 : en_events s2 = en_events s).
  { destruct (oc_issued_identity result); by injection H2' as <-. }
  apply em_bind_ok in Hr as ([] & s3 & H3' & Hr).
  assert (E3 : en_events s3 = en_events s2 ∧ ∀ credential, oc_credential_bundle result = Some credential →
    ic_enrollment_token (en_config s3) = None ∧ ic_credential_id (en_config s3) = Some (cb_credential_id credential)).
  { destruct (oc_credential_bundle result) as [credential|]; [|by injection H3' as <-].
    apply em_bind_ok in H3' as ([] & s4 & H4' & H3'). unfold apply_credential_to_config in H4'.
    destruct (String.eqb (trim (cb_certificate credential)) ""); [done|]. injection H4' as <-.
    apply at_host_inv in H3' as [Ec ->]. rewrite Ec. split; [done|]. by intros ? [= <-]. }
  destruct E3 as [E3 Hcr]. apply em_bind_ok in Hr as ([] & s4 & H4' & Hr). injection H4' as <-.
  apply em_bind_ok in Hr as (now & s5 & H5' & Hr). apply at_host_inv in H5' as [C5 E5].
  apply at_host_ok in Hr as (w & Hst & ->). cbn [en_world en_config en_events] in *.
  split; [by rewrite E5, E3, E2|]. exists a, i. rewrite C5. cbn. split_and!; [done|done| |exact Hcr].
  intros Hreg. unfold source_err, store in Hst. rewrite shared_write_json_private_law in Hst.
  match type of Hst with context [write_json_private_atomic_async _ ?x _] => set (state := x) in * end.
  destruct (write_json_private_atomic_async _ state (en_world s5)) as [[u|e] w1] eqn:Ew; [|done].
  injection Hst as _ <-. unfold write_json_private_atomic_async in Ew.
  apply private_write_ok in Ew; [|apply runtime_storable].
  exists (to_json state +:+ nl), state. rewrite from_to_json. unfold state.
  destruct (oc_credential_bundle result); cbn; rewrite ?new_agent_id, ?new_instance_id; done.
Qed.

(** What an enrolment came from: one token, presented until the gateway first replied. *)
Lemma enrol_run d config_path config s s' :
  (∀ p, config_path = Some p → ¬ store_paths p (runtime_path_for d)) →
  start_agent d config_path config s = (inr Enrolled, s') →
  (∃ a i, ic_agent_id (en_config s') = Some a ∧ ic_instance_name (en_config s') = Some i ∧
     (is_registered_agent_id a = true → registered d a i (en_world s'))) ∧
  ∃ token csr now url client status body outcome evs,
    required_option (ic_enrollment_token config) = Some token ∧
    en_events s' = (en_events s ++ evs)%list ∧
    tried url (PostEnroll token csr now) client (inr (status, body)) evs ∧
    json_of decode_envelope body = inr outcome ∧ oc_accepted outcome = true.
Proof.
  intros Hp Hr. unfold start_agent in Hr. apply em_bind_ok in Hr as ([] & s1 & Hc & Hr).
  injection Hc as <-. set (s1 := mk_enrollee (en_world s) config (en_events s)) in *.
  unfold ensure_enrolled in Hr. apply em_bind_ok in Hr as (c & s2 & Hc & Hr). injection Hc as <- <-.
  change (en_config s1) with config in Hr. destruct (has_config_identity config).
  { apply em_bind_ok in Hr as (? & ? & _ & Hr). done. }
  apply em_bind_ok in Hr as (known & s2 & Hl & Hr). destruct known.
  { apply em_bind_ok in Hr as (? & ? & _ & Hr). apply em_bind_ok in Hr as (? & ? & _ & Hr). done. }
  apply load_state_false in Hl as ->. destruct (ic_enabled config); [|done]. cbn [negb] in Hr.
  destruct (required_option (ic_endpoint config)) as [endpoint|]; [|done].
  destruct (required_option (ic_enrollment_token config)) as [token|]; [|done].
  apply em_bind_ok in Hr as (request & s3 & Hq & Hr). apply at_host_ok in Hq as (w & Hq & ->).
  assert (∃ csr now, request = PostEnroll token csr now) as (csr & now & ->).
  { unfold build_enrollment_request in Hq. apply em_bind_ok in Hq as (csr & w1 & _ & Hq).
    apply em_bind_ok in Hq as (now & w2 & _ & Hq). injection Hq as <- _. eauto. }
  apply em_bind_ok in Hr as (outcome & s4 & Ho & Hr).
  apply em_bind_ok in Hr as ([] & s5 & Ha & Hr). apply apply_result_run in Ha as (Hacc & E5 & a & i & Aa & Ai & Hreg & _).
  assert (Hs : stays d s5 s').
  { assert (Hu : urespects (stays d) (scrub_if config_path;; mret (M := EnM Enrollee) Enrolled)).
    { apply urespects_bind; [apply _|by apply scrub_if_stays|]. intros _. by apply urespects_ret, _. }
    specialize (Hu s5). by rewrite Hr in Hu. }
  assert (Hev : en_events s' = en_events s5).
  { apply em_bind_ok in Hr as ([] & s6 & Hscr & Hr). injection Hr as <-.
    destruct config_path as [p|]; [by apply at_host_inv in Hscr as [_ ?]|by injection Hscr as <-]. }
  split.
  - exists a, i. destruct Hs as [Hsr Hsa Hsi _]. rewrite Hsa, Hsi. split_and!; auto.
  - unfold post_enrollment in Ho. apply em_bind_ok in Ho as (c & s6 & Hc & Ho). injection Hc as <- <-.
    apply em_bind_ok in Ho as (client & s6 & Hcl & Ho). apply at_host_ok in Hcl as (w6 & _ & ->).
    apply em_bind_ok in Ho as ([status body] & s7 & Hsend & Ho).
    match type of Hsend with send_with_retry ?u ?q ?c ?v = _ =>
      destruct (send_with_retry_run u q c v) as (r & t & evs & Hsend' & Ht) end.
    rewrite Hsend' in Hsend. injection Hsend as -> <-. cbn [fst snd] in Ho.
    destruct (is_error_status status); [done|].
    destruct (json_of decode_envelope body) as [e|outcome'] eqn:Ej; [done|]. injection Ho as -> <-.
    eexists token, csr, now, _, client, status, body, outcome, evs. split_and!; try done.
    by rewrite Hev, E5.
Qed.

(** C9. An agent enrols once, as long as the file that keeps its identity can be looked up and is not the
    configuration file itself.  Whatever else fails on
    the host or the network, a start that ends enrolled has presented one token, in at most three requests of which
    all but the last got no reply, and the gateway accepted it; it goes by the identity the gateway named, in memory
    and on disk; and if that is a real agent id, no later start enrols or presents a token again: each goes by the
    same id, unless its configuration file itself names one, or stops with an error. *)
Theorem enrolled_once d config_path config s s1 :
  fs_fault OpMetadata (runtime_path_for d) = None →
  (∀ p, config_path = Some p → ¬ store_paths p (runtime_path_for d)) →
  start_agent d config_path config s = (inr Enrolled, s1) →
  ∃ a i, ic_agent_id (en_config s1) = Some a ∧ ic_instance_name (en_config s1) = Some i ∧
  (∃ token csr now url client status body outcome evs,
     required_option (ic_enrollment_token config) = Some token ∧
     en_events s1 = (en_events s ++ evs)%list ∧
     tried url (PostEnroll token csr now) client (inr (status, body)) evs ∧
     json_of decode_envelope body = inr outcome ∧ oc_accepted outcome = true) ∧
  (is_registered_agent_id a = true → ∀ configs,
     let '(rs, s2) := starts d config_path configs s1 in
     enroll_posts s2 = enroll_posts s1 ∧ registered d a i (en_world s2) ∧
     Forall2 (λ config r, match r with
                          | inr (ExistingStateIdentity, id) => id = Some a
                          | inr (ExistingConfigIdentity, id) =>
                              has_config_identity config = true ∧ id = ic_agent_id config
                          | inr _ => False
                          | inl _ => True
                          end) configs rs).
Proof.
  intros Hf Hp Hs. apply enrol_run in Hs as [(a & i & Ha & Hi & Hreg) Hpost]; [|done].
  exists a, i. split_and!; [done|done|done|]. intros Hr configs. specialize (Hreg Hr). clear Hpost Ha Hi Hr.
  revert s1 Hreg. induction configs as [|c configs IH]; intros s1 Hreg; cbn [starts]; [by split_and!|].
  pose proof (later_start d config_path a i c s1 Hf Hp Hreg) as Hl.
  destruct (start_agent d config_path c s1) as [r s2]. destruct Hl as (Hreg2 & Hev & Hr).
  specialize (IH s2 Hreg2). destruct (starts d config_path configs s2) as [rs s3].
  destruct IH as (Hev3 & Hreg3 & Hf2). split_and!; [congruence|done|]. constructor; [|done].
  destruct r as [e|[]]; auto.
Qed.
End Starts.

(** * Renewal *)

Section Renewal.
Context `{Host} `{!SharedFs} `{!SharedPrivate} `{!SharedFsLaws} `{!SharedPrivateLaws} `{!Certificates}.
Context `{!EnrollHost} `{!EnrollHostLaws} `{!Json AgentRuntimeState} `{!Json RenewalLedger}.
Context (d : string).
Implicit Types (w : World) (s : Enrollee).

(** Only the files in [F] may differ. *)
Definition touches (F : string → Prop) w w' : Prop := ∀ q, ¬ F q → files w' !! q = files w !! q.
#[local] Instance touches_preorder F : PreOrder (touches F).
Proof. split; [by intros w q|]. intros w1 w2 w3 H12 H23 q Hq. by rewrite H23, H12. Qed.
Lemma touches_mono (F F' : string → Prop) w w' : (∀ q, F q → F' q) → touches F w w' → touches F' w w'.
Proof. intros HF Ht q Hq. apply Ht. auto. Qed.

Definition at_key (q : string) : Prop := q = key_file (under d).
Definition at_cert (q : string) : Prop := q = cert_file (under d).
Definition at_runtime (q : string) : Prop := store_paths (runtime_path_for d) q.

Lemma files_apart : ¬ at_runtime (key_file (under d)) ∧ ¬ at_runtime (cert_file (under d)) ∧
  ¬ at_runtime (renewal_file (under d)) ∧ key_file (under d) ≠ cert_file (under d) ∧
  renewal_file (under d) ≠ cert_file (under d) ∧ renewal_file (under d) ≠ key_file (under d) ∧
  renewal_file (under d) ≠ runtime_path_for d ∧ ¬ at_runtime (renewal_file (under d)).
Proof.
  assert (Ha : ∀ x, has_char slash x = true → ¬ at_runtime (path_join d x)).
  { intros x Hx [Hq|Hq]; [by apply (runtime_apart d x) in Hx|].
    unfold path_with_extension in Hq. unfold runtime_path_for in Hq.
    rewrite path_parent_join in Hq by apply runtime_file_name. apply path_join_inj in Hq. subst x.
    unfold path_file_stem in Hx. rewrite path_file_name_join in Hx by apply runtime_file_name.
    assert (Hs : has_char slash (name_split AGENT_RUNTIME_FILE).1 = false).
    { pose proof runtime_file_name as Hn. unfold name_split. destruct (rsplit_once dot AGENT_RUNTIME_FILE) as [[st ext]|] eqn:E; [|done].
      destruct st as [|c st]; [done|].
      apply rsplit_once_spec in E. rewrite E, has_char_app in Hn. by apply orb_false_iff in Hn as [Hn _]. }
    rewrite has_char_app, Hs in Hx. done. }
  split_and!; try (by apply Ha); try (intros Heq%path_join_inj; done).
  intros Heq. by apply (runtime_apart d RENEWAL_LEDGER_RELATIVE_PATH).
Qed.

Lemma csr_run w r w' : local_certificate_signing_request d w = (r, w') →
  touches at_key w w' ∧
  (fs_fault OpMetadata (key_file (under d)) = None → is_Some (files w !! key_file (under d)) →
   files w' !! key_file (under d) = files w !! key_file (under d)).
Proof.
  intros Hr. assert (Hk : ∃ r1 w1, load_or_generate_key_pair (under d) w = (r1, w1) ∧ w' = w1).
  { unfold local_certificate_signing_request, source_err in Hr. unfold mbind, EM_bind in Hr.
    destruct (load_or_generate_key_pair (under d) w) as [[key|e] w1]; [|injection Hr as _ <-; eauto].
    unfold build_certificate_signing_request in Hr. destruct (serialize_request key); injection Hr as _ <-; eauto. }
  destruct Hk as (r1 & w1 & Hk & ->). clear Hr. unfold load_or_generate_key_pair, path_exists, gets, mbind, M_bind in Hk.
  assert (Hx : (w1 = w) ∨ (fs_fault OpMetadata (key_file (under d)) ≠ None ∨ fs_exists (key_file (under d)) w = false) ∧
    ∃ key r2, write_private (key_file (under d)) (key_pem key) w = (r2, w1)).
  { destruct (fs_fault OpMetadata (key_file (under d))) as [e|] eqn:Ef; cbv beta iota in Hk.
    - destruct (key_generate w) as [err|key]; [injection Hk as _ <-; by left|].
      destruct (write_private _ _ w) as [[u|e'] w2] eqn:Ew; injection Hk as _ <-; right; eauto.
    - destruct (fs_exists (key_file (under d)) w) eqn:Ee.
      + left. destruct (fs_read (key_file (under d)) w) as [[pem|e] w2] eqn:Er;
          pose proof (fs_read_respects eq (key_file (under d)) w) as Hw; rewrite Er in Hw; cbn in Hw; subst w2;
          [destruct (key_from_pem pem)|]; by injection Hk as _ <-.
      + destruct (key_generate w) as [err|key]; [injection Hk as _ <-; by left|].
        destruct (write_private _ _ w) as [[u|e'] w2] eqn:Ew; injection Hk as _ <-; right; eauto. }
  destruct Hx as [->|[Ha (key & r2 & Hw)]]; [by split|]. apply write_private_run in Hw as [[Ho _] _].
  split; [exact Ho|]. intros Hf [text Ht]. destruct Ha as [|Ha]; [done|].
  by rewrite (fs_exists_lookup _ _ _ Ht) in Ha.
Qed.

(** The credential the gateway issued is the one in force. *)
Definition installed (credential : CredentialBundle) s : Prop :=
  files (en_world s) !! cert_file (under d) = Some (cb_certificate credential) ∧
  trim (cb_certificate credential) ≠ "" ∧
  ic_credential_id (en_config s) = Some (cb_credential_id credential) ∧
  ∃ text state, files (en_world s) !! runtime_path_for d = Some text ∧ from_json text = Ok state ∧
    rs_credential_id state = Some (cb_credential_id credential) ∧ rs_credential_expires_at state = cb_not_after credential.

Lemma install_credential_run credential s r s' :
  (apply_credential_to_config credential;;
   at_host (store_issued_client_certificate d credential);;
   state ← at_host (source_err RIo "load runtime state" (load_or_default_async (runtime_path_for d)));
   at_host (source_err RIo "store runtime state"
     (store_async (runtime_path_for d) (apply_credential_to_runtime_state credential state)));;
   mret RenewDone) s = (r, s') →
  en_events s' = en_events s ∧ touches (λ q, at_cert q ∨ at_runtime q) (en_world s) (en_world s') ∧
  (files (en_world s') !! cert_file (under d) = files (en_world s) !! cert_file (under d) ∨
   files (en_world s') !! cert_file (under d) = Some "" ∨
   files (en_world s') !! cert_file (under d) = Some (cb_certificate credential)) ∧
  (∀ o, r = inr o → o = RenewDone ∧ installed credential s').
Proof.
  destruct files_apart as (_ & Hcr & _ & _). unfold installed.
  unfold apply_credential_to_config. intros Hr.
  destruct (String.eqb_spec (trim (cb_certificate credential)) "") as [Hb|Hb].
  { injection Hr as <- <-. split_and!; [done|done|by left|done]. }
  apply em_bind_inv in Hr as [(e & [=] & _)|([] & s1 & Hc & Hr)]. injection Hc as <-.
  match type of Hr with _ ?x = _ => set (s1 := x) in * end.
  change (en_events s) with (en_events s1). change (en_world s) with (en_world s1).
  assert (Hid : ic_credential_id (en_config s1) = Some (cb_credential_id credential)) by done. clearbody s1.
  assert (Hstep : ∃ r1 w1, store_issued_client_certificate d credential (en_world s1) = (r1, w1) ∧
    touches at_cert (en_world s1) w1 ∧
    (files w1 !! cert_file (under d) = files (en_world s1) !! cert_file (under d) ∨
     files w1 !! cert_file (under d) = Some "" ∨ files w1 !! cert_file (under d) = Some (cb_certificate credential)) ∧
    (∀ u, r1 = inr u → files w1 !! cert_file (under d) = Some (cb_certificate credential))).
  { unfold store_issued_client_certificate, source_err, store_client_certificate.
    destruct (String.eqb_spec (trim (cb_certificate credential)) ""); [done|].
    destruct (write_private _ _ (en_world s1)) as [r1 w1] eqn:Ew. apply write_private_run in Ew as ([Ho _] & Hor & Hok).
    destruct r1 as [u|e]; eexists _, _; (split; [done|]); (split; [exact Ho|]); split; [done| |done|done].
    intros _ _. by eapply Hok. }
  destruct Hstep as (r1 & w1 & E1 & T1 & O1 & K1).
  assert (T1' : touches (λ q, at_cert q ∨ at_runtime q) (en_world s1) w1) by (eapply touches_mono; [|exact T1]; auto).
  apply em_bind_inv in Hr as [(e & Hs & ->)|([] & s2 & Hs & Hr)]; unfold at_host in Hs; rewrite E1 in Hs.
  { injection Hs as -> <-. by split_and!. }
  injection Hs as -> <-. specialize (K1 tt eq_refl).
  apply em_bind_inv in Hr as [(e & Hl & ->)|(state & s2 & Hl & Hr)]; unfold at_host, source_err in Hl;
    cbn [en_world en_config en_events] in Hl;
    destruct (load_or_default_async (runtime_path_for d) w1) as [[st|e'] w2] eqn:El; try done.
  - apply load_async_same in El as ->. injection Hl as _ <-. by split_and!.
  - pose proof (load_async_same _ _ _ _ El) as Hw.
    subst w2. injection Hl as -> <-.
    destruct (store_async (runtime_path_for d) (apply_credential_to_runtime_state credential state) w1) as [r3 w3] eqn:Es.
    assert (T3 : touches at_runtime w1 w3).
    { pose proof (private_write_respects at_runtime (runtime_path_for d)
        (to_json (apply_credential_to_runtime_state credential state)) (λ q Hq, Hq) w1) as Ht.
      pose proof Es as Es'. unfold store_async, write_json_private_atomic_async in Es'. rewrite Es' in Ht. exact (proj1 Ht). }
    assert (C3 : files w3 !! cert_file (under d) = files w1 !! cert_file (under d)) by by apply T3.
    assert (T : touches (λ q, at_cert q ∨ at_runtime q) (en_world s1) w3).
    { etrans; [exact T1'|]. eapply touches_mono; [|exact T3]. auto. }
    apply em_bind_inv in Hr as [(e & Hs & ->)|([] & s3 & Hs & Hr)]; unfold at_host, source_err in Hs;
      cbn [en_world en_config en_events] in Hs; rewrite Es in Hs; destruct r3 as [u|e3]; try done.
    + injection Hs as _ <-. cbn [en_world en_config en_events]. rewrite C3. by split_and!.
    + injection Hs as _ <-. injection Hr as <- <-. cbn [en_world en_config en_events]. rewrite C3.
      split_and!; [done|done|done|].
      intros o [= <-]. split; [done|]. split_and!; [done|done|done|].
      unfold store_async, write_json_private_atomic_async in Es.
      apply private_write_ok in Es; [|apply runtime_storable].
      eexists _, _. rewrite Es, from_to_json. by split_and!.
Qed.

(** What the requests of a renewal say of its result. *)
Definition renewal_replies (evs : list EnrollEvent) (r : EnrollmentError + RenewOutcome) s s' : Prop :=
  ∃ url a i csr now client rr, tried url (PostRenew a i csr now) client rr evs ∧
  required_option (ic_agent_id (en_config s)) = Some a ∧
  match r with
  | inr RenewRevoked => ∃ status body code, rr = inr (status, body) ∧ (status = UNAUTHORIZED ∨ status = FORBIDDEN) ∧
      auth_rejection_code (match body with inr body => body | inl _ => "" end) = Some code
  | inr RenewDone => ∃ status body credential, rr = inr (status, body) ∧ is_success status = true ∧
      json_of decode_renewed body = inr credential ∧ installed credential s'
  | inl _ => True
  end ∧
  (files (en_world s') !! cert_file (under d) = files (en_world s) !! cert_file (under d) ∨
   ∃ status body credential, rr = inr (status, body) ∧ is_success status = true ∧
     json_of decode_renewed body = inr credential ∧
     (files (en_world s') !! cert_file (under d) = Some "" ∨
      files (en_world s') !! cert_file (under d) = Some (cb_certificate credential))).

Definition material (q : string) : Prop := at_key q ∨ at_cert q ∨ at_runtime q.

Lemma renew_credential_run s r s' : renew_credential d s = (r, s') →
  touches material (en_world s) (en_world s') ∧
  (fs_fault OpMetadata (key_file (under d)) = None → is_Some (files (en_world s) !! key_file (under d)) →
   files (en_world s') !! key_file (under d) = files (en_world s) !! key_file (under d)) ∧
  ∃ evs, en_events s' = (en_events s ++ evs)%list ∧
    ((evs = [] ∧ files (en_world s') !! cert_file (under d) = files (en_world s) !! cert_file (under d) ∧
      ∀ o, r = inr o → o = RenewDone ∧ required_option (ic_agent_id (en_config s)) = None)
     ∨ renewal_replies evs r s s').
Proof.
  destruct files_apart as (Hkr & Hcr & _ & Hkc & _).
  unfold renew_credential. intros Hr. apply em_bind_inv in Hr as [(e & [=] & _)|(c & s1 & Hc & Hr)].
  injection Hc as <- <-.
  assert (Hquiet : ∀ e, touches material (en_world s) (en_world s) ∧
    (fs_fault OpMetadata (key_file (under d)) = None → is_Some (files (en_world s) !! key_file (under d)) →
     files (en_world s) !! key_file (under d) = files (en_world s) !! key_file (under d)) ∧
    ∃ evs, en_events s = (en_events s ++ evs)%list ∧
     ((evs = [] ∧ files (en_world s) !! cert_file (under d) = files (en_world s) !! cert_file (under d) ∧
       ∀ o, inl e = inr o → o = RenewDone ∧ required_option (ic_agent_id (en_config s)) = None)
      ∨ renewal_replies evs (inl e) s s)).
  { intros e. split; [done|]. split; [done|]. exists []. by rewrite (right_id_L [] (++)); split; [|left]. }
  destruct (required_option (ic_endpoint (en_config s))) as [endpoint|]; [|injection Hr as <- <-; apply Hquiet].
  destruct (required_option (ic_agent_id (en_config s))) as [a|] eqn:Ha.
  2:{ injection Hr as <- <-. split; [done|]. split; [done|]. exists []. rewrite (right_id_L [] (++)).
      split; [done|]. left. split_and!; [done|done|]. by intros o [= <-]. }
  (** The key and the request for a certificate. *)
  assert (Hcsr : ∀ rc w1, local_certificate_signing_request d (en_world s) = (rc, w1) →
    touches material (en_world s) w1 ∧
    files w1 !! cert_file (under d) = files (en_world s) !! cert_file (under d) ∧
    (fs_fault OpMetadata (key_file (under d)) = None → is_Some (files (en_world s) !! key_file (under d)) →
     files w1 !! key_file (under d) = files (en_world s) !! key_file (under d))).
  { intros rc w1 Hrc. apply csr_run in Hrc as [Ht Hk]. split_and!; [|by apply Ht; intros ?|done].
    eapply touches_mono; [|exact Ht]. unfold material. auto. }
  unfold mbind at 1, EM_bind at 1, at_host at 1 in Hr.
  destruct (local_certificate_signing_request d (en_world s)) as [rc w1] eqn:Erc.
  destruct (Hcsr rc w1 eq_refl) as (T1 & C1 & K1). clear Hcsr.
  destruct rc as [e|csr].
  { injection Hr as <- <-. split; [done|]. split; [done|]. exists []. cbn [en_events]. rewrite (right_id_L [] (++)).
    split; [done|]. by left. }
  set (s1 := mk_enrollee w1 (en_config s) (en_events s)) in Hr.
  (** The client, which changes nothing. *)
  apply em_bind_inv in Hr as [(e & [=] & _)|(now & s2 & Hn & Hr)].
  assert (s2 = s1) as -> by by injection Hn.
  apply em_bind_inv in Hr as [(e & He & ->)|(client & s2 & Hcl & Hr)].
  { unfold at_host in He. pose proof (http_client_same (en_config s) (en_world s1)) as Hw.
    destruct (enrollment_http_client _ _) as [rr w2]. cbn in Hw. subst w2. injection He as _ <-.
    split; [done|]. split; [done|]. exists []. cbn [en_events]. rewrite (right_id_L [] (++)).
    split; [done|]. by left. }
  assert (s2 = s1) as ->.
  { unfold at_host in Hcl. pose proof (http_client_same (en_config s) (en_world s1)) as Hw.
    destruct (enrollment_http_client _ _) as [rr w2]. cbn in Hw. subst w2. by injection Hcl. }
  clear Hn Hcl Hquiet.
  match type of Hr with context [send_with_retry ?u ?q ?cl] =>
    destruct (send_with_retry_run u q cl s1) as (rr & t & evs & Es & Ht);
    unfold mbind at 1, EM_bind at 1 in Hr; rewrite Es in Hr
  end.
  set (s2 := mk_enrollee (set_clock t (en_world s1)) (en_config s1) (en_events s1 ++ evs)) in Hr.
  assert (Hfin : ∀ r0 s3, en_events s3 = en_events s2 → touches (λ q, at_cert q ∨ at_runtime q) (en_world s2) (en_world s3) →
    renewal_replies evs r0 s s3 →
    touches material (en_world s) (en_world s3) ∧
    (fs_fault OpMetadata (key_file (under d)) = None → is_Some (files (en_world s) !! key_file (under d)) →
     files (en_world s3) !! key_file (under d) = files (en_world s) !! key_file (under d)) ∧
    ∃ evs0, en_events s3 = (en_events s ++ evs0)%list ∧
      ((evs0 = [] ∧ files (en_world s3) !! cert_file (under d) = files (en_world s) !! cert_file (under d) ∧
        ∀ o, r0 = inr o → o = RenewDone ∧ Some a = None)
       ∨ renewal_replies evs0 r0 s s3)).
  { intros r0 s3 Hev T3 Hrep. split_and!.
    - etrans; [exact T1|]. eapply touches_mono; [|exact T3]. unfold material. naive_solver.
    - intros Hf Hk. rewrite <- (K1 Hf Hk). apply T3. intros [Hq|Hq]; [by apply Hkc|done].
    - exists evs. rewrite Hev. split; [done|by right]. }
  assert (Hsame : ∀ r0, (∀ o, r0 = inr o → o = RenewRevoked) →
    (∀ o, r0 = inr o → ∃ status body code, rr = inr (status, body) ∧ (status = UNAUTHORIZED ∨ status = FORBIDDEN) ∧
      auth_rejection_code (match body with inr body => body | inl _ => "" end) = Some code) →
    renewal_replies evs r0 s s2).
  { intros r0 Ho Hrv. do 7 eexists. split; [exact Ht|]. split; [exact Ha|]. split; [|left; exact C1].
    destruct r0 as [|o]; [done|]. rewrite (Ho o eq_refl). by apply (Hrv o). }
  destruct rr as [e|[status body]].
  { injection Hr as <- <-. apply Hfin; [done|done|]. apply Hsame; by intros ?. }
  cbn [fst snd] in Hr. destruct (is_success status) eqn:Hsucc; cbn [negb] in Hr.
  - destruct (json_of decode_renewed body) as [e|credential] eqn:Ej.
    { injection Hr as <- <-. apply Hfin; [done|done|]. apply Hsame; by intros ?. }
    apply install_credential_run in Hr as (Hev & T3 & C3 & Hok). apply Hfin; [done|done|].
    do 7 eexists. split; [exact Ht|]. split; [exact Ha|]. split.
    + destruct r as [|o]; [done|]. destruct (Hok o eq_refl) as [-> Hi]. by exists status, body, credential.
    + destruct C3 as [C3|C3]; [left; by rewrite C3|right]. by exists status, body, credential.
  - unfold classify_auth_rejection in Hr.
    destruct (Z.eqb_spec status UNAUTHORIZED); [|destruct (Z.eqb_spec status FORBIDDEN)]; cbn [orb negb] in Hr.
    1,2: destruct (auth_rejection_code _) as [code|] eqn:Ec; injection Hr as <- <-; (apply Hfin; [done|done|]);
      apply Hsame; try done; [by intros o [= <-]|intros o _; exists status, body, code; auto].
    injection Hr as <- <-. apply Hfin; [done|done|]. apply Hsame; by intros ?.
Qed.

Definition decision_of (r : EnrollmentError + RenewOutcome) : RenewalDecision :=
  match r with
  | inr RenewDone => Renewed
  | inr RenewRevoked => Revoked
  | inl e => RenewalFailed (display_enrollment_error e)
  end.

Definition at_ledger (q : string) : Prop := q = renewal_file (under d).

Lemma ledger_run decision w : ∃ w', record_renewal_ledger d decision w = (inr tt, w') ∧ touches at_ledger w w'.
Proof.
  unfold record_renewal_ledger, io, try, mbind, EM_bind.
  destruct (client_certificate_status (under d) w) as [r v1] eqn:Ev.
  apply certificate_status_run in Ev as [-> _]. unfold now_rfc3339, gets, ignore. cbv beta iota zeta.
  eexists. split; [done|].
  match goal with |- context [store_renewal_ledger ?p ?l w] =>
    destruct (store_renewal_ledger p l w) as [r2 v2] eqn:Ew end.
  apply write_private_run in Ew as [[Ho _] _]. exact Ho.
Qed.

(** The ledger is written after the decision, whatever it was. *)
Lemma renew_if_due_run s decision s1 : renewal_decision d s = (inr decision, s1) → ∃ w',
  renew_credential_if_due d s = (inr decision, mk_enrollee w' (en_config s1) (en_events s1)) ∧
  touches at_ledger (en_world s1) w'.
Proof.
  intros Hd. destruct (ledger_run decision (en_world s1)) as (w' & El & Tl). exists w'. split; [|done].
  unfold renew_credential_if_due, mbind, EM_bind. rewrite Hd. unfold at_host. by rewrite El.
Qed.

Lemma renewal_decision_run s status w : client_certificate_status (under d) (en_world s) = (status, w) →
  renewal_decision d s = match status with
    | Ok (Some (mk_status _ _ Expired)) => mret NeedsReinstall
    | Ok (Some (mk_status _ _ Valid)) => mret NotDue
    | Ok (Some (mk_status _ _ RenewDue)) => renew_now d
    | Ok None => mret NeedsReinstall
    | Err err => mret (RenewalFailed (io_msg err))
    end s.
Proof.
  intros Est. apply certificate_status_run in Est as Hw. destruct Hw as [-> _].
  unfold renewal_decision. unfold mbind at 1, EM_bind at 1, at_host, io, try. rewrite Est. by destruct s.
Qed.

Lemma renew_now_run s r s1 : renew_credential d s = (r, s1) → renew_now d s = (inr (decision_of r), s1).
Proof. intros E. unfold renew_now, attempt, mbind, EM_bind. rewrite E. by destruct r as [|[]]. Qed.

(** A renewal is a decision, and touches the identity's files and its ledger only. *)
Lemma renewal_run s : ∃ decision s', renew_credential_if_due d s = (inr decision, s') ∧
  touches (λ q, at_ledger q ∨ material q) (en_world s) (en_world s').
Proof.
  destruct (client_certificate_status (under d) (en_world s)) as [status w0] eqn:Est.
  pose proof (renewal_decision_run s status w0 Est) as Hd.
  assert (Hstep : ∃ decision s1, renewal_decision d s = (inr decision, s1) ∧ touches material (en_world s) (en_world s1)).
  { rewrite Hd. destruct status as [[[na re []]|]|err]; try by eexists _, s.
    destruct (renew_credential d s) as [r s1] eqn:Er. rewrite (renew_now_run s r s1 Er).
    apply renew_credential_run in Er as (T & _). eauto. }
  destruct Hstep as (decision & s1 & Hs & T). destruct (renew_if_due_run s decision s1 Hs) as (w' & E & T').
  eexists _, _. split; [exact E|]. cbn [en_world].
  etrans; [eapply touches_mono; [|exact T]|eapply touches_mono; [|exact T']]; auto.
Qed.

(** When the agent renews its credential, and what that does.  The decision is never an error of
    its own; it follows the certificate on disk alone: none or an expired one needs a new
    installation, one that is good for more than thirty days is left, one that cannot be read is a
    failure, and in these cases nobody is asked and nothing but the ledger is written.  In the last
    thirty days one request goes out, at most three times and again only if there was no reply;
    [Revoked] means the gateway said 401 or 403 with a final code, [Renewed] that the certificate it
    sent is in the file, in the configuration and in the runtime state; the certificate file is
    unchanged, or is being replaced by one the gateway just sent, and an existing key stays. *)
Theorem renewal_exact s :
  let '(status, _) := client_certificate_status (under d) (en_world s) in
  ∃ decision s', renew_credential_if_due d s = (inr decision, s') ∧
  touches (λ q, at_ledger q ∨
    (match status with Ok (Some st) => st_validity st = RenewDue | _ => False end ∧ material q))
    (en_world s) (en_world s') ∧
  (fs_fault OpMetadata (key_file (under d)) = None → is_Some (files (en_world s) !! key_file (under d)) →
   files (en_world s') !! key_file (under d) = files (en_world s) !! key_file (under d)) ∧
  match status with
  | Ok None => decision = NeedsReinstall
  | Err err => decision = RenewalFailed (io_msg err)
  | Ok (Some (mk_status _ remaining validity)) =>
      (validity = Expired ↔ (remaining ≤ 0)%Z) ∧
      (validity = Valid ↔ (RENEWAL_LEAD_SECONDS < remaining)%Z) ∧
      (validity = Expired → decision = NeedsReinstall) ∧
      (validity = Valid → decision = NotDue)
  end ∧
  (if decide (match status with Ok (Some st) => st_validity st | _ => Valid end = RenewDue) then
     ∃ evs r s1, en_events s' = (en_events s ++ evs)%list ∧
     decision = decision_of r ∧
     touches at_ledger (en_world s1) (en_world s') ∧ en_config s' = en_config s1 ∧
     (renewal_replies evs r s s1 ∨
      evs = [] ∧ (∀ o, r = inr o → o = RenewDone ∧ required_option (ic_agent_id (en_config s)) = None))
   else en_events s' = en_events s ∧ en_config s' = en_config s).
Proof.
  destruct files_apart as (_ & _ & _ & _ & _ & Hrk & _).
  destruct (client_certificate_status (under d) (en_world s)) as [status w0] eqn:Est.
  pose proof (renewal_decision_run s status w0 Est) as Hd.
  apply certificate_status_run in Est as [-> Hst].
  assert (Hquiet : ∀ decision (P : Prop), renewal_decision d s = (inr decision, s) → P → ∃ decision' s',
    renew_credential_if_due d s = (inr decision', s') ∧
    touches (λ q, at_ledger q ∨ (match status with Ok (Some st) => st_validity st = RenewDue | _ => False end ∧ material q))
      (en_world s) (en_world s') ∧
    (fs_fault OpMetadata (key_file (under d)) = None → is_Some (files (en_world s) !! key_file (under d)) →
     files (en_world s') !! key_file (under d) = files (en_world s) !! key_file (under d)) ∧
    decision' = decision ∧ P ∧ en_events s' = en_events s ∧ en_config s' = en_config s).
  { intros decision P Hq HP. destruct (renew_if_due_run s decision s Hq) as (w' & E & T). eexists _, _.
    split; [exact E|]. split_and!; try done; [eapply touches_mono; [|exact T]; auto|].
    intros _ _. apply T. intros Hq'. by apply Hrk. }
  destruct status as [[[na re va]|]|err].
  2:{ destruct (Hquiet NeedsReinstall True Hd I) as (dc & s' & ? & ? & ? & -> & _ & ?). by exists NeedsReinstall, s'. }
  2:{ destruct (Hquiet (RenewalFailed (io_msg err)) True Hd I) as (dc & s' & ? & ? & ? & -> & _ & ?). by eexists _, s'. }
  destruct Hst as (cert & _ & Hva). apply status_from_pem_ok in Hva. cbn in Hva. cbn [st_validity] in *.
  assert (Hv : (va = Expired ↔ (re ≤ 0)%Z) ∧ (va = Valid ↔ (RENEWAL_LEAD_SECONDS < re)%Z)).
  { subst va. unfold validity_of. destruct (Z.leb_spec re 0), (Z.leb_spec re RENEWAL_LEAD_SECONDS);
      unfold RENEWAL_LEAD_SECONDS in *; split; split; (done || lia). }
  destruct Hv as [Hv1 Hv2]. destruct (decide (va = RenewDue)) as [->|Hne].
  - destruct (renew_credential d s) as [r s1] eqn:Er. rewrite (renew_now_run s r s1 Er) in Hd.
    destruct (renew_if_due_run s _ s1 Hd) as (w' & E & T). apply renew_credential_run in Er as (T1 & K1 & evs & Hev & Hrep).
    eexists _, _. split; [exact E|]. cbn [en_world en_config en_events]. split_and!; try done.
    + etrans; [eapply touches_mono; [|exact T1]|eapply touches_mono; [|exact T]]; auto.
    + intros Hf Hk. rewrite <- (K1 Hf Hk). apply T. intros Hq. by apply Hrk.
    + exists evs, r, s1. split_and!; try done. destruct Hrep as [(-> & _ & ?)|?]; auto.
  - destruct va; [| |].
    + destruct (Hquiet NotDue True Hd I) as (dc & s' & ? & ? & ? & -> & _ & ?). exists NotDue, s'.
      do 3 (split; [done|]). split; [split; [exact Hv1|split; [exact Hv2|by split]]|done].
    + done.
    + destruct (Hquiet NeedsReinstall True Hd I) as (dc & s' & ? & ? & ? & -> & _ & ?). exists NeedsReinstall, s'.
      do 3 (split; [done|]). split; [split; [exact Hv1|split; [exact Hv2|by split]]|done].
Qed.
End Renewal.

(** * A concrete agent *)

Module ConcreteIdentity.
Import Concrete.

#[export] Instance runtime_state_eq_dec : EqDecision AgentRuntimeState.
Proof. solve_decision. Defined.
#[export] Instance runtime_state_countable : Countable AgentRuntimeState.
Proof.
  refine (inj_countable'
    (λ r, (rs_agent_id r, rs_instance_id r, rs_version r, rs_updated_at r, rs_credential_id r, rs_credential_expires_at r))
    (λ '(a, i, v, u, c, e), mk_runtime_state a i v u c e) _). by intros [].
Defined.
#[export] Instance ledger_eq_dec : EqDecision RenewalLedger.
Proof. solve_decision. Defined.
#[export] Instance ledger_countable : Countable RenewalLedger.
Proof.
  refine (inj_countable' (λ l, (rl_checked_at l, rl_outcome l, rl_detail l, rl_not_after l))
    (λ '(c, o, d, n), mk_ledger c o d n) _). by intros [].
Defined.
#[export] Instance runtime_state_json : Json AgentRuntimeState := toy_json.
#[export] Instance ledger_json : Json RenewalLedger := toy_json.

(** Certificates are good for ten or for a hundred days. *)
#[export] Instance toy_certificates : Certificates := {|
  KeyPair := string;
  key_from_pem := inr;
  key_generate w := inr "key";
  key_pem k := k;
  serialize_request k := inr ("csr of " +:+ k);
  parse_x509_pem s := if String.eqb s "" then inl "no PEM" else inr s;
  certificate_not_after s := if String.eqb s "cert-1" then inr 864000%Z else inr 8640000%Z;
  format_unix _ := None;
|}.
#[export] Instance toy_certificates_laws : CertificatesLaws.
Proof. by split. Qed.

Definition issued (name : string) : CredentialBundle := mk_credential ("id of " +:+ name) name (Some "later").

(** The first request gets no reply, the second enrols, the third renews, and then the gateway says that
    the certificate is another agent's. *)
#[export] Instance toy_enroll_host : EnrollHost := {|
  certificate_from_pem _ := None;
  identity_from_pem _ := None;
  build_client _ := None;
  post _ request _ evs _ :=
    (match length evs with
     | 0 => Unreached "refused"
     | 1 => Replied 200 (inr "accepted")
     | 2 => Replied 200 (inr "renewed")
     | _ => Replied 401 (inr "certificate_mismatch")
     end, 5%N);
  decode_envelope s :=
    if String.eqb s "accepted" then
      inr (mk_outcome true "Accepted" None (Some "agent-7") (Some "host-7") None (Some (issued "cert-1")))
    else inl "not JSON";
  decode_renewed s := if String.eqb s "renewed" then inr (issued "cert-2") else inl "not JSON";
  display_status_code status := pretty status;
  CARGO_PKG_VERSION := "1";
  AGENT_RUNTIME_FILE := "agent_runtime.json";
  default_instance_id := "host";
  runtime_state_new a i v t := mk_runtime_state a i v t None None;
  display_enrollment_error e := er_detail e;
|}.
#[export] Instance toy_enroll_laws : EnrollHostLaws.
Proof. split; try done. by exists "agent_runtime". Qed.

#[export] Instance toy_private : SharedPrivate := {|
  shared_write_bytes_private p bytes := write_bytes_private_atomic_async p bytes;
  shared_write_json_private A J p a := write_json_private_atomic_async p a;
|}.
#[export] Instance toy_private_laws : SharedPrivateLaws.
Proof. by split. Qed.

Definition config : IdentityConfig :=
  mk_identity_config "state" None None None true (Some "https://gw/") (Some " once ") None None None None None.
Definition config_text : string := "[control_plane]" +:+ nl +:+ "enrollment_token = 'once'" +:+ nl +:+ "enabled = true" +:+ nl.
Definition fresh : Enrollee :=
  mk_enrollee (set_files {["etc/agentd.toml" := config_text]} empty_world) config [].
Definition enrolled : Enrollee := (start_agent "state" (Some "etc/agentd.toml") config fresh).2.

Example toy_enrolment :
  let '(r, s) := start_agent "state" (Some "etc/agentd.toml") config fresh in
  r = inr Enrolled ∧ ic_agent_id (en_config s) = Some "agent-7" ∧ length (en_events s) = 2 ∧
  clock (en_world s) = 210%Z ∧
  files (en_world s) !! "etc/agentd.toml" = Some ("[control_plane]" +:+ nl +:+ "enabled = true" +:+ nl) ∧
  files (en_world s) !! "state/identity/client.crt.pem" = Some "cert-1".
Proof. vm_compute. split_and!; reflexivity. Qed.

Lemma client_is_safe_witness :
  (enrollment_http_client config (en_world enrolled)).1 =
    inr (mk_client None false (Some ("cert-1" +:+ nl +:+ "key"))) ∧
  ((enrollment_http_client config (en_world enrolled)).2 = en_world enrolled).
Proof.
  destruct (client_is_safe config (en_world enrolled)) as [Hw _].
  split; [vm_compute; reflexivity|exact Hw].
Defined.

Lemma scrub_exact_witness :
  ∃ w', scrub_enrollment_token_from_config_file "etc/agentd.toml" (en_world fresh) = (inr tt, w') ∧
    scrub_enrollment_token_from_config_file "etc/agentd.toml" w' = (inr tt, w').
Proof.
  destruct (scrub_exact "etc/agentd.toml" config_text (en_world fresh)) as (w' & E & _ & _ & _ & E');
    [exact toy_fault_free|reflexivity|repeat constructor|].
  exists w'. split; [exact E|exact E'].
Defined.

Lemma enrolled_once_witness :
  let '(rs, s2) := starts "state" (Some "etc/agentd.toml") [config; config] enrolled in
  enroll_posts s2 = enroll_posts enrolled ∧ length (enroll_posts s2) = 2 ∧
  rs = [inr (ExistingStateIdentity, Some "agent-7"); inr (ExistingStateIdentity, Some "agent-7")].
Proof.
  destruct (enrolled_once "state" (Some "etc/agentd.toml") config fresh enrolled) as (a & i & Ha & _ & _ & Hl).
  - reflexivity.
  - intros p [= <-]. intros [Hq|Hq]; vm_compute in Hq; discriminate.
  - vm_compute. reflexivity.
  - assert (a = "agent-7") as -> by (vm_compute in Ha; congruence).
    specialize (Hl eq_refl [config; config]).
    destruct (starts "state" (Some "etc/agentd.toml") [config; config] enrolled) as [rs s2] eqn:E.
    destruct Hl as (Hp & _ & _). split; [exact Hp|]. vm_compute in E. injection E as <- <-.
    split; vm_compute; reflexivity.
Defined.

Definition renewed : Enrollee := (renew_credential_if_due "state" enrolled).2.

Example toy_renewal :
  (renew_credential_if_due "state" enrolled).1 = inr Renewed ∧
  files (en_world renewed) !! "state/identity/client.crt.pem" = Some "cert-2" ∧
  ic_credential_id (en_config renewed) = Some "id of cert-2" ∧
  (renew_credential_if_due "state" renewed).1 = inr NotDue.
Proof. vm_compute. split_and!; reflexivity. Qed.

(** Ninety days later the renewal is answered that the certificate belongs to another agent; the
    decision is that the agent was revoked, whose remedy is a different one. *)
Definition ninety_days : Enrollee :=
  mk_enrollee (set_clock 7776000000 (en_world renewed)) (en_config renewed) (en_events renewed).
Example mismatch_is_taken_for_revoked :
  (renew_credential_if_due "state" ninety_days).1 = inr Revoked ∧
  auth_rejection_code "certificate_mismatch" = Some "certificate_mismatch" ∧
  terminal_auth_advice "certificate_mismatch" ≠ terminal_auth_advice "certificate_revoked".
Proof. split_and!; vm_compute; [reflexivity|reflexivity|discriminate]. Qed.

Lemma renewal_exact_witness :
  ∃ evs r s1, en_events renewed = (en_events enrolled ++ evs)%list ∧ decision_of r = Renewed ∧
    renewal_replies "state" evs r enrolled s1.
Proof.
  pose proof (renewal_exact "state" enrolled) as Hx.
  destruct (client_certificate_status (under "state") (en_world enrolled)) as [status w] eqn:Est.
  destruct Hx as (decision & s' & E & _ & _ & _ & Hx).
  assert (s' = renewed) as -> by (unfold renewed; by rewrite E).
  assert (decision = Renewed) as ->.
  { pose proof (proj1 toy_renewal) as Ht. rewrite E in Ht. by injection Ht. }
  assert (Hst : status = (client_certificate_status (under "state") (en_world enrolled)).1) by by rewrite Est.
  vm_compute in Hst. rewrite Hst in Hx. rewrite decide_True in Hx by reflexivity.
  destruct Hx as (evs & r & s1 & Hev & Hd & _ & _ & [Hrep|[-> _]]).
  - exists evs, r, s1. split; [exact Hev|]. split; [by rewrite Hd|exact Hrep].
  - exfalso. apply (f_equal length) in Hev. vm_compute in Hev. discriminate.
Defined.

(** An accepted result without a credential enrols an agent that can prove nothing: it has an identity,
    so it does not enrol again, and no certificate, so it cannot renew. *)
Definition bare : EnrollmentOutcome :=
  mk_outcome true "Accepted" None (Some "agent-7") (Some "host-7") None None.
Example accepted_without_certificate :
  let '(r, s) := apply_enrollment_result "state" bare fresh in
  r = inr tt ∧ files (en_world s) !! "state/identity/client.crt.pem" = None ∧
  let '(r2, s2) := start_agent "state" None config s in
  r2 = inr ExistingStateIdentity ∧ en_events s2 = [] ∧ (renew_credential_if_due "state" s2).1 = inr NeedsReinstall.
Proof. vm_compute. split_and!; reflexivity. Qed.

(** The certificate is written in place.  A write that fails leaves an empty file where the good
    certificate was, which is then neither presented nor renewed. *)
Definition full_disk : Host := faulty (λ op p,
  match op with OpWrite => String.eqb p "state/identity/client.crt.pem" | _ => false end).
Example failed_renewal_loses_the_certificate :
  let '(r, s) := renew_credential_if_due (H0 := full_disk) "state" enrolled in
  r = inr (RenewalFailed "store client certificate") ∧
  files (en_world enrolled) !! "state/identity/client.crt.pem" = Some "cert-1" ∧
  files (en_world s) !! "state/identity/client.crt.pem" = Some "" ∧
  (local_client_identity (en_config s) (en_world s)).1 = Ok None ∧
  let '(r2, s2) := renew_credential_if_due "state" s in
  r2 = inr (RenewalFailed "failed to parse local client certificate PEM: no PEM") ∧
  en_events s2 = en_events s.
Proof. vm_compute. split_and!; reflexivity. Qed.

(** [Path::exists] says no when it cannot tell: a key that is there but cannot be looked at for a
    moment is replaced by a new one, and the certificate no longer belongs to it. *)
Definition blinking : Host := faulty (λ op p,
  match op with OpMetadata => String.eqb p "state/identity/client.key.pem" | _ => false end).
Example unreadable_key_is_replaced :
  let w := set_files {["state/identity/client.key.pem" := "old key"]} empty_world in
  let '(r, w') := load_or_generate_key_pair (H0 := blinking) (under "state") w in
  r = Ok "key" ∧ files w' !! "state/identity/client.key.pem" = Some "key".
Proof. vm_compute. split; reflexivity. Qed.

(** The same happens to the identity: while its file cannot be looked at, an enrolled agent that still has a token
    presents it again. *)
Definition blinking_identity : Host := faulty (λ op p, match op with OpMetadata => String.eqb p "state/agent_runtime.json" | _ => false end).
Definition blinking_shared : @SharedFs _ blinking_identity := {|
  shared_read_json A J p := @read_json_async _ blinking_identity A J p;
  shared_write_json_atomic A J p a := @write_json_atomic_async _ blinking_identity A J p a;
|}.
Definition blinking_private : @SharedPrivate _ blinking_identity blinking_shared := {|
  shared_write_bytes_private p bytes := @write_bytes_private_atomic_async _ blinking_identity p bytes;
  shared_write_json_private A J p a := @write_json_private_atomic_async _ blinking_identity A J p a;
|}.
Example unseen_identity_enrols_again :
  (start_agent "state" None config enrolled).1 = inr ExistingStateIdentity ∧
  let '(_, s) := start_agent (H0 := blinking_identity) (H1 := blinking_shared) (H2 := blinking_private) "state" None config enrolled in length (enroll_posts s) = S (length (enroll_posts enrolled)).
Proof. vm_compute. split; reflexivity. Qed.
End ConcreteIdentity.
