(* ===== verification/Terminal.v ===== *)
(** The final rejection: state_store/auth_terminal.rs, and the part of runtime/daemon.rs that stops
    reporting when the gateway will not take the agent back, asks again at long intervals, and
    resumes; with the periodic renewal, which may find the rejection too. *)
From S2P Require Import Prelude Errors Text Host Private Toy Fmt Throttle Policies Identity.

(** * state_store/auth_terminal.rs *)

Definition SOURCE_STATUS_REPORT : string := "status_report".
Definition SOURCE_RENEWAL : string := "renewal".

Record AuthTerminal := mk_terminal {
  at_code : string;
  at_source : string;
  at_detected_at : string;
  at_attempts : Z;
}.

Definition terminal_path_for (state_dir : string) : string := path_join state_dir "auth_terminal.json".

Section Ledger.
Context `{Host} `{!Json AuthTerminal}.

Definition terminal_load (path : string) : M World (option AuthTerminal) :=
  r ← try (read_json_async path);
  match r with
  | Ok state => mret (Some state)
  | Err err => if decide (io_kind err = NotFound) then mret None else throw err
  end.

Definition terminal_store (path : string) (state : AuthTerminal) : M World unit :=
  write_json_atomic_async path state.

Definition terminal_clear (path : string) : M World unit :=
  r ← try (fs_remove path);
  match r with
  | Ok _ => mret tt
  | Err err => if decide (io_kind err = NotFound) then mret tt else throw err
  end.
End Ledger.

(** * runtime/daemon.rs *)

Definition TERMINAL_RETRY_INTERVAL_MS : Z := 300000.
Definition RENEWAL_CHECK_INTERVAL_MS : Z := 60 * 60 * 1000.

(** [terminal_retry_interval], of the environment's value; [Duration::from_secs] in milliseconds. *)
Definition terminal_retry_interval (env : option string) : Z :=
  match trim <$> env with
  | None => TERMINAL_RETRY_INTERVAL_MS
  | Some text =>
      if String.eqb text "" then TERMINAL_RETRY_INTERVAL_MS
      else match parse_u64 text with inr secs => secs * 1000 | inl _ => TERMINAL_RETRY_INTERVAL_MS end
  end.

Record StatusReportOutcome := mk_report_outcome { so_latency_ms : option Z; so_terminal : option string }.
(** [StatusReportOutcome::failed] and [StatusReportOutcome::terminal]. *)
Definition report_failed : StatusReportOutcome := mk_report_outcome None None.
Definition report_terminal (code : string) : StatusReportOutcome := mk_report_outcome None (Some code).

(** What happens, in order; a report says whether it is the question asked in the terminal state. *)
Inductive DaemonEvent :=
| TurnBegan (terminal : bool)
| ReportSent (at_ : Z) (probe : bool) (reply : Reply)
| RenewalChecked (at_ : Z) (decision : RenewalDecision)
| RestOfTurn (at_ : Z)
| EnteredTerminal (state : AuthTerminal)
| Recovered.

(** The answer to a status report, and everything else a turn does: policies, work, commands, the tick
    and what it sends. *)
Class DaemonHost `{Os} := {
  post_status : string → ClientSpec → bool → list DaemonEvent → World → Reply * N;
  rest_of_turn : list DaemonEvent → AppliedUplink → World → result AppliedUplink * World;
}.

Record DaemonConfig := mk_daemon_config {
  dc_state_dir : string;
  (** [terminal_retry_interval()] *)
  dc_retry : Z;
}.

(** The variables of [run_forever_async] that are about the identity. *)
Record Standing `{Os} := mk_standing {
  sd_enrollee : Enrollee;
  sd_terminal : option AuthTerminal;
  sd_last_retry : option Z;
  sd_clear_pending : bool;
  sd_last_renewal : option Z;
  sd_last_report : Z;
  sd_uplink : AppliedUplink;
  sd_events : list DaemonEvent;
}.
Arguments mk_standing {_} _ _ _ _ _ _ _ _.
Definition sd_world `{Os} (c : Standing) : World := en_world (sd_enrollee c).

Definition outcome_of_reply (reply : Reply) (latency : Z) : StatusReportOutcome :=
  match reply with
  | Unreached _ => report_failed
  | Replied status body =>
      if is_success status then mk_report_outcome (Some latency) None
      else match classify_auth_rejection status (match body with inr body => body | inl _ => "" end) with
           | Terminal code => report_terminal code
           | NotRevoked => report_failed
           end
  end.

Section Daemon.
Context `{Host} `{!SharedFs} `{!SharedPrivate} `{!Certificates} `{!EnrollHost} `{!DaemonHost} `{!PolicyApi}.
Context `{!Json AgentRuntimeState} `{!Json RenewalLedger} `{!Json AuthTerminal}.

Definition on_world {A} (m : M World A) : M Standing A :=
  zoom sd_world (λ w c, mk_standing (mk_enrollee w (en_config (sd_enrollee c)) (en_events (sd_enrollee c)))
    (sd_terminal c) (sd_last_retry c) (sd_clear_pending c) (sd_last_renewal c) (sd_last_report c)
    (sd_uplink c) (sd_events c)) m.
Definition set_enrollee (e : Enrollee) : M Standing unit :=
  modify (λ c, mk_standing e (sd_terminal c) (sd_last_retry c) (sd_clear_pending c) (sd_last_renewal c)
    (sd_last_report c) (sd_uplink c) (sd_events c)).
Definition set_terminal (state : option AuthTerminal) : M Standing unit :=
  modify (λ c, mk_standing (sd_enrollee c) state (sd_last_retry c) (sd_clear_pending c) (sd_last_renewal c)
    (sd_last_report c) (sd_uplink c) (sd_events c)).
Definition set_last_retry (at_ : option Z) : M Standing unit :=
  modify (λ c, mk_standing (sd_enrollee c) (sd_terminal c) at_ (sd_clear_pending c) (sd_last_renewal c)
    (sd_last_report c) (sd_uplink c) (sd_events c)).
Definition set_clear_pending (b : bool) : M Standing unit :=
  modify (λ c, mk_standing (sd_enrollee c) (sd_terminal c) (sd_last_retry c) b (sd_last_renewal c)
    (sd_last_report c) (sd_uplink c) (sd_events c)).
Definition set_last_renewal (at_ : Z) : M Standing unit :=
  modify (λ c, mk_standing (sd_enrollee c) (sd_terminal c) (sd_last_retry c) (sd_clear_pending c) (Some at_)
    (sd_last_report c) (sd_uplink c) (sd_events c)).
Definition set_last_status (at_ : Z) : M Standing unit :=
  modify (λ c, mk_standing (sd_enrollee c) (sd_terminal c) (sd_last_retry c) (sd_clear_pending c)
    (sd_last_renewal c) at_ (sd_uplink c) (sd_events c)).
Definition set_applied_uplink (u : AppliedUplink) : M Standing unit :=
  modify (λ c, mk_standing (sd_enrollee c) (sd_terminal c) (sd_last_retry c) (sd_clear_pending c)
    (sd_last_renewal c) (sd_last_report c) u (sd_events c)).
Definition happened (e : DaemonEvent) : M Standing unit :=
  modify (λ c, mk_standing (sd_enrollee c) (sd_terminal c) (sd_last_retry c) (sd_clear_pending c)
    (sd_last_renewal c) (sd_last_report c) (sd_uplink c) (sd_events c ++ [e])).
Definition instant : M Standing Z := gets (λ c, clock (sd_world c)).
Definition sleep_ms (time : Z) : M Standing unit := on_world (modify (λ w, set_clock (clock w + time) w)).

(** [report_status_to_control_plane] *)
Definition report_status_to_control_plane (probe : bool) : M Standing StatusReportOutcome :=
  config ← gets (λ c, en_config (sd_enrollee c));
  match ic_endpoint config, ic_agent_id config with
  | Some endpoint, Some _ =>
      client ← gets (λ c, (enrollment_http_client config (sd_world c)).1);
      match client with
      | inl _ => mret report_failed
      | inr client =>
          at_ ← instant;
          answer ← gets (λ c, post_status (gateway_url endpoint "/api/v1/agent/status") client probe
                                (sd_events c) (sd_world c));
          sleep_ms (Z.of_N answer.2);;
          happened (ReportSent at_ probe answer.1);;
          mret (outcome_of_reply answer.1 (Z.of_N answer.2))
      end
  | _, _ => mret report_failed
  end.

Definition force_standby (code : string) : M Standing unit :=
  now ← on_world now_rfc3339;
  u ← gets sd_uplink;
  set_applied_uplink (uplink_observe now (CredentialRejected code) u).2.

Definition enter_terminal (path code source : string) : M World AuthTerminal :=
  now ← now_rfc3339;
  let state := mk_terminal code source now 0 in
  try (terminal_store path state);;
  mret state.

Definition enter_terminal_if_absent (path code source : string) : M Standing bool :=
  terminal ← gets sd_terminal;
  match terminal with
  | Some _ => mret false
  | None =>
      state ← on_world (enter_terminal path code source);
      set_terminal (Some state);;
      happened (EnteredTerminal state);;
      mret true
  end.

(** [retry_terminal_probe]: the state it leaves, and whether the gateway takes the agent back. *)
Definition retry_terminal_probe (state : AuthTerminal) : M Standing (AuthTerminal * bool) :=
  let attempts := Z.min (2 ^ 63 - 1) (at_attempts state + 1) in
  let state := mk_terminal (at_code state) (at_source state) (at_detected_at state) attempts in
  report ← report_status_to_control_plane true;
  state ← match so_terminal report with
          | Some code =>
              if String.eqb code (at_code state) then mret state
              else
                now ← on_world now_rfc3339;
                mret (mk_terminal code SOURCE_STATUS_REPORT now attempts)
          | None => mret state
          end;
  mret (state, is_some (so_latency_ms report)).

Definition load_terminal_ledger (path : string) : M World (option AuthTerminal) :=
  r ← try (terminal_load path);
  match r with
  | Ok state => mret state
  | Err _ => try (terminal_clear path);; mret None
  end.

Definition clear_terminal_ledger_if_pending (path : string) : M Standing unit :=
  pending ← gets sd_clear_pending;
  if negb pending then mret tt
  else
    r ← on_world (try (terminal_clear path));
    match r with Ok _ => set_clear_pending false | Err _ => mret tt end.

(** What a turn does first in the terminal state; [true] if it goes on as any other turn. *)
Definition terminal_part (config : DaemonConfig) : M Standing bool :=
  let path := terminal_path_for (dc_state_dir config) in
  terminal ← gets sd_terminal;
  match terminal with
  | None => mret true
  | Some state =>
      now ← instant;
      last ← gets sd_last_retry;
      if fetch_due (dc_retry config) now last then
        set_last_retry (Some now);;
        probed ← retry_terminal_probe state;
        set_terminal (Some probed.1);;
        on_world (try (terminal_store path probed.1));;
        if probed.2 : bool then
          cleared ← on_world (try (terminal_clear path));
          happened Recovered;;
          set_terminal None;;
          set_clear_pending (match cleared with Ok _ => false | Err _ => true end);;
          set_last_retry None;;
          mret true
        else mret false
      else mret false
  end.

(** [renew_credential_if_due], which is never an error of its own. *)
Definition renew (state_dir : string) : M Standing RenewalDecision :=
  e ← gets sd_enrollee;
  let '(r, e') := renew_credential_if_due state_dir e in
  set_enrollee e';;
  mret (match r with inr decision => decision | inl _ => NotDue end).

Definition renewal_part (config : DaemonConfig) : M Standing unit :=
  now ← instant;
  last ← gets sd_last_renewal;
  if fetch_due RENEWAL_CHECK_INTERVAL_MS now last then
    set_last_renewal now;;
    decision ← renew (dc_state_dir config);
    happened (RenewalChecked now decision);;
    match decision with
    | Revoked =>
        enter_terminal_if_absent (terminal_path_for (dc_state_dir config)) "certificate_revoked" SOURCE_RENEWAL;;
        force_standby "certificate_revoked"
    | _ => mret tt
    end
  else mret tt.

Definition other_work : M Standing unit :=
  now ← instant;
  happened (RestOfTurn now);;
  done_ ← gets (λ c, rest_of_turn (sd_events c) (sd_uplink c) (sd_world c));
  on_world (modify (λ _, done_.2));;
  match done_.1 with
  | Ok u => set_applied_uplink u
  | Err err => throw err
  end.

Definition status_part (config : DaemonConfig) : M Standing unit :=
  now ← instant;
  last ← gets sd_last_report;
  if Z.ltb (now - last) STATUS_REPORT_INTERVAL_MS then mret tt
  else
    set_last_status now;;
    report ← report_status_to_control_plane false;
    match so_terminal report with
    | Some code =>
        enter_terminal_if_absent (terminal_path_for (dc_state_dir config)) code SOURCE_STATUS_REPORT;;
        force_standby code
    | None => mret tt
    end.

(** One turn of the loop. *)
Definition terminal_turn (config : DaemonConfig) : M Standing unit :=
  terminal ← gets sd_terminal;
  happened (TurnBegan (is_some terminal));;
  clear_terminal_ledger_if_pending (terminal_path_for (dc_state_dir config));;
  goes_on ← terminal_part config;
  if goes_on : bool then
    renewal_part config;;
    other_work;;
    status_part config;;
    sleep_ms TICK_INTERVAL_MS
  else sleep_ms TICK_INTERVAL_MS.

Fixpoint daemon_turns (config : DaemonConfig) (n : nat) : M Standing unit :=
  match n with
  | 0 => mret tt
  | S n => terminal_turn config;; daemon_turns config n
  end.

(** What [run_forever_async] starts from. *)
Definition standing_start (config : DaemonConfig) (e : Enrollee) : Standing :=
  let '(r, w) := load_terminal_ledger (terminal_path_for (dc_state_dir config)) (en_world e) in
  mk_standing (mk_enrollee w (en_config e) (en_events e)) (match r with Ok state => state | Err _ => None end)
    None false None (clock w) applied_uplink_default [].
End Daemon.

(** * What is sent in the terminal state *)

(** Whether a turn that began in the terminal state is going on, or was the last, unless the gateway took
    the agent back. *)
Definition asking_step (asking : bool) (e : DaemonEvent) : bool :=
  match e with TurnBegan terminal => terminal | Recovered => false | _ => asking end.
Definition asking (evs : list DaemonEvent) : bool := foldl asking_step false evs.

(** The questions asked since the gateway last took the agent back. *)
Definition probes_step (times : list Z) (e : DaemonEvent) : list Z :=
  match e with ReportSent at_ true _ => (times ++ [at_])%list | Recovered => [] | _ => times end.
Definition probes (evs : list DaemonEvent) : list Z := foldl probes_step [] evs.

(** What may happen then: the question, and the recovery. *)
Definition quiet_event (e : DaemonEvent) : bool :=
  match e with TurnBegan terminal => terminal | ReportSent _ probe _ => probe | Recovered => true | _ => false end.
(** What any other turn does. *)
Definition plain_event (e : DaemonEvent) : bool :=
  match e with ReportSent _ probe _ => negb probe | TurnBegan _ | Recovered => false | _ => true end.

Definition quiet (evs : list DaemonEvent) : Prop := ∀ p e s,
  evs = (p ++ e :: s)%list → asking p = true → quiet_event e = true.
Definition spaced (interval : Z) (evs : list DaemonEvent) : Prop := ∀ p s,
  evs = (p ++ s)%list → StronglySorted (λ a b, (a + interval ≤ b)%Z) (probes p).

Section Traces.
Implicit Types evs : list DaemonEvent.

Lemma asking_snoc evs e : asking (evs ++ [e]) = asking_step (asking evs) e.
Proof. unfold asking. by rewrite foldl_app. Qed.
Lemma probes_snoc evs e : probes (evs ++ [e]) = probes_step (probes evs) e.
Proof. unfold probes. by rewrite foldl_app. Qed.

Lemma snoc_prefix {A} (l p s : list A) x : (l ++ [x])%list = (p ++ s)%list →
  (s = [] ∧ p = (l ++ [x])%list) ∨ ∃ s', s = (s' ++ [x])%list ∧ l = (p ++ s')%list.
Proof.
  destruct s as [|y s _] using rev_ind; intros E.
  - left. by rewrite (right_id_L [] (++)) in E.
  - right. rewrite (assoc_L (++)) in E. apply app_inj_tail in E as [-> ->]. eauto.
Qed.

Lemma quiet_snoc evs e : quiet evs → (asking evs = true → quiet_event e = true) → quiet (evs ++ [e]).
Proof.
  intros Hq He p x s E Ha. apply snoc_prefix in E as [[? _]|(s' & Es & ->)]; [done|].
  destruct s' as [|y s']; cbn in Es; injection Es as -> ->.
  - rewrite (right_id_L [] (++)) in He. auto.
  - by eapply Hq.
Qed.

Lemma spaced_snoc interval evs e : spaced interval evs →
  StronglySorted (λ a b, (a + interval ≤ b)%Z) (probes (evs ++ [e])) → spaced interval (evs ++ [e]).
Proof. intros Hs He p s E. apply snoc_prefix in E as [[_ ->]|(s' & _ & ->)]; [done|by eapply Hs]. Qed.

(** The events of a turn outside the terminal state. *)
Lemma plain_app interval evs evs' : Forall (λ e, plain_event e = true) evs' → asking evs = false →
  quiet evs → spaced interval evs →
  asking (evs ++ evs') = false ∧ probes (evs ++ evs') = probes evs ∧ quiet (evs ++ evs') ∧ spaced interval (evs ++ evs').
Proof.
  intros Hp Ha Hq Hs. induction evs' as [|e evs' IH] using rev_ind; [by rewrite (right_id_L [] (++))|].
  apply Forall_app in Hp as [Hp He%Forall_cons]. destruct He as [He _].
  destruct (IH Hp) as (A & P & Q & S). rewrite (assoc_L (++)).
  assert (HP : probes ((evs ++ evs') ++ [e]) = probes (evs ++ evs')) by (rewrite probes_snoc; destruct e as [| ? [] ?| | | |]; solve [done | discriminate He]).
  split_and!.
  - rewrite asking_snoc, A. by destruct e.
  - by rewrite HP.
  - apply quiet_snoc; [done|by rewrite A].
  - apply spaced_snoc; [done|]. rewrite HP. apply (S _ []). by rewrite (right_id_L [] (++)).
Qed.
End Traces.

Section Silence.
Context `{Host} `{!SharedFs} `{!SharedPrivate} `{!Certificates} `{!EnrollHost} `{!DaemonHost} `{!PolicyApi}.
Context `{!Json AgentRuntimeState} `{!Json RenewalLedger} `{!Json AuthTerminal}.
Context (config : DaemonConfig).
Hypothesis retry_nonneg : (0 ≤ dc_retry config)%Z.
Implicit Types c : Standing.

(** What a turn outside the terminal state does to these variables. *)
Record onward c c' : Prop := mk_onward {
  ow_events : ∃ evs, sd_events c' = (sd_events c ++ evs)%list ∧ Forall (λ e, plain_event e = true) evs;
  ow_terminal : is_some (sd_terminal c) = true → is_some (sd_terminal c') = true;
  ow_retry : sd_last_retry c' = sd_last_retry c;
}.
#[export] Instance onward_preorder : PreOrder onward.
Proof.
  split.
  - intros c. split; [|done..]. exists []. by rewrite (right_id_L [] (++)).
  - intros c1 c2 c3 [(e1 & E1 & P1) T1 R1] [(e2 & E2 & P2) T2 R2]. split; [|auto|congruence].
    exists (e1 ++ e2)%list. rewrite E2, E1, (assoc_L (++)). split; [done|by apply Forall_app].
Qed.

(** A change of other variables. *)
Lemma onward_modify f : (∀ c, sd_events (f c) = sd_events c ∧ sd_terminal (f c) = sd_terminal c ∧
  sd_last_retry (f c) = sd_last_retry c) → respects onward (modify f).
Proof.
  intros Hf c. destruct (Hf c) as (E & T & R). cbn. split; [|by rewrite T|done].
  exists []. by rewrite E, (right_id_L [] (++)).
Qed.

Lemma onward_world {A} (m : M World A) : respects onward (on_world m).
Proof.
  intros c. unfold on_world, zoom. destruct (m (sd_world c)) as [r w]. cbn. split; [|done..].
  exists []. cbn. by rewrite (right_id_L [] (++)).
Qed.

Lemma onward_happened e : plain_event e = true → respects onward (happened e).
Proof. intros He c. cbn. split; [|done..]. exists [e]. split; [done|by repeat constructor]. Qed.

Lemma onward_enter path code source : respects onward (enter_terminal_if_absent path code source).
Proof.
  apply respects_bind; [apply _|intros c; reflexivity|]. intros [state|]; [by apply respects_ret, _|].
  apply respects_bind; [apply _|apply onward_world|]. intros state.
  apply respects_bind; [apply _| |intros _; apply respects_bind; [apply _|by apply onward_happened|intros _; by apply respects_ret, _]].
  intros c. cbn. split; [|done..]. exists []. cbn. by rewrite (right_id_L [] (++)).
Qed.

Lemma onward_standby code : respects onward (force_standby code).
Proof.
  apply respects_bind; [apply _|apply onward_world|]. intros now.
  apply respects_bind; [apply _|intros c; reflexivity|]. intros u. by apply onward_modify.
Qed.

Lemma onward_report : respects onward (report_status_to_control_plane false).
Proof.
  apply respects_bind; [apply _|intros c; reflexivity|]. intros cfg.
  destruct (ic_endpoint cfg) as [endpoint|]; [|by apply respects_ret, _].
  destruct (ic_agent_id cfg); [|by apply respects_ret, _].
  apply respects_bind; [apply _|intros c; reflexivity|]. intros [?|client]; [by apply respects_ret, _|].
  do 2 (apply respects_bind; [apply _|intros c; reflexivity|]; intros ?).
  apply respects_bind; [apply _|apply onward_world|]. intros _.
  apply respects_bind; [apply _|by apply onward_happened|]. intros _. by apply respects_ret, _.
Qed.

Lemma onward_renewal : respects onward (renewal_part config).
Proof.
  do 2 (apply respects_bind; [apply _|intros c; reflexivity|]; intros ?).
  destruct (fetch_due _ _ _); [|by apply respects_ret, _].
  apply respects_bind; [apply _|by apply onward_modify|]. intros _.
  apply respects_bind; [apply _| |intros decision].
  { apply respects_bind; [apply _|intros c; reflexivity|]. intros e.
    destruct (renew_credential_if_due _ e) as [r e'].
    apply respects_bind; [apply _|by apply onward_modify|]. intros _. by apply respects_ret, _. }
  apply respects_bind; [apply _|by apply onward_happened|]. intros _.
  destruct decision; try by apply respects_ret, _.
  apply respects_bind; [apply _|apply onward_enter|]. intros _. apply onward_standby.
Qed.

Lemma onward_other : respects onward other_work.
Proof.
  apply respects_bind; [apply _|intros c; reflexivity|]. intros now.
  apply respects_bind; [apply _|by apply onward_happened|]. intros _.
  apply respects_bind; [apply _|intros c; reflexivity|]. intros [r w].
  apply respects_bind; [apply _|apply onward_world|]. intros _. destruct r as [u|e]; cbn.
  - by apply onward_modify.
  - by apply respects_throw, _.
Qed.

Lemma onward_status : respects onward (status_part config).
Proof.
  do 2 (apply respects_bind; [apply _|intros c; reflexivity|]; intros ?).
  destruct (Z.ltb _ _); [by apply respects_ret, _|].
  apply respects_bind; [apply _|by apply onward_modify|]. intros _.
  apply respects_bind; [apply _|apply onward_report|]. intros report.
  destruct (so_terminal report); [|by apply respects_ret, _].
  apply respects_bind; [apply _|apply onward_enter|]. intros _. apply onward_standby.
Qed.

(** The turn outside the terminal state. *)
Definition plain_part : M Standing unit :=
  renewal_part config;; other_work;; status_part config;; sleep_ms TICK_INTERVAL_MS.
Lemma onward_plain : respects onward plain_part.
Proof.
  apply respects_bind; [apply _|apply onward_renewal|]. intros _.
  apply respects_bind; [apply _|apply onward_other|]. intros _.
  apply respects_bind; [apply _|apply onward_status|]. intros _. apply onward_world.
Qed.

(** The invariant at the end of a turn. *)
Record silent c : Prop := mk_silent {
  sl_terminal : asking (sd_events c) = true → is_some (sd_terminal c) = true;
  sl_quiet : quiet (sd_events c);
  sl_spaced : spaced (dc_retry config) (sd_events c);
  sl_throttled : throttled (dc_retry config) (probes (sd_events c)) (sd_last_retry c);
}.

Lemma plain_silent c r c' : asking (sd_events c) = false → quiet (sd_events c) →
  spaced (dc_retry config) (sd_events c) → throttled (dc_retry config) (probes (sd_events c)) (sd_last_retry c) →
  plain_part c = (r, c') → silent c'.
Proof.
  intros Ha Hq Hs Ht E. pose proof (onward_plain c) as Ho. rewrite E in Ho. cbn [snd] in Ho.
  destruct Ho as [(evs & Ev & Hp) _ Hr].
  destruct (plain_app _ _ _ Hp Ha Hq Hs) as (A & P & Q & S). split; rewrite Ev, ?Hr, ?P; try done. by rewrite A.
Qed.

Definition idle c c' : Prop :=
  sd_events c' = sd_events c ∧ sd_terminal c' = sd_terminal c ∧ sd_last_retry c' = sd_last_retry c.
#[export] Instance idle_preorder : PreOrder idle.
Proof. split; [by intros c|]. intros c1 c2 c3 (E1 & T1 & R1) (E2 & T2 & R2). split_and!; congruence. Qed.

Lemma idle_world {A} (m : M World A) : respects idle (on_world m).
Proof. intros c. unfold on_world, zoom. by destruct (m (sd_world c)). Qed.

Lemma try_world_run {A} (m : M World A) c : ∃ c', on_world (try m) c = (Ok (m (sd_world c)).1, c') ∧ idle c c'.
Proof. unfold on_world, zoom, try. destruct (m (sd_world c)) as [r w]. by eexists. Qed.

Lemma clear_idle path : respects idle (clear_terminal_ledger_if_pending path).
Proof.
  apply respects_bind; [apply _|by intros c|]. intros [|]; cbn; [|by apply respects_ret, _].
  apply respects_bind; [apply _|apply idle_world|]. intros [u|e]; [by intros c|by apply respects_ret, _].
Qed.

(** Asking whether the gateway takes the agent back: one report at most, at that instant. *)
Lemma probe_run c : ∃ outcome c', report_status_to_control_plane true c = (Ok outcome, c') ∧
  sd_terminal c' = sd_terminal c ∧ sd_last_retry c' = sd_last_retry c ∧
  ((sd_events c' = sd_events c ∧ so_latency_ms outcome = None) ∨
   ∃ reply, sd_events c' = (sd_events c ++ [ReportSent (clock (sd_world c)) true reply])%list).
Proof.
  unfold report_status_to_control_plane. rewrite gets_then.
  destruct (ic_endpoint (en_config (sd_enrollee c))) as [endpoint|]; [|eexists _, c; split; [reflexivity|]; split_and!; [done|done|by left]].
  destruct (ic_agent_id (en_config (sd_enrollee c))); [|eexists _, c; split; [reflexivity|]; split_and!; [done|done|by left]].
  rewrite gets_then. destruct (enrollment_http_client _ _).1 as [e|client]; [eexists _, c; split; [reflexivity|]; split_and!; [done|done|by left]|].
  unfold instant. rewrite !gets_then. eexists _, _. split; [reflexivity|]. cbn. split_and!; [done|done|]. right. eauto.
Qed.

Lemma retry_run state c : ∃ state' back c', retry_terminal_probe state c = (Ok (state', back), c') ∧
  sd_terminal c' = sd_terminal c ∧ sd_last_retry c' = sd_last_retry c ∧
  (sd_events c' = sd_events c ∨
   ∃ reply, sd_events c' = (sd_events c ++ [ReportSent (clock (sd_world c)) true reply])%list).
Proof.
  unfold retry_terminal_probe. destruct (probe_run c) as (outcome & c1 & E & T & R & Hev).
  erewrite bind_ok by exact E.
  assert (Hev' : sd_events c1 = sd_events c ∨
    ∃ reply, sd_events c1 = (sd_events c ++ [ReportSent (clock (sd_world c)) true reply])%list) by naive_solver.
  destruct (so_terminal outcome) as [code|]; [case_match|];
    (eexists _, _, _; split; [reflexivity|]; by split_and!).
Qed.

(** What a turn does first when it begins in the terminal state. *)
Lemma terminal_part_run state c : sd_terminal c = Some state → ∃ b c', terminal_part config c = (Ok b, c') ∧
  ((b = false ∧ c' = c) ∨
   fetch_due (dc_retry config) (clock (sd_world c)) (sd_last_retry c) = true ∧
   ∃ evs, sd_events c' = (sd_events c ++ evs ++ (if b then [Recovered] else []))%list ∧
     (evs = [] ∨ ∃ reply, evs = [ReportSent (clock (sd_world c)) true reply]) ∧
     (b = true → sd_last_retry c' = None) ∧
     (b = false → is_some (sd_terminal c') = true ∧ sd_last_retry c' = Some (clock (sd_world c)))).
Proof.
  intros Ht. unfold terminal_part, instant. rewrite gets_then, Ht, !gets_then.
  destruct (fetch_due _ _ _) eqn:Hd; [|exists false, c; split; [done|by left]].
  erewrite bind_ok by reflexivity.
  match goal with |- context [(retry_terminal_probe state ≫= ?k) ?x] => set (c1 := x); set (rest := k) end.
  destruct (retry_run state c1) as (state' & back & c2 & E & T & R & Hev). erewrite bind_ok by exact E. unfold rest.
  erewrite bind_ok by reflexivity. cbn [fst snd].
  match goal with |- context [(on_world (try ?m) ≫= ?k) ?x] =>
    set (c3 := x); destruct (try_world_run m c3) as (c4 & E3 & E4 & T4 & R4) end.
  erewrite bind_ok by exact E3.
  assert (Hevs : ∃ evs, sd_events c4 = (sd_events c ++ evs)%list ∧
    (evs = [] ∨ ∃ reply, evs = [ReportSent (clock (sd_world c)) true reply])).
  { rewrite E4. destruct Hev as [Hev|[reply Hev]]; cbn; rewrite Hev.
    - exists []. rewrite (right_id_L [] (++)). auto.
    - eexists. split; [done|]. right. by exists reply. }
  destruct Hevs as (evs & Hevs & Hshape). destruct back.
  - match goal with |- context [(on_world (try ?m) ≫= ?k) c4] =>
      destruct (try_world_run m c4) as (c5 & E5 & I5 & _) end.
    erewrite bind_ok by exact E5.
    eexists true, _. split; [reflexivity|]. right. split; [done|]. exists evs. cbn.
    split_and!; [by rewrite I5, Hevs, (assoc_L (++))|done|done|done].
  - exists false, c4. split; [done|]. right. split; [done|]. exists evs.
    split_and!; [by rewrite (right_id_L [] (++))|done|done|]. intros _. rewrite T4, R4. cbn. by rewrite R.
Qed.

Lemma silent_turn c r c' : silent c → terminal_turn config c = (r, c') → silent c'.
Proof.
  intros [Ht Hq Hs Hth]. unfold terminal_turn. rewrite gets_then. erewrite bind_ok by reflexivity.
  match goal with |- (_ ≫= _) ?x = _ → _ => set (c1 := x) end. intros E.
  assert (Q1 : quiet (sd_events c1)) by (apply quiet_snoc; [done|exact Ht]).
  assert (P1 : probes (sd_events c1) = probes (sd_events c)) by apply probes_snoc.
  assert (S1 : spaced (dc_retry config) (sd_events c1)).
  { apply spaced_snoc; [done|]. fold (sd_events c1). rewrite probes_snoc. apply (Hs _ []). by rewrite (right_id_L [] (++)). }
  assert (A1 : asking (sd_events c1) = is_some (sd_terminal c)) by apply asking_snoc.
  pose proof (clear_idle (terminal_path_for (dc_state_dir config)) c1) as Hi.
  apply bind_inv in E as [(e & E & ->)|([] & c2 & E2 & E)]; rewrite ?E, ?E2 in Hi; destruct Hi as (I1 & I2 & I3); cbn [snd] in *.
  { split; rewrite ?I1, ?I2, ?I3, ?P1; try done. by rewrite A1. }
  assert (Hsil : silent c2) by (split; rewrite ?I1, ?I2, ?I3, ?P1; try done; by rewrite A1).
  destruct (sd_terminal c2) as [state|] eqn:Et2.
  - destruct (terminal_part_run state c2 Et2) as (b & c3 & E3 & Hb). erewrite bind_ok in E by exact E3.
    destruct Hb as [[-> ->]|(Hdue & evs & Hev & Hshape & Hback & Hnot)].
    { pose proof (onward_world (modify (λ w, set_clock (clock w + TICK_INTERVAL_MS) w)) c2) as Ho.
      unfold sleep_ms, on_world, zoom, modify in E. injection E as _ <-. destruct Hsil. split; cbn; auto. }
    assert (Htimes : throttled (dc_retry config) (probes (sd_events c2)) (sd_last_retry c2)) by apply Hsil.
    destruct (throttled_attempt _ _ _ _ Htimes retry_nonneg Hdue) as [Ta Tb].
    assert (Hstep : quiet (sd_events c2 ++ evs) ∧ spaced (dc_retry config) (sd_events c2 ++ evs) ∧
      throttled (dc_retry config) (probes (sd_events c2 ++ evs)) (Some (clock (sd_world c2)))).
    { destruct Hshape as [->|[reply ->]]; [rewrite (right_id_L [] (++)); split_and!; [apply Hsil..|done]|].
      assert (Hp : probes (sd_events c2 ++ [ReportSent (clock (sd_world c2)) true reply]) =
        (probes (sd_events c2) ++ [clock (sd_world c2)])%list) by apply probes_snoc.
      split_and!; [by apply quiet_snoc; [apply Hsil|]|apply spaced_snoc; [apply Hsil|rewrite Hp; apply Tb]|by rewrite Hp]. }
    destruct Hstep as (Q3 & S3 & T3). destruct b.
    + rewrite (assoc_L (++)) in Hev. eapply (plain_silent c3); [..|exact E]; rewrite Hev.
      * by rewrite asking_snoc.
      * by apply quiet_snoc.
      * apply spaced_snoc; [done|]. rewrite probes_snoc. constructor.
      * rewrite probes_snoc, Hback by done. split; [constructor|by intros t ?%elem_of_nil].
    + rewrite (right_id_L [] (++)) in Hev. destruct (Hnot eq_refl) as [Hs3 Hr3].
      unfold sleep_ms, on_world, zoom, modify in E. injection E as _ <-. split; cbn; rewrite Hev; try done. by rewrite Hr3.
  - assert (E3 : terminal_part config c2 = (Ok true, c2)) by (unfold terminal_part; by rewrite gets_then, Et2).
    erewrite bind_ok in E by exact E3. eapply (plain_silent c2); [..|exact E]; try apply Hsil.
    rewrite I1, A1. change (sd_terminal c) with (sd_terminal c1). by rewrite <- I2.
Qed.

Lemma silent_turns n c r c' : silent c → daemon_turns config n c = (r, c') → silent c'.
Proof.
  revert c. induction n as [|n IH]; intros c Hc; cbn [daemon_turns]; [by intros [= _ <-]|].
  intros [(e & E & _)|([] & c1 & E & Hr)]%bind_inv; [by eapply silent_turn|].
  eapply IH; [|exact Hr]. by eapply silent_turn.
Qed.
End Silence.

(** * The ledger and the memory *)

Section Told.
Context `{Host} `{!SharedFs} `{!SharedPrivate} `{!SharedFsLaws} `{!SharedPrivateLaws} `{!Certificates}.
Context `{!EnrollHost} `{!EnrollHostLaws} `{!DaemonHost} `{!PolicyApi}.
Context `{!Json AgentRuntimeState} `{!Json RenewalLedger} `{!Json AuthTerminal}.
Context (config : DaemonConfig).
Implicit Types c : Standing.

Definition ledger_path : string := terminal_path_for (dc_state_dir config).

Hypothesis no_faults : fault_free.
(** The rest of a turn has no business with the ledger, and the runtime state is another file. *)
Hypothesis rest_keeps : ∀ evs u w, files (rest_of_turn evs u w).2 !! ledger_path = files w !! ledger_path.
Hypothesis apart : runtime_path_for (dc_state_dir config) ≠ ledger_path.

Lemma ledger_untouched : ¬ (at_ledger (dc_state_dir config) ledger_path ∨ material (dc_state_dir config) ledger_path).
Proof.
  unfold at_ledger, material, at_key, at_cert, at_runtime, ledger_path, terminal_path_for.
  intros [Hq|[Hq|[Hq|[Hq|Hq]]]]; try (apply path_join_inj in Hq; done); [exact (apart (eq_sym Hq))|].
  change "auth_terminal.json" with ("auth_terminal" +:+ ".json") in Hq. rewrite join_ends_json in Hq.
  by apply json_not_tmp in Hq.
Qed.

(** What the ledger says, the memory says. *)
Definition told c : Prop :=
  (terminal_load ledger_path (sd_world c)).1 = Ok (sd_terminal c) ∧ sd_clear_pending c = false.

Definition same c c' : Prop := files (sd_world c') !! ledger_path = files (sd_world c) !! ledger_path ∧
  sd_terminal c' = sd_terminal c ∧ sd_clear_pending c' = sd_clear_pending c.
#[local] Instance same_preorder : PreOrder same.
Proof. split; [by intros c|]. intros c1 c2 c3 (F1 & T1 & P1) (F2 & T2 & P2). split_and!; congruence. Qed.

Definition keeps_told c c' : Prop := told c → told c'.
#[local] Instance keeps_told_preorder : PreOrder keeps_told.
Proof. split; [intros c Ht; exact Ht|]. intros c1 c2 c3 H12 H23 Ht. exact (H23 (H12 Ht)). Qed.

Lemma terminal_load_files w w' : files w' !! ledger_path = files w !! ledger_path →
  (terminal_load ledger_path w').1 = (terminal_load ledger_path w).1.
Proof.
  intros Hf. unfold terminal_load, read_json_async, fs_read, try, guard_fault, act, of_result, mbind, M_bind.
  rewrite no_faults, Hf. destruct (files w !! ledger_path) as [text|]; cbn; [|done].
  destruct (from_json text) as [t|e]; [done|]. by case_decide.
Qed.

Lemma same_told {A} (m : M Standing A) : respects same m → respects keeps_told m.
Proof.
  intros Hm c. destruct (Hm c) as (F & T & P). intros [Hl Hp]. split; [|by rewrite P].
  by rewrite (terminal_load_files _ _ F), T.
Qed.

Lemma load_wrote state w : (terminal_load ledger_path (wrote ledger_path (to_json state +:+ nl) w)).1 = Ok (Some state).
Proof. unfold terminal_load, try, mbind, M_bind. by rewrite read_after_wrote by apply no_faults. Qed.

Lemma load_absent w : files w !! ledger_path = None → (terminal_load ledger_path w).1 = Ok None.
Proof.
  intros Hf. unfold terminal_load, read_json_async, fs_read, try, guard_fault, act, mbind, M_bind.
  by rewrite no_faults, Hf.
Qed.

Lemma terminal_clear_run w : ∃ w', terminal_clear ledger_path w = (Ok tt, w') ∧ files w' !! ledger_path = None.
Proof.
  unfold terminal_clear, try, mbind, M_bind. rewrite fs_remove_ff by done.
  destruct (files w !! ledger_path) as [text|] eqn:Ef; cbn; [|by eexists].
  eexists. split; [done|]. apply lookup_delete_eq.
Qed.

Lemma same_clock_world f : (∀ w, files (f w) = files w) → respects same (on_world (modify f)).
Proof. intros Hf c. by split_and!; [exact (f_equal (lookup ledger_path) (Hf _))|..]. Qed.

Lemma same_now : respects same (on_world now_rfc3339).
Proof. by intros c. Qed.

Lemma same_report probe : respects same (report_status_to_control_plane probe).
Proof.
  apply respects_bind; [apply _|intros c; reflexivity|]. intros cfg.
  destruct (ic_endpoint cfg) as [endpoint|]; [|by apply respects_ret, _].
  destruct (ic_agent_id cfg); [|by apply respects_ret, _].
  apply respects_bind; [apply _|intros c; reflexivity|]. intros [?|client]; [by apply respects_ret, _|].
  do 2 (apply respects_bind; [apply _|intros c; reflexivity|]; intros ?).
  apply respects_bind; [apply _|by apply same_clock_world|]. intros _.
  apply respects_bind; [apply _|by intros c|]. intros _. by apply respects_ret, _.
Qed.

Lemma same_retry state : respects same (retry_terminal_probe state).
Proof.
  apply respects_bind; [apply _|apply same_report|]. intros report.
  apply respects_bind; [apply _| |intros ?; by apply respects_ret, _].
  destruct (so_terminal report); [case_match|]; try by apply respects_ret, _.
  apply respects_bind; [apply _|apply same_now|]. intros now. by apply respects_ret, _.
Qed.

Lemma same_standby code : respects same (force_standby code).
Proof.
  apply respects_bind; [apply _|apply same_now|]. intros now.
  apply respects_bind; [apply _|intros c; reflexivity|]. intros u. by intros c.
Qed.

Lemma enter_told path code source : path = ledger_path → respects keeps_told (enter_terminal_if_absent path code source).
Proof.
  intros -> c Ht. unfold enter_terminal_if_absent. rewrite gets_then.
  destruct (sd_terminal c) as [state|] eqn:Et; [exact Ht|]. destruct Ht as [Hl Hp].
  set (state := mk_terminal code source (rfc3339 (clock (sd_world c))) 0).
  assert (E : enter_terminal ledger_path code source (sd_world c) =
    (Ok state, wrote ledger_path (to_json state +:+ nl) (sd_world c))).
  { unfold enter_terminal, now_rfc3339. rewrite gets_then. fold state. unfold try, terminal_store, mbind, M_bind.
    by rewrite write_json_ff. }
  unfold on_world, zoom, mbind, M_bind. rewrite E. split; [|done]. apply load_wrote.
Qed.

Lemma renewal_told : respects keeps_told (renewal_part config).
Proof.
  do 2 (apply respects_bind; [apply _|intros c; reflexivity|]; intros ?).
  destruct (fetch_due _ _ _); [|by apply respects_ret, _].
  apply respects_bind; [apply _|by apply same_told; intros c|]. intros _.
  apply respects_bind; [apply _| |intros decision].
  { apply same_told. intros c. unfold renew. rewrite gets_then.
    destruct (renewal_run (dc_state_dir config) (sd_enrollee c)) as (decision & e' & E & T). rewrite E. cbn.
    split_and!; [|done|done]. apply T, ledger_untouched. }
  apply respects_bind; [apply _|by apply same_told; intros c|]. intros _.
  destruct decision; try by apply respects_ret, _.
  apply respects_bind; [apply _|by apply enter_told|]. intros _. apply same_told, same_standby.
Qed.

Lemma other_told : respects keeps_told other_work.
Proof.
  apply same_told. apply respects_bind; [apply _|intros c; reflexivity|]. intros now c.
  unfold happened. rewrite modify_then, gets_then. unfold on_world, zoom, modify.
  match goal with |- context [rest_of_turn ?e ?u ?w] => pose proof (rest_keeps e u w) as Hk; destruct (rest_of_turn e u w) as [r w'] end.
  cbn in Hk. unfold mbind, M_bind. destruct r; by split_and!.
Qed.

Lemma status_told : respects keeps_told (status_part config).
Proof.
  do 2 (apply respects_bind; [apply _|intros c; reflexivity|]; intros ?).
  destruct (Z.ltb _ _); [by apply respects_ret, _|].
  apply respects_bind; [apply _|by apply same_told; intros c|]. intros _.
  apply respects_bind; [apply _|apply same_told, same_report|]. intros report.
  destruct (so_terminal report); [|by apply respects_ret, _].
  apply respects_bind; [apply _|by apply enter_told|]. intros _. apply same_told, same_standby.
Qed.

Lemma terminal_part_told : respects keeps_told (terminal_part config).
Proof.
  intros c Ht. unfold terminal_part. rewrite gets_then.
  destruct (sd_terminal c) as [state|] eqn:Et; [|exact Ht].
  unfold instant. rewrite !gets_then. destruct (fetch_due _ _ _); [|exact Ht].
  destruct Ht as [Hl Hp].
  erewrite bind_ok by reflexivity.
  match goal with |- context [(retry_terminal_probe state ≫= ?k) ?x] =>
    set (c1 := x); destruct (retry_run state c1) as (state' & back & c2 & E & _) end.
  pose proof (same_retry state c1) as Hs. rewrite E in Hs. destruct Hs as (_ & _ & P2). cbn [snd] in P2.
  erewrite bind_ok by exact E. erewrite bind_ok by reflexivity. cbn [fst snd].
  match goal with |- context [(on_world (try ?m) ≫= ?k) ?x] => set (c3 := x) end.
  assert (E3 : on_world (try (terminal_store ledger_path state')) c3 = (Ok (Ok tt),
    mk_standing (mk_enrollee (wrote ledger_path (to_json state' +:+ nl) (sd_world c3)) (en_config (sd_enrollee c3)) (en_events (sd_enrollee c3)))
      (Some state') (sd_last_retry c3) (sd_clear_pending c3) (sd_last_renewal c3) (sd_last_report c3) (sd_uplink c3) (sd_events c3))).
  { unfold on_world, zoom, try, terminal_store. by rewrite write_json_ff. }
  erewrite bind_ok by exact E3. destruct back.
  - match goal with |- context [(on_world (try ?m) ≫= ?k) ?x] => set (c4 := x) end.
    destruct (terminal_clear_run (sd_world c4)) as (w5 & E5 & F5). fold ledger_path.
    assert (E4 : on_world (try (terminal_clear ledger_path)) c4 = (Ok (Ok tt),
      mk_standing (mk_enrollee w5 (en_config (sd_enrollee c4)) (en_events (sd_enrollee c4)))
        (sd_terminal c4) (sd_last_retry c4) (sd_clear_pending c4) (sd_last_renewal c4) (sd_last_report c4) (sd_uplink c4) (sd_events c4))).
    { unfold on_world, zoom, try. by rewrite E5. }
    erewrite bind_ok by exact E4. split; [by apply load_absent|done].
  - split; [apply load_wrote|]. cbn. rewrite P2. exact Hp.
Qed.

Lemma turn_told : respects keeps_told (terminal_turn config).
Proof.
  apply respects_bind; [apply _|intros c; reflexivity|]. intros terminal.
  apply respects_bind; [apply _|by apply same_told; intros c|]. intros _.
  apply respects_bind; [apply _| |intros _].
  { intros c [Hl Hp]. unfold clear_terminal_ledger_if_pending. rewrite gets_then, Hp. by split. }
  assert (Hsleep : respects keeps_told (sleep_ms TICK_INTERVAL_MS)) by by apply same_told, same_clock_world.
  apply respects_bind; [apply _|apply terminal_part_told|]. intros [|]; [|done].
  apply respects_bind; [apply _|apply renewal_told|]. intros _.
  apply respects_bind; [apply _|apply other_told|]. intros _.
  apply respects_bind; [apply _|apply status_told|]. intros _. done.
Qed.

Lemma turns_told n : respects keeps_told (daemon_turns config n).
Proof.
  induction n as [|n IH]; cbn [daemon_turns]; [by apply respects_ret, _|].
  apply respects_bind; [apply _|apply turn_told|]. intros _. exact IH.
Qed.

Lemma start_told e : told (standing_start config e).
Proof.
  unfold standing_start, told. fold ledger_path.
  destruct (load_terminal_ledger ledger_path (en_world e)) as [r w] eqn:E. unfold sd_world. cbn.
  split; [|done]. unfold load_terminal_ledger, try, mbind, M_bind in E.
  assert (Hsame : ∀ v, (terminal_load ledger_path v).2 = v).
  { intros v. unfold terminal_load, try, mbind, M_bind.
    pose proof (read_json_respects (A := AuthTerminal) eq ledger_path v) as Hr.
    destruct (read_json_async ledger_path v) as [[t|er] v1]; cbn in Hr; subst v1; [done|]. by case_decide. }
  pose proof (Hsame (en_world e)) as Hw. destruct (terminal_load ledger_path (en_world e)) as [[t|er] w1] eqn:El;
    cbn in Hw; subst w1.
  - injection E as <- <-. by rewrite El.
  - destruct (terminal_clear_run (en_world e)) as (w5 & E5 & F5). rewrite E5 in E. injection E as <- <-. by apply load_absent.
Qed.
End Told.

(** * The way back *)

(** A client is built of settings that are accepted, whatever the certificate on disk. *)
Lemma client_builds `{Host} `{!Certificates} `{!EnrollHost} identity settings w :
  trust identity = inr settings → (∀ client, build_client client = None) →
  ∃ client, (enrollment_http_client identity w).1 = inr client.
Proof.
  intros Ht Hb. unfold enrollment_http_client, mbind, EM_bind, of_sum. rewrite Ht.
  destruct (local_identity_run identity w) as (presented & El & _). unfold io, try. rewrite El, Hb. by eexists.
Qed.

Section Back.
Context `{Host} `{!SharedFs} `{!SharedPrivate} `{!Certificates} `{!EnrollHost} `{!DaemonHost} `{!PolicyApi}.
Context `{!Json AgentRuntimeState} `{!Json RenewalLedger} `{!Json AuthTerminal}.
Context (config : DaemonConfig) (identity : IdentityConfig) (endpoint agent : string).
Implicit Types c : Standing.

Hypothesis has_endpoint : ic_endpoint identity = Some endpoint.
Hypothesis has_agent : ic_agent_id identity = Some agent.
Hypothesis can_speak : ∀ w, ∃ client, (enrollment_http_client identity w).1 = inr client.
(** The gateway takes the agent back. *)
Hypothesis accepted : ∀ url client evs w, ∃ status body time,
  post_status url client true evs w = (Replied status body, time) ∧ is_success status = true.

(** Nothing is taken out of the record. *)
Definition grows c c' : Prop := sd_events c `prefix_of` sd_events c'.
#[local] Instance grows_preorder : PreOrder grows.
Proof. split; [by intros c; unfold grows|]. intros c1 c2 c3 H12 H23. unfold grows in *. by etrans. Qed.

Lemma onward_grows {A} (m : M Standing A) : respects onward m → respects grows m.
Proof. intros Hm c. destruct (Hm c) as [(evs & E & _) _ _]. by exists evs. Qed.
Lemma idle_grows {A} (m : M Standing A) : respects idle m → respects grows m.
Proof. intros Hm c. destruct (Hm c) as (E & _ & _). unfold grows. by rewrite E. Qed.
Lemma grows_happened e : respects grows (happened e).
Proof. intros c. by exists [e]. Qed.

Lemma grows_terminal_part : respects grows (terminal_part config).
Proof.
  intros c. destruct (sd_terminal c) as [state|] eqn:Et.
  - destruct (terminal_part_run config state c Et) as (b & c' & E & [[_ ->]|(_ & evs & Hev & _)]); rewrite E; cbn; [done|].
    eexists. exact Hev.
  - unfold terminal_part. by rewrite gets_then, Et.
Qed.

Lemma grows_turn : respects grows (terminal_turn config).
Proof.
  apply respects_bind; [apply _|intros c; reflexivity|]. intros terminal.
  apply respects_bind; [apply _|apply grows_happened|]. intros _.
  apply respects_bind; [apply _|apply idle_grows, clear_idle|]. intros _.
  apply respects_bind; [apply _|apply grows_terminal_part|].
  intros [|]; apply onward_grows; [apply onward_plain|apply onward_world].
Qed.

Lemma grows_turns n : respects grows (daemon_turns config n).
Proof.
  induction n as [|n IH]; [by apply respects_ret, _|].
  apply respects_bind; [apply _|apply grows_turn|]. by intros _.
Qed.

(** What matters of a turn that only waits. *)
Definition waits c c' : Prop :=
  idle c c' ∧ clock (sd_world c') = clock (sd_world c) ∧ en_config (sd_enrollee c') = en_config (sd_enrollee c).
#[local] Instance waits_preorder : PreOrder waits.
Proof.
  split; [by intros c|]. intros c1 c2 c3 (I1 & K1 & C1) (I2 & K2 & C2).
  split_and!; [by etrans|congruence..].
Qed.

Lemma clear_clock path : respects (λ w w', clock w' = clock w) (terminal_clear path).
Proof.
  intros w. unfold terminal_clear, try, fs_remove, guard_fault, mbind, M_bind.
  destruct (fs_fault OpRemove path) as [e|]; unfold act; [|destruct (files w !! path)]; cbn; by repeat case_match.
Qed.

Lemma clear_waits path : respects waits (clear_terminal_ledger_if_pending path).
Proof.
  apply respects_bind; [apply _|by intros c|]. intros [|]; cbn; [|by apply respects_ret, _].
  apply respects_bind; [apply _| |intros [u|e]; [by intros c|by apply respects_ret, _]].
  intros c. unfold on_world, zoom, try. pose proof (clear_clock path (sd_world c)) as Hk.
  by destruct (terminal_clear path (sd_world c)) as [r w].
Qed.

Lemma clear_total path c : ∃ c', clear_terminal_ledger_if_pending path c = (Ok tt, c') ∧ waits c c'.
Proof.
  pose proof (clear_waits path c) as Hw. revert Hw. unfold clear_terminal_ledger_if_pending. rewrite gets_then.
  destruct (sd_clear_pending c); [|by eexists]. cbn [negb].
  destruct (try_world_run (terminal_clear path) c) as (c1 & E & _).
  rewrite (bind_ok _ _ _ _ _ E). destruct (terminal_clear path (sd_world c)).1 as [u|e]; by eexists.
Qed.

(** The question is answered. *)
Lemma answered c : en_config (sd_enrollee c) = identity → ∃ latency c',
  report_status_to_control_plane true c = (Ok (mk_report_outcome (Some latency) None), c').
Proof.
  intros Hc. unfold report_status_to_control_plane. rewrite !gets_then, Hc, has_endpoint, has_agent, gets_then, ?Hc.
  destruct (can_speak (sd_world c)) as [client ->]. unfold instant. rewrite !gets_then.
  destruct (accepted (gateway_url endpoint "/api/v1/agent/status") client (sd_events c) (sd_world c))
    as (status & body & time & -> & Hs).
  eexists _, _. erewrite bind_ok by reflexivity. erewrite bind_ok by reflexivity. unfold outcome_of_reply.
  cbn [fst snd]. rewrite Hs. reflexivity.
Qed.

(** It says that the agent is taken back. *)
Lemma taken_back state c : en_config (sd_enrollee c) = identity → ∃ state' c',
  retry_terminal_probe state c = (Ok (state', true), c').
Proof.
  intros Hc. unfold retry_terminal_probe. destruct (answered c Hc) as (latency & c' & E).
  erewrite bind_ok by exact E. by eexists _, _.
Qed.

Lemma asked_when_due state c : sd_terminal c = Some state → en_config (sd_enrollee c) = identity →
  fetch_due (dc_retry config) (clock (sd_world c)) (sd_last_retry c) = true →
  ∃ c', terminal_part config c = (Ok true, c') ∧ Recovered ∈ drop (length (sd_events c)) (sd_events c').
Proof.
  intros Ht Hc Hd. destruct (terminal_part_run config state c Ht) as (b & c' & E & Hb).
  destruct Hb as [[-> ->]|(_ & evs & Hev & _)].
  all: revert E; unfold terminal_part, instant; rewrite gets_then, Ht, !gets_then, Hd; erewrite bind_ok by reflexivity.
  all: match goal with |- context [(retry_terminal_probe ?st ≫= ?k) ?x] =>
    destruct (taken_back st x) as (state' & c2 & E2); [exact Hc|] end.
  all: erewrite bind_ok by exact E2; erewrite bind_ok by reflexivity; cbn [fst snd].
  all: match goal with |- context [(on_world (try ?m) ≫= ?k) ?x] => destruct (try_world_run m x) as (c4 & E3 & _) end.
  all: erewrite bind_ok by exact E3.
  all: match goal with |- context [(on_world (try ?m) ≫= ?k) ?x] => destruct (try_world_run m x) as (c5 & E5 & _) end.
  all: erewrite bind_ok by exact E5.
  { discriminate. }
  intros E. assert (b = true) as -> by (injection E; done).
  exists c'. split; [exact E|]. rewrite Hev, drop_app_length. apply elem_of_app. right. by apply list_elem_of_singleton.
Qed.
Lemma recovered_grows c c1 c2 : Recovered ∈ drop (length (sd_events c)) (sd_events c1) → grows c1 c2 →
  Recovered ∈ drop (length (sd_events c)) (sd_events c2).
Proof.
  intros Hin [evs ->]. rewrite drop_app. apply elem_of_app. by left.
Qed.

Lemma recovered_later c c1 c2 : grows c c1 → Recovered ∈ drop (length (sd_events c1)) (sd_events c2) →
  grows c1 c2 → Recovered ∈ drop (length (sd_events c)) (sd_events c2).
Proof.
  intros [evs E1] Hin [evs' E2]. rewrite E2, E1 in *. rewrite drop_app_length in Hin.
  rewrite <- (assoc_L (++)), drop_app_length. apply elem_of_app. by right.
Qed.

(** A turn in the terminal state: it waits, or the agent is taken back. *)
Lemma turn_due state c : sd_terminal c = Some state → en_config (sd_enrollee c) = identity →
  fetch_due (dc_retry config) (clock (sd_world c)) (sd_last_retry c) = true →
  Recovered ∈ drop (length (sd_events c)) (sd_events (terminal_turn config c).2).
Proof.
  intros Ht Hc Hd. unfold terminal_turn. rewrite gets_then. erewrite bind_ok by reflexivity.
  match goal with |- context [(clear_terminal_ledger_if_pending ?p ≫= _) ?x] =>
    destruct (clear_total p x) as (c2 & E2 & (Iev & It & Ir) & K2 & C2); set (c1 := x) in * end.
  erewrite bind_ok by exact E2.
  assert (Hc2 : en_config (sd_enrollee c2) = identity) by (rewrite C2; exact Hc).
  assert (Hd2 : fetch_due (dc_retry config) (clock (sd_world c2)) (sd_last_retry c2) = true) by (rewrite K2, Ir; exact Hd).
  assert (Ht2 : sd_terminal c2 = Some state) by (rewrite It; exact Ht).
  destruct (asked_when_due _ _ Ht2 Hc2 Hd2) as (c3 & E3 & Hin).
  assert (Hg : grows c c2) by (unfold grows; rewrite Iev; by exists [TurnBegan (is_some (sd_terminal c))]).
  pose proof (grows_terminal_part c2) as Hg2. rewrite E3 in Hg2. cbn [snd] in Hg2.
  rewrite (bind_ok _ _ _ _ _ E3). eapply (recovered_grows c c3); [by eapply recovered_later|].
  apply (onward_grows _ (onward_plain config)).
Qed.

Lemma turn_waits state c : sd_terminal c = Some state → en_config (sd_enrollee c) = identity →
  fetch_due (dc_retry config) (clock (sd_world c)) (sd_last_retry c) = false →
  ∃ c', terminal_turn config c = (Ok tt, c') ∧ sd_terminal c' = Some state ∧ sd_last_retry c' = sd_last_retry c ∧
    en_config (sd_enrollee c') = identity ∧ clock (sd_world c') = (clock (sd_world c) + TICK_INTERVAL_MS)%Z ∧ grows c c'.
Proof.
  intros Ht Hc Hd. unfold terminal_turn. rewrite gets_then. erewrite bind_ok by reflexivity.
  match goal with |- context [(clear_terminal_ledger_if_pending ?p ≫= _) ?x] =>
    destruct (clear_total p x) as (c2 & E2 & (Iev & It & Ir) & K2 & C2); set (c1 := x) in * end.
  erewrite bind_ok by exact E2.
  assert (E3 : terminal_part config c2 = (Ok false, c2)).
  { unfold terminal_part, instant. rewrite gets_then, It. cbn [sd_terminal]. unfold c1 at 1. cbn [sd_terminal].
    rewrite Ht, !gets_then, K2, Ir. unfold c1. cbn [sd_last_retry]. unfold sd_world in *. cbn [sd_enrollee]. by rewrite Hd. }
  erewrite bind_ok by exact E3. eexists. split; [reflexivity|]. cbn.
  split_and!; [by rewrite It|by rewrite Ir|by rewrite C2|unfold sd_world in *; by rewrite K2|].
  unfold grows. cbn. rewrite Iev. by exists [TurnBegan (is_some (sd_terminal c))].
Qed.

Lemma first_turn_due n state c : sd_terminal c = Some state → en_config (sd_enrollee c) = identity →
  fetch_due (dc_retry config) (clock (sd_world c)) (sd_last_retry c) = true →
  Recovered ∈ drop (length (sd_events c)) (sd_events (daemon_turns config (S n) c).2).
Proof.
  intros Ht Hc Hd. eapply recovered_grows; [by eapply turn_due|].
  cbn [daemon_turns]. unfold mbind, M_bind. destruct (terminal_turn config c) as [[[]|e] c1]; [apply grows_turns|].
  unfold grows. done.
Qed.

Lemma taken_back_in_time (k : nat) c state : sd_terminal c = Some state → en_config (sd_enrollee c) = identity →
  (∀ t, sd_last_retry c = Some t → t + dc_retry config ≤ clock (sd_world c) + Z.of_nat k * TICK_INTERVAL_MS)%Z →
  Recovered ∈ drop (length (sd_events c)) (sd_events (daemon_turns config (S k) c).2).
Proof.
  revert c state. induction k as [|k IH]; intros c state Ht Hc Hk;
    (destruct (fetch_due (dc_retry config) (clock (sd_world c)) (sd_last_retry c)) eqn:Hd; [by eapply first_turn_due|]).
  - unfold fetch_due in Hd. destruct (sd_last_retry c) as [t|]; [|done].
    specialize (Hk t eq_refl). apply negb_false_iff, Z.ltb_lt in Hd. lia.
  - destruct (turn_waits _ _ Ht Hc Hd) as (c1 & E & T1 & R1 & C1 & K1 & G1).
    change (daemon_turns config (S (S k)) c) with ((terminal_turn config;; daemon_turns config (S k)) c).
    rewrite (bind_ok _ _ _ _ _ E). eapply recovered_later; [exact G1| |apply grows_turns].
    eapply IH; [exact T1|exact C1|]. intros t. rewrite R1, K1. intros Hl. specialize (Hk t Hl). lia.
Qed.
End Back.

(** * What it promises *)

Section Claims.
Context `{Host} `{!SharedFs} `{!SharedPrivate} `{!Certificates} `{!EnrollHost} `{!DaemonHost} `{!PolicyApi}.
Context `{!Json AgentRuntimeState} `{!Json RenewalLedger} `{!Json AuthTerminal}.

(** C12. Whatever the host, the store and the gateway do: from the moment a turn begins in the terminal
    state until the gateway takes the agent back, over turns and failures alike, nothing is sent but the
    question whether it does: no report of the usual kind, no renewal, none of the rest of a turn.  And
    the question is asked at intervals of [terminal_retry_interval] at least. *)
Theorem terminal_is_silent config e n r c : (0 ≤ dc_retry config)%Z →
  daemon_turns config n (standing_start config e) = (r, c) →
  quiet (sd_events c) ∧ spaced (dc_retry config) (sd_events c).
Proof.
  intros Hr E. assert (Hs : silent config (standing_start config e)).
  { assert (Hev : sd_events (standing_start config e) = []) by (unfold standing_start; by destruct (load_terminal_ledger _ _)).
    split; rewrite Hev; [done|by intros [|] ? ?|intros [|] ? ?; [constructor|done]|split; [constructor|by intros ? ?%elem_of_nil]]. }
  destruct (silent_turns config Hr _ _ _ _ Hs E) as [_ Hq Hsp _]. done.
Qed.

(** The terminal state ends when the gateway says so.  An agent with an endpoint, an identity and a
    client it can build, whose gateway answers the question with a success, is taken back within the
    retry interval and one turn more, wherever in the interval it stands. *)
Theorem terminal_recovers config endpoint agent settings state (k : nat) c :
  ic_endpoint (en_config (sd_enrollee c)) = Some endpoint → ic_agent_id (en_config (sd_enrollee c)) = Some agent →
  trust (en_config (sd_enrollee c)) = inr settings → (∀ client, build_client client = None) →
  (∀ url client evs w, ∃ status body time,
    post_status url client true evs w = (Replied status body, time) ∧ is_success status = true) →
  sd_terminal c = Some state →
  (∀ t, sd_last_retry c = Some t → t ≤ clock (sd_world c))%Z →
  (dc_retry config ≤ Z.of_nat k * TICK_INTERVAL_MS)%Z →
  ∃ evs, sd_events (daemon_turns config (S k) c).2 = (sd_events c ++ evs)%list ∧ Recovered ∈ evs.
Proof.
  intros He Ha Htr Hb Hacc Ht Hlast Hk. destruct (grows_turns config (S k) c) as [evs Hev]. exists evs. split; [exact Hev|].
  pose proof (taken_back_in_time config _ _ _ He Ha (λ w, client_builds _ _ w Htr Hb) Hacc k c state Ht eq_refl) as Hin.
  rewrite Hev, drop_app_length in Hin. apply Hin. intros t Hl. specialize (Hlast t Hl). lia.
Qed.

(** The ledger and the memory say the same.  On a host whose calls succeed, after any number of
    turns, one that the rest of the daemon fails in included, the ledger on disk loads as the terminal
    state in memory, no clearing is owed, and an agent that is started again resumes in that state. *)
Theorem ledger_tells_terminal `{!SharedFsLaws} `{!SharedPrivateLaws} `{!EnrollHostLaws} config e n r c :
  fault_free →
  (∀ evs u w, files (rest_of_turn evs u w).2 !! terminal_path_for (dc_state_dir config) =
    files w !! terminal_path_for (dc_state_dir config)) →
  runtime_path_for (dc_state_dir config) ≠ terminal_path_for (dc_state_dir config) →
  daemon_turns config n (standing_start config e) = (r, c) →
  (terminal_load (terminal_path_for (dc_state_dir config)) (sd_world c)).1 = Ok (sd_terminal c) ∧
  sd_clear_pending c = false ∧
  sd_terminal (standing_start config (sd_enrollee c)) = sd_terminal c.
Proof.
  intros Hff Hrest Hapart E. pose proof (turns_told config Hff Hrest Hapart n _ (start_told config Hff e)) as Ht.
  rewrite E in Ht. cbn [snd] in Ht. destruct Ht as [Hl Hp]. split_and!; [exact Hl|exact Hp|].
  unfold standing_start, load_terminal_ledger, try, mbind, M_bind. unfold ledger_path, sd_world in Hl.
  revert Hl. destruct (terminal_load (terminal_path_for (dc_state_dir config)) (en_world (sd_enrollee c))) as [res w].
  cbn [fst]. by intros ->.
Qed.
End Claims.

Module ConcreteTerminal.
Import Concrete ConcretePolicies ConcreteIdentity.

#[export] Instance terminal_eq_dec : EqDecision AuthTerminal.
Proof. solve_decision. Defined.
#[export] Instance terminal_countable : Countable AuthTerminal.
Proof.
  refine (inj_countable' (λ t, (at_code t, at_source t, at_detected_at t, at_attempts t))
    (λ '(c, s, d, n), mk_terminal c s d n) _). by intros [].
Defined.
#[export] Instance terminal_json : Json AuthTerminal := toy_json.

(** The gateway rejects the second report, takes the agent back at the second question. *)
Definition is_report (e : DaemonEvent) : bool := match e with ReportSent _ _ _ => true | _ => false end.
#[export] Instance toy_daemon : DaemonHost := {|
  post_status _ _ probe evs _ :=
    (match length (List.filter is_report evs) with
     | 1 | 2 => Replied 401 (inr "agent identity rejected: certificate_revoked")
     | _ => Replied 200 (inr "")
     end, 5%N);
  rest_of_turn _ u w := (Ok u, w);
|}.

Definition daemon : DaemonConfig := mk_daemon_config "state" 6000.
Definition first : Standing := standing_start daemon enrolled.
Definition after (n : nat) : Standing := (daemon_turns daemon n first).2.

Definition rejected : Standing := after 4.

Example toy_rejected :
  at_code <$> sd_terminal rejected = Some "certificate_revoked" ∧
  sd_last_retry rejected = Some 9225%Z ∧
  List.filter is_report (sd_events (after 6)) =
    [ReportSent 3215 false (Replied 200 (inr ""));
     ReportSent 6220 false (Replied 401 (inr "agent identity rejected: certificate_revoked"));
     ReportSent 9225 true (Replied 401 (inr "agent identity rejected: certificate_revoked"));
     ReportSent 15230 true (Replied 200 (inr ""));
     ReportSent 15235 false (Replied 200 (inr ""))].
Proof. vm_compute. split_and!; reflexivity. Qed.

Lemma terminal_is_silent_witness :
  quiet (sd_events (after 6)) ∧ spaced 6000 (sd_events (after 6)) ∧
  probes (sd_events rejected) = [9225]%Z ∧ asking (sd_events rejected) = true.
Proof.
  destruct (daemon_turns daemon 6 first) as [r c] eqn:E.
  destruct (terminal_is_silent daemon enrolled 6 r c) as [Hq Hs]; [done|exact E|].
  assert (after 6 = c) as -> by (unfold after; by rewrite E).
  split_and!; [exact Hq|exact Hs|vm_compute; reflexivity..].
Defined.

(** The gateway of the second question, from the start. *)
Definition forgiving : DaemonHost := {|
  post_status _ _ probe _ _ := (if probe then Replied 204 (inr "") else Replied 401 (inr "certificate_revoked"), 5%N);
  rest_of_turn _ u w := (Ok u, w);
|}.

Lemma terminal_recovers_witness :
  sd_terminal (daemon_turns (H5 := forgiving) daemon 1 rejected).2 = sd_terminal rejected ∧
  ∃ evs, sd_events (daemon_turns (H5 := forgiving) daemon 3 rejected).2 = (sd_events rejected ++ evs)%list ∧
    Recovered ∈ evs.
Proof.
  split; [vm_compute; reflexivity|].
  destruct (sd_terminal rejected) as [state|] eqn:Et; [|vm_compute in Et; discriminate].
  eapply (terminal_recovers (H5 := forgiving) daemon "https://gw/" "agent-7" (None, false) state 2 rejected).
  - vm_compute. reflexivity.
  - vm_compute. reflexivity.
  - vm_compute. reflexivity.
  - intros client. reflexivity.
  - intros url client evs w. exists 204%Z, (inr ""), 5%N. split; reflexivity.
  - exact Et.
  - intros t Hl. vm_compute in Hl. injection Hl as <-. vm_compute. discriminate.
  - vm_compute. discriminate.
Defined.

Lemma ledger_tells_terminal_witness :
  (terminal_load (terminal_path_for "state") (sd_world rejected)).1 = Ok (sd_terminal rejected) ∧
  sd_terminal (standing_start daemon (sd_enrollee rejected)) = sd_terminal rejected ∧
  is_some (sd_terminal rejected) = true.
Proof.
  destruct (daemon_turns daemon 4 first) as [r c] eqn:E.
  destruct (ledger_tells_terminal daemon enrolled 4 r c) as (Hl & _ & Hs);
    [exact toy_fault_free|done|discriminate|exact E|].
  assert (rejected = c) as Hc by (unfold rejected, after; by rewrite E).
  split_and!; [by rewrite Hc|by rewrite Hc|vm_compute; reflexivity].
Defined.
End ConcreteTerminal.
