(* ===== verification/Discovery.v ===== *)
(** Discovery as the daemon schedules it: the policy table of the gateway (discovery/policy.rs), the
    cache on disk (discovery/cache.rs) and the refresh that puts a snapshot together from the probes
    (discovery/runtime.rs), with the two calls of runtime/daemon.rs that use them.  The probes
    themselves look at the platform and are parameters. *)
From stdpp Require Import pretty.
From S2P Require Import Policies Prelude Errors Text Host Toy Fmt Throttle BTree.

(** * Data *)

(** The types of wist_contracts, with the fields this agent fills in or reads. *)
Record DiscoveryAspectPolicy := mk_aspect_policy {
  ap_aspect : string;
  ap_default_interval_seconds : Z;
  ap_min_interval_seconds : Z;
  ap_max_interval_seconds : Z;
}.
Record DiscoveryAspectPolicySet := mk_policy_set {
  ps_policy_version : Z;
  ps_policies : list DiscoveryAspectPolicy;
  ps_probe_paths : list string;
}.
Record DiscoveryOrigin := mk_origin {
  og_origin_id : string; og_probe : string; og_source : string; og_observed_at : string;
}.
Record DiscoveredResource := mk_resource {
  dr_resource_id : string;
  dr_kind : string;
  dr_origin_idx : nat;
  dr_attributes : btree string;
  dr_discovered_at : string;
  dr_last_seen_at : string;
  dr_health : string;
  dr_source : string;
}.
Record DiscoveredTarget := mk_target {
  dt_target_id : string;
  dt_kind : string;
  dt_origin_idx : nat;
  dt_resource_ref : string;
  dt_execution_hints : btree string;
  dt_state : string;
}.
Record DiscoverySnapshot := mk_snapshot {
  sn_schema_version : string;
  sn_snapshot_id : string;
  sn_revision : Z;
  sn_generated_at : string;
  sn_origins : list DiscoveryOrigin;
  sn_resources : list DiscoveredResource;
  sn_targets : list DiscoveredTarget;
}.
Record DiscoveryCacheMeta := mk_meta {
  me_schema_version : string;
  me_snapshot_id : string;
  me_revision : Z;
  me_generated_at : string;
  me_origins : list DiscoveryOrigin;
  me_last_success_at : option string;
  me_last_error : option string;
}.

(** wist_contracts and orion_error: the schema version of the two constructors, the look-up in a
    policy table, and the text and the context of an error. *)
Inductive DiscoveryReason := ProbeFailed | NotImplemented | CacheIo.
Record DiscoveryError := mk_discovery_error {
  de_reason : DiscoveryReason;
  de_detail : option string;
  de_source : string;
}.
Class DiscoveryContracts := {
  DISCOVERY_SCHEMA_VERSION : string;
  for_aspect : DiscoveryAspectPolicySet → string → option DiscoveryAspectPolicy;
  display_discovery_error : DiscoveryError → string;
  context_str : DiscoveryError → string → option string;
}.
(** A table is looked up by the name of the aspect. *)
Class DiscoveryContractsLaws `{DiscoveryContracts} : Prop := {
  for_aspect_some : ∀ set aspect policy, for_aspect set aspect = Some policy →
    policy ∈ ps_policies set ∧ ap_aspect policy = aspect;
  for_aspect_none : ∀ set aspect, for_aspect set aspect = None →
    ∀ policy, policy ∈ ps_policies set → ap_aspect policy ≠ aspect;
}.

Inductive DiscoverySourceKind := LocalRuntime | Static | SourceFile | K8s.

Record ProbeOutput := mk_probe_output {
  po_probe : string;
  po_source : DiscoverySourceKind;
  po_refreshed_at : string;
  po_origin : DiscoveryOrigin;
  po_resources : list DiscoveredResource;
  po_targets : list DiscoveredTarget;
}.

(** [DiscoveryProbe]; times are in milliseconds.  What a probe finds is a function of the host. *)
Record DiscoveryProbe `{Os} := mk_probe {
  pb_name : string;
  pb_refresh_interval : Z;
  pb_refresh : World → DiscoveryError + ProbeOutput;
}.
Arguments mk_probe {_} _ _ _.

(** * discovery/policy.rs *)

Record IntervalAdjustment := mk_adjustment {
  ia_aspect : string;
  ia_requested_seconds : Z;
  ia_applied_seconds : option Z;
  ia_reason : string;
}.

Inductive IntervalOutcome :=
| AsIs (seconds : Z)
| Clamped (requested applied : Z) (reason : string)
| Unusable (reason : string).

Definition evaluate (policy : DiscoveryAspectPolicy) : IntervalOutcome :=
  let lower := Z.max (ap_min_interval_seconds policy) 1 in
  let upper := ap_max_interval_seconds policy in
  if Z.ltb upper lower then Unusable "max_interval_seconds below the usable minimum"
  else
    let requested := ap_default_interval_seconds policy in
    if Z.leb requested 0 then Clamped requested lower "non-positive interval"
    else if Z.ltb requested lower then Clamped requested lower "below min_interval_seconds"
    else if Z.ltb upper requested then Clamped requested upper "above max_interval_seconds"
    else AsIs requested.

Record AppliedDiscoveryPolicy := mk_applied_policy {
  ad_set : DiscoveryAspectPolicySet;
  ad_adjustments : list IntervalAdjustment;
}.

(** [AppliedDiscoveryPolicy::new] and what it makes of one policy. *)
Definition adjustment_of (policy : DiscoveryAspectPolicy) : option IntervalAdjustment :=
  match evaluate policy with
  | AsIs _ => None
  | Clamped requested applied reason => Some (mk_adjustment (ap_aspect policy) requested (Some applied) reason)
  | Unusable reason =>
      Some (mk_adjustment (ap_aspect policy) (ap_default_interval_seconds policy) None reason)
  end.
Definition applied_policy_new (set : DiscoveryAspectPolicySet) : AppliedDiscoveryPolicy :=
  mk_applied_policy set (omap adjustment_of (ps_policies set)).

(** In milliseconds. *)
Definition interval_for `{DiscoveryContracts} (p : AppliedDiscoveryPolicy) (aspect : string) : option Z :=
  policy ← for_aspect (ad_set p) aspect;
  match evaluate policy with
  | AsIs seconds | Clamped _ seconds _ => Some (seconds * 1000)%Z
  | Unusable _ => None
  end.

Definition SHOWN : nat := 3.
Definition adjustment_text (a : IntervalAdjustment) : string :=
  match ia_applied_seconds a with
  | Some applied =>
      ia_aspect a +:+ ":" +:+ pretty (ia_requested_seconds a) +:+ "→" +:+ pretty applied +:+
        "(" +:+ ia_reason a +:+ ")"
  | None => ia_aspect a +:+ ":不可用(" +:+ ia_reason a +:+ ")"
  end.
Definition summary_parts (p : AppliedDiscoveryPolicy) : list string :=
  let parts := adjustment_text <$> take SHOWN (ad_adjustments p) in
  let hidden := length (ad_adjustments p) - length parts in
  if Nat.ltb 0 hidden then (parts ++ ["+" +:+ pretty (N.of_nat hidden)])%list else parts.
Definition adjustments_summary (p : AppliedDiscoveryPolicy) : string := Text.join ", " (summary_parts p).

(** * discovery/cache.rs *)

Definition DISCOVERY_STATE_DIR : string := "discovery".
Definition DISCOVERY_RESOURCES_FILE : string := "resources.json".
Definition DISCOVERY_TARGETS_FILE : string := "targets.json".
Definition DISCOVERY_META_FILE : string := "meta.json".

Record DiscoveryCachePaths := mk_cache_paths {
  cp_root : string; cp_resources : string; cp_targets : string; cp_meta : string;
}.
Definition under_state_dir (state_dir : string) : DiscoveryCachePaths :=
  let root := path_join state_dir DISCOVERY_STATE_DIR in
  mk_cache_paths root (path_join root DISCOVERY_RESOURCES_FILE) (path_join root DISCOVERY_TARGETS_FILE)
    (path_join root DISCOVERY_META_FILE).

Record DiscoveryCacheLoadFailure := mk_load_failure { lf_phase : string; lf_detail : string }.
Definition load_failed (phase msg : string) : DiscoveryCacheLoadFailure :=
  mk_load_failure phase ("discovery cache load failed: " +:+ msg).

Definition meta_new `{DiscoveryContracts} (snapshot : DiscoverySnapshot) (last_success_at last_error : option string) :
    DiscoveryCacheMeta :=
  mk_meta DISCOVERY_SCHEMA_VERSION (sn_snapshot_id snapshot) (sn_revision snapshot) (sn_generated_at snapshot)
    (sn_origins snapshot) last_success_at last_error.

Section Cache.
Context `{Host} {BE : Backend} `{!DiscoveryContracts}.
Context `{!Json DiscoveryCacheMeta} `{!Json (list DiscoveredResource)} `{!Json (list DiscoveredTarget)}.

Definition cache_probe (phase path : string) : EM DiscoveryCacheLoadFailure World bool :=
  io (load_failed phase) (be_probe path).
Definition cache_read {A} `{Json A} (phase path : string) : EM DiscoveryCacheLoadFailure World A :=
  io (load_failed phase) (be_read_json path).

(** The two results of a load, of which at most one is there. *)
Definition load_result {A} (m : EM DiscoveryCacheLoadFailure World (option A)) :
    M World (option A * option DiscoveryCacheLoadFailure) := λ w,
  match m w with
  | (inr a, w) => (Ok (a, None), w)
  | (inl failure, w) => (Ok (None, Some failure), w)
  end.

Definition load_snapshot (paths : DiscoveryCachePaths) :
    M World (option DiscoverySnapshot * option DiscoveryCacheLoadFailure) :=
  load_result (
    meta_exists ← cache_probe "cache_load_meta" (cp_meta paths);
    resources_exists ← cache_probe "cache_load_resources" (cp_resources paths);
    targets_exists ← cache_probe "cache_load_targets" (cp_targets paths);
    if negb meta_exists || negb resources_exists || negb targets_exists then mret None
    else
      meta ← cache_read "cache_load_meta" (cp_meta paths);
      resources ← cache_read "cache_load_resources" (cp_resources paths);
      targets ← cache_read "cache_load_targets" (cp_targets paths);
      mret (Some (mk_snapshot (me_schema_version meta) (me_snapshot_id meta) (me_revision meta)
                    (me_generated_at meta) (me_origins meta) resources targets))).

Definition load_meta (paths : DiscoveryCachePaths) :
    M World (option DiscoveryCacheMeta * option DiscoveryCacheLoadFailure) :=
  load_result (
    there ← cache_probe "cache_load_meta" (cp_meta paths);
    if there : bool then
      meta ← cache_read "cache_load_meta" (cp_meta paths);
      mret (Some meta)
    else mret None).

(** [.source_err(DiscoveryReason::CacheIo, detail)] *)
Definition cache_write {A} `{Json A} (detail path : string) (a : A) : EM DiscoveryError World unit :=
  io (mk_discovery_error CacheIo (Some detail)) (be_write_json path a).

Definition store_snapshot (paths : DiscoveryCachePaths) (snapshot : DiscoverySnapshot)
    (last_success_at last_error : option string) : EM DiscoveryError World unit :=
  let meta := meta_new snapshot last_success_at last_error in
  cache_write "write discovery resources" (cp_resources paths) (sn_resources snapshot);;
  cache_write "write discovery targets" (cp_targets paths) (sn_targets snapshot);;
  cache_write "write discovery meta" (cp_meta paths) meta.
End Cache.

(** * discovery/runtime.rs *)

Record DiscoveryRuntime `{Os} := mk_runtime {
  rt_probes : list DiscoveryProbe;
  rt_latest_snapshot : option DiscoverySnapshot;
  rt_last_outputs : list (option ProbeOutput);
  rt_last_run_at : list (option Z);
  rt_policy : option AppliedDiscoveryPolicy;
  rt_last_policy_fetch_at : option Z;
}.
Arguments mk_runtime {_} _ _ _ _ _ _.

Record SuccessfulProbeRefresh := mk_successful {
  sp_probe : string; sp_source : DiscoverySourceKind; sp_resource_count : nat; sp_target_count : nat;
}.
Record DiscoveryStoreFailure := mk_store_failure { sf_phase : string; sf_detail : string }.
Record DiscoveryRefreshResult := mk_refresh_result {
  rr_refreshed_snapshot : DiscoverySnapshot;
  rr_persisted_snapshot : DiscoverySnapshot;
  rr_errors : list DiscoveryError;
  rr_last_success_at : option string;
  rr_last_error : option string;
  rr_used_cached_snapshot : bool;
  rr_had_successful_refresh : bool;
  rr_successful_probes : list SuccessfulProbeRefresh;
  rr_store_failure : option DiscoveryStoreFailure;
}.

(** [DiscoverySnapshot::new] *)
Definition snapshot_new `{DiscoveryContracts} (snapshot_id : string) (revision : Z) (generated_at : string)
    (origins : list DiscoveryOrigin) (resources : list DiscoveredResource) (targets : list DiscoveredTarget) :
    DiscoverySnapshot :=
  mk_snapshot DISCOVERY_SCHEMA_VERSION snapshot_id revision generated_at origins resources targets.

Definition resource_with_origin (idx : nat) (r : DiscoveredResource) : DiscoveredResource :=
  mk_resource (dr_resource_id r) (dr_kind r) idx (dr_attributes r) (dr_discovered_at r) (dr_last_seen_at r)
    (dr_health r) (dr_source r).
Definition target_with_origin (idx : nat) (t : DiscoveredTarget) : DiscoveredTarget :=
  mk_target (dt_target_id t) (dt_kind t) idx (dt_resource_ref t) (dt_execution_hints t) (dt_state t).

(** The local variables of [refresh_inner], and which probes it asked so far. *)
Record Round `{Os} := mk_round {
  rd_runtime : DiscoveryRuntime;
  rd_resources : list DiscoveredResource;
  rd_targets : list DiscoveredTarget;
  rd_origins : list DiscoveryOrigin;
  rd_errors : list DiscoveryError;
  rd_successful : list SuccessfulProbeRefresh;
  rd_asked : list nat;
}.
Arguments mk_round {_} _ _ _ _ _ _ _.

Section Refresh.
Context `{Host} {BE : Backend} `{!DiscoveryContracts}.
Context `{!Json DiscoveryCacheMeta} `{!Json (list DiscoveredResource)} `{!Json (list DiscoveredTarget)}.

Definition runtime_new (probes : list DiscoveryProbe) : DiscoveryRuntime :=
  mk_runtime probes None (replicate (length probes) None) (replicate (length probes) None) None None.

Definition policy_version (rt : DiscoveryRuntime) : option Z := (λ p, ps_policy_version (ad_set p)) <$> rt_policy rt.
Definition probe_paths (rt : DiscoveryRuntime) : list string :=
  default [] ((λ p, ps_probe_paths (ad_set p)) <$> rt_policy rt).
Definition policy_adjustments_summary (rt : DiscoveryRuntime) : string :=
  default "" (adjustments_summary <$> rt_policy rt).

Definition apply_discovery_policy (set : DiscoveryAspectPolicySet) (rt : DiscoveryRuntime) : bool * DiscoveryRuntime :=
  (match rt_policy rt with
   | Some current => negb (Z.eqb (ps_policy_version (ad_set current)) (ps_policy_version set))
   | None => true
   end,
   mk_runtime (rt_probes rt) (rt_latest_snapshot rt) (rt_last_outputs rt) (rt_last_run_at rt)
     (Some (applied_policy_new set)) (rt_last_policy_fetch_at rt)).

(** [Instant::duration_since], which saturates. *)
Definition elapsed (now last : Z) : Z := Z.max 0 (now - last).
Definition policy_fetch_due (rt : DiscoveryRuntime) (now min_interval : Z) : bool :=
  match rt_last_policy_fetch_at rt with
  | None => true
  | Some last => Z.leb min_interval (elapsed now last)
  end.
Definition record_policy_fetch_attempt (now : Z) (rt : DiscoveryRuntime) : DiscoveryRuntime :=
  mk_runtime (rt_probes rt) (rt_latest_snapshot rt) (rt_last_outputs rt) (rt_last_run_at rt) (rt_policy rt) (Some now).

Definition set_latest_snapshot (snapshot : option DiscoverySnapshot) (rt : DiscoveryRuntime) : DiscoveryRuntime :=
  mk_runtime (rt_probes rt) snapshot (rt_last_outputs rt) (rt_last_run_at rt) (rt_policy rt)
    (rt_last_policy_fetch_at rt).

(** [self.last_outputs[index]] and [self.last_run_at[index]]; both have a slot for every probe. *)
Definition last_output (rt : DiscoveryRuntime) (index : nat) : option ProbeOutput :=
  default None (rt_last_outputs rt !! index).
Definition last_run (rt : DiscoveryRuntime) (index : nat) : option Z := default None (rt_last_run_at rt !! index).
Definition set_last_output (index : nat) (output : ProbeOutput) (rt : DiscoveryRuntime) : DiscoveryRuntime :=
  mk_runtime (rt_probes rt) (rt_latest_snapshot rt) (<[index := Some output]> (rt_last_outputs rt))
    (rt_last_run_at rt) (rt_policy rt) (rt_last_policy_fetch_at rt).
Definition set_last_run (index : nat) (at_ : option Z) (rt : DiscoveryRuntime) : DiscoveryRuntime :=
  mk_runtime (rt_probes rt) (rt_latest_snapshot rt) (rt_last_outputs rt) (<[index := at_]> (rt_last_run_at rt))
    (rt_policy rt) (rt_last_policy_fetch_at rt).

(** The interval of a probe: the table's, or its own. *)
Definition probe_interval (rt : DiscoveryRuntime) (probe : DiscoveryProbe) : Z :=
  default (pb_refresh_interval probe) (rt_policy rt ≫= λ policy, interval_for policy (pb_name probe)).
Definition probe_due (rt : DiscoveryRuntime) (due_at : option Z) (index : nat) (probe : DiscoveryProbe) : bool :=
  match due_at with
  | None => true
  | Some instant =>
      match last_run rt index with
      | None => true
      | Some last => Z.leb (probe_interval rt probe) (elapsed instant last)
      end
  end.

(** One probe: what the runtime keeps, whether the probe was asked, the error put aside, and the output. *)
Definition ask_probe (due_at : option Z) (w : World) (index : nat) (probe : DiscoveryProbe) (rt : DiscoveryRuntime) :
    DiscoveryRuntime * bool * option DiscoveryError * (DiscoveryError + ProbeOutput) :=
  if probe_due rt due_at index probe then
    let rt := set_last_run index (Some (default (clock w) due_at)) rt in
    match pb_refresh probe w with
    | inr output => (set_last_output index output rt, true, None, inr output)
    | inl err =>
        match due_at, last_output rt index with
        | None, Some cached => (rt, true, Some err, inr cached)
        | _, _ => (rt, true, None, inl err)
        end
    end
  else
    match last_output rt index with
    | Some cached => (rt, false, None, inr cached)
    | None =>
        match pb_refresh probe w with
        | inr output => (set_last_run index due_at (set_last_output index output rt), true, None, inr output)
        | inl err => (rt, true, None, inl err)
        end
    end.

Definition refresh_probe (due_at : option Z) (w : World) (index : nat) (probe : DiscoveryProbe) (s : Round) : Round :=
  let '(rt, asked, aside, output) := ask_probe due_at w index probe (rd_runtime s) in
  let errors := (rd_errors s ++ option_list aside)%list in
  let asked := if asked : bool then (rd_asked s ++ [index])%list else rd_asked s in
  match output with
  | inr output =>
      let origin_idx := length (rd_origins s) in
      mk_round rt (rd_resources s ++ (resource_with_origin origin_idx <$> po_resources output))%list
        (rd_targets s ++ (target_with_origin origin_idx <$> po_targets output))%list
        (rd_origins s ++ [po_origin output])%list errors
        (if is_some aside then rd_successful s
         else rd_successful s ++ [mk_successful (po_probe output) (po_source output)
                (length (po_resources output)) (length (po_targets output))])%list
        asked
  | inl err =>
      mk_round rt (rd_resources s) (rd_targets s) (rd_origins s) (errors ++ [err])%list (rd_successful s) asked
  end.

Fixpoint refresh_probes (due_at : option Z) (w : World) (index : nat) (probes : list DiscoveryProbe) (s : Round) : Round :=
  match probes with
  | [] => s
  | probe :: probes => refresh_probes due_at w (S index) probes (refresh_probe due_at w index probe s)
  end.

Definition error_text (err : DiscoveryError) : string := default (display_discovery_error err) (de_detail err).

Definition compose_snapshot (w : World) (s : Round) : DiscoveryRefreshResult * DiscoveryRuntime :=
  let rt := rd_runtime s in
  let previous := rt_latest_snapshot rt in
  let revision := match previous with Some snapshot => i64_add (sn_revision snapshot) 1 | None => 1%Z end in
  let generated_at := rfc3339 (clock w) in
  let snapshot_id := "discovery:" +:+ pretty revision +:+ ":" +:+ generated_at in
  let refreshed := snapshot_new snapshot_id revision generated_at (rd_origins s) (rd_resources s) (rd_targets s) in
  let has_successful :=
    negb (match rd_resources s with [] => true | _ => false end) ||
    negb (match rd_targets s with [] => true | _ => false end) ||
    Nat.ltb (length (rd_errors s)) (length (rt_probes rt)) in
  let persisted := if has_successful then refreshed else default refreshed previous in
  (mk_refresh_result refreshed persisted (rd_errors s)
     (if has_successful then Some generated_at else sn_generated_at <$> previous)
     (error_text <$> head (rd_errors s))
     (negb has_successful && is_some previous) has_successful (rd_successful s) None,
   set_latest_snapshot (Some persisted) rt).

Definition round_start (rt : DiscoveryRuntime) : Round := mk_round rt [] [] [] [] [] [].
Definition refresh_inner (due_at : option Z) (w : World) (rt : DiscoveryRuntime) :
    DiscoveryRefreshResult * DiscoveryRuntime :=
  compose_snapshot w (refresh_probes due_at w 0 (rt_probes rt) (round_start rt)).
Definition refresh_all (w : World) (rt : DiscoveryRuntime) : DiscoveryRefreshResult * DiscoveryRuntime :=
  refresh_inner None w rt.
Definition refresh_due (now : Z) (w : World) (rt : DiscoveryRuntime) : DiscoveryRefreshResult * DiscoveryRuntime :=
  refresh_inner (Some now) w rt.

(** ** On the host *)

Record Discoverer := mk_discoverer { dv_world : World; dv_runtime : DiscoveryRuntime }.

Definition discover_host {A} (m : M World A) : M Discoverer A :=
  zoom dv_world (λ w s, mk_discoverer w (dv_runtime s)) m.
Definition discover_runtime {A} (f : World → DiscoveryRuntime → A * DiscoveryRuntime) : M Discoverer A := λ s,
  let '(a, rt) := f (dv_world s) (dv_runtime s) in (Ok a, mk_discoverer (dv_world s) rt).

Definition load_from_state_dir (state_dir : string) :
    M Discoverer (option DiscoverySnapshot * option DiscoveryCacheLoadFailure) :=
  loaded ← discover_host (load_snapshot (under_state_dir state_dir));
  match loaded.1 with
  | Some snapshot => discover_runtime (λ _ rt, (loaded, set_latest_snapshot (Some snapshot) rt))
  | None => mret loaded
  end.

Definition record_store_error (err : DiscoveryError) (r : DiscoveryRefreshResult) : DiscoveryRefreshResult :=
  let detail := "discovery cache store failed: " +:+ display_discovery_error err in
  mk_refresh_result (rr_refreshed_snapshot r) (rr_persisted_snapshot r) (rr_errors r) (rr_last_success_at r)
    (Some detail) (rr_used_cached_snapshot r) (rr_had_successful_refresh r) (rr_successful_probes r)
    (Some (mk_store_failure "cache_store" detail)).

(** [refresh_and_store] and [refresh_due_and_store_async], which differ in the refresh. *)
Definition store_refreshed (state_dir : string) (r : DiscoveryRefreshResult) : M Discoverer DiscoveryRefreshResult :=
  stored ← discover_host (λ w, let '(e, w) := store_snapshot (under_state_dir state_dir) (rr_persisted_snapshot r)
                                               (rr_last_success_at r) (rr_last_error r) w in (Ok e, w));
  match stored with
  | inl err => mret (record_store_error err r)
  | inr _ => mret r
  end.
Definition refresh_and_store (state_dir : string) : M Discoverer DiscoveryRefreshResult :=
  r ← discover_runtime refresh_all;
  store_refreshed state_dir r.
Definition refresh_due_and_store (state_dir : string) (now : Z) : M Discoverer DiscoveryRefreshResult :=
  r ← discover_runtime (refresh_due now);
  store_refreshed state_dir r.

(** ** runtime/daemon.rs *)

(** [refresh_discovery_policy]; what the gateway answers is a parameter. *)
Definition refresh_discovery_policy (fetched : World → option DiscoveryAspectPolicySet) (force : bool) :
    M Discoverer unit :=
  now ← gets (λ s, clock (dv_world s));
  rt ← gets dv_runtime;
  if negb force && negb (policy_fetch_due rt now DISCOVERY_POLICY_FETCH_MIN_INTERVAL_MS) then mret tt
  else
    discover_runtime (λ _ rt, (tt, record_policy_fetch_attempt now rt));;
    answer ← gets (λ s, fetched (dv_world s));
    match answer with
    | Some set => discover_runtime (λ _ rt, (tt, (apply_discovery_policy set rt).2))
    | None => mret tt
    end.

End Refresh.

(** * What a refresh puts together *)

Section Exact.
Context `{Host} `{!DiscoveryContracts}.
Implicit Types (rt : DiscoveryRuntime) (w : World) (s : Round) (p : DiscoveryProbe) (i j : nat).

(** Every probe has its slots. *)
Record slotted rt : Prop := mk_slotted {
  sl_outputs : length (rt_last_outputs rt) = length (rt_probes rt);
  sl_runs : length (rt_last_run_at rt) = length (rt_probes rt);
}.

(** Whether a probe is asked: it is due, or there is nothing to fall back on. *)
Definition attempted (due_at : option Z) rt i p : bool :=
  probe_due rt due_at i p || negb (is_some (last_output rt i)).
(** What it answers, if it is. *)
Definition answer (due_at : option Z) w rt i p : option (DiscoveryError + ProbeOutput) :=
  if attempted due_at rt i p then Some (pb_refresh p w) else None.
(** What it puts into the snapshot: what it found, or what it last found if it was not asked, or was asked
    in a refresh of everything and failed. *)
Definition contribution (due_at : option Z) w rt i p : option ProbeOutput :=
  match answer due_at w rt i p with
  | Some (inr output) => Some output
  | Some (inl _) => match due_at with None => last_output rt i | Some _ => None end
  | None => last_output rt i
  end.
Definition failure (due_at : option Z) w rt i p : option DiscoveryError :=
  match answer due_at w rt i p with Some (inl err) => Some err | _ => None end.
(** What is kept of it. *)
Definition kept_output (due_at : option Z) w rt i p : option ProbeOutput :=
  match answer due_at w rt i p with Some (inr output) => Some output | _ => last_output rt i end.
Definition kept_run (due_at : option Z) w rt i p : option Z :=
  if probe_due rt due_at i p then Some (default (clock w) due_at)
  else match answer due_at w rt i p with Some (inr _) => due_at | _ => last_run rt i end.

(** Two runtimes that differ in the slots of one probe only. *)
Record slot_changed i rt rt' : Prop := mk_slot_changed {
  sc_probes : rt_probes rt' = rt_probes rt;
  sc_latest : rt_latest_snapshot rt' = rt_latest_snapshot rt;
  sc_policy : rt_policy rt' = rt_policy rt;
  sc_fetch : rt_last_policy_fetch_at rt' = rt_last_policy_fetch_at rt;
  sc_outputs : length (rt_last_outputs rt') = length (rt_last_outputs rt);
  sc_runs : length (rt_last_run_at rt') = length (rt_last_run_at rt);
  sc_output : ∀ j, j ≠ i → last_output rt' j = last_output rt j;
  sc_run : ∀ j, j ≠ i → last_run rt' j = last_run rt j;
}.

Lemma slot_changed_refl i rt : slot_changed i rt rt.
Proof. by split. Qed.
Lemma slot_changed_trans i rt1 rt2 rt3 : slot_changed i rt1 rt2 → slot_changed i rt2 rt3 → slot_changed i rt1 rt3.
Proof. intros [A1 A2 A3 A4 A5 A6 A7 A8] [B1 B2 B3 B4 B5 B6 B7 B8]. split; intros; try congruence; by rewrite ?B7, ?B8, ?A7, ?A8. Qed.
Lemma set_last_output_changed i o rt : slot_changed i rt (set_last_output i o rt).
Proof.
  split; intros; cbn; rewrite ?length_insert; try done.
  unfold last_output. cbn. by rewrite list_lookup_insert_ne.
Qed.
Lemma set_last_run_changed i a rt : slot_changed i rt (set_last_run i a rt).
Proof.
  split; intros; cbn; rewrite ?length_insert; try done.
  unfold last_run. cbn. by rewrite list_lookup_insert_ne.
Qed.
Lemma last_output_set i o rt : i < length (rt_last_outputs rt) → last_output (set_last_output i o rt) i = Some o.
Proof. intros Hi. unfold last_output. cbn. by rewrite list_lookup_insert_eq. Qed.
Lemma last_run_set i a rt : i < length (rt_last_run_at rt) → last_run (set_last_run i a rt) i = a.
Proof. intros Hi. unfold last_run. cbn. by rewrite list_lookup_insert_eq. Qed.
Lemma last_output_run i a rt j : last_output (set_last_run i a rt) j = last_output rt j.
Proof. done. Qed.
Lemma last_run_output i o rt j : last_run (set_last_output i o rt) j = last_run rt j.
Proof. done. Qed.

Lemma ask_probe_run due_at w i p rt : i < length (rt_last_outputs rt) → i < length (rt_last_run_at rt) →
  ∃ rt' aside out, ask_probe due_at w i p rt = (rt', attempted due_at rt i p, aside, out) ∧
    slot_changed i rt rt' ∧
    last_output rt' i = kept_output due_at w rt i p ∧ last_run rt' i = kept_run due_at w rt i p ∧
    match contribution due_at w rt i p with
    | Some output => out = inr output ∧ aside = failure due_at w rt i p
    | None => aside = None ∧ ∃ err, out = inl err ∧ failure due_at w rt i p = Some err
    end.
Proof.
  intros Ho Hr. unfold ask_probe, contribution, failure, kept_output, kept_run, answer, attempted.
  destruct (probe_due rt due_at i p) eqn:Hd; cbn [orb].
  - pose proof (set_last_run_changed i (Some (default (clock w) due_at)) rt) as Hc.
    destruct (pb_refresh p w) as [err|output].
    + rewrite last_output_run. destruct due_at as [t|], (last_output rt i) as [cached|] eqn:Hl;
        (eexists _, _, _; split; [reflexivity|]; split_and!; [exact Hc|by rewrite ?last_output_run|by apply last_run_set|eauto..]).
    + eexists _, _, _. split; [reflexivity|]. split_and!; [|by apply last_output_set|by rewrite last_run_output, last_run_set|done..].
      eapply slot_changed_trans; [exact Hc|apply set_last_output_changed].
  - destruct (last_output rt i) as [cached|] eqn:Hl; cbn [is_some negb].
    { eexists _, _, _. split; [reflexivity|]. split_and!; [apply slot_changed_refl|done..]. }
    assert (∃ t, due_at = Some t) as [t ->] by (destruct due_at; [eauto|done]).
    destruct (pb_refresh p w) as [err|output].
    + eexists _, _, _. split; [reflexivity|]. split_and!; [apply slot_changed_refl|eauto..].
    + eexists _, _, _. split; [reflexivity|].
      split_and!; [|by rewrite last_output_run, last_output_set|by apply last_run_set|done..].
      eapply slot_changed_trans; [apply set_last_output_changed|apply set_last_run_changed].
Qed.

(** What the loop does from a probe on. *)
Definition numbered (index : nat) (probes : list DiscoveryProbe) : list (nat * DiscoveryProbe) :=
  zip (seq index (length probes)) probes.
Definition contributions (due_at : option Z) w rt (l : list (nat * DiscoveryProbe)) : list ProbeOutput :=
  omap (λ ip, contribution due_at w rt ip.1 ip.2) l.
Definition failures (due_at : option Z) w rt (l : list (nat * DiscoveryProbe)) : list DiscoveryError :=
  omap (λ ip, failure due_at w rt ip.1 ip.2) l.
Definition asked_of (due_at : option Z) rt (l : list (nat * DiscoveryProbe)) : list nat :=
  (filter (λ ip, attempted due_at rt ip.1 ip.2 = true) l).*1.
(** The resources and targets of some outputs, each with the place of the origin it came with. *)
Definition placed_resources (from : nat) (outs : list ProbeOutput) : list DiscoveredResource :=
  concat (imap (λ k o, resource_with_origin (from + k) <$> po_resources o) outs).
Definition placed_targets (from : nat) (outs : list ProbeOutput) : list DiscoveredTarget :=
  concat (imap (λ k o, target_with_origin (from + k) <$> po_targets o) outs).

Lemma placed_nil from : placed_resources from [] = [] ∧ placed_targets from [] = [].
Proof. done. Qed.
Lemma placed_resources_cons from o outs :
  placed_resources from (o :: outs) = ((resource_with_origin from <$> po_resources o) ++ placed_resources (S from) outs)%list.
Proof.
  unfold placed_resources. cbn. rewrite Nat.add_0_r. do 2 f_equal. apply imap_ext. intros k x _. cbn. do 2 f_equal. lia.
Qed.
Lemma placed_targets_cons from o outs :
  placed_targets from (o :: outs) = ((target_with_origin from <$> po_targets o) ++ placed_targets (S from) outs)%list.
Proof.
  unfold placed_targets. cbn. rewrite Nat.add_0_r. do 2 f_equal. apply imap_ext. intros k x _. cbn. do 2 f_equal. lia.
Qed.

#[local] Arguments placed_resources : simpl never.
#[local] Arguments placed_targets : simpl never.

Record passed (due_at : option Z) w (index : nat) (probes : list DiscoveryProbe) s s' : Prop := mk_passed {
  pa_probes : rt_probes (rd_runtime s') = rt_probes (rd_runtime s);
  pa_latest : rt_latest_snapshot (rd_runtime s') = rt_latest_snapshot (rd_runtime s);
  pa_policy : rt_policy (rd_runtime s') = rt_policy (rd_runtime s);
  pa_fetch : rt_last_policy_fetch_at (rd_runtime s') = rt_last_policy_fetch_at (rd_runtime s);
  pa_outputs : length (rt_last_outputs (rd_runtime s')) = length (rt_last_outputs (rd_runtime s));
  pa_runs : length (rt_last_run_at (rd_runtime s')) = length (rt_last_run_at (rd_runtime s));
  pa_before : ∀ j, j < index → last_output (rd_runtime s') j = last_output (rd_runtime s) j ∧
    last_run (rd_runtime s') j = last_run (rd_runtime s) j;
  pa_slots : ∀ j p, probes !! j = Some p →
    last_output (rd_runtime s') (index + j) = kept_output due_at w (rd_runtime s) (index + j) p ∧
    last_run (rd_runtime s') (index + j) = kept_run due_at w (rd_runtime s) (index + j) p;
  pa_resources : rd_resources s' = (rd_resources s ++
    placed_resources (length (rd_origins s)) (contributions due_at w (rd_runtime s) (numbered index probes)))%list;
  pa_targets : rd_targets s' = (rd_targets s ++
    placed_targets (length (rd_origins s)) (contributions due_at w (rd_runtime s) (numbered index probes)))%list;
  pa_origins : rd_origins s' = (rd_origins s ++
    (po_origin <$> contributions due_at w (rd_runtime s) (numbered index probes)))%list;
  pa_errors : rd_errors s' = (rd_errors s ++ failures due_at w (rd_runtime s) (numbered index probes))%list;
  pa_asked : rd_asked s' = (rd_asked s ++ asked_of due_at (rd_runtime s) (numbered index probes))%list;
}.

(** The decisions about a probe read its own slots and the policy only. *)
Lemma decisions_local due_at w rt rt' i p : rt_policy rt' = rt_policy rt →
  last_output rt' i = last_output rt i → last_run rt' i = last_run rt i →
  attempted due_at rt' i p = attempted due_at rt i p ∧ contribution due_at w rt' i p = contribution due_at w rt i p ∧
  failure due_at w rt' i p = failure due_at w rt i p ∧ kept_output due_at w rt' i p = kept_output due_at w rt i p ∧
  kept_run due_at w rt' i p = kept_run due_at w rt i p.
Proof.
  intros Hp Ho Hr. assert (Hd : probe_due rt' due_at i p = probe_due rt due_at i p)
    by (unfold probe_due, probe_interval; by rewrite Hr, Hp).
  assert (Ha : attempted due_at rt' i p = attempted due_at rt i p) by (unfold attempted; by rewrite Hd, Ho).
  unfold contribution, failure, kept_output, kept_run, answer. by rewrite Ha, Hd, Ho, Hr.
Qed.

Lemma numbered_cons index p probes : numbered index (p :: probes) = (index, p) :: numbered (S index) probes.
Proof. done. Qed.

(** The decisions about probes whose slots have not changed. *)
Lemma lists_local due_at w rt rt' index probes : rt_policy rt' = rt_policy rt →
  (∀ j, index ≤ j → last_output rt' j = last_output rt j ∧ last_run rt' j = last_run rt j) →
  contributions due_at w rt' (numbered index probes) = contributions due_at w rt (numbered index probes) ∧
  failures due_at w rt' (numbered index probes) = failures due_at w rt (numbered index probes) ∧
  asked_of due_at rt' (numbered index probes) = asked_of due_at rt (numbered index probes).
Proof.
  intros Hp Hs. revert index Hs. induction probes as [|p probes IH]; intros index Hs; [done|].
  destruct (IH (S index)) as (C & F & A); [intros j Hj; apply Hs; lia|].
  destruct (Hs index) as [Ho Hr]; [lia|].
  destruct (decisions_local due_at w rt rt' index p Hp Ho Hr) as (Da & Dc & Df & _).
  rewrite numbered_cons. unfold contributions, failures, asked_of in *. cbn [omap list_omap fst snd].
  rewrite !filter_cons. cbn [fst snd]. rewrite Dc, Df, Da, C, F. split_and!; [done..|].
  case_decide; cbn [fmap list_fmap]; by rewrite A.
Qed.

Lemma refresh_probe_run due_at w index p s :
  index < length (rt_last_outputs (rd_runtime s)) → index < length (rt_last_run_at (rd_runtime s)) →
  let s' := refresh_probe due_at w index p s in
  slot_changed index (rd_runtime s) (rd_runtime s') ∧
  last_output (rd_runtime s') index = kept_output due_at w (rd_runtime s) index p ∧
  last_run (rd_runtime s') index = kept_run due_at w (rd_runtime s) index p ∧
  let outs := option_list (contribution due_at w (rd_runtime s) index p) in
  rd_resources s' = (rd_resources s ++ placed_resources (length (rd_origins s)) outs)%list ∧
  rd_targets s' = (rd_targets s ++ placed_targets (length (rd_origins s)) outs)%list ∧
  rd_origins s' = (rd_origins s ++ (po_origin <$> outs))%list ∧
  rd_errors s' = (rd_errors s ++ option_list (failure due_at w (rd_runtime s) index p))%list ∧
  rd_asked s' = (rd_asked s ++ if attempted due_at (rd_runtime s) index p then [index] else [])%list.
Proof.
  intros Ho Hr. unfold refresh_probe.
  destruct (ask_probe_run due_at w index p (rd_runtime s) Ho Hr) as (rt' & aside & out & -> & Hc & Ko & Kr & Hout).
  assert (Hask : (if attempted due_at (rd_runtime s) index p then (rd_asked s ++ [index])%list else rd_asked s) =
    (rd_asked s ++ if attempted due_at (rd_runtime s) index p then [index] else [])%list)
    by (destruct (attempted _ _ _ _); [done|by rewrite (right_id_L [] (++))]).
  destruct (contribution due_at w (rd_runtime s) index p) as [o|].
  - destruct Hout as [-> ->]. cbn. split_and!; try done.
    + by rewrite placed_resources_cons, (proj1 (placed_nil _)), (right_id_L [] (++)).
    + by rewrite placed_targets_cons, (proj2 (placed_nil _)), (right_id_L [] (++)).
  - destruct Hout as (-> & err & -> & ->). cbn. rewrite (proj1 (placed_nil _)), (proj2 (placed_nil _)). by rewrite !(right_id_L [] (++)).
Qed.

Lemma contributions_cons due_at w rt index p probes :
  contributions due_at w rt (numbered index (p :: probes)) =
    (option_list (contribution due_at w rt index p) ++ contributions due_at w rt (numbered (S index) probes))%list.
Proof. rewrite numbered_cons. unfold contributions. cbn. by destruct (contribution _ _ _ _ _). Qed.
Lemma failures_cons due_at w rt index p probes :
  failures due_at w rt (numbered index (p :: probes)) =
    (option_list (failure due_at w rt index p) ++ failures due_at w rt (numbered (S index) probes))%list.
Proof. rewrite numbered_cons. unfold failures. cbn. by destruct (failure _ _ _ _ _). Qed.
Lemma asked_of_cons due_at rt index p probes :
  asked_of due_at rt (numbered index (p :: probes)) =
    ((if attempted due_at rt index p then [index] else []) ++ asked_of due_at rt (numbered (S index) probes))%list.
Proof.
  rewrite numbered_cons. unfold asked_of. rewrite filter_cons. cbn [fst snd].
  destruct (attempted _ _ _ _); by case_decide.
Qed.
Lemma placed_resources_option from (o : option ProbeOutput) outs :
  placed_resources from (option_list o ++ outs) =
    (placed_resources from (option_list o) ++ placed_resources (from + length (option_list o)) outs)%list.
Proof.
  destruct o as [o|]; [|cbn; by rewrite Nat.add_0_r].
  change (option_list (Some o)) with [o]. cbn [app length].
  rewrite !placed_resources_cons, (proj1 (placed_nil _)), (right_id_L [] (++)). by rewrite Nat.add_1_r.
Qed.
Lemma placed_targets_option from (o : option ProbeOutput) outs :
  placed_targets from (option_list o ++ outs) =
    (placed_targets from (option_list o) ++ placed_targets (from + length (option_list o)) outs)%list.
Proof.
  destruct o as [o|]; [|cbn; by rewrite Nat.add_0_r].
  change (option_list (Some o)) with [o]. cbn [app length].
  rewrite !placed_targets_cons, (proj2 (placed_nil _)), (right_id_L [] (++)). by rewrite Nat.add_1_r.
Qed.

Lemma refresh_probes_run due_at w index probes s :
  index + length probes ≤ length (rt_last_outputs (rd_runtime s)) →
  index + length probes ≤ length (rt_last_run_at (rd_runtime s)) →
  passed due_at w index probes s (refresh_probes due_at w index probes s).
Proof.
  revert index s. induction probes as [|p probes IH]; intros index s Ho Hr; cbn [refresh_probes].
  { change (numbered index []) with (@nil (nat * DiscoveryProbe)). split; try done; symmetry; apply (right_id_L [] (++)). }
  cbn [length] in Ho, Hr.
  destruct (refresh_probe_run due_at w index p s) as ([] & Ko & Kr & Rr & Rt & Ro & Re & Ra); [lia..|].
  set (s1 := refresh_probe due_at w index p s) in *.
  destruct (IH (S index) s1) as []; [lia..|].
  destruct (lists_local due_at w (rd_runtime s) (rd_runtime s1) (S index) probes sc_policy0) as (LC & LF & LA).
  { intros j Hj. split; [apply sc_output0|apply sc_run0]; lia. }
  split; try (etrans; eassumption).
  - intros j Hj. destruct (pa_before0 j) as [-> ->]; [lia|]. split; [apply sc_output0|apply sc_run0]; lia.
  - intros [|j] q Hq; cbn in Hq.
    + injection Hq as <-. rewrite Nat.add_0_r. destruct (pa_before0 index) as [-> ->]; [lia|]. done.
    + destruct (pa_slots0 j q Hq) as [Po Pr]. rewrite <- Nat.add_succ_comm, Po, Pr.
      destruct (decisions_local due_at w (rd_runtime s) (rd_runtime s1) (S index + j) q sc_policy0) as (_ & _ & _ & -> & ->);
        [apply sc_output0; lia|apply sc_run0; lia|done].
  - by rewrite pa_resources0, LC, Rr, Ro, contributions_cons, placed_resources_option, <- (assoc_L (++)), length_app, length_fmap.
  - by rewrite pa_targets0, LC, Rt, Ro, contributions_cons, placed_targets_option, <- (assoc_L (++)), length_app, length_fmap.
  - by rewrite pa_origins0, LC, Ro, contributions_cons, fmap_app, <- (assoc_L (++)).
  - by rewrite pa_errors0, LF, Re, failures_cons, <- (assoc_L (++)).
  - by rewrite pa_asked0, LA, Ra, asked_of_cons, <- (assoc_L (++)).
Qed.
End Exact.

Section Refreshed.
Context `{Host} `{!DiscoveryContracts}.
Implicit Types (rt : DiscoveryRuntime) (w : World) (p : DiscoveryProbe) (i : nat).

Lemma round_run due_at w rt : slotted rt →
  passed due_at w 0 (rt_probes rt) (round_start rt) (refresh_probes due_at w 0 (rt_probes rt) (round_start rt)).
Proof. intros [Ho Hr]. apply refresh_probes_run; cbn; lia. Qed.

Lemma elem_of_placed_resources from outs r : r ∈ placed_resources from outs →
  ∃ k o r0, outs !! k = Some o ∧ r0 ∈ po_resources o ∧ r = resource_with_origin (from + k) r0.
Proof.
  intros (l & Hl%list_elem_of_In & Hr%list_elem_of_In)%list_elem_of_In%in_concat.
  apply elem_of_lookup_imap in Hl as (k & o & -> & Ho). apply list_elem_of_fmap in Hr as (r0 & -> & Hr). by exists k, o, r0.
Qed.
Lemma elem_of_placed_targets from outs t : t ∈ placed_targets from outs →
  ∃ k o t0, outs !! k = Some o ∧ t0 ∈ po_targets o ∧ t = target_with_origin (from + k) t0.
Proof.
  intros (l & Hl%list_elem_of_In & Hr%list_elem_of_In)%list_elem_of_In%in_concat.
  apply elem_of_lookup_imap in Hl as (k & o & -> & Ho). apply list_elem_of_fmap in Hr as (r0 & -> & Hr). by exists k, o, r0.
Qed.

(** The slots after a refresh, and what stays. *)
Lemma refresh_slots due_at w rt : slotted rt → let rt' := (refresh_inner due_at w rt).2 in
  slotted rt' ∧ rt_probes rt' = rt_probes rt ∧ rt_policy rt' = rt_policy rt ∧
  ∀ i p, rt_probes rt !! i = Some p →
    last_output rt' i = kept_output due_at w rt i p ∧ last_run rt' i = kept_run due_at w rt i p.
Proof.
  intros Hs. destruct (round_run due_at w rt Hs) as [Hp Hl Hpol Hf Ho Hr _ Hslots _ _ _ _ _]. destruct Hs as [So Sr].
  cbn. split_and!; [|done..|exact Hslots]. split; cbn; rewrite ?Ho, ?Hr, Hp; done.
Qed.

(** A refresh that leaves no resource out: one of everything, or a scheduled one in which every due probe
    that has an earlier output answers. *)
Definition nothing_lost due_at w rt : Prop :=
  due_at = None ∨ ∀ i p, rt_probes rt !! i = Some p → is_some (failure due_at w rt i p) = true → last_output rt i = None.

Lemma omap_numbered {A} (f : nat → DiscoveryProbe → option A) (l : list (option A)) ps k : length l = length ps →
  (∀ i p, ps !! i = Some p → f (k + i) p = default None (l !! i)) →
  omap (λ ip, f ip.1 ip.2) (numbered k ps) = omap id l.
Proof.
  revert k l. induction ps as [|p ps IH]; intros k [|o l] Hl Hf; try discriminate; [done|].
  rewrite numbered_cons. pose proof (Hf 0 p eq_refl) as Hz. rewrite Nat.add_0_r in Hz. cbn in Hz. cbn [omap list_omap fst snd id].
  rewrite Hz, (IH (S k) l); [done|cbn in Hl; congruence|]. intros i q Hi. rewrite Nat.add_succ_comm. exact (Hf (S i) q Hi).
Qed.

(** What goes into the snapshot is then what is kept. *)
Lemma contributions_kept due_at w rt : slotted rt → nothing_lost due_at w rt →
  contributions due_at w rt (numbered 0 (rt_probes rt)) = omap id (rt_last_outputs (refresh_inner due_at w rt).2).
Proof.
  intros Hs Hl. destruct (refresh_slots due_at w rt Hs) as ([Ho _] & Hp & _ & Hsl). rewrite Hp in Ho.
  apply (omap_numbered (contribution due_at w rt)); [done|]. intros i p Hi. destruct (Hsl i p Hi) as [Hk _].
  change (contribution due_at w rt i p = last_output (refresh_inner due_at w rt).2 i). rewrite Hk. unfold contribution, kept_output.
  destruct (answer due_at w rt i p) as [[err|output]|] eqn:Ea; try done. destruct Hl as [->|Hl]; [done|].
  rewrite (Hl i p Hi); [by destruct due_at|]. unfold failure. by rewrite Ea.
Qed.

(** Which probes a refresh asks. *)
Definition asked_by (due_at : option Z) w rt : list nat :=
  rd_asked (refresh_probes due_at w 0 (rt_probes rt) (round_start rt)).
Lemma asked_by_spec due_at w rt i p : slotted rt → rt_probes rt !! i = Some p →
  i ∈ asked_by due_at w rt ↔ attempted due_at rt i p = true.
Proof.
  intros Hs Hi. unfold asked_by. rewrite (pa_asked _ _ _ _ _ _ (round_run due_at w rt Hs)). cbn [rd_asked round_start app].
  unfold asked_of. rewrite list_elem_of_fmap. cbn [rd_runtime round_start]. split.
  - intros ([j q] & -> & Hf). apply list_elem_of_filter in Hf as [Ha Hz]. cbn in *.
    apply list_elem_of_lookup in Hz as [k Hz]. unfold numbered in Hz. apply lookup_zip_Some in Hz as [Hk Hq].
    apply lookup_seq in Hk as [-> _]. cbn in *. congruence.
  - intros Ha. exists (i, p). split; [done|]. apply list_elem_of_filter. split; [done|].
    apply list_elem_of_lookup. exists i. unfold numbered. apply lookup_zip_Some. split; [|done].
    apply lookup_seq. split; [done|]. by eapply lookup_lt_Some.
Qed.

(** Refreshes of what is due, one per host, at its time; and when a probe was asked. *)
Fixpoint refreshes rt (ws : list World) : list (Z * list nat) * DiscoveryRuntime :=
  match ws with
  | [] => ([], rt)
  | w :: ws =>
      let rt' := (refresh_due (clock w) w rt).2 in
      let '(l, rt'') := refreshes rt' ws in ((clock w, asked_by (Some (clock w)) w rt) :: l, rt'')
  end.
Definition times_asked i (l : list (Z * list nat)) : list Z := (filter (λ ta, i ∈ ta.2) l).*1.

Lemma due_spec rt now i p l : (0 < probe_interval rt p)%Z → last_run rt i = Some l →
  probe_due rt (Some now) i p = fetch_due (probe_interval rt p) now (Some l).
Proof.
  intros Hp Hl. unfold probe_due, fetch_due, elapsed. rewrite Hl.
  apply eq_true_iff_eq. rewrite Z.leb_le, negb_true_iff, Z.ltb_ge. lia.
Qed.

Lemma refreshes_throttled rt ws i p times : slotted rt → rt_probes rt !! i = Some p →
  is_some (last_output rt i) = true → (0 < probe_interval rt p)%Z →
  throttled (probe_interval rt p) times (last_run rt i) →
  throttled (probe_interval rt p) (times ++ times_asked i (refreshes rt ws).1) (last_run (refreshes rt ws).2 i).
Proof.
  revert rt times. induction ws as [|w ws IH]; intros rt times Hs Hi Ho Hp Ht; cbn [refreshes].
  { cbn. by rewrite (right_id_L [] (++)). }
  destruct (refresh_slots (Some (clock w)) w rt Hs) as (Hs' & Hps & Hpol & Hsl).
  destruct (Hsl i p Hi) as [Ko Kr]. fold (refresh_due (clock w) w rt) in *.
  set (rt1 := (refresh_due (clock w) w rt).2) in *. destruct (refreshes rt1 ws) as [l rt2] eqn:E. cbn [fst snd].
  assert (Hint : probe_interval rt1 p = probe_interval rt p) by (unfold probe_interval; by rewrite Hpol).
  assert (Ho1 : is_some (last_output rt1 i) = true).
  { rewrite Ko. unfold kept_output. destruct (answer _ _ _ _ _) as [[]|]; done. }
  assert (Hatt : attempted (Some (clock w)) rt i p = probe_due rt (Some (clock w)) i p)
    by (unfold attempted; rewrite Ho; cbn; by rewrite orb_false_r).
  pose proof (asked_by_spec (Some (clock w)) w rt i p Hs Hi) as Hask. rewrite Hatt in Hask.
  unfold times_asked. rewrite filter_cons. cbn [fst snd].
  assert (Hd : probe_due rt (Some (clock w)) i p = fetch_due (probe_interval rt p) (clock w) (last_run rt i)).
  { destruct (last_run rt i) as [t|] eqn:El; [by apply due_spec|]. unfold probe_due. by rewrite El. }
  assert (Hkr : last_run rt1 i = if probe_due rt (Some (clock w)) i p then Some (clock w) else last_run rt i).
  { rewrite Kr. unfold kept_run, answer. rewrite Hatt. by destruct (probe_due _ _ _ _). }
  specialize (IH rt1). rewrite E in IH. cbn [fst snd] in IH. rewrite Hint in IH. fold (times_asked i l).
  assert (Hi1 : rt_probes rt1 !! i = Some p) by by rewrite Hps.
  destruct (probe_due rt (Some (clock w)) i p) eqn:Edue.
  - destruct (throttled_attempt _ _ _ _ Ht ltac:(lia) (eq_sym Hd)) as [_ Ht2].
    rewrite decide_True by by apply Hask. cbn [fmap list_fmap fst]. rewrite cons_middle, (assoc_L (++)).
    apply IH; [done..|by rewrite Hkr].
  - rewrite decide_False by (rewrite Hask; discriminate). apply IH; [done..|by rewrite Hkr].
Qed.
End Refreshed.

(** * The cache *)

Section CacheSound.
Context `{Host} {BE : Backend} `{!BackendLaws} `{!DiscoveryContracts}.
Context `{!Json DiscoveryCacheMeta} `{!Json (list DiscoveredResource)} `{!Json (list DiscoveredTarget)}.
Context (state_dir : string).
Implicit Types (w : World) (snapshot : DiscoverySnapshot).
#[local] Abbreviation paths := (under_state_dir state_dir).

Lemma cache_paths_storable : storable (cp_resources paths) ∧ storable (cp_targets paths) ∧ storable (cp_meta paths).
Proof.
  cbn. change DISCOVERY_RESOURCES_FILE with ("resources" +:+ ".json"). change DISCOVERY_TARGETS_FILE with ("targets" +:+ ".json").
  change DISCOVERY_META_FILE with ("meta" +:+ ".json"). rewrite !join_ends_json. split_and!; apply json_storable.
Qed.

(** A store to one of the three leaves the other two alone. *)
Lemma cache_paths_apart : ∀ p q, p ∈ [cp_resources paths; cp_targets paths; cp_meta paths] →
  q ∈ [cp_resources paths; cp_targets paths; cp_meta paths] → p ≠ q → ¬ store_paths p q.
Proof.
  intros p q Hp Hq Hne [->|Ht]; [done|].
  assert (Hj : ∃ a, q = a +:+ ".json").
  { cbn in Hq. set_unfold. destruct Hq as [->|[->|[->|[]]]]; eexists; unfold DISCOVERY_RESOURCES_FILE, DISCOVERY_TARGETS_FILE, DISCOVERY_META_FILE;
      [apply (join_ends_json _ "resources")|apply (join_ends_json _ "targets")|apply (join_ends_json _ "meta")]. }
  destruct Hj as [a ->]. by apply json_not_tmp in Ht.
Qed.

Lemma cache_paths_ne : cp_resources paths ≠ cp_targets paths ∧ cp_resources paths ≠ cp_meta paths ∧ cp_targets paths ≠ cp_meta paths.
Proof. cbn. split_and!; intros Hq%path_join_inj; discriminate. Qed.

Lemma cache_write_run {A} `{Json A} detail p (a : A) w r w' : storable p → cache_write detail p a w = (r, w') →
  (files w' !! p = files w !! p ∨ files w' !! p = Some (to_json a +:+ nl)) ∧
  (r = inr tt → files w' !! p = Some (to_json a +:+ nl)) ∧
  (∀ q, ¬ store_paths p q → files w' !! q = files w !! q).
Proof.
  intros Hst Hr. unfold cache_write, io in Hr. destruct (be_write_json p a w) as [[u|e] w1] eqn:E; injection Hr as <- <-.
  all: split_and!; [by eapply be_write_either| |intros q Hq; pose proof (be_write_respects (store_paths p) p a ltac:(done) w) as Hf; rewrite E in Hf; by apply Hf].
  - intros _. apply be_write_ok in E as ->. apply wrote_lookup.
  - discriminate.
Qed.

(** The three documents of a snapshot. *)
Record stored_in w snapshot (meta : DiscoveryCacheMeta) : Prop := mk_stored_in {
  si_resources : files w !! cp_resources paths = Some (to_json (sn_resources snapshot) +:+ nl);
  si_targets : files w !! cp_targets paths = Some (to_json (sn_targets snapshot) +:+ nl);
  si_meta : files w !! cp_meta paths = Some (to_json meta +:+ nl);
}.

(** A store, with whatever failures: every document is the old or the new one, and a success means that
    all are new. *)
Lemma store_snapshot_run snapshot ls le w r w' : store_snapshot paths snapshot ls le w = (r, w') →
  (files w' !! cp_resources paths = files w !! cp_resources paths ∨
   files w' !! cp_resources paths = Some (to_json (sn_resources snapshot) +:+ nl)) ∧
  (files w' !! cp_targets paths = files w !! cp_targets paths ∨
   files w' !! cp_targets paths = Some (to_json (sn_targets snapshot) +:+ nl)) ∧
  (files w' !! cp_meta paths = files w !! cp_meta paths ∨
   files w' !! cp_meta paths = Some (to_json (meta_new snapshot ls le) +:+ nl) ∧ stored_in w' snapshot (meta_new snapshot ls le)) ∧
  (r = inr tt → stored_in w' snapshot (meta_new snapshot ls le)).
Proof.
  destruct cache_paths_storable as (Sr & St & Sm). destruct cache_paths_ne as (Nrt & Nrm & Ntm).
  pose proof (λ p q, cache_paths_apart p q) as Hap. set_unfold in Hap.
  assert (A1 : ¬ store_paths (cp_resources paths) (cp_targets paths)) by (apply Hap; auto).
  assert (A2 : ¬ store_paths (cp_resources paths) (cp_meta paths)) by (apply Hap; auto).
  assert (A3 : ¬ store_paths (cp_targets paths) (cp_resources paths)) by (apply Hap; auto).
  assert (A4 : ¬ store_paths (cp_targets paths) (cp_meta paths)) by (apply Hap; auto).
  assert (A5 : ¬ store_paths (cp_meta paths) (cp_resources paths)) by (apply Hap; auto 6).
  assert (A6 : ¬ store_paths (cp_meta paths) (cp_targets paths)) by (apply Hap; auto 6).
  unfold store_snapshot. intros [(e & E & ->)|([] & w1 & E1 & E)]%em_bind_inv.
  { destruct (cache_write_run _ _ _ _ _ _ Sr E) as (C1 & _ & F1). rewrite (F1 _ A1), (F1 _ A2). split_and!; [exact C1|by left|by left|discriminate]. }
  destruct (cache_write_run _ _ _ _ _ _ Sr E1) as (_ & C1 & F1). specialize (C1 eq_refl).
  apply em_bind_inv in E as [(e & E & ->)|([] & w2 & E2 & E)].
  { destruct (cache_write_run _ _ _ _ _ _ St E) as (C2 & _ & F2). rewrite (F1 _ A1) in C2.
    rewrite (F2 _ A3), (F2 _ A4), (F1 _ A2). split_and!; [by right|exact C2|by left|discriminate]. }
  destruct (cache_write_run _ _ _ _ _ _ St E2) as (_ & C2 & F2). specialize (C2 eq_refl).
  destruct (cache_write_run _ _ _ _ _ _ Sm E) as (C3 & C3' & F3).
  assert (R3 : files w' !! cp_resources paths = Some (to_json (sn_resources snapshot) +:+ nl)) by by rewrite (F3 _ A5), (F2 _ A3).
  assert (T3 : files w' !! cp_targets paths = Some (to_json (sn_targets snapshot) +:+ nl)) by by rewrite (F3 _ A6).
  rewrite (F2 _ A4), (F1 _ A2) in C3. split_and!; [auto|auto| |].
  - destruct C3 as [C3|C3]; [by left|]. right. split; [done|by split].
  - intros ->. split; auto.
Qed.

Lemma cache_read_same {A} `{Json A} phase p w : (cache_read (A := A) phase p w).2 = w.
Proof. unfold cache_read, io. pose proof (be_read_respects eq (A := A) p w) as Hr. by destruct (be_read_json p w) as [[] ?]. Qed.
Lemma cache_probe_same phase p w : (cache_probe phase p w).2 = w.
Proof. unfold cache_probe, io. pose proof (be_probe_ro p w) as Hr. by destruct (be_probe p w) as [[] ?]. Qed.

(** A read finds what is there, or fails. *)
Lemma cache_read_run {A} `{Json A} phase p (a : A) w r w' : files w !! p = Some (to_json a +:+ nl) →
  cache_read (A := A) phase p w = (r, w') → w' = w ∧ ∀ a', r = inr a' → a' = a.
Proof.
  intros Hf Hr. pose proof (cache_read_same (A := A) phase p w) as Hs. rewrite Hr in Hs. cbn in Hs. split; [done|].
  intros a' ->. unfold cache_read, io in Hr. destruct (be_read_json p w) as [[b|e] w1] eqn:E; [|done]. injection Hr as -> ->.
  apply be_read_ok in E as (_ & s & Hs' & Hj). rewrite Hf in Hs'. injection Hs' as <-. rewrite from_to_json in Hj. by injection Hj.
Qed.

Lemma cache_probe_ff phase p w : fault_free → is_Some (files w !! p) → cache_probe phase p w = (inr true, w).
Proof. intros Hff [s Hs]. unfold cache_probe, io. by rewrite be_probe_ff, (fs_exists_lookup _ _ _ Hs). Qed.
Lemma cache_read_ff {A} `{Json A} phase p (a : A) w : fault_free → files w !! p = Some (to_json a +:+ nl) →
  cache_read (A := A) phase p w = (inr a, w).
Proof. intros Hff Hs. unfold cache_read, io. by rewrite (be_read_ff _ _ _ Hff Hs), from_to_json. Qed.

Definition snapshot_of snapshot (meta : DiscoveryCacheMeta) : DiscoverySnapshot :=
  mk_snapshot (me_schema_version meta) (me_snapshot_id meta) (me_revision meta) (me_generated_at meta)
    (me_origins meta) (sn_resources snapshot) (sn_targets snapshot).

(** A load of what was stored, with whatever failures: nothing, or exactly that. *)
Lemma load_snapshot_run snapshot meta w r w' : stored_in w snapshot meta → load_snapshot paths w = (r, w') →
  w' = w ∧ ∃ found fl, r = Ok (found, fl) ∧ ∀ s, found = Some s → s = snapshot_of snapshot meta.
Proof.
  intros [Sr St Sm] Hr. unfold load_snapshot, load_result in Hr.
  match type of Hr with context [match ?m w with _ => _ end] => destruct (m w) as [r1 w1] eqn:E end.
  assert (Hm : w1 = w ∧ ∀ s, r1 = inr (Some s) → s = snapshot_of snapshot meta).
  { apply em_bind_inv in E as [(e & E & ->)|(b1 & v1 & E1 & E)].
    { pose proof (cache_probe_same "cache_load_meta" (cp_meta paths) w) as Hs. rewrite E in Hs. by cbn in Hs. }
    pose proof (cache_probe_same "cache_load_meta" (cp_meta paths) w) as Hs. rewrite E1 in Hs. cbn in Hs. subst v1.
    apply em_bind_inv in E as [(e & E & ->)|(b2 & v2 & E2 & E)].
    { pose proof (cache_probe_same "cache_load_resources" (cp_resources paths) w) as Hs. rewrite E in Hs. by cbn in Hs. }
    pose proof (cache_probe_same "cache_load_resources" (cp_resources paths) w) as Hs. rewrite E2 in Hs. cbn in Hs. subst v2.
    apply em_bind_inv in E as [(e & E & ->)|(b3 & v3 & E3 & E)].
    { pose proof (cache_probe_same "cache_load_targets" (cp_targets paths) w) as Hs. rewrite E in Hs. by cbn in Hs. }
    pose proof (cache_probe_same "cache_load_targets" (cp_targets paths) w) as Hs. rewrite E3 in Hs. cbn in Hs. subst v3.
    destruct (negb b1 || negb b2 || negb b3); [by injection E as <- <-|].
    apply em_bind_inv in E as [(e & E & ->)|(m & v4 & E4 & E)]; [by destruct (cache_read_run _ _ meta _ _ _ Sm E)|].
    destruct (cache_read_run _ _ meta _ _ _ Sm E4) as [-> Hm]. rewrite (Hm m eq_refl) in E. clear m Hm E4.
    apply em_bind_inv in E as [(e & E & ->)|(m & v5 & E5 & E)]; [by destruct (cache_read_run _ _ _ _ _ _ Sr E)|].
    destruct (cache_read_run _ _ _ _ _ _ Sr E5) as [-> Hm]. rewrite (Hm m eq_refl) in E. clear m Hm E5.
    apply em_bind_inv in E as [(e & E & ->)|(m & v6 & E6 & E)]; [by destruct (cache_read_run _ _ _ _ _ _ St E)|].
    destruct (cache_read_run _ _ _ _ _ _ St E6) as [-> Hm]. rewrite (Hm m eq_refl) in E. clear m Hm E6.
    injection E as <- <-. split; [done|]. by intros s [= <-]. }
  destruct Hm as [-> Hm]. destruct r1 as [fl|found]; injection Hr as <- <-; (split; [done|]; eexists _, _; split; [done|]).
  - done.
  - intros s ->. by apply Hm.
Qed.

Lemma load_snapshot_ff snapshot meta w : fault_free → stored_in w snapshot meta →
  load_snapshot paths w = (Ok (Some (snapshot_of snapshot meta), None), w).
Proof.
  intros Hff [Sr St Sm]. unfold load_snapshot, load_result, mbind, EM_bind.
  rewrite (cache_probe_ff _ _ w Hff (mk_is_Some _ _ Sm)), (cache_probe_ff _ _ w Hff (mk_is_Some _ _ Sr)),
    (cache_probe_ff _ _ w Hff (mk_is_Some _ _ St)). cbn [negb orb].
  by rewrite (cache_read_ff _ _ meta w Hff Sm), (cache_read_ff _ _ _ w Hff Sr), (cache_read_ff _ _ _ w Hff St).
Qed.

Lemma store_snapshot_ff snapshot ls le w : fault_free → ∃ w', store_snapshot paths snapshot ls le w = (inr tt, w') ∧
  stored_in w' snapshot (meta_new snapshot ls le) ∧ clock w' = clock w.
Proof.
  intros Hff. destruct (store_snapshot paths snapshot ls le w) as [r w'] eqn:E.
  assert (r = inr tt ∧ clock w' = clock w) as [-> Hk].
  { unfold store_snapshot, cache_write, mbind, EM_bind, io in E. rewrite !be_write_ff in E by done. by injection E as <- <-. }
  exists w'. destruct (store_snapshot_run _ _ _ _ _ _ E) as (_ & _ & _ & Hs). auto.
Qed.
End CacheSound.

(** * What discovery promises *)

Section Claims.
Context `{Host} `{!DiscoveryContracts}.

(** C16. A refresh of everything, and a scheduled one in which no probe that has an earlier output fails,
    gives the snapshot made of the last successful output of every probe, in the order of the probes: its
    origins, and its resources and targets, each pointing at the origin it came with.  The last successful
    output of a probe is what it just answered if it was asked and answered, and what it was before if
    not.  The errors are those of the probes that were asked and failed, and each probe's time is that
    of its last attempt.  The new snapshot is the next revision; it is persisted, unless it is empty and
    every probe failed, when the one before it is kept. *)
Theorem refresh_exact due_at w rt : slotted rt → nothing_lost due_at w rt →
  let '(r, rt') := refresh_inner due_at w rt in
  let outs := omap id (rt_last_outputs rt') in
  let snapshot := rr_refreshed_snapshot r in
  length (rt_last_outputs rt') = length (rt_probes rt) ∧
  (∀ i p, rt_probes rt !! i = Some p →
    last_output rt' i = kept_output due_at w rt i p ∧ last_run rt' i = kept_run due_at w rt i p) ∧
  sn_origins snapshot = (po_origin <$> outs) ∧
  sn_resources snapshot = placed_resources 0 outs ∧ sn_targets snapshot = placed_targets 0 outs ∧
  (∀ x, x ∈ sn_resources snapshot → ∃ o x0, outs !! dr_origin_idx x = Some o ∧ x0 ∈ po_resources o ∧
    x = resource_with_origin (dr_origin_idx x) x0) ∧
  (∀ x, x ∈ sn_targets snapshot → ∃ o x0, outs !! dt_origin_idx x = Some o ∧ x0 ∈ po_targets o ∧
    x = target_with_origin (dt_origin_idx x) x0) ∧
  rr_errors r = failures due_at w rt (numbered 0 (rt_probes rt)) ∧
  rt_latest_snapshot rt' = Some (rr_persisted_snapshot r) ∧
  sn_revision snapshot = match rt_latest_snapshot rt with Some x => i64_add (sn_revision x) 1 | None => 1%Z end ∧
  (rr_persisted_snapshot r = snapshot ∨
   rt_latest_snapshot rt = Some (rr_persisted_snapshot r) ∧ sn_resources snapshot = [] ∧ sn_targets snapshot = [] ∧
   length (rt_probes rt) ≤ length (rr_errors r)).
Proof.
  intros Hs Hl. pose proof (round_run due_at w rt Hs) as Hp. pose proof (refresh_slots due_at w rt Hs) as ([Ho _] & Hps & _ & Hsl).
  pose proof (contributions_kept due_at w rt Hs Hl) as Hc. rewrite Hps in Ho.
  unfold refresh_inner in *. set (s := refresh_probes due_at w 0 (rt_probes rt) (round_start rt)) in *.
  destruct Hp as [Pp Pl Ppol Pf Po Pr _ _ Rr Rt Ro Re _]. cbn in Pl. cbn [rd_resources rd_targets rd_origins rd_errors round_start app length] in *.
  unfold compose_snapshot in *. cbn [rr_refreshed_snapshot rr_errors rr_persisted_snapshot snd rt_last_outputs
    rt_latest_snapshot set_latest_snapshot snapshot_new sn_origins sn_resources sn_targets sn_revision] in *.
  cbn [rd_runtime round_start] in *. rewrite Hc in *. split_and!; [done|exact Hsl|done|done|done| | |done|done|by rewrite Pl|].
  - intros x. rewrite Rr. intros (k & o & x0 & Hk & Hx & ->)%elem_of_placed_resources. exists o, x0. by split_and!.
  - intros x. rewrite Rt. intros (k & o & x0 & Hk & Hx & ->)%elem_of_placed_targets. exists o, x0. by split_and!.
  - rewrite Pp, Pl. destruct (rd_resources s) eqn:Er, (rd_targets s) eqn:Et; cbn [negb orb]; try (by left).
    destruct (Nat.ltb_spec (length (rd_errors s)) (length (rt_probes rt))); [by left|].
    destruct (rt_latest_snapshot rt); cbn; [right|left]; done.
Qed.

(** A probe that has succeeded once is not asked again before its interval has passed, the interval
    of the gateway's table if it has one for the probe and the probe's own if not, over any number of
    refreshes at any times, whatever the probes answer. *)
Theorem probe_throttled rt ws i p : slotted rt → rt_probes rt !! i = Some p →
  is_some (last_output rt i) = true → (0 < probe_interval rt p)%Z →
  StronglySorted (λ a b, (a + probe_interval rt p ≤ b)%Z)
    (option_list (last_run rt i) ++ times_asked i (refreshes rt ws).1).
Proof.
  intros Hs Hi Ho Hp.
  assert (Ht : throttled (probe_interval rt p) (option_list (last_run rt i)) (last_run rt i)).
  { destruct (last_run rt i) as [l|]; split; try by repeat constructor.
    - intros t ->%list_elem_of_singleton. by exists l.
    - by intros t ?%elem_of_nil. }
  by destruct (refreshes_throttled rt ws i p _ Hs Hi Ho Hp Ht).
Qed.

(** Whatever table the gateway sends, an interval taken from it is that of the aspect it names, a
    second at least and within the bounds the table itself states; it is the table's own value unless
    an adjustment of that policy is on record; and what is written to the log about adjustments has
    four parts at most. *)
Theorem interval_in_bounds `{!DiscoveryContractsLaws} set aspect :
  let p := applied_policy_new set in
  match interval_for p aspect with
  | Some ms => ∃ policy, policy ∈ ps_policies set ∧ ap_aspect policy = aspect ∧ (1000 ≤ ms)%Z ∧
      (ap_min_interval_seconds policy * 1000 ≤ ms ≤ ap_max_interval_seconds policy * 1000)%Z ∧
      (ms = ap_default_interval_seconds policy * 1000 ∨
       ∃ a, a ∈ ad_adjustments p ∧ ia_aspect a = aspect ∧ ia_applied_seconds a = Some (ms / 1000))%Z
  | None => (∀ policy, policy ∈ ps_policies set → ap_aspect policy ≠ aspect) ∨
      ∃ a, a ∈ ad_adjustments p ∧ ia_aspect a = aspect ∧ ia_applied_seconds a = None
  end ∧ length (summary_parts p) ≤ 4.
Proof.
  intros p. split.
  - unfold interval_for, p, applied_policy_new. cbn [ad_set ad_adjustments].
    destruct (for_aspect set aspect) as [policy|] eqn:Ef; cbn; [|left; by apply for_aspect_none].
    apply for_aspect_some in Ef as [Hin Ha].
    assert (Hadj : ∀ a, adjustment_of policy = Some a → a ∈ omap adjustment_of (ps_policies set))
      by (intros a E; apply list_elem_of_omap; eauto).
    unfold adjustment_of in Hadj. unfold evaluate in *.
    repeat match goal with |- context [if ?b then _ else _] => destruct b eqn:?; cbn end;
      rewrite ?Z.ltb_lt, ?Z.ltb_ge, ?Z.leb_le, ?Z.leb_gt in *.
    + right. eexists. split; [by apply Hadj|done].
    + exists policy. split_and!; [done|done|lia..|]. right. eexists. split; [by apply Hadj|]. cbn. by rewrite Z.div_mul.
    + exists policy. split_and!; [done|done|lia..|]. right. eexists. split; [by apply Hadj|]. cbn. by rewrite Z.div_mul.
    + exists policy. split_and!; [done|done|lia..|]. right. eexists. split; [by apply Hadj|]. cbn. by rewrite Z.div_mul.
    + exists policy. split_and!; [done|done|lia..|]. by left.
  - unfold summary_parts. destruct (Nat.ltb _ _); rewrite ?length_app, length_fmap, length_take; cbn [length]; unfold SHOWN; lia.
Qed.

Context {BE : Backend} `{!BackendLaws}.
Context `{!Json DiscoveryCacheMeta} `{!Json (list DiscoveredResource)} `{!Json (list DiscoveredTarget)}.

(** C15. The cache on disk.  Whatever fails while a snapshot of the current schema version is stored, each of its three documents is
    the old or the new one, and the meta document is new only beside the two others; after a store that
    succeeds a load, whatever fails, finds nothing or exactly that snapshot; and on a host whose calls
    succeed both succeed. *)
Theorem cache_roundtrip state_dir snapshot ls le w :
  sn_schema_version snapshot = DISCOVERY_SCHEMA_VERSION →
  let paths := under_state_dir state_dir in
  let '(r, w') := store_snapshot paths snapshot ls le w in
  (files w' !! cp_resources paths = files w !! cp_resources paths ∨
   files w' !! cp_resources paths = Some (to_json (sn_resources snapshot) +:+ nl)) ∧
  (files w' !! cp_targets paths = files w !! cp_targets paths ∨
   files w' !! cp_targets paths = Some (to_json (sn_targets snapshot) +:+ nl)) ∧
  (files w' !! cp_meta paths = files w !! cp_meta paths ∨ stored_in state_dir w' snapshot (meta_new snapshot ls le)) ∧
  (r = inr tt → ∃ found fl, load_snapshot paths w' = (Ok (found, fl), w') ∧ (found = None ∨ found = Some snapshot)) ∧
  (fault_free → r = inr tt ∧ load_snapshot paths w' = (Ok (Some snapshot, None), w')).
Proof.
  intros Hv paths. destruct (store_snapshot paths snapshot ls le w) as [r w'] eqn:E.
  destruct (store_snapshot_run state_dir _ _ _ _ _ _ E) as (S1 & S2 & S3 & S4).
  assert (Hof : snapshot_of snapshot (meta_new snapshot ls le) = snapshot)
    by (unfold snapshot_of, meta_new; cbn; rewrite <- Hv; by destruct snapshot).
  split_and!; [done|done|tauto| |].
  - intros Hr. destruct (load_snapshot paths w') as [r2 w2] eqn:E2.
    destruct (load_snapshot_run state_dir _ _ _ _ _ (S4 Hr) E2) as (-> & found & fl & -> & Hf).
    exists found, fl. split; [done|]. destruct found as [x|]; [right|by left]. by rewrite (Hf x eq_refl), Hof.
  - intros Hff. destruct (store_snapshot_ff state_dir snapshot ls le w Hff) as (w2 & E2 & Hs & _).
    unfold paths in E. rewrite E in E2. injection E2 as -> ->. split; [done|]. unfold paths. by rewrite (load_snapshot_ff _ _ _ _ Hff Hs), Hof.
Qed.
End Claims.

(** * Concrete runs *)

Module ConcreteDiscovery.
Import Concrete.

#[export] Instance origin_eq_dec : EqDecision DiscoveryOrigin.
Proof. solve_decision. Defined.
#[export] Instance origin_countable : Countable DiscoveryOrigin.
Proof.
  refine (inj_countable' (λ o, (og_origin_id o, og_probe o, og_source o, og_observed_at o))
    (λ '(i, p, s, t), mk_origin i p s t) _). by intros [].
Defined.
#[export] Instance attributes_eq_dec : EqDecision (btree string).
Proof. unfold btree. apply _. Defined.
#[export] Instance attributes_countable : Countable (btree string).
Proof. unfold btree. apply _. Defined.
#[export] Instance resource_eq_dec : EqDecision DiscoveredResource.
Proof. solve_decision. Defined.
#[export] Instance resource_countable : Countable DiscoveredResource.
Proof.
  refine (inj_countable'
    (λ r, (dr_resource_id r, dr_kind r, dr_origin_idx r, dr_attributes r,
           (dr_discovered_at r, dr_last_seen_at r, dr_health r, dr_source r)))
    (λ '(i, k, o, a, (d, l, h, s)), mk_resource i k o a d l h s) _). by intros [].
Defined.
#[export] Instance target_eq_dec : EqDecision DiscoveredTarget.
Proof. solve_decision. Defined.
#[export] Instance target_countable : Countable DiscoveredTarget.
Proof.
  refine (inj_countable'
    (λ t, (dt_target_id t, dt_kind t, dt_origin_idx t, dt_resource_ref t, (dt_execution_hints t, dt_state t)))
    (λ '(i, k, o, r, (h, s)), mk_target i k o r h s) _). by intros [].
Defined.
#[export] Instance meta_eq_dec : EqDecision DiscoveryCacheMeta.
Proof. solve_decision. Defined.
#[export] Instance meta_countable : Countable DiscoveryCacheMeta.
Proof.
  refine (inj_countable'
    (λ m, (me_schema_version m, me_snapshot_id m, me_revision m, me_generated_at m,
           (me_origins m, me_last_success_at m, me_last_error m)))
    (λ '(v, i, r, g, (o, s, e)), mk_meta v i r g o s e) _). by intros [].
Defined.
#[export] Instance meta_json : Json DiscoveryCacheMeta := toy_json.
#[export] Instance resources_json : Json (list DiscoveredResource) := toy_json.
#[export] Instance targets_json : Json (list DiscoveredTarget) := toy_json.
#[export] Instance snapshot_eq_dec : EqDecision DiscoverySnapshot.
Proof. solve_decision. Defined.

(** The first policy that names the aspect. *)
#[export] Instance toy_discovery_contracts : DiscoveryContracts := {|
  DISCOVERY_SCHEMA_VERSION := "v1";
  for_aspect set aspect := List.find (λ p, String.eqb (ap_aspect p) aspect) (ps_policies set);
  display_discovery_error e := de_source e;
  context_str e key := if String.eqb key "probe" then Some (de_source e) else None;
|}.
#[export] Instance toy_discovery_laws : DiscoveryContractsLaws.
Proof.
  split; intros set aspect.
  - intros p [Hin Ha%String.eqb_eq]%List.find_some. split; [by apply list_elem_of_In|done].
  - intros Hn p Hin%list_elem_of_In Ha. pose proof (List.find_none _ _ Hn p Hin) as Hf. cbn in Hf.
    by rewrite Ha, String.eqb_refl in Hf.
Qed.

Definition found_one (id : string) : ProbeOutput :=
  mk_probe_output id LocalRuntime "t" (mk_origin id id "local" "t")
    [mk_resource id "process" 9 [("pid", "1")] "t" "t" "ok" "local"] [mk_target id "host" 9 id [] "up"].
Definition no_answer : DiscoveryError := mk_discovery_error ProbeFailed (Some "no answer") "probe".
(** Asked every 1000 ms. *)
Definition steady_probe : DiscoveryProbe := mk_probe "steady" 1000 (λ _, inr (found_one "s")).
Definition failing_probe : DiscoveryProbe := mk_probe "failing" 1000 (λ _, inl no_answer).
(** Fails from the time [t] on. *)
Definition failing_from (t : Z) : DiscoveryProbe :=
  mk_probe "flaky" 1000 (λ w, if Z.ltb (clock w) t then inr (found_one "f") else inl no_answer).

Definition at_time (t : Z) : World := set_clock t empty_world.
Definition tick (t : Z) (rt : DiscoveryRuntime) : DiscoveryRefreshResult * DiscoveryRuntime := refresh_due t (at_time t) rt.
Definition resource_ids (r : DiscoveryRefreshResult) : list string := dr_resource_id <$> sn_resources (rr_persisted_snapshot r).
Definition targets_of (r : DiscoveryRefreshResult) : list string := dt_target_id <$> sn_targets (rr_persisted_snapshot r).

(** A probe that never succeeded is asked at every refresh, whatever its interval: the branch that the
    source comments as one that should not occur. *)
Example failing_probe_runs_every_tick :
  times_asked 0 (refreshes (runtime_new [failing_probe; steady_probe]) (at_time <$> [0; 10; 20; 30; 40]%Z)).1 =
    [0; 10; 20; 30; 40]%Z ∧
  times_asked 1 (refreshes (runtime_new [failing_probe; steady_probe]) (at_time <$> [0; 10; 20; 30; 40]%Z)).1 = [0%Z].
Proof. by vm_compute. Qed.

(** A due probe that fails takes its resources out of the snapshot that is persisted; at the next refresh,
    at which it is not due, they are back, with no error, and the probe counts as one that succeeded. *)
Example failed_probe_vanishes_and_returns :
  let '(r1, rt1) := tick 0 (runtime_new [steady_probe; failing_from 500]) in
  let '(r2, rt2) := tick 1000 rt1 in
  let '(r3, rt3) := tick 1010 rt2 in
  resource_ids r1 = ["s"; "f"] ∧
  resource_ids r2 = ["s"] ∧ length (rr_errors r2) = 1 ∧
  resource_ids r3 = ["s"; "f"] ∧ rr_errors r3 = [] ∧ sp_probe <$> rr_successful_probes r3 = ["s"; "f"].
Proof. by vm_compute. Qed.

(** A refresh of everything in which every probe fails, with what they last found still there, counts as
    a success and moves the time of the last success. *)
Example forced_failure_counts_as_success :
  let '(r1, rt1) := tick 0 (runtime_new [failing_from 500]) in
  let '(r2, rt2) := refresh_all (at_time 600) rt1 in
  length (rr_errors r2) = 1 ∧ rr_successful_probes r2 = [] ∧
  rr_had_successful_refresh r2 = true ∧ rr_used_cached_snapshot r2 = false ∧
  rr_last_success_at r2 = Some (rfc3339 600) ∧ resource_ids r2 = ["f"].
Proof. by vm_compute. Qed.

(** ** The claims on them *)

Definition two_probes : DiscoveryRuntime := runtime_new [steady_probe; failing_from 500].

(** The second probe fails in a refresh of everything; what it found before stays. *)
Lemma refresh_exact_witness :
  let rt := (tick 0 two_probes).2 in
  let '(r, rt') := refresh_inner None (at_time 600) rt in
  length (rr_errors r) = 1 ∧ resource_ids r = ["s"; "f"] ∧
  sn_origins (rr_refreshed_snapshot r) = (po_origin <$> omap id (rt_last_outputs rt')).
Proof.
  cbv zeta. pose proof (refresh_exact None (at_time 600) (tick 0 two_probes).2 ltac:(by split) (or_introl eq_refl)) as Hr.
  assert (Hv : length (rr_errors (refresh_inner None (at_time 600) (tick 0 two_probes).2).1) = 1 ∧
    resource_ids (refresh_inner None (at_time 600) (tick 0 two_probes).2).1 = ["s"; "f"]) by by vm_compute.
  destruct (refresh_inner None (at_time 600) (tick 0 two_probes).2) as [r rt'].
  exact (conj (proj1 Hv) (conj (proj2 Hv) (proj1 (proj2 (proj2 Hr))))).
Defined.

Lemma probe_throttled_witness :
  let rt := (tick 0 two_probes).2 in
  StronglySorted (λ a b, (a + 1000 ≤ b)%Z)
    ([0%Z] ++ times_asked 0 (refreshes rt (at_time <$> [400; 900; 1100; 1900; 2100]%Z)).1).
Proof.
  exact (probe_throttled (tick 0 two_probes).2 (at_time <$> [400; 900; 1100; 1900; 2100]%Z) 0 steady_probe
    ltac:(by split) eq_refl eq_refl ltac:(by vm_compute)).
Defined.

(** The gateway asks for a minute, a tenth of a second and something impossible. *)
Definition toy_policies : DiscoveryAspectPolicySet :=
  mk_policy_set 4 [mk_aspect_policy "steady" 60 10 600; mk_aspect_policy "flaky" 0 0 20; mk_aspect_policy "k8s" 5 10 2] [].
Lemma interval_in_bounds_witness :
  interval_for (applied_policy_new toy_policies) "flaky" = Some 1000%Z ∧
  interval_for (applied_policy_new toy_policies) "k8s" = None ∧
  length (summary_parts (applied_policy_new toy_policies)) ≤ 4.
Proof. split_and!; [done|done|]. exact (proj2 (interval_in_bounds toy_policies "flaky")). Defined.

(** ** The cache *)

#[local] Instance be : Backend := nonblocking.
#[local] Existing Instance nonblocking_laws.

(** Two origins, each with its resource, and none. *)
Definition two_found : DiscoverySnapshot :=
  (rr_persisted_snapshot (tick 0 (runtime_new [steady_probe; failing_from 500])).1).
Definition one_found : DiscoverySnapshot :=
  rr_persisted_snapshot (refresh_all (at_time 5) (runtime_new [steady_probe])).1.

(** A store whose second write fails leaves the new resources beside the old meta document; the load takes
    them together, and a resource points past the end of the origins. *)
Definition store_on (h : Host) (snapshot : DiscoverySnapshot) (w : World) : (DiscoveryError + unit) * World :=
  store_snapshot (BE := @nonblocking _ h) (under_state_dir "/s") snapshot None None w.
Definition full_disk : Host := faulty (λ _ p, String.eqb p "/s/discovery/targets.tmp").
Definition torn : World := (store_on full_disk two_found (store_on toy_host one_found empty_world).2).2.

Example torn_cache_is_loaded :
  (∃ err, (store_on full_disk two_found (store_on toy_host one_found empty_world).2).1 = inl err) ∧
  match load_snapshot (under_state_dir "/s") torn with
  | (Ok (Some s, None), _) =>
      sn_snapshot_id s = sn_snapshot_id one_found ∧ dr_resource_id <$> sn_resources s = ["s"; "f"] ∧
      dt_target_id <$> sn_targets s = ["s"] ∧ length (sn_origins s) = 1 ∧ dr_origin_idx <$> sn_resources s = [0; 1]
  | _ => False
  end.
Proof. split; [eexists|]; by vm_compute. Qed.

Lemma cache_roundtrip_witness :
  store_on toy_host two_found empty_world = (inr tt, (store_on toy_host two_found empty_world).2) ∧
  load_snapshot (under_state_dir "/s") (store_on toy_host two_found empty_world).2 =
    (Ok (Some two_found, None), (store_on toy_host two_found empty_world).2).
Proof.
  pose proof (cache_roundtrip (BE := be) "/s" two_found None None empty_world eq_refl) as Hr. cbv zeta in Hr.
  change (store_snapshot (under_state_dir "/s") two_found None None empty_world)
    with (store_on toy_host two_found empty_world) in Hr.
  destruct (store_on toy_host two_found empty_world) as [r w']. destruct Hr as (_ & _ & _ & _ & Hr).
  destruct (Hr toy_fault_free) as [-> Hl]. by split.
Defined.
End ConcreteDiscovery.
