(* ===== verification/Facts.v ===== *)
(** The fact summary (reporting/fact_summary.rs): what of a discovery snapshot tells what a machine is for.
    With the addresses that say nothing about it (discovery/network.rs), whose syntax is that of
    [std::net]. *)
From stdpp Require Import pretty.
From S2P Require Import Prelude Text Host Fmt BTree Requests Discovery.

(** * [std::net]: parsing an address *)

Section Parser.
(** A parser takes a prefix of a text, or fails and takes nothing. *)
Definition parser (A : Type) : Type := string → option (A * string).

Definition to_digit (radix : Z) (c : ascii) : option Z :=
  let z := code c in
  let d := if in_range 48 57 z then Some (z - 48)%Z
           else if in_range 97 122 z then Some (z - 87)%Z
           else if in_range 65 90 z then Some (z - 55)%Z else None in
  d ← d; if Z.ltb d radix then Some d else None.

Fixpoint digits (radix : Z) (s : string) : list Z * string :=
  match s with
  | EmptyString => ([], s)
  | String c rest =>
      match to_digit radix c with
      | Some d => let '(l, rest) := digits radix rest in (d :: l, rest)
      | None => ([], s)
      end
  end.

Definition number_of (radix : Z) (l : list Z) : Z := foldl (λ n d, n * radix + d)%Z 0%Z l.

(** [read_number], with a limit on the digits. *)
Definition read_number (radix : Z) (max_digits : nat) (allow_zero_prefix : bool) (max : Z) : parser Z := λ s,
  let '(l, rest) := digits radix s in
  if Nat.ltb max_digits (length l) then None
  else
    match l with
    | [] => None
    | d :: l' =>
        if negb allow_zero_prefix && Z.eqb d 0 && negb (match l' with [] => true | _ => false end) then None
        else let n := number_of radix l in if Z.leb n max then Some (n, rest) else None
    end.

Definition read_char (c : ascii) : parser unit := λ s,
  match s with
  | String a rest => if Ascii.eqb a c then Some (tt, rest) else None
  | EmptyString => None
  end.

(** [read_separator]: what stands at place [index] of a list, after a separator if it is not the first. *)
Definition read_separator {A} (sep : ascii) (index : nat) (inner : parser A) : parser A := λ s,
  match index with
  | O => inner s
  | S _ => '(_, s) ← read_char sep s; inner s
  end.

Definition read_octet : parser Z := read_number 10 3 false 255.
Definition read_ipv4 : parser (list Z) := λ s,
  '(a, s) ← read_separator "."%char 0 read_octet s;
  '(b, s) ← read_separator "."%char 1 read_octet s;
  '(c, s) ← read_separator "."%char 2 read_octet s;
  '(d, s) ← read_separator "."%char 3 read_octet s;
  Some ([a; b; c; d], s).

(** [read_groups]: the groups that could be read from place [i] on, with [left] places left, and whether
    they end in an IPv4 address. *)
Fixpoint read_groups (i left : nat) (s : string) : list Z * bool * string :=
  match left with
  | O => ([], false, s)
  | S left' =>
      match (if Nat.ltb 0 left' then read_separator ":"%char i read_ipv4 s else None) with
      | Some ([a; b; c; d], s) => ([(a * 256 + b)%Z; (c * 256 + d)%Z], true, s)
      | _ =>
          match read_separator ":"%char i (read_number 16 4 true 65535) s with
          | Some (g, s) => let '(l, v4, s) := read_groups (S i) left' s in (g :: l, v4, s)
          | None => ([], false, s)
          end
      end
  end.

Definition read_ipv6 : parser (list Z) := λ s,
  let '(head, head_ipv4, s) := read_groups 0 8 s in
  if Nat.eqb (length head) 8 then Some (head, s)
  else if head_ipv4 : bool then None
  else
    '(_, s) ← read_char ":"%char s;
    '(_, s) ← read_char ":"%char s;
    let '(tail, _, s) := read_groups 0 (8 - (length head + 1)) s in
    Some ((head ++ replicate (8 - length head - length tail) 0%Z ++ tail)%list, s).

(** The whole text is the address. *)
Definition parse_with {A} (p : parser A) (s : string) : option A :=
  match p s with Some (a, EmptyString) => Some a | _ => None end.
Definition parse_ipv4 (s : string) : option (list Z) :=
  if Nat.ltb 15 (String.length s) then None else parse_with read_ipv4 s.
Definition parse_ipv6 (s : string) : option (list Z) := parse_with read_ipv6 s.
End Parser.

Example ipv6_forms :
  parse_ipv6 <$> ["::1"; "::"; "1:2:3:4:5:6:7:8"; "1:2:3:4:5:6:7::"; "::ffff:1.2.3.4"; "FE80::a"; "1:::2"; ":1"; "12345::"; "1.2.3.4::"] =
  [Some [0; 0; 0; 0; 0; 0; 0; 1]; Some [0; 0; 0; 0; 0; 0; 0; 0]; Some [1; 2; 3; 4; 5; 6; 7; 8];
   Some [1; 2; 3; 4; 5; 6; 7; 0]; Some [0; 0; 0; 0; 0; 65535; 258; 772]; Some [65152; 0; 0; 0; 0; 0; 0; 10];
   None; None; None; None]%Z.
Proof. by vm_compute. Qed.

(** * discovery/network.rs: addresses that say nothing about the machine *)

Definition is_meaningless_address (ip : string) : bool :=
  match parse_ipv6 ip with
  | Some v6 =>
      bool_decide (v6 = [0; 0; 0; 0; 0; 0; 0; 1]%Z) || bool_decide (v6 = replicate 8 0%Z) ||
      match v6 with g :: _ => Z.eqb (Z.land g 65472) 65152 | [] => false end
  | None =>
      match parse_ipv4 ip with
      | Some (a :: b :: c :: d :: _) =>
          Z.eqb a 127 || (Z.eqb a 0 && Z.eqb b 0 && Z.eqb c 0 && Z.eqb d 0) || (Z.eqb a 169 && Z.eqb b 254)
      | _ => false
      end
  end.

Definition is_meaningless_address_spec (spec : string) : bool :=
  is_meaningless_address (default spec (head (split_on slash spec))).

(** * reporting/fact_summary.rs *)

(** wist_contracts: what of a summary is compared, its digest, and where the ports of clients begin; and
    [std::env::consts]. *)
Class FactContracts := {
  FactContent : Type;
  FactContent_new : string → string → list string → list string → list string → list string → list string → FactContent;
  fact_digest : FactContent → string;
  EPHEMERAL_PORT_START : Z;
  OS : string;
  ARCH : string;
}.

Definition PROCESS_KIND : string := "process".
Definition ENDPOINT_KIND : string := "service_endpoint".
Definition HOST_KIND : string := "host".
Definition IP_ADDRESS_KIND : string := "ip_address".
Definition PROCESS_EXECUTABLE : string := "process.executable.name".
Definition ENDPOINT_PROTOCOL : string := "endpoint.protocol".
Definition ENDPOINT_PORT : string := "endpoint.bind.port".
Definition HOST_ID : string := "host.id".
Definition HOST_NAME : string := "host.name".
Definition ADDR_IFACE : string := "net.if.name".
Definition ADDR_CIDR : string := "net.if.cidr".
Definition ADDR_IP : string := "net.if.addr".

Record FactSummaryDraft := mk_draft {
  fd_revision : Z;
  fd_observed_at : string;
  fd_os : string;
  fd_arch : string;
  fd_process_count : Z;
  fd_process_executables : list string;
  fd_packages : list string;
  fd_listen_ports : list string;
  fd_probed_paths : list string;
  fd_present_paths : list string;
  fd_host_id : string;
  fd_host_name : string;
  fd_network_addresses : list string;
}.

Definition draft_content `{FactContracts} (d : FactSummaryDraft) : FactContent :=
  FactContent_new (fd_os d) (fd_arch d) (fd_process_executables d) (fd_packages d) (fd_listen_ports d)
    (fd_probed_paths d) (fd_present_paths d).
Definition content_digest `{FactContracts} (d : FactSummaryDraft) : string := fact_digest (draft_content d).

Definition attribute (resource : DiscoveredResource) (key : string) : option string :=
  match bt_get key (dr_attributes resource) with
  | Some value => if String.eqb value "" then None else Some value
  | None => None
  end.

(** [str::parse::<u16>] *)
Definition parse_u16 (s : string) : option Z :=
  match parse_u64 s with inr n => if Z.leb n 65535 then Some n else None | inl _ => None end.

(** [BTreeSet<(String, u16)>] *)
Definition port : Type := string * Z.
Definition port_compare (p q : port) : comparison :=
  match String.compare p.1 q.1 with Eq => Z.compare p.2 q.2 | c => c end.
Fixpoint port_insert (p : port) (l : list port) : list port :=
  match l with
  | [] => [p]
  | q :: l' =>
      match port_compare p q with
      | Lt => p :: l
      | Eq => l
      | Gt => q :: port_insert p l'
      end
  end.

(** The local variables of [build_summary]. *)
Record Gathered := mk_gathered {
  ga_executables : btree unit;
  ga_ports : list port;
  ga_addresses : btree unit;
  ga_process_count : Z;
  ga_host_id : string;
  ga_host_name : string;
}.
Definition gathered_start : Gathered := mk_gathered [] [] [] 0 "" "".

Section Summary.
Context `{FactContracts}.

Definition listen_port (resource : DiscoveredResource) : option port :=
  port ← attribute resource ENDPOINT_PORT ≫= parse_u16;
  if Z.leb EPHEMERAL_PORT_START port then None
  else
    protocol ← attribute resource ENDPOINT_PROTOCOL;
    Some (to_ascii_lowercase protocol, port).

Definition network_address (resource : DiscoveredResource) : option string :=
  address ← match attribute resource ADDR_CIDR with Some a => Some a | None => attribute resource ADDR_IP end;
  if is_meaningless_address_spec address then None
  else Some (match attribute resource ADDR_IFACE with
             | Some iface => iface +:+ " " +:+ address
             | None => address
             end).

Definition gather (g : Gathered) (resource : DiscoveredResource) : Gathered :=
  let kind := dr_kind resource in
  if String.eqb kind PROCESS_KIND then
    mk_gathered
      (match attribute resource PROCESS_EXECUTABLE with
       | Some value => bt_insert value tt (ga_executables g)
       | None => ga_executables g
       end)
      (ga_ports g) (ga_addresses g) (ga_process_count g + 1) (ga_host_id g) (ga_host_name g)
  else if String.eqb kind ENDPOINT_KIND then
    mk_gathered (ga_executables g)
      (match listen_port resource with Some p => port_insert p (ga_ports g) | None => ga_ports g end)
      (ga_addresses g) (ga_process_count g) (ga_host_id g) (ga_host_name g)
  else if String.eqb kind HOST_KIND then
    mk_gathered (ga_executables g) (ga_ports g) (ga_addresses g) (ga_process_count g)
      (default (ga_host_id g) (attribute resource HOST_ID)) (default (ga_host_name g) (attribute resource HOST_NAME))
  else if String.eqb kind IP_ADDRESS_KIND then
    mk_gathered (ga_executables g) (ga_ports g)
      (match network_address resource with Some a => bt_insert a tt (ga_addresses g) | None => ga_addresses g end)
      (ga_process_count g) (ga_host_id g) (ga_host_name g)
  else g.

Definition port_text (p : port) : string := p.1 +:+ ":" +:+ pretty p.2.

Context `{Host}.

Definition build_summary (snapshot : DiscoverySnapshot) (paths : list string) : M World FactSummaryDraft :=
  let g := foldl gather gathered_start (sn_resources snapshot) in
  probe ← Requests.probe_paths paths;
  mret (mk_draft (sn_revision snapshot) (sn_generated_at snapshot) OS ARCH (ga_process_count g)
          (fst <$> ga_executables g) [] (port_text <$> ga_ports g)
          (fst <$> pp_probed probe) (fst <$> pp_present probe)
          (ga_host_id g) (ga_host_name g) (fst <$> ga_addresses g)).
End Summary.

(** * What a summary says *)

Section SummaryFacts.
Context `{FactContracts}.
Implicit Types (r : DiscoveredResource) (l : list DiscoveredResource) (g : Gathered).

(** What one resource has to say. *)
Definition kind_is (kind : string) r : bool := String.eqb (dr_kind r) kind.
Definition executable_of r : option string := if kind_is PROCESS_KIND r then attribute r PROCESS_EXECUTABLE else None.
Definition port_of r : option port := if kind_is ENDPOINT_KIND r then listen_port r else None.
Definition address_of r : option string := if kind_is IP_ADDRESS_KIND r then network_address r else None.
Definition host_id_of r : option string := if kind_is HOST_KIND r then attribute r HOST_ID else None.
Definition host_name_of r : option string := if kind_is HOST_KIND r then attribute r HOST_NAME else None.

Definition insert_found {A C} (insert : A → C → C) (found : option A) (c : C) : C :=
  match found with Some a => insert a c | None => c end.

Lemma gather_parts g r : gather g r = mk_gathered
  (insert_found (λ v, bt_insert v tt) (executable_of r) (ga_executables g))
  (insert_found port_insert (port_of r) (ga_ports g))
  (insert_found (λ v, bt_insert v tt) (address_of r) (ga_addresses g))
  (if kind_is PROCESS_KIND r then ga_process_count g + 1 else ga_process_count g)
  (default (ga_host_id g) (host_id_of r)) (default (ga_host_name g) (host_name_of r)).
Proof.
  unfold gather, executable_of, port_of, address_of, host_id_of, host_name_of, kind_is.
  destruct (String.eqb_spec (dr_kind r) PROCESS_KIND) as [E|_]; [by rewrite E|].
  destruct (String.eqb_spec (dr_kind r) ENDPOINT_KIND) as [E|_]; [by rewrite E|].
  destruct (String.eqb_spec (dr_kind r) HOST_KIND) as [E|_]; [by try rewrite E|].
  destruct (String.eqb_spec (dr_kind r) IP_ADDRESS_KIND) as [_|_]; [done|]. by destruct g.
Qed.

(** What a fold of insertions holds in the end. *)
Lemma fold_found {A C} (insert : A → C → C) (elems : C → list A) (found : DiscoveredResource → option A) :
  (∀ a c x, x ∈ elems (insert a c) ↔ x = a ∨ x ∈ elems c) →
  ∀ l c x, x ∈ elems (foldl (λ c r, insert_found insert (found r) c) c l) ↔ x ∈ elems c ∨ x ∈ omap found l.
Proof.
  intros Hi. induction l as [|r l IH]; intros c x; cbn [foldl omap list_omap]; [set_solver|].
  rewrite IH. unfold insert_found. destruct (found r) as [a|] eqn:E; [|done].
  rewrite Hi, elem_of_cons. tauto.
Qed.

Lemma fold_invariant {A C} (insert : A → C → C) (P : C → Prop) (found : DiscoveredResource → option A) :
  (∀ a c, P c → P (insert a c)) → ∀ l c, P c → P (foldl (λ c r, insert_found insert (found r) c) c l).
Proof. intros Hi. induction l as [|r l IH]; intros c Hc; cbn; [done|]. apply IH. unfold insert_found. destruct (found r); auto. Qed.

Lemma bt_keys_insert k (m : btree unit) x : x ∈ fst <$> bt_insert k tt m ↔ x = k ∨ x ∈ fst <$> m.
Proof.
  split; [apply bt_insert_keys|]. intros Hx. destruct (decide (x ∈ fst <$> bt_insert k tt m)) as [|Hn]; [done|].
  apply bt_get_not_in in Hn. destruct Hx as [->|Hx]; [by rewrite bt_get_insert_eq in Hn|].
  rewrite bt_get_insert in Hn. destruct (String.eqb x k); [done|]. by apply bt_get_not_in in Hn.
Qed.

(** ** The order of the ports *)

Definition port_lt (p q : port) : Prop := port_compare p q = Lt.

Lemma port_compare_spec p q : match port_compare p q with Lt => port_lt p q | Eq => p = q | Gt => port_lt q p end.
Proof.
  unfold port_lt, port_compare. destruct p as [a x], q as [b y]. cbn [fst snd].
  rewrite (compare_swap b a). destruct (String.compare a b) eqn:E; cbn; [|done..].
  apply String.compare_eq_iff in E as ->. destruct (Z.compare_spec x y); [by subst|done|by apply Z.compare_lt_iff].
Qed.
Lemma port_lt_irrefl p : ¬ port_lt p p.
Proof. unfold port_lt, port_compare. by rewrite compare_refl, Z.compare_refl. Qed.
Lemma port_lt_trans p q s : port_lt p q → port_lt q s → port_lt p s.
Proof.
  unfold port_lt, port_compare. destruct p as [a x], q as [b y], s as [c z]. cbn [fst snd].
  destruct (String.compare a b) eqn:E1, (String.compare b c) eqn:E2; try done.
  - apply String.compare_eq_iff in E1 as ->, E2 as ->. rewrite compare_refl, !Z.compare_lt_iff. lia.
  - apply String.compare_eq_iff in E1 as ->. by rewrite E2.
  - apply String.compare_eq_iff in E2 as ->. by rewrite E1.
  - by rewrite (str_lt_trans a b c E1 E2).
Qed.

Lemma elem_of_port_insert p (l : list port) x : x ∈ port_insert p l ↔ x = p ∨ x ∈ l.
Proof.
  induction l as [|q l IH]; cbn; [set_solver|]. pose proof (port_compare_spec p q) as Hc.
  destruct (port_compare p q); [subst q; set_solver|set_solver|]. rewrite !elem_of_cons, IH. tauto.
Qed.
Lemma port_insert_sorted p (l : list port) : StronglySorted port_lt l → StronglySorted port_lt (port_insert p l).
Proof.
  induction l as [|q l IH]; intros Hs; cbn; [repeat constructor|]. pose proof (port_compare_spec p q) as Hc.
  apply StronglySorted_inv in Hs as [Hs Hall]. destruct (port_compare p q).
  - by constructor.
  - constructor; [by constructor|]. constructor; [done|]. eapply List.Forall_impl; [|exact Hall]. intros x. by apply port_lt_trans.
  - constructor; [by apply IH|]. apply Forall_forall. intros x [->|Hx]%elem_of_port_insert; [done|].
    by eapply Forall_forall in Hx; [|exact Hall].
Qed.

(** A strictly increasing list is told by its elements. *)
Lemma increasing_unique {A} (R : relation A) (l1 l2 : list A) : (∀ x, ¬ R x x) → Transitive R →
  StronglySorted R l1 → StronglySorted R l2 → (∀ x, x ∈ l1 ↔ x ∈ l2) → l1 = l2.
Proof.
  intros Hirr Htr H1 H2 Hx.
  assert (Hnd : ∀ l : list A, StronglySorted R l → NoDup l).
  { induction l as [|x l IH]; [by constructor|]. intros [Hs Hall]%StronglySorted_inv. constructor; [|by apply IH].
    intros Hin. eapply Forall_forall in Hin; [|exact Hall]. by apply Hirr in Hin. }
  assert (AntiSymm (=) R) by (intros x y Hxy Hyx; destruct (Hirr x); by etransitivity).
  apply (StronglySorted_unique R); [done|done|]. apply NoDup_Permutation; auto.
Qed.

(** ** The whole fold *)

Definition counted l : Z := Z.of_nat (length (filter (λ r, kind_is PROCESS_KIND r = true) l)).

Lemma gathered_run l g : foldl gather g l = mk_gathered
  (foldl (λ c r, insert_found (λ v, bt_insert v tt) (executable_of r) c) (ga_executables g) l)
  (foldl (λ c r, insert_found port_insert (port_of r) c) (ga_ports g) l)
  (foldl (λ c r, insert_found (λ v, bt_insert v tt) (address_of r) c) (ga_addresses g) l)
  (ga_process_count g + counted l)
  (default (ga_host_id g) (last (omap host_id_of l))) (default (ga_host_name g) (last (omap host_name_of l))).
Proof.
  revert g. induction l as [|r l IH]; intros g.
  { cbn. unfold counted. cbn. rewrite Z.add_0_r. by destruct g. }
  cbn [foldl]. rewrite IH, gather_parts. cbn [ga_executables ga_ports ga_addresses ga_process_count ga_host_id ga_host_name].
  f_equal.
  - unfold counted. rewrite filter_cons. case_decide as E; destruct (kind_is PROCESS_KIND r); try done; cbn [length]; lia.
  - cbn [omap list_omap]. destruct (host_id_of r); [|done]. rewrite last_cons. by destruct (last (omap host_id_of l)).
  - cbn [omap list_omap]. destruct (host_name_of r); [|done]. rewrite last_cons. by destruct (last (omap host_name_of l)).
Qed.
End SummaryFacts.

(** * The syntax of addresses *)

Section Addresses.
Implicit Types (s rest : string) (l : list Z).

Definition digit_char (d : Z) : ascii := ascii_of_N (Z.to_N (48 + d)).
Definition digits_text l : string := foldr (λ d s, String (digit_char d) s) "" l.
Definition is_digit (d : Z) : Prop := (0 ≤ d < 10)%Z.
(** Nothing of a number goes on in the text that follows. *)
Definition ends_number rest : Prop := match rest with EmptyString => True | String c _ => to_digit 10 c = None end.

Lemma to_digit_10 c d : to_digit 10 c = Some d ↔ is_digit d ∧ c = digit_char d.
Proof.
  split.
  - intros Hd. assert (Hall : forallb (λ n, match to_digit 10 (ascii_of_N (N.of_nat n)) with
      | Some d => Z.leb 0 d && Z.ltb d 10 && Ascii.eqb (ascii_of_N (N.of_nat n)) (digit_char d) | None => true end)
      (seq 0 256) = true) by by vm_compute.
    assert (Hc : c = ascii_of_N (N.of_nat (N.to_nat (N_of_ascii c)))) by by rewrite N2Nat.id, ascii_N_embedding.
    rewrite forallb_forall in Hall. specialize (Hall (N.to_nat (N_of_ascii c))). rewrite <- Hc, Hd in Hall.
    pose proof (N_ascii_bounded c) as Hb.
    assert (Hin : In (N.to_nat (N_of_ascii c)) (seq 0 256)) by (apply in_seq; lia).
    apply Hall in Hin. apply andb_true_iff in Hin as [[H1 H2]%andb_true_iff H3]. apply Ascii.eqb_eq in H3. unfold is_digit. split; [lia|done].
  - intros [Hd ->]. unfold is_digit in Hd.
    assert (Hall : forallb (λ n, bool_decide (to_digit 10 (digit_char (Z.of_nat n)) = Some (Z.of_nat n))) (seq 0 10) = true) by by vm_compute.
    rewrite forallb_forall in Hall. specialize (Hall (Z.to_nat d)). rewrite Z2Nat.id in Hall by lia.
    eapply bool_decide_eq_true_1, Hall, in_seq. lia.
Qed.

Lemma digits_spec s l rest : digits 10 s = (l, rest) ↔
  s = digits_text l +:+ rest ∧ Forall is_digit l ∧ ends_number rest.
Proof.
  revert l rest. induction s as [|c s IH]; intros l rest; cbn [digits].
  - split; [by intros [= <- <-]|]. intros (Hs & _ & _). destruct l; [|done]. by rewrite Prelude.app_nil_l in Hs; subst rest.
  - destruct (to_digit 10 c) as [d|] eqn:Ed.
    + apply to_digit_10 in Ed as [Hd ->]. destruct (digits 10 s) as [l1 rest1] eqn:E1.
      destruct (proj1 (IH l1 rest1) eq_refl) as (Hs1 & Hl1 & Hr1). split.
      * intros [= <- <-]. rewrite Hs1. split_and!; [done|by constructor|done].
      * intros (Hs & Hl & Hr). destruct l as [|d' l'].
        { change (String (digit_char d) s = "" +:+ rest) in Hs. rewrite Prelude.app_nil_l in Hs. subst rest. cbn in Hr. by rewrite (proj2 (to_digit_10 _ d) (conj Hd eq_refl)) in Hr. }
        cbn in Hs. injection Hs as Hdd Hs. apply Forall_cons in Hl as [Hd' Hl'].
        assert (Some d = Some d') as [= ->].
        { rewrite <- (proj2 (to_digit_10 _ d) (conj Hd eq_refl)), Hdd. by apply to_digit_10. }
        assert (He : (l1, rest1) = (l', rest)) by (apply (IH l' rest); done).
        by injection He as -> ->.
    + split.
      * intros [= <- <-]. by split_and!.
      * intros (Hs & Hl & Hr). destruct l as [|d' l']; [by rewrite Prelude.app_nil_l in Hs; subst rest|].
        cbn in Hs. injection Hs as -> Hs. apply Forall_cons in Hl as [Hd' _].
        by rewrite (proj2 (to_digit_10 _ d') (conj Hd' eq_refl)) in Ed.
Qed.

(** The numbers of three digits at most, without a leading zero. *)
Definition canonical l : bool :=
  match l with [] => false | d :: l' => negb (Z.eqb d 0 && negb (match l' with [] => true | _ => false end)) end.
Definition all_digits : list Z := Z.of_nat <$> seq 0 10.
Definition short_numbers : list (list Z) :=
  ((λ a, [a]) <$> all_digits) ++ ((λ '(a, b), [a; b]) <$> list_prod all_digits all_digits) ++
  ((λ '(a, (b, c)), [a; b; c]) <$> list_prod all_digits (list_prod all_digits all_digits)).

Lemma elem_of_all_digits d : is_digit d → In d all_digits.
Proof. intros Hd. unfold is_digit in Hd. unfold all_digits. apply in_map_iff. exists (Z.to_nat d). split; [lia|apply in_seq; lia]. Qed.

Lemma short_number l : Forall is_digit l → l ≠ [] → length l ≤ 3 → In l short_numbers.
Proof.
  intros Hl Hn Hlen. unfold short_numbers. rewrite !in_app_iff. destruct l as [|a [|b [|c [|]]]]; [done| | | |cbn in Hlen; lia].
  - apply Forall_cons in Hl as [Ha _]. left. apply in_map_iff. exists a. split; [done|by apply elem_of_all_digits].
  - apply Forall_cons in Hl as [Ha [Hb _]%Forall_cons]. right; left. apply in_map_iff. exists (a, b). split; [done|].
    apply in_prod; by apply elem_of_all_digits.
  - apply Forall_cons in Hl as [Ha [Hb [Hc _]%Forall_cons]%Forall_cons]. right; right. apply in_map_iff. exists (a, (b, c)).
    split; [done|]. apply in_prod; [by apply elem_of_all_digits|]. apply in_prod; by apply elem_of_all_digits.
Qed.

(** A canonical short number is what printing its value gives. *)
Lemma canonical_text l : Forall is_digit l → length l ≤ 3 → canonical l = true → digits_text l = pretty (number_of 10 l).
Proof.
  intros Hl Hlen Hc. assert (Hn : l ≠ []) by by intros ->.
  assert (Hall : forallb (λ l, negb (canonical l) || String.eqb (digits_text l) (pretty (number_of 10 l))) short_numbers = true)
    by by vm_compute.
  rewrite forallb_forall in Hall. specialize (Hall l (short_number l Hl Hn Hlen)). rewrite Hc in Hall. by apply String.eqb_eq in Hall.
Qed.
Lemma octet_canonical n : (0 ≤ n ≤ 255)%Z → ∃ l, Forall is_digit l ∧ length l ≤ 3 ∧ canonical l = true ∧ number_of 10 l = n.
Proof.
  intros Hn.
  assert (Hall : forallb (λ k, existsb (λ l, canonical l && Z.eqb (number_of 10 l) (Z.of_nat k)) short_numbers) (seq 0 256) = true)
    by by vm_compute.
  rewrite forallb_forall in Hall. specialize (Hall (Z.to_nat n) ltac:(apply in_seq; lia)).
  apply existsb_exists in Hall as (l & Hin & [Hc He]%andb_true_iff). rewrite Z2Nat.id in He by lia.
  assert (Hd : Forall is_digit l ∧ length l ≤ 3).
  { assert (Hb : forallb (λ l, forallb (λ d, Z.leb 0 d && Z.ltb d 10) l && Nat.leb (length l) 3) short_numbers = true) by by vm_compute.
    rewrite forallb_forall in Hb. specialize (Hb l Hin). apply andb_true_iff in Hb as [Hb Hl]. apply Nat.leb_le in Hl. split; [|done].
    apply Forall_forall. intros d Hd. rewrite forallb_forall in Hb. apply list_elem_of_In in Hd. specialize (Hb d Hd). unfold is_digit. lia. }
  exists l. destruct Hd. split_and!; [done..|lia].
Qed.

Lemma read_octet_spec s n rest : read_octet s = Some (n, rest) ↔
  (0 ≤ n ≤ 255)%Z ∧ s = pretty n +:+ rest ∧ ends_number rest.
Proof.
  unfold read_octet, read_number. destruct (digits 10 s) as [l r] eqn:E.
  split.
  - apply digits_spec in E as (-> & Hl & Hr). destruct (Nat.ltb_spec 3 (length l)) as [|Hlen]; [done|].
    destruct (canonical l) eqn:Hc.
    + pose proof (canonical_text l Hl Hlen Hc) as Ht. destruct l as [|d l']; [done|]. cbn [canonical negb andb] in *.
      destruct (Z.eqb d 0 && _); [done|]. destruct (Z.leb_spec (number_of 10 (d :: l')) 255); [|done].
      intros [= <- <-]. rewrite Ht. split_and!; [|done..|done].
      assert (Hnn : ∀ l n, Forall is_digit l → (0 ≤ n)%Z → (0 ≤ foldl (λ n d, n * 10 + d)%Z n l)%Z).
      { induction l as [|x l IH]; intros m Hf Hm; cbn; [done|]. apply Forall_cons in Hf as [Hx Hf]. apply IH; [done|]. unfold is_digit in Hx. lia. }
      unfold number_of. by apply Hnn.
    + destruct l as [|d l']; [done|]. cbn [canonical negb andb] in *. by destruct (Z.eqb d 0 && _).
  - intros (Hn & -> & Hr). destruct (octet_canonical n Hn) as (l' & Hl & Hlen & Hc & <-).
    rewrite <- (canonical_text l' Hl Hlen Hc) in E.
    assert (E' : digits 10 (digits_text l' +:+ rest) = (l', rest)) by (apply digits_spec; done).
    rewrite E' in E. injection E as <- <-. destruct (Nat.ltb_spec 3 (length l')); [lia|].
    destruct l' as [|d l2]; [done|]. cbn [canonical negb andb] in *. destruct (Z.eqb d 0 && _); [done|].
    by destruct (Z.leb_spec (number_of 10 (d :: l2)) 255); [|lia].
Qed.

(** ** A whole IPv4 address *)

Definition octet (n : Z) : Prop := (0 ≤ n ≤ 255)%Z.
Definition v4_text (a b c d : Z) : string := pretty a +:+ "." +:+ pretty b +:+ "." +:+ pretty c +:+ "." +:+ pretty d.

Lemma read_char_spec c s rest : read_char c s = Some (tt, rest) ↔ s = String c rest.
Proof.
  split.
  - destruct s as [|a s]; cbn; [done|]. destruct (Ascii.eqb_spec a c) as [->|]; [|done]. by intros [= ->].
  - intros ->. cbn. by rewrite Ascii.eqb_refl.
Qed.

Lemma read_octet_next s n rest : read_separator "."%char 1 read_octet s = Some (n, rest) ↔
  octet n ∧ s = "." +:+ pretty n +:+ rest ∧ ends_number rest.
Proof.
  cbn. split.
  - destruct (read_char "." s) as [[[] s']|] eqn:E; [|done]. apply read_char_spec in E as ->. cbn.
    intros (Hn & -> & Hr)%read_octet_spec. by split_and!.
  - intros (Hn & -> & Hr). rewrite (proj2 (read_char_spec "." ("." +:+ pretty n +:+ rest) (pretty n +:+ rest)) eq_refl). by apply read_octet_spec.
Qed.

Lemma read_ipv4_spec s l rest : read_ipv4 s = Some (l, rest) ↔ ∃ a b c d, l = [a; b; c; d] ∧
  (octet a ∧ octet b ∧ octet c ∧ octet d) ∧ s = v4_text a b c d +:+ rest ∧ ends_number rest.
Proof.
  unfold read_ipv4, v4_text. split.
  - destruct (read_separator "." 0 read_octet s) as [[a s1]|] eqn:E1; [|done]. apply read_octet_spec in E1 as (Ha & -> & _). cbn [mbind option_bind].
    change (read_separator "." 2 read_octet) with (read_separator "." 1 read_octet).
    change (read_separator "." 3 read_octet) with (read_separator "." 1 read_octet).
    destruct (read_separator "." 1 read_octet s1) as [[b s2]|] eqn:E2; [|done]. apply read_octet_next in E2 as (Hb & -> & _). cbn [mbind option_bind].
    destruct (read_separator "." 1 read_octet s2) as [[c s3]|] eqn:E3; [|done]. apply read_octet_next in E3 as (Hc & -> & _). cbn [mbind option_bind].
    destruct (read_separator "." 1 read_octet s3) as [[d s4]|] eqn:E4; [|done]. apply read_octet_next in E4 as (Hd & -> & Hr). cbn [mbind option_bind].
    intros [= <- <-]. exists a, b, c, d. split_and!; [done..| |done]. by rewrite <- !Prelude.app_assoc.
  - intros (a & b & c & d & -> & (Ha & Hb & Hc & Hd) & -> & Hr). rewrite <- !Prelude.app_assoc.
    change (read_separator "." 2 read_octet) with (read_separator "." 1 read_octet).
    change (read_separator "." 3 read_octet) with (read_separator "." 1 read_octet).
    assert (E1 : read_separator "." 0 read_octet (pretty a +:+ "." +:+ pretty b +:+ "." +:+ pretty c +:+ "." +:+ pretty d +:+ rest)
      = Some (a, "." +:+ pretty b +:+ "." +:+ pretty c +:+ "." +:+ pretty d +:+ rest)) by (apply read_octet_spec; by split).
    rewrite E1. cbn [mbind option_bind].
    assert (En : ∀ n rest, octet n → ends_number rest → read_separator "." 1 read_octet ("." +:+ pretty n +:+ rest) = Some (n, rest))
      by (intros; by apply read_octet_next).
    rewrite (En b ("." +:+ pretty c +:+ "." +:+ pretty d +:+ rest)) by done. cbn [mbind option_bind].
    rewrite (En c ("." +:+ pretty d +:+ rest)) by done. cbn [mbind option_bind]. by rewrite (En d rest).
Qed.

Lemma parse_ipv4_spec s l : parse_ipv4 s = Some l ↔ ∃ a b c d, l = [a; b; c; d] ∧
  (octet a ∧ octet b ∧ octet c ∧ octet d) ∧ s = v4_text a b c d.
Proof.
  unfold parse_ipv4, parse_with. split.
  - destruct (Nat.ltb 15 _); [done|]. destruct (read_ipv4 s) as [[l' rest]|] eqn:E; [|done]. destruct rest; [|done].
    intros [= ->]. apply read_ipv4_spec in E as (a & b & c & d & -> & Ho & -> & _). rewrite Prelude.app_nil_r. eauto 8.
  - intros (a & b & c & d & -> & (Ha & Hb & Hc & Hd) & ->).
    assert (Hlen : ∀ n, octet n → String.length (pretty n) ≤ 3).
    { intros n Hn. assert (Hall : forallb (λ k, Nat.leb (String.length (pretty (Z.of_nat k))) 3) (seq 0 256) = true) by by vm_compute.
      rewrite forallb_forall in Hall. unfold octet in Hn. specialize (Hall (Z.to_nat n) ltac:(apply in_seq; lia)).
      rewrite Z2Nat.id in Hall by lia. by apply Nat.leb_le. }
    assert (Hl : String.length (v4_text a b c d) ≤ 15).
    { unfold v4_text. rewrite !length_app_string. change (String.length ".") with 1.
      pose proof (Hlen a Ha). pose proof (Hlen b Hb). pose proof (Hlen c Hc). pose proof (Hlen d Hd). lia. }
    destruct (Nat.ltb_spec 15 (String.length (v4_text a b c d))); [lia|].
    rewrite (proj2 (read_ipv4_spec (v4_text a b c d) [a; b; c; d] "")); [done|]. exists a, b, c, d.
    split_and!; [done..|by rewrite Prelude.app_nil_r|done].
Qed.

Lemma read_groups_v4 i left s a b c d rest : read_separator ":"%char i read_ipv4 s = Some ([a; b; c; d], rest) →
  read_groups i (S (S left)) s = ([(a * 256 + b)%Z; (c * 256 + d)%Z], true, rest).
Proof. intros E. cbn [read_groups]. change (Nat.ltb 0 (S left)) with true. by rewrite E. Qed.

(** An IPv4 address alone is not an IPv6 address. *)
Lemma ipv4_not_ipv6 a b c d : octet a → octet b → octet c → octet d → parse_ipv6 (v4_text a b c d) = None.
Proof.
  intros Ha Hb Hc Hd. unfold parse_ipv6, parse_with, read_ipv6.
  assert (E : read_ipv4 (v4_text a b c d) = Some ([a; b; c; d], ""))
    by (apply read_ipv4_spec; exists a, b, c, d; split_and!; [done..|by rewrite Prelude.app_nil_r|done]).
  by rewrite (read_groups_v4 0 6 _ a b c d "" E).
Qed.

(** ** The groups of an IPv6 address *)

Definition group (g : Z) : Prop := (0 ≤ g < 65536)%Z.

Lemma to_digit_nonneg radix c d : to_digit radix c = Some d → (0 ≤ d)%Z.
Proof.
  unfold to_digit, in_range. set (z := code c).
  destruct (Z.leb_spec 48 z), (Z.leb_spec z 57), (Z.leb_spec 97 z), (Z.leb_spec z 122), (Z.leb_spec 65 z), (Z.leb_spec z 90);
    cbn [andb mbind option_bind]; try done; destruct (Z.ltb _ radix); intros [= <-]; lia.
Qed.

Lemma read_number_bounded radix k zero max s n rest : (0 ≤ radix)%Z →
  read_number radix k zero max s = Some (n, rest) → (0 ≤ n ≤ max)%Z.
Proof.
  intros Hr. unfold read_number. destruct (digits radix s) as [l r] eqn:E.
  assert (Hl : Forall (λ d, 0 ≤ d)%Z l).
  { revert l r E. induction s as [|c s IH]; intros l r E; cbn in E; [by injection E as <- <-|].
    destruct (to_digit radix c) as [d|] eqn:Ed; [|by injection E as <- <-].
    destruct (digits radix s) as [l1 r1]. injection E as <- <-. constructor; [|by eapply IH].
    by eapply to_digit_nonneg. }
  assert (Hnn : ∀ l n, Forall (λ d, 0 ≤ d)%Z l → (0 ≤ n)%Z → (0 ≤ foldl (λ n d, n * radix + d)%Z n l)%Z).
  { intros l0. induction l0 as [|x l0 IH]; intros m Hf Hm; cbn; [done|]. apply Forall_cons in Hf as [Hx Hf]. apply IH; [done|nia]. }
  destruct (Nat.ltb k (length l)); [done|]. destruct l as [|d l']; [done|]. destruct (_ && _ && _); [done|].
  destruct (Z.leb_spec (number_of radix (d :: l')) max); [|done]. intros [= <- <-]. split; [|done]. by apply Hnn.
Qed.

Lemma read_separator_some {A} sep i (p : parser A) s a rest : read_separator sep i p s = Some (a, rest) → ∃ s', p s' = Some (a, rest).
Proof. destruct i; cbn; [eauto|]. destruct (read_char sep s) as [[[] s']|]; cbn; [eauto|done]. Qed.

Lemma read_groups_shape i left s : let '(l, _, _) := read_groups i left s in Forall group l ∧ length l ≤ left.
Proof.
  revert i s. induction left as [|left IH]; intros i s; [by split; [constructor|cbn]|].
  cbn [read_groups].
  set (v4 := if Nat.ltb 0 left then read_separator ":"%char i read_ipv4 s else None).
  assert (Hv4 : match v4 with Some (l, _) => 0 < left ∧ ∃ a b c d, l = [a; b; c; d] ∧ octet a ∧ octet b ∧ octet c ∧ octet d | None => True end).
  { unfold v4. destruct (Nat.ltb_spec 0 left); [|done]. destruct (read_separator _ _ _ _) as [[l r]|] eqn:E; [|done].
    apply read_separator_some in E as [s' (a & b & c & d & -> & Ho & _)%read_ipv4_spec]. split; [done|]. naive_solver. }
  assert (Hrest : let '(l, _, _) := match read_separator ":"%char i (read_number 16 4 true 65535) s with
      | Some (g, s) => let '(l, v4, s) := read_groups (S i) left s in (g :: l, v4, s)
      | None => ([], false, s) end in Forall group l ∧ length l ≤ S left).
  { destruct (read_separator _ i (read_number 16 4 true 65535) s) as [[g s']|] eqn:E; [|split; [constructor|cbn; lia]].
    specialize (IH (S i) s'). destruct (read_groups (S i) left s') as [[l b] s2]. destruct IH as [Hl Hlen].
    apply read_separator_some in E as [s0 E]. apply read_number_bounded in E; [|done].
    split; [constructor; [unfold group; lia|done]|cbn; lia]. }
  destruct v4 as [[l r]|]; [|done]. destruct Hv4 as (Hleft & a & b & c & d & -> & Ha & Hb & Hc & Hd).
  unfold octet in *. split; [repeat constructor; unfold group; lia|cbn; lia].
Qed.

#[local] Opaque read_groups.

Lemma parse_ipv6_shape s l : parse_ipv6 s = Some l → length l = 8 ∧ Forall group l.
Proof.
  unfold parse_ipv6, parse_with. destruct (read_ipv6 s) as [[l' rest]|] eqn:E; [|done]. destruct rest; [|done]. intros [= ->].
  unfold read_ipv6 in E. pose proof (read_groups_shape 0 8 s) as Hh. destruct (read_groups 0 8 s) as [[head v4] s1]. destruct Hh as [Hh Hlh].
  destruct (Nat.eqb_spec (length head) 8); [by injection E as -> _|]. destruct v4; [done|].
  destruct (read_char ":" s1) as [[? s2]|]; [|done]. cbn [mbind option_bind] in E.
  destruct (read_char ":" s2) as [[? s3]|]; [|done]. cbn [mbind option_bind] in E.
  pose proof (read_groups_shape 0 (8 - (length head + 1)) s3) as Ht.
  destruct (read_groups 0 _ s3) as [[tail ?] s4]. destruct Ht as [Ht Hlt]. injection E as <- _. split.
  - rewrite !length_app, length_replicate. lia.
  - rewrite !Forall_app. split_and!; [done| |done]. apply Forall_replicate. unfold group. lia.
Qed.

(** The unicast addresses of a link are those from fe80 to febf. *)
Fixpoint range (from : Z) (n : nat) : list Z := match n with O => [] | S n => from :: range (Z.succ from) n end.
Lemma elem_of_range x from n : (from ≤ x < from + Z.of_nat n)%Z → In x (range from n).
Proof. revert from. induction n as [|n IH]; intros from Hx; [lia|]. destruct (decide (x = from)) as [->|]; [by left|right]. apply IH. lia. Qed.

Lemma link_local_range g : group g → Z.eqb (Z.land g 65472) 65152 = true ↔ (65152 ≤ g ≤ 65215)%Z.
Proof.
  intros Hg. unfold group in Hg.
  assert (Hall : forallb (λ g, Bool.eqb (Z.eqb (Z.land g 65472) 65152) (Z.leb 65152 g && Z.leb g 65215)) (range 0 (2 ^ 16)) = true)
    by by vm_compute.
  rewrite forallb_forall in Hall.
  specialize (Hall g (elem_of_range g 0 (2 ^ 16) ltac:(change (Z.of_nat (2 ^ 16)) with 65536%Z; lia))).
  apply Bool.eqb_prop in Hall. rewrite Hall, andb_true_iff, !Z.leb_le. done.
Qed.

Lemma before_slash spec : ∃ ip, head (split_on slash spec) = Some ip ∧ has_char slash ip = false ∧
  (spec = ip ∨ ∃ rest, spec = ip +:+ "/" +:+ rest).
Proof.
  induction spec as [|c s (ip & Hh & Hc & Hs)]; cbn [split_on]; [exists ""; split_and!; [done|done|by left]|].
  destruct (Ascii.eqb_spec c slash) as [->|Hne].
  - exists "". split_and!; [done|done|right]. by exists s.
  - destruct (split_on slash s) as [|x l]; [done|]. cbn in Hh. injection Hh as ->. exists (String c ip).
    split_and!; [done| |].
    + rewrite has_char_cons, Hc. by destruct (Ascii.eqb_spec c slash).
    + destruct Hs as [->|[rest ->]]; [by left|right]. by exists rest.
Qed.
End Addresses.

(** * What a summary promises *)

Section Claims.

(** Which addresses are left out of the summary: what stands before the first slash is an IPv6 address
    that is the loopback or the unspecified one or is from fe80 to febf, however it is written, or it is
    four decimal octets without leading zeros that begin with 127, begin with 169.254 or are all zero.
    Nothing else is left out. *)
Theorem address_noise_exact spec :
  ∃ ip, (spec = ip ∨ ∃ rest, spec = ip +:+ "/" +:+ rest) ∧ has_char slash ip = false ∧
  (is_meaningless_address_spec spec = true ↔
    (∃ g groups, parse_ipv6 ip = Some (g :: groups) ∧ length groups = 7 ∧
      ((65152 ≤ g ≤ 65215)%Z ∨ g :: groups = replicate 8 0%Z ∨ g :: groups = (replicate 7 0 ++ [1])%Z)) ∨
    (∃ a b c d, ip = v4_text a b c d ∧ (octet a ∧ octet b ∧ octet c ∧ octet d) ∧
      (a = 127 ∨ (a = 169 ∧ b = 254) ∨ (a = 0 ∧ b = 0 ∧ c = 0 ∧ d = 0))%Z)).
Proof.
  destruct (before_slash spec) as (ip & Hh & Hc & Hs). exists ip. split_and!; [done..|].
  unfold is_meaningless_address_spec. rewrite Hh. change (default spec (Some ip)) with ip. unfold is_meaningless_address.
  destruct (parse_ipv6 ip) as [l|] eqn:E6.
  - destruct (parse_ipv6_shape _ _ E6) as [Hlen Hg]. destruct l as [|g groups]; [done|]. cbn [length] in Hlen. injection Hlen as Hlen.
    apply Forall_cons in Hg as [Hg _]. rewrite !orb_true_iff, !bool_decide_eq_true, (link_local_range g Hg). split.
    + intros Hx. left. exists g, groups. split_and!; [done|done|]. tauto.
    + intros [(g' & groups' & [= <- <-] & _ & Hx)|(a & b & c & d & -> & (Ha & Hb & Hc' & Hd) & _)]; [tauto|].
      by rewrite ipv4_not_ipv6 in E6.
  - destruct (parse_ipv4 ip) as [l|] eqn:E4.
    + apply parse_ipv4_spec in E4 as (a & b & c & d & -> & Ho & ->). rewrite !orb_true_iff, !andb_true_iff, !Z.eqb_eq. split.
      * intros Hx. right. exists a, b, c, d. split_and!; [done|tauto..].
      * intros [(? & ? & ? & _)|(a' & b' & c' & d' & He & Ho' & Hx)]; [done|].
        assert (Some [a'; b'; c'; d'] = Some [a; b; c; d]) as [= -> -> -> ->]; [|tauto].
        transitivity (parse_ipv4 (v4_text a b c d)); [symmetry|]; apply parse_ipv4_spec; [exists a', b', c', d'|exists a, b, c, d]; done.
    + split; [done|]. intros [(? & ? & ? & _)|(a & b & c & d & He & Ho & _)]; [done|].
      assert (parse_ipv4 ip = Some [a; b; c; d]) by (apply parse_ipv4_spec; eauto 8). congruence.
Qed.

Context `{FactContracts} `{Host}.

(** It always succeeds and changes nothing. *)
Lemma probe_all_total paths report w : ∃ report', probe_all paths report w = (Ok report', w).
Proof.
  revert report. induction paths as [|path paths IH]; intros report; [by eexists|]. cbn [probe_all].
  assert (∃ report', probe_path path report w = (Ok report', w)) as [report' E].
  { unfold probe_path. destruct (_ || _); [by eexists|].
    assert (∃ r, try (fs_metadata (trim path)) w = (Ok r, w)) as [r E].
    { unfold try, fs_metadata, guard_fault, act, mbind, M_bind. destruct (fs_fault _ _); [by eexists|]. destruct (fs_exists _ _); by eexists. }
    erewrite bind_ok by exact E. destruct r as [|e]; [by eexists|]. case_decide; by eexists. }
  erewrite bind_ok by exact E. apply IH.
Qed.
Lemma summary_total snapshot paths w : ∃ d, build_summary snapshot paths w = (Ok d, w).
Proof.
  unfold build_summary, Requests.probe_paths. destruct (probe_all_total paths probe_report_default w) as [report E].
  erewrite bind_ok by exact E. by eexists.
Qed.

(** C37. What a summary says: the executables of the processes, the service ports and the addresses that
    were found, each once and in increasing order, a port only if it is below those handed out to
    clients; every process counted; the identity of the host as last reported; no packages. *)
Theorem summary_exact snapshot paths w r w' : build_summary snapshot paths w = (r, w') →
  match r with
  | Ok d =>
      let l := sn_resources snapshot in
      StronglySorted str_lt (fd_process_executables d) ∧
      (∀ v, v ∈ fd_process_executables d ↔ ∃ x, x ∈ l ∧ executable_of x = Some v) ∧
      (∃ ports, fd_listen_ports d = port_text <$> ports ∧ StronglySorted port_lt ports ∧
        ∀ p, p ∈ ports ↔ ∃ x, x ∈ l ∧ port_of x = Some p) ∧
      (∀ x p, port_of x = Some p → (p.2 < EPHEMERAL_PORT_START)%Z) ∧
      StronglySorted str_lt (fd_network_addresses d) ∧
      (∀ v, v ∈ fd_network_addresses d ↔ ∃ x, x ∈ l ∧ address_of x = Some v) ∧
      fd_process_count d = counted l ∧
      fd_host_id d = default "" (last (omap host_id_of l)) ∧ fd_host_name d = default "" (last (omap host_name_of l)) ∧
      fd_packages d = [] ∧ fd_revision d = sn_revision snapshot ∧ fd_observed_at d = sn_generated_at snapshot
  | Err e => (Requests.probe_paths paths w).1 = Err e
  end.
Proof.
  unfold build_summary. intros [(e & E1 & ->)|(probe & w1 & E1 & E2)]%bind_inv; [by rewrite E1|].
  injection E2 as <- <-. cbn. rewrite gathered_run. cbn [ga_executables ga_ports ga_addresses ga_process_count ga_host_id ga_host_name gathered_start].
  assert (Hbt : ∀ found, bt_wf (foldl (λ c r, insert_found (λ v, bt_insert v tt) (found r) c) [] (sn_resources snapshot)) ∧
    ∀ v, v ∈ fst <$> foldl (λ c r, insert_found (λ v, bt_insert v tt) (found r) c) [] (sn_resources snapshot) ↔
      ∃ x, x ∈ sn_resources snapshot ∧ found x = Some v).
  { intros found. split.
    - apply (fold_invariant _ (bt_wf (V := unit))); [intros; by apply bt_insert_wf|apply bt_nil_wf].
    - intros v. rewrite (fold_found _ (λ m : btree unit, fst <$> m) found) by (intros; apply bt_keys_insert). rewrite list_elem_of_omap. cbn. set_solver. }
  split_and!; try done; try apply Hbt.
  - eexists. split; [done|]. split; [apply (fold_invariant _ (StronglySorted port_lt)); [intros; by apply port_insert_sorted|constructor]|].
    intros p. rewrite (fold_found _ (λ l, l) port_of) by (intros; apply elem_of_port_insert). rewrite list_elem_of_omap. cbn. set_solver.
  - intros x p. unfold port_of, listen_port. destruct (kind_is _ _); [|done]. destruct (attribute x ENDPOINT_PORT ≫= parse_u16) as [n|]; [|done]. cbn.
    destruct (Z.leb_spec EPHEMERAL_PORT_START n); [done|]. destruct (attribute x ENDPOINT_PROTOCOL); [|done]. by intros [= <-].
Qed.

(** Two snapshots in which the same executables and the same service ports were found have the same
    content, and so the same digest, whatever else differs: order, repetitions, process ids, revision,
    time, host name and addresses. *)
Theorem content_is_canonical s1 s2 paths w1 w2 d1 d2 :
  (∀ v, (∃ x, x ∈ sn_resources s1 ∧ executable_of x = Some v) ↔ (∃ x, x ∈ sn_resources s2 ∧ executable_of x = Some v)) →
  (∀ v, (∃ x, x ∈ sn_resources s1 ∧ port_of x = Some v) ↔ (∃ x, x ∈ sn_resources s2 ∧ port_of x = Some v)) →
  (Requests.probe_paths paths w1).1 = (Requests.probe_paths paths w2).1 →
  (build_summary s1 paths w1).1 = Ok d1 → (build_summary s2 paths w2).1 = Ok d2 →
  draft_content d1 = draft_content d2 ∧ content_digest d1 = content_digest d2.
Proof.
  intros He Hp Hw. unfold build_summary, mbind, M_bind.
  destruct (Requests.probe_paths paths w1) as [r1 v1], (Requests.probe_paths paths w2) as [r2 v2]. cbn [fst] in Hw. subst r2.
  destruct r1 as [probe|]; [|done]. cbn [fst mret M_ret]. rewrite !gathered_run. cbn. intros [= <-] [= <-].
  assert (Hu : ∀ d1 d2, draft_content d1 = draft_content d2 → draft_content d1 = draft_content d2 ∧ content_digest d1 = content_digest d2)
    by (intros ?? E; split; [done|]; unfold content_digest; by rewrite E).
  apply Hu. unfold draft_content. cbn. f_equal.
  - apply (increasing_unique str_lt); [apply str_lt_irrefl|intros ???; apply str_lt_trans| | |].
    1,2: apply (fold_invariant _ (bt_wf (V := unit))); [intros; by apply bt_insert_wf|apply bt_nil_wf].
    intros v. rewrite !(fold_found _ (λ m : btree unit, fst <$> m) executable_of) by (intros; apply bt_keys_insert).
    rewrite !list_elem_of_omap, He. done.
  - f_equal. apply (increasing_unique port_lt); [apply port_lt_irrefl|intros ???; apply port_lt_trans| | |].
    1,2: apply (fold_invariant _ (StronglySorted port_lt)); [intros; by apply port_insert_sorted|constructor].
    intros v. rewrite !(fold_found _ (λ l, l) port_of) by (intros; apply elem_of_port_insert).
    rewrite !list_elem_of_omap, Hp. done.
Qed.
End Claims.

(** * A concrete summary *)

Module ConcreteFacts.
Import Concrete ConcreteDiscovery.

#[export] Instance toy_facts : FactContracts := {|
  FactContent := list (list string);
  FactContent_new os arch executables packages ports probed present := [[os; arch]; executables; packages; ports; probed; present];
  fact_digest c := Text.join "|" (Text.join "," <$> c);
  EPHEMERAL_PORT_START := 32768;
  OS := "linux";
  ARCH := "x86_64";
|}.

Definition found (kind : string) (attributes : btree string) : DiscoveredResource :=
  mk_resource kind kind 0 attributes "t" "t" "ok" "local".
Definition machine : list DiscoveredResource :=
  [found "process" [(PROCESS_EXECUTABLE, "/usr/bin/nginx")]; found "process" [(PROCESS_EXECUTABLE, "/bin/sh")];
   found "process" [(PROCESS_EXECUTABLE, "/usr/bin/nginx")];
   found "service_endpoint" [(ENDPOINT_PORT, "5432"); (ENDPOINT_PROTOCOL, "TCP")];
   found "service_endpoint" [(ENDPOINT_PORT, "443"); (ENDPOINT_PROTOCOL, "tcp")];
   found "service_endpoint" [(ENDPOINT_PORT, "40000"); (ENDPOINT_PROTOCOL, "tcp")];
   found "host" [(HOST_ID, "h"); (HOST_NAME, "db-1")];
   found "ip_address" [(ADDR_CIDR, "10.0.0.2/24"); (ADDR_IFACE, "eth0")];
   found "ip_address" [(ADDR_CIDR, "fe80::1/64"); (ADDR_IFACE, "eth0")];
   found "ip_address" [(ADDR_IP, "127.0.0.1")]].
Definition seen (l : list DiscoveredResource) : DiscoverySnapshot := snapshot_new "s" 7 "now" [] l [].

Lemma summary_exact_witness :
  match (build_summary (seen machine) ["/"] empty_world).1 with
  | Ok d => fd_process_count d = 3%Z ∧ fd_process_executables d = ["/bin/sh"; "/usr/bin/nginx"] ∧
      fd_listen_ports d = ["tcp:443"; "tcp:5432"] ∧ fd_network_addresses d = ["eth0 10.0.0.2/24"] ∧
      StronglySorted str_lt (fd_process_executables d)
  | Err _ => False
  end.
Proof.
  pose proof (summary_exact (seen machine) ["/"] empty_world _ _ (surjective_pairing _)) as Hs.
  assert (Hv : match (build_summary (seen machine) ["/"] empty_world).1 with
    | Ok d => fd_process_count d = 3%Z ∧ fd_process_executables d = ["/bin/sh"; "/usr/bin/nginx"] ∧
        fd_listen_ports d = ["tcp:443"; "tcp:5432"] ∧ fd_network_addresses d = ["eth0 10.0.0.2/24"]
    | Err _ => False end) by by vm_compute.
  destruct (build_summary (seen machine) ["/"] empty_world).1 as [d|e]; [|done].
  destruct Hv as (H1 & H2 & H3 & H4), Hs as (Hs & _). by split_and!.
Defined.

(** The machine listed backwards. *)
Definition draft_of (l : list DiscoveredResource) : option FactSummaryDraft :=
  result_ok (build_summary (seen l) [] empty_world).1.
Lemma content_is_canonical_witness :
  match draft_of machine, draft_of (rev machine) with
  | Some d1, Some d2 => content_digest d1 = content_digest d2
  | _, _ => False
  end.
Proof.
  assert (Hin : ∀ x, x ∈ machine ↔ x ∈ rev machine) by (intros x; rewrite !list_elem_of_In; apply in_rev).
  assert (Hany : ∀ A (f : DiscoveredResource → option A) v,
    (∃ x, x ∈ machine ∧ f x = Some v) ↔ (∃ x, x ∈ rev machine ∧ f x = Some v)) by (intros; setoid_rewrite Hin; done).
  unfold draft_of.
  destruct (build_summary (seen machine) [] empty_world).1 as [d1|] eqn:E1; [|by vm_compute in E1].
  destruct (build_summary (seen (rev machine)) [] empty_world).1 as [d2|] eqn:E2; [|by vm_compute in E2].
  exact (proj2 (content_is_canonical (seen machine) (seen (rev machine)) [] empty_world empty_world d1 d2
    (Hany _ _) (Hany _ _) eq_refl E1 E2)).
Defined.
End ConcreteFacts.
