(* ===== verification/Planner.v ===== *)
(** What the daemon makes of a refresh of discovery: the candidates for collection (exec/planner_bridge.rs),
    their documents (state_store/planner_candidates.rs), the view of the metrics targets
    (telemetry/metrics/target_view.rs), the health of the probes and [refresh_discovery_snapshot] of
    runtime/daemon.rs, which does all of it. *)
From stdpp Require Import pretty.
From S2P Require Import Prelude Errors Text Host Toy Fmt Throttle BTree Discovery Facts.

(** * Data *)

(** wist_contracts and wist_metrics. *)
Record StringKeyValue := mk_kv { kv_key : string; kv_value : string }.
Record CollectionCandidate := mk_candidate {
  cc_candidate_id : string;
  cc_target_ref : string;
  cc_collection_kind : string;
  cc_resource_ref : string;
  cc_execution_hints : list StringKeyValue;
  cc_generated_at : string;
}.
Record MetricsTargetViewEntry := mk_view_entry {
  ve_candidate_id : string;
  ve_collection_kind : string;
  ve_target_ref : string;
  ve_resource_ref : string;
  ve_execution_hints : list StringKeyValue;
}.

Record MetricsTargetView := mk_target_view {
  tv_generated_at : string;
  tv_targets : list MetricsTargetViewEntry;
}.

(** * exec/planner_bridge.rs *)

Definition kv_of (kv : string * string) : StringKeyValue := mk_kv kv.1 kv.2.
Definition PROCESS_HINTS : list string :=
  ["process.pid"; "process.identity"; "discovery.identity_strength"; "discovery.identity_status"].
Definition CONTAINER_HINTS : list string :=
  ["container.runtime"; "container.runtime.namespace"; "pid"; "cgroup.path";
   "k8s.namespace.name"; "k8s.pod.uid"; "k8s.pod.name"; "k8s.container.name"].
Definition kept_hints (keys : list string) (hints : btree string) : list StringKeyValue :=
  kv_of <$> List.filter (λ kv, existsb (String.eqb kv.1) keys) hints.

Definition candidate_of (generated_at : string) (target : DiscoveredTarget) : option CollectionCandidate :=
  let candidate kind hints :=
    Some (mk_candidate (dt_target_id target +:+ ":" +:+ kind) (dt_target_id target) kind (dt_resource_ref target)
            hints generated_at) in
  if String.eqb (dt_kind target) "host" then candidate "host_metrics" (kv_of <$> dt_execution_hints target)
  else if String.eqb (dt_kind target) "process" then
    candidate "process_metrics" (kept_hints PROCESS_HINTS (dt_execution_hints target))
  else if String.eqb (dt_kind target) "container" then
    candidate "container_metrics" (kept_hints CONTAINER_HINTS (dt_execution_hints target))
  else None.
Definition build_collection_candidates (snapshot : DiscoverySnapshot) : list CollectionCandidate :=
  omap (candidate_of (sn_generated_at snapshot)) (sn_targets snapshot).

(** * state_store/planner_candidates.rs *)

Definition PLANNER_DIR : string := "planner".
Definition HOST_METRICS_CANDIDATES_FILE : string := "host_metrics_candidates.json".
Definition PROCESS_METRICS_CANDIDATES_FILE : string := "process_metrics_candidates.json".
Definition CONTAINER_METRICS_CANDIDATES_FILE : string := "container_metrics_candidates.json".
Definition host_metrics_path_for (state_dir : string) : string :=
  path_join (path_join state_dir PLANNER_DIR) HOST_METRICS_CANDIDATES_FILE.
Definition process_metrics_path_for (state_dir : string) : string :=
  path_join (path_join state_dir PLANNER_DIR) PROCESS_METRICS_CANDIDATES_FILE.
Definition container_metrics_path_for (state_dir : string) : string :=
  path_join (path_join state_dir PLANNER_DIR) CONTAINER_METRICS_CANDIDATES_FILE.
Definition view_path_for (state_dir : string) : string :=
  path_join (path_join state_dir "telemetry") "metrics_target_view.json".

Section Stores.
Context `{Host} {BE : Backend} `{!Json (list CollectionCandidate)} `{!Json MetricsTargetView}.

Definition candidates_load_or_default (path : string) : M World (list CollectionCandidate) :=
  there ← be_probe path;
  if there : bool then be_read_json path else mret [].
Definition candidates_store (path : string) (candidates : list CollectionCandidate) : M World unit :=
  be_write_json path candidates.

(** * telemetry/metrics/target_view.rs *)

Definition map_candidate (c : CollectionCandidate) : MetricsTargetViewEntry :=
  mk_view_entry (cc_candidate_id c) (cc_collection_kind c) (cc_target_ref c) (cc_resource_ref c) (cc_execution_hints c).

Fixpoint extend_targets (paths : list string) (targets : list MetricsTargetViewEntry) :
    M World (list MetricsTargetViewEntry) :=
  match paths with
  | [] => mret targets
  | path :: paths =>
      candidates ← candidates_load_or_default path;
      extend_targets paths (targets ++ (map_candidate <$> candidates))%list
  end.
Definition build_metrics_target_view (state_dir generated_at : string) : M World MetricsTargetView :=
  targets ← extend_targets [host_metrics_path_for state_dir; process_metrics_path_for state_dir;
                            container_metrics_path_for state_dir] [];
  mret (mk_target_view generated_at targets).
Definition view_store (path : string) (view : MetricsTargetView) : M World unit := be_write_json path view.
End Stores.

(** * The health of discovery: runtime/self_observability.rs and runtime/daemon.rs *)

Inductive DiscoveryReadiness := NotReady | ReadyWithStaleSnapshot | Ready.

Record DiscoveryProbeHealth := mk_probe_health {
  ph_source : string;
  ph_probe : string;
  ph_phase : string;
  ph_status : string;
  ph_resource_count : nat;
  ph_target_count : nat;
  ph_error : option string;
}.
Record DiscoveryHealthSnapshot := mk_discovery_health {
  dh_readiness : DiscoveryReadiness;
  dh_cached_snapshot_loaded : bool;
  dh_used_cached_snapshot : bool;
  dh_resource_count : nat;
  dh_target_count : nat;
  dh_failure_count : nat;
  dh_last_success_at : option string;
  dh_updated_at : string;
  dh_probes : list DiscoveryProbeHealth;
}.

(** [DiscoverySourceKind::as_str] *)
Definition source_as_str (source : DiscoverySourceKind) : string :=
  match source with
  | LocalRuntime => "local_runtime" | Static => "static" | SourceFile => "file" | K8s => "k8s"
  end.

Section Health.
Context `{DiscoveryContracts}.

(** What tells a failure: where it was seen, by which probe, in which phase, and what it was. *)
Definition FailureKey : Type := string * string * string * string.
Definition failed_probe (key : FailureKey) : DiscoveryProbeHealth :=
  let '(source, probe, phase, detail) := key in mk_probe_health source probe phase "failed" 0 0 (Some detail).
Definition succeeded_probe (s : SuccessfulProbeRefresh) : DiscoveryProbeHealth :=
  mk_probe_health (source_as_str (sp_source s)) (sp_probe s) "refresh" "ok" (sp_resource_count s) (sp_target_count s) None.

Definition error_key (error : DiscoveryError) : FailureKey :=
  (default "unknown" (context_str error "source"), default "unknown" (context_str error "probe"), "refresh", error_text error).
Definition store_key (f : DiscoveryStoreFailure) : FailureKey := ("cache", "discovery", sf_phase f, sf_detail f).
Definition load_key (f : DiscoveryCacheLoadFailure) : FailureKey := ("cache", "discovery", lf_phase f, lf_detail f).

(** A failure is reported unless the same one was. *)
Definition report_failure (s : list DiscoveryProbeHealth * list FailureKey) (key : FailureKey) :
    list DiscoveryProbeHealth * list FailureKey :=
  if bool_decide (key ∈ s.2) then s else (s.1 ++ [failed_probe key], key :: s.2)%list.

Definition build_probe_health (result : DiscoveryRefreshResult)
    (cache_load_failure meta_load_failure : option DiscoveryCacheLoadFailure) : list DiscoveryProbeHealth :=
  let s := (succeeded_probe <$> rr_successful_probes result, []) in
  let s := foldl (λ s error, report_failure s (error_key error)) s (rr_errors result) in
  let s := match rr_store_failure result with Some f => report_failure s (store_key f) | None => s end in
  let s := foldl (λ s f, report_failure s (load_key f)) s
             (option_list cache_load_failure ++ option_list meta_load_failure)%list in
  s.1.
End Health.

(** [result.last_error = ..; result.store_failure = ..] *)
Definition with_store_failure (phase detail : string) (r : DiscoveryRefreshResult) : DiscoveryRefreshResult :=
  mk_refresh_result (rr_refreshed_snapshot r) (rr_persisted_snapshot r) (rr_errors r) (rr_last_success_at r)
    (Some detail) (rr_used_cached_snapshot r) (rr_had_successful_refresh r) (rr_successful_probes r)
    (Some (mk_store_failure phase detail)).

Section Refresh.
Context `{Host} {BE : Backend} `{!DiscoveryContracts} `{!FactContracts}.
Context `{!Json DiscoveryCacheMeta} `{!Json (list DiscoveredResource)} `{!Json (list DiscoveredTarget)}.
Context `{!Json (list CollectionCandidate)} `{!Json MetricsTargetView}.

Definition of_kind (kind : string) (candidates : list CollectionCandidate) : list CollectionCandidate :=
  List.filter (λ c, String.eqb (cc_collection_kind c) kind) candidates.

Definition store_all_candidates (state_dir : string) (candidates : list CollectionCandidate) : M World unit :=
  candidates_store (host_metrics_path_for state_dir) (of_kind "host_metrics" candidates);;
  candidates_store (process_metrics_path_for state_dir) (of_kind "process_metrics" candidates);;
  candidates_store (container_metrics_path_for state_dir) (of_kind "container_metrics" candidates).
Definition store_target_view (state_dir generated_at : string) : M World unit :=
  view ← build_metrics_target_view state_dir generated_at;
  view_store (view_path_for state_dir) view.

(** What is stored for the planner and the metrics, and the result if that fails. *)
Definition store_planned (state_dir : string) (result : DiscoveryRefreshResult) : M World DiscoveryRefreshResult :=
  planned ← try (store_all_candidates state_dir (build_collection_candidates (rr_persisted_snapshot result)));
  match planned with
  | Err err => mret (with_store_failure "planner_store" ("planner candidate store failed: " +:+ io_msg err) result)
  | Ok _ =>
      viewed ← try (store_target_view state_dir (sn_generated_at (rr_persisted_snapshot result)));
      match viewed with
      | Err err =>
          mret (with_store_failure "metrics_target_view_store" ("metrics target view store failed: " +:+ io_msg err) result)
      | Ok _ => mret result
      end
  end.

Definition readiness_of (result : DiscoveryRefreshResult) (cached : bool) : DiscoveryReadiness :=
  if rr_used_cached_snapshot result then ReadyWithStaleSnapshot
  else if rr_had_successful_refresh result then Ready
  else if cached then ReadyWithStaleSnapshot
  else NotReady.

Definition refresh_discovery_snapshot (state_dir : string) (force : bool) :
    M Discoverer (DiscoveryHealthSnapshot * FactSummaryDraft) :=
  cached ← load_from_state_dir state_dir;
  cached_meta ← discover_host (load_meta (under_state_dir state_dir));
  result ← (if force : bool then refresh_and_store state_dir
            else now ← gets (λ s, clock (dv_world s)); refresh_due_and_store state_dir now);
  result ← discover_host (store_planned state_dir result);
  let probes := build_probe_health result cached.2 cached_meta.2 in
  rt ← gets dv_runtime;
  fact_summary ← discover_host (build_summary (rr_persisted_snapshot result) (Discovery.probe_paths rt));
  mret (mk_discovery_health (readiness_of result (is_some cached.1)) (is_some cached.1) (rr_used_cached_snapshot result)
          (length (sn_resources (rr_persisted_snapshot result))) (length (sn_targets (rr_persisted_snapshot result)))
          (length (List.filter (λ p, String.eqb (ph_status p) "failed") probes))
          (match rr_last_success_at result with Some at_ => Some at_ | None => cached_meta.1 ≫= me_last_success_at end)
          (sn_generated_at (rr_refreshed_snapshot result)) probes, fact_summary).
End Refresh.

(** * The documents of the planner *)

Section Documents.
Implicit Types (p q : string).

(** Documents end in .json; a store to one leaves every other alone. *)
Definition is_document p : Prop := ∃ a, p = a +:+ ".json".
Lemma documents_apart p q : is_document q → q ≠ p → ¬ store_paths p q.
Proof. intros [a ->] Hne [Hq|Ht]; [done|]. by apply json_not_tmp in Ht. Qed.
Lemma document_storable p : is_document p → storable p.
Proof. intros [a ->]. apply json_storable. Qed.

(** A document two levels below the state directory. *)
Definition below (state_dir dir name : string) : string := path_join (path_join state_dir dir) (name +:+ ".json").
Lemma below_document state_dir dir name : is_document (below state_dir dir name).
Proof. unfold below. rewrite join_ends_json. by eexists. Qed.
Lemma below_inj state_dir dir name dir' name' : below state_dir dir name = below state_dir dir' name' →
  path_join dir (name +:+ ".json") = path_join dir' (name' +:+ ".json").
Proof.
  unfold below, path_join. rewrite <- !Prelude.app_assoc, !app_cons. intros Hq%app_inj_l. by injection Hq.
Qed.

Context `{Host} {BE : Backend} `{!BackendLaws}.

Lemma be_write_run {A} `{Json A} p (a : A) w r w' : is_document p → be_write_json p a w = (r, w') →
  (files w' !! p = files w !! p ∨ files w' !! p = Some (to_json a +:+ nl)) ∧
  (r = Ok tt → files w' !! p = Some (to_json a +:+ nl)) ∧
  (∀ q, is_document q → q ≠ p → files w' !! q = files w !! q) ∧ clock w' = clock w.
Proof.
  intros Hp E. pose proof (be_write_respects (store_paths p) p a ltac:(done) w) as Hf. rewrite E in Hf. destruct Hf as (Hf & _ & Hc & _).
  split_and!; [eapply be_write_either; [by apply document_storable|exact E]| |intros; apply Hf; by apply documents_apart|done].
  intros ->. apply be_write_ok in E as ->. apply wrote_lookup.
Qed.
End Documents.

(** The daemon works with the asynchronous calls. *)
#[local] Instance asynchronous `{Host} : Backend := nonblocking.

Section Planned.
Context `{Host} `{!DiscoveryContracts}.
Context `{!Json (list CollectionCandidate)} `{!Json MetricsTargetView}.
Context (state_dir : string).
Implicit Types (w : World) (l : list CollectionCandidate).

Definition planner_documents : list string :=
  [host_metrics_path_for state_dir; process_metrics_path_for state_dir; container_metrics_path_for state_dir;
   view_path_for state_dir].

Lemma planner_documents_below :
  host_metrics_path_for state_dir = below state_dir "planner" "host_metrics_candidates" ∧
  process_metrics_path_for state_dir = below state_dir "planner" "process_metrics_candidates" ∧
  container_metrics_path_for state_dir = below state_dir "planner" "container_metrics_candidates" ∧
  view_path_for state_dir = below state_dir "telemetry" "metrics_target_view".
Proof. done. Qed.

(** What a document holds. *)
Definition holds_json {A} `{Json A} (p : string) (a : A) w : Prop := files w !! p = Some (to_json a +:+ nl).

(** The documents made of some candidates. *)
Record planned l w : Prop := mk_planned {
  pl_host : holds_json (host_metrics_path_for state_dir) (of_kind "host_metrics" l) w;
  pl_process : holds_json (process_metrics_path_for state_dir) (of_kind "process_metrics" l) w;
  pl_container : holds_json (container_metrics_path_for state_dir) (of_kind "container_metrics" l) w;
}.
Definition planned_view (generated_at : string) l : MetricsTargetView :=
  mk_target_view generated_at (map_candidate <$> of_kind "host_metrics" l ++ of_kind "process_metrics" l ++ of_kind "container_metrics" l).

Definition changed_to {A} `{Json A} (p : string) (a : A) w w' : Prop :=
  files w' !! p = files w !! p ∨ holds_json p a w'.

Lemma planner_documents_are p : p ∈ planner_documents → is_document p.
Proof.
  destruct planner_documents_below as (E1 & E2 & E3 & E4). unfold planner_documents. rewrite E1, E2, E3, E4.
  set_unfold. intros [->|[->|[->|[->|[]]]]]; apply below_document.
Qed.

Lemma planner_documents_ne :
  host_metrics_path_for state_dir ≠ process_metrics_path_for state_dir ∧
  host_metrics_path_for state_dir ≠ container_metrics_path_for state_dir ∧
  process_metrics_path_for state_dir ≠ container_metrics_path_for state_dir ∧
  host_metrics_path_for state_dir ≠ view_path_for state_dir ∧
  process_metrics_path_for state_dir ≠ view_path_for state_dir ∧
  container_metrics_path_for state_dir ≠ view_path_for state_dir.
Proof.
  destruct planner_documents_below as (E1 & E2 & E3 & E4). rewrite E1, E2, E3, E4.
  split_and!; intros Hq%below_inj; discriminate.
Qed.

(** A document that is there is read as it is, or the read fails. *)
Lemma probe_there p text w r w' : files w !! p = Some text → be_probe p w = (r, w') → w' = w ∧ (r = Ok true ∨ is_ok r = false).
Proof.
  intros Hp E. pose proof E as Ew. apply be_probe_run in Ew as ->. split; [done|].
  cbn in E. unfold probe_metadata, try, fs_metadata, guard_fault, act, mbind, M_bind in E.
  destruct (fs_fault OpMetadata p) as [e|] eqn:Ef.
  - apply fs_fault_kind in Ef. rewrite decide_False in E by done. injection E as <-. by right.
  - rewrite (fs_exists_lookup _ _ _ Hp) in E. injection E as <-. by left.
Qed.

Lemma candidates_load_run p l w r w' : holds_json p l w → candidates_load_or_default p w = (r, w') →
  w' = w ∧ (r = Ok l ∨ is_ok r = false).
Proof.
  intros Hp. unfold candidates_load_or_default. intros [(e & E & ->)|(there & w1 & E & Er)]%bind_inv.
  { apply be_probe_run in E. split; [done|by right]. }
  destruct (probe_there _ _ _ _ _ Hp E) as [-> [[= ->]|]]; [|done].
  pose proof Er as Ew. apply be_read_run in Ew as ->. split; [done|]. destruct r as [l'|]; [left|by right].
  apply be_read_ok in Er as (_ & text & Ht & Hj). rewrite Hp in Ht. injection Ht as <-. rewrite from_to_json in Hj. by injection Hj as ->.
Qed.

Lemma build_view_run generated_at l w r w' : planned l w → build_metrics_target_view state_dir generated_at w = (r, w') →
  w' = w ∧ (r = Ok (planned_view generated_at l) ∨ is_ok r = false).
Proof.
  intros [Hh Hp Hc]. unfold build_metrics_target_view. cbn [extend_targets].
  intros [(e & E & ->)|(targets & w1 & E & Er)]%bind_inv.
  - split; [|by right]. apply bind_inv in E as [(? & E & _)|(a & v & E & E')]; [by destruct (candidates_load_run _ _ _ _ _ Hh E)|].
    destruct (candidates_load_run _ _ _ _ _ Hh E) as [-> _].
    apply bind_inv in E' as [(? & E' & _)|(a2 & v & E' & E2)]; [by destruct (candidates_load_run _ _ _ _ _ Hp E')|].
    destruct (candidates_load_run _ _ _ _ _ Hp E') as [-> _].
    apply bind_inv in E2 as [(? & E2 & _)|(a3 & v & E2 & E3)]; [by destruct (candidates_load_run _ _ _ _ _ Hc E2)|done].
  - injection Er as <- <-. apply bind_ok_inv in E as (a & v & E & E').
    destruct (candidates_load_run _ _ _ _ _ Hh E) as [-> [[= ->]|]]; [|done].
    apply bind_ok_inv in E' as (a & v & E1 & E'). destruct (candidates_load_run _ _ _ _ _ Hp E1) as [-> [[= ->]|]]; [|done].
    apply bind_ok_inv in E' as (a & v & E2 & E'). destruct (candidates_load_run _ _ _ _ _ Hc E2) as [-> [[= ->]|]]; [|done].
    injection E' as <- <-. split; [done|left]. unfold planned_view. by rewrite !fmap_app, (assoc_L (++)).
Qed.

(** Storing the candidates: each document is the old or the new one, and a success means that all are new. *)
Lemma store_candidates_run l w r w' : store_all_candidates state_dir l w = (r, w') →
  changed_to (host_metrics_path_for state_dir) (of_kind "host_metrics" l) w w' ∧
  changed_to (process_metrics_path_for state_dir) (of_kind "process_metrics" l) w w' ∧
  changed_to (container_metrics_path_for state_dir) (of_kind "container_metrics" l) w w' ∧
  (r = Ok tt → planned l w') ∧
  (∀ q, is_document q → q ∉ take 3 planner_documents → files w' !! q = files w !! q) ∧ clock w' = clock w.
Proof.
  destruct planner_documents_ne as (N1 & N2 & N3 & _). pose proof planner_documents_are as Hd. unfold planner_documents in *.
  set (ph := host_metrics_path_for state_dir) in *. set (pp := process_metrics_path_for state_dir) in *.
  set (pc := container_metrics_path_for state_dir) in *. cbn [take].
  assert (Dh : is_document ph) by (apply Hd; set_solver). assert (Dp : is_document pp) by (apply Hd; set_solver).
  assert (Dc : is_document pc) by (apply Hd; set_solver).
  unfold store_all_candidates, candidates_store, changed_to. fold ph pp pc.
  intros [(e & E & ->)|([] & w1 & E1 & E)]%bind_inv.
  { destruct (be_write_run ph _ _ _ _ Dh E) as (C & _ & F & K). split_and!; [done|left; by apply F|left; by apply F|done|set_solver|done]. }
  destruct (be_write_run ph _ _ _ _ Dh E1) as (_ & C1 & F1 & K1). specialize (C1 eq_refl).
  apply bind_inv in E as [(e & E & ->)|([] & w2 & E2 & E)].
  { destruct (be_write_run pp _ _ _ _ Dp E) as (C & _ & F & K). rewrite (F1 pp) in C by done. unfold holds_json.
    rewrite !(F ph), !(F pc), !(F1 pc) by done. split_and!; [by right|exact C|by left|done| |by rewrite K].
    intros q Hq Hn. rewrite F, F1; set_solver. }
  destruct (be_write_run pp _ _ _ _ Dp E2) as (_ & C2 & F2 & K2). specialize (C2 eq_refl).
  destruct (be_write_run pc _ _ _ _ Dc E) as (C3 & C3' & F3 & K3). rewrite (F2 pc), (F1 pc) in C3 by done.
  assert (Hh : holds_json ph (of_kind "host_metrics" l) w') by (unfold holds_json; by rewrite F3, F2).
  assert (Hp : holds_json pp (of_kind "process_metrics" l) w') by (unfold holds_json; by rewrite F3).
  split_and!; [by right|by right|exact C3| | |by rewrite K3, K2].
  - intros ->. split; [done|done|by apply C3'].
  - intros q Hq Hn. rewrite F3, F2, F1; set_solver.
Qed.

(** Storing the view of stored candidates. *)
Lemma store_view_run generated_at l w r w' : planned l w → store_target_view state_dir generated_at w = (r, w') →
  let view := planned_view generated_at l in
  (files w' !! view_path_for state_dir = files w !! view_path_for state_dir ∨ holds_json (view_path_for state_dir) view w') ∧
  (r = Ok tt → holds_json (view_path_for state_dir) view w') ∧ planned l w' ∧
  (∀ q, is_document q → q ≠ view_path_for state_dir → files w' !! q = files w !! q) ∧ clock w' = clock w.
Proof.
  intros Hl E. cbv zeta. set (view := planned_view generated_at l).
  assert (Hdv : is_document (view_path_for state_dir)) by (apply planner_documents_are; unfold planner_documents; set_solver).
  assert (Hfr : (files w' !! view_path_for state_dir = files w !! view_path_for state_dir ∨ holds_json (view_path_for state_dir) view w') ∧
    (r = Ok tt → holds_json (view_path_for state_dir) view w') ∧
    (∀ q, is_document q → q ≠ view_path_for state_dir → files w' !! q = files w !! q) ∧ clock w' = clock w).
  { unfold store_target_view in E. apply bind_inv in E as [(e & E & ->)|(v & w3 & E & E3)];
      destruct (build_view_run _ _ _ _ _ Hl E) as [-> Hv]; [split_and!; [by left|done..]|].
    destruct Hv as [[= ->]|]; [|done]. fold view in E3. by apply (be_write_run (view_path_for state_dir)) in E3. }
  destruct Hfr as (V1 & V2 & F & K). split_and!; [done..| |done|done].
  destruct planner_documents_ne as (_ & _ & _ & N4 & N5 & N6). destruct Hl as [P1 P2 P3]. unfold holds_json in *.
  split; unfold holds_json; (rewrite F; [done|apply planner_documents_are; unfold planner_documents; set_solver|done]).
Qed.

(** All of it: nothing escapes, and what fails is told. *)
Lemma store_planned_run result w : ∃ result' w', store_planned state_dir result w = (Ok result', w') ∧
  let l := build_collection_candidates (rr_persisted_snapshot result) in
  let view := planned_view (sn_generated_at (rr_persisted_snapshot result)) l in
  changed_to (host_metrics_path_for state_dir) (of_kind "host_metrics" l) w w' ∧
  changed_to (process_metrics_path_for state_dir) (of_kind "process_metrics" l) w w' ∧
  changed_to (container_metrics_path_for state_dir) (of_kind "container_metrics" l) w w' ∧
  (files w' !! view_path_for state_dir = files w !! view_path_for state_dir ∨
   planned l w' ∧ holds_json (view_path_for state_dir) view w') ∧
  (result' = result ∧ planned l w' ∧ holds_json (view_path_for state_dir) view w' ∨
   ∃ phase detail, result' = with_store_failure phase detail result ∧
     (phase = "planner_store" ∨ phase = "metrics_target_view_store")) ∧
  (∀ q, is_document q → q ∉ planner_documents → files w' !! q = files w !! q) ∧ clock w' = clock w.
Proof.
  set (l := build_collection_candidates (rr_persisted_snapshot result)). cbv zeta.
  set (view := planned_view _ l). destruct planner_documents_ne as (_ & _ & _ & N4 & N5 & N6).
  assert (Hdv : is_document (view_path_for state_dir)) by (apply planner_documents_are; unfold planner_documents; set_solver).
  assert (Hnv : view_path_for state_dir ∉ take 3 planner_documents) by (unfold planner_documents; cbn [take]; set_solver).
  unfold store_planned. fold l. destruct (store_all_candidates state_dir l w) as [r1 w1] eqn:E1.
  destruct (store_candidates_run _ _ _ _ E1) as (C1 & C2 & C3 & C4 & F1 & K1).
  erewrite bind_ok by (apply try_run; exact E1). destruct r1 as [[]|e].
  2:{ eexists _, _. split; [reflexivity|]. split_and!; [done..|left; by apply F1|right; eexists _, _; split; [done|by left]| |done].
      intros q Hq Hn. apply F1; [done|]. unfold planner_documents in *. cbn [take]. set_solver. }
  specialize (C4 eq_refl). destruct (store_target_view state_dir (sn_generated_at (rr_persisted_snapshot result)) w1) as [r2 w2] eqn:E2.
  erewrite bind_ok by (apply try_run; exact E2).
  destruct (store_view_run _ _ _ _ _ C4 E2) as (V1 & V2 & Hp2 & F2 & K2). fold view in V1, V2.
  assert (Hall : changed_to (host_metrics_path_for state_dir) (of_kind "host_metrics" l) w w2 ∧
    changed_to (process_metrics_path_for state_dir) (of_kind "process_metrics" l) w w2 ∧
    changed_to (container_metrics_path_for state_dir) (of_kind "container_metrics" l) w w2)
    by (destruct Hp2; split_and!; by right).
  destruct Hall as (A1 & A2 & A3). rewrite (F1 _ Hdv Hnv) in V1.
  assert (Hfq : ∀ q, is_document q → q ∉ planner_documents → files w2 !! q = files w !! q).
  { intros q Hq Hn. unfold planner_documents in *. rewrite F2, F1; [done|done| |done|set_solver]. cbn [take]. set_solver. }
  destruct r2 as [[]|e]; eexists _, _; (split; [reflexivity|]); split_and!; try done; try congruence; try tauto.
  right. eexists _, _. split; [done|by right].
Qed.

Lemma candidates_load_ff p l w : fault_free → holds_json p l w → candidates_load_or_default p w = (Ok l, w).
Proof.
  intros Hff Hp. unfold candidates_load_or_default. erewrite bind_ok.
  2:{ rewrite (be_probe_ff p w Hff). by rewrite (fs_exists_lookup _ _ _ Hp). }
  cbv beta iota. rewrite (be_read_ff p w _ Hff Hp). by rewrite from_to_json.
Qed.

Lemma store_planned_ff result w : fault_free →
  let l := build_collection_candidates (rr_persisted_snapshot result) in
  ∃ w', store_planned state_dir result w = (Ok result, w') ∧ planned l w' ∧
    holds_json (view_path_for state_dir) (planned_view (sn_generated_at (rr_persisted_snapshot result)) l) w'.
Proof.
  intros Hff. unfold store_planned. set (l := build_collection_candidates (rr_persisted_snapshot result)). cbv zeta.
  destruct (store_all_candidates state_dir l w) as [r1 w1] eqn:E1.
  destruct (store_candidates_run _ _ _ _ E1) as (_ & _ & _ & C4 & _).
  assert (r1 = Ok tt) as ->.
  { unfold store_all_candidates, candidates_store in E1. rewrite (bind_ok _ _ _ _ _ (be_write_ff _ _ _ Hff)) in E1.
    rewrite (bind_ok _ _ _ _ _ (be_write_ff _ _ _ Hff)), be_write_ff in E1 by done. by injection E1 as <-. }
  specialize (C4 eq_refl). pose proof C4 as [P1 P2 P3].
  erewrite bind_ok by (apply try_run; exact E1).
  assert (E2 : ∃ w2, store_target_view state_dir (sn_generated_at (rr_persisted_snapshot result)) w1 = (Ok tt, w2)).
  { unfold store_target_view, build_metrics_target_view. cbn [extend_targets].
    erewrite bind_ok; [|erewrite bind_ok; [reflexivity|]].
    2:{ erewrite bind_ok by (by apply candidates_load_ff). erewrite bind_ok by (by apply candidates_load_ff).
        by erewrite bind_ok by (by apply candidates_load_ff). }
    eexists. unfold view_store. by rewrite be_write_ff. }
  destruct E2 as [w2 E2]. destruct (store_view_run _ _ _ _ _ C4 E2) as (_ & V2 & Hp2 & _).
  erewrite bind_ok by (apply try_run; exact E2). eexists. split_and!; [reflexivity|done|by apply V2].
Qed.
End Planned.

(** * The health of the probes *)

Section HealthFacts.
Context `{DiscoveryContracts}.
Implicit Types (keys : list FailureKey).

Lemma report_failures_run keys probes reported : NoDup reported → ∃ new,
  foldl report_failure (probes, reported) keys = ((probes ++ (failed_probe <$> new))%list, (reverse new ++ reported)%list) ∧
  NoDup (reverse new ++ reported) ∧ (∀ k, k ∈ new ++ reported ↔ k ∈ keys ++ reported).
Proof.
  revert probes reported. induction keys as [|k keys IH]; intros probes reported Hnd; cbn [foldl].
  { exists []. cbn. by rewrite (right_id_L [] (++)). }
  unfold report_failure at 2. cbn [fst snd]. destruct (bool_decide_reflect (k ∈ reported)) as [Hk|Hk].
  - destruct (IH probes reported Hnd) as (new & E & Hn & Hin). exists new. split_and!; [done..|].
    intros x. specialize (Hin x). rewrite !elem_of_app, ?elem_of_cons in *. destruct (decide (x = k)) as [->|]; tauto.
  - destruct (IH (probes ++ [failed_probe k])%list (k :: reported)) as (new & E & Hn & Hin); [by constructor|].
    exists (k :: new). rewrite reverse_cons. cbn [fmap list_fmap]. rewrite E, <- !(assoc_L (++)). split_and!; [done|done|].
    intros x. specialize (Hin x). rewrite !elem_of_app, !elem_of_cons in *. tauto.
Qed.

(** The failures there were, and the list of them that is reported. *)
Definition all_failures (result : DiscoveryRefreshResult) (f1 f2 : option DiscoveryCacheLoadFailure) : list FailureKey :=
  (error_key <$> rr_errors result) ++ (store_key <$> option_list (rr_store_failure result)) ++
  (load_key <$> option_list f1 ++ option_list f2).

Lemma probe_health_run result f1 f2 : ∃ keys,
  build_probe_health result f1 f2 = ((succeeded_probe <$> rr_successful_probes result) ++ (failed_probe <$> keys))%list ∧
  NoDup keys ∧ ∀ k, k ∈ keys ↔ k ∈ all_failures result f1 f2.
Proof.
  assert (Hfold : build_probe_health result f1 f2 =
    (foldl report_failure (succeeded_probe <$> rr_successful_probes result, []) (all_failures result f1 f2)).1).
  { unfold build_probe_health, all_failures. rewrite !foldl_app.
    assert (Hmap : ∀ A (f : A → FailureKey) l s, foldl report_failure s (f <$> l) = foldl (λ s a, report_failure s (f a)) s l)
      by (intros A f l; induction l as [|a l IH]; intros s; cbn; [done|apply IH]).
    rewrite !Hmap, ?foldl_app. by destruct (rr_store_failure result). }
  rewrite Hfold. destruct (report_failures_run (all_failures result f1 f2) (succeeded_probe <$> rr_successful_probes result) [] ltac:(constructor))
    as (new & E & Hn & Hin).
  rewrite E. exists new. rewrite (right_id_L [] (++)) in Hn. cbn [fst].
  split_and!; [done|by rewrite reverse_Permutation in Hn|].
  intros k. specialize (Hin k). by rewrite !(right_id_L [] (++)) in Hin.
Qed.
End HealthFacts.

(** * Runs of the daemon *)

(** What happens to discovery: a refresh some time later, a look at the gateway's table, a restart of the
    agent with the probes its configuration then names. *)
Inductive DiscoveryStep `{Os} :=
| RefreshStep (gap : N) (force : bool)
| PolicyStep (fetched : World → option DiscoveryAspectPolicySet) (force : bool)
| RestartStep (probes : list DiscoveryProbe).

Section Runs.
Context `{Host} `{!DiscoveryContracts} `{!FactContracts}.
Context `{!Json DiscoveryCacheMeta} `{!Json (list DiscoveredResource)} `{!Json (list DiscoveredTarget)}.
Context `{!Json (list CollectionCandidate)} `{!Json MetricsTargetView}.
Context (state_dir : string).

(** The snapshot each refresh left in memory, in order. *)
Fixpoint discovery_run (steps : list DiscoveryStep) (s : Discoverer) : list DiscoverySnapshot * Discoverer :=
  match steps with
  | [] => ([], s)
  | RefreshStep gap force :: steps =>
      let s := mk_discoverer (set_clock (clock (dv_world s) + Z.of_N gap) (dv_world s)) (dv_runtime s) in
      let '(_, s) := refresh_discovery_snapshot state_dir force s in
      let '(l, s') := discovery_run steps s in
      ((option_list (rt_latest_snapshot (dv_runtime s)) ++ l)%list, s')
  | PolicyStep fetched force :: steps => discovery_run steps (refresh_discovery_policy fetched force s).2
  | RestartStep probes :: steps => discovery_run steps (mk_discoverer (dv_world s) (runtime_new probes))
  end.

(** The same snapshot again, or the next revision. *)
Definition follows (previous : option DiscoverySnapshot) (next : DiscoverySnapshot) : Prop :=
  match previous with
  | Some previous => next = previous ∨ sn_revision next = i64_add (sn_revision previous) 1
  | None => sn_revision next = 1%Z
  end.
Fixpoint linked (previous : option DiscoverySnapshot) (l : list DiscoverySnapshot) : Prop :=
  match l with [] => True | next :: l => follows previous next ∧ linked (Some next) l end.

Hypothesis no_faults : fault_free.
Implicit Types (s : Discoverer) (w : World).
#[local] Abbreviation paths := (under_state_dir state_dir).

Lemma load_snapshot_total w : ∃ found fl, load_snapshot paths w = (Ok (found, fl), w).
Proof.
  assert (Hr : ∀ A (m : EM DiscoveryCacheLoadFailure World (option A)), urespects eq m →
    ∃ found fl, load_result m w = (Ok (found, fl), w)).
  { intros A m Hm. unfold load_result. specialize (Hm w). destruct (m w) as [[fl|a] w1]; cbn in Hm; subst w1; eauto. }
  apply Hr. assert (Hp : ∀ phase p, urespects eq (cache_probe phase p)) by (intros phase p v; symmetry; apply cache_probe_same).
  do 3 (apply urespects_bind; [apply _|apply Hp|intros ?]). destruct (_ || _); [by apply urespects_ret, _|].
  do 3 (apply urespects_bind; [apply _|intros v; symmetry; apply cache_read_same|intros ?]). by apply urespects_ret, _.
Qed.

Lemma load_meta_total w : ∃ r, load_meta paths w = (Ok r, w).
Proof.
  unfold load_meta, load_result, mbind, EM_bind.
  pose proof (cache_probe_same "cache_load_meta" (cp_meta paths) w) as Hp.
  destruct (cache_probe _ _ w) as [[fl|[]] w1]; cbn in Hp; subst w1; [eauto| |eauto].
  pose proof (cache_read_same (A := DiscoveryCacheMeta) "cache_load_meta" (cp_meta paths) w) as Hr.
  destruct (cache_read _ _ w) as [[fl|m] w1]; cbn in Hr; subst w1; eauto.
Qed.

(** A refresh, given what the disk holds. *)
Definition previous_of (found : option DiscoverySnapshot) s : option DiscoverySnapshot :=
  match found with Some x => Some x | None => rt_latest_snapshot (dv_runtime s) end.

Lemma compose_follows due_at w rt :
  let '(r, rt') := refresh_inner due_at w rt in
  rt_latest_snapshot rt' = Some (rr_persisted_snapshot r) ∧
  ((rr_persisted_snapshot r = rr_refreshed_snapshot r ∧ sn_schema_version (rr_persisted_snapshot r) = DISCOVERY_SCHEMA_VERSION ∧
    sn_revision (rr_persisted_snapshot r) =
      match rt_latest_snapshot (rd_runtime (refresh_probes due_at w 0 (rt_probes rt) (round_start rt))) with
      | Some x => i64_add (sn_revision x) 1 | None => 1%Z end) ∨
   rt_latest_snapshot (rd_runtime (refresh_probes due_at w 0 (rt_probes rt) (round_start rt))) = Some (rr_persisted_snapshot r)).
Proof.
  unfold refresh_inner, compose_snapshot. set (s := refresh_probes due_at w 0 (rt_probes rt) (round_start rt)).
  cbn. split; [done|]. destruct (_ || _); cbn; [by left|].
  destruct (rt_latest_snapshot (rd_runtime s)); cbn; [by right|by left].
Qed.

Lemma store_refreshed_run r s : ∃ r' s', store_refreshed state_dir r s = (Ok r', s') ∧
  dv_runtime s' = dv_runtime s ∧ rr_persisted_snapshot r' = rr_persisted_snapshot r ∧
  stored_in state_dir (dv_world s') (rr_persisted_snapshot r)
    (meta_new (rr_persisted_snapshot r) (rr_last_success_at r) (rr_last_error r)).
Proof.
  unfold store_refreshed, discover_host, zoom, mbind, M_bind.
  destruct (store_snapshot_ff state_dir (rr_persisted_snapshot r) (rr_last_success_at r) (rr_last_error r) (dv_world s) no_faults)
    as (w' & E & Hs & _).
  rewrite E. eexists _, _. split; [reflexivity|]. by cbn.
Qed.

(** The documents for the planner and the metrics are those of a snapshot. *)
Definition planned_for (x : DiscoverySnapshot) (w : World) : Prop :=
  let l := build_collection_candidates x in
  planned state_dir l w ∧ holds_json (view_path_for state_dir) (planned_view (sn_generated_at x) l) w.

Lemma cache_not_planned q : q ∈ [cp_resources paths; cp_targets paths; cp_meta paths] →
  is_document q ∧ q ∉ planner_documents state_dir.
Proof.
  destruct (planner_documents_below state_dir) as (E1 & E2 & E3 & E4). unfold planner_documents. rewrite E1, E2, E3, E4.
  assert (Hq : ∀ n, is_document (below state_dir "discovery" n) ∧
    below state_dir "discovery" n ∉ [below state_dir "planner" "host_metrics_candidates"; below state_dir "planner" "process_metrics_candidates";
      below state_dir "planner" "container_metrics_candidates"; below state_dir "telemetry" "metrics_target_view"]).
  { intros n. split; [apply below_document|]. rewrite !not_elem_of_cons.
    split_and!; [..|apply not_elem_of_nil]; intros He%below_inj; discriminate. }
  change (cp_resources paths) with (below state_dir "discovery" "resources").
  change (cp_targets paths) with (below state_dir "discovery" "targets").
  change (cp_meta paths) with (below state_dir "discovery" "meta").
  intros Hin. rewrite !elem_of_cons in Hin. destruct Hin as [->|[->|[->|[]%not_elem_of_nil]]]; apply Hq.
Qed.

Lemma refresh_tick_run force s found fl : slotted (dv_runtime s) →
  load_snapshot paths (dv_world s) = (Ok (found, fl), dv_world s) →
  (∀ x, previous_of found s = Some x → sn_schema_version x = DISCOVERY_SCHEMA_VERSION) →
  ∃ out s' x, refresh_discovery_snapshot state_dir force s = (Ok out, s') ∧
    rt_latest_snapshot (dv_runtime s') = Some x ∧ follows (previous_of found s) x ∧
    sn_schema_version x = DISCOVERY_SCHEMA_VERSION ∧
    load_snapshot paths (dv_world s') = (Ok (Some x, None), dv_world s') ∧
    slotted (dv_runtime s') ∧ planned_for x (dv_world s').
Proof.
  intros Hsl Hl Hsch. unfold refresh_discovery_snapshot.
  set (s1 := mk_discoverer (dv_world s) (set_latest_snapshot (previous_of found s) (dv_runtime s))).
  assert (E1 : load_from_state_dir state_dir s = (Ok (found, fl), s1)).
  { unfold load_from_state_dir, discover_host, zoom, mbind, M_bind. rewrite Hl. cbn [fst]. unfold s1, previous_of.
    destruct found; [done|]. destruct s as [w [] ]; done. }
  erewrite bind_ok by exact E1.
  destruct (load_meta_total (dv_world s1)) as [mr Em].
  assert (E2 : discover_host (load_meta paths) s1 = (Ok mr, s1)) by (unfold discover_host, zoom; by rewrite Em; destruct s1).
  erewrite bind_ok by exact E2.
  set (due_at := if force then None else Some (clock (dv_world s1))).
  assert (E3 : (if force then refresh_and_store state_dir
            else now ← gets (λ s, clock (dv_world s)); refresh_due_and_store state_dir now) s1 =
    store_refreshed state_dir (refresh_inner due_at (dv_world s1) (dv_runtime s1)).1
      (mk_discoverer (dv_world s1) (refresh_inner due_at (dv_world s1) (dv_runtime s1)).2)).
  { unfold due_at. destruct force; [|rewrite gets_then];
      unfold refresh_and_store, refresh_due_and_store, refresh_all, refresh_due, discover_runtime, mbind, M_bind;
      by destruct (refresh_inner _ _ _). }
  assert (Hsl1 : slotted (dv_runtime s1)) by (destruct Hsl; by split).
  pose proof (refresh_slots due_at (dv_world s1) (dv_runtime s1) Hsl1) as (Hsl2 & _).
  pose proof (compose_follows due_at (dv_world s1) (dv_runtime s1)) as Hc.
  rewrite (pa_latest _ _ _ _ _ _ (round_run due_at (dv_world s1) (dv_runtime s1) Hsl1)) in Hc. cbn [rd_runtime round_start] in Hc.
  change (rt_latest_snapshot (dv_runtime s1)) with (previous_of found s) in Hc.
  destruct (refresh_inner due_at (dv_world s1) (dv_runtime s1)) as [r rt']. cbn [fst snd] in *. destruct Hc as [Hlast Hc].
  destruct (store_refreshed_run r (mk_discoverer (dv_world s1) rt')) as (r' & s2 & E4 & Hrt & Hp & Hst).
  rewrite E4 in E3. erewrite bind_ok by exact E3. cbn [dv_runtime] in Hrt.
  destruct (store_planned_ff state_dir r' (dv_world s2) no_faults) as (w3 & E5 & Hpl & Hv).
  destruct (store_planned_run state_dir r' (dv_world s2)) as (r2 & w3' & E5' & _ & _ & _ & _ & _ & Hfr & _).
  rewrite E5 in E5'. injection E5' as <- <-.
  assert (E6 : discover_host (store_planned state_dir r') s2 = (Ok r', mk_discoverer w3 (dv_runtime s2)))
    by (unfold discover_host, zoom; by rewrite E5).
  erewrite bind_ok by exact E6. rewrite gets_then. cbn [dv_runtime].
  destruct (summary_total (rr_persisted_snapshot r') (Discovery.probe_paths (dv_runtime s2)) w3) as [d E7].
  erewrite bind_ok by (unfold discover_host, zoom; cbn [dv_world]; rewrite E7; reflexivity).
  eexists _, _, (rr_persisted_snapshot r). split; [reflexivity|]. cbn [dv_runtime dv_world]. rewrite Hrt.
  assert (Hsv : sn_schema_version (rr_persisted_snapshot r) = DISCOVERY_SCHEMA_VERSION).
  { destruct Hc as [(_ & Hsv & _)|Hc]; [done|by apply Hsch]. }
  split_and!.
  - done.
  - destruct Hc as [(_ & _ & Hr)|Hc]; unfold follows; [destruct (previous_of found s); auto|]. rewrite Hc. by left.
  - done.
  - assert (Hst3 : stored_in state_dir w3 (rr_persisted_snapshot r) (meta_new (rr_persisted_snapshot r) (rr_last_success_at r) (rr_last_error r))).
    { destruct Hst as [Sr St Sm]. split; (rewrite Hfr; [done|apply cache_not_planned; set_solver..]). }
    rewrite (load_snapshot_ff _ _ _ _ no_faults Hst3). unfold snapshot_of, meta_new. cbn.
    do 4 f_equal. rewrite <- Hsv. by destruct (rr_persisted_snapshot r).
  - done.
  - rewrite <- Hp. by split.
Qed.
End Runs.

Section RunLemmas.
Context `{Host} `{!DiscoveryContracts} `{!FactContracts}.
Context `{!Json DiscoveryCacheMeta} `{!Json (list DiscoveredResource)} `{!Json (list DiscoveredTarget)}.
Context `{!Json (list CollectionCandidate)} `{!Json MetricsTargetView}.
Context (state_dir : string).
Hypothesis no_faults : fault_free.

(** What memory and disk know between two steps: the snapshot that was found, and the one that was made
    since the start, if any. *)
Record knows (found made : option DiscoverySnapshot) (s : Discoverer) : Prop := mk_knows {
  kn_slotted : slotted (dv_runtime s);
  kn_disk : ∃ fl, load_snapshot (under_state_dir state_dir) (dv_world s) = (Ok (found, fl), dv_world s);
  kn_memory : found = None → rt_latest_snapshot (dv_runtime s) = None;
  kn_schema : ∀ x, found = Some x → sn_schema_version x = DISCOVERY_SCHEMA_VERSION;
  kn_planned : ∀ x, made = Some x → planned_for state_dir x (dv_world s);
}.

Lemma slotted_new probes : slotted (runtime_new probes).
Proof. split; cbn; by rewrite length_replicate. Qed.

Lemma policy_step_keeps fetched force s : let s' := (refresh_discovery_policy fetched force s).2 in
  dv_world s' = dv_world s ∧ rt_latest_snapshot (dv_runtime s') = rt_latest_snapshot (dv_runtime s) ∧
  rt_probes (dv_runtime s') = rt_probes (dv_runtime s) ∧
  rt_last_outputs (dv_runtime s') = rt_last_outputs (dv_runtime s) ∧
  rt_last_run_at (dv_runtime s') = rt_last_run_at (dv_runtime s).
Proof.
  unfold refresh_discovery_policy. rewrite !gets_then. destruct (_ && _); [done|].
  unfold discover_runtime, gets, mbind, M_bind. cbn. by destruct (fetched (dv_world s)).
Qed.

(** What is loaded does not depend on the time. *)
Definition timeless {A} (m : EM DiscoveryCacheLoadFailure World A) : Prop :=
  ∀ t w, m (set_clock t w) = let '(r, w') := m w in (r, set_clock t w').
Lemma timeless_ret {A} (a : A) : timeless (mret a).
Proof. done. Qed.
Lemma timeless_bind {A B} (m : EM DiscoveryCacheLoadFailure World A) (k : A → EM DiscoveryCacheLoadFailure World B) :
  timeless m → (∀ a, timeless (k a)) → timeless (m ≫= k).
Proof. intros Hm Hk t w. unfold mbind, EM_bind. rewrite Hm. destruct (m w) as [[e|a] w']; [done|]. apply Hk. Qed.
Lemma timeless_probe phase p : timeless (cache_probe phase p).
Proof. intros t w. unfold cache_probe, io. by rewrite !be_probe_ff. Qed.
Lemma timeless_read {A} `{Json A} phase p : timeless (cache_read (A := A) phase p).
Proof.
  intros t w. unfold cache_read, io. rewrite !be_read_law. unfold read_json_async, fs_read, guard_fault, act, mbind, M_bind.
  rewrite no_faults. cbn. destruct (files w !! p) as [text|]; cbn; [|done]. unfold of_result. by destruct (from_json text).
Qed.

Lemma load_at_clock t w found fl : load_snapshot (under_state_dir state_dir) w = (Ok (found, fl), w) →
  load_snapshot (under_state_dir state_dir) (set_clock t w) = (Ok (found, fl), set_clock t w).
Proof.
  unfold load_snapshot, load_result.
  match goal with |- context [match ?m w with _ => _ end] => set (load := m) end.
  assert (Ht : timeless load).
  { do 3 (apply timeless_bind; [apply timeless_probe|intros ?]). destruct (_ || _); [apply timeless_ret|].
    do 3 (apply timeless_bind; [apply timeless_read|intros ?]). apply timeless_ret. }
  rewrite Ht. destruct (load w) as [[x|x] w']; intros [= -> -> ->]; done.
Qed.

Definition or_else {A} (o1 o2 : option A) : option A := match o1 with Some a => Some a | None => o2 end.

Lemma discovery_run_linked steps s found made : knows found made s →
  let '(l, s') := discovery_run state_dir steps s in
  linked found l ∧ knows (or_else (last l) found) (or_else (last l) made) s'.
Proof.
  revert s found made. induction steps as [|[gap force|fetched force|probes] steps IH]; intros s found made Hk; cbn [discovery_run]; [done|..].
  - set (s1 := mk_discoverer _ _). destruct Hk as [Hsl [fl Hl] Hm Hsch _].
    destruct (refresh_tick_run state_dir no_faults force s1 found fl) as (out & s2 & x & E & Hx & Hf & Hv & Hd & Hs2 & Hpl).
    { exact Hsl. } { by apply load_at_clock. }
    { intros x. unfold previous_of. destruct found as [y|]; [apply Hsch|]. unfold s1. cbn. by rewrite Hm. }
    rewrite E, Hx.
    assert (Hp : previous_of found s1 = found) by (unfold previous_of; destruct found; [done|]; by apply Hm).
    rewrite Hp in Hf.
    assert (Hk2 : knows (Some x) (Some x) s2) by (split; [done|by eexists|done|by intros y [= <-]..]).
    specialize (IH s2 _ _ Hk2). destruct (discovery_run state_dir steps s2) as [l s3]. cbn [option_list app linked]. destruct IH as [Hlk Hks].
    split; [done|]. destruct l as [|y l]; [exact Hks|].
    change (option_list (Some x) ++ y :: l)%list with (x :: y :: l). rewrite last_cons_cons. destruct (last (y :: l)) eqn:El; [exact Hks|].
    by apply last_None in El.
  - apply IH. destruct (policy_step_keeps fetched force s) as (Hw & Hl & Hp & Ho & Hr). destruct Hk as [[So Sr] [fl Hd] Hm Hsch Hpl].
    split; [split; by rewrite ?Hp, ?Ho, ?Hr|exists fl; by rewrite Hw|intros Hn; rewrite Hl; by apply Hm|done|by rewrite Hw].
  - apply IH. destruct Hk as [_ Hd _ Hsch Hpl]. split; [apply slotted_new|done..].
Qed.
End RunLemmas.


(** * What the planner promises *)

Section Claims.
Context `{Host} `{!DiscoveryContracts} `{!FactContracts}.
Context `{!Json (list CollectionCandidate)} `{!Json MetricsTargetView}.

(** The documents for the planner and the metrics, whatever fails: each is the old one or the one made of
    the persisted snapshot; the view of the metrics targets changes only when all candidates are stored, and
    then lists exactly them, the host's first, then the processes' and then the containers'; nothing else is
    touched; a failure is put into the result and stops nothing; on a host whose calls succeed all of it is
    stored.  There is one candidate for each target of a kind that is collected, in their order. *)
Theorem target_view_follows_snapshot state_dir result w : ∃ result' w', store_planned state_dir result w = (Ok result', w') ∧
  let x := rr_persisted_snapshot result in
  let l := build_collection_candidates x in
  changed_to (host_metrics_path_for state_dir) (of_kind "host_metrics" l) w w' ∧
  changed_to (process_metrics_path_for state_dir) (of_kind "process_metrics" l) w w' ∧
  changed_to (container_metrics_path_for state_dir) (of_kind "container_metrics" l) w w' ∧
  (files w' !! view_path_for state_dir = files w !! view_path_for state_dir ∨ planned_for state_dir x w') ∧
  (result' = result ∧ planned_for state_dir x w' ∨ ∃ phase detail, result' = with_store_failure phase detail result) ∧
  (∀ q, is_document q → q ∉ planner_documents state_dir → files w' !! q = files w !! q) ∧
  (fault_free → result' = result ∧ planned_for state_dir x w') ∧
  cc_target_ref <$> l =
    dt_target_id <$> List.filter (λ t, existsb (String.eqb (dt_kind t)) ["host"; "process"; "container"]) (sn_targets x).
Proof.
  destruct (store_planned_run state_dir result w) as (result' & w' & E & C1 & C2 & C3 & V & Hr & F & _).
  exists result', w'. split; [done|]. cbv zeta. unfold planned_for. split_and!; [done..| |done| |].
  - destruct Hr as [(-> & Hp & Hv)|(phase & detail & -> & _)]; [by left|right; eauto].
  - intros Hff. destruct (store_planned_ff state_dir result w Hff) as (w2 & E2 & Hp & Hv). rewrite E in E2. by injection E2 as -> ->.
  - unfold build_collection_candidates. induction (sn_targets _) as [|t l IH]; [done|]. cbn [omap list_omap List.filter].
    unfold candidate_of at 1. cbn [existsb].
    destruct (String.eqb (dt_kind t) "host"), (String.eqb (dt_kind t) "process"), (String.eqb (dt_kind t) "container"); cbn; by rewrite IH.
Qed.

(** The health of the probes tells every failure there was, each once, whether of a probe, of a store or of
    a load, after what succeeded, and nothing else. *)
Theorem health_tells_every_failure result f1 f2 : ∃ keys,
  build_probe_health result f1 f2 = ((succeeded_probe <$> rr_successful_probes result) ++ (failed_probe <$> keys))%list ∧
  NoDup keys ∧
  (∀ k, k ∈ keys ↔
    (∃ error, error ∈ rr_errors result ∧ k = error_key error) ∨ (∃ f, rr_store_failure result = Some f ∧ k = store_key f) ∨
    (∃ f, (f1 = Some f ∨ f2 = Some f) ∧ k = load_key f)) ∧
  length (List.filter (λ p, String.eqb (ph_status p) "failed") (build_probe_health result f1 f2)) = length keys.
Proof.
  destruct (probe_health_run result f1 f2) as (keys & E & Hn & Hin). exists keys. split_and!; [done|done| |].
  - intros k. rewrite Hin. unfold all_failures. rewrite !elem_of_app, !list_elem_of_fmap.
    assert (Hol : ∀ A (o : option A) x, x ∈ option_list o ↔ o = Some x) by (intros A [a|] x; cbn; set_solver).
    setoid_rewrite elem_of_app. setoid_rewrite Hol. naive_solver.
  - rewrite E, List.filter_app, length_app.
    assert (Hok : List.filter (λ p, String.eqb (ph_status p) "failed") (succeeded_probe <$> rr_successful_probes result) = [])
      by (clear; induction (rr_successful_probes result) as [|? ? IH]; [done|exact IH]).
    rewrite Hok. clear. cbn. induction keys as [|[[[a b] c] d] keys IH]; [done|]. cbn. by rewrite IH.
Qed.

Context `{!Json DiscoveryCacheMeta} `{!Json (list DiscoveredResource)} `{!Json (list DiscoveredTarget)}.

(** C36. Over any sequence of refreshes, of everything or of what is due, of policy tables and of restarts
    with any probes, on a host whose calls succeed and that holds no cache or one of the current schema
    version: what is persisted is each time the snapshot before
    or its next revision, starting with what was found on disk; the disk holds the last one, and beside
    it the candidates and the view of the metrics targets made of it. *)
Theorem snapshots_survive_restarts state_dir probes steps w found fl :
  fault_free → load_snapshot (under_state_dir state_dir) w = (Ok (found, fl), w) →
  (∀ x, found = Some x → sn_schema_version x = DISCOVERY_SCHEMA_VERSION) →
  let '(l, s') := discovery_run state_dir steps (mk_discoverer w (runtime_new probes)) in
  linked found l ∧
  (∃ fl', load_snapshot (under_state_dir state_dir) (dv_world s') =
    (Ok (match last l with Some x => Some x | None => found end, fl'), dv_world s')) ∧
  (∀ x, last l = Some x → planned_for state_dir x (dv_world s')).
Proof.
  intros Hff Hl Hsch.
  assert (Hk : knows state_dir found None (mk_discoverer w (runtime_new probes)))
    by (split; [apply slotted_new|by exists fl|done..]).
  pose proof (discovery_run_linked state_dir Hff steps _ _ _ Hk) as Hr.
  destruct (discovery_run state_dir steps _) as [l s']. destruct Hr as [Hlk [_ Hd _ _ Hpl]]. split_and!; [done|exact Hd|].
  intros x Hx. apply Hpl. by rewrite Hx.
Qed.
End Claims.

(** * Concrete runs *)

Module ConcretePlanner.
Import Concrete ConcreteDiscovery ConcreteFacts.

#[export] Instance kv_eq_dec : EqDecision StringKeyValue.
Proof. solve_decision. Defined.
#[export] Instance kv_countable : Countable StringKeyValue.
Proof. refine (inj_countable' (λ kv, (kv_key kv, kv_value kv)) (λ '(k, v), mk_kv k v) _). by intros []. Defined.
#[export] Instance candidate_eq_dec : EqDecision CollectionCandidate.
Proof. solve_decision. Defined.
#[export] Instance candidate_countable : Countable CollectionCandidate.
Proof.
  refine (inj_countable'
    (λ c, (cc_candidate_id c, cc_target_ref c, cc_collection_kind c, (cc_resource_ref c, cc_execution_hints c, cc_generated_at c)))
    (λ '(i, t, k, (r, h, g)), mk_candidate i t k r h g) _). by intros [].
Defined.
#[export] Instance entry_eq_dec : EqDecision MetricsTargetViewEntry.
Proof. solve_decision. Defined.
#[export] Instance entry_countable : Countable MetricsTargetViewEntry.
Proof.
  refine (inj_countable'
    (λ e, (ve_candidate_id e, ve_collection_kind e, ve_target_ref e, (ve_resource_ref e, ve_execution_hints e)))
    (λ '(i, k, t, (r, h)), mk_view_entry i k t r h) _). by intros [].
Defined.
#[export] Instance view_eq_dec : EqDecision MetricsTargetView.
Proof. solve_decision. Defined.
#[export] Instance view_countable : Countable MetricsTargetView.
Proof. refine (inj_countable' (λ v, (tv_generated_at v, tv_targets v)) (λ '(g, t), mk_target_view g t) _). by intros []. Defined.
#[export] Instance candidates_json : Json (list CollectionCandidate) := toy_json.
#[export] Instance view_json : Json MetricsTargetView := toy_json.

(** Two refreshes, a table, a restart with a probe that fails, and a refresh: the last snapshot stays. *)
Definition toy_steps : list DiscoveryStep :=
  [RefreshStep 5 true; RefreshStep 2000 false; PolicyStep (λ _, Some toy_policies) true;
   RestartStep [failing_probe]; RefreshStep 10 false].
Lemma snapshots_survive_restarts_witness :
  let '(l, s') := discovery_run "/s" toy_steps (mk_discoverer empty_world (runtime_new [steady_probe])) in
  sn_revision <$> l = [1; 2; 2]%Z ∧ linked None l.
Proof.
  pose proof (snapshots_survive_restarts "/s" [steady_probe] toy_steps empty_world None None toy_fault_free
    ltac:(by vm_compute) ltac:(done)) as Hr.
  assert (Hv : sn_revision <$> (discovery_run "/s" toy_steps (mk_discoverer empty_world (runtime_new [steady_probe]))).1
    = [1; 2; 2]%Z) by by vm_compute.
  destruct (discovery_run "/s" toy_steps _) as [l s']. exact (conj Hv (proj1 Hr)).
Defined.

(** A disk on which nothing can be created: the failure of the cache is put aside for that of the planner,
    so that the health tells only the second. *)
Definition read_only : Host := faulty (λ op _, match op with OpCreate => true | _ => false end).
Example planner_failure_hides_cache_failure :
  match (@refresh_discovery_snapshot toy_os read_only nonblocking _ _ _ _ _ _ _ "/s" true
           (mk_discoverer empty_world (runtime_new [steady_probe]))).1 with
  | Ok (health, _) =>
      ph_phase <$> List.filter (λ p, String.eqb (ph_status p) "failed") (dh_probes health) = ["planner_store"] ∧
      dh_failure_count health = 1 ∧ dh_readiness health = Ready
  | Err _ => False
  end.
Proof. by vm_compute. Qed.
End ConcretePlanner.
