(* ===== verification/Wire.v ===== *)
(** The uplink as bytes (telemetry/warp_parse.rs): frames, their framing, the TCP sink with its timeouts,
    back-off and the background completion of a stalled frame.  The other end of a connection is an
    interface; the TCP sink implements [RecordSink], so that what Delivery.v and its clients prove of any
    sink holds of it. *)
From stdpp Require Import pretty.
From S2P Require Import Prelude Host Text Fmt Telemetry Reader LogToy Delivery.
Import ConcreteSink.

(** * Frames *)

(** [DataFrame] of wist_contracts, the envelope of a frame: made for an agent, a time and a sequence number,
    or from a record. *)
Class WireContracts `{LogContracts} := {
  DataFrame : Type;
  DataFrame_json :: Json DataFrame;
  data_frame_new : string → string → Z → DataFrame;
  frame_of_record : TelemetryRecord → DataFrame;
}.

Section Frames.
Context `{WireContracts}.

(** The bytes of a frame; with them, for the proofs only, the record it carries. *)
Record Frame := mk_frame { fr_bytes : string; fr_record : option TelemetryRecord }.

Definition build_record_frame (record : TelemetryRecord) : Frame :=
  mk_frame (to_json (frame_of_record record) +:+ " LOGRAW: " +:+ tr_body record) (Some record).
Definition build_metrics_frame {A} `{Json A} (envelope : DataFrame) (metrics : A) : Frame :=
  mk_frame (to_json envelope +:+ " METRICS: " +:+ to_json metrics) None.
Definition build_fact_frame (envelope : DataFrame) (body : string) : Frame :=
  mk_frame (to_json envelope +:+ " OBSFACT: " +:+ body) None.
Definition build_discovery_frame (envelope : DataFrame) (body : string) : Frame :=
  mk_frame (to_json envelope +:+ " DSNAP: " +:+ body) None.
Definition build_investigation_frame (envelope : DataFrame) (body : string) : Frame :=
  mk_frame (to_json envelope +:+ " IVSREP: " +:+ body) None.
End Frames.
Arguments mk_frame {_} _ _.

Inductive TcpFraming := Line | Len.
#[export] Instance framing_eq_dec : EqDecision TcpFraming.
Proof. solve_decision. Defined.

Definition framing_parse (raw : string) : result TcpFraming :=
  if String.eqb raw "line" then Ok Line
  else if String.eqb raw "len" then Ok Len
  else Err (MkIoError InvalidInput ("unsupported tcp framing: " +:+ raw)).

Definition build_payload_bytes (data : string) (framing : TcpFraming) : string :=
  match framing with
  | Line => if ends_with nl data then data else data +:+ nl
  | Len => pretty (N.of_nat (String.length data)) +:+ " " +:+ data
  end.

(** * Connections *)

(** Times are in milliseconds. *)
Definition TCP_CONNECT_TIMEOUT : Z := 5000.
Definition TCP_WRITE_STALL_TIMEOUT : Z := 5000.
Definition TCP_WRITE_TOTAL_TIMEOUT : Z := 15000.
Definition TCP_WRITE_FINISH_TIMEOUT : Z := 60000.
Definition TCP_BACKOFF_INITIAL : Z := 1000.
Definition TCP_BACKOFF_MAX : Z := 30000.

(** The other end: what it makes of an attempt to connect, of the bytes offered to it and of a flush, and
    how long it takes; and whether the process can still start a background task. *)
Inductive WriteAnswer := Took (bytes : nat) | WriteError (e : IoError).
Class Peer := {
  PeerState : Type;
  peer_connect : string → PeerState → (result unit * Z) * PeerState;
  peer_write : string → PeerState → (WriteAnswer * Z) * PeerState;
  peer_flush : PeerState → result unit * PeerState;
  runtime_current : bool;
}.

(** What became of a connection: in use, being finished in the background, closed after complete frames,
    or lost. *)
Inductive LinkStatus := Open | Finishing (rest : string) | Shut | Broken.
Record Link `{LogContracts} := mk_link {
  lk_bytes : string;
  lk_frames : list (Frame * TcpFraming);
  lk_status : LinkStatus;
}.
Arguments mk_link {_} _ _ _.

Record TcpRecordSink `{LogContracts} `{Peer} := mk_tcp {
  tc_target_addr : string;
  tc_framing : TcpFraming;
  tc_stream : bool;
  tc_next_attempt_at : option Z;
  tc_backoff : Z;
  tc_now : Z;
  tc_links : list Link;
  tc_attempts : list Z;
  tc_peer : PeerState;
}.
Arguments mk_tcp {_ _} _ _ _ _ _ _ _ _ _.

Inductive PayloadWrite := Complete | Stalled (written : nat) | WriteFailed (e : IoError).

Section Tcp.
Context `{WireContracts} `{Peer}.
Implicit Types (s : TcpRecordSink).

(** [TcpRecordSink::new] at a time, with the other end in some state. *)
Definition tcp_new (addr : string) (port : Z) (framing : TcpFraming) (now : Z) (peer : PeerState) : TcpRecordSink :=
  mk_tcp (addr +:+ ":" +:+ pretty port) framing false None TCP_BACKOFF_INITIAL now [] [] peer.

Definition tcp_update (stream : bool) (next : option Z) (backoff now : Z) (links : list Link) (peer : PeerState) s :
    TcpRecordSink :=
  mk_tcp (tc_target_addr s) (tc_framing s) stream next backoff now links (tc_attempts s) peer.

Definition in_backoff s : bool := match tc_next_attempt_at s with Some at_ => Z.ltb (tc_now s) at_ | None => false end.

Definition schedule_backoff s : TcpRecordSink :=
  let backoff := Z.min (tc_backoff s * 2) TCP_BACKOFF_MAX in
  tcp_update (tc_stream s) (Some (tc_now s + backoff)%Z) backoff (tc_now s) (tc_links s) (tc_peer s) s.

Definition tag_target s (err : IoError) : IoError := MkIoError (io_kind err) (tc_target_addr s +:+ ": " +:+ io_msg err).
Definition backoff_error s : IoError := tag_target s (MkIoError WouldBlock "tcp uplink in backoff").

(** An attempt to connect, put on record. *)
Definition attempted_at s : TcpRecordSink :=
  mk_tcp (tc_target_addr s) (tc_framing s) (tc_stream s) (tc_next_attempt_at s) (tc_backoff s) (tc_now s) (tc_links s)
    (tc_attempts s ++ [tc_now s]) (tc_peer s).

Definition ensure_connected : M TcpRecordSink unit := λ s,
  if tc_stream s then (Ok tt, s)
  else if in_backoff s then (Err (backoff_error s), s)
  else
    let s := attempted_at s in
    let '((answer, time), peer) := peer_connect (tc_target_addr s) (tc_peer s) in
    if Z.ltb TCP_CONNECT_TIMEOUT time then
      let s := tcp_update false (tc_next_attempt_at s) (tc_backoff s) (tc_now s + TCP_CONNECT_TIMEOUT) (tc_links s) peer s in
      let s := schedule_backoff s in
      (Err (tag_target s (MkIoError TimedOut "tcp connect timed out")), s)
    else
      let now := (tc_now s + Z.max 0 time)%Z in
      match answer with
      | Ok _ => (Ok tt, tcp_update true None TCP_BACKOFF_INITIAL now (tc_links s ++ [mk_link "" [] Open])%list peer s)
      | Err err =>
          let s := schedule_backoff (tcp_update false (tc_next_attempt_at s) (tc_backoff s) now (tc_links s) peer s) in
          (Err (tag_target s err), s)
      end.

(** The connection in use is the last one. *)
Fixpoint on_last (f : Link → Link) (links : list Link) : list Link :=
  match links with
  | [] => []
  | [l] => [f l]
  | l :: links => l :: on_last f links
  end.
Definition set_status (status : LinkStatus) (l : Link) : Link := mk_link (lk_bytes l) (lk_frames l) status.
Definition receive (text : string) (l : Link) : Link := mk_link (lk_bytes l +:+ text) (lk_frames l) (lk_status l).
Definition hand_over (frames : list (Frame * TcpFraming)) (l : Link) : Link :=
  mk_link (lk_bytes l) (lk_frames l ++ frames) (lk_status l).
Definition with_links (links : list Link) s : TcpRecordSink :=
  tcp_update (tc_stream s) (tc_next_attempt_at s) (tc_backoff s) (tc_now s) links (tc_peer s) s.
Definition after (now : Z) (peer : PeerState) s : TcpRecordSink :=
  tcp_update (tc_stream s) (tc_next_attempt_at s) (tc_backoff s) now (tc_links s) peer s.

(** [write_payload_bytes]: every round that goes on has written a byte. *)
Fixpoint write_loop (fuel : nat) (payload : string) (written : nat) (deadline stall : Z) s : PayloadWrite * TcpRecordSink :=
  match fuel with
  | O => (Stalled written, s)
  | S fuel =>
      if Nat.ltb written (String.length payload) then
        if Z.leb deadline (tc_now s) then (Stalled written, s)
        else
          let window := Z.min stall (deadline - tc_now s) in
          let rest := str_drop written payload in
          let '((answer, time), peer) := peer_write rest (tc_peer s) in
          if Z.ltb window time then (Stalled written, after (tc_now s + window) peer s)
          else
            let s := after (tc_now s + Z.max 0 time) peer s in
            match answer with
            | Took n =>
                let n := Nat.min n (String.length rest) in
                if Nat.eqb n 0 then (WriteFailed (MkIoError WriteZero "tcp write accepted zero bytes"), s)
                else
                  write_loop fuel payload (written + n) deadline stall
                    (with_links (on_last (receive (str_take n rest)) (tc_links s)) s)
            | WriteError e => (WriteFailed e, s)
            end
      else
        let '(flushed, peer) := peer_flush (tc_peer s) in
        let s := after (tc_now s) peer s in
        match flushed with Ok _ => (Complete, s) | Err e => (WriteFailed e, s) end
  end.
Definition write_payload_bytes (payload : string) (stall total : Z) s : PayloadWrite * TcpRecordSink :=
  write_loop (S (String.length payload)) payload 0 (tc_now s + total) stall s.

(** [finish_in_background]: the rest is left to a task, if there can be one. *)
Definition finish_in_background (rest : string) s : TcpRecordSink :=
  with_links (on_last (set_status (if runtime_current then Finishing rest else Broken)) (tc_links s)) s.

(** The stream is taken out, and put back if all went well. *)
Definition take_stream s : TcpRecordSink :=
  tcp_update false (tc_next_attempt_at s) (tc_backoff s) (tc_now s) (tc_links s) (tc_peer s) s.
Definition put_stream s : TcpRecordSink :=
  tcp_update true (tc_next_attempt_at s) (tc_backoff s) (tc_now s) (tc_links s) (tc_peer s) s.

(** [write_payload] of the frames, which are in the payload in this order. *)
Definition write_payload (frames : list Frame) : M TcpRecordSink unit :=
  ensure_connected;;
  act (λ s,
    let payload := sconcat ((λ f, build_payload_bytes (fr_bytes f) (tc_framing s)) <$> frames) in
    let s := take_stream (with_links (on_last (hand_over ((λ f, (f, tc_framing s)) <$> frames)) (tc_links s)) s) in
    let '(outcome, s) := write_payload_bytes payload TCP_WRITE_STALL_TIMEOUT TCP_WRITE_TOTAL_TIMEOUT s in
    match outcome with
    | Complete => (Ok tt, put_stream s)
    | WriteFailed err =>
        let s := schedule_backoff (with_links (on_last (set_status Broken) (tc_links s)) s) in
        (Err (tag_target s err), s)
    | Stalled written =>
        let s := schedule_backoff s in
        let s := if Nat.ltb written (String.length payload) then finish_in_background (str_drop written payload) s
                 else with_links (on_last (set_status Shut) (tc_links s)) s in
        (Err (tag_target s (MkIoError TimedOut "tcp write stalled (no progress)")), s)
    end).

(** [RecordSink for TcpRecordSink]; the error is marked as one of the uplink. *)
Definition tcp_write_records (records : list TelemetryRecord) : M TcpRecordSink unit :=
  match records with
  | [] => mret tt
  | _ => write_payload (build_record_frame <$> records)
  end.
Definition tcp_write_metrics {A} `{Json A} (envelope : DataFrame) (metrics : A) : M TcpRecordSink unit :=
  write_payload [build_metrics_frame envelope metrics].
Definition tcp_write_fact (envelope : DataFrame) (body : string) : M TcpRecordSink unit :=
  write_payload [build_fact_frame envelope body].
Definition tcp_write_discovery (envelope : DataFrame) (body : string) : M TcpRecordSink unit :=
  write_payload [build_discovery_frame envelope body].
Definition tcp_write_investigation (envelope : DataFrame) (body : string) : M TcpRecordSink unit :=
  write_payload [build_investigation_frame envelope body].
End Tcp.

(** ** [TelemetryRecordSink] *)

(** The part of the configuration that names an output. *)
Record LogsOutputSection := mk_output {
  lo_enabled : bool;
  lo_kind : string;
  lo_file_path : string;
  lo_tcp_addr : string;
  lo_tcp_port : Z;
  lo_tcp_framing : string;
}.

Inductive TelemetryRecordSink `{LogContracts} `{Peer} :=
| FileSink (path : string)
| TcpSink (sink : TcpRecordSink).

Section Sink.
Context `{WireContracts} `{Peer} `{SpoolEnv}.

Definition from_logs_output (output : LogsOutputSection) (framing : option TcpFraming) (now : Z) (peer : PeerState) :
    result TelemetryRecordSink :=
  if String.eqb (lo_kind output) "file" then Ok (FileSink (lo_file_path output))
  else if String.eqb (lo_kind output) "tcp" then
    match (match framing with Some framing => Ok framing | None => framing_parse (lo_tcp_framing output) end) with
    | Ok framing => Ok (TcpSink (tcp_new (lo_tcp_addr output) (lo_tcp_port output) framing now peer))
    | Err err => Err err
    end
  else Err (MkIoError InvalidInput ("unsupported telemetry output kind: " +:+ lo_kind output)).

(** [FileRecordSink::write_records]; the world and the sink are both at hand. *)
Definition file_write_records (path : string) (records : list TelemetryRecord) : M World unit :=
  match records with
  | [] => mret tt
  | _ => ensure_parent path;; fs_open_append path;; write_lines path records;; fs_sync path
  end.

Definition in_tcp (m : M TcpRecordSink unit) (s : TcpRecordSink) : result unit * TelemetryRecordSink :=
  let '(r, s) := m s in (r, TcpSink s).
Definition sink_write_metrics {A} `{Json A} (envelope : DataFrame) (metrics : A) : M TelemetryRecordSink unit := λ s,
  match s with FileSink _ => (Ok tt, s) | TcpSink t => in_tcp (tcp_write_metrics envelope metrics) t end.
Definition sink_write_fact (envelope : DataFrame) (body : string) : M TelemetryRecordSink unit := λ s,
  match s with
  | FileSink _ => let err := MkIoError Unsupported ("fact frames need the data-plane TCP uplink; set [telemetry.logs.output] kind = " +:+
      String dquote ("tcp" +:+ String dquote "")) in (Err err, s)
  | TcpSink t => in_tcp (tcp_write_fact envelope body) t
  end.
Definition carries_fact_frames (s : TelemetryRecordSink) : bool := match s with TcpSink _ => true | FileSink _ => false end.
Definition sink_write_discovery (envelope : DataFrame) (body : string) : M TelemetryRecordSink unit := λ s,
  match s with FileSink _ => (Ok tt, s) | TcpSink t => in_tcp (tcp_write_discovery envelope body) t end.
Definition carries_discovery_frames (s : TelemetryRecordSink) : bool := match s with TcpSink _ => true | FileSink _ => false end.
Definition sink_write_investigation (envelope : DataFrame) (body : string) : M TelemetryRecordSink unit := λ s,
  match s with FileSink _ => (Ok tt, s) | TcpSink t => in_tcp (tcp_write_investigation envelope body) t end.
Definition carries_investigation_frames (s : TelemetryRecordSink) : bool :=
  match s with TcpSink _ => true | FileSink _ => false end.
End Sink.

(** * What the other end reads *)

Definition payload_of `{LogContracts} (ff : Frame * TcpFraming) : string := build_payload_bytes (fr_bytes ff.1) ff.2.
Definition text_of `{LogContracts} (frames : list (Frame * TcpFraming)) : string := sconcat (payload_of <$> frames).

(** A receiver of frames that carry their length. *)
Definition decimal_digit (c : ascii) : option N :=
  let z := code c in if in_range 48 57 z then Some (Z.to_N (z - 48)) else None.
Fixpoint read_length (acc : N) (s : string) : option (nat * string) :=
  match s with
  | EmptyString => None
  | String c s =>
      if Ascii.eqb c " " then Some (N.to_nat acc, s)
      else d ← decimal_digit c; read_length (acc * 10 + d) s
  end.
Fixpoint decode_len (fuel : nat) (s : string) : option (list string) :=
  match fuel, s with
  | _, EmptyString => Some []
  | O, _ => None
  | S fuel, _ =>
      '(n, rest) ← read_length 0 s;
      if Nat.ltb (String.length rest) n then None
      else l ← decode_len fuel (str_drop n rest); Some (str_take n rest :: l)
  end.
(** A receiver of lines; what is left without an end of line is a line too. *)
Definition decode_line (s : string) : list string :=
  match rev (split_on newline s) with
  | EmptyString :: l => rev l
  | l => rev l
  end.

Definition decode (framing : TcpFraming) (s : string) : option (list string) :=
  match framing with Line => Some (decode_line s) | Len => decode_len (String.length s) s end.

(** A frame that the framing can carry: lines carry no frame with a line break in it. *)
Definition carried (framing : TcpFraming) (data : string) : Prop :=
  match framing with Line => has_char newline data = false ∧ data ≠ "" | Len => True end.

(** The frames of a connection that are wholly among its first bytes; the records whose frames are. *)
Fixpoint complete_frames `{LogContracts} (len : nat) (frames : list (Frame * TcpFraming)) : list (Frame * TcpFraming) :=
  match frames with
  | [] => []
  | ff :: frames =>
      let n := String.length (payload_of ff) in
      if Nat.leb n len then ff :: complete_frames (len - n) frames else []
  end.
Definition link_records `{LogContracts} (l : Link) : list TelemetryRecord :=
  omap (λ ff, fr_record ff.1) (complete_frames (String.length (lk_bytes l)) (lk_frames l)).
Definition tcp_accepted `{LogContracts} `{Peer} (s : TcpRecordSink) : list TelemetryRecord :=
  concat (link_records <$> tc_links s).

(** * The life of a sink *)

(** A step of the background task of a connection: bytes it gets across; it ends when all are written, or
    on an error or at [TCP_WRITE_FINISH_TIMEOUT]. *)
Definition finish_step `{LogContracts} (n : nat) (ends : bool) (l : Link) : Link :=
  match lk_status l with
  | Finishing rest =>
      let l' := mk_link (lk_bytes l +:+ str_take n rest) (lk_frames l) (Finishing (str_drop n rest)) in
      if Nat.leb (String.length rest) n then set_status Shut l' else if ends then set_status Broken l' else l'
  | _ => l
  end.

(** What happens to a sink: a write of some frames, the passing of time, a step of a background task. *)
Inductive TcpEvent `{LogContracts} := WriteFrames (frames : list Frame) | Wait (ms : Z) | Finish (link bytes : nat) (ends : bool).
Definition tcp_step `{WireContracts} `{Peer} (s : TcpRecordSink) (ev : TcpEvent) : TcpRecordSink :=
  match ev with
  | WriteFrames frames => (write_payload frames s).2
  | Wait ms => after (tc_now s + Z.max 0 ms) (tc_peer s) s
  | Finish link bytes ends => with_links (alter (finish_step bytes ends) link (tc_links s)) s
  end.
Definition tcp_run `{WireContracts} `{Peer} : TcpRecordSink → list TcpEvent → TcpRecordSink := foldl tcp_step.

(** What the other end of a connection makes of it. *)
Definition delivers `{LogContracts} (framing : TcpFraming) (l : Link) : Prop :=
  let whole := Some ((λ ff, fr_bytes ff.1) <$> lk_frames l) in
  match lk_status l with
  | Open | Shut => decode framing (lk_bytes l) = whole
  | Finishing rest => decode framing (lk_bytes l +:+ rest) = whole
  | Broken => ∃ rest, decode framing (lk_bytes l +:+ rest) = whole
  end.
Definition written_frames `{LogContracts} (ev : TcpEvent) : list Frame := match ev with WriteFrames frames => frames | _ => [] end.

Section Framing.
Implicit Types (data s : string) (n : N).

Lemma decimal_digit_char d : (d < 10)%N → decimal_digit (pretty_N_char d) = Some d ∧ pretty_N_char d ≠ " "%char.
Proof.
  intros Hd. assert (d = 0 ∨ d = 1 ∨ d = 2 ∨ d = 3 ∨ d = 4 ∨ d = 5 ∨ d = 6 ∨ d = 7 ∨ d = 8 ∨ d = 9)%N as Hc by lia.
  repeat (destruct Hc as [->|Hc]; [by vm_compute|]). by subst d.
Qed.

Lemma read_length_go n s : read_length 0 (pretty_N_go n s) = read_length n s.
Proof.
  revert s. induction (N.lt_wf_0 n) as [n _ IH]; intros s. destruct (decide (n = 0)%N) as [->|Hn]; [by rewrite pretty_N_go_0|].
  rewrite pretty_N_go_step by lia. rewrite IH by (by apply N.div_lt; lia). cbn [read_length].
  assert (Hd : (n mod 10 < 10)%N) by by apply N.mod_lt.
  destruct (decimal_digit_char _ Hd) as [Hc Hs]. destruct (Ascii.eqb_spec (pretty_N_char (n mod 10)) " "); [done|].
  rewrite Hc. cbn [mbind option_bind]. do 2 f_equal. rewrite (N.div_mod n 10) at 3 by done. lia.
Qed.

Lemma read_length_pretty n s : read_length 0 (pretty n +:+ " " +:+ s) = Some (N.to_nat n, s).
Proof.
  assert (Happ : ∀ n t u, pretty_N_go n t +:+ u = pretty_N_go n (t +:+ u)).
  { intros m. induction (N.lt_wf_0 m) as [m _ IH]; intros t u. destruct (decide (m = 0)%N) as [->|Hm]; [by rewrite !pretty_N_go_0|].
    rewrite !(pretty_N_go_step m) by lia. rewrite IH by (by apply N.div_lt; lia). by rewrite app_cons. }
  unfold pretty, pretty_N. case_decide as Hn; [subst n; done|]. rewrite Happ, read_length_go.
  change ("" +:+ " " +:+ s) with (String " " s). cbn [read_length]. by rewrite Ascii.eqb_refl.
Qed.

Lemma sconcat_cons d ds : sconcat (d :: ds) = d +:+ sconcat ds.
Proof. done. Qed.

Lemma len_payload_pos data : 1 ≤ String.length (build_payload_bytes data Len).
Proof. unfold build_payload_bytes. rewrite !length_app_string. cbn. lia. Qed.

(** Frames with their lengths are read back whatever is in them. *)
Lemma decode_len_frames datas fuel : String.length (sconcat ((λ d, build_payload_bytes d Len) <$> datas)) ≤ fuel →
  decode_len fuel (sconcat ((λ d, build_payload_bytes d Len) <$> datas)) = Some datas.
Proof.
  revert fuel. induction datas as [|d datas IH]; intros fuel Hf; [by destruct fuel|].
  cbn [fmap list_fmap] in *. rewrite sconcat_cons in *. rewrite length_app_string in Hf. pose proof (len_payload_pos d) as Hp.
  destruct fuel as [|fuel]; [lia|]. set (rest := sconcat _) in *.
  assert (Hne : build_payload_bytes d Len +:+ rest ≠ "").
  { intros He. apply (f_equal String.length) in He. rewrite length_app_string in He. cbn [String.length] in He. lia. }
  cbn [decode_len]. destruct (build_payload_bytes d Len +:+ rest) as [|c t] eqn:Et; [done|]. rewrite <- Et. clear Hne.
  unfold build_payload_bytes. rewrite <- !Prelude.app_assoc, read_length_pretty. cbn [mbind option_bind]. rewrite Nat2N.id.
  rewrite length_app_string. destruct (Nat.ltb_spec (String.length d + String.length rest) (String.length d)); [lia|].
  rewrite str_take_app_length, str_drop_app_length. rewrite IH by lia. done.
Qed.

Lemma decode_line_frames datas : Forall (carried Line) datas →
  decode_line (sconcat ((λ d, build_payload_bytes d Line) <$> datas)) = datas.
Proof.
  intros Hc. assert (Hs : split_on newline (sconcat ((λ d, build_payload_bytes d Line) <$> datas)) = (datas ++ [""])%list).
  { induction datas as [|d datas IH]; [done|]. apply Forall_cons in Hc as [[Hn He] Hc].
    cbn [fmap list_fmap]. rewrite sconcat_cons. unfold build_payload_bytes at 1.
    destruct (ends_with nl d) eqn:Ee.
    { apply ends_with_spec in Ee as [p ->]. by rewrite has_char_app, orb_true_r in Hn. }
    rewrite <- Prelude.app_assoc. change (nl +:+ ?x) with (String newline x). rewrite split_on_app, (IH Hc).
    assert (Hd : split_on newline d = [d]); [|by rewrite Hd].
    clear -Hn. induction d as [|a d IH]; [done|]. rewrite has_char_cons in Hn. apply orb_false_iff in Hn as [Ha Hn].
    cbn [split_on]. by rewrite Ha, (IH Hn). }
  unfold decode_line. rewrite Hs, rev_app_distr. cbn [rev app]. apply rev_involutive.
Qed.

Lemma decode_frames framing datas : Forall (carried framing) datas →
  decode framing (sconcat ((λ d, build_payload_bytes d framing) <$> datas)) = Some datas.
Proof. intros Hc. destruct framing; cbn; [by rewrite decode_line_frames|by apply decode_len_frames]. Qed.
End Framing.

(** * Connections end in whole frames *)

Section TcpFacts.
Context `{WireContracts} `{Peer}.
Implicit Types (s : TcpRecordSink) (l : Link).

Lemma text_of_app (frames frames' : list (Frame * TcpFraming)) : text_of (frames ++ frames') = text_of frames +:+ text_of frames'.
Proof. unfold text_of. by rewrite fmap_app, sconcat_app. Qed.

(** A connection in use or closed has taken whole frames; one that is being finished will have; one that
    was lost has taken a beginning of them. *)
Definition link_wf l : Prop :=
  match lk_status l with
  | Open | Shut => lk_bytes l = text_of (lk_frames l)
  | Finishing rest => lk_bytes l +:+ rest = text_of (lk_frames l)
  | Broken => ∃ rest, lk_bytes l +:+ rest = text_of (lk_frames l)
  end.
Record tcp_wf s : Prop := mk_tcp_wf {
  tw_links : Forall link_wf (tc_links s);
  tw_framing : Forall (λ l, Forall (λ ff, ff.2 = tc_framing s) (lk_frames l)) (tc_links s);
  tw_stream : tc_stream s = true → ∃ pre l, tc_links s = (pre ++ [l])%list ∧ lk_status l = Open;
}.

Lemma on_last_snoc f pre l : on_last f (pre ++ [l]) = (pre ++ [f l])%list.
Proof.
  induction pre as [|l' pre IH]; [done|]. cbn [app on_last]. rewrite IH. by destruct pre.
Qed.

Lemma receive_receive a b l : receive b (receive a l) = receive (a +:+ b) l.
Proof. unfold receive. cbn. by rewrite Prelude.app_assoc. Qed.

(** What a write leaves alone. *)
Record written_only s s' : Prop := mk_written_only {
  wo_target : tc_target_addr s' = tc_target_addr s;
  wo_framing : tc_framing s' = tc_framing s;
  wo_stream : tc_stream s' = tc_stream s;
  wo_next : tc_next_attempt_at s' = tc_next_attempt_at s;
  wo_backoff : tc_backoff s' = tc_backoff s;
  wo_attempts : tc_attempts s' = tc_attempts s;
}.
#[export] Instance written_only_preorder : PreOrder written_only.
Proof. split; [by split|]. intros s1 s2 s3 [] []. split; congruence. Qed.

Lemma write_loop_run fuel payload written deadline stall s pre l o s' :
  tc_links s = (pre ++ [l])%list → String.length payload - written < fuel → written ≤ String.length payload → (0 ≤ stall)%Z →
  write_loop fuel payload written deadline stall s = (o, s') → ∃ n,
    tc_links s' = (pre ++ [receive (str_take n (str_drop written payload)) l])%list ∧ written + n ≤ String.length payload ∧
    match o with Complete => written + n = String.length payload | Stalled k => k = written + n ∧ k < String.length payload | WriteFailed _ => True end ∧
    written_only s s' ∧ (tc_now s ≤ tc_now s' ≤ Z.max (tc_now s) deadline)%Z.
Proof.
  revert written s l. induction fuel as [|fuel IH]; intros written s l Hl Hf Hw Hst; [lia|]. cbn [write_loop].
  assert (Hsame : (pre ++ [receive (str_take 0 (str_drop written payload)) l])%list = (pre ++ [l])%list).
  { rewrite str_take_0. unfold receive. rewrite Prelude.app_nil_r. by destruct l. }
  destruct (Nat.ltb_spec written (String.length payload)) as [Hlt|Hge].
  2:{ destruct (peer_flush (tc_peer s)) as [[[]|e] peer]; intros [= <- <-]; exists 0; rewrite Hsame; cbn [tc_links tc_now after tcp_update];
        (split_and!; [done|lia|first [lia|done]|by split|lia|lia]). }
  destruct (Z.leb_spec deadline (tc_now s)) as [|Hd].
  { intros [= <- <-]. exists 0. rewrite Hsame. split_and!; [done|lia|lia|lia|done|lia|lia]. }
  set (window := Z.min stall (deadline - tc_now s)). assert (Hwin : (0 ≤ window ≤ deadline - tc_now s)%Z) by lia.
  destruct (peer_write _ _) as [[answer time] peer]. destruct (Z.ltb_spec window time) as [|Ht].
  { intros [= <- <-]. exists 0. rewrite Hsame. cbn [tc_links tc_now after tcp_update]. split_and!; [done|lia|lia|lia|by split|lia|lia]. }
  destruct answer as [n|e].
  2:{ intros [= <- <-]. exists 0. rewrite Hsame. cbn [tc_links tc_now after tcp_update]. split_and!; [done|lia|done|by split|lia|lia]. }
  set (rest := str_drop written payload) in *. set (k := Nat.min n (String.length rest)). destruct (Nat.eqb_spec k 0).
  { intros [= <- <-]. exists 0. rewrite Hsame. cbn [tc_links tc_now after tcp_update]. split_and!; [done|lia|done|by split|lia|lia]. }
  assert (Hk : k ≤ String.length payload - written) by (unfold k, rest; rewrite str_drop_length; lia).
  set (s1 := after (tc_now s + Z.max 0 time) peer s). intros E.
  destruct (IH (written + k) (with_links (on_last (receive (str_take k rest)) (tc_links s1)) s1) (receive (str_take k rest) l))
    as (m & El & Hm & Ho & Hwo & Hn); [|lia|lia|done|exact E|].
  { cbn [with_links tcp_update tc_links after s1]. rewrite Hl. apply on_last_snoc. }
  exists (k + m). split_and!.
  - rewrite El, receive_receive. unfold rest. rewrite str_take_add, str_drop_drop. done.
  - lia.
  - destruct o; [lia|lia|done].
  - destruct Hwo. by split.
  - cbn [with_links tcp_update tc_now after s1] in Hn. lia.
  - cbn [with_links tcp_update tc_now after s1] in Hn. lia.
Qed.

(** After an attempt to connect: in use, with an empty connection if it is new, or as before. *)
Lemma ensure_connected_run s r s' : tcp_wf s → ensure_connected s = (r, s') →
  tcp_wf s' ∧ tc_framing s' = tc_framing s ∧ tc_target_addr s' = tc_target_addr s ∧
  (tc_now s ≤ tc_now s' ≤ tc_now s + TCP_CONNECT_TIMEOUT)%Z ∧
  (tc_links s' = tc_links s ∨ tc_links s' = (tc_links s ++ [mk_link "" [] Open])%list) ∧
  (r = Ok tt → tc_stream s' = true) ∧ (is_ok r = false → tc_links s' = tc_links s).
Proof.
  intros Hwf. pose proof Hwf as [Hl Hf _]. unfold ensure_connected, TCP_CONNECT_TIMEOUT. destruct (tc_stream s) eqn:Es.
  { intros [= <- <-]. split_and!; [done|done|done|lia|lia|by left|done|done]. }
  destruct (in_backoff s); [intros [= <- <-]; split_and!; [done|done|done|lia|lia|by left|done|done]|].
  destruct (peer_connect _ _) as [[answer time] peer]. destruct (Z.ltb_spec 5000 time).
  { intros [= <- <-]. cbn. split_and!; [by split|done|done|lia|lia|by left|done|done]. }
  destruct answer as [u|e]; intros [= <- <-]; cbn.
  - split_and!; [split; cbn|done|done|lia|lia|by right|done|done].
    + apply Forall_app. split; [done|]. by repeat constructor.
    + apply Forall_app. split; [done|]. by repeat constructor.
    + intros _. by eexists _, _.
  - split_and!; [by split|done|done|lia|lia|by left|done|done].
Qed.

Definition handed s (frames : list Frame) : list (Frame * TcpFraming) := (λ f, (f, tc_framing s)) <$> frames.
Lemma handed_text s (frames : list Frame) : sconcat ((λ f, build_payload_bytes (fr_bytes f) (tc_framing s)) <$> frames) = text_of (handed s frames).
Proof. unfold text_of, handed. by rewrite <- list_fmap_compose. Qed.

(** What a write does to the connections: nothing, or the last one, which may be new, is handed the frames
    and takes a beginning of their bytes, all of them if the write succeeds. *)
Lemma write_payload_run (frames : list Frame) s r s' : tcp_wf s → write_payload frames s = (r, s') →
  tcp_wf s' ∧ tc_framing s' = tc_framing s ∧ tc_target_addr s' = tc_target_addr s ∧
  (tc_now s ≤ tc_now s' ≤ tc_now s + TCP_CONNECT_TIMEOUT + TCP_WRITE_TOTAL_TIMEOUT)%Z ∧
  ((is_ok r = false ∧ tc_links s' = tc_links s) ∨
   ∃ pre l n status, (tc_links s = (pre ++ [l])%list ∨ tc_links s = pre ∧ l = mk_link "" [] Open) ∧
     lk_bytes l = text_of (lk_frames l) ∧ n ≤ String.length (text_of (handed s frames)) ∧
     tc_links s' = (pre ++ [mk_link (lk_bytes l +:+ str_take n (text_of (handed s frames))) (lk_frames l ++ handed s frames) status])%list ∧
     (r = Ok tt → n = String.length (text_of (handed s frames)))).
Proof.
  intros Hwf. unfold write_payload. intros [(e & E & ->)|([] & s1 & E1 & E)]%bind_inv.
  { destruct (ensure_connected_run _ _ _ Hwf E) as (Hwf' & Hf & Ht & Hn & _ & _ & Hl).
    unfold TCP_WRITE_TOTAL_TIMEOUT. split_and!; [done..|lia|lia|]. left. split; [done|by apply Hl]. }
  destruct (ensure_connected_run _ _ _ Hwf E1) as ([Wl Wf Ws] & Hf & Ht & Hn & Hl & Hs & _). specialize (Hs eq_refl).
  destruct (Ws Hs) as (pre & l & El & Hst).
  assert (Hlb : lk_bytes l = text_of (lk_frames l)).
  { rewrite El, Forall_app, Forall_singleton in Wl. destruct Wl as [_ Wl]. unfold link_wf in Wl. by rewrite Hst in Wl. }
  assert (Hbase : tc_links s = (pre ++ [l])%list ∨ tc_links s = pre ∧ l = mk_link "" [] Open).
  { destruct Hl as [<-|Hl]; [by left|]. rewrite El in Hl. apply app_inj_tail in Hl as [-> ->]. by right. }
  unfold act in E. rewrite handed_text in E.
  assert (Hh : handed s1 frames = handed s frames) by (unfold handed; by rewrite Hf). rewrite Hh in E. fold (handed s1 frames) in E. rewrite Hh in E.
  set (new := handed s frames) in *. set (payload := text_of new) in *.
  set (s2 := take_stream _) in E.
  assert (El2 : tc_links s2 = (pre ++ [hand_over new l])%list).
  { unfold s2. cbn [take_stream with_links tcp_update tc_links]. rewrite El. apply on_last_snoc. }
  unfold write_payload_bytes in E. destruct (write_loop _ _ _ _ _ _) as [o s3] eqn:Ew.
  pose proof (λ H1 H2 H3, write_loop_run _ _ _ _ _ _ _ _ _ _ El2 H1 H2 H3 Ew) as Hw.
  destruct Hw as (n & El3 & Hle & Ho & Hwo & Hnow); [lia|lia|by vm_compute|]. clear Ew.
  destruct Hwo as [Wt Wfr Wst Wnx Wb Wa]. cbn [str_drop] in El3. rewrite Nat.add_0_l in *.
  change (str_drop 0 payload) with payload in El3.
  cbn [s2 take_stream with_links tcp_update tc_target_addr tc_framing tc_stream tc_next_attempt_at tc_backoff tc_attempts tc_now] in *.
  unfold TCP_WRITE_TOTAL_TIMEOUT, TCP_CONNECT_TIMEOUT in *.
  set (l' st := mk_link (lk_bytes l +:+ str_take n payload) (lk_frames l ++ new) st).
  assert (Hstat : ∀ st, on_last (set_status st) (tc_links s3) = (pre ++ [l' st])%list)
    by (intros st; rewrite El3, on_last_snoc; done).
  assert (Hopen : tc_links s3 = (pre ++ [l' Open])%list) by (rewrite El3; unfold l', receive, hand_over; cbn; by rewrite Hst).
  (* The connections after the write are well formed if the last one is. *)
  assert (Hall : ∀ st, link_wf (l' st) → Forall link_wf (pre ++ [l' st])).
  { intros st Hlw. rewrite El in Wl. apply Forall_app in Wl as [Wl _]. apply Forall_app. split; [done|by constructor]. }
  assert (Hframing : ∀ st, Forall (λ l, Forall (λ ff, ff.2 = tc_framing s1) (lk_frames l)) (pre ++ [l' st])).
  { intros st. rewrite El in Wf. apply Forall_app in Wf as [Wf Wl1]. apply Forall_app. split; [done|]. rewrite Forall_singleton in Wl1.
    rewrite Forall_singleton. cbn. apply Forall_app. split; [done|]. unfold new, handed. rewrite Hf. apply Forall_fmap. by apply Forall_true. }
  assert (Htext : lk_bytes l +:+ payload = text_of (lk_frames l ++ new)) by (rewrite text_of_app; by rewrite Hlb).
  assert (Hrest : (lk_bytes l +:+ str_take n payload) +:+ str_drop n payload = text_of (lk_frames l ++ new))
    by (by rewrite <- Htext, <- Prelude.app_assoc, str_take_drop).
  assert (Hpre : ∀ st s', tc_links s' = (pre ++ [l' st])%list → (r = Ok tt → n = String.length payload) →
    (is_ok r = false ∧ tc_links s' = tc_links s) ∨ ∃ pre l n status, (tc_links s = (pre ++ [l])%list ∨ tc_links s = pre ∧ l = mk_link "" [] Open) ∧
     lk_bytes l = text_of (lk_frames l) ∧ n ≤ String.length payload ∧
     tc_links s' = (pre ++ [mk_link (lk_bytes l +:+ str_take n payload) (lk_frames l ++ new) status])%list ∧
     (r = Ok tt → n = String.length payload)).
  { intros st s0 E0 Hr. right. exists pre, l, n, st. by split_and!. }
  destruct o as [|k|err].
  - injection E as <- <-. assert (link_wf (l' Open)).
    { change (lk_bytes l +:+ str_take n payload = text_of (lk_frames l ++ new)). rewrite <- Htext. f_equal. apply str_take_all. lia. }
    split_and!; [split; cbn|cbn; congruence|cbn; congruence|cbn; lia|cbn; lia|]; [rewrite Hopen; by apply Hall|rewrite Hopen, Wfr; by apply Hframing| |].
    + intros _. rewrite Hopen. by eexists _, _.
    + by apply (Hpre Open).
  - destruct Ho as [-> Hk]. destruct (Nat.ltb_spec n (String.length payload)); [|lia]. injection E as <- <-.
    set (st := if runtime_current then Finishing (str_drop n payload) else Broken).
    assert (link_wf (l' st)).
    { unfold st. destruct runtime_current; [exact Hrest|by exists (str_drop n payload)]. }
    split_and!; [split; cbn|cbn; congruence|cbn; congruence|cbn; lia|cbn; lia|]; [rewrite Hstat; by apply Hall|rewrite Hstat, Wfr; by apply Hframing|by rewrite Wst|].
    apply (Hpre st); [cbn; apply Hstat|done].
  - injection E as <- <-. assert (link_wf (l' Broken)).
    { by exists (str_drop n payload). }
    split_and!; [split; cbn|cbn; congruence|cbn; congruence|cbn; lia|cbn; lia|]; [rewrite Hstat; by apply Hall|rewrite Hstat, Wfr; by apply Hframing|by rewrite Wst|].
    apply (Hpre Broken); [cbn; apply Hstat|done].
Qed.

(** *** Accepted records *)

Lemma complete_frames_app n (old new : list (Frame * TcpFraming)) :
  complete_frames (String.length (text_of old) + n) (old ++ new) = (old ++ complete_frames n new)%list.
Proof.
  induction old as [|ff old IH]; [done|]. unfold text_of in *. cbn [fmap list_fmap app complete_frames].
  rewrite sconcat_cons, length_app_string. destruct (Nat.leb_spec (String.length (payload_of ff))
    (String.length (payload_of ff) + String.length (sconcat (payload_of <$> old)) + n)); [|lia].
  rewrite <- IH. do 2 f_equal. lia.
Qed.
Lemma complete_frames_all (frames : list (Frame * TcpFraming)) : complete_frames (String.length (text_of frames)) frames = frames.
Proof.
  pose proof (complete_frames_app 0 frames []) as E. cbn [complete_frames] in E.
  rewrite !List.app_nil_r, Nat.add_0_r in E. exact E.
Qed.
Lemma complete_frames_prefix n (frames : list (Frame * TcpFraming)) : complete_frames n frames `prefix_of` frames.
Proof.
  revert n. induction frames as [|ff frames IH]; intros n; cbn; [done|]. destruct (Nat.leb _ _); [|apply prefix_nil].
  by apply prefix_cons.
Qed.

Lemma omap_prefix {A B} (f : A → option B) (l l' : list A) : l `prefix_of` l' → omap f l `prefix_of` omap f l'.
Proof. intros [k ->]. rewrite omap_app. by eexists. Qed.

(** What a write of frames adds to the records accepted. *)
Lemma write_payload_accepted (frames : list Frame) s r s' : tcp_wf s → write_payload frames s = (r, s') → ∃ part,
  tcp_accepted s' = (tcp_accepted s ++ part)%list ∧ part `prefix_of` omap fr_record frames ∧
  (r = Ok tt → part = omap fr_record frames).
Proof.
  intros Hwf Hr. destruct (write_payload_run _ _ _ _ Hwf Hr) as (_ & _ & _ & _ & [[Hr' Hl]|Hrun]).
  { exists []. unfold tcp_accepted. rewrite Hl, (right_id_L [] (++)). split_and!; [done|apply prefix_nil|by intros ->]. }
  destruct Hrun as (pre & l & n & st & Hbase & Hlb & Hn & Hl & Hok).
  assert (Hom : omap (λ ff, fr_record ff.1) (handed s frames) = omap fr_record frames).
  { unfold handed. clear. induction frames as [|f frames IH]; [done|]. cbn. by rewrite IH. }
  exists (omap (λ ff, fr_record ff.1) (complete_frames n (handed s frames))).
  assert (Hrec : ∀ l, lk_bytes l = text_of (lk_frames l) →
    link_records l = omap (λ ff, fr_record ff.1) (lk_frames l)).
  { intros l0 Hb. unfold link_records. by rewrite Hb, complete_frames_all. }
  split_and!.
  - unfold tcp_accepted. rewrite Hl, fmap_app, concat_app. cbn [fmap list_fmap concat]. rewrite (right_id_L [] (++)).
    assert (Hlast : link_records (mk_link (lk_bytes l +:+ str_take n (text_of (handed s frames))) (lk_frames l ++ handed s frames) st) =
      (link_records l ++ omap (λ ff, fr_record ff.1) (complete_frames n (handed s frames)))%list).
    { rewrite (Hrec l Hlb). unfold link_records. cbn [lk_bytes lk_frames]. rewrite length_app_string, str_take_length, Hlb, complete_frames_app.
      rewrite omap_app. do 3 f_equal. lia. }
    rewrite Hlast, (assoc_L (++)). f_equal. destruct Hbase as [->|[-> ->]].
    + rewrite fmap_app, concat_app. cbn [fmap list_fmap concat]. by rewrite (right_id_L [] (++)).
    + cbn. by rewrite (right_id_L [] (++)).
  - rewrite <- Hom. apply omap_prefix, complete_frames_prefix.
  - intros Hr0. by rewrite (Hok Hr0), <- Hom, complete_frames_all.
Qed.
End TcpFacts.

(** ** Invariants over the life of a sink *)

(** Attempts to connect are apart; the next one is allowed in time. *)
Record tcp_timed `{LogContracts} `{Peer} (s : TcpRecordSink) : Prop := mk_tcp_timed {
  tt_backoff : (TCP_BACKOFF_INITIAL ≤ tc_backoff s ≤ TCP_BACKOFF_MAX)%Z;
  tt_spaced : ∀ i a b, tc_attempts s !! i = Some a → tc_attempts s !! S i = Some b → (a + 2 * TCP_BACKOFF_INITIAL ≤ b)%Z;
  tt_last : ∀ a, last (tc_attempts s) = Some a → (a ≤ tc_now s)%Z ∧
    (tc_stream s = true ∨ ∃ at_, tc_next_attempt_at s = Some at_ ∧ (a + 2 * TCP_BACKOFF_INITIAL ≤ at_)%Z);
  tt_next : ∀ at_, tc_next_attempt_at s = Some at_ → (at_ ≤ tc_now s + TCP_BACKOFF_MAX)%Z;
}.

Section TcpLife.
Context `{WireContracts} `{Peer}.
Implicit Types (s : TcpRecordSink) (l : Link) (ev : TcpEvent).

Lemma lookup_snoc_succ (l : list Z) x i a b : (l ++ [x])%list !! i = Some a → (l ++ [x])%list !! S i = Some b →
  l !! i = Some a ∧ l !! S i = Some b ∨ last l = Some a ∧ b = x.
Proof.
  intros Ha Hb. destruct (decide (S i < length l)) as [Hi|Hi].
  { left. rewrite lookup_app_l in Ha by lia. by rewrite lookup_app_l in Hb by lia. }
  pose proof (lookup_lt_Some _ _ _ Hb) as Hl. rewrite length_app in Hl. cbn in Hl. assert (length l = S i) as Hn by lia.
  right. rewrite lookup_app_r in Hb by lia. rewrite Hn, Nat.sub_diag in Hb. injection Hb as <-.
  rewrite lookup_app_l in Ha by lia. split; [|done]. rewrite last_lookup, Hn. exact Ha.
Qed.

(** The sink with nothing but its clock, connections and other end changed. *)
Lemma timed_same s s' : tc_attempts s' = tc_attempts s → tc_stream s' = tc_stream s → tc_next_attempt_at s' = tc_next_attempt_at s →
  tc_backoff s' = tc_backoff s → (tc_now s ≤ tc_now s')%Z → tcp_timed s → tcp_timed s'.
Proof.
  intros Ea Es En Eb Hn [Tb Tsp Tl Tn]. split; [by rewrite Eb|by rewrite Ea| |].
  - intros a. rewrite Ea, Es, En. intros Ha. destruct (Tl a Ha). split; [lia|done].
  - intros at_. rewrite En. intros Ha. specialize (Tn at_ Ha). lia.
Qed.

(** After a failure the next attempt waits, whatever was the case before. *)
Lemma timed_backoff s : (TCP_BACKOFF_INITIAL ≤ tc_backoff s ≤ TCP_BACKOFF_MAX)%Z →
  (∀ i a b, tc_attempts s !! i = Some a → tc_attempts s !! S i = Some b → (a + 2 * TCP_BACKOFF_INITIAL ≤ b)%Z) →
  (∀ a, last (tc_attempts s) = Some a → (a ≤ tc_now s)%Z) → tcp_timed (schedule_backoff s).
Proof.
  intros Hb Hsp Hl. unfold schedule_backoff, TCP_BACKOFF_INITIAL, TCP_BACKOFF_MAX in *. split; cbn; unfold TCP_BACKOFF_INITIAL, TCP_BACKOFF_MAX.
  - lia.
  - exact Hsp.
  - intros a Ha. specialize (Hl a Ha). split; [done|]. right. eexists. split; [done|]. lia.
  - intros at_ [= <-]. lia.
Qed.

Lemma ensure_connected_timed s : tcp_timed s → tcp_timed (ensure_connected s).2.
Proof.
  intros T. pose proof T as [Tb Tsp Tl Tn]. unfold ensure_connected. destruct (tc_stream s) eqn:Es; [done|]. destruct (in_backoff s) eqn:Ei; [done|].
  assert (Hsp : ∀ i a b, (tc_attempts s ++ [tc_now s])%list !! i = Some a → (tc_attempts s ++ [tc_now s])%list !! S i = Some b →
    (a + 2 * TCP_BACKOFF_INITIAL ≤ b)%Z).
  { intros i a b Ha Hb. destruct (lookup_snoc_succ _ _ _ _ _ Ha Hb) as [[Ha' Hb']|[Ha' ->]]; [by eapply Tsp|].
    destruct (Tl a Ha') as [_ [?|(at_ & Hat & Hle)]]; [congruence|]. unfold in_backoff in Ei. rewrite Hat in Ei.
    apply Z.ltb_ge in Ei. lia. }
  destruct (peer_connect _ _) as [[answer time] peer]. destruct (Z.ltb_spec TCP_CONNECT_TIMEOUT time).
  { apply timed_backoff; cbn; [done|done|]. intros a. rewrite last_snoc. intros [= <-]. unfold TCP_CONNECT_TIMEOUT. lia. }
  destruct answer as [u|e].
  - split; cbn.
    + unfold TCP_BACKOFF_INITIAL, TCP_BACKOFF_MAX. lia.
    + exact Hsp.
    + intros a. rewrite last_snoc. intros [= <-]. split; [lia|by left].
    + done.
  - apply timed_backoff; cbn; [done|done|]. intros a. rewrite last_snoc. intros [= <-]. lia.
Qed.

Lemma write_loop_same fuel payload written deadline stall s : (0 ≤ stall)%Z →
  let s' := (write_loop fuel payload written deadline stall s).2 in written_only s s' ∧ (tc_now s ≤ tc_now s')%Z.
Proof.
  intros Hst. cbv zeta. revert written s. induction fuel as [|fuel IH]; intros written s; cbn [write_loop]; [by split|].
  destruct (Nat.ltb_spec written (String.length payload)).
  2:{ destruct (peer_flush _) as [[[]|e] peer]; split; [by split|done|by split|done]. }
  destruct (Z.leb_spec deadline (tc_now s)); [by split|]. destruct (peer_write _ _) as [[answer time] peer].
  destruct (Z.ltb_spec (Z.min stall (deadline - tc_now s)) time); [split; [by split|cbn; lia]|].
  destruct answer as [n|e]; [|split; [by split|cbn; lia]]. match goal with |- context [Nat.eqb ?x 0] => destruct (Nat.eqb_spec x 0) end; [split; [by split|cbn; lia]|].
  match goal with |- context [write_loop fuel payload ?w deadline stall ?s'] => destruct (IH w s') as [Hw Hn] end.
  split; [eapply written_only_preorder; [|exact Hw]; by split|].
  etrans; [|exact Hn]. cbn. lia.
Qed.

Lemma write_payload_timed (frames : list Frame) s : tcp_timed s → tcp_timed (write_payload frames s).2.
Proof.
  intros T. destruct (write_payload frames s) as [r s'] eqn:E. revert E. unfold write_payload.
  intros [(e & E & ->)|([] & s1 & E1 & E)]%bind_inv; [by change s' with (Err (A:=unit) e, s').2; rewrite <- E; apply ensure_connected_timed|].
  assert (T1 : tcp_timed s1) by (change s1 with (Ok tt, s1).2; rewrite <- E1; by apply ensure_connected_timed).
  unfold act, write_payload_bytes in E. set (s2 := take_stream _) in E.
  match type of E with context [write_loop ?f ?p ?w ?d ?st s2] => pose proof (write_loop_same f p w d st s2) as Hw;
    destruct (write_loop f p w d st s2) as [o s3] end.
  destruct Hw as [[Wt Wfr Wst Wnx Wb Wa] Hn]; [by vm_compute|]. cbn [snd] in *.
  destruct T1 as [Tb Tsp Tl Tn]. change (tc_attempts s2) with (tc_attempts s1) in *. change (tc_backoff s2) with (tc_backoff s1) in *.
  change (tc_now s2) with (tc_now s1) in *. change (tc_next_attempt_at s2) with (tc_next_attempt_at s1) in *.
  assert (Hlast : ∀ a, last (tc_attempts s3) = Some a → (a ≤ tc_now s3)%Z).
  { intros a. rewrite Wa. intros Ha. destruct (Tl a Ha). lia. }
  assert (Hback : ∀ links, tcp_timed (schedule_backoff (with_links links s3))).
  { intros links. apply timed_backoff; cbn; [by rewrite Wb|by rewrite Wa|done]. }
  destruct o as [|k|err].
  - injection E as <- <-. cbn [snd]. split; cbn.
    + by rewrite Wb.
    + by rewrite Wa.
    + intros a Ha. split; [by apply Hlast|by left].
    + rewrite Wnx. intros at_ Ha. specialize (Tn at_ Ha). lia.
  - injection E as <- <-. cbn [snd]. destruct (Nat.ltb _ _); (eapply timed_same; [..|apply (Hback (tc_links s3))]; done).
  - injection E as <- <-. apply Hback.
Qed.

Lemma tcp_step_timed s ev : tcp_timed s → tcp_timed (tcp_step s ev).
Proof.
  intros T. destruct ev as [frames|ms|link bytes ends]; cbn [tcp_step]; [by apply write_payload_timed|..];
    (eapply timed_same; [..|exact T]; cbn; [done..|lia]).
Qed.

Lemma tcp_run_ind (P : TcpRecordSink → Prop) (Q : TcpEvent → Prop) s evs : P s → (∀ s ev, P s → Q ev → P (tcp_step s ev)) →
  Forall Q evs → P (tcp_run s evs).
Proof.
  intros Hs Hstep Hq. unfold tcp_run. revert s Hs. induction Hq as [|ev evs Hev _ IH]; intros s Hs; [done|]. cbn [foldl].
  by apply IH, Hstep.
Qed.

(** The frames of every connection satisfy a property of the frames written. *)
Lemma finish_step_frames n ends l : lk_frames (finish_step n ends l) = lk_frames l.
Proof. unfold finish_step. destruct (lk_status l); [done| |done|done]. by destruct (Nat.leb _ _), ends. Qed.
Lemma finish_step_open n ends l : lk_status l = Open → finish_step n ends l = l.
Proof. unfold finish_step. by intros ->. Qed.
Lemma finish_step_wf n ends l : link_wf l → link_wf (finish_step n ends l).
Proof.
  unfold finish_step. destruct l as [bytes frames st]. cbn. destruct st as [|rest| |]; try done. unfold link_wf at 1. cbn. intros E.
  assert (Hw : (bytes +:+ str_take n rest) +:+ str_drop n rest = text_of frames) by by rewrite <- Prelude.app_assoc, str_take_drop.
  destruct (Nat.leb_spec (String.length rest) n); [|destruct ends].
  - unfold link_wf. cbn. by rewrite str_take_all by lia.
  - unfold link_wf. cbn. by exists (str_drop n rest).
  - exact Hw.
Qed.

Lemma Forall_alter {A} (P : A → Prop) (f : A → A) i (l : list A) : Forall P l → (∀ x, P x → P (f x)) → Forall P (alter f i l).
Proof.
  intros Hl Hf. apply Forall_lookup. intros j x. destruct (decide (i = j)) as [->|Hn].
  - rewrite list_lookup_alter_eq. destruct (l !! j) as [y|] eqn:Ey; [|done]. cbn. intros [= <-].
    apply Hf. by eapply Forall_lookup_1.
  - rewrite list_lookup_alter_ne by done. by apply Forall_lookup_1.
Qed.

Definition frames_satisfy (Q : Frame → Prop) (s : TcpRecordSink) : Prop :=
  Forall (λ l, Forall (λ ff, Q ff.1) (lk_frames l)) (tc_links s).

Lemma tcp_step_wf Q s ev : tcp_wf s ∧ frames_satisfy Q s → Forall Q (written_frames ev) →
  tcp_wf (tcp_step s ev) ∧ frames_satisfy Q (tcp_step s ev).
Proof.
  intros [Hwf HQ] Hev. destruct ev as [frames|ms|link bytes ends]; cbn [tcp_step].
  - destruct (write_payload frames s) as [r s'] eqn:E. cbn [snd].
    destruct (write_payload_run _ _ _ _ Hwf E) as (Hwf' & _ & _ & _ & [[_ Hl]|(pre & l & n & st & Hb & _ & _ & Hl & _)]).
    { split; [done|]. unfold frames_satisfy. by rewrite Hl. }
    split; [done|]. unfold frames_satisfy in *. rewrite Hl. apply Forall_app.
    assert (Hsplit : Forall (λ l, Forall (λ ff, Q ff.1) (lk_frames l)) pre ∧ Forall (λ ff, Q ff.1) (lk_frames l)).
    { destruct Hb as [Hb|[Hb ->]]; rewrite Hb in HQ; [|by split]. apply Forall_app in HQ as [? HQ]. by rewrite Forall_singleton in HQ. }
    destruct Hsplit as [Hp Hlq]. split; [done|]. rewrite Forall_singleton. cbn [lk_frames]. apply Forall_app. split; [done|].
    unfold handed. by apply Forall_fmap.
  - split; [destruct Hwf; by split|done].
  - destruct Hwf as [Wl Wf Ws]. split; [split|]; cbn.
    + apply Forall_alter; [done|]. apply finish_step_wf.
    + apply Forall_alter; [done|]. intros l. by rewrite finish_step_frames.
    + intros Hs. destruct (Ws Hs) as (pre & l & Hl & Hst). rewrite Hl. destruct (decide (link < length pre)) as [Hi|Hi].
      * exists (alter (finish_step bytes ends) link pre), l. split; [|done]. by apply alter_app_l.
      * exists pre, l. split; [|done]. destruct (decide (link = length pre)) as [->|Hne].
        -- apply list_eq. intros j. destruct (decide (length pre = j)) as [<-|Hj].
           ++ rewrite list_lookup_alter_eq, lookup_app_r, Nat.sub_diag by lia. cbn. by rewrite finish_step_open.
           ++ by rewrite list_lookup_alter_ne.
        -- apply list_eq. intros j. destruct (decide (link = j)) as [<-|Hj]; [|by rewrite list_lookup_alter_ne].
           rewrite list_lookup_alter_eq, lookup_ge_None_2; [done|]. rewrite length_app. cbn. lia.
    + apply Forall_alter; [done|]. intros l. by rewrite finish_step_frames.
Qed.

Lemma tcp_new_wf Q addr port framing now peer : tcp_wf (tcp_new addr port framing now peer) ∧ frames_satisfy Q (tcp_new addr port framing now peer).
Proof. split; [|by constructor]. split; cbn; [by constructor|by constructor|done]. Qed.
Lemma tcp_new_timed addr port framing now peer : tcp_timed (tcp_new addr port framing now peer).
Proof. split; cbn; [by vm_compute|done|done|done]. Qed.

Lemma tcp_run_wf Q addr port framing now peer evs : Forall (λ ev, Forall Q (written_frames ev)) evs →
  let s := tcp_run (tcp_new addr port framing now peer) evs in tcp_wf s ∧ frames_satisfy Q s.
Proof.
  intros Hq. cbv zeta. apply (tcp_run_ind (λ s, tcp_wf s ∧ frames_satisfy Q s) (λ ev, Forall Q (written_frames ev)));
    [apply tcp_new_wf|apply tcp_step_wf|exact Hq].
Qed.
Lemma tcp_run_any_wf addr port framing now peer evs : tcp_wf (tcp_run (tcp_new addr port framing now peer) evs).
Proof. apply (tcp_run_wf (λ _, True)). apply Forall_true. intros ev. by apply Forall_true. Qed.
Lemma tcp_run_timed addr port framing now peer evs : tcp_timed (tcp_run (tcp_new addr port framing now peer) evs).
Proof.
  apply (tcp_run_ind tcp_timed (λ _, True)); [apply tcp_new_timed|by intros; apply tcp_step_timed|by apply Forall_true].
Qed.
Lemma tcp_step_framing s ev : tcp_wf s → tc_framing (tcp_step s ev) = tc_framing s.
Proof.
  intros Hwf. destruct ev as [frames| |]; [|done|done]. cbn [tcp_step]. destruct (write_payload frames s) as [r s'] eqn:E.
  by destruct (write_payload_run _ _ _ _ Hwf E) as (_ & Hf & _).
Qed.
Lemma tcp_run_framing addr port framing now peer evs : tc_framing (tcp_run (tcp_new addr port framing now peer) evs) = framing.
Proof.
  apply (tcp_run_ind (λ s, tcp_wf s ∧ tc_framing s = framing) (λ _, True)).
  - split; [apply (tcp_new_wf (λ _, True))|done].
  - intros s ev [Hwf Hf] _. split; [|by rewrite tcp_step_framing].
    apply (tcp_step_wf (λ _, True)); [|by apply Forall_true]. split; [done|]. apply Forall_true. intros l. by apply Forall_true.
  - by apply Forall_true.
Qed.

(** A connection whose frames the framing can carry is read back. *)
Lemma link_wf_delivers framing l : link_wf l → Forall (λ ff, ff.2 = framing) (lk_frames l) →
  Forall (λ ff, carried framing (fr_bytes ff.1)) (lk_frames l) → delivers framing l.
Proof.
  intros Hwf Hf Hc. assert (Ht : text_of (lk_frames l) = sconcat ((λ d, build_payload_bytes d framing) <$> ((λ ff, fr_bytes ff.1) <$> lk_frames l))).
  { unfold text_of. f_equal. rewrite <- list_fmap_compose. clear -Hf. induction Hf as [|ff frames Hff _ IH]; [done|]. cbn.
    rewrite IH. unfold payload_of. by rewrite Hff. }
  assert (Hd : decode framing (text_of (lk_frames l)) = Some ((λ ff, fr_bytes ff.1) <$> lk_frames l)).
  { rewrite Ht. apply decode_frames. by apply Forall_fmap. }
  unfold delivers, link_wf in *. destruct (lk_status l).
  - by rewrite Hwf.
  - by rewrite Hwf.
  - by rewrite Hwf.
  - destruct Hwf as [rest Hwf]. exists rest. by rewrite Hwf.
Qed.

Lemma record_frames (rs : list TelemetryRecord) : omap fr_record (build_record_frame <$> rs) = rs.
Proof. induction rs as [|r rs IH]; [done|]. cbn. by rewrite IH. Qed.

Lemma tcp_write_records_run (rs : list TelemetryRecord) s r s' : tcp_wf s → tcp_write_records rs s = (r, s') →
  tcp_wf s' ∧ ∃ part, tcp_accepted s' = (tcp_accepted s ++ part)%list ∧ part `prefix_of` rs ∧ (r = Ok tt → part = rs).
Proof.
  intros Hwf. destruct rs as [|rec rs]; cbn [tcp_write_records].
  - intros [= <- <-]. split; [done|]. exists []. by rewrite (right_id_L [] (++)).
  - intros E. destruct (write_payload_accepted _ _ _ _ Hwf E) as (part & Ha & Hp & Ho). rewrite record_frames in Hp, Ho.
    split; [by eapply write_payload_run in E as []|]. by exists part.
Qed.
End TcpLife.

(** * The sink keeps the contract of [RecordSink] *)

Section SinkContract.
Context `{WireContracts} `{Peer}.

(** [uplink_write_error] and [uplink_write_detail]: an error of this sink carries its text as the detail. *)
#[export] Instance tcp_record_sink : RecordSink := {|
  SinkState := { s : TcpRecordSink | tcp_wf s };
  write_records rs s :=
    ((tcp_write_records rs (proj1_sig s)).1,
     exist tcp_wf (tcp_write_records rs (proj1_sig s)).2
       (proj1 (tcp_write_records_run rs (proj1_sig s) _ _ (proj2_sig s) (surjective_pairing _))));
  uplink_write_detail err := Some (io_msg err);
  accepted s := tcp_accepted (proj1_sig s);
|}.

#[export] Instance tcp_record_sink_laws : RecordSinkLaws.
Proof.
  split.
  - intros rs [s Hwf] u s' [= E <-]. cbn. destruct (tcp_write_records_run rs s _ _ Hwf (surjective_pairing _)) as (_ & part & Ha & _ & Ho).
    rewrite Ha. destruct u. by rewrite (Ho E).
  - intros rs [s Hwf] e s' [= E <-]. cbn. destruct (tcp_write_records_run rs s _ _ Hwf (surjective_pairing _)) as (_ & part & Ha & Hp & _).
    exists part. split; [done|]. destruct Hp as [k ->]. by apply sublist_inserts_r.
Qed.
End SinkContract.

(** * Theorems *)

Section Claims.
Context `{WireContracts} `{Peer}.

(** C8. Whatever the other end does, and whatever stalls, errors, reconnections and steps of background
    tasks follow one another, each connection in use or closed by this side has carried a sequence of whole
    frames, which a receiver of the framing reads back as written; one that is being finished will have
    once the rest is across; one that was lost has carried a beginning of such a sequence. *)
Theorem links_end_in_whole_frames addr port framing now peer (evs : list TcpEvent) :
  Forall (λ ev, Forall (λ f, carried framing (fr_bytes f)) (written_frames ev)) evs →
  Forall (delivers framing) (tc_links (tcp_run (tcp_new addr port framing now peer) evs)).
Proof.
  intros Hev. destruct (tcp_run_wf _ addr port framing now peer evs Hev) as [[Wl Wf _] Hc].
  apply Forall_forall. intros l Hl. rewrite Forall_forall in Wl. unfold frames_satisfy in Hc. rewrite Forall_forall in Wf, Hc.
  apply link_wf_delivers; [by apply Wl| |by apply Hc]. specialize (Wf l Hl). by rewrite tcp_run_framing in Wf.
Qed.

(** The uplink never holds up the loop nor the other end: whatever happened before, a write of frames
    takes at most the connect timeout and the total write timeout; attempts to connect are at least two
    seconds apart, and after any failure the next one is allowed within the maximal back-off. *)
Theorem uplink_paced addr port framing now peer (evs : list TcpEvent) :
  let s := tcp_run (tcp_new addr port framing now peer) evs in
  (∀ frames, tc_now s ≤ tc_now (tcp_step s (WriteFrames frames)) ≤ tc_now s + TCP_CONNECT_TIMEOUT + TCP_WRITE_TOTAL_TIMEOUT)%Z ∧
  (∀ i a b, tc_attempts s !! i = Some a → tc_attempts s !! S i = Some b → (a + 2 * TCP_BACKOFF_INITIAL ≤ b)%Z) ∧
  in_backoff (tcp_step s (Wait TCP_BACKOFF_MAX)) = false.
Proof.
  cbv zeta. pose proof (tcp_run_any_wf addr port framing now peer evs) as Hwf. pose proof (tcp_run_timed addr port framing now peer evs) as [_ Tsp _ Tn].
  set (s := tcp_run _ evs) in *. split_and!; [|exact Tsp|].
  - intros frames. cbn [tcp_step]. destruct (write_payload frames s) as [r s'] eqn:E.
    by destruct (write_payload_run _ _ _ _ Hwf E) as (_ & _ & _ & Hn & _).
  - unfold in_backoff. cbn. destruct (tc_next_attempt_at s) as [at_|]; [|done]. specialize (Tn at_ eq_refl).
    apply Z.ltb_ge. unfold TCP_BACKOFF_MAX in *. lia.
Qed.

(** A batch of records given to the TCP sink is wholly on a connection, after all earlier ones and in
    order, when the write reports success; when it reports an error a beginning of the batch is: what the
    spool keeps and sends again may arrive twice, but nothing is lost between two records. *)
Theorem tcp_batches_arrive addr port framing now peer (evs : list TcpEvent) rs :
  let s := tcp_run (tcp_new addr port framing now peer) evs in
  let '(r, s') := tcp_write_records rs s in
  ∃ part, tcp_accepted s' = (tcp_accepted s ++ part)%list ∧ part `prefix_of` rs ∧ (r = Ok tt → part = rs).
Proof.
  cbv zeta. pose proof (tcp_run_any_wf addr port framing now peer evs) as Hwf. set (s := tcp_run _ evs) in *.
  destruct (tcp_write_records rs s) as [r s'] eqn:E. by destruct (tcp_write_records_run rs s r s' Hwf E) as [_ ?].
Qed.
End Claims.

(** * Concrete runs *)

Module ConcreteWire.
(** Envelopes are (agent, time, sequence number). *)
#[export] Instance toy_wire : WireContracts := {|
  DataFrame := string * string * Z;
  DataFrame_json := toy_json;
  data_frame_new a t s := (a, t, s);
  frame_of_record r := (tr_agent_id r, r.1.1.1.1.2, r.1.2.2);
|}.

(** The other end follows a script, and takes everything at once when it has run out. *)
#[export] Instance toy_peer : Peer := {|
  PeerState := list (result unit * Z) * list (WriteAnswer * Z);
  peer_connect _ p := match p.1 with a :: l => (a, (l, p.2)) | [] => ((Ok tt, 10%Z), p) end;
  peer_write s p := match p.2 with a :: l => (a, (p.1, l)) | [] => ((Took (String.length s), 1%Z), p) end;
  peer_flush p := (Ok tt, p);
  runtime_current := true;
|}.

Definition plain (text : string) : Frame := mk_frame text None.
Definition sink_at (framing : TcpFraming) (p : PeerState) : TcpRecordSink :=
  tcp_new "gw" 7000 framing 0 p.

(** Three bytes go out, then nothing for longer than the window; the rest follows in the background while
    a new connection carries the next frame. *)
Definition stalling : PeerState := ([], [(Took 3, 5%Z); (Took 1, 9000%Z)]).
Definition stalled_run : list TcpEvent :=
  [WriteFrames [plain "first"; plain "second"]; WriteFrames [plain "early"]; Wait 2000; WriteFrames [plain "third"]; Finish 0 4 false; Finish 0 90 false].

Lemma links_end_in_whole_frames_witness :
  let s := tcp_run (sink_at Line stalling) stalled_run in
  Forall (delivers Line) (tc_links s) ∧
  (lk_bytes <$> tc_links s) = ["first" +:+ nl +:+ "second" +:+ nl; "third" +:+ nl] ∧
  lk_status <$> tc_links s = [Shut; Open].
Proof.
  split; [|by vm_compute]. apply (links_end_in_whole_frames "gw" 7000 Line 0 stalling stalled_run).
  repeat constructor; by vm_compute.
Defined.

(** Just after the stall the receiver has half a line, which is all it would get were the connection closed. *)
Example half_a_frame_in_between :
  let s := tcp_run (sink_at Line stalling) (take 1 stalled_run) in
  (lk_bytes <$> tc_links s) = ["fir"] ∧ decode Line "fir" = Some ["fir"] ∧ tc_stream s = false.
Proof. by vm_compute. Qed.

(** Lines do not carry a record of several lines; lengths do. *)
Example lines_split_records :
  let two := "a" +:+ nl +:+ "b" in
  decode Line (build_payload_bytes two Line) = Some ["a"; "b"] ∧ decode Len (build_payload_bytes two Len) = Some [two].
Proof. by vm_compute. Qed.

(** A write that stalls before its first byte is finished in the background all the same: the batch the
    spool keeps has been delivered too. *)
Example untouched_stall_is_still_sent :
  let s := tcp_run (sink_at Len ([], [(Took 1, 9000%Z)])) [WriteFrames (build_record_frame <$> toy_recs)] in
  let s' := tcp_step s (Finish 0 4000 false) in
  (lk_bytes <$> tc_links s) = [""] ∧ tcp_accepted s = [] ∧ tcp_accepted s' = toy_recs ∧ tc_stream s' = false.
Proof. by vm_compute. Qed.

(** The first wait after a refused connection is two seconds, twice the initial back-off, and the waits
    never exceed the maximum. *)
Definition refusing : PeerState := (replicate 9 (Err (io_other "refused"), 0%Z), []).
Definition retries : list TcpEvent := concat (replicate 7 [WriteFrames [plain "x"]; Wait 31000]).
Example first_backoff_doubles :
  let s := tcp_step (sink_at Line refusing) (WriteFrames [plain "x"]) in
  tc_next_attempt_at s = Some 2000%Z ∧ tc_backoff (tcp_run (sink_at Line refusing) retries) = 30000%Z.
Proof. by vm_compute. Qed.

(** A batch of the log pipeline goes through the TCP sink as through any other. *)
Example tcp_sink_takes_a_batch :
  (tcp_write_records toy_recs (sink_at Len ([], []))).1 = Ok tt ∧
  tcp_accepted (tcp_write_records toy_recs (sink_at Len ([], []))).2 = toy_recs.
Proof. by vm_compute. Qed.
End ConcreteWire.
