(* ===== verification/Exporters.v ===== *)
(** The periodic exporters (telemetry/exporters.rs, and process_exporters of runtime/daemon_telemetry.rs):
    the table of commands, the cursor of the kernel log, decoding of what journalctl prints, the records of
    an output, the schedule, and one round over the granted runs.  Programs and serde_json are interfaces. *)
From stdpp Require Import pretty.
From S2P Require Import Prelude Text Host Fmt BTree Telemetry Reader LogToy Delivery Work.
Import ConcreteSink.

(** [wist_contracts::work::KERNEL_LOG_EXPORTER]. *)
Class ExporterContracts := { KERNEL_LOG_EXPORTER : string }.

(** [serde_json::Value], as far as it is looked at; the members of an object are in the order of their keys. *)
Class JsonValues := {
  Value : Type;
  value_from_str : string → option Value;
  value_to_string : Value → option string;
  as_object : Value → option (list (string * Value));
  of_object : list (string * Value) → Value;
  as_array : Value → option (list Value);
  as_str : Value → option string;
  of_string : string → Value;
  as_u64 : Value → option Z;
}.

(** The programs of the host: which can be executed, and what one does when it is started, with the time it
    takes (in milliseconds). *)
Inductive ChildEnd := Exited (success : bool) (status stdout stderr : string) | WaitFailed (err : IoError).
Class Programs := {
  ProgramState : Type;
  executable : string → ProgramState → bool;
  spawn : list string → ProgramState → result (ChildEnd * Z) * ProgramState;
}.

(** * The table *)

Record ExporterDef := mk_exporter { ed_id : string; period_secs : Z; timeout_secs : Z }.

Section Table.
Context `{ExporterContracts}.

Definition EXPORTERS : list ExporterDef :=
  [ mk_exporter "journalctl-unit" 300 30;
    mk_exporter "journalctl-shutdown" 3600 30;
    mk_exporter "last-reboot" (6 * 3600) 15;
    mk_exporter "nft-ruleset" 1800 15;
    mk_exporter "iptables-save" 1800 15;
    mk_exporter "smartctl" 3600 30;
    mk_exporter "dmesg" 300 15;
    mk_exporter "auditd-execve" 300 30;
    mk_exporter KERNEL_LOG_EXPORTER 60 30 ].
Definition def (id : string) : option ExporterDef := find_first (λ d, String.eqb (ed_id d) id) EXPORTERS.

Definition KERNEL_INITIAL_SINCE : string := "-5m".
Definition kernel_argv : list string :=
  ["/usr/bin/journalctl"; "-k"; "-p"; "4"; "-o"; "json"; "--no-pager"; "--quiet"].

(** [first_present]; [present] is [tool_present]. *)
Definition first_present (present : string → bool) (candidates : list string) : string :=
  match find_first present candidates with Some path => path | None => default "" (head candidates) end.

Definition unknown_exporter (id : string) `{UnicodeTables} : IoError :=
  MkIoError InvalidInput ("unknown exporter " +:+ debug_str id).
Definition argv_for `{UnicodeTables} (present : string → bool) (id : string) (arg : option string) : result (list string) :=
  if String.eqb id "journalctl-unit" then Ok ["/usr/bin/journalctl"; "-o"; "json"; "--since"; "-5m"]
  else if String.eqb id "journalctl-shutdown" then
    Ok ["/usr/bin/journalctl"; "-o"; "json"; "--since"; "-1d"; "-u"; "systemd-shutdown"; "-u"; "systemd-logind"]
  else if String.eqb id "last-reboot" then Ok ["/usr/bin/last"; "-x"; "reboot"; "shutdown"]
  else if String.eqb id "nft-ruleset" then Ok ["/usr/sbin/nft"; "list"; "ruleset"]
  else if String.eqb id "iptables-save" then Ok ["/usr/sbin/iptables-save"]
  else if String.eqb id "smartctl" then
    Ok [first_present present ["/usr/sbin/smartctl"; "/opt/homebrew/sbin/smartctl"; "/usr/local/sbin/smartctl"]; "--scan-open"]
  else if String.eqb id "dmesg" && match arg with None => true | Some _ => false end then Ok ["/usr/bin/dmesg"]
  else if String.eqb id "dmesg" && match arg with Some arg => String.eqb arg "panic" | None => false end then
    Ok ["/usr/bin/dmesg"; "--level"; "emerg,alert,crit"]
  else if String.eqb id "dmesg" && match arg with Some arg => String.eqb arg "nvidia-xid" | None => false end then
    Ok ["/usr/bin/dmesg"]
  else if String.eqb id "auditd-execve" then Ok ["/usr/sbin/ausearch"; "-m"; "execve"; "--start"; "recent"]
  else if String.eqb id KERNEL_LOG_EXPORTER then Ok (kernel_argv ++ ["--since"; KERNEL_INITIAL_SINCE])
  else Err (unknown_exporter id).

Definition uses_cursor (id : string) : bool := String.eqb id KERNEL_LOG_EXPORTER.

Definition is_ascii_graphic (a : ascii) : bool := in_range 33 126 (code a).
(** No character of white space is graphic ASCII, so the middle test of the code is implied by the last. *)
Definition is_plausible_cursor (cursor : string) : bool :=
  negb (String.eqb cursor "") && Nat.leb (String.length cursor) 512 && all_chars is_ascii_graphic cursor.

Definition argv_for_run `{UnicodeTables} (present : string → bool) (id : string) (arg cursor : option string) :
    result (list string) :=
  let cursor := c ← cursor; let c := trim c in if is_plausible_cursor c then Some c else None in
  match uses_cursor id, cursor with
  | true, Some cursor => Ok (kernel_argv ++ ["--after-cursor=" +:+ cursor])
  | _, _ => argv_for present id arg
  end.

Definition is_cursor_error (message : string) : bool :=
  let message := to_ascii_lowercase message in
  contains "failed to seek to cursor" message || contains "cursor not found" message.

Definition is_due (period_secs : Z) (last_run_ms : option Z) (now_ms : Z) : bool :=
  match last_run_ms with
  | None => true
  | Some last => Z.leb (period_secs * 1000) (i64_saturating_sub now_ms last)
  end.

Definition JOURNALD_JSON_EXPORTERS : list string := ["journalctl-unit"; "journalctl-shutdown"; KERNEL_LOG_EXPORTER].
Definition emits_journald_json (exporter_id : string) : bool := existsb (String.eqb exporter_id) JOURNALD_JSON_EXPORTERS.

Definition should_fall_back (cursor : option string) (err : IoError) : bool := is_some cursor && is_cursor_error (io_msg err).
Definition should_reset_cursor (cursor : option string) (err : IoError) : bool :=
  is_some cursor && bool_decide (io_kind err = TimedOut).
Definition tool_path (argv : list string) : option string := head argv.
End Table.

(** * What is read of an output *)

(** [str::from_utf8]: [Utf8Error::valid_up_to] and [error_len] of text that is not valid. *)
Fixpoint utf8_error_fuel (fuel : nat) (s : string) : option (nat * option nat) :=
  match fuel, s with
  | S fuel, String a s' =>
      let '(k, ok) := utf8_head a s' in
      if ok then '(valid, len) ← utf8_error_fuel fuel (str_drop k s); Some (k + valid, len)
      else Some (0, if Nat.eqb k (String.length s) && is_some (utf8_lead (code a)) then None else Some k)
  | _, _ => None
  end.
Definition utf8_error (s : string) : option (nat * option nat) := utf8_error_fuel (String.length s) s.

(** [decode_dropping_invalid]: every round but the last drops a byte. *)
Fixpoint decode_dropping (fuel : nat) (bytes : string) : string :=
  match fuel with
  | O => ""
  | S fuel =>
      match utf8_error bytes with
      | None => bytes
      | Some (valid, len) =>
          str_take valid bytes +:+
          match len with Some len => decode_dropping fuel (str_drop (valid + len) bytes) | None => "" end
      end
  end.
Definition decode_dropping_invalid (bytes : string) : string := decode_dropping (S (String.length bytes)) bytes.

Section Output.
Context `{ExporterContracts} `{JsonValues}.

(** The bytes of an array whose elements are all bytes. *)
Definition byte_of (item : Value) : option ascii := n ← as_u64 item; if Z.leb n 255 then Some (ascii_of_N (Z.to_N n)) else None.
Definition bytes_of (field : Value) : option string :=
  items ← as_array field; bytes ← mapM byte_of items; Some (String.string_of_list_ascii bytes).
Definition normalize_field (field : Value) : Value * bool :=
  match bytes_of field with Some bytes => (of_string (decode_dropping_invalid bytes), true) | None => (field, false) end.

Definition normalize_journald_json_line (line : string) : string :=
  if negb (contains (String dquote ":[") line) then line
  else
    match value_from_str line with
    | None => line
    | Some value =>
        match as_object value with
        | None => line
        | Some map =>
            let fields := (λ '(k, v), (k, normalize_field v)) <$> map in
            if negb (existsb (λ f, f.2.2) fields) then line
            else default line (value_to_string (of_object ((λ '(k, (v, _)), (k, v)) <$> fields)))
        end
    end.

Definition line_cursor (line : string) : option string :=
  value ← value_from_str (trim line);
  members ← as_object value;
  field ← snd <$> find_first (λ m, String.eqb m.1 "__CURSOR") members;
  cursor ← trim <$> as_str field;
  if is_plausible_cursor cursor then Some cursor else None.
Fixpoint first_cursor (lines : list string) : option string :=
  match lines with
  | [] => None
  | line :: lines => match line_cursor line with Some cursor => Some cursor | None => first_cursor lines end
  end.
Definition cursor_from_output (output : string) : option string := first_cursor (rev (Fmt.lines output)).

Context `{LogContracts}.

(** The records of the lines, numbered and placed from the given number and offset on. *)
Fixpoint records_from (agent_id observed_at input_id source_path family_ unit__ : string) (journald_json : bool) (offset seq : Z)
    (ls : list string) : list TelemetryRecord :=
  match ls with
  | [] => []
  | line :: ls =>
      let line := if journald_json then normalize_journald_json_line line else line in
      with_origin family_ unit__ (new_log agent_id observed_at input_id source_path line offset (offset + str_len line) seq)
      :: records_from agent_id observed_at input_id source_path family_ unit__ journald_json (offset + str_len line + 1) (seq + 1) ls
  end.
Definition records_from_output (agent_id input_id target : string) (journald_json : bool) (family_ unit__ output observed_at : string)
    (next_seq : Z) : list TelemetryRecord * Z :=
  (records_from agent_id observed_at input_id ("exporter:" +:+ target) family_ unit__ journald_json 0 next_seq (Fmt.lines output),
   next_seq + Z.of_nat (length (Fmt.lines output)))%Z.
End Output.

(** * The state kept between rounds *)

Record ExporterState := mk_exporter_state { last_run_ms : btree Z; missing : btree string }.
Definition exporter_state_default : ExporterState := mk_exporter_state [] [].
(** [serde_json::to_vec_pretty] and [from_slice] of it. *)
Class ExporterCodec := {
  state_pretty : ExporterState → string;
  state_from_slice : string → option ExporterState;
  state_from_pretty : ∀ s, state_from_slice (state_pretty s) = Some s;
}.
Definition bt_remove {V} (k : string) (m : btree V) : btree V := List.filter (λ kv, negb (String.eqb kv.1 k)) m.

Section Files.
Context `{SpoolEnv} `{ExporterCodec} `{ExporterContracts}.

Definition state_path (state_dir : string) : string := path_join state_dir "exporters.json".
Definition load_state (state_dir : string) : M World ExporterState :=
  r ← try (fs_read (state_path state_dir));
  mret (match r with Ok bytes => default exporter_state_default (state_from_slice bytes) | Err _ => exporter_state_default end).
(** [std::fs::write] *)
Definition fs_write (path bytes : string) : M World unit := fs_create path;; fs_append path bytes.
Definition save_state (state_dir : string) (state : ExporterState) : M World unit :=
  let path := state_path state_dir in
  let tmp := path_with_extension path "json.tmp" in
  r ← try (fs_write tmp (state_pretty state));
  match r with Ok _ => try (fs_rename tmp path);; mret tt | Err _ => mret tt end.

Definition cursor_path (state_dir run_id : string) : string := path_join (path_join state_dir "exporters") (run_id +:+ ".cursor").
(** [read_to_string] reads valid UTF-8 only. *)
Definition load_cursor (state_dir run_id : string) : M World (option string) :=
  r ← try (fs_read (cursor_path state_dir run_id));
  mret (match r with
        | Ok bytes => let cursor := trim bytes in if utf8_valid bytes && is_plausible_cursor cursor then Some cursor else None
        | Err _ => None
        end).
Definition save_cursor (state_dir run_id cursor : string) : M World unit :=
  let path := cursor_path state_dir run_id in
  ensure_parent_async path;;
  let tmp := path_with_extension path "cursor.tmp" in
  fs_write tmp (trim cursor);; fs_rename tmp path.
Definition clear_cursor (state_dir run_id : string) : M World unit := remove_ignore_missing (cursor_path state_dir run_id).
End Files.

(** * A round *)

Section Round.
Context `{SpoolEnv} `{RecordSink} `{LogCodecs} `{Programs} `{JsonValues} `{ExporterContracts} `{ExporterCodec} `{UnicodeTables}.

(** The world, the sink, the programs and the counter of the tick; on record, for the proofs only, the
    runs that were attempted: their key, their period and when. *)
Record Export := mk_export {
  ex_world : World;
  ex_sink : SinkState;
  ex_programs : ProgramState;
  ex_seq : Z;
  ex_attempts : list (string * (Z * Z));
}.
Definition on_world {A} (m : M World A) : M Export A :=
  zoom ex_world (λ w x, mk_export w (ex_sink x) (ex_programs x) (ex_seq x) (ex_attempts x)) m.
Definition on_sink {A} (m : M SinkState A) : M Export A :=
  zoom ex_sink (λ s x, mk_export (ex_world x) s (ex_programs x) (ex_seq x) (ex_attempts x)) m.
Definition set_seq (n : Z) : M Export unit := modify (λ x, mk_export (ex_world x) (ex_sink x) (ex_programs x) n (ex_attempts x)).
Definition attempting (key : string) (period now : Z) : M Export unit :=
  modify (λ x, mk_export (ex_world x) (ex_sink x) (ex_programs x) (ex_seq x) (ex_attempts x ++ [(key, (period, now))])).

Definition run_argv (argv : list string) (timeout : Z) : M Export string :=
  match argv with
  | [] => throw (MkIoError InvalidInput "empty argv")
  | _ =>
      act (λ x,
        let '(answer, p) := spawn argv (ex_programs x) in
        let x' := λ ms, mk_export (set_clock (clock (ex_world x) + ms) (ex_world x)) (ex_sink x) p (ex_seq x) (ex_attempts x) in
        match answer with
        | Err err => (Err err, x' 0%Z)
        | Ok (finish, time) =>
            if Z.ltb (timeout * 1000) time then
              (Err (MkIoError TimedOut ("exporter timed out after " +:+ pretty timeout +:+ "s")), x' (timeout * 1000)%Z)
            else
              (match finish with
               | Exited true _ stdout _ => Ok (from_utf8_lossy stdout)
               | Exited false status _ stderr =>
                   Err (io_other ("exporter exited with " +:+ status +:+ ": " +:+ trim (from_utf8_lossy stderr)))
               | WaitFailed err => Err err
               end, x' (Z.max 0 time))
        end)
  end.

Definition present_now (x : Export) (tool : string) : bool := executable tool (ex_programs x).
Definition run_with_cursor_fallback (id : string) (arg cursor : option string) (timeout : Z) : M Export (string * bool) :=
  argv ← act (λ x, (argv_for_run (present_now x) id arg cursor, x));
  r ← try (run_argv argv timeout);
  match r with
  | Ok output => mret (output, false)
  | Err err =>
      if should_fall_back cursor err then
        argv ← act (λ x, (argv_for_run (present_now x) id arg None, x));
        output ← run_argv argv timeout;
        mret (output, true)
      else throw err
  end.

Definition persist_cursor (state_dir : string) (run : WorkExporterRun) (output : string) (fell_back : bool) : M World unit :=
  if negb (uses_cursor (we_exporter_id run)) then mret tt
  else
    match cursor_from_output output with
    | Some next => try (save_cursor state_dir (we_input_id run) next);; mret tt
    | None =>
        if String.eqb (trim output) "" then
          if fell_back then try (clear_cursor state_dir (we_input_id run));; mret tt else mret tt
        else mret tt
    end.

(** What the loop keeps: the state, whether it changed, whether anything ran. *)
Record ExporterScan := mk_scan { sc_state : ExporterState; sc_changed : bool; sc_ran : bool }.
Definition note_missing (id tool : string) (sc : ExporterScan) : ExporterScan :=
  let newly := negb (bool_decide (bt_get id (missing (sc_state sc)) = Some tool)) in
  mk_scan (mk_exporter_state (last_run_ms (sc_state sc)) (bt_insert id tool (missing (sc_state sc)))) (sc_changed sc || newly) (sc_ran sc).
Definition note_present (id : string) (sc : ExporterScan) : ExporterScan :=
  mk_scan (mk_exporter_state (last_run_ms (sc_state sc)) (bt_remove id (missing (sc_state sc))))
    (sc_changed sc || bt_contains_key id (missing (sc_state sc))) (sc_ran sc).
Definition note_attempt (key : string) (now : Z) (sc : ExporterScan) : ExporterScan :=
  mk_scan (mk_exporter_state (bt_insert key now (last_run_ms (sc_state sc))) (missing (sc_state sc))) true true.

(** What is done with the output of a run. *)
Definition deliver_output (state_dir agent_id : string) (run : WorkExporterRun) (output : string) (fell_back : bool) : M Export unit :=
  observed_at ← on_world now_rfc3339;
  seq ← gets ex_seq;
  let '(records, next) := records_from_output agent_id (we_input_id run) (we_target run) (emits_journald_json (we_exporter_id run))
    (we_family run) (we_unit_id run) output observed_at seq in
  set_seq next;;
  delivered ← (match records with [] => mret true | _ => r ← try (on_sink (write_records records)); mret (is_ok r) end);
  when delivered (on_world (persist_cursor state_dir run output fell_back)).

Definition run_exporter (state_dir agent_id : string) (run : WorkExporterRun) (cursor : option string) (timeout : Z) : M Export unit :=
  r ← try (run_with_cursor_fallback (we_exporter_id run) (we_arg run) cursor timeout);
  match r with
  | Ok (output, fell_back) => deliver_output state_dir agent_id run output fell_back
  | Err err =>
      if should_reset_cursor cursor err then on_world (try (clear_cursor state_dir (we_input_id run)));; mret tt else mret tt
  end.

(** One granted run. *)
Definition process_run (state_dir agent_id : string) (now : Z) (run : WorkExporterRun) (sc : ExporterScan) : M Export ExporterScan :=
  match def (we_exporter_id run) with
  | None => mret sc
  | Some d =>
      cursor ← (if uses_cursor (we_exporter_id run) then on_world (load_cursor state_dir (we_input_id run)) else mret None);
      x ← gets (λ x, x);
      match argv_for_run (present_now x) (we_exporter_id run) (we_arg run) cursor with
      | Err _ => mret sc
      | Ok argv =>
          let tool := default "" (tool_path argv) in
          if negb (present_now x tool) then mret (note_missing (we_exporter_id run) tool sc)
          else
            let sc := note_present (we_exporter_id run) sc in
            if negb (is_due (period_secs d) (bt_get (we_input_id run) (last_run_ms (sc_state sc))) now) then mret sc
            else
              let sc := note_attempt (we_input_id run) now sc in
              attempting (we_input_id run) (period_secs d) now;;
              run_exporter state_dir agent_id run cursor (timeout_secs d);;
              mret sc
      end
  end.
Fixpoint process_runs (state_dir agent_id : string) (now : Z) (runs : list WorkExporterRun) (sc : ExporterScan) : M Export ExporterScan :=
  match runs with
  | [] => mret sc
  | run :: runs => sc ← process_run state_dir agent_id now run sc; process_runs state_dir agent_id now runs sc
  end.

(** The missing tools of exporters that are no longer granted are forgotten. *)
Definition retain_missing (runs : list WorkExporterRun) (m : btree string) : btree string :=
  List.filter (λ kv, existsb (λ run, String.eqb (we_exporter_id run) kv.1) runs) m.

Definition process_exporters (runs : list WorkExporterRun) (state_dir agent_id global_seq_path : string) : M Export unit :=
  state ← on_world (load_state state_dir);
  let kept := retain_missing runs (missing state) in
  let changed := negb (Nat.eqb (length kept) (length (missing state))) in
  let state := mk_exporter_state (last_run_ms state) kept in
  match runs with
  | [] => when changed (on_world (save_state state_dir state))
  | _ =>
      now ← on_world (gets clock);
      sc ← process_runs state_dir agent_id now runs (mk_scan state changed false);
      when (sc_changed sc) (on_world (save_state state_dir (sc_state sc)));;
      if sc_ran sc then
        seq ← gets ex_seq;
        try (on_world (log_seq_state.store_async global_seq_path seq));; mret tt
      else mret tt
  end.
End Round.

(** * Decoding *)

Section Decoding.
Implicit Types (s : string) (bad : string → string).

Lemma utf8_walk_fuel bad fuel fuel' s : String.length s ≤ fuel → String.length s ≤ fuel' →
  utf8_walk bad fuel s = utf8_walk bad fuel' s.
Proof.
  revert fuel' s. induction fuel as [|fuel IH]; intros fuel' s Hf Hf'.
  { destruct s; [|cbn in Hf; lia]. by destruct fuel'. }
  destruct s as [|a s]; [by destruct fuel'|]. destruct fuel' as [|fuel']; [cbn in Hf'; lia|]. cbn [utf8_walk].
  pose proof (utf8_head_pos a s) as Hp. destruct (utf8_head a s) as [k ok]. cbn in Hp.
  assert (Hl : String.length (str_drop k (String a s)) ≤ String.length s) by (rewrite str_drop_length; cbn [String.length]; lia).
  cbn in Hf, Hf'. f_equal. apply IH; lia.
Qed.

Lemma utf8_conts_length n k s r : utf8_conts n k s = r → r.1 ≤ k + String.length s.
Proof.
  intros <-. revert k s. induction n as [|n IH]; intros k s; cbn; [lia|]. destruct s as [|c s]; [cbn; lia|].
  destruct (in_range _ _ _); [|cbn; lia]. specialize (IH (S k) s). cbn [String.length]. lia.
Qed.
Lemma utf8_head_length a s : (utf8_head a s).1 ≤ S (String.length s).
Proof.
  unfold utf8_head. destruct (Z.ltb _ _); [cbn; lia|]. destruct (utf8_lead _) as [[[lo hi] n]|]; [|cbn; lia].
  destruct s as [|b s]; [cbn; lia|]. destruct (in_range _ _ _); [|cbn; lia]. pose proof (utf8_conts_length n 2 s _ eq_refl). cbn [String.length]. lia.
Qed.

(** The error [str::from_utf8] reports splits the text where the walk does. *)
Lemma utf8_error_walk bad fuel s : String.length s ≤ fuel →
  match utf8_error_fuel fuel s with
  | None => utf8_walk bad fuel s = s
  | Some (valid, Some len) =>
      1 ≤ len ∧ valid + len ≤ String.length s ∧
      utf8_walk bad fuel s = str_take valid s +:+ bad (str_take len (str_drop valid s)) +:+
        utf8_walk bad (String.length (str_drop (valid + len) s)) (str_drop (valid + len) s)
  | Some (valid, None) => utf8_walk bad fuel s = str_take valid s +:+ bad (str_drop valid s)
  end.
Proof.
  revert s. induction fuel as [|fuel IH]; intros s Hf; [by destruct s; [|cbn in Hf; lia]|].
  destruct s as [|a s]; [done|]. cbn [utf8_error_fuel utf8_walk].
  pose proof (utf8_head_pos a s) as Hp. pose proof (utf8_head_length a s) as Hl. destruct (utf8_head a s) as [k ok]. cbn [fst] in Hp, Hl.
  set (t := String a s) in *. assert (Ht : String.length t = S (String.length s)) by done.
  destruct ok.
  - assert (Hd : String.length (str_drop k t) ≤ fuel) by (rewrite str_drop_length; lia). specialize (IH _ Hd).
    destruct (utf8_error_fuel fuel (str_drop k t)) as [[valid [len|]]|]; cbn [mbind option_bind] in *.
    + destruct IH as (H1 & H2 & ->). rewrite str_drop_length in H2. split_and!; [done|lia|].
      rewrite !str_drop_drop, !Prelude.app_assoc, str_take_add. replace (k + (valid + len)) with (k + valid + len) by lia. done.
    + by rewrite IH, str_drop_drop, Prelude.app_assoc, str_take_add.
    + by rewrite IH, str_take_drop.
  - destruct (Nat.eqb_spec k (String.length t)); cbn [andb]; [destruct (is_some (utf8_lead (code a)))|].
    + rewrite str_take_all, str_take_0 by lia. change (str_drop 0 t) with t. rewrite Prelude.app_nil_l.
      assert (Hn : str_drop k t = "") by (destruct (str_drop k t) eqn:E; [done|]; apply (f_equal String.length) in E; rewrite str_drop_length in E; cbn in E; lia).
      rewrite Hn. destruct fuel; cbn; by rewrite Prelude.app_nil_r.
    + split_and!; [lia|lia|]. rewrite str_take_0, Prelude.app_nil_l. change (str_drop 0 t) with t. f_equal.
      apply utf8_walk_fuel; rewrite str_drop_length; lia.
    + split_and!; [lia|lia|]. rewrite str_take_0, Prelude.app_nil_l. change (str_drop 0 t) with t. f_equal.
      apply utf8_walk_fuel; rewrite str_drop_length; lia.
Qed.

(** What is left is the valid sequences. *)
Lemma decode_dropping_walk s : decode_dropping_invalid s = utf8_walk (λ _, "") (String.length s) s.
Proof.
  unfold decode_dropping_invalid. assert (H : ∀ fuel s, String.length s < fuel → decode_dropping fuel s = utf8_walk (λ _, "") (String.length s) s).
  { clear s. intros fuel. induction fuel as [|fuel IH]; intros s Hf; [lia|]. cbn [decode_dropping]. unfold utf8_error.
    pose proof (utf8_error_walk (λ _, "") (String.length s) s ltac:(lia)) as Hw. destruct (utf8_error_fuel _ s) as [[valid [len|]]|].
    - destruct Hw as (H1 & H2 & ->). rewrite Prelude.app_nil_l. f_equal. apply IH. rewrite str_drop_length. lia.
    - by rewrite Hw.
    - by rewrite Hw. }
  apply H. lia.
Qed.

(** A sequence is recognised by its own bytes. *)
Lemma utf8_conts_true n k s m : utf8_conts n k s = (m, true) → m = k + n ∧ ∀ t, utf8_conts n k (str_take n s +:+ t) = (m, true).
Proof.
  revert k s. induction n as [|n IH]; intros k s; cbn [utf8_conts]; [intros [= <-]; split; [lia|done]|].
  destruct s as [|c s]; [done|]. destruct (in_range _ _ _) eqn:E; [|done]. intros Hc. destruct (IH _ _ Hc) as [-> Ht].
  split; [lia|]. intros t. cbn [str_take]. rewrite app_cons. cbn [utf8_conts]. rewrite E. apply Ht.
Qed.
Lemma utf8_head_true a s k : utf8_head a s = (k, true) → ∀ t, utf8_head a (str_take (k - 1) s +:+ t) = (k, true).
Proof.
  unfold utf8_head. destruct (Z.ltb _ _); [done|]. destruct (utf8_lead _) as [[[lo hi] n]|]; [|done].
  destruct s as [|b s]; [done|]. destruct (in_range lo hi _) eqn:E; [|done]. intros Hc t.
  destruct (utf8_conts_true _ _ _ _ Hc) as [-> Ht]. replace (2 + n - 1) with (S n) by lia. cbn [str_take]. rewrite app_cons, E. apply Ht.
Qed.

Lemma utf8_valid_fuel_more fuel fuel' s : fuel ≤ fuel' → utf8_valid_fuel fuel s = true → utf8_valid_fuel fuel' s = true.
Proof.
  revert fuel' s. induction fuel as [|fuel IH]; intros fuel' s Hf; [by destruct s, fuel'|]. destruct fuel' as [|fuel']; [lia|].
  destruct s as [|a s]; [done|]. cbn. destruct (utf8_head a s) as [k ok]. rewrite !andb_true_iff. intros [? ?]. split; [done|]. apply IH; [lia|done].
Qed.

Lemma kept_is_valid fuel s : String.length s ≤ fuel → utf8_valid (utf8_walk (λ _, "") fuel s) = true.
Proof.
  revert s. induction fuel as [|fuel IH]; intros s Hf; [by destruct s; [|cbn in Hf; lia]|]. destruct s as [|a s]; [done|]. cbn [utf8_walk].
  pose proof (utf8_head_pos a s) as Hp. pose proof (utf8_head_length a s) as Hl. destruct (utf8_head a s) as [k ok] eqn:E. cbn [fst] in Hp, Hl.
  assert (Hv : utf8_valid (utf8_walk (λ _, "") fuel (str_drop k (String a s))) = true)
    by (apply IH; rewrite str_drop_length; cbn [String.length] in *; lia).
  destruct ok; [|by rewrite Prelude.app_nil_l]. set (rest := utf8_walk _ _ _) in *.
  destruct k as [|k]; [lia|]. cbn [str_take]. rewrite app_cons. unfold utf8_valid. cbn [String.length utf8_valid_fuel].
  pose proof (utf8_head_true _ _ _ E rest) as Ht. replace (S k - 1) with k in Ht by lia. rewrite Ht. cbn [andb].
  assert (Hd : str_drop (S k) (String a (str_take k s +:+ rest)) = rest).
  { cbn [str_drop]. assert (Hk : String.length (str_take k s) = k) by (rewrite str_take_length; lia). rewrite <- Hk at 1. apply str_drop_app_length. }
  rewrite Hd. eapply utf8_valid_fuel_more; [|exact Hv]. rewrite length_app_string. lia.
Qed.

(** What the decoder keeps of a byte array is exactly its well-formed characters, in order: it is valid
    text, it is the whole array when that was valid, and it is the lossy decoding with the replacement
    characters left out. *)
Theorem decode_keeps_valid_text s :
  utf8_valid (decode_dropping_invalid s) = true ∧ (utf8_valid s = true → decode_dropping_invalid s = s) ∧
  ∃ parts, decode_dropping_invalid s = sconcat (default "" <$> parts) ∧ from_utf8_lossy s = sconcat (default replacement_char <$> parts).
Proof.
  rewrite decode_dropping_walk. split_and!; [by apply kept_is_valid|apply utf8_walk_valid|].
  unfold from_utf8_lossy. generalize (String.length s) as fuel. intros fuel. revert s. induction fuel as [|fuel IH]; intros s; [by exists []|].
  destruct s as [|a s]; [by exists []|]. cbn [utf8_walk]. destruct (utf8_head a s) as [k ok].
  destruct (IH (str_drop k (String a s))) as (parts & -> & ->). by destruct ok; [exists (Some (str_take k (String a s)) :: parts)|exists (None :: parts)].
Qed.
End Decoding.

(** * Commands *)

(** The programs an exporter may start, and the words they are given. *)
Definition exporter_programs : list string :=
  ["/usr/bin/journalctl"; "/usr/bin/last"; "/usr/sbin/nft"; "/usr/sbin/iptables-save"; "/usr/sbin/smartctl";
   "/opt/homebrew/sbin/smartctl"; "/usr/local/sbin/smartctl"; "/usr/bin/dmesg"; "/usr/sbin/ausearch"].
Definition exporter_words : list string :=
  ["-o"; "json"; "--since"; "-5m"; "-1d"; "-u"; "systemd-shutdown"; "systemd-logind"; "-x"; "reboot"; "shutdown"; "list"; "ruleset";
   "--scan-open"; "--level"; "emerg,alert,crit"; "-m"; "execve"; "--start"; "recent"; "-k"; "-p"; "4"; "--no-pager"; "--quiet"].

Section Commands.
Context `{ExporterContracts} `{UnicodeTables}.

Lemma first_present_in present (candidates : list string) : candidates ≠ [] → first_present present candidates ∈ candidates.
Proof.
  unfold first_present. intros Hn. destruct (find_first present candidates) as [p|] eqn:E; [by apply find_first_Some in E as [? _]|].
  destruct candidates; [done|]. cbn. by left.
Qed.

Lemma argv_for_closed present id arg argv : argv_for present id arg = Ok argv →
  ∃ prog words, argv = prog :: words ∧ prog ∈ exporter_programs ∧ Forall (λ w, w ∈ exporter_words) words.
Proof.
  unfold argv_for. intros E.
  assert (Hsmart : ∀ p, p ∈ ["/usr/sbin/smartctl"; "/opt/homebrew/sbin/smartctl"; "/usr/local/sbin/smartctl"] → p ∈ exporter_programs).
  { intros p. rewrite !elem_of_cons. intros [->|[->|[->|H']]]; [..|by apply elem_of_nil in H']; by apply (bool_decide_unpack _); vm_compute. }
  repeat match type of E with
  | (if ?b then _ else _) = _ => destruct b
  end; [injection E as <-..|done]; eexists _, _; (split; [reflexivity|]); (split; [|repeat constructor; by apply (bool_decide_unpack _); vm_compute]);
    first [by apply (bool_decide_unpack _); vm_compute|by apply Hsmart, first_present_in].
Qed.

(** The command of an exporter is closed: an absolute path of a fixed list, words of a fixed list, and at
    most the position to read on from, which is visible ASCII without blanks, and then no time to start from. *)
Theorem argv_is_closed present id arg cursor argv : argv_for_run present id arg cursor = Ok argv →
  ∃ prog words, argv = prog :: words ∧ prog ∈ exporter_programs ∧
    (Forall (λ w, w ∈ exporter_words) words ∨
     ∃ c words', cursor = Some c ∧ words = (words' ++ ["--after-cursor=" +:+ trim c])%list ∧ Forall (λ w, w ∈ exporter_words) words' ∧
       ("--since" ∉ words) ∧ all_chars is_ascii_graphic (trim c) = true ∧ 1 ≤ String.length (trim c) ≤ 512).
Proof.
  unfold argv_for_run. destruct (uses_cursor id) eqn:Eu.
  2:{ intros E. destruct (argv_for_closed _ _ _ _ E) as (prog & words & ? & ? & ?). exists prog, words. split_and!; [done|done|by left]. }
  destruct cursor as [c|]; cbn [mbind option_bind]; [destruct (is_plausible_cursor (trim c)) eqn:Ep|].
  2,3: intros E; destruct (argv_for_closed _ _ _ _ E) as (prog & words & ? & ? & ?); exists prog, words; split_and!; [done|done|by left].
  intros [= <-]. exists "/usr/bin/journalctl", (["-k"; "-p"; "4"; "-o"; "json"; "--no-pager"; "--quiet"] ++ ["--after-cursor=" +:+ trim c])%list.
  split; [done|]. split; [by apply (bool_decide_unpack _); vm_compute|]. right. exists c, ["-k"; "-p"; "4"; "-o"; "json"; "--no-pager"; "--quiet"].
  split; [done|]. split; [done|]. split; [repeat constructor; by apply (bool_decide_unpack _); vm_compute|].
  unfold is_plausible_cursor in Ep. apply andb_true_iff in Ep as [[Hn Hl]%andb_true_iff Hg]. split.
  - rewrite elem_of_app, list_elem_of_singleton. intros [Hin|Hin]; [|done]. revert Hin. by apply (bool_decide_unpack _); vm_compute.
  - split; [done|]. apply Nat.leb_le in Hl. destruct (trim c); [done|]. cbn [String.length] in *. lia.
Qed.
End Commands.

(** * What a round changes *)

Section RoundFacts.
Context `{SpoolEnv} `{RecordSink} `{!RecordSinkLaws} `{LogCodecs} `{Programs} `{JsonValues} `{ExporterContracts} `{ExporterCodec} `{UnicodeTables}.
Implicit Types (x : Export) (w : World) (run : WorkExporterRun) (sc : ExporterScan).

(** Only the files of [F] change; the sink may only have taken more. *)
Definition touches (F : string → Prop) : relation Export := λ x x',
  (∀ q, ¬ F q → files (ex_world x') !! q = files (ex_world x) !! q) ∧
  (∃ new, accepted (ex_sink x') = (accepted (ex_sink x) ++ new)%list) ∧ ex_attempts x' = ex_attempts x.
#[export] Instance touches_preorder F : PreOrder (touches F).
Proof.
  split; [intros x; split_and!; [done|exists []; by rewrite (right_id_L [] (++))|done]|].
  intros x1 x2 x3 (Hf1 & [n1 Ha1] & Hr1) (Hf2 & [n2 Ha2] & Hr2). split_and!.
  - intros q Hq. by rewrite Hf2, Hf1.
  - exists (n1 ++ n2)%list. by rewrite Ha2, Ha1, (assoc_L (++)).
  - congruence.
Qed.

Lemma on_world_touches {A} F (m : M World A) : respects (only_files F) m → respects (touches F) (on_world m).
Proof.
  intros Hm x. specialize (Hm (ex_world x)). unfold on_world, zoom. destruct (m (ex_world x)) as [r w'].
  destruct Hm as [Hf _]. split_and!; [exact Hf|exists []; by rewrite (right_id_L [] (++))|done].
Qed.
Lemma touches_weaken F F' {A} (m : M Export A) : (∀ q, F q → F' q) → respects (touches F) m → respects (touches F') m.
Proof. intros HF Hm x. destruct (Hm x) as (Hf & Ha & Hr). split_and!; [|done|done]. intros q Hq. apply Hf. by intros ?%HF. Qed.

Lemma accepted_write rs x : let x' := (on_sink (write_records rs) x).2 in ex_world x' = ex_world x ∧ ex_attempts x' = ex_attempts x ∧
  ∃ part, accepted (ex_sink x') = (accepted (ex_sink x) ++ part)%list ∧
    ((on_sink (write_records rs) x).1 = Ok tt → part = rs).
Proof.
  cbv zeta. unfold on_sink, zoom. destruct (write_records rs (ex_sink x)) as [[[]|e] s'] eqn:E; cbn.
  - split_and!; [done|done|]. exists rs. split; [by eapply write_records_ok|done].
  - split_and!; [done|done|]. destruct (write_records_err _ _ _ _ E) as (part & ? & _). by exists part.
Qed.

Lemma run_argv_touches F argv timeout : respects (touches F) (run_argv argv timeout).
Proof.
  destruct argv as [|a argv]; [by apply respects_throw, _|]. apply respects_act. intros x.
  destruct (spawn _ _) as [[[finish time]|e] p]; [destruct (Z.ltb _ _)|]; cbn; (split_and!; [done|exists []; by rewrite (right_id_L [] (++))|done]).
Qed.
Lemma run_with_cursor_fallback_touches F id arg cursor timeout : respects (touches F) (run_with_cursor_fallback id arg cursor timeout).
Proof.
  unfold run_with_cursor_fallback. apply respects_bind; [apply _|by apply respects_act|intros argv].
  apply respects_bind; [apply _|by apply respects_try, run_argv_touches|intros [output|e]]; [by apply respects_ret, _|].
  destruct (should_fall_back cursor e); [|by apply respects_throw, _]. apply respects_bind; [apply _|by apply respects_act|intros argv'].
  apply respects_bind; [apply _|apply run_argv_touches|intros output]. by apply respects_ret, _.
Qed.

(** ** The cursor *)

Section Cursor.
Variables (state_dir agent_id : string).

(** The temporary file of a cursor; no other file of a run ends like a cursor. *)
Definition cursor_tmp (run_id : string) : string := path_with_extension (cursor_path state_dir run_id) "cursor.tmp".
Lemma cursor_path_inj a b : cursor_path state_dir a = cursor_path state_dir b → a = b.
Proof. intros Hq. by apply path_join_inj, app_inj_r in Hq. Qed.
Lemma ends_cursor run_id : ends_with ".cursor" (cursor_path state_dir run_id) = true.
Proof. unfold cursor_path, path_join. apply ends_with_spec. exists ((state_dir +:+ "/exporters") +:+ "/" +:+ run_id). by rewrite <- !Prelude.app_assoc. Qed.
Lemma not_cursor q run_id a b : last_char q = Some a → last_char (".cursor") = Some b → a ≠ b → q ≠ cursor_path state_dir run_id.
Proof.
  intros Ha Hb Hn ->. pose proof (ends_cursor run_id) as [p Hp]%ends_with_spec. rewrite Hp, last_char_app in Ha by done. congruence.
Qed.
Lemma tmp_not_cursor p e run_id : path_with_extension p (e +:+ "tmp") ≠ cursor_path state_dir run_id.
Proof.
  destruct (path_with_extension_ends p (e +:+ "tmp")) as [q ->]. apply (not_cursor _ _ "p"%char "r"%char); [|done|done].
  change (String dot (e +:+ "tmp")) with (String dot e +:+ "tmp"). rewrite Prelude.app_assoc. by rewrite last_char_app.
Qed.

(** A new cursor is that of an output whose records were all taken; an old one may be dropped. *)
Definition explained (runs : list WorkExporterRun) (a0 a1 : list TelemetryRecord) (run_id : string) (before after_ : option string) : Prop :=
  after_ = before ∨ after_ = None ∨
  ∃ run output observed_at seq c pre post, run ∈ runs ∧ we_input_id run = run_id ∧ cursor_from_output output = Some c ∧ after_ = Some (trim c) ∧
    a1 = (a0 ++ pre ++ (records_from_output agent_id (we_input_id run) (we_target run) (emits_journald_json (we_exporter_id run))
      (we_family run) (we_unit_id run) output observed_at seq).1 ++ post)%list.
Definition cursors_explained (runs : list WorkExporterRun) : relation Export := λ x x',
  (∃ new, accepted (ex_sink x') = (accepted (ex_sink x) ++ new)%list) ∧
  ∀ run_id, explained runs (accepted (ex_sink x)) (accepted (ex_sink x')) run_id
    (files (ex_world x) !! cursor_path state_dir run_id) (files (ex_world x') !! cursor_path state_dir run_id).
#[export] Instance cursors_explained_preorder runs : PreOrder (cursors_explained runs).
Proof.
  split; [intros x; split; [exists []; by rewrite (right_id_L [] (++))|by left]|].
  intros x1 x2 x3 [[n1 Ha1] H1'] [[n2 Ha2] H2']. split; [exists (n1 ++ n2)%list; by rewrite Ha2, Ha1, (assoc_L (++))|].
  intros id. specialize (H1' id). specialize (H2' id). destruct H2' as [->|[->|H2']]; [|by right; left|].
  - destruct H1' as [->|[->|H1']]; [by left|by right; left|]. right; right.
    destruct H1' as (run & output & obs & seq & c & pre & post & Hr & Hi & Hc & Hs & Ha). exists run, output, obs, seq, c, pre, (post ++ n2)%list.
    split_and!; [done..|]. rewrite Ha2, Ha. by rewrite <- !(assoc_L (++)).
  - right; right. destruct H2' as (run & output & obs & seq & c & pre & post & Hr & Hi & Hc & Hs & Ha). exists run, output, obs, seq, c, (n1 ++ pre)%list, post.
    split_and!; [done..|]. rewrite Ha, Ha1. by rewrite <- !(assoc_L (++)).
Qed.

(** A step that leaves all cursors alone, and one that drops a cursor, are explained. *)
Lemma touches_explained F {A} runs (m : M Export A) : (∀ run_id, ¬ F (cursor_path state_dir run_id)) → respects (touches F) m → respects (cursors_explained runs) m.
Proof. intros HF Hm x. destruct (Hm x) as (Hf & Ha & _). split; [done|]. intros id. left. by apply Hf. Qed.

Lemma clear_cursor_files run_id w : let w' := (clear_cursor state_dir run_id w).2 in
  files w' = files w ∨ files w' = delete (cursor_path state_dir run_id) (files w).
Proof.
  cbv zeta. unfold clear_cursor, remove_ignore_missing. destruct (fs_remove (cursor_path state_dir run_id) w) as [r w'] eqn:E.
  unfold try, mbind, M_bind. rewrite E. destruct r as [u|e].
  - apply fs_remove_ok in E as [-> _]. by right.
  - apply fs_remove_err in E as [-> _]. left. by destruct (decide _).
Qed.
Lemma clear_cursor_explained runs run_id : respects (cursors_explained runs) (on_world (try (clear_cursor state_dir run_id))).
Proof.
  intros x. unfold on_world, zoom, try. pose proof (clear_cursor_files run_id (ex_world x)) as Hc.
  destruct (clear_cursor state_dir run_id (ex_world x)) as [r w']. cbn in *. split; [exists []; by rewrite (right_id_L [] (++))|].
  intros id. cbn [ex_world ex_sink]. destruct Hc as [->| ->]; [by left|]. destruct (decide (id = run_id)) as [->|Hn].
  - right; left. apply lookup_delete_eq.
  - left. apply lookup_delete_ne. by intros ?%cursor_path_inj.
Qed.

(** Saving a cursor replaces it by the new one or leaves it. *)
Lemma save_cursor_files run_id cursor w : let w' := (save_cursor state_dir run_id cursor w).2 in
  (∀ q, q ≠ cursor_path state_dir run_id → q ≠ cursor_tmp run_id → files w' !! q = files w !! q) ∧
  (files w' !! cursor_path state_dir run_id = files w !! cursor_path state_dir run_id ∨
   files w' !! cursor_path state_dir run_id = Some (trim cursor)).
Proof.
  cbv zeta. set (path := cursor_path state_dir run_id). set (tmp := cursor_tmp run_id).
  assert (Hn : path ≠ tmp) by (intros E; symmetry in E; by apply (tmp_not_cursor _ "cursor." _) in E).
  destruct (save_cursor state_dir run_id cursor w) as [r w'] eqn:E. cbn. revert E. unfold save_cursor. fold path. fold tmp.
  assert (Hpar : ∀ r1 w1, ensure_parent_async path w = (r1, w1) → files w1 = files w).
  { intros r1 w1. unfold ensure_parent_async. case_match; [|by intros [= _ <-]]. unfold fs_create_dir_all, guard_fault, mbind, M_bind, modify.
    destruct (fs_fault OpMkdir _); by intros [= <- <-]. }
  intros [(e & E & ->)|(u & w1 & E1 & E)]%bind_inv; [rewrite (Hpar _ _ E); split; [done|by left]|]. specialize (Hpar _ _ E1).
  unfold fs_write in E. apply bind_inv in E as [(e & E & ->)|(u2 & w2 & E2 & E)].
  { apply bind_inv in E as [(e' & E & _)|(u3 & w3 & E3 & E)].
    - unfold fs_create in E. apply bind_inv in E as [(e2 & E & _)|(u4 & w4 & E4 & E)]; [|done].
      apply guard_fault_ok in E as [-> _]. rewrite Hpar. split; [done|by left].
    - unfold fs_create in E3. apply bind_inv in E3 as [(e2 & E3 & ?)|(u4 & w4 & E4 & E3)]; [done|].
      apply guard_fault_ok in E4 as [-> _]. injection E3 as _ <-. unfold fs_append in E.
      apply bind_inv in E as [(e2 & E & _)|(u5 & w5 & E5 & E)]; [|done]. apply guard_fault_ok in E as [-> _]. cbn. rewrite Hpar.
      split; [intros q _ Hq; by rewrite lookup_insert_ne|left; by rewrite lookup_insert_ne]. }
  assert (Hw2 : files w2 = <[tmp := trim cursor]> (files w)).
  { apply bind_inv in E2 as [(e' & _ & ?)|(u3 & w3 & E3 & E2)]; [done|]. unfold fs_create in E3.
    apply bind_inv in E3 as [(e2 & _ & ?)|(u4 & w4 & E4 & E3)]; [done|]. apply guard_fault_ok in E4 as [-> _]. injection E3 as _ <-.
    unfold fs_append in E2. apply bind_inv in E2 as [(e2 & _ & ?)|(u5 & w5 & E5 & E2)]; [done|]. apply guard_fault_ok in E5 as [-> _].
    injection E2 as _ <-. cbn. rewrite Hpar, lookup_insert_eq. cbn. by rewrite insert_insert_eq. }
  unfold fs_rename in E. apply bind_inv in E as [(e & E & ->)|(u6 & w6 & E6 & E)].
  { apply guard_fault_ok in E as [-> _]. rewrite Hw2. split; [intros q _ Hq; by rewrite lookup_insert_ne|left; by rewrite lookup_insert_ne]. }
  apply guard_fault_ok in E6 as [-> _]. unfold act in E. rewrite Hw2, lookup_insert_eq in E. injection E as _ <-. cbn. split.
  - intros q Hq1 Hq2. rewrite lookup_insert_ne, delete_insert_eq, lookup_delete_ne by done. done.
  - right. by rewrite lookup_insert_eq.
Qed.

Lemma deliver_output_explained runs run output fell_back : run ∈ runs →
  respects (cursors_explained runs) (deliver_output state_dir agent_id run output fell_back).
Proof.
  intros Hin x. unfold deliver_output. rewrite (bind_ok _ _ _ (rfc3339 (clock (ex_world x))) x) by (by destruct x). rewrite gets_then.
  destruct (records_from_output _ _ _ _ _ _ _ _ _) as [recs next] eqn:Er. unfold set_seq. rewrite modify_then.
  set (x1 := mk_export (ex_world x) (ex_sink x) (ex_programs x) _ (ex_attempts x)).
  assert (Hx1 : ∀ x', cursors_explained runs x1 x' → cursors_explained runs x x') by done.
  apply Hx1. clear Hx1.
  assert (Hdel : ∃ d x2, (match recs with [] => mret true | _ => r ← try (on_sink (write_records recs)); mret (is_ok r) end) x1 = (Ok d, x2) ∧
    ex_world x2 = ex_world x1 ∧ ∃ part, accepted (ex_sink x2) = (accepted (ex_sink x1) ++ part)%list ∧ (d = true → part = recs)).
  { destruct recs as [|r0 rs0] eqn:Ers.
    { exists true, x1. split_and!; [done|done|]. exists []. by rewrite (right_id_L [] (++)). }
    rewrite <- Ers. pose proof (accepted_write recs x1) as Hw. cbv zeta in Hw. destruct (on_sink (write_records recs) x1) as [rr x2] eqn:Ew.
    cbn [fst snd] in Hw. exists (is_ok rr), x2. unfold try, mbind, M_bind. rewrite Ew. split; [done|]. destruct Hw as (Hw1 & _ & part & Hp & Ho).
    split; [done|]. exists part. split; [done|]. intros Hok. apply Ho. by destruct rr as [[]|]. }
  destruct Hdel as (d & x2 & Ed & Hw2 & part & Hp & Hd).
  match goal with |- cursors_explained _ _ (?m x1).2 => assert (Em : m x1 = (when d (on_world (persist_cursor state_dir run output fell_back))) x2) end.
  { by erewrite bind_ok by exact Ed. }
  rewrite Em. clear Em Ed.
  assert (Hkeep : ∀ w', (∃ new, accepted (ex_sink x2) = (accepted (ex_sink x1) ++ new)%list) →
     (∀ id, explained runs (accepted (ex_sink x1)) (accepted (ex_sink x2)) id (files (ex_world x1) !! cursor_path state_dir id) (files w' !! cursor_path state_dir id)) →
     ∀ r, cursors_explained runs x1 ((r, mk_export w' (ex_sink x2) (ex_programs x2) (ex_seq x2) (ex_attempts x2)) : result unit * Export).2) by (by intros w' ? ? r; split).
  destruct d; cbn [when].
  2:{ split; [by exists part|]. intros id. left. rewrite <- Hw2. by rewrite ret_run. }
  specialize (Hd eq_refl). subst part. unfold on_world, zoom.
  destruct (persist_cursor state_dir run output fell_back (ex_world x2)) as [r w'] eqn:Ep. apply Hkeep; [by exists recs|]. clear Hkeep.
  assert (Hsame : ∀ id, explained runs (accepted (ex_sink x1)) (accepted (ex_sink x2)) id (files (ex_world x1) !! cursor_path state_dir id) (files (ex_world x1) !! cursor_path state_dir id)) by (by left).
  unfold persist_cursor in Ep. rewrite Hw2 in Ep. destruct (uses_cursor _); cbn [negb] in Ep; [|by injection Ep as _ <-].
  destruct (cursor_from_output output) as [c|] eqn:Ec.
  - unfold try, mbind, M_bind in Ep. pose proof (save_cursor_files (we_input_id run) c (ex_world x1)) as [Hf Hs].
    destruct (save_cursor state_dir (we_input_id run) c (ex_world x1)) as [r0 w0]. injection Ep as _ <-. cbn [snd] in *. intros id.
    destruct (decide (id = we_input_id run)) as [->|Hid].
    + destruct Hs as [->|Hs]; [by left|]. right; right. exists run, output. eexists _, _, c, [], []. split_and!; [done|done|done|exact Hs|].
      rewrite Hp, Er. cbn [fst app]. by rewrite (right_id_L [] (++)).
    + left. apply Hf; [by intros ?%cursor_path_inj|]. intros E. symmetry in E. by apply (tmp_not_cursor _ "cursor." _) in E.
  - destruct (String.eqb (trim output) ""); [|by injection Ep as _ <-]. destruct fell_back; [|by injection Ep as _ <-].
    unfold try, mbind, M_bind in Ep. pose proof (clear_cursor_files (we_input_id run) (ex_world x1)) as Hc.
    destruct (clear_cursor state_dir (we_input_id run) (ex_world x1)) as [r0 w0]. injection Ep as _ <-. cbn [snd] in *. intros id.
    destruct Hc as [->| ->]; [by left|]. destruct (decide (id = we_input_id run)) as [->|Hid].
    + right; left. apply lookup_delete_eq.
    + left. apply lookup_delete_ne. by intros ?%cursor_path_inj.
Qed.

Lemma fs_read_on_world F p : respects (touches F) (on_world (try (fs_read p))).
Proof. apply on_world_touches. apply respects_try. by apply fs_read_respects, _. Qed.
Lemma load_cursor_touches F run_id : respects (touches F) (on_world (load_cursor state_dir run_id)).
Proof.
  apply on_world_touches. apply respects_bind; [apply _|by apply respects_try, fs_read_respects, _|intros r]. by apply respects_ret, _.
Qed.

Lemma run_exporter_explained runs run cursor timeout : run ∈ runs →
  respects (cursors_explained runs) (run_exporter state_dir agent_id run cursor timeout).
Proof.
  intros Hin. unfold run_exporter. apply respects_bind; [apply _| |intros [[output fell_back]|err]].
  - apply respects_try. apply (touches_explained (λ _, False)); [by intros ? []|apply run_with_cursor_fallback_touches].
  - by apply deliver_output_explained.
  - destruct (should_reset_cursor cursor err); [|by apply respects_ret, _]. apply respects_bind; [apply _|by apply clear_cursor_explained|intros]. by apply respects_ret, _.
Qed.

Lemma attempting_explained runs key period now : respects (cursors_explained runs) (attempting key period now).
Proof. intros x. split; [exists []; by rewrite (right_id_L [] (++))|by left]. Qed.

Lemma process_run_explained runs now run sc : run ∈ runs → respects (cursors_explained runs) (process_run state_dir agent_id now run sc).
Proof.
  intros Hin. unfold process_run. destruct (def _) as [d|]; [|by apply respects_ret, _].
  apply respects_bind; [apply _| |intros cursor].
  { destruct (uses_cursor _); [|by apply respects_ret, _]. apply (touches_explained (λ _, False)); [by intros ? []|apply load_cursor_touches]. }
  apply respects_bind; [apply _|by apply respects_gets, _|intros x]. destruct (argv_for_run _ _ _ _) as [argv|]; [|by apply respects_ret, _].
  destruct (negb _); [by apply respects_ret, _|]. cbv zeta. destruct (negb _); [by apply respects_ret, _|].
  apply respects_bind; [apply _|apply attempting_explained|intros]. apply respects_bind; [apply _|by apply run_exporter_explained|intros]. by apply respects_ret, _.
Qed.

Lemma process_runs_explained all now runs sc : (∀ run, run ∈ runs → run ∈ all) →
  respects (cursors_explained all) (process_runs state_dir agent_id now runs sc).
Proof.
  revert sc. induction runs as [|run runs IH]; intros sc Hall; cbn [process_runs]; [by apply respects_ret, _|].
  apply respects_bind; [apply _|apply process_run_explained, Hall; by left|intros sc']. apply IH. intros r Hr. apply Hall. by right.
Qed.

(** The files of the schedule and of the numbers are no cursors. *)
Definition state_files (q : string) : Prop := q = state_path state_dir ∨ q = path_with_extension (state_path state_dir) "json.tmp".
Lemma state_files_not_cursor run_id : ¬ state_files (cursor_path state_dir run_id).
Proof.
  intros [E|E]; symmetry in E; [|by apply (tmp_not_cursor _ "json." _) in E].
  eapply not_cursor in E; [done| |done|]; [unfold state_path, path_join; rewrite last_char_app by done; done|done].
Qed.
Lemma fs_write_respects F p bytes : F p → respects (only_files F) (fs_write p bytes).
Proof.
  intros Hp. unfold fs_write, fs_create, fs_append. repeat (apply respects_bind; [apply _| |intros _]); try by apply guard_fault_respects, _.
  all: apply modify_files_respects; intros w q Hq; rewrite lookup_insert_ne; [done|by intros ->].
Qed.
Lemma fs_rename_respects F a b : F a → F b → respects (only_files F) (fs_rename a b).
Proof.
  intros Ha Hb. unfold fs_rename. apply respects_bind; [apply _|by apply guard_fault_respects, _|intros _]. apply respects_act. intros w.
  destruct (files w !! a); [|reflexivity]. repeat split; [|done..]. intros q Hq. cbn. rewrite lookup_insert_ne, lookup_delete_ne; [done| |]; by intros ->.
Qed.
Lemma save_state_respects state : respects (only_files state_files) (save_state state_dir state).
Proof.
  unfold save_state. apply respects_bind; [apply _|apply respects_try, fs_write_respects; by right|intros [u|e]]; [|by apply respects_ret, _].
  apply respects_bind; [apply _|apply respects_try, fs_rename_respects; [by right|by left]|intros]. by apply respects_ret, _.
Qed.
Lemma seq_not_cursor run_id : ¬ store_paths (log_seq_state.path_for state_dir) (cursor_path state_dir run_id).
Proof.
  intros [E|E]; symmetry in E; [|by apply (tmp_not_cursor _ "" _) in E].
  eapply not_cursor in E; [done| |done|]; [unfold log_seq_state.path_for, path_join; rewrite last_char_app by done; done|done].
Qed.
Lemma seq_store_touches F n : (∀ q, store_paths (log_seq_state.path_for state_dir) q → F q) →
  respects (touches F) (on_world (log_seq_state.store_async (log_seq_state.path_for state_dir) n)).
Proof. intros HF. apply on_world_touches. by apply write_json_respects. Qed.
Lemma load_state_touches F : respects (touches F) (on_world (load_state state_dir)).
Proof.
  apply on_world_touches. apply respects_bind; [apply _|by apply respects_try, fs_read_respects, _|intros r]. by apply respects_ret, _.
Qed.

(** C14. An exporter's position moves only past what was delivered: over a round, whatever the host, the sink
    and the programs do, the position of a run is kept, or dropped (the next reading starts from a fixed time
    back), or is that of an output all of whose records the sink has taken in this round, in order and
    uninterrupted; what a sink refused is read again. *)
Theorem cursor_follows_delivery runs x :
  let x' := (process_exporters runs state_dir agent_id (log_seq_state.path_for state_dir) x).2 in
  (∃ new, accepted (ex_sink x') = (accepted (ex_sink x) ++ new)%list) ∧
  ∀ run_id, explained runs (accepted (ex_sink x)) (accepted (ex_sink x')) run_id
    (files (ex_world x) !! cursor_path state_dir run_id) (files (ex_world x') !! cursor_path state_dir run_id).
Proof.
  cbv zeta. revert x. change (respects (cursors_explained runs) (process_exporters runs state_dir agent_id (log_seq_state.path_for state_dir))).
  assert (Hsave : ∀ state, respects (cursors_explained runs) (on_world (save_state state_dir state))).
  { intros state. apply (touches_explained state_files); [apply state_files_not_cursor|]. apply on_world_touches, save_state_respects. }
  unfold process_exporters. apply respects_bind; [apply _|apply (touches_explained (λ _, False)); [by intros ? []|apply load_state_touches]|intros state].
  cbv zeta. destruct runs as [|run0 runs0] eqn:Er; [apply respects_when; [apply _|apply Hsave]|]. rewrite <- Er in *.
  apply respects_bind; [apply _| |intros now].
  { apply (touches_explained (λ _, False)); [by intros ? []|]. apply on_world_touches. by apply respects_gets, _. }
  apply respects_bind; [apply _|by apply process_runs_explained|intros sc].
  apply respects_bind; [apply _|apply respects_when; [apply _|apply Hsave]|intros _]. destruct (sc_ran sc); [|by apply respects_ret, _].
  apply respects_bind; [apply _|by apply respects_gets, _|intros n]. apply respects_bind; [apply _| |intros]; [|by apply respects_ret, _].
  apply respects_try. apply (touches_explained (store_paths (log_seq_state.path_for state_dir))); [apply seq_not_cursor|]. by apply seq_store_touches.
Qed.
End Cursor.
End RoundFacts.

(** * The schedule *)

Section Schedule.
Context `{SpoolEnv} `{RecordSink} `{!RecordSinkLaws} `{LogCodecs} `{Programs} `{JsonValues} `{ExporterContracts} `{ExporterCodec} `{UnicodeTables}.
Variables (state_dir agent_id : string).
Implicit Types (x : Export) (w : World) (run : WorkExporterRun) (sc : ExporterScan).

Lemma infallible_on_world {A} (m : M World A) : infallible m → infallible (on_world m).
Proof. apply infallible_zoom. Qed.

Lemma persist_cursor_infallible run output fell_back : infallible (persist_cursor state_dir run output fell_back).
Proof.
  unfold persist_cursor. destruct (negb _); [apply infallible_ret|]. destruct (cursor_from_output output).
  { apply infallible_bind; [apply infallible_try|intros; apply infallible_ret]. }
  destruct (String.eqb _ _); [|apply infallible_ret]. destruct fell_back; [|apply infallible_ret].
  apply infallible_bind; [apply infallible_try|intros; apply infallible_ret].
Qed.
Lemma deliver_output_infallible run output fell_back : infallible (deliver_output state_dir agent_id run output fell_back).
Proof.
  unfold deliver_output. apply infallible_bind; [by apply infallible_on_world, infallible_gets|intros obs].
  apply infallible_bind; [apply infallible_gets|intros n]. destruct (records_from_output _ _ _ _ _ _ _ _ _) as [recs next].
  apply infallible_bind; [by intros x; eexists _, _|intros _]. apply infallible_bind.
  - destruct recs; [apply infallible_ret|]. apply infallible_bind; [apply infallible_try|intros; apply infallible_ret].
  - intros []; [apply infallible_on_world, persist_cursor_infallible|apply infallible_ret].
Qed.
Lemma run_exporter_infallible run cursor timeout : infallible (run_exporter state_dir agent_id run cursor timeout).
Proof.
  unfold run_exporter. apply infallible_bind; [apply infallible_try|intros [[output fell_back]|e]]; [apply deliver_output_infallible|].
  destruct (should_reset_cursor _ _); [|apply infallible_ret]. apply infallible_bind; [by apply infallible_on_world, infallible_try|intros; apply infallible_ret].
Qed.
Lemma load_cursor_infallible run_id : infallible (load_cursor state_dir run_id).
Proof. apply infallible_bind; [apply infallible_try|intros; apply infallible_ret]. Qed.

(** The positions of the runs are other files than the schedule. *)
Definition cursor_files (q : string) : Prop := ∃ id, q = cursor_path state_dir id ∨ q = cursor_tmp state_dir id.
Lemma state_not_cursor_files : ¬ cursor_files (state_path state_dir).
Proof.
  intros [id [E|E]].
  - by apply (state_files_not_cursor state_dir id); left.
  - unfold cursor_tmp in E. destruct (path_with_extension_ends (cursor_path state_dir id) "cursor.tmp") as [q Hq]. rewrite Hq in E.
    apply (f_equal last_char) in E. unfold state_path, path_join in E. by rewrite !last_char_app in E.
Qed.
Lemma save_cursor_respects run_id cursor : respects (only_files cursor_files) (save_cursor state_dir run_id cursor).
Proof.
  unfold save_cursor. apply respects_bind; [apply _| |intros _].
  { unfold ensure_parent_async. case_match; [apply fs_create_dir_all_respects|by apply respects_ret, _]. }
  apply respects_bind; [apply _| |intros _].
  - apply fs_write_respects. exists run_id. by right.
  - apply fs_rename_respects; exists run_id; [by right|by left].
Qed.
Lemma clear_cursor_respects run_id : respects (only_files cursor_files) (clear_cursor state_dir run_id).
Proof.
  unfold clear_cursor, remove_ignore_missing. apply respects_bind; [apply _| |intros [u|e]].
  - apply respects_try, fs_remove_respects. exists run_id. by left.
  - by apply respects_ret, _.
  - destruct (decide _); [by apply respects_ret, _|by apply respects_throw, _].
Qed.
Lemma persist_cursor_respects run output fell_back : respects (only_files cursor_files) (persist_cursor state_dir run output fell_back).
Proof.
  unfold persist_cursor. destruct (negb _); [by apply respects_ret, _|]. destruct (cursor_from_output output).
  { apply respects_bind; [apply _|apply respects_try, save_cursor_respects|intros; by apply respects_ret, _]. }
  destruct (String.eqb _ _); [|by apply respects_ret, _]. destruct fell_back; [|by apply respects_ret, _].
  apply respects_bind; [apply _|apply respects_try, clear_cursor_respects|intros; by apply respects_ret, _].
Qed.

Lemma run_exporter_touches run cursor timeout : respects (touches cursor_files) (run_exporter state_dir agent_id run cursor timeout).
Proof.
  unfold run_exporter. apply respects_bind; [apply _|apply respects_try, run_with_cursor_fallback_touches|intros [[output fell_back]|e]].
  - unfold deliver_output. apply respects_bind; [apply _| |intros obs]; [apply on_world_touches; by apply respects_gets, _|].
    apply respects_bind; [apply _|by apply respects_gets, _|intros n]. destruct (records_from_output _ _ _ _ _ _ _ _ _) as [recs next].
    apply respects_bind; [apply _| |intros _].
    { intros x. split_and!; [done|exists []; by rewrite (right_id_L [] (++))|done]. }
    apply respects_bind; [apply _| |intros []; [apply on_world_touches, persist_cursor_respects|by apply respects_ret, _]].
    destruct recs; [by apply respects_ret, _|]. apply respects_bind; [apply _|apply respects_try|intros; by apply respects_ret, _].
    intros x. match goal with |- touches _ _ (on_sink (write_records ?rs) x).2 => pose proof (accepted_write rs x) as Hw end.
    cbv zeta in Hw. destruct Hw as (Hw1 & Hw2 & part & Hp & _). split_and!; [by rewrite Hw1|by exists part|done].
  - destruct (should_reset_cursor _ _); [|by apply respects_ret, _].
    apply respects_bind; [apply _|apply on_world_touches, respects_try, clear_cursor_respects|intros; by apply respects_ret, _].
Qed.

(** What one granted run does to the schedule. *)
Lemma process_run_schedule now run sc x : ∃ sc' x', process_run state_dir agent_id now run sc x = (Ok sc', x') ∧
  files (ex_world x') !! state_path state_dir = files (ex_world x) !! state_path state_dir ∧
  ((ex_attempts x' = ex_attempts x ∧ last_run_ms (sc_state sc') = last_run_ms (sc_state sc) ∧ (sc_changed sc = true → sc_changed sc' = true)) ∨
   ∃ d, def (we_exporter_id run) = Some d ∧ is_due (period_secs d) (bt_get (we_input_id run) (last_run_ms (sc_state sc))) now = true ∧
     ex_attempts x' = (ex_attempts x ++ [(we_input_id run, (period_secs d, now))])%list ∧
     last_run_ms (sc_state sc') = bt_insert (we_input_id run) now (last_run_ms (sc_state sc)) ∧ sc_changed sc' = true).
Proof.
  unfold process_run. destruct (def (we_exporter_id run)) as [d|]; [|exists sc, x; split; [done|]; split; [done|by left]].
  assert (Hc : ∃ c x1, (if uses_cursor (we_exporter_id run) then on_world (load_cursor state_dir (we_input_id run)) else mret None) x = (Ok c, x1) ∧
    touches (λ _, False) x x1).
  { assert (Hi : infallible (if uses_cursor (we_exporter_id run) then on_world (load_cursor state_dir (we_input_id run)) else mret None))
      by (destruct (uses_cursor _); [apply infallible_on_world, load_cursor_infallible|apply infallible_ret]).
    destruct (Hi x) as (c & x1 & E). exists c, x1. split; [done|]. destruct (uses_cursor _).
    - by pose proof (respects_run _ _ _ _ _ (load_cursor_touches state_dir (λ _, False) (we_input_id run)) E).
    - rewrite ret_run in E. by injection E as <- <-. }
  destruct Hc as (c & x1 & E1 & (Hf1 & _ & Ha1)). erewrite bind_ok by exact E1. rewrite gets_then.
  assert (Hq : files (ex_world x1) !! state_path state_dir = files (ex_world x) !! state_path state_dir) by (apply Hf1; by intros []).
  destruct (argv_for_run _ _ _ _) as [argv|]; [|exists sc, x1; split; [done|]; split; [done|by left]].
  destruct (negb (present_now _ _)).
  { eexists _, x1. split; [done|]. split; [done|]. left. split; [done|]. split; [done|]. cbn. by intros ->. }
  cbv zeta. set (sc1 := note_present _ sc). change (last_run_ms (sc_state sc1)) with (last_run_ms (sc_state sc)).
  destruct (is_due _ _ now) eqn:Ed; cbn [negb].
  2:{ eexists sc1, x1. split; [done|]. split; [done|]. left. split; [done|]. split; [done|]. cbn. by intros ->. }
  unfold attempting. rewrite modify_then. set (x2 := mk_export _ _ _ _ _).
  destruct (run_exporter_infallible run c (timeout_secs d) x2) as (u & x3 & E3). erewrite bind_ok by exact E3.
  pose proof (respects_run _ _ _ _ _ (run_exporter_touches run c (timeout_secs d)) E3) as (Hf3 & _ & Ha3).
  eexists _, x3. split; [done|]. split; [rewrite (Hf3 _ state_not_cursor_files); exact Hq|]. right. exists d. split; [done|]. split; [done|].
  rewrite Ha3. cbn. by rewrite Ha1.
Qed.

(** The attempts of one key: their period and when. *)
Definition times_of (key : string) (attempts : list (string * (Z * Z))) : list (Z * Z) :=
  omap (λ a, if String.eqb a.1 key then Some a.2 else None) attempts.
Definition spaced (times : list (Z * Z)) : Prop := ∀ i p t p' t', times !! i = Some (p, t) → times !! S i = Some (p', t') → (t + p' * 1000 ≤ t')%Z.
(** The schedule knows the last attempt of every key. *)
Definition scheduled (m : btree Z) (attempts : list (string * (Z * Z))) : Prop :=
  ∀ key, spaced (times_of key attempts) ∧ ∀ p t, last (times_of key attempts) = Some (p, t) → bt_get key m = Some t.

Lemma times_spaced_snoc times p t : spaced times → (∀ p0 t0, last times = Some (p0, t0) → (t0 + p * 1000 ≤ t)%Z) → spaced (times ++ [(p, t)]).
Proof.
  intros Hs Hl i p1 t1 p2 t2 H1' H2'. destruct (decide (S i < length times)) as [Hi|Hi].
  { rewrite lookup_app_l in H1', H2' by lia. by eapply Hs. }
  pose proof (lookup_lt_Some _ _ _ H2') as Hlt. rewrite length_app in Hlt. cbn in Hlt. assert (length times = S i) as Hn by lia.
  rewrite lookup_app_r in H2' by lia. rewrite Hn, Nat.sub_diag in H2'. injection H2' as <- <-.
  rewrite lookup_app_l in H1' by lia. apply (Hl p1). by rewrite last_lookup, Hn.
Qed.

Lemma def_period id d : def id = Some d → (0 < period_secs d ≤ 21600)%Z.
Proof.
  intros [Hin _]%find_first_Some. unfold EXPORTERS in Hin. rewrite !elem_of_cons in Hin.
  destruct Hin as [->|[->|[->|[->|[->|[->|[->|[->|[->|Hin]]]]]]]]]; [cbn; lia..|]. by apply elem_of_nil in Hin.
Qed.

Lemma scheduled_attempt m attempts key period now : scheduled m attempts → (0 < period ≤ 21600)%Z → is_due period (bt_get key m) now = true →
  scheduled (bt_insert key now m) (attempts ++ [(key, (period, now))]).
Proof.
  intros Hs Hp Hd k. destruct (Hs k) as [Hsp Hl]. unfold times_of in *. rewrite omap_app. cbn.
  destruct (String.eqb_spec key k) as [<-|Hn].
  - split.
    + apply times_spaced_snoc; [done|]. intros p0 t0 Hl0. specialize (Hl p0 t0 Hl0). unfold is_due in Hd. rewrite Hl in Hd. apply Z.leb_le in Hd.
      unfold i64_saturating_sub in Hd. lia.
    + intros p t. rewrite last_snoc. intros [= <- <-]. apply bt_get_insert_eq.
  - rewrite (right_id_L [] (++)). split; [done|]. intros p t Ht. rewrite bt_get_insert_ne by done. by apply (Hl p).
Qed.

Lemma process_runs_schedule now runs sc x : ∃ sc' x', process_runs state_dir agent_id now runs sc x = (Ok sc', x') ∧
  files (ex_world x') !! state_path state_dir = files (ex_world x) !! state_path state_dir ∧
  (sc_changed sc = true → sc_changed sc' = true) ∧
  (sc_changed sc' = false → last_run_ms (sc_state sc') = last_run_ms (sc_state sc)) ∧
  (scheduled (last_run_ms (sc_state sc)) (ex_attempts x) → scheduled (last_run_ms (sc_state sc')) (ex_attempts x')).
Proof.
  revert sc x. induction runs as [|run runs IH]; intros sc x; [by eexists sc, x|]. cbn [process_runs].
  destruct (process_run_schedule now run sc x) as (sc1 & x1 & E1 & Hq1 & Hcase).
  destruct (IH sc1 x1) as (sc2 & x2 & E2 & Hq2 & Hc2 & Hl2 & Hs2). exists sc2, x2. erewrite bind_ok by exact E1. split; [done|].
  split; [congruence|]. destruct Hcase as [(Ha & Hl & Hc)|(d & Hdef & Hd & Ha & Hl & Hc)].
  - split; [auto|]. split; [intros Hn; rewrite (Hl2 Hn); done|]. intros Hs. apply Hs2. by rewrite Ha, Hl.
  - split; [auto|]. split; [intros Hn; rewrite (Hc2 Hc) in Hn; done|]. intros Hs. apply Hs2. rewrite Ha, Hl.
    apply scheduled_attempt; [done|by eapply def_period|done].
Qed.

(** The schedule on disk, and what it knows. *)
Definition stored w : ExporterState :=
  match files w !! state_path state_dir with Some bytes => default exporter_state_default (state_from_slice bytes) | None => exporter_state_default end.
Lemma load_state_ff w : fault_free → load_state state_dir w = (Ok (stored w), w).
Proof.
  intros Hff. unfold load_state, stored, fs_read, try, mbind, M_bind. rewrite guard_fault_ff by done. unfold act. by destruct (files w !! _).
Qed.
Lemma fs_write_ff p bytes w : fault_free → fs_write p bytes w = (Ok tt, set_files (<[p := bytes]> (files w)) w).
Proof.
  intros Hff. unfold fs_write, fs_create, fs_append.
  erewrite bind_ok; [|by erewrite bind_ok by (by apply guard_fault_ff)]. erewrite bind_ok by (by apply guard_fault_ff).
  unfold modify. cbn. rewrite lookup_insert_eq. cbn. by rewrite insert_insert_eq.
Qed.
Lemma save_state_ff state w : fault_free → files (save_state state_dir state w).2 !! state_path state_dir = Some (state_pretty state).
Proof.
  intros Hff. unfold save_state. cbv zeta. set (tmp := path_with_extension _ _). set (w1 := set_files (<[tmp := state_pretty state]> (files w)) w).
  erewrite bind_ok by (apply try_run; by apply fs_write_ff). fold w1. unfold fs_rename.
  assert (E : (guard_fault OpRename tmp;; act (λ w, match files w !! tmp with
    | Some s => (Ok tt, set_files (<[state_path state_dir := s]> (delete tmp (files w))) w) | None => (Err enoent, w) end)) w1 =
    (Ok tt, set_files (<[state_path state_dir := state_pretty state]> (delete tmp (files w1))) w1)).
  { erewrite bind_ok by (by apply guard_fault_ff). unfold act. cbn [w1 files set_files]. by rewrite lookup_insert_eq. }
  erewrite bind_ok by (apply try_run; exact E). rewrite ret_run. cbn. by rewrite lookup_insert_eq.
Qed.
Lemma seq_not_state : ¬ store_paths (log_seq_state.path_for state_dir) (state_path state_dir).
Proof.
  unfold log_seq_state.path_for, state_path, path_join. intros [E|E].
  - rewrite <- Prelude.app_assoc in E. by apply app_inj_l in E.
  - rewrite <- Prelude.app_assoc in E. destruct (path_with_extension_ends (state_dir +:+ "/logs" +:+ "/seq.json") "tmp") as [q Hq].
    apply (f_equal last_char) in E. rewrite last_char_app in E by done. change (String slash "logs") with "/logs" in E.
    change (String slash "seq.json") with "/seq.json" in E. rewrite Hq in E. by rewrite last_char_app in E.
Qed.

Lemma process_exporters_schedule runs x : fault_free → scheduled (last_run_ms (stored (ex_world x))) (ex_attempts x) →
  let x' := (process_exporters runs state_dir agent_id (log_seq_state.path_for state_dir) x).2 in
  scheduled (last_run_ms (stored (ex_world x'))) (ex_attempts x').
Proof.
  intros Hff Hs. cbv zeta. unfold process_exporters.
  assert (El : on_world (load_state state_dir) x = (Ok (stored (ex_world x)), x)).
  { unfold on_world, zoom. rewrite load_state_ff by done. by destruct x. }
  erewrite bind_ok by exact El. cbv zeta. set (kept := retain_missing runs _). set (changed := negb _). set (st := mk_exporter_state _ kept).
  assert (Hsave : ∀ st' y, ∃ u y', on_world (save_state state_dir st') y = (Ok u, y') ∧ stored (ex_world y') = st' ∧ ex_attempts y' = ex_attempts y).
  { intros st' y. assert (Hi : infallible (save_state state_dir st')).
    { unfold save_state. apply infallible_bind; [apply infallible_try|intros []; [|apply infallible_ret]].
      apply infallible_bind; [apply infallible_try|intros; apply infallible_ret]. }
    destruct (Hi (ex_world y)) as (u & w & E). exists u. unfold on_world, zoom. rewrite E. eexists. split; [done|]. cbn. split; [|done].
    unfold stored. pose proof (save_state_ff st' (ex_world y) Hff) as Hq. rewrite E in Hq. cbn in Hq. rewrite Hq, state_from_pretty. done. }
  destruct runs as [|run0 runs0] eqn:Er.
  { destruct changed; cbn [when]; [|by rewrite ret_run]. destruct (Hsave st x) as (u & y & -> & Hst & Ha). cbn [snd]. by rewrite Hst, Ha. }
  rewrite <- Er in *. assert (En : on_world (gets clock) x = (Ok (clock (ex_world x)), x)) by (by destruct x). erewrite bind_ok by exact En.
  destruct (process_runs_schedule (clock (ex_world x)) runs (mk_scan st changed false) x) as (sc & x1 & E1 & Hq & _ & Hl & Hs1).
  erewrite bind_ok by exact E1. specialize (Hs1 Hs).
  assert (H2' : ∃ u x2, when (sc_changed sc) (on_world (save_state state_dir (sc_state sc))) x1 = (Ok u, x2) ∧
    scheduled (last_run_ms (stored (ex_world x2))) (ex_attempts x2)).
  { destruct (sc_changed sc); cbn [when].
    - destruct (Hsave (sc_state sc) x1) as (u & y & E & Hst & Ha). exists u, y. split; [done|]. by rewrite Hst, Ha.
    - exists tt, x1. split; [done|]. unfold stored. rewrite Hq. fold (stored (ex_world x)). rewrite (Hl eq_refl) in Hs1. exact Hs1. }
  destruct H2' as (u & x2 & E2 & Hs2). erewrite bind_ok by exact E2. destruct (sc_ran sc); [|by rewrite ret_run]. rewrite gets_then.
  match goal with |- context [?m x2] => assert (Ht : touches (store_paths (log_seq_state.path_for state_dir)) x2 (m x2).2) end.
  { apply respects_bind; [apply _|apply respects_try; by apply seq_store_touches|intros; by apply respects_ret, _]. }
  destruct Ht as (Hf & _ & ->). unfold stored. rewrite (Hf _ seq_not_state). exact Hs2.
Qed.

(** Rounds, with the time between them. *)
Definition later (ms : Z) x : Export := mk_export (set_clock (clock (ex_world x) + ms) (ex_world x)) (ex_sink x) (ex_programs x) (ex_seq x) (ex_attempts x).
Definition export_rounds (rounds : list (list WorkExporterRun * Z)) x : Export :=
  foldl (λ x round, later round.2 (process_exporters round.1 state_dir agent_id (log_seq_state.path_for state_dir) x).2) x rounds.

(** Over any rounds, with whatever runs are granted, however long they take, whether they succeed, and
    whichever way the clock moves between them, an exporter is never started for a run sooner than its period
    after it was started for that run before; a restart of the agent in between changes nothing, since the
    schedule is on disk. *)
Theorem exporters_keep_their_period rounds x : fault_free → ex_attempts x = [] →
  ∀ key, spaced (times_of key (ex_attempts (export_rounds rounds x))).
Proof.
  intros Hff Hx key. assert (Hs : scheduled (last_run_ms (stored (ex_world x))) (ex_attempts x)).
  { rewrite Hx. intros k. by split. }
  clear Hx. enough (Hs' : scheduled (last_run_ms (stored (ex_world (export_rounds rounds x)))) (ex_attempts (export_rounds rounds x)))
    by (by destruct (Hs' key)).
  revert x Hs. induction rounds as [|[runs ms] rounds IH]; intros x Hs; [done|]. unfold export_rounds. cbn [foldl]. apply IH.
  by apply (process_exporters_schedule runs x Hff Hs).
Qed.
End Schedule.

(** * Concrete rounds *)

Module ConcreteExporters.
#[export] Instance toy_unicode : UnicodeTables := {| escape_debug_char s := s |}.
#[export] Instance toy_exporter_contracts : ExporterContracts := {| KERNEL_LOG_EXPORTER := "journalctl-kernel" |}.

(** A line [@c] is an object with the position [c]; byte arrays are lists of numbers. *)
Inductive ToyValue := VText (s : string) | VNumber (n : Z) | VArray (l : list ToyValue) | VObject (l : list (string * ToyValue)).
#[export] Instance toy_values : JsonValues := {|
  Value := ToyValue;
  value_from_str line := c ← strip_prefix "@" line; Some (VObject [("__CURSOR", VText c)]);
  value_to_string v := match v with VText s => Some s | _ => None end;
  as_object v := match v with VObject l => Some l | _ => None end;
  of_object := VObject;
  as_array v := match v with VArray l => Some l | _ => None end;
  as_str v := match v with VText s => Some s | _ => None end;
  of_string := VText;
  as_u64 v := match v with VNumber n => Some n | _ => None end;
|}.

(** The programs follow a script. *)
#[export] Instance toy_programs : Programs := {|
  ProgramState := list (result (ChildEnd * Z));
  executable _ _ := true;
  spawn _ p := match p with a :: p => (a, p) | [] => (Err enoent, []) end;
|}.

#[export] Instance ExporterState_eq_dec : EqDecision ExporterState.
Proof. solve_decision. Defined.
#[export] Instance ExporterState_countable : Countable ExporterState.
Proof. refine (inj_countable' (λ s, (last_run_ms s, missing s)) (λ '(a, b), mk_exporter_state a b) _). abstract (by intros []). Defined.
Lemma toy_state_read (s : ExporterState) : result_ok (toy_from_json (A := ExporterState) (toy_to_json s)) = Some s.
Proof.
  unfold toy_from_json, toy_to_json. cbn -[bits encode]. rewrite (proj1 (parse_bits_spec _)). cbn -[encode decode]. by rewrite decode_encode.
Qed.
#[export] Instance toy_exporter_codec : ExporterCodec := {|
  state_pretty := toy_to_json;
  state_from_slice s := result_ok (toy_from_json s);
  state_from_pretty := toy_state_read;
|}.

Definition kernel_run : WorkExporterRun := mk_run "w1" "os" "kernel" "journalctl-kernel" None "journalctl-kernel" "work-os-kernel-exporter".
Definition unit_run : WorkExporterRun := mk_run "w1" "os" "units" "journalctl-unit" None "journalctl-unit" "work-os-units-exporter".
Definition printed (output : string) : result (ChildEnd * Z) := Ok (Exited true "0" output "", 40%Z).
Definition exporter_world (files : gmap string string) : World := MkWorld _ files ∅ 5000000 ∅.
Definition two_lines (a b : string) : string := "@" +:+ a +:+ nl +:+ "@" +:+ b +:+ nl.
Definition export_start (up : bool) (script : list (result (ChildEnd * Z))) : Export :=
  mk_export (exporter_world ∅) ([], up) script 5 [].
Definition kernel_cursor (x : Export) : option string := files (ex_world x) !! cursor_path "state" "work-os-kernel-exporter".
Definition round (runs : list WorkExporterRun) (x : Export) : Export :=
  (process_exporters runs "state" "agent" (log_seq_state.path_for "state") x).2.

(** A round that delivers moves the position to the last line; one whose sink is down keeps it. *)
Example position_follows_the_sink :
  let up := round [kernel_run] (export_start true [printed (two_lines "a" "b")]) in
  let down := round [kernel_run] (export_start false [printed (two_lines "a" "b")]) in
  kernel_cursor up = Some "b" ∧ tr_body <$> (ex_sink up).1 = ["@a"; "@b"] ∧ kernel_cursor down = None ∧ (ex_sink down).1 = [] ∧
  ex_seq up = 7%Z ∧ length (ex_attempts down) = 1.
Proof. by vm_compute. Qed.

Lemma cursor_follows_delivery_witness :
  let x := export_start true [printed (two_lines "a" "b")] in
  let x' := round [kernel_run] x in
  kernel_cursor x' = Some "b" ∧
  (∃ new, accepted (ex_sink x') = (accepted (ex_sink x) ++ new)%list) ∧
  explained "agent" [kernel_run] (accepted (ex_sink x)) (accepted (ex_sink x')) "work-os-kernel-exporter" (kernel_cursor x) (kernel_cursor x').
Proof.
  intros x x'. split; [by vm_compute|]. destruct (cursor_follows_delivery "state" "agent" [kernel_run] x) as [Hnew Hall].
  split; [exact Hnew|exact (Hall "work-os-kernel-exporter")].
Defined.

Lemma argv_is_closed_witness :
  let argv := kernel_argv ++ ["--after-cursor=s=1;i=9"] in
  ∃ prog words, argv = prog :: words ∧ prog ∈ exporter_programs ∧
    (Forall (λ w, w ∈ exporter_words) words ∨
     ∃ c words', Some " s=1;i=9" = Some c ∧ words = (words' ++ ["--after-cursor=" +:+ trim c])%list ∧ Forall (λ w, w ∈ exporter_words) words' ∧
       ("--since" ∉ words) ∧ all_chars is_ascii_graphic (trim c) = true ∧ 1 ≤ String.length (trim c) ≤ 512).
Proof. apply (argv_is_closed (λ _, true) "journalctl-kernel" None (Some " s=1;i=9")). by vm_compute. Defined.

(** A kernel run is due every minute, a unit run every five. *)
Definition toy_rounds : list (list WorkExporterRun * Z) :=
  [([kernel_run; unit_run], 3000%Z); ([kernel_run; unit_run], 60000%Z); ([kernel_run; unit_run], 300000%Z); ([unit_run], 0%Z)].
Lemma exporters_keep_their_period_witness :
  let x := export_start true (replicate 9 (printed (two_lines "a" "b"))) in
  (∀ key, spaced (times_of key (ex_attempts (export_rounds "state" "agent" toy_rounds x)))) ∧
  (λ a, (a.1, a.2.2)) <$> ex_attempts (export_rounds "state" "agent" toy_rounds x) =
    [("work-os-kernel-exporter", 5000000%Z); ("work-os-units-exporter", 5000000%Z); ("work-os-kernel-exporter", 5063080%Z);
     ("work-os-units-exporter", 5363120%Z)].
Proof.
  split; [|by vm_compute]. apply (exporters_keep_their_period "state" "agent" toy_rounds); [apply toy_fault_free|done].
Defined.

(** The records of a round are sent before their numbers are stored: when the agent dies in between, the
    next start takes the old number from disk, and two pairs of records go out under the same numbers. *)
Definition seq_path : string := log_seq_state.path_for "state".
Definition numbered_start : Export :=
  mk_export (log_seq_state.store_async seq_path 5 (exporter_world ∅)).2 ([], true) [printed (two_lines "a" "b"); printed (two_lines "c" "d")] 5 [].
Example numbers_are_reused_after_a_crash :
  let died := (process_runs "state" "agent" 5000000 [kernel_run] (mk_scan exporter_state_default false false) numbered_start).2 in
  let loaded := result_ok (log_seq_state.load_or_default_async seq_path (ex_world died)).1 in
  let restarted := mk_export (ex_world died) (ex_sink died) (ex_programs died) (default 0%Z loaded) [] in
  loaded = Some 5%Z ∧
  (λ r : toy_record, (tr_body r, r.1.2.2)) <$> (ex_sink (round [kernel_run] restarted)).1 = [("@a", 5%Z); ("@b", 6%Z); ("@c", 5%Z); ("@d", 6%Z)].
Proof. by vm_compute. Qed.

(** When the clock is set back, an exporter is not started until the clock has caught up with the last start. *)
Example set_back_clock_stops_exporter : is_due 60 (Some 5000000%Z) 0 = false ∧ is_due 60 (Some 5000000%Z) 5059999 = false ∧ is_due 60 (Some 5000000%Z) 5060000 = true.
Proof. by vm_compute. Qed.

(** A byte array with an escape, a byte that is no text, and a character cut short. *)
Example bytes_are_decoded :
  decode_dropping_invalid (String "C" (String "027" (String "255" (String "l" (String "195" (String "169" (String "226" (String "130" "")))))))) =
  String "C" (String "027" (String "l" (String "195" (String "169" "")))).
Proof. by vm_compute. Qed.
End ConcreteExporters.
