(* ===== verification/Metrics.v ===== *)
(** The metrics of a tick (telemetry/metrics/{runtime,samples,cpu}.rs, runtime/{host,process,container}.rs below it,
    and runtime/daemon_metrics.rs): the facts a target yields on Linux, the outcome of a kind, the snapshot,
    its samples and lines, and the tick that builds, stores or falls back to it.  sysinfo, floating point
    and the table of metrics (wist_metrics) are interfaces. *)
From stdpp Require Import pretty.
From S2P Require Import Prelude Host Text Fmt BTree Process Planner.

(** * Data of wist_metrics *)

Record MetricsLabeledFact := mk_labeled { lf_key : string; lf_value : string; lf_labels : list StringKeyValue }.
Record MetricsCollectionTargetSample := mk_target_sample {
  ts_candidate_id : string;
  ts_target_ref : string;
  ts_status : string;
  ts_last_error : option string;
  ts_resource_ref : string;
  ts_execution_hints : list StringKeyValue;
  ts_runtime_facts : list StringKeyValue;
  ts_labeled_facts : list MetricsLabeledFact;
}.
Record MetricsCollectionOutcome := mk_collection_outcome {
  mo_collection_kind : string;
  mo_status : string;
  mo_attempted_targets : nat;
  mo_succeeded_targets : nat;
  mo_failed_targets : nat;
  mo_dropped_targets : nat;
  mo_last_error : option string;
  mo_runtime_facts : list StringKeyValue;
  mo_labeled_facts : list MetricsLabeledFact;
  mo_sample_targets : list MetricsCollectionTargetSample;
}.
(** [wist_metrics::spec] *)
Record MetricSpec := mk_spec {
  sp_name : string;
  sp_value_type : string;
  sp_const_labels : list (string * string);
  sp_dynamic_labels : list string;
}.
Class MetricTable := { find_metric_spec : string → string → option MetricSpec }.

Record MetricsRuntimeSnapshot := mk_runtime_snapshot {
  rs_generated_at : string;
  rs_total_targets : nat;
  rs_host_targets : nat;
  rs_process_targets : nat;
  rs_container_targets : nat;
  rs_outcomes : list MetricsCollectionOutcome;
}.

(** [f64]: what is done with one. *)
Class Float64 := {
  f64 : Type;
  f64_of_u64 : Z → f64;
  f64_div : f64 → f64 → f64;
  f64_show : f64 → string;
  f64_fixed3 : f64 → string;
  f64_parse : string → option f64;
  f64_is_finite : f64 → bool;
}.

(** A disk as [sysinfo::Disks] lists it. *)
Record Disk := mk_disk {
  dk_mount_point : string;
  dk_name : string;
  dk_file_system : string;
  dk_total_space : Z;
  dk_available_space : Z;
}.
(** sysinfo, [/proc], [sysconf] and [statvfs]. *)
Class Kernel `{Os} `{Float64} := {
  load_average : World → f64 * f64 * f64;
  uptime : World → Z;
  total_memory : World → Z;
  available_memory : World → Z;
  total_swap : World → Z;
  free_swap : World → Z;
  disk_list : World → list Disk;
  proc_stat_text : World → option string;
  diskstats_text : World → option string;
  has_partition_file : string → World → bool;
  statvfs_inodes : string → World → option (Z * Z);
  CLK_TCK : f64;
  PAGESIZE : Z;
}.

(** * Facts *)

Definition push_fact_if_absent (candidate : StringKeyValue) (facts : list StringKeyValue) : list StringKeyValue :=
  if existsb (λ f, String.eqb (kv_key f) (kv_key candidate)) facts then facts else (facts ++ [candidate])%list.

(** [str::parse::<u32>] and [str::parse::<i64>]. *)
Definition parse_u32 (s : string) : option Z := match parse_u64 s with inr n => if Z.leb n u32_max then Some n else None | inl _ => None end.
Definition parse_i64 (s : string) : option Z :=
  match s with
  | String a rest =>
      if Ascii.eqb a "-" then
        match rest with
        | String b _ => if is_ascii_digit b then match parse_u64 rest with inr n => if Z.leb n (2 ^ 63) then Some (- n)%Z else None | inl _ => None end else None
        | EmptyString => None
        end
      else match parse_u64 s with inr n => if Z.leb n (2 ^ 63 - 1) then Some n else None | inl _ => None end
  | EmptyString => None
  end.

(** ** runtime/process.rs *)

Definition process_state_label (state : ascii) : string :=
  if Ascii.eqb state "R" then "running"
  else if Ascii.eqb state "S" then "sleeping"
  else if Ascii.eqb state "D" then "disk_sleep"
  else if Ascii.eqb state "T" || Ascii.eqb state "t" then "stopped"
  else if Ascii.eqb state "Z" then "zombie"
  else if Ascii.eqb state "X" || Ascii.eqb state "x" then "dead"
  else if Ascii.eqb state "I" then "idle"
  else "unknown".
Definition proc_tail (stat : string) : option string := snd <$> rsplit_once_str ") " stat.
Definition proc_state (stat : string) : option ascii :=
  match proc_tail stat with Some (String c _) => Some c | _ => None end.
Definition parse_linux_proc_rss_pages (stat : string) : option Z :=
  tail ← proc_tail stat;
  let fields := split_whitespace tail in
  if Nat.leb (length fields) 21 then None else f ← fields !! 21; parse_i64 f.
Definition as_u64 (s : string) : option Z := match parse_u64 s with inr n => Some n | inl _ => None end.
Definition parse_linux_proc_cpu_ticks (stat : string) : option (Z * Z) :=
  tail ← proc_tail stat;
  let fields := split_whitespace tail in
  utime ← fields !! 11 ≫= as_u64;
  stime ← fields !! 12 ≫= as_u64;
  Some (utime, stime).

Section Facts.
Context `{Kernel}.

Definition push_some {A} (o : option A) (f : A → StringKeyValue) (facts : list StringKeyValue) : list StringKeyValue :=
  match o with Some a => push_fact_if_absent (f a) facts | None => facts end.
Definition identity_hint (key : string) : bool :=
  existsb (String.eqb key) ["process.identity"; "discovery.identity_strength"; "discovery.identity_status"].
(** The Linux variant. *)
Definition collect_process_runtime_facts (pid : Z) (hints : list StringKeyValue) (w : World) : result (list StringKeyValue) :=
  let facts := push_fact_if_absent (mk_kv "process.pid" (pretty pid)) [] in
  let facts := foldl (λ facts hint, if identity_hint (kv_key hint) then push_fact_if_absent hint facts else facts) facts hints in
  match os_proc_stat pid (os w) with
  | Err err => Err err
  | Ok stat =>
      let facts := push_some (proc_state stat) (λ s, mk_kv "process.state" (process_state_label s)) facts in
      let facts := push_some (parse_linux_proc_rss_pages stat)
        (λ pages, mk_kv "process.memory.rss_bytes" (pretty (Z.max pages 0 * PAGESIZE)%Z)) facts in
      let facts := push_some (parse_linux_proc_cpu_ticks stat)
        (λ t, mk_kv "process.cpu.seconds" (f64_fixed3 (f64_div (f64_of_u64 (t.1 + t.2)) CLK_TCK))) facts in
      Ok facts
  end.

Definition hint_of (key : string) (hints : list StringKeyValue) : option string :=
  kv_value <$> find_first (λ h, String.eqb (kv_key h) key) hints.
(** A sample of a target before it is probed. *)
Definition new_sample (status : string) (target : MetricsTargetViewEntry) : MetricsCollectionTargetSample :=
  mk_target_sample (ve_candidate_id target) (ve_target_ref target) status None (ve_resource_ref target) (ve_execution_hints target) [] [].
Definition concluded (status : string) (last_error : option string) (facts : list StringKeyValue) (s : MetricsCollectionTargetSample) :
    MetricsCollectionTargetSample :=
  mk_target_sample (ts_candidate_id s) (ts_target_ref s) status last_error (ts_resource_ref s) (ts_execution_hints s) facts (ts_labeled_facts s).
Definition probe_process_target (w : World) (target : MetricsTargetViewEntry) : MetricsCollectionTargetSample :=
  let sample := new_sample "failed" target in
  match hint_of "process.pid" (ve_execution_hints target) ≫= parse_u32 with
  | None => concluded "failed" (Some "process.pid execution hint missing") [] sample
  | Some pid =>
      match collect_process_runtime_facts pid (ts_execution_hints sample) w with
      | Ok facts => concluded "succeeded" None facts sample
      | Err err => concluded "failed" (Some (io_msg err)) [] sample
      end
  end.

(** ** runtime/container.rs *)

Definition container_hint (key : string) : bool :=
  existsb (String.eqb key) ["container.runtime"; "container.runtime.namespace"; "cgroup.path"; "k8s.namespace.name"; "k8s.pod.uid"; "k8s.pod.name";
    "k8s.container.name"].
Definition probe_container_target (w : World) (target : MetricsTargetViewEntry) : MetricsCollectionTargetSample :=
  let sample := new_sample "failed" target in
  let facts := foldl (λ facts hint, if container_hint (kv_key hint) then push_fact_if_absent hint facts else facts) [] (ts_execution_hints sample) in
  let '(facts, process_probe_error) :=
    match hint_of "pid" (ts_execution_hints sample) ≫= parse_u32 with
    | None => (facts, None)
    | Some pid =>
        match collect_process_runtime_facts pid [] w with
        | Ok process_facts =>
            let facts := push_fact_if_absent (mk_kv "container.pid" (pretty pid)) facts in
            (foldl (λ facts fact, if String.eqb (kv_key fact) "process.pid" then facts else push_fact_if_absent fact facts) facts process_facts, None)
        | Err err => (facts, Some (io_msg err))
        end
    end in
  match facts with
  | [] =>
      concluded "failed" (Some (default "container metrics probe produced no runtime facts" process_probe_error)) [] sample
  | _ => concluded (if is_some process_probe_error then "partial" else "succeeded") process_probe_error facts sample
  end.
End Facts.

(** ** cpu.rs *)

Record CpuTime `{Float64} := mk_cpu_time { ct_cpu : string; ct_mode : string; ct_seconds : f64 }.
Arguments mk_cpu_time {_} _ _ _.
Definition LINUX_MODES : list string := ["user"; "nice"; "system"; "idle"; "iowait"; "irq"; "softirq"; "steal"].

Section Host.
Context `{Kernel}.

(** One line of [/proc/stat]: a core's ticks in each mode, or nothing. *)
Definition cpu_line (line : string) : option (string * list Z) :=
  rest ← strip_prefix "cpu" line;
  match rest with
  | EmptyString => None
  | String first _ =>
      if negb (is_ascii_digit first) then None
      else
        match split_whitespace rest with
        | [] => None
        | id :: parts =>
            if negb (all_chars is_ascii_digit id) then None
            else
              let values := omap as_u64 (take (length LINUX_MODES) parts) in
              if Nat.ltb (length values) (length LINUX_MODES) then None else Some (id, values)
        end
  end.
Definition parse_proc_stat (text : string) (hz : f64) : list CpuTime :=
  mjoin ((λ '(id, values), (λ '(mode, jiffies), mk_cpu_time id mode (f64_div (f64_of_u64 jiffies) hz)) <$> zip LINUX_MODES values)
    <$> omap cpu_line (Fmt.lines text)).
Definition host_cpu_times (w : World) : list CpuTime :=
  match proc_stat_text w with Some text => parse_proc_stat text CLK_TCK | None => [] end.

(** ** runtime/host.rs *)

Definition EXCLUDED_FILESYSTEMS : list string :=
  ["proc"; "sysfs"; "devtmpfs"; "devpts"; "tmpfs"; "cgroup"; "cgroup2"; "pstore"; "securityfs"; "debugfs"; "tracefs"; "hugetlbfs"; "mqueue";
   "configfs"; "fusectl"; "binfmt_misc"; "rpc_pipefs"; "nsfs"; "efivarfs"; "ramfs"; "rootfs"; "overlay"; "aufs"; "squashfs"; "iso9660"; "nfs";
   "nfs4"; "cifs"; "smb3"; "ceph"; "glusterfs"; "lustre"; "beegfs"; "gpfs"; "orangefs"; "pvfs2"; "afs"; "ncpfs"; "coda"; "davfs"; "shfs"; "9p";
   "virtiofs"; "autofs"; "devfs"; "map"; "smbfs"; "webdav"; "afpfs"].
Definition is_excluded_filesystem (file_system : string) : bool :=
  existsb (String.eqb file_system) EXCLUDED_FILESYSTEMS || starts_with "fuse" file_system.
Definition at_or_below (dir mount : string) : bool := String.eqb mount dir || starts_with (dir +:+ "/") mount.
Definition is_linux_filesystem_mount_point (mount file_system : string) (total_space : Z) : bool :=
  if Z.eqb total_space 0 then false
  else if at_or_below "/boot" mount then false
  else if at_or_below "/run" mount || at_or_below "/sys" mount || at_or_below "/proc" mount || at_or_below "/dev" mount then false
  else negb (is_excluded_filesystem file_system).
Definition is_linux_data_mount_point (mount file_system : string) (total_space : Z) : bool :=
  if Z.eqb total_space 0 || String.eqb mount "/" then false
  else if at_or_below "/boot" mount then false
  else if at_or_below "/run" mount || at_or_below "/sys" mount || at_or_below "/proc" mount || at_or_below "/dev" mount then false
  else negb (is_excluded_filesystem file_system).

Definition usage_ratio_of (total available : Z) : f64 :=
  if Z.eqb total 0 then f64_of_u64 0 else f64_div (f64_of_u64 (total - available)) (f64_of_u64 total).
Definition push_disk_capacity_facts (role : string) (total available : Z) (facts : list StringKeyValue) : list StringKeyValue :=
  let available := Z.min available total in
  push_fact_if_absent (mk_kv ("host.disk." +:+ role +:+ ".available_bytes") (pretty available))
    (push_fact_if_absent (mk_kv ("host.disk." +:+ role +:+ ".total_bytes") (pretty total))
      (push_fact_if_absent (mk_kv ("host.disk." +:+ role +:+ ".usage_ratio") (f64_show (usage_ratio_of total available))) facts)).

(** What the data disks add up to: the devices counted, and the sums. *)
Record DataDisks := mk_data_disks { dd_seen : list string; dd_total : Z; dd_available : Z; dd_mounts : nat }.
Definition saturating_add64 (a b : Z) : Z := Z.min (a + b) u64_max.
Definition device_key (d : Disk) : string := if String.eqb (dk_name d) "" then "mount:" +:+ dk_mount_point d else dk_name d.
Definition add_data_disk (acc : DataDisks) (d : Disk) : DataDisks :=
  if negb (is_linux_data_mount_point (dk_mount_point d) (dk_file_system d) (dk_total_space d)) then acc
  else if existsb (String.eqb (device_key d)) (dd_seen acc) then acc
  else mk_data_disks (dd_seen acc ++ [device_key d]) (saturating_add64 (dd_total acc) (dk_total_space d))
         (saturating_add64 (dd_available acc) (dk_available_space d)) (S (dd_mounts acc)).
Definition collect_linux_disk_usage (disks : list Disk) (facts : list StringKeyValue) : list StringKeyValue :=
  match find_first (λ d, String.eqb (dk_mount_point d) "/") disks with
  | None => facts
  | Some root =>
      let facts := push_disk_capacity_facts "system" (dk_total_space root) (dk_available_space root) facts in
      let seen := if String.eqb (dk_name root) "" then [] else [dk_name root] in
      let acc := foldl add_data_disk (mk_data_disks seen 0 0 0) disks in
      if Nat.ltb 0 (dd_mounts acc) then
        push_fact_if_absent (mk_kv "host.disk.data.mounts" (pretty (dd_mounts acc)))
          (push_disk_capacity_facts "data" (dd_total acc) (dd_available acc) facts)
      else facts
  end.

Record LocalFilesystem := mk_local_filesystem { fs_mount : string; fs_device : string; fs_type : string; fs_total : Z; fs_available : Z }.
Definition local_filesystem (d : Disk) : LocalFilesystem :=
  mk_local_filesystem (dk_mount_point d) (dk_name d) (dk_file_system d) (dk_total_space d) (dk_available_space d).
Definition filesystem_dedupe_key (device mount : string) : string := if String.eqb device "" then "mount:" +:+ mount else device.
Definition is_local_filesystem_mount (d : Disk) : bool := is_linux_filesystem_mount_point (dk_mount_point d) (dk_file_system d) (dk_total_space d).
(** One disk of either loop: the keys seen and the file systems found. *)
Definition add_filesystem (acc : list string * list LocalFilesystem) (d : Disk) : list string * list LocalFilesystem :=
  if negb (is_local_filesystem_mount d) then acc
  else
    let key := filesystem_dedupe_key (dk_name d) (dk_mount_point d) in
    if existsb (String.eqb key) acc.1 then acc else ((acc.1 ++ [key])%list, (acc.2 ++ [local_filesystem d])%list).
(** The Linux variant: the root first. *)
Definition local_filesystems (disks : list Disk) : list LocalFilesystem :=
  let acc := match find_first (λ d, String.eqb (dk_mount_point d) "/") disks with Some root => add_filesystem ([], []) root | None => ([], []) end in
  (foldl add_filesystem acc disks).2.

Definition filesystem_facts (w : World) (mount file_system : string) (total available : Z) : list MetricsLabeledFact :=
  let available := Z.min available total in
  let labels := mk_kv "mountpoint" mount :: (if String.eqb file_system "" then [] else [mk_kv "fstype" file_system]) in
  ([mk_labeled "host.filesystem.usage_ratio" (f64_show (usage_ratio_of total available)) labels;
    mk_labeled "host.filesystem.total_bytes" (pretty total) labels;
    mk_labeled "host.filesystem.available_bytes" (pretty available) labels] ++
   match statvfs_inodes mount w with
   | Some (inodes, inodes_free) =>
       [mk_labeled "host.filesystem.inodes" (pretty inodes) labels; mk_labeled "host.filesystem.inodes_free" (pretty inodes_free) labels]
   | None => []
   end)%list.
Definition collect_host_filesystem_usage (w : World) (disks : list Disk) : list MetricsLabeledFact :=
  mjoin ((λ f, filesystem_facts w (fs_mount f) (fs_type f) (fs_total f) (fs_available f)) <$> local_filesystems disks).

Record DiskIoStat := mk_disk_io { io_device : string; io_reads : Z; io_read_bytes : Z; io_writes : Z; io_written_bytes : Z; io_seconds : f64 }.
Definition diskstat_line (line : string) : option DiskIoStat :=
  let fields := split_whitespace line in
  if Nat.ltb (length fields) 13 then None
  else
    let device := default "" (fields !! 2) in
    if starts_with "loop" device || starts_with "ram" device then None
    else
      let number i := default 0%Z (fields !! i ≫= as_u64) in
      let bytes n := Z.min (n * 512) u64_max in
      Some (mk_disk_io device (number 3) (bytes (number 5)) (number 7) (bytes (number 9)) (f64_div (f64_of_u64 (number 12)) (f64_of_u64 1000))).
Definition parse_diskstats (text : string) : list DiskIoStat := omap diskstat_line (Fmt.lines text).
Definition disk_io_facts (s : DiskIoStat) : list MetricsLabeledFact :=
  (λ '(key, value), mk_labeled key value [mk_kv "device" (io_device s)]) <$>
    [("host.disk.read_bytes", pretty (io_read_bytes s)); ("host.disk.written_bytes", pretty (io_written_bytes s)); ("host.disk.reads", pretty (io_reads s));
     ("host.disk.writes", pretty (io_writes s)); ("host.disk.io_time_seconds", f64_fixed3 (io_seconds s))].
Definition collect_disk_io (w : World) : list MetricsLabeledFact :=
  match diskstats_text w with
  | Some text => mjoin (disk_io_facts <$> List.filter (λ s, negb (has_partition_file (io_device s) w)) (parse_diskstats text))
  | None => []
  end.

Definition memory_usage_ratio (total available : Z) : option f64 :=
  if Z.eqb total 0 then None else Some (f64_div (f64_of_u64 (total - Z.min available total)) (f64_of_u64 total)).

Definition push_kv (key value : string) (facts : list StringKeyValue) : list StringKeyValue := push_fact_if_absent (mk_kv key value) facts.
Definition collect_host_runtime_facts (w : World) : list StringKeyValue * list MetricsLabeledFact :=
  let cpu := (λ t, mk_labeled "host.cpu.seconds" (f64_fixed3 (ct_seconds t)) [mk_kv "cpu" (ct_cpu t); mk_kv "mode" (ct_mode t)]) <$> host_cpu_times w in
  let '(one, five, fifteen) := load_average w in
  let facts := push_kv "host.loadavg.15m" (f64_show fifteen) (push_kv "host.loadavg.5m" (f64_show five) (push_kv "host.loadavg.1m" (f64_show one) [])) in
  let facts := push_kv "host.uptime.seconds" (pretty (uptime w)) facts in
  let facts := push_kv "host.memory.total_bytes" (pretty (total_memory w)) facts in
  let facts := push_kv "host.memory.available_bytes" (pretty (available_memory w)) facts in
  let facts := push_some (memory_usage_ratio (total_memory w) (available_memory w)) (λ r, mk_kv "host.memory.usage_ratio" (f64_show r)) facts in
  let facts := if Z.ltb 0 (total_swap w) then
      push_kv "host.memory.swap_free_bytes" (pretty (free_swap w)) (push_kv "host.memory.swap_total_bytes" (pretty (total_swap w)) facts)
    else facts in
  let disks := disk_list w in
  (collect_linux_disk_usage disks facts, cpu ++ collect_host_filesystem_usage w disks ++ collect_disk_io w)%list.
End Host.

(** * runtime.rs *)

Definition SAMPLE_LIMIT : nat := 3.

Section Outcomes.
Context `{Kernel}.

Definition maybe_push_sample (samples : list MetricsCollectionTargetSample) (target : MetricsTargetViewEntry) : list MetricsCollectionTargetSample :=
  if Nat.leb SAMPLE_LIMIT (length samples) then samples else (samples ++ [new_sample "pending" target])%list.

Definition idle_outcome (kind : string) (samples : list MetricsCollectionTargetSample) : MetricsCollectionOutcome :=
  mk_collection_outcome kind "idle" 0 0 0 0 None [] [] samples.

Definition no_host_facts : string := "host metrics probe produced no runtime facts".
Definition build_host_outcome (w : World) (attempted_targets : nat) (sample_targets : list MetricsCollectionTargetSample) : MetricsCollectionOutcome :=
  if Nat.eqb attempted_targets 0 then idle_outcome "host_metrics" sample_targets
  else
    let '(runtime_facts, labeled_facts) := collect_host_runtime_facts w in
    match runtime_facts, labeled_facts with
    | [], [] =>
        let fail s := mk_target_sample (ts_candidate_id s) (ts_target_ref s) "failed" (Some no_host_facts) (ts_resource_ref s)
          (ts_execution_hints s) (ts_runtime_facts s) (ts_labeled_facts s) in
        mk_collection_outcome "host_metrics" "failed" attempted_targets 0 attempted_targets 0 (Some no_host_facts) [] [] (fail <$> sample_targets)
    | _, _ =>
        let succeed index s :=
          mk_target_sample (ts_candidate_id s) (ts_target_ref s) "succeeded" (ts_last_error s) (ts_resource_ref s) (ts_execution_hints s)
            (if Nat.eqb index 0 then runtime_facts else ts_runtime_facts s) (if Nat.eqb index 0 then labeled_facts else ts_labeled_facts s) in
        mk_collection_outcome "host_metrics" "succeeded" attempted_targets attempted_targets 0 (attempted_targets - length sample_targets) None
          runtime_facts labeled_facts (imap succeed sample_targets)
    end.

(** The counts of the loop over process or container targets. *)
Record Tally := mk_tally {
  ta_succeeded : nat;
  ta_failed : nat;
  ta_dropped : nat;
  ta_samples : list MetricsCollectionTargetSample;
  ta_last_error : option string;
}.
Definition tally_start : Tally := mk_tally 0 0 0 [] None.
Definition tally_one (failed : MetricsCollectionTargetSample → bool) (t : Tally) (probed : MetricsCollectionTargetSample) : Tally :=
  let '(succeeded, failures, last_error) :=
    if failed probed then (ta_succeeded t, S (ta_failed t), match ta_last_error t with None => ts_last_error probed | e => e end)
    else (S (ta_succeeded t), ta_failed t, ta_last_error t) in
  if Nat.ltb (length (ta_samples t)) SAMPLE_LIMIT then mk_tally succeeded failures (ta_dropped t) (ta_samples t ++ [probed]) last_error
  else mk_tally succeeded failures (S (ta_dropped t)) (ta_samples t) last_error.
Definition tally_status (t : Tally) : string :=
  if Nat.eqb (ta_failed t) 0 then "succeeded" else if Nat.eqb (ta_succeeded t) 0 then "failed" else "partial".

Definition process_failed (s : MetricsCollectionTargetSample) : bool := negb (String.eqb (ts_status s) "succeeded").
Definition process_probe_mode : string := "procfs".
Definition build_process_outcome (w : World) (targets : list MetricsTargetViewEntry) : MetricsCollectionOutcome :=
  match targets with
  | [] => idle_outcome "process_metrics" []
  | _ =>
      let t := foldl (tally_one process_failed) tally_start (probe_process_target w <$> targets) in
      mk_collection_outcome "process_metrics" (tally_status t) (length targets) (ta_succeeded t) (ta_failed t) (ta_dropped t) (ta_last_error t)
        [mk_kv "process.probe.mode" process_probe_mode; mk_kv "process.probe.success_count" (pretty (ta_succeeded t));
         mk_kv "process.probe.failed_count" (pretty (ta_failed t))] [] (ta_samples t)
  end.
Definition container_failed (s : MetricsCollectionTargetSample) : bool := String.eqb (ts_status s) "failed".
Definition container_probe_mode : string := "discovery_hints".
Definition build_container_outcome (w : World) (targets : list MetricsTargetViewEntry) : MetricsCollectionOutcome :=
  match targets with
  | [] => idle_outcome "container_metrics" []
  | _ =>
      let t := foldl (tally_one container_failed) tally_start (probe_container_target w <$> targets) in
      mk_collection_outcome "container_metrics" (tally_status t) (length targets) (ta_succeeded t) (ta_failed t) (ta_dropped t) (ta_last_error t)
        [mk_kv "container.probe.mode" container_probe_mode; mk_kv "container.probe.success_count" (pretty (ta_succeeded t));
         mk_kv "container.probe.failed_count" (pretty (ta_failed t))] [] (ta_samples t)
  end.

(** [providers]: the kind of each and how it collects. *)
Definition providers (w : World) : list (string * (list MetricsTargetViewEntry → MetricsCollectionOutcome)) :=
  [("host_metrics", λ targets, build_host_outcome w (length targets) (foldl maybe_push_sample [] targets));
   ("process_metrics", build_process_outcome w);
   ("container_metrics", build_container_outcome w)].

Definition of_collection (kind : string) (targets : list MetricsTargetViewEntry) : list MetricsTargetViewEntry :=
  List.filter (λ t, String.eqb (ve_collection_kind t) kind) targets.
Definition build_runtime_snapshot_from_view (view : MetricsTargetView) (generated_at : string) (w : World) : MetricsRuntimeSnapshot :=
  let count kind := length (of_collection kind (tv_targets view)) in
  mk_runtime_snapshot generated_at (count "host_metrics" + count "process_metrics" + count "container_metrics")
    (count "host_metrics") (count "process_metrics") (count "container_metrics")
    ((λ p, p.2 (of_collection p.1 (tv_targets view))) <$> providers w).
End Outcomes.
Definition metrics_runtime_path_for (state_dir : string) : string := path_join (path_join state_dir "telemetry") "metrics_runtime_snapshot.json".

(** * samples.rs *)

(** A [serde_json] number that came from an integer or from a float. *)
Inductive SampleValue `{Float64} := IntValue (n : Z) | RealValue (x : f64).
Record MetricsSampleRecord `{Float64} := mk_sample_record {
  sr_name : string;
  sr_value : SampleValue;
  sr_value_type : string;
  sr_const_labels : list StringKeyValue;
  sr_labels : list StringKeyValue;
}.
Record MetricsSampleGroup `{Float64} := mk_sample_group { sg_instance : string; sg_samples : list MetricsSampleRecord }.
Record MetricsSamplesSnapshot `{Float64} := mk_samples_snapshot { ss_batch_seq : Z; ss_collected_at : string; ss_groups : list MetricsSampleGroup }.
Record VmMetricLabels := mk_vm_labels {
  vm_name : string;
  vm_agent : string;
  vm_instance : string;
  vm_disk_role : option string;
  vm_mountpoint : option string;
  vm_fstype : option string;
  vm_device : option string;
  vm_cpu : option string;
  vm_mode : option string;
  vm_state : option string;
  vm_target_kind : option string;
  vm_outcome : option string;
  vm_selection : btree string;
}.
Record VmMetricLine `{Float64} := mk_vm_line { vl_metric : VmMetricLabels; vl_values : list f64; vl_timestamps : list Z }.
(** self_obs.rs: the readings of the agent itself. *)
Record SelfObservation `{Float64} := mk_self_observation {
  so_cpu_ratio : option f64;
  so_cpu_cores : option Z;
  so_memory_bytes : option Z;
  so_admin_latency_seconds : option f64;
  so_discovery_policy_version : option Z;
  so_uplink_metrics_failed_total : Z;
}.

Arguments IntValue {_} _. Arguments RealValue {_} _. Arguments mk_sample_record {_} _ _ _ _ _. Arguments mk_sample_group {_} _ _.
Arguments mk_samples_snapshot {_} _ _ _. Arguments mk_vm_line {_} _ _ _. Arguments mk_self_observation {_} _ _ _ _ _ _.

Section Samples.
Context `{Host} `{Float64} `{MetricTable}.

Definition label_value (labels : list StringKeyValue) (key : string) : option string :=
  kv_value <$> find_first (λ l, String.eqb (kv_key l) key) labels.
Definition as_f64 (v : SampleValue) : f64 := match v with IntValue n => f64_of_u64 n | RealValue x => x end.
Definition timestamp_ms (collected_at : string) : option Z := parse_rfc3339 collected_at.
Definition is_numeric_sample (value_type : string) : bool :=
  existsb (String.eqb value_type) ["gauge_i64"; "counter_i64"; "gauge_f64"; "counter_f64"].

Definition metric_line (agent_id instance : string) (selection : btree string) (timestamp : Z) (s : MetricsSampleRecord) : VmMetricLine :=
  let label := label_value (sr_labels s) in
  mk_vm_line (mk_vm_labels (sr_name s) agent_id instance (label_value (sr_const_labels s) "disk_role") (label "mountpoint") (label "fstype") (label "device")
    (label "cpu") (label "mode") (label "state") (label "target_kind") (label "outcome") selection) [as_f64 (sr_value s)] [timestamp].
Definition build_vm_metric_lines_with (snapshot : MetricsSamplesSnapshot) (agent_id : string) (selection : btree string) (now_ms : Z) : list VmMetricLine :=
  let timestamp := default now_ms (timestamp_ms (ss_collected_at snapshot)) in
  mjoin ((λ group, metric_line agent_id (sg_instance group) selection timestamp <$>
    List.filter (λ s, is_numeric_sample (sr_value_type s)) (sg_samples group)) <$> ss_groups snapshot).

(** [normalize_state]: the closed set of states. *)
Definition STATES : list string := ["running"; "sleeping"; "disk_sleep"; "stopped"; "zombie"; "dead"; "idle"; "unknown"].
Definition normalize_state (raw : string) : string := if existsb (String.eqb raw) STATES then raw else "unknown".
Definition sample_value (value_type raw : string) : option SampleValue :=
  if existsb (String.eqb value_type) ["gauge_i64"; "counter_i64"] then IntValue <$> parse_i64 raw
  else if existsb (String.eqb value_type) ["gauge_f64"; "counter_f64"] then
    v ← f64_parse raw; if f64_is_finite v then Some (RealValue v) else None
  else None.

(** [push_metric_sample]: the sample of a fact, if it is in the table and its value is a number of the type. *)
Definition metric_sample (collection_kind fact_key raw_value : string) (fact_labels : list StringKeyValue) : option MetricsSampleRecord :=
  spec ← find_metric_spec collection_kind fact_key;
  let const_labels := kv_of <$> sp_const_labels spec in
  if existsb (String.eqb "state") (sp_dynamic_labels spec) then
    Some (mk_sample_record (sp_name spec) (IntValue 1) (sp_value_type spec) const_labels [mk_kv "state" (normalize_state raw_value)])
  else
    value ← sample_value (sp_value_type spec) raw_value;
    Some (mk_sample_record (sp_name spec) value (sp_value_type spec) const_labels
      (omap (λ key, mk_kv key <$> label_value fact_labels key) (sp_dynamic_labels spec))).

Definition stable_instance (collection_kind : string) (target : MetricsCollectionTargetSample) : string :=
  if negb (String.eqb collection_kind "process_metrics") then ts_resource_ref target
  else
    let host := default (ts_resource_ref target) (head (split_on ":" (ts_resource_ref target))) in
    host +:+ ":proc:" +:+ default (ts_resource_ref target) (label_value (ts_execution_hints target) "process.identity").

(** [build_outcome_groups], for one target. *)
Definition target_group (kind : string) (target : MetricsCollectionTargetSample) : option MetricsSampleGroup :=
  if String.eqb (ts_status target) "failed" then None
  else
    let samples := (omap (λ fact, metric_sample kind (kv_key fact) (kv_value fact) []) (ts_runtime_facts target) ++
      omap (λ fact, metric_sample kind (lf_key fact) (lf_value fact) (lf_labels fact)) (ts_labeled_facts target))%list in
    match samples with [] => None | _ => Some (mk_sample_group (stable_instance kind target) samples) end.
Definition build_outcome_groups (outcome : MetricsCollectionOutcome) : list MetricsSampleGroup :=
  omap (target_group (mo_collection_kind outcome)) (mo_sample_targets outcome).

Definition target_kind_of (collection_kind : string) : option string :=
  if String.eqb collection_kind "host_metrics" then Some "host"
  else if String.eqb collection_kind "process_metrics" then Some "process"
  else if String.eqb collection_kind "container_metrics" then Some "container" else None.
Definition collect_targets_of (outcome : MetricsCollectionOutcome) : list MetricsSampleRecord :=
  match target_kind_of (mo_collection_kind outcome) with
  | None => []
  | Some kind =>
      omap (λ '(result, count), if Nat.eqb count 0 then None
        else Some (mk_sample_record "agent_collect_targets" (IntValue (Z.of_nat count)) "gauge_i64" [] [mk_kv "target_kind" kind; mk_kv "outcome" result]))
        [("succeeded", mo_succeeded_targets outcome); ("failed", mo_failed_targets outcome); ("dropped", mo_dropped_targets outcome)]
  end.
Definition build_collect_target_samples (runtime : MetricsRuntimeSnapshot) : list MetricsSampleRecord := mjoin (collect_targets_of <$> rs_outcomes runtime).

Definition own_sample (name value_type : string) (value : SampleValue) : MetricsSampleRecord := mk_sample_record name value value_type [] [].
(** [Number::from_f64] takes finite numbers only. *)
Definition finite (x : option f64) : option SampleValue := v ← x; if f64_is_finite v then Some (RealValue v) else None.
Definition build_self_observation_samples (obs : SelfObservation) : list MetricsSampleRecord :=
  (option_list (own_sample "agent_memory_bytes" "gauge_i64" <$> (IntValue <$> so_memory_bytes obs)) ++
   option_list (own_sample "agent_cpu_cores" "gauge_i64" <$> (IntValue <$> so_cpu_cores obs)) ++
   option_list (own_sample "agent_cpu_ratio" "gauge_f64" <$> finite (so_cpu_ratio obs)) ++
   option_list (own_sample "agent_admin_latency_seconds" "gauge_f64" <$> finite (so_admin_latency_seconds obs)) ++
   option_list (own_sample "agent_discovery_policy_version" "gauge_i64" <$> (IntValue <$> so_discovery_policy_version obs)) ++
   [own_sample "agent_uplink_metrics_failed_total" "counter_i64" (IntValue (so_uplink_metrics_failed_total obs))])%list.

Definition build_agent_group (runtime : MetricsRuntimeSnapshot) (obs : SelfObservation) : option MetricsSampleGroup :=
  match (build_collect_target_samples runtime ++ build_self_observation_samples obs)%list with
  | [] => None
  | samples => Some (mk_sample_group "" samples)
  end.
Definition build_samples_snapshot (batch_seq : Z) (runtime : MetricsRuntimeSnapshot) (obs : SelfObservation) : MetricsSamplesSnapshot :=
  mk_samples_snapshot batch_seq (rs_generated_at runtime)
    (mjoin (build_outcome_groups <$> rs_outcomes runtime) ++ option_list (build_agent_group runtime obs))%list.
End Samples.

(** * runtime/daemon_metrics.rs *)

Inductive MetricsFailureKind := TargetViewLoad | RuntimeSnapshotLoad | RuntimeSnapshotStore.
Record MetricsFailure := mk_metrics_failure { mf_kind : MetricsFailureKind; mf_phase : string; mf_path : string; mf_detail : string }.
Record MetricsTick := mk_metrics_tick {
  mt_snapshot : option MetricsRuntimeSnapshot;
  mt_failures : list MetricsFailure;
  mt_target_view_loaded : bool;
  mt_used_cached_snapshot : bool;
}.
Record MetricsHealthSnapshot := mk_metrics_health {
  mh_target_view_loaded : bool;
  mh_used_cached_snapshot : bool;
  mh_total_targets : nat;
  mh_host_targets : nat;
  mh_process_targets : nat;
  mh_container_targets : nat;
  mh_attempted_targets : nat;
  mh_succeeded_targets : nat;
  mh_failed_targets : nat;
  mh_failure_count : nat;
  mh_last_error : option string;
  mh_updated_at : option string;
}.

Definition metrics_is_active (t : MetricsTick) : bool := match mt_failures t with [] => false | _ => true end.
Definition total_of (f : MetricsCollectionOutcome → nat) (s : MetricsRuntimeSnapshot) : nat := sum_list_with f (rs_outcomes s).
Definition health_snapshot (t : MetricsTick) : MetricsHealthSnapshot :=
  let among f := match mt_snapshot t with Some s => f s | None => 0 end in
  mk_metrics_health (mt_target_view_loaded t) (mt_used_cached_snapshot t) (among rs_total_targets) (among rs_host_targets) (among rs_process_targets)
    (among rs_container_targets) (among (total_of mo_attempted_targets)) (among (total_of mo_succeeded_targets)) (among (total_of mo_failed_targets))
    (length (mt_failures t)) ((λ f, mf_phase f +:+ ": " +:+ mf_detail f) <$> last (mt_failures t)) (rs_generated_at <$> mt_snapshot t).

Definition kind_text (k : MetricsFailureKind) : string :=
  match k with TargetViewLoad => "TargetViewLoad" | RuntimeSnapshotLoad => "RuntimeSnapshotLoad" | RuntimeSnapshotStore => "RuntimeSnapshotStore" end.
Definition failure_signature (f : MetricsFailure) : string :=
  kind_text (mf_kind f) +:+ "|" +:+ mf_phase f +:+ "|" +:+ mf_path f +:+ "|" +:+ mf_detail f.
Definition failure_signatures (failures : list MetricsFailure) : gset string := list_to_set (failure_signature <$> failures).
Definition filter_new_failures (failures : list MetricsFailure) (previous : gset string) : list MetricsFailure :=
  filter (λ f, failure_signature f ∉ previous) failures.

Section MetricsTickSteps.
Context `{SharedFs} `{!Float64} `{!Kernel} `{!Json MetricsTargetView} `{!Json MetricsRuntimeSnapshot}.

Definition metrics_failure (kind : MetricsFailureKind) (phase path : string) (err : IoError) : MetricsFailure :=
  mk_metrics_failure kind phase path (io_msg err).
Definition load_cached_runtime_snapshot (path : string) : M World (option MetricsRuntimeSnapshot * list MetricsFailure) :=
  there ← path_exists path;
  if negb there then mret (None, [])
  else
    r ← try (shared_read_json path);
    mret (match r with
          | Ok snapshot => (Some snapshot, [])
          | Err err => (None, [metrics_failure RuntimeSnapshotLoad "runtime_snapshot_load" path err])
          end).
Definition process_metrics_tick (state_dir : string) : M World MetricsTick :=
  let target_view_path := view_path_for state_dir in
  let runtime_snapshot_path := metrics_runtime_path_for state_dir in
  r ← try (shared_read_json target_view_path);
  match r with
  | Ok view =>
      now ← now_rfc3339;
      w ← gets (λ w, w);
      let snapshot := build_runtime_snapshot_from_view view now w in
      stored ← try (shared_write_json_atomic runtime_snapshot_path snapshot);
      mret (mk_metrics_tick (Some snapshot)
        (match stored with Ok _ => [] | Err err => [metrics_failure RuntimeSnapshotStore "runtime_snapshot_store" runtime_snapshot_path err] end) true false)
  | Err err =>
      '(cached, failures) ← load_cached_runtime_snapshot runtime_snapshot_path;
      mret (mk_metrics_tick cached (metrics_failure TargetViewLoad "target_view_load" target_view_path err :: failures) false (is_some cached))
  end.
End MetricsTickSteps.

(** * What an outcome accounts for *)

Section Accounting.
Context `{Kernel}.
Implicit Types (w : World) (targets : list MetricsTargetViewEntry).

Lemma tally_run failed probed t :
  let t' := foldl (tally_one failed) t probed in
  ta_succeeded t' = ta_succeeded t + length (List.filter (λ s, negb (failed s)) probed) ∧
  ta_failed t' = ta_failed t + length (List.filter failed probed) ∧
  ta_samples t' = (ta_samples t ++ take (SAMPLE_LIMIT - length (ta_samples t)) probed)%list ∧
  ta_dropped t' = ta_dropped t + (length probed - (SAMPLE_LIMIT - length (ta_samples t))).
Proof.
  cbv zeta. revert t. induction probed as [|p probed IH]; intros t.
  { cbn. rewrite take_nil, (right_id_L [] (++)%list). split_and!; [lia|lia|done|lia]. }
  cbn [foldl List.filter length]. destruct (IH (tally_one failed t p)) as (-> & -> & -> & ->). unfold tally_one.
  assert (Hs : ∀ n m e, (if Nat.ltb (length (ta_samples t)) SAMPLE_LIMIT then mk_tally n m (ta_dropped t) (ta_samples t ++ [p]) e
      else mk_tally n m (S (ta_dropped t)) (ta_samples t) e) =
    mk_tally n m (if Nat.ltb (length (ta_samples t)) SAMPLE_LIMIT then ta_dropped t else S (ta_dropped t))
      (if Nat.ltb (length (ta_samples t)) SAMPLE_LIMIT then ta_samples t ++ [p] else ta_samples t)%list e) by (intros; by destruct (Nat.ltb _ _)).
  destruct (failed p); rewrite Hs; cbn [ta_succeeded ta_failed ta_samples ta_dropped negb length]; destruct (Nat.ltb_spec (length (ta_samples t)) SAMPLE_LIMIT) as [Hl|Hl].
  1,3: rewrite length_app; cbn [length]; replace (SAMPLE_LIMIT - length (ta_samples t)) with (S (SAMPLE_LIMIT - (length (ta_samples t) + 1))) by lia;
    cbn [take]; rewrite <- (assoc_L (++)%list); cbn [app]; split_and!; [lia|lia|done|lia].
  all: replace (SAMPLE_LIMIT - length (ta_samples t)) with 0 by lia; cbn [take]; split_and!; [lia|lia|done|lia].
Qed.

Lemma filter_complement {A} (f : A → bool) (l : list A) : length (List.filter (λ x, negb (f x)) l) + length (List.filter f l) = length l.
Proof. induction l as [|x l IH]; [done|]. cbn. destruct (f x); cbn; lia. Qed.

Lemma maybe_push_samples targets samples : length samples ≤ SAMPLE_LIMIT →
  foldl maybe_push_sample samples targets = (samples ++ (new_sample "pending" <$> take (SAMPLE_LIMIT - length samples) targets))%list.
Proof.
  revert samples. induction targets as [|t targets IH]; intros samples Hs; [rewrite take_nil; cbn; by rewrite List.app_nil_r|].
  cbn [foldl]. unfold maybe_push_sample at 2. destruct (Nat.leb_spec SAMPLE_LIMIT (length samples)) as [Hl|Hl].
  - rewrite IH by done. replace (SAMPLE_LIMIT - length samples) with 0 by lia. done.
  - rewrite IH by (rewrite length_app; cbn; lia). rewrite length_app. cbn [length].
    replace (SAMPLE_LIMIT - length samples) with (S (SAMPLE_LIMIT - (length samples + 1))) by lia. cbn. by rewrite <- (assoc_L (++)%list).
Qed.

(** The status says how many targets failed. *)
Definition status_tells (o : MetricsCollectionOutcome) : Prop :=
  mo_status o = if Nat.eqb (mo_attempted_targets o) 0 then "idle" else if Nat.eqb (mo_failed_targets o) 0 then "succeeded"
    else if Nat.eqb (mo_succeeded_targets o) 0 then "failed" else "partial".
Definition accounts_for targets (o : MetricsCollectionOutcome) : Prop :=
  mo_attempted_targets o = length targets ∧ mo_succeeded_targets o + mo_failed_targets o = length targets ∧ status_tells o ∧
  ts_target_ref <$> mo_sample_targets o = ve_target_ref <$> take SAMPLE_LIMIT targets ∧
  (mo_dropped_targets o = length targets - length (mo_sample_targets o) ∨ mo_collection_kind o = "host_metrics" ∧ mo_status o = "failed").

Lemma tally_accounts kind failed (probe : MetricsTargetViewEntry → MetricsCollectionTargetSample) facts targets : targets ≠ [] →
  (∀ t, ts_target_ref (probe t) = ve_target_ref t) →
  let t := foldl (tally_one failed) tally_start (probe <$> targets) in
  accounts_for targets (mk_collection_outcome kind (tally_status t) (length targets) (ta_succeeded t) (ta_failed t) (ta_dropped t) (ta_last_error t) facts [] (ta_samples t)).
Proof.
  intros Hne Hp. cbv zeta. destruct (tally_run failed (probe <$> targets) tally_start) as (Es & Ef & El & Ed). cbn [tally_start ta_succeeded ta_failed ta_samples ta_dropped length] in *.
  pose proof (filter_complement failed (probe <$> targets)) as Hc. rewrite length_fmap in *. cbn [app] in El. rewrite Nat.sub_0_r in *.
  unfold accounts_for. cbn [mo_attempted_targets mo_succeeded_targets mo_failed_targets mo_sample_targets mo_dropped_targets].
  split_and!; [done|lia| | |].
  - unfold status_tells, tally_status. cbn. destruct targets; [done|]. done.
  - rewrite El. rewrite <- fmap_take, <- list_fmap_compose. apply list_fmap_ext. intros _ t _. apply Hp.
  - left. rewrite El, length_take, length_fmap, Ed. lia.
Qed.

Lemma probe_process_ref w t : ts_target_ref (probe_process_target w t) = ve_target_ref t.
Proof. unfold probe_process_target. destruct (_ ≫= parse_u32); [|done]. by destruct (collect_process_runtime_facts _ _ _). Qed.
Lemma probe_container_ref w t : ts_target_ref (probe_container_target w t) = ve_target_ref t.
Proof.
  unfold probe_container_target. set (facts := foldl _ [] _). destruct (_ ≫= parse_u32) as [pid|]; [destruct (collect_process_runtime_facts _ _ _)|];
    match goal with |- context [match ?l with [] => _ | _ => _ end] => by destruct l end.
Qed.

Lemma host_accounts w targets : accounts_for targets (build_host_outcome w (length targets) (foldl maybe_push_sample [] targets)).
Proof.
  rewrite maybe_push_samples by (cbn; lia). cbn [length app]. rewrite Nat.sub_0_r. unfold build_host_outcome.
  assert (Hr : ∀ f : nat → MetricsCollectionTargetSample → MetricsCollectionTargetSample, (∀ i s, ts_target_ref (f i s) = ts_target_ref s) →
    ts_target_ref <$> imap f (new_sample "pending" <$> take SAMPLE_LIMIT targets) = ve_target_ref <$> take SAMPLE_LIMIT targets).
  { intros f Hf. apply list_eq. intros i. rewrite !list_lookup_fmap, list_lookup_imap, list_lookup_fmap.
    destruct (take SAMPLE_LIMIT targets !! i); cbn; [by rewrite Hf|done]. }
  destruct (Nat.eqb_spec (length targets) 0) as [E|E].
  { destruct targets; [|done]. split_and!; by (done || left). }
  destruct (collect_host_runtime_facts w) as [facts labeled].
  destruct facts as [|f facts]; [destruct labeled as [|lf labeled]|]; cbn.
  1: { split_and!; cbn; [done|lia| | |by right].
       - unfold status_tells. cbn. destruct (length targets); done.
       - rewrite <- !list_fmap_compose. by apply list_fmap_ext. }
  all: (split_and!; cbn; [done|lia| |by apply (Hr _)|left; by rewrite length_imap, length_fmap]);
    unfold status_tells; cbn; destruct (length targets); done.
Qed.

(** The snapshot accounts for every target of the view: each kind's outcome has tried exactly the view's
    targets of the kind, each of which succeeded or failed, keeps the samples of the first three in order,
    counts the others as dropped, and its status says whether all, none or some failed; the totals of the
    snapshot are those of its kinds. *)
Theorem outcomes_account (view : MetricsTargetView) now w :
  let s := build_runtime_snapshot_from_view view now w in
  rs_total_targets s = total_of mo_attempted_targets s ∧ mo_collection_kind <$> rs_outcomes s = ["host_metrics"; "process_metrics"; "container_metrics"] ∧
  Forall (λ o, accounts_for (of_collection (mo_collection_kind o) (tv_targets view)) o) (rs_outcomes s).
Proof.
  cbv zeta. set (hosts := of_collection "host_metrics" (tv_targets view)). set (procs := of_collection "process_metrics" (tv_targets view)).
  set (conts := of_collection "container_metrics" (tv_targets view)).
  pose proof (host_accounts w hosts) as Hh.
  assert (Hp : accounts_for procs (build_process_outcome w procs)).
  { unfold build_process_outcome. destruct procs as [|p ps] eqn:E; [split_and!; by (done || left)|]. rewrite <- E. apply tally_accounts; [by rewrite E|apply probe_process_ref]. }
  assert (Hc : accounts_for conts (build_container_outcome w conts)).
  { unfold build_container_outcome. destruct conts as [|p ps] eqn:E; [split_and!; by (done || left)|]. rewrite <- E. apply tally_accounts; [by rewrite E|apply probe_container_ref]. }
  assert (Kh : mo_collection_kind (build_host_outcome w (length hosts) (foldl maybe_push_sample [] hosts)) = "host_metrics").
  { unfold build_host_outcome. destruct (Nat.eqb _ _); [done|]. destruct (collect_host_runtime_facts w) as [[|] [|]]; done. }
  assert (Kp : mo_collection_kind (build_process_outcome w procs) = "process_metrics") by (unfold build_process_outcome; by destruct procs).
  assert (Kc : mo_collection_kind (build_container_outcome w conts) = "container_metrics") by (unfold build_container_outcome; by destruct conts).
  unfold build_runtime_snapshot_from_view, total_of. cbn [rs_total_targets rs_outcomes providers fmap list_fmap fst snd sum_list_with]. fold hosts procs conts.
  rewrite Kh, Kp, Kc. rewrite (proj1 Hh), (proj1 Hp), (proj1 Hc). split; [lia|]. split; [done|].
  rewrite !Forall_cons, Kh, Kp, Kc. split; [exact Hh|]. split; [exact Hp|]. by split; [exact Hc|].
Qed.
End Accounting.

(** * File systems *)

Section Filesystems.
Implicit Types (d : Disk) (disks : list Disk).

Definition disk_key d : string := filesystem_dedupe_key (dk_name d) (dk_mount_point d).
Definition fs_key (f : LocalFilesystem) : string := filesystem_dedupe_key (fs_device f) (fs_mount f).

(** The keys seen are those of the file systems found. *)
Record found_once disks (acc : list string * list LocalFilesystem) : Prop := mk_found_once {
  fo_keys : acc.1 = fs_key <$> acc.2;
  fo_once : NoDup acc.1;
  fo_sound : ∀ f, f ∈ acc.2 → ∃ d, d ∈ disks ∧ is_local_filesystem_mount d = true ∧ f = local_filesystem d;
}.

Lemma add_filesystem_once disks acc d : d ∈ disks → found_once disks acc →
  found_once disks (add_filesystem acc d) ∧ acc.1 ⊆ (add_filesystem acc d).1 ∧ acc.2 `prefix_of` (add_filesystem acc d).2 ∧
  (is_local_filesystem_mount d = true → disk_key d ∈ (add_filesystem acc d).1).
Proof.
  intros Hd [Hk Ho Hs]. unfold add_filesystem. destruct (is_local_filesystem_mount d) eqn:El; cbn [negb]; [|by split_and!].
  fold (disk_key d). destruct (existsb (String.eqb (disk_key d)) acc.1) eqn:Ee.
  - split_and!; [by split|done|done|]. intros _. apply existsb_exists in Ee as (k & Hk' & Heq). apply String.eqb_eq in Heq as ->. by apply list_elem_of_In.
  - split_and!; cbn.
    + split; cbn.
      * by rewrite Hk, fmap_app.
      * apply NoDup_app. split; [done|]. split; [|apply NoDup_singleton]. intros k Hin Hk'. apply list_elem_of_singleton in Hk' as ->.
        apply not_true_iff_false in Ee. apply Ee, existsb_exists. exists (disk_key d). split; [by apply list_elem_of_In|apply String.eqb_refl].
      * intros f. rewrite elem_of_app, list_elem_of_singleton. intros [Hf| ->]; [by apply Hs|by exists d].
    + set_solver.
    + by eexists.
    + intros _. apply elem_of_app. right. by apply list_elem_of_singleton.
Qed.

Lemma add_filesystems_once disks l acc : (∀ d, d ∈ l → d ∈ disks) → found_once disks acc →
  let acc' := foldl add_filesystem acc l in
  found_once disks acc' ∧ acc.1 ⊆ acc'.1 ∧ acc.2 `prefix_of` acc'.2 ∧ (∀ d, d ∈ l → is_local_filesystem_mount d = true → disk_key d ∈ acc'.1).
Proof.
  revert acc. induction l as [|d l IH]; intros acc Hl Hacc; cbv zeta; cbn [foldl].
  { split_and!; [done|done|done|]. intros d Hd. by apply elem_of_nil in Hd. }
  destruct (add_filesystem_once disks acc d) as (H1 & H2 & H3 & H4); [apply Hl; by left|done|].
  destruct (IH (add_filesystem acc d)) as (G1 & G2 & G3 & G4); [intros; apply Hl; by right|done|].
  split_and!; [done|by etrans|by etrans|]. intros d' [->|Hd']%elem_of_cons Hm; [by apply G2, H4|by apply G4].
Qed.

(** Each device of the machine is reported once: the file systems reported have different devices (or
    mount points, without a device), each is one of the disks and passes the filter of kernel, network and
    overlay mounts, every disk that passes has its device among them, and the root, if it passes, is first. *)
Theorem filesystems_once disks :
  NoDup (fs_key <$> local_filesystems disks) ∧
  (∀ f, f ∈ local_filesystems disks → ∃ d, d ∈ disks ∧ is_local_filesystem_mount d = true ∧ f = local_filesystem d) ∧
  (∀ d, d ∈ disks → is_local_filesystem_mount d = true → disk_key d ∈ fs_key <$> local_filesystems disks) ∧
  (∀ root, find_first (λ d, String.eqb (dk_mount_point d) "/") disks = Some root → is_local_filesystem_mount root = true →
    head (local_filesystems disks) = Some (local_filesystem root)).
Proof.
  unfold local_filesystems. set (start := match find_first _ disks with Some root => _ | None => _ end).
  assert (H0 : found_once disks ([], [])) by (split; [done|constructor|intros f Hf; by apply elem_of_nil in Hf]).
  assert (Hstart : found_once disks start ∧ ∀ root, find_first (λ d, String.eqb (dk_mount_point d) "/") disks = Some root →
    is_local_filesystem_mount root = true → start.2 = [local_filesystem root]).
  { unfold start. destruct (find_first _ disks) as [root|] eqn:Er; [|by split]. apply find_first_Some in Er as [Hin _].
    split; [by apply add_filesystem_once|]. intros r [= <-] Hm. unfold add_filesystem. by rewrite Hm. }
  destruct Hstart as [Hs Hroot]. destruct (add_filesystems_once disks disks start ltac:(done) Hs) as ([Hk Ho Hsnd] & _ & Hpre & Hall).
  rewrite <- Hk. split_and!; [done|done|done|]. intros root Hf Hm. specialize (Hroot root Hf Hm). destruct Hpre as [rest Hrest].
  rewrite Hrest, Hroot. done.
Qed.
End Filesystems.

(** * [/proc/<pid>/stat] *)

Section ProcStat.

Lemma rsplit_none sep s : contains sep s = false → sep ≠ "" → rsplit_once_str sep s = None.
Proof.
  induction s as [|a s IH]; intros Hc Hne; [done|]. cbn [contains] in Hc. apply orb_false_iff in Hc as [Hp Hc]. cbn [rsplit_once_str]. rewrite IH by done.
  destruct (strip_prefix sep (String a s)) as [rest|] eqn:E; [|done]. exfalso. clear -Hp E.
  unfold starts_with in Hp. revert E Hp. generalize (String a s) as t. revert rest. induction sep as [|b sep IH]; intros rest t; [by destruct t|].
  destruct t as [|c t]; [done|]. cbn. destruct (Ascii.eqb_spec b c) as [->|]; [|done]. intros E. destruct (ascii_dec c c); [|done]. by eapply IH.
Qed.
Lemma rsplit_paren a b : contains ") " b = false → rsplit_once_str ") " (a +:+ ") " +:+ b) = Some (a, b).
Proof.
  intros Hb. apply rsplit_none in Hb; [|done]. induction a as [|c a IH]; [|rewrite app_cons; cbn [rsplit_once_str]; by rewrite IH].
  rewrite Prelude.app_nil_l. change (") " +:+ b) with (String ")" (String " " b)). cbn [rsplit_once_str]. rewrite Hb. cbn. by destruct b.
Qed.

(** A word of [/proc]: not empty, without blanks and closing parentheses. *)
Definition proc_word (s : string) : Prop := s ≠ "" ∧ all_chars (λ a, negb (Ascii.is_space a) && negb (Ascii.eqb a ")")) s = true.
Lemma split_words_word w cur rest : proc_word w → split_words cur (w +:+ " " +:+ rest) = (cur +:+ w) :: split_words "" rest.
Proof.
  intros [Hne Hw]. revert cur. induction w as [|a w IH]; intros cur; [done|]. cbn in Hw. apply andb_true_iff in Hw as [[Ha _]%andb_true_iff Hw].
  rewrite app_cons. cbn [split_words]. apply negb_true_iff in Ha. rewrite Ha. destruct w as [|b w].
  - rewrite Prelude.app_nil_l. change (" " +:+ rest) with (String " " rest). cbn [split_words]. cbn.
    destruct (String.eqb_spec (cur +:+ String a "") "") as [E|]; [|done]. by destruct cur.
  - rewrite IH; [|done|done]. by rewrite <- Prelude.app_assoc.
Qed.
Lemma split_words_last w cur : proc_word w → split_words cur w = [cur +:+ w].
Proof.
  intros [Hne Hw]. revert cur. induction w as [|a w IH]; intros cur; [done|]. cbn in Hw. apply andb_true_iff in Hw as [[Ha _]%andb_true_iff Hw].
  cbn [split_words]. apply negb_true_iff in Ha. rewrite Ha. destruct w as [|b w].
  - cbn. destruct (String.eqb_spec (cur +:+ String a "") "") as [E|]; [|done]. by destruct cur.
  - rewrite IH; [|done|done]. by rewrite <- Prelude.app_assoc.
Qed.
Lemma split_proc_words (fields : list string) : Forall proc_word fields → split_whitespace (Text.join " " fields) = fields.
Proof.
  unfold split_whitespace. intros Hf. induction Hf as [|w fields Hw Hf IH]; [done|]. destruct fields as [|w' fields]; [by apply split_words_last|].
  change (Text.join " " (w :: w' :: fields)) with (w +:+ " " +:+ Text.join " " (w' :: fields)). rewrite split_words_word by done. by rewrite IH.
Qed.
Lemma contains_paren_cons a s : Ascii.eqb a ")" = false → contains ") " (String a s) = contains ") " s.
Proof.
  intros Ha. cbn [contains]. assert (Hp : String.prefix ") " (String a s) = false); [|by rewrite Hp].
  cbn [String.prefix]. destruct (ascii_dec ")" a) as [<-|]; [done|reflexivity].
Qed.
Lemma proc_words_no_paren (fields : list string) : Forall proc_word fields → contains ") " (Text.join " " fields) = false.
Proof.
  assert (Hw : ∀ w rest, proc_word w → contains ") " rest = false → contains ") " (w +:+ rest) = false).
  { intros w rest [_ Hw] Hr. induction w as [|a w IH]; [done|]. cbn in Hw. apply andb_true_iff in Hw as [[_ Ha]%andb_true_iff Hw].
    apply negb_true_iff in Ha. rewrite app_cons, contains_paren_cons by done. by apply IH. }
  intros Hf. induction Hf as [|w fields Hww Hf IH]; [done|]. destruct fields as [|w' fields].
  - change (Text.join " " [w]) with w. rewrite <- (Prelude.app_nil_r w). by apply Hw.
  - change (Text.join " " (w :: w' :: fields)) with (w +:+ " " +:+ Text.join " " (w' :: fields)). apply Hw; [done|].
    change (" " +:+ ?t) with (String " " t). by rewrite contains_paren_cons.
Qed.

(** What is read of a process does not depend on its name: with any name between the parentheses, even one
    that holds parentheses and blanks, state, memory and processor time are those of the fields after it. *)
Theorem stat_survives_any_name pid comm (fields : list string) : Forall proc_word fields →
  let stat := pid +:+ " (" +:+ comm +:+ ") " +:+ Text.join " " fields in
  proc_state stat = (f ← head fields; match f with String c _ => Some c | _ => None end) ∧
  parse_linux_proc_rss_pages stat = (if Nat.leb (length fields) 21 then None else f ← fields !! 21; parse_i64 f) ∧
  parse_linux_proc_cpu_ticks stat = (u ← fields !! 11 ≫= as_u64; s ← fields !! 12 ≫= as_u64; Some (u, s)).
Proof.
  intros Hf. cbv zeta. assert (Ht : proc_tail (pid +:+ " (" +:+ comm +:+ ") " +:+ Text.join " " fields) = Some (Text.join " " fields)).
  { unfold proc_tail. rewrite !Prelude.app_assoc, <- Prelude.app_assoc. rewrite rsplit_paren by by apply proc_words_no_paren. done. }
  unfold proc_state, parse_linux_proc_rss_pages, parse_linux_proc_cpu_ticks. rewrite Ht. cbn [mbind option_bind]. rewrite split_proc_words by done.
  split_and!; [|done|done]. destruct Hf as [|w fields [Hne _] Hf]; [done|]. destruct w as [|c w]; [done|]. by destruct fields.
Qed.
End ProcStat.

(** * The lines sent *)

Section Lines.
Context `{Host} `{Float64} `{MetricTable}.

Definition own_names : list string :=
  ["agent_collect_targets"; "agent_memory_bytes"; "agent_cpu_cores"; "agent_cpu_ratio"; "agent_admin_latency_seconds"; "agent_discovery_policy_version";
   "agent_uplink_metrics_failed_total"].
(** Where a line comes from: a fact of a target that did not fail, under its metric of the table, or the
    agent itself. *)
Definition line_source (runtime : MetricsRuntimeSnapshot) (line : VmMetricLine) : Prop :=
  (∃ outcome target fact_key spec, outcome ∈ rs_outcomes runtime ∧ target ∈ mo_sample_targets outcome ∧ ts_status target ≠ "failed" ∧
    find_metric_spec (mo_collection_kind outcome) fact_key = Some spec ∧ vm_name (vl_metric line) = sp_name spec ∧
    is_numeric_sample (sp_value_type spec) = true ∧ vm_instance (vl_metric line) = stable_instance (mo_collection_kind outcome) target) ∨
  vm_instance (vl_metric line) = "" ∧ vm_name (vl_metric line) ∈ own_names.

Lemma label_value_in labels key v : label_value labels key = Some v → mk_kv key v ∈ labels.
Proof.
  unfold label_value. destruct (find_first _ labels) as [[k w]|] eqn:E; [|done]. cbn. intros [= <-].
  apply find_first_Some in E as [Hin Hk]. cbn in Hk. by apply String.eqb_eq in Hk as ->.
Qed.

(** The state of a sample is one of the closed set. *)
Definition states_closed (s : MetricsSampleRecord) : Prop := ∀ v, label_value (sr_labels s) "state" = Some v → v ∈ STATES.
Lemma normalize_state_in raw : normalize_state raw ∈ STATES.
Proof.
  unfold normalize_state. destruct (existsb _ _) eqn:E; [|by apply (bool_decide_unpack _); vm_compute].
  apply existsb_exists in E as (x & Hx & ->%String.eqb_eq). by apply list_elem_of_In.
Qed.
Lemma metric_sample_spec kind key raw labels s : metric_sample kind key raw labels = Some s →
  states_closed s ∧ ∃ spec, find_metric_spec kind key = Some spec ∧ sr_name s = sp_name spec ∧ sr_value_type s = sp_value_type spec.
Proof.
  unfold metric_sample. destruct (find_metric_spec kind key) as [spec|]; [|done]. cbn [mbind option_bind].
  destruct (existsb (String.eqb "state") (sp_dynamic_labels spec)) eqn:Ed.
  - intros [= <-]. split; [|by exists spec]. intros v. unfold label_value. cbn. intros [= <-]. apply normalize_state_in.
  - destruct (sample_value _ _) as [value|]; [|done]. cbn. intros [= <-]. split; [|by exists spec]. intros v Hv%label_value_in. exfalso. cbn in Hv.
    apply list_elem_of_omap in Hv as (k & Hk & Hkv). destruct (label_value labels k) as [w|]; [|done]. cbn in Hkv. injection Hkv as -> ->.
    apply not_true_iff_false in Ed. apply Ed, existsb_exists. exists "state". split; [by apply list_elem_of_In|apply String.eqb_refl].
Qed.

Lemma own_sample_state name ty v : states_closed (own_sample name ty v).
Proof. by intros w. Qed.

Lemma agent_samples_known runtime obs s : s ∈ (build_collect_target_samples runtime ++ build_self_observation_samples obs)%list →
  states_closed s ∧ sr_name s ∈ own_names.
Proof.
  assert (Hown : ∀ name ty (o : option SampleValue) s, s ∈ option_list (own_sample name ty <$> o) → states_closed s ∧ sr_name s = name).
  { intros name ty [v|] s'; cbn; [|by intros ?%elem_of_nil]. intros ->%list_elem_of_singleton. split; [apply own_sample_state|done]. }
  rewrite elem_of_app. intros [Hs|Hs].
  - unfold build_collect_target_samples in Hs. apply list_elem_of_join in Hs as (l & Hs & Hl). apply list_elem_of_fmap in Hl as (o & -> & _).
    unfold collect_targets_of in Hs. destruct (target_kind_of _); [|by apply elem_of_nil in Hs]. apply list_elem_of_omap in Hs as ([res count] & _ & Hs).
    destruct (Nat.eqb count 0); [done|]. injection Hs as <-. split; [|by left]. intros v. unfold label_value. cbn. done.
  - unfold build_self_observation_samples in Hs. rewrite !elem_of_app in Hs.
    destruct Hs as [Hs|[Hs|[Hs|[Hs|[Hs|Hs]]]]]; [apply Hown in Hs as [? ->]..|];
      [split; [done|]; by apply (bool_decide_unpack _); vm_compute..|].
    apply list_elem_of_singleton in Hs as ->. split; [apply own_sample_state|]. by apply (bool_decide_unpack _); vm_compute.
Qed.

(** C38. Every line sent is a number under a metric of the table, of a target that did not fail, with the
    instance of that target, or one of the agent's own; it names this agent, has one value and one time, and
    a state it tells is one of the closed set. *)
Theorem lines_are_registered batch runtime obs agent_id selection now line :
  line ∈ build_vm_metric_lines_with (build_samples_snapshot batch runtime obs) agent_id selection now →
  line_source runtime line ∧ vm_agent (vl_metric line) = agent_id ∧ vm_selection (vl_metric line) = selection ∧
  length (vl_values line) = 1 ∧ length (vl_timestamps line) = 1 ∧ (∀ v, vm_state (vl_metric line) = Some v → v ∈ STATES).
Proof.
  unfold build_vm_metric_lines_with. cbn [build_samples_snapshot ss_groups ss_collected_at]. intros Hl.
  apply list_elem_of_join in Hl as (ls & Hl & Hg). apply list_elem_of_fmap in Hg as (group & -> & Hg).
  apply list_elem_of_fmap in Hl as (s & -> & Hs). apply list_elem_of_In, filter_In in Hs as [Hs%list_elem_of_In Hnum].
  assert (Hsrc : states_closed s ∧ line_source runtime (metric_line agent_id (sg_instance group) selection now s)).
  { apply elem_of_app in Hg as [Hg|Hg].
    - apply list_elem_of_join in Hg as (gs & Hg & Ho). apply list_elem_of_fmap in Ho as (outcome & -> & Ho).
      apply list_elem_of_omap in Hg as (target & Ht & Hg). unfold target_group in Hg. destruct (String.eqb_spec (ts_status target) "failed"); [done|].
      set (l := (omap _ (ts_runtime_facts target) ++ _)%list) in Hg. assert (Hin : s ∈ l ∧ sg_instance group = stable_instance (mo_collection_kind outcome) target)
        by (destruct l; [done|]; by injection Hg as <-). destruct Hin as [Hin Hi].
      assert (Hm : ∃ key raw labels, metric_sample (mo_collection_kind outcome) key raw labels = Some s).
      { unfold l in Hin. apply elem_of_app in Hin as [Hin|Hin]; apply list_elem_of_omap in Hin as (f & _ & Hf); by eexists _, _, _. }
      destruct Hm as (key & raw & labels & Hm). destruct (metric_sample_spec _ _ _ _ _ Hm) as (Hst & spec & Hsp & Hn & Hty).
      split; [done|]. left. exists outcome, target, key, spec. rewrite <- Hty. by split_and!.
    - unfold build_agent_group in Hg. pose proof (agent_samples_known runtime obs s) as Hk.
      set (l := (build_collect_target_samples runtime ++ build_self_observation_samples obs)%list) in *.
      assert (Hin : s ∈ l ∧ sg_instance group = "").
      { destruct l as [|s0 l0] eqn:El; [by apply elem_of_nil in Hg|]. apply list_elem_of_singleton in Hg as ->. done. }
      destruct Hin as [Hin Hi]. destruct (Hk Hin). split; [done|]. right. by rewrite <- Hi. }
  destruct Hsrc as [Hst Hsrc]. split_and!; [exact Hsrc|done|done|done|done|]. intros v Hv. by apply Hst.
Qed.
End Lines.

(** * The tick *)

Section TickFacts.
Context `{SharedFs} `{!SharedFsLaws} `{!Float64} `{!Kernel} `{!Json MetricsTargetView} `{!Json MetricsRuntimeSnapshot}.
Implicit Types (w : World) (t : MetricsTick).

Lemma tick_read_run `{!Json A} p w (r : result A) w' : shared_read_json p w = (r, w') → w' = w.
Proof.
  rewrite shared_read_json_law. intros Hr. pose proof (read_json_respects (A := A) eq p w) as Hp. rewrite Hr in Hp. by cbn in Hp.
Qed.

(** A tick with the view at hand, and one without it. *)
Record fresh_tick (state_dir : string) (view : MetricsTargetView) w t w' : Prop := {
  ft_snapshot : mt_snapshot t = Some (build_runtime_snapshot_from_view view (rfc3339 (clock w)) w);
  ft_loaded : mt_target_view_loaded t = true ∧ mt_used_cached_snapshot t = false;
  ft_stored : mt_failures t = [] ∧
      w' = wrote (metrics_runtime_path_for state_dir) (to_json (build_runtime_snapshot_from_view view (rfc3339 (clock w)) w) +:+ nl) w ∨
    ∃ err, mt_failures t = [metrics_failure RuntimeSnapshotStore "runtime_snapshot_store" (metrics_runtime_path_for state_dir) err] ∧
      (files w' !! metrics_runtime_path_for state_dir = files w !! metrics_runtime_path_for state_dir ∨
       files w' !! metrics_runtime_path_for state_dir = Some (to_json (build_runtime_snapshot_from_view view (rfc3339 (clock w)) w) +:+ nl));
}.
Record degraded_tick (state_dir : string) (err : IoError) w t w' : Prop := {
  dt_world : w' = w;
  dt_loaded : mt_target_view_loaded t = false ∧ mt_used_cached_snapshot t = is_some (mt_snapshot t);
  dt_failures : ∃ cached, mt_failures t = metrics_failure TargetViewLoad "target_view_load" (view_path_for state_dir) err :: cached ∧ length cached ≤ 1;
  dt_cached : ∀ s, mt_snapshot t = Some s ↔ path_exists (metrics_runtime_path_for state_dir) w = (Ok true, w) ∧ read_json_async (metrics_runtime_path_for state_dir) w = (Ok s, w);
}.

Lemma cached_run path w :
  ∃ cached failures, load_cached_runtime_snapshot path w = (Ok (cached, failures), w) ∧ length failures ≤ 1 ∧
    ∀ s, cached = Some s ↔ path_exists path w = (Ok true, w) ∧ read_json_async path w = (Ok s, w).
Proof.
  unfold load_cached_runtime_snapshot. destruct (path_exists path w) as [o w1] eqn:Ep. unfold path_exists in Ep. injection Ep as Eo <-. subst o.
  erewrite bind_ok by done. destruct (match fs_fault OpMetadata path with Some _ => false | None => fs_exists path w end); cbn [negb].
  2: { exists None, []. split; [done|]. split; [cbn; lia|]. intros s. split; [done|by intros [? _]]. }
  destruct (shared_read_json (A := MetricsRuntimeSnapshot) path w) as [r w1] eqn:Er. pose proof (tick_read_run _ _ _ _ Er) as ->.
  rewrite shared_read_json_law in Er. unfold try, M_bind, mbind. rewrite shared_read_json_law, Er. destruct r as [a|err]; cbn.
  - exists (Some a), []. split_and!; [done|cbn; lia|]. intros s. split; [by intros [= ->]|]. by intros [_ [= ->]].
  - eexists None, [_]. split_and!; [done|cbn; lia|]. intros s. split; [done|]. by intros [_ [=]].
Qed.

(** A tick of the metrics always ends with a report: with the target view readable it has the snapshot of
    that view, stored or with one failure that leaves the stored file as it was or complete; without it
    nothing changes, the first failure tells why, and the snapshot is the stored one exactly if that can be read. *)
Theorem metrics_tick_degrades state_dir w :
  ∃ t w', process_metrics_tick state_dir w = (Ok t, w') ∧
    match (shared_read_json (view_path_for state_dir) w).1 with
    | Ok view => fresh_tick state_dir view w t w'
    | Err err => degraded_tick state_dir err w t w' ∧ metrics_is_active t = true
    end.
Proof.
  assert (Hst : storable (metrics_runtime_path_for state_dir)) by exact (document_storable _ (below_document state_dir "telemetry" "metrics_runtime_snapshot")).
  unfold process_metrics_tick. destruct (shared_read_json (A := MetricsTargetView) (view_path_for state_dir) w) as [r w1] eqn:Er.
  pose proof (tick_read_run _ _ _ _ Er) as ->. erewrite bind_ok by (apply try_run, Er). cbn [fst]. destruct r as [view|err].
  - unfold now_rfc3339. rewrite !gets_then. set (snapshot := build_runtime_snapshot_from_view view _ w).
    destruct (shared_write_json_atomic (metrics_runtime_path_for state_dir) snapshot w) as [stored w2] eqn:Ew.
    erewrite bind_ok by (apply try_run, Ew). rewrite shared_write_json_law in Ew. eexists _, w2. split; [done|]. split; [done|done|].
    cbn [mt_failures]. destruct stored as [u|err].
    + left. split; [done|]. by eapply write_json_ok, Ew.
    + right. exists err. split; [done|]. by eapply write_json_either, Ew.
  - destruct (cached_run (metrics_runtime_path_for state_dir) w) as (cached & failures & Ec & Hl & Hc). erewrite bind_ok by exact Ec. cbn beta iota.
    eexists _, w. split; [done|]. split; [|done]. split; [done|done|by eexists|exact Hc].
Qed.
End TickFacts.

(** * A machine with whole numbers *)

Module ConcreteMetrics.
Import Concrete.

#[export] Instance toy_floats : Float64 := {|
  f64 := Z;
  f64_of_u64 n := n;
  f64_div := Z.div;
  f64_show := pretty;
  f64_fixed3 := pretty;
  f64_parse := parse_i64;
  f64_is_finite _ := true;
|}.
Definition toy_stat : string := "cpu  9 9" +:+ nl +:+ "cpu0 100 0 50 800 0 0 0 0" +:+ nl +:+ "intr 1" +:+ nl.
#[export] Instance toy_kernel : Kernel := {|
  load_average _ := (1%Z, 2%Z, 3%Z);
  uptime _ := 60%Z;
  total_memory _ := 1000%Z;
  available_memory _ := 600%Z;
  total_swap _ := 0%Z;
  free_swap _ := 0%Z;
  disk_list _ := [mk_disk "/data" "/dev/sdb1" "ext4" 500%Z 100%Z; mk_disk "/" "/dev/sda1" "ext4" 100%Z 40%Z;
    mk_disk "/var" "/dev/sda1" "ext4" 100%Z 40%Z; mk_disk "/proc" "proc" "proc" 0%Z 0%Z];
  proc_stat_text _ := Some toy_stat;
  diskstats_text _ := None;
  has_partition_file _ _ := false;
  statvfs_inodes _ _ := None;
  CLK_TCK := 100%Z;
  PAGESIZE := 4096%Z;
|}.
#[export] Instance toy_table : MetricTable := {|
  find_metric_spec kind key :=
    if String.eqb key "host.memory.total_bytes" then Some (mk_spec "host_memory_bytes" "gauge_i64" [] [])
    else if String.eqb key "host.cpu.seconds" then Some (mk_spec "host_cpu_seconds" "counter_f64" [] ["cpu"; "mode"])
    else if String.eqb key "process.state" then Some (mk_spec "process_state" "gauge_i64" [] ["state"])
    else None;
|}.

(** A process named "x) R (y", which sleeps. *)
Definition toy_fields : list string :=
  ["S"; "1"; "1"; "1"; "0"; "-1"; "0"; "0"; "0"; "0"; "0"; "150"; "50"; "0"; "0"; "20"; "0"; "1"; "0"; "77"; "4096"; "12"; "0"].
Definition odd_stat : string := "42" +:+ " (" +:+ "x) R (y" +:+ ") " +:+ Text.join " " toy_fields.
Lemma stat_survives_any_name_witness :
  proc_state odd_stat = Some "S"%char ∧ parse_linux_proc_rss_pages odd_stat = Some 12%Z ∧ parse_linux_proc_cpu_ticks odd_stat = Some (150, 50)%Z.
Proof.
  apply (stat_survives_any_name "42" "x) R (y" toy_fields). repeat constructor; done.
Defined.

Definition toy_view : MetricsTargetView := mk_target_view "t0"
  [mk_view_entry "c1" "host_metrics" "node:host" "node" [];
   mk_view_entry "c2" "process_metrics" "node:pid:42" "node:pid:42" [mk_kv "process.pid" "42"; mk_kv "process.identity" "nginx"];
   mk_view_entry "c3" "process_metrics" "node:pid:43" "node:pid:43" [mk_kv "process.pid" "43"]].
Definition toy_machine : World := MkWorld _ ∅ ∅ 5000 {[ 42%Z := odd_stat ]}.
Definition toy_snapshot : MetricsRuntimeSnapshot := build_runtime_snapshot_from_view toy_view "t1" toy_machine.
Definition toy_obs : SelfObservation := mk_self_observation None (Some 4%Z) None None None 0.
Definition toy_lines : list VmMetricLine := build_vm_metric_lines_with (build_samples_snapshot 0 toy_snapshot toy_obs) "agent-1" [] 5000.

(** One process of two can be read: its metrics carry its identity, the failed one yields none but is counted. *)
Example toy_lines_sent :
  (λ l, (vm_name (vl_metric l), vm_instance (vl_metric l), vl_values l)) <$> List.filter (λ l, negb (is_some (vm_cpu (vl_metric l)))) toy_lines =
  [("host_memory_bytes", "node", [1000%Z]); ("process_state", "node:proc:nginx", [1%Z]);
   ("agent_collect_targets", "", [1%Z]); ("agent_collect_targets", "", [1%Z]); ("agent_collect_targets", "", [1%Z]);
   ("agent_cpu_cores", "", [4%Z]); ("agent_uplink_metrics_failed_total", "", [0%Z])].
Proof. by vm_compute. Qed.
Example toy_data_disk : (λ f, (fs_mount f, fs_device f)) <$> local_filesystems (disk_list toy_machine) = [("/", "/dev/sda1"); ("/data", "/dev/sdb1")].
Proof. by vm_compute. Qed.

Lemma lines_are_registered_witness : ∃ line, line ∈ toy_lines ∧ vm_state (vl_metric line) = Some "sleeping" ∧
  line_source toy_snapshot line ∧ vm_agent (vl_metric line) = "agent-1" ∧ "sleeping" ∈ STATES.
Proof.
  assert (Hs : match List.find (λ l, String.eqb (vm_name (vl_metric l)) "process_state") toy_lines with
    | Some line => vm_state (vl_metric line) | None => None end = Some "sleeping") by by vm_compute.
  destruct (List.find _ toy_lines) as [line|] eqn:Ef; [|done].
  apply List.find_some in Ef as [Hin%list_elem_of_In _].
  destruct (lines_are_registered 0 toy_snapshot toy_obs "agent-1" [] 5000 line Hin) as (H1 & H2 & _ & _ & _ & H6).
  exists line. exact (conj Hin (conj Hs (conj H1 (conj H2 (H6 _ Hs))))).
Defined.
End ConcreteMetrics.
