(* ===== verification/Sources.v ===== *)
(** Where the logs of the databases on a host are (discovery/log_source.rs and log_source/rules.rs): the
    rules that read a directory off a running process, the choice among what they propose, the bounded search
    as the last resort, and the report to the gateway (control/log_sources.rs). *)
From stdpp Require Import pretty.
From S2P Require Import Prelude Text Host Fmt BTree Select Search Policies Discovery Facts Metrics.

(** * Rules (rules.rs) *)

Definition MAX_CONFIG_BYTES : nat := 64 * 1024.
Definition MAX_LINES : nat := 2000.

(** What is known of a process; [read_file] reads as the process sees the files. *)
Record Evidence := mk_evidence {
  ev_argv : list string;
  ev_environ : list string;
  ev_cwd : option string;
  ev_open_files : list string;
  ev_read_file : string → option string;
}.
Record Proposal := mk_proposal { pr_dir : string; pr_evidence : string; pr_detail : string; pr_confidence : Z }.
Record Rule := mk_rule {
  ru_service : string;
  ru_executables : list string;
  ru_counts_without_candidates : bool;
  ru_candidates : Evidence → list Proposal;
}.

Definition EVIDENCE_VALUES : list string :=
  ["cmdline_datadir"; "env_datadir"; "cmdline_logfile"; "config_file"; "open_fd"; "search_hit"; "unresolved"].

(** ** Text *)

(** The text after the last slash. *)
Definition last_segment (path : string) : string := match rsplit_once slash path with Some (_, name) => name | None => path end.
Definition basename (path : string) : string := trim (last_segment path).
Definition parent_dir (path : string) : option string :=
  '(parent, _) ← rsplit_once slash path;
  Some (if String.eqb parent "" then "/" else parent).

Definition unquote (value : string) : string :=
  let value := trim value in
  match value with
  | String a (String _ _ as rest) =>
      if Ascii.eqb a dquote && ends_with (String dquote "") rest || Ascii.eqb a "'" && ends_with "'" rest
      then str_take (String.length rest - 1) rest
      else value
  | _ => value
  end.

(** The segments a path comes down to, the last one first; [None] above the root. *)
Fixpoint climb (stack segments : list string) : option (list string) :=
  match segments with
  | [] => Some stack
  | segment :: segments =>
      if String.eqb segment "" || String.eqb segment "." then climb stack segments
      else if String.eqb segment ".." then match stack with [] => None | _ :: stack => climb stack segments end
      else climb (segment :: stack) segments
  end.
Definition absolute (raw : string) (base : option string) : option string :=
  let value := unquote (trim raw) in
  if String.eqb value "" || has_char "000" value then None
  else
    joined ← (if starts_with "/" value then Some value
              else
                base ← base;
                let base := trim_end_char slash base in
                if String.eqb base "" then None else Some (base +:+ "/" +:+ value));
    stack ← climb [] (split_on slash joined);
    match stack with
    | [] => None
    | _ => Some ("/" +:+ Text.join "/" (rev stack))
    end.
Definition file_parent (raw : string) (base : option string) : option string := absolute raw base ≫= parent_dir.

Fixpoint map_chars (f : ascii → ascii) (s : string) : string :=
  match s with EmptyString => "" | String a s => String (f a) (map_chars f s) end.
Definition normalize_key (value : string) : string := to_ascii_lowercase (map_chars (λ a, if Ascii.eqb a "-" then "_"%char else a) value).

(** ** Arguments and variables *)

Fixpoint flag_from (wanted : string) (argv : list string) : option string :=
  match argv with
  | [] => None
  | arg :: argv =>
      match strip_prefix "--" arg with
      | None => flag_from wanted argv
      | Some rest =>
          match split_once "=" rest with
          | Some (key, value) => if String.eqb (normalize_key key) wanted then Some value else flag_from wanted argv
          | None => if String.eqb (normalize_key rest) wanted then head argv else flag_from wanted argv
          end
      end
  end.
Definition flag_value (argv : list string) (flag : string) : option string := flag_from (normalize_key flag) argv.
Fixpoint short_value (argv : list string) (flag : string) : option string :=
  match argv with
  | [] => None
  | arg :: argv => if String.eqb arg flag then head argv else short_value argv flag
  end.
Fixpoint environ_value (environ : list string) (key : string) : option string :=
  match environ with
  | [] => None
  | entry :: environ =>
      match split_once "=" entry with
      | Some (name, value) => if String.eqb name key then Some value else environ_value environ key
      | None => environ_value environ key
      end
  end.

(** ** Configuration files *)

Definition config_lines (text : string) : list string := take MAX_LINES (lines text).
Definition before_char (c : ascii) (s : string) : string := match split_once c s with Some (x, _) => x | None => s end.
Definition key_value (key value : string) : string * string :=
  (normalize_key (trim key), unquote (trim (before_char "#" value))).
Definition comment_line (marks : list string) (line : string) : bool := String.eqb line "" || existsb (λ m, starts_with m line) marks.

Definition key_value_line (separator : ascii) (values : btree string) (line : string) : btree string :=
  let line := trim line in
  if comment_line ["#"; ";"] line then values
  else
    match split_once separator line with
    | None => values
    | Some (key, value) => let '(k, v) := key_value key value in bt_insert k v values
    end.
Definition key_value_lines (text : string) (separator : ascii) : btree string := foldl (key_value_line separator) [] (config_lines text).

Definition ini_line (wanted : string) (st : option string * btree string) (line : string) : option string * btree string :=
  let '(current, values) := st in
  let trimmed := trim line in
  if comment_line ["#"; ";"] trimmed then st
  else
    match strip_prefix "[" trimmed with
    | Some rest => (Some (to_ascii_lowercase (trim (before_char "]" rest))), values)
    | None =>
        if negb (bool_decide (current = Some wanted)) then st
        else
          match split_once "=" trimmed with
          | None => st
          | Some (key, value) => let '(k, v) := key_value key value in (current, bt_insert k v values)
          end
    end.
Definition ini_section (text section : string) : btree string := (foldl (ini_line (to_ascii_lowercase section)) (None, []) (config_lines text)).2.

(** [splitn(2, char::is_whitespace)] *)
Fixpoint split_blank_fuel (fuel : nat) (s : string) : string * option string :=
  match fuel, s with
  | S fuel, String a s' =>
      let k := (utf8_head a s').1 in
      if is_blank (str_take k s) then ("", Some (str_drop k s))
      else let '(x, y) := split_blank_fuel fuel (str_drop k s) in (str_take k s +:+ x, y)
  | _, _ => (s, None)
  end.
Definition split_blank (s : string) : string * option string := split_blank_fuel (String.length s) s.
Fixpoint redis_value (key : string) (lines_ : list string) : option string :=
  match lines_ with
  | [] => None
  | line :: lines_ =>
      let line := trim line in
      if comment_line ["#"] line then redis_value key lines_
      else
        let '(name, value) := split_blank line in
        if String.eqb (trim name) key then Some (unquote (trim (default "" value))) else redis_value key lines_
  end.
Definition redis_config_value (text key : string) : option string := redis_value key (config_lines text).

(** [line.starts_with(char::is_whitespace)] *)
Definition starts_blank (s : string) : bool :=
  match s with String a s' => is_blank (str_take (utf8_head a s').1 s) | EmptyString => false end.
Record MongodScan := mk_mongod { mo_section : option string; mo_log_path : option string; mo_db_path : option string }.
Definition mongod_line (st : MongodScan) (line : string) : MongodScan :=
  let trimmed := trim line in
  if comment_line ["#"] trimmed then st
  else if negb (starts_blank line) then mk_mongod (trim <$> strip_suffix ":" trimmed) (mo_log_path st) (mo_db_path st)
  else
    match split_once ":" trimmed with
    | None => st
    | Some (key, value) =>
        let value := unquote (trim value) in
        if bool_decide (mo_section st = Some "systemLog") && String.eqb (trim key) "path" then mk_mongod (mo_section st) (Some value) (mo_db_path st)
        else if bool_decide (mo_section st = Some "storage") && String.eqb (trim key) "dbPath" then mk_mongod (mo_section st) (mo_log_path st) (Some value)
        else st
    end.
Definition mongod_config (text : string) : option string * option string :=
  let st := foldl mongod_line (mk_mongod None None None) (config_lines text) in (mo_log_path st, mo_db_path st).

(** ** The rules of the services *)

Definition or_else {A} (x y : option A) : option A := match x with Some a => Some a | None => y end.
(** A proposal for a directory that can be told. *)
Definition propose (dir : option string) (evidence detail : string) (confidence : Z) : list Proposal :=
  match dir with Some dir => [mk_proposal dir evidence detail confidence] | None => [] end.

Section Rules.
Context `{Tree}.
Implicit Types (ev : Evidence).

Definition lower_name (path : string) : string := to_lowercase (basename path).

Definition postgres_datadir ev : option (string * string * string) :=
  let from_argv :=
    value ← or_else (flag_value (ev_argv ev) "datadir") (short_value (ev_argv ev) "-D");
    dir ← absolute value None;
    Some (dir, "cmdline_datadir", "-D " +:+ value) in
  or_else from_argv
    (value ← environ_value (ev_environ ev) "PGDATA";
     dir ← absolute value None;
     Some (dir, "env_datadir", "PGDATA=" +:+ value)).
Definition pg_log_directory (text : string) : option string :=
  let values := key_value_lines text "=" in
  match bt_get "logging_collector" values with
  | Some value => if String.eqb (to_ascii_lowercase value) "on" || String.eqb value "true" then bt_get "log_directory" values else None
  | None => None
  end.
Definition pg_log_file (datadir file : string) : bool :=
  starts_with (datadir +:+ "/log/") file && (ends_with ".csv" (lower_name file) || ends_with ".log" (lower_name file)).
Definition postgres_candidates ev : list Proposal :=
  match postgres_datadir ev with
  | None => []
  | Some (datadir, evidence, detail) =>
      let configured :=
        conf ← ev_read_file ev (datadir +:+ "/postgresql.conf");
        dir ← pg_log_directory conf;
        absolute dir (Some datadir) in
      let opened := find_first (pg_log_file datadir) (ev_open_files ev) ≫= parent_dir in
      [mk_proposal (datadir +:+ "/log") evidence detail 90] ++ propose configured "config_file" "postgresql.conf: log_directory" 85 ++
        propose opened "open_fd" ("open fd " +:+ default "" opened) 80
  end.

Fixpoint first_readable (read : string → option string) (paths : list string) : option string :=
  match paths with
  | [] => None
  | path :: paths => match read path with Some text => Some text | None => first_readable read paths end
  end.
Definition mysql_config ev : btree string :=
  let named := omap (λ flag, value ← flag_value (ev_argv ev) flag; absolute value None) ["defaults-file"; "defaults-extra-file"] in
  match first_readable (ev_read_file ev) (named ++ ["/etc/my.cnf"; "/etc/mysql/my.cnf"]) with
  | Some text => ini_section text "mysqld"
  | None => []
  end.
Definition looks_like_mysql_log (path : string) : bool :=
  let name := lower_name path in ends_with ".err" name || ends_with ".log" name || contains "slow" name.
(** The proposals of the open files that pass a test. *)
Definition open_proposals (accepts : string → bool) (confidence : Z) ev : list Proposal :=
  mjoin ((λ file, if accepts file then propose (parent_dir file) "open_fd" ("open fd " +:+ file) confidence else []) <$> ev_open_files ev).
Definition mysql_candidates ev : list Proposal :=
  let config := mysql_config ev in
  let datadir := or_else (flag_value (ev_argv ev) "datadir") (bt_get "datadir" config) ≫= λ value, absolute value None in
  let base := or_else datadir (ev_cwd ev) in
  mjoin ((λ '(key, label),
    match flag_value (ev_argv ev) key with
    | Some value => propose (file_parent value base) "cmdline_logfile" (label +:+ " " +:+ value) 90
    | None => []
    end) <$> [("log_error", "--log-error"); ("slow_query_log_file", "--slow-query-log-file"); ("general_log_file", "--general-log-file")]) ++
  mjoin ((λ key,
    match bt_get key config with
    | Some value => propose (file_parent value base) "config_file" ("my.cnf: " +:+ key +:+ "=" +:+ value) 85
    | None => []
    end) <$> ["log_error"; "slow_query_log_file"; "general_log_file"]) ++
  open_proposals looks_like_mysql_log 80 ev.

Definition is_dot_log (file : string) : bool := ends_with ".log" (lower_name file).
Definition redis_candidates ev : list Proposal :=
  match flag_value (ev_argv ev) "logfile" with
  | Some value => propose (file_parent value (ev_cwd ev)) "cmdline_logfile" ("--logfile " +:+ value) 90
  | None => []
  end ++
  match (arg ← find_first (λ arg, negb (starts_with "-" (trim_start arg))) (drop 1 (ev_argv ev));
         path ← absolute arg (ev_cwd ev);
         text ← ev_read_file ev path;
         value ← redis_config_value text "logfile";
         if String.eqb (trim value) "" then None else Some value) with
  | Some value => propose (file_parent value (ev_cwd ev)) "config_file" ("redis.conf: logfile " +:+ value) 85
  | None => []
  end ++
  open_proposals is_dot_log 80 ev.

Definition mongod_candidates ev : list Proposal :=
  let config_path := default "/etc/mongod.conf" (or_else (flag_value (ev_argv ev) "config") (short_value (ev_argv ev) "-f") ≫= λ value, absolute value (ev_cwd ev)) in
  let config := mongod_config <$> ev_read_file ev config_path in
  let dbpath := or_else (flag_value (ev_argv ev) "dbpath") (config ≫= snd) ≫= λ value, absolute value (ev_cwd ev) in
  match flag_value (ev_argv ev) "logpath" with
  | Some value => propose (file_parent value (ev_cwd ev)) "cmdline_logfile" ("--logpath " +:+ value) 90
  | None => []
  end ++
  match config ≫= fst with
  | Some value => propose (file_parent value (ev_cwd ev)) "config_file" ("mongod.conf: systemLog.path=" +:+ value) 85
  | None => []
  end ++
  match dbpath with
  | Some dbpath => [mk_proposal (dbpath +:+ "/log") "cmdline_datadir" ("dbpath " +:+ dbpath) 80]
  | None => []
  end ++
  open_proposals is_dot_log 75 ev.

Definition POSTGRES : Rule := mk_rule "postgresql" ["postgres"; "postmaster"] false postgres_candidates.
Definition MYSQL : Rule := mk_rule "mysql" ["mysqld"; "mariadbd"] true mysql_candidates.
Definition REDIS : Rule := mk_rule "redis" ["redis-server"] true redis_candidates.
Definition MONGOD : Rule := mk_rule "mongodb" ["mongod"] true mongod_candidates.
Definition RULES : list Rule := [POSTGRES; MYSQL; REDIS; MONGOD].
Definition rule_for (exe : string) : option Rule :=
  let name := basename exe in
  find_first (λ rule, existsb (String.eqb name) (ru_executables rule)) RULES.
End Rules.

(** * Resolving (log_source.rs) *)

Definition MAX_PROC_BYTES : nat := 4096.
Definition MAX_CANDIDATES_PER_SERVICE : nat := 4.
Definition MAX_INSPECTED_PROCESSES : nat := 16.
Definition MAX_OPEN_FILES : nat := 64.
Definition SEARCH_CONFIDENCE : Z := 55.

Record LogSourceEntry := mk_source {
  ls_service : string;
  ls_source_ref : string;
  ls_dir : string;
  ls_evidence : string;
  ls_detail : string;
  ls_confidence : Z;
}.
Inductive ProcFile := Cmdline | Environ.
Definition proc_file_name (f : ProcFile) : string := match f with Cmdline => "cmdline" | Environ => "environ" end.
(** [trait ProcAccess] *)
Record ProcAccess := mk_proc {
  pa_nul_list : Z → ProcFile → list string;
  pa_cwd : Z → option string;
  pa_open_files : Z → list string;
  pa_read_file : string → option string;
  pa_canonical_dir : string → option string;
}.

(** [std::fs] as it answers while a snapshot is resolved: the bytes of a file, the entries of a directory by
    their paths ([None] is an error of an entry), the target of a link, the real path, and whether it is a directory. *)
Class ProcFs := {
  pf_content : string → option string;
  pf_read_dir : string → option (list (option string));
  pf_read_link : string → option string;
  pf_canonicalize : string → option string;
  pf_is_dir : string → bool;
}.

Section RealProc.
Context `{ProcFs}.

Definition read_capped (path : string) (limit : nat) : option string := str_take limit <$> pf_content path.
Definition read_link_path (path : string) : option string :=
  target ← pf_read_link path;
  let value := from_utf8_lossy target in
  if starts_with "/" value then Some value else None.
Definition split_nul (content : string) (limit : nat) : list string :=
  List.filter (λ segment, negb (String.eqb segment "")) ((λ segment, trim (from_utf8_lossy segment)) <$> take limit (split_on "000" content)).
Definition proc_path (pid : Z) (name : string) : string := "/proc/" +:+ pretty pid +:+ "/" +:+ name.
Definition RealProc : ProcAccess := {|
  pa_nul_list pid file :=
    match read_capped (proc_path pid (proc_file_name file)) MAX_PROC_BYTES with
    | Some bytes => split_nul bytes MAX_PROC_BYTES
    | None => []
    end;
  pa_cwd pid := read_link_path (proc_path pid "cwd");
  pa_open_files pid :=
    match pf_read_dir (proc_path pid "fd") with
    | Some entries => List.filter (starts_with "/") (omap (λ entry, from_utf8_lossy <$> (entry ≫= pf_read_link)) (take MAX_OPEN_FILES entries))
    | None => []
    end;
  pa_read_file path := from_utf8_lossy <$> read_capped path MAX_CONFIG_BYTES;
  pa_canonical_dir path := real ← pf_canonicalize path; if pf_is_dir real then Some (from_utf8_lossy real) else None;
|}.
End RealProc.

(** ** What the snapshot tells *)

Record ObservedProcess := mk_observed { op_pid : Z; op_exe : string; op_container_id : option string }.
Definition observed_process (resource : DiscoveredResource) : option ObservedProcess :=
  if String.eqb (dr_kind resource) "process" then
    pid ← bt_get "process.pid" (dr_attributes resource) ≫= parse_u32;
    exe ← bt_get "process.executable.name" (dr_attributes resource);
    Some (mk_observed pid exe (bt_get "container.id" (dr_attributes resource)))
  else None.
Definition processes (snapshot : DiscoverySnapshot) : list ObservedProcess := omap observed_process (sn_resources snapshot).

(** A listening TCP port and the process it belongs to. *)
Definition tcp_listener (resource : DiscoveredResource) : option (Z * Z) :=
  if String.eqb (dr_kind resource) "service_endpoint" && bool_decide (bt_get "endpoint.protocol" (dr_attributes resource) = Some "tcp") then
    pid ← bt_get "process.pid" (dr_attributes resource) ≫= parse_u32;
    port ← bt_get "endpoint.bind.port" (dr_attributes resource) ≫= parse_u16;
    Some (pid, port)
  else None.
Definition add_listener (ports : gmap Z Z) (resource : DiscoveredResource) : gmap Z Z :=
  match tcp_listener resource with
  | Some (pid, port) => <[pid := match ports !! pid with Some existing => Z.min existing port | None => port end]> ports
  | None => ports
  end.
Definition tcp_port_by_pid (snapshot : DiscoverySnapshot) : gmap Z Z := foldl add_listener ∅ (sn_resources snapshot).

Definition identity (ports : gmap Z Z) (pid : Z) : string :=
  match ports !! pid with Some port => "port:" +:+ pretty port | None => "pid:" +:+ pretty pid end.
Definition rooted (pid : Z) (path : string) : string :=
  let root := "/proc/" +:+ pretty pid +:+ "/root" in
  if String.eqb path "/" then root else root +:+ path.
Definition unresolved_entry (service source_ref detail : string) : LogSourceEntry := mk_source service source_ref "" "unresolved" detail 0.

(** ** The choice *)

Section Resolve.
Context `{Tree} {S : Type}.
(** [dyn ProcAccess] and [dyn SourceSearch]; a search changes what is left of its budget. *)
Variables (proc : ProcAccess) (search : string → S → list Hit * S).

(** The local variables of [resolve], and the state of the search. *)
Record Resolving := mk_resolving {
  rs_out : list LogSourceEntry;
  rs_inspected : nat;
  rs_per_service : gmap string nat;
  rs_pending : gmap string (list Hit);
  rs_search : S;
}.

Definition evidence_of (pid : Z) : Evidence :=
  mk_evidence (pa_nul_list proc pid Cmdline) (pa_nul_list proc pid Environ) (pa_cwd proc pid) (pa_open_files proc pid)
    (λ path, pa_read_file proc (rooted pid path)).
(** The first proposal whose directory is there. *)
Fixpoint choose (process : ObservedProcess) (proposals : list Proposal) : option (string * Proposal * Z) :=
  match proposals with
  | [] => None
  | proposal :: proposals =>
      match pa_canonical_dir proc (rooted (op_pid process) (pr_dir proposal)) with
      | Some dir => Some (dir, proposal, pr_confidence proposal)
      | None =>
          match (if is_some (op_container_id process) then None else pa_canonical_dir proc (pr_dir proposal)) with
          | Some dir => Some (dir, proposal, (pr_confidence proposal - 10)%Z)
          | None => choose process proposals
          end
      end
  end.
(** The next hit of the service's search, which is made once. *)
Definition take_hit (service : string) (st : Resolving) : option Hit * Resolving :=
  let '(hits, s) := match rs_pending st !! service with Some hits => (hits, rs_search st) | None => search service (rs_search st) end in
  match hits with
  | [] => (None, mk_resolving (rs_out st) (rs_inspected st) (rs_per_service st) (<[service := []]> (rs_pending st)) s)
  | hit :: hits => (Some hit, mk_resolving (rs_out st) (rs_inspected st) (rs_per_service st) (<[service := hits]> (rs_pending st)) s)
  end.
Definition with_container (process : ObservedProcess) (detail : string) : string :=
  match op_container_id process with Some id => detail +:+ "（container " +:+ id +:+ "）" | None => detail end.

(** What is told of a process. *)
Definition entry_for (ports : gmap Z Z) (process : ObservedProcess) (rule : Rule) (st : Resolving) : option LogSourceEntry * Resolving :=
  let proposals := ru_candidates rule (evidence_of (op_pid process)) in
  let source_ref := identity ports (op_pid process) in
  match choose process proposals with
  | Some (dir, proposal, confidence) =>
      (Some (mk_source (ru_service rule) source_ref dir (pr_evidence proposal) (with_container process (pr_detail proposal)) confidence), st)
  | None =>
      let is_instance := ru_counts_without_candidates rule || negb (Nat.eqb (length proposals) 0) in
      let '(hit, st) := if is_instance then take_hit (ru_service rule) st else (None, st) in
      match hit, proposals with
      | Some hit, _ => (Some (mk_source (ru_service rule) source_ref (log_dir hit) "search_hit" (with_container process (detail hit)) SEARCH_CONFIDENCE), st)
      | None, proposal :: _ => (Some (unresolved_entry (ru_service rule) source_ref (with_container process (pr_detail proposal))), st)
      | None, [] =>
          if ru_counts_without_candidates rule
          then (Some (unresolved_entry (ru_service rule) source_ref (with_container process "没有可用的日志路径线索")), st)
          else (None, st)
      end
  end.
Definition count_of (st : Resolving) (service : string) : nat := default 0 (rs_per_service st !! service).
Definition push_entry (service : string) (entry : LogSourceEntry) (st : Resolving) : Resolving :=
  mk_resolving (rs_out st ++ [entry]) (rs_inspected st) (<[service := Datatypes.S (count_of st service)]> (rs_per_service st)) (rs_pending st) (rs_search st).
Definition inspect (st : Resolving) : Resolving :=
  mk_resolving (rs_out st) (Datatypes.S (rs_inspected st)) (rs_per_service st) (rs_pending st) (rs_search st).
Fixpoint resolve_processes (ports : gmap Z Z) (l : list ObservedProcess) (st : Resolving) : Resolving :=
  match l with
  | [] => st
  | process :: l =>
      match rule_for (op_exe process) with
      | None => resolve_processes ports l st
      | Some rule =>
          if Nat.leb MAX_INSPECTED_PROCESSES (rs_inspected st) then st
          else if Nat.leb MAX_CANDIDATES_PER_SERVICE (count_of st (ru_service rule)) then resolve_processes ports l st
          else
            let '(entry, st) := entry_for ports process rule (inspect st) in
            match entry with
            | Some entry => resolve_processes ports l (push_entry (ru_service rule) entry st)
            | None => resolve_processes ports l st
            end
      end
  end.
Definition resolve (snapshot : DiscoverySnapshot) (s : S) : list LogSourceEntry * S :=
  let st := resolve_processes (tcp_port_by_pid snapshot) (processes snapshot) (mk_resolving [] 0 ∅ ∅ s) in
  (rs_out st, rs_search st).
End Resolve.
Arguments mk_resolving {_} _ _ _ _ _. Arguments rs_out {_} _. Arguments rs_inspected {_} _. Arguments rs_per_service {_} _.
Arguments rs_pending {_} _. Arguments rs_search {_} _. Arguments count_of {_} _ _. Arguments push_entry {_} _ _ _. Arguments inspect {_} _.

Section Snapshot.
Context `{Tree} `{ProcFs}.

Definition no_search (service : string) (s : Search) : list Hit * Search := ([], s).
Definition policy_search (policy : SourceSearchPolicy) (service : string) (s : Search) : list Hit * Search :=
  match roots_for policy service with [] => ([], s) | roots => search_with service roots s end.
(** [looks]: how often the search has looked at the clock and the tree so far. *)
Definition resolve_from_snapshot (snapshot : DiscoverySnapshot) (policy : SourceSearchPolicy) (looks : nat) : list LogSourceEntry :=
  if policy_is_empty policy then (resolve RealProc no_search snapshot (budget_new looks)).1
  else (resolve RealProc (policy_search policy) snapshot (budget_new looks)).1.
End Snapshot.

(** * What the rules propose *)

(** A path from the root without empty segments, [.] and [..]. *)
Definition plain_segment (s : string) : Prop := s ≠ "" ∧ s ≠ "." ∧ s ≠ "..".
Definition clean_path (path : string) : Prop := ∃ segments, segments ≠ [] ∧ split_on slash path = "" :: segments ∧ Forall plain_segment segments.

Lemma climb_plain stack segments st : Forall plain_segment stack → climb stack segments = Some st → Forall plain_segment st.
Proof.
  revert stack. induction segments as [|x l IH]; intros stack Hs; cbn [climb]; [by intros [= <-]|].
  destruct (String.eqb_spec x ""); [by apply IH|]. destruct (String.eqb_spec x "."); [by apply IH|]. cbn [orb].
  destruct (String.eqb_spec x ".."); [|by apply IH; constructor]. destruct stack as [|y stack]; [done|]. apply IH. by apply Forall_cons in Hs as [_ ?].
Qed.
Lemma climb_no_slash stack segments st : Forall (λ x, has_char slash x = false) (stack ++ segments) → climb stack segments = Some st → Forall (λ x, has_char slash x = false) st.
Proof.
  revert stack. induction segments as [|x l IH]; intros stack Hs; cbn [climb]; [intros [= <-]; by rewrite List.app_nil_r in Hs|].
  apply Forall_app in Hs as [Hs [Hx Hl]%Forall_cons].
  destruct (_ || _); [apply IH; by apply Forall_app|]. destruct (String.eqb x "..").
  - destruct stack as [|y stack]; [done|]. apply IH. apply Forall_cons in Hs as [_ ?]. by apply Forall_app.
  - apply IH. apply Forall_app. split; [by constructor|done].
Qed.
Lemma absolute_clean raw base path : absolute raw base = Some path → clean_path path.
Proof.
  unfold absolute. cbv zeta. destruct (_ || _); [done|]. set (joined := if starts_with _ _ then _ else _). destruct joined as [joined'|]; [cbn [mbind option_bind]|done].
  destruct (climb [] (split_on slash joined')) as [stack|] eqn:E; [cbn [mbind option_bind]|done]. intros Hp.
  assert (Hne : stack ≠ [] ∧ path = "/" +:+ Text.join "/" (rev stack)) by (destruct stack; [done|by injection Hp as <-]). destruct Hne as [Hne ->].
  exists (rev stack). split; [by intros Hr; apply Hne; rewrite <- (rev_involutive stack), Hr|]. split.
  - change (split_on slash ("/" +:+ ?s)) with ("" :: split_on slash s). f_equal. apply (split_on_join slash); [by intros Hr; apply Hne; rewrite <- (rev_involutive stack), Hr|].
    apply forallb_forall. intros x Hx%in_rev%list_elem_of_In. apply climb_no_slash in E; [|apply Forall_forall; intros y Hy; by apply split_on_pieces in Hy].
    rewrite Forall_forall in E. by rewrite (E _ Hx).
  - apply Forall_rev. by eapply climb_plain.
Qed.
Lemma parent_clean path dir : clean_path path → parent_dir path = Some dir → dir = "/" ∨ clean_path dir.
Proof.
  intros (segments & Hne & Hs & Hp) Hd. unfold parent_dir in Hd. destruct (rsplit_once slash path) as [[x y]|] eqn:E; [|done]. cbn [mbind option_bind] in Hd. injection Hd as <-.
  destruct (String.eqb_spec x ""); [by left|right]. apply rsplit_once_spec in E as ->. rewrite split_on_app in Hs.
  destruct (split_on slash x) as [|a l] eqn:Ex; [by apply split_on_nonempty in Ex|]. cbn in Hs. injection Hs as -> Hs. exists l. split_and!; [| done|].
  - intros ->. apply n. by apply (split_on_inj slash).
  - rewrite <- Hs in Hp. by apply Forall_app in Hp as [? _].
Qed.
Lemma file_parent_clean raw base dir : file_parent raw base = Some dir → dir = "/" ∨ clean_path dir.
Proof. unfold file_parent. destruct (absolute raw base) as [path|] eqn:E; [|done]. cbn. apply parent_clean. by eapply absolute_clean. Qed.
Lemma clean_below path name : clean_path path → plain_segment name → has_char slash name = false → clean_path (path +:+ "/" +:+ name).
Proof.
  intros (segments & Hne & Hs & Hp) Hn Hc. exists (segments ++ [name])%list. split; [by destruct segments|]. split.
  - change (path +:+ "/" +:+ name) with (path +:+ String slash name). by rewrite split_on_app, Hs, split_on_id.
  - apply Forall_app. split; [done|by apply Forall_singleton].
Qed.

Section RuleFacts.
Context `{Tree}.
Implicit Types (ev : Evidence) (p : Proposal).

(** A proposal of a rule: its evidence and confidence are of the closed sets; an open file's is the directory of
    that file, and any other a clean path. *)
Record sound_proposal ev p : Prop := mk_sound_proposal {
  so_evidence : pr_evidence p ∈ ["cmdline_datadir"; "env_datadir"; "cmdline_logfile"; "config_file"; "open_fd"];
  so_confidence : (75 ≤ pr_confidence p ≤ 90)%Z;
  so_dir : if String.eqb (pr_evidence p) "open_fd" then ∃ file, file ∈ ev_open_files ev ∧ parent_dir file = Some (pr_dir p)
           else pr_dir p = "/" ∨ clean_path (pr_dir p);
}.
Definition sound_proposals ev (l : list Proposal) : Prop := Forall (sound_proposal ev) l.

Lemma sound_app ev l1 l2 : sound_proposals ev l1 → sound_proposals ev l2 → sound_proposals ev (l1 ++ l2).
Proof. intros H1 H2. by apply Forall_app. Qed.
Lemma sound_propose ev dir evidence text confidence :
  (∀ d, dir = Some d → d = "/" ∨ clean_path d) → evidence ∈ ["cmdline_datadir"; "env_datadir"; "cmdline_logfile"; "config_file"] → (75 ≤ confidence ≤ 90)%Z →
  sound_proposals ev (propose dir evidence text confidence).
Proof.
  intros Hd He Hc. destruct dir as [d|]; [|constructor]. constructor; [|constructor]. split; cbn.
  - rewrite !elem_of_cons in He. rewrite !elem_of_cons. rewrite elem_of_nil in He. tauto.
  - done.
  - rewrite !elem_of_cons in He. destruct He as [->|[->|[->|[->|He]]]]; [by apply Hd..|by apply elem_of_nil in He].
Qed.
Lemma sound_open ev accepts confidence : (75 ≤ confidence ≤ 90)%Z → sound_proposals ev (open_proposals accepts confidence ev).
Proof.
  intros Hc. apply Forall_forall. intros p Hp. unfold open_proposals in Hp. apply list_elem_of_join in Hp as (l & Hp & Hl).
  apply list_elem_of_fmap in Hl as (file & -> & Hf). destruct (accepts file); [|by apply elem_of_nil in Hp].
  destruct (parent_dir file) as [d|] eqn:E; [|by apply elem_of_nil in Hp]. apply list_elem_of_singleton in Hp as ->.
  split; cbn; [by apply (bool_decide_unpack _); vm_compute|done|by exists file].
Qed.
Lemma sound_mjoin {A} ev (f : A → list Proposal) l : (∀ x, x ∈ l → sound_proposals ev (f x)) → sound_proposals ev (mjoin (f <$> l)).
Proof.
  intros Hf. apply Forall_forall. intros p Hp. apply list_elem_of_join in Hp as (l' & Hp & Hl'). apply list_elem_of_fmap in Hl' as (x & -> & Hx).
  exact (proj1 (Forall_forall _ _) (Hf x Hx) p Hp).
Qed.
Lemma postgres_sound ev : sound_proposals ev (postgres_candidates ev).
Proof.
  unfold postgres_candidates. destruct (postgres_datadir ev) as [[[datadir evidence] text]|] eqn:E; [|constructor].
  assert (Hd : clean_path datadir ∧ (evidence = "cmdline_datadir" ∨ evidence = "env_datadir")).
  { unfold postgres_datadir in E. destruct (or_else (flag_value _ _) _) as [v|]; cbn [mbind option_bind] in E.
    - destruct (absolute v None) as [d|] eqn:Ea; cbn [mbind option_bind or_else] in E; [injection E as -> <- _; split; [by eapply absolute_clean|by left]|].
      destruct (environ_value _ _) as [v'|]; [|done]. cbn [mbind option_bind] in E. destruct (absolute v' None) as [d|] eqn:Ea'; [|done]. injection E as -> <- _. split; [by eapply absolute_clean|by right].
    - cbn [or_else] in E. destruct (environ_value _ _) as [v'|]; [|done]. cbn [mbind option_bind] in E. destruct (absolute v' None) as [d|] eqn:Ea'; [|done].
      injection E as -> <- _. split; [by eapply absolute_clean|by right]. }
  destruct Hd as [Hd He]. apply sound_app; [|apply sound_app].
  - constructor; [|constructor]. split; cbn; [destruct He as [->| ->]; by apply (bool_decide_unpack _); vm_compute|lia|].
    assert (Hc : clean_path (datadir +:+ "/log")) by (apply (clean_below _ "log"); [done|by split|done]). destruct He as [->| ->]; by right.
  - apply sound_propose; [|by apply (bool_decide_unpack _); vm_compute|lia]. intros d Hq. right.
    destruct (ev_read_file ev _) as [conf|]; [|done]. cbn [mbind option_bind] in Hq. destruct (pg_log_directory conf) as [dir|]; [|done]. by eapply absolute_clean.
  - destruct (find_first _ (ev_open_files ev)) as [file|] eqn:Ef; [cbn [mbind option_bind]|constructor]. destruct (parent_dir file) as [d|] eqn:Ep; [|constructor].
    constructor; [|constructor]. split; cbn; [by apply (bool_decide_unpack _); vm_compute|lia|]. exists file. split; [|done]. by apply find_first_Some in Ef as [? _].
Qed.
Lemma file_parent_sound ev value base evidence text confidence :
  evidence ∈ ["cmdline_datadir"; "env_datadir"; "cmdline_logfile"; "config_file"] → (75 ≤ confidence ≤ 90)%Z →
  sound_proposals ev (propose (file_parent value base) evidence text confidence).
Proof. intros He Hc. apply sound_propose; [|done|done]. intros d. apply file_parent_clean. Qed.
Lemma mysql_sound ev : sound_proposals ev (mysql_candidates ev).
Proof.
  unfold mysql_candidates. cbv zeta. apply sound_app; [|apply sound_app].
  - apply sound_mjoin. intros [key label] _. destruct (flag_value _ _); [|constructor]. apply file_parent_sound; [by apply (bool_decide_unpack _); vm_compute|lia].
  - apply sound_mjoin. intros key _. destruct (bt_get _ _); [|constructor]. apply file_parent_sound; [by apply (bool_decide_unpack _); vm_compute|lia].
  - apply sound_open. lia.
Qed.
Lemma redis_sound ev : sound_proposals ev (redis_candidates ev).
Proof.
  unfold redis_candidates. apply sound_app; [|apply sound_app; [|apply sound_open; lia]].
  - destruct (flag_value _ _); [|constructor]. apply file_parent_sound; [by apply (bool_decide_unpack _); vm_compute|lia].
  - match goal with |- context [match ?x with _ => _ end] => destruct x end; [|constructor]. apply file_parent_sound; [by apply (bool_decide_unpack _); vm_compute|lia].
Qed.
Lemma mongod_sound ev : sound_proposals ev (mongod_candidates ev).
Proof.
  unfold mongod_candidates. cbv zeta. repeat apply sound_app; [..|apply sound_open; lia].
  - destruct (flag_value _ _); [|constructor]. apply file_parent_sound; [by apply (bool_decide_unpack _); vm_compute|lia].
  - destruct (_ ≫= fst); [|constructor]. apply file_parent_sound; [by apply (bool_decide_unpack _); vm_compute|lia].
  - destruct (or_else _ _ ≫= _) as [dbpath|] eqn:E; [|constructor]. constructor; [|constructor]. split; cbn; [by apply (bool_decide_unpack _); vm_compute|lia|right].
    apply (clean_below _ "log"); [|by split|done]. destruct (or_else _ _) as [v|]; [|done]. by eapply absolute_clean.
Qed.

Lemma rule_sound exe rule ev : rule_for exe = Some rule → sound_proposals ev (ru_candidates rule ev).
Proof.
  intros Hr. apply find_first_Some in Hr as [Hin _]. unfold RULES in Hin. rewrite !elem_of_cons in Hin.
  destruct Hin as [->|[->|[->|[->|Hin]]]]; [apply postgres_sound|apply mysql_sound|apply redis_sound|apply mongod_sound|by apply elem_of_nil in Hin].
Qed.

(** C32. Whatever a process was started with, whatever its configuration and its open files are, a rule proposes
    only directories in a clean form, relative ones completed, with a reason and a weight of the closed sets;
    the reason that a file is open is given only for the directory of a file that is open. *)
Theorem proposals_are_sound exe rule ev : rule_for exe = Some rule →
  basename exe ∈ ru_executables rule ∧ Forall (sound_proposal ev) (ru_candidates rule ev).
Proof.
  intros Hr. split; [|by eapply rule_sound]. apply find_first_Some in Hr as [_ Hb]. apply existsb_exists in Hb as (name & Hn & ->%String.eqb_eq). by apply list_elem_of_In.
Qed.
End RuleFacts.

(** * What is told of a host *)

Section ResolveFacts.
Context `{Tree} {S : Type}.
Variables (proc : ProcAccess) (search : string → S → list Hit * S) (ports : gmap Z Z) (l : list ObservedProcess).

(** The searches made, with what they found. *)
Definition logged (service : string) (s : S * list (string * list Hit)) : list Hit * (S * list (string * list Hit)) :=
  let '(hits, s') := search service s.1 in (hits, (s', (s.2 ++ [(service, hits)])%list)).
Notation State := (Resolving (S := S * list (string * list Hit))).
Implicit Types (st : State) (e : LogSourceEntry) (log : list (string * list Hit)).

Definition log_of st : list (string * list Hit) := (rs_search st).2.
Definition of_service (service : string) (out : list LogSourceEntry) : list LogSourceEntry := List.filter (λ e, String.eqb (ls_service e) service) out.
(** The directories of the search that were told. *)
Definition hits_told (service : string) (out : list LogSourceEntry) : list string :=
  ls_dir <$> List.filter (λ e, String.eqb (ls_evidence e) "search_hit") (of_service service out).

(** An entry tells of a process with a rule: a directory that was proposed and is there, as the process sees
    it, or as the host does when the process is in no container; or, when none is there, a hit of the search, or nothing. *)
Definition told log e : Prop := ∃ process rule, process ∈ l ∧ rule_for (op_exe process) = Some rule ∧
  ls_service e = ru_service rule ∧ ls_source_ref e = identity ports (op_pid process) ∧
  ((∃ p, p ∈ ru_candidates rule (evidence_of proc (op_pid process)) ∧ ls_evidence e = pr_evidence p ∧
      (pa_canonical_dir proc (rooted (op_pid process) (pr_dir p)) = Some (ls_dir e) ∨
       op_container_id process = None ∧ pa_canonical_dir proc (pr_dir p) = Some (ls_dir e))) ∨
   (∀ p, p ∈ ru_candidates rule (evidence_of proc (op_pid process)) → pa_canonical_dir proc (rooted (op_pid process) (pr_dir p)) = None) ∧
   ∃ hits, (ru_service rule, hits) ∈ log ∧
     (ls_evidence e = "search_hit" ∧ ls_dir e ∈ log_dir <$> hits ∨ ls_evidence e = "unresolved" ∧ ls_dir e = "")).
Lemma told_more log log' e : told log e → told (log ++ log') e.
Proof.
  intros (process & rule & H1 & H2 & H3 & H4 & H5). exists process, rule. split_and!; [done..|]. destruct H5 as [H5|(H5 & hits & H6 & H7)]; [by left|right].
  split; [done|]. exists hits. split; [apply elem_of_app; by left|done].
Qed.

Record resolving st : Prop := mk_resolving_inv {
  ri_inspected : length (rs_out st) ≤ rs_inspected st ≤ MAX_INSPECTED_PROCESSES;
  ri_counts : ∀ service, count_of st service = length (of_service service (rs_out st)) ∧ count_of st service ≤ MAX_CANDIDATES_PER_SERVICE;
  ri_once : NoDup (log_of st).*1;
  ri_pending : ∀ service, match rs_pending st !! service with
    | None => service ∉ (log_of st).*1 ∧ hits_told service (rs_out st) = []
    | Some rest => ∃ hits, (service, hits) ∈ log_of st ∧ log_dir <$> hits = hits_told service (rs_out st) ++ (log_dir <$> rest)
    end;
  ri_told : Forall (told (log_of st)) (rs_out st);
}.

Lemma choose_some process proposals dir p confidence : choose proc process proposals = Some (dir, p, confidence) → p ∈ proposals ∧
  (pa_canonical_dir proc (rooted (op_pid process) (pr_dir p)) = Some dir ∨ op_container_id process = None ∧ pa_canonical_dir proc (pr_dir p) = Some dir).
Proof.
  induction proposals as [|q proposals IH]; [done|]. cbn [choose]. destruct (pa_canonical_dir proc (rooted _ (pr_dir q))) as [d|] eqn:E1.
  { intros [= -> -> _]. split; [by left|by left]. }
  destruct (op_container_id process) as [c|] eqn:Ec; cbn [is_some].
  - intros Hc. apply IH in Hc as [? ?]. split; [by right|done].
  - destruct (pa_canonical_dir proc (pr_dir q)) as [d|] eqn:E2; [|intros Hc; apply IH in Hc as [? ?]; split; [by right|done]].
    intros [= -> -> _]. split; [by left|by right].
Qed.
Lemma choose_none process proposals : choose proc process proposals = None → ∀ p, p ∈ proposals → pa_canonical_dir proc (rooted (op_pid process) (pr_dir p)) = None.
Proof.
  induction proposals as [|q proposals IH]; intros Hc p Hp; [by apply elem_of_nil in Hp|]. cbn [choose] in Hc.
  destruct (pa_canonical_dir proc (rooted _ (pr_dir q))) as [d|] eqn:E1; [done|]. apply elem_of_cons in Hp as [->|Hp]; [done|]. apply IH; [|done].
  by destruct (if is_some _ then _ else _).
Qed.

Lemma hits_told_snoc service out e :
  hits_told service (out ++ [e]) = (hits_told service out ++ (if String.eqb (ls_service e) service && String.eqb (ls_evidence e) "search_hit" then [ls_dir e] else []))%list.
Proof.
  unfold hits_told, of_service. rewrite List.filter_app. cbn [List.filter]. rewrite List.filter_app, fmap_app. f_equal.
  destruct (String.eqb (ls_service e) service); [|done]. cbn [List.filter andb]. by destruct (String.eqb (ls_evidence e) "search_hit").
Qed.
Lemma of_service_snoc service out e : length (of_service service (out ++ [e])) = length (of_service service out) + (if String.eqb (ls_service e) service then 1 else 0).
Proof. unfold of_service. rewrite List.filter_app, length_app. cbn [List.filter]. by destruct (String.eqb _ _). Qed.

(** A process that is inspected, before its entry is told. *)
Lemma inspect_resolving st : resolving st → rs_inspected st < MAX_INSPECTED_PROCESSES → resolving (inspect st).
Proof. intros [Hi Hc Ho Hp Ht] Hlt. split; [cbn; lia|done..]. Qed.

Lemma take_hit_spec service st hit st' : resolving st → take_hit logged service st = (hit, st') →
  rs_out st' = rs_out st ∧ rs_inspected st' = rs_inspected st ∧ rs_per_service st' = rs_per_service st ∧
  (∃ more, log_of st' = (log_of st ++ more)%list) ∧ NoDup (log_of st').*1 ∧
  (∃ hits rest, (service, hits) ∈ log_of st' ∧ rs_pending st' !! service = Some rest ∧
    log_dir <$> hits = (hits_told service (rs_out st) ++ (log_dir <$> option_list hit) ++ (log_dir <$> rest))%list) ∧
  (∀ other, other ≠ service → rs_pending st' !! other = rs_pending st !! other ∧ (other ∈ (log_of st').*1 ↔ other ∈ (log_of st).*1)).
Proof.
  intros [Hi Hc Ho Hp Ht] E. unfold take_hit in E. specialize (Hp service).
  destruct (rs_pending st !! service) as [rest|] eqn:Ep.
  - destruct Hp as (hits & Hin & Hh). assert (Hst : ∃ rest', hit = head rest ∧ rest' = tail rest ∧ st' = mk_resolving (rs_out st) (rs_inspected st) (rs_per_service st) (<[service := rest']> (rs_pending st)) (rs_search st)).
    { destruct rest as [|h rest]; injection E as <- <-; by eexists. }
    destruct Hst as (rest' & -> & -> & ->). unfold log_of. cbn. split_and!; [done..|exists []; by rewrite List.app_nil_r|done| |].
    + exists hits, (tail rest). rewrite lookup_insert_eq. split_and!; [done|done|]. rewrite Hh. by destruct rest.
    + intros other Hne. by rewrite lookup_insert_ne.
  - destruct Hp as [Hnot Hnone]. unfold logged in E. destruct (search service (rs_search st).1) as [hits s'] eqn:Es.
    assert (Hst : hit = head hits ∧ st' = mk_resolving (rs_out st) (rs_inspected st) (rs_per_service st) (<[service := tail hits]> (rs_pending st)) (s', (log_of st ++ [(service, hits)])%list)).
    { destruct hits as [|h hits]; by injection E as <- <-. }
    destruct Hst as [-> ->]. unfold log_of at 1 2 3 4 5. cbn. split_and!; [done..|by eexists| | |].
    + rewrite fmap_app. apply NoDup_app. split_and!; [done| |apply NoDup_singleton]. intros x Hx Hx'. apply list_elem_of_singleton in Hx' as ->. done.
    + exists hits, (tail hits). rewrite lookup_insert_eq. split_and!; [apply elem_of_app; right; by left|done|]. rewrite Hnone. by destruct hits.
    + intros other Hne. rewrite lookup_insert_ne by done. split; [done|]. rewrite fmap_app, elem_of_app. cbn. rewrite list_elem_of_singleton. naive_solver.
Qed.

(** An entry is told after the search was asked, or without it. *)
Lemma push_resolving service e st st' : resolving st → ls_service e = service → length (rs_out st) < rs_inspected st →
  count_of st service < MAX_CANDIDATES_PER_SERVICE →
  rs_out st' = rs_out st → rs_inspected st' = rs_inspected st → rs_per_service st' = rs_per_service st →
  (∃ more, log_of st' = (log_of st ++ more)%list) → NoDup (log_of st').*1 → told (log_of st') e →
  (∀ other, match rs_pending st' !! other with
    | None => other ∉ (log_of st').*1 ∧ hits_told other (rs_out st ++ [e]) = []
    | Some rest => ∃ hits, (other, hits) ∈ log_of st' ∧ log_dir <$> hits = (hits_told other (rs_out st ++ [e]) ++ (log_dir <$> rest))%list
    end) → resolving (push_entry service e st').
Proof.
  intros [Hi Hc Ho Hp Ht] Hse Hlt Hcnt Ho' Hi' Hs' [more Hl'] Hnd Hte Hp'. split.
  - cbn. rewrite Ho', Hi', length_app. cbn. lia.
  - intros other. destruct (Hc other) as [H1 H2]. unfold count_of, push_entry. cbn [rs_per_service rs_out]. rewrite Ho', of_service_snoc, Hse, Hs'.
    destruct (String.eqb_spec service other) as [->|Hne].
    + rewrite lookup_insert_eq. cbn. unfold count_of. rewrite Hs'. unfold count_of in *. lia.
    + rewrite lookup_insert_ne by done. unfold count_of in *. lia.
  - exact Hnd.
  - intros other. specialize (Hp' other). cbn [push_entry rs_pending rs_out]. by rewrite Ho'.
  - cbn [push_entry rs_out]. rewrite Ho'. apply Forall_app. split; [|by apply Forall_singleton]. unfold log_of in *. cbn. rewrite Hl'.
    eapply Forall_impl; [exact Ht|]. intros x. apply told_more.
Qed.

Lemma entry_step process rule st : process ∈ l → rule_for (op_exe process) = Some rule → resolving st → length (rs_out st) < rs_inspected st →
  count_of st (ru_service rule) < MAX_CANDIDATES_PER_SERVICE →
  let '(entry, st') := entry_for proc logged ports process rule st in
  match entry with Some e => resolving (push_entry (ru_service rule) e st') | None => resolving st' end.
Proof.
  intros Hin Hrule Hst Hlt Hcnt. unfold entry_for. cbv zeta. set (proposals := ru_candidates rule _).
  destruct (choose proc process proposals) as [[[dir p] confidence]|] eqn:Ech.
  - apply choose_some in Ech as [Hp Hdir]. pose proof (proj1 (Forall_forall _ _) (rule_sound _ _ (evidence_of proc (op_pid process)) Hrule) p Hp) as [Hev _ _].
    assert (Hne : String.eqb (pr_evidence p) "search_hit" = false).
    { apply String.eqb_neq. intros Hq. rewrite Hq in Hev. revert Hev. by apply (bool_decide_unpack _); vm_compute. }
    apply (push_resolving _ _ st); [done..|exists []; by rewrite List.app_nil_r|apply Hst| |].
    + exists process, rule. split_and!; [done..|]. left. by exists p.
    + intros other. pose proof (ri_pending _ Hst other) as Hp'. rewrite hits_told_snoc. cbn [ls_evidence]. by rewrite Hne, andb_false_r, List.app_nil_r.
  - pose proof (choose_none _ _ Ech) as Hnone.
    destruct (ru_counts_without_candidates rule || negb (Nat.eqb (length proposals) 0)) eqn:Einst.
    2: { apply orb_false_iff in Einst as [-> Hlen%negb_false_iff%Nat.eqb_eq]. by destruct proposals. }
    destruct (take_hit logged (ru_service rule) st) as [hit st'] eqn:Et. pose proof (take_hit_spec _ _ _ _ Hst Et) as (Ho & Hi & Hs & Hmore & Hnd & (hits & rest & Hlog & Hpend & Hdirs) & Hother).
    assert (Hpush : ∀ e, ls_service e = ru_service rule → ls_source_ref e = identity ports (op_pid process) →
      (if String.eqb (ls_evidence e) "search_hit" then [ls_dir e] else []) = (log_dir <$> option_list hit) →
      (ls_evidence e = "search_hit" ∧ ls_dir e ∈ log_dir <$> hits ∨ ls_evidence e = "unresolved" ∧ ls_dir e = "") → resolving (push_entry (ru_service rule) e st')).
    { intros e He Href Hev Hwhat. apply (push_resolving _ _ st); [done..| |].
      - exists process, rule. split_and!; [done..|]. right. split; [done|]. by exists hits.
      - intros other. rewrite hits_told_snoc, He. destruct (String.eqb_spec (ru_service rule) other) as [<-|Hne].
        + rewrite Hpend. cbn [andb]. rewrite Hev. exists hits. split; [done|]. by rewrite Hdirs, (assoc_L (++)%list).
        + destruct (Hother other) as [Hq1 Hq2]; [done|]. rewrite Hq1. cbn [andb]. rewrite List.app_nil_r. pose proof (ri_pending _ Hst other) as Hp'.
          destruct (rs_pending st !! other) as [rest'|]; [|by rewrite Hq2]. destruct Hp' as (hits' & Hl' & Hd'). exists hits'. split; [|done].
          destruct Hmore as [more ->]. apply elem_of_app. by left. }
    destruct hit as [hit|].
    + apply Hpush; [done..|]. left. split; [done|]. cbn [ls_dir]. rewrite Hdirs. apply elem_of_app. right. apply elem_of_app. left. by left.
    + destruct proposals as [|p0 ps] eqn:Epr; [|apply Hpush; [done..|by right]].
      cbn in Einst. rewrite orb_false_r in Einst. rewrite Einst. apply Hpush; [done..|by right].
Qed.
Lemma resolve_run rest st : rest ⊆ l → resolving st → resolving (resolve_processes proc logged ports rest st).
Proof.
  revert st. induction rest as [|process rest IH]; intros st Hsub Hst; [done|]. cbn [resolve_processes].
  assert (Hin : process ∈ l) by (apply Hsub; by left). assert (Hsub' : rest ⊆ l) by (intros x Hx; apply Hsub; by right).
  destruct (rule_for (op_exe process)) as [rule|] eqn:Er; [|by apply IH]. destruct (Nat.leb_spec MAX_INSPECTED_PROCESSES (rs_inspected st)); [done|].
  destruct (Nat.leb_spec MAX_CANDIDATES_PER_SERVICE (count_of st (ru_service rule))); [by apply IH|].
  pose proof (entry_step process rule (inspect st) Hin Er (inspect_resolving _ Hst ltac:(done))) as Hstep.
  destruct (entry_for proc logged ports process rule (inspect st)) as [[e|] st'];
    apply IH; try done; apply Hstep; try done; pose proof (ri_inspected _ Hst); cbn; lia.
Qed.
Lemma resolving_start s : resolving (mk_resolving [] 0 ∅ ∅ (s, [])).
Proof.
  split; cbn; [unfold MAX_INSPECTED_PROCESSES; lia| |constructor| |constructor].
  - intros service. unfold count_of, MAX_CANDIDATES_PER_SERVICE. cbn. rewrite lookup_empty. cbn. lia.
  - intros service. rewrite lookup_empty. split; [apply not_elem_of_nil|done].
Qed.
End ResolveFacts.

(** C17. What is told of a host: at most 16 entries and four per service; the search of a service is made at most
    once, and its hits are told in order, none of them twice; every entry is of a running process of the service,
    with a directory that a rule proposes and that is there as the process sees it (as the host sees it only when
    the process is in no container); only when no proposal of the process is there, it has a hit of the search, or,
    the search having been made, is told as unresolved, without a directory. *)
Theorem sources_are_found `{Tree} {S} (proc : ProcAccess) (search : string → S → list Hit * S) (snapshot : DiscoverySnapshot) (s : S) :
  let '(out, (s', searches)) := resolve proc (logged search) snapshot (s, []) in
  length out ≤ MAX_INSPECTED_PROCESSES ∧ NoDup searches.*1 ∧
  (∀ service, length (of_service service out) ≤ MAX_CANDIDATES_PER_SERVICE ∧
    (hits_told service out = [] ∨ ∃ hits rest, (service, hits) ∈ searches ∧ log_dir <$> hits = hits_told service out ++ rest)) ∧
  Forall (told proc (tcp_port_by_pid snapshot) (processes snapshot) searches) out.
Proof.
  unfold resolve. pose proof (resolve_run proc search (tcp_port_by_pid snapshot) (processes snapshot) (processes snapshot) _ (reflexivity _) (resolving_start _ _ _ s)) as [Hi Hc Ho Hp Ht].
  set (st := resolve_processes _ _ _ _ _) in *. destruct (rs_search st) as [s' searches] eqn:Es. unfold log_of in *. rewrite Es in *. cbn [snd] in *.
  split; [lia|]. split; [done|]. split; [|done]. intros service. destruct (Hc service) as [Hc1 Hc2]. split; [lia|]. specialize (Hp service).
  destruct (rs_pending st !! service) as [rest|]; [right|left; apply Hp]. destruct Hp as (hits & Hin & Hh). by exists hits, (log_dir <$> rest).
Qed.

(** ** Who a process is *)

Definition listens (l : list DiscoveredResource) (pid port : Z) : Prop := ∃ r, r ∈ l ∧ tcp_listener r = Some (pid, port).
Lemma listens_snoc l r pid port : listens (l ++ [r]) pid port ↔ listens l pid port ∨ tcp_listener r = Some (pid, port).
Proof.
  unfold listens. split.
  - intros (x & [Hx|Hx%list_elem_of_singleton]%elem_of_app & E); [left; by exists x|subst; by right].
  - intros [(x & Hx & E)|E]; [exists x|exists r]; (split; [apply elem_of_app|done]); [by left|right; by left].
Qed.
Lemma ports_lowest l pid : match foldl add_listener ∅ l !! pid with
  | Some port => listens l pid port ∧ ∀ q, listens l pid q → (port ≤ q)%Z
  | None => ∀ q, ¬ listens l pid q
  end.
Proof.
  induction l as [|r l IH] using rev_ind; [cbn; rewrite lookup_empty; intros q (x & Hx & _); by apply elem_of_nil in Hx|]. rewrite foldl_app. cbn [foldl]. set (m := foldl add_listener ∅ l) in *. unfold add_listener.
  destruct (tcp_listener r) as [[pid' port']|] eqn:E.
  - destruct (decide (pid' = pid)) as [->|Hne].
    + rewrite lookup_insert_eq. destruct (m !! pid) as [port|].
      * destruct IH as [H1 H2]. split.
        { apply listens_snoc. destruct (Z.min_spec port port') as [[_ ->]|[_ ->]]; [by left|by right]. }
        intros q [Hq|Hq]%listens_snoc; [specialize (H2 q Hq); lia|]. rewrite E in Hq. injection Hq as <-. lia.
      * split; [apply listens_snoc; by right|]. intros q [Hq|Hq]%listens_snoc; [by apply IH in Hq|]. rewrite E in Hq. by injection Hq as <-.
    + rewrite lookup_insert_ne by done. assert (Hq : ∀ q, listens (l ++ [r]) pid q ↔ listens l pid q).
      { intros q. rewrite listens_snoc, E. split; [intros [?|[= ? _]]; [done|congruence]|by left]. }
      destruct (m !! pid) as [port|]; [destruct IH as [H1 H2]; split; [by apply Hq|intros q ?%Hq; by apply H2]|intros q ?%Hq; by eapply IH].
  - assert (Hq : ∀ q, listens (l ++ [r]) pid q ↔ listens l pid q) by (intros q; rewrite listens_snoc, E; naive_solver).
    destruct (m !! pid) as [port|]; [destruct IH as [H1 H2]; split; [by apply Hq|intros q ?%Hq; by apply H2]|intros q ?%Hq; by eapply IH].
Qed.

(** The identity of a process depends only on which ports its processes listen to, not on the order in which a
    snapshot lists them, so it stays from one snapshot to the next. *)
Theorem identity_is_stable s1 s2 pid : (∀ q port, listens (sn_resources s1) q port ↔ listens (sn_resources s2) q port) →
  identity (tcp_port_by_pid s1) pid = identity (tcp_port_by_pid s2) pid.
Proof.
  intros Hsame. unfold identity, tcp_port_by_pid. pose proof (ports_lowest (sn_resources s1) pid) as H1. pose proof (ports_lowest (sn_resources s2) pid) as H2.
  destruct (foldl _ _ (sn_resources s1) !! pid) as [p1|], (foldl _ _ (sn_resources s2) !! pid) as [p2|]; [..|done].
  - destruct H1 as [L1 M1], H2 as [L2 M2]. assert (p1 = p2) as ->; [|done]. apply Z.le_antisymm; [by apply M1, Hsame|by apply M2, Hsame].
  - destruct H1 as [L1 _]. by apply Hsame, H2 in L1.
  - destruct H2 as [L2 _]. by apply Hsame, H1 in L2.
Qed.

(** * The report (control/log_sources.rs) *)

Definition REPORT_KIND : string := "log_sources".
Record LogSourceReport := mk_source_report {
  lr_api_version : string;
  lr_kind : string;
  lr_agent_id : string;
  lr_instance_id : string;
  lr_observed_at : string;
  lr_sources : list LogSourceEntry;
}.
Record LogSourceReportAck := mk_source_ack { la_accepted : nat; la_rejected : nat }.
(** [reqwest]: an error of sending, or a status and a body. *)
Inductive PostAnswer := PostFailed (err : string) | PostAnswered (status : Z) (body : string).
(** The gateway, which may remember what was posted before, and the decoding of what it says. *)
Class SourcesGateway := {
  post_sources : list (string * LogSourceReport) → PostAnswer;
  decode_ack : string → string + LogSourceReportAck;
}.
(** What is read of the configuration; the client may fail to be built. *)
Record SourcesConfig := mk_sources_config {
  sc_source_resolve : bool;
  sc_endpoint : option string;
  sc_agent : option string;
  sc_state_dir : string;
  sc_client : string + unit;
}.
Record Report `{Os} := mk_report { rp_world : World; rp_posted : list (string * LogSourceReport) }.
Arguments mk_report {_} _ _.

Section Report.
Context `{Host} `{Tree} `{ProcFs} `{PolicyApi} `{!Json SourceSearchPolicy} `{SourcesGateway}.

Definition rp_on_world {A} (m : M World A) : M Report A := zoom rp_world (λ w r, mk_report w (rp_posted r)) m.
Definition rp_post (url : string) (report : LogSourceReport) : M Report PostAnswer := act (λ r,
  let posted := (rp_posted r ++ [(url, report)])%list in (Ok (post_sources posted), mk_report (rp_world r) posted)).
Definition report_log_sources (config : SourcesConfig) (looks : nat) (snapshot : option DiscoverySnapshot) (instance_id : string) : M Report (string + nat) :=
  if negb (sc_source_resolve config) then mret (inr 0)
  else
    match snapshot with
    | None => mret (inr 0)
    | Some snapshot =>
        if negb (existsb (λ resource, String.eqb (dr_kind resource) "process") (sn_resources snapshot)) then mret (inr 0)
        else
          policy ← rp_on_world (search_load (sc_state_dir config));
          let sources := resolve_from_snapshot snapshot policy looks in
          match sc_endpoint config, sc_agent config, sc_client config with
          | None, _, _ => mret (inl "no control_plane.endpoint configured")
          | Some _, None, _ => mret (inl "not enrolled (agent.agent_id is empty)")
          | Some _, Some _, inl err => mret (inl err)
          | Some endpoint, Some agent_id, inr _ =>
              observed_at ← rp_on_world now_rfc3339;
              let report := mk_source_report API_VERSION_V1 REPORT_KIND agent_id instance_id observed_at sources in
              let url := trim_end_char slash endpoint +:+ "/api/v1/agent/log-sources" in
              answer ← rp_post url report;
              match answer with
              | PostFailed err => mret (inl err)
              | PostAnswered status body =>
                  if Z.eqb status NOT_FOUND then mret (inr 0)
                  else if negb (is_success status) then mret (inl ("HTTP " +:+ display_status status +:+ " from " +:+ url +:+ ": " +:+ body))
                  else
                    match decode_ack body with
                    | inl err => mret (inl ("invalid log source ack: " +:+ err))
                    | inr ack => mret (inr (la_accepted ack))
                    end
              end
          end
    end.

(** A report ends, with an answer or an error of its own, and writes nothing. *)
Lemma search_load_run state_dir w : ∃ policy, search_load state_dir w = (Ok policy, w).
Proof.
  unfold search_load, try, fs_read, guard_fault, act, mbind, M_bind. destruct (fs_fault OpRead _) as [e|]; cbn; [by eexists|].
  destruct (files w !! _); by eexists.
Qed.
Lemma report_log_sources_run config looks snapshot instance_id r :
  ∃ answer r', report_log_sources config looks snapshot instance_id r = (Ok answer, r') ∧ rp_world r' = rp_world r.
Proof.
  unfold report_log_sources. destruct (negb _); [by eexists _, r|]. destruct snapshot as [s|]; [|by eexists _, r].
  destruct (negb _); [by eexists _, r|]. destruct (search_load_run (sc_state_dir config) (rp_world r)) as [policy El].
  assert (El' : rp_on_world (search_load (sc_state_dir config)) r = (Ok policy, mk_report (rp_world r) (rp_posted r))) by (unfold rp_on_world, zoom; by rewrite El).
  erewrite bind_ok by exact El'. cbv zeta.
  destruct (sc_endpoint config); [|by eexists _, _]. destruct (sc_agent config); [|by eexists _, _]. destruct (sc_client config); [by eexists _, _|].
  unfold now_rfc3339, rp_on_world, rp_post, act, zoom, gets, mbind, M_bind. cbn [rp_world rp_posted].
  destruct (post_sources _) as [err|status body]; [|destruct (Z.eqb status NOT_FOUND); [|destruct (negb _); [|destruct (decode_ack body)]]]; by eexists _, _.
Qed.

(** Nothing is posted but what was just resolved from a snapshot with processes in it, so that a probe that is
    switched off or failed never empties the gateway's list; and what counts as accepted was acknowledged. *)
Theorem blind_reports_are_withheld config looks snapshot instance_id r : let '(answer, r') := report_log_sources config looks snapshot instance_id r in
  (rp_posted r' = rp_posted r ∧ (answer = Ok (inr 0) ∨ ∃ err, answer = Ok (inl err)) ∨
   ∃ s url report, rp_posted r' = (rp_posted r ++ [(url, report)])%list ∧ sc_source_resolve config = true ∧ snapshot = Some s ∧
     (∃ x, x ∈ sn_resources s ∧ dr_kind x = "process") ∧ lr_sources report = resolve_from_snapshot s (default search_policy_default (result_ok (search_load (sc_state_dir config) (rp_world r)).1)) looks ∧
     Some (lr_agent_id report) = sc_agent config ∧
     ∀ n, answer = Ok (inr (Datatypes.S n)) → ∃ status body ack, post_sources (rp_posted r') = PostAnswered status body ∧ is_success status = true ∧ decode_ack body = inr ack ∧ la_accepted ack = Datatypes.S n).
Proof.
  unfold report_log_sources. destruct (sc_source_resolve config); cbn [negb]; [|left; split; [done|by left]]. destruct snapshot as [s|]; [|left; split; [done|by left]].
  destruct (existsb _ (sn_resources s)) eqn:Ep; cbn [negb]; [|left; split; [done|by left]]. apply existsb_exists in Ep as (x & Hx & Hk%String.eqb_eq).
  destruct (search_load_run (sc_state_dir config) (rp_world r)) as [policy El]. set (w := rp_world r) in El at 2. assert (El' : rp_on_world (search_load (sc_state_dir config)) r = (Ok policy, mk_report w (rp_posted r))) by (unfold rp_on_world, zoom; by rewrite El).
  erewrite bind_ok by exact El'. rewrite El. cbn [fst result_ok default]. cbv zeta.
  destruct (sc_endpoint config) as [endpoint|]; [|left; split; [done|right; by eexists]]. destruct (sc_agent config) as [agent_id|]; [|left; split; [done|right; by eexists]].
  destruct (sc_client config) as [err|u]; [left; split; [done|right; by eexists]|].
  unfold now_rfc3339, rp_on_world, rp_post, act, zoom, gets, mbind, M_bind. cbn [rp_world rp_posted].
  set (report := mk_source_report _ _ _ _ _ _). set (url := _ +:+ "/api/v1/agent/log-sources").
  destruct (post_sources (rp_posted r ++ [(url, report)])) as [err|status body] eqn:Epost;
    [|destruct (Z.eqb status NOT_FOUND); [|destruct (is_success status) eqn:Esucc; cbn [negb]; [destruct (decode_ack body) as [err|ack] eqn:Eack|]]];
    cbn; right; exists s, url, report; (split_and!; [done|done|done|exists x; split; [by apply list_elem_of_In|done]|done|done|]); intros n Hn; try discriminate Hn. injection Hn as Hn. by eexists _, _, _.
Qed.
End Report.

(** * A concrete host *)

Module ConcreteSources.
Import ConcreteSearch.

Definition running (pid exe : string) (container : option string) : DiscoveredResource :=
  mk_resource ("p" +:+ pid) "process" 0 (match container with Some c => [("container.id", c)] | None => [] end ++ [("process.executable.name", exe); ("process.pid", pid)]) "t" "t" "healthy" "proc".
Definition listening (pid port : string) : DiscoveredResource :=
  mk_resource ("e" +:+ pid) "service_endpoint" 0 [("endpoint.bind.port", port); ("endpoint.protocol", "tcp"); ("process.pid", pid)] "t" "t" "healthy" "proc".
Definition seen (resources : list DiscoveredResource) : DiscoverySnapshot := mk_snapshot "v1" "s" 1 "t" [] resources [].

(** MySQL in a container (pid 7), which says where its log is but not where the host has it, and Redis (pid 9),
    which tells nothing. *)
Definition toy_proc : ProcAccess := {|
  pa_nul_list pid file := match file with Cmdline => if Z.eqb pid 7 then ["mysqld"; "--datadir=/var/lib/mysql"; "--log-error=../log/my.err"] else ["redis-server"] | Environ => [] end;
  pa_cwd _ := None;
  pa_open_files _ := [];
  pa_read_file _ := None;
  pa_canonical_dir path := if String.eqb path "/proc/7/root/var/lib/log" then Some "/docker/7/log" else if String.eqb path "/var/lib/log" then Some "/var/lib/log" else None;
|}.
Definition toy_search (service : string) (n : nat) : list Hit * nat := ([mk_hit "/srv/redis/log" "found"], n + 1).
Definition two_services : DiscoverySnapshot :=
  seen [running "7" "/usr/sbin/mysqld" (Some "c7"); running "9" "redis-server" None; running "10" "redis-server" None; listening "7" "33060"; listening "7" "3306"].
Example two_services_told :
  (λ e, (ls_service e, ls_source_ref e, ls_dir e, ls_evidence e)) <$> (resolve toy_proc toy_search two_services 0).1 =
    [("mysql", "port:3306", "/docker/7/log", "cmdline_logfile"); ("redis", "pid:9", "/srv/redis/log", "search_hit"); ("redis", "pid:10", "", "unresolved")] ∧
  (resolve toy_proc toy_search two_services 0).2 = 1.
Proof. by vm_compute. Qed.

(** The limit on the processes inspected counts the workers of PostgreSQL, which are told nothing of: with 16 of
    them ahead, a database behind them is never looked at. *)
Definition workers (n : nat) : list DiscoveredResource := (λ i, running (pretty (100 + Z.of_nat i)%Z) "postgres" None) <$> seq 0 n.
Example workers_starve_the_others :
  (λ n, length (resolve toy_proc toy_search (seen (workers n ++ [running "9" "redis-server" None])) 0).1) <$> [15; 16] = [1; 0].
Proof. by vm_compute. Qed.

(** [absolute] is documented to refuse [..]; it goes one segment back. *)
Example parent_segments_are_followed : absolute "../log/my.err" (Some "/var/lib/mysql") = Some "/var/lib/log/my.err" ∧ absolute "/../x" None = None.
Proof. by vm_compute. Qed.

Lemma proposals_are_sound_witness :
  let ev := evidence_of toy_proc 7 in
  basename "/usr/sbin/mysqld" ∈ ru_executables MYSQL ∧ Forall (sound_proposal ev) (ru_candidates MYSQL ev) ∧ pr_dir <$> ru_candidates MYSQL ev = ["/var/lib/log"].
Proof.
  intros ev. destruct (proposals_are_sound "/usr/sbin/mysqld" MYSQL ev) as [H1 H2]; [reflexivity|]. split; [exact H1|]. split; [exact H2|]. vm_compute. reflexivity.
Defined.
End ConcreteSources.
