(* ===== verification/Inputs.v ===== *)
(** The log inputs of a tick (runtime/daemon_telemetry.rs and daemon_telemetry_support.rs, without the
    exporters): which output is in effect, the framing it needs, the granted inputs one after another with
    the time they may take to catch up, what is reported of them, and the memory of the uplink's health. *)
From stdpp Require Import pretty.
From S2P Require Import Prelude Text Host Fmt Telemetry Reader LogToy Records Delivery Checkpoint Select FileInput Family BTree Work Policies Wire.

(** * Configuration and data *)

(** The parts of [AgentConfig] that are read here. *)
Record LogsSection := mk_logs {
  lg_in_memory_buffer_bytes : Z;
  lg_max_line_bytes : Z;
  lg_max_read_bytes_per_tick : Z;
  lg_max_lines_per_tick : Z;
  lg_catchup_slice_ms : Z;
  lg_catchup_budget_ms : Z;
  lg_spool_max_bytes : Z;
  lg_spool_dir : string;
  lg_output : LogsOutputSection;
}.
Record TickConfig := mk_tick_config { tg_agent_id : option string; tg_state_dir : string; tg_logs : LogsSection }.

Inductive TelemetryFailureKind :=
| MissingInput | ProcessingFailed | InvalidOutput | RecordWithheld | TruncatedLine | CapacityExceeded | NoiseDropped | SelectionFiltered
| OutputWriteFailed.
#[export] Instance TelemetryFailureKind_eq_dec : EqDecision TelemetryFailureKind.
Proof. solve_decision. Defined.
Record TelemetryFailure := mk_telemetry_failure {
  fl_kind : TelemetryFailureKind;
  fl_input_id : string;
  fl_path : string;
  fl_detail : string;
  fl_magnitude : option string;
}.

Inductive WorkState := Paused | Resumed.
#[export] Instance WorkState_eq_dec : EqDecision WorkState.
Proof. solve_decision. Defined.
Record TelemetryWorkState := mk_work_state { ws_input_id : string; ws_state : WorkState; ws_reason : string; ws_at : string }.
Record TelemetryTick := mk_telemetry_tick {
  tt_outcomes : list ProcessOutcome;
  tt_failures : list TelemetryFailure;
  tt_notifications : list TelemetryWorkState;
}.
Definition silent : TelemetryTick := mk_telemetry_tick [] [] [].
Definition is_active (t : TelemetryTick) : bool :=
  existsb (λ f, negb (bool_decide (fl_kind f = NoiseDropped)) && negb (bool_decide (fl_kind f = SelectionFiltered))) (tt_failures t)
  || existsb (λ o, Z.ltb 0 (po_records_processed o) || Nat.ltb 0 (po_replayed_spool o) || Z.ltb 0 (po_spooled o) || po_paused o) (tt_outcomes t).
Definition push_outcome (o : ProcessOutcome) (t : TelemetryTick) : TelemetryTick :=
  mk_telemetry_tick (tt_outcomes t ++ [o]) (tt_failures t) (tt_notifications t).
Definition push_failures (l : list TelemetryFailure) (t : TelemetryTick) : TelemetryTick :=
  mk_telemetry_tick (tt_outcomes t) (tt_failures t ++ l) (tt_notifications t).
Definition push_notifications (l : list TelemetryWorkState) (t : TelemetryTick) : TelemetryTick :=
  mk_telemetry_tick (tt_outcomes t) (tt_failures t) (tt_notifications t ++ l).

(** * The output in effect *)

Definition switched_off (o : LogsOutputSection) : LogsOutputSection :=
  mk_output false (lo_kind o) (lo_file_path o) (lo_tcp_addr o) (lo_tcp_port o) (lo_tcp_framing o).
Definition forced_tcp (host : string) (port : Z) (o : LogsOutputSection) : LogsOutputSection :=
  mk_output true "tcp" (lo_file_path o) host port (lo_tcp_framing o).
Definition effective_output `{PolicyApi} (output : LogsOutputSection) (grant : option AgentUplinkGrant) : LogsOutputSection :=
  match grant with
  | Some grant =>
      if negb (ug_enabled grant) then switched_off output
      else match target grant with Some (host, port) => forced_tcp host port output | None => output end
  | None => output
  end.

(** * Failures *)

Section Failures.
Context `{WorkContracts}.
Implicit Types (input : LogFileInputSection).

Definition failure_of input (kind : TelemetryFailureKind) (detail : string) (magnitude : option string) : TelemetryFailure :=
  mk_telemetry_failure kind (lf_input_id input) (lf_path input) detail magnitude.
Definition invalid_output_failure input (detail : string) : TelemetryFailure := failure_of input InvalidOutput detail None.
Definition missing_input_failure input : TelemetryFailure := failure_of input MissingInput "source path does not exist" None.
Definition unsupported_target input : option TelemetryFailure :=
  let shape_ok := starts_with "/" (lf_path input) && negb (contains "~" (lf_path input)) && negb (contains "**" (lf_path input)) in
  if shape_ok then None
  else Some (failure_of input MissingInput
    "target must be an absolute path without `**` (single-level globs are supported; `~`, relative paths and recursive globs are not)" None).
Definition processing_failure input (detail : string) : TelemetryFailure := failure_of input ProcessingFailed detail None.
Definition uplink_failure input (raw_detail : string) (spooled : option Z) : TelemetryFailure :=
  failure_of input OutputWriteFailed "output write failed; records buffered to spool"
    (Some (match spooled with
           | Some spooled => "records=" +:+ pretty spooled +:+ " cause=" +:+ raw_detail
           | None => "cause=" +:+ raw_detail
           end)).
Definition withheld_failure input (withheld : Withheld) : option TelemetryFailure :=
  if withheld_is_empty withheld then None
  else Some (failure_of input RecordWithheld (withheld_detail withheld) (Some (withheld_magnitude withheld))).
Definition capacity_failure input (capacity : FamilyCapacity) : TelemetryFailure :=
  failure_of input CapacityExceeded
    ("file family reached max_files=" +:+ pretty (fc_max_files capacity) +:+
     " ; new files are not tracked              (raise the limit or narrow the pattern)")
    (Some ("refused=" +:+ pretty (fc_refused capacity) +:+ " tracked=" +:+ pretty (fc_tracked capacity))).
Definition spool_paused_reason (spool_bytes : Z) : string := "spool over limit (" +:+ pretty spool_bytes +:+ " bytes); source read paused".
Definition noise_dropped_failure input (dropped : Z) : TelemetryFailure :=
  failure_of input NoiseDropped "drop_if_contains matched" (Some ("records=" +:+ pretty dropped)).
Definition truncated_failure input (lines_ : Z) : TelemetryFailure :=
  failure_of input TruncatedLine "line exceeded max_line_bytes; submitted truncated" (Some ("lines=" +:+ pretty lines_)).
Definition selection_filtered_failure input (filtered identity_unknown : Z) : TelemetryFailure :=
  failure_of input SelectionFiltered "filters excluded files"
    (Some ("excluded=" +:+ pretty filtered +:+ " identity_unknown=" +:+ pretty identity_unknown)).

Definition invalid_output_tick (inputs : list WorkLogInput) (detail : string) : TelemetryTick :=
  mk_telemetry_tick [] ((λ entry, invalid_output_failure (wl_input entry) detail) <$> inputs) [].

(** [len_framing_required]: the input, if any, whose records may hold line breaks on a line-framed uplink. *)
Definition reads_several_lines input : bool :=
  match MultilineMode_parse (lf_multiline_mode input) with Some mode => folds_records mode | None => false end.
Definition len_framing_required (output : LogsOutputSection) (inputs : list LogFileInputSection) : option string :=
  if negb (String.eqb (lo_kind output) "tcp") || String.eqb (lo_tcp_framing output) "len" then None
  else lf_input_id <$> find_first reads_several_lines inputs.

(** daemon_runtime_state.rs: what makes two failures the same problem. *)
Definition telemetry_kind_text (k : TelemetryFailureKind) : string :=
  match k with
  | MissingInput => "MissingInput" | ProcessingFailed => "ProcessingFailed" | InvalidOutput => "InvalidOutput" | RecordWithheld => "RecordWithheld"
  | TruncatedLine => "TruncatedLine" | CapacityExceeded => "CapacityExceeded" | NoiseDropped => "NoiseDropped"
  | SelectionFiltered => "SelectionFiltered" | OutputWriteFailed => "OutputWriteFailed"
  end.
Definition telemetry_signature (f : TelemetryFailure) : string :=
  telemetry_kind_text (fl_kind f) +:+ "|" +:+ fl_input_id f +:+ "|" +:+ fl_path f +:+ "|" +:+ fl_detail f.
Definition telemetry_signatures (failures : list TelemetryFailure) : gset string := list_to_set (telemetry_signature <$> failures).
Definition filter_new_telemetry (failures : list TelemetryFailure) (previous : gset string) : list TelemetryFailure :=
  filter (λ f, telemetry_signature f ∉ previous) failures.

(** * The configuration of an input *)

Definition DEFAULT_MAX_FILES_PER_INPUT : Z := 512.
Definition DEFAULT_MAX_NEW_FILES_PER_TICK : Z := 32.
Definition DEFAULT_RESCAN_INTERVAL_MS : Z := 15000.
Definition spool_path_for_id (logs : LogsSection) (input_id : string) : string := path_join (lg_spool_dir logs) (input_id +:+ ".ndjson").
Definition multiline_mode_for input : MultilineMode := default MNone (MultilineMode_parse (lf_multiline_mode input)).
Definition startup_position_for input : StartupPosition := if String.eqb (lf_startup_position input) "head" then Head else Tail.
Definition build_file_input_config (config : TickConfig) input (source_path : string) (origin : InputOrigin) : FileInputConfig :=
  let logs := tg_logs config in
  mk_config _ _ (default "unknown" (tg_agent_id config)) (lf_input_id input) origin source_path (lf_exclude_globs input) (lf_filters input)
    (lf_drop_if_contains input) DEFAULT_MAX_FILES_PER_INPUT DEFAULT_MAX_NEW_FILES_PER_TICK DEFAULT_RESCAN_INTERVAL_MS (tg_state_dir config)
    (spool_path_for_id logs (lf_input_id input)) (startup_position_for input) (multiline_mode_for input) (lg_in_memory_buffer_bytes logs)
    (ReadLimits_new (lg_max_line_bytes logs) (lg_max_read_bytes_per_tick logs) (lg_max_lines_per_tick logs)) (lg_spool_max_bytes logs).

(** * What a tick reports of one input *)

Record InputTickReports := mk_reports {
  ir_paused_spool_bytes : option Z;
  ir_withheld : Withheld;
  ir_dropped_noise : Z;
  ir_truncated_lines : Z;
  ir_selection_filtered : Z;
  ir_identity_unknown : Z;
  ir_spooled : Z;
  ir_sink_error : option string;
  ir_capacity : option FamilyCapacity;
}.
Definition reports_default : InputTickReports := mk_reports None Withheld_default 0 0 0 0 0 None None.
Definition or_last {A} (new old : option A) : option A := match new with Some _ => new | None => old end.
Definition observe (outcome : ProcessOutcome) (r : InputTickReports) : InputTickReports :=
  mk_reports
    (if po_paused outcome then match ir_paused_spool_bytes r with None => Some (po_spool_bytes outcome) | known => known end
     else ir_paused_spool_bytes r)
    (mk_withheld (wh_records (ir_withheld r) + wh_records (po_withheld outcome)) (wh_bytes (ir_withheld r) + wh_bytes (po_withheld outcome)))
    (ir_dropped_noise r + po_dropped_noise outcome) (ir_truncated_lines r + po_truncated_lines outcome)
    (ir_selection_filtered r + po_selection_filtered outcome) (ir_identity_unknown r + po_identity_unknown outcome)
    (ir_spooled r + po_spooled outcome) (or_last (po_sink_error outcome) (ir_sink_error r)) (or_last (po_capacity outcome) (ir_capacity r)).
Definition made_progress (outcome : ProcessOutcome) : bool :=
  Z.ltb 0 (po_read_lines outcome) && negb (po_paused outcome) && negb (is_some (po_sink_error outcome)).

(** The failures told at the end. *)
Definition when_pos (n : Z) (f : TelemetryFailure) : list TelemetryFailure := if Z.ltb 0 n then [f] else [].
Definition reported_failures input (r : InputTickReports) : list TelemetryFailure :=
  (option_list (withheld_failure input (ir_withheld r)) ++
   option_list (capacity_failure input <$> ir_capacity r) ++
   when_pos (ir_dropped_noise r) (noise_dropped_failure input (ir_dropped_noise r)) ++
   when_pos (ir_truncated_lines r) (truncated_failure input (ir_truncated_lines r)) ++
   (if Z.ltb 0 (ir_selection_filtered r) || Z.ltb 0 (ir_identity_unknown r) then
      [selection_filtered_failure input (ir_selection_filtered r) (ir_identity_unknown r)] else []) ++
   option_list ((λ detail, uplink_failure input detail (Some (ir_spooled r))) <$> ir_sink_error r))%list.
Definition paused_notification input (r : InputTickReports) (now : string) : list TelemetryWorkState :=
  option_list ((λ bytes, mk_work_state (lf_input_id input) Paused (spool_paused_reason bytes) now) <$> ir_paused_spool_bytes r).
End Failures.

(** * The inputs of a tick *)

(** The world and the sink of the inputs, how often the monotonic clock was read, and the reading before each
    pass over an input's files (for the theorems). *)
Record Collect `{Os} `{RecordSink} := mk_collect { co_input : Input; co_read : nat; co_starts : list (string * nat) }.
Arguments mk_collect {_ _ _} _ _ _.

Section Collecting.
Context `{Host} `{!FileMeta} `{!SpoolEnv} `{LogContracts} `{!ContainerLookup} `{!LogCodecs} `{!RecordSink} `{!FilterContracts} `{!GlobSet}
  `{!WorkContracts} `{!UnicodeTables}.
(** What [Instant::now] returns, one reading after the other, in milliseconds. *)
Variable readings : nat → Z.
Implicit Types (input : LogFileInputSection) (tick : TelemetryTick).

Definition instant_now : M Collect Z := λ c, (Ok (readings (co_read c)), mk_collect (co_input c) (S (co_read c)) (co_starts c)).
Definition on_input {A} (m : M Input A) : M Collect A := zoom co_input (λ i c, mk_collect i (co_read c) (co_starts c)) m.
Definition note_start (input_id : string) : M Collect unit :=
  modify (λ c, mk_collect (co_input c) (co_read c) (co_starts c ++ [(input_id, co_read c)])).

Record CatchupBudget := mk_budget { cu_slice : option Z; cu_deadline : option Z }.
Definition CatchupBudget_new (logs : LogsSection) : M Collect CatchupBudget :=
  if Z.eqb (lg_catchup_slice_ms logs) 0 || Z.eqb (lg_catchup_budget_ms logs) 0 then mret (mk_budget None None)
  else
    now ← instant_now;
    mret (mk_budget (Some (lg_catchup_slice_ms logs)) (Some (now + lg_catchup_budget_ms logs)%Z)).
Definition slice_deadline (b : CatchupBudget) : M Collect (option Z) :=
  match cu_slice b with
  | None => mret None
  | Some slice =>
      now ← instant_now;
      let slice_end := (now + slice)%Z in
      mret (Some (match cu_deadline b with
                  | Some global => if Z.ltb global slice_end then global else slice_end
                  | None => slice_end
                  end))
  end.
Definition at_or_after (end_ : option Z) : M Collect bool :=
  match end_ with
  | None => mret false
  | Some end_ => now ← instant_now; mret (Z.leb end_ now)
  end.
Definition budget_exhausted (b : CatchupBudget) : M Collect bool := at_or_after (cu_deadline b).
(** [slice_end … || budget.exhausted()] *)
Definition out_of_time (b : CatchupBudget) (slice_end : option Z) : M Collect bool :=
  late ← at_or_after slice_end;
  if late : bool then mret true else budget_exhausted b.

Definition is_family_target (path : string) : M World bool :=
  if has_glob path then mret true
  else
    r ← try (fs_metadata path);
    match r with Ok _ => gets (is_dir path) | Err _ => mret false end.
Definition process_input_with_sink (config : TickConfig) input (origin : InputOrigin) : M Input ProcessOutcome :=
  let file_config := build_file_input_config config input (lf_path input) origin in
  family ← in_host (is_family_target (lf_path input));
  if family : bool then family_process_once_async file_config else process_once_async file_config.
Definition replay_spool_only (config : TickConfig) input : M Uplink (option ProcessOutcome) :=
  let spool_path := spool_path_for_id (tg_logs config) (lf_input_id input) in
  present ← in_world (has_records_async spool_path);
  if negb (present : bool) then mret None
  else
    replayed ← replay_records_async spool_path SPOOL_REPLAY_BATCH_SIZE;
    mret (Some (outcome_spool_replay_only replayed)).

(** What an error of a pass is told as. *)
Definition pass_failure input (err : IoError) : TelemetryFailure :=
  match uplink_write_detail err with
  | Some detail => uplink_failure input detail None
  | None => processing_failure input (io_msg err)
  end.
(** The loop over the batches of an input; [None] when the fuel does not last. *)
Fixpoint catch_up (fuel : nat) (budget : CatchupBudget) (config : TickConfig) input (origin : InputOrigin) (reports : InputTickReports) tick :
    M Collect (option (InputTickReports * TelemetryTick)) :=
  match fuel with
  | 0 => mret None
  | S fuel =>
      note_start (lf_input_id input);;
      slice_end ← slice_deadline budget;
      r ← try (on_input (process_input_with_sink config input origin));
      match r with
      | Err err => mret (Some (reports, push_failures [pass_failure input err] tick))
      | Ok outcome =>
          let reports := observe outcome reports in
          let tick := push_outcome outcome tick in
          if negb (made_progress outcome && is_some slice_end) then mret (Some (reports, tick))
          else
            late ← out_of_time budget slice_end;
            if late : bool then mret (Some (reports, tick)) else catch_up fuel budget config input origin reports tick
      end
  end.

Definition process_telemetry_input (fuel : nat) (budget : CatchupBudget) (config : TickConfig) input (origin : InputOrigin) tick :
    M Collect (option TelemetryTick) :=
  match unsupported_target input with
  | Some failure => mret (Some (push_failures [failure] tick))
  | None =>
      family ← on_input (in_host (is_family_target (lf_path input)));
      there ← (if family : bool then mret true else on_input (in_host (path_exists (lf_path input))));
      if negb (there : bool) then
        let tick := push_failures [missing_input_failure input] tick in
        r ← try (on_input (in_uplink (replay_spool_only config input)));
        mret (Some (match r with
                    | Ok (Some outcome) => push_outcome outcome tick
                    | Ok None => tick
                    | Err err => push_failures [processing_failure input ("failed to replay spool: " +:+ io_msg err)] tick
                    end))
      else
        r ← catch_up fuel budget config input origin reports_default tick;
        match r with
        | None => mret None
        | Some (reports, tick) =>
            now ← on_input (in_host now_rfc3339);
            mret (Some (push_failures (reported_failures input reports) (push_notifications (paused_notification input reports now) tick)))
        end
  end.

Fixpoint process_entries (fuel : nat) (budget : CatchupBudget) (config : TickConfig) (entries : list WorkLogInput) tick :
    M Collect (option TelemetryTick) :=
  match entries with
  | [] => mret (Some tick)
  | entry :: entries =>
      r ← process_telemetry_input fuel budget config (wl_input entry) (mk_origin (wl_family entry) (wl_unit_id entry)) tick;
      match r with None => mret None | Some tick => process_entries fuel budget config entries tick end
  end.
Definition process_telemetry_inputs (fuel : nat) (config : TickConfig) (work : AppliedWorkGrant) : M Collect (option TelemetryTick) :=
  budget ← CatchupBudget_new (tg_logs config);
  process_entries fuel budget config (log_inputs work) silent.
End Collecting.

(** * The memory of the uplink's health *)

Definition note_tick (failed sent_something failing : bool) : option string * bool :=
  if failed then (None, true)
  else if failing && sent_something then
    (Some ("event=UplinkRecovered detail=" +:+ String dquote ("出口写失败已恢复" +:+ String dquote "")), false)
  else (None, failing).

(** * Facts *)

Section CatchUp.
Context `{Host} `{!FileMeta} `{!SpoolEnv} `{LogContracts} `{!ContainerLookup} `{!LogCodecs} `{!RecordSink} `{!FilterContracts} `{!GlobSet}
  `{!WorkContracts} `{!UnicodeTables}.
Variable readings : nat → Z.
Implicit Types (input : LogFileInputSection) (tick : TelemetryTick) (c : Collect) (b : CatchupBudget) (outs : list ProcessOutcome).

Lemma on_input_run {A} (m : M Input A) c r c' : on_input m c = (r, c') → ∃ i', c' = mk_collect i' (co_read c) (co_starts c) ∧ m (co_input c) = (r, i').
Proof. unfold on_input, zoom. destruct (m (co_input c)) as [r0 i0]. intros [= <- <-]. by exists i0. Qed.

(** A look at the clock. *)
Lemma at_or_after_run end_ c : at_or_after readings end_ c =
  match end_ with
  | None => (Ok false, c)
  | Some e => (Ok (Z.leb e (readings (co_read c))), mk_collect (co_input c) (S (co_read c)) (co_starts c))
  end.
Proof. by destruct end_. Qed.
Lemma slice_deadline_run b c : ∃ slice_end n, slice_deadline readings b c = (Ok slice_end, mk_collect (co_input c) (n + co_read c) (co_starts c)) ∧
  is_some slice_end = is_some (cu_slice b).
Proof. unfold slice_deadline. destruct (cu_slice b) as [slice|]; [by eexists _, 1|]. exists None, 0. by destruct c. Qed.

(** A pass that is not the first of its input: catching up is on, and the last look at the clock before it
    was before the deadline. *)
Definition in_time b (k : nat) : Prop :=
  is_some (cu_slice b) = true ∧ match cu_deadline b with Some d => (readings (pred k) < d)%Z | None => True end.
Lemma out_of_time_run b slice_end c : ∃ late c', out_of_time readings b (Some slice_end) c = (Ok late, c') ∧ co_input c' = co_input c ∧
  co_starts c' = co_starts c ∧ co_read c < co_read c' ∧
  (late = false → match cu_deadline b with Some d => (readings (pred (co_read c')) < d)%Z | None => True end).
Proof.
  unfold out_of_time. erewrite bind_ok by exact (at_or_after_run (Some slice_end) c). destruct (Z.leb slice_end _).
  - eexists _, _. split; [done|]. cbn. split_and!; [done|done|lia|done].
  - unfold budget_exhausted. rewrite at_or_after_run. destruct (cu_deadline b) as [d|]; eexists _, _; (split; [done|]); cbn; split_and!; try (done || lia).
Qed.

(** The reports of a run of outcomes. *)
Definition observed outs (r : InputTickReports) : InputTickReports := foldl (λ r o, observe o r) r outs.
Definition push_outcomes outs tick : TelemetryTick := mk_telemetry_tick (tt_outcomes tick ++ outs) (tt_failures tick) (tt_notifications tick).
Lemma push_outcomes_nil tick : push_outcomes [] tick = tick.
Proof. unfold push_outcomes. rewrite List.app_nil_r. by destruct tick. Qed.
Lemma push_outcomes_cons o outs tick : push_outcomes outs (push_outcome o tick) = push_outcomes (o :: outs) tick.
Proof. unfold push_outcomes, push_outcome. cbn. by rewrite <- (assoc_L (++)%list). Qed.
Lemma push_failures_nil tick : push_failures [] tick = tick.
Proof. unfold push_failures. rewrite List.app_nil_r. by destruct tick. Qed.

(** What the loop over the batches of an input comes to. *)
Record caught_up b input (reports : InputTickReports) tick c (reports' : InputTickReports) tick' c' : Prop := mk_caught_up {
  cg_tells : ∃ outs cause, reports' = observed outs reports ∧ tick' = push_failures cause (push_outcomes outs tick) ∧
    (cause = [] ∨ ∃ err, cause = [pass_failure input err] ∧ (ir_sink_error reports = None → ir_sink_error reports' = None));
  cg_starts : ∃ ks, co_starts c' = (co_starts c ++ ((λ k, (lf_input_id input, k)) <$> co_read c :: ks))%list ∧ Forall (in_time b) ks;
}.
Lemma catch_up_run fuel b config input origin reports tick c r c' :
  catch_up readings fuel b config input origin reports tick c = (r, c') →
  r = Ok None ∨ ∃ reports' tick', r = Ok (Some (reports', tick')) ∧ caught_up b input reports tick c reports' tick' c'.
Proof.
  revert reports tick c. induction fuel as [|fuel IH]; intros reports tick c; [intros [= <- <-]; by left|]. cbn [catch_up]. intros Hr.
  unfold note_start in Hr. rewrite modify_then in Hr. set (c1 := mk_collect _ _ _) in Hr.
  destruct (slice_deadline_run b c1) as (slice_end & n & Es & Hsome). erewrite bind_ok in Hr by exact Es. match type of Es with _ = (_, ?x) => set (c2 := x) in * end.
  destruct (on_input (process_input_with_sink config input origin) c2) as [ro c3] eqn:Eo. erewrite bind_ok in Hr by (apply try_run, Eo).
  apply on_input_run in Eo as (i3 & -> & _). destruct ro as [outcome|err].
  2: { injection Hr as <- <-. right. eexists _, _. split; [done|]. split.
       - exists [], [pass_failure input err]. rewrite push_outcomes_nil. split_and!; [done|done|]. right. by exists err.
       - by exists []. }
  assert (Hstop : ∀ c', co_starts c' = co_starts c1 → caught_up b input reports tick c (observe outcome reports) (push_outcome outcome tick) c').
  { intros c0 Hc0. split; [|exists []; by rewrite Hc0]. exists [outcome], []. rewrite push_failures_nil. split_and!; [done|done|by left]. }
  destruct (made_progress outcome && is_some slice_end) eqn:Ea; cbn [negb] in Hr.
  2: { injection Hr as <- <-. right. eexists _, _. split; [done|]. by apply Hstop. }
  apply andb_true_iff in Ea as [Hp Hse]. destruct slice_end as [se|]; [|done]. set (c4 := mk_collect i3 _ _) in Hr.
  destruct (out_of_time_run b se c4) as (late & c5 & El & _ & Hs5 & _ & Hl). erewrite bind_ok in Hr by exact El. destruct late.
  { injection Hr as <- <-. right. eexists _, _. split; [done|]. by apply Hstop. }
  apply IH in Hr as [->|(reports' & tick' & -> & Hc)]; [by left|right]. eexists _, _. split; [done|]. destruct Hc as [(outs & cause & -> & -> & Hca) (ks & Hks & Hin)]. split.
  - exists (outcome :: outs), cause. rewrite push_outcomes_cons. split_and!; [done|done|]. destruct Hca as [->|(err & -> & He)]; [by left|right].
    exists err. split; [done|]. intros Hn. apply He. cbn. unfold made_progress in Hp. destruct (po_sink_error outcome); [|done]. by rewrite andb_false_r in Hp.
  - exists (co_read c5 :: ks). split; [|constructor; [|done]; split; [by rewrite <- Hsome|by apply Hl]].
    rewrite Hks, Hs5. cbn. by rewrite <- (assoc_L (++)%list).
Qed.

(** More fuel changes nothing, and once the readings stay past the deadline there is enough. *)
Lemma catch_up_more fuel fuel' b config input origin reports tick c x c' : fuel ≤ fuel' →
  catch_up readings fuel b config input origin reports tick c = (Ok (Some x), c') →
  catch_up readings fuel' b config input origin reports tick c = (Ok (Some x), c').
Proof.
  revert fuel' reports tick c. induction fuel as [|fuel IH]; intros [|fuel'] reports tick c Hle Hr; [done|done|lia|]. cbn [catch_up] in *.
  apply bind_ok_inv in Hr as (u & c1 & E1 & Hr). erewrite bind_ok by exact E1. apply bind_ok_inv in Hr as (se & c2 & E2 & Hr). erewrite bind_ok by exact E2.
  apply bind_ok_inv in Hr as (ro & c3 & E3 & Hr). erewrite bind_ok by exact E3. destruct ro as [outcome|err]; [|done].
  destruct (made_progress outcome && is_some se); cbn [negb] in *; [|done]. apply bind_ok_inv in Hr as (late & c4 & E4 & Hr). erewrite bind_ok by exact E4.
  destruct late; [done|]. apply IH; [lia|done].
Qed.
Lemma catch_up_ends K fuel b config input origin reports tick c :
  (cu_slice b = None ∨ ∃ d, cu_deadline b = Some d ∧ ∀ j, K ≤ j → (d ≤ readings j)%Z) → K - co_read c < fuel →
  ∃ x c', catch_up readings fuel b config input origin reports tick c = (Ok (Some x), c') ∧ co_read c ≤ co_read c'.
Proof.
  intros HK. revert reports tick c. induction fuel as [|fuel IH]; intros reports tick c Hf; [lia|]. cbn [catch_up].
  unfold note_start. rewrite modify_then. set (c1 := mk_collect _ _ _).
  destruct (slice_deadline_run b c1) as (slice_end & n & Es & Hsome). erewrite bind_ok by exact Es. match type of Es with _ = (_, ?x) => set (c2 := x) in * end.
  destruct (on_input (process_input_with_sink config input origin) c2) as [ro c3] eqn:Eo. erewrite bind_ok by (apply try_run, Eo).
  apply on_input_run in Eo as (i3 & -> & _). destruct ro as [outcome|err]; [|eexists _, _; split; [done|cbn; lia]].
  destruct (made_progress outcome && is_some slice_end) eqn:Ea; cbn [negb]; [|eexists _, _; split; [done|cbn; lia]].
  apply andb_true_iff in Ea as [_ Hse]. destruct slice_end as [se|]; [|done]. set (c4 := mk_collect i3 _ _).
  destruct (out_of_time_run b se c4) as (late & c5 & El & _ & _ & Hr5 & Hl). erewrite bind_ok by exact El.
  assert (co_read c ≤ co_read c4) by (unfold c4; cbn; lia). destruct late; [eexists _, _; split; [done|lia]|].
  destruct HK as [Hn|(d & Hd & HK)]; [by rewrite Hn in Hsome|]. specialize (Hl eq_refl). rewrite Hd in Hl.
  assert (pred (co_read c5) < K). { destruct (decide (K ≤ pred (co_read c5))) as [Hk|]; [|lia]. specialize (HK _ Hk). lia. }
  destruct (IH (observe outcome reports) (push_outcome outcome tick) c5) as (x & c' & E & Hle); [lia|]. eexists _, _. split; [exact E|lia].
Qed.

(** ** What is told of an input *)

Lemma signature_kind (f g : TelemetryFailure) : telemetry_signature f = telemetry_signature g → fl_kind f = fl_kind g.
Proof. unfold telemetry_signature. destruct (fl_kind f), (fl_kind g); intros Hq; try done; discriminate Hq. Qed.
Lemma signatures_once (fails : list TelemetryFailure) : NoDup (fl_kind <$> fails) → NoDup (telemetry_signature <$> fails).
Proof.
  induction fails as [|f fails IH]; [constructor|]. rewrite !fmap_cons, !NoDup_cons. intros [Hn Hd]. split; [|by apply IH].
  intros (g & Hg & Hin)%list_elem_of_fmap. apply Hn, list_elem_of_fmap. exists g. split; [by apply signature_kind|done].
Qed.

Definition tells (kind : TelemetryFailureKind) (fails : list TelemetryFailure) : bool := existsb (λ f, bool_decide (fl_kind f = kind)) fails.
Lemma tells_app kind fails fails' : tells kind (fails ++ fails') = tells kind fails || tells kind fails'.
Proof. apply existsb_app. Qed.

(** The failures that are not counted: why an input was not read, or a pass broken off. *)
Definition is_cause input (r : InputTickReports) (cause : list TelemetryFailure) : Prop :=
  fl_kind <$> cause ∈ [[]; [MissingInput]; [MissingInput; ProcessingFailed]; [ProcessingFailed]] ∨
  fl_kind <$> cause = [OutputWriteFailed] ∧ ir_sink_error r = None.
Lemma reported_kinds input r :
  let fails := reported_failures input r in
  tells RecordWithheld fails = negb (withheld_is_empty (ir_withheld r)) ∧ tells CapacityExceeded fails = is_some (ir_capacity r) ∧
  tells NoiseDropped fails = Z.ltb 0 (ir_dropped_noise r) ∧ tells TruncatedLine fails = Z.ltb 0 (ir_truncated_lines r) ∧
  tells SelectionFiltered fails = Z.ltb 0 (ir_selection_filtered r) || Z.ltb 0 (ir_identity_unknown r) ∧
  tells OutputWriteFailed fails = is_some (ir_sink_error r) ∧
  ∀ cause, is_cause input r cause → NoDup (fl_kind <$> (cause ++ fails)%list).
Proof.
  cbv zeta. unfold reported_failures, withheld_failure, when_pos, is_cause.
  destruct (withheld_is_empty _), (ir_capacity r), (Z.ltb 0 (ir_dropped_noise r)), (Z.ltb 0 (ir_truncated_lines r)), (_ || _), (ir_sink_error r);
    (split_and!; [reflexivity..|]); intros cause Hc; rewrite fmap_app; (destruct Hc as [Hc|[-> Hn]]; [|try done; by apply (bool_decide_unpack _); vm_compute]);
    rewrite !elem_of_cons in Hc; (destruct Hc as [->|[->|[->|[->|[]%elem_of_nil]]]]); by apply (bool_decide_unpack _); vm_compute.
Qed.

(** Totals over the outcomes of an input. *)
Definition total_over (f : ProcessOutcome → Z) outs : Z := foldr (λ o n, f o + n)%Z 0%Z outs.
Lemma observed_totals outs r :
  let r' := observed outs r in
  wh_records (ir_withheld r') = (wh_records (ir_withheld r) + total_over (λ o, wh_records (po_withheld o)) outs)%Z ∧
  ir_dropped_noise r' = (ir_dropped_noise r + total_over po_dropped_noise outs)%Z ∧
  ir_truncated_lines r' = (ir_truncated_lines r + total_over po_truncated_lines outs)%Z ∧
  ir_selection_filtered r' = (ir_selection_filtered r + total_over po_selection_filtered outs)%Z ∧
  ir_identity_unknown r' = (ir_identity_unknown r + total_over po_identity_unknown outs)%Z ∧
  is_some (ir_capacity r') = is_some (ir_capacity r) || existsb (λ o, is_some (po_capacity o)) outs ∧
  is_some (ir_sink_error r') = is_some (ir_sink_error r) || existsb (λ o, is_some (po_sink_error o)) outs ∧
  is_some (ir_paused_spool_bytes r') = is_some (ir_paused_spool_bytes r) || existsb po_paused outs.
Proof.
  cbv zeta. revert r. induction outs as [|o outs IH]; intros r; [cbn; rewrite !Z.add_0_r, !orb_false_r; by split_and!|].
  change (observed (o :: outs) r) with (observed outs (observe o r)). destruct (IH (observe o r)) as (-> & -> & -> & -> & -> & -> & -> & ->). unfold total_over. cbn.
  split_and!; [lia..| | |]; rewrite orb_assoc; f_equal.
  - by destruct (po_capacity o), (ir_capacity r).
  - by destruct (po_sink_error o), (ir_sink_error r).
  - by destruct (po_paused o), (ir_paused_spool_bytes r).
Qed.

(** What one input adds to the tick, and when its passes start. *)
Record input_told b input tick c tick' c' : Prop := mk_input_told {
  it_tells : ∃ outs cause now, let r := observed outs reports_default in
    tick' = mk_telemetry_tick (tt_outcomes tick ++ outs) (tt_failures tick ++ cause ++ reported_failures input r)
      (tt_notifications tick ++ paused_notification input r now) ∧ is_cause input r cause;
  it_starts : ∃ ks, co_starts c' = (co_starts c ++ ((λ k, (lf_input_id input, k)) <$> ks))%list ∧ Forall (in_time b) (tail ks);
}.
Lemma family_target_run path w : ∃ family, is_family_target path w = (Ok family, w).
Proof.
  unfold is_family_target. destruct (has_glob path); [by eexists|]. destruct (fs_metadata path w) as [r w1] eqn:E.
  erewrite bind_ok by (apply try_run, E).
  assert (w1 = w) as ->. { unfold fs_metadata, guard_fault, act, mbind, M_bind in E. destruct (fs_fault _ _); [by injection E|]. destruct (fs_exists _ _); by injection E. }
  destruct r; by eexists.
Qed.
Lemma is_family_run path c : ∃ family, on_input (in_host (is_family_target path)) c = (Ok family, c).
Proof.
  destruct (family_target_run path (world (uplink (co_input c)))) as [family E]. exists family.
  unfold on_input, in_host, in_uplink, in_world, zoom. rewrite E. by destruct c as [[[] ?] ? ?].
Qed.
Lemma there_run (family : bool) path c :
  ∃ there, (if family then mret true else on_input (in_host (path_exists path))) c = (Ok there, c).
Proof. destruct family; [by eexists|]. unfold on_input, in_host, in_uplink, in_world, zoom, path_exists. eexists. by destruct c as [[[] ?] ? ?]. Qed.

Lemma process_input_run fuel b config input origin tick c r c' :
  process_telemetry_input readings fuel b config input origin tick c = (r, c') →
  r = Ok None ∨ ∃ tick', r = Ok (Some tick') ∧ input_told b input tick c tick' c'.
Proof.
  assert (Hnone : ∀ tick' now, (∃ outs cause, tick' = push_failures cause (push_outcomes outs tick) ∧
      reported_failures input (observed outs reports_default) = [] ∧ paused_notification input (observed outs reports_default) now = [] ∧
      is_cause input (observed outs reports_default) cause) → ∀ c', co_starts c' = co_starts c → input_told b input tick c tick' c').
  { intros tick' now (outs & cause & -> & Hf & Hn & Hc) c0 Hc0. split; [|exists []; cbn; by rewrite Hc0, List.app_nil_r]. exists outs, cause, now.
    cbv zeta. rewrite Hf, Hn, !List.app_nil_r. by split. }
  intros Hr. unfold process_telemetry_input in Hr. destruct (unsupported_target input) as [failure|] eqn:Eu.
  { injection Hr as <- <-. right. eexists. split; [done|]. apply (Hnone _ ""); [|done]. exists [], [failure]. rewrite push_outcomes_nil. split_and!; [done..|].
    left. unfold unsupported_target in Eu. destruct (_ && _); [done|]. injection Eu as <-. cbn. set_solver. }
  destruct (is_family_run (lf_path input) c) as [family Ef]. erewrite bind_ok in Hr by exact Ef.
  destruct (there_run family (lf_path input) c) as [there Et]. erewrite bind_ok in Hr by exact Et. destruct there; cbn [negb] in Hr.
  - destruct (catch_up readings fuel b config input origin reports_default tick c) as [rc c1] eqn:Ec.
    pose proof (catch_up_run _ _ _ _ _ _ _ _ _ _ Ec) as [->|(reports & tick1 & -> & Hc)].
    { left. erewrite bind_ok in Hr by exact Ec. by injection Hr as <- _. }
    erewrite bind_ok in Hr by exact Ec. unfold now_rfc3339 in Hr.
    assert (En : on_input (in_host (gets (λ w, rfc3339 (clock w)))) c1 = (Ok (rfc3339 (clock (world (uplink (co_input c1))))), c1))
      by (by destruct c1 as [[[] ?] ? ?]).
    erewrite bind_ok in Hr by exact En. injection Hr as <- <-. right. eexists. split; [done|].
    destruct Hc as [(outs & cause & -> & -> & Hca) (ks & Hks & Hin)]. split; [|by exists (co_read c :: ks)].
    exists outs, cause, (rfc3339 (clock (world (uplink (co_input c1))))). cbv zeta. split; [by rewrite (assoc_L (++)%list)|].
    destruct Hca as [->|(err & -> & He)]; [left; set_solver|]. unfold pass_failure. destruct (uplink_write_detail err); [right|left]; cbn; [|set_solver].
    split; [done|]. by apply He.
  - destruct (on_input (in_uplink (replay_spool_only config input)) c) as [r0 c0] eqn:Eo. erewrite bind_ok in Hr by (apply try_run, Eo).
    apply on_input_run in Eo as (i1 & -> & Ei).
    injection Hr as <- <-. right. eexists. split; [done|]. apply (Hnone _ ""); [|done].
    assert (Hrep : ∀ o, r0 = Ok (Some o) → ∃ n, o = outcome_spool_replay_only n).
    { intros o ->. apply in_uplink_run in Ei as (u & Eu' & _). unfold replay_spool_only in Eu'. apply bind_ok_inv in Eu' as (present & u1 & _ & Eu').
      destruct (negb present); [done|]. apply bind_ok_inv in Eu' as (n & u2 & _ & Eu'). injection Eu' as <- _. by exists n. }
    destruct r0 as [[o|]|err].
    + destruct (Hrep o eq_refl) as [n ->]. exists [outcome_spool_replay_only n], [missing_input_failure input]. split_and!; [done..|]. left. set_solver.
    + exists [], [missing_input_failure input]. rewrite push_outcomes_nil. split_and!; [done..|]. left. set_solver.
    + exists [], [missing_input_failure input; processing_failure input ("failed to replay spool: " +:+ io_msg err)]. rewrite push_outcomes_nil.
      unfold push_failures. cbn. rewrite <- (assoc_L (++)%list). split_and!; [done..|]. left. set_solver.
Qed.

(** ** Enough fuel *)

Lemma process_input_more fuel fuel' b config input origin tick c x c' : fuel ≤ fuel' →
  process_telemetry_input readings fuel b config input origin tick c = (Ok (Some x), c') →
  process_telemetry_input readings fuel' b config input origin tick c = (Ok (Some x), c').
Proof.
  intros Hle. unfold process_telemetry_input. destruct (unsupported_target input); [done|]. intros Hr.
  apply bind_ok_inv in Hr as (family & c1 & E1 & Hr). erewrite bind_ok by exact E1. apply bind_ok_inv in Hr as (there & c2 & E2 & Hr). erewrite bind_ok by exact E2.
  destruct (negb there); [done|]. apply bind_ok_inv in Hr as ([[reports tick1]|] & c3 & E3 & Hr); [|done].
  erewrite bind_ok by (eapply catch_up_more; [exact Hle|exact E3]). exact Hr.
Qed.
Lemma process_entries_more fuel fuel' b config entries tick c x c' : fuel ≤ fuel' →
  process_entries readings fuel b config entries tick c = (Ok (Some x), c') → process_entries readings fuel' b config entries tick c = (Ok (Some x), c').
Proof.
  intros Hle. revert tick c. induction entries as [|entry entries IH]; intros tick c; [done|]. cbn [process_entries]. intros Hr.
  apply bind_ok_inv in Hr as ([tick1|] & c1 & E1 & Hr); [|done]. erewrite bind_ok by (eapply process_input_more; [exact Hle|exact E1]). by apply IH.
Qed.
Lemma process_input_ends K fuel b config input origin tick c :
  (cu_slice b = None ∨ ∃ d, cu_deadline b = Some d ∧ ∀ j, K ≤ j → (d ≤ readings j)%Z) → K < fuel →
  ∃ x c', process_telemetry_input readings fuel b config input origin tick c = (Ok (Some x), c').
Proof.
  intros HK Hf. unfold process_telemetry_input. destruct (unsupported_target input); [by eexists _, _|].
  destruct (is_family_run (lf_path input) c) as [family Ef]. erewrite bind_ok by exact Ef.
  destruct (there_run family (lf_path input) c) as [there Et]. erewrite bind_ok by exact Et. destruct there; cbn [negb].
  - destruct (catch_up_ends K fuel b config input origin reports_default tick c HK) as ([reports tick1] & c1 & E & _); [lia|]. erewrite bind_ok by exact E.
    destruct (infallible_zoom co_input (λ i c, mk_collect i (co_read c) (co_starts c)) (in_host now_rfc3339)) with c1 as (now & c2 & E2).
    { apply infallible_zoom, infallible_zoom, infallible_gets. }
    fold (on_input (in_host now_rfc3339)) in E2. erewrite bind_ok by exact E2. by eexists _, _.
  - destruct (infallible_try (on_input (in_uplink (replay_spool_only config input))) c) as (rr & c1 & E). erewrite bind_ok by exact E. by eexists _, _.
Qed.
Lemma process_entries_run K fuel b config entries tick c :
  (cu_slice b = None ∨ ∃ d, cu_deadline b = Some d ∧ ∀ j, K ≤ j → (d ≤ readings j)%Z) → K < fuel →
  ∃ x c' passes, process_entries readings fuel b config entries tick c = (Ok (Some x), c') ∧ length passes = length entries ∧
    co_starts c' = (co_starts c ++ mjoin (zip_with (λ entry ks, (λ k, (lf_input_id (wl_input entry), k)) <$> ks) entries passes))%list ∧
    Forall (λ ks, Forall (in_time b) (tail ks)) passes.
Proof.
  intros HK Hf. revert tick c. induction entries as [|entry entries IH]; intros tick c.
  { eexists _, _, []. cbn. rewrite List.app_nil_r. by split_and!. }
  cbn [process_entries]. destruct (process_input_ends K fuel b config (wl_input entry) (mk_origin (wl_family entry) (wl_unit_id entry)) tick c HK Hf) as (tick1 & c1 & E1).
  erewrite bind_ok by exact E1. apply process_input_run in E1 as [?|(t1 & [= <-] & [_ (ks & Hks & Hin)])]; [done|].
  destruct (IH tick1 c1) as (x & c' & passes & E & Hlen & Hst & Hall). exists x, c', (ks :: passes). split_and!; [exact E|cbn; by rewrite Hlen| |by constructor].
  rewrite Hst, Hks. cbn. by rewrite <- (assoc_L (++)%list).
Qed.
End CatchUp.

(** * Theorems *)

Section Claims.
Context `{Host} `{!FileMeta} `{!SpoolEnv} `{LogContracts} `{!ContainerLookup} `{!LogCodecs} `{!RecordSink} `{!FilterContracts} `{!GlobSet}
  `{!WorkContracts} `{!UnicodeTables}.
Variable readings : nat → Z.
Implicit Types (input : LogFileInputSection) (tick : TelemetryTick) (c : Collect) (b : CatchupBudget) (outs : list ProcessOutcome).

(** The start of a pass, at the [k]-th look at the clock, is in time for a tick that began at look [k0]. *)
Definition started_in_time (logs : LogsSection) (k0 k : nat) : Prop :=
  lg_catchup_slice_ms logs ≠ 0%Z ∧ lg_catchup_budget_ms logs ≠ 0%Z ∧ (readings (pred k) < readings k0 + lg_catchup_budget_ms logs)%Z.

(** C18. If time passes, a tick over the granted inputs ends; it reads them in the order of the grant, each at
    most once unless catching up is on, and starts no further pass over an input after a look at the clock has
    shown that the tick's budget is used up. *)
Theorem inputs_finish_in_time config (work : AppliedWorkGrant) c : (∀ t, ∃ K, ∀ j, K ≤ j → (t ≤ readings j)%Z) →
  ∃ enough tick c' passes,
    (∀ fuel, enough ≤ fuel → process_telemetry_inputs readings fuel config work c = (Ok (Some tick), c')) ∧
    length passes = length (log_inputs work) ∧
    co_starts c' = (co_starts c ++ mjoin (zip_with (λ entry ks, (λ k, (lf_input_id (wl_input entry), k)) <$> ks) (log_inputs work) passes))%list ∧
    Forall (λ ks, Forall (started_in_time (tg_logs config) (co_read c)) (tail ks)) passes.
Proof.
  intros Htime. set (logs := tg_logs config). destruct (Htime (readings (co_read c) + lg_catchup_budget_ms logs)%Z) as [K HK].
  assert (Hb : ∃ b c1, CatchupBudget_new readings logs c = (Ok b, c1) ∧ co_starts c1 = co_starts c ∧
    (cu_slice b = None ∨ ∃ d, cu_deadline b = Some d ∧ ∀ j, K ≤ j → (d ≤ readings j)%Z) ∧ ∀ k, in_time readings b k → started_in_time logs (co_read c) k).
  { unfold CatchupBudget_new, in_time. destruct (Z.eqb_spec (lg_catchup_slice_ms logs) 0); [|destruct (Z.eqb_spec (lg_catchup_budget_ms logs) 0)];
      cbn [orb]; eexists _, _; (split; [done|]); cbn; (split; [done|]); [split; [by left|by intros k [? _]]..|].
    split; [right; by eexists|]. intros k [_ Hk]. by split_and!. }
  destruct Hb as (b & c1 & Eb & Hc1 & HK' & Ht).
  destruct (process_entries_run readings K (S K) b config (log_inputs work) silent c1 HK') as (tick & c' & passes & E & Hlen & Hst & Hall); [lia|].
  exists (S K), tick, c', passes. split_and!; [|done|by rewrite Hst, Hc1|].
  - intros fuel Hf. unfold process_telemetry_inputs. fold logs. erewrite bind_ok by exact Eb. by eapply process_entries_more.
  - eapply Forall_impl; [exact Hall|]. intros ks Hks. exact (Forall_impl _ _ _ Hks Ht).
Qed.

(** What goes wrong with an input is told once per tick, however many passes the tick makes over it: the
    failures it adds have different signatures, and each kind that is counted is among them exactly if the sum
    over the passes is positive (withheld records, dropped noise, truncated lines, files left out), if a pass
    reached the limit on files, or if a pass could not write to the output; a pause is told exactly if a pass
    was paused. *)
Theorem problems_told_once fuel b config input origin tick c tick' c' :
  process_telemetry_input readings fuel b config input origin tick c = (Ok (Some tick'), c') →
  ∃ outs fails notes,
    tick' = mk_telemetry_tick (tt_outcomes tick ++ outs) (tt_failures tick ++ fails) (tt_notifications tick ++ notes) ∧
    NoDup (telemetry_signature <$> fails) ∧
    tells RecordWithheld fails = negb (Z.eqb (total_over (λ o, wh_records (po_withheld o)) outs) 0) ∧
    tells NoiseDropped fails = Z.ltb 0 (total_over po_dropped_noise outs) ∧
    tells TruncatedLine fails = Z.ltb 0 (total_over po_truncated_lines outs) ∧
    tells SelectionFiltered fails = Z.ltb 0 (total_over po_selection_filtered outs) || Z.ltb 0 (total_over po_identity_unknown outs) ∧
    tells CapacityExceeded fails = existsb (λ o, is_some (po_capacity o)) outs ∧
    (existsb (λ o, is_some (po_sink_error o)) outs = true → tells OutputWriteFailed fails = true) ∧
    (existsb po_paused outs = true ↔ notes ≠ []) ∧ Forall (λ n, ws_state n = Paused ∧ ws_input_id n = lf_input_id input) notes.
Proof.
  intros [?|(t & [= <-] & [(outs & cause & now & -> & Hc) _])]%process_input_run; [done|]. set (r := observed outs reports_default) in *.
  destruct (reported_kinds input r) as (Hw & Hcap & Hn & Ht & Hsel & Hout & Hnd). destruct (observed_totals outs reports_default) as (Tw & Tn & Tt & Tf & Tu & Tc & Ts & Tp).
  cbn in Tw, Tn, Tt, Tf, Tu, Tc, Ts, Tp. fold r in Tw, Tn, Tt, Tf, Tu, Tc, Ts, Tp.
  assert (Hq : ∀ kind, kind ∉ [MissingInput; ProcessingFailed; OutputWriteFailed] → tells kind (cause ++ reported_failures input r) = tells kind (reported_failures input r)).
  { intros kind Hk. rewrite tells_app. assert (Hcf : tells kind cause = false); [|by rewrite Hcf]. apply not_true_is_false. unfold tells.
    intros (f & Hf & Heq)%existsb_exists. apply bool_decide_eq_true in Heq. apply Hk. assert (Hin : kind ∈ fl_kind <$> cause).
    { apply list_elem_of_fmap. exists f. split; [done|by apply list_elem_of_In]. }
    destruct Hc as [Hc|[Hc _]]; [|rewrite Hc in Hin; set_solver]. rewrite !elem_of_cons in Hc. destruct Hc as [Hc|[Hc|[Hc|[Hc|[]%elem_of_nil]]]]; rewrite Hc in Hin; set_solver. }
  exists outs, (cause ++ reported_failures input r)%list, (paused_notification input r now). split; [done|]. split; [by apply signatures_once, Hnd|].
  rewrite !Hq by set_solver. rewrite Hw, Hn, Ht, Hsel, Hcap, Tn, Tt, Tf, Tu, Tc. unfold withheld_is_empty. rewrite Tw.
  split_and!; [done..| | |].
  - intros Hs. rewrite tells_app, Hout, Ts, Hs. apply orb_true_r.
  - rewrite <- Tp. unfold paused_notification. by destruct (ir_paused_spool_bytes r).
  - unfold paused_notification. destruct (ir_paused_spool_bytes r); by repeat constructor.
Qed.
End Claims.

(** * Two busy files *)

Module ConcreteInputs.
Import ConcreteFiles ConcreteSink ConcreteSelect ConcreteInput ConcreteFamily ConcreteWork.

(** A pass reads one line; an input may take 400 ms, all of them 1800 ms; the clock is 100 ms further at every look. *)
Definition toy_logs : LogsSection :=
  mk_logs 1000 10 100 1 400 1800 4000 "sp" (mk_output true "file" "out" "" 0 "line").
Definition toy_tick_config : TickConfig := mk_tick_config (Some "agent") "st" toy_logs.
Definition steady_clock (k : nat) : Z := (100 * Z.of_nat k)%Z.
Definition busy_input (name : string) : WorkLogInput :=
  mk_log_input "w" "fam" name (mk_input name ("/l/" +:+ name +:+ ".log") "head" "none" [] (toy_filter [] [] [] []) []).
Definition busy_log : string := sconcat (replicate 20 ("x" +:+ nl)).
Definition busy_start : Collect :=
  mk_collect (FileInput.mk_input (mk_uplink (MkWorld _ {[ "/l/a.log" := busy_log; "/l/b.log" := busy_log ]} {[ ""; "/l" ]} 0 ∅) ([], true)) 0) 0 [].
Definition busy_tick : result (option TelemetryTick) * Collect :=
  (b ← CatchupBudget_new steady_clock toy_logs;
   process_entries steady_clock 9 b toy_tick_config [busy_input "a"; busy_input "b"] silent) busy_start.

(** [catchup_slice_ms] is documented as the most an input may take in a tick, so that a busy one does not keep
    the others waiting; the code starts a new slice for every pass, so the first input takes the whole budget
    and the second gets one pass. *)
Example slice_restarts_with_each_pass :
  (λ kt, (kt.1, steady_clock kt.2)) <$> co_starts busy_tick.2 =
    [("a", 100); ("a", 400); ("a", 700); ("a", 1000); ("a", 1300); ("a", 1600); ("b", 1900)]%Z ∧
  length <$> (tt_failures <$> (default None (result_ok busy_tick.1))) = Some 0.
Proof. by vm_compute. Qed.

Lemma inputs_finish_in_time_witness :
  ∃ enough tick c' passes,
    (∀ fuel, enough ≤ fuel → process_telemetry_inputs steady_clock fuel toy_tick_config granted_state busy_start = (Ok (Some tick), c')) ∧
    length passes = length (log_inputs granted_state) ∧ 0 < length (log_inputs granted_state) ∧
    Forall (λ ks, Forall (started_in_time steady_clock toy_logs 0) (tail ks)) passes.
Proof.
  destruct (inputs_finish_in_time steady_clock toy_tick_config granted_state busy_start) as (enough & tick & c' & passes & H1 & H2 & _ & H4).
  { intros t. exists (Z.to_nat t). intros j Hj. unfold steady_clock. lia. }
  exists enough, tick, c', passes. split; [exact H1|]. split; [exact H2|]. split; [vm_compute; lia|exact H4].
Defined.

(** The sink is down: one line is read and goes to the spool, and the failure to write ends the catching up. *)
Definition down : Collect := mk_collect (FileInput.mk_input (mk_uplink (world (uplink (co_input busy_start))) ([], false)) 0) 0 [].
Definition down_run : result (option TelemetryTick) * Collect :=
  process_telemetry_input steady_clock 9 (mk_budget (Some 400%Z) (Some 1800%Z)) toy_tick_config (wl_input (busy_input "a")) (mk_origin "fam" "a") silent down.
Lemma problems_told_once_witness :
  ∃ tick, result_ok down_run.1 = Some (Some tick) ∧ fl_kind <$> tt_failures tick = [OutputWriteFailed] ∧ NoDup (telemetry_signature <$> tt_failures tick).
Proof.
  assert (Hv : match down_run.1 with Ok (Some t) => fl_kind <$> tt_failures t | _ => [] end = [OutputWriteFailed]) by (vm_compute; reflexivity).
  destruct down_run as [[[tick|]|e] c'] eqn:E; [|discriminate Hv|discriminate Hv]. exists tick. split; [done|]. split; [exact Hv|].
  unfold down_run in E. destruct (problems_told_once steady_clock _ _ _ _ _ _ _ _ _ E) as (outs & fails & notes & -> & Hn & _). exact Hn.
Defined.
End ConcreteInputs.
