(* ===== verification/Config.v ===== *)
(** The configuration (config/agent_config.rs, validate.rs and the pure part of config_runtime_support.rs): the
    sections with their defaults, what is accepted, and the variables and paths that are filled in.  How a
    configuration is found, created, brought up to date and loaded is in ConfigLoad.v. *)
From S2P Require Import Prelude Text Fmt Telemetry Select BTree Work Wire Inputs Sources.

(** * The sections (agent_config.rs) *)

Record AgentSection := mk_agent_section { as_agent_id : option string; as_environment_id : option string; as_instance_name : option string }.
Record ControlPlaneSection := mk_control_plane {
  cp_enabled : bool;
  cp_endpoint : option string;
  cp_enrollment_token : option string;
  cp_credential_request : option string;
  cp_credential_id : option string;
  cp_credential_expires_at : option string;
  cp_tls_mode : option string;
  cp_trust_bundle : option string;
  cp_auth_mode : option string;
}.
Record PathsSection := mk_paths { pt_root_dir : string; pt_run_dir : string; pt_state_dir : string; pt_log_dir : string }.
Record ExecutionSection := mk_execution {
  xs_max_running_actions : Z;
  xs_cancel_grace_ms : Z;
  xs_default_stdout_limit_bytes : Z;
  xs_default_stderr_limit_bytes : Z;
}.
Record DiscoverySection := mk_discovery {
  ds_host_enabled : bool;
  ds_network_enabled : bool;
  ds_endpoint_enabled : bool;
  ds_process_enabled : bool;
  ds_container_enabled : bool;
  ds_snapshot_uplink_enabled : bool;
  ds_snapshot_uplink_interval_seconds : Z;
  ds_source_resolve : bool;
}.

(** What other crates decide: the schema version, what is empty ([require_non_empty]), the reading modes, where
    the logs of containers are, and what is accepted of filters and noise. *)
Class ConfigContracts `{FilterContracts} := {
  SCHEMA_VERSION_V1 : string;
  is_empty_text : string → bool;
  MULTILINE_MODES : list string;
  CONTAINER_LOG_ROOT : string;
  is_container_log_target : string → bool;
  filters_default : ContainerFilters;
  filters_validate : ContainerFilters → bool;
  validate_drop_if_contains : list string → bool;
  LogSection : Type;
  log_section_default : LogSection;
}.

Section Sections.
Context `{ConfigContracts}.

(** [LogsSection]: what a tick reads of it, and the rest. *)
Record LogsConfig := mk_logs_config {
  lc_file_inputs : list LogFileInputSection;
  lc_file_inputs_file : option string;
  lc_spool_over_limit : string;
  lc_logs : LogsSection;
}.
Record AgentConfig := mk_config {
  cf_schema_version : string;
  cf_agent : AgentSection;
  cf_control_plane : ControlPlaneSection;
  cf_paths : PathsSection;
  cf_execution : ExecutionSection;
  cf_logs : LogsConfig;
  cf_discovery : DiscoverySection;
  cf_labels : btree string;
  cf_log : LogSection;
}.

(** ** The document: which keys are there *)

Record RawControlPlane := mk_raw_control_plane { rc_enabled : option bool; rc_rest : ControlPlaneSection }.
Record RawPaths := mk_raw_paths { rp_root_dir : option string; rp_run_dir : option string; rp_state_dir : option string; rp_log_dir : option string }.
Record RawExecution := mk_raw_execution { rx_max_running_actions : option Z; rx_cancel_grace_ms : option Z; rx_stdout : option Z; rx_stderr : option Z }.
Record RawInput := mk_raw_input {
  ri_input_id : string;
  ri_path : string;
  ri_startup_position : option string;
  ri_multiline_mode : option string;
  ri_exclude_globs : option (list string);
  ri_filters : option ContainerFilters;
  ri_drop_if_contains : option (list string);
}.
Record RawTcp := mk_raw_tcp { rt_addr : option string; rt_port : option Z; rt_framing : option string }.
Record RawOutput := mk_raw_output { ro_enabled : option bool; ro_kind : option string; ro_file : option (option string); ro_tcp : option RawTcp }.
Record RawLogs := mk_raw_logs {
  rl_file_inputs : option (list RawInput);
  rl_file_inputs_file : option string;
  rl_in_memory_buffer_bytes : option Z;
  rl_max_line_bytes : option Z;
  rl_max_read_bytes_per_tick : option Z;
  rl_max_lines_per_tick : option Z;
  rl_catchup_slice_ms : option Z;
  rl_catchup_budget_ms : option Z;
  rl_spool_max_bytes : option Z;
  rl_spool_over_limit : option string;
  rl_spool_dir : option string;
  rl_output : option RawOutput;
}.
Record RawDiscovery := mk_raw_discovery {
  rd_host_enabled : option bool;
  rd_network_enabled : option bool;
  rd_endpoint_enabled : option bool;
  rd_process_enabled : option bool;
  rd_container_enabled : option bool;
  rd_snapshot_uplink_enabled : option bool;
  rd_snapshot_uplink_interval_seconds : option Z;
  rd_source_resolve : option bool;
}.
(** [telemetry] and [metrics] have one key each, so their presence is not kept apart. *)
Record RawConfig := mk_raw_config {
  rw_schema_version : string;
  rw_agent : option AgentSection;
  rw_control_plane : option RawControlPlane;
  rw_paths : option RawPaths;
  rw_execution : option RawExecution;
  rw_logs : option RawLogs;
  rw_discovery : option RawDiscovery;
  rw_labels : option (btree string);
  rw_log : option LogSection;
}.

(** ** Defaults ([Deserialize]) *)

Definition agent_section_default : AgentSection := mk_agent_section None None None.
Definition control_plane_default : ControlPlaneSection := mk_control_plane false None None None None None None None None.
Definition control_plane_of (raw : RawControlPlane) : ControlPlaneSection :=
  let c := rc_rest raw in
  mk_control_plane (default false (rc_enabled raw)) (cp_endpoint c) (cp_enrollment_token c) (cp_credential_request c) (cp_credential_id c) (cp_credential_expires_at c)
    (cp_tls_mode c) (cp_trust_bundle c) (cp_auth_mode c).
Definition paths_of (raw : RawPaths) : PathsSection :=
  mk_paths (default "." (rp_root_dir raw)) (default "run" (rp_run_dir raw)) (default "state" (rp_state_dir raw)) (default "log" (rp_log_dir raw)).
Definition no_paths : RawPaths := mk_raw_paths None None None None.
Definition execution_of (raw : RawExecution) : ExecutionSection :=
  mk_execution (default 1 (rx_max_running_actions raw))%Z (default 5000 (rx_cancel_grace_ms raw))%Z (default 1048576 (rx_stdout raw))%Z (default 1048576 (rx_stderr raw))%Z.
Definition no_execution : RawExecution := mk_raw_execution None None None None.
Definition input_of (raw : RawInput) : LogFileInputSection :=
  Work.mk_input (ri_input_id raw) (ri_path raw) (default "tail" (ri_startup_position raw)) (default "none" (ri_multiline_mode raw))
    (default [] (ri_exclude_globs raw)) (default filters_default (ri_filters raw)) (default [] (ri_drop_if_contains raw)).
Definition no_tcp : RawTcp := mk_raw_tcp None None None.
Definition no_output : RawOutput := mk_raw_output None None None None.
Definition output_of (raw : RawOutput) : LogsOutputSection :=
  let tcp := default no_tcp (ro_tcp raw) in
  mk_output (default true (ro_enabled raw)) (default "file" (ro_kind raw)) (default "log/wist-records.ndjson" (default None (ro_file raw)))
    (default "127.0.0.1" (rt_addr tcp)) (default 9000 (rt_port tcp))%Z (default "line" (rt_framing tcp)).
Definition no_logs : RawLogs := mk_raw_logs None None None None None None None None None None None None.
Definition logs_of (raw : RawLogs) : LogsConfig :=
  mk_logs_config (input_of <$> default [] (rl_file_inputs raw)) (rl_file_inputs_file raw) (default "pause" (rl_spool_over_limit raw))
    (mk_logs (default 1048576 (rl_in_memory_buffer_bytes raw))%Z (default 1048576 (rl_max_line_bytes raw))%Z (default 4194304 (rl_max_read_bytes_per_tick raw))%Z
      (default 4096 (rl_max_lines_per_tick raw))%Z (default 400 (rl_catchup_slice_ms raw))%Z (default 1800 (rl_catchup_budget_ms raw))%Z
      (default 268435456 (rl_spool_max_bytes raw))%Z (default "state/spool/logs" (rl_spool_dir raw)) (output_of (default no_output (rl_output raw)))).
(** [Default for DiscoverySection], and the defaults of its fields, which differ in [process_enabled]. *)
Definition discovery_default : DiscoverySection := mk_discovery true true true true true true 3600 true.
Definition discovery_of (raw : RawDiscovery) : DiscoverySection :=
  mk_discovery (default true (rd_host_enabled raw)) (default true (rd_network_enabled raw)) (default true (rd_endpoint_enabled raw)) (default false (rd_process_enabled raw))
    (default true (rd_container_enabled raw)) (default true (rd_snapshot_uplink_enabled raw)) (default 3600 (rd_snapshot_uplink_interval_seconds raw))%Z (default true (rd_source_resolve raw)).
Definition config_of (raw : RawConfig) : AgentConfig :=
  mk_config (rw_schema_version raw) (default agent_section_default (rw_agent raw)) (match rw_control_plane raw with Some c => control_plane_of c | None => control_plane_default end)
    (paths_of (default no_paths (rw_paths raw))) (execution_of (default no_execution (rw_execution raw))) (logs_of (default no_logs (rw_logs raw)))
    (match rw_discovery raw with Some d => discovery_of d | None => discovery_default end) (default [] (rw_labels raw)) (default log_section_default (rw_log raw)).

(** Changed parts of a configuration. *)
Definition with_paths (p : PathsSection) (c : AgentConfig) : AgentConfig :=
  mk_config (cf_schema_version c) (cf_agent c) (cf_control_plane c) p (cf_execution c) (cf_logs c) (cf_discovery c) (cf_labels c) (cf_log c).
Definition with_logs (l : LogsConfig) (c : AgentConfig) : AgentConfig :=
  mk_config (cf_schema_version c) (cf_agent c) (cf_control_plane c) (cf_paths c) (cf_execution c) l (cf_discovery c) (cf_labels c) (cf_log c).
Definition with_inputs (inputs : list LogFileInputSection) (l : LogsConfig) : LogsConfig := mk_logs_config inputs None (lc_spool_over_limit l) (lc_logs l).
Definition with_output (o : LogsOutputSection) (l : LogsSection) : LogsSection :=
  mk_logs (lg_in_memory_buffer_bytes l) (lg_max_line_bytes l) (lg_max_read_bytes_per_tick l) (lg_max_lines_per_tick l) (lg_catchup_slice_ms l) (lg_catchup_budget_ms l)
    (lg_spool_max_bytes l) (lg_spool_dir l) o.
Definition with_spool_dir (dir : string) (l : LogsSection) : LogsSection :=
  mk_logs (lg_in_memory_buffer_bytes l) (lg_max_line_bytes l) (lg_max_read_bytes_per_tick l) (lg_max_lines_per_tick l) (lg_catchup_slice_ms l) (lg_catchup_budget_ms l)
    (lg_spool_max_bytes l) dir (lg_output l).
Definition with_file_path (path : string) (o : LogsOutputSection) : LogsOutputSection :=
  mk_output (lo_enabled o) (lo_kind o) path (lo_tcp_addr o) (lo_tcp_port o) (lo_tcp_framing o).
Definition with_input_path (path : string) (i : LogFileInputSection) : LogFileInputSection :=
  Work.mk_input (lf_input_id i) path (lf_startup_position i) (lf_multiline_mode i) (lf_exclude_globs i) (lf_filters i) (lf_drop_if_contains i).
End Sections.

(** * What is accepted (validate.rs) *)

#[export] Instance sum_ret E : MRet (sum E) := λ A a, inr a.
#[export] Instance sum_bind E : MBind (sum E) := λ A B f r, match r with inl e => inl e | inr a => f a end.

Definition demand {E} (b : bool) (code : E) : E + unit := if b then inr tt else inl code.
Fixpoint each {E A} (f : A → E + unit) (l : list A) : E + unit :=
  match l with [] => inr tt | a :: l => f a;; each f l end.

Section Validate.
Context `{ConfigContracts}.

Definition require_non_empty (value code : string) : string + unit := demand (negb (is_empty_text value)) code.
Definition non_zero (value : Z) (code : string) : string + unit := demand (negb (Z.eqb value 0)) code.

Definition KEYS : list string := ["app"; "env"; "cluster"; "role"; "shard"; "tier"; "region"; "zone"].
Definition ENVS : list string := ["prod"; "staging"; "dev"; "test"].
Definition label_char (a : ascii) : bool :=
  in_range 97 122 (code a) || is_ascii_digit a || Ascii.eqb a "-" || Ascii.eqb a "_" || Ascii.eqb a ".".
Definition valid_label_value (value : string) : bool :=
  negb (String.eqb value "") && Nat.leb (String.length value) 32 && all_chars label_char value.
Definition validate_label (label : string * string) : string + unit :=
  let '(key, value) := label in
  demand (bool_decide (key ∈ KEYS)) "unknown_metric_label";;
  demand (valid_label_value value) "invalid_metric_label_value";;
  demand (negb (String.eqb key "env" && negb (bool_decide (value ∈ ENVS)))) "invalid_metric_env".
Definition validate_metric_labels (labels : btree string) : string + unit :=
  demand (negb (Nat.ltb 6 (length labels))) "too_many_metric_labels";;
  each validate_label labels.

Definition validate_output (output : LogsOutputSection) : string + unit :=
  require_non_empty (lo_kind output) "missing_logs_output_kind";;
  if String.eqb (lo_kind output) "file" then require_non_empty (lo_file_path output) "missing_logs_output_file_path"
  else if String.eqb (lo_kind output) "tcp" then
    require_non_empty (lo_tcp_addr output) "missing_logs_output_tcp_addr";;
    non_zero (lo_tcp_port output) "invalid_logs_output_tcp_port";;
    demand (bool_decide (lo_tcp_framing output ∈ ["line"; "len"])) "invalid_logs_output_tcp_framing"
  else inl "invalid_logs_output_kind".

(** The filters' part of an input. *)
Definition validate_filters (input : LogFileInputSection) : string + unit :=
  let code := "invalid_log_input_container_filters" in
  let filters := lf_filters input in
  demand (filters_validate filters) code;;
  if negb (filters_empty filters) then
    let k8s_shape := negb (bool_decide (namespace_in filters = [])) || negb (bool_decide (pod_not_in filters = [])) in
    let name_shape := negb (bool_decide (name_in filters = [])) || negb (bool_decide (name_not_in filters = [])) in
    let under_root := String.eqb (lf_path input) CONTAINER_LOG_ROOT || starts_with (CONTAINER_LOG_ROOT +:+ "/") (lf_path input) in
    demand (negb (k8s_shape && negb under_root)) code;;
    demand (negb (name_shape && negb (is_container_log_target (lf_path input)))) code
  else inr tt.
(** One input; [input_ids] are those of the inputs before it. *)
Definition validate_input (input_ids : gset string) (input : LogFileInputSection) : string + unit :=
  require_non_empty (lf_input_id input) "missing_log_input_id";;
  require_non_empty (lf_path input) "missing_log_input_path";;
  demand (bool_decide (lf_input_id input ∉ input_ids)) "duplicate_log_input_id";;
  demand (bool_decide (lf_startup_position input ∈ ["head"; "tail"])) "invalid_log_startup_position";;
  demand (bool_decide (lf_multiline_mode input ∈ MULTILINE_MODES)) "invalid_log_multiline_mode";;
  each (λ exclude, demand (starts_with "/" exclude) "invalid_log_input_exclude_glob") (lf_exclude_globs input);;
  validate_filters input;;
  demand (validate_drop_if_contains (lf_drop_if_contains input)) "invalid_log_input_drop_if_contains".
Fixpoint validate_inputs (input_ids : gset string) (inputs : list LogFileInputSection) : string + unit :=
  match inputs with
  | [] => inr tt
  | input :: inputs =>
      validate_input input_ids input;;
      validate_inputs ({[ lf_input_id input ]} ∪ input_ids) inputs
  end.

Definition validate_logs_section (section : LogsConfig) : string + unit :=
  let logs := lc_logs section in
  non_zero (lg_in_memory_buffer_bytes logs) "invalid_logs_buffer_bytes";;
  require_non_empty (lg_spool_dir logs) "missing_logs_spool_dir";;
  validate_output (lg_output logs);;
  demand (String.eqb (lc_spool_over_limit section) "pause") "invalid_logs_spool_over_limit";;
  each (λ check, non_zero check.1 check.2)
    [(lg_max_line_bytes logs, "invalid_logs_max_line_bytes"); (lg_max_read_bytes_per_tick logs, "invalid_logs_max_read_bytes_per_tick");
     (lg_max_lines_per_tick logs, "invalid_logs_max_lines_per_tick"); (lg_spool_max_bytes logs, "invalid_logs_spool_max_bytes")];;
  validate_inputs ∅ (lc_file_inputs section).

Definition validate_config (contract : AgentConfig) : string + unit :=
  demand (String.eqb (cf_schema_version contract) SCHEMA_VERSION_V1) "invalid_schema_version";;
  (if cp_enabled (cf_control_plane contract) then
     require_non_empty (default "" (cp_endpoint (cf_control_plane contract))) "missing_control_plane_endpoint"
   else inr tt);;
  require_non_empty (pt_root_dir (cf_paths contract)) "missing_root_dir";;
  require_non_empty (pt_run_dir (cf_paths contract)) "missing_run_dir";;
  require_non_empty (pt_state_dir (cf_paths contract)) "missing_state_dir";;
  require_non_empty (pt_log_dir (cf_paths contract)) "missing_log_dir";;
  let execution := cf_execution contract in
  non_zero (xs_max_running_actions execution) "invalid_max_running_actions";;
  demand (Z.eqb (xs_max_running_actions execution) 1) "unsupported_max_running_actions";;
  non_zero (xs_cancel_grace_ms execution) "invalid_cancel_grace_ms";;
  non_zero (xs_default_stdout_limit_bytes execution) "invalid_stdout_limit";;
  non_zero (xs_default_stderr_limit_bytes execution) "invalid_stderr_limit";;
  let discovery := cf_discovery contract in
  demand (negb (negb (ds_host_enabled discovery) && negb (ds_network_enabled discovery) && negb (ds_endpoint_enabled discovery)
    && negb (ds_process_enabled discovery) && negb (ds_container_enabled discovery))) "missing_discovery_probe";;
  validate_logs_section (cf_logs contract);;
  validate_metric_labels (cf_labels contract).
End Validate.

(** * Variables and paths (config_runtime_support.rs) *)

(** [ConfigReason] and the error around it, of which the reason and the detail are kept. *)
Inductive ConfigReason := CIo | ParseToml | MissingEnvVar | Validation.
Record ConfigError := mk_config_error { ce_reason : ConfigReason; ce_detail : string }.

(** [str::find] for a text, with what stands before and after it. *)
Fixpoint split_at (needle s : string) : option (string * string) :=
  match strip_prefix needle s with
  | Some rest => Some ("", rest)
  | None => match s with EmptyString => None | String a s => '(before, rest) ← split_at needle s; Some (String a before, rest) end
  end.

Section Variables.
Variable env_var : string → option string.

(** The loop over what is left of the value; each round takes a [${] off it. *)
Fixpoint expand_loop (fuel : nat) (value : string) : ConfigError + string :=
  match fuel with
  | 0 => inr value
  | S fuel =>
      match split_at "${" value with
      | None => inr value
      | Some (before, rest) =>
          match split_once "}" rest with
          | None => inr (before +:+ "${" +:+ rest)
          | Some (name, after) =>
              match env_var name with
              | None => inl (mk_config_error MissingEnvVar name)
              | Some expanded => out ← expand_loop fuel after; inr (before +:+ expanded +:+ out)
              end
          end
      end
  end.
Definition expand_string (value : string) : ConfigError + string := expand_loop (S (String.length value)) value.
Definition expand_optional (value : option string) : ConfigError + option string :=
  match value with Some value => out ← expand_string value; inr (Some out) | None => inr None end.
End Variables.

Section Paths.
Context `{ConfigContracts}.
(** The working directory, when it can be told. *)
Variables (env_var : string → option string) (cwd : option string).
Notation expand_string := (expand_string env_var).
Notation expand_optional := (expand_optional env_var).

Definition expand_input (input : LogFileInputSection) : ConfigError + LogFileInputSection :=
  input_id ← expand_string (lf_input_id input);
  path ← expand_string (lf_path input);
  startup_position ← expand_string (lf_startup_position input);
  multiline_mode ← expand_string (lf_multiline_mode input);
  inr (Work.mk_input input_id path startup_position multiline_mode (lf_exclude_globs input) (lf_filters input) (lf_drop_if_contains input)).
Fixpoint expand_inputs (inputs : list LogFileInputSection) : ConfigError + list LogFileInputSection :=
  match inputs with
  | [] => inr []
  | input :: inputs => input ← expand_input input; inputs ← expand_inputs inputs; inr (input :: inputs)
  end.
Definition expand_agent (agent : AgentSection) : ConfigError + AgentSection :=
  agent_id ← expand_optional (as_agent_id agent);
  environment_id ← expand_optional (as_environment_id agent);
  instance_name ← expand_optional (as_instance_name agent);
  inr (mk_agent_section agent_id environment_id instance_name).
Definition expand_control_plane (c : ControlPlaneSection) : ConfigError + ControlPlaneSection :=
  endpoint ← expand_optional (cp_endpoint c);
  enrollment_token ← expand_optional (cp_enrollment_token c);
  credential_request ← expand_optional (cp_credential_request c);
  credential_id ← expand_optional (cp_credential_id c);
  credential_expires_at ← expand_optional (cp_credential_expires_at c);
  tls_mode ← expand_optional (cp_tls_mode c);
  trust_bundle ← expand_optional (cp_trust_bundle c);
  auth_mode ← expand_optional (cp_auth_mode c);
  inr (mk_control_plane (cp_enabled c) endpoint enrollment_token credential_request credential_id credential_expires_at tls_mode trust_bundle auth_mode).
Definition expand_paths (p : PathsSection) : ConfigError + PathsSection :=
  root_dir ← expand_string (pt_root_dir p);
  run_dir ← expand_string (pt_run_dir p);
  state_dir ← expand_string (pt_state_dir p);
  log_dir ← expand_string (pt_log_dir p);
  inr (mk_paths root_dir run_dir state_dir log_dir).
Definition expand_output (o : LogsOutputSection) : ConfigError + LogsOutputSection :=
  kind ← expand_string (lo_kind o);
  path ← expand_string (lo_file_path o);
  addr ← expand_string (lo_tcp_addr o);
  framing ← expand_string (lo_tcp_framing o);
  inr (mk_output (lo_enabled o) kind path addr (lo_tcp_port o) framing).
Definition expand_env_contract (config : AgentConfig) : ConfigError + AgentConfig :=
  agent ← expand_agent (cf_agent config);
  control_plane ← expand_control_plane (cf_control_plane config);
  paths ← expand_paths (cf_paths config);
  let logs := lc_logs (cf_logs config) in
  spool_dir ← expand_string (lg_spool_dir logs);
  output ← expand_output (lg_output logs);
  inputs ← expand_inputs (lc_file_inputs (cf_logs config));
  let section := mk_logs_config inputs (lc_file_inputs_file (cf_logs config)) (lc_spool_over_limit (cf_logs config)) (with_output output (with_spool_dir spool_dir logs)) in
  inr (mk_config (cf_schema_version config) agent control_plane paths (cf_execution config) section (cf_discovery config) (cf_labels config) (cf_log config)).

(** ** [std::path] on texts *)

Definition is_absolute (path : string) : bool := starts_with "/" path.
(** [Path::components] without the root; [.] is left out here already. *)
Definition components (path : string) : list string :=
  List.filter (λ segment, negb (String.eqb segment "" || String.eqb segment ".")) (split_on slash path).
Definition join_path (base path : string) : string :=
  if is_absolute path then path else if String.eqb base "" then path
  else base +:+ (if ends_with "/" base then "" else "/") +:+ path.
(** [config_path.parent().unwrap_or(".")] *)
Definition config_dir_of (config_path : string) : string := default "." (parent_dir config_path).

(** The stack of segments, the last first; the root has no parent. *)
Definition take_component (stack : list string) (component : string) : list string :=
  if String.eqb component ".." then tail stack else component :: stack.
Definition normalize_path (path : string) : string :=
  (if is_absolute path then "/" else "") +:+ Text.join "/" (rev (foldl take_component [] (components path))).
Definition absolutize (base raw : string) : string := normalize_path (if is_absolute raw then raw else join_path base raw).

Definition SYSTEM_CONFIG_DIR : string := "/etc/wist-agentd".
Definition SYSTEM_DATA_ROOT : string := "/var/lib/wist-agentd".
Definition SYSTEM_LOG_DIR : string := "/var/log/wist-agentd".
Definition COLLECTED_OUTPUT_SUBDIR : string := "data".
Definition COLLECTED_OUTPUT_FILE : string := "wist-records.ndjson".

Fixpoint begins (l l' : list string) : bool :=
  match l, l' with [], _ => true | x :: l, y :: l' => String.eqb x y && begins l l' | _ :: _, [] => false end.
(** [Path::starts_with] compares components. *)
Definition path_starts_with (path root : string) : bool :=
  Bool.eqb (is_absolute path) (is_absolute root) && begins (components root) (components path).
Definition is_system_config_dir (config_dir : string) : bool :=
  let absolute := if is_absolute config_dir then config_dir else match cwd with Some cwd => join_path cwd config_dir | None => config_dir end in
  path_starts_with absolute SYSTEM_CONFIG_DIR.
Definition system_data_root_for (config_dir : string) : option string := if is_system_config_dir config_dir then Some SYSTEM_DATA_ROOT else None.

Definition default_paths_for (config_dir : string) : PathsSection :=
  if is_system_config_dir config_dir then mk_paths SYSTEM_DATA_ROOT "run" "state" SYSTEM_LOG_DIR else mk_paths "." "run" "state" "log".
Definition collected_output_default (system : bool) : string :=
  let relative := COLLECTED_OUTPUT_SUBDIR +:+ "/" +:+ COLLECTED_OUTPUT_FILE in
  if system then join_path SYSTEM_DATA_ROOT relative else relative.

(** Whether the document declares the path of the output. *)
Definition output_declared (raw : RawConfig) : bool :=
  match rw_logs raw with
  | Some logs => match rl_output logs with Some output => match ro_file output with Some (Some _) => true | _ => false end | None => false end
  | None => false
  end.
Definition keep_declared {A B} (declared : option A) (value fallback : B) : B := if declared then value else fallback.
Definition apply_path_defaults (config : AgentConfig) (config_path : string) (raw : RawConfig) : AgentConfig :=
  let config_dir := config_dir_of config_path in
  let system := is_system_config_dir config_dir in
  let defaults := default_paths_for config_dir in
  let declared := default no_paths (rw_paths raw) in
  let p := cf_paths config in
  let config := with_paths (mk_paths (keep_declared (rp_root_dir declared) (pt_root_dir p) (pt_root_dir defaults)) (keep_declared (rp_run_dir declared) (pt_run_dir p) (pt_run_dir defaults))
    (keep_declared (rp_state_dir declared) (pt_state_dir p) (pt_state_dir defaults)) (keep_declared (rp_log_dir declared) (pt_log_dir p) (pt_log_dir defaults))) config in
  if output_declared raw then config
  else let section := cf_logs config in let logs := lc_logs section in
    with_logs (mk_logs_config (lc_file_inputs section) (lc_file_inputs_file section) (lc_spool_over_limit section)
      (with_output (with_file_path (collected_output_default system) (lg_output logs)) logs)) config.

Definition resolve_paths (config : AgentConfig) (config_path : string) : AgentConfig :=
  let root_dir := absolutize (config_dir_of config_path) (pt_root_dir (cf_paths config)) in
  let p := cf_paths config in
  let section := cf_logs config in
  let logs := lc_logs section in
  with_paths (mk_paths root_dir (absolutize root_dir (pt_run_dir p)) (absolutize root_dir (pt_state_dir p)) (absolutize root_dir (pt_log_dir p)))
    (with_logs (mk_logs_config ((λ input, with_input_path (absolutize root_dir (lf_path input)) input) <$> lc_file_inputs section)
       (lc_file_inputs_file section) (lc_spool_over_limit section)
       (with_output (with_file_path (absolutize root_dir (lo_file_path (lg_output logs))) (lg_output logs))
         (with_spool_dir (absolutize root_dir (lg_spool_dir logs)) logs))) config).
End Paths.

(** * Checks that are exact *)

(** A check finds nothing when there is nothing, and otherwise names something that is there. *)
Definition exact {E} (check : E + unit) (wrong : E → Prop) : Prop :=
  match check with inr _ => ∀ code, ¬ wrong code | inl code => wrong code end.

Lemma exact_demand {E} (b : bool) (code : E) : exact (demand b code) (λ c, b = false ∧ c = code).
Proof. destruct b; cbn; [by intros c [? _]|done]. Qed.
Lemma exact_bind {E} (check : E + unit) (rest : E + unit) wrong wrong' : exact check wrong → exact rest wrong' → exact (check;; rest) (λ c, wrong c ∨ wrong' c).
Proof. unfold exact. destruct check as [e|[]]; cbn; [by left|]. destruct rest as [e|[]]; [by right|]. intros Hc Ho c [?|?]; [by eapply Hc|by eapply Ho]. Qed.
Lemma exact_each {E A} (f : A → E + unit) (wrong : A → E → Prop) l : (∀ a, exact (f a) (wrong a)) → exact (each f l) (λ c, ∃ a, a ∈ l ∧ wrong a c).
Proof.
  intros Hf. induction l as [|a l IH]; cbn [each]; [by intros c (a & ?%elem_of_nil & _)|].
  pose proof (exact_bind _ _ _ _ (Hf a) IH) as Hb. unfold exact in *. destruct (f a;; each f l) as [e|[]]; cbn beta in *.
  - destruct Hb as [?|(b & ? & ?)]; [exists a; split; [left|done]|exists b; split; [by right|done]].
  - intros c (b & [->|Hin]%elem_of_cons & Hw); apply (Hb c); [by left|right; by exists b].
Qed.
Lemma exact_iff {E} (check : E + unit) wrong wrong' : exact check wrong → (∀ c, wrong c ↔ wrong' c) → exact check wrong'.
Proof. unfold exact. intros He Hw. destruct check; [by apply Hw|]. intros c Hc%Hw. by eapply He. Qed.
Lemma exact_ok {E} : exact (E := E) (inr tt) (λ _, False).
Proof. intros c []. Qed.
Lemma exact_if {E} (b : bool) (check other : E + unit) wrong wrong' : exact check wrong → exact other wrong' →
  exact (if b then check else other) (λ c, b = true ∧ wrong c ∨ b = false ∧ wrong' c).
Proof. unfold exact. destruct b; intros Hc Ho; [destruct check|destruct other]; naive_solver. Qed.
Lemma exact_inl {E} (e : E) : exact (inl e) (λ c, c = e).
Proof. done. Qed.
Lemma exact_prop {E} (P : Prop) `{!Decision P} (code : E) : exact (demand (bool_decide P) code) (λ c, ¬ P ∧ c = code).
Proof. eapply exact_iff; [apply exact_demand|]. intros c. cbn. by rewrite bool_decide_eq_false. Qed.
Lemma exact_eqb {E} a b (code : E) : exact (demand (String.eqb a b) code) (λ c, a ≠ b ∧ c = code).
Proof. eapply exact_iff; [apply exact_demand|]. intros c. cbn. by rewrite String.eqb_neq. Qed.

(** * What is accepted, as rules *)

Section Rules.
Context `{ConfigContracts}.

Inductive label_defect (labels : btree string) : string → Prop :=
| too_many_labels : 6 < length labels → label_defect labels "too_many_metric_labels"
| unknown_label key value : (key, value) ∈ labels → key ∉ KEYS → label_defect labels "unknown_metric_label"
| bad_label_value key value : (key, value) ∈ labels → valid_label_value value = false → label_defect labels "invalid_metric_label_value"
| bad_env value : ("env", value) ∈ labels → value ∉ ENVS → label_defect labels "invalid_metric_env".

Inductive output_defect (o : LogsOutputSection) : string → Prop :=
| no_kind : is_empty_text (lo_kind o) = true → output_defect o "missing_logs_output_kind"
| bad_kind : lo_kind o ∉ ["file"; "tcp"] → output_defect o "invalid_logs_output_kind"
| no_file : lo_kind o = "file" → is_empty_text (lo_file_path o) = true → output_defect o "missing_logs_output_file_path"
| no_addr : lo_kind o = "tcp" → is_empty_text (lo_tcp_addr o) = true → output_defect o "missing_logs_output_tcp_addr"
| no_port : lo_kind o = "tcp" → lo_tcp_port o = 0%Z → output_defect o "invalid_logs_output_tcp_port"
| bad_framing : lo_kind o = "tcp" → lo_tcp_framing o ∉ ["line"; "len"] → output_defect o "invalid_logs_output_tcp_framing".

(** Filters on namespaces and pods need the directory of Kubernetes, those on names the log of a container. *)
Definition filters_misplaced (input : LogFileInputSection) : Prop :=
  let f := lf_filters input in
  filters_empty f = false ∧
  ((namespace_in f ≠ [] ∨ pod_not_in f ≠ []) ∧ lf_path input ≠ CONTAINER_LOG_ROOT ∧ starts_with (CONTAINER_LOG_ROOT +:+ "/") (lf_path input) = false
   ∨ (name_in f ≠ [] ∨ name_not_in f ≠ []) ∧ is_container_log_target (lf_path input) = false).
Inductive input_defect (input : LogFileInputSection) : string → Prop :=
| no_input_id : is_empty_text (lf_input_id input) = true → input_defect input "missing_log_input_id"
| no_input_path : is_empty_text (lf_path input) = true → input_defect input "missing_log_input_path"
| bad_startup : lf_startup_position input ∉ ["head"; "tail"] → input_defect input "invalid_log_startup_position"
| bad_mode : lf_multiline_mode input ∉ MULTILINE_MODES → input_defect input "invalid_log_multiline_mode"
| relative_exclude exclude : exclude ∈ lf_exclude_globs input → starts_with "/" exclude = false → input_defect input "invalid_log_input_exclude_glob"
| bad_filters : filters_validate (lf_filters input) = false ∨ filters_misplaced input → input_defect input "invalid_log_input_container_filters"
| bad_noise : validate_drop_if_contains (lf_drop_if_contains input) = false → input_defect input "invalid_log_input_drop_if_contains".

Inductive defect (c : AgentConfig) : string → Prop :=
| other_version : cf_schema_version c ≠ SCHEMA_VERSION_V1 → defect c "invalid_schema_version"
| no_endpoint : cp_enabled (cf_control_plane c) = true → is_empty_text (default "" (cp_endpoint (cf_control_plane c))) = true → defect c "missing_control_plane_endpoint"
| no_root : is_empty_text (pt_root_dir (cf_paths c)) = true → defect c "missing_root_dir"
| no_run : is_empty_text (pt_run_dir (cf_paths c)) = true → defect c "missing_run_dir"
| no_state : is_empty_text (pt_state_dir (cf_paths c)) = true → defect c "missing_state_dir"
| no_log : is_empty_text (pt_log_dir (cf_paths c)) = true → defect c "missing_log_dir"
| no_action : xs_max_running_actions (cf_execution c) = 0%Z → defect c "invalid_max_running_actions"
| many_actions : (xs_max_running_actions (cf_execution c) ≠ 1)%Z → defect c "unsupported_max_running_actions"
| no_grace : xs_cancel_grace_ms (cf_execution c) = 0%Z → defect c "invalid_cancel_grace_ms"
| no_stdout : xs_default_stdout_limit_bytes (cf_execution c) = 0%Z → defect c "invalid_stdout_limit"
| no_stderr : xs_default_stderr_limit_bytes (cf_execution c) = 0%Z → defect c "invalid_stderr_limit"
| no_probe : (ds_host_enabled (cf_discovery c) || ds_network_enabled (cf_discovery c) || ds_endpoint_enabled (cf_discovery c)
    || ds_process_enabled (cf_discovery c) || ds_container_enabled (cf_discovery c)) = false → defect c "missing_discovery_probe"
| no_buffer : lg_in_memory_buffer_bytes (lc_logs (cf_logs c)) = 0%Z → defect c "invalid_logs_buffer_bytes"
| no_spool_dir : is_empty_text (lg_spool_dir (lc_logs (cf_logs c))) = true → defect c "missing_logs_spool_dir"
| bad_output code : output_defect (lg_output (lc_logs (cf_logs c))) code → defect c code
| bad_limit : lc_spool_over_limit (cf_logs c) ≠ "pause" → defect c "invalid_logs_spool_over_limit"
| no_line : lg_max_line_bytes (lc_logs (cf_logs c)) = 0%Z → defect c "invalid_logs_max_line_bytes"
| no_read : lg_max_read_bytes_per_tick (lc_logs (cf_logs c)) = 0%Z → defect c "invalid_logs_max_read_bytes_per_tick"
| no_lines : lg_max_lines_per_tick (lc_logs (cf_logs c)) = 0%Z → defect c "invalid_logs_max_lines_per_tick"
| no_spool : lg_spool_max_bytes (lc_logs (cf_logs c)) = 0%Z → defect c "invalid_logs_spool_max_bytes"
| twice_the_input : ¬ NoDup (lf_input_id <$> lc_file_inputs (cf_logs c)) → defect c "duplicate_log_input_id"
| bad_input input code : input ∈ lc_file_inputs (cf_logs c) → input_defect input code → defect c code
| bad_label code : label_defect (cf_labels c) code → defect c code.

Lemma exact_non_empty value code : exact (require_non_empty value code) (λ c, is_empty_text value = true ∧ c = code).
Proof. eapply exact_iff; [apply exact_demand|]. intros c. cbn. by rewrite negb_false_iff. Qed.
Lemma exact_non_zero value code : exact (non_zero value code) (λ c, value = 0%Z ∧ c = code).
Proof. eapply exact_iff; [apply exact_demand|]. intros c. cbn. by rewrite negb_false_iff, Z.eqb_eq. Qed.
End Rules.

(** What each check of a validator finds. *)
Ltac find_checks := repeat match goal with
  | |- exact (mbind _ _) _ => apply exact_bind
  | |- exact (require_non_empty _ _) _ => apply exact_non_empty
  | |- exact (non_zero _ _) _ => apply exact_non_zero
  | |- exact (demand (String.eqb _ _) _) _ => apply exact_eqb
  | |- exact (demand (bool_decide _) _) _ => apply exact_prop
  | |- exact (demand _ _) _ => apply exact_demand
  | |- exact (if _ then _ else _) _ => apply exact_if
  | |- exact (each _ _) _ => apply exact_each; intros ?; cbv beta
  | |- exact (inr tt) _ => apply exact_ok
  | |- exact (inl _) _ => apply exact_inl
  end.

(** The disjunct that says what is known. *)
Ltac pick := first [done | by split | split; [by left|done] | eexists; split; [eassumption|done] | left; pick | right; pick].

Section RuleFacts.
Context `{ConfigContracts}.

Lemma labels_exact labels : exact (validate_metric_labels labels) (label_defect labels).
Proof.
  eapply exact_iff.
  { unfold validate_metric_labels. apply exact_bind; [apply exact_demand|]. apply (exact_each _ (λ label code, (label.1 ∉ KEYS ∧ code = "unknown_metric_label") ∨
      (valid_label_value label.2 = false ∧ code = "invalid_metric_label_value") ∨ ((label.1 = "env" ∧ label.2 ∉ ENVS) ∧ code = "invalid_metric_env"))).
    intros [key value]. cbn [validate_label fst snd]. apply exact_bind; [find_checks|]. apply exact_bind; [find_checks|]. eapply exact_iff; [apply exact_demand|]. intros c. cbn.
    by rewrite negb_false_iff, andb_true_iff, String.eqb_eq, negb_true_iff, bool_decide_eq_false. }
  intros c. cbn beta. rewrite negb_false_iff, Nat.ltb_lt. split.
  - intros [[? ->]|([key value] & Hin & [[? ->]|[[? ->]|[[Hk ?] ->]]])]; [by constructor|by econstructor|by econstructor|]. cbn in Hk. subst key. by econstructor.
  - destruct 1 as [?|key value ? ?|key value ? ?|value ? ?]; [by left|right; exists (key, value); naive_solver..|right; exists ("env", value); naive_solver].
Qed.

Lemma not_these {A} (a x y : A) : a ∉ [x; y] ↔ a ≠ x ∧ a ≠ y.
Proof. rewrite !not_elem_of_cons. split; [naive_solver|]. intros (? & ?). split_and!; [done|done|apply not_elem_of_nil]. Qed.
Lemma output_exact output : exact (validate_output output) (output_defect output).
Proof.
  eapply exact_iff; [unfold validate_output; find_checks|]. intros c. cbn beta. rewrite !String.eqb_eq, !String.eqb_neq, !not_these. split.
  - intros [[? ->]|[(? & ? & ->)|(Hf & [(? & [[? ->]|[[? ->]|[? ->]]])|[Ht ->]])]]; solve [constructor; first [assumption | by rewrite not_these]].
  - destruct 1 as [?|Hk%not_these|?|Ht ?|Ht ?|Ht ?%not_these]; try rewrite Ht; naive_solver.
Qed.
Lemma not_nil {A} (l : list A) : negb (bool_decide (l = [])) = true ↔ l ≠ [].
Proof. by rewrite negb_true_iff, bool_decide_eq_false. Qed.
Lemma filters_exact input : exact (validate_filters input)
  (λ c, (filters_validate (lf_filters input) = false ∨ filters_misplaced input) ∧ c = "invalid_log_input_container_filters").
Proof.
  eapply exact_iff; [unfold validate_filters; cbv zeta; find_checks|]. intros c. cbn beta zeta. unfold filters_misplaced.
  rewrite !negb_false_iff, !andb_true_iff, !orb_true_iff, negb_true_iff, negb_orb, !not_nil, !andb_true_iff, !negb_true_iff, String.eqb_neq. naive_solver.
Qed.
Lemma input_exact ids input : exact (validate_input ids input) (λ c, input_defect input c ∨ lf_input_id input ∈ ids ∧ c = "duplicate_log_input_id").
Proof.
  eapply exact_iff.
  { unfold validate_input. find_checks. apply filters_exact. }
  intros c. cbn beta. split.
  - intros [[? ->]|[[? ->]|[[Hd%dec_stable ->]|[[? ->]|[[? ->]|[(e & ? & ? & ->)|[[? ->]|[? ->]]]]]]]]; solve [left; econstructor; eassumption | by right].
  - intros [[]|[? ->]]; naive_solver.
Qed.
(** The set of the ids seen so far finds an id that comes twice. *)
Lemma inputs_exact ids inputs : exact (validate_inputs ids inputs)
  (λ c, (∃ input, input ∈ inputs ∧ input_defect input c) ∨ (¬ NoDup (lf_input_id <$> inputs) ∨ ∃ id, id ∈ ids ∧ id ∈ lf_input_id <$> inputs) ∧ c = "duplicate_log_input_id").
Proof.
  revert ids. induction inputs as [|input inputs IH]; intros ids; cbn [validate_inputs].
  { intros c [(i & Hi & _)|[[Hn|(id & _ & Hi)] _]]; [by apply elem_of_nil in Hi|apply Hn; constructor|by apply elem_of_nil in Hi]. }
  eapply exact_iff; [apply exact_bind; [apply input_exact|apply IH]|]. intros c. cbn beta. rewrite fmap_cons. split.
  - intros [[?|[? ->]]|[(i & ? & ?)|[[Hn|(id & Hid & ?)] ->]]].
    + left. exists input. split; [left|done].
    + right. split; [|done]. right. exists (lf_input_id input). split; [done|left].
    + left. exists i. split; [by right|done].
    + right. split; [|done]. left. by intros [_ ?]%NoDup_cons.
    + right. split; [|done]. apply elem_of_union in Hid as [->%elem_of_singleton|?]; [left; by intros [? _]%NoDup_cons|right; exists id; split; [done|by right]].
  - intros [(i & [->|Hi]%elem_of_cons & ?)|[Hd ->]]; [by left; left|right; left; by exists i|].
    destruct (decide (lf_input_id input ∈ ids)); [by left; right|]. right; right. split; [|done].
    destruct (decide (lf_input_id input ∈ lf_input_id <$> inputs)) as [Hin|Hout]; [right; exists (lf_input_id input); set_solver|].
    destruct Hd as [Hd|(id & Hid & [->|Hin]%elem_of_cons)]; [left; intros Hn; apply Hd; by constructor|done|right; exists id; set_solver].
Qed.

Lemma config_exact config : exact (validate_config config) (defect config).
Proof.
  eapply exact_iff.
  { unfold validate_config, validate_logs_section. cbv zeta. cbn [each fst snd].
    find_checks; try apply output_exact; try apply inputs_exact; try apply labels_exact. }
  intros c. cbn beta. rewrite !negb_false_iff, !andb_true_iff, !negb_true_iff, <- !orb_false_iff, !Z.eqb_neq. split.
  - intros Hc. repeat match goal with H : _ ∨ _ |- _ => destruct H as [H|H] | H : ∃ _, _ |- _ => destruct H | H : _ ∧ _ |- _ => destruct H | H : False |- _ => destruct H end; subst.
    all: try solve [econstructor; eassumption]. set_solver.
  - destruct 1. all: pick.
Qed.

(** A configuration is accepted exactly when it has none of the defects listed above, and what a refused one
    is told is a defect it has: the labels, the output and the inputs are looked at in full, an id that comes
    twice is found wherever it comes, and nothing else is refused. *)
Theorem validate_exact config :
  (validate_config config = inr tt ↔ ∀ code, ¬ defect config code) ∧ (∀ code, validate_config config = inl code → defect config code).
Proof. pose proof (config_exact config) as He. unfold exact in He. destruct (validate_config config) as [e|[]]; split; naive_solver. Qed.
End RuleFacts.

(** * What variables become *)

Section Expansion.
Variable env_var : string → option string.

(** The first [${..}] is replaced by its value as it is, then the rest is looked at; a name that is not closed
    stays; a variable that is not there is told by its name. *)
Inductive expands : string → ConfigError + string → Prop :=
| ex_plain value : contains "${" value = false → expands value (inr value)
| ex_open before rest : contains "${" (before +:+ "$") = false → has_char "}" rest = false → expands (before +:+ "${" +:+ rest) (inr (before +:+ "${" +:+ rest))
| ex_missing before name after : contains "${" (before +:+ "$") = false → has_char "}" name = false → env_var name = None →
    expands (before +:+ "${" +:+ name +:+ "}" +:+ after) (inl (mk_config_error MissingEnvVar name))
| ex_value before name after expanded r : contains "${" (before +:+ "$") = false → has_char "}" name = false → env_var name = Some expanded → expands after r →
    expands (before +:+ "${" +:+ name +:+ "}" +:+ after) (match r with inl e => inl e | inr out => inr (before +:+ expanded +:+ out) end).

Lemma strip_prefix_none n s : strip_prefix n s = None ↔ String.prefix n s = false.
Proof.
  revert s. induction n as [|a n IH]; intros [|b s]; cbn; [done..|]. destruct (Ascii.eqb_spec a b) as [->|Hne].
  - destruct (ascii_dec b b); [apply IH|done].
  - destruct (ascii_dec a b); done.
Qed.
Lemma strip_prefix_some n s rest : strip_prefix n s = Some rest ↔ s = n +:+ rest.
Proof.
  revert s. induction n as [|a n IH]; intros s; [rewrite app_nil_l; cbn; naive_solver|]. rewrite app_cons.
  destruct s as [|b s]; cbn [strip_prefix]; [done|]. destruct (Ascii.eqb_spec a b) as [->|Hne]; [rewrite IH|]; naive_solver.
Qed.
Lemma split_at_none n s : split_at n s = None ↔ contains n s = false.
Proof.
  induction s as [|a s IH]; cbn [split_at contains]; destruct (strip_prefix n _) as [rest|] eqn:E.
  all: try (apply strip_prefix_none in E; rewrite E; cbn [orb]). 
  all: try (destruct (String.prefix n _) eqn:E'; [done|]; apply strip_prefix_none in E'; congruence).
  - done.
  - rewrite <- IH. destruct (split_at n s) as [[]|]; done.
Qed.
Lemma prefix_of_two x y a b s t : String.prefix (String x (String y "")) (String a (String b s)) = String.prefix (String x (String y "")) (String a (String b t)).
Proof. cbn. destruct (ascii_dec x a), (ascii_dec y b); [by destruct s, t|done..]. Qed.
Lemma split_at_first before rest : contains "${" (before +:+ "$") = false → split_at "${" (before +:+ "${" +:+ rest) = Some (before, rest).
Proof.
  induction before as [|a before IH]; intros Hc; [done|]. rewrite app_cons in Hc. rewrite app_cons. cbn [contains] in Hc. apply orb_false_iff in Hc as [Hp Hc].
  cbn [split_at]. assert (Hn : strip_prefix "${" (String a (before +:+ "${" +:+ rest)) = None).
  { apply strip_prefix_none. destruct before as [|b before]; [cbn; by destruct (ascii_dec "$" a)|rewrite app_cons in *; etrans; [apply prefix_of_two|exact Hp]]. }
  rewrite Hn, IH by done. done.
Qed.
Lemma split_at_some s before rest : split_at "${" s = Some (before, rest) → s = before +:+ "${" +:+ rest ∧ contains "${" (before +:+ "$") = false.
Proof.
  revert before. induction s as [|a s IH]; intros before; cbn [split_at]; [done|]. destruct (strip_prefix "${" (String a s)) as [r|] eqn:E.
  - intros [= <- <-]. by apply strip_prefix_some in E.
  - destruct (split_at "${" s) as [[b r]|]; [|done]. cbn. intros [= <- ->]. destruct (IH b eq_refl) as [-> Hc]. split; [by rewrite app_cons|].
    rewrite app_cons. cbn [contains]. rewrite Hc, orb_false_r. apply strip_prefix_none in E. destruct b as [|c b]; [cbn; by destruct (ascii_dec "$" a)|rewrite app_cons in *; etrans; [apply prefix_of_two|exact E]].
Qed.
Lemma split_once_some c s x y : split_once c s = Some (x, y) → s = x +:+ String c y ∧ has_char c x = false.
Proof.
  revert x. induction s as [|a s IH]; intros x; cbn [split_once]; [done|]. destruct (Ascii.eqb_spec a c) as [->|Hne]; [by intros [= <- <-]|].
  destruct (split_once c s) as [[x' y']|]; [|done]. cbn. intros [= <- ->]. destruct (IH x' eq_refl) as [-> Hx]. split; [done|].
  rewrite has_char_cons, Hx. by apply Ascii.eqb_neq in Hne as ->.
Qed.
Lemma split_once_none c s : split_once c s = None ↔ has_char c s = false.
Proof.
  induction s as [|a s IH]; cbn [split_once]; [done|]. rewrite has_char_cons. destruct (Ascii.eqb a c); [done|]. cbn [orb]. rewrite <- IH. by destruct (split_once c s) as [[]|].
Qed.

Lemma loop_expands fuel value : String.length value < fuel → expands value (expand_loop env_var fuel value).
Proof.
  revert value. induction fuel as [|fuel IH]; intros value Hf; [lia|]. cbn [expand_loop].
  destruct (split_at "${" value) as [[before rest]|] eqn:Es; [|by apply split_at_none in Es; constructor]. apply split_at_some in Es as [-> Hb].
  destruct (split_once "}" rest) as [[name after]|] eqn:Eo; [|by apply split_once_none in Eo; constructor]. apply split_once_some in Eo as [-> Hn].
  change (name +:+ String "}" after) with (name +:+ "}" +:+ after) in *. destruct (env_var name) as [expanded|] eqn:Ev; [|by constructor].
  eapply ex_value in IH; [exact IH|done..|]. rewrite !length_app_string in Hf. cbn [String.length] in Hf. lia.
Qed.
Lemma expands_loop value r : expands value r → ∀ fuel, String.length value < fuel → expand_loop env_var fuel value = r.
Proof.
  induction 1 as [value Hc|before rest Hb Hr|before name after Hb Hn Hv|before name after expanded r Hb Hn Hv He IH]; intros [|fuel] Hf; [lia| |lia| |lia| |lia|]; cbn [expand_loop].
  - by apply split_at_none in Hc as ->.
  - rewrite split_at_first by done. by apply split_once_none in Hr as ->.
  - rewrite split_at_first by done. change (name +:+ "}" +:+ after) with (name +:+ String "}" after). rewrite split_once_app by done. by rewrite Hv.
  - rewrite split_at_first by done. change (name +:+ "}" +:+ after) with (name +:+ String "}" after). rewrite split_once_app by done. rewrite Hv, IH; [done|].
    rewrite !length_app_string in Hf. cbn [String.length] in Hf. lia.
Qed.

(** What a value becomes is what the relation above says, and the relation says one thing of every value: the
    loop ends with the value when it has fewer rounds than bytes, variables are looked up in the order in which they
    stand, and what a variable holds is not looked at again. *)
Theorem expand_exact value r : expand_string env_var value = r ↔ expands value r.
Proof. unfold expand_string. split; [intros <-; apply loop_expands; lia|intros H; eapply expands_loop; [exact H|lia]]. Qed.
End Expansion.

(** * Where the paths lead *)

Section Paths.
Context `{ConfigContracts}.

(** The root, or a path from it in clean form. *)
Definition rooted_path (path : string) : Prop := path = "/" ∨ clean_path path.
Record resolved (c : AgentConfig) : Prop := {
  rs_root : rooted_path (pt_root_dir (cf_paths c));
  rs_run : rooted_path (pt_run_dir (cf_paths c));
  rs_state : rooted_path (pt_state_dir (cf_paths c));
  rs_log : rooted_path (pt_log_dir (cf_paths c));
  rs_spool : rooted_path (lg_spool_dir (lc_logs (cf_logs c)));
  rs_output : rooted_path (lo_file_path (lg_output (lc_logs (cf_logs c))));
  rs_inputs : Forall (λ input, rooted_path (lf_path input)) (lc_file_inputs (cf_logs c));
}.

Lemma absolute_cons a s : is_absolute (String a s) = Ascii.eqb a slash.
Proof.
  unfold is_absolute, starts_with, slash. cbn [String.prefix]. destruct (Ascii.eqb_spec a "/"%char) as [->|Hne]; [by destruct s|]. destruct (ascii_dec _ a); congruence.
Qed.
Lemma absolute_app s t : is_absolute s = true → is_absolute (s +:+ t) = true.
Proof. destruct s as [|a s]; [done|]. by rewrite app_cons, !absolute_cons. Qed.
Definition flat (segment : string) : Prop := has_char slash segment = false.
Lemma components_flat path : Forall (λ s, s ≠ "" ∧ s ≠ "." ∧ flat s) (components path).
Proof.
  apply Forall_forall. intros s [Hin Hs]%list_elem_of_In%filter_In. apply negb_true_iff, orb_false_iff in Hs as [?%String.eqb_neq ?%String.eqb_neq].
  split_and!; [done|done|]. eapply split_on_pieces. by apply list_elem_of_In.
Qed.
Lemma taken_plain l stack : Forall (λ s, s ≠ "" ∧ s ≠ "." ∧ flat s) l → Forall (λ s, plain_segment s ∧ flat s) stack → Forall (λ s, plain_segment s ∧ flat s) (foldl take_component stack l).
Proof.
  revert stack. induction l as [|s l IH]; intros stack Hl Hs; [done|]. apply Forall_cons in Hl as [(? & ? & ?) Hl]. cbn [foldl]. apply IH; [done|].
  unfold take_component. destruct (String.eqb_spec s ".."); [by destruct Hs|]. by repeat constructor.
Qed.
Lemma normalize_rooted path : is_absolute path = true → rooted_path (normalize_path path).
Proof.
  intros Ha. unfold normalize_path. rewrite Ha. set (st := foldl _ _ _).
  assert (Hs : Forall (λ s, plain_segment s ∧ flat s) (rev st)) by (apply Forall_rev, taken_plain; [apply components_flat|done]).
  destruct (rev st) as [|s l] eqn:E; [by left|right]. exists (s :: l). split; [done|]. split; [|by eapply Forall_impl; [exact Hs|intros ? []]].
  change (split_on slash ("/" +:+ ?x)) with ("" :: split_on slash x). f_equal. apply (split_on_join slash); [done|].
  apply forallb_forall. intros x Hx%list_elem_of_In. rewrite Forall_forall in Hs. apply Hs in Hx as [_ Hx]. by rewrite Hx.
Qed.
Lemma absolutize_rooted base raw : is_absolute base = true → rooted_path (absolutize base raw).
Proof.
  intros Hb. apply normalize_rooted. unfold join_path. destruct (is_absolute raw) eqn:Hr; [done|]. destruct (String.eqb_spec base ""); [by subst|]. by apply absolute_app.
Qed.
Lemma rooted_absolute path : rooted_path path → is_absolute path = true.
Proof.
  intros [->|(segments & Hne & Hs & _)]; [done|]. destruct path as [|a path]; [cbn in Hs; congruence|]. cbn in Hs. destruct (Ascii.eqb_spec a slash) as [->|].
  - by rewrite absolute_cons.
  - exfalso. revert Hs. destruct (split_on slash path); by intros [=].
Qed.

Lemma join_split c s : Text.join (String c "") (split_on c s) = s.
Proof.
  induction s as [|a s IH]; [done|]. cbn [split_on]. pose proof (split_on_nonempty c s) as Hn. destruct (Ascii.eqb_spec a c) as [->|].
  - destruct (split_on c s) as [|x l]; [done|]. cbn [Text.join] in *. by rewrite IH.
  - destruct (split_on c s) as [|x l]; [done|]. cbn [Text.join] in *. rewrite <- IH. by destruct l.
Qed.
(** A path in clean form stays as it is. *)
Lemma normalize_fixed path : rooted_path path → normalize_path path = path.
Proof.
  intros Hp. pose proof (rooted_absolute _ Hp) as Ha. unfold normalize_path. rewrite Ha. destruct Hp as [->|(segments & Hne & Hs & Hpl)]; [done|].
  unfold components. rewrite Hs. cbn [List.filter String.eqb orb negb].
  assert (Hf : List.filter (λ segment, negb (String.eqb segment "" || String.eqb segment ".")) segments = segments).
  { clear Hs Hne. induction Hpl as [|s l (? & ? & ?) _ IH]; [done|]. cbn. by rewrite !(proj2 (String.eqb_neq _ _)), IH by done. }
  rewrite Hf. clear Hf.
  assert (Ht : ∀ stack, foldl take_component stack segments = (rev segments ++ stack)%list).
  { clear Hs Hne. induction Hpl as [|s l (? & ? & ?) _ IH]; intros stack; [done|]. cbn [foldl rev]. unfold take_component at 2. rewrite (proj2 (String.eqb_neq _ _)) by done. by rewrite IH, <- List.app_assoc. }
  rewrite Ht, List.app_nil_r, rev_involutive. pose proof (join_split slash path) as Hj. rewrite Hs in Hj. destruct segments as [|s l]; [done|]. exact Hj.
Qed.
Lemma absolutize_fixed base path : rooted_path path → absolutize base path = path.
Proof. intros Hp. unfold absolutize. rewrite (rooted_absolute _ Hp). by apply normalize_fixed. Qed.
Lemma config_dir_absolute path : is_absolute path = true → is_absolute (config_dir_of path) = true.
Proof.
  intros Ha. unfold config_dir_of, parent_dir. destruct (rsplit_once slash path) as [[parent name]|] eqn:E; cbn.
  - destruct (String.eqb_spec parent ""); [done|]. apply rsplit_once_spec in E as ->. destruct parent as [|a parent]; [done|]. by rewrite app_cons, !absolute_cons in *.
  - exfalso. apply has_char_false in E. destruct path as [|a path]; [done|]. rewrite has_char_cons in E. rewrite absolute_cons in Ha. by rewrite Ha in E.
Qed.
Lemma resolve_resolved config path : is_absolute path = true → resolved (resolve_paths config path).
Proof.
  intros Ha%config_dir_absolute. pose proof (absolutize_rooted _ (pt_root_dir (cf_paths config)) Ha) as Hr. pose proof (rooted_absolute _ Hr) as Hra.
  split; cbn; try done; try (by apply absolutize_rooted). apply Forall_fmap, Forall_forall. intros i _. by apply absolutize_rooted.
Qed.
(** What is resolved does not move any more, wherever it is read from. *)
Lemma resolve_fixed config path : resolved config → resolve_paths config path = config.
Proof.
  intros [? ? ? ? ? ? Hi]. unfold resolve_paths, with_paths, with_logs, with_output, with_spool_dir, with_file_path. cbv zeta. rewrite !absolutize_fixed by done.
  destruct config as [? ? ? [] ? [inputs ? ? [? ? ? ? ? ? ? ? []]] ? ? ?]; cbn in *. repeat f_equal. induction Hi as [|i l Hp _ IH]; [done|]. cbn. rewrite IH. f_equal. destruct i. cbn in *. unfold with_input_path. cbn. by rewrite absolutize_fixed.
Qed.
End Paths.

(** A document without [\[discovery\]] looks at processes, one with an empty [\[discovery\]] does not. *)
Definition no_discovery : RawDiscovery := mk_raw_discovery None None None None None None None None.
Lemma an_empty_table_leaves_processes_out `{ConfigContracts} version discovery :
  let config := config_of (mk_raw_config version None None None None None discovery None None) in
  ds_process_enabled (cf_discovery config) = match discovery with Some raw => default false (rd_process_enabled raw) | None => true end ∧
  (discovery = Some no_discovery → ds_host_enabled (cf_discovery config) = true ∧ ds_container_enabled (cf_discovery config) = true ∧ ds_process_enabled (cf_discovery config) = false).
Proof. split; [by destruct discovery|by intros ->]. Qed.
