(* ===== verification/ConfigLoad.v ===== *)
(** Finding, creating, bringing up to date and loading the configuration (config/config_runtime.rs, with the
    template of config_runtime_support.rs). *)
From S2P Require Import Prelude Errors Text Host Private Fmt Telemetry LogToy Select BTree Work Wire Inputs Sources Config.

(** * The template (config_runtime_support.rs) *)

(** Double quotes are written as single ones here; the template has no single ones. *)
Fixpoint requote (s : string) : string :=
  match s with EmptyString => EmptyString | String a s => String (if Ascii.eqb a "'" then dquote else a) (requote s) end.
Definition default_file_config_text : string := requote
"schema_version = 'v1'

[telemetry.logs]
in_memory_buffer_bytes = 1048576
spool_dir = 'state/spool/logs'

[telemetry.logs.output]
kind = 'file'

# 采集输出（file sink）路径：不写则按“它是数据”处理，跟数据根目录走 ——
#   系统级部署（配置在 /etc/wist-agentd）→ /var/lib/wist-agentd/data/wist-records.ndjson
#   开发机 / 自定义配置目录安装 → <配置目录>/data/wist-records.ndjson
# 需要指定就显式声明（相对路径相对本配置文件所在目录，绝对路径原样使用）：
# [telemetry.logs.output.file]
# path = '/var/lib/wist-agentd/data/wist-records.ndjson'

[discovery]
# 默认保留 host + network + endpoint + process + container discovery。
# container 默认开：Linux 上容器是最基本的资产层。确实不需要的部署显式写 false。
host_enabled = true
network_enabled = true
endpoint_enabled = true
process_enabled = true
container_enabled = true
# 原文发现快照（DSNAP 帧）上送：送到数据面，由中心侧资产目录（wist-atlas）消费。
# 默认开、1 小时一帧（一台 100 资源的机器约 100 KB/帧 ≈ 2.7 MB/天）。
# 按机器调整：资产变化快的关键主机 300~900，容器/进程密集的机器 1800~3600。
# 低于 60s 会被夹到 60s；不需要资产清单就写 false。
snapshot_uplink_enabled = true
snapshot_uplink_interval_seconds = 3600
# 本机解析服务的日志目录（PostgreSQL / MySQL / Redis / MongoDB）。
# 解析结果作为**候选**上报网关，采不采仍由网关判定（roots + 人工覆盖优先）。
# 只读 `/proc/<pid>/{cmdline,environ,fd}`（有上限），不遍历文件系统。
source_resolve = true
# 注：L3（在非标准目录下“找”日志目录）**不在本文件配**。它的搜索范围由
# 知识库 `[[units]] search_roots` ∩ 网关 `[collection] allowed_source_roots` 决定，
# 经控制面下发；拿不到就不搜索。改这里不会放宽它。

# 可选：
# [agent]
# # 为空时会自动生成实例名；如需显式指定可取消注释。
# # instance_name = 'monitoring-host-01'
#
# 可选：
# [control_plane]
# # 管理端端点（非秘密，可由 CM 下发）。注册是一次性动作：成功后 daemon 把正式 agent_id
# # 与凭据写入 state，无需把 token 写进本文件。
# enabled = true
# endpoint = 'https://10.0.1.1'
# tls_mode = 'https'
# trust_bundle = ''
#
# 注册 token（一次性）不写配置，装的时候传一次就行（不落盘）：
#   sudo wist-agentd service install --enrollment-token <token>
# 已装好但还没注册，也可以单独补注册：
#   sudo wist-agentd enroll --token <token>            # 或： echo <token> | sudo wist-agentd enroll --token-stdin
#
# 可选：
# [paths]
# # 数据/日志目录默认值随**配置目录**而定（只填充未声明的键，显式声明优先）：
# #   配置在 /etc/wist-agentd（系统级部署）→ 数据（run/state/spool + 采集输出 data/）落 /var/lib/wist-agentd，
# #                                         日志落 /var/log/wist-agentd
# #   其它位置（开发机 / 自定义配置目录安装）→ 数据与日志就放在配置目录下
# # 解析规则：相对路径相对本配置文件所在目录，绝对路径原样使用。
# # root_dir = '/var/lib/wist-agentd'   # run/state/spool 的基准
# # run_dir = 'run'
# # state_dir = 'state'
# # log_dir = '/var/log/wist-agentd'
#
# 采集什么由**网关派活**决定（管理面「采集工作」按采集面下发 family + 路径 + 起读位置），
# 本机不需要配。旧版本的本机手工源（`[telemetry.logs] file_inputs` / `file_inputs_file`）
# **已废弃**：写在配置里也不会被采集（字段只为让旧配置还能启动）。
#
# 示例：把日志通过 TCP 发到本机数据面的 tcp_src。
# [telemetry.logs.output]
# kind = 'tcp'
#
# [telemetry.logs.output.tcp]
# addr = '127.0.0.1'
# port = 9000
# framing = 'line'
#
# 本进程**运行日志**（与上面 telemetry.logs 的“被采集日志”不同）：级别 / 格式 / 落点 / 轮转。
# 缺省写 stderr（系统级部署交给 journald；容器里交给容器 runtime 收）。RUST_LOG 环境变量优先于 [log].level。
# 写文件时进程内按 max_bytes / keep_files / max_seconds 轮转；自己轮转就别再挂 logrotate。
# 容器里**不要**给 file，让容器 runtime 管日志落盘与轮转。
# [log]
# level = 'info'          # 如 'wist_agentd=debug,wist_shared=warn'
# format = 'text'         # text | json
# file = '/var/log/wist-agentd/agentd.log'
# max_bytes = 67108864    # 64 MiB
# keep_files = 4
# max_seconds = 604800    # 7 天；0 = 不按时间清
".
Definition default_config_template : string := default_file_config_text.

(** * Bringing an old configuration up to date (config_runtime.rs) *)

Definition LEGACY_CONTAINER_COMMENT : string := "# container 属于更高基数发现，只有启用对应场景时再显式打开。".
Definition LEGACY_CONTAINER_LINE : string := "container_enabled = false".
Definition REPLACEMENT_CONTAINER_COMMENT : string := "# container 默认开：Linux 上容器是最基本的资产层。确实不需要的部署显式写 false。".
Definition REPLACEMENT_CONTAINER_LINE : string := "container_enabled = true".

(** One line, with whether the flag was replaced before. *)
Definition rewrite_line (replaced : bool) (line : string) : bool * string :=
  if String.eqb (trim_end line) LEGACY_CONTAINER_COMMENT then (replaced, REPLACEMENT_CONTAINER_COMMENT)
  else if String.eqb (trim_end line) LEGACY_CONTAINER_LINE && negb replaced then (true, REPLACEMENT_CONTAINER_LINE)
  else (replaced, line).
Fixpoint rewrite_lines (replaced : bool) (lines : list string) : bool * list string :=
  match lines with
  | [] => (replaced, [])
  | line :: lines =>
      let '(replaced, line) := rewrite_line replaced line in
      let '(replaced, lines) := rewrite_lines replaced lines in
      (replaced, line :: lines)
  end.
Definition rewritten_legacy_container_text (text : string) : option string :=
  if negb (contains LEGACY_CONTAINER_COMMENT text) then None
  else
    let '(replaced, rewritten) := rewrite_lines false (lines text) in
    if negb replaced then None
    else Some (Text.join nl rewritten +:+ (if ends_with nl text then nl else "")).

(** * Loading *)

(** The names of the configuration ([wist_shared::paths]), and TOML. *)
Class ConfigNames := { AGENTD_CONFIG_FILE : string; LEGACY_AGENT_CONFIG_FILE : string }.
Class ConfigCodec `{ConfigContracts} := {
  parse_config : string → option RawConfig;
  parse_inputs : string → option (list RawInput);
}.
(** [wist_shared::fs::write_bytes_atomic] *)
Class SharedBytes `{Host} := { shared_write_bytes_atomic : string → string → M World unit }.
Class SharedBytesLaws `{SharedBytes} : Prop := {
  shared_write_bytes_law : ∀ p bytes, meq (shared_write_bytes_atomic p bytes) (write_bytes_atomic_async p bytes);
}.

Definition LoadM `{Os} := EM ConfigError World.
Record EnsuredConfigFile := mk_ensured { ec_path : string; ec_created : bool }.

Section Load.
Context `{Host} `{!SharedBytes} `{!ConfigNames} `{ConfigCodec}.
Variables (env_var : string → option string) (cwd : option string).

Definition io_err (detail : string) (_ : string) : ConfigError := mk_config_error CIo detail.
Definition read_to_string (path : string) : M World string :=
  bytes ← fs_read path;
  if utf8_valid bytes then mret bytes else throw (MkIoError InvalidData "stream did not contain valid UTF-8").

(** The blocking and the asynchronous store differ in the call that writes. *)
Definition migrate_with (write : string → string → M World unit) (config_path text : string) : LoadM string :=
  match rewritten_legacy_container_text text with
  | None => mret text
  | Some rewritten => io (io_err ("rewrite config " +:+ config_path)) (write config_path rewritten);; mret rewritten
  end.
Definition migrate_legacy_container_flag : string → string → LoadM string := migrate_with shared_write_bytes_atomic.
Definition migrate_legacy_container_flag_async : string → string → LoadM string := migrate_with write_bytes_atomic_async.

Definition load_file_inputs_from_task_file (config : AgentConfig) (config_path : string) : LoadM AgentConfig :=
  match lc_file_inputs_file (cf_logs config) with
  | None => mret config
  | Some raw_path =>
      expanded ← of_sum (expand_string env_var raw_path);
      let task_path := absolutize (config_dir_of config_path) expanded in
      text ← io (io_err ("read file_inputs_file " +:+ task_path)) (read_to_string task_path);
      if negb (bool_decide (lc_file_inputs (cf_logs config) = [])) then
        raise (mk_config_error Validation ("file_inputs_file " +:+ task_path +:+ " conflicts with inline [[telemetry.logs.file_inputs]]; declare one or the other"))
      else
        match parse_inputs text with
        | None => raise (mk_config_error ParseToml ("parse file_inputs_file " +:+ task_path))
        | Some tasks => mret (with_logs (with_inputs (input_of <$> tasks) (cf_logs config)) config)
        end
  end.

Definition load_with (migrate : string → string → LoadM string) (config_path : string) : LoadM AgentConfig :=
  text ← io (io_err ("read config " +:+ config_path)) (read_to_string config_path);
  text ← migrate config_path text;
  match parse_config text with
  | None => raise (mk_config_error ParseToml "parse config")
  | Some raw =>
      let parsed := apply_path_defaults cwd (config_of raw) config_path raw in
      parsed ← load_file_inputs_from_task_file parsed config_path;
      env_resolved ← of_sum (expand_env_contract env_var parsed);
      let path_resolved := resolve_paths env_resolved config_path in
      match validate_config path_resolved with
      | inl code => raise (mk_config_error Validation code)
      | inr _ => mret path_resolved
      end
  end.
Definition load_from_path : string → LoadM AgentConfig := load_with migrate_legacy_container_flag.
Definition load_from_path_async : string → LoadM AgentConfig := load_with migrate_legacy_container_flag_async.

(** ** Finding and creating it *)

(** [Path::is_file]: a path that cannot be looked at is none. *)
Definition is_file (p : string) (w : World) : bool :=
  match fs_fault OpMetadata p with Some _ => false | None => match files w !! p with Some _ => true | None => false end end.
Definition resolve_config_path (config_root : string) (w : World) : string :=
  let preferred := join_path config_root AGENTD_CONFIG_FILE in
  let legacy := join_path config_root LEGACY_AGENT_CONFIG_FILE in
  if is_file preferred w then preferred else if is_file legacy w then legacy else preferred.

Definition ensure_default_config (config_root : string) : LoadM EnsuredConfigFile :=
  io (io_err ("create config dir " +:+ config_root)) (fs_create_dir_all config_root);;
  config_path ← look (resolve_config_path config_root);
  there ← io (io_err "") (path_exists config_path);
  created ← (if there : bool then mret false
             else io (io_err ("write config " +:+ config_path)) (shared_write_bytes_atomic config_path default_file_config_text);; mret true);
  mret (mk_ensured config_path created).
Definition ensure_default_config_async (config_root : string) : LoadM EnsuredConfigFile :=
  io (io_err ("create config dir " +:+ config_root)) (fs_create_dir_all config_root);;
  config_path ← look (resolve_config_path config_root);
  stat ← io (io_err "") (try (fs_metadata config_path));
  created ← match stat with
            | Ok _ => mret false
            | Err err =>
                if decide (io_kind err = NotFound) then
                  io (io_err ("write config " +:+ config_path)) (write_bytes_atomic_async config_path default_file_config_text);; mret true
                else raise (mk_config_error CIo ("stat config " +:+ config_path))
            end;
  mret (mk_ensured config_path created).

Definition load_or_init (config_root : string) : LoadM AgentConfig := ensured ← ensure_default_config config_root; load_from_path (ec_path ensured).
Definition load_or_init_async (config_root : string) : LoadM AgentConfig :=
  ensured ← ensure_default_config_async config_root; load_from_path_async (ec_path ensured).
End Load.

(** * What loading gives *)

Section LoadFacts.
Context `{Host} `{!SharedBytes} `{!ConfigNames} `{ConfigCodec}.
Variables (env_var : string → option string) (cwd : option string).

Lemma sum_bind_ok {E A B} (r : E + A) (f : A → E + B) b : (r ≫= f) = inr b → ∃ a, r = inr a ∧ f a = inr b.
Proof. destruct r as [e|a]; cbn; [done|eauto]. Qed.
Lemma expand_keeps_task_file config expanded : expand_env_contract env_var config = inr expanded → lc_file_inputs_file (cf_logs expanded) = lc_file_inputs_file (cf_logs config).
Proof.
  unfold expand_env_contract. cbv zeta. intros E. repeat (apply sum_bind_ok in E as (? & _ & E)). by injection E as <-.
Qed.
Lemma task_file_taken config path w config' w' : load_file_inputs_from_task_file env_var config path w = (inr config', w') → lc_file_inputs_file (cf_logs config') = None.
Proof.
  unfold load_file_inputs_from_task_file. destruct (lc_file_inputs_file (cf_logs config)) eqn:E; [|by intros [= <- <-]].
  intros (expanded & w1 & _ & (text & w2 & _ & E2)%em_bind_ok)%em_bind_ok. destruct (negb _); [done|]. destruct (parse_inputs text); [|done]. by injection E2 as <- <-.
Qed.
Lemma load_ok migrate path w config w' : load_with env_var cwd migrate path w = (inr config, w') →
  ∃ expanded, config = resolve_paths expanded path ∧ validate_config config = inr tt ∧ lc_file_inputs_file (cf_logs expanded) = None.
Proof.
  unfold load_with. cbv zeta. intros (text & w1 & _ & (text' & w2 & _ & E)%em_bind_ok)%em_bind_ok. destruct (parse_config text') as [raw|]; [|done].
  apply em_bind_ok in E as (parsed & w3 & Ht & (expanded & w4 & Hx & E)%em_bind_ok). injection Hx as Hx <-.
  destruct (validate_config _) as [code|[]] eqn:Ev; [done|]. injection E as <- <-. exists expanded. split_and!; [done|done|].
  rewrite (expand_keeps_task_file _ _ Hx). by eapply task_file_taken.
Qed.

(** Whatever a configuration says and however it was found, one that is loaded from an absolute path is ready to be
    used: it has no defect, every directory and file it names, the targets of its inputs included, is a path from the
    root without empty segments, [.] or [..], the list of tasks it refers to was taken in, and resolving it again from
    anywhere changes nothing. *)
Theorem loaded_config_is_ready migrate path w config w' : is_absolute path = true → load_with env_var cwd migrate path w = (inr config, w') →
  (∀ code, ¬ defect config code) ∧ resolved config ∧ lc_file_inputs_file (cf_logs config) = None ∧ ∀ elsewhere, resolve_paths config elsewhere = config.
Proof.
  intros Ha (expanded & -> & Hv & Hn)%load_ok. pose proof (resolve_resolved expanded path Ha) as Hr. pose proof (config_exact (resolve_paths expanded path)) as He.
  unfold exact in He. rewrite Hv in He. split_and!; [done|done|done|]. intros elsewhere. by apply resolve_fixed.
Qed.

(** ** What loading leaves alone *)

Lemma read_to_string_same path w r w' : read_to_string path w = (r, w') → w' = w.
Proof.
  unfold read_to_string. intros [(e & E & ->)|(bytes & w1 & [-> _]%fs_read_ok & E)]%bind_inv.
  - pose proof (fs_read_respects eq path w) as Hr. by rewrite E in Hr.
  - destruct (utf8_valid bytes); by injection E.
Qed.
Lemma task_file_same config path w r w' : load_file_inputs_from_task_file env_var config path w = (r, w') → w' = w.
Proof.
  unfold load_file_inputs_from_task_file. destruct (lc_file_inputs_file (cf_logs config)) as [raw|]; [|by intros [= <- <-]].
  intros [(e & E & ->)|(expanded & w1 & E & E2)]%em_bind_inv; [by injection E|]. injection E as E <-.
  apply em_bind_inv in E2 as [(e & E' & ->)|(text & w2 & E' & E2)]; unfold io in E'; destruct (read_to_string _ w) as [[t|err] w3] eqn:Er; try done; apply read_to_string_same in Er as ->.
  - by injection E'.
  - injection E' as -> ->. destruct (negb _); [by injection E2|]. destruct (parse_inputs text); by injection E2.
Qed.
(** Loading is reading, but for the step that brings the file up to date. *)
Lemma load_same migrate path w r w' : load_with env_var cwd migrate path w = (r, w') →
  w' = w ∨ ∃ text r', read_to_string path w = (Ok text, w) ∧ migrate path text w = (r', w').
Proof.
  unfold load_with. cbv zeta. unfold io at 1. intros [(e & E & ->)|(text & w1 & E & E2)]%em_bind_inv; destruct (read_to_string path w) as [[t|err] w0] eqn:Er; try done.
  { injection E as _ <-. left. by eapply read_to_string_same. }
  pose proof (read_to_string_same _ _ _ _ Er) as ->. injection E as -> <-.
  apply em_bind_inv in E2 as [(e & Em & ->)|(text' & w2 & Em & E)]; [right; by eauto|]. right. exists text, (inr text'). split; [done|]. rewrite Em. f_equal.
  destruct (parse_config text') as [raw|]; [|by injection E].
  apply em_bind_inv in E as [(e & E & ->)|(parsed & w3 & E & E2)]; [symmetry; by eapply task_file_same|]. apply task_file_same in E as ->.
  apply em_bind_inv in E2 as [(e & E & ->)|(expanded & w4 & E & E2)]; [by injection E|]. injection E as _ <-. destruct (validate_config _); by injection E2.
Qed.

Lemma write_store path bytes : respects (only_files (store_paths path)) (write_bytes_atomic_async path bytes).
Proof. by apply write_bytes_atomic_respects. Qed.
(** Loading changes no file but the configuration, and that one only when it still carries the mark of the old
    template: any other configuration is read and nothing else, whatever fails. *)
Theorem loading_only_migrates path w r w' : load_from_path_async env_var cwd path w = (r, w') →
  only_files (store_paths path) w w' ∧ (∀ text, files w !! path = Some text → rewritten_legacy_container_text text = None → w' = w).
Proof.
  unfold load_from_path_async, migrate_legacy_container_flag_async, migrate_with. intros [->|(text & r' & Er & Em)]%load_same; [by split|]. split.
  - destruct (rewritten_legacy_container_text text) as [rewritten|]; [|by injection Em as _ <-].
    apply em_bind_inv in Em as [(e & E & _)|(u & w1 & E & E2)]; unfold io in E; pose proof (write_store path rewritten w) as Hw; destruct (write_bytes_atomic_async path rewritten w) as [[] w2]; try done.
    + by injection E as _ <-.
    + injection E as _ <-. by injection E2 as _ <-.
  - intros text0 Hf Hn. assert (text0 = text) as ->.
    { unfold read_to_string in Er. apply bind_ok_inv in Er as (bytes & w1 & [-> Hb]%fs_read_ok & E). destruct (utf8_valid bytes); [|done]. injection E as <-. congruence. }
    rewrite Hn in Em. by injection Em as _ <-.
Qed.

(** ** Creating it *)

Lemma mkdir_files root w r w' : fs_create_dir_all root w = (r, w') → files w' = files w.
Proof. intros E. pose proof (fs_create_dir_all_respects (λ _, False) root w) as [Hf _]. rewrite E in Hf. apply map_eq. intros p. by rewrite <- Hf by (by intros []). Qed.
Lemma is_file_stat p w : is_file p w = true → fs_metadata p w = (Ok tt, w).
Proof.
  unfold is_file, fs_metadata, mbind, M_bind, guard_fault, act. destruct (fs_fault OpMetadata p); [done|]. destruct (files w !! p) as [text|] eqn:E; [|done].
  intros _. by erewrite fs_exists_lookup.
Qed.
Lemma is_file_text p w : is_file p w = true → is_Some (files w !! p).
Proof. unfold is_file. destruct (fs_fault _ _); [done|]. by destruct (files w !! p). Qed.
Lemma file_stat p w text : files w !! p = Some text → is_file p w = false → ∃ e, fs_metadata p w = (Err e, w) ∧ io_kind e ≠ NotFound.
Proof.
  unfold is_file, fs_metadata, mbind, M_bind, guard_fault. intros ->. destruct (fs_fault OpMetadata p) as [e|] eqn:Ef; [|done]. intros _. exists e. split; [done|]. exact (fs_fault_kind _ _ _ Ef).
Qed.

(** A configuration that is there is never written over when the agent starts: with the file under either of its
    names (the old name being one that can be looked at), no file of the host changes, whatever fails, and what the
    agent goes on to load is a file that was there. *)
Theorem existing_config_is_kept root w r w' :
  is_Some (files w !! join_path root AGENTD_CONFIG_FILE) ∨ is_file (join_path root LEGACY_AGENT_CONFIG_FILE) w = true →
  ensure_default_config_async root w = (r, w') →
  files w' = files w ∧ ∀ ensured, r = inr ensured → ec_created ensured = false ∧ is_Some (files w !! ec_path ensured).
Proof.
  intros Hthere. unfold ensure_default_config_async. intros [(e & E & ->)|(u & w1 & E & E2)]%em_bind_inv; unfold io in E;
    destruct (fs_create_dir_all root w) as [[] w0] eqn:Em; try done; apply mkdir_files in Em as Hm; injection E as _ <-; [by split|].
  apply em_bind_inv in E2 as [(e & E & _)|(path & w2 & E & E2)]; [done|]. injection E as <- <-.
  assert (Hf : ∀ p, is_file p w0 = is_file p w) by (intros p; unfold is_file; by rewrite Hm). rewrite <- Hf, <- Hm in Hthere. rewrite <- Hm.
  assert (Hstat : let path := resolve_config_path root w0 in (fs_metadata path w0 = (Ok tt, w0) ∧ is_Some (files w0 !! path)) ∨ ∃ e, fs_metadata path w0 = (Err e, w0) ∧ io_kind e ≠ NotFound).
  { unfold resolve_config_path. cbv zeta. destruct (is_file (join_path root AGENTD_CONFIG_FILE) w0) eqn:E1; [left; split; [by apply is_file_stat|by apply is_file_text]|].
    destruct (is_file (join_path root LEGACY_AGENT_CONFIG_FILE) w0) eqn:El; [left; split; [by apply is_file_stat|by apply is_file_text]|].
    right. destruct Hthere as [[text Ht]|?]; [by eapply file_stat|congruence]. }
  cbv zeta in Hstat. set (path := resolve_config_path root w0) in *. unfold io, try in E2.
  destruct Hstat as [(Es & Hp)|(e & Es & Hk)].
  - apply em_bind_inv in E2 as [(e & E & _)|(stat & w2 & E & E2)]; rewrite Es in E; [done|]. injection E as <- <-. injection E2 as <- <-. split; [done|]. by intros ? [= <-].
  - apply em_bind_inv in E2 as [(e' & E & _)|(stat & w2 & E & E2)]; rewrite Es in E; [done|]. injection E as <- <-. rewrite decide_False in E2 by done. injection E2 as <- <-. by split.
Qed.
End LoadFacts.

(** * What is not refused *)

(** [require_non_empty] of wist_validate refuses nothing but blank texts. *)
Class ConfigContractsLaws `{ConfigContracts} : Prop := { empty_is_blank : ∀ s, is_empty_text s = true → is_blank s = true }.
Definition BLANK_PATH_CODES : list string :=
  ["missing_root_dir"; "missing_run_dir"; "missing_state_dir"; "missing_log_dir"; "missing_logs_spool_dir"; "missing_logs_output_file_path"; "missing_log_input_path"].

Section Blank.
Context `{Host} `{!SharedBytes} `{!ConfigNames} `{ConfigCodec} `{!ConfigContractsLaws}.
Variables (env_var : string → option string) (cwd : option string).

Lemma rooted_not_empty path : rooted_path path → is_empty_text path = false.
Proof.
  intros Ha%rooted_absolute. destruct (is_empty_text path) eqn:E; [|done]. apply empty_is_blank in E. destruct path as [|a path]; [done|].
  rewrite absolute_cons in Ha. apply Ascii.eqb_eq in Ha as ->. by destruct path as [|b [|c path]].
Qed.
Definition only_missing {A} (r : ConfigError + A) : Prop := ∀ e, r = inl e → ce_reason e = MissingEnvVar.
Lemma missing_bind {A B} (r : ConfigError + A) (f : A → ConfigError + B) : only_missing r → (∀ a, only_missing (f a)) → only_missing (r ≫= f).
Proof. intros Hr Hf e. destruct r as [e'|a]; cbn; [by intros [= <-]; apply Hr|apply Hf]. Qed.
Lemma missing_ret {A} (a : A) : only_missing (inr a).
Proof. by intros e. Qed.
Lemma missing_string value : only_missing (expand_string env_var value).
Proof.
  unfold expand_string. generalize (S (String.length value)) as fuel. intros fuel. revert value. induction fuel as [|fuel IH]; intros value; [apply missing_ret|]. cbn [expand_loop].
  destruct (split_at _ _) as [[before rest]|]; [|apply missing_ret]. destruct (split_once _ _) as [[name after]|]; [|apply missing_ret].
  destruct (env_var name); [|by intros e [= <-]]. apply missing_bind; [apply IH|intros out; apply missing_ret].
Qed.
Lemma missing_optional value : only_missing (expand_optional env_var value).
Proof. destruct value as [value|]; [|apply missing_ret]. apply missing_bind; [apply missing_string|intros out; apply missing_ret]. Qed.
Lemma missing_input input : only_missing (expand_input env_var input).
Proof. unfold expand_input. repeat (apply missing_bind; [apply missing_string|intros ?]). apply missing_ret. Qed.
Lemma missing_inputs inputs : only_missing (expand_inputs env_var inputs).
Proof. induction inputs as [|input inputs IH]; [apply missing_ret|]. cbn [expand_inputs]. apply missing_bind; [apply missing_input|intros ?]. apply missing_bind; [apply IH|intros ?; apply missing_ret]. Qed.
Lemma missing_contract config : only_missing (expand_env_contract env_var config).
Proof.
  unfold expand_env_contract, expand_agent, expand_control_plane, expand_paths, expand_output. cbv zeta.
  repeat first [apply missing_ret | apply missing_string | apply missing_optional | apply missing_inputs | (apply missing_bind; [|intros ?])].
Qed.
Lemma io_reason {A} d (m : M World A) w1 e w2 : io (io_err d) m w1 = (inl e, w2) → ce_reason e = CIo.
Proof. unfold io. destruct (m w1) as [[]]; [done|by intros [= <- <-]]. Qed.
Lemma task_file_error config path w e w' : load_file_inputs_from_task_file env_var config path w = (inl e, w') → ce_reason e = Validation → ce_detail e ∉ BLANK_PATH_CODES.
Proof.
  unfold load_file_inputs_from_task_file. destruct (lc_file_inputs_file (cf_logs config)) as [raw|]; [|done].
  intros [(e' & E & [= <-])|(expanded & w1 & _ & E)]%em_bind_inv; [injection E as E _; apply missing_string in E; congruence|].
  apply em_bind_inv in E as [(e' & E & [= <-])|(text & w2 & _ & E)]; [apply io_reason in E; congruence|].
  destruct (negb _); [|destruct (parse_inputs text); [done|by injection E as <- <-]]. injection E as <- <-. intros _. cbn [ce_detail]. unfold BLANK_PATH_CODES.
  rewrite !not_elem_of_cons. split_and!; try done. apply not_elem_of_nil.
Qed.
Lemma label_codes labels code : label_defect labels code → code ∉ BLANK_PATH_CODES.
Proof. by destruct 1; apply (bool_decide_unpack _). Qed.
Lemma resolved_codes config code : resolved config → defect config code → code ∉ BLANK_PATH_CODES.
Proof.
  intros [? ? ? ? ? ? Hi] Hd. destruct Hd as [| |Hb|Hb|Hb|Hb| | | | | | | |Hb|code Ho| | | | | | |input code Hin Hx|code Hl]; try (by apply (bool_decide_unpack _)); try (by rewrite rooted_not_empty in Hb).
  - destruct Ho as [| |? Hb| | |]; try (by apply (bool_decide_unpack _)). by rewrite rooted_not_empty in Hb.
  - rewrite Forall_forall in Hi. destruct Hx as [|Hb| | | | |]; try (by apply (bool_decide_unpack _)). rewrite rooted_not_empty in Hb; [done|by apply Hi].
  - by eapply label_codes.
Qed.
(** The paths are made absolute before they are looked at, so that an empty one has become a directory by then: of the
    refusals of blank paths none is ever given. *)
Theorem blank_paths_are_accepted path w e w' : is_absolute path = true → load_from_path_async env_var cwd path w = (inl e, w') →
  ce_reason e = Validation → ce_detail e ∉ BLANK_PATH_CODES.
Proof.
  intros Ha. unfold load_from_path_async, load_with, migrate_legacy_container_flag_async, migrate_with. cbv zeta.
  intros [(e' & E & [= <-])|(text & w1 & _ & E)]%em_bind_inv; [apply io_reason in E; congruence|].
  apply em_bind_inv in E as [(e' & E & [= <-])|(text' & w2 & _ & E)].
  { destruct (rewritten_legacy_container_text text); [|done]. apply em_bind_inv in E as [(e' & E & [= <-])|(u & w2 & _ & E)]; [|done]. apply io_reason in E. congruence. }
  destruct (parse_config text') as [raw|]; [|by injection E as <- <-]. apply em_bind_inv in E as [(e' & E & [= <-])|(parsed & w3 & _ & E)].
  { by eapply task_file_error. }
  apply em_bind_inv in E as [(e' & E & [= <-])|(expanded & w4 & _ & E)]; [injection E as E _; apply missing_contract in E; congruence|].
  pose proof (config_exact (resolve_paths expanded path)) as He. unfold exact in He. destruct (validate_config _) as [code|]; [|done]. injection E as <- <-. intros _.
  by eapply resolved_codes; [apply resolve_resolved|].
Qed.
End Blank.

(** * Migration *)

Section Migration.
Lemma prefix_line n x y : has_char newline n = false → String.prefix n (x +:+ String newline y) = String.prefix n x.
Proof.
  revert x. induction n as [|a n IH]; intros x Hn; [by destruct x|]. rewrite has_char_cons in Hn. apply orb_false_iff in Hn as [Ha Hn]. destruct x as [|b x].
  - rewrite app_nil_l. cbn [String.prefix]. destruct (ascii_dec a newline) as [->|]; [by rewrite Ascii.eqb_refl in Ha|done].
  - rewrite app_cons. cbn [String.prefix]. destruct (ascii_dec a b); [by apply IH|done].
Qed.
Lemma contains_line n x y : n ≠ "" → has_char newline n = false → contains n (x +:+ String newline y) = contains n x || contains n y.
Proof.
  intros Hne Hn. induction x as [|a x IH].
  - rewrite app_nil_l. cbn [contains]. pose proof (prefix_line n "" y Hn) as Hp. rewrite app_nil_l in Hp. rewrite Hp. by destruct n.
  - rewrite app_cons. cbn [contains]. rewrite IH, orb_assoc. f_equal. f_equal. exact (prefix_line n (String a x) y Hn).
Qed.
Lemma contains_lines n l : n ≠ "" → has_char newline n = false → contains n (Text.join nl l) = existsb (contains n) l.
Proof.
  intros Hne Hn. induction l as [|x l IH]; [by destruct n|]. cbn [existsb]. destruct l as [|y l].
  - cbn. by rewrite orb_false_r.
  - cbn [Text.join] in *. change (nl +:+ ?s) with (String newline s). by rewrite contains_line, IH.
Qed.

Definition marked (line : string) : bool := contains LEGACY_CONTAINER_COMMENT line.
Lemma rewritten_unmarked replaced l : Forall (λ line, marked line = true → trim_end line = LEGACY_CONTAINER_COMMENT) l → existsb marked (rewrite_lines replaced l).2 = false.
Proof.
  revert replaced. induction l as [|line l IH]; intros replaced Hl; [done|]. apply Forall_cons in Hl as [Hm Hl]. cbn [rewrite_lines].
  assert (Hline : marked (rewrite_line replaced line).2 = false).
  { unfold rewrite_line. destruct (String.eqb_spec (trim_end line) LEGACY_CONTAINER_COMMENT) as [|Hne]; [by vm_compute|]. destruct (_ && _); [by vm_compute|]. cbn [snd]. destruct (marked line) eqn:E; [by destruct Hne; apply Hm|done]. }
  destruct (rewrite_line replaced line) as [r x]. specialize (IH r Hl). destruct (rewrite_lines r l) as [r' xs]. cbn [snd existsb] in *. by rewrite Hline.
Qed.

(** The old template is brought up to date once: when its mark stands on lines of its own, the text that is written
    does not carry it any more, so the flag is left as the operator sets it from then on; and the template the agent
    writes itself is never touched. *)
Theorem migration_happens_once text rewritten : Forall (λ line, marked line = true → trim_end line = LEGACY_CONTAINER_COMMENT) (lines text) →
  rewritten_legacy_container_text text = Some rewritten → contains LEGACY_CONTAINER_COMMENT rewritten = false ∧ contains LEGACY_CONTAINER_COMMENT (rewritten +:+ nl) = false.
Proof.
  intros Hl. unfold rewritten_legacy_container_text. destruct (negb (contains _ text)); [done|]. pose proof (rewritten_unmarked false _ Hl) as Hm.
  destruct (rewrite_lines false (lines text)) as [replaced l]. destruct replaced; [|done]. intros [= <-]. cbn [snd] in Hm.
  assert (Hj : contains LEGACY_CONTAINER_COMMENT (Text.join nl l) = false) by (by rewrite contains_lines).
  assert (Hnl : ∀ s, contains LEGACY_CONTAINER_COMMENT s = false → contains LEGACY_CONTAINER_COMMENT (s +:+ nl) = false) by (intros s Hs; unfold nl; by rewrite contains_line, Hs).
  destruct (ends_with nl text); [|rewrite app_nil_r]; split; by repeat apply Hnl.
Qed.
End Migration.

(** * Concrete configurations *)

Module ConcreteConfig.
Import Concrete ConcreteSelect.

#[export] Instance toy_config : ConfigContracts := {|
  SCHEMA_VERSION_V1 := "v1";
  is_empty_text := is_blank;
  MULTILINE_MODES := ["none"; "csvlog"];
  CONTAINER_LOG_ROOT := "/var/log/containers";
  is_container_log_target := starts_with "/var/log/containers/";
  filters_default := toy_filter [] [] [] [];
  filters_validate _ := true;
  validate_drop_if_contains := forallb (λ s, negb (is_blank s));
  LogSection := unit;
  log_section_default := tt;
|}.
#[export] Instance toy_names : ConfigNames := {| AGENTD_CONFIG_FILE := "agentd.toml"; LEGACY_AGENT_CONFIG_FILE := "agent.toml" |}.
#[export] Instance toy_bytes `{Host} : SharedBytes := {| shared_write_bytes_atomic := write_bytes_atomic_async |}.
#[export] Instance toy_bytes_laws `{Host} : SharedBytesLaws.
Proof. by split. Qed.
#[export] Instance toy_config_laws : ConfigContractsLaws.
Proof. by split. Qed.

(** A document by its first word: with nothing but the version, with variables and a list of tasks, with blank paths. *)
Definition bare : RawConfig := mk_raw_config "v1" None None None None None None None None.
Definition with_tasks : RawConfig :=
  mk_raw_config "v1" None None (Some (mk_raw_paths (Some "${DATA}/agent/../main") None None None)) None
    (Some (mk_raw_logs None (Some "tasks/${DATA}.toml") None None None None None None None None None None)) None None None.
Definition with_blanks : RawConfig :=
  mk_raw_config "v1" None None (Some (mk_raw_paths None (Some "") (Some "") None)) None
    (Some (mk_raw_logs (Some [mk_raw_input "app" "" None None None None None]) None None None None None None None None None (Some "") None)) None None None.
Definition word (text : string) : string := match split_once newline text with Some (first, _) => first | None => text end.
#[export] Instance toy_codec : ConfigCodec := {|
  parse_config text :=
    if String.eqb (word text) "bare" || contains "schema_version" text then Some bare else if String.eqb (word text) "tasks" then Some with_tasks
    else if String.eqb (word text) "blanks" then Some with_blanks else None;
  parse_inputs text := if String.eqb (word text) "one" then Some [mk_raw_input "app" "logs/./app.log" None None None None None] else None;
|}.
Definition toy_env (name : string) : option string := if String.eqb name "DATA" then Some "/srv" else None.
Definition config_world (path text : string) : World :=
  MkWorld _ {[ path := text; "/srv.toml" := "one"; "/etc/wist-agentd/tasks/srv.toml" := "one" ]} {[ ""; "/etc"; "/etc/wist-agentd" ]} 0 ∅.
Definition loaded (path text : string) : (ConfigError + AgentConfig) * World := load_from_path_async toy_env None path (config_world path text).
Definition dirs_of (r : ConfigError + AgentConfig) : option (string * string * string * string * string * string * list string) :=
  match r with
  | inr c => let p := cf_paths c in let l := lc_logs (cf_logs c) in
      Some (pt_root_dir p, pt_run_dir p, pt_state_dir p, pt_log_dir p, lg_spool_dir l, lo_file_path (lg_output l), lf_path <$> lc_file_inputs (cf_logs c))
  | inl _ => None
  end.

(** Where everything is: on a system, in a directory of one's own, with variables, and with blank paths. *)
Example system_deployment : dirs_of (loaded "/etc/wist-agentd/agentd.toml" "bare").1 =
  Some ("/var/lib/wist-agentd", "/var/lib/wist-agentd/run", "/var/lib/wist-agentd/state", "/var/log/wist-agentd",
    "/var/lib/wist-agentd/state/spool/logs", "/var/lib/wist-agentd/data/wist-records.ndjson", []).
Proof. vm_compute. reflexivity. Qed.
Example own_deployment : dirs_of (loaded "/home/u/conf/agentd.toml" "bare").1 =
  Some ("/home/u/conf", "/home/u/conf/run", "/home/u/conf/state", "/home/u/conf/log", "/home/u/conf/state/spool/logs", "/home/u/conf/data/wist-records.ndjson", []).
Proof. vm_compute. reflexivity. Qed.
Example blank_paths_become_the_root : dirs_of (loaded "/etc/wist-agentd/agentd.toml" "blanks").1 =
  Some ("/var/lib/wist-agentd", "/var/lib/wist-agentd", "/var/lib/wist-agentd", "/var/log/wist-agentd", "/var/lib/wist-agentd",
    "/var/lib/wist-agentd/data/wist-records.ndjson", ["/var/lib/wist-agentd"]).
Proof. vm_compute. reflexivity. Qed.

(** On a system the collected output stays below /var/lib/wist-agentd, also when another root is declared. *)
Example declared_root_leaves_the_output : dirs_of (loaded "/etc/wist-agentd/agentd.toml" "tasks").1 =
  Some ("/srv/main", "/srv/main/run", "/srv/main/state", "/var/log/wist-agentd", "/srv/main/state/spool/logs",
    "/var/lib/wist-agentd/data/wist-records.ndjson", ["/srv/main/logs/app.log"]).
Proof. vm_compute. reflexivity. Qed.

(** The template is none of the old ones. *)
Example template_is_up_to_date : rewritten_legacy_container_text default_file_config_text = None.
Proof. vm_compute. reflexivity. Qed.
Definition old_lines (indent : string) : list string := ["schema_version = v1"; "[discovery]"; indent +:+ LEGACY_CONTAINER_COMMENT; "container_enabled = false"; ""].
(** An indented mark stays, so that what the operator writes after the update is written over as well. *)
Example indented_mark_is_updated_again : let written := rewritten_legacy_container_text (Text.join nl (old_lines "  ")) in
  written = Some (Text.join nl ["schema_version = v1"; "[discovery]"; "  " +:+ LEGACY_CONTAINER_COMMENT; "container_enabled = true"; ""]) ∧
  rewritten_legacy_container_text (Text.join nl (old_lines "  ")) = written ∧ is_Some written.
Proof. vm_compute. split_and!; [done|done|by eexists]. Qed.
Lemma migration_happens_once_witness : ∃ rewritten, rewritten_legacy_container_text (Text.join nl (old_lines "")) = Some rewritten ∧
  contains "container_enabled = true" rewritten = true ∧ contains LEGACY_CONTAINER_COMMENT (rewritten +:+ nl) = false.
Proof.
  eexists. split; [vm_compute; reflexivity|]. split; [by vm_compute|]. apply (migration_happens_once (Text.join nl (old_lines ""))).
  - apply (bool_decide_unpack _). by vm_compute.
  - by vm_compute.
Defined.

Lemma loaded_config_is_ready_witness :
  match loaded "/etc/wist-agentd/agentd.toml" "tasks" with
  | (inr config, _) => pt_state_dir (cf_paths config) = "/srv/main/state" ∧ (∀ code, ¬ defect config code) ∧ resolved config ∧ ∀ elsewhere, resolve_paths config elsewhere = config
  | (inl _, _) => False
  end.
Proof.
  assert (Hd : pt_state_dir ∘ cf_paths <$> (match (loaded "/etc/wist-agentd/agentd.toml" "tasks").1 with inr c => Some c | inl _ => None end) = Some "/srv/main/state") by (vm_compute; reflexivity).
  destruct (loaded "/etc/wist-agentd/agentd.toml" "tasks") as [[e|config] w'] eqn:E; [done|]. injection Hd as Hd. split; [exact Hd|].
  unfold loaded, load_from_path_async in E. apply loaded_config_is_ready in E as (? & ? & _ & ?); [|reflexivity]. by split_and!.
Defined.

(** On a host whose configuration cannot be looked at. *)
Definition unseen_host : Host := faulty (λ op p, match op with OpMetadata => String.eqb p "/etc/wist-agentd/agentd.toml" | _ => false end).
Definition ensured_on (ensure : string → LoadM EnsuredConfigFile) : (ConfigError + EnsuredConfigFile) * option string :=
  let '(r, w') := ensure "/etc/wist-agentd" (config_world "/etc/wist-agentd/agentd.toml" "tasks") in (r, files w' !! "/etc/wist-agentd/agentd.toml").
(** The daemon leaves it alone and says so; [init-config] writes the template over it. *)
Example unseen_config_is_written_over :
  ensured_on (@ensure_default_config_async _ unseen_host _) = (inl (mk_config_error CIo "stat config /etc/wist-agentd/agentd.toml"), Some "tasks") ∧
  ensured_on (@ensure_default_config _ unseen_host _ _) = (inr (mk_ensured "/etc/wist-agentd/agentd.toml" true), Some (default_file_config_text +:+ nl)).
Proof. vm_compute. done. Qed.
Lemma existing_config_is_kept_witness :
  let w := config_world "/etc/wist-agentd/agentd.toml" "tasks" in
  let '(r, w') := @ensure_default_config_async _ unseen_host _ "/etc/wist-agentd" w in
  r = inl (mk_config_error CIo "stat config /etc/wist-agentd/agentd.toml") ∧ files w' = files w.
Proof.
  cbv zeta. assert (Hr : (@ensure_default_config_async _ unseen_host _ "/etc/wist-agentd" (config_world "/etc/wist-agentd/agentd.toml" "tasks")).1 =
    inl (mk_config_error CIo "stat config /etc/wist-agentd/agentd.toml")) by (vm_compute; reflexivity).
  destruct (@ensure_default_config_async _ unseen_host _ _ _) as [r w'] eqn:E. split; [exact Hr|].
  eapply (@existing_config_is_kept _ unseen_host); [|exact E]. left. by vm_compute; eexists.
Defined.
Lemma loading_only_migrates_witness : let w := config_world "/home/u/conf/agentd.toml" "bare" in let '(r, w') := loaded "/home/u/conf/agentd.toml" "bare" in w' = w.
Proof.
  cbv zeta. destruct (loaded "/home/u/conf/agentd.toml" "bare") as [r w'] eqn:E. unfold loaded in E. eapply loading_only_migrates; [exact E|reflexivity|by vm_compute].
Defined.
End ConcreteConfig.
