(* ===== verification/Health.v ===== *)
(** What a tick tells the operator (runtime/daemon_runtime_state.rs, steady_log.rs, self_observability.rs and
    the tail of run_once_with_failure_cache in daemon.rs): pauses and resumptions across ticks, the recovery of
    the uplink, the health snapshot with its signature, and the gate that keeps unchanged snapshots out of the log. *)
From stdpp Require Import pretty.
From S2P Require Import Prelude Text Host Fmt Contracts Stores Reader FileInput Planner Work Inputs Metrics.

(** * Work states across ticks *)

Definition paused_input_signatures (notifications : list TelemetryWorkState) : gset string := list_to_set (ws_input_id <$> notifications).
Definition resumed_at (now : string) (input_id : string) : TelemetryWorkState := mk_work_state input_id Resumed "spool replay recovered" now.
(** A [BTreeSet] is walked in the order of its strings. *)
Definition work_state_changes (previous : gset string) (current_notifications : list TelemetryWorkState) (current : gset string) (now : string) :
    list TelemetryWorkState :=
  (filter (λ n, ws_input_id n ∉ previous) current_notifications ++
   (resumed_at now <$> sort_strings (elements (previous ∖ current))))%list.

(** A tick as run_once sees it: whether the output is enabled, its notifications, and the time. *)
Record PauseTick := mk_pause_tick { pt_enabled : bool; pt_notifications : list TelemetryWorkState; pt_now : string }.
Definition pause_step (t : PauseTick) (previous : gset string) : list TelemetryWorkState * gset string :=
  let current_paused := if pt_enabled t then paused_input_signatures (pt_notifications t) else previous in
  if negb (pt_enabled t) then ([], previous)
  else (work_state_changes previous (pt_notifications t) current_paused (pt_now t), current_paused).
Fixpoint pause_run (ticks : list PauseTick) (previous : gset string) : list TelemetryWorkState * gset string :=
  match ticks with
  | [] => ([], previous)
  | t :: ticks =>
      let '(changes, previous) := pause_step t previous in
      let '(rest, previous) := pause_run ticks previous in
      ((changes ++ rest)%list, previous)
  end.

(** * The uplink across ticks *)

(** What run_once looks at: did writing to the output fail, was anything sent. *)
Definition uplink_tick (t : TelemetryTick) : bool * bool :=
  (tells OutputWriteFailed (tt_failures t), existsb (λ o, Z.ltb 0 (FileInput.po_emitted_directly o) || Nat.ltb 0 (FileInput.po_replayed_spool o)) (tt_outcomes t)).
Fixpoint uplink_run (ticks : list (bool * bool)) (failing : bool) : list (option string) * bool :=
  match ticks with
  | [] => ([], failing)
  | (failed, sent) :: ticks =>
      let '(line, failing) := note_tick failed sent failing in
      let '(rest, failing) := uplink_run ticks failing in
      (line :: rest, failing)
  end.

(** * steady_log.rs *)

Definition DEFAULT_HEARTBEAT : Z := 300000.
Record SteadyLogGate := mk_gate { sl_last_signature : option string; sl_last_emit_at : option Z; sl_heartbeat : Z }.
Definition steady_new (heartbeat : Z) : SteadyLogGate := mk_gate None None heartbeat.
(** Times and the heartbeat are in milliseconds. *)
Definition should_emit (signature : string) (now : Z) (g : SteadyLogGate) : bool * SteadyLogGate :=
  if Z.eqb (sl_heartbeat g) 0 then (true, g)
  else
    let changed := negb (bool_decide (sl_last_signature g = Some signature)) in
    let due := match sl_last_emit_at g with None => true | Some at_ => Z.leb (sl_heartbeat g) (Z.max 0 (now - at_)) end in
    if negb changed && negb due then (false, g) else (true, mk_gate (Some signature) (Some now) (sl_heartbeat g)).
Definition parse_heartbeat (raw : option string) : Z :=
  match trim <$> raw with
  | None => DEFAULT_HEARTBEAT
  | Some text =>
      if String.eqb text "" then DEFAULT_HEARTBEAT
      else match parse_u64 text with inr secs => secs * 1000 | inl _ => DEFAULT_HEARTBEAT end
  end.
(** The lines that pass the gate, for a sequence of snapshots. *)
Fixpoint steady_run (calls : list (string * Z)) (g : SteadyLogGate) : list (string * Z) * SteadyLogGate :=
  match calls with
  | [] => ([], g)
  | (signature, now) :: calls =>
      let '(emit, g) := should_emit signature now g in
      let '(lines_, g) := steady_run calls g in
      ((if emit then (signature, now) :: lines_ else lines_), g)
  end.

(** * self_observability.rs *)

Inductive DaemonWorkState := Idle | Active.
Record RuntimeHealthSnapshot := mk_runtime_health {
  rh_state : DaemonWorkState;
  rh_queue_depth : nat;
  rh_running_count : nat;
  rh_reporting_count : nat;
  rh_discovery : DiscoveryHealthSnapshot;
  rh_metrics : MetricsHealthSnapshot;
  rh_paused_inputs : list string;
  rh_updated_at : string;
}.
Definition bool_text (b : bool) : string := if b then "true" else "false".
Definition readiness_text (r : DiscoveryReadiness) : string :=
  match r with NotReady => "NotReady" | ReadyWithStaleSnapshot => "ReadyWithStaleSnapshot" | Ready => "Ready" end.
Definition metrics_signature (m : MetricsHealthSnapshot) : string :=
  "target_view_loaded=" +:+ bool_text (mh_target_view_loaded m) +:+ " used_cached=" +:+ bool_text (mh_used_cached_snapshot m) +:+
  " total=" +:+ pretty (mh_total_targets m) +:+ " host=" +:+ pretty (mh_host_targets m) +:+ " process=" +:+ pretty (mh_process_targets m) +:+
  " container=" +:+ pretty (mh_container_targets m) +:+ " attempted=" +:+ pretty (mh_attempted_targets m) +:+
  " succeeded=" +:+ pretty (mh_succeeded_targets m) +:+ " failed=" +:+ pretty (mh_failed_targets m) +:+
  " failures=" +:+ pretty (mh_failure_count m) +:+ " last_error=" +:+ default "-" (mh_last_error m).
Definition probe_line (p : DiscoveryProbeHealth) : string :=
  nl +:+ "probe=" +:+ ph_source p +:+ " " +:+ ph_probe p +:+ " " +:+ ph_phase p +:+ " " +:+ ph_status p +:+ " " +:+
  pretty (ph_resource_count p) +:+ " " +:+ pretty (ph_target_count p).
Definition health_signature (s : RuntimeHealthSnapshot) : string :=
  let d := rh_discovery s in
  "state=" +:+ (match rh_state s with Idle => "Idle" | Active => "Active" end) +:+ " queue=" +:+ pretty (rh_queue_depth s) +:+
  " running=" +:+ pretty (rh_running_count s) +:+ " reporting=" +:+ pretty (rh_reporting_count s) +:+
  " paused=" +:+ Text.join "," (rh_paused_inputs s) +:+
  " discovery=" +:+ readiness_text (dh_readiness d) +:+ " cached_loaded=" +:+ bool_text (dh_cached_snapshot_loaded d) +:+
  " used_cached=" +:+ bool_text (dh_used_cached_snapshot d) +:+ " resources=" +:+ pretty (dh_resource_count d) +:+
  " targets=" +:+ pretty (dh_target_count d) +:+ " failures=" +:+ pretty (dh_failure_count d) +:+
  " last_success=" +:+ default "-" (dh_last_success_at d) +:+
  sconcat (probe_line <$> dh_probes d) +:+ " metrics=" +:+ metrics_signature (rh_metrics s).

(** * Counting executions *)

Section Counts.
Context `{Host} `{Contracts}.

(** The paths below a directory that may not exist. *)
Definition entries_of (dir : string) : M World (option (list string)) :=
  r ← try (fs_metadata dir);
  match r with
  | Err err => if decide (io_kind err = NotFound) then mret None else throw err
  | Ok _ => entries ← fs_read_dir dir; mret (Some entries)
  end.
Definition is_json_path (path : string) : bool := bool_decide (path_extension path = Some "json").
Definition count_running_entries_async (state_dir : string) : M World nat :=
  entries ← entries_of (path_join state_dir "running");
  mret (length (List.filter is_json_path (default [] entries))).
Definition count_reporting_entries_async (state_dir : string) : M World nat :=
  entries ← entries_of (path_join state_dir "reporting");
  mret (length (List.filter (λ path, is_json_path path && negb (ends_with REPORT_ENVELOPE_SUFFIX (path_file_name path))) (default [] entries))).
End Counts.

(** * Facts *)

(** The states an input is told to have been in. *)
Definition states_of (input_id : string) (changes : list TelemetryWorkState) : list WorkState :=
  ws_state <$> filter (λ n, ws_input_id n = input_id) changes.
Definition other_state (s : WorkState) : WorkState := match s with Paused => Resumed | Resumed => Paused end.
Fixpoint alternating (next : WorkState) (states : list WorkState) : Prop :=
  match states with [] => True | s :: states => s = next ∧ alternating (other_state next) states end.

Section WorkStates.
Implicit Types (previous : gset string) (notes changes : list TelemetryWorkState).

Lemma no_filter_match {A} (P : A → Prop) `{!∀ x, Decision (P x)} (l : list A) : (∀ x, x ∈ l → ¬ P x) → filter P l = [].
Proof. induction l as [|x l IH]; intros Hl; [done|]. rewrite filter_cons, decide_False by (apply Hl; by left). apply IH. intros y Hy. apply Hl. by right. Qed.

Lemma resumed_states now input_id (l : list string) : NoDup l →
  states_of input_id (resumed_at now <$> l) = if decide (input_id ∈ l) then [Resumed] else [].
Proof.
  unfold states_of. induction l as [|x l IH]; intros Hd; [done|]. apply NoDup_cons in Hd as [Hx Hd]. rewrite fmap_cons, filter_cons. cbn [resumed_at ws_input_id].
  destruct (decide (x = input_id)) as [<-|Hne].
  - rewrite fmap_cons, IH by done. destruct (decide (x ∈ l)); [done|]. destruct (decide (x ∈ x :: l)) as [|Hn]; [done|]. exfalso. apply Hn. by left.
  - rewrite IH by done. destruct (decide (input_id ∈ l)) as [Hi|Hi], (decide (input_id ∈ x :: l)) as [Hj|Hj]; try done.
    + exfalso. apply Hj. by right.
    + apply elem_of_cons in Hj as [->|]; done.
Qed.

(** A tick tells of inputs that are paused (the notifications of an input are pauses: [Inputs.problems_told_once]),
    and how often it tells of one: as many times as it has inputs of that
    id, which the grant does not keep apart ([Work.ConcreteWork.task_ids_collide]). *)
Definition pause_tick_ok (t : PauseTick) : Prop := Forall (λ n, ws_state n = Paused) (pt_notifications t).
Definition told (input_id : string) (t : PauseTick) : nat := length (filter (λ n, ws_input_id n = input_id) (pt_notifications t)).

Lemma all_paused_states (l : list TelemetryWorkState) : Forall (λ n, ws_state n = Paused) l → ws_state <$> l = replicate (length l) Paused.
Proof. induction 1 as [|n l Hn _ IH]; [done|]. cbn. by rewrite Hn, IH. Qed.

Lemma told_paused input_id t : input_id ∈ paused_input_signatures (pt_notifications t) ↔ 0 < told input_id t.
Proof.
  unfold told, paused_input_signatures. rewrite elem_of_list_to_set, list_elem_of_fmap. split.
  - intros (n & -> & Hn). destruct (decide (filter (λ m, ws_input_id m = ws_input_id n) (pt_notifications t) = [])) as [Hf|Hf]; [|destruct (filter _ _); [done|cbn; lia]]. assert (Hin : n ∈ filter (λ m, ws_input_id m = ws_input_id n) (pt_notifications t)) by by apply list_elem_of_filter.
    rewrite Hf in Hin. by apply elem_of_nil in Hin.
  - destruct (filter _ _) as [|n l] eqn:Ef; cbn; [lia|]. intros _. exists n. assert (Hin : n ∈ n :: l) by by left. rewrite <- Ef in Hin.
    by apply list_elem_of_filter in Hin as [-> ?].
Qed.

Lemma pause_step_states input_id t previous changes previous' : pause_tick_ok t → pause_step t previous = (changes, previous') →
  states_of input_id changes = (if decide (input_id ∈ previous) then if decide (input_id ∈ previous') then [] else [Resumed]
    else if decide (input_id ∈ previous') then replicate (told input_id t) Paused else []) ∧
  (input_id ∈ previous' → input_id ∉ previous → 0 < told input_id t).
Proof.
  intros Hp. unfold pause_step. destruct (pt_enabled t); cbn [negb]; intros [= <- <-]; [|split; [by repeat destruct (decide _)|done]].
  split; [|intros Hin _; by apply told_paused].
  unfold work_state_changes, states_of. rewrite filter_app, fmap_app.
  assert (Hr : ws_state <$> filter (λ n, ws_input_id n = input_id) (resumed_at (pt_now t) <$> sort_strings (elements (previous ∖ paused_input_signatures (pt_notifications t)))) =
    if decide (input_id ∈ previous ∧ input_id ∉ paused_input_signatures (pt_notifications t)) then [Resumed] else []).
  { fold (states_of input_id (resumed_at (pt_now t) <$> sort_strings (elements (previous ∖ paused_input_signatures (pt_notifications t))))).
    rewrite resumed_states by (unfold sort_strings; rewrite merge_sort_Permutation; apply NoDup_elements).
    apply decide_ext. unfold sort_strings. rewrite merge_sort_Permutation, elem_of_elements. set_solver. }
  rewrite Hr. clear Hr. rewrite list_filter_filter.
  destruct (decide (input_id ∈ previous)) as [Hi|Hi].
  - assert (Hf : filter (λ n, ws_input_id n = input_id ∧ ws_input_id n ∉ previous) (pt_notifications t) = []).
    { apply no_filter_match. intros n _ [<- Hn]. by apply Hn. }
    rewrite Hf. cbn. destruct (decide (input_id ∈ paused_input_signatures _)); destruct (decide (_ ∧ _)); naive_solver.
  - destruct (decide (input_id ∈ previous ∧ _)); [naive_solver|]. rewrite (right_id_L [] (++)%list).
    assert (Hf : filter (λ n, ws_input_id n = input_id ∧ ws_input_id n ∉ previous) (pt_notifications t) = filter (λ n, ws_input_id n = input_id) (pt_notifications t)).
    { apply list_filter_iff. intros m. split; [by intros [? _]|]. intros <-. by split. }
    rewrite Hf, all_paused_states.
    2:{ apply Forall_forall. intros m [_ Hm]%list_elem_of_filter. unfold pause_tick_ok in Hp. rewrite Forall_forall in Hp. by apply Hp. }
    fold (told input_id t).
    destruct (decide (input_id ∈ paused_input_signatures _)) as [|Hn]; [done|]. rewrite told_paused in Hn. by replace (told input_id t) with 0 by lia.
Qed.

(** Every resumption comes right after a pause. *)
Fixpoint resumed_after_pause (paused : bool) (l : list WorkState) : Prop :=
  match l with
  | [] => True
  | Paused :: l => resumed_after_pause true l
  | Resumed :: l => paused = true ∧ resumed_after_pause false l
  end.
Lemma resumed_after_pauses b n l : 0 < n → resumed_after_pause b (replicate n Paused ++ l) ↔ resumed_after_pause true l.
Proof. destruct n as [|n]; [lia|]. intros _. cbn. induction n as [|n IH]; [done|]. exact IH. Qed.

End WorkStates.

Section SteadyLog.
Implicit Types (g : SteadyLogGate) (calls lines : list (string * Z)).

(** The gate remembers the last line, unless it lets everything pass. *)
Definition remembers g lines : Prop := sl_heartbeat g = 0%Z ∨
  match last lines with
  | None => sl_last_signature g = None ∧ sl_last_emit_at g = None
  | Some (s, at_) => sl_last_signature g = Some s ∧ sl_last_emit_at g = Some at_
  end.
Definition paced (heartbeat : Z) lines : Prop :=
  ∀ i s a b, lines !! i = Some (s, a) → lines !! S i = Some (s, b) → (heartbeat ≤ Z.max 0 (b - a))%Z.

Lemma should_emit_step s now g lines : remembers g lines → paced (sl_heartbeat g) lines →
  let '(emit, g') := should_emit s now g in
  let lines' := if emit then (lines ++ [(s, now)])%list else lines in
  sl_heartbeat g' = sl_heartbeat g ∧ remembers g' lines' ∧ paced (sl_heartbeat g) lines' ∧
  ∃ at_, last lines' = Some (s, at_) ∧ (at_ = now ∨ (Z.max 0 (now - at_) < sl_heartbeat g)%Z).
Proof.
  intros Hr Hp. unfold should_emit. destruct (Z.eqb_spec (sl_heartbeat g) 0) as [E|E].
  { split_and!; [done|by left| |exists now; rewrite last_snoc; by auto]. intros i t a b _ _. rewrite E. lia. }
  assert (Hpaced : (∀ a, last lines = Some (s, a) → (sl_heartbeat g ≤ Z.max 0 (now - a))%Z) → paced (sl_heartbeat g) (lines ++ [(s, now)])%list).
  { intros Hl i t a b Ha Hb. destruct (decide (S i < length lines)) as [Hi|Hi].
    - rewrite lookup_app_l in Ha, Hb by lia. by apply (Hp i t).
    - assert (Si : S i = length lines) by (apply lookup_lt_Some in Hb; rewrite length_app in Hb; cbn in Hb; lia).
      rewrite Si, lookup_app_r, Nat.sub_diag in Hb by lia. cbn in Hb. injection Hb as <- <-. rewrite lookup_app_l in Ha by lia. apply Hl.
      rewrite last_lookup, <- Si. exact Ha. }
  destruct Hr as [Hr|Hr]; [done|]. destruct (last lines) as [[t a]|] eqn:El; destruct Hr as [Hs Ha]; rewrite Hs, Ha.
  - destruct (bool_decide_reflect (Some t = Some s)) as [[= ->]|Hne]; cbn [negb andb].
    + destruct (Z.leb_spec (sl_heartbeat g) (Z.max 0 (now - a))) as [Hh|Hh]; cbn [negb].
      * split_and!; [done|right; by rewrite last_snoc|apply Hpaced; by intros ? [= <-]|exists now; rewrite last_snoc; by auto].
      * split_and!; [done|right; by rewrite El, Hs, Ha|done|exists a; auto].
    + split_and!; [done|right; by rewrite last_snoc|apply Hpaced; intros ? [= -> _]; done|exists now; rewrite last_snoc; by auto].
  - cbn. split_and!; [done|right; by rewrite last_snoc|by apply Hpaced|exists now; rewrite last_snoc; by auto].
Qed.

Lemma steady_run_app calls g lines : remembers g lines → paced (sl_heartbeat g) lines →
  let '(more, g') := steady_run calls g in
  remembers g' (lines ++ more)%list ∧ paced (sl_heartbeat g) (lines ++ more)%list ∧ sl_heartbeat g' = sl_heartbeat g ∧
  ∀ s now, last calls = Some (s, now) → ∃ at_, last (lines ++ more)%list = Some (s, at_) ∧ (at_ = now ∨ (Z.max 0 (now - at_) < sl_heartbeat g)%Z).
Proof.
  revert g lines. induction calls as [|[s now] calls IH]; intros g lines Hr Hp; cbn [steady_run]; [rewrite List.app_nil_r; by split_and!|].
  pose proof (should_emit_step s now g lines Hr Hp) as Hs. destruct (should_emit s now g) as [emit g1]. destruct Hs as (Hh & Hr1 & Hp1 & Hl).
  specialize (IH g1 _ Hr1). rewrite Hh in IH. specialize (IH Hp1). destruct (steady_run calls g1) as [more g2] eqn:Em. destruct IH as (H1 & H2 & H3 & H4).
  assert (Hq : ((if emit then (lines ++ [(s, now)])%list else lines) ++ more = lines ++ (if emit then (s, now) :: more else more))%list)
    by (destruct emit; [by rewrite <- (assoc_L (++)%list)|done]).
  rewrite Hq in *. split_and!; [done|done|done|]. intros s' now'. destruct calls as [|call calls]; [|intros Hc; apply H4; exact Hc].
  intros [= <- <-]. injection Em as <- _. rewrite <- Hq, List.app_nil_r. exact Hl.
Qed.
End SteadyLog.

(** * Theorems *)

(** C30. Over any ticks whose notifications are pauses, with the output switched on and off in between, what is told of an input begins with a
    pause, every resumption comes right after a pause, and the last word is that it is paused exactly if it is
    among the paused.  If each tick tells of the input once at most, pauses and resumptions alternate; two inputs
    of one id, which a grant may have, are each told to pause. *)
Theorem work_states_alternate (ticks : list PauseTick) input_id : Forall pause_tick_ok ticks →
  let '(changes, paused) := pause_run ticks ∅ in
  resumed_after_pause false (states_of input_id changes) ∧
  (input_id ∈ paused ↔ last (states_of input_id changes) = Some Paused) ∧
  (Forall (λ t, told input_id t ≤ 1) ticks → alternating Paused (states_of input_id changes)).
Proof.
  intros Hok. assert (Hgen : ∀ (previous : gset string), let '(changes, paused) := pause_run ticks previous in
    let l := states_of input_id changes in
    resumed_after_pause (bool_decide (input_id ∈ previous)) l ∧
    (input_id ∈ paused ↔ last l = Some Paused ∨ l = [] ∧ input_id ∈ previous) ∧
    (Forall (λ t, told input_id t ≤ 1) ticks → alternating (if decide (input_id ∈ previous) then Resumed else Paused) l)).
  { induction Hok as [|t ticks Ht Hok IH]; intros previous; cbn [pause_run]; [cbn; naive_solver|].
    destruct (pause_step t previous) as [changes p1] eqn:Es. destruct (pause_step_states input_id t previous changes p1 Ht Es) as [Hst Htold].
    specialize (IH p1). destruct (pause_run ticks p1) as [rest p2]. destruct IH as (Hr & Hp & Ha).
    assert (Happ : states_of input_id (changes ++ rest) = (states_of input_id changes ++ states_of input_id rest)%list) by (unfold states_of; by rewrite filter_app, fmap_app).
    cbv zeta. rewrite Happ, Hst, Hp, Forall_cons. clear Happ Hst Hp Es. revert Hr Ha. generalize (states_of input_id rest) as l. intros l Hr Ha.
    destruct (decide (input_id ∈ previous)), (decide (input_id ∈ p1)); rewrite ?bool_decide_eq_true_2, ?bool_decide_eq_false_2 in * by done.
    - by split_and!; [|cbn; naive_solver|intros [_ ?]; apply Ha].
    - split_and!; [by split|cbn; destruct l; cbn; naive_solver|intros [_ ?]; cbn; auto].
    - specialize (Htold ltac:(done) ltac:(done)). split_and!; [by apply resumed_after_pauses| |].
      + destruct (told input_id t) as [|k]; [lia|]. rewrite last_app. destruct l as [|s l]; [|destruct (last (s :: l)) eqn:El; [naive_solver|by apply last_None in El]].
        cbn [last]. rewrite (right_id_L [] (++)%list). destruct (last (replicate (S k) Paused)) as [x|] eqn:El; [|by apply last_None in El].
        apply last_Some_elem_of, elem_of_replicate in El as [-> _]. naive_solver.
      + intros [Hle Hls]. replace (told input_id t) with 1 by lia. cbn. auto.
    - split_and!; [done|naive_solver|intros [_ ?]; by apply Ha]. }
  specialize (Hgen ∅). destruct (pause_run ticks ∅) as [changes paused]. destruct Hgen as (Hr & Hp & Ha).
  split_and!; [exact Hr|rewrite Hp; set_solver|exact Ha].
Qed.

(** The log tells the truth without repeating itself: over any sequence of snapshots, whichever way the
    clock moves, the last line is always one with the signature of the last snapshot, and that snapshot was
    either printed or taken less than a heartbeat after the line; and a line that repeats the one before it
    comes at least a heartbeat later. *)
Theorem steady_log_is_current heartbeat calls s now :
  let lines := (steady_run (calls ++ [(s, now)]) (steady_new heartbeat)).1 in
  (∃ at_, last lines = Some (s, at_) ∧ (at_ = now ∨ (Z.max 0 (now - at_) < heartbeat)%Z)) ∧
  ∀ i t a b, lines !! i = Some (t, a) → lines !! S i = Some (t, b) → (heartbeat ≤ Z.max 0 (b - a))%Z.
Proof.
  pose proof (steady_run_app (calls ++ [(s, now)])%list (steady_new heartbeat) []) as Hr. cbn [app] in Hr.
  destruct (steady_run (calls ++ [(s, now)]) (steady_new heartbeat)) as [lines g]. destruct Hr as (_ & Hp & _ & Hl).
  { by right. }
  { by intros i t a b Hi; rewrite lookup_nil in Hi. }
  split; [apply Hl; by rewrite last_snoc|exact Hp].
Qed.

(** An outage lasts from a tick that failed to write up to a tick that did not and sent something. *)
Definition outage (ticks : list (bool * bool)) : Prop :=
  ∃ i, (∃ sent, ticks !! i = Some (true, sent)) ∧ ∀ j, i < j → ticks !! j ≠ Some (false, true).

(** The memory of the uplink's health is exact: after any ticks it says failing exactly during an outage,
    and the recovery is announced at a tick exactly if the tick ends an outage, that is if it did not fail, has
    sent something, and the ticks before it ended in one. *)
Theorem recovery_told_once ticks failed sent :
  let '(line, failing) := note_tick failed sent (uplink_run ticks false).2 in
  ((uplink_run ticks false).2 = true ↔ outage ticks) ∧
  (is_some line = true ↔ outage ticks ∧ failed = false ∧ sent = true) ∧
  (uplink_run (ticks ++ [(failed, sent)]) false).2 = failing.
Proof.
  assert (Hsnoc : ∀ f ts a b, (uplink_run (ts ++ [(a, b)]) f).2 = (note_tick a b (uplink_run ts f).2).2).
  { intros f ts. revert f. induction ts as [|[a' b'] ts IH]; intros f a b; cbn [uplink_run app].
    - by destruct a, b, f.
    - destruct (note_tick a' b' f) as [l f1]. specialize (IH f1 a b). destruct (uplink_run (ts ++ _) f1), (uplink_run ts f1). exact IH. }
  assert (Hex : ∀ ts, (uplink_run ts false).2 = true ↔ outage ts).
  { intros ts. induction ts as [|[a b] ts IH] using rev_ind; [split; [done|by intros (i & (s & Hs) & _)]|].
    rewrite Hsnoc. assert (Hlast : ∀ P, (ts ++ [(a, b)]) !! length ts = Some P ↔ P = (a, b)).
    { intros P. rewrite lookup_app_r, Nat.sub_diag by done. cbn. split; [by intros [= <-]|by intros ->]. }
    assert (Hold : ∀ j, j < length ts → (ts ++ [(a, b)]) !! j = ts !! j) by (intros; by apply lookup_app_l).
    assert (Hlen : ∀ j P, (ts ++ [(a, b)]) !! j = Some P → j ≤ length ts).
    { intros j P Hj%lookup_lt_Some. rewrite length_app in Hj. cbn in Hj. lia. }
    destruct a; cbn [note_tick snd].
    - split; [|done]. intros _. exists (length ts). split; [exists b; by apply Hlast|]. intros j Hj Hq%Hlen. lia.
    - assert (Hkeep : (outage (ts ++ [(false, b)]) ↔ outage ts ∧ b = false)).
      { split.
        - intros (i & (s & Hs) & Hj). pose proof (Hlen _ _ Hs) as Hi. assert (i ≠ length ts) by (intros ->; apply Hlast in Hs; done).
          split; [|destruct b; [|done]; exfalso; apply (Hj (length ts)); [lia|by apply Hlast]].
          exists i. rewrite Hold in Hs by lia. split; [by exists s|]. intros j Hij Hq. pose proof (lookup_lt_Some _ _ _ Hq). apply (Hj j); [done|by rewrite Hold].
        - intros [(i & (s & Hs) & Hj) ->]. pose proof (lookup_lt_Some _ _ _ Hs). exists i. split; [exists s; by rewrite Hold|]. intros j Hij Hq.
          destruct (decide (j = length ts)) as [->|Hne]; [apply Hlast in Hq; done|]. pose proof (Hlen _ _ Hq). rewrite Hold in Hq by lia. by apply (Hj j). }
      rewrite Hkeep, <- IH. destruct (uplink_run ts false).2, b; cbn; naive_solver. }
  specialize (Hsnoc false ticks failed sent). specialize (Hex ticks). destruct (note_tick failed sent _) as [line failing] eqn:En.
  split; [exact Hex|]. split; [|exact Hsnoc]. rewrite <- Hex. unfold note_tick in En. destruct failed, sent, (uplink_run ticks false).2; injection En as <- <-; cbn; naive_solver.
Qed.

(** * An input that is withdrawn *)

Module ConcreteHealth.

Definition pause_of (input_id : string) : TelemetryWorkState := mk_work_state input_id Paused "spool over limit (9 bytes); source read paused" "t1".
(** Paused, still paused, the output switched off for a tick, then withdrawn from the grant. *)
Definition toy_ticks : list PauseTick :=
  [mk_pause_tick true [pause_of "a"; pause_of "b"] "t1"; mk_pause_tick true [pause_of "a"] "t2"; mk_pause_tick false [] "t3"; mk_pause_tick true [] "t4";
   mk_pause_tick true [pause_of "a"] "t5"].
Lemma work_states_alternate_witness :
  let '(changes, paused) := pause_run toy_ticks ∅ in
  states_of "a" changes = [Paused; Resumed; Paused] ∧ alternating Paused (states_of "b" changes) ∧ "a" ∈ paused.
Proof.
  assert (Hok : Forall pause_tick_ok toy_ticks) by (repeat constructor).
  assert (Hb1 : Forall (λ t, told "b" t ≤ 1) toy_ticks) by (repeat constructor).
  pose proof (work_states_alternate toy_ticks "a" Hok) as Ha. pose proof (work_states_alternate toy_ticks "b" Hok) as Hb.
  assert (Hv : states_of "a" (pause_run toy_ticks ∅).1 = [Paused; Resumed; Paused]) by (vm_compute; reflexivity).
  destruct (pause_run toy_ticks ∅) as [changes paused]. split; [exact Hv|]. split; [exact (proj2 (proj2 Hb) Hb1)|]. apply (proj1 (proj2 Ha)). cbn [fst] in Hv. rewrite Hv. reflexivity.
Defined.

(** Two inputs of one id. *)
Example one_id_told_twice :
  states_of "a" (pause_run [mk_pause_tick true [pause_of "a"; pause_of "a"] "t1"; mk_pause_tick true [] "t2"] ∅).1 = [Paused; Paused; Resumed].
Proof. by vm_compute. Qed.

(** An input that is withdrawn while it is paused is reported as resumed, its spool replayed, although nothing
    was replayed; the code takes care that switching the output off is not misread in this way. *)
Example withdrawn_input_is_reported_resumed :
  (λ n, (ws_input_id n, ws_state n, ws_reason n)) <$> (pause_step (mk_pause_tick true [] "t2") (paused_input_signatures [pause_of "a"])).1 =
  [("a", Resumed, "spool replay recovered")].
Proof. by vm_compute. Qed.
End ConcreteHealth.
