(* ===== verification/Frames.v ===== *)
(** The frames a tick sends besides log records (runtime/daemon.rs, runtime/daemon_metrics.rs and
    state_store/fact_report.rs): metrics, fact summaries, discovery snapshots and investigation reports share
    one sequence of numbers with the logs, which is kept on disk. *)
From stdpp Require Import pretty.
From S2P Require Import Commands Prelude Text Host Fmt Telemetry Reader LogToy Records Delivery FileInput BTree Discovery Facts Planner Wire Metrics Throttle.

(** * What a sink does with frames *)

(** The frames of [TelemetryRecordSink]; a sink says which it can carry. *)
Class FrameSink `{RecordSink} `{!WireContracts} := {
  carries_fact : SinkState → bool;
  carries_discovery : SinkState → bool;
  carries_investigation : SinkState → bool;
  write_metrics : ∀ {A} `{Json A}, DataFrame → A → M SinkState unit;
  write_fact : DataFrame → string → M SinkState unit;
  write_discovery : DataFrame → string → M SinkState unit;
  write_investigation : DataFrame → string → M SinkState unit;
}.
(** They carry no records. *)
Class FrameSinkLaws `{FrameSink} : Prop := {
  metrics_no_record : ∀ A (J : Json A) e (a : A) s, accepted (write_metrics e a s).2 = accepted s;
  fact_no_record : ∀ e b s, accepted (write_fact e b s).2 = accepted s;
  discovery_no_record : ∀ e b s, accepted (write_discovery e b s).2 = accepted s;
  investigation_no_record : ∀ e b s, accepted (write_investigation e b s).2 = accepted s;
}.

(** The TCP sink keeps both promises. *)
Section TcpFrames.
Context `{LogContracts} `{!WireContracts} `{!Peer}.

Lemma frame_write (f : Frame) (s : TcpRecordSink) : fr_record f = None → tcp_wf s →
  tcp_wf (write_payload [f] s).2 ∧ tcp_accepted (write_payload [f] s).2 = tcp_accepted s.
Proof.
  intros Hf Hwf. destruct (write_payload [f] s) as [r s'] eqn:E. split; [exact (proj1 (write_payload_run _ _ _ _ Hwf E))|].
  destruct (write_payload_accepted _ _ _ _ Hwf E) as (part & Ha & Hp & _). cbn in Hp. rewrite Hf in Hp. apply prefix_nil_inv in Hp as ->.
  cbn [snd]. by rewrite Ha, List.app_nil_r.
Qed.
Definition on_tcp (f : Frame) (Hf : fr_record f = None) (s : { s | tcp_wf s }) : result unit * { s | tcp_wf s } :=
  ((write_payload [f] (proj1_sig s)).1, exist tcp_wf (write_payload [f] (proj1_sig s)).2 (proj1 (frame_write f (proj1_sig s) Hf (proj2_sig s)))).
#[export] Instance tcp_frame_sink : @FrameSink _ tcp_record_sink _ := {|
  carries_fact _ := true;
  carries_discovery _ := true;
  carries_investigation _ := true;
  write_metrics A J e a := on_tcp (build_metrics_frame e a) eq_refl;
  write_fact e b := on_tcp (build_fact_frame e b) eq_refl;
  write_discovery e b := on_tcp (build_discovery_frame e b) eq_refl;
  write_investigation e b := on_tcp (build_investigation_frame e b) eq_refl;
|}.
#[export] Instance tcp_frame_sink_laws : FrameSinkLaws.
Proof. split; intros; refine (proj2 (frame_write _ (proj1_sig s) _ (proj2_sig s))); reflexivity. Qed.
End TcpFrames.

(** * Data *)

Record FactReportState := mk_fact_report { fa_last_attempt_at_ms : Z }.
(** The names of the agent in its configuration. *)
Record AgentNames := mk_names { an_agent_id : option string; an_instance_name : option string }.

(** The reports of wist_contracts, and how an error is displayed. *)
Class ReportContracts := {
  AgentFactReport : Type;
  new_agent_facts : (* report_id agent_id instance_id digest *) string → string → string → string → (* revision *) Z →
    (* observed_at os arch *) string → string → string → (* process_count *) Z → (* executables packages ports *) list string → list string → list string →
    (* reported_at *) string → AgentFactReport;
  with_probe_paths : list string → list string → AgentFactReport → AgentFactReport;
  with_display : string → string → list string → AgentFactReport → AgentFactReport;
  fact_to_vec : AgentFactReport → result string;
  DiscoveryReport : Type;
  full_snapshot_report : (* report_id agent_id instance_id *) string → string → string → Z → (* reported_at *) string → DiscoverySnapshot → DiscoveryReport;
  discovery_to_vec : DiscoveryReport → result string;
  display_error : IoError → string;
}.

Inductive FactSendOutcome := FactSkipped | FactReported | FactFailed (detail : string).
Definition record_forced_fact_report (slot : FactReportAttempt) (outcome : FactSendOutcome) : FactReportAttempt :=
  match outcome with
  | FactSkipped => slot
  | FactReported => mk_attempt true true (at_error slot)
  | FactFailed detail => mk_attempt true (at_reported slot) (Some detail)
  end.

Definition FACT_REPORT_MIN_INTERVAL_MS : Z := 300000.
Definition DISCOVERY_SNAPSHOT_MIN_INTERVAL_SECS : Z := 60.
Definition within_fact_report_min_interval (last_attempt_at_ms now_ms : Z) : bool :=
  negb (Z.eqb last_attempt_at_ms 0) && Z.leb last_attempt_at_ms now_ms &&
  Z.ltb (i64_saturating_sub now_ms last_attempt_at_ms) FACT_REPORT_MIN_INTERVAL_MS.
(** In seconds, and in milliseconds. *)
Definition discovery_snapshot_interval (configured_secs : Z) : Z := Z.max configured_secs DISCOVERY_SNAPSHOT_MIN_INTERVAL_SECS.
Definition discovery_snapshot_due (now : Z) (last : option Z) (interval : Z) : bool :=
  match last with None => true | Some at_ => Z.leb (interval * 1000) (now - at_) end.

Definition fact_report_path_for (state_dir : string) : string := path_join state_dir "fact_report.json".

(** * Sending *)

Inductive FrameKind := MetricsFrame | FactFrame | DiscoveryFrame | InvestigationFrame.
#[export] Instance FrameKind_eq_dec : EqDecision FrameKind.
Proof. solve_decision. Defined.
(** For the theorems: a frame handed to the sink, with its number and the time. *)
Record SentFrame := mk_sent { se_kind : FrameKind; se_number : Z; se_at : Z }.
(** The world, the sink and the counter, and the frames handed over. *)
Record Frames `{Os} `{RecordSink} := mk_frames { fs_input : Input; fs_sent : list SentFrame }.
Arguments mk_frames {_ _ _} _ _.

Section Sending.
Context `{Host} `{LogContracts} `{!LogCodecs} `{!RecordSink} `{!WireContracts} `{!FrameSink} `{!ReportContracts} `{!FactContracts} `{!Json FactReportState}.
Variables (names : AgentNames) (state_dir : string).
Implicit Types (f : Frames).

Definition on_frames {A} (m : M Input A) : M Frames A := zoom fs_input (λ i f, mk_frames i (fs_sent f)) m.
Definition on_disk {A} (m : M World A) : M Frames A := on_frames (in_host m).
Definition counter_path : string := log_seq_state.path_for state_dir.
(** [let seq = *next_seq; *next_seq += 1;] *)
Definition take_number : M Frames Z := on_frames (λ i, (Ok (next_seq i), mk_input (uplink i) (seq_succ (next_seq i)))).
Definition store_number : M Frames unit :=
  n ← on_frames (gets next_seq);
  on_disk (log_seq_state.store_async counter_path n).
Definition hand_over (kind : FrameKind) (number : Z) (m : M SinkState unit) : M Frames unit :=
  modify (λ f, mk_frames (fs_input f) (fs_sent f ++ [mk_sent kind number (clock (world (uplink (fs_input f))))]));;
  on_frames (in_uplink (in_sink m)).

Definition fact_load_async (path : string) : M World (option FactReportState) :=
  r ← try (read_json_async path);
  match r with
  | Ok state => mret (Some state)
  | Err err => if decide (io_kind err = NotFound) then mret None else throw err
  end.

Definition fact_report_of (agent_id : string) (summary : FactSummaryDraft) (now_ms : Z) (reported_at : string) : AgentFactReport :=
  with_display (fd_host_id summary) (fd_host_name summary) (fd_network_addresses summary)
    (with_probe_paths (fd_probed_paths summary) (fd_present_paths summary)
      (new_agent_facts ("fact_" +:+ agent_id +:+ "_" +:+ pretty now_ms) agent_id (default "" (an_instance_name names)) (content_digest summary)
        (fd_revision summary) (fd_observed_at summary) (fd_os summary) (fd_arch summary) (fd_process_count summary) (fd_process_executables summary)
        (fd_packages summary) (fd_listen_ports summary) reported_at)).
Definition report_fact_summary_with (summary : FactSummaryDraft) (force : bool) : M Frames bool :=
  match an_agent_id names with
  | None => mret false
  | Some agent_id =>
      let state_path := fact_report_path_for state_dir in
      loaded ← try (on_disk (fact_load_async state_path));
      let previous := match loaded with Ok state => state | Err _ => None end in
      now_ms ← on_disk (gets clock);
      if negb force && match previous with Some state => within_fact_report_min_interval (fa_last_attempt_at_ms state) now_ms | None => false end
      then mret false
      else
        reported_at ← on_disk now_rfc3339;
        let report := fact_report_of agent_id summary now_ms reported_at in
        try (on_disk (write_json_atomic_async state_path (mk_fact_report now_ms)));;
        body ← of_result (fact_to_vec report);
        seq ← take_number;
        store_number;;
        hand_over FactFrame seq (write_fact (data_frame_new agent_id reported_at seq) body);;
        mret true
  end.
Definition send_fact_summary (summary : FactSummaryDraft) (force : bool) : M Frames FactSendOutcome :=
  r ← try (report_fact_summary_with summary force);
  mret (match r with
        | Ok true => FactReported
        | Ok false => FactSkipped
        | Err err => FactFailed (display_error err)
        end).

Definition report_discovery_snapshot (snapshot : DiscoverySnapshot) : M Frames unit :=
  let agent_id := default "unknown" (an_agent_id names) in
  reported_at ← on_disk now_rfc3339;
  now_ms ← on_disk (gets clock);
  body ← of_result (discovery_to_vec (full_snapshot_report ("disc_" +:+ agent_id +:+ "_" +:+ pretty now_ms) agent_id
    (default "" (an_instance_name names)) 1 reported_at snapshot));
  seq ← take_number;
  store_number;;
  hand_over DiscoveryFrame seq (write_discovery (data_frame_new agent_id reported_at seq) body).
Definition send_discovery_snapshot_report (snapshot : option DiscoverySnapshot) : M Frames unit :=
  match snapshot, an_agent_id names with
  | Some snapshot, Some _ => try (report_discovery_snapshot snapshot);; mret tt
  | _, _ => mret tt
  end.

(** The report by its observation time and the body [to_uplink_body] makes of it. *)
Definition send_investigation_frame (observed_at body : string) : M Frames unit :=
  match an_agent_id names with
  | None => throw (io_other "not enrolled (agent.agent_id is empty)")
  | Some agent_id =>
      seq ← take_number;
      store_number;;
      hand_over InvestigationFrame seq (write_investigation (data_frame_new agent_id observed_at seq) body)
  end.

(** [write_metrics_uplink], for the lines the snapshot yields. *)
Section MetricsUplink.
Context `{!Float64} `{!MetricTable} `{!Json VmMetricLine}.
Fixpoint take_numbers (lines_ : list VmMetricLine) : M Frames (list (Z * VmMetricLine)) :=
  match lines_ with
  | [] => mret []
  | line :: lines_ => seq ← take_number; rest ← take_numbers lines_; mret ((seq, line) :: rest)
  end.
Fixpoint write_metric_lines (agent_id observed_at : string) (frames : list (Z * VmMetricLine)) : M Frames unit :=
  match frames with
  | [] => mret tt
  | (seq, line) :: frames => hand_over MetricsFrame seq (write_metrics (data_frame_new agent_id observed_at seq) line);; write_metric_lines agent_id observed_at frames
  end.
Definition write_metrics_uplink (agent_id : string) (lines_ : list VmMetricLine) : M Frames unit :=
  match lines_ with
  | [] => mret tt
  | _ =>
      observed_at ← on_disk now_rfc3339;
      frames ← take_numbers lines_;
      store_number;;
      write_metric_lines agent_id observed_at frames
  end.
End MetricsUplink.

(** The start of a tick: the counter is read from disk. *)
Definition load_counter : M Frames unit :=
  r ← try (on_disk (log_seq_state.load_or_default_async counter_path));
  on_frames (modify (λ i, mk_input (uplink i) (match r with Ok n => n | Err _ => 0%Z end))).
End Sending.

(** * One sequence of numbers *)

Section Numbers.
Context `{Host} `{LogContracts} `{!LogCodecs} `{!RecordSink} `{!WireContracts} `{!FrameSink} `{!ReportContracts} `{!FactContracts} `{!Json FactReportState}
  `{!Float64} `{!MetricTable} `{!Json VmMetricLine}.
Variables (names : AgentNames) (state_dir : string).
Implicit Types (f : Frames) (w : World) (m n k : Z).

Definition fs_world f : World := world (uplink (fs_input f)).
Definition fs_next f : Z := next_seq (fs_input f).
(** What the next start would read. *)
Definition on_file n w : Prop := files w !! (counter_path state_dir) = None ∧ n = 0%Z ∨ doc (counter_path state_dir) (mk_seq_state n) w.

(** The numbers handed over increase and are below [m]; those from [m] up to [n] are reserved on disk. *)
Record numbered m n f : Prop := mk_numbered {
  nb_file : on_file n (fs_world f);
  nb_bounds : (0 ≤ m ≤ n ∧ n ≤ fs_next f)%Z;
  nb_below : Forall (λ s, (se_number s < m)%Z) (fs_sent f);
  nb_sorted : StronglySorted Z.lt (se_number <$> fs_sent f);
}.
Lemma numbered_up m m' n f : numbered m n f → (m ≤ m' ≤ n)%Z → numbered m' n f.
Proof. intros [Hf Hb Hl Hs] Hm. split; [done|lia| |done]. eapply Forall_impl; [exact Hl|]. cbn. lia. Qed.

(** Steps that leave the numbers alone. *)
Record keeps_numbers f f' : Prop := mk_keeps_numbers {
  kn_file : files (fs_world f') !! (counter_path state_dir) = files (fs_world f) !! (counter_path state_dir);
  kn_next : fs_next f' = fs_next f;
  kn_sent : fs_sent f' = fs_sent f;
}.
#[export] Instance keeps_numbers_preorder : PreOrder keeps_numbers.
Proof. split; [by split|]. intros a b c [] []. split; congruence. Qed.
Lemma numbered_keeps m n f f' : keeps_numbers f f' → numbered m n f → numbered m n f'.
Proof.
  intros [Hf Hn Hs] [Hof Hb Hl Hso]. split; [|by rewrite Hn|by rewrite Hs|by rewrite Hs]. destruct Hof as [[Hnone ->]|Hd]; [left; by rewrite Hf|right].
  by eapply doc_keep.
Qed.

Lemma on_frames_run {A} (c : M Input A) f r f' : on_frames c f = (r, f') → ∃ i, c (fs_input f) = (r, i) ∧ f' = mk_frames i (fs_sent f).
Proof. unfold on_frames, zoom. destruct (c (fs_input f)) as [r0 i0]. intros [= <- <-]. by exists i0. Qed.
Lemma on_disk_run {A} (c : M World A) f r f' : on_disk c f = (r, f') → ∃ w, c (fs_world f) = (r, w) ∧
  f' = mk_frames (mk_input (mk_uplink w (sink (uplink (fs_input f)))) (fs_next f)) (fs_sent f).
Proof. unfold on_disk. intros (i & E & ->)%on_frames_run. apply in_host_run in E as (w & E & ->). by exists w. Qed.

(** A step on the disk that leaves the file of the counter alone. *)
Lemma on_disk_keeps {A} (c : M World A) f : files (c (fs_world f)).2 !! (counter_path state_dir) = files (fs_world f) !! (counter_path state_dir) → keeps_numbers f (on_disk c f).2.
Proof. intros Hf. destruct (on_disk c f) as [r f'] eqn:E. apply on_disk_run in E as (w & E & ->). rewrite E in Hf. by split. Qed.

Lemma seq_path_document : is_document (counter_path state_dir).
Proof. exact (below_document state_dir "logs" "seq"). Qed.
Lemma fact_path_apart : fact_report_path_for state_dir ≠ (counter_path state_dir).
Proof.
  unfold fact_report_path_for, counter_path, log_seq_state.path_for, path_join. rewrite <- Prelude.app_assoc. intros Hq%app_inj_l. discriminate Hq.
Qed.
Lemma fact_path_document : is_document (fact_report_path_for state_dir).
Proof. unfold fact_report_path_for. change "fact_report.json" with ("fact_report" +:+ ".json"). rewrite join_ends_json. by eexists. Qed.

Lemma store_number_run m n f r f' : numbered m n f → store_number state_dir f = (r, f') →
  fs_next f' = fs_next f ∧ fs_sent f' = fs_sent f ∧ ∃ n', numbered m n' f' ∧ (r = Ok tt → n' = fs_next f).
Proof.
  intros [Hf Hb Hl Hs] Hr. unfold store_number in Hr. assert (Hg : on_frames (gets next_seq) f = (Ok (fs_next f), f)) by (by destruct f as [i l]).
  erewrite bind_ok in Hr by exact Hg. apply on_disk_run in Hr as (w & E & ->). cbn. split; [done|]. split; [done|].
  destruct (write_json_either _ _ _ _ _ (document_storable _ seq_path_document) E) as [Hsame|Hnew].
  - destruct r as [[]|e].
    + exists (fs_next f). split; [|done]. apply write_json_ok in E as ->. split; [right; apply doc_wrote|cbn; lia|done|done].
    + exists n. split; [|done]. split; [|done|done|done]. destruct Hf as [[Hnone ->]|Hd]; [left; split; [cbn; congruence|done]|right; by eapply doc_keep].
  - exists (fs_next f). split; [|done]. split; [right; eexists; split; [exact Hnew|apply from_to_json]|cbn; lia|done|done].
Qed.
Lemma hand_over_run m n k kind (c : M SinkState unit) f r f' : numbered m n f → (m ≤ k < n)%Z → hand_over kind k c f = (r, f') →
  numbered (k + 1) n f' ∧ fs_next f' = fs_next f.
Proof.
  intros [Hf Hb Hl Hs] Hk Hr. unfold hand_over in Hr. rewrite modify_then in Hr. apply on_frames_run in Hr as (i & E & ->).
  apply in_uplink_run in E as (u & E & ->). unfold in_sink, zoom in E. destruct (c _) as [r0 s0]. injection E as <- <-. split; [|done]. split; [exact Hf|unfold fs_next in *; cbn; lia| |].
  - apply Forall_app. split; [eapply Forall_impl; [exact Hl|]; cbn; intros; lia|]. rewrite Forall_singleton. cbn. lia.
  - cbn. rewrite fmap_app. apply StronglySorted_app. split_and!; [|done|by repeat constructor]. intros a b Ha ->%list_elem_of_singleton. cbn.
    apply list_elem_of_fmap in Ha as (s & -> & Hin). rewrite Forall_forall in Hl. specialize (Hl _ Hin). cbn in Hl. lia.
Qed.

Lemma take_number_run f : take_number f = (Ok (fs_next f), mk_frames (mk_input (uplink (fs_input f)) (seq_succ (fs_next f))) (fs_sent f)).
Proof. by destruct f. Qed.
Lemma seq_succ_small n : (0 ≤ n < 2 ^ 64 - 1)%Z → seq_succ n = (n + 1)%Z.
Proof. intros Hn. unfold seq_succ. apply Z.mod_small. lia. Qed.
Lemma take_number_numbered m n f : numbered m n f → (fs_next f < 2 ^ 64 - 1)%Z →
  let f' := (take_number f).2 in numbered m n f' ∧ fs_next f' = (fs_next f + 1)%Z.
Proof.
  intros [Hf Hb Hl Hs] Hn. rewrite take_number_run. cbv zeta. assert (Hq : seq_succ (fs_next f) = (fs_next f + 1)%Z) by (apply seq_succ_small; lia).
  split; [|exact Hq]. split; [exact Hf| |exact Hl|exact Hs]. cbn. rewrite Hq. lia.
Qed.

(** A frame with one number: taken, reserved, handed over. *)
Lemma one_frame_run m n kind (c : Z → M SinkState unit) f r f' : numbered m n f → (fs_next f < 2 ^ 64 - 1)%Z →
  (seq ← take_number; store_number state_dir;; hand_over kind seq (c seq)) f = (r, f') →
  fs_next f' = (fs_next f + 1)%Z ∧ ∃ m' n', numbered m' n' f'.
Proof.
  intros Hnb Hn Hr. pose proof (take_number_numbered m n f Hnb Hn) as Ht. rewrite take_number_run in Ht. cbv zeta in Ht. cbn [snd] in Ht. destruct Ht as [Hnb1 Hn1].
  erewrite bind_ok in Hr by apply take_number_run. set (f1 := mk_frames _ _) in *.
  destruct (store_number state_dir f1) as [r1 f2] eqn:Es. apply (store_number_run _ _ _ _ _ Hnb1) in Es as Hs. destruct Hs as (Hn2 & _ & n' & Hnb2 & Hok).
  destruct r1 as [[]|e]; [|erewrite bind_err in Hr by exact Es; injection Hr as <- <-; split; [lia|by exists m, n']].
  erewrite bind_ok in Hr by exact Es. specialize (Hok eq_refl). subst n'. pose proof (nb_bounds _ _ _ Hnb).
  apply (hand_over_run (fs_next f) (fs_next f1)) in Hr as [Hnb3 Hn3]; [|eapply numbered_up; [exact Hnb2|lia]|lia]. split; [lia|by eexists _, _].
Qed.

Lemma take_numbers_run m n lines f : numbered m n f → (fs_next f + Z.of_nat (length lines) < 2 ^ 64)%Z →
  ∃ frames f', take_numbers lines f = (Ok frames, f') ∧ numbered m n f' ∧ fs_next f' = (fs_next f + Z.of_nat (length lines))%Z ∧
    StronglySorted Z.lt (fst <$> frames) ∧ Forall (λ p, fs_next f ≤ p.1 < fs_next f + Z.of_nat (length lines))%Z frames.
Proof.
  revert f. induction lines as [|line lines IH]; intros f Hnb Hlen; cbn [length] in *.
  { exists [], f. split_and!; [done|done|lia|constructor|constructor]. }
  destruct (take_number_numbered m n f Hnb) as [Hnb1 Hn1]; [lia|]. rewrite take_number_run in Hnb1, Hn1. cbn [snd] in *. set (f1 := mk_frames _ _) in *.
  destruct (IH f1 Hnb1) as (frames & f2 & E & Hnb2 & Hn2 & Hs & Hb); [lia|]. exists ((fs_next f, line) :: frames), f2. rewrite Hn1 in Hn2, Hb. split_and!.
  - cbn [take_numbers]. erewrite bind_ok by apply take_number_run. fold f1. by erewrite bind_ok by exact E.
  - done.
  - lia.
  - cbn. constructor; [done|]. rewrite Forall_fmap. eapply Forall_impl; [exact Hb|]. cbn. intros. lia.
  - constructor; [cbn; lia|]. eapply Forall_impl; [exact Hb|]. cbn. intros. lia.
Qed.
Lemma write_metric_lines_run m n agent_id at_ frames f : numbered m n f → StronglySorted Z.lt (fst <$> frames) → Forall (λ p, m ≤ p.1 < n)%Z frames →
  let f' := (write_metric_lines agent_id at_ frames f).2 in fs_next f' = fs_next f ∧ ∃ m', numbered m' n f'.
Proof.
  revert m f. induction frames as [|[k line] frames IH]; intros m f Hnb Hs Hb; cbv zeta; cbn [write_metric_lines]; [by split; [|exists m]|].
  apply Forall_cons in Hb as [Hk Hb]. rewrite fmap_cons in Hs. apply StronglySorted_inv in Hs as [Hs Hall]. cbn [fst] in Hk, Hall.
  match goal with |- context [hand_over MetricsFrame k ?c] => destruct (hand_over MetricsFrame k c f) as [r f1] eqn:E end. destruct (hand_over_run m n k _ _ _ _ _ Hnb Hk E) as [Hnb1 Hn1].
  destruct r as [[]|e]; [|erewrite bind_err by exact E; by split; [|eexists]]. erewrite bind_ok by exact E.
  destruct (IH (k + 1)%Z f1 Hnb1 Hs) as [Hn2 Hex]; [|split; [by rewrite Hn2|done]].
  rewrite Forall_fmap in Hall. apply Forall_forall. intros p Hp. rewrite Forall_forall in Hb, Hall. specialize (Hb _ Hp). specialize (Hall _ Hp). cbn in Hall. lia.
Qed.
Lemma now_keeps {A} (g : World → A) f : ∃ a, on_disk (gets g) f = (Ok a, f).
Proof. destruct (on_disk (gets g) f) as [r f'] eqn:E. apply on_disk_run in E as (w & [= <- <-] & ->). eexists. f_equal. by destruct f as [[[] ?] ?]. Qed.
Lemma metrics_uplink_run m n agent_id lines f : numbered m n f → (fs_next f + Z.of_nat (length lines) < 2 ^ 64)%Z →
  let f' := (write_metrics_uplink state_dir agent_id lines f).2 in (fs_next f ≤ fs_next f' ≤ fs_next f + Z.of_nat (length lines))%Z ∧ ∃ m' n', numbered m' n' f'.
Proof.
  intros Hnb Hlen. cbv zeta. unfold write_metrics_uplink. destruct lines as [|l0 ls0] eqn:El; [split; [cbn; lia|by exists m, n]|]. rewrite <- El in *. clear El l0 ls0.
  unfold now_rfc3339. destruct (now_keeps (λ w, rfc3339 (clock w)) f) as [at_ Ea]. erewrite bind_ok by exact Ea.
  destruct (take_numbers_run m n lines f Hnb Hlen) as (frames & f1 & E1 & Hnb1 & Hn1 & Hs & Hb). erewrite bind_ok by exact E1.
  destruct (store_number state_dir f1) as [r f2] eqn:E2. destruct (store_number_run _ _ _ _ _ Hnb1 E2) as (Hn2 & _ & n' & Hnb2 & Hok).
  destruct r as [[]|e]; [|erewrite bind_err by exact E2; cbn; split; [lia|by exists m, n']]. erewrite bind_ok by exact E2. specialize (Hok eq_refl). subst n'.
  pose proof (nb_bounds _ _ _ Hnb). destruct (write_metric_lines_run (fs_next f) (fs_next f1) agent_id at_ frames f2) as [Hn3 [m' Hnb3]].
  - eapply numbered_up; [exact Hnb2|lia].
  - done.
  - eapply Forall_impl; [exact Hb|]. cbn. intros. lia.
  - split; [lia|by eexists _, _].
Qed.

(** ** The other frames *)

Lemma try_keeps {A} (c : M Frames A) f : (try c f).2 = (c f).2.
Proof. unfold try. by destruct (c f). Qed.
Lemma fact_load_same p w : (fact_load_async p w).2 = w.
Proof.
  unfold fact_load_async. destruct (read_json_async (A := FactReportState) p w) as [r w1] eqn:E.
  pose proof (read_json_respects (A := FactReportState) eq p w) as Hr. rewrite E in Hr. cbn in Hr. subst w1. erewrite bind_ok by (apply try_run, E).
  destruct r as [a|e]; [done|]. by destruct (decide _).
Qed.

Lemma fact_summary_run m n summary force f : numbered m n f → (fs_next f < 2 ^ 64 - 1)%Z →
  let f' := (report_fact_summary_with names state_dir summary force f).2 in (fs_next f ≤ fs_next f' ≤ fs_next f + 1)%Z ∧ ∃ m' n', numbered m' n' f'.
Proof.
  intros Hnb Hn. cbv zeta. unfold report_fact_summary_with. destruct (an_agent_id names) as [agent_id|]; [|split; [cbn; lia|by exists m, n]].
  destruct (try (on_disk (fact_load_async (fact_report_path_for state_dir))) f) as [rl f1] eqn:El.
  pose proof El as Hl. unfold try in Hl. destruct (on_disk (fact_load_async _) f) as [r0 f0] eqn:E0. injection Hl as <- ->.
  apply on_disk_run in E0 as (w0 & E0 & ->). pose proof (fact_load_same (fact_report_path_for state_dir) (fs_world f)) as Hw. rewrite E0 in Hw. cbn in Hw. subst w0.
  erewrite bind_ok by exact El. clear El E0. set (f1 := mk_frames _ _). assert (Ef1 : f1 = f) by (by destruct f as [[[] ?] ?]). rewrite Ef1. clear f1 Ef1.
  destruct (now_keeps clock f) as [now_ms En]. erewrite bind_ok by exact En. set (skip := _ && _). destruct skip; [split; [cbn; lia|by exists m, n]|].
  destruct (now_keeps (λ w, rfc3339 (clock w)) f) as [at_ Ea]. unfold now_rfc3339. erewrite bind_ok by exact Ea.
  set (store := on_disk (write_json_atomic_async _ _)). destruct (store f) as [rs f2] eqn:Es. erewrite bind_ok by (apply try_run, Es).
  assert (Hk : keeps_numbers f f2).
  { pose proof (on_disk_keeps (write_json_atomic_async (fact_report_path_for state_dir) (mk_fact_report now_ms)) f) as Hk. fold store in Hk. rewrite Es in Hk. apply Hk.
    destruct (write_json_atomic_async _ _ (fs_world f)) as [rw w1] eqn:Ew.
    pose proof (write_json_respects (store_paths (fact_report_path_for state_dir)) (fact_report_path_for state_dir) (mk_fact_report now_ms) (λ q Hq, Hq) (fs_world f)) as Hr.
    rewrite Ew in Hr. apply (proj1 Hr). apply documents_apart; [apply seq_path_document|]. intros Hq. by apply fact_path_apart. }
  pose proof (numbered_keeps _ _ _ _ Hk Hnb) as Hnb2. pose proof (kn_next _ _ Hk) as Hn2.
  destruct (fact_to_vec _) as [body|e].
  2: { split; [change (fs_next f ≤ fs_next f2 ≤ fs_next f + 1)%Z; lia|by exists m, n]. }
  match goal with |- context [(?c f2).2] => destruct (c f2) as [r f3] eqn:E3 end.
  assert (Hsplit : ∃ r', (seq ← take_number; store_number state_dir;; hand_over FactFrame seq (write_fact (data_frame_new agent_id at_ seq) body)) f2 = (r', f3)).
  { change ((seq ← take_number; store_number state_dir;; hand_over FactFrame seq (write_fact (data_frame_new agent_id at_ seq) body);; mret true) f2 = (r, f3)) in E3.
    apply bind_inv in E3 as [(e & E & _)|(k & f4 & E4 & E3)]; [by rewrite take_number_run in E|].
    apply bind_inv in E3 as [(e & E & _)|(u & f5 & E5 & E3)]; [exists (Err e); erewrite bind_ok by exact E4; by erewrite bind_err by exact E|].
    apply bind_inv in E3 as [(e & E & _)|(u' & f6 & E6 & E3)].
    - exists (Err e). erewrite bind_ok by exact E4. erewrite bind_ok by exact E5. exact E.
    - injection E3 as _ <-. eexists. erewrite bind_ok by exact E4. erewrite bind_ok by exact E5. exact E6. }
  destruct Hsplit as [r' E4]. apply (one_frame_run m n) in E4 as [Hn4 Hex]; [|done|lia]. cbn [snd]. split; [lia|done].
Qed.
Lemma send_fact_state summary force f : (send_fact_summary names state_dir summary force f).2 = (report_fact_summary_with names state_dir summary force f).2.
Proof. unfold send_fact_summary. destruct (report_fact_summary_with _ _ _ _ f) as [r f1] eqn:E. by erewrite bind_ok by (apply try_run, E). Qed.

Lemma snapshot_run m n snapshot f : numbered m n f → (fs_next f < 2 ^ 64 - 1)%Z →
  let f' := (send_discovery_snapshot_report names state_dir snapshot f).2 in (fs_next f ≤ fs_next f' ≤ fs_next f + 1)%Z ∧ ∃ m' n', numbered m' n' f'.
Proof.
  intros Hnb Hn. cbv zeta. unfold send_discovery_snapshot_report.
  destruct snapshot as [snapshot|], (an_agent_id names) as [agent_id|] eqn:Ea; try (split; [change (fs_next f ≤ fs_next f ≤ fs_next f + 1)%Z; lia|by exists m, n]).
  destruct (report_discovery_snapshot names state_dir snapshot f) as [r f1] eqn:E. erewrite bind_ok by (apply try_run, E). cbn [snd mret M_ret].
  unfold report_discovery_snapshot in E. rewrite Ea in E. cbn [default] in E. unfold now_rfc3339 in E.
  destruct (now_keeps (λ w, rfc3339 (clock w)) f) as [at_ Et]. erewrite bind_ok in E by exact Et. destruct (now_keeps clock f) as [now_ms En]. erewrite bind_ok in E by exact En.
  destruct (discovery_to_vec _) as [body|e]; [|injection E as <- <-; split; [lia|by exists m, n]].
  apply (one_frame_run m n DiscoveryFrame (λ seq, write_discovery (data_frame_new agent_id at_ seq) body)) in E as [Hn1 Hex]; [|done|lia]. split; [lia|done].
Qed.
Lemma investigation_run m n at_ body f : numbered m n f → (fs_next f < 2 ^ 64 - 1)%Z →
  let f' := (send_investigation_frame names state_dir at_ body f).2 in (fs_next f ≤ fs_next f' ≤ fs_next f + 1)%Z ∧ ∃ m' n', numbered m' n' f'.
Proof.
  intros Hnb Hn. cbv zeta. unfold send_investigation_frame. destruct (an_agent_id names) as [agent_id|].
  2: { split; [change (fs_next f ≤ fs_next f ≤ fs_next f + 1)%Z; lia|by exists m, n]. }
  match goal with |- context [(?c f).2] => destruct (c f) as [r f1] eqn:E end.
  apply (one_frame_run m n InvestigationFrame (λ seq, write_investigation (data_frame_new agent_id at_ seq) body)) in E as [Hn1 Hex]; [|done|lia]. split; [cbn; lia|done].
Qed.

(** The start of a tick reads what the disk holds. *)
Lemma load_counter_run m n f : fs_fault OpRead (counter_path state_dir) = None → fs_fault OpMetadata (counter_path state_dir) = None → numbered m n f →
  let f' := (load_counter state_dir f).2 in fs_next f' = n ∧ numbered m n f'.
Proof.
  intros Hr Hm [Hf Hb Hl Hs]. cbv zeta. unfold load_counter.
  assert (Hload : ∃ r, log_seq_state.load_or_default_async (counter_path state_dir) (fs_world f) = (r, fs_world f) ∧ (match r with Ok k => k | Err _ => 0%Z end) = n).
  { unfold log_seq_state.load_or_default_async, load_or. destruct (fs_metadata (counter_path state_dir) (fs_world f)) as [rm w1] eqn:Em.
    assert (Hw1 : w1 = fs_world f ∧ rm = if fs_exists (counter_path state_dir) (fs_world f) then Ok tt else Err enoent).
    { unfold fs_metadata, guard_fault, act, mbind, M_bind in Em. rewrite Hm in Em. destruct (fs_exists _ _); by injection Em as <- <-. }
    destruct Hw1 as [-> ->]. erewrite bind_ok by (apply try_run, Em).
    destruct Hf as [[Hnone ->]|(text & Htext & Hjson)].
    - destruct (fs_exists _ _); [|by exists (Ok 0%Z)]. assert (He : read_json_async (A := LogSeqState) (counter_path state_dir) (fs_world f) = (Err enoent, fs_world f)).
      { unfold read_json_async, fs_read, guard_fault, act, mbind, M_bind. by rewrite Hr, Hnone. }
      exists (Err enoent). split; [|done]. by erewrite bind_err by exact He.
    - rewrite (fs_exists_lookup _ _ _ Htext). assert (He : read_json_async (A := LogSeqState) (counter_path state_dir) (fs_world f) = (Ok (mk_seq_state n), fs_world f)).
      { unfold read_json_async, fs_read, guard_fault, act, mbind, M_bind. by rewrite Hr, Htext, Hjson. }
      exists (Ok n). split; [|done]. by erewrite bind_ok by exact He. }
  destruct Hload as (r & E & Hrn).
  assert (E' : on_disk (log_seq_state.load_or_default_async (counter_path state_dir)) f = (r, f)).
  { unfold on_disk, on_frames, in_host, in_uplink, in_world, zoom. unfold fs_world in E. rewrite E. by destruct f as [[[] ?] ?]. }
  erewrite bind_ok by (apply try_run, E'). cbn. rewrite Hrn. split; [done|]. split; [exact Hf|unfold fs_next in *; cbn; lia|done|done].
Qed.

(** ** Any sequence of frames, ticks and restarts *)

Inductive FrameStep :=
| StartTick
| PassTime (ms : Z)
| SendMetrics (agent_id : string) (lines_ : list VmMetricLine)
| SendFacts (summary : FactSummaryDraft) (force : bool)
| SendSnapshot (snapshot : option DiscoverySnapshot)
| SendInvestigation (observed_at body : string).
Definition pass_time (ms : Z) f : Frames :=
  mk_frames (mk_input (mk_uplink (set_clock (clock (fs_world f) + ms) (fs_world f)) (sink (uplink (fs_input f)))) (fs_next f)) (fs_sent f).
Definition frame_step (step : FrameStep) f : Frames :=
  match step with
  | StartTick => (load_counter state_dir f).2
  | PassTime ms => pass_time ms f
  | SendMetrics agent_id lines_ => (write_metrics_uplink state_dir agent_id lines_ f).2
  | SendFacts summary force => (send_fact_summary names state_dir summary force f).2
  | SendSnapshot snapshot => (send_discovery_snapshot_report names state_dir snapshot f).2
  | SendInvestigation observed_at body => (send_investigation_frame names state_dir observed_at body f).2
  end.
Definition frames_run (steps : list FrameStep) f : Frames := foldl (λ f step, frame_step step f) f steps.
(** The numbers a step may take. *)
Definition step_numbers (step : FrameStep) : Z :=
  match step with StartTick | PassTime _ => 0 | SendMetrics _ lines_ => Z.of_nat (length lines_) | _ => 1 end.
Definition all_numbers (steps : list FrameStep) : Z := foldr (λ step k, step_numbers step + k)%Z 0%Z steps.

Lemma step_numbers_pos step : (0 ≤ step_numbers step)%Z.
Proof. destruct step; cbn; lia. Qed.
Lemma all_numbers_pos steps : (0 ≤ all_numbers steps)%Z.
Proof.
  induction steps as [|step steps IH]; [done|]. change (all_numbers (step :: steps)) with (step_numbers step + all_numbers steps)%Z.
  pose proof (step_numbers_pos step). lia.
Qed.
Lemma frame_step_run m n step f : fs_fault OpRead (counter_path state_dir) = None → fs_fault OpMetadata (counter_path state_dir) = None → numbered m n f →
  (fs_next f + step_numbers step < 2 ^ 64)%Z → (fs_next (frame_step step f) ≤ fs_next f + step_numbers step)%Z ∧ ∃ m' n', numbered m' n' (frame_step step f).
Proof.
  intros Hr Hm Hnb Hlen. pose proof (nb_bounds _ _ _ Hnb) as Hb. destruct step; cbn [step_numbers frame_step] in *.
  - destruct (load_counter_run m n f Hr Hm Hnb) as [Hn Hnb1]. split; [lia|by exists m, n].
  - destruct Hnb. split; [cbn; unfold fs_next; cbn; lia|]. exists m, n. by split.
  - destruct (metrics_uplink_run m n agent_id lines_ f Hnb) as [Hn Hex]; [lia|]. split; [lia|done].
  - rewrite send_fact_state. destruct (fact_summary_run m n summary force f Hnb) as [Hn Hex]; [lia|]. split; [lia|done].
  - destruct (snapshot_run m n snapshot f Hnb) as [Hn Hex]; [lia|]. split; [lia|done].
  - destruct (investigation_run m n observed_at body f Hnb) as [Hn Hex]; [lia|]. split; [lia|done].
Qed.
Lemma frames_run_numbered steps m n f : fs_fault OpRead (counter_path state_dir) = None → fs_fault OpMetadata (counter_path state_dir) = None → numbered m n f →
  (fs_next f + all_numbers steps < 2 ^ 64)%Z → ∃ m' n', numbered m' n' (frames_run steps f).
Proof.
  intros Hr Hm. revert m n f. induction steps as [|step steps IH]; intros m n f Hnb Hlen; [by exists m, n|]. change (all_numbers (step :: steps)) with (step_numbers step + all_numbers steps)%Z in Hlen.
  pose proof (all_numbers_pos steps). destruct (frame_step_run m n step f Hr Hm Hnb) as [Hn (m1 & n1 & Hnb1)]; [lia|].
  apply (IH m1 n1); [exact Hnb1|lia].
Qed.

(** ** The pace of the fact reports *)

Definition fact_times f : list Z := se_at <$> filter (λ s, se_kind s = FactFrame) (fs_sent f).
(** What the disk tells of the last attempt. *)
Definition last_attempt w : option Z :=
  text ← files w !! fact_report_path_for state_dir;
  match from_json (A := FactReportState) text with Ok state => Some (fa_last_attempt_at_ms state) | Err _ => None end.

(** Steps that have nothing to do with the fact reports. *)
Record spares_facts f f' : Prop := mk_spares_facts {
  sp_file : files (fs_world f') !! fact_report_path_for state_dir = files (fs_world f) !! fact_report_path_for state_dir;
  sp_times : fact_times f' = fact_times f;
  sp_clock : clock (fs_world f') = clock (fs_world f);
}.
#[export] Instance spares_facts_preorder : PreOrder spares_facts.
Proof. split; [by split|]. intros a b c [] []. split; congruence. Qed.
Lemma spares_frames {A} (c : M Input A) : (∀ i, uplink (c i).2 = uplink i) → respects spares_facts (on_frames c).
Proof.
  intros Hc f. destruct (on_frames c f) as [r f'] eqn:E. apply on_frames_run in E as (i & E & ->). specialize (Hc (fs_input f)). rewrite E in Hc. cbn in Hc.
  split; [|done|]; unfold fs_world; cbn [snd fs_input]; by rewrite Hc.
Qed.
Lemma spares_disk {A} (c : M World A) F : ¬ F (fact_report_path_for state_dir) → respects (only_files F) c → respects spares_facts (on_disk c).
Proof.
  intros HF Hc f. destruct (on_disk c f) as [r f'] eqn:E. apply on_disk_run in E as (w & E & ->). specialize (Hc (fs_world f)). rewrite E in Hc.
  destruct Hc as (Hf & _ & Hk & _). split; cbn; [by apply Hf|done|done].
Qed.
Lemma spares_gets {A} (g : World → A) : respects spares_facts (on_disk (gets g)).
Proof. intros f. destruct (now_keeps g f) as [a E]. rewrite E. done. Qed.
Lemma spares_number : respects spares_facts take_number.
Proof. apply spares_frames. by intros []. Qed.
Lemma seq_not_fact : ¬ store_paths (counter_path state_dir) (fact_report_path_for state_dir).
Proof. apply documents_apart; [apply fact_path_document|apply fact_path_apart]. Qed.
Lemma spares_store : respects spares_facts (store_number state_dir).
Proof.
  apply respects_bind; [apply _|apply spares_frames; by intros []|intros n]. apply (spares_disk _ _ seq_not_fact). by apply write_json_respects.
Qed.
Lemma spares_hand_over kind k (c : M SinkState unit) : kind ≠ FactFrame → respects spares_facts (hand_over kind k c).
Proof.
  intros Hk f. unfold hand_over. rewrite modify_then. destruct (on_frames (in_uplink (in_sink c)) _) as [r f'] eqn:E. apply on_frames_run in E as (i & E & ->).
  apply in_uplink_run in E as (u & E & ->). unfold in_sink, zoom in E. destruct (c _) as [r0 s0]. injection E as <- <-. split; [done| |done].
  unfold fact_times. cbn. rewrite filter_app, filter_cons, decide_False by done. by rewrite List.app_nil_r.
Qed.
#[local] Hint Resolve spares_gets spares_number spares_store spares_hand_over : core.
Lemma spares_one kind (c : Z → M SinkState unit) : kind ≠ FactFrame → respects spares_facts (seq ← take_number; store_number state_dir;; hand_over kind seq (c seq)).
Proof. intros Hk. apply respects_bind; [apply _|done|intros n]. apply respects_bind; [apply _|done|intros _]. by apply spares_hand_over. Qed.
Lemma spares_metrics agent_id lines : respects spares_facts (write_metrics_uplink state_dir agent_id lines).
Proof.
  assert (Ht : ∀ ls, respects spares_facts (take_numbers ls)).
  { intros ls. induction ls as [|l ls IH]; [by apply respects_ret, _|]. apply respects_bind; [apply _|done|intros n]. apply respects_bind; [apply _|done|intros]. by apply respects_ret, _. }
  assert (Hw : ∀ at_ frames, respects spares_facts (write_metric_lines agent_id at_ frames)).
  { intros at_ frames. induction frames as [|[k l] frames IH]; [by apply respects_ret, _|]. apply respects_bind; [apply _|by apply spares_hand_over|done]. }
  unfold write_metrics_uplink. destruct lines as [|l ls]; [by apply respects_ret, _|]. apply respects_bind; [apply _|apply spares_gets|intros at_].
  apply respects_bind; [apply _|apply Ht|intros frames]. apply respects_bind; [apply _|done|intros _]. apply Hw.
Qed.
Lemma spares_start : respects spares_facts (load_counter state_dir).
Proof.
  unfold load_counter. apply respects_bind; [apply _|apply respects_try, (spares_disk _ (λ _, False)); [tauto|]|intros r; apply spares_frames; by intros []].
  apply load_or_respects; [apply _|by apply respects_ret, _].
Qed.

(** The document of the attempts can be read and stored, whatever else fails. *)
Record attempts_stored : Prop := mk_attempts_stored {
  as_read : fs_fault OpRead (fact_report_path_for state_dir) = None;
  as_store : ∀ (state : FactReportState) w, (write_json_atomic_async (fact_report_path_for state_dir) state w).1 = Ok tt;
}.
(** The disk tells the last attempt, which is no earlier than any summary that was sent. *)
Record facts_known f : Prop := mk_facts_known {
  fk_clock : (1 ≤ clock (fs_world f))%Z;
  fk_last : ∀ l, last_attempt (fs_world f) = Some l → (1 ≤ l ≤ clock (fs_world f))%Z;
  fk_sent : ∀ a, a ∈ fact_times f → ∃ l, last_attempt (fs_world f) = Some l ∧ (a ≤ l)%Z;
}.
Lemma spares_known f f' : spares_facts f f' → facts_known f → facts_known f'.
Proof. intros [Hf Ht Hk] []. split; unfold last_attempt in *; by rewrite ?Hf, ?Ht, ?Hk. Qed.

Lemma within_due now l : (1 ≤ l ≤ now)%Z → within_fact_report_min_interval l now = negb (fetch_due FACT_REPORT_MIN_INTERVAL_MS now (Some l)).
Proof.
  intros Hl. unfold within_fact_report_min_interval, fetch_due. destruct (Z.eqb_spec l 0); [lia|]. destruct (Z.leb_spec l now); [|lia]. cbn [negb andb].
  rewrite negb_involutive. unfold i64_saturating_sub, FACT_REPORT_MIN_INTERVAL_MS. destruct (Z.ltb_spec (now - l) 300000), (Z.ltb_spec (Z.max (- 2 ^ 63) (Z.min (2 ^ 63 - 1) (now - l))) 300000); lia.
Qed.

Lemma fact_load_run f : fs_fault OpRead (fact_report_path_for state_dir) = None →
  ∃ previous, try (on_disk (fact_load_async (fact_report_path_for state_dir))) f = (Ok previous, f) ∧
    (match previous with Ok state => fa_last_attempt_at_ms <$> state | Err _ => None end) = last_attempt (fs_world f).
Proof.
  intros Hrd. assert (Hr : ∃ r, fact_load_async (fact_report_path_for state_dir) (fs_world f) = (r, fs_world f) ∧
    (match r with Ok state => fa_last_attempt_at_ms <$> state | Err _ => None end) = last_attempt (fs_world f)).
  { unfold fact_load_async, last_attempt. destruct (files (fs_world f) !! fact_report_path_for state_dir) as [text|] eqn:Et.
    - assert (He : read_json_async (A := FactReportState) (fact_report_path_for state_dir) (fs_world f) = (from_json text, fs_world f)).
      { unfold read_json_async, fs_read, guard_fault, act, mbind, M_bind. by rewrite Hrd, Et. }
      erewrite bind_ok by (apply try_run, He). cbn. destruct (from_json text) as [st|e]; [by eexists|]. destruct (decide _); by eexists.
    - assert (He : read_json_async (A := FactReportState) (fact_report_path_for state_dir) (fs_world f) = (Err enoent, fs_world f)).
      { unfold read_json_async, fs_read, guard_fault, act, mbind, M_bind. by rewrite Hrd, Et. }
      erewrite bind_ok by (apply try_run, He). by eexists. }
  destruct Hr as (r & Er & Hq). exists r. split; [|done]. apply try_run. unfold on_disk, on_frames, in_host, in_uplink, in_world, zoom. unfold fs_world in Er. rewrite Er.
  by destruct f as [[[] ?] ?].
Qed.

(** One report: what it leaves on disk, and when it sends. *)
Record reported force f f' : Prop := mk_reported {
  rp_known : facts_known f';
  rp_clock : clock (fs_world f') = clock (fs_world f);
  rp_times : fact_times f' = fact_times f ∨ fact_times f' = (fact_times f ++ [clock (fs_world f)])%list ∧
    (force = false → ∀ l, last_attempt (fs_world f) = Some l → (l + FACT_REPORT_MIN_INTERVAL_MS ≤ clock (fs_world f))%Z);
  rp_told : is_some (an_agent_id names) = true → ∃ l, last_attempt (fs_world f') = Some l ∧
    (l ≤ clock (fs_world f) < l + FACT_REPORT_MIN_INTERVAL_MS)%Z;
}.

(** Handing a summary over, once its attempt is on disk. *)
Lemma fact_handed_over (c : Z → M SinkState unit) f r f' :
  (seq ← take_number; store_number state_dir;; hand_over FactFrame seq (c seq)) f = (r, f') →
  files (fs_world f') !! fact_report_path_for state_dir = files (fs_world f) !! fact_report_path_for state_dir ∧ clock (fs_world f') = clock (fs_world f) ∧
  (fact_times f' = fact_times f ∨ fact_times f' = (fact_times f ++ [clock (fs_world f)])%list).
Proof.
  pose proof (spares_number f) as Hs3. rewrite take_number_run in Hs3. cbn [snd] in Hs3. erewrite bind_ok by apply take_number_run.
  set (f3 := mk_frames _ _) in *. destruct (store_number state_dir f3) as [r4 f4] eqn:E4. pose proof (spares_store f3) as Hs4. rewrite E4 in Hs4. cbn [snd] in Hs4.
  assert (Hs : spares_facts f f4) by (by etrans). destruct Hs as [Hf4 Ht4 Hk4]. destruct r4 as [[]|e]; [|erewrite bind_err by exact E4; intros [= <- <-]; auto].
  erewrite bind_ok by exact E4. unfold hand_over. rewrite modify_then. intros (i & E & ->)%on_frames_run.
  apply in_uplink_run in E as (u & E & ->). unfold in_sink, zoom in E. destruct (c _ _) as [r0 s0]. injection E as <- <-.
  split; [exact Hf4|]. split; [exact Hk4|]. right. unfold fact_times at 1. cbn [fs_sent]. rewrite filter_app, fmap_app, filter_cons, decide_True by done.
  change (se_at <$> filter _ (fs_sent f4)) with (fact_times f4). cbn. change (clock (world (uplink (fs_input f4)))) with (clock (fs_world f4)). by rewrite Ht4, Hk4.
Qed.

(** The attempt on disk. *)
Definition attempt_noted f : Frames :=
  (try (on_disk (write_json_atomic_async (fact_report_path_for state_dir) (mk_fact_report (clock (fs_world f))))) f).2.
Lemma attempt_noted_run f : attempts_stored →
  try (on_disk (write_json_atomic_async (fact_report_path_for state_dir) (mk_fact_report (clock (fs_world f))))) f = (Ok (Ok tt), attempt_noted f) ∧
  last_attempt (fs_world (attempt_noted f)) = Some (clock (fs_world f)) ∧ clock (fs_world (attempt_noted f)) = clock (fs_world f) ∧
  fact_times (attempt_noted f) = fact_times f.
Proof.
  intros [_ Hst]. unfold attempt_noted. set (store := write_json_atomic_async _ _). destruct (store (fs_world f)) as [rw w] eqn:Ew.
  pose proof (Hst (mk_fact_report (clock (fs_world f))) (fs_world f)) as Hok. fold store in Hok. rewrite Ew in Hok. cbn in Hok. subst rw.
  assert (E : on_disk store f = (Ok tt, mk_frames (mk_input (mk_uplink w (sink (uplink (fs_input f)))) (fs_next f)) (fs_sent f))).
  { unfold on_disk, on_frames, in_host, in_uplink, in_world, zoom. unfold fs_world in Ew. rewrite Ew. reflexivity. }
  pose proof (try_run _ _ _ _ E) as E'. rewrite E'. cbn [snd]. split; [done|]. apply write_json_ok in Ew as ->. split; [|done].
  unfold last_attempt, fs_world. cbn [fs_input uplink world]. rewrite wrote_lookup. unfold mbind, option_bind. by rewrite from_to_json.
Qed.

Lemma fact_summary_reported summary force f : attempts_stored → facts_known f →
  reported force f (report_fact_summary_with names state_dir summary force f).2.
Proof.
  intros Hst Hkn. pose proof Hkn as [Hclock Hlast Hsent]. unfold report_fact_summary_with.
  destruct (an_agent_id names) as [agent_id|] eqn:Eid; [|split; [done|done|by left|rewrite Eid; discriminate]].
  set (now := clock (fs_world f)) in *. destruct (fact_load_run f (as_read Hst)) as (previous & El & Hprev). erewrite bind_ok by exact El.
  assert (En : on_disk (gets clock) f = (Ok now, f)) by (unfold now; by destruct f as [[[] ?] ?]). erewrite bind_ok by exact En.
  assert (Hskip : (match match previous with Ok state => state | Err _ => None end with Some state => within_fact_report_min_interval (fa_last_attempt_at_ms state) now | None => false end) =
    negb (fetch_due FACT_REPORT_MIN_INTERVAL_MS now (last_attempt (fs_world f)))).
  { rewrite <- Hprev. rewrite <- Hprev in Hlast. destruct previous as [[st|]|e]; cbn; [|done|done]. by apply (within_due now), Hlast. }
  rewrite Hskip. destruct (negb force && _) eqn:Ed.
  { apply andb_true_iff in Ed as [_ Ed%negb_true_iff]. split; [done|done|by left|intros _]. unfold fetch_due in Ed. cbn [snd].
    destruct (last_attempt (fs_world f)) as [l|] eqn:Ea; [|done]. exists l. specialize (Hlast l eq_refl). apply negb_false_iff, Z.ltb_lt in Ed. split; [done|]. fold now. lia. }
  assert (Hdue : force = false → ∀ l, last_attempt (fs_world f) = Some l → (l + FACT_REPORT_MIN_INTERVAL_MS ≤ now)%Z).
  { intros -> l Hl. cbn [negb andb] in Ed. rewrite Hl in Ed. unfold fetch_due in Ed. apply negb_false_iff, negb_true_iff, Z.ltb_ge in Ed. lia. }
  destruct (now_keeps (λ w, rfc3339 (clock w)) f) as [at_ Ea]. unfold now_rfc3339. erewrite bind_ok by exact Ea.
  destruct (attempt_noted_run f Hst) as (Es & Hl2 & Hc2 & Ht2). fold now in Es, Hl2, Hc2. erewrite bind_ok by exact Es.
  set (f2 := attempt_noted f) in *. assert (Hfin : ∀ f', files (fs_world f') !! fact_report_path_for state_dir = files (fs_world f2) !! fact_report_path_for state_dir →
    clock (fs_world f') = now → fact_times f' = fact_times f ∨ fact_times f' = (fact_times f ++ [now])%list → reported force f f').
  { intros f' Hf' Hc' Ht'. assert (Hl' : last_attempt (fs_world f') = Some now) by (rewrite <- Hl2; unfold last_attempt; by rewrite Hf').
    split; [split| |destruct Ht'; auto|intros _; exists now; split; [done|unfold FACT_REPORT_MIN_INTERVAL_MS; fold now; lia]].
    - by rewrite Hc'.
    - intros l. rewrite Hl', Hc'. intros [= <-]. lia.
    - intros a Ha'. exists now. split; [done|]. destruct Ht' as [Ht'|Ht']; rewrite Ht' in Ha'; [|apply elem_of_app in Ha' as [Ha'|Ha'%list_elem_of_singleton]; [|subst a; lia]];
        destruct (Hsent a Ha') as (l & Hl & Hle); specialize (Hlast l Hl); lia.
    - done. }
  clearbody f2. destruct (fact_to_vec _) as [body|e]; [|apply Hfin; [done|done|by left]]. erewrite (bind_ok (of_result (Ok body))) by done.
  match goal with |- reported _ _ (?c f2).2 => destruct (c f2) as [r f3] eqn:E3 end. cbn [snd].
  destruct ((seq ← take_number; store_number state_dir;; hand_over FactFrame seq (write_fact (data_frame_new agent_id at_ seq) body)) f2) as [r' f4] eqn:E4.
  assert (f3 = f4) as ->.
  { apply bind_inv in E3 as [(e & E & _)|(k & f5 & E5 & E3)]; [by rewrite take_number_run in E|]. erewrite bind_ok in E4 by exact E5.
    apply bind_inv in E3 as [(e & E & ->)|(u & f6 & E6 & E3)]; [erewrite bind_err in E4 by exact E; by injection E4|]. erewrite bind_ok in E4 by exact E6.
    apply bind_inv in E3 as [(e & E & ->)|(u' & f7 & E7 & E3)]; [rewrite E in E4; by injection E4|]. rewrite E7 in E4. injection E3 as _ <-. by injection E4. }
  destruct (fact_handed_over _ _ _ _ E4) as (Hf4 & Hk4 & Ht4). rewrite Hc2 in *. apply Hfin; [done|done|]. by rewrite Ht2 in Ht4.
Qed.

Lemma frame_step_known step f : attempts_stored → (match step with PassTime ms => (0 ≤ ms)%Z | _ => True end) →
  facts_known f → facts_known (frame_step step f).
Proof.
  intros Hst Hok Hp. destruct step as [|ms|agent_id ls|summary force|snapshot|at_ body]; cbn [frame_step].
  - exact (spares_known _ _ (spares_start f) Hp).
  - destruct Hp as [Hclock Hlast Hsent]. split; [|intros l Hl; specialize (Hlast l Hl)|done]; change (clock (fs_world (pass_time ms f))) with (clock (fs_world f) + ms)%Z; lia.
  - exact (spares_known _ _ (spares_metrics agent_id ls f) Hp).
  - rewrite send_fact_state. by apply (fact_summary_reported summary force).
  - eapply spares_known; [|exact Hp]. unfold send_discovery_snapshot_report. destruct snapshot, (an_agent_id names); [|done..].
    match goal with |- spares_facts f (?c f).2 => assert (Hc : respects spares_facts c) end; [|apply Hc].
    apply respects_bind; [apply _|apply respects_try|intros _; by apply respects_ret, _]. unfold report_discovery_snapshot.
    apply respects_bind; [apply _|apply spares_gets|intros at_]. apply respects_bind; [apply _|done|intros ms]. apply respects_bind; [apply _|by apply respects_of_result, _|intros body]. by apply spares_one.
  - eapply spares_known; [|exact Hp]. unfold send_investigation_frame. destruct (an_agent_id names); [|done]. by apply spares_one.
Qed.

(** C39. The fact summary is paced.  After any run of ticks, restarts and frames, with reports that were forced
    among them and whatever else fails: a report that is not forced sends a summary only if the last attempt that
    the disk tells of, the one an earlier process left included, and every summary sent in the run, forced ones
    too, are at least five minutes ago.  A report of either kind that sends, fails or is skipped leaves the disk
    telling of an attempt within the last five minutes, so that a failing one is not repeated in every tick.
    This needs the document of the attempts to be read and stored, and a clock that is not set back. *)
Theorem fact_reports_paced steps summary force f : attempts_stored →
  fs_sent f = [] → (1 ≤ clock (fs_world f))%Z → (∀ l, last_attempt (fs_world f) = Some l → (1 ≤ l ≤ clock (fs_world f))%Z) →
  Forall (λ step, match step with PassTime ms => (0 ≤ ms)%Z | _ => True end) steps →
  let f1 := frames_run steps f in let now := clock (fs_world f1) in
  let f2 := frame_step (SendFacts summary force) f1 in
  (fact_times f2 = fact_times f1 ∨
   fact_times f2 = (fact_times f1 ++ [now])%list ∧
   (force = false → ∀ a, a ∈ fact_times f1 ∨ last_attempt (fs_world f1) = Some a → (a + FACT_REPORT_MIN_INTERVAL_MS ≤ now)%Z)) ∧
  (is_some (an_agent_id names) = true →
    ∃ l, last_attempt (fs_world f2) = Some l ∧ (l ≤ now < l + FACT_REPORT_MIN_INTERVAL_MS)%Z).
Proof.
  intros Hst Hs Hc Hl Hok. assert (Hp : facts_known f) by (split; [done|done|]; unfold fact_times; rewrite Hs; by intros a ?%elem_of_nil).
  clear Hs Hc Hl. assert (Hp1 : facts_known (frames_run steps f)).
  { revert f Hp. induction Hok as [|step steps Hstep Hok IH]; intros f Hp; [exact Hp|]. by apply IH, frame_step_known. }
  cbv zeta. revert Hp1. generalize (frames_run steps f) as f1. intros f1 Hp1. cbn [frame_step]. rewrite send_fact_state.
  destruct (fact_summary_reported summary force f1 Hst Hp1) as [_ _ Ht Hn]. split; [|exact Hn].
  destruct Ht as [Ht|[Ht Hd]]; [by left|right; split; [done|]]. intros Hf a [Ha|Ha]; [|by apply Hd].
  destruct (fk_sent _ Hp1 a Ha) as (l & Hl & Hle). specialize (Hd Hf l Hl). lia.
Qed.

(** C10. No number is used twice: whatever frames are handed to the sink, in any ticks, whichever stores, writes
    and conversions fail, and wherever the agent is restarted in between, their numbers increase, and the disk
    holds a larger one, from which the next start goes on.  This needs the file of the counter to be looked up and
    read and to hold a number not above the next one, and fewer than 2^64 numbers to be taken. *)
Theorem numbers_never_reused steps n f : fs_fault OpRead (counter_path state_dir) = None → fs_fault OpMetadata (counter_path state_dir) = None →
  fs_sent f = [] → on_file n (fs_world f) → (0 ≤ n ≤ fs_next f)%Z → (fs_next f + all_numbers steps < 2 ^ 64)%Z →
  let f' := frames_run steps f in
  StronglySorted Z.lt (se_number <$> fs_sent f') ∧ ∃ n', on_file n' (fs_world f') ∧ Forall (λ s, (se_number s < n')%Z) (fs_sent f').
Proof.
  intros Hr Hm Hs Hf Hb Hlen. destruct (frames_run_numbered steps 0 n f Hr Hm) as (m' & n' & [Hf' Hb' Hl' Hs']); [|done|].
  { split; [done|lia|by rewrite Hs|rewrite Hs; constructor]. }
  split; [exact Hs'|]. exists n'. split; [exact Hf'|]. eapply Forall_impl; [exact Hl'|]. cbn. intros. lia.
Qed.
End Numbers.

(** * Concrete frames *)

Module ConcreteFrames.
Import ConcreteFiles ConcreteSink ConcreteInput ConcreteMetrics ConcreteFacts ConcreteWire.

#[export] Instance selection_eq_dec : EqDecision (btree string).
Proof. unfold btree. apply _. Defined.
#[export] Instance selection_countable : Countable (btree string).
Proof. unfold btree. apply _. Defined.
#[export] Instance VmMetricLabels_eq_dec : EqDecision VmMetricLabels.
Proof. solve_decision. Defined.
#[export] Instance VmMetricLine_eq_dec : EqDecision (@VmMetricLine toy_floats).
Proof. intros [a b c] [d e f]. refine (cast_if (decide ((a, (b : list Z), c) = (d, (e : list Z), f)))); abstract congruence. Defined.
#[export] Instance FactReportState_eq_dec : EqDecision FactReportState.
Proof. solve_decision. Defined.
#[export] Instance VmMetricLabels_countable : Countable VmMetricLabels.
Proof.
  refine (inj_countable' (λ l, ((vm_name l, vm_agent l, vm_instance l, vm_disk_role l, vm_mountpoint l),
    (vm_fstype l, vm_device l, vm_cpu l, vm_mode l), (vm_state l, vm_target_kind l, vm_outcome l, vm_selection l)))
    (λ '((a, b, c, d, e), (f, g, h, i), (j, k, l, m)), mk_vm_labels a b c d e f g h i j k l m) _).
  abstract (by intros []).
Defined.
#[export] Instance VmMetricLine_countable : Countable (@VmMetricLine toy_floats).
Proof.
  refine (inj_countable' (λ l, (vl_metric l, (vl_values l : list Z), vl_timestamps l)) (λ '(a, b, c), @mk_vm_line toy_floats a b c) _).
  abstract (by intros []).
Defined.
#[export] Instance FactReportState_countable : Countable FactReportState.
Proof. refine (inj_countable' fa_last_attempt_at_ms mk_fact_report _). abstract (by intros []). Defined.
#[export] Instance line_json : Json (@VmMetricLine toy_floats) := toy_json.
#[export] Instance report_state_json : Json FactReportState := toy_json.

(** A sink that takes every frame while the other end is reachable. *)
#[export] Instance toy_frame_sink : FrameSink := {|
  carries_fact _ := true;
  carries_discovery _ := true;
  carries_investigation _ := true;
  write_metrics _ _ _ _ s := write_records [] s;
  write_fact _ _ s := write_records [] s;
  write_discovery _ _ s := write_records [] s;
  write_investigation _ _ s := write_records [] s;
|}.
#[export] Instance toy_frame_sink_laws : FrameSinkLaws.
Proof. split; intros; destruct s as [l []]; cbn; by rewrite ?List.app_nil_r. Qed.

(** A report without executables cannot be written. *)
#[export] Instance toy_reports : ReportContracts := {|
  AgentFactReport := list string;
  new_agent_facts report_id agent_id _ digest _ _ _ _ _ executables _ _ _ := report_id :: agent_id :: digest :: executables;
  with_probe_paths _ _ r := r;
  with_display _ _ _ r := r;
  fact_to_vec r := if decide (3 < length r) then Ok (Text.join "," r) else Err (io_other "empty");
  DiscoveryReport := string;
  full_snapshot_report report_id _ _ _ _ _ := report_id;
  discovery_to_vec r := Ok r;
  display_error := io_msg;
|}.

Definition toy_names : AgentNames := mk_names (Some "agent-1") None.
Definition toy_summary : FactSummaryDraft := mk_draft 0 "t" "linux" "x86_64" 1 ["init"] [] [] [] [] "h" "h" [].
Definition bare_summary : FactSummaryDraft := mk_draft 0 "t" "linux" "x86_64" 0 [] [] [] [] [] "h" "h" [].
Definition first_boot : Frames := mk_frames (mk_input (mk_uplink (MkWorld _ ∅ ∅ 1000 ∅) ([], true)) 0) [].
Definition two_lines : list (@VmMetricLine toy_floats) :=
  let line := @mk_vm_line toy_floats (mk_vm_labels "cpu" "agent-1" "i" None None None None None None None None None []) ([1%Z] : list Z) [5000%Z] in [line; line].
(** Three ticks; the second one's facts come too early, and the one before could not be written. *)
Definition three_ticks : list (@FrameStep toy_floats) :=
  [StartTick; SendMetrics "agent-1" two_lines; SendFacts bare_summary false; PassTime 60000;
   StartTick; SendFacts toy_summary false; SendInvestigation "t" "report"; PassTime 300000;
   StartTick; SendFacts toy_summary false; SendMetrics "agent-1" two_lines].
Definition three_ticks_run : Frames := frames_run toy_names "st" three_ticks first_boot.

Lemma numbers_never_reused_witness :
  (se_kind <$> fs_sent three_ticks_run) = [MetricsFrame; MetricsFrame; InvestigationFrame; FactFrame; MetricsFrame; MetricsFrame] ∧
  StronglySorted Z.lt (se_number <$> fs_sent three_ticks_run) ∧
  ∃ n, on_file "st" n (fs_world three_ticks_run) ∧ Forall (λ s, (se_number s < n)%Z) (fs_sent three_ticks_run).
Proof.
  split; [by vm_compute|]. apply (numbers_never_reused toy_names "st" three_ticks 0 first_boot).
  - done.
  - done.
  - done.
  - by left.
  - vm_compute. done.
  - by vm_compute.
Defined.
(** A forced report right after the second one; the next one that is not forced has to wait for five minutes from there. *)
Lemma fact_reports_paced_witness :
  let steps := three_ticks ++ [PassTime 1000; SendFacts toy_summary true; PassTime 299999; SendFacts toy_summary false; PassTime 1] in
  let f1 := frames_run toy_names "st" steps first_boot in
  let f2 := frame_step toy_names "st" (SendFacts toy_summary false) f1 in
  fact_times f1 = [361000; 362000]%Z ∧ fact_times f2 = [361000; 362000; 662000]%Z ∧
  (∀ a, a ∈ fact_times f1 → a + FACT_REPORT_MIN_INTERVAL_MS ≤ 662000)%Z.
Proof.
  cbv zeta. set (steps := three_ticks ++ _).
  assert (Hst : attempts_stored "st") by (split; [done|intros state w; by rewrite write_json_ff by (by intros [] p)]).
  pose proof (fact_reports_paced toy_names "st" steps toy_summary false first_boot Hst eq_refl ltac:(by vm_compute) ltac:(discriminate)
    ltac:(repeat constructor; by vm_compute)) as [Hp _].
  assert (H1 : fact_times (frames_run toy_names "st" steps first_boot) = [361000; 362000]%Z) by by vm_compute.
  assert (H2 : fact_times (frame_step toy_names "st" (SendFacts toy_summary false) (frames_run toy_names "st" steps first_boot)) =
    [361000; 362000; 662000]%Z) by by vm_compute.
  assert (H3 : clock (fs_world (frames_run toy_names "st" steps first_boot)) = 662000%Z) by by vm_compute.
  split; [exact H1|]. split; [exact H2|]. rewrite H1, H2, H3 in Hp. destruct Hp as [Hp|[_ Hp]]; [discriminate Hp|].
  intros a Ha. rewrite H1 in Ha. apply (Hp eq_refl a). by left.
Defined.

(** The file of the counter is damaged: the next tick starts over from 0, and hands numbers out again. *)
Definition damage (f : Frames) : Frames :=
  mk_frames (mk_input (mk_uplink (set_files (<[counter_path "st" := "{"]> (files (fs_world f))) (fs_world f)) (sink (uplink (fs_input f)))) (fs_next f)) (fs_sent f).
Example damaged_counter_starts_over :
  se_number <$> fs_sent (frames_run toy_names "st" [StartTick; SendMetrics "agent-1" two_lines] (damage three_ticks_run)) =
    [0; 1; 2; 3; 4; 5; 0; 1]%Z.
Proof. by vm_compute. Qed.

(** The file input delivers before it stores the counter. The store fails here, and the metrics of the next
    tick go out under the numbers of the two records delivered. *)
Definition no_counter : Host := faulty (λ op p, String.eqb p (path_with_extension (counter_path "st") "tmp")).
Definition counterless_meta : @FileMeta _ no_counter :=
  @Build_FileMeta _ no_counter (@meta_dev _ _ toy_meta) (@meta_ino _ _ toy_meta) (@canonicalize _ _ toy_meta) (@fill_sizes _ _ toy_meta).
Definition counterless_spool : @SpoolEnv _ no_counter := @Build_SpoolEnv _ no_counter (@ensure_parent_async _ no_counter) (λ n, n).
Definition counted_start : Input :=
  let i := toy_start ("a" +:+ nl +:+ "b" +:+ nl) true in
  mk_input (mk_uplink (set_files (<[counter_path "st" := to_json (mk_seq_state 7) +:+ nl]> (files (world (uplink i)))) (world (uplink i))) (sink (uplink i))) 7.
Definition delivered_first : result ProcessOutcome * Input := @process_once_async _ no_counter counterless_meta counterless_spool _ _ _ _ _ toy_config counted_start.
Example log_numbers_come_back :
  is_ok delivered_first.1 = false ∧
  (λ r : toy_record, r.1.2.2) <$> (accepted (sink (uplink delivered_first.2)) : list toy_record) = [7; 8]%Z ∧
  se_number <$> fs_sent (frames_run toy_names "st" [StartTick; SendMetrics "agent-1" two_lines] (mk_frames delivered_first.2 [])) = [7; 8]%Z.
Proof. by vm_compute. Qed.
End ConcreteFrames.
