(* ===== verification/Tick.v ===== *)
(** The telemetry part of a tick (run_once_with_failure_cache of runtime/daemon.rs): the output in effect is
    built, metrics, facts and the discovery snapshot go out, then the log inputs and the exporters are worked
    off, the log sources are reported if the facts were, and what is told of all that is compared with the tick
    before. *)
From stdpp Require Import pretty.
From S2P Require Import Search Sources Commands Prelude Text Host Fmt Telemetry Reader LogToy Records Delivery Checkpoint Select FileInput Family BTree Work Policies Discovery Facts Planner Wire Exporters Metrics Throttle Inputs Health Frames.

(** The world, the sink, the counter and the frames; the readings of the monotonic clock and the passes over
    inputs; the programs, and the runs attempted; the reports of log sources that were posted. *)
Record Telemetry `{Os} `{RecordSink} `{Programs} := mk_telemetry {
  te_frames : Frames;
  te_read : nat;
  te_starts : list (string * nat);
  te_programs : ProgramState;
  te_attempts : list (string * (Z * Z));
  te_posted : list (string * LogSourceReport);
}.
Arguments mk_telemetry {_ _ _ _} _ _ _ _ _ _.
(** What run_once remembers of the tick before: the failures told, the paused inputs, and whether the output fails. *)
Record TickMemory := mk_memory { tm_failures : gset string; tm_paused : gset string; tm_failing : bool }.
(** What is told at the end of a tick: new failures, changes of work states, the line of a recovery, and what
    became of the report of the log sources, if there was to be one. *)
Record TickNews := mk_news { tn_failures : list TelemetryFailure; tn_changes : list TelemetryWorkState; tn_recovered : option string;
  tn_sources : option (string + nat) }.

Section TelemetryPart.
Context `{Host} `{!FileMeta} `{!SpoolEnv} `{LogContracts} `{!ContainerLookup} `{!LogCodecs} `{!RecordSink} `{!FilterContracts} `{!GlobSet}
  `{!WorkContracts} `{!UnicodeTables} `{!PolicyApi} `{!WireContracts} `{!FrameSink} `{!ReportContracts} `{!FactContracts} `{!Json FactReportState}
  `{!Float64} `{!MetricTable} `{!Json VmMetricLine} `{Programs} `{JsonValues} `{ExporterContracts} `{ExporterCodec}
  `{Tree} `{ProcFs} `{!Json SourceSearchPolicy} `{SourcesGateway}.
(** [Instant::now], and the construction of the sink of an output ([from_logs_output]). *)
Variables (readings : nat → Z) (make_sink : LogsOutputSection → option TcpFraming → M SinkState unit).
Variables (names : AgentNames) (config : TickConfig) (sources : SourcesConfig).
Implicit Types (t : Telemetry).

Definition in_frames {A} (m : M Frames A) : M Telemetry A :=
  zoom te_frames (λ f t, mk_telemetry f (te_read t) (te_starts t) (te_programs t) (te_attempts t) (te_posted t)) m.
Definition collect_of t : Collect := mk_collect (fs_input (te_frames t)) (te_read t) (te_starts t).
Definition in_collect {A} (m : M Collect A) : M Telemetry A :=
  zoom collect_of (λ c t, mk_telemetry (mk_frames (co_input c) (fs_sent (te_frames t))) (co_read c) (co_starts c) (te_programs t) (te_attempts t) (te_posted t)) m.
Definition export_of t : Export :=
  mk_export (world (uplink (fs_input (te_frames t)))) (sink (uplink (fs_input (te_frames t)))) (te_programs t) (next_seq (fs_input (te_frames t))) (te_attempts t).
Definition in_export {A} (m : M Export A) : M Telemetry A :=
  zoom export_of (λ x t, mk_telemetry (mk_frames (FileInput.mk_input (mk_uplink (ex_world x) (ex_sink x)) (ex_seq x)) (fs_sent (te_frames t)))
    (te_read t) (te_starts t) (ex_programs x) (ex_attempts x) (te_posted t)) m.
Definition report_of t : Report := mk_report (world (uplink (fs_input (te_frames t)))) (te_posted t).
Definition in_report {A} (m : M Report A) : M Telemetry A :=
  zoom report_of (λ r t, mk_telemetry (mk_frames (FileInput.mk_input (mk_uplink (rp_world r) (sink (uplink (fs_input (te_frames t))))) (next_seq (fs_input (te_frames t))))
    (fs_sent (te_frames t))) (te_read t) (te_starts t) (te_programs t) (te_attempts t) (rp_posted r)) m.
Definition the_sink : M Telemetry SinkState := in_frames (on_frames (in_uplink (gets sink))).

(** [build_telemetry_sink] *)
Definition build_telemetry_sink (work : AppliedWorkGrant) (output : LogsOutputSection) : M Telemetry unit :=
  let framing := match len_framing_required output (wl_input <$> log_inputs work) with Some _ => Some Len | None => None end in
  in_frames (on_frames (in_uplink (in_sink (make_sink output framing)))).

(** The fact summary of a tick, and what a forced report tells of it. *)
Definition send_facts (summary : FactSummaryDraft) (force : bool) (forced : option FactReportAttempt) : M Telemetry (bool * option FactReportAttempt) :=
  s ← the_sink;
  if carries_fact s then
    outcome ← in_frames (send_fact_summary names (tg_state_dir config) summary force);
    mret (match outcome with FactReported => true | _ => false end, (λ slot, record_forced_fact_report slot outcome) <$> forced)
  else mret (false, forced).

(** The lines of the metrics snapshot, if this tick has one. *)
Definition send_metrics_lines (metrics : option (list VmMetricLine)) (send_metrics : bool) : M Telemetry unit :=
  match metrics with
  | Some lines_ =>
      if send_metrics then try (in_frames (write_metrics_uplink (tg_state_dir config) (default "unknown" (an_agent_id names)) lines_));; mret tt
      else mret tt
  | None => mret tt
  end.
Definition send_snapshot_frame (send : bool) (snapshot : option DiscoverySnapshot) : M Telemetry unit :=
  s ← the_sink;
  if send && carries_discovery s then in_frames (send_discovery_snapshot_report names (tg_state_dir config) snapshot) else mret tt.

(** The tick's telemetry, whether the facts were reported, and the forced report; [None] when the fuel of the
    inputs does not last. *)
Definition telemetry_tick (fuel : nat) (work : AppliedWorkGrant) (effective : LogsOutputSection) (metrics : option (list VmMetricLine))
    (summary : FactSummaryDraft) (snapshot : option DiscoverySnapshot) (send_metrics send_snapshot force : bool) (forced : option FactReportAttempt) :
    M Telemetry (option (TelemetryTick * bool * option FactReportAttempt)) :=
  built ← try (build_telemetry_sink work effective);
  match built with
  | Err err =>
      let forced := (λ slot, mk_attempt (at_attempted slot) (at_reported slot) (Some ("构建遥测输出失败：" +:+ io_msg err))) <$> forced in
      mret (Some (if lo_enabled effective then invalid_output_tick (log_inputs work) (io_msg err) else silent, false, forced))
  | Ok _ =>
      if negb (lo_enabled effective) then
        reported ← send_facts summary force forced;
        mret (Some (silent, reported.1, reported.2))
      else
        send_metrics_lines metrics send_metrics;;
        reported ← send_facts summary force forced;
        send_snapshot_frame send_snapshot snapshot;;
        tick ← in_collect (process_telemetry_inputs readings fuel config work);
        match tick with
        | None => mret None
        | Some tick =>
            in_export (process_exporters (exporter_runs work) (tg_state_dir config) (default "unknown" (an_agent_id names)) (counter_path (tg_state_dir config)));;
            mret (Some (tick, reported.1, reported.2))
        end
  end.

(** What is told of a tick, and what is remembered of it. *)
Definition tick_news (enabled : bool) (now : string) (tick : TelemetryTick) (told : option (string + nat)) (memory : TickMemory) : TickNews * TickMemory :=
  let '(failed, sent) := uplink_tick tick in
  let '(line, failing) := note_tick failed sent (tm_failing memory) in
  let '(changes, paused) := pause_step (mk_pause_tick enabled (tt_notifications tick) now) (tm_paused memory) in
  (mk_news (filter_new_telemetry (tt_failures tick) (tm_failures memory)) changes line told, mk_memory (telemetry_signatures (tt_failures tick)) paused failing).

(** The log sources go out when the facts did; [looks] is how often the tree was looked at before. *)
Definition instance_id : string := default "local-instance" (an_instance_name names).
Definition tell_sources (looks : nat) (snapshot : option DiscoverySnapshot) (reported : bool) : M Telemetry (option (string + nat)) :=
  if reported then answer ← in_report (report_log_sources sources looks snapshot instance_id); mret (Some answer) else mret None.

(** The part as a whole, with the output the last grant and the configuration leave in effect. *)
Definition telemetry_part (fuel : nat) (work : AppliedWorkGrant) (grant : option AgentUplinkGrant) (metrics : option (list VmMetricLine))
    (summary : FactSummaryDraft) (snapshot : option DiscoverySnapshot) (send_metrics send_snapshot force : bool) (forced : option FactReportAttempt) (looks : nat) (memory : TickMemory) :
    M Telemetry (option (TelemetryTick * option FactReportAttempt * TickNews * TickMemory)) :=
  let effective := effective_output (lg_output (tg_logs config)) grant in
  r ← telemetry_tick fuel work effective metrics summary snapshot send_metrics send_snapshot force forced;
  match r with
  | None => mret None
  | Some (tick, reported, forced) =>
      told ← tell_sources looks snapshot reported;
      now ← in_frames (on_disk now_rfc3339);
      let '(news, memory) := tick_news (lo_enabled effective) now tick told memory in
      mret (Some (tick, forced, news, memory))
  end.
End TelemetryPart.

(** * Facts *)

Section TickFacts.
Context `{Host} `{!FileMeta} `{!SpoolEnv} `{LogContracts} `{!ContainerLookup} `{!LogCodecs} `{!RecordSink} `{!FilterContracts} `{!GlobSet}
  `{!WorkContracts} `{!UnicodeTables} `{!PolicyApi} `{!WireContracts} `{!FrameSink} `{!FrameSinkLaws} `{!ReportContracts} `{!FactContracts} `{!Json FactReportState}
  `{!Float64} `{!MetricTable} `{!Json VmMetricLine} `{Programs} `{JsonValues} `{ExporterContracts} `{ExporterCodec}
  `{Tree} `{ProcFs} `{!Json SourceSearchPolicy} `{SourcesGateway}.
Variables (readings : nat → Z) (make_sink : LogsOutputSection → option TcpFraming → M SinkState unit).
Variables (names : AgentNames) (config : TickConfig) (sources : SourcesConfig).
Hypothesis make_sink_quiet : ∀ output framing s, accepted (make_sink output framing s).2 = accepted s.
Implicit Types (t : Telemetry) (f : Frames).

Definition te_world t : World := fs_world (te_frames t).
Definition te_sink t : SinkState := sink (uplink (fs_input (te_frames t))).
(** The files the standby may write: the time of the last fact report and the counter. *)
Definition standby_file (q : string) : Prop := store_paths (fact_report_path_for (tg_state_dir config)) q ∨ store_paths (counter_path (tg_state_dir config)) q.

(** What a tick on standby leaves alone. *)
Record on_standby f f' : Prop := mk_on_standby {
  sb_files : ∀ q, ¬ standby_file q → files (fs_world f') !! q = files (fs_world f) !! q;
  sb_accepted : accepted (sink (uplink (fs_input f'))) = accepted (sink (uplink (fs_input f)));
  sb_sent : ∃ sent, fs_sent f' = (fs_sent f ++ sent)%list ∧ Forall (λ s, se_kind s = FactFrame) sent;
}.
#[export] Instance on_standby_preorder : PreOrder on_standby.
Proof.
  split; [split; [done|done|exists []; by rewrite List.app_nil_r]|]. intros a b c [F1 A1 (l1 & S1 & K1)] [F2 A2 (l2 & S2 & K2)].
  split; [intros q Hq; by rewrite F2, F1|congruence|]. exists (l1 ++ l2)%list. by rewrite S2, S1, (assoc_L (++)%list), Forall_app.
Qed.
Lemma standby_disk {A} (c : M World A) F : (∀ q, F q → standby_file q) → respects (only_files F) c → respects on_standby (on_disk c).
Proof.
  intros HF Hc f. destruct (on_disk c f) as [r f'] eqn:E. apply on_disk_run in E as (w & E & ->). specialize (Hc (fs_world f)). rewrite E in Hc.
  destruct Hc as (Hf & _). split; [|done|exists []; by rewrite List.app_nil_r]. intros q Hq. apply Hf. naive_solver.
Qed.
Lemma standby_input {A} (c : M Input A) : (∀ i, uplink (c i).2 = uplink i) → respects on_standby (on_frames c).
Proof.
  intros Hc f. destruct (on_frames c f) as [r f'] eqn:E. apply on_frames_run in E as (i & E & ->). specialize (Hc (fs_input f)). rewrite E in Hc. cbn in Hc.
  split; [|cbn; by rewrite Hc|exists []; by rewrite List.app_nil_r]. intros q _. unfold fs_world. cbn [snd fs_input]. by rewrite Hc.
Qed.
Lemma standby_hand_over k (c : M SinkState unit) : (∀ s, accepted (c s).2 = accepted s) → respects on_standby (hand_over FactFrame k c).
Proof.
  intros Hc f. unfold hand_over. rewrite modify_then. destruct (on_frames (in_uplink (in_sink c)) _) as [r f'] eqn:E. apply on_frames_run in E as (i & E & ->).
  apply in_uplink_run in E as (u & E & ->). unfold in_sink, zoom in E. cbn [fs_input] in E. specialize (Hc (sink (uplink (fs_input f)))).
  destruct (c (sink (uplink (fs_input f)))) as [r0 s0] eqn:Ec. injection E as <- <-. cbn [snd] in Hc. split; [done|exact Hc|]. eexists. split; [done|]. by repeat constructor.
Qed.
Lemma standby_facts summary force : respects on_standby (report_fact_summary_with names (tg_state_dir config) summary force).
Proof.
  unfold report_fact_summary_with. destruct (an_agent_id names) as [agent_id|]; [|by apply respects_ret, _]. cbv zeta.
  apply respects_bind; [apply _|apply respects_try, (standby_disk _ (λ _, False)); [tauto|]|intros loaded].
  { intros w. by rewrite fact_load_same. }
  apply respects_bind; [apply _|apply (standby_disk _ (λ _, False)); [tauto|by apply respects_gets, _]|intros now_ms].
  destruct (negb force && _); [by apply respects_ret, _|]. apply respects_bind; [apply _|apply (standby_disk _ (λ _, False)); [tauto|by apply respects_gets, _]|intros at_].
  apply respects_bind; [apply _|apply respects_try, (standby_disk _ (store_paths (fact_report_path_for (tg_state_dir config)))); [by left|by apply write_json_respects]|intros _].
  apply respects_bind; [apply _|by apply respects_of_result, _|intros body]. apply respects_bind; [apply _|apply standby_input; by intros []|intros seq].
  apply respects_bind; [apply _| |intros _].
  { apply respects_bind; [apply _|apply standby_input; by intros []|intros n].
    apply (standby_disk _ (store_paths (counter_path (tg_state_dir config)))); [by right|by apply write_json_respects]. }
  apply respects_bind; [apply _|apply standby_hand_over; intros s; apply fact_no_record|intros _; by apply respects_ret, _].
Qed.
Lemma standby_send_facts summary force : respects on_standby (send_fact_summary names (tg_state_dir config) summary force).
Proof. intros f. rewrite send_fact_state. apply standby_facts. Qed.

(** A step of the frames leaves the rest of the telemetry alone. *)
Record only_frames t t' : Prop := mk_only_frames {
  of_read : te_read t' = te_read t;
  of_starts : te_starts t' = te_starts t;
  of_programs : te_programs t' = te_programs t;
  of_attempts : te_attempts t' = te_attempts t;
  of_standby : on_standby (te_frames t) (te_frames t');
}.
#[export] Instance only_frames_preorder : PreOrder only_frames.
Proof. split; [by split|]. intros a b c [] []. split; by etrans. Qed.
Lemma in_frames_only {A} (m : M Frames A) : respects on_standby m → respects only_frames (in_frames m).
Proof. intros Hm t. specialize (Hm (te_frames t)). unfold in_frames, zoom. destruct (m (te_frames t)) as [r f]. by split. Qed.
Lemma the_sink_run t : the_sink t = (Ok (te_sink t), t).
Proof. by destruct t as [[[[] ?] ?] ? ? ? ? ?]. Qed.
Lemma send_facts_only summary force forced : respects only_frames (send_facts names config summary force forced).
Proof.
  unfold send_facts. apply respects_bind; [apply _|intros t; by rewrite the_sink_run|intros s]. destruct (carries_fact s); [|by apply respects_ret, _].
  apply respects_bind; [apply _|apply in_frames_only, standby_send_facts|intros; by apply respects_ret, _].
Qed.
Lemma build_only work output : respects only_frames (build_telemetry_sink make_sink work output).
Proof.
  unfold build_telemetry_sink. apply in_frames_only. intros f. destruct (on_frames _ f) as [r f'] eqn:E. apply on_frames_run in E as (i & E & ->).
  apply in_uplink_run in E as (u & E & ->). unfold in_sink, zoom in E.
  match type of E with context [make_sink ?o ?fr ?s] => pose proof (make_sink_quiet o fr s) as Hq; destruct (make_sink o fr s) as [r0 s0] end.
  injection E as <- <-. split; [done|exact Hq|exists []; by rewrite List.app_nil_r].
Qed.

Lemma tell_sources_run looks snapshot reported t : ∃ told t', tell_sources names sources looks snapshot reported t = (Ok told, t') ∧ only_frames t t'.
Proof.
  unfold tell_sources. destruct reported; [|by exists None, t].
  destruct (report_log_sources_run sources looks snapshot (instance_id names) (report_of t)) as (answer & r' & E & Hw).
  unfold in_report, mbind, M_bind, zoom. rewrite E. eexists _, _. split; [reflexivity|]. split; [done..|].
  split; [|done|exists []; by rewrite List.app_nil_r]. intros q _. unfold fs_world. cbn. by rewrite Hw.
Qed.

Lemma in_frames_infallible {A} (m : M Frames A) : infallible m → infallible (in_frames m).
Proof. apply infallible_zoom. Qed.
Lemma send_fact_summary_infallible summary force : infallible (send_fact_summary names (tg_state_dir config) summary force).
Proof. apply infallible_bind; [apply infallible_try|intros; apply infallible_ret]. Qed.
Lemma send_facts_infallible summary force forced : infallible (send_facts names config summary force forced).
Proof.
  apply infallible_bind; [intros t; rewrite the_sink_run; by eexists _, _|intros s]. destruct (carries_fact s); [|apply infallible_ret].
  apply infallible_bind; [apply in_frames_infallible, send_fact_summary_infallible|intros; apply infallible_ret].
Qed.

(** With the gate closed. *)
Lemma closed_tick fuel work effective metrics summary snapshot send_metrics send_snapshot force forced t : lo_enabled effective = false →
  ∃ reported forced' t', telemetry_tick readings make_sink names config fuel work effective metrics summary snapshot send_metrics send_snapshot force forced t =
    (Ok (Some (silent, reported, forced')), t') ∧ only_frames t t'.
Proof.
  intros Hoff. unfold telemetry_tick. destruct (build_telemetry_sink make_sink work effective t) as [r t1] eqn:E1.
  pose proof (build_only work effective t) as H1'. rewrite E1 in H1'. cbn [snd] in H1'. erewrite bind_ok by (apply try_run, E1). rewrite Hoff. cbn [negb].
  destruct r as [[]|err]; [|by eexists _, _, _].
  destruct (send_facts_infallible summary force forced t1) as (reported & t2 & E2). pose proof (send_facts_only summary force forced t1) as H2'. rewrite E2 in H2'.
  erewrite bind_ok by exact E2. eexists _, _, _. split; [done|]. by etrans.
Qed.
Lemma clock_reading {A} (g : World → A) t : ∃ a, in_frames (on_disk (gets g)) t = (Ok a, t).
Proof. unfold in_frames, zoom. destruct (now_keeps g (te_frames t)) as [a ->]. exists a. by destruct t. Qed.

(** C11. While the output is switched off, by the configuration or by the gateway, a tick leaves every source
    alone: it reads no input, starts no exporter, hands over no record and, of the frames, at most fact
    summaries, which the report of the log sources may follow; of all files only the time of the last summary and the counter change, so no checkpoint, spool
    or cursor moves, and the inputs go on later where they were; nothing is told, and the pauses and failures
    of the output are remembered as they were.  This holds whatever fails. *)
Theorem closed_gate_keeps_sources fuel work grant metrics summary snapshot send_metrics send_snapshot force forced looks memory t :
  lo_enabled (effective_output (lg_output (tg_logs config)) grant) = false →
  ∃ forced' told memory' t', telemetry_part readings make_sink names config sources fuel work grant metrics summary snapshot send_metrics send_snapshot force forced looks memory t =
      (Ok (Some (silent, forced', mk_news [] [] None told, memory')), t') ∧
    te_read t' = te_read t ∧ te_starts t' = te_starts t ∧ te_attempts t' = te_attempts t ∧
    accepted (te_sink t') = accepted (te_sink t) ∧
    (∃ sent, fs_sent (te_frames t') = (fs_sent (te_frames t) ++ sent)%list ∧ Forall (λ s, se_kind s = FactFrame) sent) ∧
    (∀ q, ¬ standby_file q → files (te_world t') !! q = files (te_world t) !! q) ∧
    tm_paused memory' = tm_paused memory ∧ tm_failing memory' = tm_failing memory.
Proof.
  intros Hoff. unfold telemetry_part. cbv zeta.
  destruct (closed_tick fuel work _ metrics summary snapshot send_metrics send_snapshot force forced t Hoff) as (reported & forced' & t1 & E1 & Hall).
  erewrite bind_ok by exact E1. cbv beta iota. destruct (tell_sources_run looks snapshot reported t1) as (told & t2 & E3 & Hall2).
  erewrite bind_ok by exact E3. destruct (transitivity Hall Hall2) as [Hr Hs Hp Ha [Hf Hacc Hsent]]. clear Hall Hall2. unfold now_rfc3339. destruct (clock_reading (λ w, rfc3339 (clock w)) t2) as [now E2]. erewrite bind_ok by exact E2. rewrite Hoff.
  unfold tick_news. cbn [silent uplink_tick tt_failures tt_outcomes tt_notifications tells existsb note_tick andb]. rewrite andb_false_r.
  eexists _, _, _, _. split; [reflexivity|]. by split_and!.
Qed.

(** With the gate open. *)
Lemma metrics_lines_infallible metrics send : infallible (send_metrics_lines names config metrics send).
Proof.
  unfold send_metrics_lines. destruct metrics, send; try apply infallible_ret. apply infallible_bind; [apply infallible_try|intros; apply infallible_ret].
Qed.
Lemma snapshot_infallible send snapshot : infallible (send_snapshot_frame names config send snapshot).
Proof.
  apply infallible_bind; [intros t; rewrite the_sink_run; by eexists _, _|intros s]. destruct (send && _); [|apply infallible_ret].
  apply in_frames_infallible. unfold send_discovery_snapshot_report. destruct snapshot, (an_agent_id names); try apply infallible_ret.
  apply infallible_bind; [apply infallible_try|intros; apply infallible_ret].
Qed.
Lemma process_run_infallible agent_id now run sc : infallible (process_run (tg_state_dir config) agent_id now run sc).
Proof.
  unfold process_run. destruct (def (we_exporter_id run)) as [d|]; [|apply infallible_ret].
  apply infallible_bind; [destruct (uses_cursor _); [apply infallible_on_world, load_cursor_infallible|apply infallible_ret]|intros cursor].
  apply infallible_bind; [apply infallible_gets|intros x]. destruct (argv_for_run _ _ _ _) as [argv|e]; [|apply infallible_ret]. cbv zeta.
  destruct (negb _); [apply infallible_ret|]. destruct (negb _); [apply infallible_ret|].
  apply infallible_bind; [apply infallible_modify|intros _]. apply infallible_bind; [apply run_exporter_infallible|intros; apply infallible_ret].
Qed.
Lemma save_state_infallible state : infallible (save_state (tg_state_dir config) state).
Proof.
  unfold save_state. apply infallible_bind; [apply infallible_try|intros []; [|apply infallible_ret]].
  apply infallible_bind; [apply infallible_try|intros; apply infallible_ret].
Qed.
Lemma process_exporters_infallible runs agent_id path : infallible (process_exporters runs (tg_state_dir config) agent_id path).
Proof.
  assert (Hruns : ∀ now rs sc, infallible (process_runs (tg_state_dir config) agent_id now rs sc)).
  { intros now rs. induction rs as [|run rs IH]; intros sc; [apply infallible_ret|]. apply infallible_bind; [apply process_run_infallible|intros; apply IH]. }
  unfold process_exporters. apply infallible_bind.
  { apply infallible_on_world. apply infallible_bind; [apply infallible_try|intros; apply infallible_ret]. }
  intros state. cbv zeta. destruct runs as [|run runs].
  { unfold when. destruct (negb _); [apply infallible_on_world, save_state_infallible|apply infallible_ret]. }
  apply infallible_bind; [apply infallible_on_world, infallible_gets|intros now]. apply infallible_bind; [apply Hruns|intros sc].
  apply infallible_bind; [unfold when; destruct (sc_changed sc); [apply infallible_on_world, save_state_infallible|apply infallible_ret]|intros _].
  destruct (sc_ran sc); [|apply infallible_ret]. apply infallible_bind; [apply infallible_gets|intros n].
  apply infallible_bind; [apply infallible_try|intros; apply infallible_ret].
Qed.
Lemma inputs_return work c : (∀ x, ∃ K, ∀ j, K ≤ j → (x ≤ readings j)%Z) →
  ∃ enough tick c', ∀ fuel, enough ≤ fuel → process_telemetry_inputs readings fuel config work c = (Ok (Some tick), c').
Proof.
  intros Htime. destruct (Htime (readings (co_read c) + lg_catchup_budget_ms (tg_logs config))%Z) as [K HK].
  assert (Hb : ∃ b c1, CatchupBudget_new readings (tg_logs config) c = (Ok b, c1) ∧ (cu_slice b = None ∨ ∃ d, cu_deadline b = Some d ∧ ∀ j, K ≤ j → (d ≤ readings j)%Z)).
  { unfold CatchupBudget_new. destruct (_ || _); eexists _, _; (split; [done|]); [by left|]. right. by eexists. }
  destruct Hb as (b & c1 & Eb & HK'). destruct (process_entries_run readings K (S K) b config (log_inputs work) silent c1 HK') as (tick & c' & _ & E & _); [lia|].
  exists (S K), tick, c'. intros fuel Hf. unfold process_telemetry_inputs. erewrite bind_ok by exact Eb. by eapply process_entries_more.
Qed.

(** C19. The telemetry never fails the tick: whatever goes wrong with the output, the frames, the inputs, the
    exporters or their files, the part ends and returns what there is to tell, and the tick goes on with the
    executions; it ends because the monotonic clock goes on. *)
Theorem telemetry_never_fails work grant metrics summary snapshot send_metrics send_snapshot force forced looks memory t :
  (∀ x, ∃ K, ∀ j, K ≤ j → (x ≤ readings j)%Z) →
  ∃ enough told t', ∀ fuel, enough ≤ fuel →
    telemetry_part readings make_sink names config sources fuel work grant metrics summary snapshot send_metrics send_snapshot force forced looks memory t = (Ok (Some told), t').
Proof.
  intros Htime. set (effective := effective_output (lg_output (tg_logs config)) grant).
  assert (Htick : ∃ enough tick reported forced' t', ∀ fuel, enough ≤ fuel →
    telemetry_tick readings make_sink names config fuel work effective metrics summary snapshot send_metrics send_snapshot force forced t = (Ok (Some (tick, reported, forced')), t')).
  { unfold telemetry_tick. destruct (infallible_try (build_telemetry_sink make_sink work effective) t) as ([u|err] & t1 & E1).
    2: { exists 0. eexists _, _, _, _. intros fuel _. by erewrite bind_ok by exact E1. }
    destruct (lo_enabled effective) eqn:Eon.
    2: { destruct (send_facts_infallible summary force forced t1) as (reported & t2 & E2). exists 0. eexists _, _, _, _. intros fuel _.
         erewrite bind_ok by exact E1. cbn [negb]. by erewrite bind_ok by exact E2. }
    destruct (metrics_lines_infallible metrics send_metrics t1) as (u2 & t2 & E2). destruct (send_facts_infallible summary force forced t2) as (reported & t3 & E3).
    destruct (snapshot_infallible send_snapshot snapshot t3) as (u4 & t4 & E4). destruct (inputs_return work (collect_of t4) Htime) as (enough & tick & c5 & E5).
    set (t5 := mk_telemetry (mk_frames (co_input c5) (fs_sent (te_frames t4))) (co_read c5) (co_starts c5) (te_programs t4) (te_attempts t4) (te_posted t4)).
    destruct (infallible_zoom export_of (λ x t, mk_telemetry (mk_frames (FileInput.mk_input (mk_uplink (ex_world x) (ex_sink x)) (ex_seq x)) (fs_sent (te_frames t)))
      (te_read t) (te_starts t) (ex_programs x) (ex_attempts x) (te_posted t)) _ (process_exporters_infallible (exporter_runs work) (default "unknown" (an_agent_id names)) (counter_path (tg_state_dir config))) t5) as (u6 & t6 & E6).
    exists enough, tick, reported.1, reported.2, t6. intros fuel Hf. erewrite bind_ok by exact E1. cbn [negb].
    erewrite bind_ok by exact E2. erewrite bind_ok by exact E3. erewrite bind_ok by exact E4.
    assert (E5' : in_collect (process_telemetry_inputs readings fuel config work) t4 = (Ok (Some tick), t5)) by (unfold in_collect, zoom; by rewrite E5).
    erewrite bind_ok by exact E5'. cbv beta iota. unfold in_export. by erewrite bind_ok by exact E6. }
  destruct Htick as (enough & tick & reported & forced' & t0 & E1). destruct (tell_sources_run looks snapshot reported t0) as (answer & t1 & E3 & _). destruct (clock_reading (λ w, rfc3339 (clock w)) t1) as [now E2].
  destruct (tick_news (lo_enabled effective) now tick answer memory) as [news memory'] eqn:En. exists enough, (tick, forced', news, memory'), t1. intros fuel Hf.
  unfold telemetry_part. cbv zeta. fold effective. erewrite bind_ok by exact (E1 fuel Hf). cbv beta iota. erewrite bind_ok by exact E3. unfold now_rfc3339. erewrite bind_ok by exact E2. by rewrite En.
Qed.
End TickFacts.

(** * A concrete tick *)

Module ConcreteTick.
Import ConcreteFiles ConcreteSink ConcreteSelect ConcreteInput ConcreteFamily ConcreteWork ConcreteSearch ConcretePolicies ConcreteExporters ConcreteMetrics ConcreteFacts ConcreteWire ConcreteInputs ConcreteFrames.

(** Outputs of two kinds can be built. *)
Definition toy_make (output : LogsOutputSection) (framing : option TcpFraming) : M SinkState unit :=
  if existsb (String.eqb (lo_kind output)) ["file"; "tcp"] then mret tt else throw (io_other "unknown output").
Lemma toy_make_quiet output framing (s : SinkState) : accepted (toy_make output framing s).2 = accepted s.
Proof. unfold toy_make. by destruct (existsb _ _). Qed.
Definition crash_input : Input := FileInput.mk_input (mk_uplink (MkWorld _ {[ "/a/crash.ips" := busy_log ]} {[ ""; "/a" ]} 5000 ∅) ([], true)) 0.
(** A process of which nothing is known, and a gateway that takes what it is sent. *)
#[export] Instance toy_proc_fs : ProcFs := {|
  pf_content _ := None; pf_read_dir _ := None; pf_read_link _ := None; pf_canonicalize _ := None; pf_is_dir _ := false;
|}.
#[export] Instance toy_sources_gateway : SourcesGateway := {|
  post_sources _ := PostAnswered 200 "ok";
  decode_ack _ := inr (mk_source_ack 1 0);
|}.
Definition toy_sources_config : SourcesConfig := mk_sources_config true (Some "http://gw/") (Some "agent-1") "st" (inr tt).
Definition with_process : DiscoverySnapshot :=
  mk_snapshot "v1" "s" 1 "t" [] [mk_resource "p9" "process" 0 [("process.executable.name", "redis-server"); ("process.pid", "9")] "t" "t" "healthy" "proc"] [].
Definition tick_start : Telemetry := mk_telemetry (mk_frames crash_input []) 0 [] (ex_programs (export_start true [])) [] [].
Definition no_memory : TickMemory := mk_memory ∅ {[ "work-a" ]} true.
Definition tick_under (grant : option AgentUplinkGrant) (work : AppliedWorkGrant) : result (option (TelemetryTick * option FactReportAttempt * TickNews * TickMemory)) * Telemetry :=
  telemetry_part steady_clock toy_make toy_names toy_tick_config toy_sources_config 9 work grant (Some two_lines) toy_summary (Some with_process) true true true (Some (mk_attempt false false None)) 0 no_memory tick_start.

(** The facts go out, and the log sources with them. *)
Example sources_follow_the_facts :
  (λ p, (p.1, ls_service <$> lr_sources p.2)) <$> te_posted (tick_under (Some (standby "t")) granted_state).2 =
    [("http://gw/api/v1/agent/log-sources", ["redis"])] ∧
  match (tick_under (Some (standby "t")) granted_state).1 with Ok (Some (_, _, news, _)) => tn_sources news = Some (inr 1) | _ => False end.
Proof. split; by vm_compute. Qed.

(** The same tick twice, by the grant: with the gate open the inputs are read, and with it closed only the fact
    summary goes out. *)
Lemma closed_gate_keeps_sources_witness :
  length (te_starts (tick_under None granted_state).2) = 1 ∧
  (se_kind <$> fs_sent (te_frames (tick_under (Some (standby "t")) granted_state).2)) = [FactFrame] ∧
  ∃ forced' told memory' t', tick_under (Some (standby "t")) granted_state = (Ok (Some (silent, forced', mk_news [] [] None told, memory')), t') ∧
    te_starts t' = [] ∧ accepted (te_sink t') = [] ∧ tm_paused memory' = {[ "work-a" ]}.
Proof.
  split; [vm_compute; reflexivity|]. split; [by vm_compute|].
  destruct (closed_gate_keeps_sources steady_clock toy_make toy_names toy_tick_config toy_sources_config toy_make_quiet 9 granted_state (Some (standby "t")) (Some two_lines) toy_summary
    (Some with_process) true true true (Some (mk_attempt false false None)) 0 no_memory tick_start) as (forced' & told & memory' & t' & E & _ & Hs & _ & Ha & _ & _ & Hp & _); [by vm_compute|].
  exists forced', told, memory', t'. split; [exact E|]. split; [exact Hs|]. split; [rewrite Ha; by vm_compute|exact Hp].
Defined.
Lemma telemetry_never_fails_witness :
  ∃ enough told t', ∀ fuel, enough ≤ fuel →
    telemetry_part steady_clock toy_make toy_names toy_tick_config toy_sources_config fuel granted_state None (Some two_lines) toy_summary (Some with_process) true true true None 0 no_memory tick_start = (Ok (Some told), t').
Proof.
  apply (telemetry_never_fails steady_clock toy_make toy_names toy_tick_config toy_sources_config granted_state None (Some two_lines) toy_summary (Some with_process) true true true None 0 no_memory tick_start).
  intros x. exists (Z.to_nat x). intros j Hj. unfold steady_clock. lia.
Defined.
End ConcreteTick.
